(* ===== verification/_CoqProject ===== *)
-Q . S2P
Prelude.v
CString.v
YashTypes.v
Parse.v
Posix.v
JobTable.v
Tables.v
Redirect.v
Launch.v
Yash.v
YashProps.v
YashExec.v
YashMain.v
Yashd.v
YashdProps.v
YashdSession.v
YashdJobs.v
YashdExec.v
YashdMain.v
Client.v
ClientProps.v
Daemon.v
DaemonProps.v
Bitmap.v
BitmapProps.v
FileSys.v
FileSysProps.v
DirProps.v
KList.v
KListProps.v
KListSort.v
KListMain.v
KString.v
KStringProps.v
KStringMain.v
Kernel.v
Sched.v
Synch.v
Threads.v
KernelInv.v
KernelLogic.v
KernelTrans.v
KernelSched.v
KernelSynch.v
KernelLocks.v
KernelConds.v
KernelMake.v
KernelThreads.v
KernelClient.v
KernelInit.v
KernelMain.v
Arith.v
KStdlib.v
KStdlibProps.v
KStdlibMain.v
KHash.v
KHashProps.v
KHashMain.v
KMalloc.v
KMallocProps.v
KMallocMain.v
KPalloc.v
KPallocMain.v
KRandom.v
KStdio.v
KStdioProps.v
KStdioMain.v
KConsole.v
KConsoleMain.v
KPageDir.v
KPageDirProps.v
KPageDirInv.v
KPageDirOps.v
KPageDirMain.v
KPageDirBoot.v
KUstar.v
KUstarMain.v
KProcess.v
KProcessMain.v
KBlock.v
