(* ===== verification/Prelude.v ===== *)
(** * System-prog: a verification library for yash, yashd and Pintos

    The repository holds three programs, each built on the ones before it in spirit
    only: they share no code at run time.

    - [Project 1/yash]: a job-control shell.  A line is parsed in place
      ([parse.c]), run in a process group of one or two children ([exec.c],
      [redirect.c]) or as a built-in ([builtins.c]), and tracked in a linked job table
      ([jobs.c]); [sig.c] and [main.c] hold the signals, the terminal and the loop.
    - [Project 2/yashd]: the same shell behind a TCP socket.  The daemon ([daemon.c],
      [transport.c], [server.c]) gives each connection to a thread ([session.c]) with
      its own job table; the client ([client.c]) copies bytes between the terminal
      and the socket.
    - [Project_3]: the Pintos kernel with its library.

    ** The files and what they model

    Every definition that stands for code has the name the code has.  A C function is
    a state transformer of the monad [M] below: it ends normally, it meets undefined
    behaviour ([Undef]: null, dangling and out-of-bounds accesses, failed assertions,
    signed overflow), or the bound of one of its loops is exhausted ([NoFuel]).  [wp]
    is its weakest precondition: [wp Full m Q s] says that [m] ends, without undefined
    behaviour, in a state that satisfies [Q].

    The shells ([Project 1/yash/src], [Project 2/yashd]):
    - [CString]: the libc string functions they call.  [YashTypes]: [cmd_t], [job_t]
      and the constants of the headers.  [Parse]: [parse.c], with the grammar as its
      specification.  [Posix]: the system calls; the answers of the kernel are
      arbitrary functions of the log of what has happened.
    - [JobTable], [Tables]: [jobs.c], the list of heap-allocated jobs, with [JobInv],
      the interface between the table and the invariants of the two programs.
      [Redirect], [Launch]: what both [exec.c] and [redirect.c] share.
    - [Yash], [YashProps], [YashExec], [YashMain]: the shell, its invariant, launching,
      and its theorems.
    - [Yashd], [YashdProps], [YashdSession], [YashdJobs], [YashdExec],
      [YashdMain]: the thread of one session.  [Daemon], [DaemonProps]: the main
      thread.  [Client], [ClientProps]: the client.

    Pintos, the file system ([Project_3/filesys], [lib/kernel/bitmap.c]) and its devices:
    - [KBlock] ([Project_3/devices]): [block.c] and [partition.c].
    - [Bitmap], [BitmapProps]: bitmaps.  [FileSys], [FileSysProps], [DirProps]: inodes,
      files, the free map, directories and the file system on a disk of sectors.

    Pintos, the library ([Project_3/lib]):
    - [KList], [KListProps], [KListSort], [KListMain]: doubly linked lists.  [KString],
      [KStringProps], [KStringMain]: [string.c].  [Arith]: 64-bit division.  [KStdlib],
      [KStdlibProps], [KStdlibMain]: [stdlib.c].  [KHash], [KHashProps], [KHashMain]:
      hash tables, over the class [Malloc].  [KRandom]: [random.c].  [KStdio],
      [KStdioProps], [KStdioMain]: formatted output.  [KConsole], [KConsoleMain]: the
      console.  [KUstar], [KUstarMain]: the headers of tar archives ([ustar.c]).

    Pintos, threads ([Project_3/threads]):
    - [Kernel]: the machine, a processor that executes the atomic actions of one thread
      at a time, with interrupts between any two of them; [interrupt.c] in part.
      [Sched], [Synch], [Threads]: [thread.c], [synch.c], [palloc.c] as [thread.c]
      uses it, the ticks of [timer.c].
    - [KernelInv], [KernelLogic], [KernelTrans], [KernelSched], [KernelSynch],
      [KernelLocks], [KernelConds], [KernelMake], [KernelThreads],
      [KernelClient], [KernelInit], [KernelMain]: the invariant, the logic of the
      programs, one file per group of functions, the idle thread and the clients,
      booting, and the theorems about all runs of the machine.
    - [KMalloc], [KMallocProps], [KMallocMain]: [malloc.c], over the class
      [PageSource].  [KPalloc], [KPallocMain]: [palloc.c] with addresses and memory,
      which implements that class.
    - [KPageDir]: [pte.h], [pagedir.c] and [paging_init], with the processor's walk
      through the tables and its cached translations.  [KPageDirProps]: entries and
      tables as words.  [KPageDirInv]: worlds, which know maps from pages to frames,
      and the relation between a world and the machine.  [KPageDirOps]: each operation.
      [KPageDirMain]: clients.  [KPageDirBoot]: [paging_init] after [palloc_init].
    - [KProcess], [KProcessMain] ([userprog/process.c]): loading and starting a program,
      on the machine of [KPageDir] joined with the file system of [FileSys].

    ** What the theorems show

    - Safety of whole programs, whatever the environment answers: [yash_safe],
      [session_safe], [kernel_safe], [locks_exclude], [client_copies],
      [allocator_serves].
    - They end when the environment lets them: [yash_terminates],
      [session_terminates]; and the algorithms end: [list_sort_sorts], [qsort_sorts].
    - Invariants of the kernel at every moment: [queues_hold_threads],
      [semaphores_count], [threads_own_pages]; of the console: [console_calls].
    - Refinement of abstract specifications: the grammar ([parse_line_grammar]), the
      bounded list of jobs ([jobs_add_refines]), the double-ended queue
      ([deque_refines]), the finite map ([hash_refines_map]), address spaces as maps
      from pages to frames ([address_spaces_refine]).
    - Functional behaviour on every branch: [child_runs_command], [exec_job_effect],
      [inode_write_exact], [inode_read_exact], [snprintf_prints],
      [readsocket_frames], [free_map_allocate_claims], [paging_init_maps],
      [load_builds]; nothing that a process took stays behind: [start_process_frees].
    - Exactness and bounds of machine arithmetic: [quotients_exact],
      [remainders_cut]; of what a hostile header can do: [ustar_parse_safe].
    - Round trips: [parse_print_roundtrip], [command_roundtrip], [dir_add_lookup],
      [ustar_roundtrip].
    - What goes wrong, proved of the code as it is: [full_table_leaks_child],
      [refused_buffer_overwrites], [sizes_wrap], [partition_scan_outcome] (an extended
      partition sends the scan into a recursion without end).

    ** Bounds and fuel

    A loop whose length the data bounds has that length as its fuel, and its theorem
    is about [Full] runs: the fuel is enough.  A loop whose length the environment
    decides (the read loops, the waits for children, the accept loop) has fuel as an
    argument: safety holds for every fuel, and the liveness theorems give a fuel that
    is enough once the environment has ended.  [size_t], [unsigned] and addresses wrap
    at 32 bits in Pintos; an [int] that overflows is undefined behaviour.  So is the
    number of a job after [INT_MAX]: the theorems about whole runs of the shells suppose
    that at most [INT_MAX] allocations are granted in a run ([FewAllocs]), and
    [jobs_add_refines] says what happens at the bound.  [FD_SET] of a descriptor from
    [FD_SETSIZE] on is undefined: the sockets of [session_safe] and [client_copies] are
    below it.  The theorems
    on the page allocator suppose less than 1 GB of memory, as addresses above
    [PHYS_BASE] would wrap otherwise.

    ** Not modelled

    - Of Pintos: the drivers that only talk to hardware ports, the assembly of the
      loader, the start-up and the interrupt stubs, the descriptor tables of the
      processor, [process_execute] (it calls [thread_create] of the machine
      of [Kernel], whose state is another), the utilities that run on the host, the
      example programs and the tests.  Each is listed in the manifest with the reason.
    - [malloc.c], [hash.c] and the console are seen as one thread calls them: their
      locks are the locks of [synch.c], which [locks_exclude] is about.
    - Of the shells: the other sessions of the daemon's process, which share only the
      descriptor table and the log file with the one that is modelled. *)

From stdpp Require Import base tactics list gmap strings.
From Stdlib Require Import Ascii ZArith Lia.

(** ** Scopes, hint databases and bytes *)

Declare Scope sysprog_scope.
Delimit Scope sysprog_scope with sysprog.

Create HintDb sysprog discriminated.
Create HintDb wp discriminated.

(** A C [char] is an [ascii]; a C array of [char] is a list of them. *)
Notation bytes := (list ascii).

(** [b "text"] is the bytes of a C string literal, without the terminating
    NUL. *)
Definition b (s : string) : bytes := String.list_ascii_of_string s.
Arguments b : simpl never.

Definition NUL : ascii := Ascii.zero.
Definition LF : ascii := "010"%char.
Definition CR : ascii := "013"%char.
Definition TAB : ascii := "009"%char.
Definition SP : ascii := " "%char.

(** ** Outcomes and the state monad of the C programs

    A C function is a state transformer.  It ends normally with a value and a
    state, it reaches undefined behaviour (a null, dangling or out-of-bounds
    access, a failed assertion), or the bound on the number of iterations of
    one of its loops is exhausted. *)

Inductive outcome (A : Type) : Type :=
  | Done (a : A)
  | Undef
  | NoFuel.
Arguments Done {_} _.
Arguments Undef {_}.
Arguments NoFuel {_}.

Definition M (S A : Type) : Type := S → outcome (A * S).

#[global] Instance M_ret S : MRet (M S) := λ A a s, Done (a, s).
#[global] Instance M_bind S : MBind (M S) := λ A B k m s,
  match m s with
  | Done (a, s') => k a s'
  | Undef => Undef
  | NoFuel => NoFuel
  end.

Definition get {S} : M S S := λ s, Done (s, s).
Definition gets {S A} (f : S → A) : M S A := λ s, Done (f s, s).
Definition modify {S} (f : S → S) : M S unit := λ s, Done (tt, f s).
Definition undef {S A} : M S A := λ _, Undef.

(** [assume_some o] dereferences: [None] is undefined behaviour. *)
Definition assume_some {S A} (o : option A) : M S A :=
  match o with Some a => mret a | None => undef end.

(** [when c m] is [if (c) m;]. *)
Definition when {S} (c : bool) (m : M S unit) : M S unit :=
  if c then m else mret tt.

(** A failed assertion is undefined behaviour. *)
Definition check {S} (c : bool) : M S unit := if c then mret tt else undef.

(** A loop with local variables [l].  The body yields [inl l'] to go on to
    the next iteration and [inr a] to leave the loop (or return from the
    function) with [a].  [fuel] bounds the number of iterations. *)
Fixpoint loop {S L A} (fuel : nat) (body : L → M S (L + A)) (l : L) : M S A :=
  match fuel with
  | O => λ _, NoFuel
  | Datatypes.S n =>
      r ← body l;
      match r with
      | inl l' => loop n body l'
      | inr a => mret a
      end
  end.

Arguments loop : simpl never.

Lemma loop_S {S L A} n (body : L → M S (L + A)) l :
  loop (Datatypes.S n) body l =
    (r ← body l; match r with inl l' => loop n body l' | inr a => mret a end).
Proof. done. Qed.

(** ** Weakest preconditions

    [wp t m Q s]: started in [s], [m] has no undefined behaviour and, if it
    ends, it ends in a state and with a value that satisfy [Q].  With
    [t = Full] the fuel must be enough as well. *)

Inductive mode := Partial | Full.

Definition wp {S A} (t : mode) (m : M S A) (Q : A → S → Prop) (s : S) : Prop :=
  match m s with
  | Done (a, s') => Q a s'
  | Undef => False
  | NoFuel => t = Partial
  end.

Section wp_rules.
Context {S : Type}.
Implicit Types (t : mode) (s : S).

Lemma wp_ret {A} t (a : A) Q s : Q a s → wp t (mret a) Q s.
Proof. done. Qed.

Lemma wp_bind {A B} t (m : M S A) (k : A → M S B) Q s :
  wp t m (λ a s', wp t (k a) Q s') s → wp t (m ≫= k) Q s.
Proof. unfold wp, mbind, M_bind. by destruct (m s) as [[a s']| |]. Qed.

Lemma wp_bind_inv {A B} t (m : M S A) (k : A → M S B) Q s :
  wp t (m ≫= k) Q s → wp t m (λ a s', wp t (k a) Q s') s.
Proof. unfold wp, mbind, M_bind. by destruct (m s) as [[a s']| |]. Qed.

Lemma wp_get t (Q : S → S → Prop) s : Q s s → wp t get Q s.
Proof. done. Qed.

Lemma wp_gets {A} t (f : S → A) Q s : Q (f s) s → wp t (gets f) Q s.
Proof. done. Qed.

Lemma wp_modify t (f : S → S) Q s : Q tt (f s) → wp t (modify f) Q s.
Proof. done. Qed.

Lemma wp_assume_some {A} t (o : option A) Q s a :
  o = Some a → Q a s → wp t (assume_some o) Q s.
Proof. by intros ->. Qed.

Lemma wp_check t (c : bool) Q s : c = true → Q tt s → wp t (check c) Q s.
Proof. by intros -> ?. Qed.

Lemma wp_full {A} t (m : M S A) Q s : wp Full m Q s → wp t m Q s.
Proof. unfold wp. by destruct (m s) as [[a s']| |]. Qed.

Lemma wp_when t c (m : M S unit) Q s :
  (c = true → wp t m Q s) → (c = false → Q tt s) → wp t (when c m) Q s.
Proof. destruct c; unfold when; auto using wp_ret. Qed.

Lemma wp_mono {A} t (m : M S A) (P Q : A → S → Prop) s :
  wp t m P s → (∀ a s', P a s' → Q a s') → wp t m Q s.
Proof. unfold wp. destruct (m s) as [[a s']| |]; auto. Qed.

Lemma wp_and {A} t (m : M S A) (P Q : A → S → Prop) s :
  wp t m P s → wp t m Q s → wp t m (λ a s', P a s' ∧ Q a s') s.
Proof. unfold wp. destruct (m s) as [[a s']| |]; auto. Qed.

(** Partial-correctness loop rule: an invariant on locals and state. *)
Lemma wp_loop {L A} (I : L → S → Prop) (Q : A → S → Prop)
    (body : L → M S (L + A)) :
  (∀ l s, I l s →
     wp Partial (body l)
       (λ r s', match r with inl l' => I l' s' | inr a => Q a s' end) s) →
  ∀ fuel l s, I l s → wp Partial (loop fuel body l) Q s.
Proof.
  intros Hbody fuel. induction fuel as [|n IH]; intros l s HI; [done|].
  rewrite loop_S. apply wp_bind. eapply wp_mono; [by apply Hbody|].
  intros [l'|a] s'; auto using wp_ret.
Qed.

(** Total-correctness loop rule: the measure decreases on every iteration
    that goes on, and the fuel exceeds it. *)
Lemma wp_loop_total {L A} (I : L → S → Prop) (Q : A → S → Prop)
    (mu : L → S → nat) (body : L → M S (L + A)) :
  (∀ l s, I l s →
     wp Full (body l)
       (λ r s', match r with
                | inl l' => I l' s' ∧ mu l' s' < mu l s
                | inr a => Q a s'
                end) s) →
  ∀ fuel l s, I l s → mu l s < fuel → wp Full (loop fuel body l) Q s.
Proof.
  intros Hbody fuel. induction fuel as [|n IH]; intros l s HI Hmu; [lia|].
  rewrite loop_S. apply wp_bind. eapply wp_mono; [by apply Hbody|].
  intros [l'|a] s'; [intros [??]; apply IH; [done|lia]|auto using wp_ret].
Qed.

(** A [Full] triple gives the run itself. *)
Lemma wp_total_run {A} (m : M S A) Q s :
  wp Full m Q s → ∃ a s', m s = Done (a, s') ∧ Q a s'.
Proof. unfold wp. destruct (m s) as [[a s']| |]; [eauto|done|done]. Qed.

Lemma wp_run {A} t (m : M S A) (Q : A → S → Prop) s a s' :
  wp t m Q s → m s = Done (a, s') → Q a s'.
Proof. unfold wp. intros H Hm. by rewrite Hm in H. Qed.

(** Undefined behaviour of a sequence: of its head, or of what follows. *)
Lemma undef_bind {A B} (m : M S A) (k : A → M S B) s :
  wp Full m (λ a s', k a s' = Undef) s → (m ≫= k) s = Undef.
Proof. unfold wp, mbind, M_bind. by destruct (m s) as [[]| |]. Qed.

Lemma undef_bind_l {A B} (m : M S A) (k : A → M S B) s : m s = Undef → (m ≫= k) s = Undef.
Proof. intros Hm. unfold mbind, M_bind. by rewrite Hm. Qed.

Lemma wp_no_undef {A} t (m : M S A) Q s : wp t m Q s → m s ≠ Undef.
Proof. unfold wp. by destruct (m s) as [[a s']| |]. Qed.

End wp_rules.

#[export] Hint Resolve wp_ret wp_get wp_gets wp_modify : wp.

(** One step of symbolic execution, and all of them. *)
Ltac wp_step :=
  lazymatch goal with
  | |- wp _ (mbind _ _) _ _ => apply wp_bind
  | |- wp _ (mret _) _ _ => apply wp_ret
  | |- wp _ get _ _ => apply wp_get
  | |- wp _ (gets _) _ _ => apply wp_gets
  | |- wp _ (modify _) _ _ => apply wp_modify
  | |- wp _ (when _ _) _ _ => apply wp_when; intros ?
  | |- wp _ (assume_some (Some _)) _ _ => eapply wp_assume_some; [reflexivity|]
  | |- wp _ (if ?c then _ else _) _ _ => destruct c eqn:?
  end.
Ltac wp_steps := repeat (wp_step; simpl).

(** ** Generic lemmas on lists and options *)

Section list_lemmas.
Context {A : Type}.
Implicit Types (l : list A) (i : nat).

Lemma last_Some_app l x : last l = Some x ↔ ∃ l', l = l' ++ [x].
Proof. split; [apply last_Some|]. intros [l' ->]. apply last_snoc. Qed.

Lemma list_insert_middle l1 l2 x y n :
  n = length l1 → <[n := y]> (l1 ++ x :: l2) = l1 ++ y :: l2.
Proof. intros ->. induction l1; simpl; by f_equal. Qed.

Lemma elem_of_middle l1 l2 x : x ∈ l1 ++ x :: l2.
Proof. apply elem_of_app. right. by left. Qed.

Lemma list_alter_middle (f : A → A) l1 l2 x n :
  n = length l1 → alter f n (l1 ++ x :: l2) = l1 ++ f x :: l2.
Proof. intros ->. induction l1; simpl; by f_equal/=. Qed.

End list_lemmas.
#[export] Hint Resolve elem_of_middle : sysprog.

(** ** Blocks

    [overwrite ofs src buf] is [buf] after [memcpy(buf + ofs, src, n)] of the [n]
    elements [src]. *)

Definition overwrite {A} (ofs : nat) (src buf : list A) : list A :=
  take ofs buf ++ src ++ drop (ofs + length src) buf.

Section overwrite.
Context {A : Type}.
Implicit Types (src bs a c buf : list A) (ofs o n : nat).

Lemma overwrite_length ofs src buf :
  (ofs + length src ≤ length buf) → length (overwrite ofs src buf) = length buf.
Proof. intros H. unfold overwrite. rewrite !length_app, length_take, length_drop. lia. Qed.

Lemma overwrite_overwrite ofs a c buf :
  (ofs + length a + length c ≤ length buf) →
  overwrite (ofs + length a) c (overwrite ofs a buf) = overwrite ofs (a ++ c) buf.
Proof.
  intros H. unfold overwrite. rewrite length_app.
  assert (length (take ofs buf) = ofs) as Ho by (rewrite length_take; lia).
  assert (∀ n x, take (ofs + n) (take ofs buf ++ x) = take ofs buf ++ take n x) as Ht.
  { intros n x. rewrite <- Ho at 1. by rewrite take_app_add. }
  assert (∀ n x, drop (ofs + n) (take ofs buf ++ x) = drop n x) as Hdr.
  { intros n x. rewrite <- Ho at 1. by rewrite drop_app_add. }
  rewrite Ht, <- Nat.add_assoc, Hdr. rewrite take_app_length, drop_app_add.
  rewrite drop_drop, <- !app_assoc. do 4 f_equal. lia.
Qed.

Lemma overwrite_nil o buf : overwrite o [] buf = buf.
Proof. unfold overwrite. cbn [length app]. rewrite Nat.add_0_r. apply take_drop. Qed.

Lemma overwrite_before n o bs c :
  (n ≤ o) → (o ≤ length c) → take n (overwrite o bs c) = take n c.
Proof.
  intros Hn Ho. unfold overwrite. rewrite take_app_le by (rewrite length_take; lia).
  rewrite take_take. f_equal. lia.
Qed.

Lemma overwrite_after n o bs c :
  (o + length bs ≤ n) → (o ≤ length c) → drop n (overwrite o bs c) = drop n c.
Proof.
  intros Hn Ho. unfold overwrite.
  assert (length (take o c) = o) as Hl by (rewrite length_take; lia).
  rewrite drop_app_ge by lia. rewrite drop_app_ge by lia. rewrite Hl, drop_drop. f_equal. lia.
Qed.

Lemma overwrite_mid o bs c :
  (o ≤ length c) → drop o (overwrite o bs c) = bs ++ drop (o + length bs) c.
Proof.
  intros Ho. unfold overwrite.
  assert (length (take o c) = o) as Hl by (rewrite length_take; lia).
  rewrite <- Hl at 1. by rewrite drop_app_length.
Qed.

Lemma overwrite_lookup o bs c k :
  o + length bs ≤ length c →
  overwrite o bs c !! k = if decide (o ≤ k < o + length bs) then bs !! (k - o) else c !! k.
Proof.
  intros H. unfold overwrite. assert (length (take o c) = o) as Ho by (rewrite length_take; lia).
  case_decide as Hk.
  - rewrite lookup_app_r, Ho, lookup_app_l by lia. done.
  - destruct (decide (k < o)) as [Hlt|Hge].
    + rewrite lookup_app_l by lia. by apply lookup_take_lt.
    + rewrite lookup_app_r, Ho, lookup_app_r, lookup_drop by lia. f_equal. lia.
Qed.

End overwrite.

(** ** 32-bit arithmetic *)

Definition INT_MAX : Z := 2147483647.
Definition INT_MIN : Z := -2147483648.

Definition wrap_u32 (z : Z) : Z := (z mod 4294967296)%Z.

(** [%d] of [printf]: the decimal digits of a 32-bit integer. *)
Definition digit (z : Z) : ascii := ascii_of_N (Z.to_N (48 + z mod 10)).

Fixpoint dec_digits (fuel : nat) (z : Z) (acc : bytes) : bytes :=
  match fuel with
  | O => acc
  | S n =>
      let acc' := digit z :: acc in
      if bool_decide (z / 10 = 0)%Z then acc' else dec_digits n (z / 10)%Z acc'
  end.

(** Ten digits are enough for [|z| < 10^10], so for any [int]. *)
Definition fmt_d (z : Z) : bytes :=
  if bool_decide (z < 0)%Z
  then "-"%char :: dec_digits 10 (- z)%Z []
  else dec_digits 10 z [].

Lemma dec_digits_length n z acc :
  length (dec_digits n z acc) ≤ n + length acc.
Proof.
  revert z acc. induction n as [|n IH]; intros z acc; simpl; [lia|].
  case_bool_decide; simpl; [lia|].
  etrans; [apply IH|]. simpl. lia.
Qed.

Lemma fmt_d_length z : length (fmt_d z) ≤ 11.
Proof.
  unfold fmt_d. case_bool_decide; cbn [length].
  - pose proof (dec_digits_length 10 (- z) []). simpl in *. lia.
  - pose proof (dec_digits_length 10 z []). simpl in *. lia.
Qed.

(** ** Loops that the environment ends, for any state

    [ev] counts the events so far.  In [Full] mode a turn that goes on must have
    started before the [B]-th event and have produced one. *)
Lemma wp_loop_events {S L A} t fuel B (ev : S → nat) (I : L → S → Prop) (Q : A → S → Prop)
    (body : L → M S (L + A)) :
  (t = Full → B < fuel) →
  (∀ l s, I l s →
     wp t (body l)
       (λ r s', match r with
                | inl l' => I l' s' ∧ (t = Full → ev s < B ∧ ev s < ev s')
                | inr a => Q a s'
                end) s) →
  ∀ l s, I l s → wp t (loop fuel body l) Q s.
Proof.
  intros Hf Hbody l s HI. destruct t.
  - eapply (wp_loop I); [|done]. intros l1 s1 HI1. eapply wp_mono; [by apply Hbody|].
    intros [l2|a] s2; [by intros [? _]|done].
  - eapply (wp_loop_total I Q (λ _ s, B - ev s)); [|done|specialize (Hf eq_refl); lia].
    intros l1 s1 HI1. eapply wp_mono; [by apply Hbody|].
    intros [l2|a] s2; [|done]. intros [? Hev]. split; [done|].
    destruct (Hev eq_refl). lia.
Qed.
