(* ===== verification/CString.v ===== *)
(** * C strings: the libc string functions the programs call

    A [char] array is a list of [ascii]; a C string is what precedes its first
    NUL.  The functions below are the ones used by
    [Project 1/yash/src/parse.c], [Project 2/yashd/server/src/session.c] and
    their neighbours: [strlen], [strcpy], [strcmp], [strncmp], [strspn],
    [strcspn], [memchr], [memset], [strtok_r], with the behaviour the C
    standard and POSIX give them. *)

From S2P Require Import Prelude.
From stdpp Require Import base tactics list gmap strings.
From Stdlib Require Import Ascii ZArith Lia.

(** ** Definitions *)

(** The C string at the start of an array. *)
Fixpoint cstr (l : bytes) : bytes :=
  match l with
  | [] => []
  | c :: l' => if bool_decide (c = NUL) then [] else c :: cstr l'
  end.

Definition strlen (l : bytes) : nat := length (cstr l).

(** [strcpy(dst, src)]: the rest of [dst] is left as it was. *)
Definition strcpy (dst src : bytes) : bytes :=
  cstr src ++ NUL :: drop (S (strlen src)) dst.

(** [strcmp(x, y) == 0]. *)
Definition streq (x y : bytes) : bool := bool_decide (cstr x = cstr y).

(** [strncmp(x, y, n) == 0]. *)
Definition strneq (n : nat) (x y : bytes) : bool :=
  bool_decide (take n (cstr x) = take n (cstr y)).

(** Length of the longest prefix made of characters in [set]. *)
Fixpoint strspn (set : bytes) (l : bytes) : nat :=
  match l with
  | [] => 0
  | c :: l' =>
      if bool_decide (c = NUL) then 0
      else if bool_decide (c ∈ set) then S (strspn set l') else 0
  end.

(** Length of the longest prefix of the string without characters of [set]. *)
Fixpoint strcspn (set : bytes) (l : bytes) : nat :=
  match l with
  | [] => 0
  | c :: l' =>
      if bool_decide (c = NUL) then 0
      else if bool_decide (c ∈ set) then 0 else S (strcspn set l')
  end.

(** [memchr(l, c, length l)]: the index of the first [c]. *)
Fixpoint memchr (c : ascii) (l : bytes) : option nat :=
  match l with
  | [] => None
  | x :: l' => if bool_decide (x = c) then Some 0 else S <$> memchr c l'
  end.

(** [strtok_r]: the scan position is an index into the array.  Returns the
    start of the next token (or [None] for a null result), the new scan
    position and the array, in which the delimiter that ends the token has
    been overwritten by a NUL. *)
Definition strtok_r (delims : bytes) (arr : bytes) (pos : nat)
    : option nat * nat * bytes :=
  let start := pos + strspn delims (drop pos arr) in
  match arr !! start with
  | None => (None, start, arr)
  | Some c =>
      if bool_decide (c = NUL) then (None, start, arr)
      else
        let stop := start + strcspn delims (drop start arr) in
        match arr !! stop with
        | None => (Some start, stop, arr)
        | Some c' =>
            if bool_decide (c' = NUL) then (Some start, stop, arr)
            else (Some start, S stop, <[stop := NUL]> arr)
        end
  end.

(** Reference definition: the maximal runs of non-delimiters of a string. *)
Fixpoint split_words (delims : bytes) (cur : bytes) (l : bytes) : list bytes :=
  let flush := match cur with [] => [] | _ => [cur] end in
  match l with
  | [] => flush
  | c :: l' =>
      if bool_decide (c ∈ delims) then flush ++ split_words delims [] l'
      else split_words delims (cur ++ [c]) l'
  end.

(** No NUL inside: the list is the content of a C string. *)
Definition nul_free (l : bytes) : Prop := NUL ∉ l.

(** ** Lemmas *)

Lemma nul_free_nil : nul_free [].
Proof. unfold nul_free. set_solver. Qed.
#[export] Hint Resolve nul_free_nil : sysprog.

Lemma nul_free_cons c l : nul_free (c :: l) ↔ c ≠ NUL ∧ nul_free l.
Proof. unfold nul_free. rewrite not_elem_of_cons. naive_solver. Qed.

Lemma nul_free_app l1 l2 : nul_free (l1 ++ l2) ↔ nul_free l1 ∧ nul_free l2.
Proof. unfold nul_free. rewrite not_elem_of_app. done. Qed.

Lemma cstr_nul_free l : nul_free (cstr l).
Proof.
  induction l as [|c l IH]; simpl; [apply nul_free_nil|].
  case_bool_decide; [apply nul_free_nil|by apply nul_free_cons].
Qed.

Lemma cstr_id l : nul_free l → cstr l = l.
Proof.
  induction l as [|c l IH]; simpl; [done|].
  rewrite nul_free_cons. intros [??]. rewrite bool_decide_false by done.
  by rewrite IH.
Qed.

Lemma cstr_app_nul l z : nul_free l → cstr (l ++ NUL :: z) = l.
Proof.
  induction l as [|c l IH]; simpl; [done|].
  rewrite nul_free_cons. intros [??]. rewrite bool_decide_false by done.
  by rewrite IH.
Qed.

Lemma cstr_app_has_nul l z : NUL ∈ l → cstr (l ++ z) = cstr l.
Proof.
  induction l as [|c l IH]; simpl; [by intros ?%elem_of_nil|].
  rewrite elem_of_cons. intros [<-|?]; [done|].
  by rewrite IH.
Qed.

Lemma cstr_idemp l : cstr (cstr l) = cstr l.
Proof. apply cstr_id, cstr_nul_free. Qed.

Lemma cstr_length l : length (cstr l) ≤ length l.
Proof. induction l as [|c l IH]; simpl; [lia|]. case_bool_decide; simpl; lia. Qed.

Lemma strcpy_cstr dst src : cstr (strcpy dst src) = cstr src.
Proof. unfold strcpy. apply cstr_app_nul, cstr_nul_free. Qed.

Lemma strcpy_length dst src :
  strlen src < length dst → length (strcpy dst src) = length dst.
Proof.
  unfold strcpy, strlen. intros ?.
  rewrite length_app. simpl. rewrite length_drop. lia.
Qed.

Lemma streq_true x y : streq x y = true ↔ cstr x = cstr y.
Proof. unfold streq. apply bool_decide_eq_true. Qed.

Lemma strspn_spec set l :
  nul_free set →
  Forall (.∈ set) (take (strspn set l) l) ∧
  match l !! strspn set l with Some c => c ∉ set | None => True end.
Proof.
  intros Hset. induction l as [|c l [IH1 IH2]]; simpl; [done|].
  case_bool_decide as Hn.
  { subst. by split. }
  case_bool_decide; simpl; [|by split]. auto.
Qed.

Lemma strcspn_spec set l :
  Forall (λ c, c ≠ NUL ∧ c ∉ set) (take (strcspn set l) l) ∧
  match l !! strcspn set l with Some c => c = NUL ∨ c ∈ set | None => True end.
Proof.
  induction l as [|c l [IH1 IH2]]; simpl; [done|].
  case_bool_decide; [simpl; auto|]. case_bool_decide; simpl; [simpl; auto|].
  auto.
Qed.

Lemma split_words_delims delims ds l :
  Forall (.∈ delims) ds → split_words delims [] (ds ++ l) = split_words delims [] l.
Proof.
  induction 1 as [|c ds Hc _ IH]; simpl; [done|].
  by rewrite bool_decide_true.
Qed.

Lemma split_words_word delims w cur l :
  Forall (.∉ delims) w →
  split_words delims cur (w ++ l) = split_words delims (cur ++ w) l.
Proof.
  intros Hw. revert cur. induction Hw as [|c w Hc _ IH]; intros cur.
  - by rewrite app_nil_r.
  - cbn [app split_words]. rewrite bool_decide_false by done.
    rewrite IH. by rewrite <- (assoc_L (++)).
Qed.

Lemma split_words_nil delims cur :
  cur ≠ [] → split_words delims cur [] = [cur].
Proof. by destruct cur. Qed.

Lemma split_words_stop delims cur d l :
  cur ≠ [] → d ∈ delims →
  split_words delims cur (d :: l) = cur :: split_words delims [] l.
Proof. intros ??. simpl. rewrite bool_decide_true by done. by destruct cur. Qed.

(** Every word is non-empty and has no delimiter. *)
Lemma split_words_shape delims cur l :
  Forall (.∉ delims) cur →
  Forall (λ w, w ≠ [] ∧ Forall (.∉ delims) w) (split_words delims cur l).
Proof.
  revert cur. induction l as [|c l IH]; intros cur Hcur; simpl.
  - destruct cur; constructor; naive_solver.
  - case_bool_decide.
    + apply Forall_app. split; [destruct cur; constructor; naive_solver|].
      by apply IH.
    + apply IH, Forall_app. by split; [|constructor].
Qed.

(** A string of length [n] has at most [(n + 1) / 2] words. *)
Lemma split_words_count delims cur l :
  2 * length (split_words delims cur l)
    ≤ length l + 1 + (match cur with [] => 0 | _ => 1 end).
Proof.
  revert cur. induction l as [|c l IH]; intros cur; cbn [split_words length].
  - destruct cur; simpl; lia.
  - case_bool_decide.
    + rewrite length_app. specialize (IH []). destruct cur; simpl in *; lia.
    + specialize (IH (cur ++ [c])). destruct cur; simpl in *; lia.
Qed.

Lemma strspn_app set ds c l :
  nul_free set → Forall (.∈ set) ds → c ∉ set →
  strspn set (ds ++ c :: l) = length ds.
Proof.
  intros Hset Hds Hc. induction Hds as [|d ds Hd _ IH]; simpl.
  - case_bool_decide; [done|]. by rewrite bool_decide_false.
  - rewrite bool_decide_false by (intros ->; done).
    rewrite bool_decide_true by done. by rewrite IH.
Qed.

Lemma strcspn_app set w c l :
  Forall (λ c, c ≠ NUL ∧ c ∉ set) w → c = NUL ∨ c ∈ set →
  strcspn set (w ++ c :: l) = length w.
Proof.
  intros Hw Hc. induction Hw as [|d w [Hd Hd'] _ IH]; simpl.
  - case_bool_decide; [done|]. rewrite bool_decide_true; naive_solver.
  - by rewrite !bool_decide_false, IH by done.
Qed.

(** A string is blank, or its first word ends it, or its first word is followed
    by a delimiter. *)
Lemma first_word_cases (set s : bytes) :
  Forall (.∈ set) s ∨
  (∃ ds w, s = ds ++ w ∧ Forall (.∈ set) ds ∧ w ≠ [] ∧ Forall (.∉ set) w) ∨
  (∃ ds w d s2, s = ds ++ w ++ d :: s2 ∧ Forall (.∈ set) ds ∧ w ≠ [] ∧
     Forall (.∉ set) w ∧ d ∈ set).
Proof.
  induction s as [|c s IH]; [by left|].
  destruct (decide (c ∈ set)) as [Hc|Hc].
  - destruct IH as [IH|[(ds & w & -> & ? & ? & ?)|
                        (ds & w & d & s2 & -> & ? & ? & ? & ?)]].
    + left. by constructor.
    + right; left. exists (c :: ds), w. rewrite Forall_cons. naive_solver.
    + right; right. exists (c :: ds), w, d, s2. rewrite Forall_cons. naive_solver.
  - right. destruct IH as [IH|[(ds & w & -> & Hds & ? & ?)|
                        (ds & w & d & s2 & -> & Hds & ? & ? & ?)]].
    + destruct s as [|d s].
      * left. exists [], [c]. rewrite Forall_singleton. naive_solver.
      * right. exists [], [c], d, s. rewrite Forall_singleton.
        apply Forall_cons in IH. naive_solver.
    + destruct ds as [|d ds].
      * left. exists [], (c :: w). simpl. rewrite Forall_cons. naive_solver.
      * right. exists [], [c], d, (ds ++ w). rewrite Forall_singleton.
        apply Forall_cons in Hds. naive_solver.
    + right. destruct ds as [|d' ds].
      * exists [], (c :: w), d, s2. simpl. rewrite Forall_cons. naive_solver.
      * exists [], [c], d', (ds ++ w ++ d :: s2). rewrite Forall_singleton.
        apply Forall_cons in Hds. naive_solver.
Qed.

Section strtok.
Context (set : bytes) (Hset : nul_free set).

Lemma strspn_skip ds c l :
  Forall (.∈ set) ds → c ∉ set → strspn set (ds ++ c :: l) = length ds.
Proof. by apply strspn_app. Qed.

Lemma NUL_not_in_set : NUL ∉ set.
Proof. done. Qed.

Lemma word_chars w :
  nul_free w → Forall (.∉ set) w → Forall (λ c, c ≠ NUL ∧ c ∉ set) w.
Proof.
  intros Hn Hw. apply Forall_and. split; [|done].
  apply Forall_forall. intros x Hx ->. done.
Qed.

(** Only delimiters are left: no token. *)
Lemma strtok_r_blank pre ds z :
  Forall (.∈ set) ds →
  ∃ p, strtok_r set (pre ++ ds ++ NUL :: z) (length pre)
       = (None, p, pre ++ ds ++ NUL :: z).
Proof.
  intros Hds. eexists. unfold strtok_r.
  rewrite drop_app_length, strspn_skip by done.
  rewrite (assoc_L (++)), <- length_app, list_lookup_middle by done.
  by rewrite bool_decide_true.
Qed.

(** The token ends at the terminating NUL. *)
Lemma strtok_r_last pre ds w z :
  Forall (.∈ set) ds → w ≠ [] → Forall (.∉ set) w → nul_free w →
  strtok_r set (pre ++ ds ++ w ++ NUL :: z) (length pre)
  = (Some (length (pre ++ ds)), length (pre ++ ds ++ w),
     pre ++ ds ++ w ++ NUL :: z).
Proof.
  intros Hds Hne Hw Hnul. destruct w as [|c w]; [done|].
  pose proof Hnul as [Hcn _]%nul_free_cons.
  pose proof Hw as [Hcs _]%Forall_cons.
  unfold strtok_r. rewrite drop_app_length. cbn [app].
  rewrite strspn_skip by done.
  rewrite (assoc_L (++) pre ds), <- length_app, list_lookup_middle by done.
  rewrite bool_decide_false by done.
  rewrite drop_app_length. change (c :: w ++ NUL :: z) with ((c :: w) ++ NUL :: z).
  rewrite strcspn_app by auto using word_chars.
  rewrite (assoc_L (++) (pre ++ ds)), <- length_app, list_lookup_middle by done.
  rewrite bool_decide_true by done. by rewrite <- !(assoc_L (++)).
Qed.

(** The token ends at a delimiter, which is overwritten. *)
Lemma strtok_r_word pre ds w d l :
  Forall (.∈ set) ds → w ≠ [] → Forall (.∉ set) w → nul_free w → d ∈ set →
  strtok_r set (pre ++ ds ++ w ++ d :: l) (length pre)
  = (Some (length (pre ++ ds)), length (pre ++ ds ++ w ++ [NUL]),
     pre ++ ds ++ w ++ NUL :: l).
Proof.
  intros Hds Hne Hw Hnul Hd. destruct w as [|c w]; [done|].
  pose proof Hnul as [Hcn _]%nul_free_cons.
  pose proof Hw as [Hcs _]%Forall_cons.
  unfold strtok_r. rewrite drop_app_length. cbn [app].
  rewrite strspn_skip by done.
  rewrite (assoc_L (++) pre ds), <- length_app, list_lookup_middle by done.
  rewrite bool_decide_false by done.
  rewrite drop_app_length. change (c :: w ++ d :: l) with ((c :: w) ++ d :: l).
  rewrite strcspn_app by auto using word_chars.
  rewrite (assoc_L (++) (pre ++ ds)), <- length_app, list_lookup_middle by done.
  rewrite bool_decide_false by (intros ->; done).
  f_equal; [f_equal|].
  - rewrite <- !(assoc_L (++)), !length_app. simpl. rewrite length_app. simpl. lia.
  - rewrite list_insert_middle by done. by rewrite <- !(assoc_L (++)).
Qed.

End strtok.
