(* ===== verification/YashTypes.v ===== *)
(** * The data model shared by yash and yashd

    [cmd_t], [job_state_t] and [job_t] of [Project 1/yash/include/yash.h] and
    [Project 2/yashd/server/include/yashd.h], with the constants of both
    headers.  The two [job_t] structures are the same except for the [infd]
    member of the daemon; the record below is parametric in that member:
    [unit] for yash, which has none, and [Z] for yashd. *)

From S2P Require Import Prelude CString.
From stdpp Require Import base tactics list gmap strings.
From Stdlib Require Import Ascii ZArith Lia.

(** ** Limits *)

Definition YASH_MAX_LINE : nat := 200.
Definition YASH_MAX_TOKENS : nat := 128.
Definition YASH_MAX_ARGS : nat := 64.
Definition YASH_MAX_CMDS : nat := 2.
Definition YASH_MAX_JOBS : nat := 20.

(** Arithmetic with the limits unfolded. *)
Ltac limits :=
  unfold YASH_MAX_LINE, YASH_MAX_TOKENS, YASH_MAX_ARGS, YASH_MAX_CMDS,
    YASH_MAX_JOBS in *; simpl in *; lia.

(** ** Pointers

    A [job_t *] is the location of a job on the heap.  A [char *] held by a
    command points into the [buf] member of some job: the parser's local one
    ([Frame]) or a heap one. *)

Abbreviation loc := positive.

Inductive base := Frame | Heap (l : loc).

#[global] Instance base_eq_dec : EqDecision base.
Proof. solve_decision. Defined.

Record ptr := Ptr { p_base : base; p_off : nat }.

#[global] Instance ptr_eq_dec : EqDecision ptr.
Proof. solve_decision. Defined.

(** ** Structures *)

Record cmd_t := Cmd {
  argv : list (option ptr);
  argc : nat;
  infile : option ptr;
  outfile : option ptr;
  errfile : option ptr;
  pid : Z
}.

Inductive job_state_t := JOB_RUNNING | JOB_STOPPED | JOB_DONE.

#[global] Instance job_state_eq_dec : EqDecision job_state_t.
Proof. solve_decision. Defined.

Record job_t (E : Type) := Job {
  jid : Z;
  pgid : Z;
  state : job_state_t;
  background : bool;
  ncmds : nat;
  nlive : Z;
  infd : E;
  cmds : list cmd_t;
  cmdline : bytes;
  buf : bytes;
  next : option loc
}.
Arguments Job {_}.
Arguments jid {_}.
Arguments pgid {_}.
Arguments state {_}.
Arguments background {_}.
Arguments ncmds {_}.
Arguments nlive {_}.
Arguments infd {_}.
Arguments cmds {_}.
Arguments cmdline {_}.
Arguments buf {_}.
Arguments next {_}.

(** ** Member updates *)

Definition set_pid (z : Z) (c : cmd_t) : cmd_t :=
  Cmd (argv c) (argc c) (infile c) (outfile c) (errfile c) z.

(** [cmd->argv[cmd->argc++] = tok] *)
Definition push_arg (p : ptr) (c : cmd_t) : cmd_t :=
  Cmd (<[argc c := Some p]> (argv c)) (S (argc c)) (infile c) (outfile c)
      (errfile c) (pid c).

(** [cmd->argv[cmd->argc] = NULL] *)
Definition null_terminate (c : cmd_t) : cmd_t :=
  Cmd (<[argc c := None]> (argv c)) (argc c) (infile c) (outfile c)
      (errfile c) (pid c).

Section job_updates.
Context {E : Type}.
Implicit Types j : job_t E.

Definition set_jid (x : Z) j : job_t E :=
  Job x (pgid j) (state j) (background j) (ncmds j) (nlive j) (infd j) (cmds j)
      (cmdline j) (buf j) (next j).
Definition set_pgid (x : Z) j : job_t E :=
  Job (jid j) x (state j) (background j) (ncmds j) (nlive j) (infd j) (cmds j)
      (cmdline j) (buf j) (next j).
Definition set_state (x : job_state_t) j : job_t E :=
  Job (jid j) (pgid j) x (background j) (ncmds j) (nlive j) (infd j) (cmds j)
      (cmdline j) (buf j) (next j).
Definition set_background (x : bool) j : job_t E :=
  Job (jid j) (pgid j) (state j) x (ncmds j) (nlive j) (infd j) (cmds j)
      (cmdline j) (buf j) (next j).
Definition set_ncmds (x : nat) j : job_t E :=
  Job (jid j) (pgid j) (state j) (background j) x (nlive j) (infd j) (cmds j)
      (cmdline j) (buf j) (next j).
Definition set_nlive (x : Z) j : job_t E :=
  Job (jid j) (pgid j) (state j) (background j) (ncmds j) x (infd j) (cmds j)
      (cmdline j) (buf j) (next j).
Definition set_infd (x : E) j : job_t E :=
  Job (jid j) (pgid j) (state j) (background j) (ncmds j) (nlive j) x (cmds j)
      (cmdline j) (buf j) (next j).
Definition set_cmds (x : list cmd_t) j : job_t E :=
  Job (jid j) (pgid j) (state j) (background j) (ncmds j) (nlive j) (infd j) x
      (cmdline j) (buf j) (next j).
Definition set_cmdline (x : bytes) j : job_t E :=
  Job (jid j) (pgid j) (state j) (background j) (ncmds j) (nlive j) (infd j)
      (cmds j) x (buf j) (next j).
Definition set_buf (x : bytes) j : job_t E :=
  Job (jid j) (pgid j) (state j) (background j) (ncmds j) (nlive j) (infd j)
      (cmds j) (cmdline j) x (next j).
Definition set_next (x : option loc) j : job_t E :=
  Job (jid j) (pgid j) (state j) (background j) (ncmds j) (nlive j) (infd j)
      (cmds j) (cmdline j) (buf j) x.

(** Update the command at index [i]. *)
Definition upd_cmd (i : nat) (f : cmd_t → cmd_t) j : job_t E :=
  set_cmds (alter f i (cmds j)) j.

(** The string at a pointer into the job's own buffer. *)
Definition str_at (arr : bytes) (off : nat) : bytes := cstr (drop off arr).

End job_updates.

(** All-zero structures, as [memset(job, 0, sizeof *job)] leaves them. *)
Definition zero_cmd : cmd_t :=
  Cmd (replicate (YASH_MAX_ARGS + 1) None) 0 None None None 0.

Definition zero_line : bytes := replicate (YASH_MAX_LINE + 1) NUL.
Arguments zero_line : simpl never.

Definition zero_job {E} (e0 : E) : job_t E :=
  Job 0 0 JOB_RUNNING false 0 0 e0 (replicate YASH_MAX_CMDS zero_cmd)
      zero_line zero_line None.

Lemma zero_line_length : length zero_line = YASH_MAX_LINE + 1.
Proof. apply length_replicate. Qed.

Lemma zero_line_lookup i : i < YASH_MAX_LINE + 1 → zero_line !! i = Some NUL.
Proof. apply lookup_replicate_2. Qed.
