(* ===== verification/Parse.v ===== *)
(** * The command-line parser

    [tokenize], [is_operator], [redirect_slot] and [parse_line] of
    [Project 1/yash/src/parse.c]; [Project 2/yashd/server/src/parse.c] is the
    same code except that it sets [job->infd = -1].  The parser works in place
    on the job's buffer, as the source does: tokens are offsets into [buf], in
    which [strtok_r] has written NULs.

    The theorems say that what is stored is exactly the abstract syntax of the
    line under the shell's grammar ([g_line]), that every array access is in
    bounds, and that printing the abstract syntax and parsing it again gives it
    back. *)

From S2P Require Import Prelude CString YashTypes.
From stdpp Require Import base tactics list gmap strings.
From Stdlib Require Import Ascii ZArith Lia.

Definition PARSE_OK : Z := 0.
Definition PARSE_EMPTY : Z := -1.
Definition PARSE_ERROR : Z := -2.

(** ** The code *)

Definition blanks : bytes := [SP; TAB].

(** The loop of [tokenize]; [room] is [max - n]. *)
Fixpoint tok_loop (room : nat) (arr : bytes) (pos : nat) (toks : list nat)
    : option (list nat) * bytes :=
  match strtok_r blanks arr pos with
  | (None, _, arr') => (Some toks, arr')
  | (Some t, pos', arr') =>
      match room with
      | O => (None, arr')
      | S room' => tok_loop room' arr' pos' (toks ++ [t])
      end
  end.

(** Returns the token offsets ([None] for the overflow result -1) and the
    buffer. *)
Definition tokenize (arr : bytes) (max : nat) : option (list nat) * bytes :=
  tok_loop max arr 0 [].

Definition is_operator (tok : bytes) : bool :=
  streq tok (b "<") || streq tok (b ">") || streq tok (b "2>") ||
  streq tok (b "|") || streq tok (b "&").

(** The member of [cmd_t] a redirection fills. *)
Inductive slot := SlotIn | SlotOut | SlotErr.

Definition redirect_slot (tok : bytes) : option slot :=
  if streq tok (b "<") then Some SlotIn
  else if streq tok (b ">") then Some SlotOut
  else if streq tok (b "2>") then Some SlotErr
  else None.

Definition slot_get (s : slot) (c : cmd_t) : option ptr :=
  match s with
  | SlotIn => infile c
  | SlotOut => outfile c
  | SlotErr => errfile c
  end.

Definition slot_set (s : slot) (p : ptr) (c : cmd_t) : cmd_t :=
  match s with
  | SlotIn => Cmd (argv c) (argc c) (Some p) (outfile c) (errfile c) (pid c)
  | SlotOut => Cmd (argv c) (argc c) (infile c) (Some p) (errfile c) (pid c)
  | SlotErr => Cmd (argv c) (argc c) (infile c) (outfile c) (Some p) (pid c)
  end.

(** The loop over the tokens.  [toks] are the tokens from index [i] on, so
    [i + 1 >= ntok] is "no token follows".  [ci] is the index of the command
    being filled.  [inl job] is a return of [PARSE_ERROR] from inside the
    loop. *)
Fixpoint parse_tokens {E} (self : base) (toks : list nat) (job : job_t E)
    (ci : nat) (redirect_seen : bool) : job_t E + (job_t E * nat) :=
  match toks with
  | [] => inr (job, ci)
  | t :: rest =>
      let tok := str_at (buf job) t in
      let cur := default zero_cmd (cmds job !! ci) in
      match redirect_slot tok with
      | Some slot =>
          if bool_decide (argc cur = 0) then inl job
          else if bool_decide (slot_get slot cur ≠ None) then inl job
          else
            match rest with
            | [] => inl job
            | t' :: rest' =>
                if is_operator (str_at (buf job) t') then inl job
                else
                  parse_tokens self rest'
                    (upd_cmd ci (slot_set slot (Ptr self t')) job) ci true
            end
      | None =>
          if streq tok (b "|") then
            if bool_decide (YASH_MAX_CMDS ≤ ci + 1) then inl job
            else if bool_decide (argc cur = 0) then inl job
            else parse_tokens self rest job (S ci) false
          else if streq tok (b "&") then
            if bool_decide (rest ≠ []) then inl job
            else if bool_decide (ci ≠ 0) then inl job
            else parse_tokens self rest (set_background true job) ci redirect_seen
          else if redirect_seen then inl job
          else if bool_decide (argc cur = YASH_MAX_ARGS) then inl job
          else
            parse_tokens self rest (upd_cmd ci (push_arg (Ptr self t)) job) ci
              redirect_seen
      end
  end.

(** [while (n > 0 && (l[n-1] == '&' || l[n-1] == ' ' || l[n-1] == '\t')) n--;] *)
Fixpoint strip_len (l : bytes) (n : nat) : nat :=
  match n with
  | O => O
  | S m =>
      match l !! m with
      | Some c => if bool_decide (c = "&"%char ∨ c = SP ∨ c = TAB)
                  then strip_len l m else n
      | None => n
      end
  end.

(** The end of [parse_line], after the loop. *)
Definition parse_finish {E} (job : job_t E) (ci : nat) : Z * job_t E :=
  if bool_decide (argc (default zero_cmd (cmds job !! ci)) = 0)
  then (PARSE_ERROR, job)
  else
    let job1 :=
      if background job
      then set_cmdline
             (<[strip_len (cmdline job) (strlen (cmdline job)) := NUL]>
                (cmdline job)) job
      else job in
    let job2 := set_ncmds (ci + 1) job1 in
    let n := ncmds job2 in
    (PARSE_OK,
     set_cmds (map null_terminate (take n (cmds job2)) ++ drop n (cmds job2))
       job2).

(** [self] names the job's own buffer and [e0] is the initial [infd].  A null
    [line] is [None].  The result is the return code and the contents of
    [*job] on return. *)
Definition parse_line {E} (e0 : E) (self : base) (line : option bytes)
    (job0 : job_t E) : Z * job_t E :=
  match line with
  | None => (PARSE_ERROR, job0)
  | Some line =>
      if bool_decide (YASH_MAX_LINE < strlen line) then (PARSE_ERROR, job0)
      else
        let z := zero_job e0 in
        let job := set_cmdline (strcpy (cmdline z) line) z in
        let '(toks, arr) := tokenize (strcpy (buf z) line) YASH_MAX_TOKENS in
        let job := set_buf arr job in
        match toks with
        | None => (PARSE_ERROR, job)
        | Some [] => (PARSE_EMPTY, job)
        | Some toks =>
            match parse_tokens self toks job 0 false with
            | inl job => (PARSE_ERROR, job)
            | inr (job, ci) => parse_finish job ci
            end
        end
  end.

(** ** The abstract syntax and the grammar *)

Record scmd := SCmd {
  s_args : list bytes;
  s_in : option bytes;
  s_out : option bytes;
  s_err : option bytes
}.

Record sline := SLine { s_cmds : list scmd; s_bg : bool }.

Definition operators : list bytes := [b "<"; b ">"; b "2>"; b "|"; b "&"].

Definition plain (w : bytes) : Prop := w ∉ operators.

Definition op_of (s : slot) : bytes :=
  match s with SlotIn => b "<" | SlotOut => b ">" | SlotErr => b "2>" end.

Definition s_get (s : slot) (c : scmd) : option bytes :=
  match s with SlotIn => s_in c | SlotOut => s_out c | SlotErr => s_err c end.

Definition s_set (s : slot) (w : bytes) (c : scmd) : scmd :=
  match s with
  | SlotIn => SCmd (s_args c) (Some w) (s_out c) (s_err c)
  | SlotOut => SCmd (s_args c) (s_in c) (Some w) (s_err c)
  | SlotErr => SCmd (s_args c) (s_in c) (s_out c) (Some w)
  end.

(** [g_redirs c ws c']: [ws] is a sequence of redirections, at most one for
    each stream, which takes [c] to [c']. *)
Inductive g_redirs : scmd → list bytes → scmd → Prop :=
  | g_redirs_nil c : g_redirs c [] c
  | g_redirs_cons c s w ws c' :
      s_get s c = None → plain w → g_redirs (s_set s w c) ws c' →
      g_redirs c (op_of s :: w :: ws) c'.

(** A command is a non-empty list of plain words, then its redirections. *)
Inductive g_cmd : list bytes → scmd → Prop :=
  | g_cmd_intro args rs c :
      args ≠ [] → Forall plain args → length args ≤ YASH_MAX_ARGS →
      g_redirs (SCmd args None None None) rs c →
      g_cmd (args ++ rs) c.

(** A line is one command, one command in the background, or a pipeline of two
    foreground commands. *)
Inductive g_line : list bytes → sline → Prop :=
  | g_line_fg ws c : g_cmd ws c → g_line ws (SLine [c] false)
  | g_line_bg ws c : g_cmd ws c → g_line (ws ++ [b "&"]) (SLine [c] true)
  | g_line_pipe ws1 ws2 c1 c2 :
      g_cmd ws1 c1 → g_cmd ws2 c2 →
      g_line (ws1 ++ b "|" :: ws2) (SLine [c1; c2] false).

(** What a stored command means: its pointers read through the buffer. *)
Definition read_ptr (arr : bytes) (o : option ptr) : option bytes :=
  (λ p, str_at arr (p_off p)) <$> o.

Definition abs_cmd (arr : bytes) (c : cmd_t) : scmd :=
  SCmd (default [] <$> (read_ptr arr <$> take (argc c) (argv c)))
    (read_ptr arr (infile c)) (read_ptr arr (outfile c))
    (read_ptr arr (errfile c)).

Definition abs_job {E} (j : job_t E) : sline :=
  SLine (abs_cmd (buf j) <$> take (ncmds j) (cmds j)) (background j).

(** The words of a line. *)
Definition words (line : bytes) : list bytes := split_words blanks [] (cstr line).

(** Every pointer of a stored command points into the buffer named [self], the
    argument vector is null terminated and its fixed size is kept. *)
Definition ptr_ok (self : base) (o : option ptr) : Prop :=
  match o with
  | Some p => p_base p = self ∧ p_off p < YASH_MAX_LINE + 1
  | None => True
  end.

Record cmd_wf (self : base) (c : cmd_t) : Prop := {
  wf_argv_len : length (argv c) = YASH_MAX_ARGS + 1;
  wf_argc : argc c ≤ YASH_MAX_ARGS;
  wf_args : Forall (λ o, o ≠ None ∧ ptr_ok self o) (take (argc c) (argv c));
  wf_null : argv c !! argc c = Some None;
  wf_in : ptr_ok self (infile c);
  wf_out : ptr_ok self (outfile c);
  wf_err : ptr_ok self (errfile c)
}.

Record job_wf {E} (self : base) (j : job_t E) : Prop := {
  wf_buf : length (buf j) = YASH_MAX_LINE + 1;
  wf_buf_nul : buf j !! YASH_MAX_LINE = Some NUL;
  wf_cmdline : length (cmdline j) = YASH_MAX_LINE + 1;
  wf_cmdline_nul : strlen (cmdline j) ≤ YASH_MAX_LINE;
  wf_ncmds : 1 ≤ ncmds j ≤ YASH_MAX_CMDS;
  wf_cmds_len : length (cmds j) = YASH_MAX_CMDS;
  wf_cmds : Forall (cmd_wf self) (take (ncmds j) (cmds j));
  wf_nonempty : Forall (λ c, 0 < argc c) (take (ncmds j) (cmds j))
}.

Example parse_example :
  let '(r, j) := parse_line tt Frame
    (Some (b "  cat -n < in.txt	> out  | wc -l 2> err ")) (zero_job tt) in
  r = PARSE_OK ∧
  abs_job j =
    SLine [SCmd [b "cat"; b "-n"] (Some (b "in.txt")) (Some (b "out")) None;
           SCmd [b "wc"; b "-l"] None None (Some (b "err"))] false.
Proof. vm_compute. done. Qed.

(** ** Tokens *)

Lemma blanks_nul_free : nul_free blanks.
Proof. apply (bool_decide_unpack _). vm_compute. done. Qed.
#[export] Hint Resolve blanks_nul_free : sysprog.

(** What the tokens found from [pos] on look like. *)
Definition tokens_in (pos : nat) (tail : bytes) (offs : list nat) (ws : list bytes) : Prop :=
  Forall (λ o, pos ≤ o < pos + length tail) offs ∧
  (λ o, cstr (drop (o - pos) tail)) <$> offs = ws.

Lemma tokens_in_shift pos pre tail offs ws :
  tokens_in (pos + length pre) tail offs ws → tokens_in pos (pre ++ tail) offs ws.
Proof.
  intros [Hr Hm]. split.
  - eapply Forall_impl; [done|]. intros o ?; simpl in *. rewrite length_app. lia.
  - rewrite <- Hm. apply list_fmap_ext. intros i o Ho.
    rewrite Forall_lookup in Hr. specialize (Hr i o Ho). cbn beta in Hr.
    rewrite drop_app_ge by lia. do 2 f_equal. lia.
Qed.

(** What separates a token from the rest of the string once [strtok_r] has
    returned it: the NUL it wrote, or nothing at the end of the string. *)
Definition tok_sep (sep rest : bytes) : Prop :=
  sep = [NUL] ∨ (sep = [] ∧ rest = []).

Lemma tokens_in_cons pos ds w sep rest offs ws :
  nul_free w → tok_sep sep rest →
  tokens_in (pos + length (ds ++ w ++ sep)) (rest ++ [NUL]) offs ws →
  tokens_in pos ((ds ++ w ++ sep ++ rest) ++ [NUL]) (pos + length ds :: offs) (w :: ws).
Proof.
  intros Hw Hsep Ht. pose proof (tokens_in_shift _ _ _ _ _ Ht) as [Hr Hm].
  rewrite <- !(assoc_L (++)) in *. split.
  - constructor; [|done]. rewrite !length_app. simpl. lia.
  - rewrite fmap_cons, Hm. f_equal.
    replace (pos + length ds - pos) with (length ds) by lia.
    rewrite drop_app_length.
    destruct Hsep as [-> | [-> ->]]; by apply cstr_app_nul.
Qed.

(** One call of [strtok_r] on a string: no word is left, or the first word is
    found and the next call sees the words after it. *)
Lemma strtok_r_step pre s z :
  nul_free s →
  (split_words blanks [] s = [] ∧
   ∃ p, strtok_r blanks (pre ++ s ++ NUL :: z) (length pre)
        = (None, p, pre ++ s ++ NUL :: z)) ∨
  (∃ ds w sep rest,
    split_words blanks [] s = w :: split_words blanks [] rest ∧
    nul_free w ∧ nul_free rest ∧ tok_sep sep rest ∧
    length s = length (ds ++ w ++ sep ++ rest) ∧
    strtok_r blanks (pre ++ s ++ NUL :: z) (length pre)
    = (Some (length pre + length ds), length (pre ++ ds ++ w ++ sep),
       (pre ++ ds ++ w ++ sep) ++ rest ++ NUL :: z)).
Proof.
  intros Hs.
  destruct (first_word_cases blanks s) as
    [Hb|[(ds & w & -> & Hds & Hne & Hw)|(ds & w & d & s2 & -> & Hds & Hne & Hw & Hd)]].
  - left. split; [|apply strtok_r_blank; auto with sysprog].
    rewrite <- (app_nil_r s). by rewrite split_words_delims.
  - right. exists ds, w, [], [].
    apply nul_free_app in Hs as [_ Hs].
    rewrite split_words_delims, <- (app_nil_r w), split_words_word, split_words_nil,
      !app_nil_r, <- !(assoc_L (++)) by (by try rewrite app_nil_r).
    repeat split; auto with sysprog; [by right|].
    rewrite strtok_r_last by auto with sysprog. by rewrite (length_app pre ds).
  - right. exists ds, w, [NUL], s2.
    apply nul_free_app in Hs as [_ [Hs [_ Hs2]%nul_free_cons]%nul_free_app].
    rewrite split_words_delims, split_words_word, split_words_stop by done.
    rewrite <- !(assoc_L (++)). cbn [app].
    repeat split; [done|done|by left|rewrite !length_app; simpl; lia|].
    rewrite strtok_r_word by auto with sysprog.
    by rewrite (length_app pre ds), !(assoc_L (++)).
Qed.

Lemma tok_loop_spec room pre s z toks :
  nul_free s →
  let ws := split_words blanks [] s in
  let r := tok_loop room (pre ++ s ++ NUL :: z) (length pre) toks in
  if bool_decide (room < length ws) then r.1 = None
  else ∃ offs s',
    r = (Some (toks ++ offs), pre ++ s' ++ NUL :: z) ∧ length s' = length s ∧
    tokens_in (length pre) (s' ++ [NUL]) offs ws.
Proof.
  simpl. revert pre s toks.
  induction room as [|room IH]; intros pre s toks Hs; cbn [tok_loop];
    destruct (strtok_r_step pre s z Hs) as
      [[-> [p ->]]|(ds & w & sep & rest & -> & Hw & Hr & Hsep & Hlen & ->)].
  1,3: rewrite bool_decide_false by (simpl; lia);
       exists [], s; rewrite app_nil_r; split_and!; [done|done|by split].
  - by rewrite bool_decide_true by (simpl; lia).
  - specialize (IH (pre ++ ds ++ w ++ sep) rest (toks ++ [length pre + length ds]) Hr).
    case_bool_decide as Hc; case_bool_decide as Hc'; simpl in *; try lia; [done|].
    destruct IH as (offs & s' & -> & Hl & Ht).
    exists (length pre + length ds :: offs), (ds ++ w ++ sep ++ s').
    rewrite <- !(assoc_L (++)). split_and!; [done|rewrite Hlen, !length_app; lia|].
    rewrite (length_app pre) in Ht.
    replace (ds ++ w ++ sep ++ s' ++ [NUL]) with ((ds ++ w ++ sep ++ s') ++ [NUL])
      by (by rewrite <- !(assoc_L (++))).
    apply tokens_in_cons; [done| |done].
    destruct Hsep as [?|[??]]; [by left|right]. subst. by destruct s'.
Qed.

(** The whole of [tokenize] on a line copied into the 201-byte buffer. *)
Lemma tokenize_spec dst line max :
  strlen line < length dst →
  let '(r, arr) := tokenize (strcpy dst line) max in
  if bool_decide (max < length (words line)) then r = None
  else ∃ offs, r = Some offs ∧ length arr = length dst ∧
    arr !! (strlen line) = Some NUL ∧
    drop (S (strlen line)) arr = drop (S (strlen line)) dst ∧
    Forall (λ o, o ≤ strlen line) offs ∧ str_at arr <$> offs = words line.
Proof.
  intros Hlen. unfold tokenize, strcpy.
  pose proof (tok_loop_spec max [] (cstr line) (drop (S (strlen line)) dst) []
                (cstr_nul_free line)) as H.
  cbn [length app] in H. destruct (tok_loop _ _ _ _) as [r arr]. cbn [fst] in H.
  fold (words line) in H. case_bool_decide; [done|].
  destruct H as (offs & s' & [= -> ->] & Hl & Hr & Hm).
  exists offs. unfold strlen in *. split_and!; [done|..].
  - rewrite !length_app. simpl. rewrite length_drop. lia.
  - rewrite <- Hl. by apply list_lookup_middle.
  - rewrite <- Hl, drop_app_ge by lia.
    replace (S (length s') - length s') with 1 by lia. done.
  - eapply Forall_impl; [done|]. intros o Ho; simpl in Ho.
    rewrite length_app in Ho. simpl in Ho. lia.
  - rewrite <- Hm. apply list_fmap_ext. intros i o Ho.
    rewrite Forall_lookup in Hr. specialize (Hr i o Ho). simpl in Hr.
    unfold str_at. rewrite Nat.sub_0_r.
    replace (s' ++ NUL :: drop (S (length (cstr line))) dst)
      with ((s' ++ [NUL]) ++ drop (S (length (cstr line))) dst)
      by (by rewrite <- (assoc_L (++))).
    rewrite drop_app_le by lia. rewrite length_app in Hr. simpl in Hr.
    apply cstr_app_has_nul. rewrite drop_app_le by lia.
    rewrite elem_of_app. right. by left.
Qed.

(** ** A functional parser on words

    It mirrors the loop on words instead of buffer offsets; it stands between
    the code and the grammar. *)

Definition empty_scmd : scmd := SCmd [] None None None.

Definition s_push (w : bytes) (c : scmd) : scmd :=
  SCmd (s_args c ++ [w]) (s_in c) (s_out c) (s_err c).

Definition slot_of (w : bytes) : option slot :=
  if bool_decide (w = b "<") then Some SlotIn
  else if bool_decide (w = b ">") then Some SlotOut
  else if bool_decide (w = b "2>") then Some SlotErr
  else None.

Definition finish_words (prev : option scmd) (cur : scmd) (bg : bool) : option sline :=
  if bool_decide (s_args cur = []) then None
  else Some (SLine (option_list prev ++ [cur]) bg).

Fixpoint parse_words (ws : list bytes) (prev : option scmd) (cur : scmd)
    (redirect_seen : bool) : option sline :=
  match ws with
  | [] => finish_words prev cur false
  | w :: rest =>
      match slot_of w with
      | Some s =>
          if bool_decide (s_args cur = []) then None
          else if bool_decide (s_get s cur ≠ None) then None
          else
            match rest with
            | [] => None
            | w' :: rest' =>
                if bool_decide (w' ∈ operators) then None
                else parse_words rest' prev (s_set s w' cur) true
            end
      | None =>
          if bool_decide (w = b "|") then
            if prev then None
            else if bool_decide (s_args cur = []) then None
            else parse_words rest (Some cur) empty_scmd false
          else if bool_decide (w = b "&") then
            if bool_decide (rest ≠ []) then None
            else if prev then None
            else finish_words prev cur true
          else if redirect_seen then None
          else if bool_decide (length (s_args cur) = YASH_MAX_ARGS) then None
          else parse_words rest prev (s_push w cur) redirect_seen
      end
  end.

(** *** The functional parser decides the grammar *)

Lemma slot_of_op s : slot_of (op_of s) = Some s.
Proof. by destruct s. Qed.

Lemma slot_of_Some w s : slot_of w = Some s → w = op_of s.
Proof. unfold slot_of. repeat case_bool_decide; naive_solver. Qed.

Lemma plain_not_op w :
  plain w → slot_of w = None ∧ w ≠ b "|" ∧ w ≠ b "&".
Proof.
  unfold plain, operators. rewrite !not_elem_of_cons. intros (?&?&?&?&?&_).
  unfold slot_of. by rewrite !bool_decide_false.
Qed.

Lemma plain_intro w :
  slot_of w = None → w ≠ b "|" → w ≠ b "&" → plain w.
Proof.
  unfold plain, operators, slot_of. intros H ??. rewrite !not_elem_of_cons.
  repeat case_bool_decide; try done. repeat split; try done.
  by intros ?%elem_of_nil.
Qed.

Lemma s_args_set s w c : s_args (s_set s w c) = s_args c.
Proof. by destruct s. Qed.

Lemma g_redirs_args c ws c' : g_redirs c ws c' → s_args c' = s_args c.
Proof. induction 1 as [|c s w ws c' _ _ _ IH]; [done|]. by rewrite IH, s_args_set. Qed.

Lemma g_redirs_snoc c ws c1 s w :
  g_redirs c ws c1 → s_get s c1 = None → plain w →
  g_redirs c (ws ++ [op_of s; w]) (s_set s w c1).
Proof. induction 1; intros; simpl; repeat (constructor; auto). Qed.

Lemma parse_words_args args tl prev c :
  Forall plain args → length (s_args c) + length args ≤ YASH_MAX_ARGS →
  parse_words (args ++ tl) prev c false
  = parse_words tl prev
      (SCmd (s_args c ++ args) (s_in c) (s_out c) (s_err c)) false.
Proof.
  intros Hp. revert c. induction Hp as [|w args Hw _ IH]; intros c Hl.
  - rewrite app_nil_r. by destruct c.
  - simpl. destruct (plain_not_op w Hw) as (-> & ? & ?).
    rewrite !bool_decide_false by (simpl in *; first [done|lia]).
    rewrite IH by (simpl; rewrite length_app; simpl in *; lia).
    simpl. by rewrite <- (assoc_L (++)).
Qed.

Lemma parse_words_redirs c rs c' tl prev f :
  g_redirs c rs c' → s_args c ≠ [] →
  ∃ f', parse_words (rs ++ tl) prev c f = parse_words tl prev c' f'.
Proof.
  intros Hg. revert f. induction Hg as [c|c s w ws c' Hs Hw Hg IH]; intros f Ha.
  - by exists f.
  - simpl. rewrite slot_of_op. rewrite bool_decide_false by done.
    rewrite bool_decide_false by (by intros ?). rewrite bool_decide_false by done.
    apply IH. by rewrite s_args_set.
Qed.

Lemma parse_words_cmd ws c tl prev :
  g_cmd ws c →
  s_args c ≠ [] ∧
  ∃ f, parse_words (ws ++ tl) prev empty_scmd false = parse_words tl prev c f.
Proof.
  intros [args rs c' Ha Hp Hl Hg].
  split; [by rewrite (g_redirs_args _ _ _ Hg)|].
  rewrite <- (assoc_L (++)), parse_words_args by (simpl; done).
  by apply parse_words_redirs.
Qed.

Lemma parse_words_complete ws ast :
  g_line ws ast → parse_words ws None empty_scmd false = Some ast.
Proof.
  destruct 1 as [ws c Hc|ws c Hc|ws1 ws2 c1 c2 H1 H2].
  - rewrite <- (app_nil_r ws). destruct (parse_words_cmd ws c [] None Hc) as (Ha & f & ->).
    simpl. unfold finish_words. by rewrite bool_decide_false.
  - destruct (parse_words_cmd ws c [b "&"] None Hc) as (Ha & f & ->).
    simpl. unfold finish_words. by rewrite bool_decide_false.
  - destruct (parse_words_cmd ws1 c1 (b "|" :: ws2) None H1) as (Ha & f & ->).
    simpl. rewrite bool_decide_false by done.
    rewrite <- (app_nil_r ws2).
    destruct (parse_words_cmd ws2 c2 [] (Some c1) H2) as (Ha2 & f' & ->).
    simpl. unfold finish_words. by rewrite bool_decide_false.
Qed.

(** The words [us] consumed so far for the current command. *)
Inductive g_partial : list bytes → scmd → bool → Prop :=
  | g_partial_args args :
      Forall plain args → length args ≤ YASH_MAX_ARGS →
      g_partial args (SCmd args None None None) false
  | g_partial_redirs ws c : g_cmd ws c → g_partial ws c true.

Lemma g_partial_cmd us c f : g_partial us c f → s_args c ≠ [] → g_cmd us c.
Proof.
  destruct 1 as [args Hp Hl|ws c Hc]; [|done]. simpl. intros ?.
  pose proof (g_cmd_intro args [] (SCmd args None None None)) as Hc.
  rewrite app_nil_r in Hc. auto using g_redirs.
Qed.

Lemma g_cmd_redir us c s w :
  g_cmd us c → s_get s c = None → plain w →
  g_cmd (us ++ [op_of s; w]) (s_set s w c).
Proof.
  intros [args rs c' Ha Hp Hl Hg] ??. rewrite <- (assoc_L (++)).
  econstructor; eauto using g_redirs_snoc.
Qed.

(** The left side of the pipe, once it has been consumed. *)
Definition pipe_left (o : option (list bytes * scmd)) (ws : list bytes) : list bytes :=
  match o with None => ws | Some (pws, _) => pws ++ b "|" :: ws end.

Definition left_ok (o : option (list bytes * scmd)) : Prop :=
  match o with None => True | Some (pws, p) => g_cmd pws p end.

Lemma finish_words_sound o us cur f ast :
  left_ok o → g_partial us cur f →
  finish_words (snd <$> o) cur false = Some ast → g_line (pipe_left o us) ast.
Proof.
  unfold finish_words. intros Ho Hp. case_bool_decide; [done|].
  pose proof (g_partial_cmd _ _ _ Hp ltac:(done)).
  destruct o as [[pws p]|]; intros [= <-]; by constructor.
Qed.

Lemma parse_words_sound n ws us cur f o ast :
  length ws ≤ n → left_ok o → g_partial us cur f →
  parse_words ws (snd <$> o) cur f = Some ast → g_line (pipe_left o (us ++ ws)) ast.
Proof.
  revert ws us cur f o. induction n as [|n IH]; intros [|w rest] us cur f o Hn Ho Hp;
    simpl in Hn; try lia; cbn [parse_words].
  1,2: rewrite app_nil_r; by apply finish_words_sound with f.
  destruct (slot_of w) as [s|] eqn:Hs.
  - apply slot_of_Some in Hs as ->.
    case_bool_decide as Ha; [done|]. case_bool_decide as Hg; [done|].
    destruct rest as [|w' rest]; [done|]. case_bool_decide as Hop; [done|].
    intros H. apply IH with (us := us ++ [op_of s; w']) in H; simpl in *; try lia; auto.
    + by rewrite <- (assoc_L (++)) in H.
    + apply g_partial_redirs, g_cmd_redir;
        [by eapply g_partial_cmd|done|done].
  - case_bool_decide as Hpipe.
    { subst w. destruct o as [|]; simpl; [done|]. case_bool_decide as Ha; [done|].
      intros H. pose proof (g_partial_cmd _ _ _ Hp Ha).
      apply (IH rest [] empty_scmd false (Some (us, cur))) in H; try done; try lia.
      constructor; simpl; [done|lia]. }
    case_bool_decide as Hamp.
    { subst w. case_bool_decide as Hr; [done|]. subst rest.
      destruct o as [|]; simpl; [done|]. unfold finish_words.
      case_bool_decide; [done|]. intros [= <-]. constructor. by eapply g_partial_cmd. }
    destruct f; [done|]. case_bool_decide as Hl; [done|]. intros H.
    apply IH with (us := us ++ [w]) in H; try done; try lia.
    + by rewrite <- (assoc_L (++)) in H.
    + inversion Hp as [args Hpl Hlen|]; subst. simpl in *. constructor.
      * apply Forall_app. split; [done|]. constructor; [|done]. by apply plain_intro.
      * rewrite length_app. simpl. lia.
Qed.

Lemma parse_words_g_line ws ast :
  parse_words ws None empty_scmd false = Some ast ↔ g_line ws ast.
Proof.
  split; [|apply parse_words_complete].
  apply (parse_words_sound (length ws) ws [] empty_scmd false None ast); try done.
  constructor; simpl; [done|lia].
Qed.

(** ** The code simulates the functional parser *)

Lemma streq_str_at arr t w :
  nul_free w → streq (str_at arr t) w = bool_decide (str_at arr t = w).
Proof. intros Hw. unfold streq, str_at. by rewrite cstr_idemp, (cstr_id w). Qed.

Lemma operator_nul_free : Forall nul_free operators.
Proof. apply (bool_decide_unpack _). vm_compute. done. Qed.

Ltac op_nul_free :=
  apply (proj1 (Forall_forall _ _) operator_nul_free); unfold operators; set_solver.

Lemma redirect_slot_str_at arr t :
  redirect_slot (str_at arr t) = slot_of (str_at arr t).
Proof. unfold redirect_slot, slot_of. by rewrite !streq_str_at by op_nul_free. Qed.

Lemma is_operator_str_at arr t :
  is_operator (str_at arr t) = bool_decide (str_at arr t ∈ operators).
Proof.
  unfold is_operator. rewrite !streq_str_at by op_nul_free. unfold operators.
  apply eq_true_iff_eq. rewrite !orb_true_iff, !bool_decide_eq_true.
  rewrite !elem_of_cons, elem_of_nil. tauto.
Qed.

(** The invariant of a command while it is being filled: as [cmd_wf], and the
    unused entries of [argv] are still null. *)
Record cmd_inv (self : base) (c : cmd_t) : Prop := {
  inv_len : length (argv c) = YASH_MAX_ARGS + 1;
  inv_argc : argc c ≤ YASH_MAX_ARGS;
  inv_args : Forall (λ o, o ≠ None ∧ ptr_ok self o) (take (argc c) (argv c));
  inv_null : Forall (.= None) (drop (argc c) (argv c));
  inv_in : ptr_ok self (infile c);
  inv_out : ptr_ok self (outfile c);
  inv_err : ptr_ok self (errfile c)
}.

Lemma zero_cmd_inv self : cmd_inv self zero_cmd.
Proof.
  constructor; [done|simpl; lia|done| |done|done|done].
  change (Forall (.= None) (replicate (YASH_MAX_ARGS + 1) (@None ptr))).
  by apply Forall_replicate.
Qed.

Lemma cmd_inv_null self c : cmd_inv self c → argv c !! argc c = Some None.
Proof.
  intros [Hlen Hargc _ Hnull _ _ _].
  destruct (lookup_lt_is_Some_2 (argv c) (argc c)) as [o Ho]; [lia|].
  rewrite Ho. f_equal. rewrite Forall_lookup in Hnull.
  apply (Hnull 0). by rewrite lookup_drop, Nat.add_0_r.
Qed.

Lemma cmd_inv_wf self c : cmd_inv self c → cmd_wf self c.
Proof. intros H. pose proof (cmd_inv_null _ _ H). by destruct H. Qed.

Lemma null_terminate_id self c : cmd_inv self c → null_terminate c = c.
Proof.
  intros H%cmd_inv_null. unfold null_terminate.
  rewrite list_insert_id by done. by destruct c.
Qed.

Lemma push_arg_inv self c t :
  cmd_inv self c → argc c < YASH_MAX_ARGS → t ≤ YASH_MAX_LINE →
  cmd_inv self (push_arg (Ptr self t) c).
Proof.
  intros [Hlen Hargc Hargs Hnull ???] Hlt Ht. unfold push_arg.
  constructor; simpl; try done.
  - by rewrite length_insert.
  - rewrite (take_S_r _ _ (Some (Ptr self t)))
      by (apply list_lookup_insert_eq; lia).
    rewrite take_insert_ge by lia.
    apply Forall_app. split; [done|]. constructor; [|done].
    split; [done|]. split; [done|]. simpl. limits.
  - rewrite drop_insert_lt by lia.
    rewrite <- Nat.add_1_r, <- drop_drop.
    by apply Forall_drop.
Qed.

Lemma slot_set_inv self s c t :
  cmd_inv self c → t ≤ YASH_MAX_LINE → cmd_inv self (slot_set s (Ptr self t) c).
Proof. intros [] Ht. destruct s; constructor; simpl; try done; split; done || limits. Qed.

Section abs_cmd.
Context (arr : bytes).

Lemma abs_args_length self c :
  cmd_inv self c → length (s_args (abs_cmd arr c)) = argc c.
Proof.
  intros []. simpl. rewrite !length_fmap, length_take. lia.
Qed.

Lemma abs_args_nil self c :
  cmd_inv self c → s_args (abs_cmd arr c) = [] ↔ argc c = 0.
Proof. intros H%abs_args_length. rewrite <- H, <- length_zero_iff_nil. done. Qed.

Lemma abs_push_arg self c t :
  cmd_inv self c → argc c < YASH_MAX_ARGS →
  abs_cmd arr (push_arg (Ptr self t) c) = s_push (str_at arr t) (abs_cmd arr c).
Proof.
  intros [] ?. unfold abs_cmd, s_push; simpl. f_equal.
  rewrite (take_S_r _ _ (Some (Ptr self t)))
    by (apply list_lookup_insert_eq; lia).
  rewrite take_insert_ge by lia. by rewrite !fmap_app.
Qed.

Lemma abs_slot_set s p c :
  abs_cmd arr (slot_set s p c) = s_set s (str_at arr (p_off p)) (abs_cmd arr c).
Proof. by destruct s. Qed.

Lemma abs_slot_get s c :
  s_get s (abs_cmd arr c) = None ↔ slot_get s c = None.
Proof. destruct s; simpl; unfold read_ptr; apply fmap_None. Qed.

Lemma abs_zero_cmd : abs_cmd arr zero_cmd = empty_scmd.
Proof. done. Qed.

End abs_cmd.

(** The loop state [(job, ci)] stands for the pair of the command left of the
    pipe, if any, and the current command. *)
Record sim {E} (self : base) (j : job_t E) (ci : nat) (pre : list cmd_t) (c : cmd_t)
    : Prop := {
  sim_cmds : cmds j = pre ++ c :: replicate (1 - ci) zero_cmd;
  sim_ci : length pre = ci ∧ ci ≤ 1;
  sim_inv : Forall (cmd_inv self) (pre ++ [c]);
  sim_pre : Forall (λ c, 0 < argc c) pre
}.

(** The members the loop does not touch. *)
Definition same_frame {E} (j j' : job_t E) : Prop :=
  (jid j', pgid j', nlive j', state j', infd j', next j')
  = (jid j, pgid j, nlive j, state j, infd j, next j) ∧
  cmdline j' = cmdline j ∧ buf j' = buf j.

Lemma sim_cur {E} self (j : job_t E) ci pre c :
  sim self j ci pre c →
  default zero_cmd (cmds j !! ci) = c ∧ cmd_inv self c.
Proof.
  intros [-> [<- _] Hinv _]. split.
  - by rewrite list_lookup_middle.
  - apply Forall_app in Hinv as [_ Hinv]. by inversion Hinv.
Qed.

Lemma sim_upd {E} self (j : job_t E) ci pre c f :
  sim self j ci pre c → cmd_inv self (f c) → sim self (upd_cmd ci f j) ci pre (f c).
Proof.
  intros [Hc [<- Hci] Hinv Hpre] Hf. split; simpl.
  - rewrite Hc. rewrite list_alter_middle by done. done.
  - done.
  - apply Forall_app in Hinv as [? _]. apply Forall_app. by rewrite Forall_singleton.
  - done.
Qed.

Lemma sim_pipe {E} self (j : job_t E) pre c :
  sim self j 0 pre c → 0 < argc c → sim self j 1 (pre ++ [c]) zero_cmd.
Proof.
  intros [Hc [Hl _] Hinv Hpre] Hpos. destruct pre; [|done]. split; simpl in *.
  - done.
  - lia.
  - constructor; [by rewrite Forall_singleton in Hinv|].
    rewrite Forall_singleton. apply zero_cmd_inv.
  - by constructor.
Qed.

Section parse_tokens.
Context {E : Type} (self : base).
Implicit Types j : job_t E.

(** What one run of the loop yields, against the functional parser. *)
Definition loop_result (arr : bytes) (j : job_t E) (r : job_t E + (job_t E * nat))
    (spec : option sline) : Prop :=
  match r with
  | inl _ => spec = None
  | inr (j', ci') => ∃ pre' c',
      sim self j' ci' pre' c' ∧ same_frame j j' ∧
      (background j' = true → ci' = 0) ∧
      spec = finish_words (head (abs_cmd arr <$> pre')) (abs_cmd arr c')
               (background j')
  end.

Lemma loop_result_frame arr j j1 r spec :
  same_frame j j1 → loop_result arr j1 r spec → loop_result arr j r spec.
Proof.
  intros (H1 & H2 & H3). destruct r as [|[j' ci']]; [done|].
  intros (pre & c & Hs & (F1 & F2 & F3) & Hb & ->). exists pre, c.
  split_and!; try done. repeat split; congruence.
Qed.

Lemma sim_prev_None arr j ci pre c :
  sim self j ci pre c → ci = 0 ↔ head (abs_cmd arr <$> pre) = None.
Proof. intros [_ [<- _] _ _]. by destruct pre. Qed.

Lemma parse_tokens_sim n toks j ci pre c f :
  length toks ≤ n → Forall (λ t, t ≤ YASH_MAX_LINE) toks → sim self j ci pre c →
  background j = false →
  loop_result (buf j) j (parse_tokens self toks j ci f)
    (parse_words (str_at (buf j) <$> toks) (head (abs_cmd (buf j) <$> pre))
       (abs_cmd (buf j) c) f).
Proof.
  revert toks j ci pre c f.
  induction n as [|n IH]; intros [|t rest] j ci pre c f Hn Ht Hsim Hbg;
    simpl in Hn; try lia; cbn [parse_tokens parse_words fmap list_fmap].
  1,2: exists pre, c; rewrite Hbg; by split_and!.
  destruct (sim_cur _ _ _ _ _ Hsim) as [Hcur Hinv]. rewrite Hcur.
  pose proof (sim_prev_None (buf j) _ _ _ _ Hsim) as Hprev.
  pose proof (abs_args_nil (buf j) _ _ Hinv) as Hnil.
  apply Forall_cons in Ht as [Ht Hrest].
  rewrite redirect_slot_str_at.
  destruct (slot_of _) as [s|] eqn:Hslot.
  - rewrite (bool_decide_ext _ _ Hnil). case_bool_decide as Ha; [done|].
    rewrite (bool_decide_ext _ _ (not_iff_compat (abs_slot_get (buf j) s c))).
    case_bool_decide as Hg; [done|].
    destruct rest as [|t' rest]; [done|]. cbn [fmap list_fmap].
    apply Forall_cons in Hrest as [Ht' Hrest].
    rewrite is_operator_str_at. case_bool_decide as Hop; [done|].
    change (str_at (buf j) t') with (str_at (buf j) (p_off (Ptr self t'))).
    rewrite <- abs_slot_set.
    apply (loop_result_frame _ j (upd_cmd ci (slot_set s (Ptr self t')) j));
      [by split_and!|].
    apply (IH rest (upd_cmd ci (slot_set s (Ptr self t')) j));
      [simpl in *; lia|done| |done].
    by apply sim_upd; [|apply slot_set_inv].
  - rewrite !streq_str_at by op_nul_free.
    case_bool_decide as Hpipe.
    { destruct (decide (ci = 0)) as [->|Hci].
      - rewrite (proj1 Hprev eq_refl). rewrite bool_decide_false by limits.
        rewrite (bool_decide_ext _ _ Hnil). case_bool_decide as Ha; [done|].
        destruct pre; [|by destruct Hsim as [_ [? _] _ _]].
        apply (IH rest j 1 ([] ++ [c]) zero_cmd false); try done; try lia.
        apply sim_pipe; [done|lia].
      - rewrite bool_decide_true by limits.
        destruct (head _); [done|]. destruct Hci. by apply Hprev. }
    case_bool_decide as Hamp.
    { rewrite (bool_decide_ext (_ <$> rest ≠ []) (rest ≠ []))
        by (by destruct rest).
      case_bool_decide as Hr; [done|]. subst rest. case_bool_decide as Hci.
      - destruct (head _); [done|]. destruct Hci. by apply Hprev.
      - rewrite (proj1 Hprev Hci). simpl. exists pre, c. split_and!; try done.
        + by destruct Hsim.
        + by rewrite (proj1 Hprev Hci). }
    destruct f; [done|].
    rewrite (abs_args_length (buf j) _ _ Hinv). case_bool_decide as Hl; [done|].
    pose proof (inv_argc _ _ Hinv).
    rewrite <- (abs_push_arg (buf j) self) by (done || lia).
    apply (loop_result_frame _ j (upd_cmd ci (push_arg (Ptr self t)) j));
      [by split_and!|].
    apply (IH rest (upd_cmd ci (push_arg (Ptr self t)) j)); [lia|done| |done].
    apply sim_upd; [done|]. apply push_arg_inv; try done. lia.
Qed.

End parse_tokens.

(** ** The end of the parser *)

Lemma cstr_insert_nul n l :
  n ≤ strlen l → n < length l → cstr (<[n := NUL]> l) = take n (cstr l).
Proof.
  unfold strlen. revert l. induction n as [|n IH]; intros [|c l] Hn Hl; simpl in *; try done.
  case_bool_decide; simpl in *; [lia|]. by rewrite IH by lia.
Qed.

Lemma strip_len_le l n : strip_len l n ≤ n.
Proof.
  induction n as [|n IH]; simpl; [lia|].
  destruct (l !! n); [case_bool_decide; lia|lia].
Qed.

(** What the finished job looks like, for a loop that ended in [sim]. *)
Lemma parse_finish_spec {E} self (j : job_t E) ci pre c :
  sim self j ci pre c →
  parse_finish j ci =
    if bool_decide (argc c = 0) then (PARSE_ERROR, j)
    else (PARSE_OK,
          set_ncmds (ci + 1)
            (if background j
             then set_cmdline
                    (<[strip_len (cmdline j) (strlen (cmdline j)) := NUL]>
                       (cmdline j)) j
             else j)).
Proof.
  intros Hsim. destruct (sim_cur _ _ _ _ _ Hsim) as [Hcur Hinv].
  unfold parse_finish. rewrite Hcur. case_bool_decide; [done|]. f_equal.
  set (j1 := if background j then _ else j).
  assert (Hc1 : cmds j1 = cmds j) by (unfold j1; by destruct (background j)).
  destruct Hsim as [Hcmds [<- _] Hpre _]. cbn [cmds set_ncmds ncmds].
  rewrite Hc1, Hcmds.
  replace (length pre + 1) with (length (pre ++ [c])) by (by rewrite length_app).
  change (c :: replicate (1 - length pre) zero_cmd)
    with ([c] ++ replicate (1 - length pre) zero_cmd).
  rewrite (assoc_L (++)), take_app_length, drop_app_length.
  assert (map null_terminate (pre ++ [c]) = pre ++ [c]) as ->.
  { clear -Hpre. induction Hpre as [|x l Hx _ IH]; simpl; [done|].
    by rewrite IH, (null_terminate_id self). }
  rewrite <- (assoc_L (++)). cbn [app]. rewrite <- Hcmds, <- Hc1.
  by destruct j1.
Qed.

Lemma finished_abs {E} self (j : job_t E) ci pre c :
  sim self j ci pre c →
  abs_job (set_ncmds (ci + 1) j)
  = SLine (option_list (head (abs_cmd (buf j) <$> pre)) ++ [abs_cmd (buf j) c])
      (background j).
Proof.
  intros [Hc [<- Hle] _ _]. unfold abs_job; simpl. rewrite Hc.
  destruct pre as [|p [|]]; simpl in *; [done|done|lia].
Qed.

(** The buffers of the job after [tokenize]. *)
Record bufs_ok {E} (j : job_t E) (line : bytes) : Prop := {
  b_buf : length (buf j) = YASH_MAX_LINE + 1;
  b_nul : buf j !! YASH_MAX_LINE = Some NUL;
  b_cmdline : length (cmdline j) = YASH_MAX_LINE + 1;
  b_line : cstr (cmdline j) = cstr line;
  b_len : strlen line ≤ YASH_MAX_LINE
}.

Definition tokenized_job {E} (e0 : E) (line arr : bytes) : job_t E :=
  set_buf arr (set_cmdline (strcpy (cmdline (zero_job e0)) line) (zero_job e0)).

Lemma tokenized_ok {E} (e0 : E) line :
  strlen line ≤ YASH_MAX_LINE →
  ∃ arr offs,
    tokenize (strcpy zero_line line) YASH_MAX_TOKENS = (Some offs, arr) ∧
    Forall (λ t, t ≤ YASH_MAX_LINE) offs ∧ str_at arr <$> offs = words line ∧
    bufs_ok (tokenized_job e0 line arr) line.
Proof.
  intros Hlen.
  assert (Hdst : strlen line < length zero_line) by (rewrite zero_line_length; lia).
  pose proof (tokenize_spec zero_line line YASH_MAX_TOKENS Hdst) as H.
  destruct (tokenize _ _) as [r arr]. rewrite bool_decide_false in H.
  - destruct H as (offs & -> & Hl & Hnul & Hdrop & Hoffs & Hws).
    exists arr, offs. split_and!; try done.
    { eapply Forall_impl; [done|]. simpl. lia. }
    rewrite zero_line_length in *.
    split; cbn [tokenized_job set_buf set_cmdline buf cmdline zero_job]; [done|..].
    + destruct (decide (strlen line = YASH_MAX_LINE)) as [<-|]; [done|].
      replace YASH_MAX_LINE with (S (strlen line) + (YASH_MAX_LINE - S (strlen line))) by lia.
      rewrite <- lookup_drop, Hdrop, lookup_drop. apply zero_line_lookup. lia.
    + rewrite strcpy_length; by rewrite zero_line_length.
    + apply strcpy_cstr.
    + done.
  - pose proof (split_words_count blanks [] (cstr line)) as Hc.
    unfold words, strlen in *. limits.
Qed.

(** The command line kept for [jobs]: the whole line, or for a background job
    the line without its trailing blanks and ampersands. *)
Definition kept_cmdline (bg : bool) (line : bytes) : bytes :=
  if bg then take (strip_len (cstr line) (strlen line)) (cstr line) else cstr line.

(** Everything the rest of the shell relies on after a [PARSE_OK]. *)
Record parsed {E} (e0 : E) (self : base) (line : bytes) (j : job_t E) : Prop := {
  p_wf : job_wf self j;
  p_bg : background j = true → ncmds j = 1;
  p_cmdline : cstr (cmdline j) = kept_cmdline (background j) line;
  p_fresh : jid j = 0%Z ∧ pgid j = 0%Z ∧ nlive j = 0%Z ∧ state j = JOB_RUNNING ∧
            infd j = e0 ∧ next j = None
}.

Lemma strip_len_cstr l n : n ≤ strlen l → strip_len l n = strip_len (cstr l) n.
Proof.
  unfold strlen. induction n as [|n IH]; simpl; intros Hn; [done|].
  assert (l !! n = cstr l !! n) as ->.
  { clear IH. revert n Hn. induction l as [|c l IHl]; intros n Hn; simpl in *; [lia|].
    case_bool_decide; simpl in *; [lia|]. destruct n; [done|]. simpl. apply IHl. lia. }
  destruct (cstr l !! n); [|done]. case_bool_decide; [apply IH; lia|done].
Qed.

Lemma sim_job_wf {E} self line (j0 j : job_t E) ci pre c :
  sim self j ci pre c → 0 < argc c → bufs_ok j0 line → same_frame j0 j →
  job_wf self (set_ncmds (ci + 1) j).
Proof.
  intros [Hcmds [Hci Hle] Hinv Hpre] Hc [Hb Hn Hcl Hl Hlen] (_ & Fc & Fb).
  assert (Htake : take (ci + 1) (cmds j) = pre ++ [c]).
  { rewrite Hcmds.
    change (c :: replicate (1 - ci) zero_cmd) with ([c] ++ replicate (1 - ci) zero_cmd).
    rewrite (assoc_L (++)). apply take_app_length'. rewrite length_app. simpl. lia. }
  split; cbn [set_ncmds buf cmdline ncmds cmds background]; rewrite ?Htake, ?Fb, ?Fc; try done.
  - unfold strlen in *. by rewrite Hl.
  - limits.
  - rewrite Hcmds, length_app; cbn [length]. rewrite length_replicate. limits.
  - eapply Forall_impl; eauto using cmd_inv_wf.
  - apply Forall_app; auto.
Qed.

Lemma job_wf_set_cmdline {E} self (j : job_t E) n :
  job_wf self j → n ≤ strlen (cmdline j) →
  job_wf self (set_cmdline (<[n := NUL]> (cmdline j)) j).
Proof.
  intros [] ?. split; simpl; try done.
  - by rewrite length_insert.
  - unfold strlen in *. rewrite cstr_insert_nul by (unfold strlen; lia).
    rewrite length_take. lia.
Qed.

Lemma finish_parsed {E} self line (j0 j : job_t E) ci pre c :
  sim self j ci pre c → 0 < argc c → bufs_ok j0 line → same_frame j0 j →
  (background j = true → ci = 0) →
  ∃ j', parse_finish j ci = (PARSE_OK, j') ∧
    abs_job j' = abs_job (set_ncmds (ci + 1) j) ∧ job_wf self j' ∧
    (background j' = true → ncmds j' = 1) ∧
    cstr (cmdline j') = kept_cmdline (background j') line ∧
    (jid j', pgid j', nlive j', state j', infd j', next j')
    = (jid j, pgid j, nlive j, state j, infd j, next j).
Proof.
  intros Hsim Hc Hbufs Hsame Hbg.
  rewrite (parse_finish_spec _ _ _ _ _ Hsim), bool_decide_false by lia.
  pose proof (sim_job_wf _ _ _ _ _ _ _ Hsim Hc Hbufs Hsame) as Hwf.
  destruct Hbufs as [_ _ Hcl Hl Hlen], Hsame as (_ & Fc & _).
  eexists. split; [done|].
  pose proof (strip_len_le (cmdline j) (strlen (cmdline j))) as Hs.
  destruct (background j) eqn:Hb; split_and!; try done.
  - by apply (job_wf_set_cmdline self (set_ncmds (ci + 1) j)).
  - intros _. cbn [set_ncmds ncmds]. by rewrite (Hbg eq_refl).
  - cbn [set_ncmds set_cmdline cmdline background]. rewrite Hb. unfold kept_cmdline.
    rewrite cstr_insert_nul; [|done|].
    + rewrite strip_len_cstr by done. unfold strlen. by rewrite Fc, Hl.
    + unfold strlen in *. rewrite Fc in *. rewrite Hl in *. lia.
  - cbn [set_ncmds background]. by rewrite Hb.
  - cbn [set_ncmds cmdline background]. rewrite Hb, Fc. done.
Qed.

Lemma parse_line_spec {E} (e0 : E) self line j0 :
  strlen line ≤ YASH_MAX_LINE →
  match words line, parse_words (words line) None empty_scmd false with
  | [], _ => ∃ j, parse_line e0 self (Some line) j0 = (PARSE_EMPTY, j)
  | _, None => ∃ j, parse_line e0 self (Some line) j0 = (PARSE_ERROR, j)
  | _, Some ast => ∃ j, parse_line e0 self (Some line) j0 = (PARSE_OK, j) ∧
                        abs_job j = ast ∧ parsed e0 self line j
  end.
Proof.
  intros Hlen. unfold parse_line. rewrite bool_decide_false by lia.
  destruct (tokenized_ok e0 line Hlen) as (arr & offs & Htok & Hoffs & Hws & Hbufs).
  cbn [zero_job buf cmdline]. rewrite Htok. fold (zero_job e0).
  fold (tokenized_job e0 line arr). rewrite <- Hws.
  destruct offs as [|t offs]; [eexists; done|].
  assert (Hs0 : sim self (tokenized_job e0 line arr) 0 [] zero_cmd).
  { split; simpl; [done|lia| |done]. rewrite Forall_singleton. apply zero_cmd_inv. }
  pose proof (parse_tokens_sim self (S (length offs)) (t :: offs) _ 0 [] zero_cmd
    false (Nat.le_refl _) Hoffs Hs0 eq_refl) as Hsim.
  change (buf (tokenized_job e0 line arr)) with arr in Hsim.
  rewrite (abs_zero_cmd arr) in Hsim. cbn [fmap list_fmap head] in Hsim |- *.
  destruct (parse_tokens _ _ _ _ _) as [j|[j ci]]; cbn [loop_result] in Hsim.
  { rewrite Hsim. by eexists. }
  destruct Hsim as (pre & c & Hs & Hsame & Hbg & ->).
  unfold finish_words. pose proof (sim_cur _ _ _ _ _ Hs) as [_ Hinv].
  rewrite (bool_decide_ext _ _ (abs_args_nil arr self c Hinv)).
  case_bool_decide as Hc.
  { rewrite (parse_finish_spec _ _ _ _ _ Hs), bool_decide_true by done. by eexists. }
  destruct (finish_parsed self line _ _ _ _ _ Hs ltac:(lia) Hbufs Hsame Hbg)
    as (j' & -> & Habs & Hwf & Hbg' & Hcl & Hf).
  exists j'. split_and!; [done| |].
  - rewrite Habs, (finished_abs _ _ _ _ _ Hs).
    destruct Hsame as (_ & _ & Hb). by rewrite Hb.
  - destruct Hsame as (Hfr & _ & _). rewrite Hfr in Hf.
    split; [done|done|done|]. by simplify_eq.
Qed.

(** ** Printing a line back *)

Fixpoint join (ws : list bytes) : bytes :=
  match ws with
  | [] => []
  | w :: ws' => match ws' with [] => w | _ => w ++ SP :: join ws' end
  end.

Definition print_redir (s : slot) (o : option bytes) : list bytes :=
  match o with Some w => [op_of s; w] | None => [] end.

Definition print_scmd (c : scmd) : list bytes :=
  s_args c ++ print_redir SlotIn (s_in c) ++ print_redir SlotOut (s_out c)
    ++ print_redir SlotErr (s_err c).

Fixpoint print_pipe (cs : list scmd) : list bytes :=
  match cs with
  | [] => []
  | c :: cs' => print_scmd c ++ match cs' with [] => [] | _ => b "|" :: print_pipe cs' end
  end.

Definition print_sline (l : sline) : bytes :=
  join (print_pipe (s_cmds l) ++ if s_bg l then [b "&"] else []).

(** The lines of the abstract syntax that have a concrete form. *)
Definition token_ok (w : bytes) : Prop :=
  w ≠ [] ∧ nul_free w ∧ Forall (.∉ blanks) w.

Definition word_ok (w : bytes) : Prop := token_ok w ∧ plain w.

Definition opt_ok (o : option bytes) : Prop :=
  match o with Some w => word_ok w | None => True end.

Record scmd_ok (c : scmd) : Prop := {
  so_args : s_args c ≠ [] ∧ Forall word_ok (s_args c) ∧
            length (s_args c) ≤ YASH_MAX_ARGS;
  so_files : opt_ok (s_in c) ∧ opt_ok (s_out c) ∧ opt_ok (s_err c)
}.

Definition sline_ok (l : sline) : Prop :=
  Forall scmd_ok (s_cmds l) ∧
  (length (s_cmds l) = 1 ∨ (length (s_cmds l) = 2 ∧ s_bg l = false)).

Lemma join_nul_free ws : Forall nul_free ws → nul_free (join ws).
Proof.
  induction 1 as [|w ws Hw Hws IH]; simpl; [apply nul_free_nil|].
  destruct ws; [done|]. apply nul_free_app. split; [done|].
  by apply nul_free_cons.
Qed.

Lemma words_join ws : Forall token_ok ws → words (join ws) = ws.
Proof.
  intros Hws. unfold words.
  rewrite cstr_id by (apply join_nul_free; eapply Forall_impl; [done|]; by intros ? (?&?&?)).
  induction Hws as [|w ws (Hne & _ & Hnb) Hws IH]; [done|]. cbn [join].
  destruct ws as [|w' ws].
  - rewrite <- (app_nil_r w) at 1. rewrite split_words_word by done.
    by apply split_words_nil.
  - rewrite split_words_word by done. rewrite split_words_stop by (done || by left).
    by rewrite IH.
Qed.

Lemma print_redir_g s o c :
  opt_ok o → s_get s c = None → ∀ ws c',
  g_redirs (match o with Some w => s_set s w c | None => c end) ws c' →
  g_redirs c (print_redir s o ++ ws) c'.
Proof. destruct o as [w|]; simpl; [|done]. intros [_ ?] ? ws c' ?. by constructor. Qed.

Lemma print_scmd_g c : scmd_ok c → g_cmd (print_scmd c) c.
Proof.
  intros [(Ha & Hw & Hl) (Hi & Ho & He)]. unfold print_scmd.
  constructor; [done| |done|].
  { eapply Forall_impl; [done|]. by intros ? [??]. }
  destruct c as [a i o e]; simpl in *.
  apply print_redir_g; [done|done|].
  apply print_redir_g; [done|by destruct i|].
  rewrite <- (app_nil_r (print_redir SlotErr e)).
  apply print_redir_g; [done|by destruct i, o|].
  destruct i, o, e; constructor.
Qed.

Lemma print_sline_g l :
  sline_ok l → g_line (print_pipe (s_cmds l) ++ if s_bg l then [b "&"] else []) l.
Proof.
  destruct l as [cs bg]. intros [Hcs Hlen]; simpl in *.
  destruct cs as [|c1 [|c2 [|]]]; simpl in *; try lia.
  - apply Forall_cons in Hcs as [H1%print_scmd_g _]. rewrite app_nil_r.
    destruct bg; [by constructor|]. rewrite app_nil_r. by constructor.
  - destruct Hlen as [|[_ ->]]; [lia|].
    apply Forall_cons in Hcs as [H1%print_scmd_g Hcs].
    apply Forall_cons in Hcs as [H2%print_scmd_g _].
    rewrite !app_nil_r. by constructor.
Qed.

#[global] Instance token_ok_dec w : Decision (token_ok w).
Proof. unfold token_ok, nul_free. apply _. Defined.

Lemma op_token_ok : Forall token_ok operators.
Proof. apply (bool_decide_unpack _). vm_compute. done. Qed.

Lemma op_ok w : w ∈ operators → token_ok w.
Proof. apply (proj1 (Forall_forall _ _) op_token_ok). Qed.

Lemma print_redir_ok s o : opt_ok o → Forall token_ok (print_redir s o).
Proof.
  destruct o as [w|]; simpl; [|done]. intros [? _].
  constructor; [|by constructor].
  apply op_ok. destruct s; unfold operators; simpl; set_solver.
Qed.

Lemma print_scmd_ok c : scmd_ok c → Forall token_ok (print_scmd c).
Proof.
  intros [(_ & Hw & _) (Hi & Ho & He)]. unfold print_scmd.
  repeat (apply Forall_app; split); auto using print_redir_ok.
  eapply Forall_impl; [done|]. by intros ? [??].
Qed.

Lemma print_sline_ok l :
  sline_ok l →
  Forall token_ok (print_pipe (s_cmds l) ++ if s_bg l then [b "&"] else []).
Proof.
  intros [Hcs _]. apply Forall_app. split.
  - induction Hcs as [|c cs Hc Hcs IH]; simpl; [done|].
    apply Forall_app. split; [by apply print_scmd_ok|].
    destruct cs; [done|]. constructor; [|done]. apply op_ok. unfold operators. set_solver.
  - destruct (s_bg l); [|done]. constructor; [|done]. apply op_ok. unfold operators. set_solver.
Qed.

Lemma parse_line_parsed {E} (e0 : E) self line (j0 j : job_t E) :
  parse_line e0 self (Some line) j0 = (PARSE_OK, j) → parsed e0 self line j.
Proof.
  intros H. destruct (decide (YASH_MAX_LINE < strlen line)) as [Hlen|Hlen].
  { unfold parse_line in H. by rewrite bool_decide_true in H. }
  pose proof (parse_line_spec e0 self line j0 ltac:(lia)) as Hs.
  destruct (words line); [destruct Hs as [j' Hj]; rewrite H in Hj; done|].
  destruct (parse_words _ _ _ _).
  - destruct Hs as (j' & Hj & _ & Hp). rewrite H in Hj. by simplify_eq.
  - destruct Hs as [j' Hj]. rewrite H in Hj. done.
Qed.

(** ** The properties of the parser *)

(** C9 (refinement): [parse_line] decides the grammar.  A line over 200 bytes
    is refused before the job is touched; a blank line is [PARSE_EMPTY]; any
    other line is accepted exactly when its words form a line of the grammar,
    and then the stored job, read through its own pointers, is that line's
    abstract syntax. *)
Theorem parse_line_grammar {E} (e0 : E) self line (j0 : job_t E) :
  let '(r, j) := parse_line e0 self (Some line) j0 in
  if bool_decide (YASH_MAX_LINE < strlen line) then r = PARSE_ERROR ∧ j = j0
  else match words line with
       | [] => r = PARSE_EMPTY
       | ws => (r = PARSE_OK ∧ g_line ws (abs_job j)) ∨
               (r = PARSE_ERROR ∧ ∀ ast, ¬ g_line ws ast)
       end.
Proof.
  case_bool_decide as Hlen.
  { simpl. by rewrite bool_decide_true. }
  pose proof (parse_line_spec e0 self line j0 ltac:(lia)) as H.
  pose proof (parse_words_g_line (words line)) as Hg.
  destruct (words line) as [|w ws]; [by destruct H as [j ->]|].
  destruct (parse_words _ _ _ _) as [ast|].
  - destruct H as (j & -> & <- & _). left. split; [done|]. by apply Hg.
  - destruct H as [j ->]. right. split; [done|]. intros ast Ha%Hg. done.
Qed.

(** After [PARSE_OK] every array the parser filled is within its
    fixed size: at most 64 arguments per command, a null-terminated [argv] of
    65 entries whose pointers and redirection targets all point inside the
    201-byte buffer of the same job, a NUL in the last byte of that buffer, one
    or two non-empty commands, a background job with one command only.  The
    kept command line is the input (without trailing blanks and ampersands for
    a background job). *)
Theorem parse_line_wf {E} (e0 : E) self line (j0 j : job_t E) :
  parse_line e0 self (Some line) j0 = (PARSE_OK, j) → parsed e0 self line j.
Proof. apply parse_line_parsed. Qed.

Definition sample_line : bytes := b "sort -r < in > out 2> err &".

Lemma parse_line_wf_witness :
  ∃ j, parse_line tt Frame (Some sample_line) (zero_job tt) = (PARSE_OK, j) ∧
       parsed tt Frame sample_line j.
Proof.
  eexists. split; [vm_compute; reflexivity|].
  eapply (parse_line_wf tt Frame sample_line (zero_job tt)).
  vm_compute. reflexivity.
Defined.

(** C35 (roundtrip): printing any well-formed abstract line and parsing the
    result gives the same abstract line back, whatever the job held before. *)
Theorem parse_print_roundtrip {E} (e0 : E) self (l : sline) (j0 : job_t E) :
  sline_ok l → strlen (print_sline l) ≤ YASH_MAX_LINE →
  ∃ j, parse_line e0 self (Some (print_sline l)) j0 = (PARSE_OK, j) ∧ abs_job j = l.
Proof.
  intros Hl Hlen. pose proof (parse_line_spec e0 self (print_sline l) j0 Hlen) as H.
  pose proof (print_sline_g l Hl) as Hg%parse_words_g_line.
  pose proof (words_join _ (print_sline_ok l Hl)) as Hw.
  fold (print_sline l) in Hw. rewrite Hw, Hg in H. destruct (print_pipe _ ++ _) eqn:E'; [|naive_solver].
  simpl in Hg. done.
Qed.

Definition sample_sline : sline :=
  SLine [SCmd [b "cat"; b "-n"] (Some (b "in")) None None;
         SCmd [b "wc"] None (Some (b "out")) (Some (b "err"))] false.

#[global] Instance word_ok_dec w : Decision (word_ok w).
Proof. unfold word_ok, plain. apply _. Defined.

Lemma parse_print_roundtrip_witness :
  ∃ j, parse_line (-1)%Z Frame (Some (print_sline sample_sline)) (zero_job (-1)%Z)
       = (PARSE_OK, j) ∧ abs_job j = sample_sline.
Proof.
  apply (parse_print_roundtrip (-1)%Z Frame sample_sline (zero_job (-1)%Z)).
  - split; [|by right].
    repeat constructor; try done; try (vm_compute; lia);
      apply (bool_decide_unpack _); vm_compute; done.
  - vm_compute. lia.
Defined.

Arguments parse_line : simpl never.
