(* ===== verification/Posix.v ===== *)
(** * The operating system interface

    The system calls the shells make, as an environment.  [Env] holds the
    answers of the kernel: each is a function of the log of everything that has
    happened so far, so that quantifying over all [Env] quantifies over all
    behaviours of the kernel, the terminal and the children, and no theorem
    rests on an assumption about them unless it states one.  What the kernel
    guarantees whatever the answers (descriptor tables with the lowest-free
    rule, signal dispositions) is computed. *)

From S2P Require Import Prelude CString.
From stdpp Require Import base tactics list gmap strings.
From Stdlib Require Import Ascii ZArith Lia.

(** ** Signals, wait statuses, errors *)

Inductive signal :=
  | SIGINT | SIGTSTP | SIGQUIT | SIGTTIN | SIGTTOU | SIGCHLD | SIGCONT
  | SIGKILL | SIGPIPE | SIGHUP.

#[global] Instance signal_eq_dec : EqDecision signal.
Proof. solve_decision. Defined.

#[global] Instance signal_countable : Countable signal.
Proof.
  apply (inj_countable'
    (λ s, match s with
          | SIGINT => 0 | SIGTSTP => 1 | SIGQUIT => 2 | SIGTTIN => 3 | SIGTTOU => 4
          | SIGCHLD => 5 | SIGCONT => 6 | SIGKILL => 7 | SIGPIPE => 8 | SIGHUP => 9
          end)
    (λ n, match n with
          | 0 => SIGINT | 1 => SIGTSTP | 2 => SIGQUIT | 3 => SIGTTIN | 4 => SIGTTOU
          | 5 => SIGCHLD | 6 => SIGCONT | 7 => SIGKILL | 8 => SIGPIPE | _ => SIGHUP
          end)).
  by intros [].
Defined.

(** A disposition: the default action, ignored, or a handler. *)
Inductive disp := SIG_DFL | SIG_IGN | Handler.

#[global] Instance disp_eq_dec : EqDecision disp.
Proof. solve_decision. Defined.

(** Dispositions of a process; a signal that is not listed has the default. *)
Abbreviation sigtab := (gmap signal disp).

Definition disposition (t : sigtab) (s : signal) : disp := default SIG_DFL (t !! s).

Inductive errno := EINTR | ECHILD | EPIPE | ECONNABORTED | EOTHER.

#[global] Instance errno_eq_dec : EqDecision errno.
Proof. solve_decision. Defined.

Inductive wstatus := WExited | WSignaled | WStopped | WContinued.

#[global] Instance wstatus_eq_dec : EqDecision wstatus.
Proof. solve_decision. Defined.

(** Options of [waitpid]. *)
Record wflags := WFlags { WNOHANG : bool; WUNTRACED : bool; WCONTINUED : bool }.

(** What [waitpid] returns: 0, -1 with [errno], or a child and its status. *)
Inductive wait_result :=
  | WaitNone
  | WaitErr (e : errno)
  | WaitChild (pid : positive) (st : wstatus).

(** POSIX: [waitpid] returns 0 only under [WNOHANG], reports a stop only under
    [WUNTRACED] and a continuation only under [WCONTINUED].  An answer that is
    not among those is read as an interrupted call. *)
Definition wait_filter (fl : wflags) (r : wait_result) : wait_result :=
  match r with
  | WaitNone => if WNOHANG fl then r else WaitErr EINTR
  | WaitChild _ WStopped => if WUNTRACED fl then r else WaitErr EINTR
  | WaitChild _ WContinued => if WCONTINUED fl then r else WaitErr EINTR
  | _ => r
  end.

Definition WIFSTOPPED (st : wstatus) : bool := bool_decide (st = WStopped).
Definition WIFCONTINUED (st : wstatus) : bool := bool_decide (st = WContinued).

(** ** Descriptors *)

Definition STDIN_FILENO : Z := 0.
Definition STDOUT_FILENO : Z := 1.
Definition STDERR_FILENO : Z := 2.

(** The open flags the programs use: [O_RDONLY], and
    [O_WRONLY | O_CREAT | O_TRUNC], [O_RDWR | O_CREAT] and
    [O_WRONLY | O_CREAT | O_APPEND] with their creation mode. *)
Inductive oflags :=
  | O_RDONLY
  | O_WRITE_CREATE_TRUNC (mode : Z)
  | O_RDWR_CREATE (mode : Z)
  | O_WRITE_CREATE_APPEND (mode : Z).

(** What a descriptor refers to. *)
Inductive ofile :=
  | OTty
  | ONull
  | OSock
  | OFile (path : bytes) (fl : oflags)
  | OPipeR (id : nat)
  | OPipeW (id : nat).

Abbreviation fdtab := (gmap Z ofile).

(** The lowest descriptor that is not in use. *)
Fixpoint free_from (fuel : nat) (n : Z) (t : fdtab) : Z :=
  match fuel with
  | O => n
  | S fuel' =>
      if bool_decide (t !! n = None) then n else free_from fuel' (n + 1)%Z t
  end.

Definition lowest_fd (t : fdtab) : Z := free_from (size t) 0 t.

Definition fd_alloc (f : ofile) (t : fdtab) : Z * fdtab :=
  (lowest_fd t, <[lowest_fd t := f]> t).

Definition fd_close (n : Z) (t : fdtab) : fdtab := delete n t.

(** [dup2(old, new)]; [None] is [EBADF]. *)
Definition fd_dup2 (old new : Z) (t : fdtab) : option fdtab :=
  match t !! old with Some f => Some (<[new := f]> t) | None => None end.

(** ** Processes that a shell starts *)

(** The part of a process the programs set up: descriptors, dispositions, the
    process group ([0] is its own pid), and what it wrote to standard error. *)
Record proc := Proc {
  p_fds : fdtab;
  p_sigs : sigtab;
  p_pgid : Z;
  p_err : list bytes
}.

(** How the child's part of the code ends. *)
Inductive child_end :=
  | Exec (file : bytes) (args : list bytes)
  | Exit (code : Z).

(** ** Events *)

Inductive fgets_result := Line (l : bytes) | Eof | ReadErr.
Inductive rw_result := RwOk (n : nat) | RwErr (e : errno).
Inductive read_result := ReadBytes (l : bytes) | ReadFail (e : errno).

Inductive event :=
  | EvWait (p : Z) (fl : wflags) (r : wait_result)
  | EvFork (r : option positive) (child : option (child_end * proc))
  | EvKill (p : Z) (s : signal)
  | EvTcsetpgrp (fd : Z) (pg : Z)
  | EvSetpgid (p pg : Z)
  | EvOut (l : bytes)
  | EvErr (l : bytes)
  | EvPipe (r : option (Z * Z))
  | EvClose (fd : Z)
  | EvMalloc (ok : bool)
  | EvFgets (r : fgets_result)
  | EvWrite (fd : Z) (l : bytes) (r : rw_result)
  | EvRead (fd : Z) (n : nat) (r : read_result)
  | EvSelect (fd : Z) (ready : bool)
  | EvLog (l : bytes)
  | EvOpen (path : bytes) (r : option Z).

(** The log of a run, newest event first. *)
Abbreviation history := (list event).

(** ** The environment *)

Class Env := {
  e_waitpid : history → Z → wflags → wait_result;
  e_getpid : positive;
  e_fork : history → option positive;
  e_pipe : history → bool;
  e_malloc : history → bool;
  e_fgets : history → nat → fgets_result;
  e_write : history → Z → bytes → rw_result;
  e_read : history → Z → nat → read_result;
  e_select : history → Z → bool;
  e_now : history → option bytes;
  e_open : fdtab → bytes → oflags → bool;
  e_exec : bytes → bool
}.

(** The number of allocations that were granted in a run. *)
Fixpoint mallocs (h : history) : Z :=
  match h with
  | [] => 0
  | EvMalloc true :: h' => mallocs h' + 1
  | _ :: h' => mallocs h'
  end.

(** The bound on the length of a run under which the job numbers, which the
    code computes as an [int], cannot overflow: before an allocation is granted,
    fewer than [INT_MAX] were.  Every job takes one allocation, so this is a run
    of at most 2147483647 jobs. *)
Class FewAllocs `{Env} : Prop := few_allocs : ∀ h,
  e_malloc h = true → (mallocs h < INT_MAX)%Z.

Lemma mallocs_nonneg h : (0 ≤ mallocs h)%Z.
Proof. induction h as [|[] h IH]; cbn; try done. destruct ok; lia. Qed.

Lemma mallocs_mono e h : (mallocs h ≤ mallocs (e :: h))%Z.
Proof. destruct e; cbn; try lia. destruct ok; lia. Qed.

Lemma mallocs_app h1 h2 : (mallocs h2 ≤ mallocs (h1 ++ h2))%Z.
Proof. induction h1 as [|e h1 IH]; [done|]. pose proof (mallocs_mono e (h1 ++ h2)). cbn [app]. lia. Qed.

(** ** Descriptor lemmas *)

Lemma free_from_spec fuel n t :
  (n ≤ free_from fuel n t ≤ n + Z.of_nat fuel)%Z ∧
  (∀ i, (n ≤ i < free_from fuel n t)%Z → t !! i ≠ None) ∧
  (t !! free_from fuel n t = None ∨ free_from fuel n t = (n + Z.of_nat fuel)%Z).
Proof.
  revert n. induction fuel as [|fuel IH]; intros n; simpl.
  { split_and!; [lia|lia| |]; [intros; lia|right; lia]. }
  case_bool_decide as Hn.
  { split_and!; [lia|lia|intros; lia|by left]. }
  destruct (IH (n + 1)%Z) as ([??] & Hused & Hend). split_and!; [lia|lia| |].
  - intros i Hi. destruct (decide (i = n)) as [->|]; [done|]. apply Hused. lia.
  - destruct Hend as [?|Heq]; [by left|]. right. lia.
Qed.

(** A table in which descriptors [0 .. k - 1] are all open has [k] entries. *)
Lemma fdtab_full_size (t : fdtab) (k : nat) :
  (∀ i, (0 ≤ i < Z.of_nat k)%Z → t !! i ≠ None) → k ≤ size t.
Proof.
  intros Hused.
  assert (Hk : k = size (list_to_set (seqZ 0 (Z.of_nat k)) : gset Z)).
  { rewrite size_list_to_set by apply NoDup_seqZ. rewrite length_seqZ. lia. }
  rewrite <- (size_dom (D := gset Z)), Hk. apply subseteq_size. intros i.
  rewrite elem_of_list_to_set, elem_of_seqZ, elem_of_dom. intros Hi.
  apply not_eq_None_Some, Hused. lia.
Qed.

Lemma lowest_fd_free t : t !! lowest_fd t = None.
Proof.
  unfold lowest_fd. destruct (free_from_spec (size t) 0 t) as (_ & Hused & [?|Heq]); [done|].
  destruct (t !! free_from (size t) 0 t) eqn:Hr; [|done]. exfalso.
  pose proof (fdtab_full_size t (S (size t))) as Hsz.
  assert (S (size t) ≤ size t); [|lia]. apply Hsz. intros i Hi.
  destruct (decide (i = free_from (size t) 0 t)) as [->|]; [by rewrite Hr|].
  apply Hused. lia.
Qed.

Lemma lowest_fd_nonneg t : (0 ≤ lowest_fd t)%Z.
Proof. unfold lowest_fd. pose proof (free_from_spec (size t) 0 t). lia. Qed.

Lemma lowest_fd_least t i : (0 ≤ i < lowest_fd t)%Z → is_Some (t !! i).
Proof.
  intros Hi. destruct (free_from_spec (size t) 0 t) as (_ & Hused & _).
  apply not_eq_None_Some, Hused. unfold lowest_fd in Hi. lia.
Qed.

(** With the standard three open, a new descriptor is above them. *)
Lemma lowest_fd_above t :
  is_Some (t !! 0%Z) → is_Some (t !! 1%Z) → is_Some (t !! 2%Z) → (2 < lowest_fd t)%Z.
Proof.
  intros [? H0] [? H1] [? H2]. pose proof (lowest_fd_nonneg t).
  pose proof (lowest_fd_free t) as Hf.
  destruct (decide (lowest_fd t = 0)%Z) as [E0|]; [congruence|].
  destruct (decide (lowest_fd t = 1)%Z) as [E1|]; [congruence|].
  destruct (decide (lowest_fd t = 2)%Z) as [E2|]; [congruence|]. lia.
Qed.
