(* ===== verification/JobTable.v ===== *)
(** * The job table

    The singly linked list of heap-allocated jobs kept by
    [Project 1/yash/src/jobs.c] in the static [job_list] and by
    [Project 2/yashd/server/src/jobs.c] in [session_t].  The two files share
    [jobs_count], [rebase_pointers], [jobs_add], [jobs_current],
    [jobs_recent_stopped], [jobs_find_pid] and the list surgery of
    [jobs_remove]; they are modelled once, over a world that is parametric in
    the [infd] member of the jobs and in the rest of the program's state.

    Jobs live in a heap of locations, linked by [next] as in the source, so a
    null or dangling dereference, a double free and a pointer difference
    between different buffers are undefined behaviour of the model.  [repr]
    says that the heap holds exactly the nodes of a finite list. *)

From S2P Require Import Prelude CString YashTypes Parse Posix.
From stdpp Require Import base tactics list gmap strings.
From Stdlib Require Import Ascii ZArith Lia Sorted.

(** ** The world *)

Record world (E X : Type) := World {
  w_heap : gmap loc (job_t E);
  w_list : option loc;
  w_fds : fdtab;
  w_sigs : sigtab;
  w_pipes : nat;
  w_log : history;
  w_x : X
}.
Arguments World {_ _}.
Arguments w_heap {_ _}.
Arguments w_list {_ _}.
Arguments w_fds {_ _}.
Arguments w_sigs {_ _}.
Arguments w_pipes {_ _}.
Arguments w_log {_ _}.
Arguments w_x {_ _}.

Section ops.
Context {E X : Type} `{Env}.
Abbreviation W := (world E X).
Implicit Types (w : W) (j : job_t E).

Definition with_heap (h : gmap loc (job_t E)) w : W :=
  World h (w_list w) (w_fds w) (w_sigs w) (w_pipes w) (w_log w) (w_x w).
Definition with_list (p : option loc) w : W :=
  World (w_heap w) p (w_fds w) (w_sigs w) (w_pipes w) (w_log w) (w_x w).
Definition with_fds (t : fdtab) w : W :=
  World (w_heap w) (w_list w) t (w_sigs w) (w_pipes w) (w_log w) (w_x w).
Definition with_sigs (t : sigtab) w : W :=
  World (w_heap w) (w_list w) (w_fds w) t (w_pipes w) (w_log w) (w_x w).
Definition with_pipes (n : nat) w : W :=
  World (w_heap w) (w_list w) (w_fds w) (w_sigs w) n (w_log w) (w_x w).
Definition with_log (l : history) w : W :=
  World (w_heap w) (w_list w) (w_fds w) (w_sigs w) (w_pipes w) l (w_x w).
Definition with_x (x : X) w : W :=
  World (w_heap w) (w_list w) (w_fds w) (w_sigs w) (w_pipes w) (w_log w) x.

Definition emit (e : event) : M W unit := modify (λ w, with_log (e :: w_log w) w).

(** *** Memory *)

Definition deref (l : loc) : M W (job_t E) :=
  h ← gets w_heap; assume_some (h !! l).

Definition update (l : loc) (f : job_t E → job_t E) : M W unit :=
  j ← deref l; modify (λ w, with_heap (<[l := f j]> (w_heap w)) w).

(** [malloc(sizeof (job_t))] followed by the copy [*job = *proto]. *)
Definition malloc_copy (proto : job_t E) : M W (option loc) :=
  w ← get;
  let ok := e_malloc (w_log w) in
  emit (EvMalloc ok);;
  if ok then
    let l := fresh (dom (w_heap w)) in
    modify (λ w, with_heap (<[l := proto]> (w_heap w)) w);; mret (Some l)
  else mret None.

Definition free (l : loc) : M W unit :=
  deref l;; modify (λ w, with_heap (delete l (w_heap w)) w).

(** *** System calls *)

Definition waitpid (p : Z) (fl : wflags) : M W wait_result :=
  w ← get;
  let r := wait_filter fl (e_waitpid (w_log w) p fl) in
  emit (EvWait p fl r);; mret r.

Definition kill (p : Z) (s : signal) : M W unit := emit (EvKill p s).

(** [close(fd)] in the parent. *)
Definition close (fd : Z) : M W unit :=
  emit (EvClose fd);; modify (λ w, with_fds (fd_close fd (w_fds w)) w).

(** [pipe(fds)]: the two lowest free descriptors, or a failure. *)
Definition pipe : M W (option (Z * Z)) :=
  w ← get;
  if e_pipe (w_log w) then
    let id := w_pipes w in
    let '(r, t1) := fd_alloc (OPipeR id) (w_fds w) in
    let '(wr, t2) := fd_alloc (OPipeW id) t1 in
    modify (λ w, with_pipes (S id) (with_fds t2 w));;
    emit (EvPipe (Some (r, wr)));; mret (Some (r, wr))
  else emit (EvPipe None);; mret None.

(** *** Loops over the list

    [for (j = job_list; j != NULL; j = j->next) step]: the successor is read
    after the body.  [step] yields [inl] to go on and [inr] to return from
    the function; [fin] is what follows the loop.  The number of allocated
    nodes plus one bounds the iterations. *)

Definition walk_fuel : M W nat := gets (λ w, S (size (w_heap w))).

Definition walk {A R} (step : A → loc → M W (A + R)) (fin : A → M W R) (a0 : A)
    : M W R :=
  fuel ← walk_fuel;
  h ← gets w_list;
  loop fuel
    (λ '(p, a),
       match p with
       | None => r ← fin a; mret (inr r)
       | Some l =>
           r ← step a l;
           match r with
           | inl a' => j ← deref l; mret (inl (next j, a'))
           | inr r => mret (inr r)
           end
       end) (h, a0).

(** The same with [next = j->next] saved before the body, as the loops that
    free nodes do. *)
Definition walk_saving {A R} (step : A → loc → M W (A + R)) (fin : A → M W R)
    (a0 : A) : M W R :=
  fuel ← walk_fuel;
  h ← gets w_list;
  loop fuel
    (λ '(p, a),
       match p with
       | None => r ← fin a; mret (inr r)
       | Some l =>
           j ← deref l;
           r ← step a l;
           match r with
           | inl a' => mret (inl (next j, a'))
           | inr r => mret (inr r)
           end
       end) (h, a0).

(** *** [jobs.c] *)

Definition jobs_count : M W nat :=
  walk (λ n _, mret (inl (S n))) mret 0.

(** [dst->buf + (p - src->buf)]; a null [p] or a [p] into another buffer is
    undefined behaviour. *)
Definition rebase_ptr (src dst : base) (o : option ptr) : option ptr :=
  match o with
  | Some p => if bool_decide (p_base p = src) then Some (Ptr dst (p_off p)) else None
  | None => None
  end.

(** [p ? dst->buf + (p - src->buf) : NULL] *)
Definition rebase_opt (src dst : base) (o : option ptr) : option (option ptr) :=
  match o with
  | Some _ => Some <$> rebase_ptr src dst o
  | None => Some None
  end.

Definition rebase_cmd (src dst : base) (c : cmd_t) : option cmd_t :=
  args ← mapM (rebase_ptr src dst) (take (argc c) (argv c));
  i ← rebase_opt src dst (infile c);
  o ← rebase_opt src dst (outfile c);
  e ← rebase_opt src dst (errfile c);
  Some (Cmd ((Some <$> args) ++ None :: drop (S (argc c)) (argv c))
            (argc c) i o e (pid c)).

(** [dst] starts as a copy of [src], so its commands are rewritten in place. *)
Definition rebase_pointers (src dst : base) (j : job_t E) : option (job_t E) :=
  cs ← mapM (rebase_cmd src dst) (take (ncmds j) (cmds j));
  Some (set_cmds (cs ++ drop (ncmds j) (cmds j)) j).

(** [while (tail->next != NULL) tail = tail->next;] *)
Definition find_tail (h : loc) : M W loc :=
  fuel ← walk_fuel;
  loop fuel
    (λ tl, j ← deref tl;
           mret (match next j with Some n => inl n | None => inr tl end)) h.

Definition jobs_add (proto : job_t E) : M W (option loc) :=
  n ← jobs_count;
  if bool_decide (YASH_MAX_JOBS ≤ n) then mret None
  else
    r ← malloc_copy proto;
    match r with
    | None => mret None
    | Some l =>
        update l (set_next None);;
        j ← deref l;
        j' ← assume_some (rebase_pointers Frame (Heap l) j);
        update l (λ _, j');;
        head ← gets w_list;
        match head with
        | None =>
            update l (set_jid 1);;
            modify (with_list (Some l))
        | Some h =>
            tail ← find_tail h;
            t ← deref tail;
            check (bool_decide (jid t < INT_MAX)%Z);;
            update l (set_jid (jid t + 1)%Z);;
            update tail (set_next (Some l))
        end;;
        mret (Some l)
    end.

(** [link] is [&job_list] ([None]) or [&k->next] ([Some k]). *)
Definition read_link (link : option loc) : M W (option loc) :=
  match link with
  | None => gets w_list
  | Some k => j ← deref k; mret (next j)
  end.

Definition write_link (link : option loc) (p : option loc) : M W unit :=
  match link with
  | None => modify (with_list p)
  | Some k => update k (set_next p)
  end.

(** The loop of [jobs_remove]; [hook] is what the daemon does between the
    unlinking and [free]. *)
Definition jobs_unlink (hook : loc → M W unit) (job : loc) : M W unit :=
  fuel ← walk_fuel;
  loop fuel
    (λ link,
       cur ← read_link link;
       match cur with
       | None => mret (inr tt)
       | Some c =>
           if bool_decide (c = job) then
             j ← deref job;
             write_link link (next j);;
             hook job;;
             free job;;
             mret (inr tt)
           else mret (inl (Some c))
       end) None.

(** [found = j] for every [j] that satisfies the test: the last one wins. *)
Definition last_job (test : job_t E → bool) : M W (option loc) :=
  walk (λ found l, j ← deref l; mret (inl (if test j then Some l else found)))
    mret None.

Definition jobs_current : M W (option loc) :=
  last_job (λ j, bool_decide (state j = JOB_RUNNING ∨ state j = JOB_STOPPED)).

Definition jobs_recent_stopped : M W (option loc) :=
  last_job (λ j, bool_decide (state j = JOB_STOPPED)).

(** The inner loop of [jobs_find_pid]. *)
Definition has_pid (p : Z) (j : job_t E) : bool :=
  existsb (λ c, bool_decide (pid c = p)) (take (ncmds j) (cmds j)).

Definition jobs_find_pid (p : Z) : M W (option loc) :=
  walk (λ _ l, j ← deref l; mret (if has_pid p j then inr (Some l) else inl tt))
    (λ _, mret None) tt.

(** [printf("[%d] %c %s\t%s%s\n", ...)] *)
Definition job_line j (mark : ascii) (status : bytes) : bytes :=
  b "[" ++ fmt_d (jid j) ++ b "] " ++ [mark; SP] ++ status ++ [TAB]
  ++ cstr (cmdline j) ++ (if background j then b " &" else []) ++ [LF].

End ops.

(** Simplify projections of updated worlds and jobs. *)
Ltac wsimpl :=
  cbn [w_heap w_list w_fds w_sigs w_pipes w_log w_x
       with_heap with_list with_fds with_sigs with_pipes with_log with_x] in *.

(** ** Representation *)

Section repr.
Context {E X : Type} `{Env}.
Abbreviation W := (world E X).
Implicit Types (w : W) (j : job_t E) (h : gmap loc (job_t E)).

(** [chain h p ls]: following [next] from [p] visits exactly [ls]. *)
Fixpoint chain h (p : option loc) (ls : list loc) : Prop :=
  match ls with
  | [] => p = None
  | l :: ls' => p = Some l ∧ ∃ j, h !! l = Some j ∧ chain h (next j) ls'
  end.

(** The heap is exactly the list: no dangling node, no leak, no cycle. *)
Record repr w (ls : list loc) : Prop := {
  r_chain : chain (w_heap w) (w_list w) ls;
  r_nodup : NoDup ls;
  r_dom : dom (w_heap w) = list_to_set ls
}.

(** The jobs in list order. *)
Definition jobs_of w (ls : list loc) : list (job_t E) := omap (w_heap w !!.) ls.

Lemma chain_head h p ls : chain h p ls → p = head ls.
Proof. destruct ls; simpl; naive_solver. Qed.

Lemma chain_lookup h p ls l : chain h p ls → l ∈ ls → is_Some (h !! l).
Proof.
  revert p. induction ls as [|x ls IH]; simpl; intros p; [by intros _ ?%elem_of_nil|].
  intros (-> & j & Hj & Hc). rewrite elem_of_cons. intros [->|?]; [by eexists|eauto].
Qed.

Lemma chain_insert_notin h p ls l j :
  l ∉ ls → chain h p ls → chain (<[l := j]> h) p ls.
Proof.
  revert p. induction ls as [|x ls IH]; simpl; intros p; [done|].
  rewrite not_elem_of_cons. intros [??] (-> & j' & Hj & Hc).
  split; [done|]. exists j'. rewrite lookup_insert_ne by done. auto.
Qed.

Lemma chain_delete_notin h p ls l :
  l ∉ ls → chain h p ls → chain (delete l h) p ls.
Proof.
  revert p. induction ls as [|x ls IH]; simpl; intros p; [done|].
  rewrite not_elem_of_cons. intros [??] (-> & j' & Hj & Hc).
  split; [done|]. exists j'. rewrite lookup_delete_ne by done. auto.
Qed.

(** Overwriting a node without changing its [next] keeps the chain. *)
Lemma chain_update h p ls l j j' :
  h !! l = Some j → next j' = next j → chain h p ls → chain (<[l := j']> h) p ls.
Proof.
  intros Hl Hn. revert p. induction ls as [|x ls IH]; simpl; intros p; [done|].
  intros (-> & k & Hk & Hc). split; [done|].
  destruct (decide (x = l)) as [->|Hx].
  - exists j'. rewrite lookup_insert_eq. simplify_eq. rewrite Hn. auto.
  - exists k. rewrite lookup_insert_ne by done. auto.
Qed.

Lemma chain_app h p ls1 ls2 :
  chain h p (ls1 ++ ls2) →
  ∃ q, chain h q ls2 ∧
    (ls1 = [] ∧ q = p ∨ ∃ k j, last ls1 = Some k ∧ h !! k = Some j ∧ next j = q).
Proof.
  revert p. induction ls1 as [|x ls1 IH]; simpl; intros p.
  - intros ?. exists p. auto.
  - intros (-> & j & Hj & Hc). destruct (IH _ Hc) as (q & Hq & [[-> ->]|(k & jk & Hk & ? & ?)]).
    + exists (next j). split; [done|]. right. by exists x, j.
    + exists q. split; [done|]. right. exists k, jk. split; [|done].
      destruct ls1; [done|]. done.
Qed.

(** Appending a node: the old last node points to it. *)
Lemma chain_snoc h p ls k jk l j :
  chain h p (ls ++ [k]) → NoDup (ls ++ [k]) → h !! k = Some jk →
  l ∉ ls ++ [k] → h !! l = Some j → next j = None →
  chain (<[k := set_next (Some l) jk]> h) p (ls ++ [k; l]).
Proof.
  revert p. induction ls as [|x ls IH]; simpl; intros p.
  - intros (-> & j' & Hj' & Hn) _ Hk Hl Hj Hnext. split; [done|].
    eexists. split; [apply lookup_insert_eq|]. simpl. split; [done|].
    exists j. rewrite lookup_insert_ne by set_solver. done.
  - intros (-> & j' & Hj' & Hc) [Hx Hnd]%NoDup_cons Hk Hl Hj Hnext.
    split; [done|]. exists j'. rewrite lookup_insert_ne by set_solver.
    split; [done|]. apply IH; auto. set_solver.
Qed.

(** Unlinking a node in the middle. *)
Lemma chain_unlink h p ls1 k jk l j ls2 :
  chain h p (ls1 ++ k :: l :: ls2) → NoDup (ls1 ++ k :: l :: ls2) →
  h !! k = Some jk → h !! l = Some j →
  chain (<[k := set_next (next j) jk]> h) p (ls1 ++ k :: ls2).
Proof.
  revert p. induction ls1 as [|x ls1 IH]; simpl; intros p.
  - intros (-> & k' & Hk' & Hn & j' & Hj' & Hc) [Hx Hnd]%NoDup_cons Hk Hj.
    simplify_eq. split; [done|]. eexists. split; [apply lookup_insert_eq|].
    simpl. apply chain_insert_notin; [set_solver|done].
  - intros (-> & j' & Hj' & Hc) [Hx Hnd]%NoDup_cons Hk Hj.
    split; [done|]. exists j'. rewrite lookup_insert_ne by set_solver. auto.
Qed.

Lemma repr_size w ls : repr w ls → size (w_heap w) = length ls.
Proof.
  intros [_ Hnd Hd]. rewrite <- (size_dom (D := gset loc)), Hd.
  by apply size_list_to_set.
Qed.

Lemma repr_lookup w ls l : repr w ls → l ∈ ls ↔ is_Some (w_heap w !! l).
Proof.
  intros [_ _ Hd]. rewrite <- elem_of_dom, Hd, elem_of_list_to_set. done.
Qed.

Lemma repr_update w ls l j j' :
  repr w ls → w_heap w !! l = Some j → next j' = next j →
  repr (with_heap (<[l := j']> (w_heap w)) w) ls.
Proof.
  intros [Hc Hnd Hd] Hl Hn. split; simpl; [|done|].
  - by eapply chain_update.
  - rewrite dom_insert_lookup_L; [done|by eexists].
Qed.

(** The jobs seen from outside, as a list, do not depend on the rest of the
    world. *)
Lemma jobs_of_lookup w ls i l j :
  repr w ls → ls !! i = Some l → w_heap w !! l = Some j → jobs_of w ls !! i = Some j.
Proof.
  intros Hr. unfold jobs_of.
  assert (Hall : ∀ l, l ∈ ls → is_Some (w_heap w !! l)) by (intros; by eapply repr_lookup).
  clear Hr. revert i. induction ls as [|x ls IH]; intros i Hi Hl; [done|].
  simpl. destruct (Hall x) as [jx Hx]; [by left|]. rewrite Hx.
  destruct i; simpl in *; [congruence|]. apply IH; auto. intros ??. apply Hall. by right.
Qed.

End repr.

(** ** Rules for the loops *)

Section walk_rules.
Context {E X : Type} `{Env}.
Abbreviation W := (world E X).
Implicit Types (w : W) (j : job_t E).

Lemma wp_deref t l j (Q : job_t E → W → Prop) w :
  w_heap w !! l = Some j → Q j w → wp t (deref l) Q w.
Proof. intros Hl HQ. unfold deref. wp_steps. by eapply wp_assume_some. Qed.

Lemma wp_update t l j f (Q : unit → W → Prop) w :
  w_heap w !! l = Some j → Q tt (with_heap (<[l := f j]> (w_heap w)) w) →
  wp t (update l f) Q w.
Proof. intros Hl HQ. unfold update. wp_steps. by eapply wp_deref. Qed.

Lemma wp_free t l (Q : unit → W → Prop) w :
  is_Some (w_heap w !! l) → Q tt (with_heap (delete l (w_heap w)) w) →
  wp t (free l) Q w.
Proof. intros [j Hl] HQ. unfold free. wp_steps. by eapply wp_deref. Qed.

Lemma wp_emit t e (Q : unit → W → Prop) w :
  Q tt (with_log (e :: w_log w) w) → wp t (emit e) Q w.
Proof. done. Qed.

(** [walk] over a represented list, with an invariant indexed by the nodes
    already visited. *)
Lemma wp_walk {A R} t (ls : list loc) (I : list loc → A → W → Prop)
    (Q : R → W → Prop) (step : A → loc → M W (A + R)) (fin : A → M W R) a0 w :
  repr w ls → I [] a0 w →
  (∀ ls1 l ls2 a w, ls = ls1 ++ l :: ls2 → I ls1 a w →
     chain (w_heap w) (Some l) (l :: ls2) →
     wp t (step a l)
       (λ r w', match r with
                | inl a' => I (ls1 ++ [l]) a' w' ∧
                            chain (w_heap w') (Some l) (l :: ls2)
                | inr r => Q r w'
                end) w) →
  (∀ a w, I ls a w → wp t (fin a) Q w) →
  wp t (walk step fin a0) Q w.
Proof.
  intros Hr HI Hstep Hfin. unfold walk, walk_fuel. wp_steps.
  rewrite (repr_size _ _ Hr). destruct Hr as [Hc _ _].
  match goal with |- wp _ (loop _ ?body _) _ _ => set (bd := body) end.
  cut (∀ n ls1 ls2 a w p, ls = ls1 ++ ls2 → I ls1 a w → chain (w_heap w) p ls2 →
         length ls2 < n →
         wp t (loop n bd (p, a)) Q w); [intros Hg; apply (Hg _ [] ls); [done|done|done|lia]|].
  clear w a0 Hc HI. intros n. induction n as [|n IH]; intros ls1 ls2 a w p -> HI Hc Hn; [lia|].
  rewrite loop_S. apply wp_bind. unfold bd at 1. destruct ls2 as [|l ls2].
  - simpl in Hc. subst p. wp_steps. eapply wp_mono; [apply Hfin; by rewrite app_nil_r|].
    intros r w' HQ. by wp_steps.
  - pose proof Hc as [-> _]. wp_steps. eapply wp_mono; [by eapply Hstep|].
    intros [a'|r] w'; [|intros; by wp_steps].
    intros (HI' & _ & j & Hj & Hc'). wp_steps. eapply wp_deref; [done|]. wp_steps.
    eapply (IH (ls1 ++ [l]) ls2); [by rewrite <- (assoc_L (++))|done|done|simpl in *; lia].
Qed.

Lemma wp_walk_saving {A R} t (ls : list loc) (I : list loc → A → W → Prop)
    (Q : R → W → Prop) (step : A → loc → M W (A + R)) (fin : A → M W R) a0 w :
  repr w ls → I [] a0 w →
  (∀ ls1 l ls2 a w p, ls = ls1 ++ l :: ls2 → I ls1 a w →
     chain (w_heap w) (Some l) (l :: ls2) → chain (w_heap w) p ls2 →
     wp t (step a l)
       (λ r w', match r with
                | inl a' => I (ls1 ++ [l]) a' w' ∧ chain (w_heap w') p ls2
                | inr r => Q r w'
                end) w) →
  (∀ a w, I ls a w → wp t (fin a) Q w) →
  wp t (walk_saving step fin a0) Q w.
Proof.
  intros Hr HI Hstep Hfin. unfold walk_saving, walk_fuel. wp_steps.
  rewrite (repr_size _ _ Hr). destruct Hr as [Hc _ _].
  match goal with |- wp _ (loop _ ?body _) _ _ => set (bd := body) end.
  cut (∀ n ls1 ls2 a w p, ls = ls1 ++ ls2 → I ls1 a w → chain (w_heap w) p ls2 →
         length ls2 < n →
         wp t (loop n bd (p, a)) Q w); [intros Hg; apply (Hg _ [] ls); [done|done|done|lia]|].
  clear w a0 Hc HI. intros n. induction n as [|n IH]; intros ls1 ls2 a w p -> HI Hc Hn; [lia|].
  rewrite loop_S. apply wp_bind. unfold bd at 1. destruct ls2 as [|l ls2].
  - simpl in Hc. subst p. wp_steps. eapply wp_mono; [apply Hfin; by rewrite app_nil_r|].
    intros r w' HQ. by wp_steps.
  - pose proof Hc as (-> & j & Hj & Hc'). wp_steps. eapply wp_deref; [done|]. wp_steps.
    eapply wp_mono; [by eapply (Hstep ls1 l ls2 a w (next j))|].
    intros [a'|r] w'; [|intros; by wp_steps].
    intros (HI' & Hc2). wp_steps.
    eapply (IH (ls1 ++ [l]) ls2); [by rewrite <- (assoc_L (++))|done|done|simpl in *; lia].
Qed.

End walk_rules.

(** ** Loops that the environment ends

    Every iteration of such a loop asks the environment something, so the log
    grows.  [alive h]: after the history [h] the environment still has an answer
    that makes a loop go on.  The fuel is enough when no history of [B] events
    or more is alive, for some [B] below the fuel; partial correctness needs
    nothing. *)

Definition fuel_ok (alive : history → Prop) (t : mode) (fuel : nat) : Prop :=
  t = Full → ∃ B, B < fuel ∧ ∀ h, B ≤ length h → ¬ alive h.

Definition progress (alive : history → Prop) (h h' : history) : Prop :=
  ∃ h0, alive h0 ∧ length h ≤ length h0 < length h'.

Lemma progress_trans alive (h h1 h2 : history) :
  progress alive h h1 → length h1 ≤ length h2 → progress alive h h2.
Proof. intros (h0 & ? & ?) ?. exists h0. split; [done|lia]. Qed.

Lemma progress_trans_l alive (h h1 h2 : history) :
  length h ≤ length h1 → progress alive h1 h2 → progress alive h h2.
Proof. intros ? (h0 & ? & ?). exists h0. split; [done|lia]. Qed.

Lemma wp_loop_env {E X L A} alive t fuel (I : L → world E X → Prop)
    (Q : A → world E X → Prop) (body : L → M (world E X) (L + A)) :
  fuel_ok alive t fuel →
  (∀ l w, I l w →
     wp t (body l)
       (λ r w', match r with
                | inl l' => I l' w' ∧ progress alive (w_log w) (w_log w')
                | inr a => Q a w'
                end) w) →
  ∀ l w, I l w → wp t (loop fuel body l) Q w.
Proof.
  intros Hf Hbody l w HI. destruct t.
  - eapply (wp_loop I); [|done]. intros l1 w1 HI1. eapply wp_mono; [by apply Hbody|].
    intros [l2|a] w2; [by intros [? _]|done].
  - destruct (Hf eq_refl) as (B & HB & Hdead).
    eapply (wp_loop_total I Q (λ _ w, B - length (w_log w))); [|done|lia].
    intros l1 w1 HI1. eapply wp_mono; [by apply Hbody|].
    intros [l2|a] w2; [|done]. intros [? (h0 & Hal & Hlen)]. split; [done|].
    destruct (decide (B ≤ length h0)) as [Hge|]; [by destruct (Hdead h0 Hge)|]. lia.
Qed.

(** A loop whose last turns may go on without such an answer: [rank], at most 1,
    goes down then.  Twice the fuel is enough. *)
Definition fuel_ok2 (alive : history → Prop) (t : mode) (fuel : nat) : Prop :=
  t = Full → ∃ B, 2 * B + 1 < fuel ∧ ∀ h, B ≤ length h → ¬ alive h.

Lemma fuel_ok2_ok alive t fuel : fuel_ok2 alive t fuel → fuel_ok alive t fuel.
Proof. intros Hf Ht. destruct (Hf Ht) as (B & HB & Hd). exists B. split; [lia|done]. Qed.

Lemma wp_loop_rank {E X L A} alive t fuel (I : L → world E X → Prop)
    (Q : A → world E X → Prop) (rank : L → world E X → nat)
    (body : L → M (world E X) (L + A)) :
  fuel_ok2 alive t fuel → (∀ l w, rank l w ≤ 1) →
  (∀ l w, I l w →
     wp t (body l)
       (λ r w', match r with
                | inl l' => I l' w' ∧
                    (progress alive (w_log w) (w_log w') ∨
                     rank l' w' < rank l w ∧ length (w_log w) ≤ length (w_log w'))
                | inr a => Q a w'
                end) w) →
  ∀ l w, I l w → wp t (loop fuel body l) Q w.
Proof.
  intros Hf Hr Hbody l w HI. destruct t.
  - eapply (wp_loop I); [|done]. intros l1 w1 HI1. eapply wp_mono; [by apply Hbody|].
    intros [l2|a] w2; [by intros [? _]|done].
  - destruct (Hf eq_refl) as (B & HB & Hdead).
    eapply (wp_loop_total I Q (λ l w, 2 * (B - length (w_log w)) + rank l w)); [|done|].
    2:{ specialize (Hr l w). lia. }
    intros l1 w1 HI1. eapply wp_mono; [by apply Hbody|].
    intros [l2|a] w2; [|done]. intros [? Hpr]. split; [done|].
    destruct Hpr as [(h0 & Hal & Hlen)|[Hrk Hlen]]; [|lia].
    specialize (Hr l2 w2).
    destruct (decide (B ≤ length h0)) as [Hge|]; [by destruct (Hdead h0 Hge)|]. lia.
Qed.

(** ** The abstract table

    A table is a list of locations with their jobs, in creation order; the
    [next] members, which only encode that order, are erased.  [tbl w T] is
    the refinement relation between a world and a table; the lemmas below give
    each operation its effect on the table. *)

Abbreviation table E := (list (loc * job_t E)).

Definition erase {E} (j : job_t E) : job_t E := set_next None j.

Lemma erase_set_next {E} n (j : job_t E) : erase (set_next n j) = erase j.
Proof. done. Qed.

Lemma set_next_erase {E} n (j : job_t E) : set_next n (erase j) = set_next n j.
Proof. done. Qed.

Lemma set_next_id {E} (j : job_t E) : set_next (next j) j = j.
Proof. by destruct j. Qed.

(** A member update that neither reads nor writes [next]. *)
Class NextIndep {E} (f : job_t E → job_t E) : Prop :=
  next_indep : ∀ n j, f (set_next n j) = set_next n (f j).

#[export] Hint Extern 0 (NextIndep _) =>
  (unfold NextIndep; intros; reflexivity) : typeclass_instances.

Lemma next_indep_next {E} (f : job_t E → job_t E) `{!NextIndep f} j :
  next (f j) = next j.
Proof.
  rewrite <- (set_next_id j) at 1. by rewrite next_indep.
Qed.

Lemma next_indep_erase {E} (f : job_t E → job_t E) `{!NextIndep f} j :
  erase (f j) = f (erase j).
Proof. unfold erase. by rewrite next_indep. Qed.

(** A test that does not look at [next]. *)
Class NextBlind {E} (test : job_t E → bool) : Prop :=
  next_blind : ∀ j, test (erase j) = test j.

#[export] Hint Extern 0 (NextBlind _) =>
  (unfold NextBlind; intros; reflexivity) : typeclass_instances.

Section tbl.
Context {E X : Type} `{Env}.
Abbreviation W := (world E X).
Implicit Types (w : W) (j : job_t E) (T : table E).

Record tbl w T : Prop := {
  t_repr : repr w T.*1;
  t_view : Forall (λ lj, erase <$> w_heap w !! lj.1 = Some lj.2) T
}.

Definition upd_tbl (l : loc) (f : job_t E → job_t E) T : table E :=
  (λ lj, if bool_decide (lj.1 = l) then (l, f lj.2) else lj) <$> T.

(** The last entry that satisfies a test. *)
Definition last_such (test : job_t E → bool) T : option (loc * job_t E) :=
  last (filter (λ lj, test lj.2 = true) T).

Lemma upd_tbl_fst l f T : (upd_tbl l f T).*1 = T.*1.
Proof.
  unfold upd_tbl. rewrite <- list_fmap_compose. apply list_fmap_ext.
  intros i [k j] _. simpl. by case_bool_decide; subst.
Qed.

Lemma tbl_lookup w T l j :
  tbl w T → (l, j) ∈ T → ∃ n, w_heap w !! l = Some (set_next n j).
Proof.
  intros [_ Hv] Hin. rewrite Forall_forall in Hv. specialize (Hv _ Hin). simpl in Hv.
  destruct (w_heap w !! l) as [j'|]; [|done]. simpl in Hv. simplify_eq.
  exists (next j'). by rewrite set_next_erase, set_next_id.
Qed.

Lemma tbl_elem w T l j : tbl w T → w_heap w !! l = Some j → (l, erase j) ∈ T.
Proof.
  intros [Hr Hv] Hl. assert (l ∈ T.*1) as Hin.
  { eapply repr_lookup; [done|by eexists]. }
  apply list_elem_of_fmap in Hin as [[k j'] [-> Hin]].
  rewrite Forall_forall in Hv. specialize (Hv _ Hin). simpl in *.
  rewrite Hl in Hv. by simplify_eq/=.
Qed.

Lemma tbl_key w T l : tbl w T → l ∈ T.*1 ↔ is_Some (w_heap w !! l).
Proof. intros [Hr _]. by apply repr_lookup. Qed.

Lemma tbl_unique w T l j j' : tbl w T → (l, j) ∈ T → (l, j') ∈ T → j = j'.
Proof.
  intros [_ Hv] H1 H2. rewrite Forall_forall in Hv.
  pose proof (Hv _ H1). pose proof (Hv _ H2). simpl in *. congruence.
Qed.

(** Only the heap and the head of the list matter. *)
Lemma tbl_ext w w' T :
  w_heap w' = w_heap w → w_list w' = w_list w → tbl w T → tbl w' T.
Proof. intros Hh Hl [[]]. split; [split|]; by rewrite ?Hh, ?Hl. Qed.

Lemma tbl_update w T l j f `{!NextIndep f} :
  tbl w T → w_heap w !! l = Some j →
  tbl (with_heap (<[l := f j]> (w_heap w)) w) (upd_tbl l f T).
Proof.
  intros Ht Hl. pose proof (tbl_elem _ _ _ _ Ht Hl) as Hin.
  destruct Ht as [Hr Hv]. split.
  - rewrite upd_tbl_fst. eapply repr_update; [done|done|by apply next_indep_next].
  - unfold upd_tbl. rewrite Forall_fmap. eapply Forall_impl; [exact Hv|].
    intros [k jk]; simpl. case_bool_decide as Hk; simpl.
    + subst k. rewrite lookup_insert_eq, Hl. simpl. intros [= <-].
      by rewrite next_indep_erase.
    + by rewrite lookup_insert_ne.
Qed.

Lemma wp_update_tbl t l f (Q : unit → W → Prop) w T j `{!NextIndep f} :
  tbl w T → (l, j) ∈ T →
  (∀ h', tbl (with_heap h' w) (upd_tbl l f T) → Q tt (with_heap h' w)) →
  wp t (update l f) Q w.
Proof.
  intros Ht Hin HQ. destruct (tbl_lookup _ _ _ _ Ht Hin) as [n Hn].
  eapply wp_update; [done|]. by apply HQ, tbl_update.
Qed.

Lemma wp_deref_tbl t l (Q : job_t E → W → Prop) w T j :
  tbl w T → (l, j) ∈ T → (∀ n, Q (set_next n j) w) → wp t (deref l) Q w.
Proof.
  intros Ht Hin HQ. destruct (tbl_lookup _ _ _ _ Ht Hin) as [n Hn].
  by eapply wp_deref.
Qed.

(** *** Read-only loops *)

Lemma wp_jobs_count t (Q : nat → W → Prop) w T :
  tbl w T → Q (length T) w → wp t jobs_count Q w.
Proof.
  intros [Hr _] HQ. unfold jobs_count.
  eapply (wp_walk t T.*1 (λ ls n w', n = length ls ∧ w' = w)); [done|done| |].
  - intros ls1 l ls2 n w' _ [-> ->] Hc. wp_steps. rewrite length_app. simpl.
    split; [split; [lia|done]|done].
  - intros n w' [-> ->]. wp_steps. by rewrite length_fmap.
Qed.

Lemma filter_snoc (P : loc * job_t E → Prop) `{!∀ x, Decision (P x)} T x :
  filter P (T ++ [x]) = filter P T ++ (if decide (P x) then [x] else []).
Proof. by rewrite filter_app. Qed.

(** A split of the keys is a split of the table. *)
Lemma tbl_split T ls1 l ls2 :
  T.*1 = ls1 ++ l :: ls2 →
  ∃ T1 j T2, T = T1 ++ (l, j) :: T2 ∧ ls1 = T1.*1 ∧ ls2 = T2.*1.
Proof.
  intros HT. destruct (fmap_app_inv _ _ _ _ HT) as (T1 & T' & -> & HT' & ->).
  destruct T' as [|[k j] T2]; simpl in HT'; simplify_eq. by exists T1, j, T2.
Qed.

(** The walk rules, with invariants indexed by the visited part of the table. *)
Lemma wp_walk_tbl {A R} t T (I : table E → A → W → Prop) (Q : R → W → Prop)
    (step : A → loc → M W (A + R)) (fin : A → M W R) a0 w :
  tbl w T → I [] a0 w →
  (∀ T1 l j T2 a w, T = T1 ++ (l, j) :: T2 → I T1 a w →
     chain (w_heap w) (Some l) (l :: T2.*1) →
     wp t (step a l)
       (λ r w', match r with
                | inl a' => I (T1 ++ [(l, j)]) a' w' ∧
                            chain (w_heap w') (Some l) (l :: T2.*1)
                | inr r => Q r w'
                end) w) →
  (∀ a w, I T a w → wp t (fin a) Q w) →
  wp t (walk step fin a0) Q w.
Proof.
  intros [Hr _] HI Hstep Hfin.
  eapply (wp_walk t T.*1 (λ ls a w, I (take (length ls) T) a w)); [done|done| |].
  - intros ls1 l ls2 a w' Hls HI' Hc.
    destruct (tbl_split _ _ _ _ Hls) as (T1 & j & T2 & HT & -> & ->).
    rewrite HT, length_fmap, take_app_length in HI'.
    eapply wp_mono; [by eapply Hstep|]. intros [a'|r] w2; [|done].
    rewrite HT, length_app, length_fmap. simpl.
    change ((l, j) :: T2) with ([(l, j)] ++ T2). rewrite (assoc_L (++)).
    by rewrite take_app_length' by (rewrite length_app; done).
  - intros a w'. rewrite length_fmap, firstn_all. apply Hfin.
Qed.

Lemma wp_walk_saving_tbl {A R} t T (I : table E → A → W → Prop) (Q : R → W → Prop)
    (step : A → loc → M W (A + R)) (fin : A → M W R) a0 w :
  tbl w T → I [] a0 w →
  (∀ T1 l j T2 a w p, T = T1 ++ (l, j) :: T2 → I T1 a w →
     chain (w_heap w) (Some l) (l :: T2.*1) → chain (w_heap w) p T2.*1 →
     wp t (step a l)
       (λ r w', match r with
                | inl a' => I (T1 ++ [(l, j)]) a' w' ∧ chain (w_heap w') p T2.*1
                | inr r => Q r w'
                end) w) →
  (∀ a w, I T a w → wp t (fin a) Q w) →
  wp t (walk_saving step fin a0) Q w.
Proof.
  intros [Hr _] HI Hstep Hfin.
  eapply (wp_walk_saving t T.*1 (λ ls a w, I (take (length ls) T) a w)); [done|done| |].
  - intros ls1 l ls2 a w' p Hls HI' Hc Hp.
    destruct (tbl_split _ _ _ _ Hls) as (T1 & j & T2 & HT & -> & ->).
    rewrite HT, length_fmap, take_app_length in HI'.
    eapply wp_mono; [by eapply Hstep|]. intros [a'|r] w2; [|done].
    rewrite HT, length_app, length_fmap. simpl.
    change ((l, j) :: T2) with ([(l, j)] ++ T2). rewrite (assoc_L (++)).
    by rewrite take_app_length' by (rewrite length_app; done).
  - intros a w'. rewrite length_fmap, firstn_all. apply Hfin.
Qed.

Lemma wp_last_job t test (Q : option loc → W → Prop) w T `{!NextBlind test} :
  tbl w T → Q (fst <$> last_such test T) w → wp t (last_job test) Q w.
Proof.
  intros Ht HQ. unfold last_job.
  eapply (wp_walk_tbl t T (λ T1 r w', r = fst <$> last_such test T1 ∧ w' = w));
    [done|done| |].
  - intros T1 l j T2 a w' HT [-> ->] Hc. wp_steps.
    eapply wp_deref_tbl; [done|rewrite HT; apply elem_of_middle|]. intros n. wp_steps.
    split; [|done]. split; [|done]. unfold last_such. rewrite filter_snoc. simpl.
    rewrite <- next_blind, erase_set_next, next_blind.
    case_decide as Htest; [by rewrite Htest, last_snoc|].
    rewrite app_nil_r. by destruct (test j).
  - intros r w' [-> ->]. by wp_steps.
Qed.

(** The first entry that owns a pid. *)
Definition first_pid (p : Z) T : option (loc * job_t E) :=
  head (filter (λ lj, has_pid p lj.2 = true) T).

Lemma wp_jobs_find_pid t p (Q : option loc → W → Prop) w T :
  tbl w T → Q (fst <$> first_pid p T) w → wp t (jobs_find_pid p) Q w.
Proof.
  intros Ht HQ. unfold jobs_find_pid.
  eapply (wp_walk_tbl t T
            (λ T1 _ w', filter (λ lj, has_pid p lj.2 = true) T1 = [] ∧ w' = w));
    [done|done| |].
  - intros T1 l j T2 [] w' HT [Hno ->] Hc. wp_steps.
    eapply wp_deref_tbl; [done|rewrite HT; apply elem_of_middle|]. intros n. wp_steps.
    change (has_pid p (set_next n j)) with (has_pid p j).
    destruct (has_pid p j) eqn:Hp; simpl.
    + unfold first_pid in HQ. rewrite HT, filter_app, Hno in HQ. simpl in HQ.
      rewrite filter_cons_True in HQ by done. done.
    + rewrite filter_snoc, Hno. simpl. by rewrite decide_False by (by rewrite Hp).
  - intros [] w' [Hno ->]. wp_steps. unfold first_pid in HQ. by rewrite Hno in HQ.
Qed.

Lemma wp_find_tail t (Q : loc → W → Prop) w l ls k :
  chain (w_heap w) (Some l) (l :: ls) → length ls < size (w_heap w) →
  last (l :: ls) = Some k → Q k w → wp t (find_tail l) Q w.
Proof.
  intros Hc Hsz Hk HQ. unfold find_tail, walk_fuel. wp_steps.
  generalize (S (size (w_heap w))), (Nat.lt_lt_succ_r _ _ Hsz). intros n Hn. clear Hsz.
  revert l ls Hc Hk Hn. induction n as [|n IH]; intros l ls Hc Hk Hn; [lia|].
  rewrite loop_S. wp_steps. destruct Hc as (_ & j & Hj & Hc).
  eapply wp_deref; [done|]. wp_steps.
  destruct ls as [|x ls]; simpl in Hc.
  - rewrite Hc. wp_steps. by simplify_eq/=.
  - destruct Hc as [-> Hc]. apply (IH x ls); [by split|done|simpl in *; lia].
Qed.

Lemma rebase_erase src dst j j' :
  rebase_pointers src dst (erase j) = Some j' → j' = erase j'.
Proof.
  unfold rebase_pointers. cbn. destruct (mapM _ _); [|done]. simpl. by intros [= <-].
Qed.

Definition next_jid T : Z :=
  match last T with Some (_, j) => (jid j + 1)%Z | None => 1%Z end.

(** The world after a successful allocation. *)
Definition after_malloc w : W := with_log (EvMalloc true :: w_log w) w.

Lemma tbl_add_first w l j :
  tbl w [] → j = erase j →
  tbl (with_list (Some l) (with_heap (<[l := j]> (w_heap w)) w)) [(l, j)].
Proof.
  intros [[_ _ Hd] _] Hj. split; [split|]; simpl in *.
  - split; [done|]. exists j. rewrite lookup_insert_eq. split; [done|]. by rewrite Hj.
  - apply NoDup_singleton.
  - rewrite dom_insert_L, Hd. set_solver.
  - rewrite Forall_singleton. simpl. rewrite lookup_insert_eq. simpl. by rewrite <- Hj.
Qed.

Lemma tbl_add_last w T k jk l j :
  tbl w (T ++ [(k, erase jk)]) → w_heap w !! k = Some jk → l ∉ dom (w_heap w) →
  j = erase j →
  tbl (with_heap (<[k := set_next (Some l) jk]> (<[l := j]> (w_heap w))) w)
      ((T ++ [(k, erase jk)]) ++ [(l, j)]).
Proof.
  intros [[Hc Hnd Hd] Hv] Hk Hl Hj.
  assert (Hkl : k ≠ l) by (intros ->; apply Hl, elem_of_dom; by eexists).
  rewrite Hd, elem_of_list_to_set in Hl. rewrite fmap_app in *. simpl in *.
  split; [split|]; simpl; rewrite ?fmap_app; simpl.
  - rewrite <- (assoc_L (++)). simpl.
    apply (chain_snoc (<[l := j]> (w_heap w)) _ _ k jk l j);
      [by apply chain_insert_notin|done|by rewrite lookup_insert_ne|done
      |by rewrite lookup_insert_eq|by rewrite Hj].
  - apply NoDup_app. split; [done|]. split; [set_solver|apply NoDup_singleton].
  - rewrite dom_insert_lookup_L by (rewrite lookup_insert_ne by done; by eexists).
    rewrite dom_insert_L, Hd, list_to_set_app_L. set_solver.
  - rewrite Forall_app, Forall_singleton. simpl.
    rewrite lookup_insert_ne, lookup_insert_eq by done. split; [|simpl; by rewrite <- Hj].
    rewrite Forall_forall in Hv |- *. intros [x jx] Hx. specialize (Hv _ Hx). simpl in *.
    destruct (decide (x = k)) as [->|Hxk].
    + rewrite lookup_insert_eq. rewrite Hk in Hv. done.
    + rewrite lookup_insert_ne by done.
      rewrite lookup_insert_ne; [done|]. intros <-. destruct Hl.
      change ([k]) with ([(k, erase jk)].*1). rewrite <- fmap_app.
      apply list_elem_of_fmap. by exists (l, jx).
Qed.

(** A non-empty table: its head, its tail, and the next job number. *)
Lemma tbl_last w T hd :
  tbl w T → w_list w = Some hd →
  ∃ ls T0 k jk, T.*1 = hd :: ls ∧ chain (w_heap w) (Some hd) (hd :: ls) ∧
    last (hd :: ls) = Some k ∧ T = T0 ++ [(k, erase jk)] ∧
    w_heap w !! k = Some jk ∧ next_jid T = (jid jk + 1)%Z.
Proof.
  intros [[Hc _ _] Hv] Hhd.
  destruct T as [|[l j] T]; simpl in Hc; [congruence|].
  destruct Hc as (Hl & Hc). rewrite Hhd in Hl. simplify_eq.
  destruct (last ((l, j) :: T)) as [[k jk]|] eqn:Hlast; [|by apply last_None in Hlast].
  unfold next_jid. rewrite Hlast. apply last_Some in Hlast as [T0 HT0].
  rewrite HT0, Forall_app, Forall_singleton in Hv. destruct Hv as [_ Hk]. simpl in Hk.
  destruct (w_heap w !! k) as [jk'|] eqn:Hjk; simplify_eq/=.
  exists T.*1, T0, k, jk'. split_and!; try done.
  change (l :: T.*1) with (((l, j) :: T).*1). rewrite HT0, fmap_app. apply last_snoc.
Qed.

Lemma wp_jobs_add t (Q : option loc → W → Prop) w T proto :
  tbl w T →
  (∀ l, is_Some (rebase_pointers Frame (Heap l) (erase proto))) →
  (e_malloc (w_log w) = true → (next_jid T ≤ INT_MAX)%Z) →
  (YASH_MAX_JOBS ≤ length T → Q None w) →
  (length T < YASH_MAX_JOBS → e_malloc (w_log w) = false →
     Q None (with_log (EvMalloc false :: w_log w) w)) →
  (∀ l j h' p', length T < YASH_MAX_JOBS → e_malloc (w_log w) = true → l ∉ T.*1 →
     rebase_pointers Frame (Heap l) (erase proto) = Some j →
     tbl (with_list p' (with_heap h' (after_malloc w)))
         (T ++ [(l, set_jid (next_jid T) j)]) →
     Q (Some l) (with_list p' (with_heap h' (after_malloc w)))) →
  wp t (jobs_add proto) Q w.
Proof.
  intros Ht Hreb Hmax Hfull Hfail Hok. unfold jobs_add. wp_steps.
  eapply wp_jobs_count; [done|]. case_bool_decide as Hn; [wp_steps; auto|].
  apply not_le in Hn. unfold malloc_copy, emit. wp_steps.
  2:{ auto. }
  specialize (Hmax eq_refl). pose proof (eq_refl true) as Hgr.
  set (l := fresh (dom (w_heap w))).
  assert (Hl : l ∉ dom (w_heap w)) by apply is_fresh.
  destruct (Hreb l) as [j Hj]. pose proof (rebase_erase _ _ _ _ Hj) as He.
  eapply wp_update; [apply lookup_insert_eq|]. wp_steps.
  eapply wp_deref; [apply lookup_insert_eq|]. wp_steps.
  eapply wp_assume_some; [exact Hj|]. wp_steps.
  eapply wp_update; [apply lookup_insert_eq|]. wp_steps. rewrite !insert_insert_eq.
  assert (HlT : l ∉ T.*1).
  { destruct Ht as [[_ _ Hd] _]. by rewrite Hd, elem_of_list_to_set in Hl. }
  destruct (w_list w) as [hd|] eqn:Hhd; wp_steps.
  - destruct (tbl_last _ _ _ Ht Hhd) as (ls & T0 & k & jk & Hk1 & Hc & Hlast & HT & Hk & Hjid).
    assert (Hkl : k ≠ l) by (intros ->; apply Hl, elem_of_dom; by eexists).
    eapply (wp_find_tail _ _ _ _ ls k); [|..|done|].
    { apply chain_insert_notin; [by rewrite <- Hk1|done]. }
    { simpl. rewrite map_size_insert_None by by apply not_elem_of_dom.
      rewrite (repr_size _ _ (t_repr _ _ Ht)), Hk1. simpl. lia. }
    wp_steps. eapply wp_deref; [simpl; by rewrite lookup_insert_ne|]. wp_steps.
    apply wp_check; [apply bool_decide_true; lia|]. wp_steps.
    eapply wp_update; [apply lookup_insert_eq|]. wsimpl. rewrite insert_insert_eq.
    eapply wp_update; [simpl; by rewrite lookup_insert_ne|]. wp_steps.
    pose proof (Hok l j
      (<[k := set_next (Some l) jk]> (<[l := set_jid (jid jk + 1) j]> (w_heap w)))
      (w_list w) Hn Hgr HlT Hj) as HQ. apply HQ. rewrite Hjid, HT.
    eapply tbl_ext; [| |apply (tbl_add_last w T0 k jk l (set_jid (jid jk + 1) j))];
      try done; [by rewrite <- HT|by rewrite He].
  - eapply wp_update; [apply lookup_insert_eq|]. wp_steps. rewrite insert_insert_eq.
    assert (T = []) as ->.
    { destruct T as [|[??] ?]; [done|]. by destruct Ht as [[[??] _ _] _]; simplify_eq/=. }
    pose proof (Hok l j (<[l := set_jid 1 j]> (w_heap w)) (Some l) Hn Hgr HlT Hj) as HQ.
    apply HQ. eapply tbl_ext; [| |apply (tbl_add_first w l (set_jid 1 j))]; try done.
    by rewrite He.
Qed.

(** *** Unlinking *)

Lemma wp_read_link t (Q : option loc → W → Prop) w ls1 ls2 :
  chain (w_heap w) (w_list w) (ls1 ++ ls2) → Q (head ls2) w →
  wp t (read_link (last ls1)) Q w.
Proof.
  intros Hc HQ. destruct (chain_app _ _ _ _ Hc) as (q & Hq & [[-> ->]|(k & j & -> & Hj & <-)]).
  - simpl. wp_steps. by rewrite (chain_head _ _ _ Hq).
  - simpl. wp_steps. eapply wp_deref; [done|]. wp_steps.
    by rewrite (chain_head _ _ _ Hq).
Qed.

(** The heap and the head of the list once [l] has been bypassed. *)
Definition bypass w (T1 : table E) (jl : job_t E) : W :=
  match last T1 with
  | None => with_list (next jl) w
  | Some (k, _) => with_heap (alter (set_next (next jl)) k (w_heap w)) w
  end.

Lemma insert_as_alter (h : gmap loc (job_t E)) f k j :
  h !! k = Some j → <[k := f j]> h = alter f k h.
Proof.
  intros Hk. apply map_eq. intros x. destruct (decide (k = x)) as [->|].
  - by rewrite lookup_insert_eq, lookup_alter_eq, Hk.
  - by rewrite lookup_insert_ne, lookup_alter_ne.
Qed.

Lemma erase_alter_next (h : gmap loc (job_t E)) n k x :
  erase <$> alter (set_next n) k h !! x = erase <$> h !! x.
Proof.
  destruct (decide (k = x)) as [->|]; [|by rewrite lookup_alter_ne].
  rewrite lookup_alter_eq. by destruct (h !! x).
Qed.

Lemma wp_write_link t (Q : unit → W → Prop) w T1 T jl :
  tbl w (T1 ++ T) → Q tt (bypass w T1 jl) →
  wp t (write_link (last T1.*1) (next jl)) Q w.
Proof.
  intros Ht HQ. unfold bypass in HQ. rewrite fmap_last.
  destruct (last T1) as [[k j]|] eqn:Hlast; simpl; [|by wp_steps].
  apply last_Some in Hlast as [T1' ->].
  destruct (tbl_lookup _ _ k j Ht) as [n Hn].
  { rewrite <- (assoc_L (++)). apply elem_of_middle. }
  eapply wp_update; [done|]. by rewrite insert_as_alter.
Qed.

(** What the table looks like after the node has been freed, given the chain
    without it. *)
Lemma tbl_without w h p T1 l j T2 :
  tbl w (T1 ++ (l, j) :: T2) →
  (∀ x, erase <$> h !! x = erase <$> w_heap w !! x) →
  chain h p (T1 ++ T2).*1 →
  tbl (with_heap (delete l h) (with_list p w)) (T1 ++ T2).
Proof.
  intros [[_ Hnd Hd] Hv] Hh Hc.
  rewrite fmap_app in Hnd, Hd. simpl in Hnd, Hd.
  apply NoDup_app in Hnd as (Hn1 & Hn12 & [Hl2 Hn2]%NoDup_cons).
  assert (Hl : l ∉ (T1 ++ T2).*1).
  { rewrite fmap_app, not_elem_of_app. split; [|done]. intros ?. by eapply Hn12; [|left]. }
  assert (Hdom : dom h = dom (w_heap w)).
  { apply set_eq. intros x. rewrite !elem_of_dom. specialize (Hh x).
    destruct (h !! x), (w_heap w !! x); naive_solver. }
  split; [split|]; simpl.
  - by apply chain_delete_notin.
  - rewrite fmap_app. apply NoDup_app. split_and!; try done.
    intros x ??. eapply Hn12; [done|]. by right.
  - rewrite dom_delete_L, Hdom, Hd, list_to_set_app_L, list_to_set_cons.
    rewrite fmap_app, not_elem_of_app in Hl. rewrite fmap_app, list_to_set_app_L. set_solver.
  - rewrite Forall_forall in Hv |- *. intros [x jx] Hx. simpl.
    rewrite lookup_delete_ne.
    + rewrite Hh. apply (Hv (x, jx)). set_solver.
    + intros <-. apply Hl, list_elem_of_fmap. by exists (l, jx).
Qed.

Lemma tbl_bypass w T1 l j T2 jl :
  tbl w (T1 ++ (l, j) :: T2) → w_heap w !! l = Some jl →
  w_heap (bypass w T1 jl) !! l = Some jl ∧
  tbl (with_heap (delete l (w_heap (bypass w T1 jl))) (bypass w T1 jl)) (T1 ++ T2).
Proof.
  intros Ht Hl. pose proof Ht as [[Hc Hnd _] _]. rewrite fmap_app in Hc, Hnd.
  unfold bypass. destruct (last T1) as [[k jk]|] eqn:Hlast.
  - apply last_Some in Hlast as [T1' ->].
    assert (Hkl : k ≠ l).
    { intros ->. apply NoDup_app in Hnd as (_ & Hn & _).
      apply (Hn l); [rewrite fmap_app; set_solver|by left]. }
    split; [simpl; by rewrite lookup_alter_ne|].
    destruct (tbl_lookup _ _ k jk Ht) as [n Hk].
    { rewrite <- (assoc_L (++)). apply elem_of_middle. }
    rewrite fmap_app in Hc, Hnd. simpl in Hc, Hnd.
    rewrite <- (assoc_L (++)) in Hc, Hnd. simpl in Hc, Hnd.
    eapply tbl_ext; [| |apply (tbl_without w (alter (set_next (next jl)) k (w_heap w)) (w_list w) _ _ _ _ Ht)]; [done|done|..].
    + intros x. apply erase_alter_next.
    + rewrite <- (insert_as_alter _ _ _ _ Hk), !fmap_app, <- (assoc_L (++)).
      by eapply chain_unlink.
  - apply last_None in Hlast as ->. simpl in *. split; [done|].
    destruct Hc as (Hlist & j' & Hj' & Hc). simplify_eq.
    eapply tbl_ext; [| |apply (tbl_without w (w_heap w) (next jl) [] _ _ _ Ht)]; done.
Qed.

(** [jobs_remove] of a job that is in the table removes exactly it; [hook]
    runs when the job is already unlinked and not yet freed. *)
Lemma wp_jobs_unlink t hook (Q : unit → W → Prop) w T1 l j T2 :
  tbl w (T1 ++ (l, j) :: T2) →
  (∀ w1 n, w1 = bypass w T1 (set_next n j) → w_heap w1 !! l = Some (set_next n j) →
     tbl (with_heap (delete l (w_heap w1)) w1) (T1 ++ T2) →
     wp t (hook l) (λ _ w2, is_Some (w_heap w2 !! l) ∧
                            Q tt (with_heap (delete l (w_heap w2)) w2)) w1) →
  wp t (jobs_unlink hook l) Q w.
Proof.
  intros Ht Hhook. unfold jobs_unlink, walk_fuel. wp_steps.
  match goal with |- wp _ (loop _ ?body _) _ _ => set (bd := body) end.
  cut (∀ n Ta Tb, T1 = Ta ++ Tb → length Tb < n →
         wp t (loop n bd (last Ta.*1)) Q w).
  { intros Hg. apply (Hg _ [] T1 eq_refl). rewrite (repr_size _ _ (t_repr _ _ Ht)).
    rewrite length_fmap, length_app. simpl. lia. }
  intros n. induction n as [|n IH]; intros Ta Tb HT Hn; [lia|].
  rewrite loop_S. apply wp_bind. unfold bd at 1. wp_steps.
  pose proof Ht as [[Hc Hnd _] _]. rewrite HT, <- (assoc_L (++)), fmap_app in Hc.
  eapply wp_read_link; [exact Hc|].
  destruct Tb as [|[x jx] Tb]; simpl.
  - rewrite app_nil_r in HT. subst Ta. rewrite bool_decide_true by done. wp_steps.
    destruct (tbl_lookup _ _ l j Ht) as [m Hm]; [apply elem_of_middle|].
    eapply wp_deref; [done|]. wp_steps.
    eapply (wp_write_link _ _ _ _ _ (set_next m j)); [done|]. wp_steps.
    destruct (tbl_bypass _ _ _ _ _ _ Ht Hm) as [Hl' Ht'].
    eapply wp_mono; [by eapply Hhook|]. intros [] w2 [Hs HQ]. wp_steps.
    eapply wp_free; [done|]. by wp_steps.
  - rewrite bool_decide_false.
    2:{ intros ->. rewrite HT, fmap_app in Hnd. apply NoDup_app in Hnd as (_ & Hn' & _).
        apply (Hn' l); [|by left]. rewrite fmap_app. set_solver. }
    wp_steps. specialize (IH (Ta ++ [(x, jx)]) Tb).
    rewrite fmap_app in IH. simpl in IH. rewrite last_snoc in IH. apply IH; [by rewrite <- (assoc_L (++))|simpl in *; lia].
Qed.

(** A location that is not in the table: the loop runs off the end. *)
Lemma wp_jobs_unlink_absent t hook (Q : unit → W → Prop) w T l :
  tbl w T → l ∉ T.*1 → Q tt w → wp t (jobs_unlink hook l) Q w.
Proof.
  intros Ht Hl HQ. unfold jobs_unlink, walk_fuel. wp_steps.
  match goal with |- wp _ (loop _ ?body _) _ _ => set (bd := body) end.
  cut (∀ n Ta Tb, T = Ta ++ Tb → length Tb < n →
         wp t (loop n bd (last Ta.*1)) Q w).
  { intros Hg. apply (Hg _ [] T eq_refl). rewrite (repr_size _ _ (t_repr _ _ Ht)).
    rewrite length_fmap. lia. }
  intros n. induction n as [|n IH]; intros Ta Tb HT Hn; [lia|].
  rewrite loop_S. apply wp_bind. unfold bd at 1. wp_steps.
  pose proof Ht as [[Hc _ _] _]. rewrite HT, fmap_app in Hc.
  eapply wp_read_link; [exact Hc|].
  destruct Tb as [|[x jx] Tb]; simpl; [by wp_steps|].
  rewrite bool_decide_false by (intros ->; apply Hl; rewrite HT, fmap_app; set_solver).
  wp_steps. specialize (IH (Ta ++ [(x, jx)]) Tb).
  rewrite fmap_app in IH. simpl in IH. rewrite last_snoc in IH. apply IH; [by rewrite <- (assoc_L (++))|simpl in *; lia].
Qed.

End tbl.

(** ** Copied jobs

    The copy stored in the table owns its pointers: they are rebased into its
    own buffer and read the same strings as in the job they were copied from. *)

Section rebase.
Context {E : Type}.
Implicit Types (j : job_t E) (c : cmd_t).

Lemma rebase_args src dst l :
  Forall (λ o, o ≠ None ∧ ptr_ok src o) l →
  ∃ l', mapM (rebase_ptr src dst) l = Some l' ∧
    Forall (λ o, o ≠ None ∧ ptr_ok dst o) (Some <$> l') ∧
    (∀ arr, read_ptr arr <$> (Some <$> l') = read_ptr arr <$> l).
Proof.
  induction 1 as [|o l [Hne Hok] _ (l' & Hm & Hok' & Hr)]; [by exists []|].
  destruct o as [[bs off]|]; [|done]. destruct Hok as [Hb Hoff]. simpl in *. subst.
  exists (Ptr dst off :: l'). rewrite bool_decide_true by done. simpl. rewrite Hm.
  split; [done|]. split; [by constructor|]. intros arr. simpl. by rewrite Hr.
Qed.

Lemma rebase_opt_ok src dst o :
  ptr_ok src o →
  ∃ o', rebase_opt src dst o = Some o' ∧ ptr_ok dst o' ∧
    (∀ arr, read_ptr arr o' = read_ptr arr o).
Proof.
  destruct o as [[bs off]|]; [|by exists None]. intros [Hb Hoff]. simpl in *. subst.
  exists (Some (Ptr dst off)). by rewrite bool_decide_true.
Qed.

Lemma rebase_cmd_wf src dst c :
  cmd_wf src c →
  ∃ c', rebase_cmd src dst c = Some c' ∧ cmd_wf dst c' ∧ argc c' = argc c ∧
    pid c' = pid c ∧ (∀ arr, abs_cmd arr c' = abs_cmd arr c).
Proof.
  intros [Hlen Hargc Hargs _ Hi Ho He].
  destruct (rebase_args src dst _ Hargs) as (l & Hl & Hlok & Hlr).
  destruct (rebase_opt_ok src dst _ Hi) as (i & Hi1 & Hi2 & Hi3).
  destruct (rebase_opt_ok src dst _ Ho) as (o & Ho1 & Ho2 & Ho3).
  destruct (rebase_opt_ok src dst _ He) as (e & He1 & He2 & He3).
  assert (Hll : length (Some <$> l) = argc c).
  { rewrite length_fmap. apply length_mapM in Hl. rewrite <- Hl, length_take. lia. }
  eexists. unfold rebase_cmd. rewrite Hl, Hi1, Ho1, He1. cbn. split; [done|].
  split_and!; try done.
  - split; cbn [argv argc infile outfile errfile]; try done.
    + rewrite length_app. cbn [length]. rewrite length_drop. lia.
    + by rewrite take_app_length'.
    + by apply list_lookup_middle.
  - intros arr. unfold abs_cmd. cbn [argv argc infile outfile errfile].
    rewrite take_app_length' by done. by rewrite Hlr, Hi3, Ho3, He3.
Qed.

Lemma rebase_cmds_wf src dst cs :
  Forall (cmd_wf src) cs →
  ∃ cs', mapM (rebase_cmd src dst) cs = Some cs' ∧ Forall (cmd_wf dst) cs' ∧
    argc <$> cs' = argc <$> cs ∧ pid <$> cs' = pid <$> cs ∧
    (∀ arr, abs_cmd arr <$> cs' = abs_cmd arr <$> cs).
Proof.
  induction 1 as [|c cs Hc _ (cs' & Hm & Hwf & Ha & Hp & Hr)]; [by exists []|].
  destruct (rebase_cmd_wf src dst c Hc) as (c' & Hc' & Hwf' & Ha' & Hp' & Hr').
  exists (c' :: cs'). rewrite !fmap_cons, Ha', Ha, Hp', Hp.
  split_and!; [|by constructor|done|done|].
  - simpl. rewrite Hc'. simpl. by rewrite Hm.
  - intros arr. by rewrite !fmap_cons, Hr, Hr'.
Qed.

(** Everything but the pointers is kept. *)
Definition same_job j j' : Prop :=
  (jid j', pgid j', state j', background j', ncmds j', nlive j')
  = (jid j, pgid j, state j, background j, ncmds j, nlive j) ∧
  infd j' = infd j ∧ cmdline j' = cmdline j ∧ buf j' = buf j ∧ next j' = next j ∧
  pid <$> take (ncmds j') (cmds j') = pid <$> take (ncmds j) (cmds j).

Lemma rebase_pointers_wf src dst j :
  job_wf src j →
  ∃ j', rebase_pointers src dst j = Some j' ∧ job_wf dst j' ∧ same_job j j' ∧
    abs_job j' = abs_job j.
Proof.
  intros [Hb Hbn Hc Hcn Hn Hlen Hcs Hne].
  destruct (rebase_cmds_wf src dst _ Hcs) as (cs' & Hm & Hwf & Ha & Hp & Hr).
  assert (Hl : length cs' = ncmds j).
  { apply length_mapM in Hm. rewrite <- Hm, length_take. lia. }
  eexists. unfold rebase_pointers. rewrite Hm. cbn. split; [done|].
  assert (Htake : take (ncmds j) (cs' ++ drop (ncmds j) (cmds j)) = cs')
    by by rewrite take_app_length'.
  split_and!.
  - split; cbn [buf cmdline ncmds cmds background set_cmds]; rewrite ?Htake; try done.
    + rewrite length_app, length_drop. lia.
    + assert (Hx : Forall (λ n, 0 < n) (argc <$> cs')) by (rewrite Ha, Forall_fmap; done).
      by rewrite Forall_fmap in Hx.
  - unfold same_job. cbn [jid pgid state background ncmds nlive infd cmdline buf next cmds set_cmds].
    by rewrite Htake.
  - unfold abs_job. cbn [buf ncmds cmds background set_cmds]. by rewrite Htake, Hr.
Qed.

End rebase.

(** ** The invariant of the table *)

Record tbl_ok {E} (T : table E) : Prop := {
  ok_bound : length T ≤ YASH_MAX_JOBS;
  ok_sorted : StronglySorted Z.lt (jid ∘ snd <$> T);
  ok_jids : Forall (λ lj, (1 ≤ jid lj.2 ≤ INT_MAX)%Z) T;
  ok_jobs : Forall (λ lj, job_wf (Heap lj.1) lj.2) T
}.

(** Every job number was paid for by an allocation, so the numbers of a run in
    which few allocations are granted fit an [int]. *)
Definition few_jids {E} (h : history) (T : table E) : Prop :=
  Forall (λ lj, (jid lj.2 ≤ mallocs h)%Z) T.

Section tbl_ok.
Context {E : Type}.
Implicit Types (j : job_t E) (T : table E).

Lemma tbl_ok_nil : tbl_ok (@nil (loc * job_t E)).
Proof. split; try constructor. simpl. lia. Qed.

Lemma sorted_app_lt (l : list Z) x y :
  StronglySorted Z.lt (l ++ [x]) → (x < y)%Z → StronglySorted Z.lt ((l ++ [x]) ++ [y]).
Proof.
  intros Hs Hxy. induction l as [|z l IH]; simpl in *.
  - repeat constructor. done.
  - apply StronglySorted_inv in Hs as [Hs Hz]. constructor; [auto|].
    apply Forall_app. split; [done|]. constructor; [|done].
    apply Forall_app in Hz as [_ Hz]. apply Forall_cons in Hz as [Hz _]. simpl in *. lia.
Qed.

(** Adding a job with the next number keeps the invariant. *)
Lemma tbl_ok_add T l j :
  tbl_ok T → length T < YASH_MAX_JOBS → job_wf (Heap l) j → jid j = next_jid T →
  (next_jid T ≤ INT_MAX)%Z → tbl_ok (T ++ [(l, j)]).
Proof.
  intros [Hb Hs Hj Hw] Hlt Hwf Hjid Hmax. unfold next_jid in Hjid, Hmax.
  assert (Hge : (1 ≤ jid j)%Z).
  { destruct (last T) as [[k jk]|] eqn:Hl; [|lia]. apply last_Some in Hl as [T' ->].
    apply Forall_app in Hj as [_ Hj]. apply Forall_cons in Hj as [Hj _]. simpl in *. lia. }
  split.
  - rewrite length_app. simpl. lia.
  - rewrite fmap_app. simpl. destruct (last T) as [[k jk]|] eqn:Hl.
    + apply last_Some in Hl as [T' ->]. rewrite fmap_app in *. simpl in *.
      apply sorted_app_lt; [done|lia].
    + apply last_None in Hl as ->. repeat constructor.
  - apply Forall_app. split; [done|]. rewrite Forall_singleton. cbn [snd]. lia.
  - apply Forall_app. auto.
Qed.

Lemma sorted_remove (l1 : list Z) x l2 :
  StronglySorted Z.lt (l1 ++ x :: l2) → StronglySorted Z.lt (l1 ++ l2).
Proof.
  induction l1 as [|z l1 IH]; simpl; intros Hs; apply StronglySorted_inv in Hs as [Hs Hz];
    [done|]. constructor; [auto|].
  apply Forall_app in Hz as [? [??]%Forall_cons]. by apply Forall_app.
Qed.

Lemma tbl_ok_remove T1 l j T2 : tbl_ok (T1 ++ (l, j) :: T2) → tbl_ok (T1 ++ T2).
Proof.
  intros [Hb Hs Hj Hw]. split.
  - rewrite length_app in *. simpl in *. lia.
  - rewrite fmap_app in *. simpl in *. by eapply sorted_remove.
  - apply Forall_app in Hj as [? [??]%Forall_cons]. by apply Forall_app.
  - apply Forall_app in Hw as [? [??]%Forall_cons]. by apply Forall_app.
Qed.

(** Updates that keep the number and the well-formedness of the jobs. *)
Lemma tbl_ok_upd T l f :
  tbl_ok T → (∀ j, jid (f j) = jid j) → (∀ l j, job_wf (Heap l) j → job_wf (Heap l) (f j)) →
  tbl_ok (upd_tbl l f T).
Proof.
  intros [Hb Hs Hj Hw] Hjid Hwf. unfold upd_tbl. split.
  - by rewrite length_fmap.
  - rewrite <- list_fmap_compose.
    erewrite list_fmap_ext; [exact Hs|]. intros i [k j] _. simpl. case_bool_decide; simpl; auto.
  - rewrite Forall_fmap. eapply Forall_impl; [exact Hj|]. intros [k j]; simpl.
    case_bool_decide; simpl; rewrite ?Hjid; auto.
  - rewrite Forall_fmap. eapply Forall_impl; [exact Hw|]. intros [k j]; simpl.
    case_bool_decide; subst; simpl; auto.
Qed.

Lemma few_jids_cons e h T : few_jids h T → few_jids (e :: h) T.
Proof.
  intros Hf. eapply Forall_impl; [exact Hf|]. intros [l j]; cbn [snd]. pose proof (mallocs_mono e h). lia.
Qed.

Lemma few_jids_app h1 h2 T : few_jids h2 T → few_jids (h1 ++ h2) T.
Proof. intros Hf. induction h1; [done|by apply few_jids_cons]. Qed.

Lemma few_jids_remove h T1 l j T2 : few_jids h (T1 ++ (l, j) :: T2) → few_jids h (T1 ++ T2).
Proof. intros [? [??]%Forall_cons]%Forall_app. by apply Forall_app. Qed.

Lemma few_jids_upd h l f T :
  few_jids h T → (∀ j, jid (f j) = jid j) → few_jids h (upd_tbl l f T).
Proof.
  intros Hf Hjid. unfold few_jids, upd_tbl. rewrite Forall_fmap. eapply Forall_impl; [exact Hf|].
  intros [k j]; cbn. case_bool_decide; cbn; rewrite ?Hjid; auto.
Qed.

(** The next number is at most the number of allocations, its own included. *)
Lemma few_jids_next h T : few_jids h T → (next_jid T ≤ mallocs h + 1)%Z.
Proof.
  intros Hf. unfold next_jid. destruct (last T) as [[k jk]|] eqn:Hl.
  - apply last_Some in Hl as [T' ->]. apply Forall_app in Hf as [_ Hf].
    rewrite Forall_singleton in Hf. cbn [snd] in Hf. lia.
  - pose proof (mallocs_nonneg h). lia.
Qed.

Lemma few_jids_fits `{FewAllocs} h T :
  few_jids h T → e_malloc h = true → (next_jid T ≤ INT_MAX)%Z.
Proof. intros Hf%few_jids_next Hm%few_allocs. lia. Qed.

Lemma few_jids_add h T l j :
  few_jids h T → jid j = next_jid T → few_jids (EvMalloc true :: h) (T ++ [(l, j)]).
Proof.
  intros Hf Hj. apply Forall_app. split; [by apply few_jids_cons|].
  rewrite Forall_singleton. cbn. rewrite Hj. by apply few_jids_next.
Qed.

(** The member updates of the shells keep well-formedness. *)
Lemma wf_set_state self x j : job_wf self j → job_wf self (set_state x j).
Proof. by intros []. Qed.
Lemma wf_set_nlive self x j : job_wf self j → job_wf self (set_nlive x j).
Proof. by intros []. Qed.
Lemma wf_set_infd self x j : job_wf self j → job_wf self (set_infd x j).
Proof. by intros []. Qed.
Lemma wf_set_jid self x j : job_wf self j → job_wf self (set_jid x j).
Proof. by intros []. Qed.
Lemma wf_set_pgid self x j : job_wf self j → job_wf self (set_pgid x j).
Proof. by intros []. Qed.
Lemma wf_set_next self x j : job_wf self j → job_wf self (set_next x j).
Proof. by intros []. Qed.
Lemma wf_set_background self x j : job_wf self j → job_wf self (set_background x j).
Proof. by intros []. Qed.

End tbl_ok.

#[export] Hint Resolve wf_set_state wf_set_nlive wf_set_infd wf_set_jid wf_set_pgid
  wf_set_next wf_set_background : sysprog.

(** ** Adding a job *)

(** What the table holds for a job [proto] added at location [l]: a copy with
    the next number whose pointers are rebased into its own buffer. *)
Record added {E} (proto : job_t E) (T : table E) (l : loc) (j : job_t E) : Prop := {
  ad_fresh : l ∉ T.*1;
  ad_wf : job_wf (Heap l) j;
  ad_jid : jid j = next_jid T;
  ad_same : same_job (set_jid (next_jid T) (erase proto)) j;
  ad_abs : abs_job j = abs_job proto
}.

Section add.
Context {E X : Type} `{Env}.
Implicit Types (w : world E X) (j proto : job_t E) (T : table E).

Lemma wp_jobs_add_wf t (Q : option loc → world E X → Prop) w T proto :
  tbl w T → tbl_ok T → job_wf Frame proto →
  (e_malloc (w_log w) = true → (next_jid T ≤ INT_MAX)%Z) →
  (YASH_MAX_JOBS ≤ length T → Q None w) →
  (length T < YASH_MAX_JOBS → e_malloc (w_log w) = false →
     Q None (with_log (EvMalloc false :: w_log w) w)) →
  (∀ l j h' p', length T < YASH_MAX_JOBS → e_malloc (w_log w) = true → added proto T l j →
     tbl (with_list p' (with_heap h' (after_malloc w))) (T ++ [(l, j)]) →
     tbl_ok (T ++ [(l, j)]) →
     Q (Some l) (with_list p' (with_heap h' (after_malloc w)))) →
  wp t (jobs_add proto) Q w.
Proof.
  intros Ht Hok Hwf Hmax Hfull Hfail HQ.
  assert (Hwf0 : job_wf Frame (erase proto)) by by apply wf_set_next.
  eapply wp_jobs_add; [done| |done|done|done|].
  { intros l. destruct (rebase_pointers_wf Frame (Heap l) _ Hwf0) as (j & Hj & _). by exists j. }
  intros l j h' p' Hlt Hgr Hl Hj Ht'.
  destruct (rebase_pointers_wf Frame (Heap l) _ Hwf0) as (j' & Hj' & Hwf' & Hsame & Habs).
  rewrite Hj in Hj'. injection Hj' as <-.
  assert (Ha : added proto T l (set_jid (next_jid T) j)).
  { split; [done|by apply wf_set_jid|done| |exact Habs].
    destruct Hsame as (Hm & ? & ? & ? & ? & ?). split; [|done].
    cbn in *. injection Hm as _ -> -> -> -> ->. done. }
  apply (HQ _ _ _ _ Hlt Hgr Ha Ht'). apply tbl_ok_add; [done|done|apply Ha|done|auto].
Qed.

(** When the last job has the number [INT_MAX], the addition in [int] that
    computes the next number is undefined. *)
Lemma jobs_add_overflows w T proto :
  tbl w T → job_wf Frame proto → length T < YASH_MAX_JOBS → e_malloc (w_log w) = true →
  (INT_MAX < next_jid T)%Z → jobs_add proto w = Undef.
Proof.
  intros Ht Hwf Hn Hm Hmax. unfold jobs_add.
  apply undef_bind. eapply wp_jobs_count; [done|]. rewrite bool_decide_false by lia.
  apply undef_bind. unfold malloc_copy, emit. wp_steps; [|congruence].
  set (l := fresh (dom (w_heap w))).
  assert (Hl : l ∉ dom (w_heap w)) by apply is_fresh.
  assert (Hwf0 : job_wf Frame (erase proto)) by by apply wf_set_next.
  destruct (rebase_pointers_wf Frame (Heap l) _ Hwf0) as (j & Hj & _).
  apply undef_bind. eapply wp_update; [apply lookup_insert_eq|].
  apply undef_bind. eapply wp_deref; [apply lookup_insert_eq|].
  apply undef_bind. eapply wp_assume_some; [exact Hj|].
  apply undef_bind. eapply wp_update; [apply lookup_insert_eq|]. wsimpl.
  rewrite !insert_insert_eq. apply undef_bind, wp_gets. cbn beta. wsimpl.
  destruct (w_list w) as [hd|] eqn:Hhd.
  2:{ assert (T = []) as ->; [|by unfold next_jid, INT_MAX in Hmax; cbn in Hmax].
      destruct T as [|[??] ?]; [done|]. by destruct Ht as [[[??] _ _] _]; simplify_eq/=. }
  destruct (tbl_last _ _ _ Ht Hhd) as (ls & T0 & k & jk & Hk1 & Hc & Hlast & HT & Hk & Hjid).
  assert (HlT : l ∉ T.*1).
  { destruct Ht as [[_ _ Hd] _]. by rewrite Hd, elem_of_list_to_set in Hl. }
  apply undef_bind_l, undef_bind. eapply (wp_find_tail _ _ _ _ ls k); [|..|done|].
  { apply chain_insert_notin; [by rewrite <- Hk1|done]. }
  { simpl. rewrite map_size_insert_None by by apply not_elem_of_dom.
    rewrite (repr_size _ _ (t_repr _ _ Ht)), Hk1. simpl. lia. }
  assert (k ≠ l) by (intros ->; apply Hl, elem_of_dom; by eexists).
  apply undef_bind. eapply wp_deref; [simpl; by rewrite lookup_insert_ne|].
  apply undef_bind_l. rewrite bool_decide_false by lia. done.
Qed.

(** C12 (refinement): [jobs_add] implements appending to a bounded list of jobs.
    It fails, without touching the table, exactly when 20 jobs are there or the
    allocation fails; otherwise the new entry is the last one, at a fresh
    location, with the number after the largest one in use (1 when the table is
    empty), and every string of the copy reads the same as in the prototype
    although all its pointers now point into the copy's own buffer.  The
    invariant of the table, which includes that the numbers are positive [int]s
    in increasing order, is kept.  The one exception is the overflow of the
    number: with room in the table, memory for the job and [INT_MAX] as the last
    number, the addition is undefined behaviour. *)
Theorem jobs_add_refines w T proto :
  tbl w T → tbl_ok T → job_wf Frame proto →
  if bool_decide (length T < YASH_MAX_JOBS ∧ e_malloc (w_log w) = true ∧ (INT_MAX < next_jid T)%Z)
  then jobs_add proto w = Undef
  else ∃ r w', jobs_add proto w = Done (r, w') ∧
    match r with
    | None => (YASH_MAX_JOBS ≤ length T ∨ e_malloc (w_log w) = false) ∧ tbl w' T
    | Some l => length T < YASH_MAX_JOBS ∧ e_malloc (w_log w) = true ∧
        ∃ j, added proto T l j ∧ tbl w' (T ++ [(l, j)]) ∧ tbl_ok (T ++ [(l, j)])
    end.
Proof.
  intros Ht Hok Hwf. case_bool_decide as Hover.
  { destruct Hover as (? & ? & ?). by eapply jobs_add_overflows. }
  apply wp_total_run. destruct (decide (YASH_MAX_JOBS ≤ length T)) as [Hfull|Hfree].
  { unfold jobs_add. apply wp_bind. eapply wp_jobs_count; [done|].
    rewrite bool_decide_true by done. apply wp_ret. split; [by left|done]. }
  eapply wp_jobs_add_wf; [done|done|done| | | |].
  - intros Hm. destruct (decide (next_jid T ≤ INT_MAX)%Z); [done|].
    destruct Hover. split_and!; [lia|done|lia].
  - intros. split; [by left|done].
  - intros. split; [by right|]. by eapply tbl_ext; [| |exact Ht].
  - intros l j h' p' Hlt Hm Ha Ht' Hok'. split; [done|]. split; [done|]. by exists j.
Qed.

End add.

(** A world with an empty table, and a parsed line, for the witnesses. *)
Definition empty_world {E X} (x : X) : world E X :=
  World ∅ None {[0%Z := OTty; 1%Z := OTty; 2%Z := OTty]} ∅ 0 [] x.

Lemma empty_world_tbl {E X} (x : X) : tbl (empty_world (E := E) x) [].
Proof. split; [split|]; cbn; try done. apply NoDup_nil_2. Qed.

(** A kernel in which everything succeeds and every child exits at once. *)
Definition calm_env : Env := {|
  e_waitpid _ _ _ := WaitErr ECHILD;
  e_getpid := 7;
  e_fork h := Some (Pos.of_succ_nat (100 + length h));
  e_pipe _ := true;
  e_malloc h := bool_decide (mallocs h < INT_MAX)%Z;
  e_fgets _ _ := Eof;
  e_write _ _ l := RwOk (length l);
  e_read _ _ _ := ReadBytes [];
  e_select _ _ := true;
  e_now _ := None;
  e_open _ _ _ := true;
  e_exec _ := true
|}.

Lemma calm_few : FewAllocs (H := calm_env).
Proof. intros h Hh. by apply bool_decide_eq_true in Hh. Qed.

Definition sample_job {E} (e0 : E) : job_t E :=
  snd (parse_line e0 Frame (Some sample_line) (zero_job e0)).

Lemma sample_job_wf {E} (e0 : E) : job_wf Frame (sample_job e0).
Proof.
  apply (p_wf e0 _ sample_line). eapply (parse_line_parsed e0 Frame sample_line (zero_job e0)).
  vm_compute. reflexivity.
Qed.

Lemma jobs_add_refines_witness :
  ∃ l w', jobs_add (H := calm_env) (sample_job tt) (empty_world tt) = Done (Some l, w') ∧
    ∃ j, added (sample_job tt) [] l j ∧ jid j = 1%Z ∧ tbl w' [(l, j)].
Proof.
  pose proof (jobs_add_refines (H := calm_env) (empty_world tt) [] (sample_job tt)
    (empty_world_tbl tt) tbl_ok_nil (sample_job_wf tt)) as Hadd.
  rewrite bool_decide_false in Hadd by (intros (_ & _ & Hx); vm_compute in Hx; discriminate Hx).
  destruct Hadd as (r & w' & Hr & Hpost). destruct r as [l|].
  - destruct Hpost as (_ & _ & j & Ha & Ht & _). exists l, w'. split; [done|].
    exists j. split; [done|]. split; [apply Ha|done].
  - destruct Hpost as [[Hf|Hf] _]; [vm_compute in Hf; lia|vm_compute in Hf; discriminate Hf].
Defined.
