(* ===== verification/Tables.v ===== *)
(** * Tables and the operations both shells share

    Facts about abstract job tables, the tests and marks of [jobs.c], and the
    interface [JobInv] between the job table and the invariants of the two
    programs: an invariant that implies a well-formed table and survives
    harmless member updates gets the rules for the shared operations. *)

From S2P Require Import Prelude CString YashTypes Parse Posix JobTable.
From stdpp Require Import base tactics list gmap strings.
From Stdlib Require Import Ascii ZArith Lia Sorted.

(** ** Table lemmas *)

Section tables.
Context {E : Type}.
Implicit Types (T : table E) (j : job_t E).

Lemma upd_tbl_compose l (f g : job_t E → job_t E) T :
  upd_tbl l g (upd_tbl l f T) = upd_tbl l (λ j, g (f j)) T.
Proof.
  unfold upd_tbl. rewrite <- list_fmap_compose. apply list_fmap_ext.
  intros i [k j] _. cbn [fst snd compose]. destruct (bool_decide (k = l)) eqn:Hk;
    cbn [fst snd]; [|by rewrite Hk].
  by rewrite bool_decide_true.
Qed.

Lemma upd_tbl_elem l f T k j :
  (k, j) ∈ upd_tbl l f T ↔ ∃ j0, (k, j0) ∈ T ∧ j = if bool_decide (k = l) then f j0 else j0.
Proof.
  unfold upd_tbl. rewrite list_elem_of_fmap. split.
  - intros ([k' j'] & Heq & Hin). simpl in Heq. case_bool_decide; simplify_eq.
    + exists j'. by rewrite bool_decide_true.
    + exists j'. by rewrite bool_decide_false.
  - intros (j0 & Hin & ->). exists (k, j0). split; [|done]. simpl.
    by case_bool_decide; subst.
Qed.

Lemma upd_tbl_elem_eq l f T j : (l, j) ∈ T → (l, f j) ∈ upd_tbl l f T.
Proof. intros Hin. apply upd_tbl_elem. exists j. by rewrite bool_decide_true. Qed.

Lemma upd_tbl_id l f T : (∀ j, (l, j) ∈ T → f j = j) → upd_tbl l f T = T.
Proof.
  intros Hf. unfold upd_tbl. rewrite <- (list_fmap_id T) at 2.
  apply list_fmap_ext. intros i [k j] Hi. simpl. case_bool_decide; [|done]. subst.
  rewrite Hf; [done|]. by eapply list_elem_of_lookup_2.
Qed.

Lemma upd_tbl_ext l f g T :
  (∀ j, (l, j) ∈ T → f j = g j) → upd_tbl l f T = upd_tbl l g T.
Proof.
  intros Hf. unfold upd_tbl. apply list_fmap_ext. intros i [k j] Hi. simpl.
  case_bool_decide; [|done]. subst. rewrite Hf; [done|].
  by eapply list_elem_of_lookup_2.
Qed.

Lemma upd_tbl_middle l f T1 j T2 :
  NoDup (T1 ++ (l, j) :: T2).*1 → upd_tbl l f (T1 ++ (l, j) :: T2) = T1 ++ (l, f j) :: T2.
Proof.
  intros Hnd. rewrite fmap_app in Hnd. apply NoDup_app in Hnd as (_ & H1 & H2).
  apply NoDup_cons in H2 as [H2 _]. unfold upd_tbl. rewrite fmap_app, fmap_cons.
  cbn [fst snd]. rewrite bool_decide_true by done. f_equal; [|f_equal].
  - rewrite <- (list_fmap_id T1) at 2. apply list_fmap_ext. intros i [k jk] Hk.
    cbn. rewrite bool_decide_false; [done|]. intros ->.
    apply (H1 l); [|by left]. apply list_elem_of_fmap. exists (l, jk).
    split; [done|]. by eapply list_elem_of_lookup_2.
  - rewrite <- (list_fmap_id T2) at 2. apply list_fmap_ext. intros i [k jk] Hk.
    cbn. rewrite bool_decide_false; [done|]. intros ->.
    apply H2. apply list_elem_of_fmap. exists (l, jk).
    split; [done|]. by eapply list_elem_of_lookup_2.
Qed.

End tables.

(** ** The current job and the printed lines *)

Section spec.
Context {E : Type}.
Implicit Types (j : job_t E) (T : table E).

Definition is_done (lj : loc * job_t E) : Prop := state lj.2 = JOB_DONE.

#[global] Instance is_done_dec lj : Decision (is_done lj).
Proof. unfold is_done. apply _. Defined.

Definition live j : bool := bool_decide (state j = JOB_RUNNING ∨ state j = JOB_STOPPED).

(** The current job: the most recently created live one. *)
Definition current T : option loc := fst <$> last_such live T.

(** The mark of a finished job, and the status word of a live one. *)
Definition done_mark T : ascii := match current T with None => "+"%char | Some _ => "-"%char end.

Definition status_word j : bytes :=
  if bool_decide (state j = JOB_STOPPED) then b "Stopped" else b "Running".

Definition to_fg j : job_t E := set_state JOB_RUNNING (set_background false j).

Definition to_bg j : job_t E := set_background true (set_state JOB_RUNNING j).

Definition stopped j : bool := bool_decide (state j = JOB_STOPPED).

Lemma first_pid_elem p T l j : first_pid p T = Some (l, j) → (l, j) ∈ T.
Proof.
  unfold first_pid. intros Hh. destruct (filter _ T) as [|x F] eqn:HF; [done|].
  simpl in Hh. simplify_eq.
  eapply (list_elem_of_filter (λ lj, has_pid p lj.2 = true)). rewrite HF. by left.
Qed.

Lemma last_such_elem test T l j :
  last_such test T = Some (l, j) → (l, j) ∈ T ∧ test j = true.
Proof.
  unfold last_such. intros Hl. apply last_Some_elem_of in Hl.
  apply list_elem_of_filter in Hl as [??]. done.
Qed.

(** Finished jobs do not count for the current one. *)
Lemma current_filter T1 T2 : current (filter (λ lj, ¬ is_done lj) T1 ++ T2) = current (T1 ++ T2).
Proof.
  unfold current, last_such. rewrite !filter_app. do 3 f_equal. apply list_filter_filter_l.
  intros [l j]. unfold live, is_done. simpl. rewrite bool_decide_eq_true. intros [-> | ->]; done.
Qed.

Lemma current_split T l :
  current T = Some l → ∃ T1 j T2, T = T1 ++ (l, j) :: T2 ∧ live j = true.
Proof.
  unfold current. intros Hc. destruct (last_such live T) as [[k j]|] eqn:Hl; simplify_eq/=.
  apply last_such_elem in Hl as [Hin Hlive].
  apply list_elem_of_split in Hin as (T1 & T2 & ->). by exists T1, j, T2.
Qed.

(** At most one entry of a table with distinct locations is the current one, and
    exactly one when a job is live. *)
Lemma current_unique (T : table E) :
  NoDup T.*1 →
  length (filter (λ lj, Some lj.1 = current T) T) = if current T then 1 else 0.
Proof.
  intros Hnd. destruct (current T) as [l|] eqn:Hc.
  - apply current_split in Hc as (T1 & j & T2 & -> & _).
    rewrite fmap_app in Hnd. apply NoDup_app in Hnd as (_ & H1 & [H2 _]%NoDup_cons).
    rewrite filter_app, filter_cons_True by done.
    assert (Hno : ∀ F : table E, l ∉ F.*1 → filter (λ lj, Some lj.1 = Some l) F = []).
    { intros F HF. induction F as [|[k jk] F IH]; [done|].
      rewrite fmap_cons, not_elem_of_cons in HF. destruct HF as [Hk HF].
      rewrite filter_cons_False; [auto|]. cbn in *. congruence. }
    rewrite !Hno; [done|done|]. intros Hin. apply (H1 l Hin). by left.
  - clear Hc Hnd. induction T as [|x T IH]; [done|]. by rewrite filter_cons_False.
Qed.

End spec.

Lemma chain_suffix {E X} (w : world E X) T1 T2 p :
  tbl w (T1 ++ T2) → p = head T2.*1 → chain (w_heap w) p T2.*1.
Proof.
  intros [[Hc _ _] _] ->. rewrite fmap_app in Hc.
  apply chain_app in Hc as (q & Hq & _). by rewrite <- (chain_head _ _ _ Hq).
Qed.

(** ** Harmless updates and the interface *)

(** A member update that keeps the number, the group and well-formedness. *)
Class Benign {E} (f : job_t E → job_t E) : Prop := {
  bn_next :: NextIndep f;
  bn_jid : ∀ j, jid (f j) = jid j;
  bn_pgid : ∀ j, pgid (f j) = pgid j;
  bn_infd : ∀ j, infd (f j) = infd j;
  bn_wf : ∀ l j, job_wf (Heap l) j → job_wf (Heap l) (f j)
}.

#[export] Instance bn_state {E} x : Benign (set_state (E := E) x).
Proof. split; auto with sysprog; done. Qed.
#[export] Instance bn_bg {E} x : Benign (set_background (E := E) x).
Proof. split; auto with sysprog; done. Qed.
#[export] Instance bn_set_nlive {E} x : Benign (set_nlive (E := E) x).
Proof. split; auto with sysprog; done. Qed.
#[export] Instance bn_nlive {E} : Benign (E := E) (λ j, set_nlive (nlive j - 1) j).
Proof. split; auto with sysprog; done. Qed.
#[export] Instance bn_compose {E} (f g : job_t E → job_t E) `{!Benign f, !Benign g} : Benign (λ j, g (f j)).
Proof.
  split.
  - intros n j. by rewrite !next_indep.
  - intros j. by rewrite !bn_jid.
  - intros j. by rewrite !bn_pgid.
  - intros j. by rewrite !bn_infd.
  - intros l j ?. by apply bn_wf, bn_wf.
Qed.

(** What an invariant promises to the shared operations. *)
Class JobInv {E X} (I : world E X → table E → Prop) : Prop := {
  ji_tbl : ∀ w T, I w T → tbl w T;
  ji_ok : ∀ w T, I w T → tbl_ok T;
  ji_upd : ∀ w T h' l f, Benign f → I w T → tbl (with_heap h' w) (upd_tbl l f T) →
    tbl_ok (upd_tbl l f T) → I (with_heap h' w) (upd_tbl l f T)
}.

Section rules.
Context {E X : Type} `{Env} (I : world E X → table E → Prop) `{!JobInv I}.
Implicit Types (w : world E X) (T : table E) (j : job_t E) (t : mode).

Lemma ji_update t l f `{!Benign f} (Q : unit → world E X → Prop) w T j :
  I w T → (l, j) ∈ T →
  (∀ w', I w' (upd_tbl l f T) → w_log w' = w_log w → w_fds w' = w_fds w → w_x w' = w_x w →
     Q tt w') →
  wp t (update l f) Q w.
Proof.
  intros Hi Hin HQ. eapply (wp_update_tbl t l f Q w T j); [by apply ji_tbl|done|].
  intros h' Ht'. apply HQ; [|done..]. apply ji_upd; [apply _|done|done|].
  apply tbl_ok_upd; [by eapply ji_ok|apply bn_jid|apply bn_wf].
Qed.

Lemma ji_deref t l (Q : job_t E → world E X → Prop) w T j :
  I w T → (l, j) ∈ T → (∀ n, Q (set_next n j) w) → wp t (deref l) Q w.
Proof. intros Hi. apply wp_deref_tbl. by apply ji_tbl. Qed.

Lemma ji_current t (Q : option loc → world E X → Prop) w T :
  I w T → Q (current T) w → wp t jobs_current Q w.
Proof.
  intros Hi HQ. unfold jobs_current. eapply wp_last_job; [apply _|by apply ji_tbl|done].
Qed.

Lemma ji_recent_stopped t (Q : option loc → world E X → Prop) w T :
  I w T → Q (fst <$> last_such stopped T) w → wp t jobs_recent_stopped Q w.
Proof.
  intros Hi HQ. unfold jobs_recent_stopped. eapply wp_last_job; [apply _|by apply ji_tbl|done].
Qed.

Lemma ji_nodup w T : I w T → NoDup T.*1.
Proof. intros Hi%ji_tbl. apply Hi. Qed.

End rules.
