(* ===== verification/Redirect.v ===== *)
(** * The child's side: redirections

    [open_onto] and [redirect_apply] of [Project 1/yash/src/redirect.c]; the
    file of the same name in [Project 2/yashd/server/src] is identical code.
    They run in the child between [fork] and [execvp], on the child's own
    descriptor table and dispositions ([proc]). *)

From S2P Require Import Prelude CString YashTypes Parse Posix.
From stdpp Require Import base tactics list gmap strings.
From Stdlib Require Import Ascii ZArith Lia.

(** ** Reading the command of the parsed job

    The pointers of the job that [parse_line] filled point into its own buffer
    ([Frame]); reading through any other pointer is undefined behaviour. *)

Section frame.
Context {E : Type}.
Implicit Types (j : job_t E) (c : cmd_t).

(** The string at a pointer of the parsed (local) job. *)
Definition frame_str j (o : option ptr) : option bytes :=
  match o with
  | Some p => if bool_decide (p_base p = Frame) then Some (str_at (buf j) (p_off p))
              else None
  | None => None
  end.

(** An optional redirection target: null, or a string. *)
Definition frame_opt j (o : option ptr) : M proc (option bytes) :=
  match o with
  | None => mret None
  | Some _ => s ← assume_some (frame_str j o); mret (Some s)
  end.

(** What [execvp] reads: the strings of [argv] up to the null pointer. *)
Definition exec_args j (c : cmd_t) : option (list bytes) :=
  mapM (frame_str j) (take (argc c) (argv c)).

Lemma frame_str_read j o :
  ptr_ok Frame o → frame_str j o = read_ptr (buf j) o.
Proof. destruct o as [p|]; [|done]. intros [Hb _]. simpl. by rewrite bool_decide_true. Qed.

Lemma frame_opt_read j o p :
  ptr_ok Frame o → frame_opt j o p = Done (read_ptr (buf j) o, p).
Proof.
  intros Ho. unfold frame_opt. destruct o as [q|]; [|done].
  rewrite (frame_str_read j (Some q) Ho). done.
Qed.

Lemma exec_args_abs j c :
  cmd_wf Frame c → exec_args j c = Some (s_args (abs_cmd (buf j) c)).
Proof.
  intros [_ _ Ha _ _ _ _]. unfold exec_args. cbn [abs_cmd s_args].
  induction Ha as [|o l [Hne Hok] _ IH]; [done|]. simpl.
  rewrite (frame_str_read j o Hok). destruct o as [q|]; [|done]. cbn. by rewrite IH.
Qed.

Lemma job_cmd self j i c :
  job_wf self j → i < ncmds j → cmds j !! i = Some c → cmd_wf self c ∧ 0 < argc c.
Proof.
  intros Hwf Hi Hc. assert (Hin : c ∈ take (ncmds j) (cmds j)).
  { apply (list_elem_of_lookup_2 _ i). by rewrite lookup_take_lt. }
  pose proof (wf_cmds _ _ Hwf) as H1. pose proof (wf_nonempty _ _ Hwf) as H2.
  rewrite Forall_forall in H1, H2. auto.
Qed.

Lemma abs_head arr self c :
  cmd_wf self c → 0 < argc c → ∃ file, head (s_args (abs_cmd arr c)) = Some file.
Proof.
  intros Hw Hn. pose proof (wf_argv_len _ _ Hw) as Hl. cbn [abs_cmd s_args].
  destruct (argv c) as [|a l]; simpl in Hl; [lia|].
  destruct (argc c); [lia|]. by eexists.
Qed.

End frame.

Section child.
Context `{Env}.

(** ** The child's system calls *)

Definition on_fds (f : fdtab → fdtab) (p : proc) : proc :=
  Proc (f (p_fds p)) (p_sigs p) (p_pgid p) (p_err p).

Definition c_perror (msg : bytes) : M proc unit :=
  modify (λ p, Proc (p_fds p) (p_sigs p) (p_pgid p) (msg :: p_err p)).

(** [dup2]: -1 when [old] is not open. *)
Definition c_dup2 (old new : Z) : M proc Z :=
  p ← get;
  match fd_dup2 old new (p_fds p) with
  | Some t => modify (on_fds (λ _, t));; mret new
  | None => mret (-1)%Z
  end.

Definition c_close (fd : Z) : M proc unit := modify (on_fds (fd_close fd)).

(** [open]: -1, or the lowest free descriptor. *)
Definition c_open (path : bytes) (fl : oflags) : M proc Z :=
  p ← get;
  if e_open (p_fds p) path fl then
    let '(fd, t) := fd_alloc (OFile path fl) (p_fds p) in
    modify (on_fds (λ _, t));; mret fd
  else mret (-1)%Z.

Definition c_setpgid (pg : Z) : M proc unit :=
  modify (λ p, Proc (p_fds p) (p_sigs p) pg (p_err p)).

Definition c_sigaction (s : signal) (d : disp) : M proc unit :=
  modify (λ p, Proc (p_fds p) (<[s := d]> (p_sigs p)) (p_pgid p) (p_err p)).

(** ** [redirect.c] *)

Definition open_onto (file : bytes) (fl : oflags) (target : Z) : M proc Z :=
  fd ← c_open file fl;
  if bool_decide (fd < 0)%Z then c_perror file;; mret (-1)%Z
  else if bool_decide (fd ≠ target) then
    r ← c_dup2 fd target;
    if bool_decide (r < 0)%Z then c_perror file;; c_close fd;; mret (-1)%Z
    else c_close fd;; mret 0%Z
  else mret 0%Z.

(** [S_IRUSR | S_IWUSR | S_IRGRP | S_IWGRP | S_IROTH], that is
    0400, 0200, 0040, 0020 and 0004 in octal. *)
Definition out_mode : Z :=
  Z.lor (Z.lor (Z.lor (Z.lor 256 128) 32) 16) 4.

(** [if (file != NULL && open_onto(...) < 0) return -1;] *)
Definition redirect_one (file : option bytes) (fl : oflags) (target : Z) : M proc Z :=
  match file with
  | Some f => open_onto f fl target
  | None => mret 0%Z
  end.

(** The redirection targets of the command, read through its pointers. *)
Definition redirect_apply (infile outfile errfile : option bytes) : M proc Z :=
  r ← redirect_one infile O_RDONLY STDIN_FILENO;
  if bool_decide (r < 0)%Z then mret (-1)%Z
  else
    r ← redirect_one outfile (O_WRITE_CREATE_TRUNC out_mode) STDOUT_FILENO;
    if bool_decide (r < 0)%Z then mret (-1)%Z
    else
      r ← redirect_one errfile (O_WRITE_CREATE_TRUNC out_mode) STDERR_FILENO;
      if bool_decide (r < 0)%Z then mret (-1)%Z
      else mret 0%Z.

(** The end of the child: redirections, then [execvp], which returns only when
    it fails. *)
Definition exec_command {E} (j : job_t E) (c : cmd_t) : M proc child_end :=
  fi ← frame_opt j (infile c);
  fo ← frame_opt j (outfile c);
  fe ← frame_opt j (errfile c);
  ret ← redirect_apply fi fo fe;
  if bool_decide (ret < 0)%Z then mret (Exit 1)
  else
    args ← assume_some (exec_args j c);
    file ← assume_some (head args);
    mret (if e_exec file then Exec file args else Exit 127).

(** ** What they do to the descriptor table *)

(** Opening moves the file onto its target and leaves every other descriptor
    as it was, whichever descriptor [open] happened to return. *)
Lemma open_onto_spec file fl target p :
  (0 ≤ target)%Z →
  open_onto file fl target p =
    if e_open (p_fds p) file fl
    then Done (0%Z, on_fds (<[target := OFile file fl]>) p)
    else Done ((-1)%Z, Proc (p_fds p) (p_sigs p) (p_pgid p) (file :: p_err p)).
Proof.
  intros Ht. unfold open_onto, c_open, fd_alloc, mbind, M_bind, get. simpl.
  destruct (e_open _ _ _); [|done]. simpl.
  pose proof (lowest_fd_nonneg (p_fds p)) as Hnn.
  pose proof (lowest_fd_free (p_fds p)) as Hfree.
  rewrite bool_decide_false by lia. case_bool_decide as Hne.
  - unfold c_dup2, c_close, fd_dup2, mbind, M_bind, get; simpl.
    rewrite lookup_insert_eq. simpl. rewrite bool_decide_false by lia. simpl.
    unfold fd_close, on_fds; simpl. do 3 f_equal.
    rewrite delete_insert_ne by done. by rewrite delete_insert_id.
  - subst target. done.
Qed.

(** The redirections of a command, in the order they are applied. *)
Definition requests (i o e : option bytes) : list (bytes * oflags * Z) :=
  let req (f : option bytes) fl target :=
    match f with Some f => [(f, fl, target)] | None => [] end in
  req i O_RDONLY STDIN_FILENO
  ++ req o (O_WRITE_CREATE_TRUNC out_mode) STDOUT_FILENO
  ++ req e (O_WRITE_CREATE_TRUNC out_mode) STDERR_FILENO.

(** Each target descriptor becomes its file, up to the first file that cannot be
    opened, which is reported. *)
Fixpoint apply_requests (rs : list (bytes * oflags * Z)) (p : proc) : Z * proc :=
  match rs with
  | [] => (0%Z, p)
  | (f, fl, target) :: rs' =>
      if e_open (p_fds p) f fl
      then apply_requests rs' (on_fds (<[target := OFile f fl]>) p)
      else ((-1)%Z, Proc (p_fds p) (p_sigs p) (p_pgid p) (f :: p_err p))
  end.

Lemma redirect_apply_requests i o e p :
  redirect_apply i o e p = Done (apply_requests (requests i o e) p).
Proof.
  unfold redirect_apply, redirect_one, requests, mbind, M_bind.
  destruct i as [i|]; [rewrite open_onto_spec by done; simpl; destruct (e_open _ i _)|];
    simpl; try done;
  destruct o as [o|]; try (rewrite open_onto_spec by done; simpl; destruct (e_open _ o _));
    simpl; try done;
  destruct e as [e|]; try (rewrite open_onto_spec by done; simpl; destruct (e_open _ e _));
    simpl; try done.
Qed.

(** The descriptor table after a successful [redirect_apply]. *)
Definition redirected (i o e : option bytes) (t : fdtab) : fdtab :=
  let onto f fl target t :=
    match f with Some f => <[target := OFile f fl]> t | None => t end in
  onto e (O_WRITE_CREATE_TRUNC out_mode) STDERR_FILENO
    (onto o (O_WRITE_CREATE_TRUNC out_mode) STDOUT_FILENO
       (onto i O_RDONLY STDIN_FILENO t)).

(** The result code, and that nothing but the descriptors and standard error
    is touched. *)
Lemma redirect_apply_result i o e p :
  ∃ r p', redirect_apply i o e p = Done (r, p') ∧
    p_sigs p' = p_sigs p ∧ p_pgid p' = p_pgid p ∧
    (r = 0%Z ∧ p_fds p' = redirected i o e (p_fds p) ∧ p_err p' = p_err p ∨
     r = (-1)%Z ∧ ∃ f, f ∈ (requests i o e).*1.*1 ∧ p_err p' = f :: p_err p).
Proof.
  rewrite redirect_apply_requests. destruct (apply_requests _ _) as [r p'] eqn:Hr.
  exists r, p'. split; [done|]. revert Hr.
  destruct i as [i|], o as [o|], e as [e|]; simpl;
    repeat (destruct (e_open _ _ _)); intros [= <- <-]; simpl;
    (split_and!; [done|done|]);
    first [left; by split_and!
          |right; split; [done|]; eexists; split; [|done]; set_solver].
Qed.

(** A descriptor above the standard three is never touched. *)
Lemma redirected_other i o e t n : (2 < n)%Z → redirected i o e t !! n = t !! n.
Proof.
  intros Hn. unfold redirected, STDIN_FILENO, STDOUT_FILENO, STDERR_FILENO.
  destruct i, o, e; by rewrite ?lookup_insert_ne by lia.
Qed.

(** The same, from the abstract syntax of the command. *)
Definition exec_spec (c : scmd) (p : proc) : child_end * proc :=
  let '(r, p') := apply_requests (requests (s_in c) (s_out c) (s_err c)) p in
  if bool_decide (r < 0)%Z then (Exit 1, p')
  else
    let file := default [] (head (s_args c)) in
    (if e_exec file then Exec file (s_args c) else Exit 127, p').

Lemma exec_command_spec {E} (j : job_t E) i c p :
  job_wf Frame j → i < ncmds j → cmds j !! i = Some c →
  exec_command j c p = Done (exec_spec (abs_cmd (buf j) c) p).
Proof.
  intros Hwf Hi Hc. destruct (job_cmd _ _ _ _ Hwf Hi Hc) as [Hcw Hne].
  destruct (abs_head (buf j) _ _ Hcw Hne) as [file Hargs].
  unfold exec_command, exec_spec.
  unfold mbind at 1, M_bind at 1. rewrite frame_opt_read by apply Hcw.
  unfold mbind at 1, M_bind at 1. rewrite frame_opt_read by apply Hcw.
  unfold mbind at 1, M_bind at 1. rewrite frame_opt_read by apply Hcw.
  unfold mbind at 1, M_bind at 1. rewrite redirect_apply_requests.
  cbn [abs_cmd s_in s_out s_err].
  destruct (apply_requests _ _) as [r p']. case_bool_decide; [done|].
  rewrite exec_args_abs by done. unfold mbind, M_bind, assume_some, mret, M_ret.
  by rewrite Hargs.
Qed.

(** How a child ends: it runs the words of its command with the redirections on
    top of the table it had, or it could not. *)
Definition child_result (a : scmd) (t : fdtab) (p : proc) (e : child_end) (p' : proc) : Prop :=
  (e = Exit 1 ∧
   ∃ f, f ∈ (requests (s_in a) (s_out a) (s_err a)).*1.*1 ∧ p_err p' = f :: p_err p) ∨
  (p_fds p' = redirected (s_in a) (s_out a) (s_err a) t ∧
   ∃ file, head (s_args a) = Some file ∧
     e = if e_exec file then Exec file (s_args a) else Exit 127).

Lemma exec_spec_result a p file :
  head (s_args a) = Some file →
  let '(e, p') := exec_spec a p in
  p_sigs p' = p_sigs p ∧ p_pgid p' = p_pgid p ∧ child_result a (p_fds p) p e p'.
Proof.
  intros Hfile. unfold exec_spec, child_result. rewrite Hfile.
  destruct (redirect_apply_result (s_in a) (s_out a) (s_err a) p)
    as (r & p' & Hr & Hs & Hg & Hcase).
  rewrite redirect_apply_requests in Hr. injection Hr as ->.
  destruct Hcase as [(-> & Hf & _)|(-> & f & Hin & He)].
  - rewrite bool_decide_false by lia. split_and!; [done|done|]. right. split; [done|].
    by exists file.
  - rewrite bool_decide_true by lia. split_and!; [done|done|]. left. split; [done|]. by exists f.
Qed.

Lemma apply_requests_frame rs p r p' :
  apply_requests rs p = (r, p') → Forall (λ q : bytes * oflags * Z, (q.2 ≤ 2)%Z) rs →
  p_sigs p' = p_sigs p ∧ p_pgid p' = p_pgid p ∧
  ∀ n, (2 < n)%Z → p_fds p' !! n = p_fds p !! n.
Proof.
  revert p. induction rs as [|[[f fl] tg] rs IH]; simpl; intros p Ha Hrs; [by simplify_eq|].
  apply Forall_cons in Hrs as [Htg Hrs]. simpl in Htg.
  destruct (e_open _ _ _); [|by simplify_eq/=].
  destruct (IH _ Ha Hrs) as (Hs & Hg & Hf). split_and!; [done|done|].
  intros n Hn. rewrite Hf by done. cbn. rewrite lookup_insert_ne by lia. done.
Qed.

Lemma requests_targets i o e :
  Forall (λ q : bytes * oflags * Z, (q.2 ≤ 2)%Z) (requests i o e).
Proof.
  unfold requests, STDIN_FILENO, STDOUT_FILENO, STDERR_FILENO.
  destruct i, o, e; repeat constructor; simpl; lia.
Qed.


Lemma exec_spec_frame a p e p' :
  exec_spec a p = (e, p') →
  p_sigs p' = p_sigs p ∧ ∀ n, (2 < n)%Z → p_fds p' !! n = p_fds p !! n.
Proof.
  unfold exec_spec. destruct (apply_requests _ _) as [r p1] eqn:Ha.
  apply apply_requests_frame in Ha as (Hs & _ & Hf); [|apply requests_targets].
  case_bool_decide; intros [= <- <-]; done.
Qed.

End child.
