(* ===== verification/Launch.v ===== *)
(** * Launching the commands of a job

    The parts of [exec_job] that [Project 1/yash/src/exec.c] and
    [Project 2/yashd/server/src/exec.c] share: the loop that forks the commands
    into one process group, and the pipe between two commands.  The child's code
    is a parameter. *)

From S2P Require Import Prelude CString YashTypes Parse Posix JobTable Redirect.
From stdpp Require Import base tactics list gmap strings.
From Stdlib Require Import Ascii ZArith Lia Sorted.

Section launch.
Context {E X : Type} `{Env}.
Implicit Types (w : world E X) (j : job_t E).

(** [fork()] in a process of group [g], with the child's run recorded next to
    its pid. *)
Definition fork (g : Z) (child : M proc child_end) : M (world E X) (option positive) :=
  w ← get;
  match e_fork (w_log w) with
  | None => emit (EvFork None None);; mret None
  | Some p =>
      match child (Proc (w_fds w) (w_sigs w) g []) with
      | Done img => emit (EvFork (Some p) (Some img));; mret (Some p)
      | Undef => undef
      | NoFuel => λ _, NoFuel
      end
  end.

(** The loop over the commands, from index [i], with [n] of them left: fork,
    record the pid, put the child into the group of the first one. *)
Fixpoint fork_loop (g : Z) (child : job_t E → nat → Z → M proc child_end)
    (failed : M (world E X) unit) (n i : nat) j (pg : Z) : M (world E X) (job_t E * Z) :=
  match n with
  | O => mret (j, pg)
  | S n' =>
      r ← fork g (child j i pg);
      match r with
      | None => failed;; mret (j, pg)
      | Some p =>
          let pg' := if bool_decide (pg = 0)%Z then Zpos p else pg in
          emit (EvSetpgid (Zpos p) pg');;
          fork_loop g child failed n' (S i)
            (set_nlive (nlive j + 1) (upd_cmd i (set_pid (Zpos p)) j)) pg'
      end
  end.

End launch.

(** ** What the loop does *)

Section assign.
Context {E : Type}.
Implicit Types (j : job_t E).

(** The job after the commands from index [i] on have been given their pids. *)
Fixpoint assign_pids (i : nat) (ps : list positive) j : job_t E :=
  match ps with
  | [] => j
  | p :: ps' =>
      assign_pids (S i) ps' (set_nlive (nlive j + 1) (upd_cmd i (set_pid (Zpos p)) j))
  end.

(** The process group of a job whose first [lead] is known or still 0. *)
Definition leader (lead : Z) (ps : list positive) : Z :=
  match ps with
  | [] => lead
  | p :: _ => if bool_decide (lead = 0)%Z then Zpos p else lead
  end.

(** A recorded pid changes nothing else. *)
Lemma set_pid_wf self i p j :
  job_wf self j → job_wf self (upd_cmd i (set_pid p) j).
Proof.
  intros [Hb Hbn Hc Hcn Hn Hlen Hcs Hne].
  assert (Htake : ∀ P : cmd_t → Prop, (∀ c, P c → P (set_pid p c)) →
            Forall P (take (ncmds j) (cmds j)) →
            Forall P (take (ncmds j) (alter (set_pid p) i (cmds j)))).
  { intros P HP. rewrite !Forall_lookup. intros Hf k c Hk.
    apply lookup_take_Some in Hk as [Hk Hkn].
    destruct (decide (i = k)) as [->|Hik].
    - rewrite list_lookup_alter_eq in Hk. apply fmap_Some in Hk as (c0 & Hc0 & ->).
      apply HP. apply (Hf k). by rewrite lookup_take_lt.
    - rewrite list_lookup_alter_ne in Hk by done. apply (Hf k). by rewrite lookup_take_lt. }
  split; cbn [upd_cmd set_cmds buf cmdline ncmds cmds]; try done.
  - by rewrite length_alter.
  - apply Htake; [|done]. by intros c [].
  - by apply Htake.
Qed.

Lemma abs_set_pid i p j arr :
  abs_cmd arr <$> cmds (upd_cmd i (set_pid p) j) = abs_cmd arr <$> cmds j.
Proof.
  cbn [upd_cmd set_cmds cmds]. generalize (cmds j). intros l. revert i.
  induction l as [|x l IH]; intros [|i]; try done.
  change (alter (set_pid p) (S i) (x :: l)) with (x :: alter (set_pid p) i l).
  by rewrite !fmap_cons, IH.
Qed.

(** What assigning pids keeps and what it records. *)
Lemma assign_pids_wf self i ps j : job_wf self j → job_wf self (assign_pids i ps j).
Proof.
  revert i j. induction ps as [|p ps IH]; intros i j Hj; [done|].
  apply IH, wf_set_nlive, set_pid_wf. done.
Qed.

Lemma assign_pids_same i ps j :
  let j' := assign_pids i ps j in
  nlive j' = (nlive j + Z.of_nat (length ps))%Z ∧
  (jid j', pgid j', state j', background j', ncmds j', infd j', next j')
  = (jid j, pgid j, state j, background j, ncmds j, infd j, next j) ∧
  cmdline j' = cmdline j ∧ buf j' = buf j ∧
  (∀ arr, abs_cmd arr <$> cmds j' = abs_cmd arr <$> cmds j).
Proof.
  revert i j. induction ps as [|p ps IH]; intros i j; simpl.
  { split_and!; try done. lia. }
  destruct (IH (S i) (set_nlive (nlive j + 1) (upd_cmd i (set_pid (Zpos p)) j)))
    as (Hn & Hs & Hc & Hb & Ha).
  split_and!; [rewrite Hn; cbn; lia|rewrite Hs; done|done|done|].
  intros arr. rewrite Ha. apply (abs_set_pid i (Zpos p) j arr).
Qed.

Lemma assign_pids_abs i ps j : abs_job (assign_pids i ps j) = abs_job j.
Proof.
  destruct (assign_pids_same i ps j) as (_ & Hs & _ & Hb & Ha). simplify_eq.
  unfold abs_job. rewrite !fmap_take, Ha, Hb. congruence.
Qed.

Lemma leader_pos ps : ps ≠ [] → (0 < leader 0 ps)%Z.
Proof. destruct ps; [done|]. unfold leader. rewrite bool_decide_true by done. lia. Qed.

End assign.

(** The events of launching the commands [cs] from index [i] on, newest first,
    when the successful forks return [ps]; [child] is what the child of a command
    becomes, [failed] the events of a failed fork. *)
Fixpoint launched (child : scmd → nat → Z → child_end * proc) (failed : history)
    (i : nat) (lead : Z) (cs : list scmd) (ps : list positive) : history :=
  match cs, ps with
  | [], _ => []
  | _ :: _, [] => failed ++ [EvFork None None]
  | c :: cs', p :: ps' =>
      let lead' := leader lead ps in
      launched child failed (S i) lead' cs' ps'
      ++ [EvSetpgid (Zpos p) lead'; EvFork (Some p) (Some (child c i lead))]
  end.

(** An event that neither signals nor waits for a process. *)
Definition passive (e : event) : Prop :=
  match e with EvKill _ _ | EvWait _ _ _ => False | _ => True end.

(** [started_only ps evs]: the events start the processes [ps] and neither signal
    nor wait for any process. *)
Definition started_only (ps : list positive) (evs : history) : Prop :=
  Forall passive evs ∧ ∀ p, p ∈ ps → ∃ img, EvFork (Some p) (Some img) ∈ evs.

Lemma started_only_app ps evs1 evs2 :
  started_only ps evs2 → Forall passive evs1 → started_only ps (evs1 ++ evs2).
Proof.
  intros [Hp Hf] H1. split; [by apply Forall_app|]. intros p Hin.
  destruct (Hf p Hin) as [img Hi]. exists img. apply elem_of_app. by right.
Qed.

Lemma launched_only child failed i lead cs ps :
  Forall passive failed → length ps ≤ length cs →
  started_only ps (launched child failed i lead cs ps).
Proof.
  intros Hfail. revert i lead ps. induction cs as [|c cs IH]; intros i lead ps Hle.
  { destruct ps; [|simpl in Hle; lia]. split; [constructor|]. by intros p ?%elem_of_nil. }
  destruct ps as [|p ps]; cbn [launched].
  { split; [|by intros p ?%elem_of_nil]. apply Forall_app. split; [done|]. by repeat constructor. }
  destruct (IH (S i) (leader lead (p :: ps)) ps) as [Hp Hf]; [simpl in Hle; lia|]. split.
  - apply Forall_app. split; [done|]. by repeat constructor.
  - intros q [->|Hq]%elem_of_cons.
    + exists (child c i lead). set_solver.
    + destruct (Hf q Hq) as [img Hi]. exists img. apply elem_of_app. by left.
Qed.

Section forks.
Context {E X : Type} `{Env}.
Implicit Types (w : world E X) (j : job_t E).

Lemma fork_run g child w img :
  child (Proc (w_fds w) (w_sigs w) g []) = Done img →
  fork g child w =
    match e_fork (w_log w) with
    | None => Done (None, with_log (EvFork None None :: w_log w) w)
    | Some p => Done (Some p, with_log (EvFork (Some p) (Some img) :: w_log w) w)
    end.
Proof.
  intros Hc. unfold fork, mbind, M_bind, get. destruct (e_fork _); [|done]. by rewrite Hc.
Qed.

(** The loop over the commands launches a prefix of them: all, or those before
    the first failed [fork]. *)
Lemma fork_loop_spec g child failed n i j lead w spec flog :
  (∀ j i lead c, job_wf Frame j → i < ncmds j → cmds j !! i = Some c →
     child j i lead (Proc (w_fds w) (w_sigs w) g []) =
     Done (spec (abs_cmd (buf j) c) i lead)) →
  (∀ h, failed (with_log h w) = Done (tt, with_log (flog ++ h) w)) →
  job_wf Frame j → n + i = ncmds j →
  ∃ ps, length ps ≤ n ∧ (0 < n → ps = [] → ∃ h, e_fork h = None) ∧
    fork_loop g child failed n i j lead w =
      Done ((assign_pids i ps j, leader lead ps),
            with_log (launched spec flog i lead (drop i (s_cmds (abs_job j))) ps ++ w_log w) w).
Proof.
  intros Hchild Hfail. revert i j lead w Hchild Hfail.
  induction n as [|n IH]; intros i j lead w Hchild Hfail Hwf Hi.
  { exists []. split; [done|]. split; [lia|]. cbn [fork_loop abs_job s_cmds].
    rewrite drop_ge by (rewrite length_fmap, length_take; lia). by destruct w. }
  destruct (lookup_lt_is_Some_2 (cmds j) i) as [c Hc].
  { rewrite (wf_cmds_len _ _ Hwf). pose proof (wf_ncmds _ _ Hwf). lia. }
  assert (Hdrop : drop i (s_cmds (abs_job j)) =
                  abs_cmd (buf j) c :: drop (S i) (s_cmds (abs_job j))).
  { cbn [abs_job s_cmds]. apply drop_S. rewrite list_lookup_fmap, lookup_take_lt by lia.
    by rewrite Hc. }
  cbn [fork_loop]. unfold mbind at 1, M_bind at 1.
  rewrite (fork_run g _ w (spec (abs_cmd (buf j) c) i lead))
    by (apply Hchild; [done|lia|done]).
  rewrite Hdrop. destruct (e_fork (w_log w)) as [p|] eqn:He.
  2:{ exists []. split; [simpl; lia|]. split; [by eauto|].
      unfold mbind, M_bind. rewrite Hfail. cbn. by rewrite <- (assoc_L (++)). }
  set (j1 := set_nlive (nlive j + 1) (upd_cmd i (set_pid (Zpos p)) j)).
  unfold mbind at 1, M_bind at 1. cbn [emit modify].
  set (pg' := if bool_decide (lead = 0)%Z then Z.pos p else lead).
  edestruct (IH (S i) j1 pg' (with_log
    (EvSetpgid (Z.pos p) pg' :: EvFork (Some p) (Some (spec (abs_cmd (buf j) c) i lead)) :: w_log w) w))
    as (ps & Hps & _ & Hrun); [exact Hchild|exact Hfail|by apply wf_set_nlive, set_pid_wf|cbn; lia|].
  assert (Habs : abs_job j1 = abs_job j) by apply (assign_pids_abs i [p] j).
  exists (p :: ps). split; [simpl; lia|]. split; [done|]. rewrite Habs in Hrun.
  cbn [assign_pids launched]. rewrite <- !(assoc_L (++)). cbn [app].
  assert (Hlead : leader pg' ps = pg').
  { unfold leader, pg'. destruct ps; [done|].
    by rewrite (bool_decide_false (_ = 0)%Z) by (case_bool_decide; lia). }
  change (leader lead (p :: ps)) with pg'. rewrite Hlead in Hrun. exact Hrun.
Qed.

End forks.

(** ** The pipe between two commands *)

(** The standard descriptors of the shell are open. *)
Definition std_open (t : fdtab) : Prop :=
  is_Some (t !! STDIN_FILENO) ∧ is_Some (t !! STDOUT_FILENO) ∧ is_Some (t !! STDERR_FILENO).

Definition with_pipe (fds : option (Z * Z)) (id : option nat) (t : fdtab) : fdtab :=
  match fds, id with
  | Some (r, wr), Some k => <[wr := OPipeW k]> (<[r := OPipeR k]> t)
  | _, _ => t
  end.

(** What [pipe] guarantees about its two descriptors. *)
Definition pipe_ok (fds : option (Z * Z)) (id : option nat) (t : fdtab) : Prop :=
  match fds, id with
  | Some (r, wr), Some _ =>
      (2 < r)%Z ∧ (2 < wr)%Z ∧ r ≠ wr ∧ t !! r = None ∧ t !! wr = None
  | None, None => True
  | _, _ => False
  end.


Section pipe.
Context {E X : Type} `{Env}.
Implicit Types (w : world E X).

Lemma pipe_run w :
  std_open (w_fds w) →
  (e_pipe (w_log w) = false ∧ pipe w = Done (None, with_log (EvPipe None :: w_log w) w)) ∨
  ∃ fds, pipe_ok (Some fds) (Some (w_pipes w)) (w_fds w) ∧
    pipe w = Done (Some fds, with_log (EvPipe (Some fds) :: w_log w)
      (with_pipes (S (w_pipes w))
         (with_fds (with_pipe (Some fds) (Some (w_pipes w)) (w_fds w)) w))).
Proof.
  intros (H0 & H1 & H2). unfold pipe, mbind, M_bind, get. cbn.
  destruct (e_pipe (w_log w)) eqn:He; [right|by left].
  set (r := lowest_fd (w_fds w)). set (t1 := <[r := _]> (w_fds w)).
  exists (r, lowest_fd t1). split; [|done].
  assert (Hr : (2 < r)%Z) by by apply lowest_fd_above.
  assert (Hr0 : w_fds w !! r = None) by apply lowest_fd_free.
  assert (Ht1 : ∀ i, (i < r)%Z → t1 !! i = w_fds w !! i).
  { intros i Hi. subst t1. by rewrite lookup_insert_ne by lia. }
  assert (Hw : (2 < lowest_fd t1)%Z).
  { apply lowest_fd_above; rewrite Ht1 by lia; done. }
  pose proof (lowest_fd_free t1) as Hw0.
  assert (Hne : r ≠ lowest_fd t1).
  { intros Heq. rewrite <- Heq in Hw0. subst t1. by rewrite lookup_insert_eq in Hw0. }
  cbn. split_and!; try done. subst t1. by rewrite lookup_insert_ne in Hw0.
Qed.

Lemma close_pipe_restores fds id (t : fdtab) :
  pipe_ok fds id t →
  match fds with
  | Some (r, wr) => fd_close wr (fd_close r (with_pipe fds id t))
  | None => with_pipe fds id t
  end = t.
Proof.
  destruct fds as [[r wr]|], id as [k|]; try done. intros (_ & _ & Hne & Hr & Hw).
  unfold with_pipe, fd_close.
  by rewrite (delete_insert_ne _ r wr), (delete_insert_id t r), delete_insert_id by done.
Qed.

End pipe.

(** ** The child's end of the pipe *)

(** [if (fds[0] != -1) { dup2 ...; close(fds[0]); close(fds[1]); }] in the child
    of command [i]. *)
Definition child_pipe (i : nat) (fds : option (Z * Z)) : M proc unit :=
  match fds with
  | Some (r, wr) =>
      (if bool_decide (i = 0) then c_dup2 wr STDOUT_FILENO
       else c_dup2 r STDIN_FILENO);;
      c_close r;;
      c_close wr
  | None => mret tt
  end.

Section child.
Implicit Types (p : proc) (t : fdtab).

(** The pipe end of command [i] on its standard descriptor, both ends closed. *)
Definition pipe_side (i : nat) (fds : option (Z * Z)) t : fdtab :=
  match fds with
  | Some (r, wr) =>
      let t' := match fd_dup2 (if bool_decide (i = 0) then wr else r)
                              (if bool_decide (i = 0) then STDOUT_FILENO else STDIN_FILENO) t with
                | Some t' => t'
                | None => t
                end in
      fd_close wr (fd_close r t')
  | None => t
  end.

Lemma child_pipe_run i fds p : child_pipe i fds p = Done (tt, on_fds (pipe_side i fds) p).
Proof.
  destruct fds as [[r wr]|]; [|by destruct p]. destruct p as [t s g e].
  unfold child_pipe, pipe_side, c_dup2, mbind, M_bind, get, on_fds; cbn.
  case_bool_decide; cbn; by destruct (fd_dup2 _ _ t).
Qed.

(** With the three standard descriptors open, the pipe ends are above them, and
    a child's table is that of the shell with one standard descriptor moved. *)
Definition piped (i : nat) (id : option nat) t : fdtab :=
  match id with
  | None => t
  | Some k => if bool_decide (i = 0) then <[STDOUT_FILENO := OPipeW k]> t
              else <[STDIN_FILENO := OPipeR k]> t
  end.

Lemma pipe_side_piped i fds id t :
  pipe_ok fds id t → pipe_side i fds (with_pipe fds id t) = piped i id t.
Proof.
  destruct fds as [[r wr]|], id as [k|]; try done.
  intros (Hr & Hw & Hne & Hfr & Hfw). unfold pipe_side, with_pipe, piped, fd_dup2, fd_close.
  unfold STDOUT_FILENO, STDIN_FILENO.
  destruct (bool_decide (i = 0)).
  - rewrite lookup_insert_eq. rewrite !(delete_insert_ne _ _ 1%Z) by lia.
    by rewrite (delete_insert_ne _ r wr), (delete_insert_id t r), delete_insert_id by done.
  - rewrite lookup_insert_ne, lookup_insert_eq by done.
    rewrite !(delete_insert_ne _ _ 0%Z) by lia.
    by rewrite (delete_insert_ne _ r wr), (delete_insert_id t r), delete_insert_id by done.
Qed.

Lemma piped_other i id t n : (2 < n)%Z → piped i id t !! n = t !! n.
Proof.
  intros Hn. unfold piped, STDOUT_FILENO, STDIN_FILENO.
  repeat case_match; try done; by rewrite lookup_insert_ne by lia.
Qed.

(** Resetting a list of signals to their default. *)
Definition reset_sigs (l : list signal) (s : sigtab) : sigtab :=
  foldl (λ s x, <[x := SIG_DFL]> s) s l.

Lemma reset_sigs_disp l s x : x ∈ l → disposition (reset_sigs l s) x = SIG_DFL.
Proof.
  unfold disposition, reset_sigs. revert s. induction l as [|y l IH] using rev_ind; intros s.
  { by intros ?%elem_of_nil. }
  rewrite foldl_app. cbn [foldl]. intros Hx. destruct (decide (x = y)) as [->|Hne].
  - by rewrite lookup_insert_eq.
  - rewrite lookup_insert_ne by done. apply IH. set_solver.
Qed.

End child.
