(* ===== verification/Yash.v ===== *)
(** * yash, the shell of Project 1

    [sig.c], [jobs.c], [builtins.c], [exec.c] and [main.c] of
    [Project 1/yash/src], over the shared parser, job table and redirections.
    The world's own part [shell] holds [shell_pgid]; [job_list] is the head of
    the job table.  [fuel] bounds the loops whose length the environment
    decides: the sweep of [jobs_reap], the wait of [jobs_wait_fg] and the read
    loop of [main]. *)

From S2P Require Import Prelude CString YashTypes Parse Posix JobTable Redirect Launch.
From stdpp Require Import base tactics list gmap strings.
From Stdlib Require Import Ascii ZArith Lia Sorted.

Record shell := Shell { shell_pgid : Z }.

Abbreviation W := (world unit shell).
Abbreviation job := (job_t unit).

Definition shell_terminal : Z := STDIN_FILENO.

Section yash.
Context `{Env}.

(** ** sig.c *)

Definition set_handler (s : signal) (d : disp) : M W unit :=
  modify (λ w, with_sigs (<[s := d]> (w_sigs w)) w).

Definition sig_init_shell : M W unit :=
  set_handler SIGINT Handler;;
  set_handler SIGTSTP Handler;;
  set_handler SIGQUIT Handler;;
  set_handler SIGTTIN SIG_IGN;;
  set_handler SIGTTOU SIG_IGN;;
  let pg := Zpos e_getpid in
  modify (with_x (Shell pg));;
  emit (EvSetpgid pg pg);;
  emit (EvTcsetpgrp shell_terminal pg).

Definition sig_reset_child : M proc unit :=
  c_sigaction SIGINT SIG_DFL;;
  c_sigaction SIGTSTP SIG_DFL;;
  c_sigaction SIGQUIT SIG_DFL;;
  c_sigaction SIGTTIN SIG_DFL;;
  c_sigaction SIGTTOU SIG_DFL.

Definition sig_give_terminal (pg : Z) : M W unit :=
  when (bool_decide (0 < pg)%Z) (emit (EvTcsetpgrp shell_terminal pg)).

(** ** jobs.c: output, sweep, foreground wait *)

Definition jobs_init : M W unit := modify (with_list None).

Definition jobs_print_one (l : loc) (mark : ascii) (status : bytes) : M W unit :=
  j ← deref l; emit (EvOut (job_line j mark status)).

Definition jobs_remove (l : loc) : M W unit := jobs_unlink (λ _, mret tt) l.

Definition sweep_flags : wflags := WFlags true true true.

(** The status change of one child, in the first loop of [jobs_reap]. *)
Definition reap_one (l : loc) (st : wstatus) : M W unit :=
  if WIFSTOPPED st then update l (set_state JOB_STOPPED)
  else if WIFCONTINUED st then update l (set_state JOB_RUNNING)
  else
    update l (λ j, set_nlive (nlive j - 1) j);;
    j ← deref l;
    when (bool_decide (nlive j = 0)%Z) (update l (set_state JOB_DONE)).

Definition reap_sweep (fuel : nat) : M W unit :=
  loop fuel
    (λ _ : unit,
       r ← waitpid (-1) sweep_flags;
       match r with
       | WaitChild p st =>
           o ← jobs_find_pid (Zpos p);
           match o with
           | None => mret (inl tt)
           | Some l => reap_one l st;; mret (inl tt)
           end
       | _ => mret (inr tt)
       end) tt.

(** The second loop: print and remove the finished jobs. *)
Definition reap_done : M W unit :=
  walk_saving
    (λ (_ : unit) l,
       j ← deref l;
       (if bool_decide (state j = JOB_DONE) then
          cur ← jobs_current;
          jobs_print_one l (match cur with None => "+"%char | Some _ => "-"%char end)
            (b "Done");;
          jobs_remove l
        else mret tt);;
       mret (inl tt))
    mret tt.

Definition jobs_reap (fuel : nat) : M W unit := reap_sweep fuel;; reap_done.

Definition fg_flags : wflags := WFlags false true false.

Definition jobs_wait_fg (fuel : nat) (l : loc) : M W unit :=
  stopped ← loop fuel
    (λ _ : unit,
       j ← deref l;
       if bool_decide (0 < nlive j)%Z then
         r ← waitpid (- pgid j) fg_flags;
         match r with
         | WaitErr e => if bool_decide (e = EINTR) then mret (inl tt)
                        else mret (inr false)
         | WaitNone => undef
         | WaitChild _ st =>
             if WIFSTOPPED st then
               update l (set_state JOB_STOPPED);; mret (inr true)
             else
               update l (λ j, set_nlive (nlive j - 1) j);; mret (inl tt)
         end
       else mret (inr false)) tt;
  if (stopped : bool) then mret tt else update l (set_state JOB_DONE).

Definition jobs_print : M W unit :=
  cur ← jobs_current;
  walk
    (λ (_ : unit) l,
       j ← deref l;
       jobs_print_one l (if bool_decide (Some l = cur) then "+"%char else "-"%char)
         (if bool_decide (state j = JOB_STOPPED) then b "Stopped" else b "Running");;
       mret (inl tt))
    mret tt.

Definition jobs_kill_all : M W unit :=
  walk_saving
    (λ (_ : unit) l, j ← deref l; kill (- pgid j) SIGKILL;; free l;; mret (inl tt))
    mret tt;;
  modify (with_list None).

(** ** builtins.c *)

Definition do_fg (fuel : nat) : M W unit :=
  cur ← jobs_current;
  match cur with
  | None => mret tt
  | Some l =>
      j ← deref l;
      emit (EvOut (cstr (cmdline j) ++ [LF]));;
      update l (set_background false);;
      sig_give_terminal (pgid j);;
      j ← deref l;
      when (bool_decide (state j = JOB_STOPPED)) (kill (- pgid j) SIGCONT);;
      update l (set_state JOB_RUNNING);;
      jobs_wait_fg fuel l;;
      x ← gets w_x;
      sig_give_terminal (shell_pgid x);;
      j ← deref l;
      when (bool_decide (state j = JOB_DONE)) (jobs_remove l)
  end.

Definition do_bg : M W unit :=
  o ← jobs_recent_stopped;
  match o with
  | None => mret tt
  | Some l =>
      j ← deref l;
      kill (- pgid j) SIGCONT;;
      update l (set_state JOB_RUNNING);;
      update l (set_background true);;
      jobs_print_one l "+"%char (b "Running")
  end.

Definition builtin_try (fuel : nat) (j : job) : M W bool :=
  let c := default zero_cmd (cmds j !! 0) in
  if bool_decide (ncmds j ≠ 1) || bool_decide (argc c = 0) then mret false
  else
    name ← assume_some (frame_str j (mjoin (argv c !! 0)));
    if streq name (b "jobs") then jobs_print;; mret true
    else if streq name (b "fg") then do_fg fuel;; mret true
    else if streq name (b "bg") then do_bg;; mret true
    else mret false.

(** ** exec.c *)

(** [perror(s)] prints [s], a colon and the text of [errno]; the event keeps [s]. *)

(** The child of command [i], from [fork] to [execvp] or [_exit]. *)
Definition child_main (j : job) (i : nat) (fds : option (Z * Z)) (pg : Z)
    : M proc child_end :=
  let c := default zero_cmd (cmds j !! i) in
  c_setpgid pg;;
  sig_reset_child;;
  child_pipe i fds;;
  exec_command j c.

(** The loop over the commands, from index [i], with [n] of them left. *)
Definition fork_cmds (n i : nat) (fds : option (Z * Z)) (j : job) (pg : Z) : M W (job * Z) :=
  x ← gets w_x;
  fork_loop (shell_pgid x) (λ j i pg, child_main j i fds pg) (emit (EvErr (b "fork"))) n i j pg.

Definition close_pipe (fds : option (Z * Z)) : M W unit :=
  match fds with
  | Some (r, wr) => close r;; close wr
  | None => mret tt
  end.

Definition exec_job (fuel : nat) (proto : job) : M W unit :=
  fds ← (if bool_decide (ncmds proto = 2)
         then r ← pipe; mret (match r with Some p => Some (Some p) | None => None end)
         else mret (Some None));
  match fds with
  | None => emit (EvErr (b "pipe"))
  | Some fds =>
      '(proto, pg) ← fork_cmds (ncmds proto) 0 fds proto 0;
      close_pipe fds;;
      if bool_decide (nlive proto = 0)%Z then mret tt
      else
        let proto := set_pgid pg proto in
        r ← jobs_add proto;
        match r with
        | None => emit (EvErr (b "yash: too many jobs" ++ [LF]))
        | Some l =>
            j ← deref l;
            if background j then mret tt
            else
              sig_give_terminal (pgid j);;
              jobs_wait_fg fuel l;;
              x ← gets w_x;
              sig_give_terminal (shell_pgid x);;
              j ← deref l;
              when (bool_decide (state j = JOB_DONE)) (jobs_remove l)
        end
  end.

(** ** main.c *)

(** [fgets(line, sizeof line, stdin)] with [sizeof line = YASH_MAX_LINE + 2]. *)
Definition fgets : M W fgets_result :=
  w ← get;
  let r := match e_fgets (w_log w) (YASH_MAX_LINE + 1) with
           | Line l => Line (take (YASH_MAX_LINE + 1) l)
           | r => r
           end in
  emit (EvFgets r);; mret r.

(** [line[strcspn(line, "\n")] = '\0'] *)
Definition chomp (line : bytes) : bytes :=
  take (strcspn [LF] line) line.

(** One iteration of the read loop; [inr] is the [break]. *)
Definition main_step (fuel : nat) (jb : job) : M W (job + unit) :=
  jobs_reap fuel;;
  emit (EvOut (b "# "));;
  r ← fgets;
  match r with
  | Eof => mret (inr tt)
  | ReadErr => emit (EvOut [LF]);; mret (inl jb)
  | Line l =>
      let '(code, jb') := parse_line tt Frame (Some (chomp l)) jb in
      if bool_decide (code ≠ PARSE_OK) then mret (inl jb')
      else
        handled ← builtin_try fuel jb';
        if (handled : bool) then mret (inl jb')
        else exec_job fuel jb';; mret (inl jb')
  end.

(** [main] up to the [break]. *)
Definition main_loop (fuel : nat) : M W unit :=
  sig_init_shell;;
  jobs_init;;
  loop fuel (main_step fuel) (zero_job tt).

Definition main (fuel : nat) : M W unit :=
  main_loop fuel;;
  emit (EvOut [LF]);;
  jobs_kill_all.

End yash.
