(* ===== verification/YashProps.v ===== *)
(** * Properties of yash

    The invariant of the shell between and inside commands, its preservation by
    every operation whatever the environment answers, and the behaviour of the
    job-control operations. *)

From S2P Require Import Prelude CString YashTypes Parse Posix JobTable Tables Redirect Launch Yash.
From stdpp Require Import base tactics list gmap strings.
From Stdlib Require Import Ascii ZArith Lia Sorted.

(** ** Log properties *)

(** The process group that owns the terminal: the last [tcsetpgrp]. *)
Fixpoint term_owner (h : history) : option Z :=
  match h with
  | [] => None
  | EvTcsetpgrp _ pg :: _ => Some pg
  | _ :: h' => term_owner h'
  end.

(** The signals whose disposition the shell changes. *)
Definition shell_signals : list signal := [SIGINT; SIGTSTP; SIGQUIT; SIGTTIN; SIGTTOU].

(** What every event of a run satisfies, given the events before it:
    - a signal is only ever sent to a process group;
    - a child runs with the default dispositions, and above the standard three
      it has the descriptors of the shell and nothing else (no pipe end);
    - the shell reads a command line only while it owns the terminal;
    - a wait is the sweep of all children, or the wait for the process group
      that owns the terminal. *)
Definition ev_ok (t0 : fdtab) (pg : Z) (before : history) (e : event) : Prop :=
  match e with
  | EvKill p _ => (p < 0)%Z
  | EvFork _ (Some (_, pr)) =>
      Forall (λ s, disposition (p_sigs pr) s = SIG_DFL) shell_signals ∧
      (∀ n, (2 < n)%Z → p_fds pr !! n = t0 !! n)
  | EvFgets _ => term_owner before = Some pg
  | EvWait p fl _ =>
      p = (-1)%Z ∧ fl = sweep_flags ∨
      (p < 0)%Z ∧ fl = fg_flags ∧ term_owner before = Some (- p)%Z
  | _ => True
  end.

Fixpoint log_ok (t0 : fdtab) (pg : Z) (h : history) : Prop :=
  match h with
  | [] => True
  | e :: h' => ev_ok t0 pg h' e ∧ log_ok t0 pg h'
  end.

(** An event that is not about the terminal. *)
Definition quiet (e : event) : bool :=
  match e with EvTcsetpgrp _ _ => false | _ => true end.

Lemma term_owner_quiet e h : quiet e = true → term_owner (e :: h) = term_owner h.
Proof. by destruct e. Qed.

(** The environment still answers: a status change or another line of input. *)
Definition alive `{Env} (h : history) : Prop :=
  (∃ p fl, e_waitpid h p fl ≠ WaitErr ECHILD) ∨ (∃ n, e_fgets h n ≠ Eof).

(** ** The invariant *)

(** [inv t0 pg o w T]: the job table of [w] is [T] and well formed, every job
    has a process group and a number that an allocation of the run paid for, the
    shell's descriptors are those it started with, and [o] owns the terminal. *)
Record inv (t0 : fdtab) (pg o : Z) (w : W) (T : table unit) : Prop := {
  i_tbl : tbl w T;
  i_ok : tbl_ok T;
  i_pgids : Forall (λ lj, (0 < pgid lj.2)%Z) T;
  i_fds : w_fds w = t0;
  i_pg : shell_pgid (w_x w) = pg ∧ (0 < pg)%Z;
  i_term : term_owner (w_log w) = Some o;
  i_log : log_ok t0 pg (w_log w);
  i_few : few_jids (w_log w) T
}.

Section inv_rules.
Context `{Env}.
Context (t0 : fdtab) (pg : Z).
Implicit Types (w : W) (j : job) (T : table unit) (t : mode) (o : Z).

Lemma inv_emit e o w T :
  inv t0 pg o w T → quiet e = true → ev_ok t0 pg (w_log w) e →
  inv t0 pg o (with_log (e :: w_log w) w) T.
Proof.
  intros [Ht Hok Hp Hf Hs Ho Hk Hj] Hq He. split; try done.
  - by eapply tbl_ext; [| |exact Ht].
  - cbn [w_log with_log]. by rewrite term_owner_quiet.
  - by apply few_jids_cons.
Qed.

Lemma inv_heap o w T h' p' T' :
  inv t0 pg o w T → tbl (with_list p' (with_heap h' w)) T' → tbl_ok T' →
  Forall (λ lj, (0 < pgid lj.2)%Z) T' → few_jids (w_log w) T' →
  inv t0 pg o (with_list p' (with_heap h' w)) T'.
Proof. intros [Ht Hok Hp Hf Hs Ho Hk _] Ht' Hok' Hp' Hj'. by split. Qed.

Lemma pgids_upd l f T `{!Benign f} :
  Forall (λ lj, (0 < pgid lj.2)%Z) T → Forall (λ lj, (0 < pgid lj.2)%Z) (upd_tbl l f T).
Proof.
  intros Hp. unfold upd_tbl. rewrite Forall_fmap. eapply Forall_impl; [exact Hp|].
  intros [k j]; simpl. case_bool_decide; simpl; rewrite ?bn_pgid; auto.
Qed.

Lemma inv_pgid o w T l j : inv t0 pg o w T → (l, j) ∈ T → (0 < pgid j)%Z.
Proof. intros Hi Hin. pose proof (i_pgids _ _ _ _ _ Hi) as Hp. rewrite Forall_forall in Hp. by apply (Hp (l, j)). Qed.

#[local] Instance inv_JobInv o : JobInv (inv t0 pg o).
Proof.
  split; [by intros w T []..|]. intros w T h' l f Hb Hi Ht' Hok'.
  change (with_heap h' w) with (with_list (w_list w) (with_heap h' w)).
  eapply inv_heap; [done|done|done|by apply pgids_upd, Hi|].
  apply few_jids_upd; [apply Hi|apply bn_jid].
Qed.

(** The world rules keep the log: each says what it is afterwards. *)
Lemma wp_update_inv t l f `{!Benign f} (Q : unit → W → Prop) o w T j :
  inv t0 pg o w T → (l, j) ∈ T →
  (∀ w', inv t0 pg o w' (upd_tbl l f T) → w_log w' = w_log w → Q tt w') →
  wp t (update l f) Q w.
Proof. intros Hi Hin HQ. eapply (ji_update (inv t0 pg o)); [apply _|done|done|]. auto. Qed.

Lemma wp_deref_inv t l (Q : job → W → Prop) o w T j :
  inv t0 pg o w T → (l, j) ∈ T → (∀ n, Q (set_next n j) w) → wp t (deref l) Q w.
Proof. apply (ji_deref (inv t0 pg o)). Qed.

Lemma wp_jobs_current t (Q : option loc → W → Prop) o w T :
  inv t0 pg o w T → Q (current T) w → wp t jobs_current Q w.
Proof. apply (ji_current (inv t0 pg o)). Qed.

Lemma wp_recent_stopped t (Q : option loc → W → Prop) o w T :
  inv t0 pg o w T → Q (fst <$> last_such stopped T) w → wp t jobs_recent_stopped Q w.
Proof. apply (ji_recent_stopped (inv t0 pg o)). Qed.

Lemma inv_nodup o w T : inv t0 pg o w T → NoDup T.*1.
Proof. apply (ji_nodup (inv t0 pg o)). Qed.

Lemma wp_emit_inv t e (Q : unit → W → Prop) o w T :
  inv t0 pg o w T → quiet e = true → ev_ok t0 pg (w_log w) e →
  (∀ w', inv t0 pg o w' T → w_log w' = e :: w_log w → Q tt w') →
  wp t (emit e) Q w.
Proof. intros Hi Hq He HQ. apply wp_emit, HQ; [by apply inv_emit|done]. Qed.

Lemma wp_waitpid_inv t p fl (Q : wait_result → W → Prop) o w T :
  inv t0 pg o w T → ev_ok t0 pg (w_log w) (EvWait p fl WaitNone) →
  (∀ r w', inv t0 pg o w' T → w_log w' = EvWait p fl r :: w_log w →
     (r = WaitNone → WNOHANG fl = true) → (r = WaitErr ECHILD ∨ alive (w_log w)) → Q r w') →
  wp t (waitpid p fl) Q w.
Proof.
  intros Hi He HQ. unfold waitpid. wp_steps. eapply wp_emit_inv; [done|done|done|].
  intros w' Hi' Hl. wp_steps. apply (HQ _ _ Hi' Hl).
  - intros Hr.
    destruct (e_waitpid _ _ _) as [| |? []]; simpl in Hr; repeat case_match; by simplify_eq.
  - destruct (e_waitpid (w_log w) p fl) as [|[]|] eqn:Hw; try (by left);
      right; left; exists p, fl; by rewrite Hw.
Qed.

Lemma wp_give_terminal t p (Q : unit → W → Prop) o w T :
  inv t0 pg o w T → (0 < p)%Z →
  (∀ w', inv t0 pg p w' T → w_log w' = EvTcsetpgrp shell_terminal p :: w_log w → Q tt w') →
  wp t (sig_give_terminal p) Q w.
Proof.
  intros [Ht Hok Hp Hf Hs Ho Hk Hj] Hpos HQ. unfold sig_give_terminal.
  rewrite bool_decide_true by done. apply wp_emit, HQ; [|done]. split; try done.
  by eapply tbl_ext; [| |exact Ht].
Qed.

(** Removing a job. *)
Lemma wp_jobs_remove t (Q : unit → W → Prop) o w T1 l j T2 :
  inv t0 pg o w (T1 ++ (l, j) :: T2) →
  (∀ w', inv t0 pg o w' (T1 ++ T2) → w_log w' = w_log w → Q tt w') →
  wp t (jobs_remove l) Q w.
Proof.
  intros Hi HQ. unfold jobs_remove. eapply wp_jobs_unlink; [apply Hi|].
  intros w1 n Hw1 Hl Ht1. wp_steps. split; [by eexists|].
  set (w2 := with_heap (delete l (w_heap w1)) w1) in *.
  assert (Hw2 : w2 = with_list (w_list w1) (with_heap (w_heap w2) w)).
  { subst w2. rewrite Hw1. unfold bypass. by destruct (last T1) as [[??]|]. }
  apply HQ; [|by rewrite Hw2]. rewrite Hw2. eapply inv_heap; [done|by rewrite <- Hw2| | |].
  - by eapply tbl_ok_remove, Hi.
  - destruct Hi as [_ _ Hp _ _ _ _ _].
    apply Forall_app in Hp as [? [??]%Forall_cons]. by apply Forall_app.
  - by eapply few_jids_remove, Hi.
Qed.

End inv_rules.

(** ** Abstract behaviour

    What the operations do, on tables: no heap, no pointers, no loops. *)

Section spec.
Implicit Types (j : job) (T : table unit).

(** A status change reported for one child of a job. *)
Definition apply_status (st : wstatus) j : job :=
  if WIFSTOPPED st then set_state JOB_STOPPED j
  else if WIFCONTINUED st then set_state JOB_RUNNING j
  else
    let j' := set_nlive (nlive j - 1) j in
    if bool_decide (nlive j' = 0)%Z then set_state JOB_DONE j' else j'.

(** The sweep's effect of one reported child: the first job that owns it. *)
Definition sweep_status T (ps : positive * wstatus) : table unit :=
  match first_pid (Zpos ps.1) T with
  | Some (l, _) => upd_tbl l (apply_status ps.2) T
  | None => T
  end.

(** The lines a sweep prints, one per finished job in table order. *)
Definition done_lines T : list event :=
  (λ lj, EvOut (job_line lj.2 (done_mark T) (b "Done"))) <$> filter is_done T.

(** The lines of the [jobs] builtin. *)
Definition jobs_lines T : list event :=
  (λ lj, EvOut (job_line lj.2
     (if bool_decide (Some lj.1 = current T) then "+"%char else "-"%char)
     (status_word lj.2))) <$> T.

(** A foreground wait over [n] live processes, as a function of the answers of
    [waitpid]: the remaining count and the state it leaves the job in.  [None]:
    these are not the answers of one complete wait. *)
Fixpoint fg_run (n : Z) (rs : list wait_result) : option (Z * job_state_t) :=
  if bool_decide (0 < n)%Z then
    match rs with
    | WaitErr EINTR :: rs' => fg_run n rs'
    | [WaitErr _] => Some (n, JOB_DONE)
    | WaitChild _ WStopped :: rs' =>
        match rs' with [] => Some (n, JOB_STOPPED) | _ => None end
    | WaitChild _ _ :: rs' => fg_run (n - 1) rs'
    | _ => None
    end
  else match rs with [] => Some (n, JOB_DONE) | _ => None end.

(** The signals sent at exit. *)
Definition kill_events T : list event :=
  (λ lj, EvKill (- pgid lj.2) SIGKILL) <$> T.

End spec.

#[export] Instance bn_apply_status st : Benign (apply_status st).
Proof.
  unfold apply_status. destruct (WIFSTOPPED st); [apply _|].
  destruct (WIFCONTINUED st); [apply _|].
  split; [intros n j|intros j|intros j|intros j|intros l j ?]; cbn; case_bool_decide;
    auto with sysprog.
Qed.

Section operations.
Context `{Env}.
Context (t0 : fdtab) (pg : Z).
Implicit Types (w : W) (j : job) (T : table unit) (t : mode) (o : Z).

(** *** jobs_reap *)

Lemma wp_reap_one t l st (Q : unit → W → Prop) o w T j :
  inv t0 pg o w T → (l, j) ∈ T →
  (∀ w', inv t0 pg o w' (upd_tbl l (apply_status st) T) → w_log w' = w_log w → Q tt w') →
  wp t (reap_one l st) Q w.
Proof.
  intros Hi Hin HQ. unfold reap_one, apply_status in *.
  destruct (WIFSTOPPED st); [by eapply wp_update_inv; [apply _|..]|].
  destruct (WIFCONTINUED st); [by eapply wp_update_inv; [apply _|..]|]. wp_steps.
  eapply wp_update_inv; [apply _|done|done|]. intros w1 Hi1 Hl1. wp_steps.
  eapply wp_deref_inv; [done|by apply upd_tbl_elem_eq|]. intros n. cbn.
  assert (Hu : ∀ j', (l, j') ∈ T → j' = j) by (intros; by eapply tbl_unique; [apply Hi|..]).
  wp_step; case_bool_decide as Hz; try done.
  - eapply wp_update_inv; [apply _|done|by apply upd_tbl_elem_eq|]. intros w2 Hi2 Hl2.
    rewrite upd_tbl_compose in Hi2. apply HQ; [|by rewrite Hl2].
    erewrite upd_tbl_ext; [exact Hi2|]. intros j' ->%Hu. cbn. by rewrite bool_decide_true.
  - apply HQ; [|done]. erewrite upd_tbl_ext; [exact Hi1|].
    intros j' ->%Hu. cbn. by rewrite bool_decide_false.
Qed.

Lemma wp_reap_sweep t fuel o w T :
  fuel_ok alive t fuel → inv t0 pg o w T →
  wp t (reap_sweep fuel)
    (λ _ w', ∃ evs r,
       inv t0 pg o w' (foldl sweep_status T evs) ∧ (∀ p st, r ≠ WaitChild p st) ∧
       w_log w' = EvWait (-1) sweep_flags r ::
         reverse ((λ ps, EvWait (-1) sweep_flags (WaitChild ps.1 ps.2)) <$> evs) ++ w_log w) w.
Proof.
  intros Hfuel Hi. unfold reap_sweep.
  apply (wp_loop_env alive _ _ (λ _ w', ∃ evs, inv t0 pg o w' (foldl sweep_status T evs) ∧
    w_log w' = reverse ((λ ps, EvWait (-1) sweep_flags (WaitChild ps.1 ps.2)) <$> evs)
               ++ w_log w)); [done| |by exists []].
  clear Hi. intros _ w1 (evs & Hi & Hl). wp_steps.
  eapply wp_waitpid_inv; [done|by left|]. intros r w2 Hi2 Hl2 _ Hal.
  destruct r as [|e|p st]; wp_steps.
  - exists evs, WaitNone. by rewrite Hl2, Hl.
  - exists evs, (WaitErr e). by rewrite Hl2, Hl.
  - assert (Hlog : w_log w2 =
      reverse ((λ ps, EvWait (-1) sweep_flags (WaitChild ps.1 ps.2)) <$> (evs ++ [(p, st)]))
        ++ w_log w).
    { rewrite Hl2, Hl, fmap_app, reverse_app. done. }
    eapply wp_jobs_find_pid; [apply Hi2|].
    assert (Hpr : progress alive (w_log w1) (w_log w2)).
    { destruct Hal as [?|Hal]; [done|]. exists (w_log w1). rewrite Hl2. simpl. split; [done|lia]. }
    assert (HT : foldl sweep_status T (evs ++ [(p, st)])
                 = sweep_status (foldl sweep_status T evs) (p, st)) by by rewrite foldl_app.
    unfold sweep_status at 2 in HT. cbn [fst snd] in HT.
    destruct (first_pid _ _) as [[l j]|] eqn:Hf; cbn [fmap option_fmap option_map fst];
      wp_steps.
    + eapply wp_reap_one; [done|by eapply first_pid_elem|]. intros w3 Hi3 Hl3. wp_steps.
      split; [exists (evs ++ [(p, st)]); by rewrite HT, Hl3|by rewrite Hl3].
    + split; [exists (evs ++ [(p, st)]); by rewrite HT|done].
Qed.

Lemma wp_print_one t l mark st (Q : unit → W → Prop) o w T j :
  inv t0 pg o w T → (l, j) ∈ T →
  (∀ w', inv t0 pg o w' T → w_log w' = EvOut (job_line j mark st) :: w_log w → Q tt w') →
  wp t (jobs_print_one l mark st) Q w.
Proof.
  intros Hi Hin HQ. unfold jobs_print_one. wp_steps.
  eapply wp_deref_inv; [done|done|]. intros n. by eapply wp_emit_inv.
Qed.

(** The invariant of the removing loop, after the entries [T1] of [T]. *)
Definition reaped o w T T1 (w' : W) : Prop :=
  ∃ T2, T = T1 ++ T2 ∧ inv t0 pg o w' (filter (λ lj, ¬ is_done lj) T1 ++ T2) ∧
    w_log w' = reverse ((λ lj, EvOut (job_line lj.2 (done_mark T) (b "Done")))
                          <$> filter is_done T1) ++ w_log w.

Lemma wp_reap_done t o w T :
  inv t0 pg o w T →
  wp t reap_done
    (λ _ w', inv t0 pg o w' (filter (λ lj, ¬ is_done lj) T) ∧
             w_log w' = reverse (done_lines T) ++ w_log w) w.
Proof.
  intros Hi. unfold reap_done.
  eapply (wp_walk_saving_tbl t T (λ T1 _ w', reaped o w T T1 w')); [apply Hi|by exists T| |].
  - intros T1 l j T2 [] w1 p HT (T2' & HT' & Hi1 & Hl1) _ Hp.
    assert (T2' = (l, j) :: T2) as -> by (rewrite HT in HT'; by apply app_inv_head in HT').
    apply chain_head in Hp. wp_steps.
    eapply wp_deref_inv; [done|apply elem_of_middle|]. intros n. wp_steps;
      [apply bool_decide_eq_true in Heqb as Hd|apply bool_decide_eq_false in Heqb as Hd].
    + eapply wp_jobs_current; [done|]. rewrite current_filter, <- HT. wp_steps.
      eapply wp_print_one; [done|apply elem_of_middle|]. intros w2 Hi2 Hl2. wp_steps.
      eapply wp_jobs_remove; [exact Hi2|]. intros w3 Hi3 Hl3. wp_steps.
      split; [|eapply chain_suffix; [apply Hi3|done]].
      exists T2. split; [by rewrite <- (assoc_L (++))|].
      rewrite !filter_snoc. rewrite decide_False by (intros Hn; by apply Hn).
      rewrite decide_True by done. rewrite app_nil_r. split; [done|].
      by rewrite Hl3, Hl2, Hl1, fmap_app, reverse_app.
    + split.
      * exists T2. split; [by rewrite <- (assoc_L (++))|].
        rewrite !filter_snoc, decide_True, decide_False by done.
        rewrite app_nil_r, <- (assoc_L (++)). done.
      * eapply (chain_suffix _ (filter (λ lj, ¬ is_done lj) T1 ++ [(l, j)])); [|done].
        rewrite <- (assoc_L (++)). apply Hi1.
  - intros [] w1 (T2 & HT & Hi1 & Hl1). assert (T2 = []) as ->.
    { rewrite <- (app_nil_r T) in HT at 1. by apply app_inv_head in HT. }
    wp_steps. by rewrite app_nil_r in Hi1.
Qed.

(** *** jobs_print, jobs_kill_all *)

Lemma wp_jobs_print t o w T :
  inv t0 pg o w T →
  wp t jobs_print
    (λ _ w', inv t0 pg o w' T ∧ w_log w' = reverse (jobs_lines T) ++ w_log w) w.
Proof.
  intros Hi. unfold jobs_print. wp_steps. eapply wp_jobs_current; [done|].
  eapply (wp_walk_tbl t T (λ T1 _ w', inv t0 pg o w' T ∧
    w_log w' = reverse ((λ lj, EvOut (job_line lj.2
     (if bool_decide (Some lj.1 = current T) then "+"%char else "-"%char)
     (status_word lj.2))) <$> T1) ++ w_log w)); [apply Hi|done| |].
  - intros T1 l j T2 [] w1 HT (Hi1 & Hl1) Hc. wp_steps.
    assert (Hin : (l, j) ∈ T) by (rewrite HT; apply elem_of_middle).
    eapply wp_deref_inv; [done|done|]. intros n. wp_steps.
    eapply wp_print_one; [done|done|]. intros w2 Hi2 Hl2. wp_steps.
    rewrite fmap_app, reverse_app, Hl2, Hl1. split; [done|].
    eapply (chain_suffix _ T1 ((l, j) :: T2)); [|done]. rewrite <- HT. apply Hi2.
  - intros [] w1 [Hi1 Hl1]. by wp_steps.
Qed.

(** The world of [jobs_kill_all] after the entries [T1] of [T]: their nodes are
    freed and the others are untouched. *)
Definition killed w T T1 (w' : W) : Prop :=
  ∃ T2 h, T = T1 ++ T2 ∧
    w' = with_log (reverse (kill_events T1) ++ w_log w) (with_heap h w) ∧
    dom h = list_to_set T2.*1 ∧ (∀ l, l ∈ T2.*1 → h !! l = w_heap w !! l).

Lemma killed_log h T1 :
  Forall (λ lj, (0 < pgid lj.2)%Z) T1 → log_ok t0 pg h →
  log_ok t0 pg (reverse (kill_events T1) ++ h) ∧
  term_owner (reverse (kill_events T1) ++ h) = term_owner h.
Proof.
  intros Hp Hh. induction T1 as [|[l j] T1 IH] using rev_ind; [done|].
  apply Forall_app in Hp as [Hp1 Hp2]. rewrite Forall_singleton in Hp2. simpl in Hp2.
  unfold kill_events in *. rewrite fmap_app, reverse_app.
  destruct (IH Hp1). split; [split; [cbn; lia|done]|done].
Qed.

Lemma wp_jobs_kill_all t o w T :
  inv t0 pg o w T →
  wp t jobs_kill_all
    (λ _ w', inv t0 pg o w' [] ∧ w_log w' = reverse (kill_events T) ++ w_log w) w.
Proof.
  intros Hi. unfold jobs_kill_all. wp_steps.
  eapply (wp_walk_saving_tbl t T (λ T1 _ w', killed w T T1 w')); [apply Hi| | |].
  - exists T, (w_heap w). destruct w. split_and!; try done. apply Hi.
  - intros T1 l j T2 [] w1 p HT (T2' & h & HT' & -> & Hd & Hh) _ Hp.
    assert (T2' = (l, j) :: T2) as -> by (rewrite HT in HT'; by apply app_inv_head in HT').
    destruct (tbl_lookup _ _ l j (i_tbl _ _ _ _ _ Hi)) as [n Hn].
    { rewrite HT. apply elem_of_middle. }
    assert (Hhl : h !! l = Some (set_next n j)) by (rewrite Hh; [done|by left]).
    assert (Hl2 : l ∉ T2.*1).
    { destruct (i_tbl _ _ _ _ _ Hi) as [[_ Hnd _] _]. rewrite HT, fmap_app in Hnd.
      apply NoDup_app in Hnd as (_ & _ & Hnd). by apply NoDup_cons in Hnd as [? _]. }
    wp_steps. eapply wp_deref; [exact Hhl|]. wp_steps. eapply wp_emit. wp_steps.
    eapply wp_free; [by eexists|]. wp_steps. wsimpl. split.
    + exists T2, (delete l h). split_and!; [by rewrite <- (assoc_L (++))| | |].
      * unfold kill_events. rewrite fmap_app, reverse_app. done.
      * rewrite dom_delete_L, Hd. simpl. set_solver.
      * intros k Hk. rewrite lookup_delete_ne by (intros ->; done). apply Hh. by right.
    + apply chain_delete_notin; [done|]. exact Hp.
  - intros [] w1 (T2 & h & HT & -> & Hd & _). assert (T2 = []) as ->.
    { rewrite <- (app_nil_r T) in HT at 1. by apply app_inv_head in HT. }
    wp_steps. split; [|done]. apply dom_empty_inv_L in Hd as ->.
    destruct Hi as [Ht Hok Hp Hf Hs Ho Hk _]. destruct (killed_log (w_log w) T Hp Hk) as [Hk' Ho'].
    split; try done; [|apply tbl_ok_nil|by wsimpl; rewrite Ho'|apply Forall_nil_2].
    split; [split|]; try done. apply NoDup_nil_2.
Qed.

(** *** jobs_wait_fg *)

Definition fg_waits j (rs : list wait_result) : history :=
  reverse (EvWait (- pgid j) fg_flags <$> rs).

(** Inside the wait: [n] processes left after the answers [rs]. *)
Definition waiting o w T l j (w' : W) : Prop :=
  ∃ rs n, inv t0 pg o w' (upd_tbl l (set_nlive n) T) ∧
    w_log w' = fg_waits j rs ++ w_log w ∧
    ∀ rs2, fg_run (nlive j) (rs ++ rs2) = fg_run n rs2.

(** After the wait. *)
Definition waited o w T l j (s : job_state_t) (w' : W) : Prop :=
  ∃ rs n, inv t0 pg o w' (upd_tbl l (λ j, set_state s (set_nlive n j)) T) ∧
    w_log w' = fg_waits j rs ++ w_log w ∧ fg_run (nlive j) rs = Some (n, s).

Lemma waiting_start o w T l j : inv t0 pg o w T → (l, j) ∈ T → waiting o w T l j w.
Proof.
  intros Hi Hin. exists [], (nlive j). split; [|done]. rewrite upd_tbl_id; [done|].
  intros j' Hin'. rewrite (tbl_unique _ _ _ _ _ (i_tbl _ _ _ _ _ Hi) Hin' Hin). by destruct j.
Qed.

(** One more answer. *)
Lemma waits_snoc j rs r h :
  EvWait (- pgid j) fg_flags r :: fg_waits j rs ++ h = fg_waits j (rs ++ [r]) ++ h.
Proof. unfold fg_waits. by rewrite fmap_app, reverse_app. Qed.

Lemma wp_jobs_wait_fg t fuel w T l j :
  fuel_ok alive t fuel → inv t0 pg (pgid j) w T → (l, j) ∈ T →
  wp t (jobs_wait_fg fuel l)
    (λ _ w', ∃ s, waited (pgid j) w T l j s w') w.
Proof.
  intros Hfuel Hi Hin. unfold jobs_wait_fg. wp_steps.
  assert (Hpos : (0 < pgid j)%Z) by by eapply inv_pgid.
  assert (Helem : ∀ n, (l, set_nlive n j) ∈ upd_tbl l (set_nlive n) T)
    by (intros; by apply upd_tbl_elem_eq).
  apply (wp_loop_env alive _ _ (λ _ w', waiting (pgid j) w T l j w'));
    [done| |by apply waiting_start].
  clear Hi. intros _ w1 (rs & n & Hi & Hl & Hrun). wp_steps.
  eapply wp_deref_inv; [done|done|]. intros m. cbn [nlive set_next set_nlive pgid].
  case_bool_decide as Hn; wp_steps.
  2:{ (* no process left *)
    eapply wp_update_inv; [apply _|done|done|]. intros w2 Hi2 Hl2.
    exists JOB_DONE, rs, n. rewrite upd_tbl_compose in Hi2. split_and!; [done|by rewrite Hl2|].
    specialize (Hrun []). rewrite app_nil_r in Hrun. rewrite Hrun. cbn.
    by rewrite bool_decide_false. }
  eapply wp_waitpid_inv; [done| |].
  { right. rewrite Z.opp_involutive. split; [lia|]. split; [done|apply Hi]. }
  intros r w2 Hi2 Hl2 Hnone Hal.
  assert (Hpr : r ≠ WaitErr ECHILD → progress alive (w_log w1) (w_log w2)).
  { intros Hr. destruct Hal as [?|Hal]; [done|]. exists (w_log w1). rewrite Hl2. simpl.
    split; [done|lia]. }
  rewrite Hl, waits_snoc in Hl2.
  destruct r as [|e|p st]; [by specialize (Hnone eq_refl)|..].
  - case_bool_decide as He; wp_steps.
    + subst e. split; [|by apply Hpr].
      exists (rs ++ [WaitErr EINTR]), n. split_and!; [done|done|]. intros rs2. rewrite <- (assoc_L (++)), Hrun. cbn. by rewrite bool_decide_true.
    + eapply wp_update_inv; [apply _|done|done|]. intros w3 Hi3 Hl3.
      rewrite upd_tbl_compose in Hi3. exists JOB_DONE, (rs ++ [WaitErr e]), n.
      split_and!; [done|by rewrite Hl3|]. rewrite Hrun. cbn. rewrite bool_decide_true by done.
      by destruct e.
  - destruct (WIFSTOPPED st) eqn:Hst; wp_steps.
    + eapply wp_update_inv; [apply _|done|done|]. intros w3 Hi3 Hl3. wp_steps.
      rewrite upd_tbl_compose in Hi3. exists JOB_STOPPED, (rs ++ [WaitChild p st]), n.
      split_and!; [done|by rewrite Hl3|]. rewrite Hrun. cbn. rewrite bool_decide_true by done.
      by destruct st.
    + eapply wp_update_inv; [apply _|done|done|]. intros w3 Hi3 Hl3. wp_steps.
      rewrite upd_tbl_compose in Hi3. split; [|rewrite Hl3; by apply Hpr].
      exists (rs ++ [WaitChild p st]), (n - 1)%Z.
      split_and!; [done|by rewrite Hl3|]. intros rs2. rewrite <- (assoc_L (++)), Hrun.
      cbn. rewrite bool_decide_true by done. by destruct st.
Qed.

(** *** The foreground sequence shared by [exec_job] and [fg] *)

Definition finish_fg (fuel : nat) (l : loc) : M W unit :=
  jobs_wait_fg fuel l;;
  x ← gets w_x;
  sig_give_terminal (shell_pgid x);;
  j ← deref l;
  when (bool_decide (state j = JOB_DONE)) (jobs_remove l).

(** The table after a foreground run of its entry [(l, j)]: removed when done,
    kept and marked when stopped. *)
Definition after_fg T1 l j T2 (n : Z) (s : job_state_t) : table unit :=
  if bool_decide (s = JOB_DONE) then T1 ++ T2
  else T1 ++ (l, set_state s (set_nlive n j)) :: T2.


Lemma wp_finish_fg t fuel w T1 l j T2 :
  fuel_ok alive t fuel → inv t0 pg (pgid j) w (T1 ++ (l, j) :: T2) →
  wp t (finish_fg fuel l)
    (λ _ w', ∃ rs n s, fg_run (nlive j) rs = Some (n, s) ∧
       inv t0 pg pg w' (after_fg T1 l j T2 n s) ∧
       w_log w' = EvTcsetpgrp shell_terminal pg :: fg_waits j rs ++ w_log w) w.
Proof.
  intros Hfuel Hi. unfold finish_fg. wp_steps.
  eapply wp_mono; [eapply wp_jobs_wait_fg; [done|done|apply elem_of_middle]|].
  intros [] w1 (s & rs & n & Hi1 & Hl1 & Hrun). wp_steps.
  rewrite upd_tbl_middle in Hi1 by by eapply inv_nodup.
  destruct (i_pg _ _ _ _ _ Hi1) as [Hpg Hpos]. rewrite Hpg.
  eapply wp_give_terminal; [done|done|]. intros w2 Hi2 Hl2. wp_steps.
  eapply wp_deref_inv; [done|apply elem_of_middle|]. intros m. cbn [state set_next set_state].
  wp_step; case_bool_decide as Hs; try done.
  - eapply wp_jobs_remove; [done|]. intros w3 Hi3 Hl3. exists rs, n, s.
    unfold after_fg. rewrite bool_decide_true by done. by rewrite Hl3, Hl2, Hl1.
  - exists rs, n, s. unfold after_fg. rewrite bool_decide_false by done. by rewrite Hl2, Hl1.
Qed.

(** *** fg and bg *)

(** What [fg] prints and signals before it waits. *)
Definition fg_events j : history :=
  (if bool_decide (state j = JOB_STOPPED) then [EvKill (- pgid j) SIGCONT] else [])
  ++ [EvTcsetpgrp shell_terminal (pgid j); EvOut (cstr (cmdline j) ++ [LF])].

Lemma wp_do_fg t fuel o w T :
  fuel_ok alive t fuel → inv t0 pg o w T →
  wp t (do_fg fuel)
    (λ _ w', match current T with
             | None => w' = w
             | Some l =>
                 ∃ T1 j T2 rs n s, T = T1 ++ (l, j) :: T2 ∧
                   fg_run (nlive j) rs = Some (n, s) ∧
                   inv t0 pg pg w' (after_fg T1 l (to_fg j) T2 n s) ∧
                   w_log w' = EvTcsetpgrp shell_terminal pg ::
                     fg_waits j rs ++ fg_events j ++ w_log w
             end) w.
Proof.
  intros Hfuel Hi. unfold do_fg. wp_steps. eapply wp_jobs_current; [done|].
  destruct (current T) as [l|] eqn:Hc; wp_steps; [|done].
  apply current_split in Hc as (T1 & j & T2 & -> & Hlive).
  assert (Hpos : (0 < pgid j)%Z) by (eapply inv_pgid; [done|apply elem_of_middle]).
  eapply wp_deref_inv; [done|apply elem_of_middle|]. intros m1. wp_steps. cbn [cmdline set_next].
  eapply wp_emit_inv; [done|done|done|]. intros w1 Hi1 Hl1. wp_steps.
  eapply wp_update_inv; [apply _|done|apply elem_of_middle|]. intros w2 Hi2 Hl2. wp_steps.
  rewrite upd_tbl_middle in Hi2 by by eapply inv_nodup.
  eapply wp_give_terminal; [done|done|]. intros w3 Hi3 Hl3. wp_steps.
  eapply wp_deref_inv; [done|apply elem_of_middle|]. intros m2. cbn [state set_next set_background pgid].
  apply wp_bind. match goal with |- wp _ _ ?Q _ => set (Q0 := Q) end.
  assert (Hgo : ∀ w4, inv t0 pg (pgid j) w4 (T1 ++ (l, set_background false j) :: T2) →
            w_log w4 = fg_events j ++ w_log w → Q0 tt w4).
  { intros w4 Hi4 Hl4. subst Q0. cbn beta. wp_steps.
    eapply wp_update_inv; [apply _|done|apply elem_of_middle|]. intros w5 Hi5 Hl5.
    rewrite upd_tbl_middle in Hi5 by by eapply inv_nodup.
    eapply wp_mono; [apply (wp_finish_fg t fuel w5 T1 l (to_fg j) T2 Hfuel Hi5)|].
    intros [] w6 (rs & n & s & Hrun & Hi6 & Hl6). exists T1, j, T2, rs, n, s.
    split_and!; try done. by rewrite Hl6, Hl5, Hl4. }
  unfold fg_events in Hgo. wp_steps; case_bool_decide as Hs; try done.
  - eapply wp_emit_inv; [done|done|cbn; lia|]. intros w4 Hi4 Hl4. apply Hgo; [done|].
    by rewrite Hl4, Hl3, Hl2, Hl1.
  - apply Hgo; [done|]. by rewrite Hl3, Hl2, Hl1.
Qed.

Lemma wp_do_bg t o w T :
  inv t0 pg o w T →
  wp t do_bg
    (λ _ w', match last_such stopped T with
             | None => w' = w
             | Some (l, j) =>
                 inv t0 pg o w' (upd_tbl l to_bg T) ∧
                 w_log w' = EvOut (job_line (to_bg j) "+"%char (b "Running"))
                   :: EvKill (- pgid j) SIGCONT :: w_log w
             end) w.
Proof.
  intros Hi. unfold do_bg. wp_steps. eapply wp_recent_stopped; [done|].
  destruct (last_such stopped T) as [[l j]|] eqn:Hc;
    cbn [fst fmap option_fmap option_map]; wp_steps; [|done].
  apply last_such_elem in Hc as [Hin _].
  assert (Hpos : (0 < pgid j)%Z) by by eapply inv_pgid.
  eapply wp_deref_inv; [done|done|]. intros m1. wp_steps. cbn [pgid set_next].
  eapply wp_emit_inv; [done|done|cbn; lia|]. intros w1 Hi1 Hl1. wp_steps.
  eapply wp_update_inv; [apply _|done|done|]. intros w2 Hi2 Hl2. wp_steps.
  eapply wp_update_inv; [apply _|done|by apply upd_tbl_elem_eq|]. intros w3 Hi3 Hl3. wp_steps.
  rewrite upd_tbl_compose in Hi3.
  eapply wp_print_one; [done|by apply (upd_tbl_elem_eq l to_bg)|]. intros w4 Hi4 Hl4.
  split; [done|]. by rewrite Hl4, Hl3, Hl2, Hl1.
Qed.

End operations.
