(* ===== verification/YashExec.v ===== *)
(** * Launching commands

    The behaviour of [exec_job] of [Project 1/yash/src/exec.c]: what each child
    becomes, what the shell does around the forks, and which job is left in the
    table. *)

From S2P Require Import Prelude CString YashTypes Parse Posix JobTable Tables Redirect Launch Yash YashProps.
From stdpp Require Import base tactics list gmap strings.
From Stdlib Require Import Ascii ZArith Lia Sorted.

(** ** The child *)

Section child.
Context `{Env}.
Implicit Types (j : job) (c : cmd_t) (p : proc) (t : fdtab).

(** The child right before its redirections. *)
Definition child_ready (i : nat) (fds : option (Z * Z)) (pg : Z) p : proc :=
  Proc (pipe_side i fds (p_fds p)) (reset_sigs shell_signals (p_sigs p)) pg (p_err p).

(** The child, from the abstract syntax of its command. *)
Definition child_spec (c : scmd) (i : nat) (fds : option (Z * Z)) (pg : Z) p
    : child_end * proc := exec_spec c (child_ready i fds pg p).

(** The events of launching the commands [cs], newest first, when the forks that
    succeed return [ps]. *)
Definition launch_events (fds : option (Z * Z)) p (cs : list scmd) (ps : list positive)
    : history :=
  launched (λ (c : scmd) i lead, child_spec c i fds lead p) [EvErr (b "fork")] 0 0 cs ps.

Lemma sig_reset_child_run p :
  sig_reset_child p = Done (tt, Proc (p_fds p) (reset_sigs shell_signals (p_sigs p)) (p_pgid p) (p_err p)).
Proof. done. Qed.

Lemma child_main_spec j i fds pg p c :
  job_wf Frame j → i < ncmds j → cmds j !! i = Some c →
  child_main j i fds pg p = Done (child_spec (abs_cmd (buf j) c) i fds pg p).
Proof.
  intros Hwf Hi Hc. unfold child_main, child_spec. rewrite Hc. cbn [default].
  unfold mbind at 1, M_bind at 1. cbn [c_setpgid modify].
  unfold mbind at 1, M_bind at 1. rewrite sig_reset_child_run. cbn [p_fds p_sigs p_pgid p_err].
  unfold mbind at 1, M_bind at 1. rewrite child_pipe_run. by eapply exec_command_spec.
Qed.

(** No child keeps a descriptor the shell did not start with. *)
Lemma child_spec_ok (c : scmd) i fds id lead p t0 pg h n :
  pipe_ok fds id t0 → p_fds p = with_pipe fds id t0 →
  ev_ok t0 pg h (EvFork (Some n) (Some (child_spec c i fds lead p))).
Proof.
  intros Hpipe Hfds. unfold child_spec.
  destruct (exec_spec _ _) as [e p'] eqn:Ha. apply exec_spec_frame in Ha as (Hs & Hf). split.
  - apply Forall_forall. intros s. rewrite Hs. apply reset_sigs_disp.
  - intros k Hk. rewrite Hf by done. cbn [child_ready p_fds].
    rewrite Hfds, pipe_side_piped by done. by apply piped_other.
Qed.

End child.

(** ** The forks *)

Lemma fork_cmds_spec `{Env} fds (j : job) w :
  job_wf Frame j →
  ∃ ps, length ps ≤ ncmds j ∧ (ps = [] → ∃ h, e_fork h = None) ∧
    fork_cmds (ncmds j) 0 fds j 0 w =
      Done ((assign_pids 0 ps j, leader 0 ps),
            with_log (launch_events fds (Proc (w_fds w) (w_sigs w) (shell_pgid (w_x w)) [])
                        (s_cmds (abs_job j)) ps ++ w_log w) w).
Proof.
  intros Hwf. unfold fork_cmds.
  destruct (fork_loop_spec (shell_pgid (w_x w)) (λ j i pg, child_main j i fds pg)
    (emit (EvErr (b "fork"))) (ncmds j) 0 j 0 w
    (λ c i lead, child_spec c i fds lead (Proc (w_fds w) (w_sigs w) (shell_pgid (w_x w)) []))
    [EvErr (b "fork")]) as (ps & Hps & Hnil & Hr); [|done|done|lia|].
  { intros. by apply child_main_spec. }
  exists ps. split_and!; [done| |exact Hr]. apply Hnil. pose proof (wf_ncmds _ _ Hwf). lia.
Qed.

(** ** exec_job *)

(** The entry [(l, j)] that [exec_job] adds for [proto] when the forks of its
    commands returned [ps]. *)
Record started (proto : job) (T : table unit) (ps : list positive) (l : loc) (j : job)
    : Prop := {
  st_wf : job_wf (Heap l) j;
  st_jid : jid j = next_jid T;
  st_pgid : pgid j = leader 0 ps;
  st_nlive : nlive j = Z.of_nat (length ps);
  st_state : state j = state proto;
  st_abs : abs_job j = abs_job proto;
  st_cmdline : cmdline j = cmdline proto;
  st_pids : pid <$> take (ncmds j) (cmds j)
            = pid <$> take (ncmds proto) (cmds (assign_pids 0 ps proto))
}.

(** The possible effects of [exec_job] on the table. *)
Inductive exec_effect `{Env} (proto : job) (T : table unit) : table unit → Prop :=
  | eff_no_pipe h : ncmds proto = 2 → e_pipe h = false → exec_effect proto T T
  | eff_no_fork h : e_fork h = None → exec_effect proto T T
  | eff_refused (ps : list positive) :
      ps ≠ [] → (length T < YASH_MAX_JOBS → ∃ h, e_malloc h = false) →
      exec_effect proto T T
  | eff_background (ps : list positive) l j :
      ps ≠ [] → length T < YASH_MAX_JOBS → started proto T ps l j →
      background proto = true → exec_effect proto T (T ++ [(l, j)])
  | eff_foreground (ps : list positive) l j rs n s :
      ps ≠ [] → length T < YASH_MAX_JOBS → started proto T ps l j →
      background proto = false → fg_run (nlive j) rs = Some (n, s) →
      exec_effect proto T (after_fg T l j [] n s).

Section exec.
Context `{Env}.
Context (t0 : fdtab) (pg : Z).
Implicit Types (w : W) (j : job) (T : table unit) (t : mode) (o : Z).

Lemma launched_ok fds id pr i lead cs ps h :
  pipe_ok fds id t0 → p_fds pr = with_pipe fds id t0 → log_ok t0 pg h →
  let evs := launched (λ (c : scmd) i lead, child_spec c i fds lead pr)
               [EvErr (b "fork")] i lead cs ps in
  log_ok t0 pg (evs ++ h) ∧ term_owner (evs ++ h) = term_owner h.
Proof.
  intros Hp Hfds. cbn zeta. revert i lead ps h.
  induction cs as [|c cs IH]; intros i lead ps h Hh; [done|].
  destruct ps as [|p ps]; [done|]. cbn [launched]. rewrite <- (assoc_L (++)). cbn [app].
  edestruct (IH (S i) (leader lead (p :: ps)) ps
    (EvSetpgid (Zpos p) (leader lead (p :: ps)) ::
     EvFork (Some p) (Some (child_spec c i fds lead pr)) :: h)) as [Hl Ht].
  - split; [done|]. split; [by eapply child_spec_ok|done].
  - split; [exact Hl|]. rewrite Ht. done.
Qed.

(** From the state in which the pipe is open to the end of [close_pipe]; [k] is
    the rest of [exec_job]. *)
Lemma wp_launch {A} t fds id (k : job → Z → M W A) (Q : A → W → Prop) w T proto :
  inv t0 pg pg (with_fds t0 w) T → w_fds w = with_pipe fds id t0 → pipe_ok fds id t0 →
  job_wf Frame proto →
  (∀ ps w', length ps ≤ ncmds proto → (ps = [] → ∃ h, e_fork h = None) →
     inv t0 pg pg w' T → (∃ evs, w_log w' = evs ++ w_log w ∧ started_only ps evs) →
     wp t (k (assign_pids 0 ps proto) (leader 0 ps)) Q w') →
  wp t ('(proto, pgj) ← fork_cmds (ncmds proto) 0 fds proto 0;
        close_pipe fds;; k proto pgj) Q w.
Proof.
  intros Hi Hf Hp Hwf HQ. apply wp_bind.
  destruct (fork_cmds_spec fds proto w Hwf) as (ps & Hps & Hne & Hrun).
  unfold wp at 1. rewrite Hrun.
  set (w1 := with_log (launch_events _ _ _ _ ++ _) w).
  assert (Hi1 : inv t0 pg pg (with_fds t0 w1) T).
  { destruct Hi as [Ht Hok Hpg Hfd Hs Ho Hk Hj].
    destruct (launched_ok fds id (Proc (w_fds w) (w_sigs w) (shell_pgid (w_x w)) [])
      0 0 (s_cmds (abs_job proto)) ps (w_log w) Hp Hf Hk) as [Hk1 Ho1].
    split; try done; [by eapply tbl_ext; [| |exact Ht]|by rewrite <- Ho|by apply few_jids_app]. }
  pose proof (close_pipe_restores _ _ _ Hp) as Hc. rewrite <- Hf in Hc.
  assert (Hev : ∀ evs, Forall passive evs →
    ∃ evs', evs ++ w_log w1 = evs' ++ w_log w ∧ started_only ps evs').
  { intros evs He. subst w1. cbn [w_log with_log]. rewrite (assoc_L (++)). eexists.
    split; [done|]. apply started_only_app; [|done]. apply launched_only; [by repeat constructor|].
    cbn. rewrite length_fmap, length_take. pose proof (wf_cmds_len _ _ Hwf).
    pose proof (wf_ncmds _ _ Hwf). lia. }
  destruct fds as [[r wr]|]; cbn [close_pipe].
  - unfold close. wp_steps. apply (HQ ps _ Hps Hne);
      [|apply (Hev [EvClose wr; EvClose r]); by repeat constructor].
    clear Hev. destruct w. cbn in Hc. subst w1. cbn in *.
    unfold with_fds, with_log in *. cbn in *. rewrite Hc.
    pose proof (inv_emit t0 pg (EvClose r) _ _ _ Hi1 eq_refl I) as Hi2.
    exact (inv_emit t0 pg (EvClose wr) _ _ _ Hi2 eq_refl I).
  - wp_steps. apply (HQ ps _ Hps Hne); [|apply (Hev []); constructor].
    clear Hev. destruct w. subst w1. cbn in *.
    unfold with_fds, with_log in *. cbn in *. by rewrite Hc in *.
Qed.

(** The table gains the started job, whose strings are its own. *)
Lemma started_job proto T ps l j :
  job_wf Frame proto → nlive proto = 0%Z →
  rebase_pointers Frame (Heap l)
    (erase (set_pgid (leader 0 ps) (assign_pids 0 ps proto))) = Some j →
  started proto T ps l (set_jid (next_jid T) j) ∧ background j = background proto.
Proof.
  intros Hwf Hlive Hj.
  set (p0 := set_pgid (leader 0 ps) (assign_pids 0 ps proto)) in *.
  assert (Hwf0 : job_wf Frame (erase p0)) by by apply wf_set_next, wf_set_pgid, assign_pids_wf.
  destruct (rebase_pointers_wf Frame (Heap l) _ Hwf0) as (j' & Hj' & Hwf' & Hsame & Habs).
  rewrite Hj in Hj'. injection Hj' as <-.
  destruct (assign_pids_same 0 ps proto) as (Hn & Hs & Hc & Hb & _).
  destruct Hsame as (Hm & _ & Hcl & _ & _ & Hpids).
  injection Hs as _ _ Hst Hbg Hnc _ _.
  injection Hm as _ Hpg Hst' Hbg' Hnc' Hnl. cbn in Hpg, Hst', Hbg', Hnc', Hnl, Hcl.
  split; [|congruence]. split; cbn [jid pgid nlive state cmdline set_jid ncmds cmds].
  - by apply wf_set_jid.
  - done.
  - done.
  - rewrite Hnl, Hn, Hlive. lia.
  - congruence.
  - transitivity (abs_job j); [done|]. rewrite Habs.
    transitivity (abs_job (assign_pids 0 ps proto)); [done|]. apply assign_pids_abs.
  - congruence.
  - rewrite Hpids. cbn. by rewrite Hnc.
Qed.

(** *** A full table *)

(** What [exec_job] has done when the table is full: the table is as before and
    the processes [ps] have been started, and no process was signalled or waited
    for.  [ps] is empty only when the pipe or the first fork failed. *)
Definition orphaned (w : W) T (proto : job) (w' : W) : Prop :=
  inv t0 pg pg w' T ∧ ∃ ps evs,
    w_log w' = evs ++ w_log w ∧ started_only ps evs ∧
    (ps = [] → (ncmds proto = 2 ∧ ∃ h, e_pipe h = false) ∨ ∃ h, e_fork h = None) ∧
    (ps ≠ [] → EvErr (b "yash: too many jobs" ++ [LF]) ∈ evs).

Lemma wp_full_tail t fuel w T proto ps :
  inv t0 pg pg w T → job_wf Frame proto → nlive proto = 0%Z → YASH_MAX_JOBS ≤ length T →
  wp t
    (if bool_decide (nlive (assign_pids 0 ps proto) = 0)%Z then mret tt
     else
       r ← jobs_add (set_pgid (leader 0 ps) (assign_pids 0 ps proto));
       match r with
       | None => emit (EvErr (b "yash: too many jobs" ++ [LF]))
       | Some l =>
           j ← deref l;
           if background j then mret tt
           else sig_give_terminal (pgid j);; finish_fg fuel l
       end)
    (λ _ w', inv t0 pg pg w' T ∧
       (ps = [] ∧ w' = w ∨ w_log w' = EvErr (b "yash: too many jobs" ++ [LF]) :: w_log w)) w.
Proof.
  intros Hi Hwf Hlive Hfull.
  destruct (assign_pids_same 0 ps proto) as (Hn & _). rewrite Hn, Hlive. case_bool_decide as Hz.
  { wp_steps. split; [done|]. left. destruct ps; [done|simpl in Hz; lia]. }
  apply wp_bind. unfold jobs_add at 1. apply wp_bind. eapply wp_jobs_count; [apply Hi|].
  rewrite bool_decide_true by done. apply wp_ret.
  eapply wp_emit_inv; [done|done|done|]. intros w1 Hi1 Hl1. split; [done|]. by right.
Qed.

Lemma wp_exec_full t fuel w T proto :
  std_open t0 → inv t0 pg pg w T → job_wf Frame proto → nlive proto = 0%Z →
  YASH_MAX_JOBS ≤ length T → wp t (exec_job fuel proto) (λ _ w', orphaned w T proto w') w.
Proof.
  intros Hstd Hi Hwf Hlive Hfull. unfold exec_job. apply wp_bind.
  assert (Hfds : w_fds w = t0) by apply Hi.
  assert (Hk : ∀ w0 fds id, w_log w0 = w_log w ∨ w_log w0 = EvPipe fds :: w_log w →
    inv t0 pg pg (with_fds t0 w0) T → w_fds w0 = with_pipe fds id t0 → pipe_ok fds id t0 →
    wp t ('(proto, pgj) ← fork_cmds (ncmds proto) 0 fds proto 0; close_pipe fds;;
          if bool_decide (nlive proto = 0)%Z then mret tt
          else
            r ← jobs_add (set_pgid pgj proto);
            match r with
            | None => emit (EvErr (b "yash: too many jobs" ++ [LF]))
            | Some l =>
                j ← deref l;
                if background j then mret tt
                else sig_give_terminal (pgid j);; finish_fg fuel l
            end) (λ _ w', orphaned w T proto w') w0).
  { intros w0 fds id Hl0 Hi0 Hf0 Hp0.
    eapply (wp_launch t fds id _ _ _ T); [done|done|done|done|].
    intros ps w' _ Hnil Hi' (evs & Hl & Hev). eapply wp_mono; [by apply wp_full_tail|].
    intros [] w2 [Hi2 Hw2]. split; [done|].
    assert (∃ evs0, w_log w' = evs0 ++ w_log w ∧ started_only ps evs0) as (evs0 & Hl' & Hev').
    { destruct Hl0 as [Hl0|Hl0]; rewrite Hl, Hl0; [by exists evs|].
      exists (evs ++ [EvPipe fds]). rewrite <- (assoc_L (++)). split; [done|].
      destruct Hev as [Hev1 Hev2]. split; [apply Forall_app; split; [done|by repeat constructor]|].
      intros p Hp. destruct (Hev2 p Hp) as [img ?]. exists img. set_solver. }
    destruct Hw2 as [[-> ->]|Hl2].
    - exists [], evs0. split_and!; [done|done|by right; auto|done].
    - exists ps, (EvErr (b "yash: too many jobs" ++ [LF]) :: evs0). split_and!; [by rewrite Hl2, Hl'| | |].
      + apply (started_only_app ps [_] evs0); [done|by repeat constructor].
      + intros Hps. right. auto.
      + intros _. by left. }
  case_bool_decide as H2; [apply wp_bind|apply wp_ret; cbv beta iota].
  - unfold wp at 1. destruct (pipe_run w) as [[He ->]|(fds & Hp & ->)]; [by rewrite Hfds|..].
    + assert (Hi0 := inv_emit t0 pg (EvPipe None) _ _ _ Hi eq_refl I). wp_steps.
      eapply wp_emit_inv; [done|done|done|]. intros w1 Hi1 Hl1. split; [done|].
      exists [], [EvErr (b "pipe"); EvPipe None]. rewrite Hl1. split_and!; [done| | |done].
      * split; [by repeat constructor|]. by intros p ?%elem_of_nil.
      * intros _. left. eauto.
    + rewrite Hfds in Hp |- *. apply wp_ret. cbv beta iota.
      apply (Hk _ (Some fds) (Some (w_pipes w))); [by right| |done|done].
      assert (Hi0 := inv_emit t0 pg (EvPipe (Some fds)) _ _ _ Hi eq_refl I).
      destruct Hi0 as [Ht Hok Hpg Hfd Hs Ho Hk0 Hj]. split; try done.
      by eapply tbl_ext; [| |exact Ht].
  - apply (Hk w None None); [by left| |done|done].
    destruct w; cbn in *; unfold with_fds; cbn. by rewrite <- Hfds at 2.
Qed.

(** *** Recording the job *)

Context `{!FewAllocs}.

Lemma inv_added w T l j h' p' :
  inv t0 pg pg w T → (length T < YASH_MAX_JOBS) → e_malloc (w_log w) = true →
  job_wf (Heap l) j → jid j = next_jid T → (0 < pgid j)%Z →
  tbl (with_list p' (with_heap h' (after_malloc w))) (T ++ [(l, j)]) →
  inv t0 pg pg (with_list p' (with_heap h' (after_malloc w))) (T ++ [(l, j)]).
Proof.
  intros Hi Hlt Hm Hwf Hjid Hpos Ht'.
  eapply (inv_heap t0 pg pg (after_malloc w) T); [by apply inv_emit|done| | |].
  - apply tbl_ok_add; [apply Hi|done..|]. eapply few_jids_fits; [apply Hi|done].
  - apply Forall_app. split; [apply Hi|]. by rewrite Forall_singleton.
  - apply few_jids_add; [apply Hi|done].
Qed.

(** From [jobs_add] on. *)
Lemma wp_exec_tail t fuel w T proto ps :
  fuel_ok alive t fuel → inv t0 pg pg w T → job_wf Frame proto → nlive proto = 0%Z →
  (ps = [] → ∃ h, e_fork h = None) →
  wp t
    (if bool_decide (nlive (assign_pids 0 ps proto) = 0)%Z then mret tt
     else
       r ← jobs_add (set_pgid (leader 0 ps) (assign_pids 0 ps proto));
       match r with
       | None => emit (EvErr (b "yash: too many jobs" ++ [LF]))
       | Some l =>
           j ← deref l;
           if background j then mret tt
           else sig_give_terminal (pgid j);; finish_fg fuel l
       end)
    (λ _ w', ∃ T', inv t0 pg pg w' T' ∧ exec_effect proto T T' ∧
                   length (w_log w) ≤ length (w_log w')) w.
Proof.
  intros Hfuel Hi Hwf Hlive Hnil.
  assert (Hn : nlive (assign_pids 0 ps proto) = Z.of_nat (length ps)).
  { destruct (assign_pids_same 0 ps proto) as (-> & _). lia. }
  rewrite Hn. case_bool_decide as Hz.
  { destruct ps; [|simpl in Hz; lia]. wp_steps. destruct (Hnil eq_refl) as [h Hh].
    exists T. split; [done|]. split; [by eapply eff_no_fork|done]. }
  assert (Hps : ps ≠ []) by (intros ->; done).
  apply wp_bind. eapply wp_jobs_add; [apply Hi| |eapply few_jids_fits, Hi| | |].
  - intros l. edestruct (rebase_pointers_wf (E := unit) Frame (Heap l)) as (j' & Hj' & _);
      [|by exists j'].
    by apply wf_set_next, wf_set_pgid, assign_pids_wf.
  - intros Hfull. eapply wp_emit_inv; [done|done|done|]. intros w1 Hi1 Hl1. exists T.
    split; [done|]. split; [apply (eff_refused _ _ ps Hps); lia|rewrite Hl1; simpl; lia].
  - intros Hlt Hm. assert (Hi0 := inv_emit t0 pg (EvMalloc false) _ _ _ Hi eq_refl I).
    eapply wp_emit_inv; [done|done|done|]. intros w1 Hi1 Hl1. exists T.
    split; [done|]. split; [apply (eff_refused _ _ ps Hps); eauto|rewrite Hl1; simpl; lia].
  - intros l j h' p' Hlt Hm Hl Hj Ht'.
    destruct (started_job proto T ps l j Hwf Hlive Hj) as [Hst Hbg].
    set (j1 := set_jid (next_jid T) j) in *.
    assert (Hpos : (0 < pgid j1)%Z).
    { rewrite (st_pgid _ _ _ _ _ Hst). by apply leader_pos. }
    assert (Hi1 := inv_added w T l j1 h' p' Hi Hlt Hm (st_wf _ _ _ _ _ Hst)
      (st_jid _ _ _ _ _ Hst) Hpos Ht').
    apply wp_bind. eapply wp_deref_inv; [done|apply elem_of_middle|]. intros n.
    change (background (set_next n j1)) with (background j). rewrite Hbg.
    destruct (background proto) eqn:Hb; wp_steps.
    { exists (T ++ [(l, j1)]). split; [done|]. split; [by eapply eff_background|cbn; lia]. }
    eapply wp_give_terminal; [done|done|]. intros w2 Hi2 Hl2.
    eapply wp_mono; [apply (wp_finish_fg t0 pg t fuel w2 T l j1 [] Hfuel Hi2)|].
    intros [] w3 (rs & k & s & Hrun & Hi3 & Hl3). eexists. split; [exact Hi3|].
    split; [by eapply eff_foreground|]. rewrite Hl3, Hl2. simpl. rewrite length_app. simpl. lia.
Qed.

Lemma wp_exec_job t fuel w T proto :
  fuel_ok alive t fuel → std_open t0 → inv t0 pg pg w T → job_wf Frame proto → nlive proto = 0%Z →
  wp t (exec_job fuel proto)
    (λ _ w', ∃ T', inv t0 pg pg w' T' ∧ exec_effect proto T T' ∧
                   length (w_log w) ≤ length (w_log w')) w.
Proof.
  intros Hfuel Hstd Hi Hwf Hlive. unfold exec_job. apply wp_bind.
  assert (Hfds : w_fds w = t0) by apply Hi.
  case_bool_decide as H2; [apply wp_bind|apply wp_ret; cbv beta iota].
  - unfold wp at 1. destruct (pipe_run w) as [[He ->]|(fds & Hp & ->)]; [by rewrite Hfds|..].
    + assert (Hi0 := inv_emit t0 pg (EvPipe None) _ _ _ Hi eq_refl I). wp_steps.
      eapply wp_emit_inv; [done|done|done|]. intros w1 Hi1 Hl1. exists T.
      split; [done|]. split; [by eapply eff_no_pipe|rewrite Hl1; simpl; lia].
    + rewrite Hfds in Hp |- *. apply wp_ret. cbv beta iota.
      eapply (wp_launch t (Some fds) (Some (w_pipes w)) _ _ _ T); [|done|done|done|].
      2:{ intros ps w' _ Hnil Hi' Hl. eapply wp_mono; [by apply wp_exec_tail|].
          intros [] w2 (T' & ? & ? & ?). exists T'. split_and!; [done|done|].
          destruct Hl as (evs & Hl & _). rewrite Hl, length_app in *. cbn in *. lia. }
      assert (Hi0 := inv_emit t0 pg (EvPipe (Some fds)) _ _ _ Hi eq_refl I).
      destruct Hi0 as [Ht Hok Hpg Hfd Hs Ho Hk Hj]. split; try done.
      by eapply tbl_ext; [| |exact Ht].
  - eapply (wp_launch t None None _ _ _ T); [|done|done|done|].
    2:{ intros ps w' _ Hnil Hi' Hl. eapply wp_mono; [by apply wp_exec_tail|].
        intros [] w2 (T' & ? & ? & ?). exists T'. split_and!; [done|done|].
        destruct Hl as (evs & Hl & _). rewrite Hl, length_app in *. lia. }
    destruct w; cbn in *; unfold with_fds; cbn. by rewrite <- Hfds at 2.
Qed.

End exec.
