(* ===== verification/YashMain.v ===== *)
(** * The theorems about yash

    The read loop of [Project 1/yash/src/main.c] keeps the invariant whatever the
    kernel, the terminal and the children do, and ends when they do; the
    properties of the shell's operations, each about the translated code. *)

From S2P Require Import Prelude CString YashTypes Parse Posix JobTable Tables Redirect Launch Yash YashProps YashExec.
From stdpp Require Import base tactics list gmap strings.
From Stdlib Require Import Ascii ZArith Lia Sorted.

Section main.
Context `{FewAllocs}.
Context (t0 : fdtab) (pg : Z).
Implicit Types (w : W) (j : job) (T : table unit) (t : mode) (o : Z).

(** *** jobs_reap *)

Lemma wp_jobs_reap t fuel o w T :
  fuel_ok alive t fuel → inv t0 pg o w T →
  wp t (jobs_reap fuel)
    (λ _ w', ∃ evs r, let T1 := foldl sweep_status T evs in
       inv t0 pg o w' (filter (λ lj, ¬ is_done lj) T1) ∧ (∀ p st, r ≠ WaitChild p st) ∧
       w_log w' = reverse (done_lines T1) ++ EvWait (-1) sweep_flags r ::
         reverse ((λ ps, EvWait (-1) sweep_flags (WaitChild ps.1 ps.2)) <$> evs) ++ w_log w) w.
Proof.
  intros Hfuel Hi. unfold jobs_reap. apply wp_bind.
  eapply wp_mono; [by apply wp_reap_sweep|]. intros [] w1 (evs & r & Hi1 & Hr & Hl1).
  eapply wp_mono; [by apply wp_reap_done|]. intros [] w2 [Hi2 Hl2].
  exists evs, r. split_and!; [done|done|]. by rewrite Hl2, Hl1.
Qed.

(** *** builtin_try *)

Lemma wp_builtin_try t fuel w T j :
  fuel_ok alive t fuel → inv t0 pg pg w T → job_wf Frame j →
  wp t (builtin_try fuel j)
    (λ _ w', ∃ T', inv t0 pg pg w' T' ∧ length (w_log w) ≤ length (w_log w')) w.
Proof.
  intros Hfuel Hi Hwf. unfold builtin_try.
  destruct (_ || _) eqn:Hg; [apply wp_ret; eauto|].
  apply orb_false_elim in Hg as [H1 H2].
  apply bool_decide_eq_false, dec_stable in H1. apply bool_decide_eq_false in H2.
  destruct (cmds j) as [|c cs] eqn:Hcs; [pose proof (wf_cmds_len _ _ Hwf) as Hl; by rewrite Hcs in Hl|].
  cbn in H2 |- *. apply wp_bind.
  assert (Hc : cmd_wf Frame c).
  { pose proof (wf_cmds _ _ Hwf) as Hf. rewrite Hcs, H1 in Hf. by apply Forall_cons in Hf as [? _]. }
  destruct Hc as [Hlen _ Ha _ _ _ _].
  destruct (argv c) as [|a l]; [simpl in Hlen; lia|]. destruct (argc c) as [|n]; [done|].
  cbn in Ha |- *. apply Forall_cons in Ha as [[Hne Hok] _]. destruct a as [q|]; [|done].
  eapply wp_assume_some; [cbn; by rewrite bool_decide_true by apply Hok|].
  set (name := str_at _ _).
  destruct (streq name (b "jobs")); [|destruct (streq name (b "fg"));
    [|destruct (streq name (b "bg"))]]; try (apply wp_bind).
  - eapply wp_mono; [by apply wp_jobs_print|]. intros [] w1 [Hi1 Hl1]. wp_steps.
    exists T. split; [done|]. rewrite Hl1, length_app. lia.
  - eapply wp_mono; [by eapply wp_do_fg|]. intros [] w1 HQ. wp_steps.
    destruct (current T) as [k|]; [|subst; eauto].
    destruct HQ as (T1 & jj & T2 & rs & m & s & _ & _ & Hi1 & Hl1). eexists.
    split; [exact Hi1|]. rewrite Hl1. cbn. rewrite !length_app. lia.
  - eapply wp_mono; [by eapply wp_do_bg|]. intros [] w1 HQ. wp_steps.
    destruct (last_such stopped T) as [[k jj]|]; [|subst; eauto].
    destruct HQ as [Hi1 Hl1]. eexists. split; [exact Hi1|]. rewrite Hl1. cbn. lia.
  - wp_steps. eauto.
Qed.

(** *** One turn of the read loop *)

Definition at_prompt w : Prop := ∃ T, inv t0 pg pg w T.

Lemma wp_main_step t fuel jb w :
  fuel_ok alive t fuel → std_open t0 → at_prompt w →
  wp t (main_step fuel jb)
    (λ r w', at_prompt w' ∧
       match r with inl _ => progress alive (w_log w) (w_log w') | inr _ => True end) w.
Proof.
  intros Hfuel Hstd [T Hi]. unfold main_step. apply wp_bind.
  eapply wp_mono; [by eapply wp_jobs_reap|]. intros [] w1 (evs & r & Hi1 & _ & Hl1).
  apply wp_bind. eapply wp_emit_inv; [done|done|done|]. intros w2 Hi2 Hl2.
  apply wp_bind. unfold fgets. wp_steps.
  eapply wp_emit_inv; [done|done|apply Hi2|]. intros w3 Hi3 Hl3. apply wp_ret.
  assert (Hlen : length (w_log w) ≤ length (w_log w2)).
  { rewrite Hl2, Hl1. cbn. rewrite length_app. cbn. rewrite length_app. lia. }
  assert (Hpr : ∀ w', e_fgets (w_log w2) (YASH_MAX_LINE + 1) ≠ Eof →
            length (w_log w3) ≤ length (w_log w') → progress alive (w_log w) (w_log w')).
  { intros w' Hne Hw'. exists (w_log w2). split; [right; by eexists|].
    rewrite Hl3 in Hw'. simpl in Hw'. lia. }
  destruct (e_fgets _ _) as [line| |] eqn:Hf.
  - match goal with |- context [parse_line tt Frame ?x ?y] =>
      destruct (parse_line tt Frame x y) as [code jb'] eqn:Hp end. case_bool_decide as Hcode.
    { wp_steps. split; [by eexists|]. by apply Hpr. }
    subst code. apply parse_line_parsed in Hp as [Hwf _ _ (_ & _ & Hn & _)].
    apply wp_bind. eapply wp_mono; [by eapply wp_builtin_try|].
    intros [] w4 (T' & Hi4 & Hl4).
    { wp_steps. split; [by eexists|]. by apply Hpr. }
    apply wp_bind. eapply wp_mono; [by eapply wp_exec_job|].
    intros [] w5 (T'' & Hi5 & _ & Hl5). wp_steps. split; [by eexists|]. apply Hpr; [done|lia].
  - wp_steps. split; [by eexists|done].
  - wp_steps. eapply wp_emit_inv; [done|done|done|]. intros w4 Hi4 Hl4. wp_steps.
    split; [by eexists|]. apply Hpr; [done|]. rewrite Hl4. simpl. lia.
Qed.

End main.

(** *** The whole program *)

(** The state in which [main] is entered: no job allocated, the standard
    descriptors open, nothing done yet. *)
Record initial (w : W) : Prop := {
  in_heap : w_heap w = ∅;
  in_fds : std_open (w_fds w);
  in_log : w_log w = []
}.

(** The state after [main]: nothing is allocated, the descriptors are those of
    the start, the log satisfies [log_ok], and the last events kill the process
    group of every job of [T], which is the job table of the state [w1] in which
    the read loop ended: [inv] holds of [w1] and [T], so the heap of [w1] is the
    list of the jobs of [T] and nothing else. *)
Definition main_post `{Env} (fuel : nat) (w w' : W) : Prop :=
  let pg := Zpos e_getpid in
  ∃ w1 T, main_loop fuel w = Done (tt, w1) ∧ inv (w_fds w) pg pg w1 T ∧
    inv (w_fds w) pg pg w' [] ∧
    w_log w' = reverse (kill_events T) ++ EvOut [LF] :: w_log w1.

Lemma wp_main_loop `{FewAllocs} t fuel w :
  fuel_ok alive t fuel → initial w →
  wp t (main_loop fuel) (λ _ w1, at_prompt (w_fds w) (Zpos e_getpid) w1) w.
Proof.
  intros Hfuel [Hh Hstd Hlog]. unfold main_loop.
  set (pg := Zpos e_getpid).
  unfold sig_init_shell, jobs_init, set_handler, emit. wp_steps. fold pg.
  match goal with |- context [with_list None ?x] => set (w1 := with_list None x) end.
  assert (Hi : inv (w_fds w) pg pg w1 []).
  { subst w1. split; cbn; rewrite ?Hh, ?Hlog; try done; [|apply tbl_ok_nil|apply Forall_nil_2].
    split; [split|]; cbn; rewrite ?Hh; try done. apply NoDup_nil_2. }
  eapply (wp_loop_env alive t fuel (λ _ w', at_prompt (w_fds w) pg w')); [done| |by eexists].
  intros jb w2 Hp. eapply wp_mono; [by apply (wp_main_step (w_fds w) pg)|].
  intros [jb'|[]] w3 [Hp3 Hpr]; [by split|done].
Qed.

Lemma wp_main `{FewAllocs} t fuel w :
  fuel_ok alive t fuel → initial w → wp t (main fuel) (λ _ w', main_post fuel w w') w.
Proof.
  intros Hfuel Hin. unfold main. apply wp_bind.
  pose proof (wp_main_loop t fuel w Hfuel Hin) as Hloop. unfold wp at 1. unfold wp in Hloop.
  destruct (main_loop fuel w) as [[[] w1]| |] eqn:Hrun; [|done|done].
  destruct Hloop as [T Hi]. apply wp_bind, wp_emit.
  pose proof (inv_emit _ _ (EvOut [LF]) _ _ _ Hi eq_refl I) as Hi1.
  eapply wp_mono; [by eapply wp_jobs_kill_all|]. intros [] w2 [Hi2 Hl2].
  exists w1, T. by split_and!.
Qed.

(** ** The properties of yash *)

(** C1 (safety): whatever the kernel, the terminal and the children answer, and
    however long the shell runs, as long as at most [INT_MAX] jobs were ever
    started, it has no undefined behaviour (no null, dangling or foreign pointer,
    no double free, no overflow of a job number), and when it returns nothing is
    allocated, its descriptors are those it started with, the process group of
    every job that was in its table when the read loop ended has been sent
    SIGKILL, in table order and nothing else after the final newline, and the whole log satisfies [log_ok]: signals only go
    to process groups, children start with default dispositions and without any
    pipe descriptor, lines are only read while the shell owns the terminal and a
    foreground wait is always for the group that owns it. *)
Theorem yash_safe `{FewAllocs} fuel w :
  initial w → main fuel w ≠ Undef ∧ ∀ w', main fuel w = Done (tt, w') → main_post fuel w w'.
Proof.
  intros Hi. assert (Hwp : wp Partial (main fuel) (λ _ w', main_post fuel w w') w).
  { by apply wp_main. }
  split; [by eapply wp_no_undef|]. intros w' Hr. by eapply wp_run in Hwp.
Qed.

Definition start : W := empty_world (Shell 0).

Lemma start_initial : initial start.
Proof.
  split; [done| |done]. unfold std_open. cbn.
  split_and!; apply (bool_decide_unpack _); vm_compute; done.
Qed.

(** Input: [n] lines [sleep 9 &], then end of file; no child ever changes. *)
Definition forks (h : history) : nat :=
  length (List.filter (λ e, match e with EvFork (Some _) _ => true | _ => false end) h).
Definition kills (h : history) : nat :=
  length (List.filter (λ e, match e with EvKill _ SIGKILL => true | _ => false end) h).
Definition reads (h : history) : nat :=
  length (List.filter (λ e, match e with EvFgets _ => true | _ => false end) h).

Definition sleepers (n : nat) : Env := {|
  e_waitpid _ _ _ := WaitErr ECHILD;
  e_getpid := 7;
  e_fork h := Some (Pos.of_succ_nat (100 + forks h));
  e_pipe _ := true;
  e_malloc h := bool_decide (mallocs h < INT_MAX)%Z;
  e_fgets h _ := if bool_decide (reads h < n) then Line (b "sleep 9 &" ++ [LF]) else Eof;
  e_write _ _ l := RwOk (length l);
  e_read _ _ _ := ReadBytes [];
  e_select _ _ := true;
  e_now _ := None;
  e_open _ _ _ := true;
  e_exec _ := true
|}.

Lemma sleepers_few n : FewAllocs (H := sleepers n).
Proof. intros h Hh. by apply bool_decide_eq_true in Hh. Qed.

(** Three jobs are left at the end of the input: three groups are killed. *)
Lemma yash_safe_witness : ∃ w', main (H := sleepers 3) 9 start = Done (tt, w') ∧
  kills (w_log w') = 3 ∧ main_post (H := sleepers 3) 9 start w'.
Proof.
  destruct (yash_safe (H := sleepers 3) (H0 := sleepers_few 3) 9 start start_initial) as [_ Hpost].
  assert (Hk : match main (H := sleepers 3) 9 start with
               | Done (_, w) => kills (w_log w) | _ => 0 end = 3) by (vm_compute; reflexivity).
  destruct (main (H := sleepers 3) 9 start) as [[[] w']| |]; [|discriminate Hk..].
  exists w'. split; [done|]. split; [exact Hk|]. exact (Hpost w' eq_refl).
Defined.

(** C10 (liveness): if from some point of the history on the input has ended and
    no child is left, then [main], in a run of at most [INT_MAX] jobs, returns: a fuel above that point is enough for
    every loop of the shell, and the final state is the one of [main_post]. *)
Theorem yash_terminates `{FewAllocs} fuel B w :
  initial w →
  (∀ h, B ≤ length h →
     (∀ p fl, e_waitpid h p fl = WaitErr ECHILD) ∧ (∀ n, e_fgets h n = Eof)) →
  B < fuel →
  ∃ w', main fuel w = Done (tt, w') ∧ main_post fuel w w'.
Proof.
  intros Hi Hend HB. destruct (wp_total_run _ _ _ (wp_main Full fuel w
    ltac:(intros _; exists B; split; [done|]; intros h Hh [(p & fl & Hw)|[n Hn]];
          destruct (Hend h Hh) as [H1 H2]; auto) Hi)) as ([] & w' & Hr & Hp).
  by exists w'.
Qed.

Lemma yash_terminates_witness :
  ∃ w', main (H := calm_env) 1 start = Done (tt, w') ∧ main_post (H := calm_env) 1 start w'.
Proof.
  apply (yash_terminates (H := calm_env) (H0 := calm_few) 1 0 start start_initial); [done|lia].
Defined.

(** A sweep of [jobs_reap] applies the reported status changes
    in order, each to the first job that owns the child, then prints exactly one
    [Done] line per finished job, in table order, and removes exactly those jobs;
    the mark is [-] when a running or stopped job is left and [+] otherwise. *)
Theorem jobs_reap_sweeps `{Env} t0 pg o fuel w T :
  inv t0 pg o w T →
  jobs_reap fuel w ≠ Undef ∧
  ∀ w', jobs_reap fuel w = Done (tt, w') →
    ∃ evs r, (∀ p st, r ≠ WaitChild p st) ∧
      inv t0 pg o w' (filter (λ lj, ¬ is_done lj) (foldl sweep_status T evs)) ∧
      w_log w' = reverse (done_lines (foldl sweep_status T evs))
        ++ EvWait (-1) sweep_flags r
        :: reverse ((λ ps, EvWait (-1) sweep_flags (WaitChild ps.1 ps.2)) <$> evs)
        ++ w_log w.
Proof.
  intros Hi. pose proof (wp_jobs_reap t0 pg Partial fuel o w T ltac:(done) Hi) as Hwp.
  split; [by eapply wp_no_undef|]. intros w' Hr.
  apply (wp_run _ _ _ _ _ _ Hwp) in Hr as (evs & r & ? & ? & ?). by exists evs, r.
Qed.

(** A state with one job [j] in the table, for the witnesses. *)
Definition std_fds : fdtab := {[0%Z := OTty; 1%Z := OTty; 2%Z := OTty]}.

Definition single (j : job) : W :=
  World {[1%positive := j]} (Some 1%positive) std_fds ∅ 0 [EvTcsetpgrp 0 7; EvMalloc true] (Shell 7).

Lemma single_inv j :
  job_wf (Heap 1) j → jid j = 1%Z → (0 < pgid j)%Z → next j = None →
  inv std_fds 7 7 (single j) [(1%positive, j)].
Proof.
  intros Hwf Hjid Hpg Hn. split; try done.
  - split; [split|]; cbn [single w_heap w_list fmap list_fmap fst].
    + split; [done|]. exists j. by rewrite lookup_singleton_eq.
    + apply NoDup_singleton.
    + rewrite dom_singleton_L. cbn. by rewrite union_empty_r_L.
    + rewrite Forall_singleton. cbn [fst snd]. rewrite lookup_singleton_eq.
      unfold erase. rewrite <- Hn. cbn. by rewrite set_next_id.
  - split.
    + cbn [length]. limits.
    + apply SSorted_cons; [apply SSorted_nil|apply Forall_nil_2].
    + rewrite Forall_singleton. cbn. rewrite Hjid. unfold INT_MAX. lia.
    + by rewrite Forall_singleton.
  - by rewrite Forall_singleton.
  - unfold few_jids. rewrite Forall_singleton. cbn. lia.
Qed.

(** The job [sort -r < in > out 2> err &] as job 1 in the group 100. *)
Definition bg_job (s : job_state_t) : job :=
  set_state s (set_nlive 1 (set_pgid 100 (set_jid 1
    (default (zero_job tt) (rebase_pointers Frame (Heap 1) (erase (sample_job tt))))))).

Lemma bg_job_inv s : inv std_fds 7 7 (single (bg_job s)) [(1%positive, bg_job s)].
Proof.
  destruct (rebase_pointers_wf Frame (Heap 1) (erase (sample_job tt)))
    as (j & Hj & Hwf & (_ & _ & _ & _ & Hn & _) & _); [by apply wf_set_next, sample_job_wf|].
  unfold bg_job. rewrite Hj. cbn [default]. apply single_inv; cbn; try lia; [|done].
  by apply wf_set_state, wf_set_nlive, wf_set_pgid, wf_set_jid.
Qed.

Lemma jobs_reap_sweeps_witness :
  ∃ w', jobs_reap (H := calm_env) 2 (single (bg_job JOB_DONE)) = Done (tt, w') ∧
    ∃ T, inv std_fds 7 7 w' T.
Proof.
  destruct (jobs_reap_sweeps (H := calm_env) _ _ _ 2 _ _ (bg_job_inv JOB_DONE)) as [_ Hp].
  destruct (jobs_reap (H := calm_env) 2 (single (bg_job JOB_DONE))) as [[[] w']| |] eqn:Hr;
    [|vm_compute in Hr; discriminate..].
  exists w'. split; [done|]. destruct (Hp w' eq_refl) as (evs & r & _ & Hi & _). eauto.
Defined.

(** C14 (functional): [exec_job] leaves the shell's descriptors as they were and
    the terminal with the shell, and its effect on the table is one of: nothing
    (the pipe or the first fork failed, or the table refused the job), the job
    appended and left running (background), or the outcome of the foreground
    wait: the job removed when it is done, kept as stopped when it stopped. *)
Theorem exec_job_effect `{FewAllocs} t0 pg fuel w T proto :
  std_open t0 → inv t0 pg pg w T → job_wf Frame proto → nlive proto = 0%Z →
  exec_job fuel proto w ≠ Undef ∧
  ∀ w', exec_job fuel proto w = Done (tt, w') →
    ∃ T', inv t0 pg pg w' T' ∧ exec_effect proto T T'.
Proof.
  intros Hstd Hi Hwf Hn.
  pose proof (wp_exec_job t0 pg Partial fuel w T proto ltac:(done) Hstd Hi Hwf Hn) as Hwp.
  split; [by eapply wp_no_undef|]. intros w' Hr.
  apply (wp_run _ _ _ _ _ _ Hwp) in Hr as (T' & ? & ? & _). by exists T'.
Qed.

Lemma std_fds_open : std_open std_fds.
Proof. unfold std_open. split_and!; apply (bool_decide_unpack _); vm_compute; done. Qed.

Lemma sample_job_nlive : nlive (sample_job tt) = 0%Z.
Proof. vm_compute. reflexivity. Qed.

Lemma exec_job_effect_witness :
  ∃ w', exec_job (H := calm_env) 1 (sample_job tt) (single (bg_job JOB_STOPPED)) = Done (tt, w') ∧
    ∃ T', inv std_fds 7 7 w' T' ∧
      exec_effect (H := calm_env) (sample_job tt) [(1%positive, bg_job JOB_STOPPED)] T'.
Proof.
  destruct (exec_job_effect (H := calm_env) (H0 := calm_few) std_fds 7 1 _ _ _ std_fds_open
    (bg_job_inv JOB_STOPPED) (sample_job_wf tt) sample_job_nlive) as [_ Hp].
  destruct (exec_job (H := calm_env) 1 (sample_job tt) (single (bg_job JOB_STOPPED)))
    as [[[] w']| |] eqn:Hr; [|vm_compute in Hr; discriminate..].
  exists w'. split; [done|]. exact (Hp w' eq_refl).
Defined.

(** C13 (functional): the child of command [i] joins the given process group,
    resets the five signals of the shell to their default, and then either
    executes exactly the words of the command with its redirections applied on
    top of its pipe end, having no other descriptor than the shell's, or exits
    with 127 (no such program) or 1 (a redirection failed, reported on its
    standard error). *)
Theorem child_runs_command `{Env} (j : job) i c fds id pg t0 p :
  job_wf Frame j → i < ncmds j → cmds j !! i = Some c →
  pipe_ok fds id t0 → p_fds p = with_pipe fds id t0 →
  let a := abs_cmd (buf j) c in
  ∃ e p', child_main j i fds pg p = Done (e, p') ∧ p_pgid p' = pg ∧
    Forall (λ s, disposition (p_sigs p') s = SIG_DFL) shell_signals ∧
    child_result a (piped i id t0) p e p'.
Proof.
  intros Hwf Hi Hc Hpipe Hfds. destruct (job_cmd _ _ _ _ Hwf Hi Hc) as [Hcw Hne].
  destruct (abs_head (buf j) _ _ Hcw Hne) as [file Hfile].
  rewrite (child_main_spec j i fds pg p c Hwf Hi Hc). unfold child_spec.
  pose proof (exec_spec_result _ (child_ready i fds pg p) file Hfile) as Hr.
  destruct (exec_spec _ _) as [e p']. destruct Hr as (Hs & Hg & Hr). exists e, p'.
  split_and!; [done|done| |].
  - apply Forall_forall. intros s. rewrite Hs. apply reset_sigs_disp.
  - cbn [child_ready p_fds] in Hr. rewrite Hfds, pipe_side_piped in Hr by done. exact Hr.
Qed.

Lemma child_runs_command_witness :
  ∃ e p', child_main (H := calm_env) (sample_job tt) 0 None 0 (Proc std_fds ∅ 7 []) = Done (e, p') ∧
    e = Exec (b "sort") [b "sort"; b "-r"] ∧
    p_fds p' = redirected (Some (b "in")) (Some (b "out")) (Some (b "err")) std_fds.
Proof.
  destruct (child_runs_command (H := calm_env) (sample_job tt) 0
    (default zero_cmd (cmds (sample_job tt) !! 0)) None None 0 std_fds (Proc std_fds ∅ 7 [])
    (sample_job_wf tt)) as (e & p' & Hr & _ & _ & Hcase);
    [vm_compute; lia|vm_compute; reflexivity|done|done|].
  exists e, p'. split; [exact Hr|].
  destruct Hcase as [(-> & _)|(Hf & file & Hh & He)].
  - exfalso. vm_compute in Hr. discriminate.
  - split; [|exact Hf]. rewrite He. vm_compute in Hh. injection Hh as <-. reflexivity.
Defined.

(** The parent's loop forks the commands in order and stops at
    the first failed [fork]; the first child leads the process group and every
    later one is put into it by the parent as well; the job records the pids and
    counts exactly the children that exist. *)
Theorem fork_cmds_launches `{Env} fds (j : job) w :
  job_wf Frame j →
  ∃ ps, length ps ≤ ncmds j ∧
    fork_cmds (ncmds j) 0 fds j 0 w =
      Done ((assign_pids 0 ps j, leader 0 ps),
            with_log (launch_events fds (Proc (w_fds w) (w_sigs w) (shell_pgid (w_x w)) [])
                        (s_cmds (abs_job j)) ps ++ w_log w) w) ∧
    nlive (assign_pids 0 ps j) = (nlive j + Z.of_nat (length ps))%Z ∧
    abs_job (assign_pids 0 ps j) = abs_job j.
Proof.
  intros Hwf. destruct (fork_cmds_spec fds j w Hwf) as (ps & Hps & _ & Hr).
  exists ps. split_and!; [done|done|apply assign_pids_same|apply assign_pids_abs].
Qed.

Lemma fork_cmds_launches_witness :
  ∃ ps, fork_cmds (H := calm_env) 1 0 None (sample_job tt) 0 start =
      Done ((assign_pids 0 ps (sample_job tt), leader 0 ps),
            with_log (launch_events (H := calm_env) None (Proc std_fds ∅ 0 [])
                        (s_cmds (abs_job (sample_job tt))) ps) start) .
Proof.
  destruct (fork_cmds_launches (H := calm_env) None (sample_job tt) start (sample_job_wf tt))
    as (ps & _ & Hr & _).
  exists ps. cbn [start empty_world w_log] in Hr. rewrite app_nil_r in Hr. exact Hr.
Defined.

(** [fg] does nothing without a live job; otherwise it takes
    the most recent one, prints its command line, gives it the terminal, sends
    SIGCONT to its group if it is stopped, waits, takes the terminal back, and
    removes the job exactly when it is done. *)
Theorem fg_resumes_current `{Env} t0 pg o fuel w T :
  inv t0 pg o w T →
  do_fg fuel w ≠ Undef ∧
  ∀ w', do_fg fuel w = Done (tt, w') →
    match current T with
    | None => w' = w
    | Some l =>
        ∃ T1 j T2 rs n s, T = T1 ++ (l, j) :: T2 ∧ fg_run (nlive j) rs = Some (n, s) ∧
          inv t0 pg pg w' (after_fg T1 l (to_fg j) T2 n s) ∧
          w_log w' = EvTcsetpgrp shell_terminal pg :: fg_waits j rs ++ fg_events j ++ w_log w
    end.
Proof.
  intros Hi. pose proof (wp_do_fg t0 pg Partial fuel o w T ltac:(done) Hi) as Hwp.
  split; [by eapply wp_no_undef|]. intros w' Hr. by apply (wp_run _ _ _ _ _ _ Hwp) in Hr.
Qed.

Lemma fg_resumes_current_witness :
  ∃ w' T', do_fg (H := calm_env) 1 (single (bg_job JOB_STOPPED)) = Done (tt, w') ∧
    inv std_fds 7 7 w' T'.
Proof.
  destruct (fg_resumes_current (H := calm_env) _ _ _ 1 _ _ (bg_job_inv JOB_STOPPED)) as [_ Hp].
  destruct (do_fg (H := calm_env) 1 (single (bg_job JOB_STOPPED)))
    as [[[] w']| |] eqn:Hr; [|vm_compute in Hr; discriminate..].
  specialize (Hp w' eq_refl).
  change (current [(1%positive, bg_job JOB_STOPPED)]) with (Some 1%positive) in Hp.
  destruct Hp as (T1 & j & T2 & rs & n & s & HT & Hrun & Hi & Hlog). eauto.
Defined.

(** [bg] does nothing without a stopped job; otherwise it
    resumes the most recent stopped one: SIGCONT to its group, state running,
    marked as background, one line printed.  It always returns. *)
Theorem bg_resumes_stopped `{Env} t0 pg o w T :
  inv t0 pg o w T →
  ∃ w', do_bg w = Done (tt, w') ∧
    match last_such stopped T with
    | None => w' = w
    | Some (l, j) =>
        inv t0 pg o w' (upd_tbl l to_bg T) ∧
        w_log w' = EvOut (job_line (to_bg j) "+"%char (b "Running"))
          :: EvKill (- pgid j) SIGCONT :: w_log w
    end.
Proof.
  intros Hi. pose proof (wp_do_bg t0 pg Full o w T Hi) as Hwp.
  apply wp_total_run in Hwp as ([] & w' & Hr & Hp). by exists w'.
Qed.

Lemma bg_resumes_stopped_witness :
  ∃ w', do_bg (single (bg_job JOB_STOPPED)) = Done (tt, w') ∧
    inv std_fds 7 7 w' (upd_tbl 1 to_bg [(1%positive, bg_job JOB_STOPPED)]).
Proof.
  destruct (bg_resumes_stopped (H := calm_env) _ _ _ _ _ (bg_job_inv JOB_STOPPED)) as (w' & Hr & Hp).
  exists w'. split; [exact Hr|].
  change (last_such stopped [(1%positive, bg_job JOB_STOPPED)])
    with (Some (1%positive, bg_job JOB_STOPPED)) in Hp. apply Hp.
Defined.

(** The [jobs] builtin prints one line per job in table order
    and changes nothing; the mark [+] is on exactly one line when some job is
    running or stopped (the most recent such job), on none otherwise. *)
Theorem jobs_print_lists `{Env} t0 pg o w T :
  inv t0 pg o w T →
  ∃ w', jobs_print w = Done (tt, w') ∧ inv t0 pg o w' T ∧
    w_log w' = reverse (jobs_lines T) ++ w_log w ∧
    length (filter (λ lj, Some lj.1 = current T) T) = if current T then 1 else 0.
Proof.
  intros Hi. pose proof (wp_jobs_print t0 pg Full o w T Hi) as Hwp.
  apply wp_total_run in Hwp as ([] & w' & Hr & Hi' & Hl). exists w'.
  split_and!; [done|done|done|]. by eapply current_unique, inv_nodup.
Qed.

Lemma jobs_print_lists_witness :
  ∃ w', jobs_print (single (bg_job JOB_STOPPED)) = Done (tt, w') ∧
    w_log w' = EvOut (b "[1] + Stopped	sort -r < in > out 2> err &
") :: [EvTcsetpgrp 0 7; EvMalloc true].
Proof.
  destruct (jobs_print_lists (H := calm_env) _ _ _ _ _ (bg_job_inv JOB_STOPPED))
    as (w' & Hr & _ & Hl & _).
  exists w'. split; [exact Hr|]. rewrite Hl. vm_compute. reflexivity.
Defined.

(** [jobs_kill_all] sends SIGKILL to the process group of every
    job in the table, in order, frees every node and leaves the list empty. *)
Theorem jobs_kill_all_kills `{Env} t0 pg o w T :
  inv t0 pg o w T →
  ∃ w', jobs_kill_all w = Done (tt, w') ∧ w_heap w' = ∅ ∧ w_list w' = None ∧
    w_log w' = reverse (kill_events T) ++ w_log w.
Proof.
  intros Hi. pose proof (wp_jobs_kill_all t0 pg Full o w T Hi) as Hwp.
  apply wp_total_run in Hwp as ([] & w' & Hr & [[[Hc _ Hd] _] _ _ _ _ _ _] & Hl). exists w'.
  split_and!; try done. by apply dom_empty_inv_L.
Qed.

Lemma jobs_kill_all_kills_witness :
  ∃ w', jobs_kill_all (single (bg_job JOB_RUNNING)) = Done (tt, w') ∧
    w_log w' = [EvKill (-100) SIGKILL; EvTcsetpgrp 0 7; EvMalloc true].
Proof.
  destruct (jobs_kill_all_kills (H := calm_env) _ _ _ _ _ (bg_job_inv JOB_RUNNING))
    as (w' & Hr & _ & _ & Hl).
  exists w'. split; [exact Hr|exact Hl].
Defined.

(** [jobs_remove] of a job in the table removes exactly it and
    frees exactly its node; of any other location it changes nothing. *)
Theorem jobs_remove_refines `{Env} (w : W) T l :
  tbl w T →
  ∃ w', jobs_remove l w = Done (tt, w') ∧ w_log w' = w_log w ∧
    ((l ∉ T.*1 ∧ w' = w) ∨
     ∃ T1 j T2, T = T1 ++ (l, j) :: T2 ∧ tbl w' (T1 ++ T2) ∧
       dom (w_heap w') = dom (w_heap w) ∖ {[l]}).
Proof.
  intros Ht. destruct (decide (l ∈ T.*1)) as [Hin|Hin].
  - apply list_elem_of_fmap in Hin as [[k j] [-> Hin]].
    apply list_elem_of_split in Hin as (T1 & T2 & ->). cbn [fst].
    cut (wp Full (jobs_remove k) (λ _ w', w_log w' = w_log w ∧ tbl w' (T1 ++ T2)) w).
    { intros ([] & w' & Hr & Hl & Ht')%wp_total_run. exists w'. split_and!; [done|done|].
      right. exists T1, j, T2. split_and!; [done|done|].
      destruct Ht as [[_ Hnd Hd] _], Ht' as [[_ _ Hd'] _]. rewrite Hd, Hd', !fmap_app.
      rewrite fmap_app in Hnd. apply NoDup_app in Hnd as (_ & H1 & [H2 _]%NoDup_cons).
      rewrite !list_to_set_app_L. cbn. apply set_eq. intros x.
      specialize (H1 x). set_solver. }
    unfold jobs_remove. eapply wp_jobs_unlink; [exact Ht|]. intros w1 n Hw1 Hl1 Ht1.
    wp_steps. split; [by eexists|]. split; [|done]. rewrite Hw1. unfold bypass.
    by destruct (last T1) as [[??]|].
  - cut (wp Full (jobs_remove l) (λ _ w', w' = w) w).
    { intros ([] & w' & Hr & ->)%wp_total_run. exists w. split_and!; [done|done|]. by left. }
    by eapply wp_jobs_unlink_absent.
Qed.

Lemma jobs_remove_refines_witness :
  ∃ w', jobs_remove 1 (single (bg_job JOB_DONE)) = Done (tt, w') ∧ w_log w' = [EvTcsetpgrp 0 7; EvMalloc true].
Proof.
  destruct (jobs_remove_refines (H := calm_env) (single (bg_job JOB_DONE)) _ 1%positive
    (i_tbl _ _ _ _ _ (bg_job_inv JOB_DONE))) as (w' & Hr & Hl & _).
  exists w'. split; [exact Hr|exact Hl].
Defined.

(** [redirect_apply] opens the requested files in the order in,
    out, err, each onto its standard descriptor (write files with mode 0664,
    created and truncated), touches no other descriptor, and stops at the first
    file that cannot be opened, which it reports. *)
Theorem redirect_apply_opens `{Env} i o e p :
  ∃ r p', redirect_apply i o e p = Done (r, p') ∧
    p_sigs p' = p_sigs p ∧ p_pgid p' = p_pgid p ∧
    (r = 0%Z ∧ p_err p' = p_err p ∧
     (∀ n, (2 < n)%Z → p_fds p' !! n = p_fds p !! n) ∧
     p_fds p' !! 0%Z = (match i with Some f => Some (OFile f O_RDONLY) | None => p_fds p !! 0%Z end) ∧
     p_fds p' !! 1%Z =
       (match o with Some f => Some (OFile f (O_WRITE_CREATE_TRUNC 436)) | None => p_fds p !! 1%Z end) ∧
     p_fds p' !! 2%Z =
       (match e with Some f => Some (OFile f (O_WRITE_CREATE_TRUNC 436)) | None => p_fds p !! 2%Z end)
     ∨ r = (-1)%Z ∧ ∃ f, f ∈ (requests i o e).*1.*1 ∧ p_err p' = f :: p_err p).
Proof.
  destruct (redirect_apply_result i o e p) as (r & p' & Hr & Hs & Hg & Hcase).
  exists r, p'. split_and!; [done|done|done|].
  destruct Hcase as [(-> & Hf & He)|?]; [left|by right]. rewrite Hf.
  split_and!; [done|done|intros; by apply redirected_other|..];
    unfold redirected, STDIN_FILENO, STDOUT_FILENO, STDERR_FILENO; destruct i, o, e;
    by repeat (rewrite lookup_insert_eq || rewrite lookup_insert_ne by done).
Qed.

(** *** A job that the full table refuses *)


Lemma prompt_after `{FewAllocs} fuel w n :
  initial w →
  match main_loop fuel w with Done (_, w1) => size (w_heap w1) | _ => 0 end = S n →
  ∃ w1 T, length T = S n ∧ inv (w_fds w) (Zpos e_getpid) (Zpos e_getpid) w1 T.
Proof.
  intros Hin Hsz. assert (Hloop := wp_main_loop Partial fuel w ltac:(done) Hin). unfold wp in Hloop.
  destruct (main_loop fuel w) as [[[] w1]| |]; [|done|done]. destruct Hloop as [T Hi].
  rewrite (repr_size _ _ (t_repr _ _ (i_tbl _ _ _ _ _ Hi))), length_fmap in Hsz. by exists w1, T.
Qed.

(** The shell after 20 lines [sleep 9 &]. *)
Lemma full_shell : ∃ w T, length T = YASH_MAX_JOBS ∧ inv std_fds 7 7 w T.
Proof.
  apply (prompt_after (H := sleepers 20) (H0 := sleepers_few 20) 30 start 19 start_initial).
  vm_compute. reflexivity.
Qed.


(** [2>&1] is not an operator of the parser: it is an ordinary argument. *)
Example dup_operator_is_argument :
  let '(r, j) := parse_line tt Frame (Some (b "ls 2>&1")) (zero_job tt) in
  r = PARSE_OK ∧ abs_job j = SLine [SCmd [b "ls"; b "2>&1"] None None None] false.
Proof. vm_compute. done. Qed.
