(* ===== verification/Yashd.v ===== *)
(** * yashd, the daemon of Project 2: one session

    [session.c], [jobs.c], [builtins.c], [exec.c] and [log.c] of
    [Project 2/yashd/server/src], for the thread of one client.  The job table,
    the parser and the redirections are those of yash ([JobTable], [Parse],
    [Redirect]); the terminal is replaced by messages on a socket.  The world's
    own part is the [session_t] of the thread, with [errno], the daemon's
    [log_fd] and [live], whether the [session_t] is allocated.

    [inbuf] holds the valid bytes of the array of the same name, so [inlen] is
    its length.  The other sessions of the process share nothing with this one
    but the descriptor table and the log file; what they do is not part of the
    model.  [fuel] bounds the loops whose length the environment decides. *)

From S2P Require Import Prelude CString YashTypes Parse Posix JobTable Redirect Launch.
From stdpp Require Import base tactics list gmap strings.
From Stdlib Require Import Ascii ZArith Lia Sorted.

(** ** protocol.h, transport.h, session.h *)

Definition MSG_CMD : bytes := b "CMD ".
Definition MSG_CTL : bytes := b "CTL ".
Definition MSG_PREFIX_LEN : nat := 4.
Definition CTL_INT : ascii := "c".
Definition CTL_STOP : ascii := "z".
Definition CTL_EOF : ascii := "d".
Definition YASH_PROMPT : bytes := LF :: b "# ".
Definition YASH_BUF_SIZE : nat := 4096.

Record peer_t := Peer { ip : bytes; port : Z }.

Record session_t := Session {
  cfd : Z;
  peer : peer_t;
  fg_job : option loc;
  inbuf : bytes;
  quit : bool;
  errno : errno;
  log_fd : Z;
  live : bool
}.

Abbreviation W := (world Z session_t).
Abbreviation job := (job_t Z).

Definition with_fg (p : option loc) (s : session_t) : session_t :=
  Session (cfd s) (peer s) p (inbuf s) (quit s) (errno s) (log_fd s) (live s).
Definition with_inbuf (l : bytes) (s : session_t) : session_t :=
  Session (cfd s) (peer s) (fg_job s) l (quit s) (errno s) (log_fd s) (live s).
Definition with_quit (s : session_t) : session_t :=
  Session (cfd s) (peer s) (fg_job s) (inbuf s) true (errno s) (log_fd s) (live s).
Definition with_errno (e : Posix.errno) (s : session_t) : session_t :=
  Session (cfd s) (peer s) (fg_job s) (inbuf s) (quit s) e (log_fd s) (live s).

Definition with_freed (s : session_t) : session_t :=
  Session (cfd s) (peer s) (fg_job s) (inbuf s) (quit s) (errno s) (log_fd s) false.

Section yashd.
Context `{Env}.

Definition sess {A} (f : session_t → A) : M W A := gets (λ w, f (w_x w)).
Definition upd_sess (f : session_t → session_t) : M W unit :=
  modify (λ w, with_x (f (w_x w)) w).

(** ** System calls that set [errno] *)

(** [write(fd, l, length l)]: at most that many bytes. *)
Definition write (fd : Z) (l : bytes) : M W rw_result :=
  w ← get;
  let r := match e_write (w_log w) fd l with
           | RwOk n => RwOk (min n (length l))
           | r => r
           end in
  emit (EvWrite fd l r);;
  match r with RwErr e => upd_sess (with_errno e) | RwOk _ => mret tt end;;
  mret r.

(** [read(fd, buf, n)]: at most [n] bytes; none is end of file. *)
Definition read (fd : Z) (n : nat) : M W read_result :=
  w ← get;
  let r := match e_read (w_log w) fd n with
           | ReadBytes l => ReadBytes (take n l)
           | r => r
           end in
  emit (EvRead fd n r);;
  match r with ReadFail e => upd_sess (with_errno e) | ReadBytes _ => mret tt end;;
  mret r.

Definition waitpid_e (p : Z) (fl : wflags) : M W wait_result :=
  r ← waitpid p fl;
  match r with WaitErr e => upd_sess (with_errno e) | _ => mret tt end;;
  mret r.

(** The descriptors an [fd_set] holds; [FD_SET] of any other is undefined. *)
Definition FD_SETSIZE : Z := 1024.

(** [select] on one descriptor: ready, or a timeout or an interruption. *)
Definition select (fd : Z) : M W bool :=
  w ← get;
  let r := e_select (w_log w) fd in
  emit (EvSelect fd r);; mret r.

(** ** session.c: output *)

Definition session_write (fuel : nat) (buf : bytes) : M W Z :=
  loop fuel
    (λ off,
       if bool_decide (off < length buf) then
         fd ← sess cfd;
         r ← write fd (drop off buf);
         match r with
         | RwErr e =>
             if bool_decide (e = EINTR) then mret (inl off)
             else upd_sess with_quit;; mret (inr (-1)%Z)
         | RwOk n => mret (inl (off + n))
         end
       else mret (inr 0%Z)) 0.

Definition session_puts (fuel : nat) (str : bytes) : M W Z :=
  session_write fuel (cstr str).

(** [session_printf] of a formatted [text]; [sizeof buf] is
    [YASH_MAX_LINE + 128]. *)
Definition session_printf (fuel : nat) (text : bytes) : M W Z :=
  let size := YASH_MAX_LINE + 128 in
  if bool_decide (length text = 0) then mret 0%Z
  else
    let n := if bool_decide (size ≤ length text) then size - 1 else length text in
    session_write fuel (take n text).

Definition session_prompt (fuel : nat) : M W Z := session_puts fuel YASH_PROMPT.

(** ** session.c: input *)

(** One line out of the accumulated bytes, into an array of [n] bytes; [None]
    is the return value 0. *)
Definition buf_take_line (n : nat) : M W (option bytes) :=
  inb ← sess inbuf;
  match memchr LF inb with
  | None => mret None
  | Some nl =>
      let consumed := nl + 1 in
      let len := if bool_decide (n ≤ nl) then n - 1 else nl in
      let line := take len inb in
      let line := if bool_decide (0 < len ∧ line !! (len - 1) = Some CR)
                  then <[len - 1 := NUL]> line else line in
      upd_sess (with_inbuf (drop consumed inb));;
      mret (Some line)
  end.

(** The result of [read]: bytes appended, end of file, or failure. *)
Definition buf_fill : M W Z :=
  inb ← sess inbuf;
  if bool_decide (length inb = YASH_BUF_SIZE) then
    upd_sess (with_inbuf []);; mret (-1)%Z
  else
    fd ← sess cfd;
    r ← read fd (YASH_BUF_SIZE - length inb);
    match r with
    | ReadFail _ => mret (-1)%Z
    | ReadBytes l =>
        when (bool_decide (0 < length l)) (upd_sess (with_inbuf (inb ++ l)));;
        mret (Z.of_nat (length l))
    end.

(** [inl line] is the return value 1. *)
Definition session_readsocket (fuel : nat) (n : nat) : M W (bytes + Z) :=
  loop fuel
    (λ _ : unit,
       o ← buf_take_line n;
       match o with
       | Some line => mret (inr (inl line))
       | None =>
           r ← buf_fill;
           if bool_decide (r = 0)%Z then mret (inr (inr 0%Z))
           else if bool_decide (r < 0)%Z then
             e ← sess errno;
             if bool_decide (e = EINTR) then mret (inl tt)
             else mret (inr (inr (-1)%Z))
           else mret (inl tt)
       end) tt.

(** ** session.c: control messages and text *)

Definition handle_ctl (arg : bytes) : M W unit :=
  fg ← sess fg_job;
  let c := default NUL (head arg) in
  if bool_decide (c = CTL_INT) then
    match fg with
    | Some l => j ← deref l; kill (- pgid j) SIGINT
    | None => mret tt
    end
  else if bool_decide (c = CTL_STOP) then
    match fg with
    | Some l => j ← deref l; kill (- pgid j) SIGTSTP
    | None => mret tt
    end
  else if bool_decide (c = CTL_EOF) then
    match fg with
    | Some l =>
        j ← deref l;
        if bool_decide (0 ≤ infd j)%Z then close (infd j);; update l (set_infd (-1)%Z)
        else upd_sess with_quit
    | None => upd_sess with_quit
    end
  else mret tt.

Definition handle_text (line : bytes) : M W unit :=
  fg ← sess fg_job;
  match fg with
  | None => mret tt
  | Some l =>
      j ← deref l;
      if bool_decide (infd j < 0)%Z then mret tt
      else
        r1 ← write (infd j) (cstr line);
        failed ← (match r1 with
                  | RwErr _ => mret true
                  | RwOk _ =>
                      r2 ← write (infd j) [LF];
                      mret (match r2 with RwErr _ => true | RwOk _ => false end)
                  end);
        when failed (close (infd j);; update l (set_infd (-1)%Z))
  end.

Definition dispatch_running (line : bytes) : M W unit :=
  if strneq MSG_PREFIX_LEN line MSG_CTL
  then handle_ctl (drop MSG_PREFIX_LEN line)
  else handle_text line.

(** [while (buf_take_line(...)) dispatch_running(...);]  Every turn takes at
    least the newline out of the buffer. *)
Definition drain : M W unit :=
  inb ← sess inbuf;
  loop (S (length inb))
    (λ _ : unit,
       o ← buf_take_line YASH_BUF_SIZE;
       match o with
       | Some line => dispatch_running line;; mret (inl tt)
       | None => mret (inr tt)
       end) tt.

Definition session_pump : M W Z :=
  drain;;
  fd ← sess cfd;
  check (bool_decide (0 ≤ fd < FD_SETSIZE)%Z);;      (* FD_SET(s->cfd, &rfds) *)
  ready ← select fd;
  if (ready : bool) then
    r ← buf_fill;
    if bool_decide (r = 0)%Z then mret 0%Z
    else drain;; mret 1%Z
  else mret 1%Z.

(** ** jobs.c *)

Definition jobs_init : M W unit :=
  modify (with_list None);; upd_sess (with_fg None).

(** What [jobs_remove] does between the unlinking and [free]. *)
Definition remove_hook (l : loc) : M W unit :=
  j ← deref l;
  when (bool_decide (0 ≤ infd j)%Z) (close (infd j));;
  fg ← sess fg_job;
  when (bool_decide (fg = Some l)) (upd_sess (with_fg None)).

Definition jobs_remove (l : loc) : M W unit := jobs_unlink remove_hook l.

Definition clear_pid (p : Z) (j : job) : job :=
  set_cmds
    (((λ c, if bool_decide (pid c = p) then set_pid 0 c else c) <$> take (ncmds j) (cmds j))
     ++ drop (ncmds j) (cmds j)) j.

Definition poll_flags (block : bool) : wflags := WFlags (negb block) true true.

Definition poll_job (fuel : nat) (l : loc) (block : bool) : M W bool :=
  loop fuel
    (λ _ : unit,
       j ← deref l;
       if bool_decide (0 < nlive j)%Z then
         r ← waitpid_e (- pgid j) (poll_flags block);
         match r with
         | WaitNone => mret (inr false)
         | WaitErr e =>
             if bool_decide (e = EINTR) then mret (inl tt)
             else update l (set_nlive 0);; mret (inr false)
         | WaitChild p st =>
             if WIFSTOPPED st then update l (set_state JOB_STOPPED);; mret (inr true)
             else if WIFCONTINUED st then update l (set_state JOB_RUNNING);; mret (inl tt)
             else
               update l (clear_pid (Zpos p));;
               update l (λ j, set_nlive (nlive j - 1) j);;
               mret (inl tt)
         end
       else mret (inr false)) tt.

Definition jobs_print_one (fuel : nat) (l : loc) (mark : ascii) (status : bytes) : M W unit :=
  j ← deref l; session_printf fuel (job_line j mark status);; mret tt.

Definition reap_poll (fuel : nat) : M W unit :=
  walk
    (λ (_ : unit) l,
       j ← deref l;
       (if bool_decide (state j ≠ JOB_DONE) && bool_decide (0 < nlive j)%Z then
          r ← poll_job fuel l false;
          if (r : bool) then mret tt
          else
            j ← deref l;
            when (bool_decide (nlive j = 0)%Z) (update l (set_state JOB_DONE))
        else mret tt);;
       mret (inl tt))
    mret tt.

Definition reap_done (fuel : nat) : M W unit :=
  walk_saving
    (λ (_ : unit) l,
       j ← deref l;
       (if bool_decide (state j = JOB_DONE) then
          cur ← jobs_current;
          jobs_print_one fuel l (match cur with None => "+"%char | Some _ => "-"%char end)
            (b "Done");;
          jobs_remove l
        else mret tt);;
       mret (inl tt))
    mret tt.

Definition jobs_reap (fuel : nat) : M W unit := reap_poll fuel;; reap_done fuel.

Definition jobs_wait_fg (fuel : nat) (l : loc) : M W unit :=
  stopped ← loop fuel
    (λ _ : unit,
       j ← deref l;
       if bool_decide (0 < nlive j)%Z then
         q ← sess quit;
         if negb q then
           r ← session_pump;
           when (bool_decide (r = 0)%Z)
             (upd_sess with_quit;; j ← deref l; kill (- pgid j) SIGKILL);;
           st ← poll_job fuel l false;
           if (st : bool) then mret (inr true) else mret (inl tt)
         else
           st ← poll_job fuel l true;
           if (st : bool) then mret (inr true) else mret (inl tt)
       else mret (inr false)) tt;
  if (stopped : bool) then mret tt else update l (set_state JOB_DONE).

Definition jobs_print (fuel : nat) : M W unit :=
  cur ← jobs_current;
  walk
    (λ (_ : unit) l,
       j ← deref l;
       jobs_print_one fuel l (if bool_decide (Some l = cur) then "+"%char else "-"%char)
         (if bool_decide (state j = JOB_STOPPED) then b "Stopped" else b "Running");;
       mret (inl tt))
    mret tt.

(** The wait of [jobs_kill_all] for the processes of one killed job. *)
Definition kill_wait (fuel : nat) (l : loc) : M W unit :=
  loop fuel
    (λ _ : unit,
       j ← deref l;
       if bool_decide (0 < nlive j)%Z then
         r ← waitpid_e (- pgid j) (WFlags false false false);
         match r with
         | WaitNone => undef
         | WaitErr e => if bool_decide (e = EINTR) then mret (inl tt) else mret (inr tt)
         | WaitChild _ st =>
             if WIFSTOPPED st || WIFCONTINUED st then mret (inl tt)
             else update l (λ j, set_nlive (nlive j - 1) j);; mret (inl tt)
         end
       else mret (inr tt)) tt.

Definition jobs_kill_all (fuel : nat) : M W unit :=
  walk_saving
    (λ (_ : unit) l,
       j ← deref l;
       kill (- pgid j) SIGKILL;;
       when (bool_decide (0 ≤ infd j)%Z) (close (infd j));;
       kill_wait fuel l;;
       free l;;
       mret (inl tt))
    mret tt;;
  modify (with_list None);;
  upd_sess (with_fg None).

(** ** builtins.c *)

Definition do_fg (fuel : nat) : M W unit :=
  cur ← jobs_current;
  match cur with
  | None => mret tt
  | Some l =>
      j ← deref l;
      session_printf fuel (cstr (cmdline j) ++ [LF]);;
      update l (set_background false);;
      j ← deref l;
      when (bool_decide (state j = JOB_STOPPED)) (kill (- pgid j) SIGCONT);;
      update l (set_state JOB_RUNNING);;
      upd_sess (with_fg (Some l));;
      jobs_wait_fg fuel l;;
      upd_sess (with_fg None);;
      j ← deref l;
      when (bool_decide (state j = JOB_DONE)) (jobs_remove l)
  end.

Definition do_bg (fuel : nat) : M W unit :=
  o ← jobs_recent_stopped;
  match o with
  | None => mret tt
  | Some l =>
      j ← deref l;
      kill (- pgid j) SIGCONT;;
      update l (set_state JOB_RUNNING);;
      update l (set_background true);;
      jobs_print_one fuel l "+"%char (b "Running")
  end.

Definition builtin_try (fuel : nat) (j : job) : M W bool :=
  let c := default zero_cmd (cmds j !! 0) in
  if bool_decide (ncmds j ≠ 1) || bool_decide (argc c = 0) then mret false
  else
    name ← assume_some (frame_str j (mjoin (argv c !! 0)));
    if streq name (b "jobs") then jobs_print fuel;; mret true
    else if streq name (b "fg") then do_fg fuel;; mret true
    else if streq name (b "bg") then do_bg fuel;; mret true
    else mret false.

(** ** exec.c *)

Definition signos : list signal :=
  [SIGINT; SIGTSTP; SIGQUIT; SIGTTIN; SIGTTOU; SIGPIPE; SIGHUP; SIGCHLD].

Definition reset_child_signals : M proc unit :=
  foldr (λ s m, c_sigaction s SIG_DFL;; m) (mret tt) signos.

(** The child of command [i], from [fork] to [execvp] or [_exit]. *)
Definition child_main (j : job) (i : nat) (cfd : Z) (inpipe : Z * Z) (fds : option (Z * Z))
    (pg : Z) : M proc child_end :=
  let c := default zero_cmd (cmds j !! i) in
  c_setpgid pg;;
  reset_child_signals;;
  (if bool_decide (i = 0) then c_dup2 inpipe.1 STDIN_FILENO;; mret tt else mret tt);;
  c_close inpipe.1;;
  c_close inpipe.2;;
  c_dup2 cfd STDOUT_FILENO;;
  c_dup2 cfd STDERR_FILENO;;
  child_pipe i fds;;
  (if bool_decide (STDERR_FILENO < cfd)%Z then c_close cfd else mret tt);;
  exec_command j c.

(** The loop over the commands. *)
Definition fork_cmds (n i : nat) (inpipe : Z * Z) (fds : option (Z * Z)) (j : job) (pg : Z)
    : M W (job * Z) :=
  fd ← sess cfd;
  fork_loop 0 (λ j i pg, child_main j i fd inpipe fds pg) (mret tt) n i j pg.

Definition close_pipe (fds : option (Z * Z)) : M W unit :=
  match fds with
  | Some (r, wr) => close r;; close wr
  | None => mret tt
  end.

Definition exec_job (fuel : nat) (proto : job) : M W unit :=
  let proto := set_infd (-1)%Z proto in
  ip ← pipe;
  match ip with
  | None => mret tt
  | Some inpipe =>
      fds ← (if bool_decide (ncmds proto = 2)
             then r ← pipe; mret (match r with Some p => Some (Some p) | None => None end)
             else mret (Some None));
      match fds with
      | None => close inpipe.1;; close inpipe.2
      | Some fds =>
          '(proto, pg) ← fork_cmds (ncmds proto) 0 inpipe fds proto 0;
          close_pipe fds;;
          close inpipe.1;;
          if bool_decide (nlive proto = 0)%Z then close inpipe.2
          else
            let proto := set_pgid pg proto in
            (if background proto then close inpipe.2 else mret tt);;
            let proto := set_infd (if background proto then (-1)%Z else inpipe.2) proto in
            r ← jobs_add proto;
            match r with
            | None =>
                kill (- pg) SIGKILL;;
                when (bool_decide (0 ≤ infd proto)%Z) (close (infd proto))
            | Some l =>
                j ← deref l;
                if background j then mret tt
                else
                  upd_sess (with_fg (Some l));;
                  jobs_wait_fg fuel l;;
                  upd_sess (with_fg None);;
                  j ← deref l;
                  when (bool_decide (state j = JOB_DONE)) (jobs_remove l)
            end
      end
  end.

(** ** log.c *)

(** The log line; [sizeof entry] is [YASH_MAX_LINE + 128]. *)
Definition log_entry (stamp : bytes) (p : peer_t) (cmdline : bytes) : bytes :=
  stamp ++ b " yashd[" ++ cstr (ip p) ++ b ":" ++ fmt_d (port p) ++ b "]: "
  ++ cstr cmdline ++ [LF].

(** [e_now] is the time stamp that [strftime] writes into 32 bytes, or a failure
    of [localtime_r] or [strftime]. *)
Definition log_command (p : peer_t) (cmdline : bytes) : M W unit :=
  fd ← sess log_fd;
  if bool_decide (fd < 0)%Z || bool_decide (cstr cmdline = []) then mret tt
  else
    w ← get;
    match e_now (w_log w) with
    | None => mret tt
    | Some stamp =>
        let entry := log_entry (take 31 stamp) p cmdline in
        let size := YASH_MAX_LINE + 128 in
        let n := if bool_decide (size ≤ length entry) then size - 1 else length entry in
        emit (EvLog (take n entry))
    end.

(** ** session.c: commands and the session *)

Definition handle_cmd (fuel : nat) (cmdline : bytes) : M W unit :=
  let '(code, jb) := parse_line (-1)%Z Frame (Some cmdline) (zero_job (-1)%Z) in
  if bool_decide (code ≠ PARSE_OK) then mret tt
  else
    p ← sess peer;
    log_command p cmdline;;
    let c := default zero_cmd (cmds jb !! 0) in
    name ← assume_some (frame_str jb (mjoin (argv c !! 0)));
    if streq name (b "quit") && bool_decide (ncmds jb = 1) then upd_sess with_quit
    else
      handled ← builtin_try fuel jb;
      if (handled : bool) then mret tt else exec_job fuel jb.

Definition dispatch (fuel : nat) (line : bytes) : M W unit :=
  if strneq MSG_PREFIX_LEN line MSG_CMD then handle_cmd fuel (drop MSG_PREFIX_LEN line)
  else if strneq MSG_PREFIX_LEN line MSG_CTL then handle_ctl (drop MSG_PREFIX_LEN line)
  else handle_text line.

(** [calloc], then the members that are not zero. *)
Definition session_create (cfd : Z) (p : peer_t) (log_fd : Z) : M W bool :=
  w ← get;
  let ok := e_malloc (w_log w) in
  emit (EvMalloc ok);;
  if ok then
    modify (with_x (Session cfd p None [] false EOTHER log_fd true));;
    jobs_init;; mret true
  else mret false.

(** An access to [*s], which must be allocated. *)
Definition deref_sess : M W session_t :=
  x ← gets w_x; check (live x);; mret x.

(** [free(s)] *)
Definition free_sess : M W unit :=
  deref_sess;; upd_sess with_freed.

(** [s] is whether the argument is not null. *)
Definition session_destroy (fuel : nat) (s : bool) : M W unit :=
  if negb s then mret tt
  else
    jobs_kill_all fuel;;
    x ← deref_sess;
    close (cfd x);;
    free_sess.

(** One turn of the loop of [session_main]; [inr] is a [break]. *)
Definition session_step (fuel : nat) : M W (unit + unit) :=
  jobs_reap fuel;;
  r ← session_prompt fuel;
  if bool_decide (r < 0)%Z then mret (inr tt)
  else
    l ← session_readsocket fuel YASH_BUF_SIZE;
    match l with
    | inr _ => mret (inr tt)
    | inl line =>
        dispatch fuel line;;
        q ← sess quit;
        if (q : bool) then mret (inr tt) else mret (inl tt)
    end.

(** The loop of [session_main]. *)
Definition session_loop (fuel : nat) : M W unit :=
  loop fuel (λ _ : unit, session_step fuel) tt.

Definition session_main (fuel : nat) : M W unit :=
  session_loop fuel;;
  session_destroy fuel true.

End yashd.
