(* ===== verification/YashdProps.v ===== *)
(** * The invariant of a yashd session

    What holds of a session between and inside its operations, whatever the
    client, the kernel and the children do, with the rules of the session's
    input and output. *)

From S2P Require Import Prelude CString YashTypes Parse Posix JobTable Tables Redirect Launch Yashd.
From stdpp Require Import base tactics list gmap strings.
From Stdlib Require Import Ascii ZArith Lia Sorted.

(** ** Log properties *)

(** The process group [- p] was created by this session. *)
Definition owned (h : history) (p : Z) : Prop :=
  ∃ q img, p = Zneg q ∧ EvFork (Some q) img ∈ h.

(** What every event satisfies, given the events before it:
    - the session signals and waits for its own process groups only;
    - a child starts with default dispositions, does not hold the socket on any
      descriptor but the standard ones, and above those it has what the daemon
      started with and, possibly, write ends of pipes. *)
Definition ev_ok (t0 : fdtab) (c0 : Z) (before : history) (e : event) : Prop :=
  match e with
  | EvKill p _ => owned before p
  | EvWait p _ _ => owned before p
  | EvFork _ (Some (_, pr)) =>
      Forall (λ s, disposition (p_sigs pr) s = SIG_DFL) signos ∧
      p_fds pr !! c0 = None ∧
      (∀ n f, (2 < n)%Z → p_fds pr !! n = Some f → t0 !! n = Some f ∨ ∃ k, f = OPipeW k)
  | _ => True
  end.

Fixpoint log_ok (t0 : fdtab) (c0 : Z) (h : history) : Prop :=
  match h with
  | [] => True
  | e :: h' => ev_ok t0 c0 h' e ∧ log_ok t0 c0 h'
  end.

Lemma owned_cons e h p : owned h p → owned (e :: h) p.
Proof. intros (q & img & -> & Hin). exists q, img. split; [done|]. by right. Qed.

Lemma owned_app h' h p : owned h p → owned (h' ++ h) p.
Proof. intros (q & img & -> & Hin). exists q, img. split; [done|]. apply elem_of_app. by right. Qed.

Lemma owned_neg h p : owned h p → (p < 0)%Z.
Proof. intros (q & img & -> & _). lia. Qed.

(** The environment still answers: a child changes, the client sends, or it
    still reads. *)
Definition alive `{Env} (h : history) : Prop :=
  (∃ p fl, e_waitpid h p fl ≠ WaitErr ECHILD) ∨
  (∃ fd n, e_read h fd n ≠ ReadBytes []) ∨
  (∃ fd l, e_write h fd l ≠ RwErr EPIPE).

(** ** Descriptors *)

(** The write ends of the jobs' input pipes. *)
Definition infd_of (j : job) : list Z := if bool_decide (0 ≤ infd j)%Z then [infd j] else [].
Definition infds (T : table Z) : list Z := T ≫= (λ lj, infd_of lj.2).

(** The table is the daemon's own [t0] plus the descriptors [L], which are write
    ends of pipes. *)
Record fds_ok (t0 t : fdtab) (L : list Z) : Prop := {
  fo_nodup : NoDup L;
  fo_own : ∀ fd, fd ∈ L → (2 < fd)%Z ∧ t0 !! fd = None ∧ ∃ k, t !! fd = Some (OPipeW k);
  fo_base : ∀ fd, fd ∉ L → t !! fd = t0 !! fd
}.

Lemma infds_app T1 T2 : infds (T1 ++ T2) = infds T1 ++ infds T2.
Proof. apply bind_app. Qed.

Lemma infds_cons l j T : infds ((l, j) :: T) = infd_of j ++ infds T.
Proof. done. Qed.

Lemma infds_upd l (f : job → job) T : (∀ j, infd (f j) = infd j) → infds (upd_tbl l f T) = infds T.
Proof.
  intros Hf. induction T as [|[k j] T IH]; [done|].
  change (upd_tbl l f ((k, j) :: T)) with
    ((if bool_decide (k = l) then (l, f j) else (k, j)) :: upd_tbl l f T).
  case_bool_decide; rewrite !infds_cons, IH; [|done]. unfold infd_of. by rewrite Hf.
Qed.

Lemma infds_elem l j T : (l, j) ∈ T → (0 ≤ infd j)%Z → infd j ∈ infds T.
Proof.
  intros Hin Hp. apply list_elem_of_bind. exists (l, j). split; [|done].
  unfold infd_of. cbn. rewrite bool_decide_true by done. by left.
Qed.

Lemma fds_ok_close t0 t L1 fd L2 :
  fds_ok t0 t (L1 ++ fd :: L2) → fds_ok t0 (fd_close fd t) (L1 ++ L2).
Proof.
  intros [Hnd Hown Hbase]. unfold fd_close.
  apply NoDup_app in Hnd as (H1 & H12 & [H2 Hnd2]%NoDup_cons). split.
  - apply NoDup_app. split_and!; [done| |done]. intros x Hx ?. apply (H12 x Hx). by right.
  - intros x Hx. assert (x ≠ fd).
    { intros ->. apply elem_of_app in Hx as [Hx|Hx]; [|done]. apply (H12 fd Hx). by left. }
    rewrite lookup_delete_ne by done. apply Hown. set_solver.
  - intros x Hx. destruct (decide (x = fd)) as [->|Hne].
    + rewrite lookup_delete_eq. symmetry. eapply Hown. set_solver.
    + rewrite lookup_delete_ne by done. apply Hbase. set_solver.
Qed.

Lemma fds_ok_open t0 t L fd k :
  fds_ok t0 t L → t !! fd = None → (2 < fd)%Z → fds_ok t0 (<[fd := OPipeW k]> t) (L ++ [fd]).
Proof.
  intros [Hnd Hown Hbase] Hfd Hpos.
  assert (Hnot : fd ∉ L).
  { intros Hin. destruct (Hown fd Hin) as (_ & _ & k' & Hk). congruence. }
  split.
  - apply NoDup_app. split_and!; [done| |apply NoDup_singleton]. set_solver.
  - intros x Hx. destruct (decide (x = fd)) as [->|Hne].
    + split; [done|]. split; [by rewrite <- Hbase|]. exists k. by rewrite lookup_insert_eq.
    + rewrite lookup_insert_ne by done. apply Hown. set_solver.
  - intros x Hx. rewrite lookup_insert_ne by set_solver. apply Hbase. set_solver.
Qed.

(** ** The invariant *)

(** [inv t0 c0 fg w T]: the job table of [w] is [T] and well formed; every job
    is in a process group of this session; the descriptors are the daemon's [t0]
    plus the input pipes of the jobs; [c0] is the socket; [fg] is the foreground
    job, if any, and it is in the table; the input buffer is within its size; the
    socket fits an [fd_set], the session is allocated, and every job number was
    paid for by an allocation of the run. *)
Record inv (t0 : fdtab) (c0 : Z) (fg : option loc) (w : W) (T : table Z) : Prop := {
  i_tbl : tbl w T;
  i_ok : tbl_ok T;
  i_own : Forall (λ lj, owned (w_log w) (- pgid lj.2)) T;
  i_fds : fds_ok t0 (w_fds w) (infds T);
  i_sock : t0 !! c0 = Some OSock ∧ (2 < c0)%Z ∧ std_open t0;
  i_cfd : cfd (w_x w) = c0;
  i_fg : fg_job (w_x w) = fg ∧ ∀ l, fg = Some l → l ∈ T.*1;
  i_inbuf : length (inbuf (w_x w)) ≤ YASH_BUF_SIZE;
  i_log : log_ok t0 c0 (w_log w);
  i_set : (c0 < FD_SETSIZE)%Z;
  i_live : live (w_x w) = true;
  i_few : few_jids (w_log w) T
}.

(** A session update that keeps the socket, the foreground job and the buffer. *)
Class Quiet (f : session_t → session_t) : Prop := quiet : ∀ s,
  cfd (f s) = cfd s ∧ fg_job (f s) = fg_job s ∧ inbuf (f s) = inbuf s ∧ live (f s) = live s.

#[export] Instance quiet_quit : Quiet with_quit.
Proof. done. Qed.
#[export] Instance quiet_errno e : Quiet (with_errno e).
Proof. done. Qed.

Section rules.
Context `{Env} (t0 : fdtab) (c0 : Z).
Implicit Types (w : W) (j : job) (T : table Z) (t : mode) (fg : option loc).

#[export] Instance inv_JobInv_d fg : JobInv (inv t0 c0 fg).
Proof.
  split; [by intros w T []..|]. intros w T h' l f Hb [Ht Hok Hown] Ht' Hok'. split; try done.
  - unfold upd_tbl. rewrite Forall_fmap. eapply Forall_impl; [exact Hown|].
    intros [k j]; cbn. case_bool_decide; cbn; rewrite ?bn_pgid; auto.
  - rewrite infds_upd; [done|]. apply bn_infd.
  - split; [naive_solver|]. rewrite upd_tbl_fst. naive_solver.
  - apply few_jids_upd; [done|apply bn_jid].
Qed.

Lemma wp_update_d t l f `{!Benign f} (Q : unit → W → Prop) fg w T j :
  inv t0 c0 fg w T → (l, j) ∈ T →
  (∀ w', inv t0 c0 fg w' (upd_tbl l f T) → w_log w' = w_log w → Q tt w') →
  wp t (update l f) Q w.
Proof. intros Hi Hin HQ. eapply (ji_update (inv t0 c0 fg)); [apply _|done|done|]. auto. Qed.

Lemma wp_deref_d t l (Q : job → W → Prop) fg w T j :
  inv t0 c0 fg w T → (l, j) ∈ T → (∀ n, Q (set_next n j) w) → wp t (deref l) Q w.
Proof. apply (ji_deref (inv t0 c0 fg)). Qed.

Lemma inv_emit_d e fg w T :
  inv t0 c0 fg w T → ev_ok t0 c0 (w_log w) e → inv t0 c0 fg (with_log (e :: w_log w) w) T.
Proof.
  intros [Ht Hok Hown] He. split; try done.
  - by eapply tbl_ext; [| |exact Ht].
  - eapply Forall_impl; [exact Hown|]. intros [k j]; apply owned_cons.
  - by apply few_jids_cons.
Qed.

Lemma wp_emit_d t e (Q : unit → W → Prop) fg w T :
  inv t0 c0 fg w T → ev_ok t0 c0 (w_log w) e →
  (∀ w', inv t0 c0 fg w' T → w_log w' = e :: w_log w → w_x w' = w_x w → Q tt w') →
  wp t (emit e) Q w.
Proof. intros Hi He HQ. by apply wp_emit, HQ; [apply inv_emit_d|..]. Qed.

Lemma inv_sess f `{!Quiet f} fg w T :
  inv t0 c0 fg w T → inv t0 c0 fg (with_x (f (w_x w)) w) T.
Proof.
  intros []. destruct (quiet (w_x w)) as (Hc & Hf & Hb & Hv).
  split; try done; cbn; rewrite ?Hc, ?Hf, ?Hb, ?Hv; try done. by eapply tbl_ext; [| |done].
Qed.

Lemma wp_upd_sess t f `{!Quiet f} (Q : unit → W → Prop) fg w T :
  inv t0 c0 fg w T →
  (∀ w', inv t0 c0 fg w' T → w_log w' = w_log w → w_x w' = f (w_x w) → Q tt w') →
  wp t (upd_sess f) Q w.
Proof. intros Hi HQ. apply wp_modify, HQ; [by apply inv_sess|done..]. Qed.

(** The group of a job of the table is the session's. *)
Lemma inv_owned fg w T l j : inv t0 c0 fg w T → (l, j) ∈ T → owned (w_log w) (- pgid j).
Proof.
  intros Hi Hin. pose proof (i_own _ _ _ _ _ Hi) as Ho. rewrite Forall_forall in Ho.
  by apply (Ho (l, j)).
Qed.

Lemma wp_waitpid_d t p fl (Q : wait_result → W → Prop) fg w T :
  inv t0 c0 fg w T → owned (w_log w) p →
  (∀ r w', inv t0 c0 fg w' T → w_log w' = EvWait p fl r :: w_log w →
     (r = WaitNone → WNOHANG fl = true) → (r = WaitErr ECHILD ∨ alive (w_log w)) → Q r w') →
  wp t (waitpid_e p fl) Q w.
Proof.
  intros Hi Ho HQ. unfold waitpid_e, waitpid. wp_steps.
  set (r := wait_filter _ _).
  assert (H1 : r = WaitNone → WNOHANG fl = true).
  { subst r. intros Hr.
    destruct (e_waitpid _ _ _) as [| |? []]; simpl in Hr; repeat case_match; by simplify_eq. }
  assert (H2 : r = WaitErr ECHILD ∨ alive (w_log w)).
  { subst r. destruct (e_waitpid (w_log w) p fl) as [|[]|] eqn:Hw; try (by left);
      right; left; exists p, fl; by rewrite Hw. }
  eapply wp_emit_d; [done|done|]. intros w' Hi' Hl Hx. wp_steps.
  destruct r as [|e|q st] eqn:Hr; wp_steps; try by apply HQ.
  eapply (wp_upd_sess t (with_errno e)); [done|]. intros w2 Hi2 Hl2 _. wp_steps.
  apply HQ; [done|by rewrite Hl2|done|done].
Qed.

Lemma wp_write_d t fd l (Q : rw_result → W → Prop) fg w T :
  inv t0 c0 fg w T →
  (∀ r w', inv t0 c0 fg w' T → w_log w' = EvWrite fd l r :: w_log w →
     inbuf (w_x w') = inbuf (w_x w) →
     (r = RwErr EPIPE ∨ alive (w_log w)) → (∀ n, r = RwOk n → n ≤ length l) → Q r w') →
  wp t (write fd l) Q w.
Proof.
  intros Hi HQ. unfold write. wp_steps. set (r := match _ with RwOk n => _ | _ => _ end).
  assert (H2 : r = RwErr EPIPE ∨ alive (w_log w)).
  { subst r. destruct (e_write (w_log w) fd l) as [|[]] eqn:Hw; try (by left);
      right; right; right; exists fd, l; by rewrite Hw. }
  assert (H3 : ∀ n, r = RwOk n → n ≤ length l).
  { subst r. intros n Hn. destruct (e_write _ _ _); simplify_eq. lia. }
  eapply wp_emit_d; [done|done|]. intros w' Hi' Hl Hx. wp_steps.
  destruct r as [n|e] eqn:Hr; wp_steps.
  - apply HQ; [done|done|by rewrite Hx|done|done].
  - eapply (wp_upd_sess t (with_errno e)); [done|]. intros w2 Hi2 Hl2 Hx2. wp_steps.
    apply HQ; [done|by rewrite Hl2|by rewrite Hx2, Hx|done|done].
Qed.

Lemma wp_read_d t n (Q : read_result → W → Prop) fg w T :
  inv t0 c0 fg w T →
  (∀ r w', inv t0 c0 fg w' T → w_log w' = EvRead c0 n r :: w_log w →
     inbuf (w_x w') = inbuf (w_x w) →
     (∀ e, r = ReadFail e → errno (w_x w') = e) →
     (r = ReadBytes [] ∨ alive (w_log w)) → (∀ l, r = ReadBytes l → length l ≤ n) → Q r w') →
  wp t (read c0 n) Q w.
Proof.
  intros Hi HQ. unfold read. wp_steps. set (r := match _ with ReadBytes l => _ | _ => _ end).
  assert (H2 : r = ReadBytes [] ∨ alive (w_log w)).
  { subst r. destruct (e_read (w_log w) c0 n) as [[|]|] eqn:Hw;
      [by left; rewrite take_nil|right; right; left; exists c0, n; by rewrite Hw..]. }
  assert (H3 : ∀ l, r = ReadBytes l → length l ≤ n).
  { subst r. intros l Hn. destruct (e_read _ _ _); simplify_eq. rewrite length_take. lia. }
  eapply wp_emit_d; [done|done|]. intros w' Hi' Hl Hx. wp_steps.
  destruct r as [l|e] eqn:Hr; wp_steps.
  - apply HQ; [done|done|by rewrite Hx|done|done|done].
  - eapply (wp_upd_sess t (with_errno e)); [done|]. intros w2 Hi2 Hl2 Hx2. wp_steps.
    apply HQ; [done|by rewrite Hl2|by rewrite Hx2, Hx| |done|done].
    intros e' [= <-]. by rewrite Hx2.
Qed.

(** *** Output *)

(** What has reached descriptor [fd], oldest byte first. *)
Fixpoint delivered (fd : Z) (h : history) : bytes :=
  match h with
  | [] => []
  | EvWrite fd' l (RwOk n) :: h' =>
      delivered fd h' ++ (if bool_decide (fd' = fd) then take n l else [])
  | _ :: h' => delivered fd h'
  end.

(** [session_write] returns 0 exactly when every byte has been delivered to the
    client in order; otherwise a prefix has been, and the session is to quit. *)
Lemma wp_session_write t fuel buf fg w T :
  fuel_ok alive t fuel → inv t0 c0 fg w T →
  wp t (session_write fuel buf)
    (λ r w', inv t0 c0 fg w' T ∧ inbuf (w_x w') = inbuf (w_x w) ∧
       w_log w `suffix_of` w_log w' ∧
       (r = 0%Z → buf ≠ [] → progress alive (w_log w) (w_log w')) ∧
       ∃ n, n ≤ length buf ∧
         delivered c0 (w_log w') = delivered c0 (w_log w) ++ take n buf ∧
         (r = 0%Z ∧ n = length buf ∨ r = (-1)%Z ∧ quit (w_x w') = true)) w.
Proof.
  intros Hfuel Hi. unfold session_write, sess.
  apply (wp_loop_env alive _ _ (λ off w', inv t0 c0 fg w' T ∧ inbuf (w_x w') = inbuf (w_x w) ∧
    w_log w `suffix_of` w_log w' ∧
    (0 < off → progress alive (w_log w) (w_log w')) ∧ off ≤ length buf ∧
    delivered c0 (w_log w') = delivered c0 (w_log w) ++ take off buf)); [done| |].
  2:{ split_and!; try done; [lia|lia|]. by rewrite app_nil_r. }
  clear Hi. intros off w1 (Hi & Hb & Hlen & Hpr & Hoff & Hd). pose proof (suffix_length _ _ Hlen).
  case_bool_decide as Hn; wp_steps.
  2:{ split_and!; try done.
      { intros _ Hne. apply Hpr. destruct buf; [done|]. simpl in *. lia. }
      exists off. split_and!; [done|done|]. left. split; [done|lia]. }
  rewrite (i_cfd _ _ _ _ _ Hi).
  eapply wp_write_d; [done|]. intros r w2 Hi2 Hl2 Hb2 Hal Hle.
  destruct r as [n|e].
  - specialize (Hle n eq_refl). rewrite length_drop in Hle. wp_steps.
    destruct Hal as [?|Hal]; [done|].
    split_and!; try done; [congruence|rewrite Hl2; by apply suffix_cons_r| |lia| |].
    + intros _. exists (w_log w1). rewrite Hl2. simpl. split; [done|lia].
    + rewrite Hl2. cbn. rewrite bool_decide_true by done. rewrite Hd, <- (assoc_L (++)).
      f_equal. by rewrite take_take_drop.
    + exists (w_log w1). rewrite Hl2. simpl. split; [done|lia].
  - case_bool_decide as He; wp_steps.
    + subst e. split_and!; try done;
        [congruence|rewrite Hl2; by apply suffix_cons_r| |by rewrite Hl2|].
      { intros Ho. eapply progress_trans; [by apply Hpr|rewrite Hl2; simpl; lia]. }
      destruct Hal as [?|Hal]; [done|]. exists (w_log w1). rewrite Hl2. simpl. split; [done|lia].
    + eapply (wp_upd_sess t with_quit); [done|]. intros w3 Hi3 Hl3 Hx3. wp_steps.
      split_and!; [done|by rewrite Hx3, <- Hb, <- Hb2|rewrite Hl3, Hl2; by apply suffix_cons_r|done|].
      exists off. split_and!; [done|by rewrite Hl3, Hl2|]. right. by rewrite Hx3.
Qed.

(** The shorter form the other operations use. *)
Lemma wp_session_printf t fuel text (Q : Z → W → Prop) fg w T :
  fuel_ok alive t fuel → inv t0 c0 fg w T →
  (∀ r w', inv t0 c0 fg w' T → w_log w `suffix_of` w_log w' → Q r w') →
  wp t (session_printf fuel text) Q w.
Proof.
  intros Hfuel Hi HQ. unfold session_printf. case_bool_decide; [wp_steps; auto|].
  eapply wp_mono; [by eapply wp_session_write|]. intros r w' (? & _ & ? & _ & _). auto.
Qed.

(** *** Input *)

Lemma inv_with_inbuf l fg w T :
  inv t0 c0 fg w T → length l ≤ YASH_BUF_SIZE →
  inv t0 c0 fg (with_x (with_inbuf l (w_x w)) w) T.
Proof. intros [] Hl. split; try done. by eapply tbl_ext; [| |done]. Qed.

(** The text of a raw line: without the carriage return, if it ends in one. *)
Definition strip_cr (raw : bytes) : bytes :=
  if bool_decide (last raw = Some CR) then take (length raw - 1) raw ++ [NUL] else raw.

Lemma memchr_Some c l n :
  memchr c l = Some n ↔ ∃ l', l = take n l ++ c :: l' ∧ c ∉ take n l ∧ n < length l.
Proof.
  revert n. induction l as [|x l IH]; intros n; simpl.
  { split; [done|]. intros (l' & Hl & _). by destruct n. }
  case_bool_decide as Hx.
  - subst x. split.
    + intros [= <-]. exists l. split_and!; [done|by apply not_elem_of_nil|lia].
    + intros (l' & Hl & Hnot & _). destruct n as [|n]; [done|]. simpl in Hnot. set_solver.
  - rewrite fmap_Some. split.
    + intros (m & (l' & Hl & Hnot & Hm)%IH & ->). exists l'. simpl. split_and!; [congruence| |lia].
      rewrite not_elem_of_cons. split; [congruence|done].
    + intros (l' & Hl & Hnot & Hm). destruct n as [|n]; [simpl in Hl; congruence|].
      exists n. split; [|done]. apply IH. exists l'. simpl in *.
      rewrite not_elem_of_cons in Hnot. split_and!; [congruence|naive_solver|lia].
Qed.

(** A line is taken whole (the array is as large as the buffer): the text up to
    the first newline, and what follows stays. *)
Lemma wp_buf_take_line t (Q : option bytes → W → Prop) fg w T :
  inv t0 c0 fg w T →
  (LF ∉ inbuf (w_x w) → Q None w) →
  (∀ raw rest w', inbuf (w_x w) = raw ++ LF :: rest → LF ∉ raw →
     inv t0 c0 fg w' T → w_log w' = w_log w → inbuf (w_x w') = rest →
     Q (Some (strip_cr raw)) w') →
  wp t (buf_take_line YASH_BUF_SIZE) Q w.
Proof.
  intros Hi HNone HSome. unfold buf_take_line, sess. wp_steps.
  destruct (memchr LF (inbuf (w_x w))) as [nl|] eqn:Hm.
  - apply memchr_Some in Hm as (rest & Hsplit & Hnot & Hlt).
    set (raw := take nl (inbuf (w_x w))) in *.
    assert (Hraw : length raw = nl) by (subst raw; rewrite length_take; lia).
    pose proof (i_inbuf _ _ _ _ _ Hi) as Hb. rewrite !(bool_decide_false (YASH_BUF_SIZE ≤ nl)) by lia.
    assert (Hrest : drop (nl + 1) (inbuf (w_x w)) = rest).
    { rewrite Hsplit, <- drop_drop, drop_app_length' by done. done. }
    assert (Hline : (if bool_decide (0 < nl ∧ raw !! (nl - 1) = Some CR)
                     then <[nl - 1 := NUL]> raw else raw) = strip_cr raw).
    { unfold strip_cr. rewrite last_lookup, Hraw. replace (Nat.pred nl) with (nl - 1) by lia.
      destruct (decide (raw !! (nl - 1) = Some CR)) as [Hcr|Hcr].
      - assert (0 < nl) by (apply lookup_lt_Some in Hcr; lia).
        rewrite !bool_decide_true by done.
        rewrite insert_take_drop by lia. rewrite (drop_ge raw) by lia. done.
      - rewrite !bool_decide_false; [done|done|]. by intros [_ ?]. }
    subst raw. rewrite Hline. wp_steps.
    apply (HSome (take nl (inbuf (w_x w))) rest); [exact Hsplit|done| |done|exact Hrest].
    apply inv_with_inbuf; [done|]. rewrite length_drop. lia.
  - wp_steps. apply HNone. intros Hin. apply list_elem_of_split_l in Hin as (l1 & l2 & Hl & Hn).
    assert (memchr LF (inbuf (w_x w)) = Some (length l1)); [|congruence].
    apply memchr_Some. exists l2. rewrite Hl, take_app_length, length_app. split_and!; [done|done|].
    simpl. lia.
Qed.

(** What has been read from descriptor [fd], oldest byte first. *)
Fixpoint received (fd : Z) (h : history) : bytes :=
  match h with
  | [] => []
  | EvRead fd' _ (ReadBytes l) :: h' =>
      received fd h' ++ (if bool_decide (fd' = fd) then l else [])
  | _ :: h' => received fd h'
  end.

(** How [buf_fill] ends: the buffer was full and is dropped, the read failed,
    the client is gone, or bytes have been appended. *)
Inductive fill_case (w w' : W) (r : Z) : Prop :=
  | fill_drop : length (inbuf (w_x w)) = YASH_BUF_SIZE → r = (-1)%Z →
      inbuf (w_x w') = [] → w_log w' = w_log w → errno (w_x w') = errno (w_x w) →
      fill_case w w' r
  | fill_fail e : r = (-1)%Z → inbuf (w_x w') = inbuf (w_x w) → errno (w_x w') = e →
      received c0 (w_log w') = received c0 (w_log w) → progress alive (w_log w) (w_log w') → fill_case w w' r
  | fill_eof : r = 0%Z → inbuf (w_x w') = inbuf (w_x w) →
      length (w_log w) ≤ length (w_log w') → fill_case w w' r
  | fill_more l : r = Z.of_nat (length l) → l ≠ [] →
      inbuf (w_x w') = inbuf (w_x w) ++ l →
      received c0 (w_log w') = received c0 (w_log w) ++ l → progress alive (w_log w) (w_log w') →
      fill_case w w' r.

Lemma wp_buf_fill t (Q : Z → W → Prop) fg w T :
  inv t0 c0 fg w T →
  (∀ r w', inv t0 c0 fg w' T → fill_case w w' r → Q r w') →
  wp t buf_fill Q w.
Proof.
  intros Hi HQ. unfold buf_fill, sess. wp_steps; case_bool_decide as Hfull; try done.
  { apply HQ; [apply inv_with_inbuf; [done|simpl; lia]|]. by apply fill_drop. }
  rewrite (i_cfd _ _ _ _ _ Hi). pose proof (i_inbuf _ _ _ _ _ Hi) as Hb.
  eapply wp_read_d; [done|]. intros r w1 Hi1 Hl1 Hb1 Herr Hal Hle.
  assert (Hpr : r ≠ ReadBytes [] → progress alive (w_log w) (w_log w1)).
  { intros Hr. destruct Hal as [?|Hal]; [done|]. exists (w_log w). rewrite Hl1. simpl.
    split; [done|lia]. }
  destruct r as [l|e]; wp_steps.
  - case_bool_decide as Hl; [|done]. specialize (Hle l eq_refl).
    rewrite <- Hb1. apply HQ.
    + apply inv_with_inbuf; [done|]. rewrite Hb1, length_app. lia.
    + apply (fill_more _ _ _ l); [done|intros ->; simpl in Hl; lia|cbn; by rewrite Hb1| |].
      { cbn. rewrite Hl1. cbn. by rewrite bool_decide_true. }
      apply Hpr. intros [= ->]. simpl in Hl. lia.
  - case_bool_decide as Hl; [done|]. destruct l; [|simpl in Hl; lia].
    apply HQ; [done|]. apply fill_eof; [done|done|rewrite Hl1; simpl; lia].
  - apply HQ; [done|]. apply (fill_fail _ _ _ e); [done|done|by apply Herr|by rewrite Hl1|by apply Hpr].
Qed.

Lemma fill_case_len w w' r : fill_case w w' r → length (w_log w) ≤ length (w_log w').
Proof.
  intros [? ? ? Hl ?|e ? ? ? ? (h & ? & ?)|? ? ?|l ? ? ? ? (h & ? & ?)]; try lia. by rewrite Hl.
Qed.

(** One line off the socket: what was in the buffer and what has been read since
    is a number of full buffers without a newline, which are dropped, then the
    raw line, its newline, and what stays in the buffer. *)
Definition line_read (w w' : W) (line : bytes) : Prop :=
  ∃ new dropped raw,
    received c0 (w_log w') = received c0 (w_log w) ++ new ∧
    inbuf (w_x w) ++ new = dropped ++ raw ++ LF :: inbuf (w_x w') ∧
    LF ∉ dropped ∧ length dropped `mod` YASH_BUF_SIZE = 0 ∧
    LF ∉ raw ∧ line = strip_cr raw.

(** While the line is not complete. *)
Definition line_pending (w w1 : W) : Prop :=
  ∃ new dropped,
    received c0 (w_log w1) = received c0 (w_log w) ++ new ∧
    inbuf (w_x w) ++ new = dropped ++ inbuf (w_x w1) ∧
    LF ∉ dropped ∧ length dropped `mod` YASH_BUF_SIZE = 0.

Lemma wp_readsocket t fuel fg w T :
  fuel_ok2 alive t fuel → inv t0 c0 fg w T →
  wp t (session_readsocket fuel YASH_BUF_SIZE)
    (λ r w', inv t0 c0 fg w' T ∧ length (w_log w) ≤ length (w_log w') ∧
       match r with inl line => line_read w w' line | inr _ => True end) w.
Proof.
  intros Hfuel Hi. unfold session_readsocket.
  set (full := λ (_ : unit) (w : W),
    if bool_decide (length (inbuf (w_x w)) = YASH_BUF_SIZE) then 1 else 0).
  apply (wp_loop_rank alive _ _ (λ _ w1, inv t0 c0 fg w1 T ∧
    length (w_log w) ≤ length (w_log w1) ∧ line_pending w w1) _ full); [done| | |].
  { intros l w1. unfold full. case_bool_decide; lia. }
  2:{ split_and!; [done|done|]. exists [], []. rewrite app_nil_r, app_nil_r.
      split_and!; try done. by apply not_elem_of_nil. }
  clear Hi. intros [] w1 (Hi & Hlen & new & dr & Hrec & Hsp & Hdr & Hmod). wp_steps.
  eapply wp_buf_take_line; [done|..].
  2:{ intros raw rest w2 Hsplit Hraw Hi2 Hl2 Hrest. wp_steps.
      split_and!; [done|by rewrite Hl2|]. exists new, dr, raw. rewrite Hl2, Hrest.
      split_and!; try done. by rewrite Hsp, Hsplit. }
  intros Hno. wp_steps. eapply wp_buf_fill; [done|]. intros r w2 Hi2 Hc.
  pose proof (fill_case_len _ _ _ Hc) as Hlen2.
  destruct Hc as [Hfull -> Hb Hl He|e -> Hb He Hr Hpr| -> Hb Hl|l -> Hne Hb Hr Hpr].
  - rewrite bool_decide_false, bool_decide_true by lia. unfold sess.
    wp_steps; [|split_and!; [done|lia|done]]. split_and!; [done|lia| |].
    + exists new, (dr ++ inbuf (w_x w1)). rewrite Hl, Hb, app_nil_r.
      split_and!; [done|done|set_solver|].
      rewrite length_app, Hfull. rewrite <- Nat.Div0.add_mod_idemp_l, Hmod.
      by rewrite Nat.Div0.mod_same.
    + right. split; [|lia]. unfold full. rewrite Hb, bool_decide_false, bool_decide_true by done.
      lia.
  - rewrite bool_decide_false, bool_decide_true by lia. unfold sess.
    wp_steps; [|split_and!; [done|lia|done]]. split_and!; [done|lia| |by left].
    exists new, dr. rewrite Hb, Hr. done.
  - rewrite bool_decide_true by lia. wp_steps. split_and!; [done|lia|done].
  - assert (0 < length l) by (destruct l; [done|simpl; lia]).
    rewrite bool_decide_false, bool_decide_false by lia. wp_steps.
    split_and!; [done|lia| |by left]. exists (new ++ l), dr. rewrite Hr, Hrec, Hb.
    split_and!; [by rewrite (assoc_L (++))| |done|done]. by rewrite (assoc_L (++)), Hsp, <- (assoc_L (++)).
Qed.

End rules.
