(* ===== verification/YashdSession.v ===== *)
(** * Messages during a foreground job, and the job operations of a session

    The rules of [handle_ctl], [handle_text], [session_pump], [poll_job],
    [jobs_reap], [jobs_wait_fg], [jobs_remove], [jobs_kill_all], [fg] and [bg] of
    [Project 2/yashd/server/src]: each keeps the invariant of the session. *)

From S2P Require Import Prelude CString YashTypes Parse Posix JobTable Tables Redirect Launch Yashd YashdProps.
From stdpp Require Import base tactics list gmap strings.
From Stdlib Require Import Ascii ZArith Lia Sorted.

Section session.
Context `{Env} (t0 : fdtab) (c0 : Z).
Implicit Types (w : W) (j : job) (T : table Z) (t : mode) (fg : option loc).

Abbreviation drop_infd := (set_infd (-1)%Z).

(** ** Closing a job's input *)

Lemma infd_of_drop j : infd_of (drop_infd j) = [].
Proof. done. Qed.

Lemma inv_fds_close T1 l j T2 tb :
  fds_ok t0 tb (infds (T1 ++ (l, j) :: T2)) → (0 ≤ infd j)%Z →
  fds_ok t0 (fd_close (infd j) tb) (infds (T1 ++ T2)).
Proof.
  rewrite !infds_app, infds_cons. unfold infd_of. intros Hf Hp.
  rewrite bool_decide_true in Hf by done. by apply fds_ok_close.
Qed.

Lemma wp_close_infd t (Q : unit → W → Prop) fg w T1 l j T2 :
  inv t0 c0 fg w (T1 ++ (l, j) :: T2) → (0 ≤ infd j)%Z →
  (∀ w', inv t0 c0 fg w' (T1 ++ (l, drop_infd j) :: T2) →
     w_log w' = EvClose (infd j) :: w_log w → inbuf (w_x w') = inbuf (w_x w) → Q tt w') →
  wp t (close (infd j);; update l drop_infd) Q w.
Proof.
  intros Hi Hp HQ. unfold close, emit. wp_steps.
  match goal with |- wp _ _ _ ?x => set (w1 := x) end.
  assert (Hnd : NoDup (T1 ++ (l, j) :: T2).*1) by apply Hi.
  eapply (wp_update_tbl t l drop_infd Q w1 (T1 ++ (l, j) :: T2) j);
    [by eapply tbl_ext; [| |apply Hi]|apply elem_of_middle|].
  rewrite upd_tbl_middle by done. intros h' Ht'. apply HQ; [|done|done].
  destruct Hi as [Ht Hok Hown Hfds Hsock Hcfd Hfg Hb Hlog Hset Hlive Hfew]. split; try done.
  - rewrite <- (upd_tbl_middle l drop_infd T1 j T2 Hnd).
    apply tbl_ok_upd; [done|done|]. intros. by apply wf_set_infd.
  - eapply Forall_impl with (λ lj, owned (w_log w) (- pgid lj.2)).
    + apply Forall_app in Hown as [? [??]%Forall_cons]. apply Forall_app. split; [done|].
      by apply Forall_cons.
    + intros [k jk]. apply owned_cons.
  - cbn. rewrite infds_app, infds_cons, infd_of_drop. cbn. rewrite <- infds_app.
    by eapply inv_fds_close.
  - split; [apply Hfg|]. intros k Hk. destruct Hfg as [_ Hfg]. specialize (Hfg k Hk).
    rewrite fmap_app in Hfg |- *. done.
  - change (few_jids (w_log w) (T1 ++ (l, drop_infd j) :: T2)).
    rewrite <- (upd_tbl_middle l drop_infd T1 j T2 Hnd). by apply few_jids_upd.
Qed.

(** ** Messages *)

(** What messages may do to the table: the input of the foreground job is
    closed, or nothing. *)
Definition pumped fg T T' : Prop :=
  T' = T ∨ ∃ l, fg = Some l ∧ T' = upd_tbl l drop_infd T.

Lemma pumped_refl fg T : pumped fg T T.
Proof. by left. Qed.

Lemma pumped_trans fg T1 T2 T3 : pumped fg T1 T2 → pumped fg T2 T3 → pumped fg T1 T3.
Proof.
  intros [->|(l & -> & ->)] [->|(l' & [= ->] & ->)]; [by left|..]; right; try (by eexists).
  exists l'. split; [done|]. by rewrite upd_tbl_compose.
Qed.

Lemma fg_split fg w T l :
  inv t0 c0 fg w T → fg = Some l → ∃ T1 j T2, T = T1 ++ (l, j) :: T2.
Proof.
  intros Hi ->. destruct (i_fg _ _ _ _ _ Hi) as [_ Hin]. specialize (Hin l eq_refl).
  apply list_elem_of_fmap in Hin as [[k j] [-> Hin]].
  apply list_elem_of_split in Hin as (T1 & T2 & ->). by exists T1, j, T2.
Qed.

(** After a message: the invariant, and the buffer untouched. *)
Definition after_msg fg w T (w' : W) : Prop :=
  ∃ T', inv t0 c0 fg w' T' ∧ pumped fg T T' ∧ inbuf (w_x w') = inbuf (w_x w) ∧
    length (w_log w) ≤ length (w_log w').

Lemma after_close fg w T1 l j T2 w' :
  inv t0 c0 fg w (T1 ++ (l, j) :: T2) → fg = Some l →
  inv t0 c0 fg w' (T1 ++ (l, drop_infd j) :: T2) → inbuf (w_x w') = inbuf (w_x w) →
  length (w_log w) ≤ length (w_log w') → after_msg fg w (T1 ++ (l, j) :: T2) w'.
Proof.
  intros Hi -> Hi' Hb Hl. eexists. split; [exact Hi'|]. split; [|done]. right. exists l.
  split; [done|]. rewrite upd_tbl_middle; [done|apply Hi].
Qed.

Lemma after_same fg w T w' :
  inv t0 c0 fg w' T → inbuf (w_x w') = inbuf (w_x w) →
  length (w_log w) ≤ length (w_log w') → after_msg fg w T w'.
Proof. intros. exists T. split_and!; try done. apply pumped_refl. Qed.

Lemma wp_handle_ctl t arg fg w T :
  inv t0 c0 fg w T → wp t (handle_ctl arg) (λ _ w', after_msg fg w T w') w.
Proof.
  intros Hi. unfold handle_ctl, sess, kill. apply wp_bind, wp_gets. rewrite (proj1 (i_fg _ _ _ _ _ Hi)).
  destruct fg as [l|] eqn:Hfg.
  - destruct (fg_split _ _ _ l Hi eq_refl) as (T1 & j & T2 & ->).
    assert (Hin : (l, j) ∈ T1 ++ (l, j) :: T2) by apply elem_of_middle.
    wp_steps; try (by apply after_same);
      (eapply wp_deref_d; [done|done|]; intros n; cbn [pgid infd set_next]).
    + eapply wp_emit_d; [done|by eapply inv_owned|]. intros w1 Hi1 Hl1 Hx1.
      apply after_same; [done|by rewrite Hx1|rewrite Hl1; simpl; lia].
    + eapply wp_emit_d; [done|by eapply inv_owned|]. intros w1 Hi1 Hl1 Hx1.
      apply after_same; [done|by rewrite Hx1|rewrite Hl1; simpl; lia].
    + destruct (decide (0 ≤ infd j)%Z) as [Hp|Hp];
        [rewrite bool_decide_true by done|rewrite bool_decide_false by done].
      * eapply (wp_close_infd t _ _ _ T1 l j T2); [done|done|]. intros w1 Hi1 Hl1 Hb1.
        eapply after_close; [done|done|done|done|rewrite Hl1; simpl; lia].
      * eapply wp_upd_sess; [apply _|done|]. intros w1 Hi1 Hl1 Hx1.
        apply after_same; [done|by rewrite Hx1|by rewrite Hl1].
  - wp_steps; try (by apply after_same).
    eapply (wp_upd_sess _ _ t with_quit); [done|]. intros w1 Hi1 Hl1 Hx1.
    apply after_same; [done|by rewrite Hx1|by rewrite Hl1].
Qed.

Lemma wp_handle_text t line fg w T :
  inv t0 c0 fg w T → wp t (handle_text line) (λ _ w', after_msg fg w T w') w.
Proof.
  intros Hi. unfold handle_text, sess. wp_steps. rewrite (proj1 (i_fg _ _ _ _ _ Hi)).
  destruct fg as [l|] eqn:Hfg; [|wp_steps; by apply after_same].
  destruct (fg_split _ _ _ l Hi eq_refl) as (T1 & j & T2 & ->).
  assert (Hin : (l, j) ∈ T1 ++ (l, j) :: T2) by apply elem_of_middle.
  wp_steps. eapply wp_deref_d; [done|done|]; intros n; cbn [pgid infd set_next].
  case_bool_decide as Hp; [wp_steps; by apply after_same|].
  apply Z.nlt_ge in Hp. wp_steps.
  eapply wp_write_d; [done|]. intros r1 w1 Hi1 Hl1 Hb1 _ _.
  assert (Hclose : ∀ w2, inv t0 c0 (Some l) w2 (T1 ++ (l, j) :: T2) →
    inbuf (w_x w2) = inbuf (w_x w) → length (w_log w) ≤ length (w_log w2) →
    wp t (close (infd j);; update l drop_infd)
      (λ _ w', after_msg (Some l) w (T1 ++ (l, j) :: T2) w') w2).
  { intros w2 Hi2 Hb2 Hl2. eapply (wp_close_infd t _ _ _ T1 l j T2); [done|done|].
    intros w3 Hi3 Hl3 Hb3.
    eapply after_close; [exact Hi|done|done|by rewrite Hb3|rewrite Hl3; simpl; lia]. }
  destruct r1 as [n1|e1]; wp_steps.
  - eapply wp_write_d; [done|]. intros r2 w2 Hi2 Hl2 Hb2 _ _.
    destruct r2 as [n2|e2]; wp_steps; try done.
    + apply after_same; [done|by rewrite Hb2|rewrite Hl2, Hl1; simpl; lia].
    + apply Hclose; [done|by rewrite Hb2|rewrite Hl2, Hl1; simpl; lia].
  - by apply Hclose; [..|rewrite Hl1; simpl; lia].
Qed.

Lemma wp_dispatch_running t line fg w T :
  inv t0 c0 fg w T → wp t (dispatch_running line) (λ _ w', after_msg fg w T w') w.
Proof.
  intros Hi. unfold dispatch_running.
  destruct (strneq _ _ _); [by apply wp_handle_ctl|by apply wp_handle_text].
Qed.

(** *** The socket while a job runs *)

(** The loop that drains the buffer always ends: each turn shortens it. *)
Lemma wp_drain t fg w T :
  inv t0 c0 fg w T →
  wp t drain (λ _ w', ∃ T', inv t0 c0 fg w' T' ∧ pumped fg T T' ∧
                length (w_log w) ≤ length (w_log w')) w.
Proof.
  intros Hi. unfold drain, sess. apply wp_bind, wp_gets.
  match goal with |- wp _ (loop _ ?body _) _ _ => set (bd := body) end.
  cut (∀ n w1 T1, inv t0 c0 fg w1 T1 → pumped fg T T1 → length (w_log w) ≤ length (w_log w1) →
         length (inbuf (w_x w1)) < n →
         wp t (loop n bd tt) (λ _ w', ∃ T', inv t0 c0 fg w' T' ∧ pumped fg T T' ∧
           length (w_log w) ≤ length (w_log w')) w1).
  { intros Hg. eapply Hg; [done|apply pumped_refl|done|lia]. }
  clear Hi. intros n. induction n as [|n IH]; intros w1 T1 Hi Hp Hl Hn; [lia|].
  rewrite loop_S. apply wp_bind. unfold bd at 1. apply wp_bind.
  eapply wp_buf_take_line; [done|..].
  - intros _. apply wp_ret, wp_ret. by exists T1.
  - intros raw rest w2 Hsplit _ Hi2 Hl2 Hb2. apply wp_bind.
    eapply wp_mono; [by apply wp_dispatch_running|].
    intros [] w3 (T3 & Hi3 & Hp3 & Hb3 & Hl3). apply wp_ret.
    apply (IH w3 T3); [done|by eapply pumped_trans|rewrite Hl2 in Hl3; lia|].
    rewrite Hb3, Hb2. rewrite Hsplit, length_app in Hn. simpl in Hn. lia.
Qed.

Lemma wp_session_pump t fg w T :
  inv t0 c0 fg w T →
  wp t session_pump (λ _ w', ∃ T', inv t0 c0 fg w' T' ∧ pumped fg T T' ∧
                       length (w_log w) ≤ length (w_log w')) w.
Proof.
  intros Hi. unfold session_pump, sess, select. apply wp_bind.
  eapply wp_mono; [by apply wp_drain|]. intros [] w1 (T1 & Hi1 & Hp1 & Hl1). wp_steps.
  pose proof (i_sock _ _ _ _ _ Hi1) as (_ & Hpos & _). pose proof (i_set _ _ _ _ _ Hi1) as Hset.
  apply wp_check; [rewrite (i_cfd _ _ _ _ _ Hi1); apply bool_decide_true; lia|]. wp_steps.
  eapply wp_emit_d; [done|done|]. intros w2 Hi2 Hl2 _. apply wp_ret.
  destruct (e_select _ _); wp_steps.
  - eapply wp_buf_fill; [done|]. intros r w3 Hi3 Hc. apply fill_case_len in Hc.
    rewrite Hl2 in Hc. simpl in Hc. wp_steps.
    + exists T1. split_and!; [done|done|lia].
    + eapply wp_mono; [by apply wp_drain|]. intros [] w4 (T4 & Hi4 & Hp4 & Hl4). wp_steps.
      exists T4. split_and!; [done|by eapply pumped_trans|lia].
  - exists T1. split_and!; [done|done|rewrite Hl2; simpl; lia].
Qed.

(** ** Collecting status changes *)

#[local] Instance bn_clear_pid p : Benign (clear_pid p).
Proof.
  split; try done. intros l j [Hb Hbn Hc Hcn Hn Hlen Hcs Hne].
  assert (Ht : take (ncmds j) (cmds (clear_pid p j)) =
    (λ c, if bool_decide (pid c = p) then set_pid 0 c else c) <$> take (ncmds j) (cmds j)).
  { cbn. rewrite take_app_length'; [done|]. rewrite length_fmap, length_take. lia. }
  split; try done; change (ncmds (clear_pid p j)) with (ncmds j); rewrite ?Ht.
  - cbn. rewrite length_app, length_fmap, length_take, length_drop. lia.
  - rewrite Forall_fmap. eapply Forall_impl; [exact Hcs|]. intros c [] . cbn.
    case_bool_decide; by split.
  - rewrite Forall_fmap. eapply Forall_impl; [exact Hne|]. intros c ?. cbn. by case_bool_decide.
Qed.

(** The entry [(l, j)] after polling: only harmless members change. *)
Definition polled T1 l j T2 (w' : W) fg (j' : job) : Prop :=
  inv t0 c0 fg w' (T1 ++ (l, j') :: T2) ∧ pgid j' = pgid j ∧ infd j' = infd j ∧ jid j' = jid j.

Lemma polled_step t f `{!Benign f} (Q : unit → W → Prop) fg w T1 l j j0 T2 :
  polled T1 l j0 T2 w fg j →
  (∀ w', polled T1 l j0 T2 w' fg (f j) → w_log w' = w_log w → Q tt w') →
  wp t (update l f) Q w.
Proof.
  intros (Hi & Hp & Hf & Hj) HQ. eapply wp_update_d; [apply _|exact Hi|apply elem_of_middle|].
  intros w' Hi' Hl'. rewrite upd_tbl_middle in Hi' by apply Hi. apply HQ; [|done].
  split; [done|]. by rewrite bn_pgid, bn_infd, bn_jid.
Qed.

Lemma wp_poll_job t fuel block fg w T1 l j T2 :
  fuel_ok alive t fuel → inv t0 c0 fg w (T1 ++ (l, j) :: T2) →
  wp t (poll_job fuel l block)
    (λ r w', ∃ j', polled T1 l j T2 w' fg j' ∧ length (w_log w) ≤ length (w_log w') ∧
       (r = true → state j' = JOB_STOPPED) ∧
       (r = false → (nlive j' ≤ 0)%Z ∨ progress alive (w_log w) (w_log w'))) w.
Proof.
  intros Hfuel Hi. unfold poll_job.
  apply (wp_loop_env alive _ _ (λ _ w', ∃ j', polled T1 l j T2 w' fg j' ∧
    length (w_log w) ≤ length (w_log w'))); [done| |by exists j].
  clear Hi. intros _ w1 (j1 & (Hi & Hpg & Hfd & Hjd) & Hlen). wp_steps.
  assert (Hin : (l, j1) ∈ T1 ++ (l, j1) :: T2) by apply elem_of_middle.
  eapply wp_deref_d; [done|done|]. intros m. cbn [nlive pgid set_next].
  case_bool_decide as Hn; wp_steps.
  2:{ exists j1. split_and!; [done|done|done|]. intros _. left. lia. }
  eapply wp_waitpid_d; [done|by eapply inv_owned|]. intros r w2 Hi2 Hl2 Hnone Hal.
  assert (Hlen2 : length (w_log w) ≤ length (w_log w2)) by (rewrite Hl2; simpl; lia).
  assert (Hpr : r ≠ WaitErr ECHILD → progress alive (w_log w1) (w_log w2)).
  { intros Hr. destruct Hal as [?|Hal]; [done|]. exists (w_log w1). rewrite Hl2. simpl.
    split; [done|lia]. }
  assert (Hpd : polled T1 l j T2 w2 fg j1) by done.
  destruct r as [|e|p st].
  - wp_steps. exists j1. split_and!; [done|done|done|]. intros _. right.
    by eapply progress_trans_l, Hpr.
  - case_bool_decide as He; wp_steps.
    + subst e. split; [by exists j1|]. by apply Hpr.
    + eapply (polled_step t (set_nlive 0)); [done|]. intros w3 Hpd3 Hl3. wp_steps.
      exists (set_nlive 0 j1). split_and!; [done|by rewrite Hl3|done|]. intros _. by left.
  - destruct (WIFSTOPPED st); [|destruct (WIFCONTINUED st)]; wp_steps.
    + eapply (polled_step t (set_state JOB_STOPPED)); [done|]. intros w3 Hpd3 Hl3. wp_steps.
      exists (set_state JOB_STOPPED j1). split_and!; [done|by rewrite Hl3|done|done].
    + eapply (polled_step t (set_state JOB_RUNNING)); [done|]. intros w3 Hpd3 Hl3. wp_steps.
      split; [|rewrite Hl3; by apply Hpr]. eexists. split; [exact Hpd3|by rewrite Hl3].
    + eapply (polled_step t (clear_pid (Z.pos p))); [done|]. intros w3 Hpd3 Hl3. wp_steps.
      eapply (polled_step t (λ j, set_nlive (nlive j - 1) j)); [done|]. intros w4 Hpd4 Hl4. wp_steps.
      split; [|rewrite Hl4, Hl3; by apply Hpr]. eexists. split; [exact Hpd4|by rewrite Hl4, Hl3].
Qed.

(** ** Removing a job *)

Definition fg_without fg (l : loc) : option loc := if bool_decide (fg = Some l) then None else fg.

Lemma bypass_frame w T1 j :
  w_log (bypass w T1 j) = w_log w ∧ w_fds (bypass w T1 j) = w_fds w ∧ w_x (bypass w T1 j) = w_x w.
Proof. unfold bypass. by destruct (last T1) as [[??]|]. Qed.

(** The invariant without the entry, once its descriptor is closed. *)
Lemma inv_removed fg w T1 l j T2 w' :
  inv t0 c0 fg w (T1 ++ (l, j) :: T2) →
  tbl w' (T1 ++ T2) →
  (∃ h, w_log w' = h ++ w_log w ∧ log_ok t0 c0 (w_log w')) →
  w_fds w' = (if bool_decide (0 ≤ infd j)%Z then fd_close (infd j) (w_fds w) else w_fds w) →
  cfd (w_x w') = cfd (w_x w) → live (w_x w') = live (w_x w) →
  inbuf (w_x w') = inbuf (w_x w) → fg_job (w_x w') = fg_without fg l →
  inv t0 c0 (fg_without fg l) w' (T1 ++ T2).
Proof.
  intros [Ht Hok Hown Hfds Hsock Hcfd [Hfg Hin] Hb Hlog Hset Hlive Hfew] Ht' (h & Hl & Hlog') Hf Hc Hv
    Hb' Hfg'.
  split; try done.
  - by eapply tbl_ok_remove.
  - rewrite Hl. apply Forall_app in Hown as [H1 [_ H2]%Forall_cons].
    apply Forall_app; split; [eapply Forall_impl; [exact H1|]|eapply Forall_impl; [exact H2|]];
      intros [k jk]; apply owned_app.
  - rewrite Hf. case_bool_decide as Hp; [by eapply inv_fds_close|].
    rewrite infds_app, infds_cons in Hfds. unfold infd_of in Hfds.
    rewrite bool_decide_false in Hfds by done. by rewrite infds_app.
  - by rewrite Hc.
  - split; [done|]. unfold fg_without. intros k Hk. case_bool_decide as Hfl; [done|].
    specialize (Hin k Hk). rewrite fmap_app in Hin |- *. simpl in Hin.
    rewrite elem_of_app, elem_of_cons in Hin. rewrite elem_of_app. naive_solver.
  - by rewrite Hb'.
  - by rewrite Hv.
  - rewrite Hl. by eapply few_jids_app, few_jids_remove.
Qed.

Lemma wp_remove_d t (Q : unit → W → Prop) fg w T1 l j T2 :
  inv t0 c0 fg w (T1 ++ (l, j) :: T2) →
  (∀ w', inv t0 c0 (fg_without fg l) w' (T1 ++ T2) →
     length (w_log w) ≤ length (w_log w') → inbuf (w_x w') = inbuf (w_x w) → Q tt w') →
  wp t (jobs_remove l) Q w.
Proof.
  intros Hi HQ. unfold jobs_remove. eapply wp_jobs_unlink; [apply Hi|].
  intros w1 n Hw1 Hl Ht1. destruct (bypass_frame w T1 (set_next n j)) as (Elog & Efds & Ex).
  rewrite <- Hw1 in Elog, Efds, Ex. clear Hw1. unfold remove_hook, sess. wp_steps.
  eapply wp_deref; [exact Hl|]. cbn [infd set_next].
  match goal with |- wp _ _ ?Q0 _ => set (K := Q0) end. apply wp_bind.
  assert (Hrest : ∀ w2, w_heap w2 = w_heap w1 → w_list w2 = w_list w1 → w_x w2 = w_x w →
    (∃ h, w_log w2 = h ++ w_log w ∧ log_ok t0 c0 (w_log w2)) →
    w_fds w2 = (if bool_decide (0 ≤ infd j)%Z then fd_close (infd j) (w_fds w) else w_fds w) →
    wp t (gets (λ w0, fg_job (w_x w0)) ≫= (λ x,
      when (bool_decide (x = Some l)) (upd_sess (with_fg None)))) K w2).
  { intros w2 Eh El Ex2 Elog2 Ef2. subst K. apply wp_bind, wp_gets. rewrite Ex2.
    destruct (i_fg _ _ _ _ _ Hi) as [Hfg _]. rewrite Hfg.
    assert (Hlen : length (w_log w) ≤ length (w_log w2)).
    { destruct Elog2 as (h & -> & _). rewrite length_app. lia. }
    apply wp_when; intros Hb; (split; [cbn; rewrite Eh; by eexists|]); apply HQ; cbn;
      try done; try by rewrite Ex2.
    - eapply inv_removed; try done; cbn; try by rewrite Ex2.
      + by eapply tbl_ext; [| |exact Ht1]; cbn; rewrite ?Eh, ?El.
      + unfold fg_without. by rewrite Hb.
    - eapply inv_removed; try done; cbn; try by rewrite Ex2.
      + by eapply tbl_ext; [| |exact Ht1]; cbn; rewrite ?Eh, ?El.
      + rewrite Ex2. unfold fg_without. by rewrite Hb, Hfg. }
  destruct (decide (0 ≤ infd j)%Z) as [Hp|Hp];
    [rewrite bool_decide_true in Hrest |- * by done|rewrite bool_decide_false in Hrest |- * by done].
  - apply wp_bind, wp_modify, wp_modify. apply Hrest; cbn; rewrite ?Elog, ?Efds, ?Ex; try done.
    exists [EvClose (infd j)]. split; [done|]. split; [done|apply Hi].
  - apply wp_ret. apply Hrest; rewrite ?Elog, ?Efds, ?Ex; try done.
    exists []. split; [done|apply Hi].
Qed.

(** ** The sweep before the prompt *)

(** The keys and everything a job is waited for by are kept. *)
Definition same_jobs T T' : Prop :=
  (λ lj : loc * job, (lj.1, jid lj.2, pgid lj.2, infd lj.2)) <$> T'
  = (λ lj, (lj.1, jid lj.2, pgid lj.2, infd lj.2)) <$> T.

Lemma same_jobs_refl T : same_jobs T T.
Proof. done. Qed.

Lemma same_jobs_fst T T' : same_jobs T T' → T'.*1 = T.*1.
Proof.
  intros Hs. apply (f_equal (fmap (λ x, x.1.1.1))) in Hs. by rewrite <- !list_fmap_compose in Hs.
Qed.

Lemma wp_reap_poll t fuel fg w T :
  fuel_ok alive t fuel → inv t0 c0 fg w T →
  wp t (reap_poll fuel)
    (λ _ w', ∃ T', inv t0 c0 fg w' T' ∧ same_jobs T T' ∧
       length (w_log w) ≤ length (w_log w')) w.
Proof.
  intros Hfuel Hi. unfold reap_poll.
  eapply (wp_walk_tbl t T (λ T1 _ w', ∃ Ta Tb, T1 ++ Tb = T ∧ same_jobs T1 Ta ∧
    inv t0 c0 fg w' (Ta ++ Tb) ∧ length (w_log w) ≤ length (w_log w'))); [apply Hi| | |].
  - exists [], T. split_and!; done.
  - intros T1 l j T2 [] w1 HT (Ta & Tb & HT' & Hs & Hi1 & Hl1) Hc.
    assert (Tb = (l, j) :: T2) as -> by (rewrite HT in HT'; by apply app_inv_head in HT').
    match goal with |- wp _ _ ?Q0 _ => set (K := Q0) end.
    assert (HK : ∀ w2 j2, polled Ta l j T2 w2 fg j2 → length (w_log w) ≤ length (w_log w2) →
      K (inl tt) w2).
    { intros w2 j2 Hpd Hl2. subst K. cbn beta iota. split.
      - exists (Ta ++ [(l, j2)]), T2. split_and!; [by rewrite <- (assoc_L (++))| |
          rewrite <- (assoc_L (++)); apply Hpd|done].
        destruct Hpd as (_ & Ep & Ef & Ej). unfold same_jobs in *.
        rewrite !fmap_app, Hs. cbn. by rewrite Ep, Ef, Ej.
      - eapply (chain_suffix _ Ta ((l, j2) :: T2)); [apply Hpd|done]. }
    assert (Hin : (l, j) ∈ Ta ++ (l, j) :: T2) by apply elem_of_middle.
    assert (Hpd0 : polled Ta l j T2 w1 fg j) by done.
    apply wp_bind. eapply wp_deref_d; [done|done|]. intros n. cbn [state nlive set_next].
    destruct (_ && _); [|apply wp_bind, wp_ret, wp_ret; by apply (HK w1 j)].
    apply wp_bind, wp_bind. eapply wp_mono; [by apply wp_poll_job|].
    intros [] w2 (j2 & Hpd2 & Hl2 & _ & _); [apply wp_ret, wp_ret; apply (HK w2 j2); [done|lia]|].
    apply wp_bind. eapply wp_deref_d; [apply Hpd2|apply elem_of_middle|].
    intros m. cbn [nlive set_next]. wp_step.
    + eapply (polled_step t (set_state JOB_DONE)); [done|]. intros w3 Hpd3 Hl3. apply wp_ret.
      apply (HK _ _ Hpd3). rewrite Hl3. lia.
    + apply wp_ret. apply (HK w2 j2); [done|lia].
  - intros [] w1 (Ta & Tb & HT & Hs & Hi1 & Hl1). wp_steps.
    assert (Tb = []) as ->.
    { rewrite <- (app_nil_r T) in HT at 2. by apply app_inv_head in HT. }
    exists Ta. rewrite app_nil_r in Hi1. done.
Qed.

Lemma wp_print_d t fuel l mark st (Q : unit → W → Prop) fg w T j :
  fuel_ok alive t fuel → inv t0 c0 fg w T → (l, j) ∈ T →
  (∀ w', inv t0 c0 fg w' T → w_log w `suffix_of` w_log w' → Q tt w') →
  wp t (jobs_print_one fuel l mark st) Q w.
Proof.
  intros Hfuel Hi Hin HQ. unfold jobs_print_one. apply wp_bind.
  eapply wp_deref_d; [done|done|]. intros n. apply wp_bind.
  eapply wp_session_printf; [done|done|]. intros r w' Hi' Hl'. by apply wp_ret, HQ.
Qed.

Lemma wp_current_d t (Q : option loc → W → Prop) fg w T :
  inv t0 c0 fg w T → Q (current T) w → wp t jobs_current Q w.
Proof. apply (ji_current (inv t0 c0 fg)). Qed.

Lemma wp_recent_stopped_d t (Q : option loc → W → Prop) fg w T :
  inv t0 c0 fg w T → Q (fst <$> last_such stopped T) w → wp t jobs_recent_stopped Q w.
Proof. apply (ji_recent_stopped (inv t0 c0 fg)). Qed.

Lemma wp_reap_done_d t fuel w T :
  fuel_ok alive t fuel → inv t0 c0 None w T →
  wp t (reap_done fuel)
    (λ _ w', inv t0 c0 None w' (filter (λ lj, ¬ is_done lj) T) ∧
       length (w_log w) ≤ length (w_log w')) w.
Proof.
  intros Hfuel Hi. unfold reap_done.
  eapply (wp_walk_saving_tbl t T (λ T1 _ w', ∃ T2, T = T1 ++ T2 ∧
    inv t0 c0 None w' (filter (λ lj, ¬ is_done lj) T1 ++ T2) ∧
    length (w_log w) ≤ length (w_log w'))); [apply Hi|by exists T| |].
  - intros T1 l j T2 [] w1 p HT (T2' & HT' & Hi1 & Hl1) _ Hp.
    assert (T2' = (l, j) :: T2) as -> by (rewrite HT in HT'; by apply app_inv_head in HT').
    apply chain_head in Hp. apply wp_bind.
    eapply wp_deref_d; [done|apply elem_of_middle|]. intros n. cbn [state set_next].
    apply wp_bind. case_bool_decide as Hd.
    + apply wp_bind. eapply wp_current_d; [done|]. apply wp_bind.
      eapply wp_print_d; [done|done|apply elem_of_middle|]. intros w2 Hi2 Hl2%suffix_length.
      eapply wp_remove_d; [exact Hi2|]. intros w3 Hi3 Hl3 _. apply wp_ret.
      split; [|eapply chain_suffix; [apply Hi3|done]].
      exists T2. split; [by rewrite <- (assoc_L (++))|].
      rewrite filter_snoc, decide_False by (intros Hn; by apply Hn). rewrite app_nil_r.
      split; [done|lia].
    + apply wp_ret, wp_ret. split.
      * exists T2. split; [by rewrite <- (assoc_L (++))|].
        rewrite filter_snoc, decide_True by done. rewrite <- (assoc_L (++)). done.
      * eapply (chain_suffix _ (filter (λ lj, ¬ is_done lj) T1 ++ [(l, j)])); [|done].
        rewrite <- (assoc_L (++)). apply Hi1.
  - intros [] w1 (T2 & HT & Hi1 & Hl1). assert (T2 = []) as ->.
    { rewrite <- (app_nil_r T) in HT at 1. by apply app_inv_head in HT. }
    apply wp_ret. by rewrite app_nil_r in Hi1.
Qed.

Lemma wp_reap_d t fuel w T :
  fuel_ok alive t fuel → inv t0 c0 None w T →
  wp t (jobs_reap fuel)
    (λ _ w', ∃ T1, same_jobs T T1 ∧ inv t0 c0 None w' (filter (λ lj, ¬ is_done lj) T1) ∧
       length (w_log w) ≤ length (w_log w')) w.
Proof.
  intros Hfuel Hi. unfold jobs_reap. apply wp_bind.
  eapply wp_mono; [by apply wp_reap_poll|]. intros [] w1 (T1 & Hi1 & Hs & Hl1).
  eapply wp_mono; [by apply wp_reap_done_d|]. intros [] w2 [Hi2 Hl2].
  exists T1. split_and!; [done|done|lia].
Qed.

(** ** The foreground wait *)

(** The entry [(l, j)] while it is waited for. *)
Definition fg_entry T1 l j T2 (w' : W) (j' : job) : Prop :=
  inv t0 c0 (Some l) w' (T1 ++ (l, j') :: T2) ∧ pgid j' = pgid j ∧ jid j' = jid j ∧
  (infd j' = infd j ∨ infd j' = (-1)%Z).

Lemma fg_entry_pumped T1 l j T2 w1 j1 w2 T' :
  fg_entry T1 l j T2 w1 j1 → inv t0 c0 (Some l) w2 T' →
  pumped (Some l) (T1 ++ (l, j1) :: T2) T' →
  ∃ j2, fg_entry T1 l j T2 w2 j2 ∧ T' = T1 ++ (l, j2) :: T2 ∧ nlive j2 = nlive j1.
Proof.
  intros (Hi1 & Hp & Hj & Hf) Hi2 [->|(l' & [= <-] & ->)]; [by exists j1|].
  rewrite upd_tbl_middle in Hi2 |- * by apply Hi1. exists (drop_infd j1).
  split_and!; try done. split_and!; try done. by right.
Qed.

Lemma fg_entry_polled T1 l j T2 w1 j1 w2 j2 :
  fg_entry T1 l j T2 w1 j1 → polled T1 l j1 T2 w2 (Some l) j2 → fg_entry T1 l j T2 w2 j2.
Proof.
  intros (Hi1 & Hp & Hj & Hf) (Hi2 & Hp2 & Hf2 & Hj2). split_and!; [done|congruence..|].
  rewrite Hf2. destruct Hf as [-> | ->]; auto.
Qed.

(** 1 while a process of the job is left. *)
Definition live_rank (l : loc) (_ : unit) (w : W) : nat :=
  match w_heap w !! l with
  | Some j => if bool_decide (0 < nlive j)%Z then 1 else 0
  | None => 0
  end.

Lemma live_rank_entry l T1 j T2 w fg x :
  inv t0 c0 fg w (T1 ++ (l, j) :: T2) →
  live_rank l x w = if bool_decide (0 < nlive j)%Z then 1 else 0.
Proof.
  intros Hi. destruct (tbl_lookup _ _ l j (i_tbl _ _ _ _ _ Hi)) as [n Hn]; [apply elem_of_middle|].
  unfold live_rank. by rewrite Hn.
Qed.

Lemma wp_wait_fg_d t fuel w T1 l j T2 :
  fuel_ok2 alive t fuel → inv t0 c0 (Some l) w (T1 ++ (l, j) :: T2) →
  wp t (jobs_wait_fg fuel l)
    (λ _ w', ∃ j', fg_entry T1 l j T2 w' j' ∧
       (state j' = JOB_STOPPED ∨ state j' = JOB_DONE) ∧
       length (w_log w) ≤ length (w_log w')) w.
Proof.
  intros Hfuel Hi. unfold jobs_wait_fg. apply wp_bind.
  apply (wp_loop_rank alive _ _ (λ _ w', ∃ j', fg_entry T1 l j T2 w' j' ∧
    length (w_log w) ≤ length (w_log w')) _ (live_rank l)); [done| | |].
  { intros x w1. unfold live_rank. repeat case_match; lia. }
  2:{ exists j. split; [|done]. split_and!; try done. by left. }
  clear Hi. intros [] w1 (j1 & Hfe & Hl1). pose proof Hfe as (Hi & _).
  apply wp_bind. eapply wp_deref_d; [done|apply elem_of_middle|]. intros n. cbn [nlive set_next].
  case_bool_decide as Hn.
  2:{ apply wp_ret. cbn beta iota.
      eapply (polled_step t (set_state JOB_DONE) _ (Some l) w1 T1 l j1 j1 T2); [done|].
      intros w2 Hpd Hl2. exists (set_state JOB_DONE j1). split_and!; [|by right|by rewrite Hl2].
      by eapply fg_entry_polled. }
  (* the step shared by the two branches *)
  assert (Hpoll : ∀ block w2 j2, fg_entry T1 l j T2 w2 j2 → nlive j2 = nlive j1 →
    length (w_log w1) ≤ length (w_log w2) →
    wp t (poll_job fuel l block ≫= λ st : bool, if st then mret (inr true) else mret (inl tt))
      (λ (r : unit + bool) w', match r with
                | inl l' => (∃ j', fg_entry T1 l j T2 w' j' ∧ length (w_log w) ≤ length (w_log w')) ∧
                    (progress alive (w_log w1) (w_log w') ∨
                     live_rank l l' w' < live_rank l tt w1 ∧
                     length (w_log w1) ≤ length (w_log w'))
                | inr a => wp t (if (a : bool) then mret tt else update l (set_state JOB_DONE))
                    (λ _ w', ∃ j', fg_entry T1 l j T2 w' j' ∧
                       (state j' = JOB_STOPPED ∨ state j' = JOB_DONE) ∧
                       length (w_log w) ≤ length (w_log w')) w'
                end) w2).
  { intros block w2 j2 Hfe2 Hn2 Hl2. apply wp_bind.
    eapply wp_mono; [apply wp_poll_job; [by apply fuel_ok2_ok|apply Hfe2]|].
    intros r w3 (j3 & Hpd & Hl3 & Hstop & Hgo).
    pose proof (fg_entry_polled _ _ _ _ _ _ _ _ Hfe2 Hpd) as Hfe3.
    destruct r; apply wp_ret.
    - apply wp_ret. exists j3. split_and!; [done|left; by apply Hstop|lia].
    - split; [exists j3; split; [done|lia]|]. destruct (Hgo eq_refl) as [Hz|Hpr].
      + right. split; [|lia]. rewrite (live_rank_entry l T1 j3 T2 w3 (Some l)) by apply Hfe3.
        rewrite (live_rank_entry l T1 j1 T2 w1 (Some l)) by apply Hfe.
        rewrite bool_decide_false, bool_decide_true by lia. lia.
      + left. by eapply progress_trans_l. }
  apply wp_bind, wp_gets. destruct (quit (w_x w1)); cbn [negb].
  { by eapply Hpoll. }
  apply wp_bind. eapply wp_mono; [by apply wp_session_pump|].
  intros r w2 (T' & Hi2 & Hpu & Hl2).
  destruct (fg_entry_pumped _ _ _ _ _ _ _ _ Hfe Hi2 Hpu) as (j2 & Hfe2 & -> & Hn2).
  apply wp_bind, wp_when; intros Hr; [|by eapply Hpoll].
  apply wp_bind. eapply (wp_upd_sess _ _ t with_quit); [done|]. intros w3 Hi3 Hl3 _.
  apply wp_bind. eapply wp_deref_d; [done|apply elem_of_middle|]. intros m. cbn [pgid set_next].
  eapply wp_emit_d; [done|eapply inv_owned; [done|apply elem_of_middle]|]. intros w4 Hi4 Hl4 _.
  eapply Hpoll; [|done|rewrite Hl4, Hl3; simpl; lia]. destruct Hfe2 as (_ & ? & ? & ?). done.
Qed.

End session.
