(* ===== verification/YashdJobs.v ===== *)
(** * The built-in commands of a session, and its end

    The rules of [jobs_print], [do_fg], [do_bg], [builtin_try] and
    [jobs_kill_all] of [Project 2/yashd/server/src]: each keeps the invariant of
    the session, and [jobs_kill_all] leaves nothing behind. *)

From S2P Require Import Prelude CString YashTypes Parse Posix JobTable Tables Redirect Launch Yashd YashdProps YashdSession.
From stdpp Require Import base tactics list gmap strings.
From Stdlib Require Import Ascii ZArith Lia Sorted.

Section jobs.
Context `{Env} (t0 : fdtab) (c0 : Z).
Implicit Types (w : W) (j : job) (T : table Z) (t : mode) (fg : option loc).

(** ** jobs, bg *)

Lemma wp_jobs_print_d t fuel fg w T :
  fuel_ok alive t fuel → inv t0 c0 fg w T →
  wp t (jobs_print fuel)
    (λ _ w', inv t0 c0 fg w' T ∧ length (w_log w) ≤ length (w_log w')) w.
Proof.
  intros Hfuel Hi. unfold jobs_print. apply wp_bind. eapply wp_current_d; [done|].
  eapply (wp_walk_tbl t T (λ T1 _ w', inv t0 c0 fg w' T ∧
    length (w_log w) ≤ length (w_log w'))); [apply Hi|done| |].
  - intros T1 l j T2 [] w1 HT (Hi1 & Hl1) Hc. apply wp_bind.
    assert (Hin : (l, j) ∈ T) by (rewrite HT; apply elem_of_middle).
    eapply wp_deref_d; [done|done|]. intros n. apply wp_bind.
    eapply wp_print_d; [done|done|done|]. intros w2 Hi2 Hl2%suffix_length. apply wp_ret.
    split; [split; [done|lia]|].
    eapply (chain_suffix _ T1 ((l, j) :: T2)); [|done]. rewrite <- HT. apply Hi2.
  - intros [] w1 [Hi1 Hl1]. by apply wp_ret.
Qed.

Lemma wp_do_bg_d t fuel fg w T :
  fuel_ok alive t fuel → inv t0 c0 fg w T →
  wp t (do_bg fuel)
    (λ _ w', match last_such stopped T with
             | Some (l, j) => inv t0 c0 fg w' (upd_tbl l to_bg T) ∧
                 w_log w `suffix_of` w_log w' ∧ EvKill (- pgid j) SIGCONT ∈ w_log w'
             | None => w' = w
             end) w.
Proof.
  intros Hfuel Hi. unfold do_bg, kill. apply wp_bind. eapply wp_recent_stopped_d; [done|].
  destruct (last_such stopped T) as [[l j]|] eqn:Hs; cbn; [|by apply wp_ret].
  apply last_such_elem in Hs as [Hin Hst]. apply wp_bind.
  eapply wp_deref_d; [done|done|]. intros n. cbn [pgid set_next]. apply wp_bind.
  eapply wp_emit_d; [done|by eapply inv_owned|]. intros w1 Hi1 Hl1 _. apply wp_bind.
  eapply wp_update_d; [apply _|done|done|]. intros w2 Hi2 Hl2. apply wp_bind.
  eapply wp_update_d; [apply _|done|by apply upd_tbl_elem_eq|]. intros w3 Hi3 Hl3.
  rewrite upd_tbl_compose in Hi3. change (λ j0, set_background true (set_state JOB_RUNNING j0))
    with (@to_bg Z) in Hi3.
  eapply wp_print_d; [done|done|by apply upd_tbl_elem_eq|]. intros w4 Hi4 Hl4. rewrite Hl3, Hl2, Hl1 in Hl4.
  split_and!; [done|by eapply suffix_cons_l|].
  eapply elem_of_suffix; [|done]. by left.
Qed.

(** ** The foreground *)

Lemma inv_set_fg fg fg' w T :
  inv t0 c0 fg w T → (∀ l, fg' = Some l → l ∈ T.*1) →
  inv t0 c0 fg' (with_x (with_fg fg' (w_x w)) w) T.
Proof. intros [] Hin. split; try done. by eapply tbl_ext; [| |done]. Qed.

(** How a foreground run of the entry [(l, j)] ends: the job is removed, or kept
    as stopped with its number and group. *)
Definition fg_ended T1 l j T2 T' : Prop :=
  T' = T1 ++ T2 ∨
  ∃ j', T' = T1 ++ (l, j') :: T2 ∧ state j' = JOB_STOPPED ∧ pgid j' = pgid j ∧ jid j' = jid j.

(** The job in [l] is waited for as the foreground job, then removed if it is
    done. *)
Lemma wp_run_fg t fuel w T1 l j T2 :
  fuel_ok2 alive t fuel → inv t0 c0 None w (T1 ++ (l, j) :: T2) →
  wp t (upd_sess (with_fg (Some l));;
        jobs_wait_fg fuel l;;
        upd_sess (with_fg None);;
        j ← deref l;
        when (bool_decide (state j = JOB_DONE)) (jobs_remove l))
    (λ _ w', ∃ T', inv t0 c0 None w' T' ∧ fg_ended T1 l j T2 T' ∧
       length (w_log w) ≤ length (w_log w')) w.
Proof.
  intros Hfuel Hi. apply wp_bind, wp_modify.
  assert (Hi1 := inv_set_fg None (Some l) w _ Hi
    ltac:(intros k [= <-]; rewrite fmap_app; apply elem_of_middle)).
  apply wp_bind. eapply wp_mono; [by eapply (wp_wait_fg_d t0 c0)|].
  intros [] w2 (j2 & (Hi2 & Hp2 & Hj2 & _) & Hst & Hl2). apply wp_bind, wp_modify.
  assert (Hi3 := inv_set_fg (Some l) None w2 _ Hi2 ltac:(done)).
  apply wp_bind. eapply wp_deref_d; [done|apply elem_of_middle|]. intros n. cbn [state set_next].
  apply wp_when; intros Hd.
  - eapply wp_remove_d; [exact Hi3|]. intros w4 Hi4 Hl4 _. eexists. split; [exact Hi4|].
    split; [by left|]. cbn in Hl2, Hl4. lia.
  - apply bool_decide_eq_false in Hd. eexists. split; [exact Hi3|]. split; [|done].
    right. exists j2. split_and!; [done|by destruct Hst|done|done].
Qed.

Lemma wp_do_fg_d t fuel w T :
  fuel_ok2 alive t fuel → inv t0 c0 None w T →
  wp t (do_fg fuel)
    (λ _ w', match current T with
             | Some l => ∃ T1 j T2 T', T = T1 ++ (l, j) :: T2 ∧ inv t0 c0 None w' T' ∧
                 fg_ended T1 l j T2 T' ∧ length (w_log w) ≤ length (w_log w')
             | None => w' = w
             end) w.
Proof.
  intros Hfuel Hi. pose proof (fuel_ok2_ok _ _ _ Hfuel) as Hf1. unfold do_fg, kill.
  apply wp_bind. eapply wp_current_d; [done|].
  destruct (current T) as [l|] eqn:Hc; [|by apply wp_ret].
  destruct (current_split _ _ Hc) as (T1 & j & T2 & -> & _). clear Hc.
  assert (Hin : ∀ j, (l, j) ∈ T1 ++ (l, j) :: T2) by (intros; apply elem_of_middle).
  apply wp_bind. eapply wp_deref_d; [done|done|]. intros n. apply wp_bind.
  eapply wp_session_printf; [done|done|]. intros _ w1 Hi1 Hl1%suffix_length. apply wp_bind.
  assert (Hp1 : polled t0 c0 T1 l j T2 w1 None j) by done.
  eapply (polled_step _ _ t (set_background false)); [done|]. intros w2 Hp2 Hl2.
  apply wp_bind. eapply wp_deref_d; [apply Hp2|done|]. intros m. cbn [state pgid set_next set_background].
  assert (Hk : ∀ w3, polled t0 c0 T1 l j T2 w3 None (set_background false j) →
    length (w_log w) ≤ length (w_log w3) →
    wp t (update l (set_state JOB_RUNNING);;
          upd_sess (with_fg (Some l));;
          jobs_wait_fg fuel l;;
          upd_sess (with_fg None);;
          j ← deref l;
          when (bool_decide (state j = JOB_DONE)) (jobs_remove l))
      (λ _ w', ∃ T0 j0 T3 T', T1 ++ (l, j) :: T2 = T0 ++ (l, j0) :: T3 ∧ inv t0 c0 None w' T' ∧
                 fg_ended T0 l j0 T3 T' ∧ length (w_log w) ≤ length (w_log w')) w3).
  { intros w3 Hp3 Hl3. apply wp_bind.
    eapply (polled_step _ _ t (set_state JOB_RUNNING)); [done|]. intros w4 Hp4 Hl4.
    eapply wp_mono; [by eapply wp_run_fg, Hp4|].
    intros [] w5 (T' & Hi5 & He & Hl5). exists T1, j, T2, T'. split_and!; [done|done|exact He|].
    rewrite Hl4 in Hl5. lia. }
  apply wp_bind, wp_when; intros _; [|apply Hk; [done|by rewrite Hl2]].
  eapply wp_emit_d; [apply Hp2|apply (inv_owned t0 c0 None _ _ l (set_background false j) (proj1 Hp2)), Hin|].
  intros w3 Hi3 Hl3 _. apply Hk; [|rewrite Hl3, Hl2; simpl; lia].
  destruct Hp2 as (_ & Hr). by split.
Qed.

(** ** The end of a session *)

(** [happened w w' e]: [e] is among the events between [w] and [w']. *)
Definition happened w (w' : W) (e : event) : Prop :=
  ∃ evs, w_log w' = evs ++ w_log w ∧ e ∈ evs.

Lemma happened_later w w1 w2 e :
  happened w w1 e → w_log w1 `suffix_of` w_log w2 → happened w w2 e.
Proof.
  intros (evs & Hl & He) [h Hs]. exists (h ++ evs). rewrite Hs, Hl, (assoc_L (++)).
  split; [done|]. apply elem_of_app. by right.
Qed.

Lemma happened_earlier w w1 w2 e :
  happened w1 w2 e → w_log w `suffix_of` w_log w1 → happened w w2 e.
Proof.
  intros (evs & Hl & He) [h Hs]. exists (evs ++ h). rewrite Hl, Hs, (assoc_L (++)).
  split; [done|]. apply elem_of_app. by left.
Qed.

(** The world while the table is being torn down: the nodes of [T] are those
    left, untouched since [w], and nothing but the log, [errno] and the
    descriptors of the freed jobs has changed. *)
Record left_over w T (w' : W) : Prop := {
  lo_dom : dom (w_heap w') = list_to_set T.*1;
  lo_heap : ∀ l, l ∈ T.*1 → w_heap w' !! l = w_heap w !! l;
  lo_own : Forall (λ lj, owned (w_log w') (- pgid lj.2)) T;
  lo_fds : fds_ok t0 (w_fds w') (infds T);
  lo_sess : cfd (w_x w') = cfd (w_x w) ∧ inbuf (w_x w') = inbuf (w_x w) ∧
            live (w_x w') = live (w_x w);
  lo_log : log_ok t0 c0 (w_log w') ∧ w_log w `suffix_of` w_log w'
}.

(** What [kill_wait] changes: the entry, the log and [errno]. *)
Definition kill_waited l w (w' : W) : Prop :=
  (∃ j', w_heap w' = <[l := j']> (w_heap w)) ∧ w_fds w' = w_fds w ∧
  (cfd (w_x w') = cfd (w_x w) ∧ live (w_x w') = live (w_x w)) ∧ inbuf (w_x w') = inbuf (w_x w) ∧
  log_ok t0 c0 (w_log w') ∧ w_log w `suffix_of` w_log w'.

Lemma wp_kill_wait t fuel w l j :
  fuel_ok alive t fuel → w_heap w !! l = Some j → owned (w_log w) (- pgid j) →
  log_ok t0 c0 (w_log w) →
  wp t (kill_wait fuel l) (λ _ w', kill_waited l w w') w.
Proof.
  intros Hfuel Hl Ho Hk. unfold kill_wait.
  apply (wp_loop_env alive _ _ (λ _ w', kill_waited l w w' ∧
    (∃ j', w_heap w' !! l = Some j' ∧ pgid j' = pgid j))); [done| |].
  2:{ split; [|by exists j]. split_and!; try done. exists j. by rewrite insert_id. }
  intros _ w1 [((jh & Hh) & Hf & [Hc Hv] & Hb & Hk1 & Hs) (j1 & Hj1 & Hp1)]. apply wp_bind.
  eapply wp_deref; [done|]. case_bool_decide as Hn; [|apply wp_ret; split_and!; eauto].
  apply wp_bind. unfold waitpid_e, waitpid. apply wp_bind, wp_bind, wp_get. cbn beta.
  set (r := wait_filter _ _). apply wp_bind, wp_modify, wp_ret.
  assert (Hpr : r ≠ WaitErr ECHILD → alive (w_log w1)).
  { subst r. intros Hr. left. exists (- pgid j1)%Z, (WFlags false false false). intros Hw.
    by rewrite Hw in Hr. }
  assert (Hev : log_ok t0 c0 (EvWait (- pgid j1) (WFlags false false false) r :: w_log w1) ∧
                w_log w `suffix_of` EvWait (- pgid j1) (WFlags false false false) r :: w_log w1).
  { split; [split; [|done]|by apply suffix_cons_r]. cbn. rewrite Hp1.
    destruct Hs as [h ->]. by apply owned_app. }
  assert (Hlen : r ≠ WaitErr ECHILD → progress alive (w_log w1)
    (EvWait (- pgid j1) (WFlags false false false) r :: w_log w1)).
  { intros Hr. exists (w_log w1). split; [by apply Hpr|]. simpl. lia. }
  destruct Hev as [Hev1 Hev2].
  destruct r as [|e|q st] eqn:Hr.
  - subst r. destruct (e_waitpid _ _ _) as [| |? []]; discriminate Hr.
  - apply wp_bind, wp_modify, wp_ret. case_bool_decide as He; apply wp_ret.
    + subst e. split; [|by apply Hlen]. split; [|by exists j1]. split_and!; try done. by exists jh.
    + split_and!; try done. by exists jh.
  - apply wp_bind, wp_ret, wp_ret. destruct (_ || _).
    + apply wp_ret. split; [|by apply Hlen]. split; [|by exists j1]. split_and!; try done. by exists jh.
    + apply wp_bind. unfold update. apply wp_bind. eapply wp_deref; [done|].
      apply wp_modify, wp_ret. cbn. split; [|by apply Hlen].
      split; [|eexists; split; [apply lookup_insert_eq|done]].
      split_and!; try done. cbn. rewrite Hh. eexists. by rewrite insert_insert_eq.
Qed.

Lemma left_over_start fg w T : inv t0 c0 fg w T → left_over w T w.
Proof. intros []. split; try done. apply i_tbl. Qed.

(** Freeing the first entry. *)
Lemma left_over_step w l j T w1 w2 :
  left_over w ((l, j) :: T) w1 → l ∉ T.*1 →
  kill_waited l (with_fds (if bool_decide (0 ≤ infd j)%Z then fd_close (infd j) (w_fds w1)
                           else w_fds w1) w1) w2 →
  left_over w T (with_heap (delete l (w_heap w2)) w2).
Proof.
  intros [Hd Hh Ho Hf (Hc & Hb & Hv) [Hk Hs]] Hl ((j' & Hh2) & Hf2 & [Hc2 Hv2] & Hb2 & Hk2 & Hs2).
  cbn in *.
  apply Forall_cons in Ho as [_ Ho].
  split; cbn; rewrite ?Hh2, ?delete_insert_eq.
  - rewrite dom_delete_L, Hd. set_solver.
  - intros k Hk'. rewrite lookup_delete_ne by (intros ->; done). apply Hh. by right.
  - destruct Hs2 as [h ->]. eapply Forall_impl; [exact Ho|]. intros [k jk]. apply owned_app.
  - rewrite Hf2. unfold infd_of in Hf. case_bool_decide as Hp; [|done].
    by apply (fds_ok_close t0 _ [] (infd j)).
  - by rewrite Hc2, Hb2, Hv2.
  - split; [done|]. by etrans.
Qed.

(** One turn of [jobs_kill_all]. *)
Lemma wp_kill_one t fuel w w1 l j T n p (Q : unit + unit → W → Prop) :
  fuel_ok alive t fuel → left_over w ((l, j) :: T) w1 →
  w_heap w1 !! l = Some (set_next n j) → l ∉ T.*1 → chain (w_heap w1) p T.*1 →
  (∀ w3, left_over w T w3 → w_log w1 `suffix_of` w_log w3 →
     happened w1 w3 (EvKill (- pgid j) SIGKILL) → chain (w_heap w3) p T.*1 → Q (inl tt) w3) →
  wp t (j ← deref l;
        kill (- pgid j) SIGKILL;;
        when (bool_decide (0 ≤ infd j)%Z) (close (infd j));;
        kill_wait fuel l;;
        free l;;
        mret (inl tt)) Q w1.
Proof.
  intros Hfuel Hlo Hhl Hl2 Hp HQ. unfold kill, close.
  assert (Ho : owned (w_log w1) (- pgid j)).
  { pose proof (lo_own _ _ _ Hlo) as Hf. by apply Forall_cons in Hf as [? _]. }
  apply wp_bind. eapply wp_deref; [done|]. cbn [pgid infd set_next]. apply wp_bind, wp_emit.
  set (tb := if bool_decide (0 ≤ infd j)%Z then fd_close (infd j) (w_fds w1) else w_fds w1).
  set (evs := if bool_decide (0 ≤ infd j)%Z then [EvClose (infd j)] else []).
  set (w2 := with_fds tb (with_log (evs ++ EvKill (- pgid j) SIGKILL :: w_log w1) w1)).
  assert (Hok2 : log_ok t0 c0 (w_log w2)).
  { subst w2 evs. cbn. case_bool_decide; cbn; split_and!; try done; apply Hlo. }
  assert (Hs2 : w_log w1 `suffix_of` w_log w2).
  { subst w2 evs. cbn. case_bool_decide; [by do 2 apply suffix_cons_r|by apply suffix_cons_r]. }
  assert (Hk2 : happened w1 w2 (EvKill (- pgid j) SIGKILL)).
  { exists (evs ++ [EvKill (- pgid j) SIGKILL]). split; [|set_solver].
    cbn. by rewrite <- (assoc_L (++)). }
  apply wp_bind. enough (Hrest : wp t (kill_wait fuel l;; free l;; mret (inl tt)) Q w2).
  { subst w2 tb evs. destruct (decide (0 ≤ infd j)%Z) as [Hpos|Hpos];
      [rewrite !bool_decide_true in Hrest |- * by done
      |rewrite !bool_decide_false in Hrest |- * by done]; cbn [when].
    - by apply wp_bind, wp_emit, wp_modify.
    - apply wp_ret. by destruct w1. }
  apply wp_bind. eapply wp_mono; [apply (wp_kill_wait t fuel w2 l (set_next n j)); try done|].
  { destruct Hs2 as [h ->]. by apply owned_app. }
  intros [] w3 ((j' & Hh3) & Hf3 & [Hc3 Hv3] & Hb3 & Hk3 & Hs3).
  apply wp_bind, wp_free; [rewrite Hh3, lookup_insert_eq; by eexists|]. apply wp_ret, HQ.
  - eapply (left_over_step w l j T w1 w3 Hlo Hl2). split_and!; try done; [by exists j'|].
    cbn. by etrans.
  - cbn. by etrans.
  - by eapply happened_later.
  - cbn. rewrite Hh3, delete_insert_eq. by apply chain_delete_notin.
Qed.

Lemma wp_kill_all_d t fuel fg w T :
  fuel_ok alive t fuel → inv t0 c0 fg w T →
  wp t (jobs_kill_all fuel)
    (λ _ w', inv t0 c0 None w' [] ∧ w_heap w' = ∅ ∧ w_log w `suffix_of` w_log w' ∧
       Forall (λ lj, happened w w' (EvKill (- pgid lj.2) SIGKILL)) T) w.
Proof.
  intros Hfuel Hi. unfold jobs_kill_all. apply wp_bind.
  eapply (wp_walk_saving_tbl t T (λ T1 _ w', ∃ T2, T = T1 ++ T2 ∧ left_over w T2 w' ∧
    Forall (λ lj, happened w w' (EvKill (- pgid lj.2) SIGKILL)) T1)); [apply Hi| | |].
  - exists T. split_and!; [done|by eapply left_over_start|by apply Forall_nil].
  - intros T1 l j T2 [] w1 p HT (T2' & HT' & Hlo & Hks) _ Hp.
    assert (T2' = (l, j) :: T2) as -> by (rewrite HT in HT'; by apply app_inv_head in HT').
    destruct (tbl_lookup _ _ l j (i_tbl _ _ _ _ _ Hi)) as [n Hn].
    { rewrite HT. apply elem_of_middle. }
    eapply (wp_kill_one t fuel w w1 l j T2 n p); [done|done| | |done|].
    { rewrite (lo_heap _ _ _ Hlo); [done|by left]. }
    { destruct (i_tbl _ _ _ _ _ Hi) as [[_ Hnd _] _]. rewrite HT, fmap_app in Hnd.
      apply NoDup_app in Hnd as (_ & _ & Hnd). by apply NoDup_cons in Hnd as [? _]. }
    intros w3 Hlo3 Hs3 Hk3 Hc3. split; [|done]. exists T2.
    split_and!; [by rewrite <- (assoc_L (++))|done|]. apply Forall_app. split.
    + eapply Forall_impl; [exact Hks|]. intros lj Hin. cbn beta in Hin. exact (happened_later _ _ _ _ Hin Hs3).
    + rewrite Forall_singleton. eapply happened_earlier; [exact Hk3|]. apply Hlo.
  - intros [] w1 (T2 & HT & Hlo & Hks). assert (T2 = []) as ->.
    { rewrite <- (app_nil_r T) in HT at 1. by apply app_inv_head in HT. }
    rewrite app_nil_r in HT. subst.
    destruct Hlo as [Hd _ _ Hf (Hc & Hb & Hv) [Hk Hs]]. apply dom_empty_inv_L in Hd.
    apply wp_ret, wp_bind, wp_modify, wp_modify. cbn. split_and!; [|done|done|done].
    split; cbn; try done; try apply Hi; [|apply tbl_ok_nil|by rewrite Hc; apply Hi
      |by rewrite Hb; apply Hi|by rewrite Hv; apply Hi|apply Forall_nil_2].
    split; [split|]; cbn; try done; [apply NoDup_nil_2|by rewrite Hd].
Qed.

End jobs.
