(* ===== verification/YashdExec.v ===== *)
(** * Launching commands for a client

    The behaviour of [exec_job] of [Project 2/yashd/server/src/exec.c]: what
    [child_main] makes of the process between [fork] and [execvp], whose standard
    descriptors are the client's socket and the input pipe of the job and which has
    every descriptor of the daemon's plumbing closed; what the daemon does around the
    forks, and which job is left in the table. *)

From S2P Require Import Prelude CString YashTypes Parse Posix JobTable Tables Redirect Launch Yashd YashdProps YashdSession YashdJobs.
From stdpp Require Import base tactics list gmap strings.
From Stdlib Require Import Ascii ZArith Lia Sorted.

(** ** The child *)

Section child.
Context `{Env}.
Implicit Types (j : job) (p : proc) (t tw : fdtab).

(** [dup2], ignoring a failure. *)
Definition dup_onto (old new : Z) t : fdtab := default t (fd_dup2 old new t).

(** The descriptors of the child of command [i] before its redirections. *)
Definition child_table (i : nat) (cfd : Z) (inpipe : Z * Z) (fds : option (Z * Z)) t : fdtab :=
  let t := if bool_decide (i = 0) then dup_onto inpipe.1 STDIN_FILENO t else t in
  let t := fd_close inpipe.2 (fd_close inpipe.1 t) in
  let t := dup_onto cfd STDERR_FILENO (dup_onto cfd STDOUT_FILENO t) in
  let t := pipe_side i fds t in
  if bool_decide (STDERR_FILENO < cfd)%Z then fd_close cfd t else t.

Definition child_ready (i : nat) (cfd : Z) (inpipe : Z * Z) (fds : option (Z * Z)) (pg : Z) p
    : proc :=
  Proc (child_table i cfd inpipe fds (p_fds p)) (reset_sigs signos (p_sigs p)) pg (p_err p).

Lemma c_dup2_run old new p :
  ∃ r, c_dup2 old new p = Done (r, on_fds (dup_onto old new) p).
Proof.
  unfold c_dup2, dup_onto, mbind, M_bind, get. destruct p as [t s g e]; cbn.
  destruct (fd_dup2 old new t) eqn:Hd; cbn; eexists; unfold on_fds; cbn; by rewrite Hd.
Qed.

Lemma child_main_spec_d j i cfd inpipe fds pg p c :
  job_wf Frame j → i < ncmds j → cmds j !! i = Some c →
  child_main j i cfd inpipe fds pg p
  = Done (exec_spec (abs_cmd (buf j) c) (child_ready i cfd inpipe fds pg p)).
Proof.
  intros Hwf Hi Hc. unfold child_main. rewrite Hc. cbn [default].
  unfold mbind at 1, M_bind at 1. cbn [c_setpgid modify].
  unfold mbind at 1, M_bind at 1.
  change (reset_child_signals (Proc (p_fds p) (p_sigs p) pg (p_err p))) with
    (Done (tt, Proc (p_fds p) (reset_sigs signos (p_sigs p)) pg (p_err p))).
  cbv iota beta. unfold child_ready, child_table.
  set (p1 := Proc (p_fds p) _ pg _).
  set (t1 := if bool_decide (i = 0) then _ else p_fds p).
  assert (E1 : (if bool_decide (i = 0) then c_dup2 inpipe.1 STDIN_FILENO;; mret tt else mret tt) p1
               = Done (tt, on_fds (λ _, t1) p1)).
  { subst t1. case_bool_decide; [|done]. unfold mbind, M_bind.
    destruct (c_dup2_run inpipe.1 STDIN_FILENO p1) as [r ->]. done. }
  unfold mbind at 1, M_bind at 1. rewrite E1. cbv iota beta.
  unfold mbind at 1, M_bind at 1. cbn [c_close modify].
  unfold mbind at 1, M_bind at 1. cbn [c_close modify].
  unfold mbind at 1, M_bind at 1.
  match goal with |- context [c_dup2 cfd STDOUT_FILENO ?q] =>
    destruct (c_dup2_run cfd STDOUT_FILENO q) as [r1 ->] end. cbv iota beta.
  unfold mbind at 1, M_bind at 1.
  match goal with |- context [c_dup2 cfd STDERR_FILENO ?q] =>
    destruct (c_dup2_run cfd STDERR_FILENO q) as [r2 ->] end. cbv iota beta.
  unfold mbind at 1, M_bind at 1. rewrite child_pipe_run. cbv iota beta.
  unfold mbind at 1, M_bind at 1.
  clearbody t1. destruct (bool_decide (STDERR_FILENO < cfd)%Z); by eapply exec_command_spec.
Qed.

(** The input pipe of the job, the socket [c0], and the pipe between two commands
    are all open in [t], on descriptors above the standard three. *)
Definition tables_ok (c0 : Z) (inpipe : Z * Z) (k : nat) (fds : option (Z * Z)) (id : option nat)
    tw t : Prop :=
  pipe_ok (Some inpipe) (Some k) tw ∧
  pipe_ok fds id (with_pipe (Some inpipe) (Some k) tw) ∧
  t = with_pipe fds id (with_pipe (Some inpipe) (Some k) tw) ∧
  tw !! c0 = Some OSock ∧ (2 < c0)%Z.

(** The table of a child: the daemon's without the socket, with the socket on
    standard output and error, the job's input on the standard input of the first
    command, and the pipe between the two commands. *)
Definition attached (i : nat) (c0 : Z) (k : nat) (id : option nat) tw : fdtab :=
  delete c0 (piped i id
    (<[STDERR_FILENO := OSock]> (<[STDOUT_FILENO := OSock]>
       (if bool_decide (i = 0) then <[STDIN_FILENO := OPipeR k]> tw else tw)))).

Lemma dup_onto_Some old new t f : t !! old = Some f → dup_onto old new t = <[new := f]> t.
Proof. unfold dup_onto, fd_dup2. by intros ->. Qed.

(** Explicit tables, descriptor by descriptor. *)
Ltac fd_lookups :=
  repeat first [rewrite lookup_insert | rewrite lookup_delete];
  repeat (case_decide; simplify_eq; try done; try lia); try congruence.

Lemma child_table_attached i c0 inpipe k fds id tw t :
  tables_ok c0 inpipe k fds id tw t →
  child_table i c0 inpipe fds t = attached i c0 k id tw.
Proof.
  destruct inpipe as [r wr]. intros ((Hr & Hw & Hne & Hfr & Hfw) & Hp & -> & Hc & Hc2).
  cbn [fst snd] in *. unfold child_table, attached. cbn [fst snd].
  assert (Hcr : c0 ≠ r) by (intros ->; congruence).
  assert (Hcw : c0 ≠ wr) by (intros ->; congruence).
  rewrite (bool_decide_true (STDERR_FILENO < c0)%Z) by done.
  unfold pipe_side, piped, fd_close, STDIN_FILENO, STDOUT_FILENO, STDERR_FILENO, with_pipe in *.
  destruct fds as [[r2 w2]|], id as [k2|]; try done; cbn in Hp |- *.
  - destruct Hp as (Hr2 & Hw2 & Hne2 & Hfr2 & Hfw2).
    rewrite !lookup_insert_None in Hfr2, Hfw2. destruct Hfr2 as [[??]?], Hfw2 as [[??]?].
    assert (Hcr2 : c0 ≠ r2) by (intros ->; congruence).
    assert (Hcw2 : c0 ≠ w2) by (intros ->; congruence).
    destruct (decide (i = 0)); [rewrite !bool_decide_true by done|rewrite !bool_decide_false by done].
    + rewrite (dup_onto_Some r 0 _ (OPipeR k)) by fd_lookups.
      rewrite (dup_onto_Some c0 1 _ OSock) by fd_lookups.
      rewrite (dup_onto_Some c0 2 _ OSock) by fd_lookups.
      unfold fd_dup2. replace (_ !! w2) with (Some (OPipeW k2)) by (symmetry; fd_lookups).
      apply map_eq. intros fd. fd_lookups.
    + rewrite (dup_onto_Some c0 1 _ OSock) by fd_lookups.
      rewrite (dup_onto_Some c0 2 _ OSock) by fd_lookups.
      unfold fd_dup2. replace (_ !! r2) with (Some (OPipeR k2)) by (symmetry; fd_lookups).
      apply map_eq. intros fd. fd_lookups.
  - destruct (decide (i = 0)); [rewrite !bool_decide_true by done|rewrite !bool_decide_false by done].
    + rewrite (dup_onto_Some r 0 _ (OPipeR k)) by fd_lookups.
      rewrite (dup_onto_Some c0 1 _ OSock) by fd_lookups.
      rewrite (dup_onto_Some c0 2 _ OSock) by fd_lookups.
      apply map_eq. intros fd. fd_lookups.
    + rewrite (dup_onto_Some c0 1 _ OSock) by fd_lookups.
      rewrite (dup_onto_Some c0 2 _ OSock) by fd_lookups.
      apply map_eq. intros fd. fd_lookups.
Qed.

(** What a child has above the standard descriptors. *)
Lemma attached_other i c0 k id tw n :
  (2 < n)%Z → attached i c0 k id tw !! n = if decide (c0 = n) then None else tw !! n.
Proof.
  intros Hn. unfold attached. rewrite lookup_delete. case_decide; [done|].
  rewrite piped_other by done. unfold STDIN_FILENO, STDOUT_FILENO, STDERR_FILENO.
  rewrite !lookup_insert_ne by lia. case_bool_decide; [|done]. by rewrite lookup_insert_ne by lia.
Qed.

End child.

(** ** The forks *)

Section forks.
Context `{Env} (t0 : fdtab) (c0 : Z).
Implicit Types (w : W) (j : job) (T : table Z) (t : mode).

(** What the child of a command becomes, when the daemon has the table [tb]. *)
Definition child_image inpipe fds (tb : fdtab) (sg : sigtab) (c : scmd) (i : nat) (lead : Z)
    : child_end * proc :=
  exec_spec c (child_ready i c0 inpipe fds lead (Proc tb sg 0 [])).

Lemma fork_cmds_spec_d inpipe fds j w :
  job_wf Frame j → cfd (w_x w) = c0 →
  ∃ ps, length ps ≤ ncmds j ∧ (ps = [] → ∃ h, e_fork h = None) ∧
    fork_cmds (ncmds j) 0 inpipe fds j 0 w =
      Done ((assign_pids 0 ps j, leader 0 ps),
            with_log (launched (child_image inpipe fds (w_fds w) (w_sigs w)) [] 0 0
                        (s_cmds (abs_job j)) ps ++ w_log w) w).
Proof.
  intros Hwf Hc. unfold fork_cmds, sess, mbind at 1, M_bind at 1, gets. rewrite Hc.
  destruct (fork_loop_spec 0 (λ j i pg, child_main j i c0 inpipe fds pg)
    (mret tt : M W unit) (ncmds j) 0 j 0 w
    (child_image inpipe fds (w_fds w) (w_sigs w)) []) as (ps & Hps & Hnil & Hr); [|done|done|lia|].
  { intros. by apply child_main_spec_d. }
  exists ps. split_and!; [done| |exact Hr]. apply Hnil. pose proof (wf_ncmds _ _ Hwf). lia.
Qed.

(** Descriptors above the standard three, other than the socket, are the daemon's
    own or the input pipes of jobs. *)
Lemma fds_ok_other tw L n f :
  fds_ok t0 tw L → tw !! n = Some f → t0 !! n = Some f ∨ ∃ k, f = OPipeW k.
Proof.
  intros [_ Hown Hbase] Hn. destruct (decide (n ∈ L)) as [Hin|Hout].
  - right. destruct (Hown n Hin) as (_ & _ & k & Hk). exists k. congruence.
  - left. by rewrite <- Hbase.
Qed.

Lemma child_image_ok inpipe k fds id tw tb sg L c i lead h q :
  tables_ok c0 inpipe k fds id tw tb → fds_ok t0 tw L →
  ev_ok t0 c0 h (EvFork (Some q) (Some (child_image inpipe fds tb sg c i lead))).
Proof.
  intros Htab Hf. unfold child_image.
  destruct (exec_spec _ _) as [e p'] eqn:Ha. apply exec_spec_frame in Ha as (Hs & Hfd).
  assert (Hfd' : ∀ n, (2 < n)%Z → p_fds p' !! n = attached i c0 k id tw !! n).
  { intros n Hn. rewrite Hfd by done. cbn. by erewrite child_table_attached. }
  split_and!.
  - apply Forall_forall. intros s. rewrite Hs. apply reset_sigs_disp.
  - rewrite Hfd' by apply Htab. rewrite attached_other by apply Htab. by rewrite decide_True.
  - intros n f Hn. rewrite Hfd', attached_other by done. case_decide; [done|].
    by apply fds_ok_other with L.
Qed.

Lemma launched_ok_d inpipe k fds id tw tb sg L i lead cs ps h :
  tables_ok c0 inpipe k fds id tw tb → fds_ok t0 tw L → log_ok t0 c0 h →
  log_ok t0 c0 (launched (child_image inpipe fds tb sg) [] i lead cs ps ++ h).
Proof.
  intros Htab Hf. revert i lead ps h.
  induction cs as [|c cs IH]; intros i lead ps h Hh; [done|].
  destruct ps as [|p ps]; [done|]. cbn [launched]. rewrite <- (assoc_L (++)). cbn [app].
  apply IH. split; [done|]. split; [by eapply child_image_ok|done].
Qed.

(** The group of the launched commands is the session's. *)
Lemma launched_owned child flog cs ps h :
  cs ≠ [] → ps ≠ [] → owned (launched child flog 0 0 cs ps ++ h) (- leader 0 ps).
Proof.
  intros Hcs Hps. destruct cs as [|c cs], ps as [|p ps]; try done.
  exists p, (Some (child c 0 0%Z)). split; [done|]. cbn [launched]. set_solver.
Qed.

(** ** Tables around the forks *)

(** The socket and the standard descriptors are open in every table of the
    invariant. *)
Lemma inv_tables fg w T :
  inv t0 c0 fg w T → w_fds w !! c0 = Some OSock ∧ (2 < c0)%Z ∧ std_open (w_fds w).
Proof.
  intros Hi. destruct (i_sock _ _ _ _ _ Hi) as (Hs & Hc & H0 & H1 & H2).
  destruct (i_fds _ _ _ _ _ Hi) as [_ Hown Hbase].
  assert (Hb : ∀ n, is_Some (t0 !! n) → w_fds w !! n = t0 !! n).
  { intros n [f Hn]. apply Hbase. intros Hin. destruct (Hown n Hin) as (_ & ? & _). congruence. }
  split_and!; [by rewrite Hb|done|]. unfold std_open. by rewrite !Hb.
Qed.

(** A world whose descriptors are to become [tw] again. *)
Definition pending tw w T : Prop := inv t0 c0 None (with_fds tw w) T.

Lemma pending_done tw w T : pending tw w T → w_fds w = tw → inv t0 c0 None w T.
Proof. unfold pending. intros Hp <-. by destruct w. Qed.

Lemma wp_close_pending t fd (Q : unit → W → Prop) tw w T :
  pending tw w T →
  (∀ w', pending tw w' T → w_fds w' = fd_close fd (w_fds w) →
     w_log w' = EvClose fd :: w_log w → w_x w' = w_x w → Q tt w') →
  wp t (close fd) Q w.
Proof.
  intros Hp HQ. unfold close. apply wp_bind, wp_emit, wp_modify. apply HQ; try done.
  exact (inv_emit_d t0 c0 (EvClose fd) None _ _ Hp I).
Qed.

End forks.

(** ** exec_job *)

(** The entry [(l, j)] that [exec_job] adds for [proto] when the forks of its
    commands returned [ps]; [x] is its input descriptor. *)
Record started_d (proto : job) (T : table Z) (ps : list positive) (x : Z) (l : loc) (j : job)
    : Prop := {
  sd_wf : job_wf (Heap l) j;
  sd_jid : jid j = next_jid T;
  sd_pgid : pgid j = leader 0 ps;
  sd_nlive : nlive j = Z.of_nat (length ps);
  sd_state : state j = state proto;
  sd_infd : infd j = x;
  sd_bg : background j = background proto;
  sd_abs : abs_job j = abs_job proto;
  sd_cmdline : cmdline j = cmdline proto
}.

(** The possible effects of [exec_job] on the table; [h] is the log at its end. *)
Inductive exec_effect_d `{Env} (proto : job) (T : table Z) (h : history) : table Z → Prop :=
  | effd_no_pipe h0 : e_pipe h0 = false → exec_effect_d proto T h T
  | effd_no_fork h0 : e_fork h0 = None → exec_effect_d proto T h T
  | effd_refused (ps : list positive) :
      ps ≠ [] → (length T < YASH_MAX_JOBS → ∃ h0, e_malloc h0 = false) →
      EvKill (- leader 0 ps) SIGKILL ∈ h → exec_effect_d proto T h T
  | effd_background (ps : list positive) l j :
      ps ≠ [] → length T < YASH_MAX_JOBS → started_d proto T ps (-1) l j →
      background proto = true → exec_effect_d proto T h (T ++ [(l, j)])
  | effd_foreground (ps : list positive) x l j T' :
      ps ≠ [] → length T < YASH_MAX_JOBS → started_d proto T ps x l j → (2 < x)%Z →
      background proto = false → fg_ended T l j [] T' → exec_effect_d proto T h T'.

Section exec.
Context `{Env} (t0 : fdtab) (c0 : Z).
Implicit Types (w : W) (j : job) (T : table Z) (t : mode) (tw : fdtab).

Lemma added_started proto T ps x l j :
  nlive proto = 0%Z →
  added (set_infd x (set_pgid (leader 0 ps) (assign_pids 0 ps (set_infd (-1)%Z proto)))) T l j →
  started_d proto T ps x l j.
Proof.
  intros Hn [_ Hwf Hjid [Hm (Hx & Hcl & _)] Habs].
  destruct (assign_pids_same 0 ps (set_infd (-1)%Z proto)) as (Hn' & Hs & Hc & _).
  injection Hs as _ _ Hst Hbg _ _ _. injection Hm as _ Hpg Hst' Hbg' _ Hnl. cbn in *.
  split; try done; try congruence.
  - rewrite Hnl, Hn', Hn. lia.
  - rewrite Habs. transitivity (abs_job (assign_pids 0 ps (set_infd (-1)%Z proto))); [done|].
    by rewrite assign_pids_abs.
Qed.

(** The new entry's input is what the table gained. *)
Lemma inv_added_d w T l j h' p' tw :
  pending t0 c0 tw w T → tbl_ok (T ++ [(l, j)]) → jid j = next_jid T → owned (w_log w) (- pgid j) →
  fds_ok t0 (w_fds w) (infds T ++ infd_of j) →
  tbl (with_list p' (with_heap h' (after_malloc w))) (T ++ [(l, j)]) →
  inv t0 c0 None (with_list p' (with_heap h' (after_malloc w))) (T ++ [(l, j)]).
Proof.
  intros [_ _ Hown _ Hsock Hcfd [Hfg _] Hb Hlog Hset Hlive Hfew] Hok Hjid Ho Hf Ht. cbn in *.
  split; try done.
  - apply Forall_app. split; [|rewrite Forall_singleton; by apply owned_cons].
    eapply Forall_impl; [exact Hown|]. intros [k jk]. apply owned_cons.
  - cbn. by rewrite infds_app, infds_cons, app_nil_r.
  - by apply few_jids_add.
Qed.

(** A job the table refuses is killed and its input closed. *)
Lemma wp_refused t w T tw wr k bg lead :
  pending t0 c0 tw w T → owned (w_log w) (- lead) → tw !! wr = None → (2 < wr)%Z →
  w_fds w = (if (bg : bool) then tw else <[wr := OPipeW k]> tw) →
  wp t (kill (- lead) SIGKILL;;
        when (bool_decide (0 ≤ if bg then -1 else wr)%Z) (close (if bg then (-1)%Z else wr)))
    (λ _ w', inv t0 c0 None w' T ∧ EvKill (- lead) SIGKILL ∈ w_log w' ∧
             length (w_log w) ≤ length (w_log w')) w.
Proof.
  intros Hp Ho Hfree Hwr Hf. apply wp_bind, wp_emit.
  set (w1 := with_log _ w).
  assert (Hp1 : pending t0 c0 tw w1 T) by exact (inv_emit_d t0 c0 (EvKill (- lead) SIGKILL) None _ _ Hp Ho).
  destruct bg.
  - rewrite bool_decide_false by lia. apply wp_ret. split_and!; [|by left|simpl; lia].
    by eapply pending_done.
  - rewrite bool_decide_true by lia. eapply wp_close_pending; [done|].
    intros w2 Hp2 Hf2 Hl2 _. rewrite Hl2. split_and!; [|by right; left|simpl; lia].
    eapply pending_done; [done|]. rewrite Hf2. cbn. rewrite Hf. by apply delete_insert_id.
Qed.

(** From the end of the forks on: [wr] is the write end of the job's input. *)
Definition exec_tail (fuel : nat) (wr : Z) (proto : job) (pg : Z) : M W unit :=
  if bool_decide (nlive proto = 0)%Z then close wr
  else
    let proto := set_pgid pg proto in
    (if background proto then close wr else mret tt);;
    let proto := set_infd (if background proto then (-1)%Z else wr) proto in
    r ← jobs_add proto;
    match r with
    | None =>
        kill (- pg) SIGKILL;;
        when (bool_decide (0 ≤ infd proto)%Z) (close (infd proto))
    | Some l =>
        j ← deref l;
        if background j then mret tt
        else
          upd_sess (with_fg (Some l));;
          jobs_wait_fg fuel l;;
          upd_sess (with_fg None);;
          j ← deref l;
          when (bool_decide (state j = JOB_DONE)) (jobs_remove l)
    end.

Definition exec_done (w : W) T proto (w' : W) : Prop :=
  ∃ T', inv t0 c0 None w' T' ∧ exec_effect_d proto T (w_log w') T' ∧
        length (w_log w) ≤ length (w_log w').

Context `{!FewAllocs}.

Lemma wp_exec_add t fuel w T tw wr k proto ps :
  let bg := background proto in
  let x := if bg then (-1)%Z else wr in
  let P := set_infd x (set_pgid (leader 0 ps) (assign_pids 0 ps (set_infd (-1)%Z proto))) in
  fuel_ok2 alive t fuel → job_wf Frame proto → nlive proto = 0%Z → ps ≠ [] →
  pending t0 c0 tw w T → owned (w_log w) (- leader 0 ps) → tw !! wr = None → (2 < wr)%Z →
  w_fds w = (if bg then tw else <[wr := OPipeW k]> tw) →
  wp t (r ← jobs_add P;
        match r with
        | None => kill (- leader 0 ps) SIGKILL;; when (bool_decide (0 ≤ x)%Z) (close x)
        | Some l =>
            j ← deref l;
            if background j then mret tt
            else
              upd_sess (with_fg (Some l));;
              jobs_wait_fg fuel l;;
              upd_sess (with_fg None);;
              j ← deref l;
              when (bool_decide (state j = JOB_DONE)) (jobs_remove l)
        end) (λ _ w', exec_done w T proto w') w.
Proof.
  intros bg x P Hfuel Hwf Hn Hps Hp Ho Hfree Hwr Hf. apply wp_bind.
  assert (Ht : tbl w T) by (eapply tbl_ext; [| |apply Hp]; done).
  eapply wp_jobs_add_wf; [exact Ht|apply Hp|by apply wf_set_infd, wf_set_pgid, assign_pids_wf, wf_set_infd|..].
  - apply few_jids_fits, Hp.
  - intros Hfull. eapply wp_mono; [by eapply wp_refused|]. intros [] w' (Hi & Hk & Hl).
    exists T. split_and!; [done| |done]. apply (effd_refused _ _ _ ps); [done|lia|done].
  - intros Hlt Hm. eapply wp_mono; [eapply (wp_refused t _ T tw wr k bg); try done|].
    { exact (inv_emit_d t0 c0 (EvMalloc false) None _ _ Hp I). }
    { by apply owned_cons. }
    intros [] w' (Hi & Hk & Hl). exists T. split_and!; [done| |cbn in Hl; lia].
    apply (effd_refused _ _ _ ps); [done|eauto|done].
  - intros l j h' p' Hlt _ Hadd Ht' Hok'.
    pose proof (added_started proto T ps x l j Hn Hadd) as Hst.
    assert (Hi : inv t0 c0 None (with_list p' (with_heap h' (after_malloc w))) (T ++ [(l, j)])).
    { eapply inv_added_d; [exact Hp|done|apply Hadd|by rewrite (sd_pgid _ _ _ _ _ _ Hst)| |done].
      rewrite Hf. unfold infd_of. rewrite (sd_infd _ _ _ _ _ _ Hst). subst x. destruct bg.
      - rewrite bool_decide_false by lia. rewrite app_nil_r. apply Hp.
      - rewrite bool_decide_true by lia. apply fds_ok_open; [apply Hp|done|done]. }
    apply wp_bind. eapply wp_deref_d; [done|apply elem_of_middle|]. intros n.
    cbn [background set_next]. rewrite (sd_bg _ _ _ _ _ _ Hst).
    destruct (background proto) eqn:Hbg.
    { apply wp_ret. eexists. split; [exact Hi|]. split; [|cbn; lia].
      by apply (effd_background _ _ _ ps). }
    eapply wp_mono; [by eapply (wp_run_fg t0 c0)|]. intros [] w' (T' & Hi' & He & Hl').
    exists T'. split_and!; [done| |cbn in Hl'; lia].
    by apply (effd_foreground _ _ _ ps wr l j).
Qed.

Lemma wp_exec_tail_d t fuel w T tw wr k proto ps :
  fuel_ok2 alive t fuel → job_wf Frame proto → nlive proto = 0%Z →
  (ps = [] → ∃ h, e_fork h = None) → (ps ≠ [] → owned (w_log w) (- leader 0 ps)) →
  pending t0 c0 tw w T → tw !! wr = None → (2 < wr)%Z → w_fds w = <[wr := OPipeW k]> tw →
  wp t (exec_tail fuel wr (assign_pids 0 ps (set_infd (-1)%Z proto)) (leader 0 ps))
    (λ _ w', exec_done w T proto w') w.
Proof.
  intros Hfuel Hwf Hn Hnil Ho Hp Hfree Hwr Hf. unfold exec_tail.
  destruct (assign_pids_same 0 ps (set_infd (-1)%Z proto)) as (Hn' & Hs & _).
  injection Hs as _ _ _ Hbg _ _ _. cbn in Hn', Hbg. rewrite Hn', Hn.
  case_bool_decide as Hz.
  { eapply wp_close_pending; [done|]. intros w1 Hp1 Hf1 Hl1 _. exists T.
    destruct ps; [|simpl in Hz; lia]. destruct (Hnil eq_refl) as [h Hh].
    split_and!; [|by eapply effd_no_fork|rewrite Hl1; simpl; lia].
    eapply pending_done; [done|]. rewrite Hf1, Hf. by apply delete_insert_id. }
  assert (Hps : ps ≠ []) by (intros ->; done). specialize (Ho Hps). cbn [background set_pgid].
  cbn zeta. rewrite Hbg. apply wp_bind.
  pose proof (λ w, wp_exec_add t fuel w T tw wr k proto ps) as Hadd. cbn zeta in Hadd.
  destruct (background proto).
  - eapply wp_close_pending; [done|]. intros w1 Hp1 Hf1 Hl1 _.
    eapply wp_mono; [apply Hadd; try done|].
    + rewrite Hl1. by apply owned_cons.
    + rewrite Hf1, Hf. by apply delete_insert_id.
    + intros [] w2 (T' & ? & ? & Hl). exists T'. split_and!; [done..|].
      rewrite Hl1 in Hl. simpl in Hl. lia.
  - apply wp_ret. by apply Hadd.
Qed.

(** From the state in which the pipes are open: the forks, the closing of the
    pipes, the rest. *)
Lemma wp_launch_d t fuel w T tw inpipe k fds id proto :
  fuel_ok2 alive t fuel → job_wf Frame proto → nlive proto = 0%Z →
  pending t0 c0 tw w T → tables_ok c0 inpipe k fds id tw (w_fds w) →
  wp t ('(proto, pg) ← fork_cmds (ncmds proto) 0 inpipe fds (set_infd (-1)%Z proto) 0;
        close_pipe fds;; close inpipe.1;; exec_tail fuel inpipe.2 proto pg)
    (λ _ w', exec_done w T proto w') w.
Proof.
  intros Hfuel Hwf Hn Hp Htab. apply wp_bind.
  destruct (fork_cmds_spec_d c0 inpipe fds (set_infd (-1)%Z proto) w) as (ps & Hps & Hnil & Hrun);
    [by apply wf_set_infd|apply (i_cfd _ _ _ _ _ Hp)|].
  unfold wp at 1. cbn [ncmds set_infd] in Hrun. rewrite Hrun. clear Hrun. cbv iota beta.
  set (evs := launched _ _ _ _ _ _). set (w1 := with_log (evs ++ w_log w) w).
  assert (Hp1 : pending t0 c0 tw w1 T).
  { destruct Hp as [Ht Hok Hown Hf Hsock Hcfd Hfg Hb Hlog Hset Hlive Hfew]. split; try done.
    - by eapply tbl_ext; [| |exact Ht].
    - eapply Forall_impl; [exact Hown|]. intros [q jq]. apply owned_app.
    - by eapply launched_ok_d.
    - by apply few_jids_app. }
  assert (Ho : ps ≠ [] → owned (w_log w1) (- leader 0 ps)).
  { intros Hne. apply launched_owned; [|done]. cbn. intros Hcs.
    apply fmap_nil_inv, (f_equal length) in Hcs. rewrite length_take in Hcs.
    pose proof (wf_cmds_len _ _ Hwf). pose proof (wf_ncmds _ _ Hwf). cbn in Hcs. lia. }
  assert (Hl1 : length (w_log w) ≤ length (w_log w1)) by (cbn; rewrite length_app; lia).
  destruct Htab as (Hip & Hfp & Htw & _). change (w_fds w) with (w_fds w1) in Htw.
  clearbody w1. destruct inpipe as [r wr]. cbn [fst snd] in *.
  pose proof Hip as (Hr & Hwr & Hne & Hfr & Hfw).
  assert (Hend : ∀ w2, pending t0 c0 tw w2 T → w_fds w2 = with_pipe (Some (r, wr)) (Some k) tw →
    (ps ≠ [] → owned (w_log w2) (- leader 0 ps)) → length (w_log w) ≤ length (w_log w2) →
    wp t (close r;; exec_tail fuel wr (assign_pids 0 ps (set_infd (-1)%Z proto)) (leader 0 ps))
      (λ _ w', exec_done w T proto w') w2).
  { intros w2 Hp2 Hf2 Ho2 Hl2. apply wp_bind. eapply wp_close_pending; [done|].
    intros w3 Hp3 Hf3 Hl3 _. eapply wp_mono; [eapply (wp_exec_tail_d t fuel w3 T tw wr k); try done|].
    - intros Hne'. rewrite Hl3. by apply owned_cons, Ho2.
    - rewrite Hf3, Hf2. unfold with_pipe, fd_close.
      by rewrite delete_insert_ne, delete_insert_id by done.
    - intros [] w4 (T' & ? & ? & Hl4). exists T'. split_and!; [done..|].
      rewrite Hl3 in Hl4. simpl in Hl4. lia. }
  pose proof (close_pipe_restores _ _ _ Hfp) as Hcl. rewrite <- Htw in Hcl.
  apply wp_bind. destruct fds as [[r2 w2]|]; cbn [close_pipe]; [|apply wp_ret; by apply Hend].
  apply wp_bind. eapply wp_close_pending; [done|]. intros w3 Hp3 Hf3 Hl3 _.
  eapply wp_close_pending; [done|]. intros w4 Hp4 Hf4 Hl4 _. apply Hend; [done| | |].
  - by rewrite Hf4, Hf3.
  - intros Hne'. rewrite Hl4, Hl3. by apply owned_cons, owned_cons, Ho.
  - rewrite Hl4, Hl3. simpl. lia.
Qed.

Lemma wp_exec_job_d t fuel w T proto :
  fuel_ok2 alive t fuel → inv t0 c0 None w T → job_wf Frame proto → nlive proto = 0%Z →
  wp t (exec_job fuel proto) (λ _ w', exec_done w T proto w') w.
Proof.
  intros Hfuel Hi Hwf Hn. destruct (inv_tables t0 c0 _ _ _ Hi) as (Hs & Hc & Hstd).
  set (tw := w_fds w) in *. assert (Hp : pending t0 c0 tw w T) by by destruct w.
  unfold exec_job. cbn zeta. apply wp_bind. unfold wp at 1.
  destruct (pipe_run w Hstd) as [[He ->]|(inpipe & Hip & ->)].
  { apply wp_ret. exists T. split_and!; [|by eapply effd_no_pipe|simpl; lia].
    by apply (inv_emit_d t0 c0 (EvPipe None)). }
  set (k := w_pipes w) in *. fold tw in Hip |- *.
  match goal with |- wp _ _ _ ?x => set (w1 := x) end.
  assert (Hp1 : pending t0 c0 tw w1 T).
  { pose proof (inv_emit_d t0 c0 (EvPipe (Some inpipe)) None _ _ Hp I) as [].
    split; try done. by eapply tbl_ext; [| |done]. }
  assert (Hf1 : w_fds w1 = with_pipe (Some inpipe) (Some k) tw) by done.
  assert (Hl1 : length (w_log w) ≤ length (w_log w1)) by (simpl; lia).
  assert (Hk : ∀ w2 fds id, pending t0 c0 tw w2 T →
    tables_ok c0 inpipe k fds id tw (w_fds w2) → length (w_log w) ≤ length (w_log w2) →
    wp t ('(proto, pg) ← fork_cmds (ncmds proto) 0 inpipe fds (set_infd (-1)%Z proto) 0;
        close_pipe fds;; close inpipe.1;; exec_tail fuel inpipe.2 proto pg)
    (λ _ w', exec_done w T proto w') w2).
  { intros w2 fds id Hp2 Htab Hl2. eapply wp_mono; [by eapply wp_launch_d|].
    intros [] w3 (T' & ? & ? & ?). exists T'. split_and!; [done..|lia]. }
  clearbody w1. cbn [ncmds set_infd]. apply wp_bind. case_bool_decide as H2; [apply wp_bind|apply wp_ret; cbv beta iota].
  2:{ apply (Hk w1 None None); [done| |done]. split_and!; done. }
  unfold wp at 1. assert (Hstd1 : std_open (w_fds w1)).
  { rewrite Hf1. destruct inpipe as [r wr]. destruct Hip as (? & ? & _). unfold std_open, with_pipe.
    unfold STDIN_FILENO, STDOUT_FILENO, STDERR_FILENO in *. by rewrite !lookup_insert_ne by lia. }
  destruct (pipe_run w1 Hstd1) as [[He ->]|(fds & Hfp & ->)]; apply wp_ret; cbv beta iota.
  - pose proof (inv_emit_d t0 c0 (EvPipe None) None _ _ Hp1 I) as Hp2.
    apply wp_bind. eapply wp_close_pending; [exact Hp2|]. intros w3 Hp3 Hf3 Hl3 _.
    eapply wp_close_pending; [done|]. intros w4 Hp4 Hf4 Hl4 _. exists T.
    split_and!; [|by eapply effd_no_pipe|rewrite Hl4, Hl3; simpl; lia].
    eapply pending_done; [done|]. rewrite Hf4, Hf3. cbn. rewrite Hf1.
    pose proof (close_pipe_restores _ _ _ Hip) as Hcl. by destruct inpipe.
  - rewrite Hf1 in Hfp. apply (Hk _ (Some fds) (Some (w_pipes w1))); [| |cbn; lia].
    + pose proof (inv_emit_d t0 c0 (EvPipe (Some fds)) None _ _ Hp1 I) as [].
      split; try done. by eapply tbl_ext; [| |done].
    + split_and!; try done. cbn. by rewrite Hf1.
Qed.

End exec.
