(* ===== verification/YashdMain.v ===== *)
(** * The theorems about a yashd session

    The thread of one client, [session_main] of
    [Project 2/yashd/server/src/session.c], keeps the invariant whatever the
    client, the kernel and the children do, ends when they do, and leaves nothing
    behind; the properties of its operations. *)

From S2P Require Import Prelude CString YashTypes Parse Posix JobTable Tables Redirect Launch Yashd YashdProps YashdSession YashdJobs YashdExec.
From stdpp Require Import base tactics list gmap strings.
From Stdlib Require Import Ascii ZArith Lia Sorted.

(** The first word of a parsed line is a string of its own buffer. *)
Lemma first_word {E} (j : job_t E) :
  job_wf Frame j →
  ∃ name, frame_str j (mjoin (argv (default zero_cmd (cmds j !! 0)) !! 0)) = Some name.
Proof.
  intros Hwf. pose proof (wf_cmds_len _ _ Hwf) as Hl. pose proof (wf_ncmds _ _ Hwf) as Hn.
  destruct (cmds j) as [|c cs] eqn:Hcs; [done|].
  destruct (job_cmd _ j 0 c Hwf) as [Hc Hpos]; [lia|by rewrite Hcs|]. cbn.
  destruct Hc as [Hlen _ Ha _ _ _ _].
  destruct (argv c) as [|a l]; [simpl in Hlen; lia|]. destruct (argc c) as [|n]; [lia|].
  cbn in Ha |- *. apply Forall_cons in Ha as [[Hne Hok] _]. destruct a as [q|]; [|done].
  cbn. rewrite bool_decide_true by apply Hok. by eexists.
Qed.

Section main.
Context `{FewAllocs} (t0 : fdtab) (c0 : Z).
Implicit Types (w : W) (j : job) (T : table Z) (t : mode).

(** At the prompt, after [w]. *)
Definition ready w (w' : W) : Prop :=
  ∃ T, inv t0 c0 None w' T ∧ length (w_log w) ≤ length (w_log w').

Lemma wp_builtin_try_d t fuel w T j :
  fuel_ok2 alive t fuel → inv t0 c0 None w T → job_wf Frame j →
  wp t (builtin_try fuel j) (λ _ w', ready w w') w.
Proof.
  intros Hfuel Hi Hwf. pose proof (fuel_ok2_ok _ _ _ Hfuel) as Hf1. unfold builtin_try.
  destruct (_ || _); [apply wp_ret; by exists T|].
  destruct (first_word j Hwf) as [name Hname].
  apply wp_bind. eapply wp_assume_some; [exact Hname|].
  destruct (streq name (b "jobs")); [|destruct (streq name (b "fg"));
    [|destruct (streq name (b "bg"))]]; try (apply wp_bind).
  - eapply wp_mono; [by apply (wp_jobs_print_d t0 c0)|]. intros [] w1 [Hi1 Hl1]. apply wp_ret.
    by exists T.
  - eapply wp_mono; [by eapply (wp_do_fg_d t0 c0)|]. intros [] w1 HQ. apply wp_ret.
    destruct (current T) as [k|]; [|subst; by exists T].
    destruct HQ as (T1 & jj & T2 & T' & _ & Hi1 & _ & Hl1). by exists T'.
  - eapply wp_mono; [by eapply (wp_do_bg_d t0 c0)|]. intros [] w1 HQ. apply wp_ret.
    destruct (last_such stopped T) as [[k jj]|]; [|subst; by exists T].
    destruct HQ as (Hi1 & Hl1%suffix_length & _). by eexists.
  - apply wp_ret. by exists T.
Qed.

Lemma wp_log_command t p line (Q : unit → W → Prop) w T :
  inv t0 c0 None w T →
  (∀ w', inv t0 c0 None w' T → length (w_log w) ≤ length (w_log w') → Q tt w') →
  wp t (log_command p line) Q w.
Proof.
  intros Hi HQ. unfold log_command, sess. apply wp_bind, wp_gets.
  destruct (_ || _); [apply wp_ret; auto|]. apply wp_bind, wp_get.
  destruct (e_now _); [|apply wp_ret; auto].
  eapply wp_emit_d; [done|done|]. intros w1 Hi1 Hl1 _. apply HQ; [done|rewrite Hl1; simpl; lia].
Qed.

Lemma wp_handle_cmd t fuel line w T :
  fuel_ok2 alive t fuel → inv t0 c0 None w T →
  wp t (handle_cmd fuel line) (λ _ w', ready w w') w.
Proof.
  intros Hfuel Hi. unfold handle_cmd.
  destruct (parse_line _ _ _ _) as [code jb] eqn:Hp. case_bool_decide as Hcode.
  { apply wp_ret. by exists T. }
  subst code. apply parse_line_parsed in Hp as [Hwf _ _ (_ & _ & Hn & _)].
  unfold sess. apply wp_bind, wp_gets, wp_bind. eapply wp_log_command; [done|].
  intros w1 Hi1 Hl1. destruct (first_word jb Hwf) as [name Hname].
  apply wp_bind. eapply wp_assume_some; [exact Hname|]. destruct (_ && _).
  { eapply (wp_upd_sess t0 c0 t with_quit); [done|]. intros w2 Hi2 Hl2 _. exists T.
    by rewrite Hl2. }
  apply wp_bind. eapply wp_mono; [by eapply wp_builtin_try_d|].
  intros [] w2 (T2 & Hi2 & Hl2); [apply wp_ret; exists T2; split; [done|lia]|].
  eapply wp_mono; [by eapply (wp_exec_job_d t0 c0)|]. intros [] w3 (T3 & Hi3 & _ & Hl3).
  exists T3. split; [done|lia].
Qed.

Lemma wp_dispatch t fuel line w T :
  fuel_ok2 alive t fuel → inv t0 c0 None w T →
  wp t (dispatch fuel line) (λ _ w', ready w w') w.
Proof.
  intros Hfuel Hi. unfold dispatch. destruct (strneq _ _ _); [by eapply wp_handle_cmd|].
  destruct (strneq _ _ _); (eapply wp_mono; [by eapply wp_handle_ctl || by eapply wp_handle_text|]);
    intros [] w1 (T1 & Hi1 & _ & _ & Hl1); by exists T1.
Qed.

Lemma wp_session_step t fuel w T :
  fuel_ok2 alive t fuel → inv t0 c0 None w T →
  wp t (session_step fuel)
    (λ r w', ready w w' ∧
       match r with inl _ => progress alive (w_log w) (w_log w') | inr _ => True end) w.
Proof.
  intros Hfuel Hi. pose proof (fuel_ok2_ok _ _ _ Hfuel) as Hf1. unfold session_step.
  apply wp_bind. eapply wp_mono; [by eapply (wp_reap_d t0 c0)|].
  intros [] w1 (T1 & _ & Hi1 & Hl1). set (T2 := filter _ T1) in *. clearbody T2.
  apply wp_bind. unfold session_prompt, session_puts.
  eapply wp_mono; [by eapply (wp_session_write t0 c0)|].
  intros r w2 (Hi2 & _ & Hl2 & Hpr & n & _ & _ & Hr).
  pose proof (suffix_length _ _ Hl2) as Hl2'.
  case_bool_decide as Hneg; [apply wp_ret; split; [exists T2; split; [done|lia]|done]|].
  assert (r = 0%Z) as -> by (destruct Hr as [[? _]|[? _]]; [done|lia]).
  assert (Hpr2 : progress alive (w_log w1) (w_log w2)) by by apply Hpr.
  apply wp_bind. eapply wp_mono; [by eapply (wp_readsocket t0 c0)|].
  intros [line|z] w3 (Hi3 & Hl3 & _); [|apply wp_ret; split; [exists T2; split; [done|lia]|done]].
  apply wp_bind. eapply wp_mono; [by eapply wp_dispatch|].
  intros [] w4 (T4 & Hi4 & Hl4). unfold sess. apply wp_bind, wp_gets.
  destruct (quit (w_x w4)); apply wp_ret; (split; [exists T4; split; [done|lia]|done || idtac]).
  eapply progress_trans_l; [exact Hl1|]. eapply progress_trans; [done|lia].
Qed.

(** *** The whole session *)

(** The state in which the thread of a client starts: nothing allocated by this
    session but its [session_t], its socket [c0], which fits an [fd_set], and the
    standard descriptors open. *)
Record session_start w : Prop := {
  ss_heap : w_heap w = ∅ ∧ w_list w = None;
  ss_fds : w_fds w = t0;
  ss_sock : t0 !! c0 = Some OSock ∧ (2 < c0)%Z ∧ std_open t0;
  ss_sess : cfd (w_x w) = c0 ∧ fg_job (w_x w) = None ∧ inbuf (w_x w) = [] ∧ live (w_x w) = true;
  ss_set : (c0 < FD_SETSIZE)%Z;
  ss_log : log_ok t0 c0 (w_log w)
}.

(** The state after the session: nothing allocated, the [session_t] freed, the
    descriptors of the start but the socket, and the log in order.  [w1] is the
    state in which the loop of [session_main] ended and [T] its job table: since
    then the process group of every job of [T] has been killed. *)
Definition session_end (fuel : nat) (w w' : W) : Prop :=
  w_heap w' = ∅ ∧ w_list w' = None ∧ live (w_x w') = false ∧
  w_fds w' = delete c0 t0 ∧ log_ok t0 c0 (w_log w') ∧
  ∃ w1 T, session_loop fuel w = Done (tt, w1) ∧ inv t0 c0 None w1 T ∧
    Forall (λ lj, happened w1 w' (EvKill (- pgid lj.2) SIGKILL)) T.

Lemma start_inv w : session_start w → inv t0 c0 None w [].
Proof.
  intros [[Hh Hp] Hf Hs (Hc & Hfg & Hb & Hv) Hset Hl]. split; rewrite ?Hf, ?Hb; try done.
  - split; [split|]; rewrite ?Hh, ?Hp; try done. apply NoDup_nil_2.
  - apply tbl_ok_nil.
  - split; [apply NoDup_nil_2|by intros fd ?%elem_of_nil|done].
  - simpl. lia.
  - apply Forall_nil_2.
Qed.

(** [session_create] sets that state up. *)
Lemma session_create_start p lg w w' :
  w_heap w = ∅ → w_fds w = t0 → t0 !! c0 = Some OSock ∧ (2 < c0)%Z ∧ std_open t0 →
  (c0 < FD_SETSIZE)%Z → log_ok t0 c0 (w_log w) →
  session_create c0 p lg w = Done (true, w') → session_start w'.
Proof.
  intros Hh Hf Hs Hset Hl. unfold session_create, emit, jobs_init, upd_sess, mbind, M_bind, get, modify.
  destruct (e_malloc _); intros [= <-]. by split.
Qed.

Lemma wp_session_loop t fuel w :
  fuel_ok2 alive t fuel → session_start w →
  wp t (session_loop fuel) (λ _ w1, ∃ T, inv t0 c0 None w1 T) w.
Proof.
  intros Hfuel Hs%start_inv. pose proof (fuel_ok2_ok _ _ _ Hfuel) as Hf1.
  eapply (wp_loop_env alive t fuel (λ _ w', ∃ T, inv t0 c0 None w' T)); [done| |by eexists].
  intros [] w1 [T Hi]. eapply wp_mono; [by eapply wp_session_step|].
  intros [[]|[]] w2 [(T2 & Hi2 & _) Hpr]; [split; [by eexists|done]|by eexists].
Qed.

Lemma wp_session_main t fuel w :
  fuel_ok2 alive t fuel → session_start w →
  wp t (session_main fuel) (λ _ w', session_end fuel w w') w.
Proof.
  intros Hfuel Hs. pose proof (fuel_ok2_ok _ _ _ Hfuel) as Hf1. unfold session_main. apply wp_bind.
  pose proof (wp_session_loop t fuel w Hfuel Hs) as Hloop. unfold wp at 1. unfold wp in Hloop.
  destruct (session_loop fuel w) as [[[] w1]| |] eqn:Hrun; [|done|done].
  destruct Hloop as [T Hi]. unfold session_destroy, deref_sess, free_sess, close. cbn [negb].
  apply wp_bind. eapply wp_mono; [by eapply (wp_kill_all_d t0 c0)|]. intros [] w3 (Hi3 & Hh3 & _ & Hk3).
  pose proof (i_live _ _ _ _ _ Hi3) as Hv.
  apply wp_bind, wp_bind, wp_gets, wp_bind, wp_check, wp_ret; [done|].
  apply wp_bind, wp_bind, wp_emit, wp_modify, wp_bind, wp_bind, wp_gets, wp_bind, wp_check, wp_ret, wp_modify;
    [done|]. rewrite (i_cfd _ _ _ _ _ Hi3).
  destruct (i_fds _ _ _ _ _ Hi3) as [_ _ Hb].
  split_and!; cbn; try done.
  - by destruct (i_tbl _ _ _ _ _ Hi3) as [[Hc _ _] _].
  - unfold fd_close. f_equal. apply map_eq. intros fd. apply Hb. apply not_elem_of_nil.
  - split; [done|apply Hi3].
  - exists w1, T. split_and!; [done|done|]. eapply Forall_impl; [exact Hk3|]. intros lj Hin.
    eapply happened_later; [exact Hin|]. cbn. by apply suffix_cons_r.
Qed.

End main.

(** ** The properties of a session *)

(** C2 (safety): whatever the client, the kernel and the children do and however
    long the session lasts, as long as at most [INT_MAX] jobs were ever started and
    the socket it was given fits an [fd_set], its thread has no undefined behaviour
    (memory, job numbers, [FD_SET]), and when it ends nothing of it is left: no
    allocated job, the [session_t] freed once, exactly the daemon's descriptors
    without the socket; and every job that was in its table when the loop of
    [session_main] ended has been sent SIGKILL since then.  The whole log
    satisfies [log_ok]: the session signals and waits for process groups it has
    created and no others, and every child it starts has default dispositions,
    does not hold the socket but on its standard descriptors, and above those only
    has what the daemon itself has or write ends of pipes. *)
Theorem session_safe `{FewAllocs} t0 c0 fuel w :
  session_start t0 c0 w →
  session_main fuel w ≠ Undef ∧
  ∀ w', session_main fuel w = Done (tt, w') → session_end t0 c0 fuel w w'.
Proof.
  intros Hs. assert (Hwp : wp Partial (session_main fuel) (λ _ w', session_end t0 c0 fuel w w') w).
  { by apply wp_session_main. }
  split; [by eapply wp_no_undef|]. intros w' Hr. by eapply wp_run in Hwp.
Qed.

(** The daemon's descriptors: [/dev/null] three times, the log, the listening
    socket, and the socket 5 of the client. *)
Definition daemon_fds : fdtab :=
  {[0%Z := ONull; 1%Z := ONull; 2%Z := ONull;
    3%Z := OFile (b "/tmp/yashd.log") (O_WRITE_CREATE_TRUNC 420); 5%Z := OSock]}.

Definition start_d : W :=
  World ∅ None daemon_fds ∅ 0 [] (Session 5 (Peer (b "local") 77) None [] false EOTHER 3 true).

Lemma start_d_ok : session_start daemon_fds 5 start_d.
Proof.
  split; [done|done| |done|done|done]. split; [by vm_compute|]. split; [done|].
  unfold std_open. split_and!; apply (bool_decide_unpack _); vm_compute; done.
Qed.

(** A client that starts a job in the background and leaves. *)
Definition one_job_env : Env := {|
  e_waitpid _ _ fl := if WNOHANG fl then WaitNone else WaitErr ECHILD;
  e_getpid := 7;
  e_fork h := Some (Pos.of_succ_nat (100 + length h));
  e_pipe _ := true;
  e_malloc h := bool_decide (mallocs h < INT_MAX)%Z;
  e_fgets _ _ := Eof;
  e_write _ _ l := RwOk (length l);
  e_read h _ _ := if bool_decide (length h < 2) then ReadBytes (b "CMD sleep 9 &" ++ [LF]) else ReadBytes [];
  e_select _ _ := true;
  e_now _ := None;
  e_open _ _ _ := true;
  e_exec _ := true
|}.

Lemma one_job_few : FewAllocs (H := one_job_env).
Proof. intros h Hh. by apply bool_decide_eq_true in Hh. Qed.

Definition killed_groups (h : history) : nat :=
  length (List.filter (λ e, match e with EvKill _ SIGKILL => true | _ => false end) h).

Lemma session_safe_witness : ∃ w', session_main (H := one_job_env) 6 start_d = Done (tt, w') ∧
  killed_groups (w_log w') = 1 ∧ session_end (H := one_job_env) daemon_fds 5 6 start_d w'.
Proof.
  destruct (session_safe (H := one_job_env) (H0 := one_job_few) daemon_fds 5 6 start_d start_d_ok)
    as [_ Hpost].
  assert (Hk : match session_main (H := one_job_env) 6 start_d with
               | Done (_, w) => killed_groups (w_log w) | _ => 0 end = 1) by (vm_compute; reflexivity).
  destruct (session_main (H := one_job_env) 6 start_d) as [[[] w']| |]; [|discriminate Hk..].
  exists w'. split; [done|]. split; [exact Hk|]. exact (Hpost w' eq_refl).
Defined.

(** C11 (liveness): if from some point of the history on the client has closed the
    connection and no child is left, the session, if at most [INT_MAX] jobs were
    ever started, ends: twice that point plus two
    is enough fuel for every loop, and the state is the one of [session_end]. *)
Theorem session_terminates `{FewAllocs} t0 c0 fuel B w :
  session_start t0 c0 w →
  (∀ h, B ≤ length h →
     (∀ p fl, e_waitpid h p fl = WaitErr ECHILD) ∧ (∀ fd n, e_read h fd n = ReadBytes []) ∧
     (∀ fd l, e_write h fd l = RwErr EPIPE)) →
  2 * B + 1 < fuel →
  ∃ w', session_main fuel w = Done (tt, w') ∧ session_end t0 c0 fuel w w'.
Proof.
  intros Hs Hend HB. destruct (wp_total_run _ _ _ (wp_session_main t0 c0 Full fuel w
    ltac:(intros _; exists B; split; [done|];
          intros h Hh [(p & fl & Hw)|[(fd & n & Hw)|(fd & l & Hw)]];
          destruct (Hend h Hh) as (H1 & H2 & H3); auto) Hs)) as ([] & w' & Hr & Hp).
  by exists w'.
Qed.

(** A kernel whose client has gone. *)
Definition gone_env : Env := {|
  e_waitpid _ _ _ := WaitErr ECHILD;
  e_getpid := 7;
  e_fork h := Some (Pos.of_succ_nat (100 + length h));
  e_pipe _ := true;
  e_malloc h := bool_decide (mallocs h < INT_MAX)%Z;
  e_fgets _ _ := Eof;
  e_write h _ l := if bool_decide (length h < 2) then RwOk (length l) else RwErr EPIPE;
  e_read h _ _ := if bool_decide (length h < 2) then ReadBytes (b "CMD ls" ++ [LF]) else ReadBytes [];
  e_select _ _ := true;
  e_now _ := None;
  e_open _ _ _ := true;
  e_exec _ := true
|}.

Lemma gone_few : FewAllocs (H := gone_env).
Proof. intros h Hh. by apply bool_decide_eq_true in Hh. Qed.

Lemma session_terminates_witness :
  ∃ w', session_main (H := gone_env) 6 start_d = Done (tt, w') ∧
    session_end (H := gone_env) daemon_fds 5 6 start_d w'.
Proof.
  apply (session_terminates (H := gone_env) (H0 := gone_few) daemon_fds 5 6 2 start_d start_d_ok); [|lia].
  intros h Hh. cbn. split_and!; [done|intros; by rewrite bool_decide_false by lia..].
Defined.

(** [session_write] delivers exactly a prefix of the message to
    the client, in order, whatever short writes and interruptions occur: the
    whole message when it returns 0, and when it returns -1 the session is marked
    to quit.  It touches neither the input buffer nor the jobs. *)
Theorem session_write_delivers `{Env} t0 c0 fg fuel buf w T :
  inv t0 c0 fg w T →
  session_write fuel buf w ≠ Undef ∧
  ∀ r w', session_write fuel buf w = Done (r, w') →
    inv t0 c0 fg w' T ∧ inbuf (w_x w') = inbuf (w_x w) ∧
    ∃ n, n ≤ length buf ∧
      delivered c0 (w_log w') = delivered c0 (w_log w) ++ take n buf ∧
      (r = 0%Z ∧ n = length buf ∨ r = (-1)%Z ∧ quit (w_x w') = true).
Proof.
  intros Hi. pose proof (wp_session_write t0 c0 Partial fuel buf fg w T ltac:(done) Hi) as Hwp.
  split; [by eapply wp_no_undef|]. intros r w' Hr.
  apply (wp_run _ _ _ _ _ _ Hwp) in Hr as (? & ? & _ & _ & n & ?). eauto.
Qed.

Lemma start_d_inv : inv daemon_fds 5 None start_d [].
Proof. apply start_inv, start_d_ok. Qed.

Lemma session_write_delivers_witness :
  ∃ r w', session_write (H := calm_env) 3 (b "hello") start_d = Done (r, w') ∧
    delivered 5 (w_log w') = b "hello" ∧ r = 0%Z.
Proof.
  destruct (session_write_delivers (H := calm_env) _ _ _ 3 (b "hello") _ _ start_d_inv) as [_ Hp].
  destruct (session_write (H := calm_env) 3 (b "hello") start_d) as [[r w']| |] eqn:Hr;
    [|vm_compute in Hr; discriminate..].
  exists r, w'. split; [done|]. destruct (Hp r w' eq_refl) as (_ & _ & n & _ & Hd & [[-> ->]|[-> _]]).
  - split; [|done]. rewrite Hd. by vm_compute.
  - exfalso. vm_compute in Hr. discriminate.
Defined.

(** C30 (functional): a line that [session_readsocket] returns is exactly the next
    line of the bytes the client has sent, without its newline (a final carriage
    return becomes the terminator), and everything after it stays buffered; the
    only bytes lost are full buffers of 4096 bytes without any newline. *)
Theorem readsocket_frames `{Env} t0 c0 fg fuel w T :
  inv t0 c0 fg w T →
  session_readsocket fuel YASH_BUF_SIZE w ≠ Undef ∧
  ∀ line w', session_readsocket fuel YASH_BUF_SIZE w = Done (inl line, w') →
    inv t0 c0 fg w' T ∧ line_read c0 w w' line.
Proof.
  intros Hi. pose proof (wp_readsocket t0 c0 Partial fuel fg w T ltac:(done) Hi) as Hwp.
  split; [by eapply wp_no_undef|]. intros line w' Hr.
  by apply (wp_run _ _ _ _ _ _ Hwp) in Hr as (? & _ & ?).
Qed.

Lemma readsocket_frames_witness :
  ∃ w', session_readsocket (H := gone_env) 3 YASH_BUF_SIZE start_d = Done (inl (b "CMD ls"), w') ∧
    line_read 5 start_d w' (b "CMD ls").
Proof.
  destruct (readsocket_frames (H := gone_env) _ _ _ 3 _ _ start_d_inv) as [_ Hp].
  destruct (session_readsocket (H := gone_env) 3 YASH_BUF_SIZE start_d) as [[[line|z] w']| |] eqn:Hr;
    [|vm_compute in Hr; discriminate..].
  assert (line = b "CMD ls") as -> by (vm_compute in Hr; injection Hr as <- _; by vm_compute).
  exists w'. split; [done|]. by apply Hp.
Defined.

(** The child of command [i] of a client's job joins the job's
    process group, has default dispositions for the eight signals, and either
    executes exactly the words of its command, with its redirections on top of
    the client's socket on standard output and error, the job's input pipe on the
    standard input of the first command and the pipe between the commands, all the
    plumbing closed, or exits with 127 or 1. *)
Theorem child_attached `{Env} (j : job) i c c0 inpipe k fds id pg tw p :
  job_wf Frame j → i < ncmds j → cmds j !! i = Some c →
  tables_ok c0 inpipe k fds id tw (p_fds p) →
  ∃ e p', child_main j i c0 inpipe fds pg p = Done (e, p') ∧ p_pgid p' = pg ∧
    Forall (λ s, disposition (p_sigs p') s = SIG_DFL) signos ∧
    child_result (abs_cmd (buf j) c) (attached i c0 k id tw) p e p'.
Proof.
  intros Hwf Hi Hc Htab. destruct (job_cmd _ _ _ _ Hwf Hi Hc) as [Hcw Hne].
  destruct (abs_head (buf j) _ _ Hcw Hne) as [file Hfile].
  rewrite (child_main_spec_d j i c0 inpipe fds pg p c Hwf Hi Hc).
  pose proof (exec_spec_result _ (child_ready i c0 inpipe fds pg p) file Hfile) as Hr.
  destruct (exec_spec _ _) as [e p']. destruct Hr as (Hs & Hg & Hr). exists e, p'.
  split_and!; [done|done| |].
  - apply Forall_forall. intros s. rewrite Hs. apply reset_sigs_disp.
  - cbn [child_ready p_fds] in Hr. by rewrite (child_table_attached i c0 inpipe k fds id tw) in Hr.
Qed.

Definition piped_fds : fdtab := with_pipe (Some (4, 6)%Z) (Some 0) daemon_fds.

Lemma child_attached_witness :
  ∃ e p', child_main (H := calm_env) (sample_job (-1)%Z) 0 5 (4, 6)%Z None 0
            (Proc piped_fds {[SIGPIPE := SIG_IGN]} 7 []) = Done (e, p') ∧
    p_pgid p' = 0%Z ∧ disposition (p_sigs p') SIGPIPE = SIG_DFL.
Proof.
  destruct (child_attached (H := calm_env) (sample_job (-1)%Z) 0
    (default zero_cmd (cmds (sample_job (-1)%Z) !! 0)) 5 (4, 6)%Z 0 None None 0 daemon_fds
    (Proc piped_fds {[SIGPIPE := SIG_IGN]} 7 []) (sample_job_wf _)) as (e & p' & Hr & Hg & Hs & _).
  - apply (sample_job_wf (-1)%Z).
  - vm_compute. reflexivity.
  - split_and!; try done; by vm_compute.
  - exists e, p'. split_and!; [done|done|]. rewrite Forall_forall in Hs. apply Hs.
    by apply (list_elem_of_lookup_2 _ 5).
Defined.

(** [exec_job] gives the daemon its descriptors back, except for
    the write end of the input of a job that stays in the table, and its effect on
    the table is one of: nothing (a pipe or the first fork failed, or the table
    refused the job, which is then killed), the job appended with its input closed
    (background), or the outcome of the foreground wait: the job removed, or kept
    as stopped. *)
Theorem exec_job_attaches `{FewAllocs} t0 c0 fuel w T proto :
  inv t0 c0 None w T → job_wf Frame proto → nlive proto = 0%Z →
  exec_job fuel proto w ≠ Undef ∧
  ∀ w', exec_job fuel proto w = Done (tt, w') →
    ∃ T', inv t0 c0 None w' T' ∧ exec_effect_d proto T (w_log w') T'.
Proof.
  intros Hi Hwf Hn.
  pose proof (wp_exec_job_d t0 c0 Partial fuel w T proto ltac:(done) Hi Hwf Hn) as Hwp.
  split; [by eapply wp_no_undef|]. intros w' Hr.
  apply (wp_run _ _ _ _ _ _ Hwp) in Hr as (T' & ? & ? & _). by exists T'.
Qed.

Lemma exec_job_attaches_witness :
  ∃ w' T', exec_job (H := calm_env) 4 (sample_job (-1)%Z) start_d = Done (tt, w') ∧
    inv daemon_fds 5 None w' T'.
Proof.
  destruct (exec_job_attaches (H := calm_env) (H0 := calm_few) _ _ 4 _ _ (sample_job (-1)%Z) start_d_inv
    (sample_job_wf _)) as [_ Hp]; [vm_compute; reflexivity|].
  destruct (exec_job (H := calm_env) 4 (sample_job (-1)%Z) start_d) as [[[] w']| |] eqn:Hr;
    [|vm_compute in Hr; discriminate..].
  destruct (Hp w' eq_refl) as (T' & Hi & _). eauto.
Defined.

(** At the end of a session [jobs_kill_all] sends SIGKILL to every
    process group in the table, waits for it, closes its input and frees it:
    nothing is allocated and no descriptor is left but the daemon's own, and no
    other group is signalled or waited for. *)
Theorem jobs_kill_all_clean `{Env} t0 c0 fg fuel w T :
  inv t0 c0 fg w T →
  jobs_kill_all fuel w ≠ Undef ∧
  ∀ w', jobs_kill_all fuel w = Done (tt, w') →
    inv t0 c0 None w' [] ∧ w_heap w' = ∅ ∧
    Forall (λ lj, happened w w' (EvKill (- pgid lj.2) SIGKILL)) T.
Proof.
  intros Hi. pose proof (wp_kill_all_d t0 c0 Partial fuel fg w T ltac:(done) Hi) as Hwp.
  split; [by eapply wp_no_undef|]. intros w' Hr.
  by apply (wp_run _ _ _ _ _ _ Hwp) in Hr as (? & ? & _ & ?).
Qed.

Lemma jobs_kill_all_clean_witness :
  ∃ w', jobs_kill_all (H := calm_env) 4 start_d = Done (tt, w') ∧ inv daemon_fds 5 None w' [].
Proof.
  destruct (jobs_kill_all_clean (H := calm_env) _ _ _ 4 _ _ start_d_inv) as [_ Hp].
  destruct (jobs_kill_all (H := calm_env) 4 start_d) as [[[] w']| |] eqn:Hr;
    [|vm_compute in Hr; discriminate..].
  exists w'. split; [done|]. by apply Hp.
Defined.

(** The lines about jobs that a session prints always fit into the
    buffer of [session_printf], so the client gets them whole: a line of a job of
    the table is handed to [session_write] unchanged. *)
Theorem job_lines_fit `{Env} l (j : job) mark status fuel w :
  job_wf (Heap l) j → length status ≤ 7 →
  session_printf fuel (job_line j mark status) w = session_write fuel (job_line j mark status) w.
Proof.
  intros Hwf Hst. unfold session_printf.
  assert (Hlen : 0 < length (job_line j mark status) < YASH_MAX_LINE + 128).
  { unfold job_line. rewrite !length_app. cbn [length].
    pose proof (wf_cmdline_nul _ _ Hwf) as Hc. unfold strlen in Hc.
    pose proof (fmt_d_length (jid j)) as Hd. 
    assert (length (if background j then b " &" else []) ≤ 2) by (destruct (background j); simpl; lia).
    change (length (b "[")) with 1. change (length (b "] ")) with 2. limits. }
  rewrite bool_decide_false by lia. rewrite bool_decide_false by lia. by rewrite firstn_all.
Qed.

Lemma job_lines_fit_witness :
  ∃ r w', session_printf (H := calm_env) 2 (job_line (set_jid 1 (default (zero_job (-1)%Z)
     (rebase_pointers Frame (Heap 1) (sample_job (-1)%Z)))) "+" (b "Running")) start_d = Done (r, w') ∧ r = 0%Z.
Proof.
  rewrite (job_lines_fit (H := calm_env) 1); [|..].
  - vm_compute. eexists _, _. split; reflexivity.
  - destruct (rebase_pointers_wf Frame (Heap 1) (sample_job (-1)%Z) (sample_job_wf _))
      as (j & Hj & Hwf & _). rewrite Hj. by apply wf_set_jid.
  - vm_compute. lia.
Defined.

Lemma parse_ok_line {E} (e0 : E) line (j0 j : job_t E) :
  parse_line e0 Frame (Some line) j0 = (PARSE_OK, j) →
  cstr line ≠ [] ∧ strlen line ≤ YASH_MAX_LINE.
Proof.
  intros Hp. assert (Hl : strlen line ≤ YASH_MAX_LINE).
  { apply Nat.nlt_ge. intros Hlt. unfold parse_line in Hp. by rewrite bool_decide_true in Hp. }
  split; [|done]. intros Hnil. pose proof (parse_line_spec e0 Frame line j0 Hl) as Hs.
  unfold words in Hs. rewrite Hnil in Hs. destruct Hs as [j' Hj']. by rewrite Hp in Hj'.
Qed.

(** A command line that the parser accepts is logged with one
    complete entry (time stamp, the peer's address and port, the line), which
    always fits into the buffer of [log_command]. *)
Theorem log_command_whole `{Env} p line j0 j w stamp :
  parse_line (-1)%Z Frame (Some line) j0 = (PARSE_OK, j) →
  length (cstr (ip p)) ≤ 15 → (0 ≤ log_fd (w_x w))%Z → e_now (w_log w) = Some stamp →
  log_command p line w = Done (tt, with_log (EvLog (log_entry (take 31 stamp) p line) :: w_log w) w).
Proof.
  intros [Hne Hlen]%parse_ok_line Hip Hfd Hnow. unfold log_command, sess, mbind, M_bind, gets, get.
  rewrite (bool_decide_false (_ < 0)%Z) by lia. rewrite (bool_decide_false (cstr line = [])) by done.
  cbn [orb]. rewrite Hnow.
  assert (Hfit : length (log_entry (take 31 stamp) p line) < YASH_MAX_LINE + 128).
  { unfold log_entry. rewrite !length_app, length_take. cbn [length]. unfold strlen in Hlen.
    pose proof (fmt_d_length (port p)).
    change (length (b " yashd[")) with 7. change (length (b ":")) with 1.
    change (length (b "]: ")) with 3. unfold YASH_MAX_LINE in *; lia. }
  rewrite bool_decide_false by lia. by rewrite firstn_all.
Qed.

(** A kernel with a clock. *)
Definition clock_env : Env := {|
  e_waitpid _ _ _ := WaitErr ECHILD;
  e_getpid := 7;
  e_fork _ := None;
  e_pipe _ := true;
  e_malloc _ := true;
  e_fgets _ _ := Eof;
  e_write _ _ l := RwOk (length l);
  e_read _ _ _ := ReadBytes [];
  e_select _ _ := true;
  e_now _ := Some (b "Sep 18 10:02:55");
  e_open _ _ _ := true;
  e_exec _ := true
|}.

Lemma log_command_whole_witness :
  log_command (H := clock_env) (Peer (b "127.0.0.1") 7813) (b "ls -l") start_d
  = Done (tt, with_log [EvLog (b "Sep 18 10:02:55 yashd[127.0.0.1:7813]: ls -l" ++ [LF])] start_d).
Proof.
  rewrite (log_command_whole (H := clock_env) _ _ (zero_job (-1)%Z)
    (snd (parse_line (-1)%Z Frame (Some (b "ls -l")) (zero_job (-1)%Z))) _ (b "Sep 18 10:02:55"));
    [reflexivity|vm_compute; reflexivity|vm_compute; lia|vm_compute; discriminate|reflexivity].
Defined.

(** What a control message does when [j] at [l] is the foreground job of [T]. *)
Definition ctl_effect (c : ascii) l j T (w w' : W) : Prop :=
  (c = CTL_INT ∧ w' = with_log (EvKill (- pgid j) SIGINT :: w_log w) w) ∨
  (c = CTL_STOP ∧ w' = with_log (EvKill (- pgid j) SIGTSTP :: w_log w) w) ∨
  (c = CTL_EOF ∧ (0 ≤ infd j)%Z ∧ tbl w' (upd_tbl l (set_infd (-1)%Z) T) ∧
     w_fds w' = fd_close (infd j) (w_fds w) ∧ w_log w' = EvClose (infd j) :: w_log w ∧
     w_x w' = w_x w) ∨
  (c = CTL_EOF ∧ (infd j < 0)%Z ∧ w' = with_x (with_quit (w_x w)) w) ∨
  (c ∉ [CTL_INT; CTL_STOP; CTL_EOF] ∧ w' = w).

(** A control message while the job [j] runs in the foreground
    does exactly one thing: [c] interrupts and [z] stops that job's process group
    and no other, [d] closes the write end of that job's input, or, when it is
    already closed, marks the session to quit; any other character does nothing. *)
Theorem ctl_routes `{Env} t0 c0 l j w T arg :
  inv t0 c0 (Some l) w T → (l, j) ∈ T →
  ∃ w', handle_ctl arg w = Done (tt, w') ∧ ctl_effect (default NUL (head arg)) l j T w w'.
Proof.
  intros Hi Hin. destruct (tbl_lookup _ _ l j (i_tbl _ _ _ _ _ Hi) Hin) as [n Hn].
  assert (Hd : deref l w = Done (set_next n j, w)).
  { unfold deref, mbind, M_bind, gets. by rewrite Hn. }
  destruct (i_fg _ _ _ _ _ Hi) as [Hfg _]. set (c := default NUL (head arg)).
  unfold handle_ctl, sess, mbind at 1, M_bind at 1, gets. rewrite Hfg. fold c. cbn zeta.
  unfold ctl_effect. case_bool_decide as H1; [unfold mbind, M_bind; rewrite Hd; eauto 10|].
  case_bool_decide as H2; [unfold mbind, M_bind; rewrite Hd; eauto 10|].
  case_bool_decide as H3; [|eexists; split; [done|]; do 4 right; split; [set_solver|done]].
  unfold mbind at 1, M_bind at 1. rewrite Hd. cbn [infd set_next].
  case_bool_decide as H4.
  2:{ eexists. split; [done|]. do 3 right. left. split_and!; [done|lia|done]. }
  unfold close, emit, modify, mbind at 1, M_bind at 1. cbn.
  unfold mbind at 1, M_bind at 1. cbn.
  set (w1 := with_fds _ _).
  assert (Ht1 : tbl w1 T) by (eapply tbl_ext; [| |apply Hi]; done).
  pose proof (wp_update_tbl Full l (set_infd (-1)%Z)
    (λ _ w', tbl w' (upd_tbl l (set_infd (-1)%Z) T) ∧ w_fds w' = w_fds w1 ∧
             w_log w' = w_log w1 ∧ w_x w' = w_x w1) w1 T j Ht1 Hin ltac:(done)) as Hwp.
  apply wp_total_run in Hwp as ([] & w' & Hr & ? & Hf & Hl & Hx).
  exists w'. split; [exact Hr|]. do 2 right. left. split_and!; [done|done|done|..];
    by rewrite ?Hf, ?Hl, ?Hx.
Qed.

(** A session with the sample job as its foreground job, reading from
    descriptor 7. *)
Definition fg_sample : job := set_infd 7%Z (set_nlive 1 (set_pgid 100 (set_jid 1
  (default (zero_job (-1)%Z) (rebase_pointers Frame (Heap 1) (sample_job (-1)%Z)))))).

Definition fg_world (j : job) : W :=
  World {[1%positive := j]} (Some 1%positive) (<[7%Z := OPipeW 0]> daemon_fds) ∅ 1
    [EvFork (Some 100%positive) None; EvMalloc true]
    (Session 5 (Peer (b "local") 77) (Some 1%positive) [] false EOTHER 3 true).

Lemma fg_world_inv j :
  job_wf (Heap 1) j → jid j = 1%Z → pgid j = 100%Z → infd j = 7%Z → next j = None →
  inv daemon_fds 5 (Some 1%positive) (fg_world j) [(1%positive, j)].
Proof.
  intros Hwf Hjid Hpg Hfd Hn. pose proof start_d_ok as [_ _ Hs _ _ _]. split; try done.
  - split; [split|]; cbn [fg_world w_heap w_list fmap list_fmap fst].
    + split; [done|]. exists j. by rewrite lookup_singleton_eq.
    + apply NoDup_singleton.
    + rewrite dom_singleton_L. cbn. by rewrite union_empty_r_L.
    + rewrite Forall_singleton. cbn [fst snd]. rewrite lookup_singleton_eq.
      unfold erase. rewrite <- Hn. cbn. by rewrite set_next_id.
  - split.
    + cbn [length]. limits.
    + apply SSorted_cons; [apply SSorted_nil|apply Forall_nil_2].
    + rewrite Forall_singleton. cbn. rewrite Hjid. unfold INT_MAX. lia.
    + by rewrite Forall_singleton.
  - rewrite Forall_singleton. exists 100%positive, None. cbn. rewrite Hpg. split; [done|by left].
  - unfold infds, infd_of. cbn. rewrite Hfd. cbn.
    apply (fds_ok_open daemon_fds daemon_fds [] 7 0); [|by vm_compute|lia].
    split; [apply NoDup_nil_2|by intros fd ?%elem_of_nil|done].
  - split; [done|]. intros k [= <-]. by left.
  - cbn. lia.
  - unfold few_jids. rewrite Forall_singleton. cbn. lia.
Qed.

Lemma fg_sample_inv : inv daemon_fds 5 (Some 1%positive) (fg_world fg_sample) [(1%positive, fg_sample)].
Proof.
  unfold fg_sample.
  destruct (rebase_pointers_wf Frame (Heap 1) (sample_job (-1)%Z) (sample_job_wf _))
    as (j & Hj & Hwf & (_ & _ & _ & _ & Hn & _) & _). rewrite Hj. cbn [default].
  apply fg_world_inv; [by apply wf_set_infd, wf_set_nlive, wf_set_pgid, wf_set_jid|reflexivity..|].
  transitivity (next (sample_job (-1)%Z)); [exact Hn|]. vm_compute. reflexivity.
Qed.

Lemma ctl_routes_witness :
  ∃ w', handle_ctl (b "z") (fg_world fg_sample) = Done (tt, w') ∧
    w_log w' = [EvKill (-100) SIGTSTP; EvFork (Some 100%positive) None; EvMalloc true].
Proof.
  destruct (ctl_routes (H := calm_env) _ _ 1%positive fg_sample _ _ (b "z") fg_sample_inv
    ltac:(by left)) as (w' & Hr & [[Hc _]|[[_ ->]|[[Hc _]|[[Hc _]|[Hc _]]]]]);
    [discriminate Hc| |discriminate Hc|discriminate Hc|].
  - eexists. split; [exact Hr|]. reflexivity.
  - exfalso. apply Hc. right. by left.
Defined.
