(* ===== verification/Client.v ===== *)
(** * The client of yashd

    [Project 2/yashd/client/src]: [client.c] (the connection, the message
    functions and the event loop) and [main.c].  The environment answers the
    system calls as functions of the log of everything that has happened, as in
    [Posix]; the two flags that the signal handlers raise are part of the answer
    of [pselect], the only place where the signals are unblocked.

    [inbuf] holds the valid bytes of the array, so [inlen] is its length; a store
    beyond the array is undefined behaviour.  [fuel] bounds the loops whose length
    the environment decides. *)

From S2P Require Import Prelude CString YashTypes Parse Posix JobTable Launch Yashd.
From stdpp Require Import base tactics list gmap strings.
From Stdlib Require Import Ascii ZArith Lia.

(** ** State and environment *)

(** A successful [pselect] says which of the two descriptors are ready. *)
Inductive pselect_result :=
  | PsReady (sock stdin : bool)
  | PsErr (e : Posix.errno).

Inductive cevent :=
  | CWrite (fd : Z) (l : bytes) (r : rw_result)
  | CRead (fd : Z) (n : nat) (r : read_result)
  | CPselect (r : pselect_result) (int stop : bool)
  | CSocket (fd : Z)
  | CConnect (ok : bool)
  | CClose (fd : Z)
  | CStderr (l : bytes)
  | CSigmask (blocked : bool).

Abbreviation chistory := (list cevent).

(** [c_signals]: whether SIGINT and SIGTSTP arrived during the [pselect]. *)
Class CEnv := {
  c_write : chistory → Z → bytes → rw_result;
  c_read : chistory → Z → nat → read_result;
  c_pselect : chistory → pselect_result;
  c_signals : chistory → bool * bool;
  c_isatty : chistory → bool;
  c_socket : chistory → Z;
  c_connect : chistory → bool;
  c_inet_pton : bytes → bool
}.

Record client_t := Client {
  c_tail : bytes;
  c_inbuf : bytes;
  prompt : bool;
  stdin_open : bool;
  c_done : bool;
  got_int : bool;
  got_stop : bool;
  c_errno : Posix.errno;
  c_log : chistory
}.

Definition set_tail (x : bytes) (s : client_t) : client_t :=
  Client x (c_inbuf s) (prompt s) (stdin_open s) (c_done s) (got_int s) (got_stop s)
    (c_errno s) (c_log s).
Definition set_c_inbuf (x : bytes) (s : client_t) : client_t :=
  Client (c_tail s) x (prompt s) (stdin_open s) (c_done s) (got_int s) (got_stop s)
    (c_errno s) (c_log s).
Definition set_prompt (x : bool) (s : client_t) : client_t :=
  Client (c_tail s) (c_inbuf s) x (stdin_open s) (c_done s) (got_int s) (got_stop s)
    (c_errno s) (c_log s).
Definition set_stdin_open (x : bool) (s : client_t) : client_t :=
  Client (c_tail s) (c_inbuf s) (prompt s) x (c_done s) (got_int s) (got_stop s)
    (c_errno s) (c_log s).
Definition set_done (x : bool) (s : client_t) : client_t :=
  Client (c_tail s) (c_inbuf s) (prompt s) (stdin_open s) x (got_int s) (got_stop s)
    (c_errno s) (c_log s).
Definition set_flags (i z : bool) (s : client_t) : client_t :=
  Client (c_tail s) (c_inbuf s) (prompt s) (stdin_open s) (c_done s) i z (c_errno s) (c_log s).
Definition set_c_errno (e : Posix.errno) (s : client_t) : client_t :=
  Client (c_tail s) (c_inbuf s) (prompt s) (stdin_open s) (c_done s) (got_int s) (got_stop s)
    e (c_log s).
Definition set_c_log (h : chistory) (s : client_t) : client_t :=
  Client (c_tail s) (c_inbuf s) (prompt s) (stdin_open s) (c_done s) (got_int s) (got_stop s)
    (c_errno s) h.

Abbreviation C := client_t.

Section client.
Context `{CEnv}.

Definition c_emit (e : cevent) : M C unit := modify (λ s, set_c_log (e :: c_log s) s).

Definition cl_write (fd : Z) (l : bytes) : M C rw_result :=
  s ← get;
  let r := match c_write (c_log s) fd l with
           | RwOk n => RwOk (min n (length l))
           | r => r
           end in
  c_emit (CWrite fd l r);;
  match r with RwErr e => modify (set_c_errno e) | RwOk _ => mret tt end;;
  mret r.

Definition cl_read (fd : Z) (n : nat) : M C read_result :=
  s ← get;
  let r := match c_read (c_log s) fd n with
           | ReadBytes l => ReadBytes (take n l)
           | r => r
           end in
  c_emit (CRead fd n r);;
  match r with ReadFail e => modify (set_c_errno e) | ReadBytes _ => mret tt end;;
  mret r.

(** ** Connecting *)

Definition client_connect_tcp (ip : bytes) : M C Z :=
  if negb (c_inet_pton ip) then
    c_emit (CStderr (b "yash: not an IPv4 address: " ++ cstr ip ++ [LF]));; mret (-1)%Z
  else
    s ← get;
    let fd := c_socket (c_log s) in
    c_emit (CSocket fd);;
    if bool_decide (fd < 0)%Z then c_emit (CStderr (b "socket"));; mret (-1)%Z
    else
      s ← get;
      let ok := c_connect (c_log s) in
      c_emit (CConnect ok);;
      if ok then mret fd
      else c_emit (CStderr (cstr ip));; c_emit (CClose fd);; mret (-1)%Z.

Definition client_connect_unix (path : bytes) : M C Z :=
  s ← get;
  let fd := c_socket (c_log s) in
  c_emit (CSocket fd);;
  if bool_decide (fd < 0)%Z then c_emit (CStderr (b "socket"));; mret (-1)%Z
  else
    s ← get;
    let ok := c_connect (c_log s) in
    c_emit (CConnect ok);;
    if ok then mret fd
    else c_emit (CStderr (cstr path));; c_emit (CClose fd);; mret (-1)%Z.

(** The handler, for each of the two signals. *)
Definition on_signal (signo : signal) : M C unit :=
  if bool_decide (signo = SIGINT) then modify (λ s, set_flags true (got_stop s) s)
  else modify (λ s, set_flags (got_int s) true s).

(** ** Messages *)

Definition send_all (fuel : nat) (fd : Z) (buf : bytes) : M C Z :=
  loop fuel
    (λ off,
       if bool_decide (off < length buf) then
         r ← cl_write fd (drop off buf);
         match r with
         | RwErr e => if bool_decide (e = EINTR) then mret (inl off) else mret (inr (-1)%Z)
         | RwOk n => mret (inl (off + n))
         end
       else mret (inr 0%Z)) 0.

Definition send_msg (fuel : nat) (fd : Z) (prefix body : bytes) : M C Z :=
  let text := cstr prefix ++ cstr body ++ [LF] in
  if bool_decide (length text = 0) then mret 0%Z
  else
    let n := if bool_decide (YASH_BUF_SIZE ≤ length text) then YASH_BUF_SIZE - 1
             else length text in
    send_all fuel fd (take n text).

Fixpoint push_tail (t buf : bytes) : bytes :=
  match buf with
  | [] => t
  | c :: buf' =>
      push_tail (match t with [t0; t1; t2] => [t1; t2; c] | _ => t end) buf'
  end.

Definition at_prompt (t : bytes) : bool :=
  match t with
  | [t0; t1; t2] =>
      bool_decide (t0 = LF) && bool_decide (t1 = "#"%char) && bool_decide (t2 = SP)
  | _ => false
  end.

(** Returns 1 ([true]) when the user asked to quit. *)
Definition send_line (fuel : nat) (sockfd : Z) (line : bytes) : M C bool :=
  p ← gets prompt;
  if (p : bool) then
    if streq line (b "quit") then mret true
    else
      send_msg fuel sockfd MSG_CMD line;;
      modify (set_prompt false);;
      mret false
  else send_msg fuel sockfd [] line;; mret false.

(** ** The event loop *)

(** [pselect] with the two signals unblocked: the handlers of those that arrived
    have run when it returns. *)
Definition cl_pselect : M C pselect_result :=
  s ← get;
  let r := c_pselect (c_log s) in
  let '(i, z) := c_signals (c_log s) in
  c_emit (CPselect r i z);;
  when i (on_signal SIGINT);;
  when z (on_signal SIGTSTP);;
  match r with PsErr e => modify (set_c_errno e) | PsReady _ _ => mret tt end;;
  mret r.

Definition send_flags (fuel : nat) (sockfd : Z) : M C unit :=
  i ← gets got_int;
  when i (modify (λ s, set_flags false (got_stop s) s);; send_msg fuel sockfd MSG_CTL (b "c");; mret tt);;
  z ← gets got_stop;
  when z (modify (λ s, set_flags (got_int s) false s);; send_msg fuel sockfd MSG_CTL (b "z");; mret tt).

(** What a step of the loop body ends with: falling through, [continue] or
    [break]. *)
Inductive flow := Next | Continue | Break.

Definition read_socket (fuel : nat) (sockfd : Z) : M C flow :=
  r ← cl_read sockfd YASH_BUF_SIZE;
  match r with
  | ReadFail e => mret (if bool_decide (e = EINTR) then Continue else Break)
  | ReadBytes [] => mret Break
  | ReadBytes buf =>
      w ← send_all fuel STDOUT_FILENO buf;
      if bool_decide (w < 0)%Z then mret Break
      else
        modify (λ s, set_tail (push_tail (c_tail s) buf) s);;
        modify (λ s, set_prompt (at_prompt (c_tail s)) s);;
        mret Next
  end.

(** [while (!done && (nl = memchr(inbuf, '\n', inlen)) != NULL)]: every turn takes
    at least the newline out of the buffer. *)
Definition send_lines (fuel : nat) (sockfd : Z) : M C unit :=
  n ← gets (λ s, length (c_inbuf s));
  loop (S n)
    (λ _ : unit,
       s ← get;
       match (if c_done s then None else memchr LF (c_inbuf s)) with
       | None => mret (inr tt)
       | Some len =>
           d ← send_line fuel sockfd (take len (c_inbuf s));
           modify (set_done d);;
           modify (λ s, set_c_inbuf (drop (len + 1) (c_inbuf s)) s);;
           mret (inl tt)
       end) tt.

Definition read_stdin (fuel : nat) (sockfd : Z) : M C flow :=
  inb ← gets c_inbuf;
  r ← cl_read STDIN_FILENO (YASH_BUF_SIZE - length inb);
  match r with
  | ReadFail e => mret (if bool_decide (e = EINTR) then Continue else Break)
  | ReadBytes [] =>
      (if bool_decide (0 < length inb) then
         if bool_decide (length inb < YASH_BUF_SIZE) then
           d ← send_line fuel sockfd inb;
           modify (set_done d);; modify (set_c_inbuf [])
         else undef
       else mret tt);;
      send_msg fuel sockfd MSG_CTL (b "d");;
      p ← gets prompt;
      (if (p : bool) then modify (set_done true)
       else
         s ← get;
         when (negb (c_isatty (c_log s))) (modify (set_stdin_open false)));;
      mret Continue
  | ReadBytes l =>
      modify (λ s, set_c_inbuf (c_inbuf s ++ l) s);;
      send_lines fuel sockfd;;
      inb ← gets c_inbuf;
      when (bool_decide (length inb = YASH_BUF_SIZE)) (modify (set_c_inbuf []));;
      mret Next
  end.

Definition client_step (fuel : nat) (sockfd : Z) : M C (unit + unit) :=
  d ← gets c_done;
  if (d : bool) then mret (inr tt)
  else
    send_flags fuel sockfd;;
    check (bool_decide (0 ≤ sockfd < FD_SETSIZE)%Z);;      (* FD_SET(sockfd, &rfds) *)
    r ← cl_pselect;
    match r with
    | PsErr e => if bool_decide (e = EINTR) then mret (inl tt) else mret (inr tt)
    | PsReady sock stdin =>
        f ← (if (sock : bool) then read_socket fuel sockfd else mret Next);
        match f with
        | Continue => mret (inl tt)
        | Break => mret (inr tt)
        | Next =>
            o ← gets stdin_open;
            f ← (if o && stdin then read_stdin fuel sockfd else mret Next);
            match f with
            | Break => mret (inr tt)
            | _ => mret (inl tt)
            end
        end
    end.

Definition client_init (s : client_t) : client_t :=
  Client [LF; "#"%char; SP] [] true true false (got_int s) (got_stop s) (c_errno s) (c_log s).

Definition client_run (fuel : nat) (sockfd : Z) : M C Z :=
  modify client_init;;
  c_emit (CSigmask true);;
  loop fuel (λ _ : unit, client_step fuel sockfd) tt;;
  c_emit (CSigmask false);;
  c_emit (CClose sockfd);;
  cl_write STDOUT_FILENO [LF];;
  mret 0%Z.

(** [main.c] *)
Definition client_main (fuel : nat) (args : list bytes) : M C Z :=
  match args with
  | [arg0; arg1] =>
      sockfd ← (if streq arg1 (b "-u") then client_connect_unix (b "/tmp/yashd.sock")
                else client_connect_tcp arg1);
      if bool_decide (sockfd < 0)%Z then mret 1%Z else client_run fuel sockfd
  | _ =>
      c_emit (CStderr (b "usage: " ++ cstr (default [] (head args)) ++ b " <server-ip> | -u" ++ [LF]));;
      mret 1%Z
  end.

End client.
