(* ===== verification/ClientProps.v ===== *)
(** * The theorems about the client

    The client copies the server's bytes verbatim to its standard output, knows
    exactly when the server waits at its prompt, never writes outside its buffer,
    and speaks the line protocol that the daemon takes apart. *)

From S2P Require Import Prelude CString YashTypes Parse Posix JobTable Launch Yashd YashdProps YashdMain Client.
From stdpp Require Import base tactics list gmap strings.
From Stdlib Require Import Ascii ZArith Lia.

(** What has been written to and read from a descriptor, oldest byte first. *)
Fixpoint sent_to (fd : Z) (h : chistory) : bytes :=
  match h with
  | [] => []
  | CWrite fd' l (RwOk n) :: h' =>
      sent_to fd h' ++ (if bool_decide (fd' = fd) then take n l else [])
  | _ :: h' => sent_to fd h'
  end.

Fixpoint read_from (fd : Z) (h : chistory) : bytes :=
  match h with
  | [] => []
  | CRead fd' _ (ReadBytes l) :: h' =>
      read_from fd h' ++ (if bool_decide (fd' = fd) then l else [])
  | _ :: h' => read_from fd h'
  end.

(** ** The tail of the stream *)

(** [push_tail] keeps the last three bytes. *)
Lemma push_tail_last t buf :
  length t = 3 → push_tail t buf = drop (length buf) (t ++ buf).
Proof.
  revert t. induction buf as [|c buf IH]; intros t Ht; simpl; [by rewrite app_nil_r|].
  destruct t as [|t0 [|t1 [|t2 [|]]]]; try done. rewrite IH by done. done.
Qed.

Lemma push_tail_length t buf : length t = 3 → length (push_tail t buf) = 3.
Proof. intros Ht. rewrite push_tail_last, length_drop, length_app by done. lia. Qed.

Lemma push_tail_app t l1 l2 : push_tail t (l1 ++ l2) = push_tail (push_tail t l1) l2.
Proof. revert t. induction l1 as [|c l1 IH]; intros t; simpl; [done|]. by rewrite IH. Qed.

Lemma at_prompt_iff t : length t = 3 → at_prompt t = true ↔ t = YASH_PROMPT.
Proof.
  intros Ht. destruct t as [|t0 [|t1 [|t2 [|]]]]; try done. unfold at_prompt.
  rewrite !andb_true_iff, !bool_decide_eq_true. split.
  - by intros [[-> ->] ->].
  - intros Heq. vm_compute in Heq. by injection Heq as -> -> ->.
Qed.

(** The stream from the server [s], taken to begin with a prompt, ends in one. *)
Definition ends_in_prompt (s : bytes) : Prop := YASH_PROMPT `suffix_of` YASH_PROMPT ++ s.

Lemma push_tail_prompt s : push_tail YASH_PROMPT s = YASH_PROMPT ↔ ends_in_prompt s.
Proof.
  unfold ends_in_prompt. rewrite push_tail_last by done. split.
  - intros Heq. exists (take (length s) (YASH_PROMPT ++ s)).
    transitivity (take (length s) (YASH_PROMPT ++ s) ++ drop (length s) (YASH_PROMPT ++ s));
      [by rewrite take_drop|by rewrite Heq].
  - intros [k Hk]. assert (Hl : length k = length s).
    { apply (f_equal length) in Hk. rewrite !length_app in Hk. simpl in Hk. lia. }
    rewrite Hk, <- Hl. apply drop_app_length.
Qed.

(** ** The invariant of the loop *)

Section props.
Context `{CEnv} (sockfd : Z) (Hsock : (2 < sockfd < FD_SETSIZE)%Z) (B : nat).
Implicit Types (s : client_t) (t : mode).

(** The environment is over: the server has closed the connection. *)
Definition over (h : chistory) : Prop :=
  (∀ fd l, c_write h fd l = RwErr EPIPE) ∧ (∀ fd n, c_read h fd n = ReadBytes []) ∧
  (c_pselect h = PsErr EOTHER ∨ ∃ i, c_pselect h = PsReady true i).

Definition cfuel_ok t (fuel : nat) : Prop :=
  t = Full → B < fuel ∧ ∀ h, B ≤ length h → over h.

Abbreviation nev := (λ s, length (c_log s)).

(** What the loop keeps: [h0] is the log at its start. *)
Record cinv (h0 : chistory) s : Prop := {
  ci_tail : ∃ r, read_from sockfd (c_log s) = read_from sockfd h0 ++ r ∧
                 sent_to STDOUT_FILENO (c_log s) = sent_to STDOUT_FILENO h0 ++ r ∧
                 c_tail s = push_tail YASH_PROMPT r;
  ci_prompt : prompt s = true → c_tail s = YASH_PROMPT
}.

(** Nothing but the log and [errno] differs. *)
Definition cframe s s' : Prop :=
  (c_tail s', c_inbuf s', prompt s', stdin_open s', c_done s', got_int s', got_stop s')
  = (c_tail s, c_inbuf s, prompt s, stdin_open s, c_done s, got_int s, got_stop s).

(** Between [h] and [h'] exactly [x] has been written to [fd], nothing to any
    other descriptor, and nothing has been read. *)
Record wrote (fd : Z) (x : bytes) (h h' : chistory) : Prop := {
  wr_to : sent_to fd h' = sent_to fd h ++ x;
  wr_other : ∀ fd', fd' ≠ fd → sent_to fd' h' = sent_to fd' h;
  wr_read : ∀ fd', read_from fd' h' = read_from fd' h;
  wr_len : length h ≤ length h'
}.

Lemma wrote_refl fd h : wrote fd [] h h.
Proof. split; try done. by rewrite app_nil_r. Qed.

Lemma wrote_trans fd x y h1 h2 h3 :
  wrote fd x h1 h2 → wrote fd y h2 h3 → wrote fd (x ++ y) h1 h3.
Proof.
  intros [H1 H2 H3 H4] [H5 H6 H7 H8]. split; [|..|lia].
  - by rewrite H5, H1, (assoc_L (++)).
  - intros fd' Hne. by rewrite H6, H2.
  - intros fd'. by rewrite H7, H3.
Qed.

Lemma wp_cl_write t fd l (Q : rw_result → C → Prop) s :
  (∀ r s', cframe s s' →
     wrote fd (match r with RwOk n => take n l | RwErr _ => [] end) (c_log s) (c_log s') →
     nev s < nev s' → (∀ n, r = RwOk n → n ≤ length l) →
     (over (c_log s) → r = RwErr EPIPE) → Q r s') →
  wp t (cl_write fd l) Q s.
Proof.
  intros HQ. unfold cl_write, c_emit. wp_steps.
  set (r := match c_write _ _ _ with RwOk n => _ | _ => _ end).
  assert (H3 : ∀ n, r = RwOk n → n ≤ length l).
  { subst r. intros n Hn. destruct (c_write _ _ _); simplify_eq. lia. }
  assert (H2 : over (c_log s) → r = RwErr EPIPE) by (subst r; intros [Hw _]; by rewrite Hw).
  assert (Hwr : wrote fd (match r with RwOk n => take n l | RwErr _ => [] end) (c_log s)
                  (CWrite fd l r :: c_log s)).
  { clearbody r. split; cbn; try done; try lia.
    - destruct r; [by rewrite bool_decide_true|by rewrite app_nil_r].
    - intros fd' Hne. destruct r; [|done]. rewrite bool_decide_false by done. by rewrite app_nil_r. }
  clearbody r. destruct r as [n|e]; wp_steps; apply HQ; try done; cbn; lia.
Qed.

Lemma wp_cl_read t fd n (Q : read_result → C → Prop) s :
  (∀ r s', cframe s s' → nev s < nev s' →
     (∀ fd', sent_to fd' (c_log s') = sent_to fd' (c_log s)) →
     (∀ fd', read_from fd' (c_log s') = read_from fd' (c_log s) ++
        match r with ReadBytes l => if bool_decide (fd = fd') then l else [] | ReadFail _ => [] end) →
     (∀ l, r = ReadBytes l → length l ≤ n) →
     (over (c_log s) → r = ReadBytes []) → Q r s') →
  wp t (cl_read fd n) Q s.
Proof.
  intros HQ. unfold cl_read, c_emit. wp_steps.
  set (r := match c_read _ _ _ with ReadBytes l => _ | _ => _ end).
  assert (H3 : ∀ l, r = ReadBytes l → length l ≤ n).
  { subst r. intros l Hn. destruct (c_read _ _ _); simplify_eq. rewrite length_take. lia. }
  assert (H2 : over (c_log s) → r = ReadBytes []).
  { subst r. intros (_ & Hw & _). rewrite Hw. by rewrite take_nil. }
  clearbody r. destruct r as [l|e]; wp_steps; apply HQ; try done; cbn; try lia.
  intros fd'. by rewrite app_nil_r.
Qed.

(** ** Messages *)

Lemma wp_send_all t fuel fd buf s :
  cfuel_ok t fuel →
  wp t (send_all fuel fd buf)
    (λ r s', cframe s s' ∧ ∃ n, n ≤ length buf ∧ wrote fd (take n buf) (c_log s) (c_log s') ∧
       (r = 0%Z ∧ n = length buf ∨ r = (-1)%Z)) s.
Proof.
  intros Hf. unfold send_all.
  apply (wp_loop_events t fuel B nev (λ off s', cframe s s' ∧ off ≤ length buf ∧
    wrote fd (take off buf) (c_log s) (c_log s'))); [intros Ht; apply Hf, Ht| |].
  2:{ split_and!; [done|lia|apply wrote_refl]. }
  intros off s1 (Hfr & Hoff & Hw). case_bool_decide as Hn.
  2:{ apply wp_ret. split; [done|]. exists off. split_and!; [done|done|]. left. split; [done|lia]. }
  apply wp_bind. apply wp_cl_write. intros r s2 Hfr2 Hw2 Hev Hle Hov.
  assert (Hlive : t = Full → r ≠ RwErr EPIPE → nev s1 < B).
  { intros Ht Hr. destruct (Hf Ht) as [_ Hover]. apply Nat.nle_gt. intros Hge.
    by apply Hr, Hov, Hover. }
  unfold cframe in *. destruct r as [n|e].
  - specialize (Hle n eq_refl). rewrite length_drop in Hle. apply wp_ret. split.
    + split_and!; [congruence|lia|]. rewrite <- take_take_drop. by eapply wrote_trans.
    + intros Ht. split; [by apply Hlive|done].
  - pose proof (wrote_trans _ _ _ _ _ _ Hw Hw2) as Hw3. rewrite app_nil_r in Hw3.
    case_bool_decide as He; apply wp_ret.
    + split; [split_and!; [congruence|done|done]|]. intros Ht. split; [|done].
      apply Hlive; [done|by subst e].
    + split; [congruence|]. exists off. split_and!; [done|done|by right].
Qed.

(** The text of a message, which is what [send_msg] sends when it fits. *)
Definition message (prefix body : bytes) : bytes := cstr prefix ++ cstr body ++ [LF].

Lemma wp_send_msg t fuel prefix body (Q : Z → C → Prop) s :
  cfuel_ok t fuel →
  (∀ r s' x, cframe s s' → wrote sockfd x (c_log s) (c_log s') → Q r s') →
  wp t (send_msg fuel sockfd prefix body) Q s.
Proof.
  intros Hf HQ. unfold send_msg. case_bool_decide.
  { apply wp_ret. by apply (HQ _ _ []); [|apply wrote_refl]. }
  eapply wp_mono; [by apply wp_send_all|]. intros r s' (Hfr & n & _ & Hw & _). by eapply HQ.
Qed.

(** ** The steps of the loop *)

(** Writing to the socket keeps the invariant. *)
Lemma cinv_wrote h0 s s' x :
  cinv h0 s → wrote sockfd x (c_log s) (c_log s') → c_tail s' = c_tail s →
  (prompt s' = true → prompt s = true) → cinv h0 s'.
Proof.
  intros [(r & Hr & Hs & Ht) Hp] [_ Hwo Hwr _] Htl Hpr. split.
  - exists r. rewrite Htl, Hwr, Hwo by (unfold STDOUT_FILENO; lia). done.
  - intros Hp'. rewrite Htl. auto.
Qed.

Lemma cframe_inv s s' : cframe s s' →
  c_tail s' = c_tail s ∧ c_inbuf s' = c_inbuf s ∧ prompt s' = prompt s ∧ stdin_open s' = stdin_open s ∧
  c_done s' = c_done s.
Proof. unfold cframe. intros Heq. injection Heq as -> -> -> -> -> _ _. done. Qed.

(** A line is sent as a command only at the prompt, and then the client is not at
    the prompt any more. *)
Lemma wp_send_line t fuel line (Q : bool → C → Prop) h0 s :
  cfuel_ok t fuel → cinv h0 s →
  (∀ d s', cinv h0 s' → c_inbuf s' = c_inbuf s → stdin_open s' = stdin_open s →
     nev s ≤ nev s' → (prompt s = true → d = false → prompt s' = false) →
     (prompt s = false → prompt s' = false) → Q d s') →
  wp t (send_line fuel sockfd line) Q s.
Proof.
  intros Hf Hi HQ. unfold send_line. apply wp_bind, wp_gets. destruct (prompt s) eqn:Hp.
  - destruct (streq _ _); [apply wp_ret; by apply HQ|].
    apply wp_bind. apply wp_send_msg; [done|]. intros r s' x Hfr%cframe_inv Hw.
    destruct Hfr as (Ht & Hb & _ & Ho & _). apply wp_bind, wp_modify, wp_ret.
    apply HQ; cbn; try done; [|apply Hw].
    by eapply (cinv_wrote h0 s); [done|exact Hw|..].
  - apply wp_bind. apply wp_send_msg; [done|]. intros r s' x Hfr%cframe_inv Hw.
    destruct Hfr as (Ht & Hb & Hp' & Ho & _). apply wp_ret.
    apply HQ; try done; [|apply Hw|congruence].
    eapply (cinv_wrote h0 s); [done|exact Hw|done|congruence].
Qed.

(** What is known when the loop is left: the output is a prefix of the input. *)
Definition copied h0 s : Prop :=
  ∃ r x, read_from sockfd (c_log s) = read_from sockfd h0 ++ r ∧
         sent_to STDOUT_FILENO (c_log s) = sent_to STDOUT_FILENO h0 ++ x ∧ x `prefix_of` r.

Lemma cinv_copied h0 s : cinv h0 s → copied h0 s.
Proof. intros [(r & ? & ? & _) _]. by exists r, r. Qed.

Lemma wp_send_flags t fuel (Q : unit → C → Prop) h0 s :
  cfuel_ok t fuel → cinv h0 s →
  (∀ s', cinv h0 s' → c_inbuf s' = c_inbuf s → nev s ≤ nev s' → Q tt s') →
  wp t (send_flags fuel sockfd) Q s.
Proof.
  intros Hf Hi HQ. unfold send_flags. apply wp_bind, wp_gets, wp_bind.
  assert (Hk : ∀ s1, cinv h0 s1 → c_inbuf s1 = c_inbuf s → nev s ≤ nev s1 →
    wp t (z ← gets got_stop;
          when z (modify (λ s, set_flags (got_int s) false s);;
                  send_msg fuel sockfd MSG_CTL (b "z");; mret tt)) Q s1).
  { intros s1 Hi1 Hd1 Hl1. apply wp_bind, wp_gets, wp_when; [|by intros _; apply HQ]. intros _.
    apply wp_bind, wp_modify, wp_bind, wp_send_msg; [done|].
    intros r s2 x Hfr%cframe_inv Hw. destruct Hfr as (Ht & Hb & Hp & _ & Hd). cbn in *.
    pose proof (wr_len _ _ _ _ Hw). apply HQ; [|congruence|cbn in *; lia].
    eapply (cinv_wrote h0 s1); [done|exact Hw|done|congruence]. }
  apply wp_when; [|by intros _; apply Hk]. intros _.
  apply wp_bind, wp_modify, wp_bind, wp_send_msg; [done|].
  intros r s2 x Hfr%cframe_inv Hw. destruct Hfr as (Ht & Hb & Hp & _ & Hd). cbn in *.
  pose proof (wr_len _ _ _ _ Hw). apply Hk; [|congruence|cbn in *; lia].
  eapply (cinv_wrote h0 s); [done|exact Hw|done|congruence].
Qed.

Lemma wp_cl_pselect t (Q : pselect_result → C → Prop) h0 s :
  cinv h0 s →
  (∀ s', cinv h0 s' → c_inbuf s' = c_inbuf s → nev s < nev s' → Q (c_pselect (c_log s)) s') →
  wp t cl_pselect Q s.
Proof.
  intros Hi HQ. unfold cl_pselect, c_emit, on_signal. apply wp_bind, wp_get.
  destruct (c_signals (c_log s)) as [i z]. apply wp_bind, wp_modify.
  assert (Hk : ∀ s1, cinv h0 s1 → c_inbuf s1 = c_inbuf s → nev s < nev s1 →
    wp t (match c_pselect (c_log s) with
          | PsErr e => modify (set_c_errno e)
          | PsReady _ _ => mret tt
          end;; mret (c_pselect (c_log s))) Q s1).
  { intros s1 [] Hd1 Hl1. destruct (c_pselect _); apply wp_bind; [apply wp_ret|apply wp_modify];
      apply wp_ret, HQ; done. }
  assert (Hi1 : cinv h0 (set_c_log (CPselect (c_pselect (c_log s)) i z :: c_log s) s)).
  { by destruct Hi. }
  change (bool_decide (SIGINT = SIGINT)) with true.
  change (bool_decide (SIGTSTP = SIGINT)) with false.
  destruct i, z; cbn [when]; do 2 (apply wp_bind; first [apply wp_modify|apply wp_ret]);
    (apply Hk; [by destruct Hi1|done|cbn; lia]).
Qed.

Lemma wp_read_socket t fuel (Q : flow → C → Prop) h0 s :
  cfuel_ok t fuel → cinv h0 s →
  (∀ f s', copied h0 s' → nev s ≤ nev s' → (f ≠ Break → cinv h0 s') →
     (f ≠ Break → c_inbuf s' = c_inbuf s ∧ ¬ over (c_log s)) → Q f s') →
  wp t (read_socket fuel sockfd) Q s.
Proof.
  intros Hf Hi HQ. unfold read_socket. apply wp_bind, wp_cl_read.
  intros r s1 Hfr%cframe_inv Hev Hsent Hread Hle Hov. destruct Hfr as (Ht & Hb & Hp & Ho & Hd).
  pose proof Hi as [(r0 & Hr0 & Hs0 & Ht0) Hpr].
  assert (Hi1 : ∀ e, r = ReadFail e ∨ r = ReadBytes [] → cinv h0 s1).
  { intros e Hr. split; [|by rewrite Hp, Ht].
    exists r0. rewrite Hread, Hsent, Ht. split_and!; [|done|done].
    destruct Hr as [-> | ->]; [by rewrite app_nil_r|].
    rewrite bool_decide_true by done. by rewrite app_nil_r. }
  destruct r as [[|c l]|e].
  - apply wp_ret, HQ; [by apply cinv_copied, (Hi1 EINTR); right|lia|done|done].
  - assert (Hnov : ¬ over (c_log s)) by (intros Hx; by specialize (Hov Hx)).
    apply wp_bind. eapply wp_mono; [by apply wp_send_all|].
    intros w s2 (Hfr2%cframe_inv & n & Hn & Hw & Hcase). destruct Hfr2 as (Ht2 & Hb2 & Hp2 & _ & Hd2).
    pose proof (wr_len _ _ _ _ Hw). specialize (Hread sockfd). rewrite bool_decide_true in Hread by done.
    assert (Hc : copied h0 s2).
    { exists (r0 ++ c :: l), (r0 ++ take n (c :: l)). rewrite (wr_read _ _ _ _ Hw), Hread, Hr0.
      rewrite (wr_to _ _ _ _ Hw), Hsent, Hs0, !(assoc_L (++)). split_and!; [done|done|].
      apply prefix_app. exists (drop n (c :: l)). by rewrite take_drop. }
    case_bool_decide as Hneg; [apply wp_ret, HQ; [done|lia|done|done]|].
    destruct Hcase as [[-> ->]| ->]; [|lia].
    apply wp_bind, wp_modify, wp_bind, wp_modify, wp_ret. apply HQ; [done|cbn; lia| |].
    + intros _. split; cbn [c_inbuf c_tail prompt c_log set_tail set_prompt].
      * exists (r0 ++ c :: l). rewrite (wr_read _ _ _ _ Hw), Hread, Hr0, (wr_to _ _ _ _ Hw), Hsent, Hs0.
        rewrite firstn_all, !(assoc_L (++)), push_tail_app, Ht2, Ht, Ht0. done.
      * apply at_prompt_iff. rewrite Ht2, Ht, Ht0. apply push_tail_length.
        by apply push_tail_length.
    + intros _. cbn. split; [congruence|done].
  - assert (Hnov : ¬ over (c_log s)) by (intros Hx; by specialize (Hov Hx)).
    apply wp_ret, HQ; [by apply cinv_copied, (Hi1 e); left|lia|by intros _; apply (Hi1 e); left|].
    intros _. split; [congruence|done].
Qed.

(** The lines typed so far are sent; what is left has no newline, unless the
    client is done. *)
Lemma wp_send_lines t fuel (Q : unit → C → Prop) h0 s :
  cfuel_ok t fuel → cinv h0 s →
  (∀ s', cinv h0 s' → length (c_inbuf s') ≤ length (c_inbuf s) → nev s ≤ nev s' → Q tt s') →
  wp t (send_lines fuel sockfd) Q s.
Proof.
  intros Hf Hi HQ. unfold send_lines. apply wp_bind, wp_gets.
  match goal with |- wp _ (loop _ ?body _) _ _ => set (bd := body) end.
  cut (∀ n s1, cinv h0 s1 → length (c_inbuf s1) ≤ length (c_inbuf s) → nev s ≤ nev s1 →
         length (c_inbuf s1) < n → wp t (loop n bd tt) Q s1).
  { intros Hg. apply Hg; [done|done|done|lia]. }
  clear Hi. intros n. induction n as [|n IH]; intros s1 Hi Hb Hl Hn; [lia|].
  rewrite loop_S. apply wp_bind. unfold bd at 1. apply wp_bind, wp_get.
  destruct (if c_done s1 then None else memchr LF (c_inbuf s1)) as [len|] eqn:Hm.
  2:{ apply wp_ret, wp_ret. by apply HQ. }
  assert (Hlt : len < length (c_inbuf s1)).
  { destruct (c_done s1); [done|]. by apply memchr_Some in Hm as (_ & _ & _ & ?). }
  apply wp_bind. eapply wp_send_line; [done|done|]. intros d s2 Hi2 Hb2 _ Hl2 _ _.
  apply wp_bind, wp_modify, wp_bind, wp_modify, wp_ret.
  assert (Hdrop : length (drop (len + 1) (c_inbuf s2)) < length (c_inbuf s1)).
  { rewrite length_drop, Hb2. lia. }
  apply IH; cbn [c_inbuf c_log set_c_inbuf set_done]; [by destruct Hi2|lia..].
Qed.

Lemma wp_read_stdin t fuel (Q : flow → C → Prop) h0 s :
  cfuel_ok t fuel → cinv h0 s → length (c_inbuf s) < YASH_BUF_SIZE →
  (∀ f s', cinv h0 s' → length (c_inbuf s') < YASH_BUF_SIZE → nev s ≤ nev s' → Q f s') →
  wp t (read_stdin fuel sockfd) Q s.
Proof.
  intros Hf Hi Hbuf HQ. unfold read_stdin. apply wp_bind, wp_gets, wp_bind, wp_cl_read.
  intros r s1 Hfr%cframe_inv Hev Hsent Hread Hle _. destruct Hfr as (Ht & Hb & Hp & Ho & Hd).
  assert (Hi1 : cinv h0 s1).
  { destruct Hi as [(r0 & Hr0 & Hs0 & Ht0) Hpr]. split; [|by rewrite Hp, Ht].
    exists r0. rewrite Hread, Hsent, Ht. split_and!; [|done|done].
    destruct r; [|by rewrite app_nil_r]. unfold STDIN_FILENO.
    rewrite bool_decide_false by lia. by rewrite app_nil_r. }
  destruct r as [[|c l]|e].
  - (* end of file *)
    assert (Hk : ∀ s2, cinv h0 s2 → length (c_inbuf s2) < YASH_BUF_SIZE → nev s ≤ nev s2 →
      wp t (send_msg fuel sockfd MSG_CTL (b "d");;
            p ← gets prompt;
            (if (p : bool) then modify (set_done true)
             else
               s ← get;
               when (negb (c_isatty (c_log s))) (modify (set_stdin_open false)));;
            mret Continue) Q s2).
    { intros s2 Hi2 Hb2 Hl2. apply wp_bind, wp_send_msg; [done|].
      intros r s3 x Hfr%cframe_inv Hw. destruct Hfr as (Ht3 & Hb3 & Hp3 & _ & _).
      pose proof (wr_len _ _ _ _ Hw).
      assert (Hi3 : cinv h0 s3) by (eapply (cinv_wrote h0 s2); [done|exact Hw|done|congruence]).
      assert (Hb3' : length (c_inbuf s3) < YASH_BUF_SIZE) by by rewrite Hb3.
      apply wp_bind, wp_gets, wp_bind. destruct (prompt s3).
      - apply wp_modify, wp_ret. apply HQ; [by destruct Hi3|done|cbn; lia].
      - apply wp_bind, wp_get, wp_when; intros _; apply wp_ret; apply HQ;
          solve [by destruct Hi3|done|cbn; lia]. }
    apply wp_bind. case_bool_decide; [|apply wp_ret, Hk; [done|by rewrite Hb|lia]].
    rewrite bool_decide_true by done. apply wp_bind. eapply wp_send_line; [done|done|].
    intros d s2 Hi2 Hb2 _ Hl2 _ _. apply wp_bind, wp_modify, wp_modify.
    apply Hk; [by destruct Hi2|cbn; unfold YASH_BUF_SIZE; lia|cbn; lia].
  - specialize (Hle _ eq_refl). apply wp_bind, wp_modify, wp_bind.
    eapply wp_send_lines; [done|by destruct Hi1|]. intros s2 Hi2 Hb2 Hl2. cbn in Hb2, Hl2.
    apply wp_bind, wp_gets, wp_bind. rewrite length_app, Hb in Hb2. simpl in Hle, Hb2.
    apply wp_when; intros Hfull; apply wp_ret.
    + apply HQ; [by destruct Hi2|cbn; unfold YASH_BUF_SIZE; lia|cbn; lia].
    + apply bool_decide_eq_false in Hfull. apply HQ; [done|lia|lia].
  - apply wp_ret, HQ; [done|by rewrite Hb|lia].
Qed.

(** ** The loop *)

Lemma wp_client_step t fuel h0 s :
  cfuel_ok t fuel → cinv h0 s → length (c_inbuf s) < YASH_BUF_SIZE →
  wp t (client_step fuel sockfd)
    (λ r s', match r with
             | inl _ => (cinv h0 s' ∧ length (c_inbuf s') < YASH_BUF_SIZE) ∧
                        (t = Full → nev s < B ∧ nev s < nev s')
             | inr _ => copied h0 s'
             end) s.
Proof.
  intros Hf Hi Hb. unfold client_step. apply wp_bind, wp_gets.
  destruct (c_done s); [apply wp_ret; by apply cinv_copied|].
  apply wp_bind. eapply wp_send_flags; [done|done|]. intros s1 Hi1 Hb1 Hl1.
  apply wp_bind, wp_check; [apply bool_decide_true; lia|].
  apply wp_bind. eapply wp_cl_pselect; [done|]. intros s2 Hi2 Hb2 Hl2.
  assert (Hlive : t = Full → ¬ over (c_log s1) → nev s < B).
  { intros Ht Hno. destruct (Hf Ht) as [_ Hov]. apply Nat.nle_gt. intros Hge.
    apply Hno, Hov. lia. }
  destruct (c_pselect (c_log s1)) as [sock stdin|e] eqn:Hps.
  2:{ case_bool_decide as He; apply wp_ret; [|by apply cinv_copied].
      split; [split; [done|by rewrite Hb2, Hb1]|]. intros Ht. split; [|lia].
      apply Hlive; [done|]. intros (_ & _ & [?|[? ?]]); congruence. }
  assert (Hrest : ∀ s3, cinv h0 s3 → c_inbuf s3 = c_inbuf s2 → nev s2 ≤ nev s3 →
    (t = Full → nev s < B) →
    wp t (o ← gets stdin_open;
          f ← (if o && stdin then read_stdin fuel sockfd else mret Next);
          match f with Break => mret (inr tt) | _ => mret (inl tt) end)
      (λ r s', match r with
               | inl _ => (cinv h0 s' ∧ length (c_inbuf s') < YASH_BUF_SIZE) ∧
                          (t = Full → nev s < B ∧ nev s < nev s')
               | inr _ => copied h0 s'
               end) s3).
  { intros s3 Hi3 Hb3 Hl3 HB. apply wp_bind, wp_gets, wp_bind.
    assert (Hb3' : length (c_inbuf s3) < YASH_BUF_SIZE) by by rewrite Hb3, Hb2, Hb1.
    destruct (stdin_open s3 && stdin).
    - eapply wp_read_stdin; [done|done|done|]. intros f s4 Hi4 Hb4 Hl4.
      destruct f; apply wp_ret; try (by apply cinv_copied);
        (split; [done|]; intros Ht; split; [by apply HB|lia]).
    - apply wp_ret, wp_ret. split; [done|]. intros Ht. split; [by apply HB|lia]. }
  apply wp_bind. destruct sock.
  - eapply wp_read_socket; [done|done|]. intros f s3 Hc3 Hl3 Hi3 Hx3.
    destruct f; [|apply wp_ret|by apply wp_ret].
    + destruct (Hx3 ltac:(done)) as [Hb3 Hno]. apply Hrest; [by apply Hi3|done|done|].
      intros Ht. destruct (Hf Ht) as [_ Hov]. apply Nat.nle_gt. intros Hge. apply Hno, Hov. lia.
    + destruct (Hx3 ltac:(done)) as [Hb3 Hno].
      split; [split; [by apply Hi3|by rewrite Hb3, Hb2, Hb1]|]. intros Ht. split; [|lia].
      destruct (Hf Ht) as [_ Hov]. apply Nat.nle_gt. intros Hge. apply Hno, Hov. lia.
  - apply wp_ret. apply Hrest; [done|done|lia|]. intros Ht. apply Hlive; [done|].
    intros (_ & _ & [?|[? ?]]); congruence.
Qed.

Lemma wp_client_run t fuel s :
  cfuel_ok t fuel →
  wp t (client_run fuel sockfd)
    (λ r s', r = 0%Z ∧
       ∃ i x y, read_from sockfd (c_log s') = read_from sockfd (c_log s) ++ i ∧
         sent_to STDOUT_FILENO (c_log s') = sent_to STDOUT_FILENO (c_log s) ++ x ++ y ∧
         x `prefix_of` i ∧ y `prefix_of` [LF]) s.
Proof.
  intros Hf. unfold client_run, c_emit. apply wp_bind, wp_modify, wp_bind, wp_modify, wp_bind.
  set (s0 := set_c_log _ _). set (h0 := c_log s0).
  apply (wp_loop_events t fuel B nev (λ _ s', cinv h0 s' ∧ length (c_inbuf s') < YASH_BUF_SIZE));
    [intros Ht; apply Hf, Ht| |].
  2:{ split; [|cbn; unfold YASH_BUF_SIZE; lia]. split; [|done]. exists []. rewrite !app_nil_r. done. }
  intros _ s1 [Hi Hb]. eapply wp_mono; [by apply wp_client_step|].
  intros [[]|[]] s2; [done|]. intros (i & x & Hr & Hs & Hpre).
  apply wp_bind, wp_modify, wp_bind, wp_modify, wp_bind, wp_cl_write.
  intros r s3 _ Hw _ _ _. apply wp_ret. split; [done|].
  exists i, x, (match r with RwOk n => take n [LF] | RwErr _ => [] end).
  rewrite (wr_read _ _ _ _ Hw), (wr_to _ _ _ _ Hw). cbn.
  split_and!; [exact Hr|by rewrite Hs, <- (assoc_L (++))|done|].
  destruct r; [apply prefix_take|apply prefix_nil].
Qed.

End props.

(** ** The properties of the client *)

(** C31 (safety): whatever the server, the user and the kernel do, the event loop
    of the client, started on a socket above the standard descriptors that fits an
    [fd_set], has no undefined behaviour (in particular it never stores outside its
    input buffer), it returns 0, and what it has printed is a prefix
    of the bytes the server has sent, in order and unchanged, followed by at most
    one newline. *)
Theorem client_copies `{CEnv} sockfd fuel s :
  (2 < sockfd < FD_SETSIZE)%Z →
  client_run fuel sockfd s ≠ Undef ∧
  ∀ r s', client_run fuel sockfd s = Done (r, s') →
    r = 0%Z ∧ ∃ i x y, read_from sockfd (c_log s') = read_from sockfd (c_log s) ++ i ∧
      sent_to STDOUT_FILENO (c_log s') = sent_to STDOUT_FILENO (c_log s) ++ x ++ y ∧
      x `prefix_of` i ∧ y `prefix_of` [LF].
Proof.
  intros Hs. pose proof (wp_client_run sockfd Hs 0 Partial fuel s ltac:(done)) as Hwp.
  split; [by eapply wp_no_undef|]. intros r s' Hr. exact (wp_run _ _ _ _ _ _ Hwp Hr).
Qed.

(** A server that prints one prompt and closes the connection; the user types
    nothing. *)
Definition brief_cenv : CEnv := {|
  c_write h _ l := if bool_decide (length h < 4) then RwOk (length l) else RwErr EPIPE;
  c_read h fd _ := if bool_decide (length h < 4) && bool_decide (fd = 3%Z)
                   then ReadBytes YASH_PROMPT else ReadBytes [];
  c_pselect _ := PsReady true false;
  c_signals _ := (false, false);
  c_isatty _ := true;
  c_socket _ := 3%Z;
  c_connect _ := true;
  c_inet_pton _ := true
|}.

Definition client_start : client_t := Client [] [] false false false false false EOTHER [].

Lemma client_copies_witness :
  ∃ s', client_run (H := brief_cenv) 6 3 client_start = Done (0%Z, s') ∧
    read_from 3 (c_log s') = YASH_PROMPT.
Proof.
  destruct (client_copies (H := brief_cenv) 3 6 client_start ltac:(unfold FD_SETSIZE; lia)) as [_ Hp].
  destruct (client_run (H := brief_cenv) 6 3 client_start) as [[r s']| |] eqn:Hr;
    [|vm_compute in Hr; discriminate..].
  destruct (Hp r s' eq_refl) as (-> & _). exists s'. split; [done|].
  vm_compute in Hr. injection Hr as <-. reflexivity.
Defined.

(** If from some point of the history on the server has closed the
    connection, the client returns: that point bounds every loop. *)
Theorem client_terminates `{CEnv} sockfd fuel B s :
  (2 < sockfd < FD_SETSIZE)%Z → (∀ h, B ≤ length h → over h) → B < fuel →
  ∃ s', client_run fuel sockfd s = Done (0%Z, s').
Proof.
  intros Hs Hov HB.
  destruct (wp_total_run _ _ _ (wp_client_run sockfd Hs B Full fuel s ltac:(done)))
    as (r & s' & Hr & -> & _). by exists s'.
Qed.

Lemma client_terminates_witness :
  ∃ s', client_run (H := brief_cenv) 5 3 client_start = Done (0%Z, s').
Proof.
  apply (client_terminates (H := brief_cenv) 3 5 4 client_start); [unfold FD_SETSIZE; lia| |lia].
  intros h Hh. split_and!; intros; cbn; try (by rewrite bool_decide_false by lia).
  right. by eexists.
Defined.

(** However the stream of the server is cut into reads, the
    client takes itself to be at the prompt exactly when the stream so far (the
    assumed first prompt included) ends in the prompt. *)
Theorem prompt_tracks chunks :
  at_prompt (foldl push_tail YASH_PROMPT chunks) = true ↔ ends_in_prompt (mjoin chunks).
Proof.
  assert (Hj : ∀ t, foldl push_tail t chunks = push_tail t (mjoin chunks)).
  { induction chunks as [|c chunks IH]; intros t; simpl; [done|]. by rewrite IH, push_tail_app. }
  rewrite Hj, at_prompt_iff by by apply push_tail_length. apply push_tail_prompt.
Qed.

(** *** From the client to the daemon *)

(** The text of a line without a final carriage return. *)
Definition without_cr (l : bytes) : bytes :=
  if bool_decide (last l = Some CR) then take (length l - 1) l else l.

Lemma message_cmd line : message MSG_CMD line = (MSG_CMD ++ cstr line) ++ [LF].
Proof. unfold message. rewrite (cstr_id MSG_CMD) by (vm_compute; set_solver). by rewrite (assoc_L (++)). Qed.

Lemma cmd_no_newline line : LF ∉ cstr line → LF ∉ MSG_CMD ++ cstr line.
Proof.
  intros Hlf. rewrite elem_of_app. intros [Hin|?]; [|done]. vm_compute in Hin.
  repeat (apply elem_of_cons in Hin as [Hin|Hin]; [done|]). by apply elem_of_nil in Hin.
Qed.

(** The C string of the line that the daemon makes of it. *)
Lemma strip_cr_cmd line : cstr (strip_cr (MSG_CMD ++ cstr line)) = MSG_CMD ++ without_cr (cstr line).
Proof.
  assert (Hnf : nul_free (MSG_CMD ++ cstr line)).
  { apply nul_free_app. split; [unfold nul_free; vm_compute; set_solver|apply cstr_nul_free]. }
  unfold strip_cr, without_cr. rewrite last_app.
  destruct (last (cstr line)) as [c|] eqn:Hlast.
  - rewrite !bool_decide_decide. destruct (decide _) as [Hc|Hc]; [|by rewrite cstr_id].
    assert (0 < length (cstr line)) by (destruct (cstr line); [done|simpl; lia]).
    rewrite length_app, take_app. change (length MSG_CMD) with 4.
    rewrite take_ge by (change (length MSG_CMD) with 4; lia).
    replace (4 + length (cstr line) - 1 - 4) with (length (cstr line) - 1) by lia.
    rewrite cstr_app_nul; [done|]. intros Hin. apply Hnf. apply elem_of_app in Hin as [?|Hin];
      apply elem_of_app; [by left|right].
    apply elem_of_take in Hin as (i & Hin & _). by eapply list_elem_of_lookup_2.
  - apply last_None in Hlast. rewrite Hlast. by vm_compute.
Qed.

(** The first newline of a stream that begins with [raw ++ [LF]]. *)
Lemma first_line (raw x y later : bytes) :
  LF ∉ raw → LF ∉ x → x ++ LF :: y `prefix_of` (raw ++ [LF]) ++ later → x = raw.
Proof.
  intros Hraw Hx [z Hz]. rewrite <- !(assoc_L (++)) in Hz. cbn in Hz.
  revert x Hx Hz. induction raw as [|c raw IH]; intros [|d x] Hx Hz; cbn in Hz; simplify_eq; try done.
  - by destruct Hx; left.
  - by destruct Hraw; left.
  - f_equal. apply IH; [set_solver|set_solver|done].
Qed.

(** C32 (roundtrip): a command line typed at the client reaches [handle_cmd] of the
    daemon: when [send_msg] reports success for a line that fits into the buffer,
    it has handed the socket exactly the message of that line; and when the daemon's
    stream (what it has buffered and what it reads) continues with those bytes, in
    order, followed by anything, however they are cut into reads, then the next
    line [session_readsocket] returns is that message, the rest stays buffered,
    and [dispatch] passes the typed text to [handle_cmd], all of it but a final
    carriage return. *)
Theorem command_roundtrip `{CEnv, Env} t0 c0 fg fd line later fuel s s' fuel' w T w' l sent new :
  LF ∉ cstr line → 5 + strlen line < YASH_BUF_SIZE →
  send_msg fuel fd MSG_CMD line s = Done (0%Z, s') →
  sent_to fd (c_log s') = sent_to fd (c_log s) ++ sent →
  inv t0 c0 fg w T →
  session_readsocket fuel' YASH_BUF_SIZE w = Done (inl l, w') →
  received c0 (w_log w') = received c0 (w_log w) ++ new →
  inbuf (w_x w) ++ new `prefix_of` sent ++ later →
  sent = message MSG_CMD line ∧ inbuf (w_x w) ++ new = sent ++ inbuf (w_x w') ∧
  cstr l = MSG_CMD ++ without_cr (cstr line) ∧
  ∀ fuel w, dispatch fuel l w = handle_cmd fuel (drop MSG_PREFIX_LEN l) w.
Proof.
  intros Hlf Hlen Hsend Hsent Hi Hread Hrec Hpre.
  set (raw := MSG_CMD ++ cstr line).
  assert (Hraw : length raw = 4 + strlen line) by (unfold raw; by rewrite length_app).
  assert (Hnot : LF ∉ raw) by by apply cmd_no_newline.
  assert (sent = raw ++ [LF]) as ->.
  { unfold send_msg in Hsend. fold (message MSG_CMD line) in Hsend.
    rewrite message_cmd in Hsend. fold raw in Hsend. rewrite length_app, Hraw in Hsend.
    change (length [LF]) with 1 in Hsend.
    rewrite !bool_decide_false, firstn_all2 in Hsend by (rewrite ?length_app, ?Hraw; simpl; lia).
    pose proof (wp_send_all 0 Partial fuel fd (raw ++ [LF]) s ltac:(done)) as Hwp.
    apply (wp_run _ _ _ _ _ _ Hwp) in Hsend as (_ & n & _ & Hw & [[_ ->]|?]); [|done].
    rewrite (wr_to _ _ _ _ Hw), firstn_all in Hsent. by apply app_inv_head in Hsent. }
  pose proof (wp_readsocket t0 c0 Partial fuel' fg w T ltac:(done) Hi) as Hwp.
  apply (wp_run _ _ _ _ _ _ Hwp) in Hread as (_ & _ & new' & dr & rw & Hrec' & Hst & Hdr & Hmod & Hrw & ->).
  rewrite Hrec in Hrec'. apply app_inv_head in Hrec' as <-.
  assert (Hx : dr ++ rw = raw).
  { apply (first_line raw (dr ++ rw) (inbuf (w_x w')) later Hnot); [set_solver|].
    by rewrite <- (assoc_L (++)), <- Hst. }
  assert (dr = []) as ->.
  { apply (f_equal length) in Hx. rewrite length_app, Hraw in Hx. apply length_zero_iff_nil.
    rewrite Nat.mod_small in Hmod by lia. done. }
  cbn in Hx, Hst. subst rw. split_and!; [by rewrite message_cmd|by rewrite Hst, <- (assoc_L (++))| |].
  - apply strip_cr_cmd.
  - intros fuel0 w0. unfold dispatch. replace (strneq _ _ _) with true; [done|].
    symmetry. unfold strneq. apply bool_decide_eq_true. unfold raw. by rewrite strip_cr_cmd.
Qed.

(** A kernel that hands the daemon the message in two pieces, and what follows. *)
Definition chunks_env : Env := {|
  e_waitpid _ _ _ := WaitErr ECHILD;
  e_getpid := 7;
  e_fork _ := None;
  e_pipe _ := true;
  e_malloc _ := false;
  e_fgets _ _ := Eof;
  e_write _ _ l := RwOk (length l);
  e_read h _ _ := ReadBytes (if bool_decide (length h = 0) then b "CMD l" else b "s -l" ++ LF :: b "CTL d");
  e_select _ _ := true;
  e_now _ := None;
  e_open _ _ _ := true;
  e_exec _ := true
|}.

Lemma command_roundtrip_witness :
  ∃ s' w' l, send_msg (H := brief_cenv) 2 3 MSG_CMD (b "ls -l") client_start = Done (0%Z, s') ∧
    session_readsocket (H := chunks_env) 4 YASH_BUF_SIZE start_d = Done (inl l, w') ∧
    cstr l = b "CMD ls -l" ∧ inbuf (w_x w') = b "CTL d".
Proof.
  assert (Hs : ∃ s', send_msg (H := brief_cenv) 2 3 MSG_CMD (b "ls -l") client_start = Done (0%Z, s') ∧
    sent_to 3 (c_log s') = sent_to 3 (c_log client_start) ++ message MSG_CMD (b "ls -l")).
  { vm_compute. by eexists. }
  assert (Hd : ∃ l w', session_readsocket (H := chunks_env) 4 YASH_BUF_SIZE start_d = Done (inl l, w') ∧
    received 5 (w_log w') = received 5 (w_log start_d) ++ (message MSG_CMD (b "ls -l") ++ b "CTL d")).
  { vm_compute. by do 2 eexists. }
  destruct Hs as (s' & Hs & Hsent). destruct Hd as (l & w' & Hd & Hrec).
  destruct (command_roundtrip (H := brief_cenv) (H0 := chunks_env) daemon_fds 5 None 3 (b "ls -l")
    (b "CTL d") 2 client_start s' 4 start_d [] w' l _ _ ltac:(vm_compute; set_solver)
    ltac:(vm_compute; lia) Hs Hsent start_d_inv Hd Hrec) as (_ & Hin & Hl & _).
  { by exists []; rewrite app_nil_r. }
  exists s', w', l. split; [exact Hs|]. split; [exact Hd|]. split; [exact Hl|].
  cbn [start_d w_x inbuf app] in Hin. by apply app_inv_head in Hin.
Defined.

(** A typed line that makes the message longer than the buffer is cut
    without its newline: what [send_msg] sends holds no newline at all, so the
    daemon takes it together with whatever the client sends next. *)
Theorem long_line_unframed `{CEnv} fd line fuel s :
  LF ∉ cstr line → YASH_BUF_SIZE ≤ 5 + strlen line →
  ∃ text, send_msg fuel fd MSG_CMD line s = send_all fuel fd text s ∧
    length text = YASH_BUF_SIZE - 1 ∧ LF ∉ text.
Proof.
  intros Hlf Hlen. exists (take (YASH_BUF_SIZE - 1) (message MSG_CMD line)).
  assert (Hl : length (message MSG_CMD line) = 5 + strlen line).
  { unfold message. rewrite !length_app. change (length (cstr MSG_CMD)) with 4.
    change (length [LF]) with 1. unfold strlen. lia. }
  split_and!.
  - unfold send_msg. fold (message MSG_CMD line). rewrite Hl.
    rewrite bool_decide_false by lia. by rewrite bool_decide_true by lia.
  - rewrite length_take. lia.
  - unfold message. rewrite (assoc_L (++)), take_app_le.
    2:{ rewrite length_app. change (length (cstr MSG_CMD)) with 4. unfold strlen in Hlen. lia. }
    intros Hin. apply elem_of_take in Hin as (i & Hin & _). apply list_elem_of_lookup_2 in Hin.
    apply elem_of_app in Hin as [Hin|Hin]; [|done]. vm_compute in Hin.
    repeat (apply elem_of_cons in Hin as [Hin|Hin]; [done|]). by apply elem_of_nil in Hin.
Qed.

Lemma long_line_unframed_witness :
  ∃ text, send_msg (H := brief_cenv) 1 3 MSG_CMD (replicate 4095 "a"%char) client_start
          = send_all (H := brief_cenv) 1 3 text client_start ∧ LF ∉ text.
Proof.
  assert (Hc : cstr (replicate 4095 "a"%char) = replicate 4095 "a"%char).
  { apply cstr_id. unfold nul_free. rewrite elem_of_replicate. by intros [? _]. }
  destruct (long_line_unframed (H := brief_cenv) 3 (replicate 4095 "a"%char) 1 client_start)
    as (text & Ht & _ & Hl).
  - rewrite Hc, elem_of_replicate. by intros [? _].
  - unfold strlen. rewrite Hc, length_replicate. unfold YASH_BUF_SIZE. lia.
  - exists text. exact (conj Ht Hl).
Defined.
