(* ===== verification/Daemon.v ===== *)
(** * yashd: becoming a daemon, listening, accepting

    [daemon.c], [transport.c], [server.c], [main.c] and the opening and closing of
    the log ([log.c]) of [Project 2/yashd/server/src], for the main thread.  A
    session it starts is the subject of [Yashd]; here it is an event that takes
    the socket over.

    The environment answers the system calls as functions of the log of events;
    the descriptor table, the dispositions, the session and its leader, the
    working directory and the lock are computed.  [dfuel] bounds the accept
    loop. *)

From S2P Require Import Prelude CString YashTypes Parse Posix Launch.
From stdpp Require Import base tactics list gmap strings.
From Stdlib Require Import Ascii ZArith Lia.

(** ** transport.h *)

Inductive transport_kind_t := TRANSPORT_UNIX | TRANSPORT_TCP.

#[global] Instance transport_kind_eq_dec : EqDecision transport_kind_t.
Proof. solve_decision. Defined.

Definition YASHD_LOG_PATH : bytes := b "/tmp/yashd.log".
Definition YASHD_PID_PATH : bytes := b "/tmp/yashd.pid".
Definition YASHD_SOCK_PATH : bytes := b "/tmp/yashd.sock".
Definition YASH_PORT : Z := 3820.
Definition YASHD_BACKLOG : Z := 16.
Definition MAX_FD_SCAN : Z := 4096.

(** ** State and environment *)

(** Who is left after [fork]: nobody new, the child or the parent. *)
Inductive fork_result := ForkFailed | ForkChild | ForkParent.

(** What [accept] answers: a new descriptor with the address of the peer (the
    text of its IP number, if it can be written, and its port), or an error. *)
Inductive accept_result :=
  | AcOk (fd : Z) (ip : option bytes) (port : Z)
  | AcErr (e : errno).

Inductive devent :=
  | DFork (r : fork_result)
  | DUnlink (path : bytes)
  | DBind (kind : transport_kind_t) (ok : bool)
  | DListen (ok : bool)
  | DAccept (r : accept_result)
  | DThread (cfd : Z) (ip : bytes) (port : Z)
  | DStderr (l : bytes).

Abbreviation dhistory := (list devent).

Class DEnv := {
  d_fork : dhistory → fork_result;
  d_setsid : bool;
  d_chdir : bool;
  d_open_max : Z;
  d_open : bytes → bool;
  d_lockf : bool;
  d_ftruncate : bool;
  d_write_pid : bool;
  d_getpid : positive;
  d_socket : dhistory → bool;
  d_reuse : bool;
  d_bind : dhistory → bool;
  d_listen : dhistory → bool;
  d_accept : dhistory → accept_result;
  d_peercred : dhistory → option Z;
  d_calloc : dhistory → bool;
  d_pthread : dhistory → bool;
  d_finished : dhistory → list Z
}.

Record dstate := DState {
  d_fds : fdtab;
  d_sigs : sigtab;
  d_leader : bool;
  d_ctty : bool;
  d_cwd : bytes;
  d_umask : Z;
  d_locked : bool;
  pid_fd : Z;
  log_fd : Z;
  d_errno : errno;
  d_ev : dhistory
}.

Definition upd_fds (f : fdtab → fdtab) (s : dstate) : dstate :=
  DState (f (d_fds s)) (d_sigs s) (d_leader s) (d_ctty s) (d_cwd s) (d_umask s) (d_locked s)
    (pid_fd s) (log_fd s) (d_errno s) (d_ev s).
Definition set_sig (x : signal) (d : disp) (s : dstate) : dstate :=
  DState (d_fds s) (<[x := d]> (d_sigs s)) (d_leader s) (d_ctty s) (d_cwd s) (d_umask s)
    (d_locked s) (pid_fd s) (log_fd s) (d_errno s) (d_ev s).
Definition set_session (leader ctty : bool) (s : dstate) : dstate :=
  DState (d_fds s) (d_sigs s) leader ctty (d_cwd s) (d_umask s) (d_locked s) (pid_fd s)
    (log_fd s) (d_errno s) (d_ev s).
Definition set_cwd (x : bytes) (s : dstate) : dstate :=
  DState (d_fds s) (d_sigs s) (d_leader s) (d_ctty s) x (d_umask s) (d_locked s) (pid_fd s)
    (log_fd s) (d_errno s) (d_ev s).
Definition set_umask (x : Z) (s : dstate) : dstate :=
  DState (d_fds s) (d_sigs s) (d_leader s) (d_ctty s) (d_cwd s) x (d_locked s) (pid_fd s)
    (log_fd s) (d_errno s) (d_ev s).
Definition set_pid_fd (locked : bool) (x : Z) (s : dstate) : dstate :=
  DState (d_fds s) (d_sigs s) (d_leader s) (d_ctty s) (d_cwd s) (d_umask s) locked x
    (log_fd s) (d_errno s) (d_ev s).
Definition set_log_fd (x : Z) (s : dstate) : dstate :=
  DState (d_fds s) (d_sigs s) (d_leader s) (d_ctty s) (d_cwd s) (d_umask s) (d_locked s)
    (pid_fd s) x (d_errno s) (d_ev s).
Definition set_d_errno (x : errno) (s : dstate) : dstate :=
  DState (d_fds s) (d_sigs s) (d_leader s) (d_ctty s) (d_cwd s) (d_umask s) (d_locked s)
    (pid_fd s) (log_fd s) x (d_ev s).
Definition d_emit_to (e : devent) (s : dstate) : dstate :=
  DState (d_fds s) (d_sigs s) (d_leader s) (d_ctty s) (d_cwd s) (d_umask s) (d_locked s)
    (pid_fd s) (log_fd s) (d_errno s) (e :: d_ev s).

Abbreviation D := dstate.

Section daemon.
Context `{DEnv}.

Definition d_emit (e : devent) : M D unit := modify (d_emit_to e).

Definition d_close (fd : Z) : M D unit := modify (upd_fds (fd_close fd)).

(** A new descriptor for [f], the lowest one, when the kernel grants it. *)
Definition d_new (ok : bool) (f : ofile) : M D Z :=
  if ok then
    s ← get;
    modify (upd_fds (λ t, snd (fd_alloc f t)));; mret (lowest_fd (d_fds s))
  else mret (-1)%Z.

(** [dup(fd)]: the lowest descriptor, or -1 when [fd] is not open. *)
Definition d_dup (fd : Z) : M D Z :=
  s ← get;
  match d_fds s !! fd with
  | Some f => d_new true f
  | None => mret (-1)%Z
  end.

(** [fork], as the process that goes on in this model: [true] in the child;
    [ForkParent] is the process that is to leave. *)
Definition do_fork : M D fork_result :=
  s ← get;
  let r := d_fork (d_ev s) in
  d_emit (DFork r);; mret r.

(** ** daemon.c *)

Definition pidfile_lock : M D Z :=
  fd ← d_new (d_open YASHD_PID_PATH) (OFile YASHD_PID_PATH (O_RDWR_CREATE 384));
  modify (set_pid_fd false fd);;
  if bool_decide (fd < 0)%Z then mret (-1)%Z
  else if negb d_lockf then
    d_close fd;; modify (set_pid_fd false (-1)%Z);; mret (-1)%Z
  else
    modify (set_pid_fd true fd);;
    if negb d_ftruncate then mret (-1)%Z
    else if negb d_write_pid then mret (-1)%Z
    else mret 0%Z.

(** [for (fd = 0; fd < maxfd; fd++) close((int)fd);] *)
Fixpoint close_upto (n : nat) (fd : Z) : M D unit :=
  match n with
  | O => mret tt
  | S n' => d_close fd;; close_upto n' (fd + 1)%Z
  end.

Definition max_fd : Z :=
  if bool_decide (d_open_max < 0 ∨ MAX_FD_SCAN < d_open_max)%Z then MAX_FD_SCAN else d_open_max.

(** [inr r] is [return r]; [inl c] is [_exit(c)]. *)
Definition daemon_init : M D (Z + Z) :=
  r ← do_fork;
  match r with
  | ForkFailed => mret (inr (-1)%Z)
  | ForkParent => mret (inl 0%Z)
  | ForkChild =>
      if negb d_setsid then mret (inr (-1)%Z)
      else
        modify (set_session true false);;
        modify (set_sig SIGHUP SIG_IGN);;
        r ← do_fork;
        match r with
        | ForkFailed => mret (inr (-1)%Z)
        | ForkParent => mret (inl 0%Z)
        | ForkChild =>
            modify (set_session false false);;
            if negb d_chdir then mret (inr (-1)%Z)
            else
              modify (set_cwd (b "/tmp"));;
              modify (set_umask 0);;
              close_upto (Z.to_nat max_fd) 0;;
              fd ← d_new (d_open (b "/dev/null")) ONull;
              if bool_decide (fd ≠ STDIN_FILENO) then mret (inr (-1)%Z)
              else
                fd ← d_dup STDIN_FILENO;
                if bool_decide (fd ≠ STDOUT_FILENO) then mret (inr (-1)%Z)
                else
                  fd ← d_dup STDIN_FILENO;
                  if bool_decide (fd ≠ STDERR_FILENO) then mret (inr (-1)%Z)
                  else r ← pidfile_lock; mret (inr r)
        end
  end.

(** ** transport.c *)

Definition reusePort : M D Z := mret (if d_reuse then 0%Z else (-1)%Z).

(** [bind(...) < 0 || listen(...) < 0], then [close] on failure. *)
Definition bind_listen (kind : transport_kind_t) (fd : Z) : M D Z :=
  s ← get;
  let okb := d_bind (d_ev s) in
  d_emit (DBind kind okb);;
  s ← get;
  let okl := d_listen (d_ev s) in
  (if okb then d_emit (DListen okl) else mret tt);;
  if okb && okl then mret fd else d_close fd;; mret (-1)%Z.

Definition listen_unix : M D Z :=
  s ← get;
  fd ← d_new (d_socket (d_ev s)) OSock;
  if bool_decide (fd < 0)%Z then mret (-1)%Z
  else d_emit (DUnlink YASHD_SOCK_PATH);; bind_listen TRANSPORT_UNIX fd.

Definition listen_tcp : M D Z :=
  s ← get;
  fd ← d_new (d_socket (d_ev s)) OSock;
  if bool_decide (fd < 0)%Z then mret (-1)%Z
  else
    r ← reusePort;
    if bool_decide (r < 0)%Z then d_close fd;; mret (-1)%Z
    else bind_listen TRANSPORT_TCP fd.

Definition transport_listen (kind : transport_kind_t) : M D Z :=
  if bool_decide (kind = TRANSPORT_UNIX) then listen_unix else listen_tcp.

Definition peer_from_unix : M D (bytes * Z) :=
  s ← get; mret (b "local", default 0%Z (d_peercred (d_ev s))).

(** [sizeof peer->ip] is 16. *)
Definition peer_from_tcp (ip : option bytes) (port : Z) : bytes * Z :=
  (match ip with Some a => take 15 a | None => b "?" end, port).

(** The kernel returns a descriptor that is not in use; another answer is read as
    an error. *)
Definition transport_accept (kind : transport_kind_t) : M D (option (Z * (bytes * Z))) :=
  s ← get;
  let r := match d_accept (d_ev s) with
           | AcOk fd ip port =>
               if bool_decide (d_fds s !! fd = None ∧ 0 ≤ fd)%Z then AcOk fd ip port
               else AcErr EOTHER
           | r => r
           end in
  d_emit (DAccept r);;
  match r with
  | AcErr e => modify (set_d_errno e);; mret None
  | AcOk fd ip port =>
      modify (upd_fds (<[fd := OSock]>));;
      p ← (if bool_decide (kind = TRANSPORT_UNIX) then peer_from_unix
           else mret (peer_from_tcp ip port));
      mret (Some (fd, p))
  end.

Definition transport_close (lfd : Z) (kind : transport_kind_t) : M D unit :=
  when (bool_decide (0 ≤ lfd)%Z) (d_close lfd);;
  when (bool_decide (kind = TRANSPORT_UNIX)) (d_emit (DUnlink YASHD_SOCK_PATH)).

(** ** server.c *)

(** The sockets that session threads have been given so far. *)
Fixpoint handed (h : dhistory) : list Z :=
  match h with
  | [] => []
  | DThread fd _ _ :: h' => fd :: handed h'
  | _ :: h' => handed h'
  end.

(** Sessions that end meanwhile close their sockets. *)
Definition sessions_end : M D unit :=
  s ← get;
  foldr (λ fd m, (if bool_decide (fd ∈ handed (d_ev s)) then d_close fd else mret tt);; m)
    (mret tt) (d_finished (d_ev s)).

Definition server_step (kind : transport_kind_t) : M D (unit + unit) :=
  sessions_end;;
  a ← transport_accept kind;
  match a with
  | None =>
      s ← get;
      if bool_decide (d_errno s = EINTR ∨ d_errno s = ECONNABORTED) then mret (inl tt)
      else mret (inr tt)
  | Some (cfd, (ip, port)) =>
      s ← get;
      if negb (d_calloc (d_ev s)) then d_close cfd;; mret (inl tt)
      else if negb (d_pthread (d_ev s)) then
        (* session_destroy: no job yet, so only the socket is closed *)
        d_close cfd;; mret (inl tt)
      else d_emit (DThread cfd ip port);; mret (inl tt)
  end.

Definition server_run (dfuel : nat) (kind : transport_kind_t) : M D Z :=
  lfd ← transport_listen kind;
  if bool_decide (lfd < 0)%Z then mret (-1)%Z
  else
    loop dfuel (λ _ : unit, server_step kind) tt;;
    transport_close lfd kind;;
    mret (-1)%Z.

(** ** log.c, main.c *)

Definition log_open : M D Z :=
  fd ← d_new (d_open YASHD_LOG_PATH) (OFile YASHD_LOG_PATH (O_WRITE_CREATE_APPEND 420));
  modify (set_log_fd fd);;
  mret (if bool_decide (fd < 0)%Z then (-1)%Z else 0%Z).

Definition log_close : M D unit :=
  s ← get;
  when (bool_decide (0 ≤ log_fd s)%Z) (d_close (log_fd s);; modify (set_log_fd (-1)%Z)).

Definition usage (args : list bytes) : M D Z :=
  d_emit (DStderr (b "usage: " ++ cstr (default [] (head args)) ++ b " [-u]" ++ [LF]));; mret 1%Z.

Definition main_kind (args : list bytes) : option transport_kind_t :=
  match args with
  | [_; arg1] => if streq arg1 (b "-u") then Some TRANSPORT_UNIX else None
  | [_] => Some TRANSPORT_TCP
  | _ => None
  end.

(** The exit code of the process. *)
Definition daemon_main (dfuel : nat) (args : list bytes) : M D Z :=
  match main_kind args with
  | None => usage args
  | Some kind =>
      modify (set_sig SIGPIPE SIG_IGN);;
      r ← daemon_init;
      match r with
      | inl code => mret code
      | inr r =>
          if bool_decide (r < 0)%Z then mret 1%Z
          else
            r ← log_open;
            if bool_decide (r < 0)%Z then mret 1%Z
            else server_run dfuel kind;; log_close;; mret 0%Z
      end
  end.

End daemon.
