(* ===== verification/DaemonProps.v ===== *)
(** * The theorems about the main thread of yashd

    [daemon_init] leaves a detached process with exactly the standard descriptors
    and its locked pid file; the accept loop gives every connection to a session
    or closes it, and neither touches nor leaks any other descriptor. *)

From S2P Require Import Prelude CString YashTypes Parse Posix Launch Daemon.
From stdpp Require Import base tactics list gmap strings.
From Stdlib Require Import Ascii ZArith Lia.

Section props.
Context `{DEnv}.
Implicit Types (s : dstate) (t : mode).

(** ** daemon_init *)

Lemma close_upto_run n fd s :
  ∃ tb, close_upto n fd s = Done (tt, upd_fds (λ _, tb) s) ∧
    ∀ k, tb !! k = if decide (fd ≤ k < fd + Z.of_nat n)%Z then None else d_fds s !! k.
Proof.
  revert fd s. induction n as [|n IH]; intros fd s.
  { exists (d_fds s). split; [by destruct s|]. intros k. by rewrite decide_False by lia. }
  cbn [close_upto]. unfold mbind, M_bind, d_close, modify.
  destruct (IH (fd + 1)%Z (upd_fds (fd_close fd) s)) as (tb & -> & Htb).
  exists tb. split; [done|]. intros k. rewrite Htb. cbn. unfold fd_close.
  destruct (decide (fd + 1 ≤ k < fd + 1 + Z.of_nat n)%Z); [by rewrite decide_True by lia|].
  destruct (decide (k = fd)) as [->|Hne].
  - by rewrite lookup_delete_eq, decide_True by lia.
  - rewrite lookup_delete_ne by done. by rewrite decide_False by lia.
Qed.

(** The table of the daemon after [daemon_init]. *)
Definition detached_fds : fdtab :=
  <[3%Z := OFile YASHD_PID_PATH (O_RDWR_CREATE 384)]>
    (<[2%Z := ONull]> (<[1%Z := ONull]> (<[0%Z := ONull]> ∅))).

Record detached s s' : Prop := {
  dt_fds : d_fds s' = detached_fds;
  dt_session : d_leader s' = false ∧ d_ctty s' = false;
  dt_cwd : d_cwd s' = b "/tmp" ∧ d_umask s' = 0%Z;
  dt_lock : d_locked s' = true ∧ pid_fd s' = 3%Z;
  dt_sigs : d_sigs s' = <[SIGHUP := SIG_IGN]> (d_sigs s)
}.

(** Every process that [fork] leaves behind exits with status 0, and the one that
    returns 0 is detached. *)
Lemma wp_d_new t ok f (Q : Z → D → Prop) s :
  (ok = true → Q (lowest_fd (d_fds s)) (upd_fds (<[lowest_fd (d_fds s) := f]>) s)) →
  (ok = false → Q (-1)%Z s) → wp t (d_new ok f) Q s.
Proof. intros H1 H2. unfold d_new. destruct ok; [|by apply wp_ret, H2]. by apply H1. Qed.

Lemma wp_d_dup t fd f (Q : Z → D → Prop) s :
  d_fds s !! fd = Some f →
  Q (lowest_fd (d_fds s)) (upd_fds (<[lowest_fd (d_fds s) := f]>) s) → wp t (d_dup fd) Q s.
Proof.
  intros Hf HQ. unfold d_dup. apply wp_bind, wp_get. rewrite Hf. by apply wp_d_new.
Qed.

Lemma wp_pidfile_lock t (Q : Z → D → Prop) s :
  (∀ z s', (z = 0%Z → let fd := lowest_fd (d_fds s) in
     s' = set_pid_fd true fd
            (upd_fds (<[fd := OFile YASHD_PID_PATH (O_RDWR_CREATE 384)]>) s)) → Q z s') →
  wp t pidfile_lock Q s.
Proof.
  intros HQ. unfold pidfile_lock. apply wp_bind, wp_d_new; intros _; wp_steps; apply HQ; try done.
Qed.

Lemma wp_daemon_init t s :
  (∀ n, is_Some (d_fds s !! n) → (0 ≤ n < max_fd)%Z) →
  wp t daemon_init
    (λ r s', match r with inl c => c = 0%Z | inr z => (z = 0%Z → detached s s') end) s.
Proof.
  intros Hfds. unfold daemon_init, do_fork, d_emit.
  apply wp_bind, wp_bind, wp_get, wp_bind, wp_modify, wp_ret.
  destruct (d_fork _); [by apply wp_ret| |by apply wp_ret].
  destruct d_setsid; cbn [negb]; [|by apply wp_ret].
  apply wp_bind, wp_modify, wp_bind, wp_modify.
  apply wp_bind, wp_bind, wp_get, wp_bind, wp_modify, wp_ret.
  destruct (d_fork _); [by apply wp_ret| |by apply wp_ret].
  apply wp_bind, wp_modify. destruct d_chdir; cbn [negb]; [|by apply wp_ret].
  apply wp_bind, wp_modify, wp_bind, wp_modify, wp_bind. unfold wp at 1.
  match goal with |- context [close_upto ?n ?fd ?x] =>
    set (s1 := x); destruct (close_upto_run n fd s1) as (tb & -> & Htb) end.
  assert (tb = ∅) as ->.
  { apply map_eq. intros k. rewrite Htb, lookup_empty. case_decide as Hk; [done|].
    destruct (d_fds s1 !! k) eqn:Hs; [|done]. exfalso. apply Hk.
    destruct (Hfds k) as [??]; [by eexists|]. lia. }
  apply wp_bind, wp_d_new; intros _; [|by apply wp_ret]. cbn [d_fds upd_fds].
  change (lowest_fd ∅) with 0%Z. rewrite bool_decide_false by (intros Hx; by apply Hx).
  apply wp_bind. eapply (wp_d_dup t _ ONull); [apply lookup_insert_eq|]. cbn [d_fds upd_fds].
  change (lowest_fd (<[0%Z := ONull]> ∅)) with 1%Z.
  rewrite bool_decide_false by (intros Hx; by apply Hx).
  apply wp_bind. eapply (wp_d_dup t _ ONull); [done|]. cbn [d_fds upd_fds].
  change (lowest_fd (<[1%Z := ONull]> (<[0%Z := ONull]> ∅))) with 2%Z.
  rewrite bool_decide_false by (intros Hx; by apply Hx).
  apply wp_bind, wp_pidfile_lock. intros z s' Hz. apply wp_ret. intros Hz0.
  rewrite (Hz Hz0). by split.
Qed.

(** ** server_run *)

(** Away from the sockets of the sessions the table is [tb]. *)
Record served (tb : fdtab) s : Prop := {
  sv_base : ∀ n, n ∉ handed (d_ev s) → d_fds s !! n = tb !! n;
  sv_sess : Forall (λ n, (2 < n)%Z ∧ tb !! n = None) (handed (d_ev s))
}.

Lemma served_close tb s fd : served tb s → fd ∈ handed (d_ev s) → served tb (upd_fds (fd_close fd) s).
Proof.
  intros [Hb Hs] Hin. split; [|done]. intros n Hn. cbn in *. unfold fd_close.
  rewrite lookup_delete_ne by (intros ->; done). by apply Hb.
Qed.

Lemma wp_sessions_end t (Q : unit → D → Prop) tb s :
  served tb s → (∀ s', served tb s' → d_ev s' = d_ev s → Q tt s') → wp t sessions_end Q s.
Proof.
  intros Hs HQ. unfold sessions_end. apply wp_bind, wp_get.
  cut (∀ l s1, served tb s1 → d_ev s1 = d_ev s →
    wp t (foldr (λ fd m, (if bool_decide (fd ∈ handed (d_ev s)) then d_close fd else mret tt);; m)
            (mret tt) l) Q s1); [by intros Hg; apply Hg|].
  clear Hs. intros l. induction l as [|fd l IH]; intros s1 Hs1 Hev; cbn [foldr].
  { apply wp_ret. by apply HQ. }
  apply wp_bind. case_bool_decide as Hin.
  - apply wp_modify. apply IH; [|done]. apply served_close; [done|]. by rewrite Hev.
  - apply wp_ret. by apply IH.
Qed.

Lemma wp_server_step t kind tb s :
  std_open tb → served tb s →
  wp t (server_step kind) (λ r s', served tb s') s.
Proof.
  intros (H0 & H1 & H2) Hs. unfold server_step. apply wp_bind.
  eapply wp_sessions_end; [done|]. clear Hs. generalize s. clear s. intros _ s Hs _.
  unfold transport_accept, d_emit. apply wp_bind, wp_bind, wp_get, wp_bind, wp_modify.
  set (r := match d_accept (d_ev s) with AcOk _ _ _ => _ | _ => _ end).
  assert (Hr : ∀ fd ip port, r = AcOk fd ip port → (2 < fd)%Z ∧ tb !! fd = None ∧ d_fds s !! fd = None).
  { subst r. intros fd ip port. destruct (d_accept _) as [fd' ip' p'|]; [|done].
    case_bool_decide as Hok; [|done]. intros [= -> _ _]. destruct Hok as [Hfree Hpos].
    assert (Htb : tb !! fd = None).
    { destruct (decide (fd ∈ handed (d_ev s))) as [Hin|Hout]; [|by rewrite <- (sv_base _ _ Hs)].
      pose proof (sv_sess _ _ Hs) as Hf. rewrite Forall_forall in Hf. by apply Hf. }
    split_and!; [|done|done]. unfold STDIN_FILENO, STDOUT_FILENO, STDERR_FILENO in *.
    destruct (decide (fd = 0%Z)) as [->|]; [rewrite Htb in H0; by destruct H0|].
    destruct (decide (fd = 1%Z)) as [->|]; [rewrite Htb in H1; by destruct H1|].
    destruct (decide (fd = 2%Z)) as [->|]; [rewrite Htb in H2; by destruct H2|]. lia. }
  assert (Hs1 : served tb (d_emit_to (DAccept r) s)) by by destruct Hs.
  clearbody r. destruct r as [fd ip port|e].
  2:{ apply wp_bind, wp_modify, wp_ret. apply wp_bind, wp_get.
      case_bool_decide; apply wp_ret; by destruct Hs1. }
  destruct (Hr fd ip port eq_refl) as (Hpos & Htb & Hfree). clear Hr.
  apply wp_bind, wp_modify, wp_bind.
  set (s2 := upd_fds _ _).
  assert (Hdrop : served tb (upd_fds (fd_close fd) s2)).
  { subst s2. destruct Hs1 as [Hb Hf]. split; [|done]. intros n Hn. cbn in *. unfold fd_close.
    rewrite delete_insert_id by done. by apply Hb. }
  assert (Hhand : ∀ a p, served tb (d_emit_to (DThread fd a p) s2)).
  { intros a p. destruct Hs1 as [Hb Hf]. split.
    - intros n Hn. cbn in *. apply not_elem_of_cons in Hn as [Hn1 Hn2].
      rewrite lookup_insert_ne by done. by apply Hb.
    - cbn. by apply Forall_cons. }
  clearbody s2.
  assert (Hk : ∀ a p, wp t
    (s0 ← get;
     if negb (d_calloc (d_ev s0)) then d_close fd;; mret (inl tt)
     else if negb (d_pthread (d_ev s0)) then d_close fd;; mret (inl tt)
     else d_emit (DThread fd a p);; mret (inl tt))
    (λ (r : unit + unit) s', served tb s') s2).
  { intros a p. apply wp_bind, wp_get. destruct (d_calloc _); cbn [negb].
    - destruct (d_pthread _); cbn [negb]; apply wp_bind, wp_modify, wp_ret; auto.
    - apply wp_bind, wp_modify, wp_ret; auto. }
  case_bool_decide; [apply wp_bind, wp_get|]; apply wp_ret, wp_ret; apply Hk.
Qed.

(** [transport_listen] opens one descriptor or none. *)
Lemma wp_transport_listen t kind (Q : Z → D → Prop) s :
  (∀ s', d_fds s' = d_fds s → handed (d_ev s') = handed (d_ev s) → Q (-1)%Z s') →
  (∀ s', d_fds s' = <[lowest_fd (d_fds s) := OSock]> (d_fds s) →
     handed (d_ev s') = handed (d_ev s) → Q (lowest_fd (d_fds s)) s') →
  wp t (transport_listen kind) Q s.
Proof.
  intros Hfail Hok. set (lfd := lowest_fd (d_fds s)) in *.
  assert (Hpos : (0 ≤ lfd)%Z) by apply lowest_fd_nonneg.
  assert (Hfree : d_fds s !! lfd = None) by apply lowest_fd_free.
  assert (Hbind : ∀ k s1, d_fds s1 = <[lfd := OSock]> (d_fds s) →
    handed (d_ev s1) = handed (d_ev s) → wp t (bind_listen k lfd) Q s1).
  { intros k s1 Hf1 He1. unfold bind_listen, d_emit. apply wp_bind, wp_get, wp_bind, wp_modify.
    apply wp_bind, wp_get, wp_bind.
    assert (Hclose : ∀ s2, d_fds s2 = d_fds s1 → handed (d_ev s2) = handed (d_ev s) →
      wp t (d_close lfd;; mret (-1)%Z) Q s2).
    { intros s2 Hf2 He2. apply wp_bind, wp_modify, wp_ret, Hfail; [|done]. cbn.
      rewrite Hf2, Hf1. by apply delete_insert_id. }
    destruct (d_bind _); [apply wp_modify|apply wp_ret; by apply Hclose].
    cbn [andb]. destruct (d_listen _); [by apply wp_ret, Hok|by apply Hclose]. }
  unfold transport_listen, listen_unix, listen_tcp, reusePort, d_emit.
  case_bool_decide; apply wp_bind, wp_get, wp_bind, wp_d_new; intros _;
    try (rewrite bool_decide_true by lia; apply wp_ret; by apply Hfail);
    fold lfd; rewrite bool_decide_false by lia.
  - apply wp_bind, wp_modify. by apply Hbind.
  - apply wp_bind, wp_ret. destruct d_reuse; cbn; [by apply Hbind|].
    apply wp_bind, wp_modify, wp_ret, Hfail; [|done]. cbn. by apply delete_insert_id.
Qed.

Lemma wp_server_run fuel kind s :
  std_open (d_fds s) → handed (d_ev s) = [] →
  wp Partial (server_run fuel kind)
    (λ r s', r = (-1)%Z ∧ Forall (λ n, (2 < n)%Z ∧ d_fds s !! n = None) (handed (d_ev s')) ∧
       ∀ n, n ∉ handed (d_ev s') → d_fds s' !! n = d_fds s !! n) s.
Proof.
  intros Hstd Hev. unfold server_run. apply wp_bind, wp_transport_listen.
  { intros s1 Hf1 He1. rewrite bool_decide_true by lia. apply wp_ret. split; [done|].
    rewrite He1, Hev. split; [by apply Forall_nil|]. intros n _. by rewrite Hf1. }
  intros s1 Hf1 He1. set (lfd := lowest_fd (d_fds s)) in *. set (tb := d_fds s1) in *.
  destruct Hstd as (H0 & H1 & H2).
  assert (Hpos : (2 < lfd)%Z) by by apply lowest_fd_above.
  assert (Hfree : d_fds s !! lfd = None) by apply lowest_fd_free.
  rewrite bool_decide_false by lia. apply wp_bind.
  eapply (wp_loop (λ _ s', served tb s')).
  2:{ split; [done|]. by rewrite He1, Hev. }
  intros [] s2 Hs2. eapply wp_mono; [apply (wp_server_step Partial kind tb); [|done]|].
  { unfold std_open, tb, STDIN_FILENO, STDOUT_FILENO, STDERR_FILENO in *. rewrite Hf1.
    by rewrite !lookup_insert_ne by lia. }
  intros [[]|[]] s3 Hs3; [done|]. unfold transport_close, d_emit.
  apply wp_bind, wp_bind. rewrite bool_decide_true by lia. apply wp_modify.
  assert (Hend : ∀ s4, d_fds s4 = fd_close lfd (d_fds s3) → handed (d_ev s4) = handed (d_ev s3) →
    wp Partial (mret (-1)%Z) (λ r s',
       r = (-1)%Z ∧ Forall (λ n, (2 < n)%Z ∧ d_fds s !! n = None) (handed (d_ev s')) ∧
       ∀ n, n ∉ handed (d_ev s') → d_fds s' !! n = d_fds s !! n) s4).
  { intros s4 Hf4 He4. apply wp_ret. split; [done|]. rewrite He4. destruct Hs3 as [Hb Hf]. split.
    - eapply Forall_impl; [exact Hf|]. intros n [Hn Hnone]. split; [done|].
      rewrite Hf1 in Hnone. by apply lookup_insert_None in Hnone as [? _].
    - intros n Hn. rewrite Hf4. unfold fd_close. destruct (decide (n = lfd)) as [->|Hne].
      + by rewrite lookup_delete_eq.
      + rewrite lookup_delete_ne by done. rewrite Hb by done.
        by rewrite Hf1, lookup_insert_ne. }
  apply wp_when; intros _; [apply wp_modify|]; by apply Hend.
Qed.

End props.

(** ** The properties of the main thread *)

(** [daemon_init] either reports a failure, or ends one of the
    two processes it leaves behind with status 0, or returns 0 in a process that
    is fully detached: it is no session leader and has no controlling terminal,
    its directory is /tmp, its mask 0, it ignores SIGHUP, its only descriptors are
    0, 1 and 2 on /dev/null and the pid file, on which it holds the lock. *)
Theorem daemon_init_detaches `{DEnv} s :
  (∀ n, is_Some (d_fds s !! n) → (0 ≤ n < max_fd)%Z) →
  ∃ r s', daemon_init s = Done (r, s') ∧
    match r with inl c => c = 0%Z | inr z => z = 0%Z → detached s s' end.
Proof. intros Hf. apply wp_total_run. by apply wp_daemon_init. Qed.

(** A kernel that grants everything, forks as the child, and breaks the accept
    loop after one connection. *)
Definition willing_denv : DEnv := {|
  d_fork _ := ForkChild;
  d_setsid := true;
  d_chdir := true;
  d_open_max := 1024;
  d_open _ := true;
  d_lockf := true;
  d_ftruncate := true;
  d_write_pid := true;
  d_getpid := 4711;
  d_socket _ := true;
  d_reuse := true;
  d_bind _ := true;
  d_listen _ := true;
  d_accept h := if bool_decide (length h < 5) then AcOk 6 (Some (b "127.0.0.1")) 7813
                else AcErr EOTHER;
  d_peercred _ := None;
  d_calloc _ := true;
  d_pthread _ := true;
  d_finished _ := []
|}.

Definition shell_fds : fdtab := {[0%Z := OTty; 1%Z := OTty; 2%Z := OTty; 9%Z := OSock]}.

Definition daemon_start : dstate :=
  DState shell_fds ∅ true true (b "/home/user") 18 false (-1) (-1) EOTHER [].

Lemma daemon_init_detaches_witness :
  ∃ s', daemon_init (H := willing_denv) daemon_start = Done (inr 0%Z, s') ∧ detached daemon_start s'.
Proof.
  destruct (daemon_init_detaches (H := willing_denv) daemon_start) as (r & s' & Hr & Hp).
  { intros n Hn. apply elem_of_dom in Hn. change (max_fd (H := willing_denv)) with 1024%Z.
    unfold daemon_start, shell_fds in Hn. cbn in Hn. rewrite !dom_insert_L, dom_singleton_L in Hn.
    rewrite !elem_of_union, !elem_of_singleton in Hn. lia. }
  destruct r as [c|z].
  - exfalso. vm_compute in Hr. discriminate.
  - assert (z = 0%Z) as -> by (vm_compute in Hr; by injection Hr as <- _).
    exists s'. split; [done|]. by apply Hp.
Defined.

(** With the standard descriptors open, the accept loop never has
    undefined behaviour, every socket it gives to a session is above the standard
    descriptors and was not in use by the daemon, and when it returns (always
    with -1) every descriptor but those sockets is what it was before: the
    listening socket and the refused connections are closed. *)
Theorem server_run_accounts `{DEnv} fuel kind s :
  std_open (d_fds s) → handed (d_ev s) = [] →
  server_run fuel kind s ≠ Undef ∧
  ∀ r s', server_run fuel kind s = Done (r, s') →
    r = (-1)%Z ∧ Forall (λ n, (2 < n)%Z ∧ d_fds s !! n = None) (handed (d_ev s')) ∧
    ∀ n, n ∉ handed (d_ev s') → d_fds s' !! n = d_fds s !! n.
Proof.
  intros Hstd Hev. pose proof (wp_server_run fuel kind s Hstd Hev) as Hwp.
  split; [by eapply wp_no_undef|]. intros r s' Hr. exact (wp_run _ _ _ _ _ _ Hwp Hr).
Qed.

Lemma server_run_accounts_witness :
  ∃ r s', server_run (H := willing_denv) 6 TRANSPORT_TCP daemon_start = Done (r, s') ∧
    handed (d_ev s') = [6%Z] ∧ d_fds s' !! 3%Z = None.
Proof.
  destruct (server_run_accounts (H := willing_denv) 6 TRANSPORT_TCP daemon_start) as [_ Hp].
  - unfold std_open. split_and!; apply (bool_decide_unpack _); vm_compute; done.
  - reflexivity.
  - destruct (server_run (H := willing_denv) 6 TRANSPORT_TCP daemon_start) as [[r s']| |] eqn:Hr;
      [|vm_compute in Hr; discriminate..].
    destruct (Hp r s' eq_refl) as (_ & _ & Hsame). exists r, s'.
    assert (Hh : handed (d_ev s') = [6%Z]) by (vm_compute in Hr; by injection Hr as _ <-).
    split_and!; [done|done|]. rewrite Hsame; [by vm_compute|]. rewrite Hh. set_solver.
Defined.
