(* ===== verification/BitmapProps.v ===== *)
(** * The theorems about bitmaps

    Every operation of [Bitmap] implements its specification on the function
    [bit]: which bits it reads or changes, and that it touches no other. *)

From S2P Require Import Prelude Bitmap.
From stdpp Require Import base tactics list.
From Stdlib Require Import ZArith Lia Bool.

Local Open Scope Z_scope.

(** ** Well-formed bitmaps and their bits *)

(** The sizes agree, the count leaves room for rounding up, the elements are
    32-bit values. *)
Record bwf (b : bitmap) : Prop := {
  bw_cnt : 0 ≤ bit_cnt b ≤ 4294967264;
  bw_len : Z.of_nat (length (bits b)) = elem_cnt (bit_cnt b);
  bw_elems : Forall (λ v, 0 ≤ v < 2 ^ 32) (bits b)
}.

Definition bit (b : bitmap) (i : Z) : bool :=
  Z.testbit (default 0 (bits b !! Z.to_nat (i / 32))) (i mod 32).

Lemma wrap_small z : 0 ≤ z < 2 ^ 32 → wrap_u32 z = z.
Proof. intros. unfold wrap_u32. by apply Z.mod_small. Qed.

Lemma wrap_testbit z n : 0 ≤ n < 32 → Z.testbit (wrap_u32 z) n = Z.testbit z n.
Proof. intros. unfold wrap_u32. change 4294967296 with (2 ^ 32). by apply Z.mod_pow2_bits_low; lia. Qed.

Lemma wrap_range z : 0 ≤ wrap_u32 z < 2 ^ 32.
Proof. unfold wrap_u32. by apply Z.mod_pos_bound. Qed.

Lemma mod32 i : 0 ≤ i mod 32 < 32.
Proof. by apply Z.mod_pos_bound. Qed.

Lemma bit_mask_pow i : bit_mask i = 2 ^ (i mod 32).
Proof.
  unfold bit_mask, ELEM_BITS. pose proof (mod32 i). rewrite Z.shiftl_1_l. apply wrap_small.
  split; [by apply Z.pow_nonneg|]. apply Z.pow_lt_mono_r; lia.
Qed.

Lemma bit_mask_testbit i n : 0 ≤ n → Z.testbit (bit_mask i) n = bool_decide (n = i mod 32).
Proof.
  intros Hn. rewrite bit_mask_pow. pose proof (mod32 i). case_bool_decide as Heq.
  - subst. apply Z.pow2_bits_true. lia.
  - apply Z.pow2_bits_false. lia.
Qed.

(** Two indices with the same element and the same position are equal. *)
Lemma index_inj i k : 0 ≤ i → 0 ≤ k → Z.to_nat (i / 32) = Z.to_nat (k / 32) →
  i mod 32 = k mod 32 → i = k.
Proof.
  intros Hi Hk Hd Hm. rewrite (Z.div_mod i 32), (Z.div_mod k 32) by lia.
  apply Z2Nat.inj in Hd; [|by apply Z.div_pos; lia..]. by rewrite Hd, Hm.
Qed.

Lemma elem_cnt_small n : 0 ≤ n ≤ 4294967264 → elem_cnt n = (n + 31) / 32.
Proof. intros. unfold elem_cnt, ELEM_BITS. rewrite wrap_small by lia. f_equal. lia. Qed.

Lemma idx_lt b i : bwf b → 0 ≤ i < bit_cnt b → (Z.to_nat (i / 32) < length (bits b))%nat.
Proof.
  intros [Hc Hl _] Hi. rewrite elem_cnt_small in Hl by done.
  assert (i / 32 < (bit_cnt b + 31) / 32).
  { apply Z.div_lt_upper_bound; [lia|].
    pose proof (Z.mul_succ_div_gt (bit_cnt b + 31) 32 ltac:(lia)). lia. }
  assert (0 ≤ i / 32) by (apply Z.div_pos; lia). lia.
Qed.

Lemma land_pow2 v k : 0 ≤ k → (Z.land v (2 ^ k) ≠ 0 ↔ Z.testbit v k = true).
Proof.
  intros Hk. split.
  - intros Hne. destruct (Z.testbit v k) eqn:Ht; [done|]. exfalso. apply Hne.
    apply Z.bits_inj'. intros n Hn. rewrite Z.land_spec, Z.bits_0.
    destruct (decide (n = k)) as [->|]; [by rewrite Ht|].
    rewrite Z.pow2_bits_false by lia. by rewrite andb_false_r.
  - intros Ht H0. assert (Hf : Z.testbit (Z.land v (2 ^ k)) k = true).
    { rewrite Z.land_spec, Ht. by apply Z.pow2_bits_true. }
    by rewrite H0, Z.bits_0 in Hf.
Qed.

(** ** Single bits *)

Lemma bitmap_test_bit b i : bwf b → 0 ≤ i < bit_cnt b → bitmap_test b i = Some (bit b i).
Proof.
  intros Hb Hi. unfold bitmap_test, ASSERT, elem_get, elem_idx, bit, ELEM_BITS.
  rewrite bool_decide_true by lia.
  destruct (lookup_lt_is_Some_2 (bits b) (Z.to_nat (i / 32))) as [v Hv]; [by apply idx_lt|].
  rewrite Hv. cbn. f_equal. rewrite bit_mask_pow. pose proof (mod32 i).
  destruct (Z.testbit v (i mod 32)) eqn:Ht.
  - apply bool_decide_eq_true. apply land_pow2; [lia|done].
  - apply bool_decide_eq_false. rewrite land_pow2 by lia. by rewrite Ht.
Qed.

(** Changing one element with a function that acts on one position. *)
Lemma update_elem b i (f : Z → Z) (g : bool → bool) :
  bwf b → 0 ≤ i < bit_cnt b →
  (∀ v, 0 ≤ v < 2 ^ 32 → 0 ≤ f v < 2 ^ 32) →
  (∀ v n, 0 ≤ n < 32 → Z.testbit (f v) n = if decide (n = i mod 32) then g (Z.testbit v n)
                                              else Z.testbit v n) →
  ∃ b', (v ← elem_get b (elem_idx i); elem_set b (elem_idx i) (f v)) = Some b' ∧
    bwf b' ∧ bit_cnt b' = bit_cnt b ∧
    ∀ k, 0 ≤ k → bit b' k = if decide (k = i) then g (bit b i) else bit b k.
Proof.
  intros Hb Hi Hrange Hf. pose proof (idx_lt b i Hb Hi) as Hlt.
  unfold elem_get, elem_set, elem_idx, ASSERT, ELEM_BITS.
  destruct (lookup_lt_is_Some_2 _ _ Hlt) as [v Hv]. rewrite Hv. cbn.
  rewrite bool_decide_true by done. eexists. split; [done|].
  destruct Hb as [Hc Hl He]. split_and!; [|done|].
  - split; cbn; [done|by rewrite length_insert|]. apply Forall_insert; [done|].
    apply Hrange. rewrite Forall_lookup in He. by eapply He.
  - intros k Hk. unfold bit. cbn. pose proof (mod32 k).
    destruct (decide (Z.to_nat (i / 32) = Z.to_nat (k / 32))) as [Heq|Hne].
    + rewrite <- Heq, list_lookup_insert_eq, Hv by done. cbn. rewrite Hf by done.
      destruct (decide (k = i)) as [->|Hki]; [by rewrite decide_True|].
      rewrite decide_False; [done|]. intros Hm. apply Hki. apply index_inj; [lia|lia|done|done].
    + rewrite list_lookup_insert_ne by done. rewrite decide_False; [done|]. congruence.
Qed.

Lemma lor_range v m : 0 ≤ v < 2 ^ 32 → 0 ≤ m < 2 ^ 32 → 0 ≤ Z.lor v m < 2 ^ 32.
Proof.
  intros Hv Hm. assert (0 ≤ Z.lor v m) by (apply Z.lor_nonneg; lia). split; [done|].
  destruct (decide (Z.lor v m = 0)) as [->|Hz]; [lia|].
  apply Z.log2_lt_pow2; [lia|]. rewrite Z.log2_lor by lia.
  apply Z.max_lub_lt; (destruct (decide (0 < v)), (decide (0 < m));
    first [by apply Z.log2_lt_pow2; lia
          |by replace v with 0 by lia; simpl; lia|by replace m with 0 by lia; simpl; lia]).
Qed.

Lemma land_range v m : 0 ≤ v < 2 ^ 32 → 0 ≤ m → 0 ≤ Z.land v m < 2 ^ 32.
Proof.
  intros Hv Hm. assert (0 ≤ Z.land v m) by (apply Z.land_nonneg; lia). split; [done|].
  destruct (decide (Z.land v m = 0)) as [->|Hz]; [lia|].
  assert (v ≠ 0) by (intros ->; by rewrite Z.land_0_l in Hz).
  apply Z.log2_lt_pow2; [lia|]. eapply Z.le_lt_trans; [apply Z.log2_land; lia|].
  apply Z.min_lt_iff. left. apply Z.log2_lt_pow2; lia.
Qed.

Lemma bit_mask_range i : 0 ≤ bit_mask i < 2 ^ 32.
Proof. apply wrap_range. Qed.

Lemma bitmap_set_bit b i v :
  bwf b → 0 ≤ i < bit_cnt b →
  ∃ b', bitmap_set b i v = Some b' ∧ bwf b' ∧ bit_cnt b' = bit_cnt b ∧
    ∀ k, 0 ≤ k → bit b' k = if decide (k = i) then v else bit b k.
Proof.
  intros Hb Hi. unfold bitmap_set, ASSERT. rewrite bool_decide_true by lia. destruct v.
  - unfold bitmap_mark. apply (update_elem b i (λ v, Z.lor v (bit_mask i)) (λ _, true)); [done|done|..].
    + intros v Hv. apply lor_range; [done|apply bit_mask_range].
    + intros v n Hn. rewrite Z.lor_spec, bit_mask_testbit by lia.
      case_bool_decide; case_decide; try done; by rewrite ?orb_true_r, ?orb_false_r.
  - unfold bitmap_reset.
    apply (update_elem b i (λ v, Z.land v (wrap_u32 (Z.lnot (bit_mask i)))) (λ _, false)); [done|done|..].
    + intros v Hv. apply land_range; [done|]. pose proof (wrap_range (Z.lnot (bit_mask i))). lia.
    + intros v n Hn. rewrite Z.land_spec, wrap_testbit, Z.lnot_spec, bit_mask_testbit by lia.
      case_bool_decide; case_decide; try done; by rewrite ?andb_false_r, ?andb_true_r.
Qed.

Lemma bitmap_flip_bit b i :
  bwf b → 0 ≤ i < bit_cnt b →
  ∃ b', bitmap_flip b i = Some b' ∧ bwf b' ∧ bit_cnt b' = bit_cnt b ∧
    ∀ k, 0 ≤ k → bit b' k = if decide (k = i) then negb (bit b i) else bit b k.
Proof.
  intros Hb Hi. unfold bitmap_flip.
  apply (update_elem b i (λ v, Z.lxor v (bit_mask i)) negb); [done|done|..].
  - intros v Hv. pose proof (bit_mask_range i) as Hm.
    assert (0 ≤ Z.lxor v (bit_mask i)) by (apply Z.lxor_nonneg; lia). split; [done|].
    destruct (decide (Z.lxor v (bit_mask i) = 0)) as [->|Hz]; [lia|].
    apply Z.log2_lt_pow2; [lia|]. eapply Z.le_lt_trans; [apply Z.log2_lxor; lia|].
    rewrite <- Z.log2_lor by lia.
    pose proof (lor_range v (bit_mask i) Hv Hm).
    assert (0 < Z.lor v (bit_mask i)).
    { destruct (decide (Z.lor v (bit_mask i) = 0)) as [Hz0|]; [|lia].
      apply Z.lor_eq_0_iff in Hz0 as [-> Hz0]. rewrite Hz0, Z.lxor_0_l in Hz. done. }
    apply Z.log2_lt_pow2; lia.
  - intros v n Hn. rewrite Z.lxor_spec, bit_mask_testbit by lia.
    case_bool_decide; case_decide; try done; by rewrite ?xorb_true_r, ?xorb_false_r.
Qed.

(** ** Several bits *)

Lemma set_loop_spec n b start i value :
  bwf b → 0 ≤ start → 0 ≤ i → start + i + Z.of_nat n ≤ bit_cnt b →
  ∃ b', set_loop n b start i value = Some b' ∧ bwf b' ∧ bit_cnt b' = bit_cnt b ∧
    ∀ k, 0 ≤ k → bit b' k = if decide (start + i ≤ k < start + i + Z.of_nat n) then value
                            else bit b k.
Proof.
  revert b i. induction n as [|n IH]; intros b i Hb Hs Hi Hle; simpl set_loop.
  { exists b. split_and!; try done. intros k Hk. by rewrite decide_False by lia. }
  pose proof (bw_cnt _ Hb) as Hc.
  rewrite wrap_small by lia.
  destruct (bitmap_set_bit b (start + i) value Hb) as (b1 & -> & Hb1 & Hc1 & Hbit1); [lia|]. cbn.
  destruct (IH b1 (i + 1)) as (b2 & -> & Hb2 & Hc2 & Hbit2); [done|done|lia|lia|].
  exists b2. split_and!; [done|done|congruence|]. intros k Hk. rewrite Hbit2, Hbit1 by done.
  repeat case_decide; try done; lia.
Qed.

Lemma in_range_true b start cnt :
  bwf b → 0 ≤ start → 0 ≤ cnt → start + cnt ≤ bit_cnt b → in_range b start cnt = true.
Proof.
  intros Hb Hs Hc Hle. pose proof (bw_cnt _ Hb). unfold in_range.
  rewrite wrap_small by lia. rewrite !bool_decide_true by lia. done.
Qed.

Lemma set_multiple_spec b start cnt value :
  bwf b → 0 ≤ start → 0 ≤ cnt → start + cnt ≤ bit_cnt b →
  ∃ b', bitmap_set_multiple b start cnt value = Some b' ∧ bwf b' ∧ bit_cnt b' = bit_cnt b ∧
    ∀ k, 0 ≤ k → bit b' k = if decide (start ≤ k < start + cnt) then value else bit b k.
Proof.
  intros Hb Hs Hc Hle. unfold bitmap_set_multiple. rewrite in_range_true by done. cbn.
  destruct (set_loop_spec (Z.to_nat cnt) b start 0 value) as (b' & -> & Hb' & Hc' & Hbit);
    [done|done|lia|lia|]. exists b'. split_and!; [done|done|done|].
  intros k Hk. rewrite Hbit, Z2Nat.id, Z.add_0_r by lia. done.
Qed.

Lemma contains_loop_spec n b start i value :
  bwf b → 0 ≤ start → 0 ≤ i → start + i + Z.of_nat n ≤ bit_cnt b →
  ∃ r, contains_loop n b start i value = Some r ∧
    (r = true ↔ ∃ k, start + i ≤ k < start + i + Z.of_nat n ∧ bit b k = value).
Proof.
  revert i. induction n as [|n IH]; intros i Hb Hs Hi Hle; simpl contains_loop.
  { exists false. split; [done|]. split; [done|]. intros (k & ? & _). lia. }
  pose proof (bw_cnt _ Hb). rewrite wrap_small by lia.
  rewrite bitmap_test_bit by (done || lia). cbn.
  destruct (eqb (bit b (start + i)) value) eqn:He.
  - apply eqb_prop in He. exists true. split; [done|]. split; [|done]. intros _.
    exists (start + i). split; [lia|done].
  - apply eqb_false_iff in He. destruct (IH (i + 1) Hb Hs ltac:(lia) ltac:(lia)) as (r & -> & Hr).
    exists r. split; [done|]. rewrite Hr. split.
    + intros (k & Hk & Hv). exists k. split; [lia|done].
    + intros (k & Hk & Hv). exists k. split; [|done].
      destruct (decide (k = start + i)) as [->|]; [done|lia].
Qed.

(** All [cnt] bits from [start] on are [value]. *)
Definition run (b : bitmap) (start cnt : Z) (value : bool) : Prop :=
  ∀ k, start ≤ k < start + cnt → bit b k = value.

Lemma contains_spec b start cnt value :
  bwf b → 0 ≤ start → 0 ≤ cnt → start + cnt ≤ bit_cnt b →
  ∃ r, bitmap_contains b start cnt value = Some r ∧ (r = false ↔ run b start cnt (negb value)).
Proof.
  intros Hb Hs Hc Hle. unfold bitmap_contains. rewrite in_range_true by done. cbn.
  destruct (contains_loop_spec (Z.to_nat cnt) b start 0 value) as (r & -> & Hr);
    [done|done|lia|lia|]. exists r. split; [done|].
  rewrite Z2Nat.id, Z.add_0_r in Hr by lia. unfold run. destruct r.
  - split; [done|]. intros Hrun. destruct (proj1 Hr eq_refl) as (k & Hk & Hv).
    rewrite (Hrun k Hk) in Hv. by destruct value.
  - split; [|done]. intros _ k Hk. destruct (bit b k) eqn:Hv, value; try done;
      (assert (false = true) by (apply Hr; eauto); done).
Qed.

Lemma bitmap_all_spec bm sec cnt :
  bwf bm → 0 ≤ sec → 0 ≤ cnt → sec + cnt ≤ bit_cnt bm → run bm sec cnt true →
  bitmap_all bm sec cnt = Some true.
Proof.
  intros Hb H0 Hc Hle Hrun. unfold bitmap_all.
  destruct (contains_spec bm sec cnt false) as (r & -> & Hr); [done..|]. cbn.
  apply Hr in Hrun as ->. done.
Qed.

Lemma scan_loop_spec n b i cnt value :
  bwf b → 0 ≤ i → 0 ≤ cnt → i + Z.of_nat n = bit_cnt b - cnt + 1 ∨ n = O →
  ∃ r, scan_loop n b i cnt value = Some r ∧
    ((r = BITMAP_ERROR ∧ ∀ k, i ≤ k < i + Z.of_nat n → ¬ run b k cnt value) ∨
     (i ≤ r < i + Z.of_nat n ∧ run b r cnt value ∧ ∀ k, i ≤ k < r → ¬ run b k cnt value)).
Proof.
  revert i. induction n as [|n IH]; intros i Hb Hi Hc Hn; simpl scan_loop.
  { exists BITMAP_ERROR. split; [done|]. left. split; [done|]. intros. lia. }
  destruct Hn as [Hn|]; [|done].
  destruct (contains_spec b i cnt (negb value)) as (c & -> & Hcon); [done|done|done|lia|]. cbn.
  rewrite negb_involutive in Hcon. destruct c; cbn.
  - assert (Hno : ¬ run b i cnt value) by (intros Hr; by apply Hcon in Hr).
    destruct (IH (i + 1)) as (r & -> & Hr); [done|lia|done|lia|]. exists r. split; [done|].
    destruct Hr as [[-> Hall]|(Hr & Hrun & Hmin)]; [left|right].
    + split; [done|]. intros k Hk. destruct (decide (k = i)) as [->|]; [done|apply Hall; lia].
    + split_and!; [lia|lia|done|]. intros k Hk.
      destruct (decide (k = i)) as [->|]; [done|apply Hmin; lia].
  - exists i. split; [done|]. right. split_and!; [lia|lia|by apply Hcon|]. intros. lia.
Qed.

(** The result of a search. *)
Definition first_run (b : bitmap) (start cnt : Z) (value : bool) (r : Z) : Prop :=
  (r = BITMAP_ERROR ∧ ∀ k, start ≤ k → k + cnt ≤ bit_cnt b → ¬ run b k cnt value) ∨
  (start ≤ r ∧ r + cnt ≤ bit_cnt b ∧ run b r cnt value ∧
   ∀ k, start ≤ k < r → ¬ run b k cnt value).

Lemma scan_spec b start cnt value :
  bwf b → 0 ≤ start ≤ bit_cnt b → 0 ≤ cnt →
  ∃ r, bitmap_scan b start cnt value = Some r ∧ first_run b start cnt value r.
Proof.
  intros Hb Hs Hc. unfold bitmap_scan, ASSERT, first_run. rewrite bool_decide_true by lia.
  case_bool_decide as Hle.
  2:{ exists BITMAP_ERROR. split; [done|]. left. split; [done|]. intros. lia. }
  destruct (scan_loop_spec (Z.to_nat (bit_cnt b - cnt - start + 1)) b start cnt value)
    as (r & -> & Hr); [done|lia|done|lia|]. exists r. split; [done|].
  destruct Hr as [[-> Hall]|(Hr & Hrun & Hmin)]; [left|right].
  - split; [done|]. intros k Hk1 Hk2. apply Hall. lia.
  - split_and!; [lia|lia|done|done].
Qed.

Lemma first_run_valid b start cnt value r :
  bwf b → 0 ≤ start → 0 ≤ cnt → first_run b start cnt value r → r ≠ BITMAP_ERROR →
  0 ≤ r ∧ r + cnt ≤ bit_cnt b ∧ run b r cnt value.
Proof. intros Hb Hs Hc [[-> _]|(? & ? & ? & _)] Hne; [done|]. split_and!; [lia|done|done]. Qed.

Lemma scan_and_flip_spec b start cnt value :
  bwf b → 0 ≤ start ≤ bit_cnt b → 0 ≤ cnt →
  ∃ r b', bitmap_scan_and_flip b start cnt value = Some (r, b') ∧
    first_run b start cnt value r ∧ bwf b' ∧ bit_cnt b' = bit_cnt b ∧
    ∀ k, 0 ≤ k → bit b' k =
      if decide (r ≠ BITMAP_ERROR ∧ r ≤ k < r + cnt) then negb value else bit b k.
Proof.
  intros Hb Hs Hc. unfold bitmap_scan_and_flip.
  destruct (scan_spec b start cnt value Hb Hs Hc) as (r & -> & Hr). cbn.
  case_bool_decide as Hne.
  - destruct (first_run_valid _ _ _ _ _ Hb (proj1 Hs) Hc Hr Hne) as (H0 & Hle & _).
    destruct (set_multiple_spec b r cnt (negb value) Hb H0 Hc Hle) as (b' & -> & Hb' & Hc' & Hbit).
    exists r, b'. split_and!; try done. intros k Hk. rewrite Hbit by done.
    repeat case_decide; try done; naive_solver.
  - exists r, b. split_and!; try done. intros k Hk. by rewrite decide_False by naive_solver.
Qed.

(** ** Counting and creation *)

(** The number of bits equal to [value] among [n] from [k] on. *)
Fixpoint count_from (b : bitmap) (k : Z) (n : nat) (value : bool) : Z :=
  match n with
  | O => 0
  | S n' => (if eqb (bit b k) value then 1 else 0) + count_from b (k + 1) n' value
  end.

Lemma count_from_range b k n value : 0 ≤ count_from b k n value ≤ Z.of_nat n.
Proof. revert k. induction n as [|n IH]; intros k; simpl; [lia|]. specialize (IH (k + 1)). destruct (eqb _ _); lia. Qed.

Lemma count_loop_spec n b start i value acc :
  bwf b → 0 ≤ start → 0 ≤ i → start + i + Z.of_nat n ≤ bit_cnt b →
  0 ≤ acc → acc + Z.of_nat n < 2 ^ 32 →
  count_loop n b start i value acc = Some (acc + count_from b (start + i) n value).
Proof.
  revert i acc. induction n as [|n IH]; intros i acc Hb Hs Hi Hle Ha Hn; cbn [count_loop count_from].
  { f_equal. lia. }
  pose proof (bw_cnt _ Hb). rewrite !wrap_small by lia.
  rewrite bitmap_test_bit by (done || lia). cbn.
  replace (start + i + 1) with (start + (i + 1)) by lia.
  destruct (eqb _ _); rewrite IH by (done || lia); f_equal; lia.
Qed.

Lemma create_wf n l :
  0 ≤ n ≤ 4294967264 → (Z.to_nat (elem_cnt n) ≤ length l)%nat → Forall (λ v, 0 ≤ v < 2 ^ 32) l →
  bwf (Bitmap n (take (Z.to_nat (elem_cnt n)) l)).
Proof.
  intros Hn Hl Hr. split; cbn; [done| |by apply Forall_take].
  rewrite length_take. rewrite elem_cnt_small in * by done.
  assert (0 ≤ (n + 31) / 32) by (apply Z.div_pos; lia). lia.
Qed.

(** ** Files *)

Lemma bytes_elems_bytes l :
  Forall (λ v, 0 ≤ v < 2 ^ 32) l → bytes_elems (l ≫= elem_bytes) = l.
Proof.
  induction 1 as [|v l Hv _ IH]; [done|]. cbn. rewrite IH. f_equal.
  change (2 ^ 32) with 4294967296 in Hv.
  replace (v / 65536) with (v / 256 / 256) by (rewrite Z.div_div by lia; done).
  replace (v / 16777216) with (v / 256 / 256 / 256) by (rewrite !Z.div_div by lia; done).
  set (q1 := v / 256). set (q2 := q1 / 256). set (q3 := q2 / 256).
  pose proof (Z.div_mod v 256 ltac:(lia)). pose proof (Z.div_mod q1 256 ltac:(lia)).
  pose proof (Z.div_mod q2 256 ltac:(lia)). fold q1 in H. fold q2 in H0. fold q3 in H1.
  assert (q3 mod 256 = q3).
  { apply Z.mod_small. subst q3 q2 q1. split; [repeat apply Z.div_pos; lia|].
    rewrite !Z.div_div by lia. apply Z.div_lt_upper_bound; lia. }
  lia.
Qed.

Lemma bits_bytes_length b : length (bits_bytes b) = (4 * length (bits b))%nat.
Proof. unfold bits_bytes. induction (bits b) as [|v l IH]; [done|]. cbn. rewrite IH. lia. Qed.

Lemma byte_cnt_bytes b : bwf b → byte_cnt (bit_cnt b) = Z.of_nat (length (bits_bytes b)).
Proof.
  intros Hb. rewrite bits_bytes_length. pose proof (bw_len _ Hb) as Hl. unfold byte_cnt.
  pose proof (bw_cnt _ Hb). rewrite elem_cnt_small in * by done.
  assert ((bit_cnt b + 31) / 32 < 134217728) by (apply Z.div_lt_upper_bound; lia).
  rewrite wrap_small by lia. lia.
Qed.

Lemma last_mask_testbit b n :
  0 ≤ n < 32 → Z.testbit (last_mask b) n =
    (bool_decide (bit_cnt b mod 32 = 0) || bool_decide (n < bit_cnt b mod 32)).
Proof.
  intros Hn. unfold last_mask, ELEM_BITS. pose proof (mod32 (bit_cnt b)).
  set (k := bit_cnt b mod 32) in *. case_bool_decide as Hk.
  - rewrite (bool_decide_false (k = 0)) by done. cbn [orb]. rewrite wrap_testbit by done.
    rewrite Z.shiftl_1_l, (wrap_small (2 ^ k)).
    2:{ split; [by apply Z.pow_nonneg|]. apply Z.pow_lt_mono_r; lia. }
    rewrite Z.sub_1_r, <- Z.ones_equiv. case_bool_decide.
    + apply Z.ones_spec_low. lia.
    + apply Z.ones_spec_high. lia.
  - rewrite (bool_decide_true (k = 0)) by lia. rewrite wrap_testbit by done.
    by rewrite Z.bits_m1 by lia.
Qed.

(** The last element holds the highest bits. *)
Lemma last_elem b : bwf b → 0 < bit_cnt b →
  wrap_u32 (elem_cnt (bit_cnt b) - 1) = (bit_cnt b - 1) / 32.
Proof.
  intros Hb Hp. pose proof (bw_cnt _ Hb). rewrite elem_cnt_small by done.
  replace (bit_cnt b + 31) with ((bit_cnt b - 1) + 1 * 32) by lia.
  rewrite Z.div_add by lia. rewrite wrap_small; [lia|].
  split; [pose proof (Z.div_pos (bit_cnt b - 1) 32); lia|].
  assert ((bit_cnt b - 1) / 32 ≤ bit_cnt b - 1) by (apply Z.div_le_upper_bound; lia). lia.
Qed.

(** The bits of the last element below the count. *)
Lemma last_elem_bits c k :
  0 < c → 0 ≤ k → k / 32 = (c - 1) / 32 →
  (bool_decide (c mod 32 = 0) || bool_decide (k mod 32 < c mod 32)) = bool_decide (k < c).
Proof.
  intros Hc Hk Hq. pose proof (Z.div_mod k 32 ltac:(lia)). pose proof (Z.div_mod (c - 1) 32 ltac:(lia)).
  pose proof (Z.div_mod c 32 ltac:(lia)). pose proof (mod32 k). pose proof (mod32 c).
  pose proof (mod32 (c - 1)).
  repeat case_bool_decide; cbn; try done; exfalso; nia.
Qed.

Lemma bitmap_read_spec b b0 :
  bwf b → bwf b0 → bit_cnt b0 = bit_cnt b → 0 < bit_cnt b →
  ∃ b', bitmap_read b0 (λ _, bits_bytes b) = Some (true, b') ∧ bwf b' ∧ bit_cnt b' = bit_cnt b ∧
    ∀ k, 0 ≤ k → bit b' k = (bit b k && bool_decide (k < bit_cnt b)).
Proof.
  intros Hb Hb0 Hc Hp. unfold bitmap_read. rewrite bool_decide_true by lia.
  rewrite Hc, (byte_cnt_bytes b Hb), (bool_decide_true (_ = _)) by done.
  rewrite (drop_ge (bits_bytes b0)), app_nil_r.
  2:{ rewrite !bits_bytes_length. pose proof (bw_len _ Hb). pose proof (bw_len _ Hb0).
      rewrite Hc in *. lia. }
  assert (bytes_elems (bits_bytes b) = bits b) as -> by apply bytes_elems_bytes, Hb. cbn [bit_cnt bits].
  rewrite (last_elem b Hb Hp). set (q := (bit_cnt b - 1) / 32).
  assert (Hq : (Z.to_nat q < length (bits b))%nat) by (apply idx_lt; [done|lia]).
  assert (Hq0 : 0 ≤ q) by (apply Z.div_pos; lia).
  unfold elem_get, elem_set, ASSERT. cbn [bits bit_cnt].
  destruct (lookup_lt_is_Some_2 _ _ Hq) as [v Hv]. rewrite Hv. cbn.
  rewrite bool_decide_true by done. cbn. eexists. split; [done|].
  set (mask := last_mask _). pose proof Hb as [Hcnt Hlen He]. split_and!; [|done|].
  - split; cbn; [done|by rewrite length_insert|]. apply Forall_insert; [done|].
    apply land_range; [rewrite Forall_lookup in He; by eapply He|].
    unfold mask, last_mask. case_bool_decide; apply wrap_range.
  - intros k Hk. unfold bit. cbn. pose proof (mod32 k).
    assert (Hk0 : 0 ≤ k / 32) by (apply Z.div_pos; lia).
    destruct (decide (Z.to_nat q = Z.to_nat (k / 32))) as [Heq|Hne].
    + rewrite <- Heq, list_lookup_insert_eq, Hv by done. cbn.
      rewrite Z.land_spec. unfold mask. rewrite last_mask_testbit by done. cbn [bit_cnt].
      f_equal. apply last_elem_bits; [done|done|]. fold q. lia.
    + rewrite list_lookup_insert_ne by done. destruct (bits b !! Z.to_nat (k / 32)) as [u|] eqn:Hu.
      * cbn. rewrite bool_decide_true; [by rewrite andb_true_r|].
        apply lookup_lt_Some in Hu. rewrite elem_cnt_small in Hlen by done.
        pose proof (Z.div_mod (bit_cnt b - 1) 32 ltac:(lia)) as Hd. fold q in Hd.
        pose proof (mod32 (bit_cnt b - 1)). pose proof (Z.div_mod k 32 ltac:(lia)).
        assert ((bit_cnt b + 31) / 32 = q + 1).
        { unfold q. replace (bit_cnt b + 31) with ((bit_cnt b - 1) + 1 * 32) by lia.
          by rewrite Z.div_add by lia. }
        assert (k / 32 ≠ q) by congruence. nia.
      * cbn. by rewrite Z.bits_0.
Qed.

(** ** The properties of bitmaps *)

(** [bitmap_set_multiple] gives the bits of its range the value
    and leaves every other bit as it was, also those that share an element with
    the range; the bitmap stays well formed. *)
Theorem bitmap_set_multiple_exact b start cnt value :
  bwf b → 0 ≤ start → 0 ≤ cnt → start + cnt ≤ bit_cnt b →
  ∃ b', bitmap_set_multiple b start cnt value = Some b' ∧ bwf b' ∧ bit_cnt b' = bit_cnt b ∧
    ∀ k, 0 ≤ k → bit b' k = if decide (start ≤ k < start + cnt) then value else bit b k.
Proof. apply set_multiple_spec. Qed.

(** Forty bits in two elements, the second half of the second one garbage. *)
Definition sample_bitmap : bitmap := Bitmap 40 [7; 4294901760].

Lemma sample_bitmap_wf : bwf sample_bitmap.
Proof. split; [cbn; lia|done|]. repeat constructor; cbn; lia. Qed.

Lemma bitmap_set_multiple_exact_witness :
  ∃ b', bitmap_set_multiple sample_bitmap 30 4 true = Some b' ∧ bwf b' ∧ bit b' 33 = true ∧
    bit b' 2 = true ∧ bit b' 34 = false.
Proof.
  destruct (bitmap_set_multiple_exact sample_bitmap 30 4 true sample_bitmap_wf)
    as (b' & Hr & Hb' & _ & Hbit); [lia|lia|cbn; lia|].
  exists b'. split_and!; [done|done|..]; rewrite Hbit by lia; by vm_compute.
Defined.

(** [bitmap_scan] returns the first position at or after [start]
    from which [cnt] bits in a row have the value, and [BITMAP_ERROR] exactly when
    there is none. *)
Theorem bitmap_scan_first b start cnt value :
  bwf b → 0 ≤ start ≤ bit_cnt b → 0 ≤ cnt →
  ∃ r, bitmap_scan b start cnt value = Some r ∧ first_run b start cnt value r.
Proof. apply scan_spec. Qed.

Lemma bitmap_scan_first_witness :
  ∃ r, bitmap_scan sample_bitmap 1 5 false = Some r ∧ first_run sample_bitmap 1 5 false r ∧ r = 3.
Proof.
  destruct (bitmap_scan_first sample_bitmap 1 5 false sample_bitmap_wf) as (r & Hr & Hf);
    [cbn; lia|lia|]. exists r. split_and!; [done|done|]. vm_compute in Hr. by injection Hr as <-.
Defined.

(** [bitmap_scan_and_flip] claims what [bitmap_scan] finds: on
    success exactly the bits of the found run are inverted, on failure nothing
    changes. *)
Theorem scan_and_flip_claims b start cnt value :
  bwf b → 0 ≤ start ≤ bit_cnt b → 0 ≤ cnt →
  ∃ r b', bitmap_scan_and_flip b start cnt value = Some (r, b') ∧
    first_run b start cnt value r ∧ bwf b' ∧ bit_cnt b' = bit_cnt b ∧
    ∀ k, 0 ≤ k → bit b' k =
      if decide (r ≠ BITMAP_ERROR ∧ r ≤ k < r + cnt) then negb value else bit b k.
Proof. apply scan_and_flip_spec. Qed.

Lemma scan_and_flip_claims_witness :
  ∃ b', bitmap_scan_and_flip sample_bitmap 0 5 false = Some (3, b') ∧ bwf b' ∧ bit b' 3 = true.
Proof.
  destruct (scan_and_flip_claims sample_bitmap 0 5 false sample_bitmap_wf)
    as (r & b' & Hr & _ & Hb' & _ & Hbit); [cbn; lia|lia|].
  assert (r = 3) as -> by (vm_compute in Hr; by injection Hr as <- _).
  exists b'. split_and!; [done|done|]. rewrite Hbit by lia. by vm_compute.
Defined.

(** A search for zero bits answers with the start of the search, not
    with 0. *)
Theorem scan_zero_returns_start b start value :
  bwf b → 0 ≤ start ≤ bit_cnt b → start ≠ BITMAP_ERROR →
  bitmap_scan_and_flip b start 0 value = Some (start, b).
Proof.
  intros Hb Hs Hne. pose proof (bw_cnt _ Hb). unfold bitmap_scan_and_flip, bitmap_scan, ASSERT.
  rewrite !bool_decide_true by lia.
  replace (Z.to_nat (bit_cnt b - 0 - start + 1)) with (S (Z.to_nat (bit_cnt b - start))) by lia.
  cbn [scan_loop]. unfold bitmap_contains. rewrite in_range_true by (done || lia).
  change (contains_loop (Z.to_nat 0) b start 0 (negb value)) with (Some false). cbn.
  rewrite bool_decide_true by done. unfold bitmap_set_multiple.
  rewrite in_range_true by (done || lia). done.
Qed.

Lemma scan_zero_returns_start_witness :
  bitmap_scan_and_flip sample_bitmap 9 0 true = Some (9, sample_bitmap).
Proof. apply scan_zero_returns_start; [apply sample_bitmap_wf|cbn; lia|done]. Defined.

(** A bitmap created in freshly allocated memory has all its bits
    false, whatever the memory held; creation fails only when memory is refused. *)
Theorem bitmap_create_zero n l :
  0 ≤ n ≤ 4294967264 → (Z.to_nat (elem_cnt n) ≤ length l)%nat → Forall (λ v, 0 ≤ v < 2 ^ 32) l →
  ∃ b, bitmap_create true (Some l) n = Some (Some b) ∧ bwf b ∧ bit_cnt b = n ∧
    run b 0 n false ∧ bitmap_count b 0 n true = Some 0.
Proof.
  intros Hn Hl Hr. unfold bitmap_create, bitmap_set_all, bitmap_size.
  destruct (set_multiple_spec (Bitmap n (take (Z.to_nat (elem_cnt n)) l)) 0 n false)
    as (b & Hset & Hb & Hc & Hbit); [by apply create_wf|lia|lia|cbn; lia|].
  cbn [bit_cnt] in *. rewrite Hset. cbn. exists b.
  assert (Hrun : run b 0 n false).
  { intros k Hk. rewrite Hbit by lia. by rewrite decide_True by lia. }
  split_and!; try done. unfold bitmap_count. rewrite in_range_true by (done || lia). cbn.
  rewrite count_loop_spec by (done || lia). f_equal.
  assert (Hz : ∀ m k, 0 ≤ k → k + Z.of_nat m ≤ n → count_from b k m true = 0).
  { intros m. induction m as [|m IH]; intros k Hk Hm; [done|]. cbn.
    rewrite (Hrun k) by lia. cbn. apply IH; lia. }
  rewrite Hz by lia. done.
Qed.

Lemma bitmap_create_zero_witness :
  ∃ b, bitmap_create true (Some [4294967295; 4294967295; 12]) 40 = Some (Some b) ∧ bwf b ∧
    run b 0 40 false.
Proof.
  destruct (bitmap_create_zero 40 [4294967295; 4294967295; 12]) as (b & Hr & Hb & _ & Hrun & _).
  - lia.
  - vm_compute. lia.
  - repeat constructor; cbn; lia.
  - exists b. exact (conj Hr (conj Hb Hrun)).
Defined.

(** What [bitmap_write] writes to a file is all of the bitmap, and
    [bitmap_read] of it into any bitmap of the same size restores every bit and
    clears the unused bits of the last element. *)
Theorem bitmap_file_roundtrip b b0 :
  bwf b → bwf b0 → bit_cnt b0 = bit_cnt b → 0 < bit_cnt b →
  bitmap_write b (λ l, Z.of_nat (length l)) = true ∧
  take (Z.to_nat (bitmap_file_size b)) (bits_bytes b) = bits_bytes b ∧
  ∃ b', bitmap_read b0 (λ _, bits_bytes b) = Some (true, b') ∧ bwf b' ∧ bit_cnt b' = bit_cnt b ∧
    ∀ k, 0 ≤ k → bit b' k = (bit b k && bool_decide (k < bit_cnt b)).
Proof.
  intros Hb Hb0 Hc Hp. unfold bitmap_write, bitmap_file_size. rewrite (byte_cnt_bytes b Hb), Nat2Z.id, firstn_all.
  split_and!; [by apply bool_decide_eq_true|done|]. by apply bitmap_read_spec.
Qed.

Lemma bitmap_file_roundtrip_witness :
  ∃ b', bitmap_read (Bitmap 40 [0; 5]) (λ _, bits_bytes sample_bitmap) = Some (true, b') ∧
    bit b' 2 = true ∧ bit b' 50 = false.
Proof.
  destruct (bitmap_file_roundtrip sample_bitmap (Bitmap 40 [0; 5]) sample_bitmap_wf)
    as (_ & _ & b' & Hr & _ & _ & Hbit).
  - split; [cbn; lia|done|]. repeat constructor; cbn; lia.
  - done.
  - cbn. lia.
  - exists b'. split_and!; [done|..]; rewrite Hbit by lia; by vm_compute.
Defined.
