(* ===== verification/FileSys.v ===== *)
(** * Pintos: the file system

    [Project_3/filesys]: [inode.c], [file.c], [free-map.c], [directory.c] and
    [filesys.c], over the block device of [devices/block.c] and the bitmaps of
    [Bitmap].  The state holds the disk as a list of sectors of 512 bytes, the free
    map, and heaps of open inodes, files and directories; pointers are locations.
    [mem] is the sequence of answers of [malloc] and [calloc], and [stack] what an
    uninitialised local [struct dir_entry] happens to hold.

    A failed [ASSERT], a [PANIC], a dangling pointer and a signed overflow of
    [off_t] are undefined behaviour of the model.  Bytes are integers from 0 to
    255; a buffer that a function fills is the list of bytes it stored, in front of
    which the caller keeps what it had. *)

From S2P Require Import Prelude Bitmap.
From stdpp Require Import base tactics list gmap.
From Stdlib Require Import ZArith Lia.

Local Open Scope Z_scope.

Abbreviation floc := positive.

(** ** State *)

Definition BLOCK_SECTOR_SIZE : Z := 512.
Definition INODE_MAGIC : Z := 1229868868.
Definition FREE_MAP_SECTOR : Z := 0.
Definition ROOT_DIR_SECTOR : Z := 1.
Definition NAME_MAX : nat := 14.

(** [struct inode_disk], without its unused part. *)
Record inode_disk := InodeDisk { start : Z; length_ : Z; magic : Z }.

Record inode := Inode {
  sector : Z;
  open_cnt : Z;
  removed : bool;
  deny_write_cnt : Z;
  data : inode_disk
}.

Record file := File { f_inode : floc; f_pos : Z; deny_write : bool }.

Record dir := Dir { dir_inode : floc; dir_pos : Z }.

Record fs := Fs {
  disk : list (list Z);
  free_map : bitmap;
  free_map_file : option floc;
  open_inodes : list floc;
  inodes : gmap floc inode;
  files : gmap floc file;
  dirs : gmap floc dir;
  mem : list bool;
  stack : list Z
}.

Definition with_disk (x : list (list Z)) (s : fs) : fs :=
  Fs x (free_map s) (free_map_file s) (open_inodes s) (inodes s) (files s) (dirs s) (mem s) (stack s).
Definition with_free_map (x : bitmap) (s : fs) : fs :=
  Fs (disk s) x (free_map_file s) (open_inodes s) (inodes s) (files s) (dirs s) (mem s) (stack s).
Definition with_free_map_file (x : option floc) (s : fs) : fs :=
  Fs (disk s) (free_map s) x (open_inodes s) (inodes s) (files s) (dirs s) (mem s) (stack s).
Definition with_open (x : list floc) (s : fs) : fs :=
  Fs (disk s) (free_map s) (free_map_file s) x (inodes s) (files s) (dirs s) (mem s) (stack s).
Definition with_inodes (x : gmap floc inode) (s : fs) : fs :=
  Fs (disk s) (free_map s) (free_map_file s) (open_inodes s) x (files s) (dirs s) (mem s) (stack s).
Definition with_files (x : gmap floc file) (s : fs) : fs :=
  Fs (disk s) (free_map s) (free_map_file s) (open_inodes s) (inodes s) x (dirs s) (mem s) (stack s).
Definition with_dirs (x : gmap floc dir) (s : fs) : fs :=
  Fs (disk s) (free_map s) (free_map_file s) (open_inodes s) (inodes s) (files s) x (mem s) (stack s).
Definition with_mem (x : list bool) (s : fs) : fs :=
  Fs (disk s) (free_map s) (free_map_file s) (open_inodes s) (inodes s) (files s) (dirs s) x (stack s).

Definition set_open_cnt (x : Z) (i : inode) : inode :=
  Inode (sector i) x (removed i) (deny_write_cnt i) (data i).
Definition set_removed (i : inode) : inode :=
  Inode (sector i) (open_cnt i) true (deny_write_cnt i) (data i).
Definition set_deny_cnt (x : Z) (i : inode) : inode :=
  Inode (sector i) (open_cnt i) (removed i) x (data i).

(** The next answer of the allocator; it grants what no answer is left for. *)
Definition malloc : M fs bool :=
  m ← gets mem;
  match m with
  | [] => mret true
  | a :: m' => modify (with_mem m');; mret a
  end.

Definition get_inode (l : floc) : M fs inode := h ← gets inodes; assume_some (h !! l).
Definition put_inode (l : floc) (i : inode) : M fs unit :=
  modify (λ s, with_inodes (<[l := i]> (inodes s)) s).
Definition get_file (l : floc) : M fs file := h ← gets files; assume_some (h !! l).
Definition put_file (l : floc) (f : file) : M fs unit :=
  modify (λ s, with_files (<[l := f]> (files s)) s).
Definition get_dir (l : floc) : M fs dir := h ← gets dirs; assume_some (h !! l).
Definition put_dir (l : floc) (d : dir) : M fs unit :=
  modify (λ s, with_dirs (<[l := d]> (dirs s)) s).

(** ** block.c *)

(** [check_sector] panics past the end of the device. *)
Definition block_read (sec : Z) : M fs (list Z) :=
  check (bool_decide (0 ≤ sec));;
  d ← gets disk; assume_some (d !! Z.to_nat sec).

Definition block_write (sec : Z) (buf : list Z) : M fs unit :=
  check (bool_decide (0 ≤ sec));;
  d ← gets disk;
  check (bool_decide (Z.to_nat sec < length d)%nat);;
  modify (with_disk (<[Z.to_nat sec := buf]> d)).

(** ** inode.c: reading and writing *)

(** A value of type [off_t]. *)
Definition off (z : Z) : M fs Z := check (bool_decide (INT_MIN ≤ z ≤ INT_MAX));; mret z.

(** [DIV_ROUND_UP(size, BLOCK_SECTOR_SIZE)] *)
Definition bytes_to_sectors (size : Z) : M fs Z :=
  n ← off (size + BLOCK_SECTOR_SIZE); mret (Z.quot (n - 1) BLOCK_SECTOR_SIZE).

Definition byte_to_sector (i : inode) (pos : Z) : Z :=
  if bool_decide (pos < length_ (data i)) then
    wrap_u32 (start (data i) + Z.quot pos BLOCK_SECTOR_SIZE)
  else wrap_u32 (-1).

Definition inode_length (i : inode) : Z := length_ (data i).

(** The part of a loop turn that [inode_read_at] and [inode_write_at] share: the
    sector, the offset in it, the bytes left in it and the size of the chunk. *)
Definition chunk (i : inode) (size offset : Z) : M fs (Z * Z * Z * Z) :=
  let sector_idx := byte_to_sector i offset in
  let sector_ofs := Z.rem offset BLOCK_SECTOR_SIZE in
  inode_left ← off (inode_length i - offset);
  let sector_left := BLOCK_SECTOR_SIZE - sector_ofs in
  let min_left := if bool_decide (inode_left < sector_left) then inode_left else sector_left in
  let chunk_size := if bool_decide (size < min_left) then size else min_left in
  mret (sector_idx, sector_ofs, sector_left, chunk_size).

(** [if (bounce == NULL) { bounce = malloc(...); if (bounce == NULL) break; }] *)
Definition bounce_buf (bounce : bool) : M fs bool := if bounce then mret true else malloc.

(** The copy of one chunk out of a sector: its bytes and whether there is a bounce
    buffer now, or [None] when there is no memory for one. *)
Definition read_sector (bounce : bool) (sector_idx sector_ofs chunk_size : Z)
    : M fs (option (list Z * bool)) :=
  if bool_decide (sector_ofs = 0) && bool_decide (chunk_size = BLOCK_SECTOR_SIZE) then
    sec ← block_read sector_idx; mret (Some (sec, bounce))
  else
    ok ← bounce_buf bounce;
    if (ok : bool) then
      sec ← block_read sector_idx;
      check (bool_decide (0 ≤ sector_ofs));;
      mret (Some (take (Z.to_nat chunk_size) (drop (Z.to_nat sector_ofs) sec), true))
    else mret None.

(** The bytes that have been stored into the buffer; their number is the result. *)
Definition inode_read_at (l : floc) (size offset : Z) : M fs (list Z) :=
  loop (S (Z.to_nat size))
    (λ '(size, offset, buffer, bounce),
       if bool_decide (0 < size) then
         i ← get_inode l;
         '(sector_idx, sector_ofs, sector_left, chunk_size) ← chunk i size offset;
         if bool_decide (chunk_size ≤ 0) then mret (inr buffer)
         else
           r ← read_sector bounce sector_idx sector_ofs chunk_size;
           match r with
           | Some (bs, bounce) =>
               mret (inl (size - chunk_size, offset + chunk_size, buffer ++ bs, bounce))
           | None => mret (inr buffer)
           end
       else mret (inr buffer)) (size, offset, [], false).

(** The copy of one chunk [src] into a sector. *)
Definition write_sector (bounce : bool) (sector_idx sector_ofs sector_left chunk_size : Z)
    (src : list Z) : M fs (option bool) :=
  if bool_decide (sector_ofs = 0) && bool_decide (chunk_size = BLOCK_SECTOR_SIZE) then
    block_write sector_idx src;; mret (Some bounce)
  else
    ok ← bounce_buf bounce;
    if (ok : bool) then
      check (bool_decide (0 ≤ sector_ofs));;
      sec ← (if bool_decide (0 < sector_ofs) || bool_decide (chunk_size < sector_left)
             then block_read sector_idx
             else mret (replicate 512 0));
      block_write sector_idx (overwrite (Z.to_nat sector_ofs) src sec);;
      mret (Some true)
    else mret None.

Definition inode_write_at (l : floc) (buffer : list Z) (size offset : Z) : M fs Z :=
  i ← get_inode l;
  if bool_decide (deny_write_cnt i ≠ 0) then mret 0
  else
    loop (S (Z.to_nat size))
      (λ '(size, offset, bytes_written, bounce),
         if bool_decide (0 < size) then
           i ← get_inode l;
           '(sector_idx, sector_ofs, sector_left, chunk_size) ← chunk i size offset;
           if bool_decide (chunk_size ≤ 0) then mret (inr bytes_written)
           else
             let src := take (Z.to_nat chunk_size) (drop (Z.to_nat bytes_written) buffer) in
             check (bool_decide (Z.of_nat (length src) = chunk_size));;
             r ← write_sector bounce sector_idx sector_ofs sector_left chunk_size src;
             match r with
             | Some bounce =>
                 mret (inl (size - chunk_size, offset + chunk_size, bytes_written + chunk_size, bounce))
             | None => mret (inr bytes_written)
             end
         else mret (inr bytes_written)) (size, offset, 0, false).

Definition inode_deny_write (l : floc) : M fs unit :=
  i ← get_inode l;
  put_inode l (set_deny_cnt (deny_write_cnt i + 1) i);;
  check (bool_decide (deny_write_cnt i + 1 ≤ open_cnt i)).

Definition inode_allow_write (l : floc) : M fs unit :=
  i ← get_inode l;
  check (bool_decide (0 < deny_write_cnt i));;
  check (bool_decide (deny_write_cnt i ≤ open_cnt i));;
  put_inode l (set_deny_cnt (deny_write_cnt i - 1) i).

Definition inode_remove (l : floc) : M fs unit :=
  i ← get_inode l; put_inode l (set_removed i).

Definition inode_get_inumber (l : floc) : M fs Z := i ← get_inode l; mret (sector i).

(** ** file.c: reading and writing *)

Definition file_read_at (l : floc) (size file_ofs : Z) : M fs (list Z) :=
  f ← get_file l; inode_read_at (f_inode f) size file_ofs.

Definition file_read (l : floc) (size : Z) : M fs (list Z) :=
  f ← get_file l;
  buf ← inode_read_at (f_inode f) size (f_pos f);
  put_file l (File (f_inode f) (f_pos f + Z.of_nat (length buf)) (deny_write f));;
  mret buf.

Definition file_write_at (l : floc) (buffer : list Z) (size file_ofs : Z) : M fs Z :=
  f ← get_file l; inode_write_at (f_inode f) buffer size file_ofs.

Definition file_write (l : floc) (buffer : list Z) (size : Z) : M fs Z :=
  f ← get_file l;
  n ← inode_write_at (f_inode f) buffer size (f_pos f);
  put_file l (File (f_inode f) (f_pos f + n) (deny_write f));;
  mret n.

Definition file_deny_write (l : floc) : M fs unit :=
  f ← get_file l;
  if deny_write f then mret tt
  else put_file l (File (f_inode f) (f_pos f) true);; inode_deny_write (f_inode f).

Definition file_allow_write (l : floc) : M fs unit :=
  f ← get_file l;
  if deny_write f then put_file l (File (f_inode f) (f_pos f) false);; inode_allow_write (f_inode f)
  else mret tt.

Definition file_length (l : floc) : M fs Z :=
  f ← get_file l; i ← get_inode (f_inode f); mret (inode_length i).

Definition file_seek (l : floc) (new_pos : Z) : M fs unit :=
  check (bool_decide (0 ≤ new_pos));;
  f ← get_file l; put_file l (File (f_inode f) new_pos (deny_write f)).

Definition file_tell (l : floc) : M fs Z := f ← get_file l; mret (f_pos f).

(** ** free-map.c: allocation *)

(** [bitmap_write(free_map, free_map_file)]; a null file would be dereferenced. *)
Definition free_map_write : M fs bool :=
  bm ← gets free_map;
  ff ← gets free_map_file;
  f ← assume_some ff;
  n ← file_write_at f (bits_bytes bm) (bitmap_file_size bm) 0;
  mret (bitmap_write bm (λ _, n)).

(** [Some sector] is the result [true] with [*sectorp = sector]. *)
Definition free_map_allocate (cnt : Z) : M fs (option Z) :=
  bm ← gets free_map;
  '(sec, bm) ← assume_some (bitmap_scan_and_flip bm 0 cnt false);
  modify (with_free_map bm);;
  ff ← gets free_map_file;
  failed ← (if bool_decide (sec ≠ BITMAP_ERROR) && bool_decide (ff ≠ None)
            then ok ← free_map_write; mret (negb ok)
            else mret false);
  if (failed : bool) then
    bm ← gets free_map;
    bm ← assume_some (bitmap_set_multiple bm sec cnt false);
    modify (with_free_map bm);; mret None
  else mret (if bool_decide (sec ≠ BITMAP_ERROR) then Some sec else None).

Definition free_map_release (sec cnt : Z) : M fs unit :=
  bm ← gets free_map;
  all ← assume_some (bitmap_all bm sec cnt);
  check all;;
  bm ← assume_some (bitmap_set_multiple bm sec cnt false);
  modify (with_free_map bm);;
  free_map_write;; mret tt.

(** ** inode.c: creating, opening, closing *)

(** The sector of an on-disk inode, and back. *)
Definition encode_inode (d : inode_disk) : list Z :=
  elem_bytes (start d) ++ elem_bytes (wrap_u32 (length_ d)) ++ elem_bytes (magic d) ++ replicate 500 0.

Definition signed (z : Z) : Z := if bool_decide (z < 2147483648) then z else z - 4294967296.

Definition decode_inode (sec : list Z) : inode_disk :=
  match bytes_elems (take 12 sec) with
  | [s; l; m] => InodeDisk s (signed l) m
  | _ => InodeDisk 0 0 0
  end.

(** [for (i = 0; i < sectors; i++) block_write(fs_device, start + i, zeros);] *)
Fixpoint zero_sectors (n : nat) (sec : Z) : M fs unit :=
  match n with
  | O => mret tt
  | S n' => block_write (wrap_u32 sec) (replicate 512 0);; zero_sectors n' (sec + 1)
  end.

Definition inode_create (sec length : Z) : M fs bool :=
  check (bool_decide (0 ≤ length));;
  ok ← malloc;
  if (ok : bool) then
    sectors ← bytes_to_sectors length;
    r ← free_map_allocate sectors;
    match r with
    | Some st =>
        block_write sec (encode_inode (InodeDisk st length INODE_MAGIC));;
        (if bool_decide (0 < sectors) then zero_sectors (Z.to_nat sectors) st else mret tt);;
        mret true
    | None => mret false
    end
  else mret false.

(** The first open inode for the sector. *)
Fixpoint find_open (h : gmap floc inode) (ls : list floc) (sec : Z) : option (option floc) :=
  match ls with
  | [] => Some None
  | l :: ls' =>
      match h !! l with
      | None => None
      | Some i => if bool_decide (sector i = sec) then Some (Some l) else find_open h ls' sec
      end
  end.

Definition inode_reopen (o : option floc) : M fs (option floc) :=
  match o with
  | Some l => i ← get_inode l; put_inode l (set_open_cnt (open_cnt i + 1) i);; mret (Some l)
  | None => mret None
  end.

Definition inode_open (sec : Z) : M fs (option floc) :=
  h ← gets inodes;
  ls ← gets open_inodes;
  found ← assume_some (find_open h ls sec);
  match found with
  | Some l => inode_reopen (Some l)
  | None =>
      ok ← malloc;
      if (ok : bool) then
        h ← gets inodes;
        let l := fresh (dom h) in
        modify (λ s, with_open (l :: open_inodes s) s);;
        raw ← block_read sec;
        put_inode l (Inode sec 1 false 0 (decode_inode raw));;
        mret (Some l)
      else mret None
  end.

Definition inode_close (o : option floc) : M fs unit :=
  match o with
  | None => mret tt
  | Some l =>
      i ← get_inode l;
      put_inode l (set_open_cnt (open_cnt i - 1) i);;
      if bool_decide (open_cnt i - 1 = 0) then
        modify (λ s, with_open (filter (λ k, k ≠ l) (open_inodes s)) s);;
        (if removed i then
           free_map_release (sector i) 1;;
           sectors ← bytes_to_sectors (length_ (data i));
           free_map_release (start (data i)) sectors
         else mret tt);;
        modify (λ s, with_inodes (delete l (inodes s)) s)
      else mret tt
  end.

(** ** file.c: opening and closing *)

Definition file_open (o : option floc) : M fs (option floc) :=
  ok ← malloc;
  match o, ok with
  | Some i, true =>
      h ← gets files;
      let l := fresh (dom h) in
      put_file l (File i 0 false);; mret (Some l)
  | _, _ => inode_close o;; mret None
  end.

Definition file_reopen (l : floc) : M fs (option floc) :=
  f ← get_file l; o ← inode_reopen (Some (f_inode f)); file_open o.

Definition file_close (o : option floc) : M fs unit :=
  match o with
  | Some l =>
      file_allow_write l;;
      f ← get_file l;
      inode_close (Some (f_inode f));;
      modify (λ s, with_files (delete l (files s)) s)
  | None => mret tt
  end.

(** ** free-map.c: the map on disk *)

(** [mem1] is the answer for the structure, [raw] the memory for the elements. *)
Definition free_map_init (mem1 : bool) (raw : option (list Z)) : M fs unit :=
  d ← gets disk;
  o ← assume_some (bitmap_create mem1 raw (Z.of_nat (length d)));
  bm ← assume_some o;
  bm ← assume_some (bitmap_mark bm FREE_MAP_SECTOR);
  bm ← assume_some (bitmap_mark bm ROOT_DIR_SECTOR);
  modify (with_free_map bm).

Definition open_free_map_file : M fs floc :=
  o ← inode_open FREE_MAP_SECTOR;
  f ← file_open o;
  modify (with_free_map_file f);;
  assume_some f.

Definition free_map_open : M fs unit :=
  f ← open_free_map_file;
  bm ← gets free_map;
  buf ← (if bool_decide (0 < bit_cnt bm) then file_read_at f (bitmap_file_size bm) 0 else mret []);
  '(ok, bm) ← assume_some (bitmap_read bm (λ _, buf));
  modify (with_free_map bm);;
  check ok.

Definition free_map_close : M fs unit := f ← gets free_map_file; file_close f.

Definition free_map_create : M fs unit :=
  bm ← gets free_map;
  ok ← inode_create FREE_MAP_SECTOR (bitmap_file_size bm);
  check ok;;
  open_free_map_file;;
  ok ← free_map_write;
  check ok.

(** ** directory.c *)

(** [sizeof (struct dir_entry)]: a sector number, 15 characters, a flag. *)
Definition ENTRY_SIZE : Z := 20.

Definition e_sector (e : list Z) : Z := default 0 (head (bytes_elems (take 4 e))).
Definition e_in_use (e : list Z) : bool := bool_decide (default 0 (e !! 19%nat) ≠ 0).

(** A C string in a list of bytes. *)
Fixpoint zstr (l : list Z) : list Z :=
  match l with
  | [] => []
  | c :: l' => if bool_decide (c = 0) then [] else c :: zstr l'
  end.

(** The array [e.name] and the string in it. *)
Definition e_field (e : list Z) : list Z := take 15 (drop 4 e).
Definition e_name (e : list Z) : list Z := zstr (e_field e).

(** [strcmp(name, e.name)] reads past the array when the array holds no terminator
    and [name] begins with all of it. *)
Definition strcmp_inside (name e : list Z) : bool :=
  bool_decide (length (e_name e) < 15)%nat || negb (bool_decide (take 15 (zstr name) = e_field e)).

(** [strlcpy(e.name, name, sizeof e.name)] *)
Definition set_name (name e : list Z) : list Z :=
  let dst := take NAME_MAX (zstr name) in overwrite 4 (dst ++ [0]) e.
Definition set_in_use (x : bool) (e : list Z) : list Z := overwrite 19 [if x then 1 else 0] e.
Definition set_sector (sec : Z) (e : list Z) : list Z := overwrite 0 (elem_bytes sec) e.

(** [inode_read_at(dir->inode, &e, sizeof e, ofs) == sizeof e], with what [e]
    holds afterwards. *)
Definition read_entry (i : floc) (e : list Z) (ofs : Z) : M fs (bool * list Z) :=
  buf ← inode_read_at i ENTRY_SIZE ofs;
  mret (bool_decide (Z.of_nat (length buf) = ENTRY_SIZE), buf ++ drop (length buf) e).

(** The number of entries bounds the loops over a directory. *)
Definition entry_fuel (i : floc) : M fs nat :=
  ino ← get_inode i; mret (S (Z.to_nat (length_ (data ino)))).

(** [Some (e, ofs)] is the result [true]. *)
Definition lookup (l : floc) (name : list Z) : M fs (option (list Z * Z)) :=
  d ← get_dir l;
  fuel ← entry_fuel (dir_inode d);
  e0 ← gets stack;
  loop fuel
    (λ '(e, ofs),
       '(full, e) ← read_entry (dir_inode d) e ofs;
       if (full : bool) then
         if e_in_use e then
           check (strcmp_inside name e);;
           if bool_decide (zstr name = e_name e) then mret (inr (Some (e, ofs)))
           else mret (inl (e, ofs + ENTRY_SIZE))
         else mret (inl (e, ofs + ENTRY_SIZE))
       else mret (inr None)) (e0, 0).

Definition dir_lookup (l : floc) (name : list Z) : M fs (option floc) :=
  r ← lookup l name;
  match r with
  | Some (e, _) => inode_open (e_sector e)
  | None => mret None
  end.

(** The offset of the first free slot or the end of the file, and [e]. *)
Definition free_slot (i : floc) : M fs (list Z * Z) :=
  fuel ← entry_fuel i;
  e0 ← gets stack;
  loop fuel
    (λ '(e, ofs),
       '(full, e) ← read_entry i e ofs;
       if (full : bool) && e_in_use e then mret (inl (e, ofs + ENTRY_SIZE))
       else mret (inr (e, ofs))) (e0, 0).

Definition dir_add (l : floc) (name : list Z) (inode_sector : Z) : M fs bool :=
  if bool_decide (zstr name = []) || bool_decide (NAME_MAX < length (zstr name))%nat then mret false
  else
    r ← lookup l name;
    match r with
    | Some _ => mret false
    | None =>
        d ← get_dir l;
        '(e, ofs) ← free_slot (dir_inode d);
        let e := set_sector inode_sector (set_name name (set_in_use true e)) in
        n ← inode_write_at (dir_inode d) e ENTRY_SIZE ofs;
        mret (bool_decide (n = ENTRY_SIZE))
    end.

Definition dir_remove (l : floc) (name : list Z) : M fs bool :=
  r ← lookup l name;
  match r with
  | None => inode_close None;; mret false
  | Some (e, ofs) =>
      o ← inode_open (e_sector e);
      match o with
      | None => inode_close None;; mret false
      | Some i =>
          d ← get_dir l;
          n ← inode_write_at (dir_inode d) (set_in_use false e) ENTRY_SIZE ofs;
          if bool_decide (n ≠ ENTRY_SIZE) then inode_close (Some i);; mret false
          else inode_remove i;; inode_close (Some i);; mret true
      end
  end.

(** [Some name] is the result [true]. *)
Definition dir_readdir (l : floc) : M fs (option (list Z)) :=
  d ← get_dir l;
  fuel ← entry_fuel (dir_inode d);
  e0 ← gets stack;
  loop fuel
    (λ e,
       d ← get_dir l;
       '(full, e) ← read_entry (dir_inode d) e (dir_pos d);
       if (full : bool) then
         put_dir l (Dir (dir_inode d) (dir_pos d + ENTRY_SIZE));;
         if e_in_use e then
           (* strlcpy(name, e.name, NAME_MAX + 1), which looks for the end of e.name *)
           check (bool_decide (length (e_name e) < 15)%nat);;
           mret (inr (Some (take NAME_MAX (e_name e))))
         else mret (inl e)
       else mret (inr None)) e0.

Definition dir_create (sec entry_cnt : Z) : M fs bool :=
  inode_create sec (signed (wrap_u32 (entry_cnt * ENTRY_SIZE))).

Definition dir_open (o : option floc) : M fs (option floc) :=
  ok ← malloc;
  match o, ok with
  | Some i, true =>
      h ← gets dirs;
      let l := fresh (dom h) in
      put_dir l (Dir i 0);; mret (Some l)
  | _, _ => inode_close o;; mret None
  end.

Definition dir_open_root : M fs (option floc) := o ← inode_open ROOT_DIR_SECTOR; dir_open o.

Definition dir_reopen (l : floc) : M fs (option floc) :=
  d ← get_dir l; o ← inode_reopen (Some (dir_inode d)); dir_open o.

Definition dir_close (o : option floc) : M fs unit :=
  match o with
  | Some l =>
      d ← get_dir l;
      inode_close (Some (dir_inode d));;
      modify (λ s, with_dirs (delete l (dirs s)) s)
  | None => mret tt
  end.

(** ** filesys.c *)

Definition do_format : M fs unit :=
  free_map_create;;
  ok ← dir_create ROOT_DIR_SECTOR 16;
  check ok;;
  free_map_close.

Definition filesys_init (mem1 : bool) (raw : option (list Z)) (format : bool) : M fs unit :=
  modify (with_open []);;
  free_map_init mem1 raw;;
  (if format then do_format else mret tt);;
  free_map_open.

Definition filesys_done : M fs unit := free_map_close.

Definition filesys_create (name : list Z) (initial_size : Z) : M fs bool :=
  o ← dir_open_root;
  '(success, inode_sector) ←
    match o with
    | None => mret (false, 0)
    | Some d =>
        r ← free_map_allocate 1;
        match r with
        | None => mret (false, 0)
        | Some sec =>
            ok ← inode_create sec initial_size;
            if (ok : bool) then ok ← dir_add d name sec; mret (ok, sec) else mret (false, sec)
        end
    end;
  (if negb success && bool_decide (inode_sector ≠ 0) then free_map_release inode_sector 1
   else mret tt);;
  dir_close o;;
  mret success.

Definition filesys_open (name : list Z) : M fs (option floc) :=
  o ← dir_open_root;
  i ← match o with Some d => dir_lookup d name | None => mret None end;
  dir_close o;;
  file_open i.

Definition filesys_remove (name : list Z) : M fs bool :=
  o ← dir_open_root;
  success ← match o with Some d => dir_remove d name | None => mret false end;
  dir_close o;;
  mret success.
