(* ===== verification/FileSysProps.v ===== *)
(** * Pintos: what the file system guarantees

    The bytes of a file are the first [length] bytes of the run of sectors that its
    inode names ([content]).  [inode_read_at] returns a range of them,
    [inode_write_at] overwrites a range of them and nothing else on the disk; the
    free map hands out sectors that are free; an inode has one structure in memory
    however often it is opened. *)

From S2P Require Import Prelude Bitmap BitmapProps FileSys.
From stdpp Require Import base tactics list gmap.
From Stdlib Require Import ZArith Lia Zquot.

Local Open Scope Z_scope.

(** ** Runs of sectors as one array of bytes *)

Definition full_sectors (d : list (list Z)) : Prop := Forall (λ sec, length sec = 512%nat) d.

Lemma mjoin_cons (sec : list Z) d : mjoin (sec :: d) = sec ++ mjoin d.
Proof. done. Qed.

Lemma mjoin_length d : full_sectors d → length (mjoin d) = (512 * length d)%nat.
Proof. induction 1 as [|sec d Hsec _ IH]; [done|].
  rewrite mjoin_cons, length_app, IH, Hsec. cbn [length]. lia. Qed.

Lemma mjoin_drop d q :
  full_sectors d → drop (512 * q) (mjoin d) = mjoin (drop q d).
Proof.
  intros Hd. revert q. induction Hd as [|sec d Hsec _ IH]; intros q.
  - rewrite drop_nil. change (mjoin []) with (@nil Z). apply drop_nil.
  - destruct q as [|q]; [by rewrite Nat.mul_0_r|]. cbn [drop]. rewrite mjoin_cons.
    rewrite <- (IH q).
    replace (512 * S q)%nat with (length sec + 512 * q)%nat by lia.
    by rewrite drop_app_add.
Qed.

Lemma mjoin_take d q :
  full_sectors d → take (512 * q) (mjoin d) = mjoin (take q d).
Proof.
  intros Hd. revert q. induction Hd as [|sec d Hsec _ IH]; intros q.
  - rewrite take_nil. change (mjoin []) with (@nil Z). apply take_nil.
  - destruct q as [|q]; [by rewrite Nat.mul_0_r|]. cbn [take]. rewrite !mjoin_cons.
    rewrite <- (IH q).
    replace (512 * S q)%nat with (length sec + 512 * q)%nat by lia.
    by rewrite take_app_add.
Qed.

(** A range inside one sector. *)
Lemma mjoin_chunk d q r n sec :
  full_sectors d → d !! q = Some sec → (r + n ≤ 512)%nat →
  take n (drop (512 * q + r) (mjoin d)) = take n (drop r sec).
Proof.
  intros Hd Hq Hr.
  rewrite <- drop_drop, mjoin_drop by done.
  rewrite (drop_S _ _ _ Hq), mjoin_cons.
  assert (length sec = 512%nat) as Hlen by (eapply Forall_lookup_1 in Hd; eauto).
  rewrite drop_app_le by lia. apply take_app_le. rewrite length_drop. lia.
Qed.

(** Overwriting inside one sector is overwriting the array. *)
Lemma mjoin_overwrite d q r src sec :
  full_sectors d → d !! q = Some sec → (r + length src ≤ 512)%nat →
  mjoin (<[q := overwrite r src sec]> d) = overwrite (512 * q + r) src (mjoin d).
Proof.
  intros Hd Hq Hr.
  assert (length sec = 512%nat) as Hlen by (eapply Forall_lookup_1 in Hd; eauto).
  rewrite <- (take_drop_middle _ _ _ Hq) at 1.
  rewrite list_insert_middle by (rewrite length_take; apply lookup_lt_Some in Hq; lia).
  rewrite join_app, mjoin_cons.
  rewrite <- mjoin_take, <- mjoin_drop by done.
  assert (mjoin d = take (512 * q) (mjoin d) ++ sec ++ drop (512 * S q) (mjoin d)) as Hsplit.
  { rewrite mjoin_take, mjoin_drop by done.
    rewrite <- (take_drop_middle _ _ _ Hq) at 1. by rewrite join_app. }
  assert (length (take (512 * q) (mjoin d)) = (512 * q)%nat) as Hp.
  { rewrite length_take, mjoin_length by done. apply lookup_lt_Some in Hq. lia. }
  set (p := take (512 * q) (mjoin d)) in *. set (t := drop (512 * S q) (mjoin d)) in *.
  rewrite Hsplit. unfold overwrite. rewrite <- Hp.
  rewrite take_app_add. rewrite <- Nat.add_assoc, drop_app_add.
  rewrite take_app_le by lia. rewrite drop_app_le by lia. by rewrite <- !app_assoc.
Qed.

(** ** Inodes on a disk *)

(** The number of sectors of a file. *)
Definition nsec (i : inode) : nat := Z.to_nat ((length_ (data i) + 511) / 512).

Record disk_ok (d : list (list Z)) : Prop := {
  dk_full : full_sectors d;
  dk_size : Z.of_nat (length d) < 2 ^ 32
}.

(** The inode names a run of sectors of the disk. *)
Record inode_ok (d : list (list Z)) (i : inode) : Prop := {
  io_start : 0 ≤ start (data i);
  io_length : 0 ≤ length_ (data i) ≤ INT_MAX;
  io_fits : (Z.to_nat (start (data i)) + nsec i ≤ length d)%nat
}.

(** The bytes of the sectors of a file, and those of the file. *)
Definition area (d : list (list Z)) (i : inode) : list Z :=
  mjoin (take (nsec i) (drop (Z.to_nat (start (data i))) d)).

Definition content (d : list (list Z)) (i : inode) : list Z :=
  take (Z.to_nat (length_ (data i))) (area d i).

(** Memory is never refused. *)
Definition grants (s : fs) : Prop := Forall (λ a, a = true) (mem s).

Lemma run_full d i :
  disk_ok d → full_sectors (take (nsec i) (drop (Z.to_nat (start (data i))) d)).
Proof. intros [Hd _]. apply Forall_take, Forall_drop, Hd. Qed.

Lemma area_length d i : disk_ok d → inode_ok d i → length (area d i) = (512 * nsec i)%nat.
Proof.
  intros Hd [??]. unfold area. rewrite mjoin_length by by apply run_full.
  rewrite length_take, length_drop. lia.
Qed.

Lemma content_length d i :
  disk_ok d → inode_ok d i → length (content d i) = Z.to_nat (length_ (data i)).
Proof.
  intros Hd Hi. unfold content. rewrite length_take, area_length by done.
  destruct Hi. unfold nsec in *. apply Nat.min_l.
  pose proof (Z.div_mod (length_ (data i) + 511) 512).
  pose proof (Z.mod_pos_bound (length_ (data i) + 511) 512). lia.
Qed.

(** The sector of a position, as an index into the run. *)
Record in_sector (d : list (list Z)) (i : inode) (pos : Z) (q r : nat) (sec : list Z) : Prop := {
  is_pos : pos = 512 * Z.of_nat q + Z.of_nat r;
  is_rem : (r < 512)%nat;
  is_idx : byte_to_sector i pos = start (data i) + Z.of_nat q;
  is_run : take (nsec i) (drop (Z.to_nat (start (data i))) d) !! q = Some sec;
  is_disk : d !! (Z.to_nat (start (data i)) + q)%nat = Some sec;
  is_len : length sec = 512%nat
}.

Lemma in_sector_at d i pos :
  disk_ok d → inode_ok d i → 0 ≤ pos < length_ (data i) →
  ∃ sec, in_sector d i pos (Z.to_nat (pos / 512)) (Z.to_nat (pos mod 512)) sec.
Proof.
  intros Hd Hi Hpos.
  pose proof (Z.div_mod pos 512 ltac:(lia)). pose proof (Z.mod_pos_bound pos 512 ltac:(lia)).
  assert (0 ≤ pos / 512) by (apply Z.div_pos; lia).
  assert (Z.to_nat (pos / 512) < nsec i)%nat as Hq.
  { unfold nsec. apply Z2Nat.inj_lt; [lia|apply Z.div_pos; lia|].
    apply Z.div_lt_upper_bound; [lia|].
    pose proof (Z.div_mod (length_ (data i) + 511) 512 ltac:(lia)).
    pose proof (Z.mod_pos_bound (length_ (data i) + 511) 512 ltac:(lia)). lia. }
  destruct Hi as [Hs Hl Hf].
  destruct (lookup_lt_is_Some_2 d (Z.to_nat (start (data i)) + Z.to_nat (pos / 512))%nat)
    as [sec Hsec]; [lia|].
  exists sec. split; [lia|lia| | |done|].
  - unfold byte_to_sector. rewrite bool_decide_true by lia.
    unfold BLOCK_SECTOR_SIZE. rewrite Z.quot_div_nonneg by lia. rewrite Z2Nat.id by lia.
    apply wrap_small. destruct Hd as [_ Hsz]. apply lookup_lt_Some in Hsec. lia.
  - rewrite lookup_take. rewrite decide_True by done. by rewrite lookup_drop.
  - destruct Hd as [Hfull _]. eapply Forall_lookup_1 in Hfull; eauto.
Qed.

(** ** Rules for the primitives *)

Lemma wp_get_inode t l i Q s : inodes s !! l = Some i → Q i s → wp t (get_inode l) Q s.
Proof. intros Hl HQ. unfold get_inode. apply wp_bind, wp_gets. by eapply wp_assume_some. Qed.

Lemma wp_get_file t l f Q s : files s !! l = Some f → Q f s → wp t (get_file l) Q s.
Proof. intros Hl HQ. unfold get_file. apply wp_bind, wp_gets. by eapply wp_assume_some. Qed.

Lemma wp_block_read t (n : nat) sec Q s :
  disk s !! n = Some sec → Q sec s → wp t (block_read (Z.of_nat n)) Q s.
Proof.
  intros Hn HQ. unfold block_read. apply wp_bind, wp_check; [apply bool_decide_true; lia|].
  apply wp_bind, wp_gets. rewrite Nat2Z.id. by eapply wp_assume_some.
Qed.

Lemma wp_block_write t (n : nat) buf Q s :
  (n < length (disk s))%nat → Q tt (with_disk (<[n := buf]> (disk s)) s) →
  wp t (block_write (Z.of_nat n) buf) Q s.
Proof.
  intros Hn HQ. unfold block_write. apply wp_bind, wp_check; [apply bool_decide_true; lia|].
  apply wp_bind, wp_gets. rewrite Nat2Z.id.
  apply wp_bind, wp_check; [by apply bool_decide_true|]. by apply wp_modify.
Qed.

Lemma with_mem_self s : with_mem (mem s) s = s.
Proof. by destruct s. Qed.

(** An allocation consumes at most one answer. *)
Lemma wp_malloc t Q s :
  (∀ a m, m `suffix_of` mem s → (grants s → a = true) → Q a (with_mem m s)) →
  wp t malloc Q s.
Proof.
  intros HQ. unfold malloc. apply wp_bind, wp_gets. unfold grants in HQ.
  destruct (mem s) as [|a m] eqn:Hm.
  - apply wp_ret. rewrite <- (with_mem_self s), Hm. by apply HQ.
  - apply wp_bind, wp_modify, wp_ret. apply HQ; [by apply suffix_cons_r|].
    intros Hg. by inversion Hg.
Qed.

Lemma wp_bounce t bounce Q s :
  (∀ a m, m `suffix_of` mem s → (grants s → a = true) → Q a (with_mem m s)) →
  wp t (bounce_buf bounce) Q s.
Proof.
  intros HQ. destruct bounce; [|by apply wp_malloc].
  apply wp_ret. rewrite <- (with_mem_self s). by apply HQ.
Qed.

Lemma grants_suffix s m : grants s → m `suffix_of` mem s → grants (with_mem m s).
Proof. unfold grants. intros Hg [k Hk]. rewrite Hk in Hg. by apply Forall_app in Hg as [_ ?]. Qed.

Lemma if_min x y : (if bool_decide (x < y) then x else y) = Z.min x y.
Proof. case_bool_decide; lia. Qed.

Lemma wp_chunk t i size offset Q s :
  0 ≤ offset ≤ INT_MAX → 0 ≤ length_ (data i) ≤ INT_MAX →
  Q (byte_to_sector i offset, offset mod 512, 512 - offset mod 512,
     size `min` ((length_ (data i) - offset) `min` (512 - offset mod 512))) s →
  wp t (chunk i size offset) Q s.
Proof.
  intros Ho Hl HQ. unfold chunk, off, inode_length. apply wp_bind, wp_bind.
  apply wp_check; [apply bool_decide_true; unfold INT_MIN, INT_MAX in *; lia|].
  apply wp_ret. cbn zeta. apply wp_ret.
  unfold BLOCK_SECTOR_SIZE. rewrite Z.rem_mod_nonneg by lia.
  by rewrite !if_min.
Qed.

(** ** Reading *)

Lemma content_chunk d i pos n q r sec :
  disk_ok d → in_sector d i pos q r sec → (r + n ≤ 512)%nat →
  (Z.to_nat pos + n ≤ Z.to_nat (length_ (data i)))%nat →
  take n (drop (Z.to_nat pos) (content d i)) = take n (drop r sec).
Proof.
  intros Hd [Hpos Hr _ Hrun _ _] Hn Hl. unfold content, area.
  rewrite take_drop_commute, take_take, Nat.min_l by done.
  rewrite <- take_drop_commute.
  replace (Z.to_nat pos) with (512 * q + r)%nat by lia.
  by apply mjoin_chunk; [apply run_full| |].
Qed.

(** What a read of [size] bytes at [offset] should give. *)
Definition range (d : list (list Z)) (i : inode) (size offset : Z) : list Z :=
  take (Z.to_nat size) (drop (Z.to_nat offset) (content d i)).

Lemma range_short d i size offset :
  disk_ok d → inode_ok d i → length_ (data i) ≤ offset → range d i size offset = [].
Proof.
  intros Hd Hi Ho. unfold range. rewrite drop_ge, take_nil; [done|].
  rewrite content_length by done. lia.
Qed.

Lemma range_split d i size offset n :
  0 ≤ n ≤ size → 0 ≤ offset →
  range d i size offset = range d i n offset ++ range d i (size - n) (offset + n).
Proof.
  intros Hn Ho. unfold range.
  replace (Z.to_nat size) with (Z.to_nat n + Z.to_nat (size - n))%nat by lia.
  replace (Z.to_nat (offset + n)) with (Z.to_nat offset + Z.to_nat n)%nat by lia.
  by rewrite <- drop_drop, take_take_drop.
Qed.

Lemma range_chunk d i o n sec :
  disk_ok d → inode_ok d i →
  in_sector d i o (Z.to_nat (o / 512)) (Z.to_nat (o mod 512)) sec →
  0 ≤ o → 0 ≤ n ≤ 512 - o mod 512 → o + n ≤ length_ (data i) →
  range d i n o = take (Z.to_nat n) (drop (Z.to_nat (o mod 512)) sec).
Proof.
  intros Hd Hi Hin Ho Hn Hl. pose proof (Z.mod_pos_bound o 512 ltac:(lia)).
  eapply content_chunk; [done|done|lia|lia].
Qed.

Lemma idx_of d i o q r sec :
  inode_ok d i → in_sector d i o q r sec →
  byte_to_sector i o = Z.of_nat (Z.to_nat (start (data i)) + q)%nat.
Proof. intros Hi Hin. rewrite (is_idx _ _ _ _ _ _ Hin). pose proof (io_start _ _ Hi). lia. Qed.

(** One chunk is read, unless memory is refused. *)
Lemma wp_read_sector t i o n bounce Q s :
  disk_ok (disk s) → inode_ok (disk s) i →
  0 ≤ o < length_ (data i) → 0 < n ≤ 512 - o mod 512 → o + n ≤ length_ (data i) →
  (∀ m r, m `suffix_of` mem s →
     (∃ b, r = Some (range (disk s) i n o, b)) ∨ (r = None ∧ ¬ grants s) → Q r (with_mem m s)) →
  wp t (read_sector bounce (byte_to_sector i o) (o mod 512) n) Q s.
Proof.
  intros Hd Hi Ho Hn Hl HQ. pose proof (Z.mod_pos_bound o 512 ltac:(lia)).
  destruct (in_sector_at (disk s) i o) as [sec Hin]; [done..|].
  rewrite (range_chunk _ _ _ n _ Hd Hi Hin) in HQ by lia.
  rewrite (idx_of _ _ _ _ _ _ Hi Hin). destruct Hin as [_ _ _ _ Hsec Hlen].
  unfold read_sector.
  destruct (_ && _) eqn:Hfull.
  - apply andb_true_iff in Hfull as [Hr0%bool_decide_eq_true Hn0%bool_decide_eq_true].
    apply wp_bind. eapply wp_block_read; [done|]. apply wp_ret.
    rewrite <- (with_mem_self s). apply HQ; [done|]. left. exists bounce.
    rewrite Hr0, drop_0, take_ge; [done|]. by rewrite Hlen, Hn0.
  - apply wp_bind, wp_bounce. intros a m Hm Hg. destruct a.
    + apply wp_bind. eapply wp_block_read; [done|].
      apply wp_bind, wp_check; [apply bool_decide_true; lia|]. apply wp_ret.
      apply HQ; [done|]. left. by exists true.
    + apply wp_ret. apply HQ; [done|]. right. split; [done|].
      intros Hgs. discriminate (Hg Hgs).
Qed.

Lemma wp_read_at t l i size offset s :
  inodes s !! l = Some i → disk_ok (disk s) → inode_ok (disk s) i → 0 ≤ offset ≤ INT_MAX →
  wp t (inode_read_at l size offset)
    (λ buf s', ∃ m, m `suffix_of` mem s ∧ s' = with_mem m s ∧
       buf `prefix_of` range (disk s) i size offset ∧
       (grants s → buf = range (disk s) i size offset)) s.
Proof.
  intros Hl Hd Hi Ho. apply wp_full. unfold inode_read_at.
  set (R := range (disk s) i size offset). pose proof (io_length _ _ Hi) as Hlen.
  eapply (wp_loop_total
    (λ '(sz, o, buf, _) s', ∃ m, m `suffix_of` mem s ∧ s' = with_mem m s ∧
       0 ≤ o ≤ INT_MAX ∧ R = buf ++ range (disk s) i sz o) _
    (λ '(sz, _, _, _) _, Z.to_nat sz)); [|exists (mem s); rewrite with_mem_self; done|lia].
  intros [[[sz o] buf] bounce] s' (m & Hm & -> & Hoo & HR).
  case_bool_decide as Hsz.
  - apply wp_bind. eapply wp_get_inode; [done|]. cbn beta.
    apply wp_bind, wp_chunk; [done|done|]. cbn iota beta.
    set (n := sz `min` ((length_ (data i) - o) `min` (512 - o mod 512))).
    pose proof (Z.mod_pos_bound o 512 ltac:(lia)).
    case_bool_decide as Hn.
    + apply wp_ret. exists m. rewrite range_short, app_nil_r in HR by (done || lia).
      rewrite HR. done.
    + apply wp_bind, (wp_read_sector _ i o n); [done|done|lia|lia|lia|].
      cbn [disk with_mem]. rewrite (range_split _ _ sz o n) in HR by lia.
      intros m' r Hm' [[b ->]|[-> Hg]]; apply wp_ret.
      * split; [|lia]. exists m'. repeat split; [by etrans|lia|lia|].
        by rewrite HR, app_assoc.
      * exists m'. repeat split; [by etrans|rewrite HR; by apply prefix_app_r|].
        intros Hgs. destruct Hg. by apply grants_suffix.
  - apply wp_ret. exists m. unfold range in HR.
    rewrite Z2Nat.nonpos, take_0, app_nil_r in HR by lia. rewrite HR. done.
Qed.

(** ** Writing *)

(** [d'] is [d] with the bytes [bs] of the file at [o] replaced: nothing else in the
    sectors of the file, and no other sector, has changed. *)
Record written (i : inode) (o : Z) (bs : list Z) (d d' : list (list Z)) : Prop := {
  wr_area : area d' i = overwrite (Z.to_nat o) bs (area d i);
  wr_len : length d' = length d;
  wr_full : full_sectors d';
  wr_rest : ∀ k, (k < Z.to_nat (start (data i)) ∨ Z.to_nat (start (data i)) + nsec i ≤ k)%nat →
    d' !! k = d !! k
}.

Lemma written_refl i o d : disk_ok d → written i o [] d d.
Proof. intros [??]. split; [by rewrite overwrite_nil|done..]. Qed.

Lemma written_trans i o x y d d1 d2 :
  0 ≤ o → (Z.to_nat o + length x + length y ≤ length (area d i))%nat →
  written i o x d d1 → written i (o + Z.of_nat (length x)) y d1 d2 → written i o (x ++ y) d d2.
Proof.
  intros Ho Hfit [A1 L1 F1 R1] [A2 L2 F2 R2]. split; [|congruence|done|].
  - rewrite A2, A1. replace (Z.to_nat (o + Z.of_nat (length x))) with (Z.to_nat o + length x)%nat by lia.
    by apply overwrite_overwrite.
  - intros k Hk. by rewrite R2, R1.
Qed.

Lemma written_disk_ok i o bs d d' : disk_ok d → written i o bs d d' → disk_ok d'.
Proof. intros [??] [????]. split; [done|congruence]. Qed.

Lemma written_inode_ok i o bs d d' j : inode_ok d j → written i o bs d d' → inode_ok d' j.
Proof. intros [???] [????]. split; [done|done|congruence]. Qed.

Lemma run_insert (d : list (list Z)) st n q x :
  (q < n)%nat → take n (drop st (<[(st + q)%nat := x]> d)) = <[q := x]> (take n (drop st d)).
Proof.
  intros Hq. rewrite drop_insert_ge by lia.
  replace (st + q - st)%nat with q by lia. by apply take_insert_lt.
Qed.

Lemma written_chunk d i o q r sec src :
  disk_ok d → inode_ok d i → in_sector d i o q r sec → (r + length src ≤ 512)%nat →
  written i o src d (<[(Z.to_nat (start (data i)) + q)%nat := overwrite r src sec]> d).
Proof.
  intros Hd Hi [Hpos Hr _ Hrun Hdk Hlen] Hsrc.
  assert (q < nsec i)%nat as Hq by (apply lookup_lt_Some in Hrun; rewrite length_take in Hrun; lia).
  split.
  - unfold area. rewrite run_insert by done.
    replace (Z.to_nat o) with (512 * q + r)%nat by lia.
    by apply mjoin_overwrite; [apply run_full| |].
  - apply length_insert.
  - apply Forall_insert; [by apply dk_full|]. rewrite overwrite_length; lia.
  - intros k Hk. apply list_lookup_insert_ne. lia.
Qed.

Lemma wp_write_sector t i o n bounce src Q s :
  disk_ok (disk s) → inode_ok (disk s) i →
  0 ≤ o < length_ (data i) → 0 < n ≤ 512 - o mod 512 → Z.of_nat (length src) = n →
  (∀ m d r, m `suffix_of` mem s →
     (∃ b, r = Some b ∧ written i o src (disk s) d) ∨
     (r = None ∧ ¬ grants s ∧ d = disk s) → Q r (with_disk d (with_mem m s))) →
  wp t (write_sector bounce (byte_to_sector i o) (o mod 512) (512 - o mod 512) n src) Q s.
Proof.
  intros Hd Hi Ho Hn Hsrc HQ. pose proof (Z.mod_pos_bound o 512 ltac:(lia)).
  destruct (in_sector_at (disk s) i o) as [sec Hin]; [done..|].
  pose proof (written_chunk _ _ _ _ _ _ src Hd Hi Hin ltac:(lia)) as Hw.
  rewrite (idx_of _ _ _ _ _ _ Hi Hin). destruct Hin as [_ _ _ _ Hsec Hlen].
  pose proof (lookup_lt_Some _ _ _ Hsec) as Hlt.
  unfold write_sector. destruct (_ && _) eqn:Hfull.
  - apply andb_true_iff in Hfull as [Hr0%bool_decide_eq_true Hn0%bool_decide_eq_true].
    unfold BLOCK_SECTOR_SIZE in Hn0.
    apply wp_bind, wp_block_write; [done|]. apply wp_ret.
    replace (overwrite (Z.to_nat (o mod 512)) src sec) with src in Hw.
    + rewrite <- (with_mem_self s) at 2. apply HQ; [done|]. left. by exists bounce.
    + unfold overwrite. rewrite Hr0. cbn [Z.to_nat take app Nat.add].
      by rewrite drop_ge, app_nil_r by lia.
  - apply wp_bind, wp_bounce. intros a m Hm Hg. destruct a.
    + apply wp_bind, wp_check; [apply bool_decide_true; lia|].
      assert (bool_decide (0 < o mod 512) || bool_decide (n < 512 - o mod 512) = true) as ->.
      { apply orb_true_iff. rewrite !bool_decide_eq_true.
        apply andb_false_iff in Hfull. rewrite !bool_decide_eq_false in Hfull.
        unfold BLOCK_SECTOR_SIZE in Hfull. lia. }
      apply wp_bind. eapply wp_block_read; [done|]. cbn beta.
      apply wp_bind, wp_block_write; [done|]. apply wp_ret.
      apply HQ; [done|]. left. by exists true.
    + apply wp_ret. replace (with_mem m s) with (with_disk (disk s) (with_mem m s)) by done.
      apply HQ; [done|]. right. repeat split. intros Hgs. discriminate (Hg Hgs).
Qed.

(** The number of bytes that a write stores when memory is granted. *)
Definition write_count (i : inode) (size offset : Z) : Z :=
  if bool_decide (deny_write_cnt i ≠ 0) then 0
  else 0 `max` (size `min` (length_ (data i) - offset)).

Lemma take_more {A} (l : list A) k n :
  take (k + n) l = take k l ++ take n (drop k l).
Proof. by rewrite take_take_drop. Qed.

Lemma area_fits d i : disk_ok d → inode_ok d i →
  (Z.to_nat (length_ (data i)) ≤ length (area d i))%nat.
Proof.
  intros Hd Hi. rewrite <- (content_length d i) by done. unfold content.
  rewrite length_take. lia.
Qed.

Lemma wp_write_at t l i buffer size offset s :
  inodes s !! l = Some i → disk_ok (disk s) → inode_ok (disk s) i → 0 ≤ offset ≤ INT_MAX →
  size ≤ Z.of_nat (length buffer) →
  wp t (inode_write_at l buffer size offset)
    (λ n s', ∃ m d, m `suffix_of` mem s ∧ s' = with_disk d (with_mem m s) ∧
       written i offset (take (Z.to_nat n) buffer) (disk s) d ∧
       0 ≤ n ≤ write_count i size offset ∧
       (grants s → n = write_count i size offset)) s.
Proof.
  intros Hl Hd Hi Ho Hbuf. apply wp_full. unfold inode_write_at, write_count.
  pose proof (io_length _ _ Hi) as Hlen. pose proof (area_fits _ _ Hd Hi) as Hfit.
  apply wp_bind. eapply wp_get_inode; [done|].
  assert (s = with_disk (disk s) (with_mem (mem s) s)) as Hself by by destruct s.
  case_bool_decide as Hdeny.
  { apply wp_ret. exists (mem s), (disk s). split_and!; [done|done|by apply written_refl|lia..]. }
  eapply (wp_loop_total
    (λ '(sz, o, n, _) s', ∃ m d, m `suffix_of` mem s ∧ s' = with_disk d (with_mem m s) ∧
       written i offset (take (Z.to_nat n) buffer) (disk s) d ∧
       0 ≤ n ∧ o = offset + n ∧ sz = size - n ∧
       n ≤ 0 `max` (size `min` (length_ (data i) - offset))) _
    (λ '(sz, _, _, _) _, Z.to_nat sz)); [| |lia].
  2: { exists (mem s), (disk s). split_and!; [done|done|by apply written_refl|lia..]. }
  intros [[[sz o] n] bounce] s' (m & d & Hm & -> & Hw & Hn0 & -> & -> & Hmax).
  case_bool_decide as Hsz; [|apply wp_ret; exists m, d; split_and!; (done || lia)].
  apply wp_bind. eapply wp_get_inode; [done|]. cbn beta.
  apply wp_bind, wp_chunk; [lia|done|]. cbn iota beta.
  set (c := (size - n) `min`
    ((length_ (data i) - (offset + n)) `min` (512 - (offset + n) mod 512))).
  pose proof (Z.mod_pos_bound (offset + n) 512 ltac:(lia)).
  case_bool_decide as Hc; [apply wp_ret; exists m, d; split_and!; (done || lia)|].
  pose proof (written_disk_ok _ _ _ _ _ Hd Hw) as Hd'.
  pose proof (written_inode_ok _ _ _ _ _ _ Hi Hw) as Hi'.
  assert (length (take (Z.to_nat c) (drop (Z.to_nat n) buffer)) = Z.to_nat c) as Hsrc.
  { rewrite length_take, length_drop. lia. }
  apply wp_bind, wp_check; [apply bool_decide_true; lia|].
  apply wp_bind, wp_write_sector; [done|done|lia|lia|lia|].
  cbn [disk with_disk with_mem mem]. intros m' d' r Hm' [(b & -> & Hw')|(-> & Hg & ->)];
    apply wp_ret.
  - split; [|lia]. exists m', d'. split_and!; [by etrans|done| |lia..].
    replace (Z.to_nat (n + c)) with (Z.to_nat n + Z.to_nat c)%nat by lia. rewrite take_more.
    assert (length (take (Z.to_nat n) buffer) = Z.to_nat n) as Hln by (rewrite length_take; lia).
    eapply written_trans; [lia| |done|]; [lia|].
    by rewrite Hln, Z2Nat.id by lia.
  - exists m', d. split_and!; [by etrans|done|done|lia|lia|].
    intros Hgs. destruct Hg. by apply grants_suffix.
Qed.

(** ** The content after a write *)

Lemma take_overwrite n o bs (buf : list Z) :
  (o + length bs ≤ n ≤ length buf)%nat → take n (overwrite o bs buf) = overwrite o bs (take n buf).
Proof.
  intros [Ho Hn]. unfold overwrite. rewrite take_take, Nat.min_l by lia.
  replace n with (length (take o buf) + (length bs + (n - o - length bs)))%nat at 1
    by (rewrite length_take; lia).
  rewrite take_app_add, take_app_add. do 2 f_equal.
  rewrite take_drop_commute. do 2 f_equal. lia.
Qed.

Lemma written_content i o bs d d' :
  disk_ok d → inode_ok d i → 0 ≤ o →
  bs = [] ∨ (Z.to_nat o + length bs ≤ Z.to_nat (length_ (data i)))%nat →
  written i o bs d d' → content d' i = overwrite (Z.to_nat o) bs (content d i).
Proof.
  intros Hd Hi Ho Hfit [Ha _ _ _]. unfold content. rewrite Ha.
  destruct Hfit as [->|Hfit]; [by rewrite !overwrite_nil|].
  apply take_overwrite. split; [done|]. by apply area_fits.
Qed.

(** Two inodes whose runs of sectors do not overlap. *)
Definition apart (i j : inode) : Prop :=
  (Z.to_nat (start (data i)) + nsec i ≤ Z.to_nat (start (data j)) ∨
   Z.to_nat (start (data j)) + nsec j ≤ Z.to_nat (start (data i)))%nat.

Lemma written_apart i j o bs d d' :
  apart i j → written i o bs d d' → content d' j = content d j.
Proof.
  intros Hap [_ _ _ Hrest]. unfold content, area. do 2 f_equal. apply list_eq. intros k.
  rewrite !lookup_take. case_decide; [|done]. rewrite !lookup_drop. apply Hrest.
  destruct Hap; lia.
Qed.

(** The bytes that a write covers. *)
Lemma write_count_fits i size offset n (buffer : list Z) :
  0 ≤ offset → 0 ≤ n ≤ write_count i size offset →
  take (Z.to_nat n) buffer = [] ∨
  (Z.to_nat offset + length (take (Z.to_nat n) buffer) ≤ Z.to_nat (length_ (data i)))%nat.
Proof.
  unfold write_count. intros Ho Hn. rewrite length_take. case_bool_decide.
  - left. by replace n with 0 by lia.
  - destruct (decide (n = 0)) as [->|]; [by left|right]. lia.
Qed.

(** ** The properties of inodes and files *)

(** C16 (functional): [inode_read_at] ends, leaves everything but the allocator as it
    was, and returns bytes of the file from the offset on: all that were asked for
    and that the file has when memory is granted, the first of them otherwise.
    Sectors are read whole or in part, through a bounce buffer or not. *)
Theorem inode_read_exact l i size offset s :
  inodes s !! l = Some i → disk_ok (disk s) → inode_ok (disk s) i → 0 ≤ offset ≤ INT_MAX →
  ∃ buf m, inode_read_at l size offset s = Done (buf, with_mem m s) ∧ m `suffix_of` mem s ∧
    buf `prefix_of` take (Z.to_nat size) (drop (Z.to_nat offset) (content (disk s) i)) ∧
    (grants s → buf = take (Z.to_nat size) (drop (Z.to_nat offset) (content (disk s) i))).
Proof.
  intros Hl Hd Hi Ho.
  destruct (wp_total_run _ _ _ (wp_read_at _ _ _ size offset _ Hl Hd Hi Ho))
    as (buf & s' & Hrun & m & Hm & -> & Hp & Hg).
  exists buf, m. split_and!; done.
Qed.

(** Eight sectors; the file of inode 1 has 700 bytes in sectors 3 and 4. *)
Definition demo_disk : list (list Z) := imap (λ k _, replicate 512 (Z.of_nat k)) (replicate 8 tt).
Definition demo_inode : inode := Inode 2 1 false 0 (InodeDisk 3 700 INODE_MAGIC).
Definition demo_fs : fs :=
  Fs demo_disk (Bitmap 8 [255]) None [1%positive] {[ 1%positive := demo_inode ]}
     {[ 1%positive := File 1%positive 500 false ]} ∅ [] [].

Lemma demo_disk_ok : disk_ok (disk demo_fs).
Proof. split; [repeat constructor|done]. Qed.

Lemma demo_inode_ok : inode_ok (disk demo_fs) demo_inode.
Proof. split; [cbn; lia|cbn; unfold INT_MAX; lia|vm_compute; lia]. Qed.

Lemma inode_read_exact_witness :
  ∃ buf m, inode_read_at 1%positive 300 500 demo_fs = Done (buf, with_mem m demo_fs) ∧
    buf = replicate 12 3 ++ replicate 188 4.
Proof.
  destruct (inode_read_exact 1%positive demo_inode 300 500 demo_fs)
    as (buf & m & Hrun & _ & _ & Hg); [done|apply demo_disk_ok|apply demo_inode_ok|unfold INT_MAX; lia|].
  exists buf, m. split; [exact Hrun|]. rewrite Hg by constructor. by vm_compute.
Defined.

(** C15 (functional): [inode_write_at] ends and replaces exactly the bytes of the
    file from the offset on by the first bytes of the buffer: no other byte of the
    file, no byte of a file in other sectors and no sector outside the file
    changes.  The result is the number of bytes replaced; it reaches the end of the
    buffer or of the file when memory is granted, and is 0 while writes are
    denied. *)
Theorem inode_write_exact l i buffer size offset s :
  inodes s !! l = Some i → disk_ok (disk s) → inode_ok (disk s) i → 0 ≤ offset ≤ INT_MAX →
  size ≤ Z.of_nat (length buffer) →
  ∃ n m d, inode_write_at l buffer size offset s = Done (n, with_disk d (with_mem m s)) ∧
    m `suffix_of` mem s ∧ disk_ok d ∧
    content d i = overwrite (Z.to_nat offset) (take (Z.to_nat n) buffer) (content (disk s) i) ∧
    (∀ j, apart i j → content d j = content (disk s) j) ∧
    (∀ k, (k < Z.to_nat (start (data i)) ∨ Z.to_nat (start (data i)) + nsec i ≤ k)%nat →
       d !! k = disk s !! k) ∧
    0 ≤ n ≤ write_count i size offset ∧ (grants s → n = write_count i size offset).
Proof.
  intros Hl Hd Hi Ho Hb.
  destruct (wp_total_run _ _ _ (wp_write_at _ _ _ _ size offset _ Hl Hd Hi Ho Hb))
    as (n & s' & Hrun & m & d & Hm & -> & Hw & Hn & Hg).
  exists n, m, d. split_and!; try done.
  - by eapply written_disk_ok.
  - eapply written_content; [done|done|lia| |done]. eapply write_count_fits; [lia|done].
  - intros j Hj. by eapply written_apart.
  - apply Hw.
  - lia.
  - lia.
Qed.

Lemma inode_write_exact_witness :
  ∃ n m d, inode_write_at 1%positive (replicate 40 9) 40 680 demo_fs =
      Done (n, with_disk d (with_mem m demo_fs)) ∧
    n = 20 ∧ content d demo_inode = take 680 (content demo_disk demo_inode) ++ replicate 20 9.
Proof.
  destruct (inode_write_exact 1%positive demo_inode (replicate 40 9) 40 680 demo_fs)
    as (n & m & d & Hrun & _ & _ & Hc & _ & _ & _ & Hg);
    [done|apply demo_disk_ok|apply demo_inode_ok|unfold INT_MAX; lia|cbn; lia|].
  assert (n = 20) as -> by (rewrite Hg by constructor; reflexivity).
  exists 20, m, d. split_and!; [exact Hrun|done|]. rewrite Hc. by vm_compute.
Defined.

(** Reading back what was just written. *)
Lemma range_overwritten d i o bs :
  disk_ok d → inode_ok d i → 0 ≤ o →
  (Z.to_nat o + length bs ≤ Z.to_nat (length_ (data i)))%nat →
  take (length bs) (drop (Z.to_nat o) (overwrite (Z.to_nat o) bs (content d i))) = bs.
Proof.
  intros Hd Hi Ho Hfit. unfold overwrite.
  assert (length (take (Z.to_nat o) (content d i)) = Z.to_nat o) as Hl.
  { rewrite length_take, content_length by done. lia. }
  rewrite <- Hl at 1. rewrite drop_app_length. apply take_app_length.
Qed.

(** Writing a buffer that fits at the position of a file, seeking
    back and reading as many bytes gives the buffer back, and the position moves by
    its length each time. *)
Theorem file_write_read f fl i buffer s :
  files s !! f = Some fl → inodes s !! f_inode fl = Some i → deny_write_cnt i = 0 →
  disk_ok (disk s) → inode_ok (disk s) i → grants s →
  0 ≤ f_pos fl → f_pos fl + Z.of_nat (length buffer) ≤ length_ (data i) →
  ∃ s', (n ← file_write f buffer (Z.of_nat (length buffer));
         file_seek f (f_pos fl);;
         buf ← file_read f n;
         pos ← file_tell f;
         mret (n, buf, pos)) s =
    Done (Z.of_nat (length buffer), buffer, f_pos fl + Z.of_nat (length buffer), s').
Proof.
  intros Hf Hl Hdeny Hd Hi Hg Hp Hfit. pose proof (io_length _ _ Hi).
  assert (write_count i (Z.of_nat (length buffer)) (f_pos fl) = Z.of_nat (length buffer)) as Hwc.
  { unfold write_count. rewrite bool_decide_false by lia. lia. }
  match goal with |- ∃ s', ?m s = Done (?r, s') =>
    enough (wp Full m (λ x _, x = r) s) as Hwp end.
  { apply wp_total_run in Hwp as (x & s' & Hrun & ->). by exists s'. }
  unfold file_write, file_seek, file_read, file_tell.
  apply wp_bind, wp_bind. eapply wp_get_file; [done|].
  apply wp_bind. eapply wp_mono; [apply (wp_write_at _ _ i); (done || lia)|].
  cbn beta. intros n s1 (m & d & Hm & -> & Hw & _ & Hn). specialize (Hn Hg).
  rewrite Hwc in Hn. subst n. rewrite Nat2Z.id, firstn_all in Hw.
  pose proof (written_disk_ok _ _ _ _ _ Hd Hw). pose proof (written_inode_ok _ _ _ _ _ _ Hi Hw).
  apply wp_bind, wp_modify, wp_ret. apply wp_bind, wp_bind, wp_check; [by apply bool_decide_true|].
  apply wp_bind. eapply wp_get_file; [cbn; by rewrite lookup_insert, decide_True|]. apply wp_modify.
  apply wp_bind, wp_bind. eapply wp_get_file; [cbn; by rewrite lookup_insert, decide_True|].
  apply wp_bind. eapply wp_mono; [apply (wp_read_at _ _ i); cbn; (done || lia)|].
  cbn beta. intros buf s2 (m2 & _ & -> & _ & Hbuf).
  rewrite Hbuf by (apply (grants_suffix _ _ Hg Hm)). unfold range. cbn [disk with_disk with_files with_mem f_pos].
  rewrite (written_content i (f_pos fl) buffer (disk s) d) by (done || (right; lia)).
  rewrite Nat2Z.id, range_overwritten by (done || lia).
  apply wp_bind, wp_modify, wp_ret. apply wp_bind, wp_bind.
  eapply wp_get_file; [cbn; by rewrite lookup_insert, decide_True|]. apply wp_ret, wp_ret. done.
Qed.

Lemma file_write_read_witness :
  ∃ s', (n ← file_write 1%positive (replicate 150 7) 150;
         file_seek 1%positive 500;;
         buf ← file_read 1%positive n;
         pos ← file_tell 1%positive;
         mret (n, buf, pos)) demo_fs = Done (150, replicate 150 7, 650, s').
Proof.
  apply (file_write_read 1%positive (File 1%positive 500 false) demo_inode (replicate 150 7) demo_fs);
    [done|done|done|apply demo_disk_ok|apply demo_inode_ok|constructor|cbn; lia|cbn; lia].
Defined.

(** ** The free map *)

(** The free map and the inode of its file: none before the file is open. *)
Record map_ok (s : fs) (o : option inode) : Prop := {
  mo_bits : bwf (free_map s);
  mo_disk : disk_ok (disk s);
  mo_file : match o with
    | None => free_map_file s = None
    | Some i => ∃ f fl, free_map_file s = Some f ∧ files s !! f = Some fl ∧
        inodes s !! f_inode fl = Some i ∧ deny_write_cnt i = 0 ∧ inode_ok (disk s) i ∧
        bitmap_file_size (free_map s) ≤ length_ (data i)
    end
}.

(** The file holds the map. *)
Definition saved (bm : bitmap) (d : list (list Z)) (i : inode) : Prop :=
  take (length (bits_bytes bm)) (content d i) = bits_bytes bm.

(** Only the sectors of the map's file, and the allocator, have changed. *)
Definition map_only (o : option inode) (s s' : fs) : Prop :=
  ∃ m d bm, m `suffix_of` mem s ∧ s' = with_free_map bm (with_disk d (with_mem m s)) ∧
    match o with
    | None => d = disk s
    | Some i => ∃ bs, written i 0 bs (disk s) d
    end.

Lemma wp_free_map_write t i s :
  map_ok s (Some i) →
  wp t free_map_write
    (λ ok s', ∃ m d bs, m `suffix_of` mem s ∧ s' = with_disk d (with_mem m s) ∧
       written i 0 bs (disk s) d ∧ (ok = true → saved (free_map s) d i) ∧
       (grants s → ok = true)) s.
Proof.
  intros [Hb Hd (f & fl & Hff & Hf & Hl & Hdeny & Hi & Hsz)].
  unfold free_map_write, file_write_at, bitmap_file_size in *.
  pose proof (byte_cnt_bytes _ Hb) as Hbc.
  apply wp_bind, wp_gets, wp_bind, wp_gets, wp_bind. eapply wp_assume_some; [done|].
  apply wp_bind, wp_bind. eapply wp_get_file; [done|].
  eapply wp_mono; [apply (wp_write_at _ _ i); (done || (unfold INT_MAX; lia))|].
  intros n s' (m & d & Hm & -> & Hw & Hn & Hg). cbn beta. apply wp_ret.
  assert (write_count i (byte_cnt (bit_cnt (free_map s))) 0 = byte_cnt (bit_cnt (free_map s))) as Hwc.
  { unfold write_count. rewrite bool_decide_false by lia. lia. }
  exists m, d, (take (Z.to_nat n) (bits_bytes (free_map s))). unfold bitmap_write.
  split_and!; [done|done|done| |intros Hgs; apply bool_decide_true; by rewrite Hg].
  intros ->%bool_decide_eq_true. rewrite Hbc, Nat2Z.id, firstn_all in Hw. unfold saved.
  rewrite (written_content i 0 (bits_bytes (free_map s)) (disk s) d Hd Hi) by (done || (right; lia)).
  apply (range_overwritten (disk s) i 0); (done || lia).
Qed.

(** Marking the bits of a run false again. *)
Lemma rollback bm bm' bm'' sec cnt :
  run bm sec cnt false →
  (∀ k, 0 ≤ k → bit bm' k = if decide (sec ≤ k < sec + cnt) then true else bit bm k) →
  (∀ k, 0 ≤ k → bit bm'' k = if decide (sec ≤ k < sec + cnt) then false else bit bm' k) →
  ∀ k, 0 ≤ k → bit bm'' k = bit bm k.
Proof.
  intros Hrun H1 H2 k Hk. rewrite H2, H1 by done. case_decide as Hin; [|done].
  by rewrite (Hrun k Hin).
Qed.

Lemma map_ok_with_map s o bm :
  map_ok s o → bwf bm → bit_cnt bm = bit_cnt (free_map s) → map_ok (with_free_map bm s) o.
Proof.
  intros [Hb Hd Hf] Hb' Hc. split; [done|done|]. destruct o; [|done].
  destruct Hf as (f & fl & ? & ? & ? & ? & ? & ?). exists f, fl.
  cbn. unfold bitmap_file_size in *. rewrite Hc. done.
Qed.

Lemma map_ok_written s o i m d bs :
  map_ok s o → written i 0 bs (disk s) d → map_ok (with_disk d (with_mem m s)) o.
Proof.
  intros [Hb Hd Hf] Hw. split; [done|by eapply written_disk_ok|]. destruct o as [j|]; [|done].
  destruct Hf as (f & fl & ? & ? & ? & ? & Hj & ?). exists f, fl. cbn.
  split_and!; try done. by eapply written_inode_ok.
Qed.

(** What an allocation of [cnt] sectors leaves behind. *)
Definition allocated (o : option inode) (cnt : Z) (s : fs) (r : option Z) (s' : fs) : Prop :=
  map_ok s' o ∧ map_only o s s' ∧ bit_cnt (free_map s') = bit_cnt (free_map s) ∧
  match r with
  | Some sec =>
      0 ≤ sec ∧ sec + cnt ≤ bit_cnt (free_map s) ∧ run (free_map s) sec cnt false ∧
      (∀ k, 0 ≤ k → bit (free_map s') k =
         if decide (sec ≤ k < sec + cnt) then true else bit (free_map s) k) ∧
      match o with Some i => saved (free_map s') (disk s') i | None => True end
  | None =>
      (∀ k, 0 ≤ k → bit (free_map s') k = bit (free_map s) k) ∧
      (grants s → ∀ k, 0 ≤ k → k + cnt ≤ bit_cnt (free_map s) → ¬ run (free_map s) k cnt false)
  end.

(** The map after a successful search: written to its file, or rolled back. *)
Lemma wp_allocate_save t i cnt sec bm s :
  map_ok s (Some i) → bwf bm → bit_cnt bm = bit_cnt (free_map s) →
  0 ≤ sec → 0 ≤ cnt → sec + cnt ≤ bit_cnt (free_map s) → run (free_map s) sec cnt false →
  (∀ k, 0 ≤ k → bit bm k = if decide (sec ≤ k < sec + cnt) then true else bit (free_map s) k) →
  wp t (ok ← free_map_write;
        if negb ok then
          bm ← gets free_map;
          bm ← assume_some (bitmap_set_multiple bm sec cnt false);
          modify (with_free_map bm);; mret None
        else mret (Some sec)) (allocated (Some i) cnt s) (with_free_map bm s).
Proof.
  intros Hok Hbm Hc H0 Hcnt Hle Hrun Hbits. apply wp_bind.
  eapply wp_mono; [eapply wp_free_map_write, map_ok_with_map; done|].
  intros ok s' (m & d & bs & Hm & -> & Hw & Hsv & Hg). cbn in Hm, Hw, Hsv. destruct ok; cbn [negb].
  - apply wp_ret. split_and!; try done.
    + eapply (map_ok_written (with_free_map bm s)); [by apply map_ok_with_map|done].
    + exists m, d, bm. split_and!; [done|by destruct s|by exists bs].
    + by apply Hsv.
  - apply wp_bind, wp_gets. cbn.
    destruct (set_multiple_spec bm sec cnt false) as (bm' & Hset & Hb' & Hc' & Hbit');
      [done|done|done|lia|].
    apply wp_bind. eapply wp_assume_some; [done|]. apply wp_bind, wp_modify, wp_ret.
    split_and!; cbn.
    + apply map_ok_with_map; [|done|done].
      eapply (map_ok_written (with_free_map bm s)); [by apply map_ok_with_map|done].
    + exists m, d, bm'. split_and!; [done|by destruct s|by exists bs].
    + lia.
    + by eapply rollback.
    + intros Hgs. discriminate (Hg Hgs).
Qed.

Lemma wp_allocate t o cnt s :
  map_ok s o → 0 ≤ cnt → wp t (free_map_allocate cnt) (allocated o cnt s) s.
Proof.
  intros Hok Hcnt. pose proof (mo_bits _ _ Hok) as Hb. pose proof (bw_cnt _ Hb) as Hbc.
  destruct (scan_and_flip_spec (free_map s) 0 cnt false Hb ltac:(lia) Hcnt)
    as (sec & bm & Hscan & Hfirst & Hbm & Hc & Hbits).
  unfold free_map_allocate. apply wp_bind, wp_gets, wp_bind.
  eapply wp_assume_some; [done|]. cbn iota beta. apply wp_bind, wp_modify, wp_bind, wp_gets.
  assert (s = with_mem (mem s) s) as Hself by by destruct s.
  destruct (decide (sec = BITMAP_ERROR)) as [->|Hne].
  - rewrite bool_decide_false by naive_solver. cbn [andb]. apply wp_bind, wp_ret, wp_ret.
    destruct Hfirst as [[_ Hnone]|(H0 & Hle & _)]; [|unfold BITMAP_ERROR, SIZE_MAX in *; lia].
    split_and!; [by apply map_ok_with_map| |done| |intros _; apply Hnone].
    + exists (mem s), (disk s), bm. split_and!; [done|by destruct s|].
      destruct o; [|done]. exists []. by apply written_refl, (mo_disk _ _ Hok).
    + intros k Hk. cbn. rewrite Hbits by done. by rewrite decide_False by naive_solver.
  - destruct (first_run_valid _ _ _ _ _ Hb (Z.le_refl 0) Hcnt Hfirst Hne) as (H0 & Hle & Hrun).
    assert (∀ k, 0 ≤ k → bit bm k =
      if decide (sec ≤ k < sec + cnt) then true else bit (free_map s) k) as Hbits'.
    { intros k Hk. rewrite Hbits by done. repeat case_decide; naive_solver. }
    rewrite bool_decide_true by done. destruct o as [i|].
    + destruct (mo_file _ _ Hok) as (f & fl & Hff & _). cbn [free_map_file with_free_map].
      rewrite Hff, bool_decide_true by done. cbn [andb].
      pose proof (wp_allocate_save t i cnt sec bm s Hok Hbm Hc H0 Hcnt Hle Hrun Hbits') as Hsave.
      apply wp_bind_inv in Hsave. apply wp_bind, wp_bind.
      eapply wp_mono; [done|]. cbn beta. intros ok s' Hrest. apply wp_ret.
      by rewrite ?(bool_decide_true (sec ≠ BITMAP_ERROR)) by done.
    + cbn [free_map_file with_free_map]. rewrite (mo_file _ _ Hok). cbn. apply wp_bind, wp_ret, wp_ret.
      split_and!; try done; [by apply map_ok_with_map|].
      exists (mem s), (disk s), bm. split_and!; [done|by destruct s|done].
Qed.

(** C34 (safety): [free_map_allocate] hands out only free sectors.  On success the
    run it returns was free, is marked used, no other bit changes and the file of
    the map holds the new map; on failure, a failed write of the file included, the
    map in memory is what it was, and with memory granted there was no such run.
    On the disk only the sectors of the map's file change. *)
Theorem free_map_allocate_claims o cnt s :
  map_ok s o → 0 ≤ cnt →
  ∃ r s', free_map_allocate cnt s = Done (r, s') ∧ allocated o cnt s r s'.
Proof. intros Hok Hcnt. by apply wp_total_run, wp_allocate. Qed.

(** A free map of forty sectors in sector 2, open as file 1; sectors 0 to 2 and 6
    are used. *)
Definition map_inode : inode := Inode 0 1 false 0 (InodeDisk 2 8 INODE_MAGIC).
Definition map_fs : fs :=
  Fs (replicate 40 (replicate 512 0)) (Bitmap 40 [71; 0]) (Some 1%positive) [1%positive]
     {[ 1%positive := map_inode ]} {[ 1%positive := File 1%positive 0 false ]} ∅ [] [].

Lemma map_inode_ok : inode_ok (disk map_fs) map_inode.
Proof. split; [cbn; lia|cbn; unfold INT_MAX; lia|vm_compute; lia]. Qed.

Lemma map_fs_ok : map_ok map_fs (Some map_inode).
Proof.
  split.
  - split; [cbn; lia|done|]. repeat constructor; cbn; lia.
  - split; [by apply Forall_replicate|done].
  - exists 1%positive, (File 1%positive 0 false). split_and!; try done. apply map_inode_ok.
Qed.

Lemma free_map_allocate_claims_witness :
  ∃ s', free_map_allocate 4 map_fs = Done (Some 7, s') ∧ saved (free_map s') (disk s') map_inode.
Proof.
  destruct (free_map_allocate_claims (Some map_inode) 4 map_fs map_fs_ok ltac:(lia))
    as (r & s' & Hrun & _ & _ & _ & Hr).
  assert (Some r = Some (Some 7)) as [= ->].
  { transitivity (match free_map_allocate 4 map_fs with Done (x, _) => Some x | _ => None end);
      [by rewrite Hrun|vm_compute; reflexivity]. }
  exists s'. split; [exact Hrun|apply Hr].
Defined.

(** ** Releasing sectors *)

Definition released (i : inode) (sec cnt : Z) (s s' : fs) : Prop :=
  map_ok s' (Some i) ∧ map_only (Some i) s s' ∧ bit_cnt (free_map s') = bit_cnt (free_map s) ∧
  (∀ k, 0 ≤ k → bit (free_map s') k =
     if decide (sec ≤ k < sec + cnt) then false else bit (free_map s) k) ∧
  (grants s → saved (free_map s') (disk s') i).

Lemma wp_release t i sec cnt s :
  map_ok s (Some i) → 0 ≤ sec → 0 ≤ cnt → sec + cnt ≤ bit_cnt (free_map s) →
  run (free_map s) sec cnt true →
  wp t (free_map_release sec cnt) (λ _, released i sec cnt s) s.
Proof.
  intros Hok H0 Hcnt Hle Hrun. pose proof (mo_bits _ _ Hok) as Hb. unfold free_map_release.
  destruct (set_multiple_spec (free_map s) sec cnt false) as (bm & Hset & Hbm & Hc & Hbit); [done..|].
  apply wp_bind, wp_gets, wp_bind. eapply wp_assume_some; [by apply bitmap_all_spec|].
  apply wp_bind, wp_check; [done|]. apply wp_bind. eapply wp_assume_some; [done|].
  apply wp_bind, wp_modify, wp_bind.
  eapply wp_mono; [eapply wp_free_map_write, map_ok_with_map; done|].
  intros ok s' (m & d & bs & Hm & -> & Hw & Hsv & Hg). cbn in Hm, Hw, Hsv. apply wp_ret.
  split_and!; try done.
  - eapply (map_ok_written (with_free_map bm s)); [by apply map_ok_with_map|done].
  - exists m, d, bm. split_and!; [done|by destruct s|by exists bs].
  - intros Hgs. by apply Hsv, Hg.
Qed.

(** ** Open inodes *)

(** Each open inode is in the list once, is counted, and has its sector to itself. *)
Record open_ok (s : fs) : Prop := {
  oo_nodup : NoDup (open_inodes s);
  oo_dom : ∀ l, l ∈ open_inodes s ↔ is_Some (inodes s !! l);
  oo_cnt : ∀ l i, inodes s !! l = Some i → 0 < open_cnt i;
  oo_inj : ∀ l l' i i', inodes s !! l = Some i → inodes s !! l' = Some i' →
    sector i = sector i' → l = l'
}.

Lemma find_open_spec h ls sec :
  (∀ l, l ∈ ls → is_Some (h !! l)) →
  ∃ r, find_open h ls sec = Some r ∧
    match r with
    | Some l => l ∈ ls ∧ ∃ i : inode, h !! l = Some i ∧ sector i = sec
    | None => ∀ l i, l ∈ ls → h !! l = Some i → sector i ≠ sec
    end.
Proof.
  induction ls as [|l ls IH]; intros Hdom; cbn [find_open].
  { exists None. split; [done|]. intros l i Hl. by apply elem_of_nil in Hl. }
  destruct (Hdom l) as [i Hi]; [by left|]. rewrite Hi. case_bool_decide as Hs.
  - exists (Some l). split; [done|]. split; [by left|eauto].
  - destruct IH as (r & -> & Hr); [intros; apply Hdom; by right|]. exists r. split; [done|].
    destruct r as [l'|].
    + destruct Hr as [? ?]. split; [by right|done].
    + intros l' i' [->|Hl']%elem_of_cons Hl; [congruence|eauto].
Qed.

Lemma open_ok_insert s l i i' :
  open_ok s → inodes s !! l = Some i → sector i' = sector i → 0 < open_cnt i' →
  open_ok (with_inodes (<[l := i']> (inodes s)) s).
Proof.
  intros [Hnd Hdom Hcnt Hinj] Hl Hsec Hc. split; cbn; [done| | |].
  - intros k. rewrite Hdom, lookup_insert_is_Some. split; [|naive_solver].
    destruct (decide (l = k)); [by left|by right].
  - intros k j. rewrite lookup_insert_Some. naive_solver.
  - intros k k' j j'. rewrite !lookup_insert_Some. intros [[<- <-]|[? ?]] [[<- <-]|[? ?]] Hs; try done.
    + by eapply Hinj; [| |rewrite <- Hsec].
    + by eapply Hinj; [| |rewrite Hs].
    + by eapply Hinj.
Qed.

Lemma open_ok_delete s l :
  open_ok s →
  open_ok (with_inodes (delete l (inodes s)) (with_open (filter (λ k, k ≠ l) (open_inodes s)) s)).
Proof.
  intros [Hnd Hdom Hcnt Hinj]. split; cbn.
  - by apply NoDup_filter.
  - intros k. rewrite list_elem_of_filter, Hdom, lookup_delete_is_Some. naive_solver.
  - intros k j. rewrite lookup_delete_Some. intros [_ ?]. by eapply Hcnt.
  - intros k k' j j'. rewrite !lookup_delete_Some. intros [_ ?] [_ ?]. by eapply Hinj.
Qed.

Lemma open_ok_new s l sec i :
  open_ok s → inodes s !! l = None → sector i = sec → 0 < open_cnt i →
  (∀ k j, k ∈ open_inodes s → inodes s !! k = Some j → sector j ≠ sec) →
  open_ok (with_inodes (<[l := i]> (inodes s)) (with_open (l :: open_inodes s) s)).
Proof.
  intros [Hnd Hdom Hcnt Hinj] Hl <- Hc Hnew.
  assert (Hnew' : ∀ k j, inodes s !! k = Some j → sector j ≠ sector i).
  { intros k j Hk. eapply Hnew; [|done]. apply Hdom. by rewrite Hk. }
  split; cbn.
  - constructor; [|done]. rewrite Hdom, Hl. by intros [? ?].
  - intros k. rewrite elem_of_cons, Hdom, lookup_insert_is_Some.
    destruct (decide (l = k)); naive_solver.
  - intros k j. rewrite lookup_insert_Some. naive_solver.
  - intros k k' j j'. rewrite !lookup_insert_Some. intros [[<- <-]|[? Hk]] [[<- <-]|[? Hk']] Hs; try done.
    + by destruct (Hnew' _ _ Hk').
    + by destruct (Hnew' _ _ Hk).
    + by eapply Hinj.
Qed.

(** What [inode_open] returns: the open inode of the sector with one opener more,
    or a new one read from the disk. *)
Definition opened (sec : Z) (s : fs) (r : option floc) (s' : fs) : Prop :=
  match r with
  | Some l => ∃ i, inodes s' = <[l := i]> (inodes s) ∧ sector i = sec ∧
      match inodes s !! l with
      | Some i' => sector i' = sec ∧ i = set_open_cnt (open_cnt i' + 1) i'
      | None => (∀ k j, inodes s !! k = Some j → sector j ≠ sec) ∧
          ∃ raw, disk s !! Z.to_nat sec = Some raw ∧ i = Inode sec 1 false 0 (decode_inode raw)
      end
  | None => ¬ grants s ∧ inodes s' = inodes s ∧ ∀ k j, inodes s !! k = Some j → sector j ≠ sec
  end.

Lemma wp_inode_open t sec s :
  open_ok s → 0 ≤ sec < Z.of_nat (length (disk s)) →
  wp t (inode_open sec) (λ r s', open_ok s' ∧ opened sec s r s' ∧ disk s' = disk s) s.
Proof.
  intros Hok Hsec. pose proof Hok as [Hnd Hdom Hcnt Hinj]. unfold inode_open.
  apply wp_bind, wp_gets, wp_bind, wp_gets.
  destruct (find_open_spec (inodes s) (open_inodes s) sec) as (r & Hfind & Hr).
  { intros l. apply Hdom. }
  apply wp_bind. eapply wp_assume_some; [done|]. destruct r as [l|].
  - destruct Hr as (Hl & i & Hi & His). cbn [inode_reopen].
    apply wp_bind. eapply wp_get_inode; [done|]. apply wp_bind, wp_modify, wp_ret.
    split_and!; [|exists (set_open_cnt (open_cnt i + 1) i); cbn; by rewrite Hi|done].
    apply (open_ok_insert s l i); [done|done|done|]. cbn. pose proof (Hcnt _ _ Hi). lia.
  - assert (Hnone : ∀ k j, inodes s !! k = Some j → sector j ≠ sec).
    { intros k j Hk. eapply Hr; [|done]. apply Hdom. by rewrite Hk. }
    apply wp_bind, wp_malloc. intros a m Hm Hg. destruct a.
    + apply wp_bind, wp_gets. cbn zeta. apply wp_bind, wp_modify, wp_bind.
      destruct (lookup_lt_is_Some_2 (disk s) (Z.to_nat sec)) as [raw Hraw]; [lia|].
      rewrite <- (Z2Nat.id sec) at 1 by lia. eapply wp_block_read; [done|].
      apply wp_bind, wp_modify, wp_ret. cbn [inodes with_mem with_open].
      assert (inodes s !! fresh (dom (inodes s)) = None) as Hfr.
      { apply not_elem_of_dom, is_fresh. }
      split_and!; [| |done].
      * apply (open_ok_new (with_mem m s) _ sec); [by destruct Hok|done..].
      * eexists. split_and!; [done|done|]. rewrite Hfr. eauto.
    + apply wp_ret. split_and!; [by destruct Hok| |done]. split_and!; [|done|done].
      intros Hgs. discriminate (Hg Hgs).
Qed.

(** Opening an inode keeps the table of open inodes consistent.  A
    sector that is open already gives the same structure with one opener more, so
    that all openers share it; otherwise a new one is read from the disk.  It fails
    only when memory is refused. *)
Theorem inode_open_shares sec s :
  open_ok s → 0 ≤ sec < Z.of_nat (length (disk s)) →
  ∃ r s', inode_open sec s = Done (r, s') ∧ open_ok s' ∧ opened sec s r s'.
Proof.
  intros Hok Hsec.
  destruct (wp_total_run _ _ _ (wp_inode_open Full sec s Hok Hsec)) as (r & s' & Hrun & ? & ? & _).
  by exists r, s'.
Qed.

Lemma demo_open_ok : open_ok demo_fs.
Proof.
  split; cbn.
  - apply NoDup_singleton.
  - intros l. rewrite list_elem_of_singleton, lookup_singleton_is_Some. naive_solver.
  - intros l i. rewrite lookup_singleton_Some. intros [_ <-]. cbn. lia.
  - intros l l' i i'. rewrite !lookup_singleton_Some. intros [<- _] [<- _]. done.
Qed.

Lemma inode_open_shares_witness :
  ∃ s', inode_open 2 demo_fs = Done (Some 1%positive, s') ∧ open_ok s' ∧
    opened 2 demo_fs (Some 1%positive) s'.
Proof.
  destruct (inode_open_shares 2 demo_fs demo_open_ok) as (r & s' & Hrun & Hok & Hop); [cbn; lia|].
  assert (Some r = Some (Some 1%positive)) as [= ->].
  { transitivity (match inode_open 2 demo_fs with Done (x, _) => Some x | _ => None end);
      [by rewrite Hrun|vm_compute; reflexivity]. }
  exists s'. exact (conj Hrun (conj Hok Hop)).
Defined.

(** ** Closing the last opener of a removed inode *)

Lemma wp_bytes_to_sectors t i Q s :
  0 ≤ length_ (data i) → length_ (data i) + 512 ≤ INT_MAX → Q (Z.of_nat (nsec i)) s →
  wp t (bytes_to_sectors (length_ (data i))) Q s.
Proof.
  intros H0 Hmax HQ. unfold bytes_to_sectors, off, BLOCK_SECTOR_SIZE. apply wp_bind, wp_bind.
  apply wp_check; [apply bool_decide_true; unfold INT_MIN; lia|]. apply wp_ret, wp_ret.
  rewrite Z.quot_div_nonneg by lia.
  replace (length_ (data i) + 512 - 1) with (length_ (data i) + 511) by lia.
  unfold nsec in HQ. rewrite Z2Nat.id in HQ by (apply Z.div_pos; lia). done.
Qed.

(** The inode at [l] is not that of the free map. *)
Definition away (l : floc) (s : fs) : Prop :=
  ∀ f fl, free_map_file s = Some f → files s !! f = Some fl → f_inode fl ≠ l.

Lemma map_ok_away s o l i ls :
  map_ok s o → away l s → map_ok (with_open ls (with_inodes (<[l := i]> (inodes s)) s)) o.
Proof.
  intros [Hb Hd Hf] Ha. split; [done|done|]. destruct o; [|done].
  destruct Hf as (f & fl & Hff & Hfl & Hl & ?). exists f, fl. cbn.
  rewrite lookup_insert_ne by (apply not_eq_sym; by eapply Ha). done.
Qed.

(** The sectors of an inode are marked used, its own outside its data. *)
Record claimed (bm : bitmap) (i : inode) : Prop := {
  cl_sector : 0 ≤ sector i < bit_cnt bm;
  cl_own : bit bm (sector i) = true;
  cl_start : 0 ≤ start (data i);
  cl_fits : start (data i) + Z.of_nat (nsec i) ≤ bit_cnt bm;
  cl_run : run bm (start (data i)) (Z.of_nat (nsec i)) true;
  cl_apart : ¬ start (data i) ≤ sector i < start (data i) + Z.of_nat (nsec i)
}.

Definition owns (i : inode) (k : Z) : Prop :=
  k = sector i ∨ start (data i) ≤ k < start (data i) + Z.of_nat (nsec i).

#[global] Instance owns_dec i k : Decision (owns i k).
Proof. unfold owns. apply _. Defined.

(** Both releases of [inode_close]. *)
Lemma wp_release_both t mi i s :
  map_ok s (Some mi) → claimed (free_map s) i → 0 ≤ length_ (data i) →
  length_ (data i) + 512 ≤ INT_MAX →
  wp t (free_map_release (sector i) 1;;
        sectors ← bytes_to_sectors (length_ (data i));
        free_map_release (start (data i)) sectors)
    (λ _ s', ∃ s1, released mi (sector i) 1 s s1 ∧
       released mi (start (data i)) (Z.of_nat (nsec i)) s1 s') s.
Proof.
  intros Hok [Hs Hown H0 Hfit Hrun Hap] Hl Hmax.
  apply wp_bind. eapply wp_mono; [eapply (wp_release _ mi); [done|lia|lia|lia|]|].
  { intros k Hk. by replace k with (sector i) by lia. }
  cbn beta. intros _ s1 Hrel. apply wp_bind, wp_bytes_to_sectors; [done|done|].
  pose proof Hrel as (Hok1 & _ & Hc1 & Hb1 & _).
  eapply wp_mono; [eapply (wp_release _ mi); [done|done|lia|lia|]|cbn beta; eauto].
  intros k Hk. rewrite Hb1, decide_False by lia. by apply Hrun.
Qed.

Lemma map_only_heaps o s s' :
  map_only o s s' → inodes s' = inodes s ∧ open_inodes s' = open_inodes s ∧ files s' = files s.
Proof. by intros (m & d & bm & _ & -> & _). Qed.

(** When the last opener closes a removed inode, exactly the
    sectors it owns (its own and its data) become free again, and the inode leaves
    memory and the list of open inodes. *)
Theorem inode_close_frees l i mi s :
  inodes s !! l = Some i → open_cnt i = 1 → removed i = true → open_ok s →
  map_ok s (Some mi) → away l s → claimed (free_map s) i →
  0 ≤ length_ (data i) → length_ (data i) + 512 ≤ INT_MAX →
  ∃ s', inode_close (Some l) s = Done (tt, s') ∧ inodes s' = delete l (inodes s) ∧ open_ok s' ∧
    ∀ k, 0 ≤ k → bit (free_map s') k = if decide (owns i k) then false else bit (free_map s) k.
Proof.
  intros Hl Hcnt Hrem Hoo Hmo Haway Hcl Hlen Hmax.
  match goal with |- ∃ s', ?m s = Done (tt, s') ∧ @?P s' =>
    enough (wp Full m (λ _ s', P s') s) as Hwp end.
  { apply wp_total_run in Hwp as ([] & s' & Hrun & HP). by exists s'. }
  cbn [inode_close]. apply wp_bind. eapply wp_get_inode; [done|]. apply wp_bind, wp_modify.
  rewrite bool_decide_true by lia. apply wp_bind, wp_modify. rewrite Hrem. apply wp_bind.
  eapply wp_mono; [apply (wp_release_both _ mi i)|]; [by apply map_ok_away|done|done|done|].
  cbn beta. intros _ s2 (s1 & (_ & Hm1 & _ & Hb1 & _) & (_ & Hm2 & _ & Hb2 & _)). apply wp_modify.
  apply map_only_heaps in Hm1 as (Hi1 & Ho1 & _). apply map_only_heaps in Hm2 as (Hi2 & Ho2 & _).
  cbn in Hi1, Ho1, Hb1. rewrite Hi1 in Hi2. rewrite Ho1 in Ho2.
  cbn [inodes with_inodes free_map]. rewrite Hi2, delete_insert_eq. split_and!; [done| |].
  - destruct (open_ok_delete s l Hoo) as [? ? ? ?]. split; cbn; by rewrite ?Ho2.
  - intros k Hk. rewrite Hb2, Hb1 by done. unfold owns. repeat case_decide; try done; lia.
Qed.

(** As [map_fs], with a removed file of 600 bytes in sectors 7 and 8, inode 6. *)
Definition gone_inode : inode := Inode 6 1 true 0 (InodeDisk 7 600 INODE_MAGIC).
Definition gone_fs : fs :=
  Fs (replicate 40 (replicate 512 0)) (Bitmap 40 [455; 0]) (Some 1%positive)
     [2%positive; 1%positive]
     (<[2%positive := gone_inode]> {[ 1%positive := map_inode ]})
     {[ 1%positive := File 1%positive 0 false ]} ∅ [] [].

Lemma gone_map_ok : map_ok gone_fs (Some map_inode).
Proof.
  split.
  - split; [cbn; lia|done|]. repeat constructor; cbn; lia.
  - split; [by apply Forall_replicate|done].
  - exists 1%positive, (File 1%positive 0 false). split_and!; try done. apply map_inode_ok.
Qed.

Lemma gone_open_ok : open_ok gone_fs.
Proof.
  split; cbn.
  - apply NoDup_cons. split; [|apply NoDup_singleton]. by rewrite list_elem_of_singleton.
  - intros l. rewrite !elem_of_cons, lookup_insert_is_Some, lookup_singleton_is_Some, elem_of_nil.
    naive_solver.
  - intros l i. rewrite lookup_insert_Some, lookup_singleton_Some.
    intros [[_ <-]|[_ [_ <-]]]; cbn; lia.
  - intros l l' i i'. rewrite !lookup_insert_Some, !lookup_singleton_Some. naive_solver.
Qed.

Lemma gone_claimed : claimed (free_map gone_fs) gone_inode.
Proof.
  split; [cbn; lia|done|cbn; lia|vm_compute; congruence| |cbn; lia].
  change (Z.of_nat (nsec gone_inode)) with 2. intros k Hk. cbn in Hk.
  assert (k = 7 ∨ k = 8) as [-> | ->] by lia; by vm_compute.
Qed.

Lemma inode_close_frees_witness :
  ∃ s', inode_close (Some 2%positive) gone_fs = Done (tt, s') ∧
    inodes s' = delete 2%positive (inodes gone_fs) ∧ open_ok s' ∧
    bit (free_map s') 6 = false ∧ bit (free_map s') 8 = false ∧ bit (free_map s') 2 = true.
Proof.
  destruct (inode_close_frees 2%positive gone_inode map_inode gone_fs)
    as (s' & Hrun & Hi & Hok & Hbit).
  - reflexivity.
  - reflexivity.
  - reflexivity.
  - apply gone_open_ok.
  - apply gone_map_ok.
  - intros f fl [= <-] Hfl. vm_compute in Hfl. injection Hfl as <-. discriminate.
  - apply gone_claimed.
  - cbn. lia.
  - cbn. unfold INT_MAX. lia.
  - exists s'. split; [exact Hrun|]. split; [exact Hi|]. split; [exact Hok|].
    split; [|split]; rewrite Hbit by lia; by vm_compute.
Defined.
