(* ===== verification/DirProps.v ===== *)
(** * Pintos: what directories guarantee

    A directory is the file of its entries, 20 bytes each ([entries]).  [lookup]
    finds the first entry in use with the name, [dir_add] fills the first free
    slot, and what was added is found afterwards. *)

From S2P Require Import Prelude Bitmap BitmapProps FileSys FileSysProps.
From stdpp Require Import base tactics list gmap.
From Stdlib Require Import ZArith Lia.

Local Open Scope Z_scope.

(** ** Entries *)

Definition nent (i : inode) : nat := Z.to_nat (length_ (data i) / 20).

Definition entry (d : list (list Z)) (i : inode) (k : nat) : list Z :=
  take 20 (drop (20 * k) (content d i)).

Definition entries (d : list (list Z)) (i : inode) : list (list Z) :=
  entry d i <$> seq 0 (nent i).

Definition matches (name e : list Z) : Prop := e_in_use e = true ∧ zstr name = e_name e.

#[global] Instance matches_dec name e : Decision (matches name e).
Proof. unfold matches. apply _. Defined.

(** What looking a name up should give. *)
Definition find_entry (name : list Z) (es : list (list Z)) : option (nat * list Z) :=
  list_find (matches name) es.

Lemma entries_length d i : length (entries d i) = nent i.
Proof. unfold entries. by rewrite length_fmap, length_seq. Qed.

Lemma entries_lookup d i k e :
  entries d i !! k = Some e ↔ (k < nent i)%nat ∧ e = entry d i k.
Proof.
  unfold entries. rewrite list_lookup_fmap_Some. split.
  - intros (j & -> & [-> ?]%lookup_seq). done.
  - intros [? ->]. exists k. split; [done|]. by apply lookup_seq.
Qed.

Lemma nent_fits d i k : inode_ok d i → (k ≤ nent i)%nat → 20 * Z.of_nat k ≤ length_ (data i).
Proof.
  intros [_ Hl _] Hk. unfold nent in Hk.
  pose proof (Z.div_mod (length_ (data i)) 20 ltac:(lia)).
  pose proof (Z.mod_pos_bound (length_ (data i)) 20 ltac:(lia)). lia.
Qed.

Lemma nent_last i : 0 ≤ length_ (data i) → length_ (data i) < 20 * Z.of_nat (S (nent i)).
Proof.
  intros Hl. unfold nent. pose proof (Z.div_mod (length_ (data i)) 20 ltac:(lia)).
  pose proof (Z.mod_pos_bound (length_ (data i)) 20 ltac:(lia)).
  assert (0 ≤ length_ (data i) / 20) by (apply Z.div_pos; lia). lia.
Qed.

Lemma entry_length d i k :
  disk_ok d → inode_ok d i → (k < nent i)%nat → length (entry d i k) = 20%nat.
Proof.
  intros Hd Hi Hk. unfold entry. rewrite length_take, length_drop, content_length by done.
  pose proof (nent_fits d i (S k) Hi ltac:(lia)). lia.
Qed.

(** An entry is read whole, or the end of the directory is reached. *)
Lemma wp_read_entry t li i e k Q s :
  inodes s !! li = Some i → disk_ok (disk s) → inode_ok (disk s) i → grants s →
  (k ≤ nent i)%nat → length e = 20%nat →
  (∀ m e', m `suffix_of` mem s → length e' = 20%nat →
     ((k < nent i)%nat → e' = entry (disk s) i k) →
     Q (bool_decide (k < nent i)%nat, e') (with_mem m s)) →
  wp t (read_entry li e (20 * Z.of_nat k)) Q s.
Proof.
  intros Hl Hd Hi Hg Hk He HQ. unfold read_entry.
  pose proof (nent_fits _ _ _ Hi Hk). pose proof (io_length _ _ Hi).
  apply wp_bind. eapply wp_mono; [apply (wp_read_at _ _ i); (done || lia)|].
  cbn beta. intros buf s' (m & Hm & -> & _ & Hbuf). specialize (Hbuf Hg). apply wp_ret.
  unfold range in Hbuf. replace (Z.to_nat (20 * Z.of_nat k)) with (20 * k)%nat in Hbuf by lia.
  change (take (Z.to_nat ENTRY_SIZE)) with (take (A := Z) 20) in Hbuf.
  fold (entry (disk s) i k) in Hbuf. subst buf.
  destruct (decide (k < nent i)%nat) as [Hlt|Hge].
  - pose proof (entry_length _ _ _ Hd Hi Hlt) as Hel.
    specialize (HQ m (entry (disk s) i k) Hm Hel (λ _, eq_refl)).
    rewrite Hel, (drop_ge e), app_nil_r by lia.
    rewrite bool_decide_true in HQ by done. done.
  - assert (length (entry (disk s) i k) < 20)%nat as Hel.
    { unfold entry. rewrite length_take, length_drop, content_length by done.
      pose proof (nent_last i). lia. }
    rewrite (bool_decide_false (_ = ENTRY_SIZE)) by (unfold ENTRY_SIZE; lia).
    rewrite bool_decide_false in HQ by done. apply HQ; [done| |done].
    rewrite length_app, length_drop. lia.
Qed.

(** ** Searching *)

Section search.
Context (d : list (list Z)) (i : inode) (P : list Z → Prop) `{∀ e, Decision (P e)}.

Definition none_before (k : nat) : Prop := ∀ j, (j < k)%nat → ¬ P (entry d i j).

Lemma none_before_S k : none_before k → ¬ P (entry d i k) → none_before (S k).
Proof. intros Hn Hk j Hj. destruct (decide (j = k)) as [->|]; [done|apply Hn; lia]. Qed.

Lemma find_here k :
  (k < nent i)%nat → none_before k → P (entry d i k) →
  list_find P (entries d i) = Some (k, entry d i k).
Proof.
  intros Hk Hn HP. apply list_find_Some. split_and!; [by apply entries_lookup|done|].
  intros j e [_ ->]%entries_lookup Hj. by apply Hn.
Qed.

Lemma find_none : none_before (nent i) → list_find P (entries d i) = None.
Proof.
  intros Hn. apply list_find_None, Forall_lookup. intros j e [Hj ->]%entries_lookup. by apply Hn.
Qed.

End search.

Lemma wp_entry_fuel t li i Q s :
  inodes s !! li = Some i → Q (S (Z.to_nat (length_ (data i)))) s → wp t (entry_fuel li) Q s.
Proof. intros Hl HQ. unfold entry_fuel. apply wp_bind. by eapply wp_get_inode. Qed.

(** The loops over a directory start at entry 0 and go on entry by entry. *)
Definition at_entry (s : fs) (i : inode) (P : list Z → Prop) (x : list Z * Z) (s' : fs) : Prop :=
  ∃ k m, x.2 = 20 * Z.of_nat k ∧ (k ≤ nent i)%nat ∧ length x.1 = 20%nat ∧
    m `suffix_of` mem s ∧ s' = with_mem m s ∧ none_before (disk s) i P k.

Definition left_over (i : inode) (x : list Z * Z) (_ : fs) : nat :=
  Z.to_nat (20 * Z.of_nat (nent i) - x.2).

Lemma at_entry_0 s i P : length (stack s) = 20%nat → at_entry s i P (stack s, 0) s.
Proof.
  intros He. exists 0%nat, (mem s). split_and!; [done|lia|done|done|by rewrite with_mem_self|].
  intros j Hj. lia.
Qed.

Lemma fuel_enough d i e s : inode_ok d i →
  (left_over i (e, 0%Z) s < S (Z.to_nat (length_ (data i))))%nat.
Proof.
  intros Hi. unfold left_over. cbn [snd].
  pose proof (nent_fits d i (nent i) Hi (le_n _)). lia.
Qed.

(** A directory, its inode, a full entry on the stack, and memory. *)
Record dir_ok (s : fs) (l : floc) (dd : dir) (i : inode) : Prop := {
  do_dir : dirs s !! l = Some dd;
  do_inode : inodes s !! dir_inode dd = Some i;
  do_disk : disk_ok (disk s);
  do_fits : inode_ok (disk s) i;
  do_stack : length (stack s) = 20%nat;
  do_mem : grants s
}.

Lemma wp_get_dir t l dd Q s : dirs s !! l = Some dd → Q dd s → wp t (get_dir l) Q s.
Proof. intros Hl HQ. unfold get_dir. apply wp_bind, wp_gets. by eapply wp_assume_some. Qed.

(** A name that fits an entry is compared inside the array. *)
Lemma short_inside name e :
  (length (zstr name) ≤ NAME_MAX)%nat → (19 ≤ length e)%nat → strcmp_inside name e = true.
Proof.
  intros Hn He. apply orb_true_iff. right. apply negb_true_iff, bool_decide_eq_false.
  intros Heq. apply (f_equal length) in Heq. unfold e_field in Heq.
  rewrite !length_take, length_drop in Heq. unfold NAME_MAX in Hn. lia.
Qed.

Lemma wp_lookup t l dd i name s :
  dir_ok s l dd i → (length (zstr name) ≤ NAME_MAX)%nat →
  wp t (FileSys.lookup l name)
    (λ r s', ∃ m, m `suffix_of` mem s ∧ s' = with_mem m s ∧
       r = (λ '(k, e), (e, 20 * Z.of_nat k)) <$> find_entry name (entries (disk s) i)) s.
Proof.
  intros [Hdir Hl Hd Hi Hst Hg] Hshort. apply wp_full. unfold FileSys.lookup, find_entry.
  apply wp_bind. eapply wp_get_dir; [done|]. apply wp_bind. eapply wp_entry_fuel; [done|].
  apply wp_bind, wp_gets.
  eapply (wp_loop_total (at_entry s i (matches name)) _ (left_over i));
    [|by apply at_entry_0|by eapply fuel_enough].
  intros [e ofs] s' (k & m & Hofs & Hk & He & Hm & -> & Hnone). cbn [fst snd] in *. subst ofs.
  apply wp_bind, (wp_read_entry _ _ i); [done|done|done|by apply grants_suffix|done|done|].
  intros m' e' Hm' He' Hent. cbn [disk mem with_mem] in Hm', Hent. cbn iota beta.
  assert (m' `suffix_of` mem s) by by etrans.
  case_bool_decide as Hlt.
  - specialize (Hent Hlt) as ->.
    assert (¬ matches name (entry (disk s) i k) →
      at_entry s i (matches name) (entry (disk s) i k, 20 * Z.of_nat k + ENTRY_SIZE) (with_mem m' s) ∧
      (left_over i (entry (disk s) i k, (20 * Z.of_nat k + ENTRY_SIZE)%Z) (with_mem m' s)
       < left_over i (e, (20 * Z.of_nat k)%Z) (with_mem m s))%nat) as Hnext.
    { intros Hno. split; [|unfold left_over; cbn [snd]; unfold ENTRY_SIZE; lia].
      exists (S k), m'. cbn [fst snd]. unfold ENTRY_SIZE. split_and!; [lia|lia|done|done|done|].
      by apply none_before_S. }
    destruct (e_in_use _) eqn:Hu; [|apply wp_ret, Hnext; intros [Hu' _]; congruence].
    apply wp_bind, wp_check; [apply short_inside; [done|lia]|]. case_bool_decide as Hn; apply wp_ret.
    + exists m'. split_and!; [done|done|]. rewrite (find_here _ _ _ k); [done|done|done|by split].
    + apply Hnext. by intros [_ ?].
  - apply wp_ret. exists m'. split_and!; [done|done|].
    assert (k = nent i) as -> by lia. by rewrite find_none.
Qed.

Definition free_entry (e : list Z) : Prop := e_in_use e = false.

#[global] Instance free_entry_dec e : Decision (free_entry e).
Proof. unfold free_entry. apply _. Defined.

Lemma wp_free_slot t li i s :
  inodes s !! li = Some i → disk_ok (disk s) → inode_ok (disk s) i → grants s →
  length (stack s) = 20%nat →
  wp t (free_slot li)
    (λ '(e, ofs) s', ∃ m k, m `suffix_of` mem s ∧ s' = with_mem m s ∧ length e = 20%nat ∧
       ofs = 20 * Z.of_nat k ∧
       k = default (nent i) (fst <$> list_find free_entry (entries (disk s) i))) s.
Proof.
  intros Hl Hd Hi Hg Hst. apply wp_full. unfold free_slot.
  apply wp_bind. eapply wp_entry_fuel; [done|]. apply wp_bind, wp_gets.
  eapply (wp_loop_total (at_entry s i free_entry) _ (left_over i));
    [|by apply at_entry_0|by eapply fuel_enough].
  intros [e ofs] s' (k & m & Hofs & Hk & He & Hm & -> & Hnone). cbn [fst snd] in *. subst ofs.
  apply wp_bind, (wp_read_entry _ _ i); [done|done|done|by apply grants_suffix|done|done|].
  intros m' e' Hm' He' Hent. cbn [disk mem with_mem] in Hm', Hent. cbn iota beta.
  assert (m' `suffix_of` mem s) by by etrans.
  case_bool_decide as Hlt; cbn [andb].
  - specialize (Hent Hlt) as ->. destruct (e_in_use (entry (disk s) i k)) eqn:Hu; apply wp_ret.
    + split; [|unfold left_over; cbn [snd]; unfold ENTRY_SIZE; lia].
      exists (S k), m'. cbn [fst snd]. unfold ENTRY_SIZE. split_and!; [lia|lia|done|done|done|].
      apply none_before_S; [done|]. unfold free_entry. by rewrite Hu.
    + exists m', k. split_and!; try done. by rewrite (find_here _ _ _ k).
  - apply wp_ret. exists m', k. split_and!; try done.
    assert (k = nent i) as -> by lia. by rewrite find_none.
Qed.

(** ** Writing an entry *)

(** Entries away from the written range keep their bytes. *)
Lemma entry_other d d' i o bs k :
  content d' i = overwrite o bs (content d i) → (o ≤ length (content d i))%nat →
  (20 * k + 20 ≤ o ∨ o + length bs ≤ 20 * k)%nat → entry d' i k = entry d i k.
Proof.
  intros Hc Ho Hk. unfold entry. rewrite Hc. destruct Hk as [Hk|Hk].
  - rewrite !take_drop_commute. rewrite overwrite_before; [done|lia|done].
  - by rewrite overwrite_after.
Qed.

Lemma entries_insert d d' i k e :
  disk_ok d → inode_ok d i → (k < nent i)%nat → length e = 20%nat →
  content d' i = overwrite (20 * k) e (content d i) → entries d' i = <[k := e]> (entries d i).
Proof.
  intros Hd Hi Hk He Hc. apply list_eq. intros j.
  assert (20 * k ≤ length (content d i))%nat as Hle.
  { rewrite content_length by done. pose proof (nent_fits d i k Hi ltac:(lia)). lia. }
  destruct (decide (j = k)) as [->|Hne].
  - rewrite list_lookup_insert_eq by (by rewrite entries_length).
    apply entries_lookup. split; [done|]. unfold entry. rewrite Hc, overwrite_mid by done.
    by rewrite take_app_length'.
  - rewrite list_lookup_insert_ne by done. apply option_eq. intros x.
    rewrite !entries_lookup. rewrite (entry_other d d' i (20 * k) e j) by (done || lia). done.
Qed.

(** A write behind the last entry changes none. *)
Lemma entries_behind d d' i bs :
  disk_ok d → inode_ok d i → content d' i = overwrite (20 * nent i) bs (content d i) →
  entries d' i = entries d i.
Proof.
  intros Hd Hi Hc. apply list_eq. intros j. apply option_eq. intros x. rewrite !entries_lookup.
  assert (20 * nent i ≤ length (content d i))%nat as Hle.
  { rewrite content_length by done. pose proof (nent_fits d i (nent i) Hi (le_n _)). lia. }
  split; intros [Hj ->]; split; try done; [|symmetry];
    apply (entry_other d d' i (20 * nent i) bs); try done; lia.
Qed.

(** ** The entry that [dir_add] makes *)

Definition new_entry (name : list Z) (sec : Z) (e : list Z) : list Z :=
  set_sector sec (set_name name (set_in_use true e)).

Lemma zstr_no_zero l : 0 ∉ zstr l.
Proof.
  induction l as [|c l IH]; cbn; [apply not_elem_of_nil|]. case_bool_decide; [apply not_elem_of_nil|].
  apply not_elem_of_cons. by split.
Qed.

Lemma zstr_app l x : 0 ∉ l → zstr (l ++ 0 :: x) = l.
Proof.
  induction l as [|c l IH]; cbn; [done|]. rewrite not_elem_of_cons. intros [? ?].
  rewrite bool_decide_false by done. by rewrite IH.
Qed.

Section new_entry.
Context (name : list Z) (sec : Z) (e : list Z).
Context (Hname : (length (zstr name) ≤ NAME_MAX)%nat) (Hsec : 0 ≤ sec < 2 ^ 32).
Context (He : length e = 20%nat).

Lemma set_use_length : length (set_in_use true e) = 20%nat.
Proof. unfold set_in_use. rewrite overwrite_length; cbn; lia. Qed.

Lemma set_name_length : length (set_name name (set_in_use true e)) = 20%nat.
Proof.
  unfold set_name. rewrite overwrite_length; [apply set_use_length|].
  rewrite set_use_length, length_app, length_take. unfold NAME_MAX in *. cbn [length]. lia.
Qed.

Lemma new_length : length (new_entry name sec e) = 20%nat.
Proof.
  unfold new_entry, set_sector. rewrite overwrite_length; [apply set_name_length|].
  rewrite set_name_length. cbn [length elem_bytes]. lia.
Qed.

(** The name starts at byte 4, the sector lies before it. *)
Lemma new_drop n : (4 ≤ n)%nat →
  drop n (new_entry name sec e) = drop n (set_name name (set_in_use true e)).
Proof. intros Hn. unfold new_entry, set_sector. apply overwrite_after; cbn; lia. Qed.

Lemma new_name : e_name (new_entry name sec e) = zstr name.
Proof.
  unfold e_name, e_field. rewrite new_drop by lia. unfold set_name.
  rewrite overwrite_mid by (rewrite set_use_length; lia).
  rewrite (take_ge _ NAME_MAX) by done. rewrite <- app_assoc, take_app.
  rewrite (take_ge (zstr name)) by (unfold NAME_MAX in *; lia).
  replace (15 - length (zstr name))%nat with (S (14 - length (zstr name))) by (unfold NAME_MAX in *; lia).
  apply zstr_app, zstr_no_zero.
Qed.

Lemma new_in_use : e_in_use (new_entry name sec e) = true.
Proof.
  unfold e_in_use. rewrite <- (Nat.add_0_r 19), <- lookup_drop, new_drop by lia.
  unfold set_name. rewrite overwrite_after.
  - unfold set_in_use. by rewrite overwrite_mid by lia.
  - rewrite length_app, length_take. unfold NAME_MAX in *. cbn [length]. lia.
  - rewrite set_use_length. lia.
Qed.

Lemma new_sector : e_sector (new_entry name sec e) = sec.
Proof.
  unfold e_sector, new_entry, set_sector, overwrite.
  rewrite take_0. cbn [app].
  assert (take 4 (elem_bytes sec ++ drop (0 + length (elem_bytes sec)) (set_name name (set_in_use true e)))
    = [sec] ≫= elem_bytes) as -> by done.
  rewrite bytes_elems_bytes by (by constructor). done.
Qed.

End new_entry.

(** ** Adding an entry *)

Section find_insert.
Context (es : list (list Z)) (k : nat) (old e : list Z) (Hk : es !! k = Some old).
Context (Hfree : free_entry old).

Lemma free_no_match name : ¬ matches name old.
Proof. intros [Hu _]. unfold free_entry in Hfree. congruence. Qed.

Lemma find_added name :
  matches name e → find_entry name es = None → find_entry name (<[k := e]> es) = Some (k, e).
Proof.
  intros Hm Hn%list_find_None.
  apply list_find_Some. pose proof (lookup_lt_Some _ _ _ Hk).
  split_and!; [by rewrite list_lookup_insert_eq|done|].
  intros j y Hj Hlt. rewrite list_lookup_insert_ne in Hj by lia.
  by eapply (Forall_lookup_1 _ _ _ _ Hn).
Qed.

Lemma find_other name :
  ¬ matches name e → find_entry name (<[k := e]> es) = find_entry name es.
Proof.
  intros Hm. pose proof (free_no_match name) as Ho. pose proof (lookup_lt_Some _ _ _ Hk).
  assert (∀ j y, matches name y → <[k := e]> es !! j = Some y ↔ es !! j = Some y) as Heq.
  { intros j y Hy. destruct (decide (j = k)) as [->|]; [|by rewrite list_lookup_insert_ne].
    rewrite list_lookup_insert_eq by done. rewrite Hk. split; intros [= ->]; done. }
  apply option_eq. intros [j y]. unfold find_entry. rewrite !list_find_Some.
  split; intros (Hj & Hy & Hmin); (split_and!; [by apply Heq|done|]);
    intros j' y' Hj' Hlt Hy'; (eapply Hmin; [by apply Heq|done|done]).
Qed.

End find_insert.

(** The outcome of [dir_add] on the entries. *)
Definition added (name : list Z) (sec : Z) (es es' : list (list Z)) (ok : bool) : Prop :=
  if ok then
    find_entry name es = None ∧
    ∃ k old e, list_find free_entry es = Some (k, old) ∧ length e = 20%nat ∧
      es' = <[k := new_entry name sec e]> es
  else es' = es ∧ (find_entry name es ≠ None ∨ list_find free_entry es = None).

(** The write of the slot. *)
Lemma wp_write_slot t l dd i name sec e k s :
  dir_ok s l dd i → deny_write_cnt i = 0 → (length (zstr name) ≤ NAME_MAX)%nat →
  length e = 20%nat → find_entry name (entries (disk s) i) = None →
  k = default (nent i) (fst <$> list_find free_entry (entries (disk s) i)) →
  wp t (n ← inode_write_at (dir_inode dd) (new_entry name sec e) ENTRY_SIZE (20 * Z.of_nat k);
        mret (bool_decide (n = ENTRY_SIZE)))
    (λ ok s', ∃ m d bs, m `suffix_of` mem s ∧ s' = with_disk d (with_mem m s) ∧
       written i (20 * Z.of_nat k) bs (disk s) d ∧
       added name sec (entries (disk s) i) (entries d i) ok) s.
Proof.
  intros [Hdir Hl Hd Hi Hst Hg] Hdeny Hname He Hnew Hk.
  pose proof (new_length name sec e Hname He) as Hnl. pose proof (io_length _ _ Hi) as Hlen.
  assert (k ≤ nent i)%nat as Hkn.
  { subst k. destruct (list_find _ _) as [[j x]|] eqn:Hf; cbn; [|done].
    apply list_find_Some in Hf as ([? _]%entries_lookup & _). lia. }
  pose proof (nent_fits _ _ _ Hi Hkn) as Hfit.
  apply wp_bind. eapply wp_mono; [apply (wp_write_at _ _ i); try done; rewrite ?Hnl; unfold ENTRY_SIZE; lia|].
  cbn beta. intros n s' (m & d & Hm & -> & Hw & Hn & Hcnt). specialize (Hcnt Hg). apply wp_ret.
  exists m, d, (take (Z.to_nat n) (new_entry name sec e)). split_and!; [done|done|done|].
  assert (content d i = overwrite (20 * k) (take (Z.to_nat n) (new_entry name sec e))
    (content (disk s) i)) as Hc.
  { replace (20 * k)%nat with (Z.to_nat (20 * Z.of_nat k)) by lia.
    eapply written_content; [done|done|lia| |done].
    eapply (write_count_fits i ENTRY_SIZE); [lia|lia]. }
  unfold write_count in Hcnt. rewrite bool_decide_false in Hcnt by lia.
  destruct (list_find free_entry (entries (disk s) i)) as [[j old]|] eqn:Hf; cbn in Hk; subst k.
  - apply list_find_Some in Hf as Hj. destruct Hj as ([Hj _]%entries_lookup & _).
    pose proof (nent_fits _ _ (S j) Hi ltac:(lia)).
    assert (n = ENTRY_SIZE) as -> by (unfold ENTRY_SIZE in *; lia).
    rewrite bool_decide_true by done. split; [done|]. exists j, old, e. split_and!; [done|done|].
    rewrite take_ge in Hc by (rewrite Hnl; done). by apply entries_insert.
  - pose proof (nent_last i). rewrite bool_decide_false by (unfold ENTRY_SIZE in *; lia).
    split; [by eapply entries_behind|by right].
Qed.

Lemma wp_dir_add t l dd i name sec s :
  dir_ok s l dd i → deny_write_cnt i = 0 →
  zstr name ≠ [] → (length (zstr name) ≤ NAME_MAX)%nat →
  wp t (dir_add l name sec)
    (λ ok s', ∃ m d bs o, m `suffix_of` mem s ∧ s' = with_disk d (with_mem m s) ∧
       written i o bs (disk s) d ∧ added name sec (entries (disk s) i) (entries d i) ok) s.
Proof.
  intros Hok Hdeny Hne Hname. unfold dir_add.
  rewrite !bool_decide_false by (done || lia). cbn [orb].
  apply wp_bind. eapply wp_mono; [by apply (wp_lookup _ _ dd i)|].
  cbn beta. intros r s1 (m1 & Hm1 & -> & ->).
  destruct (find_entry name (entries (disk s) i)) as [[k e]|] eqn:Hfind; cbn [fmap option_fmap option_map].
  { apply wp_ret. exists m1, (disk s), [], 0. split_and!; [done|done|by apply written_refl, Hok|].
    split; [done|left]. by rewrite Hfind. }
  destruct Hok as [Hdir Hl Hd Hi Hst Hg].
  assert (dir_ok (with_mem m1 s) l dd i) as Hok1 by (split; (done || by apply grants_suffix)).
  apply wp_bind. eapply wp_get_dir; [done|]. apply wp_bind.
  eapply wp_mono; [apply (wp_free_slot _ _ i); (done || apply Hok1)|].
  intros [e ofs] s2 (m2 & k & Hm2 & -> & He & -> & Hk). cbn [disk mem with_mem] in Hm2, Hk.
  eapply wp_mono; [apply (wp_write_slot _ l dd i name sec e k); try done|].
  - split; try done. by apply (grants_suffix (with_mem m1 s)); [apply Hok1|].
  - intros ok s' (m & d & bs & Hm & -> & Hw & Had). exists m, d, bs, (20 * Z.of_nat k).
    split_and!; [|done|done|done]. cbn in Hm. etrans; [done|]. by etrans.
Qed.

(** C33 (roundtrip): [dir_add] of a valid name (not empty, at most 14 characters) to a
    directory that may be written, when no allocation is refused, succeeds exactly when
    the name is not there and a slot is free.  Afterwards [lookup] finds the name with
    the sector that was added, and every other name as before; a failed [dir_add]
    changes no entry, and no file in other sectors is touched. *)
Theorem dir_add_lookup l dd i name sec s :
  dir_ok s l dd i → deny_write_cnt i = 0 → 0 ≤ sec < 2 ^ 32 →
  zstr name ≠ [] → (length (zstr name) ≤ NAME_MAX)%nat →
  ∃ ok s', dir_add l name sec s = Done (ok, s') ∧
    (ok = true ↔ find_entry name (entries (disk s) i) = None ∧
                 list_find free_entry (entries (disk s) i) ≠ None) ∧
    (ok = false → entries (disk s') i = entries (disk s) i) ∧
    (ok = true → ∃ e ofs s2, FileSys.lookup l name s' = Done (Some (e, ofs), s2) ∧
       e_sector e = sec ∧ e_name e = zstr name) ∧
    (∀ name', zstr name' ≠ zstr name →
       find_entry name' (entries (disk s') i) = find_entry name' (entries (disk s) i)) ∧
    (∀ j, apart i j → content (disk s') j = content (disk s) j).
Proof.
  intros Hok Hdeny Hsec Hne Hname.
  destruct (wp_total_run _ _ _ (wp_dir_add _ _ _ _ name sec _ Hok Hdeny Hne Hname))
    as (r & s' & Hrun & m & d & bs & o & Hm & -> & Hw & Had).
  exists r, (with_disk d (with_mem m s)). cbn [disk with_disk].
  assert (∀ j, apart i j → content d j = content (disk s) j) as Hap by (intros; by eapply written_apart).
  destruct r; cbn [added] in Had.
  2:{ destruct Had as [Heq Hwhy]. split_and!; try done; [|by rewrite Heq]. split; [done|]. naive_solver. }
  destruct Had as (Hnone & k & old & e & Hf & He & Hes).
  pose proof Hf as Hf'. apply list_find_Some in Hf' as (Hk & Hfree & _).
  pose proof (new_name name sec e Hname He) as Hn. pose proof (new_in_use name sec e Hname He) as Hu.
  split_and!; try done.
  - split; [|done]. intros _. split; [done|]. by rewrite Hf.
  - intros _. assert (dir_ok (with_disk d (with_mem m s)) l dd i) as Hok'.
    { destruct Hok as [? ? ? ? ? ?]. split; try done; [by eapply written_disk_ok
        |by eapply written_inode_ok|by apply (grants_suffix s)]. }
    destruct (wp_total_run _ _ _ (wp_lookup _ _ _ _ name _ Hok' Hname)) as (x & s2 & Hl & m2 & _ & _ & ->).
    cbn [disk with_disk] in Hl. rewrite Hes, (find_added _ _ old) in Hl by done. cbn in Hl.
    eexists _, _, s2. split; [exact Hl|]. split; [by apply new_sector|done].
  - intros name' Hn'. rewrite Hes. apply (find_other _ _ old); [done|done|].
    intros [_ Hbad]. by rewrite Hn in Hbad.
Qed.

(** A root directory of 16 entries in sector 3, with file "a" in entry 0. *)
Definition dir_inode_demo : inode := Inode 1 1 false 0 (InodeDisk 3 320 INODE_MAGIC).
Definition dir_sector : list Z :=
  new_entry [97] 9 (replicate 20 0) ++ replicate 492 0.
Definition dir_fs : fs :=
  Fs (replicate 3 (replicate 512 0) ++ [dir_sector]) (Bitmap 8 [255]) None [1%positive]
     {[ 1%positive := dir_inode_demo ]} ∅ {[ 1%positive := Dir 1%positive 0 ]} []
     (replicate 20 0).

Lemma dir_fs_ok : dir_ok dir_fs 1%positive (Dir 1%positive 0) dir_inode_demo.
Proof.
  split; [reflexivity|reflexivity| | |reflexivity|constructor].
  - split; [|reflexivity]. repeat (constructor; [reflexivity|]). constructor.
  - split; [cbn; lia|cbn; unfold INT_MAX; lia|vm_compute; lia].
Qed.

Lemma dir_add_lookup_witness :
  ∃ s', dir_add 1%positive [98; 99] 12 dir_fs = Done (true, s') ∧
    ∃ e ofs s2, FileSys.lookup 1%positive [98; 99] s' = Done (Some (e, ofs), s2) ∧ e_sector e = 12.
Proof.
  destruct (dir_add_lookup 1%positive (Dir 1%positive 0) dir_inode_demo [98; 99] 12 dir_fs)
    as (ok & s' & Hrun & _ & _ & Hfound & _);
    [apply dir_fs_ok|reflexivity|lia|discriminate|vm_compute; lia|].
  assert (Some ok = Some true) as [= ->].
  { transitivity (match dir_add 1%positive [98; 99] 12 dir_fs with Done (x, _) => Some x | _ => None end);
      [by rewrite Hrun|vm_compute; reflexivity]. }
  exists s'. split; [exact Hrun|].
  destruct (Hfound eq_refl) as (e & ofs & s2 & Hl & He & _).
  exists e, ofs, s2. exact (conj Hl He).
Defined.

(** ** A refused bounce buffer *)

(** With no memory for the bounce buffer, reading the first entry gives nothing. *)
Lemma wp_read_refused t li i e m Q s :
  inodes s !! li = Some i → inode_ok (disk s) i → 20 ≤ length_ (data i) →
  mem s = false :: m → length e = 20%nat → Q (false, e) (with_mem m s) →
  wp t (read_entry li e 0) Q s.
Proof.
  intros Hl Hi Hlen Hm He HQ. unfold read_entry. apply wp_bind. unfold inode_read_at.
  rewrite loop_S. apply wp_bind. rewrite bool_decide_true by done. apply wp_bind.
  eapply wp_get_inode; [done|]. pose proof (io_length _ _ Hi).
  apply wp_bind, wp_chunk; [unfold INT_MAX; lia|done|]. cbn iota beta.
  unfold ENTRY_SIZE. rewrite Z.sub_0_r. change (0 mod 512) with 0.
  rewrite (Z.min_l 20) by lia. rewrite bool_decide_false by lia.
  apply wp_bind. unfold read_sector. cbn [bool_decide decide andb]. rewrite bool_decide_true by done.
  rewrite (bool_decide_false (20 = _)) by (unfold BLOCK_SECTOR_SIZE; lia). cbn [andb].
  apply wp_bind. unfold bounce_buf, malloc. apply wp_bind, wp_gets. rewrite Hm.
  apply wp_bind, wp_modify, wp_ret, wp_ret, wp_ret, wp_ret, wp_ret. cbn. exact HQ.
Qed.

(** C37 (error): when the allocation of the bounce buffer is refused in both searches of
    [dir_add], the short reads are taken for the end of the directory: the name is
    not found and the slot to fill is entry 0.  If memory is granted again for the
    write, [dir_add] returns true and has replaced entry 0, whatever it was, be it in
    use or under the very name that is added. *)
Theorem refused_buffer_overwrites l dd i name sec s m e0 :
  dir_ok (with_mem m s) l dd i → mem s = false :: false :: m → deny_write_cnt i = 0 →
  zstr name ≠ [] → (length (zstr name) ≤ NAME_MAX)%nat → entries (disk s) i !! 0%nat = Some e0 →
  ∃ s' e, dir_add l name sec s = Done (true, s') ∧ length e = 20%nat ∧
    entries (disk s') i = <[0%nat := new_entry name sec e]> (entries (disk s) i).
Proof.
  intros [Hdir Hl Hd Hi Hst Hg] Hm Hdeny Hne Hname [Hent _]%entries_lookup.
  cbn [disk stack dirs inodes with_mem] in *.
  pose proof (nent_fits _ _ 1 Hi ltac:(lia)) as Hlen. pose proof (io_length _ _ Hi).
  assert (wp Full (dir_add l name sec) (λ ok s', ok = true ∧ ∃ e, length e = 20%nat ∧
    entries (disk s') i = <[0%nat := new_entry name sec e]> (entries (disk s) i)) s) as Hwp.
  { unfold dir_add. rewrite !bool_decide_false by (done || lia). cbn [orb].
    apply wp_bind. unfold FileSys.lookup. apply wp_bind. eapply wp_get_dir; [done|].
    apply wp_bind. eapply wp_entry_fuel; [done|]. apply wp_bind, wp_gets. rewrite loop_S.
    apply wp_bind, wp_bind. eapply (wp_read_refused _ _ i _ (false :: m)); [done|done|lia|done|done|].
    apply wp_ret, wp_ret. apply wp_bind. eapply wp_get_dir; [done|].
    apply wp_bind. unfold free_slot. apply wp_bind. eapply wp_entry_fuel; [done|].
    apply wp_bind, wp_gets. rewrite loop_S. apply wp_bind, wp_bind.
    eapply (wp_read_refused _ _ i _ m); [done|done|lia|done|done|]. apply wp_ret, wp_ret.
    cbn [stack with_mem].
    change (set_sector sec (set_name name (set_in_use true (stack s)))) with (new_entry name sec (stack s)).
    pose proof (new_length name sec (stack s) Hname Hst) as Hnl. cbn [andb].
    apply wp_bind. eapply wp_mono; [apply (wp_write_at _ _ i); try done; rewrite ?Hnl; unfold ENTRY_SIZE, INT_MAX; lia|].
    cbn beta. intros n s' (m' & d & Hm' & -> & Hw & Hn & Hcnt). specialize (Hcnt Hg). apply wp_ret.
    unfold write_count in Hcnt. rewrite bool_decide_false in Hcnt by lia.
    assert (n = ENTRY_SIZE) as -> by (unfold ENTRY_SIZE in *; lia).
    split; [by apply bool_decide_true|]. exists (stack s). split; [done|].
    apply entries_insert; [done|done|lia|done|].
    rewrite <- (take_ge (new_entry name sec (stack s)) (Z.to_nat ENTRY_SIZE)) by (rewrite Hnl; done).
    change (20 * 0)%nat with (Z.to_nat 0). eapply written_content; [done|done|lia| |done].
    eapply (write_count_fits i ENTRY_SIZE); [lia|unfold write_count; rewrite bool_decide_false by lia; lia]. }
  destruct (wp_total_run _ _ _ Hwp) as (ok & s' & Hrun & -> & e & He & Hes). by exists s', e.
Qed.

Lemma refused_buffer_overwrites_witness :
  ∃ s' e, dir_add 1%positive [98; 99] 12 (with_mem [false; false] dir_fs) = Done (true, s') ∧
    find_entry [97] (entries (disk dir_fs) dir_inode_demo) ≠ None ∧
    entries (disk s') dir_inode_demo = <[0%nat := new_entry [98; 99] 12 e]> (entries (disk dir_fs) dir_inode_demo).
Proof.
  destruct (refused_buffer_overwrites 1%positive (Dir 1%positive 0) dir_inode_demo [98; 99] 12
    (with_mem [false; false] dir_fs) [] (entry (disk dir_fs) dir_inode_demo 0))
    as (s' & e & Hrun & _ & Hes);
    [apply dir_fs_ok|reflexivity|reflexivity|discriminate|vm_compute; lia|vm_compute; reflexivity|].
  exists s', e. split; [exact Hrun|]. split; [vm_compute; discriminate|exact Hes].
Defined.

(** ** A failed creation *)

Lemma dir_add_long l name sec :
  (NAME_MAX < length (zstr name))%nat → dir_add l name sec = mret false.
Proof.
  intros Hlong. unfold dir_add. rewrite (bool_decide_true (_ < _)%nat) by done.
  by rewrite orb_true_r.
Qed.

(** Names that are too long are all refused in the same way. *)
Lemma create_long name1 name2 size s :
  (NAME_MAX < length (zstr name1))%nat → (NAME_MAX < length (zstr name2))%nat →
  filesys_create name1 size s = filesys_create name2 size s.
Proof.
  intros H1 H2. unfold filesys_create, mbind, M_bind.
  destruct (dir_open_root s) as [[[d|] s1]| |]; [|done..].
  destruct (free_map_allocate 1 s1) as [[[sec|] s2]| |]; [|done..].
  destruct (inode_create sec size s2) as [[[] s3]| |]; [|done..].
  by rewrite !dir_add_long.
Qed.

(** An unformatted device of 32 sectors. *)
Definition blank_fs : fs :=
  Fs (replicate 32 (replicate 512 0)) (Bitmap 0 []) None [] ∅ ∅ ∅ [] (replicate 20 0).

Definition used (s : fs) : option Z := bitmap_count (free_map s) 0 (bit_cnt (free_map s)) true.

(** Format a device, then create a file of 1000 bytes. *)
Definition format_create (name : list Z) : M fs (option Z * bool * option Z) :=
  filesys_init true (Some [5]) true;;
  before ← gets used;
  ok ← filesys_create name 1000;
  after ← gets used;
  mret (before, ok, after).

(** Creating a file whose name [dir_add] refuses fails and gives the
    sector of the inode back, but not the two sectors of its data: four sectors are
    in use before, six afterwards, and the root directory, in sector 3, is still
    empty. *)
Theorem failed_create_leaks name :
  (NAME_MAX < length (zstr name))%nat →
  ∃ s, format_create name blank_fs = Done (Some 4, false, Some 6, s) ∧ disk s !! 3%nat = Some (replicate 512 0).
Proof.
  intros Hlong.
  assert (format_create name blank_fs = format_create (replicate 15 97) blank_fs) as ->.
  { unfold format_create, mbind, M_bind.
    destruct (filesys_init true (Some [5]) true blank_fs) as [[[] s1]| |]; [|done..].
    cbn [gets]. by rewrite (create_long name (replicate 15 97)) by (done || (vm_compute; lia)). }
  destruct (format_create (replicate 15 97) blank_fs) as [[[[x y] z] s]| |] eqn:Hrun;
    vm_compute in Hrun; [|discriminate..].
  injection Hrun as <- <- <- <-. eexists. split; [reflexivity|vm_compute; reflexivity].
Qed.

Lemma failed_create_leaks_witness :
  ∃ s, format_create (replicate 20 98) blank_fs = Done (Some 4, false, Some 6, s) ∧
    disk s !! 3%nat = Some (replicate 512 0).
Proof. apply (failed_create_leaks (replicate 20 98)). vm_compute. lia. Defined.
