(* ===== verification/KList.v ===== *)
(** * Pintos: doubly linked lists

    [Project_3/lib/kernel/list.c], the whole file.  The state is the heap of the
    [struct list_elem]s, each with its two links; a [struct list] is the pair of
    the addresses of its two header elements.  A link is [None] for a null pointer;
    element arguments are addresses, since a null one fails an assertion at once.
    A failed [ASSERT] and a null or dangling pointer are undefined behaviour.

    The callback [less], with its auxiliary data, compares the structures around
    two elements; it is a parameter of the operations that take it. *)

From S2P Require Import Prelude.
From stdpp Require Import base tactics list gmap.
From Stdlib Require Import ZArith Lia.

Abbreviation eptr := positive.

Record list_elem := ListElem { prev : option eptr; next : option eptr }.

Abbreviation lheap := (gmap eptr list_elem).

Record klist := KList { head : eptr; tail : eptr }.

(** [*e], [e->prev = p] and [e->next = p] *)
Definition rd (e : eptr) : M lheap list_elem := h ← get; assume_some (h !! e).
Definition set_prev (e : eptr) (p : option eptr) : M lheap unit :=
  x ← rd e; modify (<[e := ListElem p (next x)]>).
Definition set_next (e : eptr) (p : option eptr) : M lheap unit :=
  x ← rd e; modify (<[e := ListElem (prev x) p]>).

(** No loop visits an element twice. *)
Definition heap_fuel : M lheap nat := gets (λ h, S (size h)).

Definition non_null (o : option eptr) : bool := bool_decide (o ≠ None).

Definition is_head (elem : eptr) : M lheap bool :=
  x ← rd elem; mret (negb (non_null (prev x)) && non_null (next x)).
Definition is_interior (elem : eptr) : M lheap bool :=
  x ← rd elem; mret (non_null (prev x) && non_null (next x)).
Definition is_tail (elem : eptr) : M lheap bool :=
  x ← rd elem; mret (non_null (prev x) && negb (non_null (next x))).

(** ** Links *)

(** The two header elements are the storage of the [struct list]. *)
Definition list_init (l : klist) : M lheap unit :=
  modify (<[head l := ListElem None (Some (tail l))]>);;
  modify (<[tail l := ListElem (Some (head l)) None]>).

Definition list_begin (l : klist) : M lheap eptr := x ← rd (head l); assume_some (next x).

Definition list_next (elem : eptr) : M lheap eptr :=
  a ← is_head elem; c ← is_interior elem; check (a || c);;
  x ← rd elem; assume_some (next x).

Definition list_end (l : klist) : eptr := tail l.

Definition list_rbegin (l : klist) : M lheap eptr := x ← rd (tail l); assume_some (prev x).

Definition list_prev (elem : eptr) : M lheap eptr :=
  a ← is_interior elem; c ← is_tail elem; check (a || c);;
  x ← rd elem; assume_some (prev x).

Definition list_rend (l : klist) : eptr := head l.
Definition list_head (l : klist) : eptr := head l.
Definition list_tail (l : klist) : eptr := tail l.

Definition list_insert (before elem : eptr) : M lheap unit :=
  a ← is_interior before; c ← is_tail before; check (a || c);;
  x ← rd before; set_prev elem (prev x);;
  set_next elem (Some before);;
  x ← rd before; p ← assume_some (prev x); set_next p (Some elem);;
  set_prev before (Some elem).

Definition list_splice (before first last : eptr) : M lheap unit :=
  a ← is_interior before; c ← is_tail before; check (a || c);;
  if bool_decide (first = last) then mret tt
  else
    last ← list_prev last;
    a ← is_interior first; check a;;
    a ← is_interior last; check a;;
    (* first->prev->next = last->next; *)
    x ← rd first; p ← assume_some (prev x); y ← rd last; set_next p (next y);;
    (* last->next->prev = first->prev; *)
    y ← rd last; n ← assume_some (next y); x ← rd first; set_prev n (prev x);;
    z ← rd before; set_prev first (prev z);;
    set_next last (Some before);;
    z ← rd before; p ← assume_some (prev z); set_next p (Some first);;
    set_prev before (Some last).

Definition list_push_front (l : klist) (elem : eptr) : M lheap unit :=
  e ← list_begin l; list_insert e elem.

Definition list_push_back (l : klist) (elem : eptr) : M lheap unit :=
  list_insert (list_end l) elem.

Definition list_remove (elem : eptr) : M lheap eptr :=
  a ← is_interior elem; check a;;
  x ← rd elem; p ← assume_some (prev x); set_next p (next x);;
  x ← rd elem; n ← assume_some (next x); set_prev n (prev x);;
  x ← rd elem; assume_some (next x).

Definition list_empty (l : klist) : M lheap bool :=
  e ← list_begin l; mret (bool_decide (e = list_end l)).

Definition list_front (l : klist) : M lheap eptr :=
  e ← list_empty l; check (negb e);;
  x ← rd (head l); assume_some (next x).

Definition list_back (l : klist) : M lheap eptr :=
  e ← list_empty l; check (negb e);;
  x ← rd (tail l); assume_some (prev x).

Definition list_pop_front (l : klist) : M lheap eptr :=
  front ← list_front l; list_remove front;; mret front.

Definition list_pop_back (l : klist) : M lheap eptr :=
  back ← list_back l; list_remove back;; mret back.

(** A [size_t] counts at most the elements of the address space. *)
Definition list_size (l : klist) : M lheap nat :=
  fuel ← heap_fuel;
  e ← list_begin l;
  loop fuel
    (λ '(e, cnt),
       if bool_decide (e = list_end l) then mret (inr cnt)
       else e ← list_next e; mret (inl (e, S cnt))) (e, O).

(** [swap(&e->prev, &e->next)] *)
Definition swap_links (e : eptr) : M lheap unit :=
  x ← rd e; set_prev e (next x);; set_next e (prev x).

Definition list_reverse (l : klist) : M lheap unit :=
  empty ← list_empty l;
  if (empty : bool) then mret tt
  else
    fuel ← heap_fuel;
    e ← list_begin l;
    loop fuel
      (λ e,
         if bool_decide (e = list_end l) then mret (inr tt)
         else swap_links e;; x ← rd e; e ← assume_some (prev x); mret (inl e)) e;;
    (* swap(&list->head.next, &list->tail.prev); *)
    x ← rd (head l); y ← rd (tail l);
    set_next (head l) (prev y);; set_prev (tail l) (next x);;
    (* swap(&list->head.next->prev, &list->tail.prev->next); *)
    x ← rd (head l); a ← assume_some (next x);
    y ← rd (tail l); c ← assume_some (prev y);
    xa ← rd a; xc ← rd c; set_prev a (next xc);; set_next c (prev xa).

(** ** Order *)

Section order.
Context (less : eptr → eptr → bool).

(** [while ((a = list_next(a)) != b) if (less(a, list_prev(a), aux)) return false;] *)
Definition is_sorted (a b : eptr) : M lheap bool :=
  fuel ← heap_fuel;
  if bool_decide (a = b) then mret true
  else
    loop fuel
      (λ a,
         a ← list_next a;
         if bool_decide (a = b) then mret (inr true)
         else p ← list_prev a; if less a p then mret (inr false) else mret (inl a)) a.

Definition find_end_of_run (a b : eptr) : M lheap eptr :=
  fuel ← heap_fuel;
  check (bool_decide (a ≠ b));;
  loop fuel
    (λ a,
       a ← list_next a;
       if bool_decide (a = b) then mret (inr a)
       else p ← list_prev a; if less a p then mret (inr a) else mret (inl a)) a.

Definition inplace_merge (a0 a1b0 b1 : eptr) : M lheap unit :=
  s ← is_sorted a0 a1b0; check s;;
  s ← is_sorted a1b0 b1; check s;;
  fuel ← heap_fuel;
  loop fuel
    (λ '(a0, a1b0),
       if bool_decide (a0 ≠ a1b0) && bool_decide (a1b0 ≠ b1) then
         if negb (less a1b0 a0) then a0 ← list_next a0; mret (inl (a0, a1b0))
         else
           a1b0 ← list_next a1b0;
           p ← list_prev a1b0;
           list_splice a0 p a1b0;; mret (inl (a0, a1b0))
       else mret (inr tt)) (a0, a1b0).

(** One pass over the list; the number of runs it has put out. *)
Definition sort_pass (l : klist) : M lheap nat :=
  fuel ← heap_fuel;
  a0 ← list_begin l;
  loop fuel
    (λ '(a0, output_run_cnt),
       if bool_decide (a0 = list_end l) then mret (inr output_run_cnt)
       else
         let output_run_cnt := S output_run_cnt in
         a1b0 ← find_end_of_run a0 (list_end l);
         if bool_decide (a1b0 = list_end l) then mret (inr output_run_cnt)
         else
           b1 ← find_end_of_run a1b0 (list_end l);
           inplace_merge a0 a1b0 b1;;
           mret (inl (b1, output_run_cnt))) (a0, O).

Definition list_sort (l : klist) : M lheap unit :=
  fuel ← heap_fuel;
  loop fuel
    (λ _,
       output_run_cnt ← sort_pass l;
       mret (if bool_decide (1 < output_run_cnt) then inl tt else inr tt)) tt;;
  e ← list_begin l;
  s ← is_sorted e (list_end l); check s.

Definition list_insert_ordered (l : klist) (elem : eptr) : M lheap unit :=
  fuel ← heap_fuel;
  e ← list_begin l;
  e ← loop fuel
    (λ e,
       if bool_decide (e = list_end l) then mret (inr e)
       else if less elem e then mret (inr e)
       else e ← list_next e; mret (inl e)) e;
  list_insert e elem.

Definition list_unique (l : klist) (duplicates : option klist) : M lheap unit :=
  empty ← list_empty l;
  if (empty : bool) then mret tt
  else
    fuel ← heap_fuel;
    elem ← list_begin l;
    loop fuel
      (λ elem,
         nxt ← list_next elem;
         if bool_decide (nxt = list_end l) then mret (inr tt)
         else if negb (less elem nxt) && negb (less nxt elem) then
           list_remove nxt;;
           match duplicates with
           | Some d => list_push_back d nxt;; mret (inl elem)
           | None => mret (inl elem)
           end
         else mret (inl nxt)) elem.

(** The loop that [list_max] and [list_min] share; [better e m] replaces [m]. *)
Definition list_extreme (better : eptr → eptr → bool) (l : klist) : M lheap eptr :=
  m ← list_begin l;
  if bool_decide (m = list_end l) then mret m
  else
    fuel ← heap_fuel;
    e ← list_next m;
    loop fuel
      (λ '(m, e),
         if bool_decide (e = list_end l) then mret (inr m)
         else
           let m := if better e m then e else m in
           e ← list_next e; mret (inl (m, e))) (m, e).

Definition list_max (l : klist) : M lheap eptr := list_extreme (λ e max, less max e) l.
Definition list_min (l : klist) : M lheap eptr := list_extreme (λ e min, less e min) l.

End order.
