(* ===== verification/KListProps.v ===== *)
(** * Pintos: what doubly linked lists guarantee

    [dlist h l es] says that in the heap [h] the list [l] holds exactly the
    elements [es], with both links of every node right.  Each operation of [KList]
    is shown to implement the operation on [es], and to change no other node. *)

From stdpp Require Import base tactics list gmap sorting.
From Stdlib Require Import ZArith Lia.
From S2P Require Import Prelude KList.

Implicit Types (h : lheap) (l : klist) (es : list eptr).

(** ** Segments *)

Definition hd_or (n : option eptr) (L : list eptr) : option eptr :=
  match L with [] => n | a :: _ => Some a end.
Definition last_or (p : option eptr) (L : list eptr) : option eptr :=
  match last L with None => p | Some a => Some a end.

(** The nodes of [L], between [p] and [n], with both their links. *)
Fixpoint dseg h (p : option eptr) (L : list eptr) (n : option eptr) : Prop :=
  match L with
  | [] => True
  | a :: L' => h !! a = Some (ListElem p (hd_or n L')) ∧ dseg h (Some a) L' n
  end.

Lemma hd_or_app n L1 L2 : hd_or n (L1 ++ L2) = hd_or (hd_or n L2) L1.
Proof. by destruct L1. Qed.

Lemma last_or_cons p a L : last_or p (a :: L) = last_or (Some a) L.
Proof. unfold last_or. rewrite last_cons. by destruct (last L). Qed.

Lemma last_or_snoc p a L : last_or p (L ++ [a]) = Some a.
Proof. unfold last_or. by rewrite last_snoc. Qed.

Lemma dseg_app h p L1 L2 n :
  dseg h p (L1 ++ L2) n ↔ dseg h p L1 (hd_or n L2) ∧ dseg h (last_or p L1) L2 n.
Proof.
  revert p. induction L1 as [|a L1 IH]; intros p; cbn [app dseg].
  - by split; [split|intros [_ ?]].
  - rewrite IH, hd_or_app, last_or_cons. tauto.
Qed.

Lemma dseg_frame h h' p L n :
  (∀ a, a ∈ L → h' !! a = h !! a) → dseg h p L n → dseg h' p L n.
Proof.
  revert p. induction L as [|a L IH]; intros p Hf; cbn; [done|]. intros [Ha HL]. split.
  - rewrite Hf; [done|by left].
  - apply IH; [|done]. intros b Hb. apply Hf. by right.
Qed.

Lemma dseg_insert h p L n a x : a ∉ L → dseg h p L n → dseg (<[a := x]> h) p L n.
Proof.
  intros Ha. apply dseg_frame. intros b Hb. apply lookup_insert_ne. congruence.
Qed.

Lemma dseg_dom h p L n a : dseg h p L n → a ∈ L → is_Some (h !! a).
Proof.
  revert p. induction L as [|b L IH]; intros p; [by rewrite elem_of_nil|].
  intros [Hb HL] [->|Ha]%elem_of_cons; [by rewrite Hb|by eapply IH].
Qed.

(** ** Lists *)

Definition nodes l es : list eptr := head l :: es ++ [tail l].

Record dlist h l es : Prop := {
  dl_seg : dseg h None (nodes l es) None;
  dl_nodup : NoDup (nodes l es)
}.

(** Only nodes of [L] differ. *)
Definition same_but (L : list eptr) h h' : Prop := ∀ a, a ∉ L → h' !! a = h !! a.

Lemma same_but_refl L h : same_but L h h.
Proof. done. Qed.

Lemma same_but_trans L h1 h2 h3 : same_but L h1 h2 → same_but L h2 h3 → same_but L h1 h3.
Proof. intros H1 H2 a Ha. by rewrite H2, H1. Qed.

Lemma same_but_insert (L : list eptr) h h' a x :
  a ∈ L → same_but L h h' → same_but L h (<[a := x]> h').
Proof. intros Ha Hs c Hc. rewrite lookup_insert_ne by (intros ->; done). by apply Hs. Qed.

Lemma same_but_perm (L L' : list eptr) h h' : L ≡ₚ L' → same_but L h h' → same_but L' h h'.
Proof. intros HL Hs a Ha. apply Hs. by rewrite HL. Qed.

(** A node in the middle. *)
Lemma dseg_at h p L1 a L2 n :
  dseg h p (L1 ++ a :: L2) n → h !! a = Some (ListElem (last_or p L1) (hd_or n L2)).
Proof. rewrite dseg_app. cbn. tauto. Qed.

Lemma dlist_length h l es : dlist h l es → length es < size h.
Proof.
  intros [Hseg Hnd].
  assert (list_to_set (nodes l es) ⊆ dom h) as Hsub.
  { intros a Ha%elem_of_list_to_set. apply elem_of_dom. by eapply dseg_dom. }
  apply subseteq_size in Hsub. rewrite size_list_to_set, size_dom in Hsub by done.
  unfold nodes in Hsub. cbn in Hsub. rewrite length_app in Hsub. cbn in Hsub. lia.
Qed.

(** ** Rules for nodes *)

Lemma wp_rd t e x Q h : h !! e = Some x → Q x h → wp t (rd e) Q h.
Proof. intros He HQ. unfold rd. apply wp_bind, wp_get. by eapply wp_assume_some. Qed.

Lemma wp_set_prev t e p x Q h :
  h !! e = Some x → Q tt (<[e := ListElem p (next x)]> h) → wp t (set_prev e p) Q h.
Proof. intros He HQ. unfold set_prev. apply wp_bind. eapply wp_rd; [done|]. by apply wp_modify. Qed.

Lemma wp_set_next t e n x Q h :
  h !! e = Some x → Q tt (<[e := ListElem (prev x) n]> h) → wp t (set_next e n) Q h.
Proof. intros He HQ. unfold set_next. apply wp_bind. eapply wp_rd; [done|]. by apply wp_modify. Qed.

Lemma wp_is_interior t e x Q h :
  h !! e = Some x → Q (non_null (prev x) && non_null (next x)) h → wp t (is_interior e) Q h.
Proof. intros He HQ. unfold is_interior. apply wp_bind. eapply wp_rd; [done|]. by apply wp_ret. Qed.

Lemma wp_is_head t e x Q h :
  h !! e = Some x → Q (negb (non_null (prev x)) && non_null (next x)) h → wp t (is_head e) Q h.
Proof. intros He HQ. unfold is_head. apply wp_bind. eapply wp_rd; [done|]. by apply wp_ret. Qed.

Lemma wp_is_tail t e x Q h :
  h !! e = Some x → Q (non_null (prev x) && negb (non_null (next x))) h → wp t (is_tail e) Q h.
Proof. intros He HQ. unfold is_tail. apply wp_bind. eapply wp_rd; [done|]. by apply wp_ret. Qed.

(** [ASSERT(is_interior(e) || is_tail(e))] holds when there is a node before. *)
Lemma wp_has_prev {A} t e p n (k : M lheap A) Q h :
  h !! e = Some (ListElem (Some p) n) → wp t k Q h →
  wp t (a ← is_interior e; c ← is_tail e; check (a || c);; k) Q h.
Proof.
  intros He Hk. apply wp_bind. eapply wp_is_interior; [done|].
  apply wp_bind. eapply wp_is_tail; [done|]. apply wp_bind, wp_check; [by destruct n|done].
Qed.

Lemma wp_list_next t e p n Q h :
  h !! e = Some (ListElem p (Some n)) → Q n h → wp t (list_next e) Q h.
Proof.
  intros He HQ. unfold list_next. apply wp_bind. eapply wp_is_head; [done|].
  apply wp_bind. eapply wp_is_interior; [done|]. apply wp_bind, wp_check; [by destruct p|].
  apply wp_bind. eapply wp_rd; [done|]. by eapply wp_assume_some.
Qed.

Lemma wp_list_prev t e p n Q h :
  h !! e = Some (ListElem (Some p) n) → Q p h → wp t (list_prev e) Q h.
Proof.
  intros He HQ. unfold list_prev. eapply wp_has_prev; [done|].
  apply wp_bind. eapply wp_rd; [done|]. by eapply wp_assume_some.
Qed.

Lemma wp_interior {A} t e p n (k : M lheap A) Q h :
  h !! e = Some (ListElem (Some p) (Some n)) → wp t k Q h →
  wp t (a ← is_interior e; check a;; k) Q h.
Proof.
  intros He Hk. apply wp_bind. eapply wp_is_interior; [done|]. by apply wp_bind, wp_check.
Qed.

(** Reading back a node of a heap that has been written to. *)
Ltac heap_at := repeat (rewrite lookup_insert_eq || rewrite lookup_insert_ne by congruence); try done.

(** ** Inserting and removing *)

(** Links after [e] has been put between [p] and [q]. *)
Definition put_between (p e q : eptr) (xp xq : list_elem) h : lheap :=
  <[q := ListElem (Some e) (next xq)]> (<[p := ListElem (prev xp) (Some e)]>
    (<[e := ListElem (Some p) (Some q)]> h)).

Lemma wp_insert t p e q xp xe xq Q h :
  p ≠ q → e ≠ p → e ≠ q → h !! p = Some xp → h !! q = Some xq → h !! e = Some xe →
  prev xq = Some p → Q tt (put_between p e q xp xq h) → wp t (list_insert q e) Q h.
Proof.
  intros Hpq Hep Heq Hp Hq He Hprev HQ. destruct xq as [pq nq]. cbn in Hprev. subst pq.
  unfold list_insert. eapply wp_has_prev; [done|]. apply wp_bind. eapply wp_rd; [done|].
  apply wp_bind. eapply wp_set_prev; [done|]. apply wp_bind.
  eapply wp_set_next; [by heap_at|]. rewrite insert_insert_eq.
  apply wp_bind. eapply wp_rd; [by heap_at|]. apply wp_bind. eapply wp_assume_some; [done|].
  apply wp_bind. eapply wp_set_next; [by heap_at|].
  eapply wp_set_prev; [by heap_at|]. done.
Qed.

Lemma dseg_put h p e q xp xq A B :
  dseg h None (A ++ p :: q :: B) None → NoDup (A ++ p :: q :: B) → e ∉ A ++ p :: q :: B →
  h !! p = Some xp → h !! q = Some xq →
  dseg (put_between p e q xp xq h) None (A ++ p :: e :: q :: B) None.
Proof.
  intros Hseg Hnd He Hp Hq. pose proof Hseg as Hseg'.
  apply dseg_app in Hseg as (HA & Hp' & Hq' & HB). rewrite Hp in Hp'. rewrite Hq in Hq'.
  injection Hp' as ->. injection Hq' as ->.
  apply NoDup_app in Hnd as (HndA & HAd & [Hpn [Hqn HnB]%NoDup_cons]%NoDup_cons).
  rewrite elem_of_app, !elem_of_cons in He. rewrite elem_of_cons in Hpn.
  unfold put_between. cbn [prev next].
  assert (p ∉ A ∧ q ∉ A) as [HpA HqA].
  { split; intros Hx; apply (HAd _ Hx); rewrite !elem_of_cons; auto. }
  assert (p ≠ q ∧ e ≠ p ∧ e ≠ q) as (Hpq & Hep & Heq) by tauto.
  apply dseg_app. split; [|cbn; split_and!].
  - do 3 (apply dseg_insert; [tauto|]). done.
  - by heap_at.
  - by heap_at.
  - by heap_at.
  - do 3 (apply dseg_insert; [tauto|]). done.
Qed.

(** ** Relinking segments *)

(** The heap after [a->next = n] and after [a->prev = p]. *)
Definition put_next (a : eptr) (n : option eptr) h : lheap := alter (λ x, ListElem (prev x) n) a h.
Definition put_prev (a : eptr) (p : option eptr) h : lheap := alter (λ x, ListElem p (next x)) a h.

Lemma alter_insert_eq h a f x : h !! a = Some x → alter f a h = <[a := f x]> h.
Proof.
  intros Ha. apply map_eq. intros c. destruct (decide (c = a)) as [->|].
  - by rewrite lookup_alter_eq, lookup_insert_eq, Ha.
  - by rewrite lookup_alter_ne, lookup_insert_ne by done.
Qed.

Lemma wp_put_next t a n Q h : is_Some (h !! a) → Q tt (put_next a n h) → wp t (set_next a n) Q h.
Proof.
  intros [x Hx] HQ. eapply wp_set_next; [done|]. unfold put_next in HQ.
  by rewrite (alter_insert_eq _ _ _ _ Hx) in HQ.
Qed.

Lemma wp_put_prev t a p Q h : is_Some (h !! a) → Q tt (put_prev a p h) → wp t (set_prev a p) Q h.
Proof.
  intros [x Hx] HQ. eapply wp_set_prev; [done|]. unfold put_prev in HQ.
  by rewrite (alter_insert_eq _ _ _ _ Hx) in HQ.
Qed.

Lemma dseg_alter h p L n a f : a ∉ L → dseg h p L n → dseg (alter f a h) p L n.
Proof. intros Ha. apply dseg_frame. intros c Hc. apply lookup_alter_ne. congruence. Qed.

Lemma dseg_put_next h p L n a n' : a ∉ L → dseg h p L n → dseg (put_next a n' h) p L n.
Proof. apply dseg_alter. Qed.

Lemma dseg_put_prev h p L n a p' : a ∉ L → dseg h p L n → dseg (put_prev a p' h) p L n.
Proof. apply dseg_alter. Qed.

(** The segment [G] after a write to a node outside it. *)
Ltac keep_next a n G := apply (dseg_put_next _ _ _ _ a n) in G; [|tauto].
Ltac keep_prev a n G := apply (dseg_put_prev _ _ _ _ a n) in G; [|tauto].

Lemma dseg_relink_last h p L n a n' :
  NoDup L → last L = Some a → dseg h p L n → dseg (put_next a n' h) p L n'.
Proof.
  intros Hnd [L' ->]%last_Some Hseg. apply NoDup_app in Hnd as (_ & Hd & _).
  apply dseg_app in Hseg as [HL Ha]. apply dseg_app. split.
  - apply dseg_alter; [|done]. intros Hin. by apply (Hd _ Hin), list_elem_of_singleton.
  - destruct Ha as [Ha _]. cbn. unfold put_next. by rewrite lookup_alter_eq, Ha.
Qed.

Lemma dseg_relink_first h p L n a L' p' :
  NoDup L → L = a :: L' → dseg h p L n → dseg (put_prev a p' h) p' L n.
Proof.
  intros Hnd -> [Ha HL]. apply NoDup_cons in Hnd as [Hn _]. cbn. split.
  - unfold put_prev. by rewrite lookup_alter_eq, Ha.
  - by apply dseg_alter.
Qed.

Lemma dseg_first h p L n a L' :
  dseg h p L n → L = a :: L' → ∃ x, h !! a = Some x ∧ prev x = p.
Proof. intros Hseg ->. destruct Hseg as [Ha _]. eauto. Qed.

Lemma dseg_last h p L n a : dseg h p L n → last L = Some a → ∃ x, h !! a = Some x ∧ next x = n.
Proof. intros Hseg [L' ->]%last_Some. apply dseg_app in Hseg as [_ [Ha _]]. eauto. Qed.

Lemma same_but_alter (L : list eptr) h h' a f : a ∈ L → same_but L h h' → same_but L h (alter f a h').
Proof. intros Ha Hs c Hc. rewrite lookup_alter_ne by (intros ->; done). by apply Hs. Qed.

(** Two segments that follow each other. *)
Lemma dseg_join h p L1 L2 n b L2' m :
  dseg h p L1 (Some b) → L2 = b :: L2' → last_or p L1 = m → dseg h m L2 n → dseg h p (L1 ++ L2) n.
Proof. intros H1 -> <- H2. by apply dseg_app. Qed.

(** Taking [e] out from between two segments. *)
Lemma wp_remove t SA p e q B Q h :
  last SA = Some p → NoDup (SA ++ e :: q :: B) → dseg h None (SA ++ e :: q :: B) None →
  (∀ h', dseg h' None (SA ++ q :: B) None → same_but [p; q] h h' → Q q h') →
  wp t (list_remove e) Q h.
Proof.
  intros Hp Hnd Hseg HQ. pose proof Hseg as Hall.
  apply dseg_app in Hseg as [HA [He HB]]. cbn [hd_or] in *.
  assert (last_or None SA = Some p) as Hlp by (unfold last_or; by rewrite Hp).
  rewrite Hlp in He. pose proof Hp as [SA' HSA]%last_Some.
  apply NoDup_app in Hnd as (HndA & Hd & [Hen HndB]%NoDup_cons).
  assert (p ∈ SA) as HpA by (subst SA; apply elem_of_app; right; by left).
  assert (p ≠ e) by (intros ->; by apply (Hd e HpA); left).
  assert (p ∉ q :: B) by (intros Hx; apply (Hd p HpA); by right).
  assert (q ≠ e) by (intros ->; by apply Hen; left).
  assert (q ∉ SA) by (intros Hx; apply (Hd q Hx); right; by left).
  unfold list_remove. eapply wp_interior; [done|].
  apply wp_bind. eapply wp_rd; [done|]. apply wp_bind. eapply wp_assume_some; [done|]. cbn [next].
  apply wp_bind, wp_put_next; [eapply dseg_dom; [exact HA|done]|].
  eapply (dseg_relink_last _ _ _ _ p (Some q)) in HA; [|done|done].
  eapply dseg_alter in HB; [|done]. fold (put_next p (Some q) h) in HB.
  assert (put_next p (Some q) h !! e = Some (ListElem (Some p) (Some q))) as He1.
  { unfold put_next. by rewrite lookup_alter_ne. }
  apply wp_bind. eapply wp_rd; [done|]. apply wp_bind. eapply wp_assume_some; [done|]. cbn [prev].
  apply wp_bind, wp_put_prev; [eapply dseg_dom; [exact HB|by left]|].
  eapply dseg_alter in HA; [|done].
  eapply (dseg_relink_first _ _ _ _ q B (Some p)) in HB; [|done|done].
  apply wp_bind. eapply wp_rd; [unfold put_prev; by rewrite lookup_alter_ne|].
  eapply wp_assume_some; [done|]. apply HQ.
  - by eapply dseg_join.
  - do 2 (apply same_but_alter; [set_solver|]). done.
Qed.

Lemma dseg_interior h a L c e :
  dseg h (Some a) L (Some c) → e ∈ L → ∃ u v, h !! e = Some (ListElem (Some u) (Some v)).
Proof.
  revert a. induction L as [|d L IH]; intros a; [by rewrite elem_of_nil|].
  intros [Hd HL] [->|He]%elem_of_cons; [|by eapply IH].
  exists a. destruct L; cbn in Hd; eauto.
Qed.

(** Moving the segment [S] in front of [b], an earlier node of the same list. *)
Section splice.
Context (SA X S SB : list eptr) (p b m f s q : eptr) (X' S' B : list eptr).
Context (HSA : last SA = Some p) (HX : X = b :: X') (HXl : last X = Some m).
Context (HS : S = f :: S') (HSl : last S = Some s) (HSB : SB = q :: B).

Lemma splice_elems : p ∈ SA ∧ b ∈ X ∧ m ∈ X ∧ f ∈ S ∧ s ∈ S ∧ q ∈ SB.
Proof.
  split_and!; [by apply last_Some_elem_of|subst; set_solver|by apply last_Some_elem_of
    |subst; set_solver|by apply last_Some_elem_of|subst; set_solver].
Qed.

Lemma splice_disjoint :
  NoDup (SA ++ X ++ S ++ SB) →
  (NoDup SA ∧ NoDup X ∧ NoDup S ∧ NoDup SB) ∧
  (p ∉ X ∧ p ∉ S ∧ p ∉ SB) ∧ (b ∉ SA ∧ b ∉ S ∧ b ∉ SB) ∧ (m ∉ SA ∧ m ∉ S ∧ m ∉ SB) ∧
  (f ∉ SA ∧ f ∉ X ∧ f ∉ SB) ∧ (s ∉ SA ∧ s ∉ X ∧ s ∉ SB) ∧ (q ∉ SA ∧ q ∉ X ∧ q ∉ S).
Proof.
  destruct splice_elems as (? & ? & ? & ? & ? & ?).
  rewrite !NoDup_app. intros (? & HH1 & ? & HH2 & ? & HH3 & ?). split; [done|].
  setoid_rewrite not_elem_of_app in HH1. setoid_rewrite not_elem_of_app in HH1.
  setoid_rewrite not_elem_of_app in HH2.
  pose proof (HH1 p). pose proof (HH1 b). pose proof (HH1 m). pose proof (HH1 f).
  pose proof (HH1 s). pose proof (HH1 q). pose proof (HH2 b). pose proof (HH2 m).
  pose proof (HH2 f). pose proof (HH2 s). pose proof (HH2 q). pose proof (HH3 f).
  pose proof (HH3 s). pose proof (HH3 q). clear HH1 HH2 HH3. tauto.
Qed.

(** The four segments in the order of the list. *)
Definition four h (n1 p2 n2 p3 n3 p4 : option eptr) : Prop :=
  dseg h None SA n1 ∧ dseg h p2 X n2 ∧ dseg h p3 S n3 ∧ dseg h p4 SB None.

Lemma four_of h :
  dseg h None (SA ++ X ++ S ++ SB) None →
  four h (Some b) (Some p) (Some f) (Some m) (Some q) (Some s).
Proof.
  assert (last_or None SA = Some p) as E1 by (unfold last_or; by rewrite HSA).
  assert (last_or (Some p) X = Some m) as E2 by (unfold last_or; by rewrite HXl).
  assert (last_or (Some m) S = Some s) as E3 by (unfold last_or; by rewrite HSl).
  rewrite !dseg_app, E1, E2, E3. unfold four. subst X S SB. cbn [app hd_or]. done.
Qed.

Lemma of_four h :
  four h (Some f) (Some s) (Some q) (Some p) (Some b) (Some m) →
  dseg h None (SA ++ S ++ X ++ SB) None.
Proof.
  assert (last_or None SA = Some p) as E1 by (unfold last_or; by rewrite HSA).
  assert (last_or (Some s) X = Some m) as E2 by (unfold last_or; by rewrite HXl).
  assert (last_or (Some p) S = Some s) as E3 by (unfold last_or; by rewrite HSl).
  rewrite !dseg_app, E1, E3, E2. unfold four. subst X S SB. cbn [app hd_or]. tauto.
Qed.

Lemma wp_splice t Q h :
  NoDup (SA ++ X ++ S ++ SB) → dseg h None (SA ++ X ++ S ++ SB) None →
  (∀ h', dseg h' None (SA ++ S ++ X ++ SB) None → same_but (SA ++ X ++ S ++ SB) h h' → Q tt h') →
  wp t (list_splice b f q) Q h.
Proof.
  intros Hnd Hseg HQ. destruct splice_elems as (Ip & Ib & Im & If & Is & Iq).
  destruct (splice_disjoint Hnd) as ((N1 & N2 & N3 & N4) & Dp & Db & Dm & Df & Ds & Dq).
  assert (f ≠ q) by (intros ->; by apply Df).
  apply four_of in Hseg as (GA & GX & GS & GB). unfold list_splice.
  destruct (dseg_interior _ _ _ _ _ GX Ib) as (? & nb & Hb).
  assert (h !! b = Some (ListElem (Some p) (Some nb))) as Hb'.
  { rewrite HX in GX. destruct GX as [E _]. rewrite E in Hb |- *. injection Hb as _ ->. done. }
  eapply wp_has_prev; [done|]. rewrite bool_decide_false by done.
  pose proof GB as GB0. rewrite HSB in GB0. destruct GB0 as [Hq _].
  apply wp_bind. eapply wp_list_prev; [done|].
  destruct (dseg_interior _ _ _ _ _ GS If) as (? & ? & Hf). eapply wp_interior; [done|].
  destruct (dseg_interior _ _ _ _ _ GS Is) as (? & ? & Hs). eapply wp_interior; [done|].
  clear Hb Hb' Hq Hf Hs.
  (* m->next = q *)
  destruct (dseg_first _ _ _ _ _ _ GS HS) as (xf & Hf & Pf).
  destruct (dseg_last _ _ _ _ _ GS HSl) as (xs & Hs & Ns).
  apply wp_bind. eapply wp_rd; [exact Hf|]. apply wp_bind. eapply wp_assume_some; [exact Pf|].
  apply wp_bind. eapply wp_rd; [exact Hs|]. rewrite Ns.
  apply wp_bind, wp_put_next; [eapply dseg_dom; [exact GX|done]|]. clear Hf Hs.
  keep_next m (Some q) GA. keep_next m (Some q) GS. keep_next m (Some q) GB.
  apply (dseg_relink_last _ _ _ _ m (Some q)) in GX; [|done..].
  (* q->prev = m *)
  destruct (dseg_first _ _ _ _ _ _ GS HS) as (xf1 & Hf & Pf1).
  destruct (dseg_last _ _ _ _ _ GS HSl) as (xs1 & Hs & Ns1).
  apply wp_bind. eapply wp_rd; [exact Hs|]. apply wp_bind. eapply wp_assume_some; [exact Ns1|].
  apply wp_bind. eapply wp_rd; [exact Hf|]. rewrite Pf1.
  apply wp_bind, wp_put_prev; [eapply dseg_dom; [exact GB|done]|]. clear Hf Hs.
  keep_prev q (Some m) GA. keep_prev q (Some m) GX. keep_prev q (Some m) GS.
  apply (dseg_relink_first _ _ _ _ q B (Some m)) in GB; [|done..].
  (* f->prev = p *)
  destruct (dseg_first _ _ _ _ _ _ GX HX) as (xb & Hb & Pb).
  apply wp_bind. eapply wp_rd; [exact Hb|]. rewrite Pb.
  apply wp_bind, wp_put_prev; [eapply dseg_dom; [exact GS|done]|]. clear Hb.
  keep_prev f (Some p) GA. keep_prev f (Some p) GX. keep_prev f (Some p) GB.
  apply (dseg_relink_first _ _ _ _ f S' (Some p)) in GS; [|done..].
  (* s->next = b *)
  apply wp_bind, wp_put_next; [eapply dseg_dom; [exact GS|done]|].
  keep_next s (Some b) GA. keep_next s (Some b) GX. keep_next s (Some b) GB.
  apply (dseg_relink_last _ _ _ _ s (Some b)) in GS; [|done..].
  (* p->next = f *)
  destruct (dseg_first _ _ _ _ _ _ GX HX) as (xb1 & Hb & Pb1).
  apply wp_bind. eapply wp_rd; [exact Hb|]. apply wp_bind. eapply wp_assume_some; [exact Pb1|].
  apply wp_bind, wp_put_next; [eapply dseg_dom; [exact GA|done]|]. clear Hb.
  keep_next p (Some f) GX. keep_next p (Some f) GS. keep_next p (Some f) GB.
  apply (dseg_relink_last _ _ _ _ p (Some f)) in GA; [|done..].
  (* b->prev = s *)
  apply wp_put_prev; [eapply dseg_dom; [exact GX|done]|].
  keep_prev b (Some s) GA. keep_prev b (Some s) GS. keep_prev b (Some s) GB.
  apply (dseg_relink_first _ _ _ _ b X' (Some s)) in GX; [|done..].
  apply HQ.
  - apply of_four. done.
  - do 6 (apply same_but_alter; [rewrite !elem_of_app; tauto|]). apply same_but_refl.
Qed.

End splice.

(** ** Positions in a list *)

(** The node at a position with [es] behind it, and the one before a position with
    [es] in front of it. *)
Definition cur l es : eptr := match es with [] => tail l | e :: _ => e end.
Definition prv l es : eptr := default (head l) (last es).

Lemma cur_app l es : es ++ [tail l] = cur l es :: match es with [] => [] | _ :: r => r ++ [tail l] end.
Proof. by destruct es. Qed.

Lemma prv_last l es : last (head l :: es) = Some (prv l es).
Proof. unfold prv. rewrite last_cons. by destruct (last es). Qed.

Lemma nodes_split l es1 es2 : nodes l (es1 ++ es2) = (head l :: es1) ++ (es2 ++ [tail l]).
Proof. unfold nodes. cbn. by rewrite app_assoc. Qed.

Lemma dlist_split h l es1 es2 :
  dlist h l (es1 ++ es2) →
  dseg h None (head l :: es1) (Some (cur l es2)) ∧
  dseg h (Some (prv l es1)) (es2 ++ [tail l]) None.
Proof.
  intros [Hseg _]. rewrite nodes_split, dseg_app in Hseg. rewrite cur_app in Hseg at 1.
  unfold last_or in Hseg. by rewrite prv_last in Hseg.
Qed.

Lemma dlist_node h l es1 e es2 :
  dlist h l (es1 ++ e :: es2) → h !! e = Some (ListElem (Some (prv l es1)) (Some (cur l es2))).
Proof. intros [_ [He _]]%dlist_split. rewrite He. by destruct es2. Qed.

Lemma dlist_tail h l es : dlist h l es → h !! tail l = Some (ListElem (Some (prv l es)) None).
Proof. rewrite <- (app_nil_r es) at 1. by intros [_ [Ht _]]%dlist_split. Qed.

Lemma dlist_head h l es : dlist h l es → h !! head l = Some (ListElem None (Some (cur l es))).
Proof. intros Hd. destruct (dlist_split h l [] es Hd) as [[Hh _] _]. done. Qed.

(** The node at a position, with the links that matter. *)
Lemma dlist_cur h l es1 es2 :
  dlist h l (es1 ++ es2) → ∃ n, h !! cur l es2 = Some (ListElem (Some (prv l es1)) n).
Proof.
  destruct es2 as [|e es2]; intros Hd; cbn [cur].
  - rewrite app_nil_r in Hd. eexists. by apply dlist_tail.
  - eexists. by eapply dlist_node.
Qed.

Lemma dlist_not_end h l es1 e es2 : dlist h l (es1 ++ e :: es2) → e ≠ tail l.
Proof.
  intros [_ Hnd]. rewrite nodes_split in Hnd. apply NoDup_app in Hnd as (_ & _ & Hnd).
  intros ->. cbn in Hnd. apply NoDup_cons in Hnd as [Hn _]. apply Hn, elem_of_app. right. by left.
Qed.

Lemma cur_end h l es1 es2 : dlist h l (es1 ++ es2) → cur l es2 = tail l ↔ es2 = [].
Proof.
  intros Hd. destruct es2 as [|e es2]; [done|]. cbn. split; [|done].
  intros He. by apply dlist_not_end in Hd.
Qed.

Lemma wp_list_begin t l es Q h : dlist h l es → Q (cur l es) h → wp t (list_begin l) Q h.
Proof.
  intros Hd HQ. unfold list_begin. apply wp_bind.
  eapply wp_rd; [by apply (dlist_head _ _ es)|]. by eapply wp_assume_some.
Qed.

Lemma wp_next_dlist t l es1 e es2 Q h :
  dlist h l (es1 ++ e :: es2) → Q (cur l es2) h → wp t (list_next e) Q h.
Proof. intros Hd HQ. eapply wp_list_next; [by eapply dlist_node|done]. Qed.

Lemma wp_prev_dlist t l es1 es2 Q h :
  dlist h l (es1 ++ es2) → Q (prv l es1) h → wp t (list_prev (cur l es2)) Q h.
Proof. intros Hd HQ. destruct (dlist_cur _ _ _ _ Hd) as [n Hn]. by eapply wp_list_prev. Qed.

Lemma wp_heap_fuel t Q h : Q (S (size h)) h → wp t heap_fuel Q h.
Proof. done. Qed.

Lemma wp_list_empty t l es Q h :
  dlist h l es → Q (bool_decide (es = [])) h → wp t (list_empty l) Q h.
Proof.
  intros Hd HQ. unfold list_empty. apply wp_bind. eapply wp_list_begin; [done|]. apply wp_ret.
  unfold list_end. rewrite (bool_decide_ext _ (es = [])); [done|]. by eapply (cur_end h l []).
Qed.

(** ** The operations on a list *)

Lemma wp_insert_dlist t l es1 es2 e Q h :
  dlist h l (es1 ++ es2) → e ∉ nodes l (es1 ++ es2) → is_Some (h !! e) →
  (∀ h', dlist h' l (es1 ++ e :: es2) → same_but (e :: nodes l (es1 ++ es2)) h h' → Q tt h') →
  wp t (list_insert (cur l es2) e) Q h.
Proof.
  intros Hd He [xe Hxe] HQ. pose proof Hd as [Hseg Hnd].
  pose proof (prv_last l es1) as [A HA]%last_Some.
  rewrite nodes_split, HA, cur_app, <- app_assoc in Hseg, Hnd, He. cbn [app] in Hseg, Hnd, He.
  set (B := match es2 with [] => [] | _ :: r => r ++ [tail l] end) in *.
  pose proof (dseg_at _ _ _ _ _ _ Hseg) as Hp.
  destruct (dlist_cur _ _ _ _ Hd) as [n Hq].
  assert (e ≠ prv l es1 ∧ e ≠ cur l es2 ∧ e ∉ A ∧ e ∉ B) as (Hep & Heq & HeA & HeB).
  { rewrite elem_of_app, !elem_of_cons in He. tauto. }
  assert (prv l es1 ≠ cur l es2) as Hpq.
  { apply NoDup_app in Hnd as (_ & _ & [Hx _]%NoDup_cons). intros E. apply Hx. rewrite E. by left. }
  eapply (wp_insert _ (prv l es1)); [done|done|done|exact Hp|exact Hq|exact Hxe|done|].
  apply HQ.
  - split; rewrite nodes_split, HA; cbn [app]; rewrite cur_app, <- app_assoc.
    + by apply dseg_put.
    + cbn [app]. apply (NoDup_Permutation_proper _ (e :: A ++ prv l es1 :: cur l es2 :: B)).
      { rewrite <- !Permutation_middle. constructor. }
      by apply NoDup_cons.
  - rewrite nodes_split, HA, cur_app, <- app_assoc. cbn [app]. unfold put_between.
    repeat (apply same_but_insert; [rewrite ?elem_of_cons, ?elem_of_app, ?elem_of_cons; tauto|]).
    apply same_but_refl.
Qed.

Lemma wp_remove_dlist t l es1 e es2 Q h :
  dlist h l (es1 ++ e :: es2) →
  (∀ h', dlist h' l (es1 ++ es2) → same_but (nodes l (es1 ++ es2)) h h' → Q (cur l es2) h') →
  wp t (list_remove e) Q h.
Proof.
  intros [Hseg Hnd] HQ. rewrite nodes_split in Hseg, Hnd.
  change ((e :: es2) ++ [tail l]) with (e :: (es2 ++ [tail l])) in Hseg, Hnd.
  pose proof (prv_last l es1) as Hp. rewrite (cur_app l es2) in Hseg, Hnd.
  eapply wp_remove; [exact Hp|exact Hnd|exact Hseg|]. intros h' Hseg' Hs. apply HQ.
  - split; rewrite nodes_split, cur_app; [done|].
    apply NoDup_app in Hnd as (N1 & N2 & [_ N3]%NoDup_cons). apply NoDup_app.
    split_and!; [done| |done]. intros a Ha Hb. apply (N2 a Ha). by right.
  - intros a Ha. apply Hs. rewrite nodes_split, cur_app in Ha. apply not_elem_of_app in Ha as [H1 H2].
    intros [->|[->|[]%elem_of_nil]%elem_of_cons]%elem_of_cons.
    + apply H1. by apply last_Some_elem_of.
    + apply H2. by left.
Qed.

Lemma wp_push_front t l es e Q h :
  dlist h l es → e ∉ nodes l es → is_Some (h !! e) →
  (∀ h', dlist h' l (e :: es) → same_but (e :: nodes l es) h h' → Q tt h') →
  wp t (list_push_front l e) Q h.
Proof.
  intros Hd He Hx HQ. unfold list_push_front. apply wp_bind. eapply wp_list_begin; [done|].
  by apply (wp_insert_dlist _ _ [] es).
Qed.

Lemma wp_push_back t l es e Q h :
  dlist h l es → e ∉ nodes l es → is_Some (h !! e) →
  (∀ h', dlist h' l (es ++ [e]) → same_but (e :: nodes l es) h h' → Q tt h') →
  wp t (list_push_back l e) Q h.
Proof.
  intros Hd He Hx HQ. unfold list_push_back, list_end. rewrite <- (app_nil_r es) in Hd, He.
  apply (wp_insert_dlist _ l es []); [done|done|done|]. rewrite app_nil_r. done.
Qed.

Lemma wp_list_front t l e es Q h : dlist h l (e :: es) → Q e h → wp t (list_front l) Q h.
Proof.
  intros Hd HQ. unfold list_front. apply wp_bind. eapply wp_list_empty; [done|].
  apply wp_bind, wp_check; [done|]. apply wp_bind.
  eapply wp_rd; [by eapply dlist_head|]. by eapply wp_assume_some.
Qed.

Lemma wp_list_back t l es e Q h : dlist h l (es ++ [e]) → Q e h → wp t (list_back l) Q h.
Proof.
  intros Hd HQ. unfold list_back. apply wp_bind. eapply wp_list_empty; [done|].
  apply wp_bind, wp_check; [by destruct es|]. apply wp_bind.
  eapply wp_rd; [by eapply dlist_tail|]. cbn [prev]. unfold prv. rewrite last_snoc.
  by eapply wp_assume_some.
Qed.

Lemma wp_pop_front t l e es Q h :
  dlist h l (e :: es) → (∀ h', dlist h' l es → same_but (nodes l es) h h' → Q e h') →
  wp t (list_pop_front l) Q h.
Proof.
  intros Hd HQ. unfold list_pop_front. apply wp_bind. eapply wp_list_front; [done|].
  apply wp_bind. apply (wp_remove_dlist _ l [] e es); [done|]. intros h' Hd' Hs. by apply wp_ret, HQ.
Qed.

Lemma wp_pop_back t l es e Q h :
  dlist h l (es ++ [e]) → (∀ h', dlist h' l es → same_but (nodes l es) h h' → Q e h') →
  wp t (list_pop_back l) Q h.
Proof.
  intros Hd HQ. unfold list_pop_back. apply wp_bind. eapply wp_list_back; [done|].
  apply wp_bind. apply (wp_remove_dlist _ l es e []); [done|]. rewrite app_nil_r.
  intros h' Hd' Hs. by apply wp_ret, HQ.
Qed.

(** ** Walking along a list *)

(** A loop over positions: the locals tell how far it is. *)
Lemma wp_list_walk {L A} t l es (I : list eptr → list eptr → L → lheap → Prop)
    (Q : A → lheap → Prop) (body : L → M lheap (L + A)) a0 h :
  dlist h l es → I [] es a0 h →
  (∀ es1 es2 a h', es = es1 ++ es2 → I es1 es2 a h' →
     wp Full (body a)
       (λ r h'', match r with
                 | inl a' => ∃ es1' es2', es = es1' ++ es2' ∧ I es1' es2' a' h'' ∧
                     length es2' < length es2
                 | inr x => Q x h''
                 end) h') →
  wp t (loop (S (size h)) body a0) Q h.
Proof.
  intros Hd HI Hbody. apply wp_full. pose proof (dlist_length _ _ _ Hd) as Hlen.
  assert (∀ fuel es1 es2 a h', es = es1 ++ es2 → I es1 es2 a h' → length es2 < fuel →
    wp Full (loop fuel body a) Q h') as Hgo.
  { induction fuel as [|n IH]; intros es1 es2 a h' He HI' Hf; [lia|].
    rewrite loop_S. apply wp_bind. eapply wp_mono; [by eapply Hbody|].
    intros [a'|x] h''; [|by intros; apply wp_ret].
    intros (es1' & es2' & He' & HI'' & Hlt). eapply IH; [done|done|lia]. }
  eapply (Hgo _ [] es); [done|done|lia].
Qed.

Lemma end_decide h l es1 es2 :
  dlist h l (es1 ++ es2) → bool_decide (cur l es2 = tail l) = bool_decide (es2 = []).
Proof. intros Hd. apply bool_decide_ext. by eapply cur_end. Qed.

Lemma wp_list_size t l es Q h : dlist h l es → Q (length es) h → wp t (list_size l) Q h.
Proof.
  intros Hd HQ. unfold list_size, list_end. apply wp_bind, wp_heap_fuel.
  apply wp_bind. eapply wp_list_begin; [done|].
  apply (wp_list_walk _ l es (λ es1 es2 '(e, cnt) h', h' = h ∧ e = cur l es2 ∧ cnt = length es1)); [done|done|].
  intros es1 es2 [e cnt] h' -> (-> & -> & ->). rewrite (end_decide _ _ _ _ Hd).
  destruct es2 as [|e es2]; cbn [bool_decide decide_rel].
  - apply wp_ret. by rewrite app_nil_r in HQ.
  - apply wp_bind. eapply wp_next_dlist; [done|]. apply wp_ret.
    exists (es1 ++ [e]), es2. rewrite <- app_assoc, length_app. cbn [length]. split_and!; try done; lia.
Qed.

(** ** Reversing *)

Lemma hd_reverse l es : hd_or (Some (head l)) (reverse es) = Some (prv l es).
Proof.
  unfold prv. destruct es as [|e es _] using rev_ind; [done|]. by rewrite reverse_snoc, last_snoc.
Qed.

(** Part [es1] of the list has been turned around, [es2] not yet. *)
Record turning l es es1 es2 h h' : Prop := {
  tu_done : dseg h' (Some (cur l es2)) (reverse es1) (Some (head l));
  tu_rest : dseg h' (Some (prv l es1)) (es2 ++ [tail l]) None;
  tu_head : h' !! head l = Some (ListElem None (Some (cur l es)));
  tu_same : same_but (nodes l es) h h'
}.

Lemma turning_step l es es1 e es2 h h' :
  NoDup (nodes l es) → es = es1 ++ e :: es2 → turning l es es1 (e :: es2) h h' →
  turning l es (es1 ++ [e]) es2 h
    (<[e := ListElem (Some (cur l es2)) (Some (prv l es1))]> h').
Proof.
  intros Hnd Hes [Hdone Hrest Hhead Hsame]. rewrite Hes in Hnd. unfold nodes in Hnd.
  apply NoDup_cons in Hnd as [Hh Hnd]. rewrite <- app_assoc in Hnd.
  apply NoDup_app in Hnd as (_ & Hd & Hnd). cbn [app] in Hnd, Hd. apply NoDup_cons in Hnd as [Hn _].
  assert (e ∉ es1) by (intros Hx; apply (Hd e Hx); by left).
  assert (e ≠ head l) by (intros ->; apply Hh; rewrite <- app_assoc, !elem_of_app; right; left; by left).
  split.
  - rewrite reverse_snoc. cbn [dseg]. rewrite lookup_insert_eq, hd_reverse. split; [done|].
    apply dseg_insert; [by rewrite elem_of_reverse|done].
  - destruct Hrest as [_ Hrest]. unfold prv. rewrite last_snoc. by apply dseg_insert.
  - by rewrite lookup_insert_ne.
  - apply same_but_insert; [|done]. rewrite Hes. unfold nodes.
    rewrite elem_of_cons, !elem_of_app, elem_of_cons. tauto.
Qed.

Lemma wp_reverse_loop t l es Q h :
  dlist h l es → (∀ h', turning l es es [] h h' → Q tt h') →
  wp t (loop (S (size h))
      (λ e,
         if bool_decide (e = list_end l) then mret (inr tt)
         else swap_links e;; x ← rd e; e ← assume_some (prev x); mret (inl e)) (cur l es)) Q h.
Proof.
  intros Hd HQ. pose proof Hd as [_ Hnd]. unfold list_end.
  apply (wp_list_walk _ l es (λ es1 es2 e h', e = cur l es2 ∧ turning l es es1 es2 h h')); [done| |].
  { split; [done|]. destruct (dlist_split h l [] es Hd) as [[Hh _] Hr]. split; done. }
  intros es1 es2 e h' Hes [-> Htu]. pose proof Hd as Hd'. rewrite Hes in Hd'.
  rewrite (end_decide _ _ _ _ Hd'). destruct es2 as [|e es2]; cbn [bool_decide decide_rel].
  { apply wp_ret. rewrite app_nil_r in Hes. subst es1. by apply HQ. }
  assert (h' !! e = Some (ListElem (Some (prv l es1)) (Some (cur l es2)))) as He.
  { destruct Htu as [_ [He _] _ _]. rewrite He. by destruct es2. }
  cbn [cur]. unfold swap_links. apply wp_bind, wp_bind. eapply wp_rd; [done|].
  apply wp_bind. eapply wp_set_prev; [done|]. eapply wp_set_next; [by rewrite lookup_insert_eq|].
  rewrite insert_insert_eq. apply wp_bind. eapply wp_rd; [by rewrite lookup_insert_eq|].
  apply wp_bind. eapply wp_assume_some; [done|]. apply wp_ret.
  exists (es1 ++ [e]), es2. split_and!; [by rewrite <- app_assoc|done| |cbn; lia].
  by apply turning_step.
Qed.

Lemma dlist_make h l es :
  NoDup (nodes l es) → h !! head l = Some (ListElem None (Some (cur l es))) →
  dseg h (Some (head l)) es (Some (tail l)) →
  h !! tail l = Some (ListElem (Some (prv l es)) None) → dlist h l es.
Proof.
  intros Hnd Hh Hes Ht. split; [|done]. unfold nodes. cbn [dseg]. split.
  - rewrite Hh. by destruct es.
  - apply dseg_app. split; [done|]. cbn. rewrite Ht. split; [|done].
    unfold prv, last_or. by destruct (last es).
Qed.

Lemma nodes_reverse l es : nodes l (reverse es) ≡ₚ nodes l es.
Proof. unfold nodes. by rewrite reverse_Permutation. Qed.

(** The two swaps behind the loop. *)
Lemma wp_reverse_ends t l c r Q h h1 :
  let es := c :: r in
  dlist h l es → turning l es es [] h h1 →
  (∀ h', dlist h' l (reverse es) → same_but (nodes l es) h h' → Q tt h') →
  wp t (x ← rd (head l); y ← rd (tail l);
        set_next (head l) (prev y);; set_prev (tail l) (next x);;
        x ← rd (head l); a ← assume_some (next x);
        y ← rd (tail l); c ← assume_some (prev y);
        xa ← rd a; xc ← rd c; set_prev a (next xc);; set_next c (prev xa)) Q h1.
Proof.
  intros es Hd [Hdone [Htail _] Hhead Hsame] HQ. cbn [cur hd_or] in Hdone, Htail.
  pose proof (dl_nodup _ _ _ Hd) as Hnd.
  assert (NoDup (reverse es) ∧ head l ∉ reverse es ∧ tail l ∉ reverse es ∧ head l ≠ tail l)
    as (Hndr & Hhr & Htr & Hht).
  { unfold nodes in Hnd. rewrite NoDup_cons, NoDup_app, elem_of_app, list_elem_of_singleton in Hnd.
    destruct Hnd as (Hh & Hn & Ht & _). rewrite !elem_of_reverse.
    split_and!; [by rewrite reverse_Permutation|tauto| |tauto]. intros Hx. by apply (Ht _ Hx), list_elem_of_singleton. }
  assert (last (reverse es) = Some c) as Hlast by (unfold es; by rewrite reverse_cons, last_snoc).
  assert (∃ r', reverse es = prv l es :: r') as [r' Hr'].
  { pose proof (hd_reverse l es) as Hhd. destruct (reverse es) as [|a r'].
    - by rewrite last_nil in Hlast.
    - cbn in Hhd. injection Hhd as ->. by exists r'. }
  set (a := prv l es) in *.
  apply wp_bind. eapply wp_rd; [exact Hhead|]. apply wp_bind. eapply wp_rd; [exact Htail|].
  apply wp_bind. eapply wp_set_next; [exact Hhead|]. apply wp_bind.
  eapply wp_set_prev; [by heap_at|]. cbn [prev next].
  set (h2 := <[tail l := _]> _).
  assert (dseg h2 (Some (tail l)) (reverse es) (Some (head l))) as G.
  { unfold h2. apply dseg_insert; [done|]. by apply dseg_insert. }
  apply wp_bind. eapply wp_rd; [unfold h2; by heap_at|]. apply wp_bind. eapply wp_assume_some; [done|].
  apply wp_bind. eapply wp_rd; [unfold h2; by heap_at|]. apply wp_bind. eapply wp_assume_some; [done|].
  change (cur l es) with c.
  destruct (dseg_first _ _ _ _ _ _ G Hr') as (xa & Hxa & Pa).
  destruct (dseg_last _ _ _ _ _ G Hlast) as (xc & Hxc & Nc).
  apply wp_bind. eapply wp_rd; [exact Hxa|]. apply wp_bind. eapply wp_rd; [exact Hxc|].
  rewrite Nc, Pa. apply wp_bind, wp_put_prev; [eauto|].
  apply (dseg_relink_first _ _ _ _ a r' (Some (head l))) in G; [|done..].
  assert (a ∈ reverse es ∧ c ∈ reverse es) as [Ia Ic].
  { split; [rewrite Hr'; by left|by apply last_Some_elem_of]. }
  apply wp_put_next; [eapply dseg_dom; [exact G|done]|].
  apply (dseg_relink_last _ _ _ _ c (Some (tail l))) in G; [|done..].
  assert (∀ z x, z ∉ reverse es → h2 !! z = x →
    put_next c (Some (tail l)) (put_prev a (Some (head l)) h2) !! z = x) as Hz.
  { intros z x Hz <-. unfold put_next, put_prev. by rewrite !lookup_alter_ne by congruence. }
  apply HQ.
  - apply dlist_make; [by rewrite nodes_reverse|apply Hz; [done|]|done|apply Hz; [done|]].
    + unfold h2. heap_at. by rewrite Hr'.
    + unfold h2. heap_at. unfold prv. by rewrite Hlast.
  - rewrite elem_of_reverse in Ia, Ic.
    assert (∀ z, z ∈ es → z ∈ nodes l es) as Hin.
    { intros z Hz'. unfold nodes. rewrite elem_of_cons, elem_of_app. tauto. }
    do 2 (apply same_but_alter; [by apply Hin|]).
    do 2 (apply same_but_insert;
      [unfold nodes; rewrite elem_of_cons, elem_of_app, list_elem_of_singleton; tauto|]). done.
Qed.

Lemma wp_list_reverse t l es Q h :
  dlist h l es → (∀ h', dlist h' l (reverse es) → same_but (nodes l es) h h' → Q tt h') →
  wp t (list_reverse l) Q h.
Proof.
  intros Hd HQ. unfold list_reverse. apply wp_bind. eapply wp_list_empty; [done|].
  destruct es as [|c r].
  { apply wp_ret. by apply HQ. }
  apply wp_bind, wp_heap_fuel, wp_bind. eapply wp_list_begin; [done|].
  apply wp_bind, (wp_reverse_loop _ _ (c :: r)); [done|].
  intros h1 Htu. by apply (wp_reverse_ends _ _ c r _ h).
Qed.
