(* ===== verification/KListSort.v ===== *)
(** * Pintos: sorting doubly linked lists

    The natural merge sort of [list.c]: [find_end_of_run], [inplace_merge] and the
    passes of [list_sort].  Every pass ends; the number of runs at least halves, so
    the number of elements bounds the number of passes.  The result is a sorted,
    stable rearrangement of the list. *)

From stdpp Require Import base tactics list gmap sorting.
From Stdlib Require Import ZArith Lia.
From S2P Require Import Prelude KList KListProps.

Implicit Types (h : lheap) (l : klist) (es A B : list eptr).

(** ** Ranges *)

Lemma cur_range h l es1 A es2 :
  dlist h l (es1 ++ A ++ es2) → cur l (A ++ es2) = cur l es2 ↔ A = [].
Proof.
  intros [_ Hnd]. rewrite nodes_split in Hnd. apply NoDup_app in Hnd as (_ & _ & Hnd).
  destruct A as [|a A]; [done|]. split; [|done]. cbn. intros ->. exfalso.
  cbn in Hnd. apply NoDup_cons in Hnd as [Hn _]. apply Hn.
  rewrite <- app_assoc, elem_of_app. right. rewrite cur_app. by left.
Qed.

Lemma dlist_size h l es1 A es2 : dlist h l (es1 ++ A ++ es2) → length A < size h.
Proof. intros Hd%dlist_length. rewrite !length_app in Hd. lia. Qed.

(** What the callback must be: a strict weak order. *)
Class WeakOrder (less : eptr → eptr → bool) : Prop := {
  wo_asym : ∀ x y, less x y = true → less y x = false;
  wo_negtrans : ∀ x y z, less y x = false → less z y = false → less z x = false
}.

Section sort.
Context (less : eptr → eptr → bool).

(** [x] may stand before [y]. *)
Definition le (x y : eptr) : Prop := less y x = false.

#[global] Instance le_dec x y : Decision (le x y).
Proof. unfold le. apply _. Defined.

Lemma sorted_snoc A x y : Sorted le (A ++ [x]) → le x y → Sorted le (A ++ [x; y]).
Proof.
  induction A as [|a A IH]; cbn; intros Hs Hxy.
  - repeat constructor; done.
  - inversion Hs as [|?? Hs' Hhd]; subst. constructor; [by apply IH|].
    destruct A; cbn in *; inversion Hhd; by constructor.
Qed.

Lemma sorted_app_l A B : Sorted le (A ++ B) → Sorted le A.
Proof.
  induction A as [|a A IH]; cbn; intros Hs; [constructor|].
  inversion Hs as [|?? Hs' Hhd]; subst. constructor; [by apply IH|].
  destruct A; [constructor|]. inversion Hhd. by constructor.
Qed.

Lemma sorted_break A x y B : Sorted le (A ++ x :: y :: B) → le x y.
Proof.
  induction A as [|a A IH]; cbn; intros Hs; inversion Hs as [|?? Hs' Hhd]; subst; [|by apply IH].
  by inversion Hhd.
Qed.

(** A step of the loops of [is_sorted] and [find_end_of_run]: they look at the
    element behind [a] in a range that ends before [es2]. *)
Lemma wp_run_step {X} t l es1 A1 a A2 es2 h (stop : eptr → X) (cut : eptr → X) Q :
  dlist h l (es1 ++ (A1 ++ a :: A2) ++ es2) →
  (A2 = [] → Q (inr (stop (cur l es2))) h) →
  (∀ y A2', A2 = y :: A2' → less y a = true → Q (inr (cut y)) h) →
  (∀ y A2', A2 = y :: A2' → le a y → Q (inl y) h) →
  wp t (a ← list_next a;
        if bool_decide (a = cur l es2) then mret (inr (stop a))
        else p ← list_prev a; if less a p then mret (inr (cut a)) else mret (inl a)) Q h.
Proof.
  intros Hd Hstop Hcut Hgo.
  assert (dlist h l ((es1 ++ A1) ++ a :: (A2 ++ es2))) as Hd1
    by (rewrite <- app_assoc; by rewrite <- app_assoc in Hd).
  apply wp_bind. eapply wp_next_dlist; [exact Hd1|].
  assert (dlist h l ((es1 ++ A1 ++ [a]) ++ A2 ++ es2)) as Hd2
    by (rewrite <- !app_assoc; by rewrite <- app_assoc in Hd).
  rewrite (bool_decide_ext _ (A2 = [])) by by eapply cur_range.
  destruct A2 as [|y A2].
  - apply wp_ret. by apply Hstop.
  - cbn [bool_decide decide_rel]. apply wp_bind.
    eapply (wp_prev_dlist _ _ (es1 ++ A1 ++ [a]) (y :: A2 ++ es2)); [done|].
    unfold prv. rewrite app_assoc, last_snoc. cbn [default id app cur].
    destruct (less y a) eqn:Hl; apply wp_ret; [by eapply Hcut|by eapply Hgo].
Qed.

(** A walk along the range [A] that stops at its end or at the first descent. *)
Lemma wp_run_loop {X} t l es1 a0 A0 es2 h (stop cut : eptr → X) Q :
  dlist h l (es1 ++ (a0 :: A0) ++ es2) →
  (Sorted le (a0 :: A0) → Q (stop (cur l es2)) h) →
  (∀ A1 x y A2, a0 :: A0 = A1 ++ x :: y :: A2 → Sorted le (A1 ++ [x]) → less y x = true →
     Q (cut y) h) →
  wp t (loop (S (size h))
      (λ a,
         a ← list_next a;
         if bool_decide (a = cur l es2) then mret (inr (stop a))
         else p ← list_prev a; if less a p then mret (inr (cut a)) else mret (inl a)) a0) Q h.
Proof.
  intros Hd Hstop Hcut. apply wp_full. pose proof (dlist_size _ _ _ _ _ Hd) as Hsz.
  assert (∀ fuel A1 a A2, a0 :: A0 = A1 ++ a :: A2 → Sorted le (A1 ++ [a]) → length A2 < fuel →
    wp Full (loop fuel (λ a,
         a ← list_next a;
         if bool_decide (a = cur l es2) then mret (inr (stop a))
         else p ← list_prev a; if less a p then mret (inr (cut a)) else mret (inl a)) a) Q h) as Hgo.
  { induction fuel as [|n IH]; intros A1 a A2 HA Hs Hf; [lia|]. rewrite loop_S.
    rewrite HA in Hd. apply wp_bind. eapply wp_run_step; [exact Hd|..].
    - intros ->. apply wp_ret, Hstop. by rewrite HA.
    - intros y A2' -> Hl. apply wp_ret. by eapply Hcut.
    - intros y A2' -> Hl. apply (IH (A1 ++ [a]) y A2').
      + by rewrite HA, <- app_assoc.
      + rewrite <- app_assoc. by apply sorted_snoc.
      + cbn in Hf. lia. }
  apply (Hgo _ [] a0 A0); [done|repeat constructor|cbn in Hsz; lia].
Qed.

Lemma wp_is_sorted t l es1 A es2 Q h :
  dlist h l (es1 ++ A ++ es2) → (∀ r, (r = true ↔ Sorted le A) → Q r h) →
  wp t (is_sorted less (cur l (A ++ es2)) (cur l es2)) Q h.
Proof.
  intros Hd HQ. unfold is_sorted. apply wp_bind, wp_heap_fuel.
  rewrite (bool_decide_ext _ (A = [])) by by eapply cur_range.
  destruct A as [|a A]; cbn [bool_decide decide_rel].
  { apply wp_ret. apply HQ. split; [constructor|done]. }
  cbn [app cur]. eapply (wp_run_loop _ _ _ _ _ _ _ (λ _, true) (λ _, false)); [exact Hd|..].
  - intros Hs. apply HQ. done.
  - intros A1 x y A2 HA _ Hl. apply HQ. split; [done|]. rewrite HA. intros Hs.
    apply sorted_break in Hs. unfold le in Hs. congruence.
Qed.

(** What is left behind the longest run at the start of a range. *)
Definition run_of A (run rest : list eptr) : Prop :=
  A = run ++ rest ∧ run ≠ [] ∧ Sorted le run ∧
  (rest = [] ∨ ∃ R x y rest', run = R ++ [x] ∧ rest = y :: rest' ∧ less y x = true).

Lemma wp_find_end_of_run t l es1 A es2 Q h :
  dlist h l (es1 ++ A ++ es2) → A ≠ [] →
  (∀ run rest, run_of A run rest → Q (cur l (rest ++ es2)) h) →
  wp t (find_end_of_run less (cur l (A ++ es2)) (cur l es2)) Q h.
Proof.
  intros Hd HA HQ. unfold find_end_of_run. apply wp_bind, wp_heap_fuel.
  apply wp_bind, wp_check.
  { apply bool_decide_true. rewrite cur_range by done. done. }
  destruct A as [|a A]; [done|]. cbn [app cur].
  eapply (wp_run_loop _ _ _ _ _ _ _ (λ a, a) (λ a, a)); [exact Hd|..].
  - intros Hs. apply (HQ (a :: A) []). split_and!; [by rewrite app_nil_r|done|done|by left].
  - intros A1 x y A2 HA' Hs Hl. apply (HQ (A1 ++ [x]) (y :: A2)). split_and!; [|by destruct A1|done|].
    + by rewrite <- app_assoc.
    + right. by exists A1, x, y, A2.
Qed.

(** ** Merging *)

Lemma merge_nil_r A : list_merge le A [] = A.
Proof. by destruct A. Qed.

(** Moving one element forward. *)
Lemma nodes_moved l es1 X b es2 : nodes l (es1 ++ b :: X ++ es2) ≡ₚ nodes l (es1 ++ X ++ b :: es2).
Proof. unfold nodes. f_equiv. rewrite <- (Permutation_middle X). done. Qed.

Lemma wp_splice_dlist t l es1 a A b es2 Q h :
  dlist h l (es1 ++ (a :: A) ++ b :: es2) →
  (∀ h', dlist h' l (es1 ++ b :: (a :: A) ++ es2) →
     same_but (nodes l (es1 ++ (a :: A) ++ b :: es2)) h h' → Q tt h') →
  wp t (list_splice a b (cur l es2)) Q h.
Proof.
  intros [Hseg Hnd] HQ. destruct (last (a :: A)) as [m|] eqn:Hm; [|by apply last_None in Hm].
  assert (∀ es, nodes l (es1 ++ es) = (head l :: es1) ++ es ++ [tail l]) as Hn by (intros; apply nodes_split).
  eapply (wp_splice (head l :: es1) (a :: A) [b] (es2 ++ [tail l]) (prv l es1) a m b b (cur l es2));
    [apply prv_last|done|done|done|done|apply cur_app|..].
  - rewrite Hn in Hnd. by rewrite <- app_assoc in Hnd.
  - rewrite Hn in Hseg. by rewrite <- app_assoc in Hseg.
  - intros h' Hseg' Hs. apply HQ.
    + split; [|by rewrite nodes_moved]. rewrite Hn. cbn [app]. by rewrite <- app_assoc.
    + rewrite Hn, <- app_assoc. done.
Qed.

(** The loop of [inplace_merge]: [es1] is done, [A] and [B] are what is left of the
    two runs. *)
Lemma wp_merge_loop t fuel l es1 A B es2 Q h :
  dlist h l (es1 ++ A ++ B ++ es2) → length A + length B < fuel →
  (∀ h', dlist h' l (es1 ++ list_merge le A B ++ es2) →
     same_but (nodes l (es1 ++ A ++ B ++ es2)) h h' → Q tt h') →
  wp t (loop fuel
    (λ '(a0, a1b0),
       if bool_decide (a0 ≠ a1b0) && bool_decide (a1b0 ≠ cur l es2) then
         if negb (less a1b0 a0) then a0 ← list_next a0; mret (inl (a0, a1b0))
         else
           a1b0 ← list_next a1b0;
           p ← list_prev a1b0;
           list_splice a0 p a1b0;; mret (inl (a0, a1b0))
       else mret (inr tt)) (cur l (A ++ B ++ es2), cur l (B ++ es2))) Q h.
Proof.
  revert es1 A B h. induction fuel as [|n IH]; intros es1 A B h Hd Hf HQ; [lia|].
  rewrite loop_S. apply wp_bind.
  assert (cur l (A ++ B ++ es2) = cur l (B ++ es2) ↔ A = []) as EA by by eapply cur_range.
  assert (cur l (B ++ es2) = cur l es2 ↔ B = []) as EB.
  { eapply (cur_range h l (es1 ++ A)). by rewrite <- app_assoc. }
  destruct A as [|a A]; [|destruct B as [|b B]].
  - rewrite bool_decide_false by (intros Hne; by apply Hne, EA). cbn [andb]. apply wp_ret, wp_ret.
    apply HQ; [by destruct B|apply same_but_refl].
  - rewrite (bool_decide_false (cur l ([] ++ es2) ≠ cur l es2)) by (intros Hne; by apply Hne, EB).
    rewrite andb_false_r. apply wp_ret, wp_ret. apply HQ; [done|apply same_but_refl].
  - rewrite !bool_decide_true by (intros E; (apply EA in E || apply EB in E); done).
    cbn [andb app cur]. rewrite list_merge_cons in HQ. unfold decide, le_dec, le in HQ.
    destruct (less b a) eqn:Hl; cbn [negb].
    + assert (dlist h l ((es1 ++ (a :: A)) ++ b :: B ++ es2)) as Hd1 by by rewrite <- app_assoc.
      apply wp_bind. eapply wp_next_dlist; [exact Hd1|].
      apply wp_bind. eapply (wp_prev_dlist _ _ (es1 ++ (a :: A) ++ [b]) (B ++ es2)).
      { by rewrite <- !app_assoc. }
      unfold prv. rewrite app_assoc, last_snoc. cbn [default id].
      apply wp_bind, (wp_splice_dlist _ l es1 a A b (B ++ es2)); [done|].
      intros h1 Hd2 Hs1. apply wp_ret. apply (IH (es1 ++ [b]) (a :: A) B).
      * by rewrite <- app_assoc.
      * cbn in *. lia.
      * intros h' Hd' Hs. rewrite <- app_assoc in Hd', Hs. apply HQ; [done|].
        eapply same_but_trans; [exact Hs1|]. eapply same_but_perm; [|exact Hs].
        apply (nodes_moved l es1 (a :: A) b (B ++ es2)).
    + apply wp_bind. eapply wp_next_dlist; [exact Hd|]. apply wp_ret.
      apply (IH (es1 ++ [a]) A (b :: B)).
      * by rewrite <- app_assoc.
      * cbn in *. lia.
      * intros h' Hd' Hs. rewrite <- app_assoc in Hd', Hs. by apply HQ.
Qed.

Lemma wp_inplace_merge t l es1 A B es2 Q h :
  dlist h l (es1 ++ A ++ B ++ es2) → Sorted le A → Sorted le B →
  (∀ h', dlist h' l (es1 ++ list_merge le A B ++ es2) →
     same_but (nodes l (es1 ++ A ++ B ++ es2)) h h' → Q tt h') →
  wp t (inplace_merge less (cur l (A ++ B ++ es2)) (cur l (B ++ es2)) (cur l es2)) Q h.
Proof.
  intros Hd HA HB HQ. unfold inplace_merge.
  apply wp_bind, (wp_is_sorted _ l es1 A (B ++ es2)); [done|]. intros r Hr.
  apply wp_bind, wp_check; [by apply Hr|]. clear r Hr.
  apply wp_bind, (wp_is_sorted _ l (es1 ++ A) B es2); [by rewrite <- app_assoc|]. intros r Hr.
  apply wp_bind, wp_check; [by apply Hr|]. clear r Hr.
  apply wp_bind, wp_heap_fuel. eapply wp_merge_loop; [exact Hd| |done].
  apply dlist_length in Hd. rewrite !length_app in Hd. lia.
Qed.

(** ** Counting runs *)

Fixpoint nruns (es : list eptr) : nat :=
  match es with
  | [] => 0
  | x :: es' => match es' with
                | [] => 1
                | y :: _ => (if less y x then 1 else 0) + nruns es'
                end
  end.

Lemma nruns_cons x y es : nruns (x :: y :: es) = (if less y x then 1 else 0) + nruns (y :: es).
Proof. done. Qed.

Lemma nruns_length es : nruns es ≤ length es.
Proof.
  induction es as [|x [|y es] IH]; [done..|]. rewrite nruns_cons. cbn [length] in *.
  destruct (less y x); lia.
Qed.

Lemma nruns_app A B : nruns (A ++ B) ≤ nruns A + nruns B.
Proof.
  induction A as [|x [|y A] IH]; [done| |].
  - destruct B as [|y B]; [done|]. cbn [app]. rewrite nruns_cons. destruct (less y x); cbn; lia.
  - cbn [app] in *. rewrite !nruns_cons. lia.
Qed.

Lemma nruns_sorted A : Sorted le A → nruns A ≤ 1.
Proof.
  induction A as [|x [|y A] IH]; intros Hs; [cbn; lia..|]. rewrite nruns_cons.
  inversion Hs as [|?? Hs' Hhd]; subst. inversion Hhd as [|?? Hle]; subst. unfold le in Hle.
  rewrite Hle. by apply IH.
Qed.

Lemma nruns_mjoin (Ls : list (list eptr)) : Forall (Sorted le) Ls → nruns (mjoin Ls) ≤ length Ls.
Proof.
  induction 1 as [|A Ls HA _ IH]; [done|]. change (mjoin (A :: Ls)) with (A ++ mjoin Ls).
  pose proof (nruns_app A (mjoin Ls)). pose proof (nruns_sorted A HA). cbn [length]. lia.
Qed.

Lemma nruns_snoc A x y B : less y x = true → nruns (A ++ [x] ++ y :: B) = nruns (A ++ [x]) + nruns (y :: B).
Proof.
  intros Hl. induction A as [|a A IH]; cbn [app] in *.
  - rewrite nruns_cons, Hl. done.
  - destruct A as [|a' A]; cbn [app] in *.
    + rewrite (nruns_cons a x (y :: B)), (nruns_cons a x []). lia.
    + rewrite (nruns_cons a a' (A ++ x :: y :: B)), (nruns_cons a a' (A ++ [x])). lia.
Qed.

Lemma nruns_pos A : A ≠ [] → 1 ≤ nruns A.
Proof.
  induction A as [|x [|y A] IH]; intros HA; [done|done|]. rewrite nruns_cons.
  specialize (IH ltac:(done)). lia.
Qed.

(** Cutting the first run off leaves one run less. *)
Lemma nruns_run A run rest : run_of A run rest → S (nruns rest) ≤ nruns A.
Proof.
  intros (-> & Hne & Hs & [->|(R & x & y & rest' & -> & -> & Hl)]).
  - rewrite app_nil_r. by apply nruns_pos.
  - rewrite <- app_assoc, nruns_snoc by done. pose proof (nruns_pos (R ++ [x]) Hne). lia.
Qed.

(** ** Stable rearrangements *)

Context `{!WeakOrder less}.

#[local] Instance le_total : Total le.
Proof.
  intros x y. unfold le. destruct (less y x) eqn:H; [right; by apply wo_asym|by left].
Qed.

#[local] Instance le_trans : Transitive le.
Proof. intros x y z Hxy Hyz. unfold le in *. by eapply wo_negtrans. Qed.

(** Neither is less than the other. *)
Definition eqv (x y : eptr) : Prop := le x y ∧ le y x.

(** [es'] has the elements of [es], equivalent ones in the same order. *)
Definition reord es es' : Prop := es ≡ₚ es' ∧ ∀ x, filter (eqv x) es' = filter (eqv x) es.

Lemma reord_refl es : reord es es.
Proof. by split. Qed.

Lemma reord_trans es1 es2 es3 : reord es1 es2 → reord es2 es3 → reord es1 es3.
Proof. intros [P1 F1] [P2 F2]. split; [by etrans|]. intros x. by rewrite F2, F1. Qed.

Lemma reord_middle D A A' R : reord A A' → reord (D ++ A ++ R) (D ++ A' ++ R).
Proof. intros [P F]. split; [by rewrite P|]. intros x. by rewrite !filter_app, F. Qed.

Lemma filter_none (P : eptr → Prop) `{∀ x, Decision (P x)} A : Forall (λ x, ¬ P x) A → filter P A = [].
Proof. induction 1; [done|]. by rewrite filter_cons_False. Qed.

(** An element in front of a run it is less than is equivalent to none of them. *)
Lemma less_not_eqv x a A b :
  Sorted le (a :: A) → less b a = true → eqv x b → filter (eqv x) (a :: A) = [].
Proof.
  intros Hs Hl [Hxb Hbx]. apply filter_none, Forall_forall. intros y Hy [Hxy Hyx].
  assert (le a y) as Hay.
  { apply Sorted_StronglySorted in Hs; [|apply _]. inversion Hs as [|?? _ Hall]; subst.
    apply elem_of_cons in Hy as [->|Hy]; [by destruct (le_total a a)|].
    by rewrite Forall_forall in Hall; apply Hall. }
  assert (le a b) as Hab by (etrans; [exact Hay|]; by etrans). unfold le in Hab. congruence.
Qed.

Lemma merge_stable A B x :
  Sorted le A → Sorted le B → filter (eqv x) (list_merge le A B) = filter (eqv x) (A ++ B).
Proof.
  intros HA. revert B. induction A as [|a A IHA]; intros B HB; [by rewrite list_merge_nil_l|].
  induction B as [|b B IHB]; [by rewrite list_merge_nil_r, app_nil_r|].
  rewrite list_merge_cons. destruct (decide (le a b)) as [Hab|Hab].
  - cbn [app]. rewrite !filter_cons, IHA; [done| |done]. by inversion HA.
  - cbn [app] in IHB. rewrite (filter_cons _ b), IHB by by inversion HB.
    change (a :: A ++ B) with ((a :: A) ++ B). rewrite !filter_app, (filter_cons _ b).
    case_decide as Hxb; [|done]. unfold le in Hab. apply not_false_is_true in Hab.
    by rewrite (less_not_eqv x a A b).
Qed.

Lemma reord_merge A B : Sorted le A → Sorted le B → reord (A ++ B) (list_merge le A B).
Proof. intros HA HB. split; [by rewrite merge_Permutation|]. intros x. by apply merge_stable. Qed.

(** ** Passes *)

Lemma reord_nodes l es es' : reord es es' → nodes l es ≡ₚ nodes l es'.
Proof. intros [P _]. unfold nodes. by rewrite P. Qed.

(** Part [D] of the list holds [cnt] runs; [R] has not been looked at. *)
Record passing l es (cnt : nat) (D R : list eptr) h h' : Prop := {
  ps_list : dlist h' l (D ++ R);
  ps_reord : reord es (D ++ R);
  ps_same : same_but (nodes l es) h h';
  ps_runs : ∃ Ls, D = mjoin Ls ∧ length Ls = cnt ∧ Forall (Sorted le) Ls;
  ps_bound : 2 * cnt + nruns R ≤ nruns es
}.

Definition passed l es (cnt : nat) h h' : Prop :=
  ∃ Ls, dlist h' l (mjoin Ls) ∧ reord es (mjoin Ls) ∧ same_but (nodes l es) h h' ∧
    length Ls = cnt ∧ Forall (Sorted le) Ls ∧ 2 * cnt ≤ S (nruns es).

(** Merging two runs at the start of the rest. *)
Lemma passing_merge l es cnt D R h h1 r1 rest1 r2 rest2 :
  passing l es cnt D R h h1 → run_of R r1 rest1 → run_of rest1 r2 rest2 →
  ∀ h2, dlist h2 l (D ++ list_merge le r1 r2 ++ rest2) →
    same_but (nodes l (D ++ r1 ++ r2 ++ rest2)) h1 h2 →
    passing l es (S cnt) (D ++ list_merge le r1 r2) rest2 h h2.
Proof.
  intros [Hd Hre Hs (Ls & -> & Hl & HLs) Hb] Hr1 Hr2 h2 Hd2 Hs2.
  pose proof (nruns_run _ _ _ Hr1). pose proof (nruns_run _ _ _ Hr2).
  destruct Hr1 as (-> & _ & S1 & _). destruct Hr2 as (-> & _ & S2 & _). split.
  - by rewrite <- app_assoc.
  - eapply reord_trans; [exact Hre|]. rewrite <- app_assoc, (app_assoc r1).
    by apply reord_middle, reord_merge.
  - eapply same_but_trans; [exact Hs|]. eapply same_but_perm; [|exact Hs2].
    symmetry. by apply reord_nodes.
  - exists (Ls ++ [list_merge le r1 r2]). rewrite join_app, length_app, Forall_app, Forall_singleton.
    split_and!; [|cbn; lia|done|apply Sorted_list_merge; [apply _|done|done]].
    f_equal. change (mjoin [?x]) with (x ++ []). by rewrite app_nil_r.
  - lia.
Qed.

Lemma wp_pass_loop t fuel l es cnt D R h h1 :
  passing l es cnt D R h h1 → length R < fuel →
  wp t (loop fuel
    (λ '(a0, output_run_cnt),
       if bool_decide (a0 = list_end l) then mret (inr output_run_cnt)
       else
         let output_run_cnt := S output_run_cnt in
         a1b0 ← find_end_of_run less a0 (list_end l);
         if bool_decide (a1b0 = list_end l) then mret (inr output_run_cnt)
         else
           b1 ← find_end_of_run less a1b0 (list_end l);
           inplace_merge less a0 a1b0 b1;;
           mret (inl (b1, output_run_cnt))) (cur l R, cnt)) (λ cnt h', passed l es cnt h h') h1.
Proof.
  revert cnt D R h1. induction fuel as [|n IH]; intros cnt D R h1 Hp Hf; [lia|].
  rewrite loop_S. apply wp_bind. pose proof (ps_list _ _ _ _ _ _ _ Hp) as Hd.
  cbn iota beta zeta. unfold list_end.
  rewrite (end_decide _ _ _ _ Hd). case_bool_decide as HR.
  { destruct Hp as [_ Hre Hs (Ls & -> & Hl & HLs) Hb]. subst R. rewrite app_nil_r in *.
    apply wp_ret, wp_ret. exists Ls. split_and!; try done. lia. }
  apply wp_bind.
  replace (cur l R) with (cur l (R ++ [])) by by rewrite app_nil_r.
  change (tail l) with (cur l []).
  assert (dlist h1 l (D ++ R ++ [])) as Hd1 by by rewrite app_nil_r.
  apply (wp_find_end_of_run _ l D R []); [done|done|]. intros r1 rest1 Hr1. rewrite !app_nil_r.
  change (cur l []) with (tail l).
  pose proof Hr1 as (HR1 & Hne1 & S1 & _).
  assert (dlist h1 l ((D ++ r1) ++ rest1)) as Hd2 by (rewrite <- app_assoc; by rewrite <- HR1).
  rewrite (end_decide _ _ _ _ Hd2). case_bool_decide as Hrest.
  { apply wp_ret, wp_ret. pose proof (nruns_run _ _ _ Hr1).
    destruct Hp as [_ Hre Hs (Ls & -> & Hl & HLs) Hb].
    subst rest1. rewrite app_nil_r in HR1. subst R.
    exists (Ls ++ [r1]). assert (mjoin (Ls ++ [r1]) = mjoin Ls ++ r1) as ->.
    { rewrite join_app. f_equal. change (mjoin [r1]) with (r1 ++ []). by rewrite app_nil_r. }
    rewrite length_app, Forall_app, Forall_singleton. split_and!; try done; cbn; lia. }
  apply wp_bind. replace (cur l rest1) with (cur l (rest1 ++ [])) by by rewrite app_nil_r.
  change (tail l) with (cur l []).
  apply (wp_find_end_of_run _ l (D ++ r1) rest1 []); [by rewrite app_nil_r|done|].
  intros r2 rest2 Hr2. rewrite !app_nil_r. pose proof Hr2 as (HR2 & Hne2 & S2 & _).
  assert (dlist h1 l (D ++ r1 ++ r2 ++ rest2)) as Hd3 by by rewrite <- HR2, <- HR1.
  apply wp_bind. replace (cur l R) with (cur l (r1 ++ r2 ++ rest2)) by by rewrite <- HR2, <- HR1.
  replace (cur l rest1) with (cur l (r2 ++ rest2)) by by rewrite <- HR2.
  apply (wp_inplace_merge _ l D r1 r2 rest2); [done|done|done|]. intros h2 Hd4 Hs4. apply wp_ret.
  apply (IH (S cnt) (D ++ list_merge le r1 r2) rest2 h2).
  - by eapply passing_merge.
  - rewrite HR1, HR2, !length_app in Hf. destruct r1; [done|]. cbn in Hf. lia.
Qed.

Lemma wp_sort_pass t l es h :
  dlist h l es → wp t (sort_pass less l) (λ cnt h', passed l es cnt h h') h.
Proof.
  intros Hd. unfold sort_pass. apply wp_bind, wp_heap_fuel, wp_bind.
  eapply wp_list_begin; [exact Hd|]. apply (wp_pass_loop _ _ l es 0 [] es h h).
  - split; [done|apply reord_refl|done|by exists []|cbn; lia].
  - apply dlist_length in Hd. lia.
Qed.

(** The passes of [list_sort]. *)
Lemma wp_sort_loop t fuel l es0 es h0 h :
  dlist h l es → reord es0 es → same_but (nodes l es0) h0 h → nruns es < fuel →
  wp t (loop fuel
    (λ _,
       output_run_cnt ← sort_pass less l;
       mret (if bool_decide (1 < output_run_cnt) then inl tt else inr tt)) tt)
    (λ _ h', ∃ es', dlist h' l es' ∧ reord es0 es' ∧ same_but (nodes l es0) h0 h' ∧ Sorted le es') h.
Proof.
  revert es h. induction fuel as [|n IH]; intros es h Hd Hre Hs Hf; [lia|].
  rewrite loop_S. apply wp_bind, wp_bind. eapply wp_mono; [by apply wp_sort_pass|].
  intros cnt h1 (Ls & Hd1 & Hre1 & Hs1 & Hl & HLs & Hb). apply wp_ret.
  assert (reord es0 (mjoin Ls)) as Hre2 by by eapply reord_trans.
  assert (same_but (nodes l es0) h0 h1) as Hs2.
  { eapply same_but_trans; [exact Hs|]. eapply same_but_perm; [|exact Hs1].
    symmetry. by apply reord_nodes. }
  case_bool_decide as Hc.
  - apply (IH (mjoin Ls)); try done. pose proof (nruns_mjoin Ls HLs). lia.
  - apply wp_ret. exists (mjoin Ls). split_and!; try done.
    destruct Ls as [|A [|A' Ls]]; cbn in Hl; [constructor| |lia].
    change (mjoin [A]) with (A ++ []). rewrite app_nil_r. by inversion HLs.
Qed.

Lemma wp_list_sort t l es Q h :
  dlist h l es →
  (∀ h' es', dlist h' l es' → reord es es' → Sorted le es' → same_but (nodes l es) h h' → Q tt h') →
  wp t (list_sort less l) Q h.
Proof.
  intros Hd HQ. unfold list_sort. apply wp_bind, wp_heap_fuel, wp_bind.
  eapply wp_mono; [apply (wp_sort_loop _ _ l es es h h); try done|].
  - pose proof (nruns_length es). apply dlist_length in Hd. lia.
  - cbn beta. intros _ h' (es' & Hd' & Hre & Hs & Hsort). apply wp_bind.
    eapply wp_list_begin; [exact Hd'|]. apply wp_bind. rewrite <- (app_nil_r es').
    unfold list_end. change (tail l) with (cur l []).
    apply (wp_is_sorted _ l [] es' []); [by rewrite app_nil_r|]. intros r Hr.
    apply wp_check; [by apply Hr|]. by eapply HQ.
Qed.

(** ** Inserting in order *)

(** Where [list_insert_ordered] puts the element: before the first greater one. *)
Fixpoint insert_pos (elem : eptr) (es : list eptr) : list eptr :=
  match es with
  | [] => [elem]
  | e :: es' => if less elem e then elem :: e :: es' else e :: insert_pos elem es'
  end.

Lemma wp_insert_ordered t l es elem Q h :
  dlist h l es → elem ∉ nodes l es → is_Some (h !! elem) →
  (∀ h', dlist h' l (insert_pos elem es) → same_but (elem :: nodes l es) h h' → Q tt h') →
  wp t (list_insert_ordered less l elem) Q h.
Proof.
  intros Hd He Hx HQ. unfold list_insert_ordered, list_end. apply wp_bind, wp_heap_fuel, wp_bind.
  eapply wp_list_begin; [exact Hd|]. apply wp_bind.
  eapply (wp_list_walk _ l es (λ es1 es2 e h', h' = h ∧ e = cur l es2 ∧
    insert_pos elem es = es1 ++ insert_pos elem es2)); [done|done|].
  intros es1 es2 e h' Hes (-> & -> & Hpos).
  assert (dlist h l (es1 ++ es2)) as Hd' by by rewrite <- Hes.
  rewrite (end_decide _ _ _ _ Hd').
  assert (insert_pos elem es = es1 ++ elem :: es2 → wp Full (list_insert (cur l es2) elem) Q h) as Hgo.
  { intros Hp. apply wp_insert_dlist with (es1 := es1); [done|by rewrite <- Hes|done|].
    rewrite <- Hes. intros h' Hdl Hs. apply HQ; [by rewrite Hp|done]. }
  destruct es2 as [|e es2]; cbn [bool_decide decide_rel cur].
  { apply wp_ret. apply wp_full. by apply Hgo. }
  cbn [insert_pos] in Hpos. destruct (less elem e) eqn:Hl.
  - apply wp_ret, wp_full. by apply Hgo.
  - apply wp_bind. eapply wp_next_dlist; [exact Hd'|]. apply wp_ret.
    exists (es1 ++ [e]), es2. rewrite <- !app_assoc. split_and!; try done. cbn. lia.
Qed.

Lemma insert_pos_sorted elem es : Sorted le es → Sorted le (insert_pos elem es).
Proof.
  induction es as [|e es IH]; intros Hs; cbn; [repeat constructor|].
  destruct (less elem e) eqn:Hl.
  - constructor; [done|]. constructor. by apply wo_asym.
  - inversion Hs as [|?? Hs' Hhd]; subst. constructor; [by apply IH|].
    destruct es as [|e' es]; cbn; [by constructor|]. inversion Hhd; subst.
    destruct (less elem e'); by constructor.
Qed.

Lemma insert_pos_perm elem es : insert_pos elem es ≡ₚ elem :: es.
Proof.
  induction es as [|e es IH]; cbn; [done|]. destruct (less elem e); [done|].
  rewrite IH. apply Permutation_swap.
Qed.

(** ** Removing duplicates *)

Definition same (x y : eptr) : bool := negb (less x y) && negb (less y x).

(** The elements that stay behind [elem], and those that go. *)
Fixpoint uniq (elem : eptr) (es : list eptr) : list eptr * list eptr :=
  match es with
  | [] => ([elem], [])
  | n :: es' =>
      if same elem n then let '(k, d) := uniq elem es' in (k, n :: d)
      else let '(k, d) := uniq n es' in (elem :: k, d)
  end.

Lemma dlist_frame h h' l es (L : list eptr) :
  same_but L h h' → (∀ a, a ∈ nodes l es → a ∉ L) → dlist h l es → dlist h' l es.
Proof.
  intros Hs HL [Hseg Hnd]. split; [|done]. eapply dseg_frame; [|exact Hseg].
  intros a Ha. by apply Hs, HL.
Qed.

(** The list of duplicates, when there is one. *)
Definition dups_ok h (duplicates : option klist) l es (ds : list eptr) : Prop :=
  match duplicates with
  | None => True
  | Some d => dlist h d ds ∧ ∀ a, a ∈ nodes d ds → a ∉ nodes l es
  end.

(** Moving the element behind [elem] to the duplicates. *)
Lemma wp_drop_dup t l dd es1 elem n es2 ds Q h :
  dlist h l (es1 ++ elem :: n :: es2) → dups_ok h dd l (es1 ++ elem :: n :: es2) ds →
  (∀ h', dlist h' l (es1 ++ elem :: es2) → dups_ok h' dd l (es1 ++ elem :: es2) (ds ++ [n]) →
     Q (inl elem) h') →
  wp t (list_remove n;;
        match dd with
        | Some d => list_push_back d n;; mret (inl elem)
        | None => mret (inl elem)
        end : M lheap (eptr + unit)) Q h.
Proof.
  intros Hd Hdup HQ. apply wp_bind.
  assert (dlist h l ((es1 ++ [elem]) ++ n :: es2)) as Hd1 by by rewrite <- app_assoc.
  assert (nodes l (es1 ++ elem :: n :: es2) ≡ₚ n :: nodes l (es1 ++ elem :: es2)) as Hperm.
  { unfold nodes. solve_Permutation. }
  assert (n ∉ nodes l (es1 ++ elem :: es2)) as Hn.
  { pose proof (dl_nodup _ _ _ Hd) as Hnd. rewrite Hperm in Hnd. by apply NoDup_cons in Hnd as [? _]. }
  eapply wp_remove_dlist; [exact Hd1|]. rewrite <- app_assoc. cbn [app]. intros h1 Hd2 Hs1.
  destruct dd as [d|]; [|apply wp_ret; by apply HQ].
  destruct Hdup as [Hdd Hdis]. setoid_rewrite Hperm in Hdis. setoid_rewrite not_elem_of_cons in Hdis.
  assert (dlist h1 d ds) as Hdd1.
  { eapply dlist_frame; [exact Hs1| |exact Hdd]. intros a Ha. by apply Hdis. }
  apply wp_bind. eapply wp_push_back; [exact Hdd1| | |].
  - intros Hin. by destruct (Hdis n Hin).
  - rewrite Hs1 by done. eapply dseg_dom; [apply (dl_seg _ _ _ Hd)|]. rewrite Hperm. by left.
  - intros h2 Hdd2 Hs2. apply wp_ret, HQ.
    + eapply dlist_frame; [exact Hs2| |exact Hd2]. intros a Ha [->|Hin]%elem_of_cons; [done|].
      by apply (Hdis a Hin).
    + split; [done|]. assert (nodes d (ds ++ [n]) ≡ₚ n :: nodes d ds) as Hp by (unfold nodes; solve_Permutation).
      intros a. rewrite Hp. intros [->|Hin]%elem_of_cons; [done|by apply Hdis].
Qed.

Lemma wp_unique_loop t fuel l dd es1 elem es2 ds Q h :
  dlist h l (es1 ++ elem :: es2) → dups_ok h dd l (es1 ++ elem :: es2) ds → length es2 < fuel →
  (∀ h' k d, uniq elem es2 = (k, d) → dlist h' l (es1 ++ k) → dups_ok h' dd l (es1 ++ k) (ds ++ d) →
     Q tt h') →
  wp t (loop fuel
      (λ elem,
         nxt ← list_next elem;
         if bool_decide (nxt = list_end l) then mret (inr tt)
         else if negb (less elem nxt) && negb (less nxt elem) then
           list_remove nxt;;
           match dd with
           | Some d => list_push_back d nxt;; mret (inl elem)
           | None => mret (inl elem)
           end
         else mret (inl nxt)) elem) Q h.
Proof.
  revert es1 elem es2 ds h. induction fuel as [|m IH]; intros es1 elem es2 ds h Hd Hdup Hf HQ; [lia|].
  rewrite loop_S. apply wp_bind, wp_bind. eapply wp_next_dlist; [exact Hd|]. unfold list_end.
  assert (dlist h l ((es1 ++ [elem]) ++ es2)) as Hd1 by by rewrite <- app_assoc.
  rewrite (end_decide _ _ _ _ Hd1). destruct es2 as [|n es2]; cbn [bool_decide decide_rel cur].
  { apply wp_ret, wp_ret. apply (HQ _ [elem] []); [done|done|]. by rewrite app_nil_r. }
  cbn [uniq] in HQ. unfold same in HQ. cbn [length] in Hf.
  destruct (negb (less elem n) && negb (less n elem)).
  - eapply wp_drop_dup; [exact Hd|exact Hdup|]. intros h1 Hd2 Hdup2. eapply IH; [exact Hd2|exact Hdup2|lia|].
    intros h' k d Hu Hdl Hdu. destruct (uniq elem es2) as [k' d']. injection Hu as -> ->.
    eapply HQ; [done|exact Hdl|]. by rewrite <- app_assoc in Hdu.
  - apply wp_ret. eapply (IH (es1 ++ [elem]) n es2); [exact Hd1| |lia|].
    + by rewrite <- app_assoc.
    + intros h' k d Hu Hdl Hdu. destruct (uniq n es2) as [k' d']. injection Hu as -> ->.
      rewrite <- app_assoc in Hdl, Hdu. by eapply HQ.
Qed.

Lemma wp_list_unique t l dd e es ds Q h :
  dlist h l (e :: es) → dups_ok h dd l (e :: es) ds →
  (∀ h' k d, uniq e es = (k, d) → dlist h' l k → dups_ok h' dd l k (ds ++ d) → Q tt h') →
  wp t (list_unique less l dd) Q h.
Proof.
  intros Hd Hdup HQ. unfold list_unique. apply wp_bind. eapply wp_list_empty; [exact Hd|].
  cbn [bool_decide decide_rel]. apply wp_bind, wp_heap_fuel, wp_bind.
  eapply wp_list_begin; [exact Hd|]. cbn [cur].
  eapply (wp_unique_loop _ _ l dd []); [exact Hd|exact Hdup| |done].
  apply dlist_length in Hd. cbn in Hd. lia.
Qed.

(** ** Extremes *)

Definition pick (better : eptr → eptr → bool) (m e : eptr) : eptr := if better e m then e else m.

Lemma wp_extreme_loop t better fuel l es1 es2 m Q h :
  dlist h l (es1 ++ es2) → length es2 < fuel → Q (foldl (pick better) m es2) h →
  wp t (loop fuel
      (λ '(m, e),
         if bool_decide (e = list_end l) then mret (inr m)
         else
           let m := if better e m then e else m in
           e ← list_next e; mret (inl (m, e))) (m, cur l es2)) Q h.
Proof.
  revert es1 es2 m. induction fuel as [|n IH]; intros es1 es2 m Hd Hf HQ; [lia|].
  rewrite loop_S. apply wp_bind. cbn iota beta. unfold list_end. rewrite (end_decide _ _ _ _ Hd).
  destruct es2 as [|e es2]; cbn [bool_decide decide_rel cur].
  - by apply wp_ret, wp_ret.
  - apply wp_bind. eapply wp_next_dlist; [exact Hd|]. apply wp_ret.
    apply (IH (es1 ++ [e])); [by rewrite <- app_assoc|cbn in Hf; lia|done].
Qed.

Lemma wp_list_extreme t better l es Q h :
  dlist h l es →
  Q (match es with [] => tail l | m :: es' => foldl (pick better) m es' end) h →
  wp t (list_extreme better l) Q h.
Proof.
  intros Hd HQ. unfold list_extreme. apply wp_bind. eapply wp_list_begin; [exact Hd|].
  unfold list_end. rewrite (end_decide h l [] es Hd).
  destruct es as [|m es]; cbn [bool_decide decide_rel cur]; [by apply wp_ret|].
  apply wp_bind, wp_heap_fuel, wp_bind. eapply (wp_next_dlist _ l []); [exact Hd|].
  apply (wp_extreme_loop _ _ _ l [m] es); [exact Hd| |done].
  apply dlist_length in Hd. cbn in Hd. lia.
Qed.

(** The first maximum of a list. *)
Definition first_max (x : eptr) (es : list eptr) : Prop :=
  ∃ es1 es2, es = es1 ++ x :: es2 ∧ Forall (λ e, less e x = true) es1 ∧
    Forall (λ e, less x e = false) es2.

Lemma less_le_trans x y z : less x y = true → less z y = false → less x z = true.
Proof.
  intros Hxy Hzy. destruct (less x z) eqn:Hxz; [done|].
  assert (less x y = false) by (eapply (wo_negtrans y z x); done). congruence.
Qed.

Lemma le_less_trans x y z : less y x = false → less y z = true → less x z = true.
Proof.
  intros Hyx Hyz. destruct (less x z) eqn:Hxz; [done|].
  assert (less y z = false) by (eapply (wo_negtrans z x y); done). congruence.
Qed.

Lemma foldl_max m es1 mid es :
  Forall (λ e, less e m = true) es1 → Forall (λ e, less m e = false) mid →
  first_max (foldl (pick (λ e x, less x e)) m es) (es1 ++ m :: mid ++ es).
Proof.
  revert m es1 mid. induction es as [|e es IH]; intros m es1 mid H1 H2; cbn [foldl].
  - exists es1, mid. by rewrite app_nil_r.
  - unfold pick at 2. destruct (less m e) eqn:Hl.
    + specialize (IH e (es1 ++ m :: mid) []). rewrite <- app_assoc in IH. apply IH; [|constructor].
      apply Forall_app. split; [|constructor; [done|]].
      * eapply Forall_impl; [exact H1|]. cbn. intros y Hy. eapply less_le_trans; [exact Hy|].
        by apply wo_asym.
      * eapply Forall_impl; [exact H2|]. cbn. intros y Hy. by eapply le_less_trans.
    + specialize (IH m es1 (mid ++ [e]) H1). rewrite <- app_assoc in IH. apply IH.
      apply Forall_app. by repeat constructor.
Qed.

End sort.
