(* ===== verification/KListMain.v ===== *)
(** * Pintos: the properties of doubly linked lists

    A double-ended queue as the abstract specification of the linking operations,
    and the theorems about the ordered ones. *)

From stdpp Require Import base tactics list gmap sorting.
From Stdlib Require Import ZArith Lia.
From S2P Require Import Prelude KList KListProps KListSort.

Implicit Types (h : lheap) (l : klist) (es : list eptr).

(** ** The abstract double-ended queue *)

Inductive dop :=
  | PushFront (e : eptr)
  | PushBack (e : eptr)
  | PopFront
  | PopBack
  | Remove (e : eptr)
  | Reverse
  | Size.

Inductive dout := Unit | Elem (e : eptr) | Count (n : nat).

(** One call on the list in memory. *)
Definition call l (o : dop) : M lheap dout :=
  match o with
  | PushFront e => list_push_front l e;; mret Unit
  | PushBack e => list_push_back l e;; mret Unit
  | PopFront => e ← list_pop_front l; mret (Elem e)
  | PopBack => e ← list_pop_back l; mret (Elem e)
  | Remove e => list_remove e;; mret Unit
  | Reverse => list_reverse l;; mret Unit
  | Size => n ← list_size l; mret (Count n)
  end.

(** The same call on a sequence; [None] is a misuse: an element that is no storage
    ([pool]), that is in the list already, or that is not there. *)
Definition spec l (pool : gset eptr) (o : dop) es : option (dout * list eptr) :=
  match o with
  | PushFront e => if decide (e ∈ pool ∧ e ∉ nodes l es) then Some (Unit, e :: es) else None
  | PushBack e => if decide (e ∈ pool ∧ e ∉ nodes l es) then Some (Unit, es ++ [e]) else None
  | PopFront => match es with e :: es' => Some (Elem e, es') | [] => None end
  | PopBack => match reverse es with e :: es' => Some (Elem e, reverse es') | [] => None end
  | Remove e => if decide (e ∈ es) then Some (Unit, filter (λ x, x ≠ e) es) else None
  | Reverse => Some (Unit, reverse es)
  | Size => Some (Count (length es), es)
  end.

Fixpoint calls l (os : list dop) : M lheap (list dout) :=
  match os with
  | [] => mret []
  | o :: os' => x ← call l o; xs ← calls l os'; mret (x :: xs)
  end.

Fixpoint specs l (pool : gset eptr) (os : list dop) es : option (list dout * list eptr) :=
  match os with
  | [] => Some ([], es)
  | o :: os' => '(x, es1) ← spec l pool o es; '(xs, es2) ← specs l pool os' es1; Some (x :: xs, es2)
  end.

Lemma filter_middle es1 e es2 :
  NoDup (es1 ++ e :: es2) → filter (λ x, x ≠ e) (es1 ++ e :: es2) = es1 ++ es2.
Proof.
  intros (_ & Hd & [Hn _]%NoDup_cons)%NoDup_app.
  assert (∀ L : list eptr, e ∉ L → filter (λ x, x ≠ e) L = L) as Hf.
  { induction L as [|x L IH]; [done|]. rewrite not_elem_of_cons. intros [? ?].
    rewrite filter_cons_True by done. by rewrite IH. }
  rewrite filter_app, filter_cons_False by (intros ?; done).
  rewrite !Hf; [done|done|]. intros Hx. apply (Hd e Hx). by left.
Qed.

Lemma es_nodup h l es : dlist h l es → NoDup es.
Proof. intros [_ Hnd]. unfold nodes in Hnd. by apply NoDup_cons in Hnd as [_ [? _]%NoDup_app]. Qed.

Lemma nodes_dom h l es a : dlist h l es → a ∈ nodes l es → is_Some (h !! a).
Proof. intros [Hseg _]. by eapply dseg_dom. Qed.

Lemma nodes_sub l es es' a : (∀ x, x ∈ es → x ∈ es') → a ∈ nodes l es → a ∈ nodes l es'.
Proof. intros Hs. unfold nodes. rewrite !elem_of_cons, !elem_of_app. naive_solver. Qed.

(** The operations allocate and free nothing: what changes is storage before and
    in the list afterwards. *)
Lemma dom_kept h h' l es es' (L : list eptr) :
  same_but L h h' → (∀ a, a ∈ L → a ∈ nodes l es' ∧ is_Some (h !! a)) → dlist h' l es' →
  dom h' = dom h.
Proof.
  intros Hs HL [Hseg _]. apply set_eq. intros a. rewrite !elem_of_dom.
  destruct (decide (a ∈ L)) as [Ha|Ha]; [|by rewrite Hs]. destruct (HL a Ha) as [Hn Hh].
  split; intros _; [done|]. by eapply dseg_dom.
Qed.

Lemma dom_pushed h h' l es es' e :
  dlist h l es → is_Some (h !! e) → (∀ x, x ∈ e :: es → x ∈ es') → same_but (e :: nodes l es) h h' →
  dlist h' l es' → dom h' = dom h.
Proof.
  intros Hd He Hsub Hs. eapply dom_kept; [done|exact Hs|]. intros a [->|Ha]%elem_of_cons.
  - split; [|done]. unfold nodes. rewrite elem_of_cons, elem_of_app. right. left. apply Hsub. by left.
  - split; [|by eapply nodes_dom]. eapply nodes_sub; [|exact Ha]. intros. apply Hsub. by right.
Qed.

Lemma dom_popped h h' l es es' :
  dlist h l es → (∀ x, x ∈ es' → x ∈ es) → same_but (nodes l es') h h' →
  dlist h' l es' → dom h' = dom h.
Proof.
  intros Hd Hsub Hs. eapply dom_kept; [done|exact Hs|]. intros a Ha. split; [done|].
  eapply nodes_dom; [exact Hd|]. by eapply nodes_sub.
Qed.

Lemma wp_call t l o es x es' h :
  dlist h l es → spec l (dom h) o es = Some (x, es') →
  wp t (call l o) (λ y h', y = x ∧ dlist h' l es' ∧ dom h' = dom h) h.
Proof.
  intros Hd Hspec. destruct o as [e|e| | |e| |]; cbn [spec call] in *.
  - case_decide as He; [|done]. injection Hspec as <- <-. destruct He as [Hp%elem_of_dom Hn].
    apply wp_bind. eapply wp_push_front; [exact Hd|done|done|].
    intros h' Hd' Hs. apply wp_ret. split_and!; [done|done|]. by eapply (dom_pushed h h' l es).
  - case_decide as He; [|done]. injection Hspec as <- <-. destruct He as [Hp%elem_of_dom Hn].
    apply wp_bind. eapply wp_push_back; [exact Hd|done|done|].
    intros h' Hd' Hs. apply wp_ret. split_and!; [done|done|].
    eapply (dom_pushed h h' l es); [done|done| |done|done]. set_solver.
  - destruct es as [|e es]; [done|]. injection Hspec as <- <-. apply wp_bind.
    eapply wp_pop_front; [exact Hd|]. intros h' Hd' Hs. apply wp_ret. split_and!; [done|done|].
    eapply dom_popped; [exact Hd| |done|done]. by right.
  - destruct (reverse es) as [|e r] eqn:Hr; [done|]. injection Hspec as <- <-.
    assert (es = reverse r ++ [e]) as -> by (rewrite <- (reverse_involutive es), Hr; apply reverse_cons).
    apply wp_bind. eapply wp_pop_back; [exact Hd|]. intros h' Hd' Hs. apply wp_ret.
    split_and!; [done|done|]. eapply dom_popped; [exact Hd| |done|done]. set_solver.
  - case_decide as He; [|done]. injection Hspec as <- <-.
    apply list_elem_of_split in He as (es1 & es2 & ->).
    rewrite filter_middle by (by eapply es_nodup). apply wp_bind.
    eapply wp_remove_dlist; [exact Hd|]. intros h' Hd' Hs. apply wp_ret. split_and!; [done|done|].
    eapply dom_popped; [exact Hd| |done|done]. set_solver.
  - injection Hspec as <- <-. apply wp_bind. eapply wp_list_reverse; [exact Hd|].
    intros h' Hd' Hs. apply wp_ret. split_and!; [done|done|].
    eapply dom_popped; [exact Hd| | |done]; [intros a; apply elem_of_reverse|].
    eapply same_but_perm; [|exact Hs]. symmetry. apply nodes_reverse.
  - injection Hspec as <- <-. apply wp_bind. eapply wp_list_size; [exact Hd|]. by apply wp_ret.
Qed.

Lemma wp_calls t l os es xs es' h :
  dlist h l es → specs l (dom h) os es = Some (xs, es') →
  wp t (calls l os) (λ ys h', ys = xs ∧ dlist h' l es' ∧ dom h' = dom h) h.
Proof.
  revert es xs h. induction os as [|o os IH]; intros es xs h Hd Hspec; cbn [specs calls] in *.
  { injection Hspec as <- <-. by apply wp_ret. }
  destruct (spec l (dom h) o es) as [[x es1]|] eqn:Ho; [|done]. cbn in Hspec.
  destruct (specs l (dom h) os es1) as [[xs1 es2]|] eqn:Hos; [|done]. cbn in Hspec.
  injection Hspec as <- <-. apply wp_bind. eapply wp_mono; [by eapply wp_call|].
  intros y h1 (-> & Hd1 & Hdom). apply wp_bind. rewrite <- Hdom in Hos.
  eapply wp_mono; [by eapply IH|]. intros ys h2 (-> & Hd2 & Hdom2). apply wp_ret.
  split_and!; [done|done|congruence].
Qed.

(** ** The properties *)

(** C17 (refinement): the list in memory implements a double-ended queue.  Any
    sequence of pushes, pops, removals, reversals and size queries that the
    abstract queue allows runs without a failed assertion, returns what the
    abstract queue returns, and leaves a well-linked list of the abstract queue's
    elements; no storage appears or disappears. *)
Theorem deque_refines l os es xs es' h :
  dlist h l es → specs l (dom h) os es = Some (xs, es') →
  ∃ h', calls l os h = Done (xs, h') ∧ dlist h' l es' ∧ dom h' = dom h.
Proof.
  intros Hd Hspec. destruct (wp_total_run _ _ _ (wp_calls Full _ _ _ _ _ _ Hd Hspec))
    as (ys & h' & Hrun & -> & Hd' & Hdom). by exists h'.
Qed.

(** The list 5, 3, 7, 4 between its headers 1 and 2, and the element 9 outside. *)
Definition demo_list : klist := KList 1 2.
Definition demo_heap : lheap := list_to_map
  [(1%positive, ListElem None (Some 5%positive)); (5%positive, ListElem (Some 1%positive) (Some 3%positive));
   (3%positive, ListElem (Some 5%positive) (Some 7%positive)); (7%positive, ListElem (Some 3%positive) (Some 4%positive));
   (4%positive, ListElem (Some 7%positive) (Some 2%positive)); (2%positive, ListElem (Some 4%positive) None);
   (9%positive, ListElem None None)].

Lemma demo_dlist : dlist demo_heap demo_list [5; 3; 7; 4]%positive.
Proof. split; [repeat split|]. apply (bool_decide_unpack _). by vm_compute. Qed.

Lemma deque_refines_witness :
  ∃ h', calls demo_list [PopFront; PushBack 5%positive; PushFront 9%positive; Reverse; PopBack; Size]
      demo_heap = Done ([Elem 5; Unit; Unit; Unit; Elem 9; Count 4]%positive, h') ∧
    dlist h' demo_list [5; 4; 7; 3]%positive.
Proof.
  destruct (deque_refines demo_list
    [PopFront; PushBack 5%positive; PushFront 9%positive; Reverse; PopBack; Size]
    [5; 3; 7; 4]%positive [Elem 5; Unit; Unit; Unit; Elem 9; Count 4]%positive [5; 4; 7; 3]%positive
    demo_heap demo_dlist) as (h' & Hrun & Hd & _); [vm_compute; reflexivity|].
  exists h'. exact (conj Hrun Hd).
Defined.

(** Comparing by a key is a weak order. *)
#[global] Instance key_order (key : eptr → Z) :
  WeakOrder (λ x y, bool_decide (key x < key y)%Z).
Proof.
  split.
  - intros x y Hxy%bool_decide_eq_true. apply bool_decide_eq_false. lia.
  - intros x y z Hyx%bool_decide_eq_false Hzy%bool_decide_eq_false. apply bool_decide_eq_false. lia.
Qed.

(** C18 (termination): [list_sort] ends, without a failed assertion, on every
    well-linked list and strict weak order, and leaves a well-linked list of the
    same elements in order, equivalent elements in their old order; it writes to no
    node outside the list. *)
Theorem list_sort_sorts less `{!WeakOrder less} l es h :
  dlist h l es →
  ∃ h' es', list_sort less l h = Done (tt, h') ∧ dlist h' l es' ∧ es' ≡ₚ es ∧
    Sorted (λ x y, less y x = false) es' ∧
    (∀ x, filter (eqv less x) es' = filter (eqv less x) es) ∧
    (∀ a, a ∉ nodes l es → h' !! a = h !! a).
Proof.
  intros Hd.
  assert (wp Full (list_sort less l)
    (λ _ h', ∃ es', dlist h' l es' ∧ reord less es es' ∧ Sorted (le less) es' ∧
       same_but (nodes l es) h h') h) as Hwp.
  { eapply wp_list_sort; [done|exact Hd|]. intros h' es' ? ? ? ?. by exists es'. }
  apply wp_total_run in Hwp as ([] & h' & Hrun & es' & Hd' & [Hp Hf] & Hs & Hsame).
  exists h', es'. split_and!; try done.
Qed.

Definition half (e : eptr) : Z := (Z.pos e / 2)%Z.

Lemma list_sort_sorts_witness :
  ∃ h' es', list_sort (λ x y, bool_decide (half x < half y)%Z) demo_list demo_heap = Done (tt, h') ∧
    dlist h' demo_list es' ∧ es' ≡ₚ [5; 3; 7; 4]%positive ∧ h' !! 9%positive = Some (ListElem None None).
Proof.
  destruct (list_sort_sorts (λ x y, bool_decide (half x < half y)%Z) demo_list
    [5; 3; 7; 4]%positive demo_heap demo_dlist) as (h' & es' & Hrun & Hd & Hp & _ & _ & Hs).
  exists h', es'. split; [exact Hrun|]. split; [exact Hd|]. split; [exact Hp|].
  rewrite Hs; [reflexivity|]. apply (bool_decide_unpack _). vm_compute. reflexivity.
Defined.

(** [list_insert_ordered] keeps a sorted list sorted: it adds the
    element before the first one that is greater, and moves nothing else. *)
Theorem insert_ordered_sorted less `{!WeakOrder less} l es e h :
  dlist h l es → Sorted (le less) es → e ∉ nodes l es → is_Some (h !! e) →
  ∃ h' es1 es2, list_insert_ordered less l e h = Done (tt, h') ∧ es = es1 ++ es2 ∧
    dlist h' l (es1 ++ e :: es2) ∧ Sorted (le less) (es1 ++ e :: es2) ∧
    Forall (λ x, less e x = false) es1.
Proof.
  intros Hd Hs Hn Hx.
  assert (wp Full (list_insert_ordered less l e) (λ _ h', dlist h' l (insert_pos less e es)) h) as Hwp.
  { eapply wp_insert_ordered; [exact Hd|done|done|]. intros. done. }
  apply wp_total_run in Hwp as ([] & h' & Hrun & Hd').
  pose proof (insert_pos_sorted less e es Hs) as Hs'.
  assert (∃ es1 es2, es = es1 ++ es2 ∧ insert_pos less e es = es1 ++ e :: es2 ∧
    Forall (λ x, less e x = false) es1) as (es1 & es2 & He & Hp & Hall).
  { clear. induction es as [|x es IH]; cbn; [by exists [], []|].
    destruct (less e x) eqn:Hl; [by exists [], (x :: es)|].
    destruct IH as (es1 & es2 & -> & -> & Hall). exists (x :: es1), es2.
    split_and!; [done|done|by constructor]. }
  rewrite Hp in Hd', Hs'. by exists h', es1, es2.
Qed.

Lemma insert_ordered_sorted_witness :
  ∃ h', list_insert_ordered (λ x y, bool_decide (- half x < - half y)%Z) demo_list 9%positive
      (<[2 := ListElem (Some 5) None]> (<[5 := ListElem (Some 1) (Some 2)]> demo_heap))%positive
      = Done (tt, h') ∧ dlist h' demo_list [9; 5]%positive.
Proof.
  destruct (insert_ordered_sorted (λ x y, bool_decide (- half x < - half y)%Z) demo_list
    [5]%positive 9%positive
    (<[2 := ListElem (Some 5) None]> (<[5 := ListElem (Some 1) (Some 2)]> demo_heap))%positive)
    as (h' & es1 & es2 & Hrun & He & Hd & _ & Hall).
  - split; [repeat split|]. apply (bool_decide_unpack _). vm_compute. reflexivity.
  - repeat constructor.
  - apply (bool_decide_unpack _). vm_compute. reflexivity.
  - eexists. reflexivity.
  - exists h'. split; [exact Hrun|]. destruct es1 as [|x es1].
    + cbn in He. rewrite He. exact Hd.
    + injection He as <- He. apply Forall_cons in Hall as [Hx _]. vm_compute in Hx. discriminate.
Defined.

(** [list_max] returns the first of the greatest elements of a
    non-empty list, and the tail of an empty one; it changes nothing. *)
Theorem list_max_first less `{!WeakOrder less} l es h :
  dlist h l es →
  ∃ m, list_max less l h = Done (m, h) ∧ (es = [] → m = tail l) ∧ (es ≠ [] → first_max less m es).
Proof.
  intros Hd.
  assert (wp Full (list_max less l)
    (λ m h', h' = h ∧ (es = [] → m = tail l) ∧ (es ≠ [] → first_max less m es)) h) as Hwp.
  { unfold list_max. eapply wp_list_extreme; [exact Hd|]. split; [done|].
    destruct es as [|m es]; [done|]. split; [done|]. intros _.
    apply (foldl_max less m [] []); constructor. }
  apply wp_total_run in Hwp as (m & h' & Hrun & -> & Hm). by exists m.
Qed.

Lemma list_max_first_witness :
  ∃ m, list_max (λ x y, bool_decide (half x < half y)%Z) demo_list demo_heap = Done (m, demo_heap) ∧
    first_max (λ x y, bool_decide (half x < half y)%Z) m [5; 3; 7; 4]%positive.
Proof.
  destruct (list_max_first (λ x y, bool_decide (half x < half y)%Z) demo_list
    [5; 3; 7; 4]%positive demo_heap demo_dlist) as (m & Hrun & _ & Hm).
  exists m. split; [exact Hrun|]. apply Hm. discriminate.
Defined.

(** ** Removing duplicates *)

Section unique.
Context (less : eptr → eptr → bool).

Lemma uniq_kept e es k d : uniq less e es = (k, d) →
  (∃ k', k = e :: k') ∧ Sorted (λ x y, same less x y = false) k ∧ e :: es ≡ₚ k ++ d.
Proof.
  revert e k d. induction es as [|n es IH]; intros e k d Hu; cbn in Hu.
  { injection Hu as <- <-. split_and!; [by exists []|repeat constructor|done]. }
  destruct (same less e n) eqn:Hs.
  - destruct (uniq less e es) as [k1 d1] eqn:Hu1. injection Hu as <- <-.
    destruct (IH _ _ _ Hu1) as (? & ? & Hp). split_and!; [done|done|].
    rewrite <- Permutation_middle, <- Hp. apply Permutation_swap.
  - destruct (uniq less n es) as [k1 d1] eqn:Hu1. injection Hu as <- <-.
    destruct (IH _ _ _ Hu1) as ([k' ->] & Hs1 & Hp). split_and!; [by eexists| |].
    + constructor; [done|by constructor].
    + cbn. by rewrite Hp.
Qed.

End unique.

(** [list_unique] keeps the first of the list and no two adjacent
    elements that compare equal, and appends what it takes out, and nothing else,
    to the list of duplicates. *)
Theorem list_unique_dedups less l d e es ds h :
  dlist h l (e :: es) → dlist h d ds → (∀ a, a ∈ nodes d ds → a ∉ nodes l (e :: es)) →
  ∃ h' k out, list_unique less l (Some d) h = Done (tt, h') ∧
    dlist h' l (e :: k) ∧ dlist h' d (ds ++ out) ∧ e :: es ≡ₚ (e :: k) ++ out ∧
    Sorted (λ x y, same less x y = false) (e :: k).
Proof.
  intros Hd Hdd Hdis.
  assert (wp Full (list_unique less l (Some d))
    (λ _ h', ∃ k out, uniq less e es = (k, out) ∧ dlist h' l k ∧ dlist h' d (ds ++ out)) h) as Hwp.
  { eapply wp_list_unique; [exact Hd|split; done|]. intros h' k out Hu Hl [Hd' _]. by exists k, out. }
  apply wp_total_run in Hwp as ([] & h' & Hrun & k & out & Hu & Hl & Hd').
  destruct (uniq_kept less e es k out Hu) as ([k' ->] & Hs & Hp).
  by exists h', k', out.
Qed.

Lemma list_unique_dedups_witness :
  ∃ h' k out, list_unique (λ x y, bool_decide (half x < half y)%Z) demo_list (Some (KList 10 11))
      (<[10 := ListElem None (Some 11)]> (<[11 := ListElem (Some 10) None]> demo_heap))%positive
      = Done (tt, h') ∧ dlist h' demo_list (5%positive :: k) ∧ dlist h' (KList 10 11) out.
Proof.
  destruct (list_unique_dedups (λ x y, bool_decide (half x < half y)%Z) demo_list (KList 10 11)
    5%positive [3; 7; 4]%positive []
    (<[10 := ListElem None (Some 11)]> (<[11 := ListElem (Some 10) None]> demo_heap))%positive)
    as (h' & k & out & Hrun & Hl & Hd & _).
  - split; [repeat split|]. apply (bool_decide_unpack _). vm_compute. reflexivity.
  - split; [repeat split|]. apply (bool_decide_unpack _). vm_compute. reflexivity.
  - intros a Ha. apply elem_of_cons in Ha as [->|Ha]; [|apply elem_of_cons in Ha as [->|Ha]].
    + apply (bool_decide_unpack _). vm_compute. reflexivity.
    + apply (bool_decide_unpack _). vm_compute. reflexivity.
    + by apply elem_of_nil in Ha.
  - exists h', k, out. exact (conj Hrun (conj Hl Hd)).
Defined.
