(* ===== verification/KString.v ===== *)
(** * Pintos: strings and blocks of memory

    [Project_3/lib/string.c], the whole file.  The state is the memory: a list of
    bytes, values from 0 to 255, addressed from 0.  A pointer is an address; a null
    result is [None].  An access outside the memory is undefined behaviour.  The
    assertions that arguments are not null are met by addresses.

    [size_t] is 32 bits wide; a block or string lies inside the memory, whose size
    bounds every count, so that sums of lengths do not wrap. *)

From stdpp Require Import base tactics list.
From Stdlib Require Import ZArith Lia.
From S2P Require Import Prelude.

Abbreviation memory := (list Z).
Abbreviation addr := nat.

(** [*p] and [*p = v] *)
Definition ld (p : addr) : M memory Z := m ← get; assume_some (m !! p).
Definition st (p : addr) (v : Z) : M memory unit :=
  m ← get; check (bool_decide (p < length m));; modify (<[p := v]>).

(** An [int] converted to [unsigned char] or [char]. *)
Definition to_char (c : Z) : Z := (c mod 256)%Z.

(** A scan leaves the memory after at most its size. *)
Definition scan_fuel : M memory nat := gets (λ m, S (length m)).

(** ** Blocks *)

(** [while (size-- > 0) *dst++ = *src++;] *)
Fixpoint copy_up (size : nat) (dst src : addr) : M memory unit :=
  match size with
  | O => mret tt
  | S n => v ← ld src; st dst v;; copy_up n (S dst) (S src)
  end.

Definition memcpy (dst src : addr) (size : nat) : M memory addr :=
  copy_up size dst src;; mret dst.

(** [while (size-- > 0) *--dst = *--src;] with [dst] and [src] at the start of the
    blocks: byte [size - 1] is copied first. *)
Fixpoint copy_down (size : nat) (dst src : addr) : M memory unit :=
  match size with
  | O => mret tt
  | S n => v ← ld (src + n); st (dst + n) v;; copy_down n dst src
  end.

(** The result is the local [dst], which the first loop has advanced. *)
Definition memmove (dst src : addr) (size : nat) : M memory addr :=
  if bool_decide (dst < src) then copy_up size dst src;; mret (dst + size)
  else copy_down size dst src;; mret dst.

Fixpoint memcmp (a b : addr) (size : nat) : M memory Z :=
  match size with
  | O => mret 0%Z
  | S n =>
      x ← ld a; y ← ld b;
      if bool_decide (x ≠ y) then mret (if bool_decide (x > y)%Z then 1 else -1)%Z
      else memcmp (S a) (S b) n
  end.

Fixpoint memchr_loop (block : addr) (ch : Z) (size : nat) : M memory (option addr) :=
  match size with
  | O => mret None
  | S n =>
      x ← ld block;
      if bool_decide (x = ch) then mret (Some block) else memchr_loop (S block) ch n
  end.

Definition memchr (block : addr) (ch_ : Z) (size : nat) : M memory (option addr) :=
  memchr_loop block (to_char ch_) size.

Fixpoint set_up (size : nat) (dst : addr) (value : Z) : M memory unit :=
  match size with
  | O => mret tt
  | S n => st dst (to_char value);; set_up n (S dst) value
  end.

Definition memset (dst : addr) (value : Z) (size : nat) : M memory addr :=
  set_up size dst value;; mret dst.

(** ** Strings *)

Definition strlen (string : addr) : M memory nat :=
  fuel ← scan_fuel;
  loop fuel
    (λ p, c ← ld p; if bool_decide (c = 0%Z) then mret (inr (p - string)) else mret (inl (S p))) string.

(** [for (length = 0; string[length] != '\0' && length < maxlen; length++)] *)
Definition strnlen (string : addr) (maxlen : nat) : M memory nat :=
  fuel ← scan_fuel;
  loop fuel
    (λ len,
       c ← ld (string + len);
       if bool_decide (c ≠ 0%Z) && bool_decide (len < maxlen) then mret (inl (S len))
       else mret (inr len)) 0.

(** [*a < *b ? -1 : *a > *b] *)
Definition strcmp (a b : addr) : M memory Z :=
  fuel ← scan_fuel;
  loop fuel
    (λ '(a, b),
       x ← ld a; y ← ld b;
       if bool_decide (x ≠ 0%Z) && bool_decide (x = y) then mret (inl (S a, S b))
       else mret (inr (if bool_decide (x < y)%Z then -1
                       else if bool_decide (x > y)%Z then 1 else 0)%Z)) (a, b).

Definition strchr (string : addr) (c_ : Z) : M memory (option addr) :=
  fuel ← scan_fuel;
  let c := to_char c_ in
  loop fuel
    (λ s,
       x ← ld s;
       if bool_decide (x = c) then mret (inr (Some s))
       else if bool_decide (x = 0%Z) then mret (inr None)
       else mret (inl (S s))) string.

(** The loop of [strcspn] and [strspn]: it stops at a character whose occurrence
    in [set] is [stop]. *)
Definition span (stop : bool) (string set : addr) : M memory nat :=
  fuel ← scan_fuel;
  loop fuel
    (λ len,
       c ← ld (string + len);
       if bool_decide (c = 0%Z) then mret (inr len)
       else
         r ← strchr set c;
         if bool_decide (bool_decide (r ≠ None) = stop) then mret (inr len)
         else mret (inl (S len))) 0.

Definition strcspn (string stop : addr) : M memory nat := span true string stop.
Definition strspn (string skip : addr) : M memory nat := span false string skip.

Definition strpbrk (string stop : addr) : M memory (option addr) :=
  fuel ← scan_fuel;
  loop fuel
    (λ s,
       c ← ld s;
       if bool_decide (c = 0%Z) then mret (inr None)
       else
         r ← strchr stop c;
         if bool_decide (r ≠ None) then mret (inr (Some s)) else mret (inl (S s))) string.

Definition strrchr (string : addr) (c_ : Z) : M memory (option addr) :=
  fuel ← scan_fuel;
  let c := to_char c_ in
  loop fuel
    (λ '(s, p),
       x ← ld s;
       if bool_decide (x = 0%Z) then mret (inr p)
       else mret (inl (S s, if bool_decide (x = c) then Some s else p))) (string, None).

(** [for (i = 0; i <= haystack_len - needle_len; i++)] with [n] turns left. *)
Fixpoint strstr_loop (n : nat) (haystack needle : addr) (needle_len i : nat)
    : M memory (option addr) :=
  match n with
  | O => mret None
  | S n' =>
      r ← memcmp (haystack + i) needle needle_len;
      if bool_decide (r = 0%Z) then mret (Some (haystack + i))
      else strstr_loop n' haystack needle needle_len (S i)
  end.

Definition strstr (haystack needle : addr) : M memory (option addr) :=
  haystack_len ← strlen haystack;
  needle_len ← strlen needle;
  if bool_decide (needle_len ≤ haystack_len) then
    strstr_loop (S (haystack_len - needle_len)) haystack needle needle_len 0
  else mret None.

(** The token, or [None], and the new [*save_ptr]. *)
Definition strtok_r (s : option addr) (delimiters : addr) (save_ptr : addr)
    : M memory (option addr * addr) :=
  fuel ← scan_fuel;
  let s := default save_ptr s in
  skip ← loop fuel
    (λ s,
       c ← ld s;
       r ← strchr delimiters c;
       if bool_decide (r ≠ None) then
         if bool_decide (c = 0%Z) then mret (inr (inl s)) else mret (inl (S s))
       else mret (inr (inr s))) s;
  match skip with
  | inl s => mret (None, s)
  | inr token =>
      s ← loop fuel
        (λ s,
           c ← ld s;
           r ← strchr delimiters c;
           if bool_decide (r = None) then mret (inl (S s)) else mret (inr s)) token;
      c ← ld s;
      if bool_decide (c ≠ 0%Z) then st s 0%Z;; mret (Some token, S s)
      else mret (Some token, s)
  end.

Definition strlcpy (dst src : addr) (size : nat) : M memory nat :=
  src_len ← strlen src;
  (if bool_decide (0 < size) then
     let dst_len := size - 1 in
     let dst_len := if bool_decide (src_len < dst_len) then src_len else dst_len in
     memcpy dst src dst_len;; st (dst + dst_len) 0%Z
   else mret tt);;
  mret src_len.

Definition strlcat (dst src : addr) (size : nat) : M memory nat :=
  src_len ← strlen src;
  dst_len ← strlen dst;
  (if bool_decide (0 < size) && bool_decide (dst_len < size) then
     let copy_cnt := size - dst_len - 1 in
     let copy_cnt := if bool_decide (src_len < copy_cnt) then src_len else copy_cnt in
     memcpy (dst + dst_len) src copy_cnt;; st (dst + dst_len + copy_cnt) 0%Z
   else mret tt);;
  mret (src_len + dst_len).
