(* ===== verification/KStringProps.v ===== *)
(** * Pintos: what the string functions guarantee

    Blocks are moved whole whatever they overlap, strings are searched and compared
    as the lists of their characters, and the bounded copies stay inside their
    bounds. *)

From stdpp Require Import base tactics list.
From Stdlib Require Import ZArith Lia.
From S2P Require Import Prelude KString.

Implicit Types (m : memory) (p dst src : addr) (s : list Z) (n : nat).

(** ** Memory *)

Lemma wp_ld t p v Q m : m !! p = Some v → Q v m → wp t (ld p) Q m.
Proof. intros Hp HQ. unfold ld. apply wp_bind, wp_get. by eapply wp_assume_some. Qed.

Lemma wp_st t p v Q m : p < length m → Q tt (<[p := v]> m) → wp t (st p v) Q m.
Proof.
  intros Hp HQ. unfold st. apply wp_bind, wp_get, wp_bind, wp_check; [by apply bool_decide_true|].
  by apply wp_modify.
Qed.

Lemma wp_scan_fuel t Q m : Q (S (length m)) m → wp t scan_fuel Q m.
Proof. done. Qed.

(** The [n] bytes at [p]. *)
Definition block m p n : list Z := take n (drop p m).

Lemma block_length m p n : p + n ≤ length m → length (block m p n) = n.
Proof. intros H. unfold block. rewrite length_take, length_drop. lia. Qed.

Lemma block_lookup m p n k : k < n → block m p n !! k = m !! (p + k).
Proof. intros H. unfold block. by rewrite lookup_take_lt, lookup_drop. Qed.

Lemma block_S m p n v : m !! p = Some v → block m p (S n) = v :: block m (S p) n.
Proof. intros Hv. unfold block. by rewrite (drop_S _ _ _ Hv). Qed.

Lemma block_insert m p n a v : a < p ∨ p + n ≤ a → block (<[a := v]> m) p n = block m p n.
Proof.
  intros Ha. apply list_eq. intros k. unfold block. rewrite !lookup_take. case_decide; [|done].
  rewrite !lookup_drop. apply list_lookup_insert_ne. lia.
Qed.

(** ** Copying *)

Lemma overwrite_insert m dst v bs :
  dst + S (length bs) ≤ length m →
  overwrite (S dst) bs (<[dst := v]> m) = overwrite dst (v :: bs) m.
Proof.
  intros H. apply list_eq. intros k. rewrite !overwrite_lookup by (rewrite ?length_insert; cbn; lia).
  cbn [length]. destruct (decide (k = dst)) as [->|Hk].
  - rewrite decide_False, decide_True by lia. rewrite list_lookup_insert_eq by lia.
    by rewrite Nat.sub_diag.
  - rewrite list_lookup_insert_ne by done. repeat case_decide; try lia; [|done].
    replace (k - dst) with (S (k - S dst)) by lia. done.
Qed.

Lemma overwrite_insert_end m dst v bs n :
  n = length bs → dst + S n ≤ length m →
  overwrite dst bs (<[dst + n := v]> m) = overwrite dst (bs ++ [v]) m.
Proof.
  intros -> H. apply list_eq. intros k.
  rewrite !overwrite_lookup by (rewrite ?length_insert, ?length_app; cbn; lia).
  rewrite length_app. cbn [length]. destruct (decide (k = dst + length bs)) as [->|Hk].
  - rewrite decide_False, decide_True by lia. rewrite list_lookup_insert_eq by lia.
    rewrite lookup_app_r by lia. by replace (dst + length bs - dst - length bs) with 0 by lia.
  - rewrite list_lookup_insert_ne by done. repeat case_decide; try lia; [|done].
    by rewrite lookup_app_l by lia.
Qed.

Lemma wp_copy_up t n dst src Q m :
  dst ≤ src ∨ src + n ≤ dst → dst + n ≤ length m → src + n ≤ length m →
  Q tt (overwrite dst (block m src n) m) → wp t (copy_up n dst src) Q m.
Proof.
  revert dst src m. induction n as [|n IH]; intros dst src m Hov Hd Hs HQ; cbn [copy_up].
  { apply wp_ret. unfold block in HQ. by rewrite take_0, overwrite_nil in HQ. }
  destruct (lookup_lt_is_Some_2 m src) as [v Hv]; [lia|].
  apply wp_bind. eapply wp_ld; [done|]. apply wp_bind, wp_st; [lia|].
  apply IH; [lia|rewrite length_insert; lia|rewrite length_insert; lia|].
  rewrite block_insert by lia. rewrite overwrite_insert by (rewrite block_length; lia).
  by rewrite (block_S _ _ _ _ Hv) in HQ.
Qed.

Lemma block_snoc m p n v : m !! (p + n) = Some v → block m p (S n) = block m p n ++ [v].
Proof.
  intros Hv. unfold block. rewrite <- Nat.add_1_r, <- take_take_drop, drop_drop. f_equal.
  by rewrite (drop_S _ _ _ Hv).
Qed.

Lemma wp_copy_down t n dst src Q m :
  src ≤ dst → dst + n ≤ length m → src + n ≤ length m →
  Q tt (overwrite dst (block m src n) m) → wp t (copy_down n dst src) Q m.
Proof.
  revert m. induction n as [|n IH]; intros m Hov Hd Hs HQ; cbn [copy_down].
  { apply wp_ret. unfold block in HQ. by rewrite take_0, overwrite_nil in HQ. }
  destruct (lookup_lt_is_Some_2 m (src + n)) as [v Hv]; [lia|].
  apply wp_bind. eapply wp_ld; [done|]. apply wp_bind, wp_st; [lia|].
  apply IH; [lia|rewrite length_insert; lia|rewrite length_insert; lia|].
  rewrite block_insert by lia.
  rewrite overwrite_insert_end by (rewrite ?block_length; lia).
  by rewrite (block_snoc _ _ _ _ Hv) in HQ.
Qed.

(** ** Strings *)

(** The string [s] lies at [p], with its terminator. *)
Record str_at m p s : Prop := {
  sa_block : block m p (S (length s)) = s ++ [0%Z];
  sa_chars : 0%Z ∉ s
}.

Lemma str_nil m p : str_at m p [] → m !! p = Some 0%Z.
Proof.
  intros [Hb _]. assert (block m p (S (length (@nil Z))) !! 0 = Some 0%Z) as H by by rewrite Hb.
  rewrite block_lookup, Nat.add_0_r in H by (cbn; lia). done.
Qed.

Lemma str_cons m p c s :
  str_at m p (c :: s) ↔ m !! p = Some c ∧ c ≠ 0%Z ∧ str_at m (S p) s.
Proof.
  split.
  - intros [Hb Hc]. cbn [length] in Hb. apply not_elem_of_cons in Hc as [Hc0 Hs].
    assert (m !! p = Some c) as Hp.
    { assert (block m p (S (S (length s))) !! 0 = Some c) as H by by rewrite Hb.
      rewrite block_lookup, Nat.add_0_r in H by lia. done. }
    rewrite (block_S _ _ _ _ Hp) in Hb. injection Hb as Hb. split_and!; [done|done|by split].
  - intros (Hp & Hc & [Hb Hs]). split; [|by apply not_elem_of_cons].
    cbn [length]. by rewrite (block_S _ _ _ _ Hp), Hb.
Qed.

Lemma str_app m p s1 s2 : str_at m p (s1 ++ s2) → str_at m (p + length s1) s2.
Proof.
  revert p. induction s1 as [|c s1 IH]; intros p; cbn [app length]; [by rewrite Nat.add_0_r|].
  rewrite str_cons. intros (_ & _ & Hs). rewrite <- Nat.add_succ_comm. by apply IH.
Qed.

Lemma str_length m p s : str_at m p s → p + length s < length m.
Proof.
  intros Hs. rewrite <- (app_nil_r s) in Hs. apply str_app, str_nil, lookup_lt_Some in Hs. done.
Qed.

(** A write elsewhere. *)
Lemma str_insert m p s a v : a < p ∨ p + length s < a → str_at m p s → str_at (<[a := v]> m) p s.
Proof. intros Ha [Hb Hc]. split; [|done]. rewrite block_insert by lia. done. Qed.

Lemma str_block m m' p s :
  block m' p (S (length s)) = block m p (S (length s)) → str_at m p s → str_at m' p s.
Proof. intros E [Hb Hc]. split; [by rewrite E|done]. Qed.

(** A loop that looks at the characters of a string one after the other. *)
Lemma wp_scan {L A} t fuel (body : L → M memory (L + A)) (at_ : nat → L → Prop) (Q : A → memory → Prop) m p s :
  (∀ s1 s2 x, s = s1 ++ s2 → at_ (length s1) x →
     wp t (body x)
       (λ r m', match r with
                | inl x' => m' = m ∧ s2 ≠ [] ∧ at_ (S (length s1)) x'
                | inr a => Q a m'
                end) m) →
  ∀ s1 s2 x, s = s1 ++ s2 → at_ (length s1) x → length s2 < fuel → wp t (loop fuel body x) Q m.
Proof.
  intros Hbody. induction fuel as [|n IH]; intros s1 s2 x Hs Hat Hf; [lia|].
  rewrite loop_S. apply wp_bind. eapply wp_mono; [by eapply Hbody|].
  intros [x'|a] m'; [|by intros; apply wp_ret]. intros (-> & Hne & Hat').
  destruct s2 as [|c s2]; [done|].
  apply (IH (s1 ++ [c]) s2); [by rewrite <- app_assoc|by rewrite length_app, Nat.add_1_r|cbn in Hf; lia].
Qed.

Lemma str_here m p s1 s2 :
  str_at m p (s1 ++ s2) → m !! (p + length s1) = Some (default 0%Z (head s2)) ∧
    (default 0%Z (head s2) = 0%Z ↔ s2 = []).
Proof.
  intros Hs%str_app. destruct s2 as [|c s2]; cbn.
  - split; [by apply str_nil|done].
  - apply str_cons in Hs as (? & ? & _). done.
Qed.

Lemma wp_strlen t p s Q m : str_at m p s → Q (length s) m → wp t (strlen p) Q m.
Proof.
  intros Hs HQ. unfold strlen. apply wp_bind, wp_scan_fuel.
  eapply (wp_scan _ _ _ (λ k x, x = p + k) _ m p s _ [] s); [done|cbn; lia|pose proof (str_length _ _ _ Hs); lia].
  Unshelve. intros s1 s2 x -> ->. destruct (str_here _ _ _ _ Hs) as [Hc H0].
  apply wp_bind. eapply wp_ld; [done|]. case_bool_decide as Hz; apply wp_ret.
  - apply H0 in Hz as ->. rewrite app_nil_r in HQ. by replace (p + length s1 - p) with (length s1) by lia.
  - split_and!; [done|by rewrite <- H0|lia].
Qed.

(** The first position of [c]. *)
Fixpoint index_of (c : Z) (l : list Z) : option nat :=
  match l with
  | [] => None
  | x :: l' => if bool_decide (x = c) then Some 0 else S <$> index_of c l'
  end.

Lemma index_of_app c l1 l2 : c ∉ l1 → index_of c (l1 ++ l2) = (λ k, length l1 + k) <$> index_of c l2.
Proof.
  induction l1 as [|x l1 IH]; cbn; [by destruct (index_of c l2)|].
  rewrite not_elem_of_cons. intros [? ?]. rewrite bool_decide_false by done. rewrite IH by done.
  by destruct (index_of c l2).
Qed.

Lemma index_of_None c l : index_of c l = None ↔ c ∉ l.
Proof.
  induction l as [|x l IH]; cbn; [split; [intros _; apply not_elem_of_nil|done]|].
  rewrite not_elem_of_cons. case_bool_decide; [naive_solver|].
  rewrite fmap_None, IH. naive_solver.
Qed.

Lemma wp_strchr t p s c Q m :
  str_at m p s → (0 ≤ c < 256)%Z → Q ((λ k, p + k) <$> index_of c (s ++ [0%Z])) m →
  wp t (strchr p c) Q m.
Proof.
  intros Hs Hc HQ. unfold strchr. apply wp_bind, wp_scan_fuel.
  assert (to_char c = c) as -> by (unfold to_char; rewrite Z.mod_small; lia).
  eapply (wp_scan _ _ _ (λ k x, x = p + k ∧ c ∉ take k s) _ m p s _ [] s);
    [done|split; [cbn; lia|apply not_elem_of_nil]|pose proof (str_length _ _ _ Hs); lia].
  Unshelve. intros s1 s2 x -> [-> Hn]. rewrite take_app_length in Hn.
  destruct (str_here _ _ _ _ Hs) as [Hl H0]. rewrite <- app_assoc, index_of_app in HQ by done.
  apply wp_bind. eapply wp_ld; [done|]. destruct s2 as [|x s2]; cbn [head default id] in *.
  - cbn [app index_of] in HQ. case_bool_decide; apply wp_ret; [|done].
    cbn in HQ. by rewrite Nat.add_0_r in HQ.
  - cbn [app index_of] in HQ. case_bool_decide as Hx.
    + apply wp_ret. cbn in HQ. by rewrite Nat.add_0_r in HQ.
    + rewrite bool_decide_false by naive_solver. apply wp_ret. split_and!; [done|done|lia|].
      replace (S (length s1)) with (length (s1 ++ [x])) by (rewrite length_app; cbn; lia).
      change (s1 ++ x :: s2) with (s1 ++ [x] ++ s2). rewrite app_assoc, take_app_length.
      rewrite not_elem_of_app, list_elem_of_singleton. naive_solver.
Qed.

(** ** Comparing *)

(** The sign of the first difference of two lists of the same length. *)
Fixpoint lex (x y : list Z) : Z :=
  match x, y with
  | a :: x', c :: y' =>
      if bool_decide (a = c) then lex x' y' else if bool_decide (c < a)%Z then 1%Z else (-1)%Z
  | _, _ => 0%Z
  end.

Lemma lex_0 x y : length x = length y → lex x y = 0%Z ↔ x = y.
Proof.
  revert y. induction x as [|a x IH]; intros [|c y] Hl; cbn in *; [done..|].
  case_bool_decide as Hac; [subst; rewrite IH by lia; naive_solver|].
  split; [|naive_solver]. case_bool_decide; lia.
Qed.

Lemma wp_memcmp t n p q Q m :
  p + n ≤ length m → q + n ≤ length m → Q (lex (block m p n) (block m q n)) m →
  wp t (memcmp p q n) Q m.
Proof.
  revert p q. induction n as [|n IH]; intros p q Hp Hq HQ; cbn [memcmp]; [by apply wp_ret|].
  destruct (lookup_lt_is_Some_2 m p) as [x Hx]; [lia|].
  destruct (lookup_lt_is_Some_2 m q) as [y Hy]; [lia|].
  rewrite (block_S _ _ _ _ Hx), (block_S _ _ _ _ Hy) in HQ. cbn [lex] in HQ.
  apply wp_bind. eapply wp_ld; [done|]. apply wp_bind. eapply wp_ld; [done|].
  destruct (decide (x = y)) as [->|Hne].
  - rewrite bool_decide_false by auto. rewrite bool_decide_true in HQ by done. apply IH; [lia|lia|done].
  - rewrite bool_decide_true by done. rewrite (bool_decide_false (x = y)) in HQ by done. apply wp_ret.
    rewrite (bool_decide_ext (x > y)%Z (y < x)%Z) by lia. done.
Qed.

(** The order of strings: the empty string first, then by characters. *)
Fixpoint str_cmp (x y : list Z) : Z :=
  match x, y with
  | [], [] => 0%Z
  | [], _ :: _ => (-1)%Z
  | _ :: _, [] => 1%Z
  | a :: x', c :: y' =>
      if bool_decide (a = c) then str_cmp x' y' else if bool_decide (a < c)%Z then (-1)%Z else 1%Z
  end.

Lemma wp_strcmp t p q x y Q m :
  str_at m p x → str_at m q y → Forall (λ c, 0 ≤ c)%Z (x ++ y) → Q (str_cmp x y) m →
  wp t (strcmp p q) Q m.
Proof.
  intros Hx Hy Hpos HQ. unfold strcmp. apply wp_bind, wp_scan_fuel.
  assert (length x < S (length m)) as Hf by (pose proof (str_length _ _ _ Hx); lia).
  revert Hf. generalize (S (length m)) as fuel. intros fuel. revert p q x y Hx Hy Hpos HQ.
  induction fuel as [|n IH]; intros p q x y Hx Hy Hpos HQ Hf; [lia|]. rewrite loop_S. apply wp_bind.
  destruct (str_here m p [] x Hx) as [Hcx H0x]. destruct (str_here m q [] y Hy) as [Hcy H0y].
  cbn [length] in Hcx, Hcy. rewrite Nat.add_0_r in Hcx, Hcy.
  apply wp_bind. eapply wp_ld; [done|]. apply wp_bind. eapply wp_ld; [done|].
  rewrite Forall_app in Hpos. destruct Hpos as [Px Py].
  destruct x as [|a x], y as [|c y]; cbn [head default id str_cmp] in *.
  - do 2 apply wp_ret. done.
  - apply Forall_cons in Py as [? _]. apply str_cons in Hy as (_ & ? & _).
    rewrite bool_decide_false by auto. cbn [andb]. do 2 apply wp_ret.
    by rewrite bool_decide_true by lia.
  - apply Forall_cons in Px as [? _]. apply str_cons in Hx as (_ & ? & _).
    rewrite (bool_decide_false (a = 0%Z)) by done. rewrite andb_false_r. do 2 apply wp_ret.
    rewrite bool_decide_false, bool_decide_true by lia. done.
  - apply str_cons in Hx as (_ & Ha & Hx). apply str_cons in Hy as (_ & Hc & Hy).
    apply Forall_cons in Px as [_ Px]. apply Forall_cons in Py as [_ Py].
    rewrite (bool_decide_true (a ≠ 0%Z)) by done. cbn [andb].
    case_bool_decide as Hac.
    + apply wp_ret. apply (IH (S p) (S q) x y); try done; [by apply Forall_app|cbn in Hf; lia].
    + do 2 apply wp_ret. case_bool_decide; [done|]. by rewrite bool_decide_true by lia.
Qed.

Lemma str_cmp_0 x y : str_cmp x y = 0%Z ↔ x = y.
Proof.
  revert y. induction x as [|a x IH]; intros [|c y]; cbn; [done..|].
  case_bool_decide as Hac; [subst; rewrite IH; naive_solver|].
  split; [|naive_solver]. case_bool_decide; lia.
Qed.

Lemma str_cmp_sym x y : str_cmp y x = (- str_cmp x y)%Z.
Proof.
  revert y. induction x as [|a x IH]; intros [|c y]; cbn; [done..|].
  destruct (decide (a = c)) as [->|Hne]; [by rewrite !bool_decide_true|].
  rewrite !(bool_decide_false (_ = _)) by auto. repeat case_bool_decide; lia.
Qed.

(** ** Searching for a string *)

Definition occurs (needle hay : list Z) (i : nat) : Prop := needle `prefix_of` drop i hay.

Lemma str_block_at m p s k n : str_at m p s → k + n ≤ length s → block m (p + k) n = take n (drop k s).
Proof.
  intros [Hb _] Hk. apply list_eq. intros j. unfold block. rewrite !lookup_take.
  case_decide as Hj; [|done]. rewrite !lookup_drop.
  assert (block m p (S (length s)) !! (k + j) = (s ++ [0%Z]) !! (k + j)) as E by by rewrite Hb.
  rewrite block_lookup, lookup_app_l in E by lia. by rewrite <- Nat.add_assoc.
Qed.

Lemma wp_strstr_loop t n p q hay needle i Q m :
  str_at m p hay → str_at m q needle → i + n + length needle = S (length hay) →
  (∀ r, match r with
        | Some a => ∃ k, a = p + k ∧ i ≤ k ∧ k + length needle ≤ length hay ∧ occurs needle hay k ∧
            ∀ j, i ≤ j < k → ¬ occurs needle hay j
        | None => ∀ j, i ≤ j → j + length needle ≤ length hay → ¬ occurs needle hay j
        end → Q r m) →
  wp t (strstr_loop n p q (length needle) i) Q m.
Proof.
  intros Hp Hq. revert i. induction n as [|n IH]; intros i Hi HQ; cbn [strstr_loop].
  { apply wp_ret, HQ. intros j Hj. lia. }
  pose proof (str_length _ _ _ Hp). pose proof (str_length _ _ _ Hq).
  apply wp_bind, wp_memcmp; [lia|lia|].
  rewrite (str_block_at m p hay i) by (done || lia).
  pose proof (str_block_at m q needle 0 (length needle) Hq ltac:(lia)) as Eq.
  rewrite Nat.add_0_r, drop_0, firstn_all in Eq. rewrite Eq.
  assert (lex (take (length needle) (drop i hay)) needle = 0%Z ↔ occurs needle hay i) as Hocc.
  { rewrite lex_0 by (rewrite length_take, length_drop; lia). unfold occurs. split.
    - intros E. rewrite <- E at 1. apply prefix_take.
    - intros [k E]. rewrite E. by rewrite take_app_length. }
  case_bool_decide as Hr.
  - apply wp_ret, HQ. exists i. split_and!; [done|lia|lia|by apply Hocc|intros; lia].
  - apply IH; [lia|]. intros r Hres. apply HQ. destruct r as [a|].
    + destruct Hres as (k & -> & Hk & Hfit & Ho & Hmin). exists k. split_and!; [done|lia|done|done|].
      intros j Hj. destruct (decide (j = i)) as [->|]; [by rewrite <- Hocc|apply Hmin; lia].
    + intros j Hj Hfit. destruct (decide (j = i)) as [->|]; [by rewrite <- Hocc|apply Hres; lia].
Qed.

(** ** Bounded copies *)

(** Two blocks that do not overlap. *)
Definition separate (p n q k : nat) : Prop := p + n ≤ q ∨ q + k ≤ p.

Lemma overwrite_end m dst bs v n :
  n = length bs → dst + S n ≤ length m →
  <[dst + n := v]> (overwrite dst bs m) = overwrite dst (bs ++ [v]) m.
Proof.
  intros -> Hd. apply list_eq. intros k.
  destruct (decide (k = dst + length bs)) as [->|Hk].
  - rewrite list_lookup_insert_eq by (rewrite overwrite_length; lia).
    rewrite overwrite_lookup by (rewrite length_app; cbn; lia).
    rewrite decide_True by (rewrite length_app; cbn; lia). rewrite lookup_app_r by lia.
    by replace (dst + length bs - dst - length bs) with 0 by lia.
  - rewrite list_lookup_insert_ne by done.
    rewrite !overwrite_lookup by (rewrite ?length_app; cbn; lia). rewrite length_app. cbn [length].
    repeat case_decide; try lia; [|done]. by rewrite lookup_app_l by lia.
Qed.

(** [memcpy] of [n] characters and a terminator behind them. *)
Lemma wp_put_string t dst src s n Q m :
  str_at m src s → n ≤ length s → separate dst (S n) src (S (length s)) → dst + S n ≤ length m →
  Q tt (overwrite dst (take n s ++ [0%Z]) m) →
  wp t (memcpy dst src n;; st (dst + n) 0%Z) Q m.
Proof.
  intros Hs Hn Hsep Hd HQ. pose proof (str_length _ _ _ Hs) as Hl. unfold separate in Hsep.
  pose proof (str_block_at m src s 0 n Hs ltac:(lia)) as Eb. rewrite Nat.add_0_r, drop_0 in Eb.
  unfold memcpy. apply wp_bind, wp_bind, wp_copy_up; [lia|lia|lia|]. apply wp_ret. rewrite Eb.
  assert (length (take n s) = n) as Ht by (rewrite length_take; lia).
  apply wp_st; [rewrite overwrite_length; lia|]. by rewrite overwrite_end by (rewrite ?Ht; lia).
Qed.

Lemma if_min_nat (x y : nat) : (if bool_decide (x < y) then x else y) = x `min` y.
Proof. case_bool_decide; lia. Qed.

Lemma wp_strlcpy t dst src s size Q m :
  str_at m src s → separate dst size src (S (length s)) → dst + size ≤ length m →
  Q (length s) (if bool_decide (0 < size) then overwrite dst (take (size - 1) s ++ [0%Z]) m else m) →
  wp t (strlcpy dst src size) Q m.
Proof.
  intros Hs Hsep Hd HQ. unfold strlcpy. apply wp_bind. eapply wp_strlen; [done|].
  apply wp_bind. case_bool_decide as Hsz; [|by do 2 apply wp_ret].
  cbn zeta. rewrite if_min_nat. unfold separate in Hsep.
  eapply wp_put_string; [done|lia|unfold separate; lia|lia|]. apply wp_ret.
  replace (take (length s `min` (size - 1)) s) with (take (size - 1) s); [done|].
  rewrite <- (firstn_all s) at 1. by rewrite take_take, Nat.min_comm.
Qed.

Lemma wp_strlcat t dst src d s size Q m :
  str_at m dst d → str_at m src s → separate dst size src (S (length s)) → dst + size ≤ length m →
  Q (length s + length d)
    (if bool_decide (length d < size)
     then overwrite (dst + length d) (take (size - length d - 1) s ++ [0%Z]) m else m) →
  wp t (strlcat dst src size) Q m.
Proof.
  intros Hdst Hs Hsep Hd HQ. unfold strlcat. apply wp_bind. eapply wp_strlen; [done|].
  apply wp_bind. eapply wp_strlen; [done|]. apply wp_bind.
  case_bool_decide as Hd1; [|rewrite andb_false_r; by do 2 apply wp_ret].
  rewrite (bool_decide_true (0 < size)) by lia. cbn [andb]. cbn zeta. rewrite if_min_nat.
  unfold separate in Hsep.
  eapply wp_put_string; [done|lia|unfold separate; lia|lia|]. apply wp_ret.
  replace (take (length s `min` (size - length d - 1)) s) with (take (size - length d - 1) s); [done|].
  rewrite <- (firstn_all s) at 1. by rewrite take_take, Nat.min_comm.
Qed.

(** A string that has just been put somewhere. *)
Lemma str_put m dst s : 0%Z ∉ s → dst + S (length s) ≤ length m → str_at (overwrite dst (s ++ [0%Z]) m) dst s.
Proof.
  intros Hs Hd. split; [|done]. apply list_eq. intros k. unfold block. rewrite lookup_take.
  case_decide as Hk.
  - rewrite lookup_drop, overwrite_lookup by (rewrite length_app; cbn; lia).
    rewrite decide_True by (rewrite length_app; cbn; lia). f_equal. lia.
  - symmetry. apply lookup_ge_None_2. rewrite length_app. cbn. lia.
Qed.

(** ** Tokens *)

(** [strchr] on the delimiters, for a character of the string or its terminator. *)
Lemma wp_is_delim t dp ds c Q m :
  str_at m dp ds → (0 ≤ c < 256)%Z → (∀ r, (r = None ↔ c ∉ ds ∧ c ≠ 0%Z) → Q r m) →
  wp t (strchr dp c) Q m.
Proof.
  intros Hd Hc HQ. eapply wp_strchr; [done|done|]. apply HQ.
  rewrite fmap_None, index_of_None, not_elem_of_app, list_elem_of_singleton. done.
Qed.

(** Past the delimiters: at the first other character, or at the terminator. *)
Lemma wp_skip_delims t fuel p dp ds s Q m :
  str_at m p s → str_at m dp ds → Forall (λ c, 0 ≤ c < 256)%Z s → length s < fuel →
  (∀ pre s', s = pre ++ s' → Forall (λ c, c ∈ ds) pre →
     match s' with
     | [] => Q (inl (p + length pre)) m
     | c :: _ => c ∉ ds → Q (inr (p + length pre)) m
     end) →
  wp t (loop fuel
    (λ a : addr,
       c ← ld a;
       r ← strchr dp c;
       if bool_decide (r ≠ None) then
         if bool_decide (c = 0%Z) then mret (inr (inl a)) else mret (inl (S a))
       else mret (inr (inr a))) p) Q m.
Proof.
  intros Hs Hd. revert p s Hs. induction fuel as [|n IH]; intros p s Hs Hc Hf HQ; [lia|].
  rewrite loop_S. destruct s as [|c s].
  - apply wp_bind, wp_bind. eapply wp_ld; [by apply str_nil|].
    apply wp_bind. eapply wp_is_delim; [done|lia|]. intros r Hr.
    rewrite bool_decide_true by naive_solver. rewrite bool_decide_true by done. do 2 apply wp_ret.
    specialize (HQ [] [] eq_refl). cbn in HQ. rewrite Nat.add_0_r in HQ. by apply HQ.
  - pose proof Hs as (Hp & Hc0 & Hs')%str_cons. apply Forall_cons in Hc as [Hc Hcs].
    apply wp_bind, wp_bind. eapply wp_ld; [done|].
    apply wp_bind. eapply wp_is_delim; [done|done|]. intros r Hr. case_bool_decide as Hr0.
    + rewrite bool_decide_false by done. apply wp_ret.
      assert (c ∈ ds) as Hin by (destruct (decide (c ∈ ds)); [done|]; exfalso; apply Hr0, Hr; done).
      apply (IH (S p) s); [done|done|cbn in Hf; lia|]. intros pre s' -> Hpre.
      specialize (HQ (c :: pre) s' eq_refl). cbn [length] in HQ.
      rewrite Nat.add_succ_comm. apply HQ. by constructor.
    + do 2 apply wp_ret. specialize (HQ [] (c :: s) eq_refl). cbn in HQ.
      rewrite Nat.add_0_r in HQ. apply HQ; [constructor|].
      by apply Hr.
Qed.

(** To the end of the token. *)
Lemma wp_skip_token t fuel p dp ds s Q m :
  str_at m p s → str_at m dp ds → Forall (λ c, 0 ≤ c < 256)%Z s → length s < fuel →
  (∀ tok s', s = tok ++ s' → Forall (λ c, c ∉ ds) tok →
     match s' with [] => True | c :: _ => c ∈ ds end → Q (p + length tok) m) →
  wp t (loop fuel
    (λ a : addr,
       c ← ld a;
       r ← strchr dp c;
       if bool_decide (r = None) then mret (inl (S a)) else mret (inr a)) p) Q m.
Proof.
  intros Hs Hd. revert p s Hs. induction fuel as [|n IH]; intros p s Hs Hc Hf HQ; [lia|].
  rewrite loop_S. destruct s as [|c s].
  - apply wp_bind, wp_bind. eapply wp_ld; [by apply str_nil|].
    apply wp_bind. eapply wp_is_delim; [done|lia|]. intros r Hr.
    rewrite bool_decide_false by naive_solver. do 2 apply wp_ret.
    specialize (HQ [] [] eq_refl). cbn in HQ. rewrite Nat.add_0_r in HQ. by apply HQ.
  - pose proof Hs as (Hp & Hc0 & Hs')%str_cons. apply Forall_cons in Hc as [Hc Hcs].
    apply wp_bind, wp_bind. eapply wp_ld; [done|].
    apply wp_bind. eapply wp_is_delim; [done|done|]. intros r Hr. case_bool_decide as Hr0.
    + apply wp_ret. apply (IH (S p) s); [done|done|cbn in Hf; lia|]. intros tok s' -> Htok Hend.
      specialize (HQ (c :: tok) s' eq_refl). cbn [length] in HQ. rewrite Nat.add_succ_comm.
      apply HQ; [|done]. constructor; [by apply Hr|done].
    + do 2 apply wp_ret. specialize (HQ [] (c :: s) eq_refl). cbn in HQ.
      rewrite Nat.add_0_r in HQ. apply HQ; [constructor|].
      destruct (decide (c ∈ ds)); [done|]. exfalso. apply Hr0, Hr. done.
Qed.

(** What a call of [strtok_r] finds in [s]: delimiters, a token, the rest. *)
Definition token_of (ds s pre tok rest : list Z) : Prop :=
  s = pre ++ tok ++ rest ∧ Forall (λ c, c ∈ ds) pre ∧ Forall (λ c, c ∉ ds) tok ∧
  match rest with [] => True | c :: _ => tok ≠ [] ∧ c ∈ ds end.

(** Cutting a string at a character. *)
Lemma str_cut m p s1 c s2 : str_at m p (s1 ++ c :: s2) →
  str_at (<[p + length s1 := 0%Z]> m) p s1 ∧ str_at (<[p + length s1 := 0%Z]> m) (S (p + length s1)) s2.
Proof.
  intros Hs. pose proof (str_length _ _ _ Hs) as Hl. rewrite length_app in Hl. cbn in Hl.
  pose proof (str_app _ _ _ _ Hs) as (_ & _ & H2)%str_cons. split; [|apply str_insert; [lia|done]].
  split; [|intros Hin; apply (sa_chars _ _ _ Hs), elem_of_app; by left].
  rewrite (block_snoc _ _ _ 0%Z) by (rewrite list_lookup_insert_eq by lia; done).
  rewrite block_insert by lia. f_equal.
  pose proof (str_block_at m p (s1 ++ c :: s2) 0 (length s1) Hs) as E.
  rewrite Nat.add_0_r, drop_0, take_app_length in E. apply E. rewrite length_app. lia.
Qed.

Lemma wp_strtok_r t so save dp ds s Q m :
  str_at m (default save so) s → str_at m dp ds → Forall (λ c, 0 ≤ c < 256)%Z s →
  (∀ pre tok rest, token_of ds s pre tok rest →
     match tok with
     | [] => Q (None, default save so + length pre) m
     | _ =>
         let q := default save so + length pre + length tok in
         match rest with
         | [] => Q (Some (default save so + length pre), q) m
         | _ :: _ => Q (Some (default save so + length pre), S q) (<[q := 0%Z]> m)
         end
     end) →
  wp t (strtok_r so dp save) Q m.
Proof.
  intros Hs Hd Hc HQ. pose proof (str_length _ _ _ Hs) as Hl.
  unfold strtok_r. apply wp_bind, wp_scan_fuel. cbn zeta. set (p := default save so) in *.
  apply wp_bind. eapply wp_skip_delims; [done|done|done|lia|]. intros pre s' -> Hpre.
  destruct s' as [|c s']; [apply wp_ret; apply (HQ pre [] []); by split_and!|]. intros Hcd.
  apply Forall_app in Hc as [_ Hc]. pose proof (str_app _ _ _ _ Hs) as Htok.
  pose proof (str_length _ _ _ Htok).
  apply wp_bind. eapply wp_skip_token; [done|done|done|lia|]. intros tok rest E Htd Hend.
  assert (tok ≠ []) as Hne. { intros ->. cbn in E. subst rest. done. }
  rewrite E in Htok. destruct (str_here _ _ _ _ Htok) as [Hq H0].
  apply wp_bind. eapply wp_ld; [done|].
  assert (token_of ds (pre ++ c :: s') pre tok rest) as Hto.
  { rewrite E. split_and!; [done|done|done|]. by destruct rest. }
  specialize (HQ _ _ _ Hto). destruct tok as [|x tok]; [done|].
  destruct rest as [|y rest]; cbn [head default id] in *.
  - rewrite bool_decide_false by auto. by apply wp_ret.
  - rewrite bool_decide_true by (rewrite H0; done). apply wp_bind, wp_st; [|by apply wp_ret].
    by apply lookup_lt_Some in Hq.
Qed.

Lemma occurs_fits needle hay i : occurs needle hay i → i ≤ length hay → i + length needle ≤ length hay.
Proof. intros H%prefix_length Hi. rewrite length_drop in H. lia. Qed.

(** Putting a string behind another. *)
Lemma str_append m p d s :
  str_at m p d → 0%Z ∉ s → p + length d + S (length s) ≤ length m →
  str_at (overwrite (p + length d) (s ++ [0%Z]) m) p (d ++ s).
Proof.
  intros [Hd H0] Hs Hl. split; [|by rewrite not_elem_of_app].
  apply list_eq. intros k. unfold block. rewrite lookup_take. case_decide as Hk.
  - rewrite length_app in Hk.
    rewrite lookup_drop, overwrite_lookup by (rewrite length_app; cbn; lia).
    rewrite length_app. cbn [length]. rewrite <- app_assoc. case_decide as Hin.
    + rewrite (lookup_app_r d) by lia. f_equal. lia.
    + assert (block m p (S (length d)) !! k = (d ++ [0%Z]) !! k) as E by by rewrite Hd.
      rewrite block_lookup, lookup_app_l in E by lia. by rewrite E, lookup_app_l by lia.
  - symmetry. apply lookup_ge_None_2. rewrite !length_app in *. cbn [length] in *. lia.
Qed.

(** [strnlen] from the character at [k], with no terminator up to the end of the
    memory. *)
Lemma strnlen_runs_off fuel p s k m :
  p + length s = length m → k ≤ length s → block m p (length s) = s ∧ 0%Z ∉ s →
  length s - k < fuel →
  loop fuel (λ len, c ← ld (p + len);
    if bool_decide (c ≠ 0%Z) && bool_decide (len < length s) then mret (inl (S len))
    else mret (inr len)) k m = Undef.
Proof.
  intros Hl Hk [Hb Hs]. revert k Hk. induction fuel as [|fuel IH]; intros k Hk Hf; [lia|].
  assert (ld (p + k) m = match m !! (p + k) with Some c => Done (c, m) | None => Undef end) as Hld
    by (unfold ld, mbind, M_bind; cbn; by destruct (m !! (p + k))).
  rewrite loop_S. unfold mbind at 1, M_bind at 1. unfold mbind at 1, M_bind at 1. rewrite Hld.
  destruct (decide (k = length s)) as [->|Hne]; [by rewrite (lookup_ge_None_2 m) by lia|].
  destruct (lookup_lt_is_Some_2 m (p + k)) as [c Hc]; [lia|]. rewrite Hc.
  assert (s !! k = Some c) as Hsk by (rewrite <- Hb, block_lookup by lia; done).
  rewrite bool_decide_true by (intros ->; apply Hs; by apply list_elem_of_lookup_2 in Hsk).
  rewrite bool_decide_true by lia. cbn [andb]. apply IH; lia.
Qed.
