(* ===== verification/KStringMain.v ===== *)
(** * Pintos: the correctness theorems of [lib/string.c]

    Each theorem says that the function ends, without an access outside the memory,
    and what it returns and leaves in memory. *)

From stdpp Require Import base tactics list.
From Stdlib Require Import ZArith Lia.
From S2P Require Import Prelude KString KStringProps.

Implicit Types (m : memory) (p dst src : addr) (s : list Z) (n : nat).

(** [memmove] moves a block whatever it overlaps: the destination
    holds the old bytes of the source and nothing else changes.  When it copies
    upwards it returns the end of the destination and not its start. *)
Theorem memmove_moves dst src n m :
  dst + n ≤ length m → src + n ≤ length m →
  memmove dst src n m =
    Done (if bool_decide (dst < src) then dst + n else dst, overwrite dst (block m src n) m).
Proof.
  intros Hd Hs.
  assert (wp Full (memmove dst src n)
    (λ r m', r = (if bool_decide (dst < src) then dst + n else dst) ∧
       m' = overwrite dst (block m src n) m) m) as Hwp.
  { unfold memmove. case_bool_decide.
    - apply wp_bind, wp_copy_up; [lia|done|done|]. by apply wp_ret.
    - apply wp_bind, wp_copy_down; [lia|done|done|]. by apply wp_ret. }
  by apply wp_total_run in Hwp as (r & m' & -> & -> & ->).
Qed.

Lemma memmove_moves_witness :
  memmove 1 3 4 [1; 2; 3; 4; 5; 6; 7; 8]%Z = Done (5, [1; 4; 5; 6; 7; 6; 7; 8]%Z) ∧
  memmove 3 1 4 [1; 2; 3; 4; 5; 6; 7; 8]%Z = Done (3, [1; 2; 3; 2; 3; 4; 5; 8]%Z).
Proof.
  split.
  - rewrite (memmove_moves 1 3 4); [reflexivity|cbn; lia|cbn; lia].
  - rewrite (memmove_moves 3 1 4); [reflexivity|cbn; lia|cbn; lia].
Defined.

(** [strstr] answers with the first place where the needle occurs
    in the haystack, and with null exactly when it occurs nowhere. *)
Theorem strstr_first p q hay needle m :
  str_at m p hay → str_at m q needle →
  ∃ r, strstr p q m = Done (r, m) ∧
    match r with
    | Some a => ∃ i, a = p + i ∧ occurs needle hay i ∧ ∀ j, j < i → ¬ occurs needle hay j
    | None => ∀ j, j ≤ length hay → ¬ occurs needle hay j
    end.
Proof.
  intros Hp Hq.
  assert (wp Full (strstr p q)
    (λ r m', m' = m ∧ match r with
      | Some a => ∃ i, a = p + i ∧ occurs needle hay i ∧ ∀ j, j < i → ¬ occurs needle hay j
      | None => ∀ j, j ≤ length hay → ¬ occurs needle hay j
      end) m) as Hwp.
  { unfold strstr. apply wp_bind. eapply wp_strlen; [done|]. apply wp_bind. eapply wp_strlen; [done|].
    case_bool_decide as Hlen.
    - eapply wp_strstr_loop; [done|done|lia|]. intros r Hr. split; [done|]. destruct r as [a|].
      + destruct Hr as (k & -> & _ & _ & Ho & Hmin). exists k. split_and!; [done|done|].
        intros j Hj. apply Hmin. lia.
      + intros j Hj Ho. pose proof (occurs_fits _ _ _ Ho Hj). by apply (Hr j); [lia|lia|].
    - apply wp_ret. split; [done|]. intros j Hj Ho. pose proof (occurs_fits _ _ _ Ho Hj). lia. }
  apply wp_total_run in Hwp as (r & m' & Hrun & -> & Hr). by exists r.
Qed.

(** "xabab" at 0 and "ab" at 6. *)
Definition demo_mem : memory := [120; 97; 98; 97; 98; 0; 97; 98; 0]%Z.

Lemma demo_hay : str_at demo_mem 0 [120; 97; 98; 97; 98]%Z.
Proof. split; [reflexivity|]. apply (bool_decide_unpack _). by vm_compute. Qed.

Lemma demo_needle : str_at demo_mem 6 [97; 98]%Z.
Proof. split; [reflexivity|]. apply (bool_decide_unpack _). by vm_compute. Qed.

Lemma strstr_first_witness :
  strstr 0 6 demo_mem = Done (Some 1, demo_mem) ∧
  ∃ i, Some 1 = Some (0 + i) ∧ occurs [97; 98]%Z [120; 97; 98; 97; 98]%Z i.
Proof.
  destruct (strstr_first 0 6 _ _ _ demo_hay demo_needle) as (r & Hrun & Hr).
  assert (r = Some 1) as ->.
  { assert (strstr 0 6 demo_mem = Done (Some 1, demo_mem)) as E by (vm_compute; reflexivity).
    rewrite E in Hrun. by injection Hrun. }
  split; [exact Hrun|]. destruct Hr as (i & -> & Ho & _). exists i. by split.
Defined.

(** [strtok_r] splits off the next token.  It skips delimiters; at
    the end of the string it returns null and changes nothing.  Otherwise the token
    is the longest run without delimiters: the result points to it as a string of
    its own, the saved pointer points to the characters behind it, and the only
    byte written is the delimiter that ends it. *)
Theorem strtok_r_token so save dp ds s m :
  str_at m (default save so) s → str_at m dp ds → Forall (λ c, 0 ≤ c < 256)%Z s →
  ∃ pre tok rest, token_of ds s pre tok rest ∧
    let t := default save so + length pre in
    ∃ m', match tok with
    | [] => strtok_r so dp save m = Done (None, t, m) ∧ m' = m
    | _ => ∃ save', strtok_r so dp save m = Done (Some t, save', m') ∧
        str_at m' t tok ∧ str_at m' save' (drop 1 rest) ∧
        (∀ a, a ≠ t + length tok → m' !! a = m !! a)
    end.
Proof.
  intros Hs Hd Hc.
  assert (wp Full (strtok_r so dp save)
    (λ r m', ∃ pre tok rest, token_of ds s pre tok rest ∧
      let t := default save so + length pre in
      match tok with
      | [] => r = (None, t) ∧ m' = m
      | _ => ∃ save', r = (Some t, save') ∧ str_at m' t tok ∧ str_at m' save' (drop 1 rest) ∧
          (∀ a, a ≠ t + length tok → m' !! a = m !! a)
      end) m) as Hwp.
  { eapply wp_strtok_r; [done|done|done|]. intros pre tok rest Hto.
    pose proof Hto as (-> & _). apply str_app in Hs.
    destruct tok as [|x tok]; [by exists pre, [], rest|]. cbn zeta.
    destruct rest as [|y rest]; exists pre, (x :: tok); eexists; (split; [exact Hto|]); eexists;
      (split; [reflexivity|]); rewrite ?app_nil_r in Hs.
    - split_and!; [done| |done]. rewrite <- (app_nil_r (x :: tok)) in Hs. by apply str_app in Hs.
    - apply str_cut in Hs as [Ht Hr]. split_and!; [done|done|].
      intros a Ha. by apply list_lookup_insert_ne. }
  apply wp_total_run in Hwp as (r & m' & Hrun & pre & tok & rest & Hto & Hr).
  exists pre, tok, rest. split; [done|]. cbn zeta. exists m'. destruct tok as [|x tok].
  - destruct Hr as [-> ->]. done.
  - destruct Hr as (save' & -> & Hr). by exists save'.
Qed.

(** "  ab, c" at 0 and the delimiters " ," at 8. *)
Definition demo_line : memory := [32; 32; 97; 98; 44; 32; 99; 0; 32; 44; 0]%Z.

Lemma strtok_r_token_witness :
  (∃ pre tok rest, token_of [32; 44]%Z [32; 32; 97; 98; 44; 32; 99]%Z pre tok rest) ∧
  strtok_r (Some 0) 8 0 demo_line =
    Done (Some 2, 5, [32; 32; 97; 98; 0; 32; 99; 0; 32; 44; 0]%Z).
Proof.
  split; [|vm_compute; reflexivity].
  destruct (strtok_r_token (Some 0) 0 8 [32; 44]%Z [32; 32; 97; 98; 44; 32; 99]%Z demo_line)
    as (pre & tok & rest & H & _).
  - split; [reflexivity|]. apply (bool_decide_unpack _). by vm_compute.
  - split; [reflexivity|]. apply (bool_decide_unpack _). by vm_compute.
  - repeat constructor; lia.
  - by exists pre, tok, rest.
Defined.

(** [strlcat] never writes outside the [size] bytes of its buffer.  It
    returns the length of the whole concatenation, and the buffer holds the first
    [size - 1] characters of it as a string. *)
Theorem strlcat_bounded dst src d s size m :
  str_at m dst d → str_at m src s → separate dst size src (S (length s)) →
  dst + size ≤ length m → length d < size →
  ∃ m', strlcat dst src size m = Done (length (d ++ s), m') ∧
    str_at m' dst (take (size - 1) (d ++ s)) ∧ length m' = length m ∧
    (∀ a, a < dst ∨ dst + size ≤ a → m' !! a = m !! a).
Proof.
  intros Hd Hs Hsep Hsz Hfit.
  assert (wp Full (strlcat dst src size)
    (λ r m', r = length (d ++ s) ∧ m' = overwrite (dst + length d) (take (size - length d - 1) s ++ [0%Z]) m) m) as Hwp.
  { eapply wp_strlcat; [done|done|done|done|]. rewrite bool_decide_true by done.
    rewrite length_app. split; [lia|done]. }
  apply wp_total_run in Hwp as (r & m' & Hrun & -> & ->).
  assert (length (take (size - length d - 1) s ++ [0%Z]) ≤ size - length d) as Hlen.
  { rewrite length_app, length_take. cbn. lia. }
  eexists. split; [exact Hrun|]. split_and!.
  - rewrite take_app_ge by lia. replace (size - 1 - length d) with (size - length d - 1) by lia.
    apply str_append; [done| |rewrite length_take; lia]. intros H%elem_of_take. destruct H as (i & H & _).
    by apply list_elem_of_lookup_2 in H; apply (sa_chars _ _ _ Hs).
  - apply overwrite_length. lia.
  - intros a Ha. rewrite overwrite_lookup by lia. apply decide_False. lia.
Qed.

(** "ab" in the buffer of five bytes at 0 and "cdef" at 5. *)
Definition demo_buf : memory := [97; 98; 0; 9; 9; 99; 100; 101; 102; 0]%Z.

Lemma strlcat_bounded_witness :
  strlcat 0 5 5 demo_buf = Done (6, [97; 98; 99; 100; 0; 99; 100; 101; 102; 0]%Z) ∧
  ∃ m', strlcat 0 5 5 demo_buf = Done (6, m') ∧ str_at m' 0 [97; 98; 99; 100]%Z.
Proof.
  split; [vm_compute; reflexivity|].
  destruct (strlcat_bounded 0 5 [97; 98]%Z [99; 100; 101; 102]%Z 5 demo_buf) as (m' & Hrun & Hs & _).
  - split; [reflexivity|]. apply (bool_decide_unpack _). by vm_compute.
  - split; [reflexivity|]. apply (bool_decide_unpack _). by vm_compute.
  - left. cbn. lia.
  - cbn. lia.
  - cbn. lia.
  - exists m'. split; [exact Hrun|exact Hs].
Defined.

(** [strnlen] reads one byte more than its bound.  On a field of
    [maxlen] characters without a terminator at the very end of the memory it
    reads the byte behind the memory. *)
Theorem strnlen_overreads p s m :
  p + length s = length m → block m p (length s) = s → 0%Z ∉ s →
  strnlen p (length s) m = Undef.
Proof.
  intros Hl Hb Hs. change (strnlen p (length s) m) with
    (loop (S (length m)) (λ len, c ← ld (p + len);
       if bool_decide (c ≠ 0%Z) && bool_decide (len < length s) then mret (inl (S len))
       else mret (inr len)) 0 m).
  apply strnlen_runs_off; [done|lia|done|lia].
Qed.

Lemma strnlen_overreads_witness :
  strnlen 1 2 [0; 97; 98]%Z = Undef.
Proof.
  apply (strnlen_overreads 1 [97; 98]%Z [0; 97; 98]%Z); [reflexivity|reflexivity|].
  apply (bool_decide_unpack _). by vm_compute.
Defined.
