(* ===== verification/Kernel.v ===== *)
(** * Pintos: the kernel machine

    The state of the kernel, the threads that share it, and the processor that
    executes one of them at a time.

    A kernel function is a [prog]: a sequence of atomic actions on the kernel's
    state ([PAct]), of context switches ([PSwitch], the assembly routine
    [switch_threads]) and of unbounded loops ([PLoop]).  Between two actions an
    external interrupt can arrive whenever interrupts are enabled; it runs the
    interrupt handler on the stack of the thread it interrupts, and the handler can
    yield to another thread.  [Project_3/threads/interrupt.c] is modelled here as
    well, with the interrupt flag of the processor as part of the state.

    - A thread is identified by the number of the page its [struct thread] lies in.
    - A [struct list] of threads is the sequence of them, which is what
      [deque_refines] shows that [list.c] implements as long as no element is put on
      a second list: putting the [elem] of a thread on a list while it is on one
      is undefined behaviour here.
    - The kernel is the one of the [threads] directory, built without [USERPROG].
    - [trace] records when locks are obtained and released and semaphores go up and
      down.  No function reads it. *)

From stdpp Require Import base tactics list gmap.
From Stdlib Require Import ZArith Lia.
From S2P Require Import Prelude Bitmap.

Local Open Scope Z_scope.

(** ** Data *)

Definition tptr := Z.
Definition lptr := positive.
Definition cptr := positive.

(** The address of a semaphore: one of its own, the one in a lock, or the one in the
    [struct semaphore_elem] on the stack of a thread inside [cond_wait]. *)
Inductive sptr :=
  | Sema (p : positive)
  | OfLock (l : lptr)
  | OfWaiter (t : tptr).

#[global] Instance sptr_eq_dec : EqDecision sptr.
Proof. solve_decision. Defined.

#[global] Program Instance sptr_countable : Countable sptr :=
  inj_countable'
    (λ s, match s with Sema p => inl p | OfLock l => inr (inl l) | OfWaiter t => inr (inr t) end)
    (λ x, match x with inl p => Sema p | inr (inl l) => OfLock l | inr (inr t) => OfWaiter t end) _.
Next Obligation. by intros []. Qed.

Inductive thread_status := THREAD_RUNNING | THREAD_READY | THREAD_BLOCKED | THREAD_DYING.

#[global] Instance thread_status_eq_dec : EqDecision thread_status.
Proof. solve_decision. Defined.

Record thread := Thread {
  tid : Z;
  status : thread_status;
  name : list Z;
  stack : Z;
  priority : Z;
  magic : Z
}.

Definition set_tid (v : Z) (t : thread) : thread :=
  Thread v (status t) (name t) (stack t) (priority t) (magic t).
Definition set_status (s : thread_status) (t : thread) : thread :=
  Thread (tid t) s (name t) (stack t) (priority t) (magic t).
Definition set_stack (v : Z) (t : thread) : thread :=
  Thread (tid t) (status t) (name t) v (priority t) (magic t).
Definition set_priority (v : Z) (t : thread) : thread :=
  Thread (tid t) (status t) (name t) (stack t) v (magic t).

Definition THREAD_MAGIC : Z := 0xcd6abf4b.
Definition TID_ERROR : Z := -1.
Definition PRI_MIN : Z := 0.
Definition PRI_DEFAULT : Z := 31.
Definition PRI_MAX : Z := 63.
Definition TIME_SLICE : Z := 4.
Definition PGSIZE : Z := 4096.

Record semaphore := Semaphore { value : Z; waiters : list tptr }.

(** The semaphore of the lock at [l] is at [OfLock l]. *)
Record lock := Lock { holder : option tptr }.

(** The threads whose [struct semaphore_elem] is on the list. *)
Record condition := Condition { cond_waiters : list tptr }.

(** [base] is a page number. *)
Record pool := Pool { used_map : bitmap; base : Z }.

Inductive kevent :=
  | Acquired (t : tptr) (l : lptr)
  | Released (t : tptr) (l : lptr)
  | Downed (s : sptr)
  | Upped (s : sptr).

Record kernel := Kernel {
  threads : gmap tptr thread;
  current : tptr;
  ready_list : list tptr;
  all_list : list tptr;
  idle_thread : option tptr;
  initial_thread : option tptr;
  next_tid : Z;
  thread_ticks : Z;
  idle_ticks : Z;
  kernel_ticks : Z;
  ticks : Z;
  intr_level : bool;
  in_external_intr : bool;
  yield_on_return : bool;
  unexpected_cnt : gmap Z Z;
  semas : gmap sptr semaphore;
  locks : gmap lptr lock;
  conds : gmap cptr condition;
  kernel_pool : pool;
  user_pool : pool;
  trace : list kevent
}.

Definition upd_threads (f : gmap tptr thread → gmap tptr thread) (k : kernel) : kernel :=
  Kernel (f (threads k)) (current k) (ready_list k) (all_list k) (idle_thread k) (initial_thread
    k) (next_tid k) (thread_ticks k) (idle_ticks k) (kernel_ticks k) (ticks k) (intr_level k)
    (in_external_intr k) (yield_on_return k) (unexpected_cnt k) (semas k) (locks k) (conds k)
    (kernel_pool k) (user_pool k) (trace k).
Definition upd_current (f : tptr → tptr) (k : kernel) : kernel :=
  Kernel (threads k) (f (current k)) (ready_list k) (all_list k) (idle_thread k) (initial_thread
    k) (next_tid k) (thread_ticks k) (idle_ticks k) (kernel_ticks k) (ticks k) (intr_level k)
    (in_external_intr k) (yield_on_return k) (unexpected_cnt k) (semas k) (locks k) (conds k)
    (kernel_pool k) (user_pool k) (trace k).
Definition upd_ready_list (f : list tptr → list tptr) (k : kernel) : kernel :=
  Kernel (threads k) (current k) (f (ready_list k)) (all_list k) (idle_thread k) (initial_thread
    k) (next_tid k) (thread_ticks k) (idle_ticks k) (kernel_ticks k) (ticks k) (intr_level k)
    (in_external_intr k) (yield_on_return k) (unexpected_cnt k) (semas k) (locks k) (conds k)
    (kernel_pool k) (user_pool k) (trace k).
Definition upd_all_list (f : list tptr → list tptr) (k : kernel) : kernel :=
  Kernel (threads k) (current k) (ready_list k) (f (all_list k)) (idle_thread k) (initial_thread
    k) (next_tid k) (thread_ticks k) (idle_ticks k) (kernel_ticks k) (ticks k) (intr_level k)
    (in_external_intr k) (yield_on_return k) (unexpected_cnt k) (semas k) (locks k) (conds k)
    (kernel_pool k) (user_pool k) (trace k).
Definition upd_idle_thread (f : option tptr → option tptr) (k : kernel) : kernel :=
  Kernel (threads k) (current k) (ready_list k) (all_list k) (f (idle_thread k)) (initial_thread
    k) (next_tid k) (thread_ticks k) (idle_ticks k) (kernel_ticks k) (ticks k) (intr_level k)
    (in_external_intr k) (yield_on_return k) (unexpected_cnt k) (semas k) (locks k) (conds k)
    (kernel_pool k) (user_pool k) (trace k).
Definition upd_initial_thread (f : option tptr → option tptr) (k : kernel) : kernel :=
  Kernel (threads k) (current k) (ready_list k) (all_list k) (idle_thread k) (f (initial_thread
    k)) (next_tid k) (thread_ticks k) (idle_ticks k) (kernel_ticks k) (ticks k) (intr_level k)
    (in_external_intr k) (yield_on_return k) (unexpected_cnt k) (semas k) (locks k) (conds k)
    (kernel_pool k) (user_pool k) (trace k).
Definition upd_next_tid (f : Z → Z) (k : kernel) : kernel :=
  Kernel (threads k) (current k) (ready_list k) (all_list k) (idle_thread k) (initial_thread k)
    (f (next_tid k)) (thread_ticks k) (idle_ticks k) (kernel_ticks k) (ticks k) (intr_level k)
    (in_external_intr k) (yield_on_return k) (unexpected_cnt k) (semas k) (locks k) (conds k)
    (kernel_pool k) (user_pool k) (trace k).
Definition upd_thread_ticks (f : Z → Z) (k : kernel) : kernel :=
  Kernel (threads k) (current k) (ready_list k) (all_list k) (idle_thread k) (initial_thread k)
    (next_tid k) (f (thread_ticks k)) (idle_ticks k) (kernel_ticks k) (ticks k) (intr_level k)
    (in_external_intr k) (yield_on_return k) (unexpected_cnt k) (semas k) (locks k) (conds k)
    (kernel_pool k) (user_pool k) (trace k).
Definition upd_idle_ticks (f : Z → Z) (k : kernel) : kernel :=
  Kernel (threads k) (current k) (ready_list k) (all_list k) (idle_thread k) (initial_thread k)
    (next_tid k) (thread_ticks k) (f (idle_ticks k)) (kernel_ticks k) (ticks k) (intr_level k)
    (in_external_intr k) (yield_on_return k) (unexpected_cnt k) (semas k) (locks k) (conds k)
    (kernel_pool k) (user_pool k) (trace k).
Definition upd_kernel_ticks (f : Z → Z) (k : kernel) : kernel :=
  Kernel (threads k) (current k) (ready_list k) (all_list k) (idle_thread k) (initial_thread k)
    (next_tid k) (thread_ticks k) (idle_ticks k) (f (kernel_ticks k)) (ticks k) (intr_level k)
    (in_external_intr k) (yield_on_return k) (unexpected_cnt k) (semas k) (locks k) (conds k)
    (kernel_pool k) (user_pool k) (trace k).
Definition upd_ticks (f : Z → Z) (k : kernel) : kernel :=
  Kernel (threads k) (current k) (ready_list k) (all_list k) (idle_thread k) (initial_thread k)
    (next_tid k) (thread_ticks k) (idle_ticks k) (kernel_ticks k) (f (ticks k)) (intr_level k)
    (in_external_intr k) (yield_on_return k) (unexpected_cnt k) (semas k) (locks k) (conds k)
    (kernel_pool k) (user_pool k) (trace k).
Definition upd_intr_level (f : bool → bool) (k : kernel) : kernel :=
  Kernel (threads k) (current k) (ready_list k) (all_list k) (idle_thread k) (initial_thread k)
    (next_tid k) (thread_ticks k) (idle_ticks k) (kernel_ticks k) (ticks k) (f (intr_level k))
    (in_external_intr k) (yield_on_return k) (unexpected_cnt k) (semas k) (locks k) (conds k)
    (kernel_pool k) (user_pool k) (trace k).
Definition upd_in_external_intr (f : bool → bool) (k : kernel) : kernel :=
  Kernel (threads k) (current k) (ready_list k) (all_list k) (idle_thread k) (initial_thread k)
    (next_tid k) (thread_ticks k) (idle_ticks k) (kernel_ticks k) (ticks k) (intr_level k) (f
    (in_external_intr k)) (yield_on_return k) (unexpected_cnt k) (semas k) (locks k) (conds k)
    (kernel_pool k) (user_pool k) (trace k).
Definition upd_yield_on_return (f : bool → bool) (k : kernel) : kernel :=
  Kernel (threads k) (current k) (ready_list k) (all_list k) (idle_thread k) (initial_thread k)
    (next_tid k) (thread_ticks k) (idle_ticks k) (kernel_ticks k) (ticks k) (intr_level k)
    (in_external_intr k) (f (yield_on_return k)) (unexpected_cnt k) (semas k) (locks k) (conds
    k) (kernel_pool k) (user_pool k) (trace k).
Definition upd_unexpected_cnt (f : gmap Z Z → gmap Z Z) (k : kernel) : kernel :=
  Kernel (threads k) (current k) (ready_list k) (all_list k) (idle_thread k) (initial_thread k)
    (next_tid k) (thread_ticks k) (idle_ticks k) (kernel_ticks k) (ticks k) (intr_level k)
    (in_external_intr k) (yield_on_return k) (f (unexpected_cnt k)) (semas k) (locks k) (conds
    k) (kernel_pool k) (user_pool k) (trace k).
Definition upd_semas (f : gmap sptr semaphore → gmap sptr semaphore) (k : kernel) : kernel :=
  Kernel (threads k) (current k) (ready_list k) (all_list k) (idle_thread k) (initial_thread k)
    (next_tid k) (thread_ticks k) (idle_ticks k) (kernel_ticks k) (ticks k) (intr_level k)
    (in_external_intr k) (yield_on_return k) (unexpected_cnt k) (f (semas k)) (locks k) (conds
    k) (kernel_pool k) (user_pool k) (trace k).
Definition upd_locks (f : gmap lptr lock → gmap lptr lock) (k : kernel) : kernel :=
  Kernel (threads k) (current k) (ready_list k) (all_list k) (idle_thread k) (initial_thread k)
    (next_tid k) (thread_ticks k) (idle_ticks k) (kernel_ticks k) (ticks k) (intr_level k)
    (in_external_intr k) (yield_on_return k) (unexpected_cnt k) (semas k) (f (locks k)) (conds
    k) (kernel_pool k) (user_pool k) (trace k).
Definition upd_conds (f : gmap cptr condition → gmap cptr condition) (k : kernel) : kernel :=
  Kernel (threads k) (current k) (ready_list k) (all_list k) (idle_thread k) (initial_thread k)
    (next_tid k) (thread_ticks k) (idle_ticks k) (kernel_ticks k) (ticks k) (intr_level k)
    (in_external_intr k) (yield_on_return k) (unexpected_cnt k) (semas k) (locks k) (f (conds
    k)) (kernel_pool k) (user_pool k) (trace k).
Definition upd_kernel_pool (f : pool → pool) (k : kernel) : kernel :=
  Kernel (threads k) (current k) (ready_list k) (all_list k) (idle_thread k) (initial_thread k)
    (next_tid k) (thread_ticks k) (idle_ticks k) (kernel_ticks k) (ticks k) (intr_level k)
    (in_external_intr k) (yield_on_return k) (unexpected_cnt k) (semas k) (locks k) (conds k) (f
    (kernel_pool k)) (user_pool k) (trace k).
Definition upd_user_pool (f : pool → pool) (k : kernel) : kernel :=
  Kernel (threads k) (current k) (ready_list k) (all_list k) (idle_thread k) (initial_thread k)
    (next_tid k) (thread_ticks k) (idle_ticks k) (kernel_ticks k) (ticks k) (intr_level k)
    (in_external_intr k) (yield_on_return k) (unexpected_cnt k) (semas k) (locks k) (conds k)
    (kernel_pool k) (f (user_pool k)) (trace k).
Definition upd_trace (f : list kevent → list kevent) (k : kernel) : kernel :=
  Kernel (threads k) (current k) (ready_list k) (all_list k) (idle_thread k) (initial_thread k)
    (next_tid k) (thread_ticks k) (idle_ticks k) (kernel_ticks k) (ticks k) (intr_level k)
    (in_external_intr k) (yield_on_return k) (unexpected_cnt k) (semas k) (locks k) (conds k)
    (kernel_pool k) (user_pool k) (f (trace k)).

(** ** Programs *)

(** The assertions of the kernel, and the one signed counter that can overflow. *)
Inductive panic :=
  | NotIntrContext | IntrContext | IntrOff | IntrOn | StatusRunning | StatusBlocked | StatusNotRunning
  | IsThread | NextIsThread | PrevNotCurrent | NotReached | PriorityRange | FrameSize
  | LockNotHeld | LockHeld | OutOfPages | NoBitmapSpace | PhysicalAddress | TidOverflow.

Inductive prog (A : Type) : Type :=
  | PRet (a : A)
  | PAct {B : Type} (m : M kernel B) (k : B → prog A)
  | PSwitch (cur next : tptr) (k : option tptr → prog A)
  | PStack (t : tptr) (entry : option tptr → prog unit) (k : prog A)
  | PLoop {L B : Type} (body : L → prog (L + B)) (l : L) (k : B → prog A)
  | PPanic (w : panic).
Arguments PRet {_} _.
Arguments PAct {_ _} _ _.
Arguments PSwitch {_} _ _ _.
Arguments PStack {_} _ _ _.
Arguments PLoop {_ _ _} _ _ _.
Arguments PPanic {_} _.

Fixpoint pbind {A B} (p : prog A) (f : A → prog B) : prog B :=
  match p with
  | PRet a => f a
  | PAct m k => PAct m (λ b, pbind (k b) f)
  | PSwitch c n k => PSwitch c n (λ prev, pbind (k prev) f)
  | PStack t e k => PStack t e (pbind k f)
  | PLoop body l k => PLoop body l (λ b, pbind (k b) f)
  | PPanic w => PPanic w
  end.

#[global] Instance prog_ret : MRet prog := λ A a, PRet a.
#[global] Instance prog_bind : MBind prog := λ A B f p, pbind p f.

Definition act {A} (m : M kernel A) : prog A := PAct m PRet.
Definition kget {A} (f : kernel → A) : prog A := act (gets f).
Definition kmod (f : kernel → kernel) : prog unit := act (modify f).
Definition ploop {L A} (body : L → prog (L + A)) (l : L) : prog A := PLoop body l PRet.
Definition switch_threads (cur next : tptr) : prog (option tptr) := PSwitch cur next PRet.
Definition assert (w : panic) (c : bool) : prog unit := if c then mret tt else PPanic w.
Definition pwhen (c : bool) (p : prog unit) : prog unit := if c then p else mret tt.

(** ** Access to the structures *)

(** A page that holds no thread is not read as one. *)
Definition kthread (t : tptr) : prog thread := act (k ← get; assume_some (threads k !! t)).

Definition upd_thread (t : tptr) (f : thread → thread) : prog unit :=
  act (k ← get; th ← assume_some (threads k !! t); modify (upd_threads (<[t := f th]>))).

Definition ksema (s : sptr) : prog semaphore := act (k ← get; assume_some (semas k !! s)).
Definition klock (l : lptr) : prog lock := act (k ← get; assume_some (locks k !! l)).
Definition kcond (c : cptr) : prog condition := act (k ← get; assume_some (conds k !! c)).

(** The [elem] of [t] is on the run queue or on the list of a semaphore. *)
Definition linked (k : kernel) (t : tptr) : Prop :=
  t ∈ ready_list k ∨ map_Exists (λ _ s, t ∈ waiters s) (semas k).

#[global] Instance linked_dec k t : Decision (linked k t).
Proof. unfold linked. apply _. Defined.

(** [list_push_back(&ready_list, &t->elem)] *)
Definition push_ready (t : tptr) : prog unit :=
  act (k ← get;
       check (bool_decide (is_Some (threads k !! t)));;
       check (bool_decide (¬ linked k t));;
       modify (upd_ready_list (λ l, l ++ [t]))).

(** [list_push_back(&sema->waiters, &t->elem)] *)
Definition push_waiter (s : sptr) (t : tptr) : prog unit :=
  act (k ← get;
       check (bool_decide (is_Some (threads k !! t)));;
       check (bool_decide (¬ linked k t));;
       sm ← assume_some (semas k !! s);
       modify (upd_semas (<[s := Semaphore (value sm) (waiters sm ++ [t])]>))).

(** [list_pop_front(&sema->waiters)]; the list must not be empty. *)
Definition pop_waiter (s : sptr) : prog tptr :=
  act (k ← get;
       sm ← assume_some (semas k !! s);
       match waiters sm with
       | [] => undef
       | t :: ws => modify (upd_semas (<[s := Semaphore (value sm) ws]>));; mret t
       end).

Definition set_value (s : sptr) (f : Z → Z) (e : kevent) : prog unit :=
  act (k ← get;
       sm ← assume_some (semas k !! s);
       modify (upd_semas (<[s := Semaphore (f (value sm)) (waiters sm)]>));;
       modify (upd_trace (λ tr, tr ++ [e]))).

Definition set_holder (l : lptr) (h : option tptr) (e : kevent) : prog unit :=
  act (k ← get;
       check (bool_decide (is_Some (locks k !! l)));;
       modify (upd_locks (<[l := Lock h]>));;
       modify (upd_trace (λ tr, tr ++ [e]))).

(** ** [interrupt.c] *)

Definition intr_context : prog bool := kget in_external_intr.
Definition intr_get_level : prog bool := kget intr_level.

Definition intr_enable : prog bool :=
  old_level ← intr_get_level;
  c ← intr_context; assert NotIntrContext (negb c);;
  kmod (upd_intr_level (λ _, true));;
  mret old_level.

Definition intr_disable : prog bool :=
  old_level ← intr_get_level;
  kmod (upd_intr_level (λ _, false));;
  mret old_level.

Definition intr_set_level (level : bool) : prog bool :=
  if level then intr_enable else intr_disable.

Definition intr_yield_on_return : prog unit :=
  c ← intr_context; assert IntrContext c;;
  kmod (upd_yield_on_return (λ _, true)).

(** The message it prints for some of them has no effect on the state. *)
Definition unexpected_interrupt (vec_no : Z) : prog unit :=
  kmod (upd_unexpected_cnt (λ m, <[vec_no := wrap_u32 (default 0 (m !! vec_no) + 1)]> m)).

(** [handler] is the entry of [intr_handlers] for the vector and [yield] is
    [thread_yield].  Acknowledging the interrupt controller has no effect on the
    state. *)
Definition intr_handler (yield : prog unit) (vec_no : Z) (handler : option (prog unit)) : prog unit :=
  let external := bool_decide (0x20 ≤ vec_no < 0x30) in
  pwhen external
    (l ← intr_get_level; assert IntrOff (negb l);;
     c ← intr_context; assert NotIntrContext (negb c);;
     kmod (upd_in_external_intr (λ _, true));;
     kmod (upd_yield_on_return (λ _, false)));;
  match handler with
  | Some h => h
  | None =>
      if bool_decide (vec_no = 0x27 ∨ vec_no = 0x2f) then mret tt else unexpected_interrupt vec_no
  end;;
  pwhen external
    (l ← intr_get_level; assert IntrOff (negb l);;
     c ← intr_context; assert IntrContext c;;
     kmod (upd_in_external_intr (λ _, false));;
     y ← kget yield_on_return;
     pwhen y yield).

(** ** The machine *)

(** [cpu] is what is left to do on the stack of the running thread; [saved] holds the
    stacks of the others, to be resumed with the thread switched from. *)
Record machine := Machine {
  kst : kernel;
  cpu : prog unit;
  saved : gmap tptr (option tptr → prog unit)
}.

Inductive result :=
  | Running (m : machine)
  | Finished
  | Panicked (w : panic)
  | Crashed.

(** Either the processor goes on, or an interrupt arrives. *)
Inductive event := Step | Interrupt (vec_no : Z).

Section machine.
Context (yield : prog unit) (handlers : Z → option (prog unit)).

(** The hardware clears the interrupt flag when it enters the handler and sets it
    when the handler returns. *)
Definition step (e : event) (m : machine) : result :=
  match e with
  | Interrupt vec_no =>
      if intr_level (kst m) then
        Running (Machine (upd_intr_level (λ _, false) (kst m))
          (intr_handler yield vec_no (handlers vec_no);; kmod (upd_intr_level (λ _, true));; cpu m)
          (saved m))
      else Running m
  | Step =>
      match cpu m with
      | PRet _ => Finished
      | PAct f k =>
          match f (kst m) with
          | Done (a, s) => Running (Machine s (k a) (saved m))
          | _ => Crashed
          end
      | PSwitch cur next k =>
          match saved m !! next with
          | Some k' =>
              Running (Machine (upd_current (λ _, next) (kst m)) (k' (Some cur)) (<[cur := k]> (saved m)))
          | None => Crashed
          end
      | PStack t entry k => Running (Machine (kst m) k (<[t := entry]> (saved m)))
      | PLoop body l k =>
          Running (Machine (kst m)
            (r ← body l; match r with inl l' => PLoop body l' k | inr b => k b end) (saved m))
      | PPanic w => Panicked w
      end
  end.

Fixpoint run (es : list event) (m : machine) : result :=
  match es with
  | [] => Running m
  | e :: es' => match step e m with Running m' => run es' m' | r => r end
  end.

End machine.
