(* ===== verification/Sched.v ===== *)
(** * Pintos: scheduling

    The part of [Project_3/threads/thread.c] below the synchronization primitives:
    the running thread, blocking, unblocking, yielding and exiting, and the switch to
    the next thread; and the freeing of pages, [palloc_free_multiple] of
    [Project_3/threads/palloc.c], which the switch calls for a dying thread. *)

From stdpp Require Import base tactics list gmap.
From Stdlib Require Import ZArith Lia.
From S2P Require Import Prelude Bitmap Kernel.

Local Open Scope Z_scope.

(** ** Pages *)

Definition page_from_pool (p : pool) (page : Z) : bool :=
  bool_decide (base p ≤ page < base p + bitmap_size (used_map p)).

(** [memset(pages, 0xcc, PGSIZE * page_cnt)]: what the pages held is gone. *)
Definition scrub (pages page_cnt : Z) : prog unit :=
  kmod (upd_threads (filter (λ '(t, _), ¬ pages ≤ t < pages + page_cnt))).

(** The two pools: [upd_pool user] changes the user pool if [user], else the kernel
    pool. *)
Definition get_pool (user : bool) (k : kernel) : pool := if user then user_pool k else kernel_pool k.
Definition upd_pool (user : bool) : (pool → pool) → kernel → kernel :=
  if user then upd_user_pool else upd_kernel_pool.

Definition palloc_free_multiple (pages page_cnt : Z) : prog unit :=
  if bool_decide (pages = 0) || bool_decide (page_cnt = 0) then mret tt
  else
    kp ← kget kernel_pool;
    up ← kget user_pool;
    user ← (if page_from_pool kp pages then mret false
            else if page_from_pool up pages then mret true
            else PPanic NotReached);
    p ← kget (get_pool user);
    let page_idx := pages - base p in
    scrub pages page_cnt;;
    p ← kget (get_pool user);
    act (all ← assume_some (bitmap_all (used_map p) page_idx page_cnt); check all);;
    act (k ← get;
         m ← assume_some (bitmap_set_multiple (used_map (get_pool user k)) page_idx page_cnt false);
         modify (upd_pool user (λ p, Pool m (base p)))).

Definition palloc_free_page (page : Z) : prog unit := palloc_free_multiple page 1.

(** ** The running thread *)

Definition running_thread : prog tptr := kget current.

Definition is_thread (t : tptr) : prog bool :=
  th ← kthread t; mret (bool_decide (magic th = THREAD_MAGIC)).

Definition thread_current : prog tptr :=
  t ← running_thread;
  i ← is_thread t; assert IsThread i;;
  th ← kthread t; assert StatusRunning (bool_decide (status th = THREAD_RUNNING));;
  mret t.

Definition thread_name : prog (list Z) := t ← thread_current; th ← kthread t; mret (name th).
Definition thread_tid : prog Z := t ← thread_current; th ← kthread t; mret (tid th).
Definition thread_get_priority : prog Z := t ← thread_current; th ← kthread t; mret (priority th).
Definition thread_set_priority (new_priority : Z) : prog unit :=
  t ← thread_current; upd_thread t (set_priority new_priority).

(** ** Switching *)

Definition next_thread_to_run : prog (option tptr) :=
  l ← kget ready_list;
  match l with
  | [] => kget idle_thread
  | _ =>
      act (k ← get;
           match ready_list k with
           | [] => undef
           | t :: l' => modify (upd_ready_list (λ _, l'));; mret (Some t)
           end)
  end.

Definition thread_schedule_tail (prev : option tptr) : prog unit :=
  cur ← running_thread;
  l ← intr_get_level; assert IntrOff (negb l);;
  upd_thread cur (set_status THREAD_RUNNING);;
  kmod (upd_thread_ticks (λ _, 0));;
  match prev with
  | None => mret tt
  | Some p =>
      th ← kthread p;
      i ← kget initial_thread;
      pwhen (bool_decide (status th = THREAD_DYING) && bool_decide (i ≠ Some p))
        (assert PrevNotCurrent (bool_decide (p ≠ cur));;
         palloc_free_page p)
  end.

Definition schedule : prog unit :=
  cur ← running_thread;
  next ← next_thread_to_run;
  l ← intr_get_level; assert IntrOff (negb l);;
  th ← kthread cur; assert StatusNotRunning (bool_decide (status th ≠ THREAD_RUNNING));;
  match next with
  | None => PPanic NextIsThread
  | Some n =>
      i ← is_thread n; assert NextIsThread i;;
      prev ← (if bool_decide (cur ≠ n) then switch_threads cur n else mret None);
      thread_schedule_tail prev
  end.

(** ** Life cycle *)

Definition thread_block : prog unit :=
  c ← intr_context; assert NotIntrContext (negb c);;
  l ← intr_get_level; assert IntrOff (negb l);;
  t ← thread_current; upd_thread t (set_status THREAD_BLOCKED);;
  schedule.

Definition thread_unblock (t : tptr) : prog unit :=
  i ← is_thread t; assert IsThread i;;
  old_level ← intr_disable;
  th ← kthread t; assert StatusBlocked (bool_decide (status th = THREAD_BLOCKED));;
  push_ready t;;
  upd_thread t (set_status THREAD_READY);;
  intr_set_level old_level;; mret tt.

(** [list_remove(&t->allelem)] *)
Definition remove_all (t : tptr) : prog unit :=
  act (k ← get; check (bool_decide (t ∈ all_list k));; modify (upd_all_list (filter (λ u, u ≠ t)))).

Definition thread_exit : prog unit :=
  c ← intr_context; assert NotIntrContext (negb c);;
  intr_disable;;
  t ← thread_current; remove_all t;;
  t ← thread_current; upd_thread t (set_status THREAD_DYING);;
  schedule;;
  PPanic NotReached.

Definition thread_yield : prog unit :=
  cur ← thread_current;
  c ← intr_context; assert NotIntrContext (negb c);;
  old_level ← intr_disable;
  i ← kget idle_thread;
  pwhen (bool_decide (i ≠ Some cur)) (push_ready cur);;
  upd_thread cur (set_status THREAD_READY);;
  schedule;;
  intr_set_level old_level;; mret tt.

(** ** The timer *)

Definition thread_tick : prog unit :=
  t ← thread_current;
  i ← kget idle_thread;
  (if bool_decide (i = Some t) then kmod (upd_idle_ticks (λ n, n + 1))
   else kmod (upd_kernel_ticks (λ n, n + 1)));;
  kmod (upd_thread_ticks (λ n, wrap_u32 (n + 1)));;
  n ← kget thread_ticks;
  pwhen (bool_decide (TIME_SLICE ≤ n)) intr_yield_on_return.

Definition timer_interrupt : prog unit :=
  kmod (upd_ticks (λ n, n + 1));;
  thread_tick.

Definition timer_ticks : prog Z :=
  old_level ← intr_disable;
  t ← kget ticks;
  intr_set_level old_level;;
  mret t.

Definition timer_elapsed (since : Z) : prog Z := t ← timer_ticks; mret (t - since).

Definition timer_sleep (n : Z) : prog unit :=
  start ← timer_ticks;
  l ← intr_get_level; assert IntrOn l;;
  ploop (λ _ : unit,
    e ← timer_elapsed start;
    if bool_decide (e < n) then thread_yield;; mret (inl tt) else mret (inr tt)) tt.
