(* ===== verification/Synch.v ===== *)
(** * Pintos: semaphores, locks and condition variables

    [Project_3/threads/synch.c], with the self-test of the semaphores in
    [Threads].  Everything that can be interrupted is a sequence of single actions;
    the functions disable interrupts where the source does. *)

From stdpp Require Import base tactics list gmap.
From Stdlib Require Import ZArith Lia.
From S2P Require Import Prelude Bitmap Kernel Sched.

Local Open Scope Z_scope.

(** ** Semaphores *)

Definition sema_init (s : sptr) (v : Z) : prog unit := kmod (upd_semas (<[s := Semaphore v []]>)).

Definition sema_down (s : sptr) : prog unit :=
  c ← intr_context; assert NotIntrContext (negb c);;
  old_level ← intr_disable;
  ploop (λ _ : unit,
    sm ← ksema s;
    if bool_decide (value sm = 0) then
      t ← thread_current; push_waiter s t;;
      thread_block;;
      mret (inl tt)
    else mret (inr tt)) tt;;
  set_value s (λ v, wrap_u32 (v - 1)) (Downed s);;
  intr_set_level old_level;; mret tt.

Definition sema_try_down (s : sptr) : prog bool :=
  old_level ← intr_disable;
  sm ← ksema s;
  success ← (if bool_decide (0 < value sm)
             then set_value s (λ v, wrap_u32 (v - 1)) (Downed s);; mret true
             else mret false);
  intr_set_level old_level;;
  mret success.

Definition sema_up (s : sptr) : prog unit :=
  old_level ← intr_disable;
  sm ← ksema s;
  pwhen (bool_decide (waiters sm ≠ [])) (t ← pop_waiter s; thread_unblock t);;
  set_value s (λ v, wrap_u32 (v + 1)) (Upped s);;
  intr_set_level old_level;; mret tt.

(** ** Locks *)

Definition lock_init (l : lptr) : prog unit :=
  kmod (upd_locks (<[l := Lock None]>));;
  sema_init (OfLock l) 1.

Definition lock_held_by_current_thread (l : lptr) : prog bool :=
  lk ← klock l; t ← thread_current; mret (bool_decide (holder lk = Some t)).

Definition lock_acquire (l : lptr) : prog unit :=
  c ← intr_context; assert NotIntrContext (negb c);;
  h ← lock_held_by_current_thread l; assert LockNotHeld (negb h);;
  sema_down (OfLock l);;
  t ← thread_current;
  set_holder l (Some t) (Acquired t l).

Definition lock_try_acquire (l : lptr) : prog bool :=
  h ← lock_held_by_current_thread l; assert LockNotHeld (negb h);;
  success ← sema_try_down (OfLock l);
  pwhen success (t ← thread_current; set_holder l (Some t) (Acquired t l));;
  mret success.

(** [running_thread] is for the trace. *)
Definition lock_release (l : lptr) : prog unit :=
  h ← lock_held_by_current_thread l; assert LockHeld h;;
  t ← running_thread;
  set_holder l None (Released t l);;
  sema_up (OfLock l).

(** ** Condition variables *)

Definition cond_init (c : cptr) : prog unit := kmod (upd_conds (<[c := Condition []]>)).

(** [list_push_back(&cond->waiters, &waiter.elem)] and
    [list_pop_front(&cond->waiters)] *)
Definition push_cond (c : cptr) (t : tptr) : prog unit :=
  act (k ← get;
       cd ← assume_some (conds k !! c);
       check (bool_decide (t ∉ cond_waiters cd));;
       modify (upd_conds (<[c := Condition (cond_waiters cd ++ [t])]>))).

Definition pop_cond (c : cptr) : prog tptr :=
  act (k ← get;
       cd ← assume_some (conds k !! c);
       match cond_waiters cd with
       | [] => undef
       | t :: ws => modify (upd_conds (<[c := Condition ws]>));; mret t
       end).

(** [waiter] lives on the stack of the running thread until the function returns. *)
Definition cond_wait (c : cptr) (l : lptr) : prog unit :=
  x ← intr_context; assert NotIntrContext (negb x);;
  h ← lock_held_by_current_thread l; assert LockHeld h;;
  t ← running_thread;
  sema_init (OfWaiter t) 0;;
  push_cond c t;;
  lock_release l;;
  sema_down (OfWaiter t);;
  lock_acquire l;;
  kmod (upd_semas (delete (OfWaiter t))).

Definition cond_signal (c : cptr) (l : lptr) : prog unit :=
  x ← intr_context; assert NotIntrContext (negb x);;
  h ← lock_held_by_current_thread l; assert LockHeld h;;
  cd ← kcond c;
  pwhen (bool_decide (cond_waiters cd ≠ [])) (t ← pop_cond c; sema_up (OfWaiter t)).

Definition cond_broadcast (c : cptr) (l : lptr) : prog unit :=
  ploop (λ _ : unit,
    cd ← kcond c;
    if bool_decide (cond_waiters cd ≠ []) then cond_signal c l;; mret (inl tt)
    else mret (inr tt)) tt.
