(* ===== verification/Threads.v ===== *)
(** * Pintos: creating threads

    The rest of [Project_3/threads/thread.c] (initialization, creation, the idle
    thread), [palloc_get_multiple] of [Project_3/threads/palloc.c], and the self-test
    of [synch.c]. *)

From stdpp Require Import base tactics list gmap.
From Stdlib Require Import ZArith Lia.
From S2P Require Import Prelude Bitmap Kernel Sched Synch.

Local Open Scope Z_scope.

Definition tid_lock : lptr := 1%positive.
Definition kernel_pool_lock : lptr := 2%positive.
Definition user_pool_lock : lptr := 3%positive.

(** ** Pages *)

Record palloc_flags := Flags { PAL_ASSERT : bool; PAL_ZERO : bool; PAL_USER : bool }.

(** A pool of [page_cnt] pages from the page [start] on, the first of which hold its
    bitmap.  [mem] is what the words after the [struct bitmap] hold before. *)
Definition init_pool (user : bool) (mem : list Z) (start page_cnt : Z) : prog unit :=
  let bm_pages := wrap_u32 (bitmap_buf_size page_cnt + PGSIZE - 1) / PGSIZE in
  assert NoBitmapSpace (bool_decide (bm_pages ≤ page_cnt));;
  let page_cnt := page_cnt - bm_pages in
  lock_init (if user then user_pool_lock else kernel_pool_lock);;
  act (m ← assume_some (bitmap_create_in_buf page_cnt mem (bm_pages * PGSIZE));
       modify (upd_pool user (λ p, Pool m (base p))));;
  kmod (upd_pool user (λ p, Pool (used_map p) (start + bm_pages))).

Definition PHYS_BASE : Z := 0xc0000000.

(** Addresses are page numbers; free memory starts at 1 MB.  [mem] and [mem'] are what
    memory holds where the two bitmaps will be.  The addresses do not wrap as long as
    there is less than 1 GB of memory; [KPalloc] has them as 32-bit numbers. *)
Definition palloc_init (init_ram_pages user_page_limit : Z) (mem mem' : list Z) : prog unit :=
  let ram := wrap_u32 (init_ram_pages * PGSIZE) in
  assert PhysicalAddress (bool_decide (ram < PHYS_BASE));;
  let free_start := (PHYS_BASE + 1024 * 1024) / PGSIZE in
  let free_pages := wrap_u32 (Z.quot (ram - 1024 * 1024) PGSIZE) in
  let user_pages := free_pages / 2 in
  let user_pages := if bool_decide (user_page_limit < user_pages) then user_page_limit else user_pages in
  let kernel_pages := free_pages - user_pages in
  init_pool false mem free_start kernel_pages;;
  init_pool true mem' (free_start + kernel_pages) user_pages.

(** A null result is [None].  The bitmap changes in one action: whoever sets bits
    holds the lock of the pool, and [palloc_free_multiple] clears them one by one with
    an atomic instruction.  What the pages hold afterwards matters for threads
    only, and [init_thread] writes every byte of a [struct thread]. *)
Definition palloc_get_multiple (flags : palloc_flags) (page_cnt : Z) : prog (option Z) :=
  let user := PAL_USER flags in
  if bool_decide (page_cnt = 0) then mret None
  else
    let lk := if user then user_pool_lock else kernel_pool_lock in
    lock_acquire lk;;
    page_idx ← act (k ← get;
      '(idx, m) ← assume_some (bitmap_scan_and_flip (used_map (get_pool user k)) 0 page_cnt false);
      modify (upd_pool user (λ p, Pool m (base p)));; mret idx);
    lock_release lk;;
    p ← kget (get_pool user);
    if bool_decide (page_idx ≠ BITMAP_ERROR) then
      let pages := base p + page_idx in
      pwhen (PAL_ZERO flags) (scrub pages page_cnt);;
      mret (Some pages)
    else
      assert OutOfPages (negb (PAL_ASSERT flags));;
      mret None.

Definition palloc_get_page (flags : palloc_flags) : prog (option Z) := palloc_get_multiple flags 1.

(** ** Threads *)

(** [int] overflow of the counter is undefined; the machine stops there. *)
Definition allocate_tid : prog Z :=
  lock_acquire tid_lock;;
  tid ← kget next_tid;
  assert TidOverflow (bool_decide (tid < INT_MAX));;
  kmod (upd_next_tid (λ _, tid + 1));;
  lock_release tid_lock;;
  mret tid.

(** [char name[16]] holds at most 15 characters and a terminator. *)
Definition init_thread (t : tptr) (nm : list Z) (pri : Z) : prog unit :=
  assert PriorityRange (bool_decide (PRI_MIN ≤ pri ≤ PRI_MAX));;
  kmod (upd_threads (<[t := Thread 0 THREAD_BLOCKED (take 15 nm) (t * PGSIZE + PGSIZE) pri THREAD_MAGIC]>));;
  old_level ← intr_disable;
  act (k ← get; check (bool_decide (t ∉ all_list k));; modify (upd_all_list (λ l, l ++ [t])));;
  intr_set_level old_level;; mret tt.

Definition alloc_frame (t : tptr) (size : Z) : prog Z :=
  i ← is_thread t; assert IsThread i;;
  assert FrameSize (bool_decide (size mod 4 = 0));;
  th ← kthread t;
  upd_thread t (set_stack (stack th - size));;
  mret (stack th - size).

Definition kernel_thread (function : prog unit) : prog unit :=
  intr_enable;;
  function;;
  thread_exit.

(** The three frames make the new thread start in [switch_entry], which calls
    [thread_schedule_tail] and returns to [kernel_thread]. *)
Definition thread_create (nm : list Z) (pri : Z) (function : prog unit) : prog Z :=
  t ← palloc_get_page (Flags false true false);
  match t with
  | None => mret TID_ERROR
  | Some t =>
      init_thread t nm pri;;
      tid ← allocate_tid;
      upd_thread t (set_tid tid);;
      alloc_frame t 12;;
      alloc_frame t 4;;
      alloc_frame t 28;;
      PStack t (λ prev, thread_schedule_tail prev;; kernel_thread function)
        (thread_unblock t;;
         mret tid)
  end.

Definition thread_init : prog unit :=
  l ← intr_get_level; assert IntrOff (negb l);;
  lock_init tid_lock;;
  kmod (upd_ready_list (λ _, []));;
  kmod (upd_all_list (λ _, []));;
  t ← running_thread;
  kmod (upd_initial_thread (λ _, Some t));;
  init_thread t [109; 97; 105; 110] PRI_DEFAULT;;
  upd_thread t (set_status THREAD_RUNNING);;
  tid ← allocate_tid;
  upd_thread t (set_tid tid).

(** [asm volatile ("sti; hlt")]: the wait for the next interrupt has no effect. *)
Definition idle (idle_started : sptr) : prog unit :=
  t ← thread_current;
  kmod (upd_idle_thread (λ _, Some t));;
  sema_up idle_started;;
  ploop (λ _ : unit,
    intr_disable;;
    thread_block;;
    kmod (upd_intr_level (λ _, true));;
    mret (inl tt)) tt.

Definition thread_start (idle_started : sptr) : prog unit :=
  sema_init idle_started 0;;
  thread_create [105; 100; 108; 101] PRI_MIN (idle idle_started);;
  intr_enable;;
  sema_down idle_started.

(** [func] on every thread. *)
Definition thread_foreach (func : tptr → prog unit) : prog unit :=
  l ← intr_get_level; assert IntrOff (negb l);;
  ts ← kget all_list;
  foldr (λ t rest, func t;; rest) (mret tt) ts.

(** ** The self-test of the semaphores *)

Definition sema_test_helper (s0 s1 : sptr) : prog unit :=
  ploop (λ i : nat,
    if bool_decide (i < 10)%nat then sema_down s0;; sema_up s1;; mret (inl (S i))
    else mret (inr tt)) 0%nat.

Definition sema_self_test (s0 s1 : sptr) : prog unit :=
  sema_init s0 0;;
  sema_init s1 0;;
  thread_create [115; 101; 109; 97; 45; 116; 101; 115; 116] PRI_DEFAULT (sema_test_helper s0 s1);;
  ploop (λ i : nat,
    if bool_decide (i < 10)%nat then sema_up s0;; sema_down s1;; mret (inl (S i))
    else mret (inr tt)) 0%nat.
