(* ===== verification/KernelInv.v ===== *)
(** * Pintos: the invariant of the kernel

    What holds of the kernel's state whenever interrupts are enabled, and in the
    middle of a switch: which thread is on which queue, who owns which lock, which
    page belongs to which thread.  The invariant speaks about a ghost state as well:
    the thread between the return of [sema_down] and the end of [sema_up] on the
    semaphore of a lock owns it, a page taken by [thread_create] belongs to its
    maker until the new thread is ready, and the thread that runs [idle] is known
    before it sets [idle_thread].

    Each part of the invariant is stated over the part of the state it needs, so that
    an action has to be checked against the parts it touches only. *)

From stdpp Require Import base tactics list gmap.
From Stdlib Require Import ZArith Lia.
From S2P Require Import Prelude Bitmap BitmapProps Kernel Sched Synch Threads.

Local Open Scope Z_scope.

(** ** Views and ghost state *)

(** The synchronization objects of the client: semaphores with their initial values,
    locks, and condition variables with the lock that protects each. *)
Record objects := Objects {
  o_semas : gmap positive Z;
  o_locks : gset lptr;
  o_conds : gmap cptr lptr
}.

(** How far [thread_create] has come with a page: taken, the structure written, on
    the list of all threads, the stack complete. *)
Inductive stage := Taken | Written | Listed | Stacked.

#[global] Instance stage_eq_dec : EqDecision stage.
Proof. solve_decision. Defined.

(** A thread inside [cond_wait]: its [struct semaphore_elem] is initialized, on the
    list of a condition variable, taken off it by [t], which will raise its
    semaphore, raised, or lowered again. *)
Inductive wait_state := WFresh | WQueued (c : cptr) | WPopped (t : tptr) | WUpped | WDone.

Definition wait_value (w : wait_state) : Z := match w with WUpped => 1 | _ => 0 end.

(** What others do to the waiter. *)
Inductive wait_moves : option wait_state → option wait_state → Prop :=
  | wm_refl w : wait_moves w w
  | wm_pop c t : wait_moves (Some (WQueued c)) (Some (WPopped t))
  | wm_signal c : wait_moves (Some (WQueued c)) (Some WUpped)
  | wm_up t : wait_moves (Some (WPopped t)) (Some WUpped).

Lemma wait_moves_trans w1 w2 w3 : wait_moves w1 w2 → wait_moves w2 w3 → wait_moves w1 w3.
Proof. intros [] H; inversion H; subst; constructor. Qed.

Record ghost := Ghost {
  owner : gmap lptr tptr;
  maker : gmap tptr (tptr * stage);
  idler : option tptr;
  waits : gmap tptr wait_state
}.

Definition stat (k : kernel) (u : tptr) : option thread_status := status <$> threads k !! u.
Definition wts (k : kernel) (s : sptr) : list tptr := default [] (waiters <$> semas k !! s).
Definition val (k : kernel) (s : sptr) : option Z := value <$> semas k !! s.
Definition cws (k : kernel) (c : cptr) : list tptr := default [] (cond_waiters <$> conds k !! c).

Definition live (s : option thread_status) : Prop := ∃ x, s = Some x ∧ x ≠ THREAD_DYING.
Definition alive (k : kernel) (u : tptr) : Prop := live (stat k u).

(** A thread that can be switched to. *)
Definition started (g : ghost) (u : tptr) : Prop :=
  match maker g !! u with Some (_, s) => s = Stacked | None => True end.

#[global] Instance started_dec g u : Decision (started g u).
Proof. unfold started. destruct (maker g !! u) as [[? ?]|]; apply _. Defined.

(** A page on its way that is not on the list of all threads. *)
Definition unlisted (g : ghost) (u : tptr) : Prop :=
  match maker g !! u with Some (_, s) => s = Taken ∨ s = Written | None => False end.

Definition page_used (p : pool) (u : tptr) : Prop :=
  base p ≤ u < base p + bit_cnt (used_map p) ∧ bit (used_map p) (u - base p) = true.

Definition free_page (p : pool) (u : tptr) : Prop :=
  base p ≤ u < base p + bit_cnt (used_map p) ∧ bit (used_map p) (u - base p) = false.

(** ** The trace *)

(** The holder of [l] after a trace in which every acquisition finds it free and
    every release finds it held by the thread that releases it. *)
Fixpoint replay (l : lptr) (h : option tptr) (tr : list kevent) : option (option tptr) :=
  match tr with
  | [] => Some h
  | Acquired t l' :: tr' =>
      if bool_decide (l' = l) then if bool_decide (h = None) then replay l (Some t) tr' else None
      else replay l h tr'
  | Released t l' :: tr' =>
      if bool_decide (l' = l) then if bool_decide (h = Some t) then replay l None tr' else None
      else replay l h tr'
  | _ :: tr' => replay l h tr'
  end.

Lemma replay_app l h tr1 tr2 :
  replay l h (tr1 ++ tr2) = replay l h tr1 ≫= λ h', replay l h' tr2.
Proof.
  revert h. induction tr1 as [|e tr1 IH]; intros h; [done|]. cbn.
  destruct e; repeat case_bool_decide; auto.
Qed.

(** Ups minus downs of a semaphore. *)
Fixpoint balance (s : sptr) (tr : list kevent) : Z :=
  match tr with
  | [] => 0
  | Upped s' :: tr' => (if bool_decide (s' = s) then 1 else 0) + balance s tr'
  | Downed s' :: tr' => (if bool_decide (s' = s) then -1 else 0) + balance s tr'
  | _ :: tr' => balance s tr'
  end.

Lemma balance_app s tr1 tr2 : balance s (tr1 ++ tr2) = balance s tr1 + balance s tr2.
Proof. induction tr1 as [|[] tr1 IH]; cbn; lia. Qed.

(** A change that touches nothing the others rely on. *)
Ltac calm := split; try done; try constructor.

(** ** The parts of the invariant *)

Section parts.
Context (o : objects).

(** Queues: the [elem] of a thread is on at most one list, the run queue if the
    thread is ready and the list of a semaphore only if it is blocked.  [ex] is a
    thread about to run. *)
Record queues_ok (ex : option tptr) (st : tptr → option thread_status) (rd : list tptr)
    (wt : sptr → list tptr) (idl idr : option tptr) (mk : gmap tptr (tptr * stage)) : Prop := {
  q_nodup : NoDup rd;
  q_ready u : u ∈ rd → st u = Some THREAD_READY ∧ idl ≠ Some u;
  q_queued u : st u = Some THREAD_READY → u ∈ rd ∨ idl = Some u ∨ ex = Some u;
  q_wnodup s : NoDup (wt s);
  q_wait s u : u ∈ wt s → st u = Some THREAD_BLOCKED ∧ mk !! u = None ∧ idr ≠ Some u;
  q_disj s s' u : u ∈ wt s → u ∈ wt s' → s = s'
}.

(** Life: [dy] is a thread that is being switched from for the last time. *)
Record life_ok (dy : option tptr) (k : kernel) (g : ghost) : Prop := {
  f_magic u th : threads k !! u = Some th → magic th = THREAD_MAGIC;
  f_running u : stat k u = Some THREAD_RUNNING → u = current k;
  f_dying u : stat k u = Some THREAD_DYING → initial_thread k = Some u ∨ dy = Some u;
  f_nodup : NoDup (all_list k);
  f_all u : u ∈ all_list k ↔ alive k u ∧ ¬ unlisted g u;
  f_maker e u s : maker g !! e = Some (u, s) →
    initial_thread k ≠ Some e ∧ e ≠ current k ∧
    if decide (s = Taken) then threads k !! e = None else stat k e = Some THREAD_BLOCKED;
  f_waiter u : is_Some (waits g !! u) → alive k u ∧ started g u
}.

(** Pages: every thread but the initial one lies in a page of the kernel pool that
    is marked as used. *)
Record pages_ok (th : tptr → Prop) (p : pool) (ini : option tptr)
    (mk : gmap tptr (tptr * stage)) : Prop := {
  p_wf : bwf (used_map p);
  p_base : 0 < base p;
  p_init u : ini = Some u → ¬ (base p ≤ u < base p + bit_cnt (used_map p));
  p_threads u : th u → ini = Some u ∨ page_used p u;
  p_taken e : is_Some (mk !! e) → page_used p e
}.

(** Locks. *)
Definition lock_ok (lk : lock) (v : option Z) (own : option tptr) : Prop :=
  match own with
  | None => v = Some 1 ∧ holder lk = None
  | Some u => v = Some 0 ∧ (holder lk = None ∨ holder lk = Some u)
  end.

Record locks_ok (k : kernel) (g : ghost) : Prop := {
  k_lock l lk : locks k !! l = Some lk →
    lock_ok lk (val k (OfLock l)) (owner g !! l) ∧ replay l None (trace k) = Some (holder lk);
  k_dead l u : owner g !! l = Some u →
    (alive k u ∧ started g u) ∨ ∃ lk, locks k !! l = Some lk ∧ holder lk = Some u;
  k_locks l : l ∈ o_locks o → is_Some (locks k !! l);
  k_sema p v0 : o_semas o !! p = Some v0 →
    0 ≤ v0 + balance (Sema p) (trace k) ∧
    val k (Sema p) = Some (wrap_u32 (v0 + balance (Sema p) (trace k)))
}.

(** Condition variables. *)
Record conds_ok (cw : cptr → list tptr) (vl : sptr → option Z) (cd : gset cptr)
    (ws : gmap tptr wait_state) : Prop := {
  d_nodup c : NoDup (cw c);
  d_queued c u : u ∈ cw c ↔ ws !! u = Some (WQueued c);
  d_value u : vl (OfWaiter u) = wait_value <$> ws !! u;
  d_conds : dom (o_conds o) ⊆ cd
}.

(** The idle thread. *)
Record idle_ok (k : kernel) (g : ghost) : Prop := {
  i_idle i : idle_thread k = Some i → idler g = Some i;
  i_idler i : idler g = Some i →
    alive k i ∧ initial_thread k ≠ Some i ∧
    (idle_thread k = None → is_Some (maker g !! i) ∨ i ∈ ready_list k ∨ i = current k) ∧
    (is_Some (maker g !! i) → idle_thread k = None);
  i_boot : idler g = None →
    intr_level k = false ∧ idle_thread k = None ∧
    (∀ u, alive k u → started g u → u = current k) ∧ (∀ l u, owner g !! l = Some u → u = current k)
}.

Record core (ex dy : option tptr) (k : kernel) (g : ghost) : Prop := {
  c_queues : queues_ok ex (stat k) (ready_list k) (wts k) (idle_thread k) (idler g) (maker g);
  c_life : life_ok dy k g;
  c_pages : pages_ok (λ u, is_Some (threads k !! u)) (kernel_pool k) (initial_thread k) (maker g);
  c_locks : locks_ok k g;
  c_conds : conds_ok (cws k) (val k) (dom (conds k)) (waits g);
  c_idle : idle_ok k g
}.

(** While a thread runs, and just after a switch to [t]. *)
Record inv (k : kernel) (g : ghost) : Prop := {
  inv_core : core None None k g;
  inv_running : stat k (current k) = Some THREAD_RUNNING
}.

Record resumed (t prev : tptr) (k : kernel) (g : ghost) : Prop := {
  rs_core : core (Some t) (Some prev) k g;
  rs_current : current k = t;
  rs_level : intr_level k = false;
  rs_ext : in_external_intr k = false;
  rs_alive : alive k t;
  rs_started : started g t;
  rs_stat : stat k t ≠ Some THREAD_RUNNING;
  rs_ready : t ∉ ready_list k;
  rs_wait s : t ∉ wts k s;
  rs_made : maker g !! t = None;
  rs_prev : is_Some (threads k !! prev);
  rs_other : prev ≠ t
}.

(** The idle thread, if there is one, is complete. *)
Definition settled (g : ghost) : Prop := ∀ i, idler g = Some i → maker g !! i = None.

(** ** What the other threads leave alone *)

Record rely (u : tptr) (k : kernel) (g : ghost) (k' : kernel) (g' : ghost) : Prop := {
  r_own l : owner g !! l = Some u ↔ owner g' !! l = Some u;
  r_lock l : owner g !! l = Some u → locks k' !! l = locks k !! l;
  r_cond c l : o_conds o !! c = Some l → owner g !! l = Some u → conds k' !! c = conds k !! c;
  r_make e s : maker g !! e = Some (u, s) →
    maker g' !! e = Some (u, s) ∧ threads k' !! e = threads k !! e;
  r_wait : wait_moves (waits g !! u) (waits g' !! u);
  r_popped x : waits g !! x = Some (WPopped u) → waits g' !! x = Some (WPopped u);
  r_idler : idler g' = idler g;
  r_tid : owner g !! tid_lock = Some u → next_tid k' = next_tid k;
  r_alive : alive k u → alive k' u;
  r_init : initial_thread k' = initial_thread k;
  r_settled : settled g → settled g';
  r_base : base (kernel_pool k') = base (kernel_pool k);
  r_idle : idle_thread k = Some u → idle_thread k' = Some u;
  r_free x : idler g = None → free_page (kernel_pool k) x → free_page (kernel_pool k') x
}.

Lemma rely_refl u k g : rely u k g k g.
Proof. calm. Qed.

Lemma rely_trans u k1 g1 k2 g2 k3 g3 :
  rely u k1 g1 k2 g2 → rely u k2 g2 k3 g3 → rely u k1 g1 k3 g3.
Proof.
  intros H1 H2. split.
  - intros l. by rewrite (r_own _ _ _ _ _ H1), (r_own _ _ _ _ _ H2).
  - intros l Hl. rewrite (r_lock _ _ _ _ _ H2) by by apply (r_own _ _ _ _ _ H1).
    by apply (r_lock _ _ _ _ _ H1).
  - intros c l Hc Hl. rewrite (r_cond _ _ _ _ _ H2 c l) by (done || by apply (r_own _ _ _ _ _ H1)).
    by eapply (r_cond _ _ _ _ _ H1).
  - intros e s He. destruct (r_make _ _ _ _ _ H1 e s He) as [He2 Ht].
    destruct (r_make _ _ _ _ _ H2 e s He2) as [He3 Ht']. by rewrite Ht', Ht.
  - eapply wait_moves_trans; [apply (r_wait _ _ _ _ _ H1)|apply (r_wait _ _ _ _ _ H2)].
  - intros x Hx. by apply (r_popped _ _ _ _ _ H2), (r_popped _ _ _ _ _ H1).
  - by rewrite (r_idler _ _ _ _ _ H2), (r_idler _ _ _ _ _ H1).
  - intros Ho. rewrite (r_tid _ _ _ _ _ H2) by by apply (r_own _ _ _ _ _ H1).
    by apply (r_tid _ _ _ _ _ H1).
  - intros Ha. by apply (r_alive _ _ _ _ _ H2), (r_alive _ _ _ _ _ H1).
  - by rewrite (r_init _ _ _ _ _ H2), (r_init _ _ _ _ _ H1).
  - intros Hs. by apply (r_settled _ _ _ _ _ H2), (r_settled _ _ _ _ _ H1).
  - by rewrite (r_base _ _ _ _ _ H2), (r_base _ _ _ _ _ H1).
  - intros Hd. by apply (r_idle _ _ _ _ _ H2), (r_idle _ _ _ _ _ H1).
  - intros x Hn Hx. apply (r_free _ _ _ _ _ H2); [by rewrite (r_idler _ _ _ _ _ H1)|].
    by apply (r_free _ _ _ _ _ H1).
Qed.

(** What a step of thread [t] guarantees to the others. *)
Definition guar (t : tptr) (k : kernel) (g : ghost) (k' : kernel) (g' : ghost) : Prop :=
  ∀ u, u ≠ t →
    (alive k' u → started g' u → alive k u ∧ started g u) ∧
    (alive k u → started g u → rely u k g k' g').

Lemma guar_refl t k g : guar t k g k g.
Proof. intros u _. split; [done|]. intros. apply rely_refl. Qed.

End parts.

#[export] Hint Constructors wait_moves : sysprog.

(** What a thread outside of the functions below knows about itself. *)
Record local (t : tptr) (k : kernel) (g : ghost) : Prop := {
  lo_own l : owner g !! l = Some t → ∃ lk, locks k !! l = Some lk ∧ holder lk = Some t;
  lo_wait : waits g !! t = None;
  lo_idler : idler g ≠ Some t;
  lo_settled : settled g
}.

Lemma local_rely o t k g k' g' : rely o t k g k' g' → local t k g → local t k' g'.
Proof.
  intros Hr [Ho Hw Hi Hs]. split.
  - intros l Hl. apply (r_own _ _ _ _ _ _ Hr) in Hl as Hl0. rewrite (r_lock _ _ _ _ _ _ Hr l Hl0). by apply Ho.
  - pose proof (r_wait _ _ _ _ _ _ Hr) as Hm. rewrite Hw in Hm. by inversion Hm.
  - by rewrite (r_idler _ _ _ _ _ _ Hr).
  - by apply (r_settled _ _ _ _ _ _ Hr).
Qed.
