(* ===== verification/KernelLogic.v ===== *)
(** * Pintos: reasoning about threads one at a time

    [safe n t p k g Q]: for [n] steps the thread [t] can execute [p] from the state
    [k] with the ghost state [g]: no action is undefined, no assertion fails but
    those in [blame], every step guarantees to the other threads what they rely on,
    and the invariant holds whenever interrupts are enabled; and if [p] returns, it
    does so in a state that satisfies [Q].  In between, while interrupts are enabled
    or the thread is switched from, the state changes in any way that the thread's
    own [rely] allows.

    [machine_ok] is the invariant of the machine: the running thread and the stacks
    of all others are safe.  The rules below are used for every function of the
    kernel. *)

From stdpp Require Import base tactics list gmap.
From Stdlib Require Import ZArith Lia.
From S2P Require Import Prelude Bitmap BitmapProps Kernel Sched Synch Threads KernelInv.

Local Open Scope Z_scope.

(** The assertions a client can violate: acquiring a lock it holds, using one it does
    not hold, an impossible priority, sleeping with interrupts disabled; and the
    overflow of the thread counter. *)
Definition blame (w : panic) : Prop :=
  w = LockNotHeld ∨ w = LockHeld ∨ w = PriorityRange ∨ w = IntrOn ∨ w = TidOverflow.

Section logic.
Context (o : objects).
Local Abbreviation rely := (rely o).
Local Abbreviation guar := (guar o).
Local Abbreviation inv := (inv o).
Local Abbreviation resumed := (resumed o).

(** The states in which [t] may find itself after the state [k]. *)
Definition after (t : tptr) (k : kernel) (g : ghost) (Q : kernel → ghost → Prop) : Prop :=
  if intr_level k then
    inv k g ∧ in_external_intr k = false ∧
    ∀ k' g', inv k' g' → current k' = t → intr_level k' = true → in_external_intr k' = false →
      rely t k g k' g' → Q k' g'
  else Q k g.

(** The stack of [u] can be resumed later on. *)
Definition resumable (P : kernel → ghost → option tptr → Prop) (u : tptr) (k : kernel) (g : ghost) : Prop :=
  ∀ k' g' prev, resumed u prev k' g' → rely u k g k' g' → P k' g' (Some prev).

Fixpoint safe (n : nat) (t : tptr) {A} (p : prog A) (k : kernel) (g : ghost)
    (Q : A → kernel → ghost → Prop) : Prop :=
  match n with
  | O => True
  | S n =>
      match p with
      | PRet a => Q a k g
      | PPanic w => blame w
      | PLoop body l cont =>
          safe n t (body l) k g (λ r k' g',
            match r with
            | inl l' => safe n t (PLoop body l' cont) k' g' Q
            | inr b => safe n t (cont b) k' g' Q
            end)
      | PAct m cont =>
          wp Full m (λ a k', ∃ g', guar t k g k' g' ∧ current k' = t ∧
            after t k' g' (λ k'' g'', safe n t (cont a) k'' g'' Q)) k
      | PStack e entry cont =>
          ∃ g', (∀ u, u ≠ t → u ≠ e →
                   (started g' u → started g u) ∧ (alive k u → started g u → rely u k g k g')) ∧
            e ≠ t ∧
            resumable (λ k' g' prev, safe n e (entry prev) k' g' (λ _ _ _, True)) e k g' ∧
            after t k g' (λ k'' g'', safe n t cont k'' g'' Q)
      | PSwitch cur next cont =>
          cur = t ∧ resumed next t (upd_current (λ _, next) k) g ∧
          (alive k t → started g t ∧ resumable (λ k' g' prev, safe n t (cont prev) k' g' Q) t k g)
      end
  end.

(** ** Rules *)

Lemma after_mono t k g (P Q : kernel → ghost → Prop) :
  (∀ k' g', P k' g' → Q k' g') → after t k g P → after t k g Q.
Proof. intros H. unfold after. destruct (intr_level k); [|by apply H]. intros (? & ? & HP). eauto 10. Qed.

Lemma safe_mono {A} n m t (p : prog A) k g (P Q : A → kernel → ghost → Prop) :
  (m ≤ n)%nat → (∀ a k' g', P a k' g' → Q a k' g') → safe n t p k g P → safe m t p k g Q.
Proof.
  revert m A t p k g P Q. induction n as [|n IH]; intros m A t p k g P Q Hm HPQ Hp.
  { replace m with 0%nat by lia. done. }
  destruct m as [|m]; [done|]. assert (m ≤ n)%nat as Hle by lia.
  destruct p; cbn in *.
  - auto.
  - eapply wp_mono; [exact Hp|]. intros a k' (g' & Hg & Hc & Haf). exists g'. split_and!; [done|done|].
    eapply after_mono; [|exact Haf]. intros k'' g''. by apply IH.
  - destruct Hp as (-> & Hr & Hres). split_and!; [done|done|]. intros Ha.
    destruct (Hres Ha) as [Hs HR]. split; [done|]. intros k' g' prev H1 H2.
    eapply IH; [done|exact HPQ|]. by apply HR.
  - destruct Hp as (g' & Hg & Hne & HR & Haf). exists g'. split_and!; [done|done| |].
    + intros k' g'' prev H1 H2. eapply (IH m _ _ _ _ _ (λ _ _ _, True)); [done|done|]. by apply HR.
    + eapply after_mono; [|exact Haf]. intros k'' g''. by apply IH.
  - eapply IH; [done| |exact Hp]. intros [l'|b] k' g'; by apply IH.
  - done.
Qed.

Lemma safe_ret {A} n t (a : A) k g Q : Q a k g → safe n t (mret a) k g Q.
Proof. by destruct n. Qed.

Lemma safe_bind {A B} n t (p : prog A) (f : A → prog B) k g Q :
  safe n t p k g (λ a k' g', safe n t (f a) k' g' Q) → safe n t (p ≫= f) k g Q.
Proof.
  revert A t p f k g. induction n as [|n IH]; intros A t p f k g Hp; [done|].
  change (p ≫= f) with (pbind p f).
  assert (∀ A (p : prog A) t (f : A → prog B) k g,
    safe n t p k g (λ a k' g', safe (S n) t (f a) k' g' Q) → safe n t (p ≫= f) k g Q) as IH'.
  { intros A' p' t' f' k' g' H. apply IH. eapply safe_mono; [done| |exact H].
    intros a k'' g''. apply safe_mono; [lia|done]. }
  destruct p; cbn [pbind] in *.
  - exact Hp.
  - cbn in *. eapply wp_mono; [exact Hp|]. intros a k' (g' & Hg & Hc & Haf). exists g'.
    split_and!; [done|done|]. eapply after_mono; [|exact Haf]. intros k'' g'' Hs. by apply IH'.
  - cbn in *. destruct Hp as (-> & Hr & Hres). split_and!; [done|done|]. intros Ha.
    destruct (Hres Ha) as [Hs HR]. split; [done|]. intros k' g' prev H1 H2. apply IH'. by apply HR.
  - cbn in *. destruct Hp as (g' & Hg & Hne & HR & Haf). exists g'. split_and!; [done|done|done|].
    eapply after_mono; [|exact Haf]. intros k'' g'' Hs. by apply IH'.
  - cbn in *. eapply safe_mono; [done| |exact Hp].
    intros [l'|b] k' g' Hr; [apply (IH' _ (PLoop body l' k0) t f)|apply (IH' _ (k0 b) t f)]; exact Hr.
  - done.
Qed.

(** A loop: [I] holds at the start of every turn. *)
Lemma safe_loop {L A} n t (body : L → prog (L + A)) (I : L → kernel → ghost → Prop) l k g Q :
  (∀ n' l k g, (n' ≤ n)%nat → I l k g →
     safe n' t (body l) k g (λ r k' g', match r with inl l' => I l' k' g' | inr a => Q a k' g' end)) →
  I l k g → safe n t (ploop body l) k g Q.
Proof.
  intros Hbody. revert l k g. unfold ploop. induction n as [|n IH]; intros l k g HI; [done|]. cbn.
  eapply safe_mono; [done| |apply (Hbody n l k g); [lia|done]].
  intros [l'|a] k' g' Hr; [|by apply safe_ret]. apply IH; [|done].
  intros n' l0 k0 g0 Hn'. apply Hbody. lia.
Qed.

(** ** The machine *)

Definition stacks_ok (n : nat) (k : kernel) (g : ghost) (sv : gmap tptr (option tptr → prog unit)) : Prop :=
  ∀ u, u ≠ current k → alive k u → started g u →
    ∃ cont, sv !! u = Some cont ∧
      resumable (λ k' g' prev, safe n u (cont prev) k' g' (λ _ _ _, True)) u k g.

Definition machine_ok (n : nat) (m : machine) : Prop :=
  ∃ g, after (current (kst m)) (kst m) g
         (λ k' g', safe n (current (kst m)) (cpu m) k' g' (λ _ _ _, True)) ∧
       stacks_ok n (kst m) g (saved m).

Lemma after_now t k g (Q : kernel → ghost → Prop) : current k = t → after t k g Q → Q k g.
Proof.
  intros Hc. unfold after. destruct (intr_level k) eqn:Hl; [|done].
  intros (Hi & He & HQ). apply HQ; try done. apply rely_refl.
Qed.

Lemma resumable_mono P Q u k g k' g' :
  (∀ k g prev, P k g prev → Q k g prev) → rely u k g k' g' → resumable P u k g → resumable Q u k' g'.
Proof.
  intros HPQ Hr HP k'' g'' prev Hres Hr'. apply HPQ, HP; [done|]. by eapply rely_trans.
Qed.

Lemma stacks_step n t k g k' g' sv :
  current k = t → current k' = t → guar t k g k' g' → stacks_ok (S n) k g sv → stacks_ok n k' g' sv.
Proof.
  intros Hc Hc' Hg Hst u Hu Ha Hs. rewrite Hc' in Hu. destruct (Hg u Hu) as [Hnew Hrely].
  destruct (Hnew Ha Hs) as [Ha0 Hs0]. destruct (Hst u) as (cont & Hsv & Hres); [congruence|done|done|].
  exists cont. split; [done|]. eapply resumable_mono; [|by apply Hrely|exact Hres].
  intros k1 g1 prev. apply safe_mono; [lia|done].
Qed.

(** A step of the processor keeps the machine's invariant and goes wrong only where
    the client is to blame. *)
Lemma machine_step n yield handlers m :
  machine_ok (S n) m →
  match step yield handlers Step m with
  | Running m' => machine_ok n m'
  | Finished => True
  | Panicked w => blame w
  | Crashed => False
  end.
Proof.
  intros (g & Haf & Hst). pose proof (after_now _ _ _ _ eq_refl Haf) as Hs.
  destruct m as [k p sv]. cbn [kst cpu saved] in *. destruct p; cbn in Hs |- *.
  - done.
  - unfold wp in Hs. destruct (m k) as [[a k']| |] eqn:Hm; [|done|done].
    destruct Hs as (g' & Hg & Hc & Haf'). exists g'. cbn [kst cpu saved]. rewrite Hc. split; [done|].
    exact (stacks_step n (current k) k g k' g' sv eq_refl Hc Hg Hst).
  - destruct Hs as (-> & Hr & Hres).
    pose proof (rs_other _ _ _ _ _ Hr) as Hne.
    destruct (Hst next) as (cont & -> & Hcont).
    { by intros Heq; apply Hne. } { apply (rs_alive _ _ _ _ _ Hr). } { apply (rs_started _ _ _ _ _ Hr). }
    assert (∀ u, rely u k g (upd_current (λ _, next) k) g) as Hsame by (intros u; calm).
    exists g. cbn. split.
    + unfold after. cbn. pose proof (rs_level _ _ _ _ _ Hr) as Hl. cbn in Hl. rewrite Hl.
      eapply safe_mono; [| |apply Hcont; [exact Hr|apply Hsame]]; [lia|done].
    + intros u Hu Ha Hsu. cbn in Hu. destruct (decide (u = current k)) as [->|Hut].
      * rewrite lookup_insert_eq. eexists. split; [done|].
        destruct (Hres Ha) as [_ HR]. eapply resumable_mono; [|apply Hsame|exact HR]. done.
      * rewrite lookup_insert_ne by done. destruct (Hst u Hut Ha Hsu) as (c' & Hc' & HR).
        exists c'. split; [done|]. eapply resumable_mono; [|apply Hsame|exact HR].
        intros k1 g1 prev. apply safe_mono; [lia|done].
  - destruct Hs as (g' & Hg & Hne & HR & Haf'). exists g'. cbn [kst cpu saved]. split; [done|].
    intros u Hu Ha Hsu. destruct (decide (u = t)) as [->|Hut].
    + rewrite lookup_insert_eq. eexists. split; [done|]. exact HR.
    + rewrite lookup_insert_ne by done. destruct (Hg u Hu Hut) as [Hnew Hrely].
      destruct (Hst u Hu Ha (Hnew Hsu)) as (c' & Hc' & HR'). exists c'. split; [done|].
      eapply resumable_mono; [|apply Hrely; [done|by apply Hnew]|exact HR'].
      intros k1 g1 prev. apply safe_mono; [lia|done].
  - exists g. cbn [kst cpu saved]. split.
    + revert Haf. unfold after. destruct (intr_level k) eqn:Hl.
      * intros (Hi & He & HQ). split_and!; [done|done|]. intros k' g' H1 H2 H3 H4 H5.
        specialize (HQ k' g' H1 H2 H3 H4 H5). cbn in HQ. apply safe_bind.
        eapply safe_mono; [done| |exact HQ]. by intros [l'|b].
      * intros _. apply safe_bind. eapply safe_mono; [done| |exact Hs]. by intros [l'|b].
    + intros u Hu Ha Hsu. destruct (Hst u Hu Ha Hsu) as (c' & Hc' & HR'). exists c'. split; [done|].
      eapply resumable_mono; [|apply rely_refl|exact HR'].
      intros k1 g1 prev. apply safe_mono; [lia|done].
  - exact Hs.
Qed.

End logic.
