(* ===== verification/KernelTrans.v ===== *)
(** * Pintos: the actions of the kernel keep its invariant

    One lemma for each change of state between two points at which the invariant
    holds: waking and blocking a thread, changing the value of a semaphore, taking a
    lock, switching, ending and making a thread. *)

From stdpp Require Import base tactics list gmap.
From Stdlib Require Import ZArith Lia.
From S2P Require Import Prelude Bitmap BitmapProps Kernel Sched Synch Threads KernelInv.

Local Open Scope Z_scope.

(** ** Updates of the views *)

Definition fupd {A B} `{EqDecision A} (f : A → B) (x : A) (y : B) : A → B :=
  λ z, if decide (z = x) then y else f z.

Lemma fupd_eq {A B} `{EqDecision A} (f : A → B) x y : fupd f x y x = y.
Proof. unfold fupd. by rewrite decide_True. Qed.

Lemma fupd_ne {A B} `{EqDecision A} (f : A → B) x y z : z ≠ x → fupd f x y z = f z.
Proof. intros. unfold fupd. by rewrite decide_False. Qed.

Lemma stat_insert k u th x :
  stat (upd_threads (<[u := th]>) k) x = fupd (stat k) u (Some (status th)) x.
Proof.
  unfold stat, fupd. cbn. case_decide as Hx; [subst; by rewrite lookup_insert_eq|].
  by rewrite lookup_insert_ne.
Qed.

Lemma wts_insert k s sm x : wts (upd_semas (<[s := sm]>) k) x = fupd (wts k) s (waiters sm) x.
Proof.
  unfold wts, fupd. cbn. case_decide as Hx; [subst; by rewrite lookup_insert_eq|].
  by rewrite lookup_insert_ne.
Qed.

Lemma val_insert k s sm x : val (upd_semas (<[s := sm]>) k) x = fupd (val k) s (Some (value sm)) x.
Proof.
  unfold val, fupd. cbn. case_decide as Hx; [subst; by rewrite lookup_insert_eq|].
  by rewrite lookup_insert_ne.
Qed.

Lemma cws_insert k c cd x :
  cws (upd_conds (<[c := cd]>) k) x = fupd (cws k) c (cond_waiters cd) x.
Proof.
  unfold cws, fupd. cbn. case_decide as Hx; [subst; by rewrite lookup_insert_eq|].
  by rewrite lookup_insert_ne.
Qed.

Lemma wts_sema k s sm : semas k !! s = Some sm → wts k s = waiters sm.
Proof. intros H. unfold wts. by rewrite H. Qed.

Lemma val_sema k s sm : semas k !! s = Some sm → val k s = Some (value sm).
Proof. intros H. unfold val. by rewrite H. Qed.

Lemma linked_wts k u : linked k u ↔ u ∈ ready_list k ∨ ∃ s, u ∈ wts k s.
Proof.
  unfold linked. split.
  - intros [H|H]; [by left|right]. apply map_Exists_lookup_1 in H as (s & sm & Hs & Hu).
    exists s. by rewrite (wts_sema _ _ _ Hs).
  - intros [H|[s H]]; [by left|right]. unfold wts in H. destruct (semas k !! s) as [sm|] eqn:Hs; cbn in H.
    + by eapply map_Exists_lookup_2.
    + by apply not_elem_of_nil in H.
Qed.

(** ** Queues *)

Section queues.
Implicit Types (st : tptr → option thread_status) (rd : list tptr) (wt : sptr → list tptr)
  (mk : gmap tptr (tptr * stage)).

Lemma queues_ext ex st st' rd wt wt' idl idr mk :
  (∀ u, st' u = st u) → (∀ s, wt' s = wt s) →
  queues_ok ex st rd wt idl idr mk → queues_ok ex st' rd wt' idl idr mk.
Proof.
  intros Hst Hwt [H1 H2 H3 H4 H5 H6]. split; intros *; rewrite ?Hst, ?Hwt; eauto.
Qed.

Lemma q_wake ex st rd wt idl idr mk s u ws :
  queues_ok ex st rd wt idl idr mk → wt s = u :: ws → (idl = Some u → idr = Some u) →
  queues_ok ex (fupd st u (Some THREAD_READY)) (rd ++ [u]) (fupd wt s ws) idl idr mk.
Proof.
  intros [H1 H2 H3 H4 H5 H6] Hs Hi.
  assert (u ∈ wt s) as Hu by (rewrite Hs; left). destruct (H5 _ _ Hu) as (Hb & Hm & Hidr).
  assert (u ∉ rd) as Hrd by (intros [? _]%H2; congruence).
  assert (u ∉ ws) as Huws by (specialize (H4 s); rewrite Hs in H4; by apply NoDup_cons in H4 as [? _]).
  split.
  - apply NoDup_app. split_and!; [done| |apply NoDup_singleton]. intros x Hx ->%list_elem_of_singleton. done.
  - intros x [Hx| ->%list_elem_of_singleton]%elem_of_app.
    + rewrite fupd_ne by congruence. auto.
    + rewrite fupd_eq. split; [done|]. by intros ?%Hi.
  - intros x. destruct (decide (x = u)) as [->|Hx].
    + intros _. left. apply elem_of_app. right. by apply list_elem_of_singleton.
    + rewrite fupd_ne by done. intros Hr. destruct (H3 x Hr) as [?|?]; [left; apply elem_of_app|]; auto.
  - intros s'. unfold fupd. case_decide as Hs'; [|done]. subst s'. specialize (H4 s). rewrite Hs in H4.
    by apply NoDup_cons in H4 as [_ ?].
  - intros s' x Hx. assert (x ∈ wt s' ∧ x ≠ u) as [Hx' Hne].
    { unfold fupd in Hx. case_decide as Hs'; subst.
      - split; [rewrite Hs; by right|]. intros ->. done.
      - split; [done|]. intros ->. by apply Hs', (H6 s' s u). }
    rewrite fupd_ne by done. eauto.
  - intros s1 s2 x Hx1 Hx2.
    assert (∀ s', x ∈ fupd wt s ws s' → x ∈ wt s') as Hsub.
    { intros s' Hx. unfold fupd in Hx. case_decide; subst; [rewrite Hs; by right|done]. }
    eapply H6; by apply Hsub.
Qed.

Lemma q_block ex st rd wt idl idr mk s t :
  queues_ok ex st rd wt idl idr mk → st t = Some THREAD_RUNNING → idr ≠ Some t → mk !! t = None →
  queues_ok ex (fupd st t (Some THREAD_BLOCKED)) rd (fupd wt s (wt s ++ [t])) idl idr mk.
Proof.
  intros [H1 H2 H3 H4 H5 H6] Ht Hi Hm.
  assert (∀ s, t ∉ wt s) as Htw by (intros s' [? _]%H5; congruence).
  assert (t ∉ rd) as Hrd by (intros [? _]%H2; congruence).
  assert (∀ s' x, x ∈ fupd wt s (wt s ++ [t]) s' → x ∈ wt s' ∧ x ≠ t ∨ x = t ∧ s' = s) as Hin.
  { intros s' x. unfold fupd. case_decide as Hs'; subst.
    - rewrite elem_of_app, list_elem_of_singleton. intros [Hx| ->]; [left|by right].
      split; [done|]. intros ->. by apply (Htw s).
    - intros Hx. left. split; [done|]. intros ->. by apply (Htw s'). }
  split.
  - done.
  - intros x Hx. rewrite fupd_ne by congruence. auto.
  - intros x. destruct (decide (x = t)) as [->|Hx]; [by rewrite fupd_eq|]. rewrite fupd_ne by done. auto.
  - intros s'. unfold fupd. case_decide; [|done]. apply NoDup_app. split_and!; [done| |apply NoDup_singleton].
    intros x Hx ->%list_elem_of_singleton. by apply (Htw s).
  - intros s' x [[Hx Hne]|[-> ->]]%Hin.
    + rewrite fupd_ne by done. eauto.
    + by rewrite fupd_eq.
  - intros s1 s2 x [[Hx1 Hn1]|[E1 F1]]%Hin [[Hx2 Hn2]|[E2 F2]]%Hin; subst; try congruence; eauto.
Qed.

(** A thread on no queue changes its status. *)
Lemma q_status ex st rd wt idl idr mk t x :
  queues_ok ex st rd wt idl idr mk → t ∉ rd → (∀ s, t ∉ wt s) → x ≠ THREAD_READY ∨ idl = Some t →
  queues_ok (if decide (ex = Some t) then None else ex) (fupd st t (Some x)) rd wt idl idr mk.
Proof.
  intros [H1 H2 H3 H4 H5 H6] Hrd Hwt Hx. split; [done| | |done| |done].
  - intros y Hy. rewrite fupd_ne by congruence. auto.
  - intros y. destruct (decide (y = t)) as [->|Hy].
    + rewrite fupd_eq. intros [= ->]. destruct Hx as [?|?]; [done|auto].
    + rewrite fupd_ne by done. intros Hr. destruct (H3 y Hr) as [?|[?|?]]; [auto|auto|].
      case_decide; [congruence|auto].
  - intros s y Hy. rewrite fupd_ne by (intros ->; by apply (Hwt s)). eauto.
Qed.

Lemma q_yield ex st rd wt idl idr mk t :
  queues_ok ex st rd wt idl idr mk → st t = Some THREAD_RUNNING → idl ≠ Some t →
  queues_ok ex (fupd st t (Some THREAD_READY)) (rd ++ [t]) wt idl idr mk.
Proof.
  intros [H1 H2 H3 H4 H5 H6] Ht Hi.
  assert (t ∉ rd) as Hrd by (intros [? _]%H2; congruence). split; [| | |done| |done].
  - apply NoDup_app. split_and!; [done| |apply NoDup_singleton]. intros x Hx ->%list_elem_of_singleton. done.
  - intros y [Hy| ->%list_elem_of_singleton]%elem_of_app; [rewrite fupd_ne by congruence; auto|].
    by rewrite fupd_eq.
  - intros y. destruct (decide (y = t)) as [->|Hy].
    + intros _. left. apply elem_of_app. right. by apply list_elem_of_singleton.
    + rewrite fupd_ne by done. intros Hr. destruct (H3 y Hr); [left; apply elem_of_app|]; auto.
  - intros s y Hy. rewrite fupd_ne; [eauto|]. intros ->. apply H5 in Hy as [? _]. congruence.
Qed.

Lemma q_pop st rd wt idl idr mk u :
  queues_ok None st (u :: rd) wt idl idr mk → queues_ok (Some u) st rd wt idl idr mk.
Proof.
  intros [H1 H2 H3 H4 H5 H6]. apply NoDup_cons in H1 as [Hu H1]. split; [done| | |done|done|done].
  - intros x Hx. apply H2. by right.
  - intros x Hx. destruct (H3 x Hx) as [Hin|[?|?]]; [|auto|done].
    apply elem_of_cons in Hin as [->|?]; auto.
Qed.

(** A structure that is on no queue comes or goes. *)
Lemma q_forget ex st rd wt idl idr mk mk' t x :
  queues_ok ex st rd wt idl idr mk → t ∉ rd → (∀ s, t ∉ wt s) → x ≠ Some THREAD_READY →
  (∀ u, u ≠ t → mk' !! u = mk !! u) →
  queues_ok ex (fupd st t x) rd wt idl idr mk'.
Proof.
  intros [H1 H2 H3 H4 H5 H6] Hrd Hwt Hx Hmk. split; [done| | |done| |done].
  - intros y Hy. rewrite fupd_ne by congruence. auto.
  - intros y. destruct (decide (y = t)) as [->|Hy]; [by rewrite fupd_eq|]. rewrite fupd_ne by done. auto.
  - intros s y Hy. assert (y ≠ t) by (intros ->; by apply (Hwt s)).
    rewrite fupd_ne, Hmk by done. eauto.
Qed.

End queues.

(** ** Changes of queues and statuses *)

Section trans.
Context (o : objects).
Local Abbreviation rely := (rely o).
Local Abbreviation guar := (guar o).
Local Abbreviation core := (core o).
Local Abbreviation inv := (inv o).
Implicit Types (k : kernel) (g : ghost) (t u : tptr).

(** Nothing but queues, statuses and the registers of the scheduler changes. *)
Record same g k k' : Prop := {
  s_val s : val k' s = val k s;
  s_locks : locks k' = locks k;
  s_conds : conds k' = conds k;
  s_trace : trace k' = trace k;
  s_tid : next_tid k' = next_tid k;
  s_init : initial_thread k' = initial_thread k;
  s_pool : kernel_pool k' = kernel_pool k;
  s_idle : idle_thread k' = idle_thread k;
  s_alive u : alive k' u ↔ alive k u;
  s_threads u : is_Some (threads k' !! u) ↔ is_Some (threads k !! u);
  s_made e : is_Some (maker g !! e) → threads k' !! e = threads k !! e
}.

Lemma same_rely u g k k' : same g k k' → rely u k g k' g.
Proof.
  intros H. split; try done.
  - intros l _. by rewrite (s_locks _ _ _ H).
  - intros c l _ _. by rewrite (s_conds _ _ _ H).
  - intros e s He. split; [done|]. apply (s_made _ _ _ H). by rewrite He.
  - constructor.
  - intros _. by rewrite (s_tid _ _ _ H).
  - by rewrite (s_alive _ _ _ H).
  - by rewrite (s_init _ _ _ H).
  - by rewrite (s_pool _ _ _ H).
  - by rewrite (s_idle _ _ _ H).
  - intros x _. by rewrite (s_pool _ _ _ H).
Qed.

Lemma same_guar t g k k' : same g k k' → guar t k g k' g.
Proof.
  intros H u _. split; [|intros _ _; by apply same_rely]. intros Ha Hs. by rewrite <- (s_alive _ _ _ H).
Qed.

Lemma same_locks g k k' : same g k k' → locks_ok o k g → locks_ok o k' g.
Proof.
  intros H [H1 H2 H3 H4]. split.
  - intros l lk. rewrite (s_locks _ _ _ H), (s_val _ _ _ H), (s_trace _ _ _ H). apply H1.
  - intros l u Hu. rewrite (s_locks _ _ _ H), (s_alive _ _ _ H). by apply H2.
  - intros l Hl. rewrite (s_locks _ _ _ H). by apply H3.
  - intros p v0 Hv. rewrite (s_trace _ _ _ H), (s_val _ _ _ H). by apply H4.
Qed.

Lemma same_conds g k k' :
  same g k k' → conds_ok o (cws k) (val k) (dom (conds k)) (waits g) →
  conds_ok o (cws k') (val k') (dom (conds k')) (waits g).
Proof.
  intros H [H1 H2 H3 H4].
  assert (∀ c, cws k' c = cws k c) as Hc by (intros c; unfold cws; by rewrite (s_conds _ _ _ H)).
  split; intros *; rewrite ?Hc, ?(s_val _ _ _ H); eauto. by rewrite (s_conds _ _ _ H).
Qed.

Lemma same_pages g k k' :
  same g k k' →
  pages_ok (λ u, is_Some (threads k !! u)) (kernel_pool k) (initial_thread k) (maker g) →
  pages_ok (λ u, is_Some (threads k' !! u)) (kernel_pool k') (initial_thread k') (maker g).
Proof.
  intros H [H1 H2 H3 H4 H5]. rewrite (s_pool _ _ _ H), (s_init _ _ _ H). split; try done.
  intros u. rewrite (s_threads _ _ _ H). apply H4.
Qed.

Lemma same_core ex dy ex' dy' g k k' :
  same g k k' → core ex dy k g →
  queues_ok ex' (stat k') (ready_list k') (wts k') (idle_thread k') (idler g) (maker g) →
  life_ok dy' k' g → idle_ok k' g → core ex' dy' k' g.
Proof.
  intros Hs [H1 H2 H3 H4 H5 H6] Hq Hl Hi. split; try done.
  - by eapply same_pages.
  - by eapply same_locks.
  - by eapply same_conds.
Qed.

Lemma stat_threads k u x : stat k u = Some x → ∃ th, threads k !! u = Some th ∧ status th = x.
Proof. unfold stat. intros (th & ? & ?)%fmap_Some. eauto. Qed.

(** *** Status *)

Lemma alive_status k u th x y :
  threads k !! u = Some th → status th ≠ THREAD_DYING → x ≠ THREAD_DYING →
  alive (upd_threads (<[u := set_status x th]>) k) y ↔ alive k y.
Proof.
  intros Hu Hth Hx. unfold alive. rewrite stat_insert. unfold fupd. case_decide as Hy; [subst y|done].
  unfold live, stat. rewrite Hu. cbn. naive_solver.
Qed.

Lemma same_status g k u th x :
  threads k !! u = Some th → status th ≠ THREAD_DYING → x ≠ THREAD_DYING → maker g !! u = None →
  same g k (upd_threads (<[u := set_status x th]>) k).
Proof.
  intros Hu Hth Hx Hm. split; try done.
  - intros y. by apply alive_status.
  - intros y. cbn. destruct (decide (y = u)) as [->|Hy]; [rewrite lookup_insert_eq, Hu|rewrite lookup_insert_ne by done].
    + split; intros _; by eexists. + done.
  - intros e [? He]. cbn. rewrite lookup_insert_ne; [done|]. congruence.
Qed.

Lemma life_status dy g k u th x :
  life_ok dy k g → threads k !! u = Some th → status th ≠ THREAD_DYING → x ≠ THREAD_DYING →
  (x = THREAD_RUNNING → u = current k) → maker g !! u = None →
  life_ok dy (upd_threads (<[u := set_status x th]>) k) g.
Proof.
  intros [H1 H2 H3 H4 H5 H6 H7] Hu Hth Hx Hr Hm.
  pose proof (λ y, alive_status k u th x y Hu Hth Hx) as Ha. split.
  - intros y ty. cbn. rewrite lookup_insert_Some. intros [[-> <-]|[_ Hy]]; [cbn|]; eauto.
  - intros y. rewrite stat_insert. unfold fupd. case_decide; [subst; cbn; intros [= ->]; auto|apply H2].
  - intros y. rewrite stat_insert. unfold fupd. case_decide; [subst; by intros [= ->]|apply H3].
  - done.
  - intros y. rewrite Ha. apply H5.
  - intros e y s He. destruct (H6 e y s He) as (Hi & Hc & He'). split_and!; [done|done|].
    assert (e ≠ u) by congruence. cbn. rewrite stat_insert, fupd_ne, lookup_insert_ne by done. done.
  - intros y Hy. rewrite Ha. by apply H7.
Qed.

Lemma same_trans g k1 k2 k3 : same g k1 k2 → same g k2 k3 → same g k1 k3.
Proof.
  intros [] []. split; intros; try congruence.
  - rewrite s_alive1. auto.
  - rewrite s_threads1. auto.
  - rewrite s_made1 by done. auto.
Qed.

(** Changes that touch neither statuses nor values. *)
Lemma same_ready g k f : same g k (upd_ready_list f k).
Proof. by split. Qed.

Lemma same_waiters g k s sm ws :
  semas k !! s = Some sm → same g k (upd_semas (<[s := Semaphore (value sm) ws]>) k).
Proof.
  intros Hs. split; try done. intros s'. rewrite val_insert. unfold fupd. case_decide; [|done].
  subst. cbn. by rewrite (val_sema _ _ _ Hs).
Qed.

Lemma life_frame dy g k k' :
  threads k' = threads k → current k' = current k → initial_thread k' = initial_thread k →
  all_list k' = all_list k → life_ok dy k g → life_ok dy k' g.
Proof.
  intros Ht Hc Hi Ha [H1 H2 H3 H4 H5 H6 H7].
  assert (∀ u, stat k' u = stat k u) as Hst by (intros u; unfold stat; by rewrite Ht).
  assert (∀ u, alive k' u ↔ alive k u) as Hal by (intros u; unfold alive; by rewrite Hst).
  split; intros *; rewrite ?Ht, ?Hst, ?Hc, ?Hi, ?Ha, ?Hal; eauto.
Qed.

(** *** Waking, blocking, yielding *)

Lemma idle_frame g k k' :
  (∀ u, alive k' u ↔ alive k u) → idle_thread k' = idle_thread k → initial_thread k' = initial_thread k →
  current k' = current k → intr_level k' = intr_level k → (∀ u, u ∈ ready_list k → u ∈ ready_list k') →
  idle_ok k g → idle_ok k' g.
Proof.
  intros Ha Hi Hin Hc Hl Hr [H1 H2 H3]. split.
  - intros i. rewrite Hi. apply H1.
  - intros i Hidr. rewrite Ha, Hi, Hin, Hc. destruct (H2 i Hidr) as (? & ? & Hn & ?). split_and!; try done.
    intros Hnone. destruct (Hn Hnone) as [?|[?|?]]; auto.
  - intros Hidr. rewrite Hl, Hi, Hc. destruct (H3 Hidr) as (? & ? & Hu & ?). split_and!; try done.
    intros u. rewrite Ha. apply Hu.
Qed.

Lemma core_unmade ex dy k g u x :
  core ex dy k g → stat k u = Some x → x ≠ THREAD_BLOCKED → maker g !! u = None.
Proof.
  intros Hc Hu Hx. destruct (maker g !! u) as [[y s]|] eqn:Hm; [|done].
  destruct (f_maker _ _ _ (c_life _ _ _ _ _ Hc) u y s Hm) as (_ & _ & H). case_decide.
  - unfold stat in Hu. by rewrite H in Hu.
  - congruence.
Qed.

Definition woken s sm u th ws k : kernel :=
  upd_threads (<[u := set_status THREAD_READY th]>)
    (upd_ready_list (λ l, l ++ [u]) (upd_semas (<[s := Semaphore (value sm) ws]>) k)).

Lemma wake_core k g s sm u th ws :
  core None None k g → semas k !! s = Some sm → waiters sm = u :: ws → threads k !! u = Some th →
  core None None (woken s sm u th ws k) g ∧ same g k (woken s sm u th ws k) ∧
  (∀ x, x ≠ u → stat (woken s sm u th ws k) x = stat k x).
Proof.
  intros Hc Hs Hw Hu. pose proof (c_queues _ _ _ _ _ Hc) as Hq.
  assert (u ∈ wts k s) as Hin by (rewrite (wts_sema _ _ _ Hs), Hw; left).
  destruct (q_wait _ _ _ _ _ _ _ Hq s u Hin) as (Hst & Hm & Hidr).
  assert (status th = THREAD_BLOCKED) as Hth by (unfold stat in Hst; rewrite Hu in Hst; by injection Hst).
  assert (same g k (woken s sm u th ws k)) as Hsame.
  { eapply same_trans; [by apply (same_waiters _ _ s sm ws)|].
    eapply same_trans; [apply (same_ready _ _ (λ l, l ++ [u]))|].
    apply same_status; [done|by rewrite Hth|done|done]. }
  split_and!; [|done|].
  - eapply same_core; [exact Hsame|exact Hc| | |].
    + eapply queues_ext; [intros x; apply stat_insert| |].
      { intros x. unfold woken. etransitivity; [|apply (wts_insert k s (Semaphore (value sm) ws))]. done. }
      cbn. eapply q_wake; [exact Hq|by rewrite (wts_sema _ _ _ Hs)|apply (i_idle _ _ (c_idle _ _ _ _ _ Hc))].
    + apply life_status; [|done|by rewrite Hth|done|done|done].
      apply (life_frame _ _ k); [done..|apply (c_life _ _ _ _ _ Hc)].
    + apply (idle_frame _ k); [apply (s_alive _ _ _ Hsame)|done..| |apply (c_idle _ _ _ _ _ Hc)].
      intros x Hx. cbn. apply elem_of_app. by left.
  - intros x Hx. etransitivity; [apply stat_insert|]. by rewrite fupd_ne.
Qed.

Definition blocked_on s sm t th k : kernel :=
  upd_threads (<[t := set_status THREAD_BLOCKED th]>)
    (upd_semas (<[s := Semaphore (value sm) (waiters sm ++ [t])]>) k).

Lemma block_core k g s sm t th :
  core None None k g → semas k !! s = Some sm → threads k !! t = Some th → status th = THREAD_RUNNING →
  idler g ≠ Some t →
  core None None (blocked_on s sm t th k) g ∧ same g k (blocked_on s sm t th k).
Proof.
  intros Hc Hs Ht Hr Hi. pose proof (c_queues _ _ _ _ _ Hc) as Hq.
  assert (stat k t = Some THREAD_RUNNING) as Hst by (unfold stat; by rewrite Ht; cbn; rewrite Hr).
  pose proof (core_unmade _ _ _ _ _ _ Hc Hst ltac:(done)) as Hm.
  assert (same g k (blocked_on s sm t th k)) as Hsame.
  { eapply same_trans; [by apply (same_waiters _ _ s sm (waiters sm ++ [t]))|].
    apply same_status; [done|by rewrite Hr|done|done]. }
  split; [|done]. eapply same_core; [exact Hsame|exact Hc| | |].
  - eapply queues_ext; [intros x; apply stat_insert| |].
    { intros x. etransitivity; [apply (wts_insert k s (Semaphore (value sm) (waiters sm ++ [t])))|]. cbn.
      by rewrite <- (wts_sema _ _ _ Hs). }
    cbn. by apply q_block.
  - apply life_status; [|done|by rewrite Hr|done|done|done].
    apply (life_frame _ _ k); [done..|apply (c_life _ _ _ _ _ Hc)].
  - apply (idle_frame _ k); [apply (s_alive _ _ _ Hsame)|done..|apply (c_idle _ _ _ _ _ Hc)].
Qed.

(** The running thread changes its status and is on no queue, or goes to the end of the
    run queue. *)
Lemma restatus_core k g t th x rd :
  core None None k g → threads k !! t = Some th → status th = THREAD_RUNNING →
  rd = ready_list k ∧ x = THREAD_BLOCKED ∨
  rd = ready_list k ∧ x = THREAD_READY ∧ idle_thread k = Some t ∨
  rd = ready_list k ++ [t] ∧ x = THREAD_READY ∧ idle_thread k ≠ Some t →
  let k' := upd_threads (<[t := set_status x th]>) (upd_ready_list (λ _, rd) k) in
  core None None k' g ∧ same g k k'.
Proof.
  intros Hc Ht Hr Hx. pose proof (c_queues _ _ _ _ _ Hc) as Hq. cbn zeta.
  assert (stat k t = Some THREAD_RUNNING) as Hst by (unfold stat; by rewrite Ht; cbn; rewrite Hr).
  pose proof (core_unmade _ _ _ _ _ _ Hc Hst ltac:(done)) as Hm.
  assert (t ∉ ready_list k) as Hnr by (intros [? _]%(q_ready _ _ _ _ _ _ _ Hq); congruence).
  assert (∀ s, t ∉ wts k s) as Hnw by (intros s [? _]%(q_wait _ _ _ _ _ _ _ Hq); congruence).
  assert (x ≠ THREAD_DYING ∧ x ≠ THREAD_RUNNING) as [Hx1 Hx2] by naive_solver.
  assert (same g k (upd_threads (<[t := set_status x th]>) (upd_ready_list (λ _, rd) k))) as Hsame.
  { eapply same_trans; [apply (same_ready _ _ (λ _, rd))|]. apply same_status; [done|by rewrite Hr|done|done]. }
  split; [|done]. eapply same_core; [exact Hsame|exact Hc| | |].
  - eapply queues_ext; [intros y; apply stat_insert|done|]. cbn.
    destruct Hx as [[-> ->]|[(-> & -> & Hi)|(-> & -> & Hi)]].
    + apply (q_status None); auto.
    + apply (q_status None); auto.
    + by apply q_yield.
  - apply life_status; [|done|by rewrite Hr|done|done|done].
    apply (life_frame _ _ k); [done..|apply (c_life _ _ _ _ _ Hc)].
  - apply (idle_frame _ k); [apply (s_alive _ _ _ Hsame)|done..| |apply (c_idle _ _ _ _ _ Hc)].
    cbn. intros u Hu. destruct Hx as [[-> _]|[[-> _]|[-> _]]]; [done|done|]. apply elem_of_app. by left.
Qed.

(** *** Ending *)

Lemma core_dying ex k g t : core ex None k g → core ex (Some t) k g.
Proof.
  intros [H1 [F1 F2 F3 F4 F5 F6 F7] H3 H4 H5 H6]. split; try done. split; try done.
  intros u [?|?]%F3; [by left|done].
Qed.

Definition ended t th k : kernel :=
  upd_threads (<[t := set_status THREAD_DYING th]>) (upd_all_list (filter (λ u, u ≠ t)) k).

Lemma end_core k g t th :
  core None None k g → current k = t → threads k !! t = Some th → status th = THREAD_RUNNING → local t k g →
  core None (Some t) (ended t th k) g ∧ guar t k g (ended t th k) g.
Proof.
  intros [Hq Hl Hp Hlk Hcd Hi] Hc Ht Hr Hloc.
  assert (stat k t = Some THREAD_RUNNING) as Hst by (unfold stat; by rewrite Ht; cbn; rewrite Hr).
  assert (maker g !! t = None) as Hm.
  { eapply (core_unmade None None); [by split|exact Hst|done]. }
  assert (∀ u, stat (ended t th k) u = fupd (stat k) t (Some THREAD_DYING) u) as Hst'
    by (intros u; exact (stat_insert (upd_all_list _ k) t _ u)).
  assert (∀ u, alive (ended t th k) u ↔ alive k u ∧ u ≠ t) as Hal.
  { intros u. unfold alive. rewrite Hst'. unfold fupd, live. case_decide; naive_solver. }
  assert (∀ e, is_Some (maker g !! e) → threads (ended t th k) !! e = threads k !! e) as Hmk.
  { intros e [? He]. cbn. apply lookup_insert_ne. congruence. }
  split.
  - split; [| | | |exact Hcd|].
    + eapply queues_ext; [exact Hst'|done|]. apply (q_status None); [exact Hq| | |by left].
      * intros [? _]%(q_ready _ _ _ _ _ _ _ Hq). congruence.
      * intros s [? _]%(q_wait _ _ _ _ _ _ _ Hq). congruence.
    + destruct Hl as [H1 H2 H3 H4 H5 H6 H7]. split.
      * intros y ty. cbn. rewrite lookup_insert_Some. intros [[-> <-]|[_ Hy]]; [cbn|]; eauto.
      * intros y. rewrite Hst'. unfold fupd. case_decide; [done|apply H2].
      * intros y. rewrite Hst'. unfold fupd. case_decide; [subst; by right|]. intros [?|?]%H3; [by left|done].
      * cbn. by apply NoDup_filter.
      * intros y. rewrite Hal. cbn. rewrite list_elem_of_filter, H5. naive_solver.
      * intros e y s He. destruct (H6 e y s He) as (Hin & Hce & He'). split_and!; [done|done|].
        assert (e ≠ t) by congruence. rewrite Hmk by by rewrite He. by rewrite Hst', fupd_ne.
      * intros y Hy. rewrite Hal. destruct (H7 y Hy) as [? ?]. split_and!; try done.
        intros ->. rewrite (lo_wait _ _ _ Hloc) in Hy. by destruct Hy.
    + destruct Hp as [H1 H2 H3 H4 H5]. split; try done. intros y. cbn.
      destruct (decide (y = t)) as [->|Hy]; [intros _; apply H4; by rewrite Ht|].
      rewrite lookup_insert_ne by done. apply H4.
    + destruct Hlk as [H1 H2 H3 H4]. split; try done. intros l u Hu. rewrite Hal.
      destruct (decide (u = t)) as [->|Hne]; [right; by apply (lo_own _ _ _ Hloc)|].
      destruct (H2 l u Hu) as [?|?]; [left; naive_solver|by right].
    + destruct Hi as [H1 H2 H3]. split; [done| |].
      * intros i Hidr. destruct (H2 i Hidr) as (? & ? & ?). rewrite Hal. split; [|done].
        split; [done|]. intros ->. by apply (lo_idler _ _ _ Hloc).
      * intros Hidr. destruct (H3 Hidr) as (? & ? & Hu & ?). split_and!; try done.
        intros u [? _]%Hal. by apply Hu.
  - intros u Hu. split; [intros [? _]%Hal; done|]. intros Ha _. split; try done.
    + intros e s He. split; [done|]. apply Hmk. by rewrite He.
    + constructor.
    + intros _. by apply Hal.
Qed.

(** *** Switching *)

(** What changes when the running thread leaves and [u] takes over. *)
Lemma life_switch dy k g u :
  life_ok dy k g → stat k (current k) ≠ Some THREAD_RUNNING → maker g !! u = None →
  life_ok dy (upd_current (λ _, u) k) g.
Proof.
  intros [H1 H2 H3 H4 H5 H6 H7] Hr Hm. split; try done.
  - intros x Hx. pose proof (H2 x Hx) as ->. done.
  - intros e x s He. destruct (H6 e x s He) as (? & _ & ?). split_and!; try done. cbn. congruence.
Qed.

Lemma pop_core dy k g u rd :
  core None dy k g → stat k (current k) ≠ Some THREAD_RUNNING → ready_list k = u :: rd →
  (idle_thread k = None → idler g = Some (current k) → current k ∈ ready_list k) →
  core (Some u) dy (upd_current (λ _, u) (upd_ready_list (λ _, rd) k)) g.
Proof.
  intros Hcore Hr Hrd Hself. pose proof Hcore as [Hq Hl Hp Hlk Hcd Hi].
  destruct (q_ready _ _ _ _ _ _ _ Hq u) as [Hu Hnidle]; [rewrite Hrd; left|].
  assert (maker g !! u = None) as Hm by by eapply core_unmade.
  assert (alive k u) as Hal by by exists THREAD_READY.
  assert (started g u) as Hsu by (unfold started; by rewrite Hm).
  eapply same_core; [|exact Hcore| | |]; [by split|..].
  - rewrite Hrd in Hq. apply q_pop in Hq. done.
  - apply (life_switch _ (upd_ready_list (λ _, rd) k)); [|done|done].
    by apply (life_frame _ _ k).
  - destruct Hi as [H1 H2 H3]. split; [done| |].
    + intros i Hidr. destruct (H2 i Hidr) as (? & ? & Hn & ?). split_and!; try done. cbn.
      intros Hnone. assert (is_Some (maker g !! i) ∨ i ∈ u :: rd) as [?|Hin]; [|by left|].
      { rewrite <- Hrd. destruct (Hn Hnone) as [?|[?| ->]]; auto. }
      apply elem_of_cons in Hin as [->|?]; auto.
    + intros Hidr. destruct (H3 Hidr) as (? & ? & Hu' & Ho). pose proof (Hu' u Hal Hsu) as ->.
      split_and!; try done.
Qed.

Lemma idle_core dy k g i :
  core None dy k g → stat k (current k) ≠ Some THREAD_RUNNING → idle_thread k = Some i →
  core (Some i) dy (upd_current (λ _, i) k) g.
Proof.
  intros Hcore Hr Hidl. pose proof Hcore as [Hq Hl Hp Hlk Hcd Hi].
  pose proof (i_idle _ _ Hi i Hidl) as Hidr.
  destruct (i_idler _ _ Hi i Hidr) as (Hal & Hin & _ & Hmk).
  assert (maker g !! i = None) as Hm.
  { apply eq_None_not_Some. intros H%Hmk. congruence. }
  eapply same_core; [|exact Hcore| | |]; [by split|..].
  - destruct Hq as [Q1 Q2 Q3 Q4 Q5 Q6]. split; try done. intros x [?|[?|?]]%Q3; [auto|auto|done].
  - by apply life_switch.
  - destruct Hi as [H1 H2 H3]. split; [done| |].
    + intros i' Hidr'. assert (i' = i) as -> by congruence. split_and!; try done. cbn. congruence.
    + intros Hn. congruence.
Qed.

(** The thread switched to marks itself as running. *)
Definition resumes t th k : kernel :=
  upd_thread_ticks (λ _, 0) (upd_threads (<[t := set_status THREAD_RUNNING th]>) k).

Lemma run_core dy k g t th :
  core (Some t) dy k g → current k = t → threads k !! t = Some th → status th ≠ THREAD_DYING →
  t ∉ ready_list k → (∀ s, t ∉ wts k s) → maker g !! t = None →
  core None dy (resumes t th k) g ∧ same g k (resumes t th k).
Proof.
  intros Hcore Hc Ht Hst Hrd Hwt Hm. pose proof Hcore as [Hq Hl Hp Hlk Hcd Hi].
  assert (same g k (resumes t th k)) as Hsame.
  { eapply same_trans; [by apply (same_status g k t th THREAD_RUNNING)|]. by split. }
  split; [|done]. eapply same_core; [exact Hsame|exact Hcore| | |].
  - eapply queues_ext; [intros y; apply stat_insert|done|]. cbn.
    assert (THREAD_RUNNING ≠ THREAD_READY ∨ idle_thread k = Some t) as Hx by by left.
    pose proof (q_status _ _ _ _ _ _ _ t THREAD_RUNNING Hq Hrd Hwt Hx) as H. by rewrite decide_True in H.
  - apply (life_frame _ _ (upd_threads (<[t := set_status THREAD_RUNNING th]>) k)); [done..|].
    by apply life_status.
  - apply (idle_frame _ k); [apply (s_alive _ _ _ Hsame)|done..].
Qed.

(** *** Freeing *)

Lemma scrub_one (m : gmap tptr thread) p : filter (λ '(t, _), ¬ p ≤ t < p + 1) m = delete p m.
Proof.
  apply map_eq. intros x. destruct (decide (x = p)) as [->|Hx].
  - rewrite lookup_delete_eq. apply map_lookup_filter_None. right. intros th _. cbn. lia.
  - rewrite lookup_delete_ne by done. apply option_eq. intros th.
    rewrite map_lookup_filter_Some. split; [by intros [? _]|]. intros H. split; [done|]. lia.
Qed.

Definition freed p m k : kernel :=
  upd_kernel_pool (λ pl, Pool m (base pl)) (upd_threads (filter (λ '(t, _), ¬ p ≤ t < p + 1)) k).

Lemma free_core k g p m :
  core None (Some p) k g → stat k p = Some THREAD_DYING → initial_thread k ≠ Some p →
  bwf m → bit_cnt m = bit_cnt (used_map (kernel_pool k)) →
  (∀ x, 0 ≤ x → bit m x = if decide (p - base (kernel_pool k) ≤ x < p - base (kernel_pool k) + 1) then false
                  else bit (used_map (kernel_pool k)) x) →
  core None None (freed p m k) g ∧ (∀ u, rely u k g (freed p m k) g) ∧
  (∀ u, stat (freed p m k) u = fupd (stat k) p None u).
Proof.
  intros Hcore Hst Hini Hwf Hcnt Hbit. pose proof Hcore as [Hq Hl Hp Hlk Hcd Hi].
  assert (maker g !! p = None) as Hm by by eapply core_unmade.
  assert (threads (freed p m k) = delete p (threads k)) as Hth by (cbn; apply scrub_one).
  assert (∀ u, stat (freed p m k) u = fupd (stat k) p None u) as Hst'.
  { intros u. unfold stat, fupd. rewrite Hth. case_decide; [subst; by rewrite lookup_delete_eq|].
    by rewrite lookup_delete_ne. }
  assert (∀ u, alive (freed p m k) u ↔ alive k u) as Hal.
  { intros u. unfold alive. rewrite Hst'. unfold fupd. case_decide; [|done]. subst. rewrite Hst. unfold live.
    naive_solver. }
  assert (∀ e, is_Some (maker g !! e) → threads (freed p m k) !! e = threads k !! e) as Hmk.
  { intros e [? He]. rewrite Hth. apply lookup_delete_ne. congruence. }
  split_and!; [|intros u; split; try done|done].
  - split; [| | | |exact Hcd|].
    + eapply queues_ext; [exact Hst'|done|]. apply (q_forget _ _ _ _ _ _ (maker g)); [exact Hq| | |done|done].
      * intros [? _]%(q_ready _ _ _ _ _ _ _ Hq). congruence.
      * intros s [? _]%(q_wait _ _ _ _ _ _ _ Hq). congruence.
    + destruct Hl as [H1 H2 H3 H4 H5 H6 H7]. split.
      * intros y ty. rewrite Hth, lookup_delete_Some. intros [_ Hy]. eauto.
      * intros y. rewrite Hst'. unfold fupd. case_decide; [done|apply H2].
      * intros y. rewrite Hst'. unfold fupd. case_decide; [done|]. intros [?|?]%H3; [by left|congruence].
      * done.
      * intros y. rewrite Hal. apply H5.
      * intros e y s He. destruct (H6 e y s He) as (Hin & Hce & He'). split_and!; [done|done|].
        assert (e ≠ p) by congruence. rewrite Hmk by by rewrite He. by rewrite Hst', fupd_ne.
      * intros y Hy. rewrite Hal. by apply H7.
    + destruct Hp as [H1 H2 H3 H4 H5].
      assert (∀ u, u ≠ p → page_used (kernel_pool k) u → page_used (kernel_pool (freed p m k)) u) as Hused.
      { intros u Hu [Hr Hb]. split; cbn; rewrite ?Hcnt; [done|]. rewrite Hbit by lia.
        rewrite decide_False by lia. done. }
      split; [done|done|cbn; by rewrite Hcnt| |].
      * intros u. rewrite Hth. intros [th [Hne Hu]%lookup_delete_Some].
        destruct (H4 u) as [?|?]; [by rewrite Hu|by left|right]. by apply Hused.
      * intros e He. apply Hused; [|auto]. intros ->. rewrite Hm in He. by destruct He.
    + destruct Hlk as [H1 H2 H3 H4]. split; try done. intros l u Hu. rewrite Hal. by apply H2.
    + by apply (idle_frame _ k).
  - intros e s He. split; [done|]. apply Hmk. by rewrite He.
  - constructor.
  - by rewrite Hal.
  - intros x _ [Hr Hb]. split; cbn; [by rewrite Hcnt|]. rewrite Hbit by lia. by destruct (decide _).
Qed.

(** Nothing to free. *)
Lemma nofree_core k g p :
  core None (Some p) k g → stat k p ≠ Some THREAD_DYING ∨ initial_thread k = Some p → core None None k g.
Proof.
  intros [H1 [F1 F2 F3 F4 F5 F6 F7] H3 H4 H5 H6] Hp. split; try done. split; try done.
  intros u Hu. destruct (F3 u Hu) as [?|[= ->]]; [by left|]. naive_solver.
Qed.

End trans.
