(* ===== verification/KernelSched.v ===== *)
(** * Pintos: the scheduler keeps the kernel safe

    What the functions of [Sched] do from states with interrupts disabled, where
    nothing can come between two actions, and from states in which the invariant
    holds. *)

From stdpp Require Import base tactics list gmap.
From Stdlib Require Import ZArith Lia.
From S2P Require Import Prelude Bitmap BitmapProps Kernel Sched Synch Threads KernelInv KernelLogic KernelTrans.

Local Open Scope Z_scope.

Section sched.
Context (o : objects).
Local Abbreviation rely := (rely o).
Local Abbreviation guar := (guar o).
Local Abbreviation core := (core o).
Local Abbreviation inv := (inv o).
Local Abbreviation resumed := (resumed o).
Local Abbreviation safe := (safe o).
Implicit Types (k : kernel) (g : ghost) (t u : tptr).

(** ** Actions *)

Lemma safe_act {A} n t (m : M kernel A) k g Q :
  wp Full m (λ a k', ∃ g', guar t k g k' g' ∧ current k' = t ∧ after o t k' g' (Q a)) k →
  safe n t (act m) k g Q.
Proof.
  intros H. destruct n as [|n]; [done|]. cbn. eapply wp_mono; [exact H|].
  intros a k' (g' & Hg & Hc & Ha). exists g'. split_and!; [done|done|].
  eapply after_mono; [|exact Ha]. intros k'' g'' HQ. by apply safe_ret.
Qed.

Lemma safe_do {A} n t (m : M kernel A) k g a k' g' (Q : A → kernel → ghost → Prop) :
  m k = Done (a, k') → guar t k g k' g' → current k' = t → after o t k' g' (Q a) →
  safe n t (act m) k g Q.
Proof. intros Hm Hg Hc HQ. apply safe_act. unfold wp. rewrite Hm. by exists g'. Qed.

(** A step with interrupts disabled. *)
Lemma safe_step {A} n t (m : M kernel A) k g a k' g' (Q : A → kernel → ghost → Prop) :
  m k = Done (a, k') → guar t k g k' g' → current k' = t → intr_level k' = false → Q a k' g' →
  safe n t (act m) k g Q.
Proof.
  intros Hm Hg Hc Hl HQ. apply safe_act. unfold wp. rewrite Hm. exists g'. split_and!; [done|done|].
  unfold after. by rewrite Hl.
Qed.

Lemma safe_read_off {A} n t (m : M kernel A) k g a (Q : A → kernel → ghost → Prop) :
  m k = Done (a, k) → current k = t → intr_level k = false → Q a k g → safe n t (act m) k g Q.
Proof. intros. eapply safe_step; try done. apply guar_refl. Qed.

Lemma kthread_run k t th :
  threads k !! t = Some th → (k' ← get; assume_some (threads k' !! t)) k = Done (th, k).
Proof. intros H. unfold mbind, M_bind. cbn. by rewrite H. Qed.

Lemma upd_thread_run k t th f :
  threads k !! t = Some th →
  (k' ← get; th ← assume_some (threads k' !! t); modify (upd_threads (<[t := f th]>))) k =
  Done (tt, upd_threads (<[t := f th]>) k).
Proof. intros H. unfold mbind, M_bind. cbn. by rewrite H. Qed.

Lemma safe_assert n t w (c : bool) k g Q : c = true → Q tt k g → safe n t (assert w c) k g Q.
Proof. intros -> HQ. by apply safe_ret. Qed.

Lemma safe_assert_blame n t w (c : bool) k g Q :
  blame w → (c = true → Q tt k g) → safe n t (assert w c) k g Q.
Proof. intros Hw HQ. destruct c; [by apply safe_ret; auto|by destruct n]. Qed.

Lemma safe_pswitch n t u k g Q :
  resumed u t (upd_current (λ _, u) k) g →
  (alive k t → started g t ∧
     ∀ k' g' prev, resumed t prev k' g' → rely t k g k' g' → Q (Some prev) k' g') →
  safe n t (switch_threads t u) k g Q.
Proof.
  intros Hr HQ. destruct n as [|n]; [done|]. cbn. split_and!; [done|done|]. intros Ha.
  destruct (HQ Ha) as [Hs HQ']. split; [done|]. intros k' g' prev H1 H2. apply safe_ret. by apply HQ'.
Qed.

(** ** Freeing a page *)

Lemma safe_free_page n t p k g Q :
  core None (Some p) k g → stat k p = Some THREAD_DYING → initial_thread k ≠ Some p →
  current k = t → p ≠ t → intr_level k = false →
  (∀ m, core None None (freed p m k) g → rely t k g (freed p m k) g →
     stat (freed p m k) t = stat k t → Q tt (freed p m k) g) →
  safe n t (palloc_free_page p) k g Q.
Proof.
  intros Hcore Hst Hini Hc Hne Hl HQ. pose proof Hcore as [_ _ Hp _ _ _].
  destruct (stat_threads _ _ _ Hst) as (th & Hth & _).
  destruct (p_threads _ _ _ _ Hp p) as [?|[Hr Hb]]; [by rewrite Hth|done|].
  pose proof (p_base _ _ _ _ Hp) as Hb0. pose proof (p_wf _ _ _ _ Hp) as Hwf.
  unfold palloc_free_page, palloc_free_multiple.
  rewrite bool_decide_false by lia. rewrite bool_decide_false by lia. cbn [orb].
  apply safe_bind. eapply safe_read_off; [done|done|done|].
  apply safe_bind. eapply safe_read_off; [done|done|done|].
  apply safe_bind. unfold page_from_pool. rewrite bool_decide_true by (unfold bitmap_size; lia).
  apply safe_ret. apply safe_bind. eapply safe_read_off; [done|done|done|]. cbn [get_pool].
  set (pl := kernel_pool k) in *.
  destruct (set_multiple_spec (used_map pl) (p - base pl) 1 false) as (m & Hm & Hwf' & Hcnt & Hbit); [done|lia|lia|lia|].
  destruct (free_core o k g p m Hcore Hst Hini Hwf' Hcnt Hbit) as (Hcore' & Hrely & Hst').
  set (k1 := upd_threads (filter (λ '(t, _), ¬ p ≤ t < p + 1)) k).
  assert (guar t k g k1 g) as Hg1.
  { intros u Hu. destruct (Hrely u) as [].
    split; [|by intros _ _; split]. intros Ha Hs. split; [|done]. revert Ha.
    change (alive k1 u) with (alive (freed p m k) u). unfold alive. rewrite Hst'. unfold fupd, live.
    case_decide; [|done]. by intros (? & ? & ?). }
  apply safe_bind. eapply (safe_step _ _ _ _ _ _ k1); [done|exact Hg1|done|done|].
  apply safe_bind. eapply safe_read_off; [done|done|done|].
  apply safe_bind. eapply (safe_read_off _ _ _ k1 _ tt); [|done|done|].
  { unfold mbind, M_bind. change (used_map (get_pool false k1)) with (used_map pl).
    rewrite bitmap_all_spec; [done|done|lia|lia|lia|]. intros x Hx. assert (x = p - base pl) as -> by lia. done. }
  eapply (safe_step _ _ _ _ _ _ (freed p m k)); [| |done|done|].
  { unfold mbind, M_bind. cbn [get get_pool]. change (used_map (kernel_pool k1)) with (used_map pl).
    by rewrite Hm. }
  { intros u Hu. split; [done|]. intros _ _. split; try done; [constructor|]. apply (r_free _ _ _ _ _ _ (Hrely u)). }
  apply HQ; [done|apply Hrely|]. by rewrite Hst', fupd_ne.
Qed.

(** ** Switching *)

Lemma safe_is_thread_off n t u th k g (Q : bool → kernel → ghost → Prop) :
  threads k !! u = Some th → current k = t → intr_level k = false →
  Q (bool_decide (magic th = THREAD_MAGIC)) k g → safe n t (is_thread u) k g Q.
Proof.
  intros Hu Hc Hl HQ. apply safe_bind. eapply safe_read_off; [by apply kthread_run|done|done|]. by apply safe_ret.
Qed.

(** The thread that takes over marks itself as running. *)
Lemma safe_mark_running n t dy k g (Q : unit → kernel → ghost → Prop) (p : prog unit) :
  core (Some t) dy k g → current k = t → intr_level k = false → alive k t → t ∉ ready_list k →
  (∀ s, t ∉ wts k s) → maker g !! t = None →
  (∀ th, threads k !! t = Some th → core None dy (resumes t th k) g → same g k (resumes t th k) →
     safe n t p (resumes t th k) g Q) →
  safe n t (upd_thread t (set_status THREAD_RUNNING);; kmod (upd_thread_ticks (λ _, 0));; p) k g Q.
Proof.
  intros Hcore Hc Hl (x & Hx & Hnd) Hr Hw Hm HQ. destruct (stat_threads _ _ _ Hx) as (th & Hth & <-).
  destruct (run_core o dy k g t th Hcore Hc Hth Hnd Hr Hw Hm) as [Hcore' Hsame].
  apply safe_bind. eapply safe_step; [by apply upd_thread_run| |done|done|].
  { apply same_guar. by apply same_status. }
  apply safe_bind. eapply safe_step; [done| |done|done|by apply HQ].
  intros u _. split; [done|]. intros _ _. calm.
Qed.

Lemma safe_tail n t prev k g Q :
  resumed t prev k g →
  (∀ k' g', inv k' g' → current k' = t → intr_level k' = false → in_external_intr k' = false →
     rely t k g k' g' → Q tt k' g') →
  safe n t (thread_schedule_tail (Some prev)) k g Q.
Proof.
  intros [Hcore Hc Hl He Ha Hs Hst Hr Hw Hm Hp Hne] HQ. unfold thread_schedule_tail.
  apply safe_bind. eapply safe_read_off; [done|done|done|]. rewrite Hc.
  apply safe_bind. eapply safe_read_off; [done|done|done|].
  apply safe_bind, safe_assert; [by rewrite Hl|].
  eapply safe_mark_running; try done. intros th Hth Hcore' Hsame.
  destruct Hp as [pth Hpth]. set (k1 := resumes t th k) in *.
  assert (threads k1 !! prev = Some pth) as Hpth1 by (cbn; by rewrite lookup_insert_ne).
  assert (stat k1 prev = Some (status pth)) as Hps by (unfold stat; by rewrite Hpth1).
  assert (stat k1 t = Some THREAD_RUNNING) as Hrun by (unfold stat; cbn; by rewrite lookup_insert_eq).
  apply safe_bind. eapply safe_read_off; [by apply kthread_run|done|done|].
  apply safe_bind. eapply safe_read_off; [done|done|done|].
  change (initial_thread k1) with (initial_thread k).
  destruct (decide (status pth = THREAD_DYING ∧ initial_thread k ≠ Some prev)) as [[Hdy Hini]|Hno].
  - rewrite !bool_decide_true by done. cbn [andb pwhen].
    apply safe_bind, safe_assert; [done|].
    eapply safe_free_page; [done|by rewrite Hps, Hdy|done|done|done|done|].
    intros m Hcore2 Hrely Hst2. apply HQ; try done.
    + split; [done|]. cbn. rewrite Hc, Hst2. done.
    + eapply rely_trans; [by apply same_rely|done].
  - replace (bool_decide (status pth = THREAD_DYING) && bool_decide (initial_thread k ≠ Some prev)) with false.
    2: { symmetry. apply andb_false_iff. destruct (decide (status pth = THREAD_DYING)).
         - right. apply bool_decide_false. tauto.
         - left. by apply bool_decide_false. }
    cbn [pwhen]. apply safe_ret, HQ; try done; [|by apply same_rely]. split; [|cbn; by rewrite Hc].
    eapply nofree_core; [done|]. rewrite Hps. destruct (decide (status pth = THREAD_DYING)) as [e|?].
    + right. destruct (decide (initial_thread k = Some prev)); [done|]. tauto.
    + left. congruence.
Qed.

(** No other thread to switch to. *)
Lemma safe_tail_none n t k g Q :
  core (Some t) None k g → current k = t → intr_level k = false → in_external_intr k = false →
  alive k t → t ∉ ready_list k → (∀ s, t ∉ wts k s) → maker g !! t = None →
  (∀ k' g', inv k' g' → current k' = t → intr_level k' = false → in_external_intr k' = false →
     rely t k g k' g' → Q tt k' g') →
  safe n t (thread_schedule_tail None) k g Q.
Proof.
  intros Hcore Hc Hl He Ha Hr Hw Hm HQ. unfold thread_schedule_tail.
  apply safe_bind. eapply safe_read_off; [done|done|done|]. rewrite Hc.
  apply safe_bind. eapply safe_read_off; [done|done|done|].
  apply safe_bind, safe_assert; [by rewrite Hl|].
  eapply safe_mark_running; try done. intros th Hth Hcore' Hsame. apply safe_ret, HQ; try done.
  - split; [done|]. cbn. rewrite Hc. unfold stat. cbn. by rewrite lookup_insert_eq.
  - by apply same_rely.
Qed.

(** The state of a thread that calls [schedule]. *)
Record leaving t k g : Prop := {
  v_core : core None (Some t) k g;
  v_current : current k = t;
  v_level : intr_level k = false;
  v_ext : in_external_intr k = false;
  v_thread : is_Some (threads k !! t);
  v_stat : stat k t ≠ Some THREAD_RUNNING;
  v_made : maker g !! t = None;
  v_next : idle_thread k = None → ready_list k ≠ [];
  v_idle : idle_thread k = None → idler g = Some t → t ∈ ready_list k
}.

(** Once the next thread is known. *)
Lemma safe_switch n t u k g Q :
  current k = t → intr_level k = false → in_external_intr k = false → is_Some (threads k !! t) →
  started g t →
  core (Some u) (Some t) (upd_current (λ _, u) k) g → alive k u → stat k u ≠ Some THREAD_RUNNING →
  u ∉ ready_list k → (∀ s, u ∉ wts k s) → maker g !! u = None →
  (alive k t → ∀ k' g', inv k' g' → current k' = t → intr_level k' = false →
     in_external_intr k' = false → rely t k g k' g' → Q tt k' g') →
  safe n t (prev ← (if bool_decide (t ≠ u) then switch_threads t u else mret None);
            thread_schedule_tail prev) k g Q.
Proof.
  intros Hc Hl He Hth Hs Hcore Ha Hru Hr Hw Hm HQ. apply safe_bind. case_bool_decide as Hne.
  - apply safe_pswitch.
    + split; try done. unfold started. by rewrite Hm.
    + intros Hat. split; [done|]. intros k' g' prev Hres Hrely.
      eapply safe_tail; [done|]. intros k2 g2 H1 H2 H3 H4 H5. apply HQ; try done. by eapply rely_trans.
  - subst u. apply safe_ret.
    assert (upd_current (λ _, t) k = k) as Ek by (destruct k; cbn in *; by subst).
    rewrite Ek in Hcore. destruct Ha as (x & Hx & Hnd).
    eapply safe_tail_none; try done; [|by exists x|].
    + destruct Hcore as [H1 [F1 F2 F3 F4 F5 F6 F7] H3 H4 H5 H6]. split; try done. split; try done.
      intros y Hy. destruct (F3 y Hy) as [?|[= ->]]; [by left|]. congruence.
    + intros k' g' ? ? ? ? ?. apply HQ; try done. by exists x.
Qed.

Lemma safe_schedule n t k g Q :
  leaving t k g →
  (alive k t → ∀ k' g', inv k' g' → current k' = t → intr_level k' = false →
     in_external_intr k' = false → rely t k g k' g' → Q tt k' g') →
  safe n t schedule k g Q.
Proof.
  intros [Hcore Hc Hl He Hth Hst Hm Hnx Hidl] HQ. unfold schedule.
  assert (started g t) as Hs by (unfold started; by rewrite Hm).
  pose proof Hcore as [Hq Hlf _ _ _ Hi].
  assert (stat k (current k) ≠ Some THREAD_RUNNING) as Hcst by by rewrite Hc.
  apply safe_bind. eapply safe_read_off; [done|done|done|]. rewrite Hc.
  apply safe_bind. unfold next_thread_to_run. apply safe_bind. eapply safe_read_off; [done|done|done|].
  destruct Hth as [th Hth].
  assert (stat k t = Some (status th)) as Hstt by (unfold stat; by rewrite Hth).
  destruct (ready_list k) as [|u rd] eqn:Hrd.
  - eapply safe_read_off; [done|done|done|].
    destruct (idle_thread k) as [i|] eqn:Hidle; [|exfalso; by apply Hnx].
    pose proof (i_idle _ _ Hi i Hidle) as Hidr.
    destruct (i_idler _ _ Hi i Hidr) as (Hal & _ & _ & Hmk).
    assert (maker g !! i = None) as Hmi by (apply eq_None_not_Some; intros H%Hmk; congruence).
    apply safe_bind. eapply safe_read_off; [done|done|done|].
    apply safe_bind, safe_assert; [by rewrite Hl|].
    apply safe_bind. eapply safe_read_off; [by apply kthread_run|done|done|].
    apply safe_bind, safe_assert; [apply bool_decide_true; congruence|].
    destruct Hal as (x & Hx & Hnd). destruct (stat_threads _ _ _ Hx) as (ith & Hith & <-).
    apply safe_bind. eapply safe_is_thread_off; [done|done|done|].
    apply safe_bind, safe_assert; [by apply bool_decide_true, (f_magic _ _ _ Hlf i)|].
    apply safe_switch; try done.
    + by apply idle_core.
    + by exists (status ith).
    + intros Hr. apply Hcst. by rewrite <- (f_running _ _ _ Hlf i Hr).
    + rewrite Hrd. apply not_elem_of_nil.
    + intros s Hin. by destruct (q_wait _ _ _ _ _ _ _ Hq s i Hin) as (_ & _ & ?).
  - set (k1 := upd_ready_list (λ _, rd) k).
    destruct (q_ready _ _ _ _ _ _ _ Hq u) as [Hu Hnidle]; [left|].
    assert (same g k k1) as Hsame by apply same_ready.
    eapply (safe_step _ _ _ _ _ _ k1 g); [|by apply same_guar|done|done|].
    { unfold mbind, M_bind. cbn [get]. by rewrite Hrd. }
    apply safe_bind. eapply safe_read_off; [done|done|done|].
    apply safe_bind, safe_assert; [change (intr_level k1) with (intr_level k); by rewrite Hl|].
    apply safe_bind. eapply safe_read_off; [by apply kthread_run|done|done|].
    apply safe_bind, safe_assert; [apply bool_decide_true; congruence|].
    destruct (stat_threads _ _ _ Hu) as (uth & Huth & Hus).
    apply safe_bind. eapply (safe_is_thread_off _ _ _ _ k1); [done|done|done|].
    apply safe_bind, safe_assert; [by apply bool_decide_true, (f_magic _ _ _ Hlf u)|].
    apply safe_switch; try done.
    + apply pop_core; try done. rewrite Hrd, Hc. done.
    + by exists THREAD_READY.
    + change (stat k1 u) with (stat k u). congruence.
    + cbn. by apply q_nodup, NoDup_cons in Hq as [? _].
    + intros s Hin. change (wts k1 s) with (wts k s) in Hin.
      destruct (q_wait _ _ _ _ _ _ _ Hq s u Hin) as (? & _ & _). congruence.
    + by eapply core_unmade.
    + intros Ha k' g' ? ? ? ? Hrel. apply HQ; try done. eapply rely_trans; [by apply same_rely|done].
Qed.

(** ** Running with the invariant *)

(** Facts that the other threads leave alone. *)
Definition stable t (F : kernel → ghost → Prop) : Prop :=
  ∀ k g k' g', rely t k g k' g' → F k g → F k' g'.

(** [t] runs, interrupts are enabled or not, it is in a handler or not, and knows
    [F]. *)
Record here t (lv ext : bool) (F : kernel → ghost → Prop) k g : Prop := {
  h_inv : inv k g;
  h_current : current k = t;
  h_level : intr_level k = lv;
  h_ext : in_external_intr k = ext;
  h_mode : ext = true → lv = false;
  h_facts : F k g
}.

Lemma here_after t lv ext F k g Q :
  here t lv ext F k g → stable t F → (∀ k' g', here t lv ext F k' g' → Q k' g') → after o t k g Q.
Proof.
  intros Hh Hst HQ. pose proof Hh as [Hi Hc Hl He Hm HF]. unfold after. rewrite Hl. destruct lv; [|by apply HQ].
  assert (ext = false) as -> by (destruct ext; [by specialize (Hm eq_refl)|done]).
  split_and!; [done|done|]. intros k' g' Hi' Hc' Hl' He' Hr. apply HQ. split; try done. by eapply Hst.
Qed.

Lemma safe_read {A} n t lv ext F (m : M kernel A) k g a Q :
  here t lv ext F k g → stable t F → m k = Done (a, k) →
  (∀ k' g', here t lv ext F k' g' → Q a k' g') → safe n t (act m) k g Q.
Proof.
  intros Hh Hst Hm HQ. apply safe_act. unfold wp. rewrite Hm. exists g.
  split_and!; [apply guar_refl|by apply (h_current _ _ _ _ _ _ Hh)|]. by eapply here_after.
Qed.

Lemma here_thread t lv ext F k g :
  here t lv ext F k g → ∃ th, threads k !! t = Some th ∧ status th = THREAD_RUNNING ∧ magic th = THREAD_MAGIC.
Proof.
  intros [[Hcore Hr] Hc _ _ _ _]. rewrite Hc in Hr. destruct (stat_threads _ _ _ Hr) as (th & Hth & Hs).
  exists th. split_and!; [done|done|]. by apply (f_magic _ _ _ (c_life _ _ _ _ _ Hcore) t).
Qed.

Lemma safe_thread_current n t lv ext F k g (Q : tptr → kernel → ghost → Prop) :
  here t lv ext F k g → stable t F → (∀ k' g', here t lv ext F k' g' → Q t k' g') →
  safe n t thread_current k g Q.
Proof.
  intros Hh Hst HQ. unfold thread_current, is_thread, running_thread. apply safe_bind.
  eapply safe_read; [done|done|done|]. intros k1 g1 H1. rewrite (h_current _ _ _ _ _ _ Hh).
  destruct (here_thread _ _ _ _ _ _ H1) as (th & Hth & _ & Hmg). do 2 apply safe_bind.
  eapply safe_read; [done|done|by apply kthread_run|]. intros k2 g2 H2. apply safe_ret.
  apply safe_bind, safe_assert; [by apply bool_decide_true|].
  destruct (here_thread _ _ _ _ _ _ H2) as (th2 & Hth2 & Hs2 & _). apply safe_bind.
  eapply safe_read; [done|done|by apply kthread_run|]. intros k3 g3 H3.
  apply safe_bind, safe_assert; [by apply bool_decide_true|]. apply safe_ret. by apply HQ.
Qed.

Lemma safe_intr_context n t lv ext F k g (Q : bool → kernel → ghost → Prop) :
  here t lv ext F k g → stable t F → (∀ k' g', here t lv ext F k' g' → Q ext k' g') →
  safe n t intr_context k g Q.
Proof.
  intros Hh Hst HQ. eapply safe_read; [done|done|done|]. rewrite (h_ext _ _ _ _ _ _ Hh). done.
Qed.

Lemma safe_get_level n t lv ext F k g (Q : bool → kernel → ghost → Prop) :
  here t lv ext F k g → stable t F → (∀ k' g', here t lv ext F k' g' → Q lv k' g') →
  safe n t intr_get_level k g Q.
Proof.
  intros Hh Hst HQ. eapply safe_read; [done|done|done|]. rewrite (h_level _ _ _ _ _ _ Hh). done.
Qed.

(** Changes of fields that no invariant mentions; boot runs with interrupts disabled. *)
Lemma inv_level lv k g : inv k g → (lv = true → idler g ≠ None) → inv (upd_intr_level (λ _, lv) k) g.
Proof.
  intros [[Hq Hl Hp Hlk Hcd [I1 I2 I3]] Hr] Hlv. split; [|done]. split; [done| |done| |done|].
  - by apply (life_frame _ _ k).
  - destruct Hlk. by split.
  - split; [done|done|]. intros Hn. destruct (I3 Hn) as (? & ? & ? & ?). split_and!; try done. cbn.
    destruct lv; [|done]. exfalso. by apply Hlv.
Qed.

Lemma guar_level t lv k g : guar t k g (upd_intr_level (λ _, lv) k) g.
Proof. intros u _. split; [done|]. intros _ _. calm. Qed.

Lemma safe_intr_disable n t lv ext F k g (Q : bool → kernel → ghost → Prop) :
  here t lv ext F k g → stable t F →
  (∀ k' g', here t false ext F k' g' → Q lv k' g') →
  safe n t intr_disable k g Q.
Proof.
  intros Hh Hst HQ. unfold intr_disable. apply safe_bind. eapply safe_get_level; [done|done|].
  intros k1 g1 [Hi Hc Hl He Hm HF]. apply safe_bind.
  eapply (safe_step _ _ _ _ _ _ _ g1); [done|apply guar_level|done|done|]. apply safe_ret, HQ. split; try done.
  - by apply inv_level.
  - eapply Hst; [|done]. calm.
Qed.

(** The end of a section with interrupts disabled. *)
Lemma safe_set_level n t lv ext F k g (Q : bool → kernel → ghost → Prop) :
  here t false ext F k g → stable t F → (ext = true → lv = false) → (lv = true → idler g ≠ None) →
  (∀ b k' g', here t lv ext F k' g' → Q b k' g') →
  safe n t (intr_set_level lv) k g Q.
Proof.
  intros Hh Hst Hm Hidr HQ. unfold intr_set_level. destruct lv.
  - pose proof Hh as [Hi Hc Hl He _ HF].
    unfold intr_enable. apply safe_bind. eapply safe_read_off; [done|done|done|].
    apply safe_bind. eapply safe_read_off; [done|done|done|]. rewrite He.
    apply safe_bind, safe_assert; [destruct ext; [by specialize (Hm eq_refl)|done]|].
    apply safe_bind. eapply (safe_do _ _ _ _ _ _ _ g); [done|apply guar_level|done|].
    eapply here_after; [|exact Hst|].
    + split; [by apply inv_level|exact Hc|reflexivity|exact He|exact Hm|]. eapply Hst; [|exact HF]. calm.
    + intros k' g' Hh'. by apply safe_ret, HQ.
  - eapply safe_intr_disable; [done|done|]. intros. by apply HQ.
Qed.

Lemma stable_and t F1 F2 : stable t F1 → stable t F2 → stable t (λ k g, F1 k g ∧ F2 k g).
Proof. intros H1 H2 k g k' g' Hr [? ?]. split; eauto. Qed.

Lemma stable_local t : stable t (local t).
Proof. intros k g k' g'. apply local_rely. Qed.

Lemma stable_rely t k g : stable t (rely t k g).
Proof. intros k1 g1 k2 g2 Hr H. by eapply rely_trans. Qed.

End sched.
