(* ===== verification/KernelSynch.v ===== *)
(** * Pintos: blocking, waking and semaphores

    The functions of [Sched] that put threads to sleep and wake them, and the
    semaphores, against the invariant.  A semaphore operation is proved once, for
    any change of the ghost state that goes with the change of the value; locks and
    condition variables supply theirs. *)

From stdpp Require Import base tactics list gmap.
From Stdlib Require Import ZArith Lia.
From S2P Require Import Prelude Bitmap BitmapProps Kernel Sched Synch Threads KernelInv KernelLogic KernelTrans KernelSched.

Local Open Scope Z_scope.

Section synch.
Context (o : objects).
Local Abbreviation rely := (rely o).
Local Abbreviation guar := (guar o).
Local Abbreviation core := (core o).
Local Abbreviation inv := (inv o).
Local Abbreviation safe := (safe o).
Local Abbreviation stable := (stable o).
Local Abbreviation here := (here o).
Implicit Types (k : kernel) (g : ghost) (t u : tptr).

(** ** Waking *)

Lemma level_id k : intr_level k = false → upd_intr_level (λ _, false) k = k.
Proof. destruct k. cbn. by intros ->. Qed.

Lemma safe_disable_off n t k g (Q : bool → kernel → ghost → Prop) :
  current k = t → intr_level k = false → Q false k g → safe n t intr_disable k g Q.
Proof.
  intros Hc Hl HQ. unfold intr_disable. apply safe_bind. eapply safe_read_off; [done|done|done|].
  apply safe_bind. eapply (safe_step _ _ _ _ _ _ _ k); [|apply guar_refl|done|done|].
  - unfold modify. by rewrite level_id.
  - rewrite Hl. by apply safe_ret.
Qed.

Lemma safe_unblock_off n t u th k g g' Q :
  threads k !! u = Some th → magic th = THREAD_MAGIC → status th = THREAD_BLOCKED → ¬ linked k u →
  current k = t → intr_level k = false →
  let k1 := upd_ready_list (λ l, l ++ [u]) k in
  let k2 := upd_threads (<[u := set_status THREAD_READY th]>) k1 in
  guar t k1 g k2 g' → Q tt k2 g' → safe n t (thread_unblock u) k g Q.
Proof.
  intros Hu Hmg Hst Hln Hc Hl k1 k2 Hg HQ. unfold thread_unblock.
  apply safe_bind. eapply safe_is_thread_off; [done|done|done|].
  apply safe_bind, safe_assert; [by apply bool_decide_true|].
  apply safe_bind, safe_disable_off; [done|done|].
  apply safe_bind. eapply safe_read_off; [by apply kthread_run|done|done|].
  apply safe_bind, safe_assert; [by apply bool_decide_true|].
  apply safe_bind. eapply (safe_step _ _ _ _ _ _ _ k1 g); [|apply same_guar, same_ready|done|done|].
  { unfold mbind, M_bind. cbn [get]. rewrite bool_decide_true by by rewrite Hu. cbn [check mret M_ret].
    by rewrite bool_decide_true. }
  apply safe_bind. eapply (safe_step _ _ _ _ _ _ _ k2 g'); [by apply (upd_thread_run k1)|done|done|done|].
  apply safe_bind, safe_disable_off; [done|done|]. by apply safe_ret.
Qed.

(** ** Values *)

Definition valued s sm v e k : kernel :=
  upd_trace (λ tr, tr ++ [e]) (upd_semas (<[s := Semaphore v (waiters sm)]>) k).

Lemma set_value_run s f e k sm :
  semas k !! s = Some sm →
  (k ← get; sm ← assume_some (semas k !! s);
   modify (upd_semas (<[s := Semaphore (f (value sm)) (waiters sm)]>));;
   modify (upd_trace (λ tr, tr ++ [e]))) k = Done (tt, valued s sm (f (value sm)) e k).
Proof. intros H. unfold mbind, M_bind. cbn. by rewrite H. Qed.

Lemma value_core ex dy k g g' s sm v e :
  core ex dy k g → semas k !! s = Some sm → maker g' = maker g → idler g' = idler g →
  (∀ u, is_Some (waits g' !! u) → is_Some (waits g !! u)) →
  (idler g = None → ∀ l u, owner g' !! l = Some u → u = current k) →
  locks_ok o (valued s sm v e k) g' →
  conds_ok o (cws k) (val (valued s sm v e k)) (dom (conds k)) (waits g') →
  core ex dy (valued s sm v e k) g'.
Proof.
  intros [Hq Hl Hp Hlk Hcd Hi] Hs Hm Hid Hwa Hb Hlk' Hcd'.
  assert (∀ s', wts (valued s sm v e k) s' = wts k s') as Hw.
  { intros s'. etransitivity; [apply (wts_insert k s (Semaphore v (waiters sm)))|]. unfold fupd. cbn.
    case_decide; [subst|done]. by rewrite (wts_sema _ _ _ Hs). }
  split.
  - rewrite Hm, Hid. eapply queues_ext; [done|exact Hw|exact Hq].
  - destruct Hl as [H1 H2 H3 H4 H5 H6 H7]. split; try done.
    + intros u. unfold unlisted. rewrite Hm. apply H5.
    + intros e' u x. rewrite Hm. apply H6.
    + intros u Hu%Hwa. unfold started. rewrite Hm. by apply H7.
  - by rewrite Hm.
  - done.
  - done.
  - destruct Hi as [H1 H2 H3]. split.
    + intros i. rewrite Hid. apply H1.
    + intros i. rewrite Hid, Hm. apply H2.
    + rewrite Hid. intros Hn. destruct (H3 Hn) as (? & ? & Hu & _). split_and!; try done; [|by apply Hb].
      intros u Ha Hsu. apply Hu; [done|]. revert Hsu. unfold started. by rewrite Hm.
Qed.

Lemma value_rely u k g s sm v e : rely u k g (valued s sm v e k) g.
Proof. calm. Qed.

(** ** Up *)

(** What goes with a change of the value of [s]: from a state in which [t] knows [F]
    to one in which it knows [F']. *)
Definition changes t (F F' : kernel → ghost → Prop) s (ok : Z → Prop) (f : Z → Z) (e : kevent) : Prop :=
  ∀ k g sm, here t false (in_external_intr k) F k g → semas k !! s = Some sm → ok (value sm) →
    ∃ g', inv (valued s sm (f (value sm)) e k) g' ∧ guar t k g (valued s sm (f (value sm)) e k) g' ∧
      F' (valued s sm (f (value sm)) e k) g' ∧ idler g' = idler g.

Lemma here_stat t lv ext F k g : here t lv ext F k g → stat k t = Some THREAD_RUNNING.
Proof. intros H. rewrite <- (h_current _ _ _ _ _ _ _ H) at 1. apply (h_inv _ _ _ _ _ _ _ H). Qed.

Lemma here_same t ext F k g k' :
  stable t F → here t false ext F k g → same g k k' → core None None k' g →
  current k' = t → stat k' t = stat k t → intr_level k' = false → in_external_intr k' = ext →
  here t false ext F k' g.
Proof.
  intros Hst Hh Hs Hc Hcur Hstat Hl He. split; try done.
  - split; [done|]. rewrite Hcur, Hstat. by eapply here_stat.
  - eapply Hst; [by apply same_rely|]. apply (h_facts _ _ _ _ _ _ _ Hh).
Qed.

(** [if (!list_empty(&sema->waiters)) thread_unblock(list_pop_front(&sema->waiters))] *)
Lemma safe_wake_one n t ext F s sm k g Q :
  here t false ext F k g → stable t F → semas k !! s = Some sm →
  (∀ k' sm', here t false ext F k' g → semas k' !! s = Some sm' → value sm' = value sm → Q tt k' g) →
  safe n t (pwhen (bool_decide (waiters sm ≠ [])) (t ← pop_waiter s; thread_unblock t)) k g Q.
Proof.
  intros Hh Hst Hs HQ. pose proof Hh as [[Hcore Hrun] Hc Hl He Hm HF].
  pose proof (c_queues _ _ _ _ _ Hcore) as Hq.
  destruct (waiters sm) as [|u ws] eqn:Hw; [by apply safe_ret, (HQ k sm)|].
  rewrite bool_decide_true by done. cbn [pwhen].
  assert (u ∈ wts k s) as Hin by (rewrite (wts_sema _ _ _ Hs), Hw; left).
  destruct (q_wait _ _ _ _ _ _ _ Hq s u Hin) as (Hub & Hum & _).
  destruct (stat_threads _ _ _ Hub) as (th & Hth & Hths).
  destruct (wake_core o k g s sm u th ws Hcore Hs Hw Hth) as (Hcore' & Hsame & Hstat).
  set (k1 := upd_semas (<[s := Semaphore (value sm) ws]>) k).
  apply safe_bind. eapply (safe_step _ _ _ _ _ _ _ k1 g); [|by apply same_guar, same_waiters|done|done|].
  { unfold mbind, M_bind. cbn [get]. rewrite Hs. cbn. by rewrite Hw. }
  eapply (safe_unblock_off _ _ _ th k1 g g); [done| |done| |done|done| |].
  - by apply (f_magic _ _ _ (c_life _ _ _ _ _ Hcore) u).
  - rewrite linked_wts. intros [Hr|[s' Hs']].
    + destruct (q_ready _ _ _ _ _ _ _ Hq u Hr). congruence.
    + unfold k1 in Hs'. rewrite wts_insert in Hs'. unfold fupd in Hs'. case_decide as Hd.
      * cbn in Hs'. pose proof (q_wnodup _ _ _ _ _ _ _ Hq s) as Hnd.
        rewrite (wts_sema _ _ _ Hs), Hw in Hnd. by apply NoDup_cons in Hnd as [? _].
      * by apply Hd, (q_disj _ _ _ _ _ _ _ Hq s' s u).
  - apply same_guar, same_status; [done|by rewrite Hths|done|done].
  - eapply (HQ _ (Semaphore (value sm) ws)).
    + eapply here_same; [done|exact Hh|exact Hsame|done|done|apply Hstat|done|done].
      intros ->. rewrite (here_stat _ _ _ _ _ _ Hh) in Hub. done.
    + cbn. by rewrite lookup_insert_eq.
    + done.
Qed.

Lemma safe_sema_up n t lv ext F F' s k g Q :
  here t lv ext F k g → stable t F → stable t F' →
  (∀ k g, inv k g → F k g → is_Some (semas k !! s)) → (lv = true → ∀ k g, F k g → idler g ≠ None) →
  changes t F F' s (λ _, True) (λ v, wrap_u32 (v + 1)) (Upped s) →
  (∀ k' g', here t lv ext F' k' g' → Q tt k' g') →
  safe n t (sema_up s) k g Q.
Proof.
  intros Hh Hst Hst' Hex Hidr Hch HQ. unfold sema_up. apply safe_bind.
  eapply safe_intr_disable; [done|done|]. intros k1 g1 H1.
  destruct (Hex k1 g1) as [sm Hsm]; [apply H1|apply H1|].
  pose proof (h_current _ _ _ _ _ _ _ H1) as Hc1. pose proof (h_level _ _ _ _ _ _ _ H1) as Hl1.
  apply safe_bind. eapply (safe_read_off _ _ _ _ _ _ sm); [|done|done|].
  { unfold mbind, M_bind. cbn [get]. by rewrite Hsm. }
  apply safe_bind. eapply safe_wake_one; [done|done|done|]. intros k2 sm2 H2 Hsm2 _.
  pose proof (h_ext _ _ _ _ _ _ _ H2) as He2.
  destruct (Hch k2 g1 sm2) as (g3 & Hi3 & Hg3 & HF3 & Hid3); [by rewrite He2|done|done|].
  apply safe_bind. eapply (safe_step _ _ _ _ _ _ _ _ g3);
    [by apply (set_value_run s (λ v, wrap_u32 (v + 1)))|done|apply (h_current _ _ _ _ _ _ _ H2)|apply (h_level _ _ _ _ _ _ _ H2)|].
  apply safe_bind. eapply (safe_set_level _ _ _ _ _ F').
  - split; try done; [apply (h_current _ _ _ _ _ _ _ H2)|apply (h_level _ _ _ _ _ _ _ H2)].
  - done.
  - apply (h_mode _ _ _ _ _ _ _ Hh).
  - intros Hlv. rewrite Hid3. apply (Hidr Hlv k1 g1). apply H1.
  - intros b k4 g4 H4. by apply safe_ret, HQ.
Qed.

(** ** Sleeping *)

Lemma safe_current_off n t th k g (Q : tptr → kernel → ghost → Prop) :
  threads k !! t = Some th → status th = THREAD_RUNNING → magic th = THREAD_MAGIC →
  current k = t → intr_level k = false → Q t k g → safe n t thread_current k g Q.
Proof.
  intros Hth Hs Hm Hc Hl HQ. unfold thread_current, running_thread.
  apply safe_bind. eapply safe_read_off; [done|done|done|]. rewrite Hc.
  apply safe_bind. eapply safe_is_thread_off; [done|done|done|].
  apply safe_bind, safe_assert; [by apply bool_decide_true|].
  apply safe_bind. eapply safe_read_off; [by apply kthread_run|done|done|].
  apply safe_bind, safe_assert; [by apply bool_decide_true|]. by apply safe_ret.
Qed.

Lemma safe_thread_block n t th k g Q :
  threads k !! t = Some th → status th = THREAD_RUNNING → magic th = THREAD_MAGIC →
  current k = t → intr_level k = false → in_external_intr k = false →
  let k2 := upd_threads (<[t := set_status THREAD_BLOCKED th]>) k in
  leaving o t k2 g →
  (∀ k' g', inv k' g' → current k' = t → intr_level k' = false → in_external_intr k' = false →
     rely t k2 g k' g' → Q tt k' g') →
  safe n t thread_block k g Q.
Proof.
  intros Hth Hs Hm Hc Hl He k2 Hlv HQ. unfold thread_block.
  apply safe_bind. eapply safe_read_off; [done|done|done|]. apply safe_bind, safe_assert; [by rewrite He|].
  apply safe_bind. eapply safe_read_off; [done|done|done|]. apply safe_bind, safe_assert; [by rewrite Hl|].
  apply safe_bind. eapply safe_current_off; try done.
  apply safe_bind. eapply (safe_step _ _ _ _ _ _ _ k2 g); [by apply upd_thread_run| |done|done|].
  { apply same_guar, same_status; [done|by rewrite Hs|done|apply (v_made _ _ _ _ Hlv)]. }
  eapply safe_schedule; [done|]. intros _. exact HQ.
Qed.

(** A thread other than the idle thread can leave the processor once the idle thread
    exists. *)
Lemma next_exists dy k g t :
  core None dy k g → current k = t → idler g ≠ Some t → idler g ≠ None → settled g →
  idle_thread k = None → ready_list k ≠ [].
Proof.
  intros Hcore Hc Hni Hne Hset Hnone. destruct (idler g) as [i|] eqn:Hidr; [|done].
  destruct (i_idler _ _ (c_idle _ _ _ _ _ Hcore) i Hidr) as (_ & _ & Hn & _).
  destruct (Hn Hnone) as [Hmk|[Hin|Hcur]].
  - rewrite (Hset i Hidr) in Hmk. by destruct Hmk.
  - by intros E; rewrite E in Hin; apply not_elem_of_nil in Hin.
  - congruence.
Qed.

(** ** Down *)

(** What a thread must know to wait for [s]. *)
Definition may_wait t s (F : kernel → ghost → Prop) : Prop :=
  ∀ k g, inv k g → current k = t → F k g →
    is_Some (semas k !! s) ∧ idler g ≠ Some t ∧ settled g ∧ (val k s = Some 0 → idler g ≠ None).

Lemma safe_wait n t F s sm k g Q :
  here t false false F k g → stable t F → may_wait t s F → semas k !! s = Some sm → value sm = 0 →
  (∀ k' g', here t false false F k' g' → Q (inl tt) k' g') →
  safe n t (t ← thread_current; push_waiter s t;; thread_block;; mret (inl tt : unit + unit)) k g Q.
Proof.
  intros Hh Hst Hmw Hs Hv HQ. pose proof Hh as [Hi Hc Hl He Hm HF]. pose proof Hi as [Hcore Hrun].
  destruct (here_thread _ _ _ _ _ _ _ Hh) as (th & Hth & Hths & Hmg).
  destruct (Hmw k g Hi Hc HF) as (_ & Hnid & Hset & Hne).
  specialize (Hne ltac:(by rewrite (val_sema _ _ _ Hs), Hv)).
  destruct (block_core o k g s sm t th Hcore Hs Hth Hths Hnid) as [Hcore' Hsame].
  pose proof (c_queues _ _ _ _ _ Hcore) as Hq. rewrite Hc in Hrun.
  set (k1 := upd_semas (<[s := Semaphore (value sm) (waiters sm ++ [t])]>) k).
  apply safe_bind. eapply safe_current_off; try done.
  apply safe_bind. eapply (safe_step _ _ _ _ _ _ _ k1 g); [|by apply same_guar, same_waiters|done|done|].
  { unfold mbind, M_bind. cbn [get]. rewrite bool_decide_true by by rewrite Hth. cbn [check mret M_ret].
    rewrite bool_decide_true; [cbn; by rewrite Hs|]. rewrite linked_wts. intros [Hr|[s' Hs']].
    - destruct (q_ready _ _ _ _ _ _ _ Hq t Hr). congruence.
    - destruct (q_wait _ _ _ _ _ _ _ Hq s' t Hs'). congruence. }
  apply safe_bind. eapply (safe_thread_block _ _ th k1); [done|done|done|done|done|done| |].
  - split; try done.
    + by apply core_dying.
    + cbn. rewrite lookup_insert_eq. by eexists.
    + unfold stat. cbn. by rewrite lookup_insert_eq.
    + by apply (core_unmade _ _ _ _ _ _ _ Hcore Hrun).
    + eapply next_exists; [exact Hcore'|done|done|done|done].
  - intros k' g' Hi' Hc' Hl' He' Hr'. apply safe_ret, HQ. split; try done.
    eapply Hst; [|exact HF]. eapply rely_trans; [apply same_rely, Hsame|exact Hr'].
Qed.

Lemma safe_sema_down n t lv F F' s k g Q :
  here t lv false F k g → stable t F → stable t F' → may_wait t s F → (lv = true → ∀ k g, F k g → idler g ≠ None) →
  changes t F F' s (λ v, v ≠ 0) (λ v, wrap_u32 (v - 1)) (Downed s) →
  (∀ k' g', here t lv false F' k' g' → Q tt k' g') →
  safe n t (sema_down s) k g Q.
Proof.
  intros Hh Hst Hst' Hmw Hidr Hch HQ. unfold sema_down.
  apply safe_bind. eapply safe_intr_context; [done|done|]. intros k0 g0 H0.
  apply safe_bind, safe_assert; [done|].
  apply safe_bind. eapply safe_intr_disable; [done|done|]. intros k1 g1 H1.
  apply safe_bind. apply (safe_loop o _ _ _ (λ _ k g, here t false false F k g)); [|done].
  - intros n' [] k2 g2 _ H2.
    destruct (Hmw k2 g2) as ([sm Hsm] & _); [apply H2|apply H2|apply H2|].
    pose proof (h_current _ _ _ _ _ _ _ H2). pose proof (h_level _ _ _ _ _ _ _ H2).
    apply safe_bind. eapply (safe_read_off _ _ _ _ _ _ sm); [|done|done|].
    { unfold mbind, M_bind. cbn [get]. by rewrite Hsm. }
    case_bool_decide as Hv; [by eapply safe_wait|]. apply safe_ret.
    pose proof (h_ext _ _ _ _ _ _ _ H2) as He2.
    destruct (Hch k2 g2 sm) as (g3 & Hi3 & Hg3 & HF3 & Hid3); [by rewrite He2|done|done|].
    apply safe_bind. eapply (safe_step _ _ _ _ _ _ _ _ g3);
      [by apply (set_value_run s (λ v, wrap_u32 (v - 1)))|done|done|done|].
    apply safe_bind. eapply (safe_set_level _ _ _ _ _ F').
    + split; try done.
    + done.
    + done.
    + intros Hlv. rewrite Hid3. apply (Hidr Hlv k2 g2). apply H2.
    + intros b k4 g4 H4. by apply safe_ret, HQ.
Qed.

Lemma safe_sema_try_down n t lv ext F F' s k g (Q : bool → kernel → ghost → Prop) :
  here t lv ext F k g → stable t F → stable t F' →
  (∀ k g, inv k g → F k g → is_Some (semas k !! s)) → (lv = true → ∀ k g, F k g → idler g ≠ None) →
  changes t F F' s (λ v, 0 < v) (λ v, wrap_u32 (v - 1)) (Downed s) →
  (∀ k' g', here t lv ext F' k' g' → Q true k' g') →
  (∀ k' g', here t lv ext F k' g' → Q false k' g') →
  safe n t (sema_try_down s) k g Q.
Proof.
  intros Hh Hst Hst' Hex Hidr Hch HQ1 HQ2. unfold sema_try_down. apply safe_bind.
  eapply safe_intr_disable; [done|done|]. intros k1 g1 H1.
  destruct (Hex k1 g1) as [sm Hsm]; [apply H1|apply H1|].
  pose proof (h_current _ _ _ _ _ _ _ H1) as Hc1. pose proof (h_level _ _ _ _ _ _ _ H1) as Hl1.
  apply safe_bind. eapply (safe_read_off _ _ _ _ _ _ sm); [|done|done|].
  { unfold mbind, M_bind. cbn [get]. by rewrite Hsm. }
  apply safe_bind. case_bool_decide as Hv.
  - pose proof (h_ext _ _ _ _ _ _ _ H1) as He1.
    destruct (Hch k1 g1 sm) as (g3 & Hi3 & Hg3 & HF3 & Hid3); [by rewrite He1|done|done|].
    apply safe_bind. eapply (safe_step _ _ _ _ _ _ _ _ g3);
      [by apply (set_value_run s (λ v, wrap_u32 (v - 1)))|done|done|done|]. apply safe_ret.
    apply safe_bind. eapply (safe_set_level _ _ _ _ _ F').
    + split; try done.
    + done.
    + apply (h_mode _ _ _ _ _ _ _ Hh).
    + intros Hlv. rewrite Hid3. apply (Hidr Hlv k1 g1). apply H1.
    + intros b k4 g4 H4. by apply safe_ret, HQ1.
  - apply safe_ret, safe_bind. eapply (safe_set_level _ _ _ _ _ F); [done|done| | |].
    + apply (h_mode _ _ _ _ _ _ _ Hh).
    + intros Hlv. apply (Hidr Hlv k1 g1). apply H1.
    + intros b k4 g4 H4. by apply safe_ret, HQ2.
Qed.

(** ** Yielding and exiting *)

Lemma safe_thread_yield n t lv F k g Q :
  here t lv false F k g → stable t F → (lv = true → ∀ k g, F k g → idler g ≠ None) →
  (∀ k' g', here t lv false F k' g' → Q tt k' g') →
  safe n t thread_yield k g Q.
Proof.
  intros Hh Hst Hidr HQ. unfold thread_yield.
  apply safe_bind. eapply safe_thread_current; [done|done|]. intros k0 g0 H0.
  apply safe_bind. eapply safe_intr_context; [done|done|]. intros k1 g1 H1.
  apply safe_bind, safe_assert; [done|].
  apply safe_bind. eapply safe_intr_disable; [done|done|]. intros k2 g2 H2.
  pose proof H2 as [Hi Hc Hl He _ HF]. pose proof Hi as [Hcore Hrun]. rewrite Hc in Hrun.
  destruct (here_thread _ _ _ _ _ _ _ H2) as (th & Hth & Hths & Hmg).
  pose proof (c_queues _ _ _ _ _ Hcore) as Hq.
  apply safe_bind. eapply safe_read_off; [done|done|done|].
  set (rd := if bool_decide (idle_thread k2 ≠ Some t) then ready_list k2 ++ [t] else ready_list k2).
  set (k3 := upd_ready_list (λ _, rd) k2).
  set (k4 := upd_threads (<[t := set_status THREAD_READY th]>) k3).
  assert (core None None k4 g2 ∧ same g2 k2 k4) as [Hcore4 Hsame4].
  { apply restatus_core; [done|done|done|]. unfold rd. case_bool_decide as Hd; [auto|].
    right. left. split_and!; [done|done|]. done. }
  apply safe_bind.
  assert (safe n t (pwhen (bool_decide (idle_thread k2 ≠ Some t)) (push_ready t)) k2 g2
    (λ _ k' g', k' = k3 ∧ g' = g2)) as Hpush.
  { unfold k3, rd. case_bool_decide as Hd; cbn [pwhen].
    - eapply (safe_step _ _ _ _ _ _ _ _ g2); [|apply same_guar, (same_ready _ _ (λ l, l ++ [t]))|done|done|by split].
      unfold mbind, M_bind. cbn [get]. rewrite bool_decide_true by by rewrite Hth. cbn [check mret M_ret].
      rewrite bool_decide_true; [done|]. rewrite linked_wts. intros [Hr|[s' Hs']].
      + destruct (q_ready _ _ _ _ _ _ _ Hq t Hr). congruence.
      + destruct (q_wait _ _ _ _ _ _ _ Hq s' t Hs'). congruence.
    - apply safe_ret. split; [|done]. by destruct k2. }
  eapply safe_mono; [done| |exact Hpush]. intros _ k' g' [-> ->].
  apply safe_bind. eapply (safe_step _ _ _ _ _ _ _ k4 g2); [by apply (upd_thread_run k3)| |done|done|].
  { apply same_guar, same_status; [done|by rewrite Hths|done|by apply (core_unmade _ _ _ _ _ _ _ Hcore Hrun)]. }
  apply safe_bind. eapply safe_schedule.
  - split; try done.
    + by apply core_dying.
    + cbn. rewrite lookup_insert_eq. by eexists.
    + unfold stat. cbn. by rewrite lookup_insert_eq.
    + by apply (core_unmade _ _ _ _ _ _ _ Hcore Hrun).
    + cbn. intros Hn. unfold rd. rewrite bool_decide_true by by rewrite Hn. by destruct (ready_list k2).
    + cbn. intros Hn _. unfold rd. rewrite bool_decide_true by by rewrite Hn.
      apply elem_of_app. right. by apply list_elem_of_singleton.
  - intros _ k' g' Hi' Hc' Hl' He' Hr'.
    assert (F k' g') as HF'.
    { eapply Hst; [|exact HF]. eapply rely_trans; [apply same_rely, Hsame4|exact Hr']. }
    apply safe_bind. eapply (safe_set_level _ _ _ _ _ F); [by split|done|done| |].
    + intros Hlv. by apply (Hidr Hlv k' g').
    + intros b k5 g5 H5. by apply safe_ret, HQ.
Qed.

Lemma safe_thread_exit n t lv k g Q :
  here t lv false (λ k g, local t k g ∧ idler g ≠ None) k g → safe n t thread_exit k g Q.
Proof.
  intros Hh. unfold thread_exit. set (F := λ k g, local t k g ∧ idler g ≠ None) in *.
  assert (stable t F) as Hst.
  { intros k1 g1 k2 g2 Hr [Hlo Hn]. split; [by eapply local_rely|]. by rewrite (r_idler _ _ _ _ _ _ Hr). }
  apply safe_bind. eapply safe_intr_context; [done|done|]. intros k1 g1 H1.
  apply safe_bind, safe_assert; [done|].
  apply safe_bind. eapply safe_intr_disable; [done|done|]. intros k2 g2 H2.
  pose proof H2 as [Hi Hc Hl He _ [Hlo Hn]]. pose proof Hi as [Hcore Hrun]. rewrite Hc in Hrun.
  destruct (here_thread _ _ _ _ _ _ _ H2) as (th & Hth & Hths & Hmg).
  destruct (end_core o k2 g2 t th Hcore Hc Hth Hths Hlo) as [Hcore' Hg].
  apply safe_bind. eapply safe_current_off; try done.
  set (k3 := upd_all_list (filter (λ u, u ≠ t)) k2).
  assert (t ∈ all_list k2) as Hall.
  { apply (f_all _ _ _ (c_life _ _ _ _ _ Hcore)). split; [by exists THREAD_RUNNING|].
    assert (maker g2 !! t = None) as Hm by by apply (core_unmade _ _ _ _ _ _ _ Hcore Hrun).
    unfold unlisted. rewrite Hm. tauto. }
  apply safe_bind. eapply (safe_step _ _ _ _ _ _ _ k3 g2); [| |done|done|].
  { unfold mbind, M_bind. cbn [get]. by rewrite bool_decide_true. }
  { intros u _. split; [done|]. intros _ _. calm. }
  apply safe_bind. eapply (safe_current_off _ _ th k3); try done.
  apply safe_bind. eapply (safe_step _ _ _ _ _ _ _ (ended t th k2) g2); [by apply (upd_thread_run k3)| |done|done|].
  { intros u Hu. destruct (Hg u Hu) as [Hnew Hrel]. split; [exact Hnew|].
    intros Ha Hs. destruct (Hrel Ha Hs). by split. }
  apply safe_bind. eapply safe_schedule.
  - split; try done.
    + cbn. rewrite lookup_insert_eq. by eexists.
    + unfold stat. cbn. by rewrite lookup_insert_eq.
    + by apply (core_unmade _ _ _ _ _ _ _ Hcore Hrun).
    + eapply next_exists; [exact Hcore'|done| |done|].
      * apply (lo_idler _ _ _ Hlo). * apply (lo_settled _ _ _ Hlo).
    + intros _ Hid. by apply (lo_idler _ _ _ Hlo) in Hid.
  - intros (x & Hx & Hnd). exfalso. unfold stat in Hx. cbn in Hx. rewrite lookup_insert_eq in Hx.
    cbn in Hx. congruence.
Qed.

End synch.
