(* ===== verification/KernelLocks.v ===== *)
(** * Pintos: locks

    A thread owns a lock from the moment [sema_down] decrements the lock's semaphore
    until [sema_up] increments it; in between it sets and clears the holder.  The
    functions on locks are proved for a thread that knows which locks it owns, and
    any fact [X] of its own that has nothing to do with locks. *)

From stdpp Require Import base tactics list gmap.
From Stdlib Require Import ZArith Lia.
From S2P Require Import Prelude Bitmap BitmapProps Kernel Sched Synch Threads KernelInv KernelLogic KernelTrans KernelSched KernelSynch.

Local Open Scope Z_scope.

Section locks.
Context (o : objects).
Local Abbreviation rely := (rely o).
Local Abbreviation guar := (guar o).
Local Abbreviation core := (core o).
Local Abbreviation inv := (inv o).
Local Abbreviation safe := (safe o).
Local Abbreviation stable := (stable o).
Local Abbreviation here := (here o).
Implicit Types (k : kernel) (g : ghost) (t u : tptr).

(** ** Values and the trace *)

Lemma val_valued k s sm v e s' : val (valued s sm v e k) s' = fupd (val k) s (Some v) s'.
Proof. apply (val_insert k s (Semaphore v (waiters sm))). Qed.

Lemma wrap_succ a : wrap_u32 (wrap_u32 a + 1) = wrap_u32 (a + 1).
Proof. unfold wrap_u32. by rewrite Zplus_mod_idemp_l. Qed.

Lemma wrap_pred a : wrap_u32 (wrap_u32 a - 1) = wrap_u32 (a - 1).
Proof. unfold wrap_u32. by rewrite Zminus_mod_idemp_l. Qed.

(** The change that an up or a down makes. *)
Definition moves (s : sptr) (v v' : Z) (e : kevent) : Prop :=
  e = Upped s ∧ v' = wrap_u32 (v + 1) ∨ e = Downed s ∧ v ≠ 0 ∧ v' = wrap_u32 (v - 1).

Lemma replay_moves l s v v' e tr : moves s v v' e → replay l None (tr ++ [e]) = replay l None tr.
Proof.
  intros [[-> _]|[-> _]]; rewrite replay_app; by destruct (replay l None tr).
Qed.

(** The counts of the client's semaphores. *)
Lemma counts_moves k g s sm v' e :
  locks_ok o k g → semas k !! s = Some sm → moves s (value sm) v' e →
  ∀ p v0, o_semas o !! p = Some v0 →
    0 ≤ v0 + balance (Sema p) (trace k ++ [e]) ∧
    val (valued s sm v' e k) (Sema p) = Some (wrap_u32 (v0 + balance (Sema p) (trace k ++ [e]))).
Proof.
  intros Hk Hs Hm p v0 Hp. destruct (k_sema _ _ _ Hk p v0 Hp) as [Hpos Hv].
  rewrite balance_app, val_valued. destruct (decide (s = Sema p)) as [->|Hne].
  - rewrite fupd_eq. rewrite (val_sema _ _ _ Hs) in Hv. injection Hv as Hv.
    destruct Hm as [[-> ->]|(-> & Hnz & ->)]; cbn; rewrite bool_decide_true by done; rewrite Hv.
    + split; [lia|]. rewrite wrap_succ. do 2 f_equal. lia.
    + rewrite Hv in Hnz. split; [|rewrite wrap_pred; do 2 f_equal; lia].
      assert (v0 + balance (Sema p) (trace k) ≠ 0) by (intros E; rewrite E in Hnz; by apply Hnz). lia.
  - rewrite fupd_ne by done. assert (balance (Sema p) [e] = 0) as ->.
    { destruct Hm as [[-> _]|(-> & _)]; cbn; by rewrite bool_decide_false. }
    by rewrite Z.add_0_r.
Qed.

Lemma conds_moves k g s sm v' e :
  conds_ok o (cws k) (val k) (dom (conds k)) (waits g) → (∀ u, s ≠ OfWaiter u) →
  conds_ok o (cws k) (val (valued s sm v' e k)) (dom (conds k)) (waits g).
Proof.
  intros [H1 H2 H3 H4] Hs. split; try done. intros u. rewrite val_valued, fupd_ne; [apply H3|].
  intros E. by apply (Hs u).
Qed.

(** A semaphore that is not part of a lock. *)
Lemma changes_plain t F s (ok : Z → Prop) f e :
  stable t F → (∀ l, s ≠ OfLock l) → (∀ u, s ≠ OfWaiter u) → (∀ v, ok v → moves s v (f v) e) →
  changes o t F F s ok f e.
Proof.
  intros Hst Hl Hw Hok k g sm Hh Hs Hv. pose proof Hh as [[Hcore Hrun] Hc Hlv He _ HF].
  specialize (Hok _ Hv). exists g. pose proof (c_locks _ _ _ _ _ Hcore) as Hlk. split_and!.
  - split; [|exact Hrun]. apply value_core with g; try done.
    + intros Hn. by apply (i_boot _ _ (c_idle _ _ _ _ _ Hcore)).
    + split.
      * intros l lk Hll. destruct (k_lock _ _ _ Hlk l lk Hll) as [H1 H2].
        rewrite val_valued, fupd_ne by done. split; [done|]. cbn. by erewrite replay_moves.
      * apply (k_dead _ _ _ Hlk).
      * apply (k_locks _ _ _ Hlk).
      * by apply (counts_moves k g).
    + apply conds_moves; [apply (c_conds _ _ _ _ _ Hcore)|done].
  - intros u _. split; [done|]. intros _ _. apply value_rely.
  - eapply Hst; [apply value_rely|done].
  - done.
Qed.

(** ** Ownership *)

Definition own l t g : ghost := Ghost (<[l := t]> (owner g)) (maker g) (idler g) (waits g).
Definition unown l g : ghost := Ghost (delete l (owner g)) (maker g) (idler g) (waits g).

(** What the facts that have nothing to do with locks may depend on. *)
Record xrely t k g k' g' : Prop := {
  x_make e s : maker g !! e = Some (t, s) →
    maker g' !! e = Some (t, s) ∧ threads k' !! e = threads k !! e;
  x_wait : wait_moves (waits g !! t) (waits g' !! t);
  x_popped x : waits g !! x = Some (WPopped t) → waits g' !! x = Some (WPopped t);
  x_idler : idler g' = idler g;
  x_init : initial_thread k' = initial_thread k;
  x_settled : settled g → settled g';
  x_base : base (kernel_pool k') = base (kernel_pool k);
  x_free x : idler g = None → free_page (kernel_pool k) x → free_page (kernel_pool k') x
}.

Definition frame t (X : kernel → ghost → Prop) : Prop :=
  ∀ k g k' g', xrely t k g k' g' → X k g → X k' g'.

Lemma rely_xrely t k g k' g' : rely t k g k' g' → xrely t k g k' g'.
Proof. intros []. by split. Qed.

Record mine t (lv : bool) (P : option lptr) (X : kernel → ghost → Prop) k g : Prop := {
  m_own l : owner g !! l = Some t →
    ∃ lk, locks k !! l = Some lk ∧ holder lk = if decide (P = Some l) then None else Some t;
  m_pend l : P = Some l → owner g !! l = Some t;
  m_idler : idler g ≠ Some t;
  m_settled : settled g;
  m_boot : lv = true → idler g ≠ None;
  m_facts : X k g
}.

Lemma stable_mine t lv P X : frame t X → stable t (mine t lv P X).
Proof.
  intros HX k g k' g' Hr [H1 H2 H3 H4 H5 H6]. split.
  - intros l Hl. apply (r_own _ _ _ _ _ _ Hr) in Hl as Hl'. rewrite (r_lock _ _ _ _ _ _ Hr l Hl'). by apply H1.
  - intros l Hl. by apply (r_own _ _ _ _ _ _ Hr), H2.
  - by rewrite (r_idler _ _ _ _ _ _ Hr).
  - by apply (r_settled _ _ _ _ _ _ Hr).
  - rewrite (r_idler _ _ _ _ _ _ Hr). done.
  - eapply HX; [|done]. by apply rely_xrely.
Qed.

(** [t] owns [l], or does not. *)
Definition owns t lv X l k g : Prop := mine t lv None X k g ∧ owner g !! l = Some t.
Definition lacks t lv X l k g : Prop := mine t lv None X k g ∧ owner g !! l ≠ Some t.

Lemma stable_owns t lv X l : frame t X → stable t (owns t lv X l).
Proof.
  intros HX k g k' g' Hr [? ?]. split; [by eapply stable_mine|]. by apply (r_own _ _ _ _ _ _ Hr).
Qed.

Lemma stable_lacks t lv X l : frame t X → stable t (lacks t lv X l).
Proof.
  intros HX k g k' g' Hr [? ?]. split; [by eapply stable_mine|]. by rewrite <- (r_own _ _ _ _ _ _ Hr).
Qed.

Lemma lock_exists k g l :
  inv k g → l ∈ o_locks o → ∃ lk, locks k !! l = Some lk ∧ lock_ok lk (val k (OfLock l)) (owner g !! l).
Proof.
  intros [Hcore _] Hl. destruct (k_locks _ _ _ (c_locks _ _ _ _ _ Hcore) l Hl) as [lk Hlk]. exists lk.
  split; [done|]. by apply (k_lock _ _ _ (c_locks _ _ _ _ _ Hcore) l).
Qed.

Lemma lock_sema k g l : inv k g → l ∈ o_locks o → is_Some (semas k !! OfLock l).
Proof.
  intros Hi Hl. destruct (lock_exists k g l Hi Hl) as (lk & _ & Hok).
  assert (is_Some (val k (OfLock l))) as [v Hv].
  { unfold lock_ok in Hok. destruct (owner g !! l); destruct Hok as [-> _]; by eexists. }
  unfold val in Hv. apply fmap_Some in Hv as (sm & -> & _). by eexists.
Qed.

(** The semaphore of a lock goes up or down and the lock changes hands. *)
Lemma lock_moves k g g' l sm v' e own' :
  core None None k g → semas k !! OfLock l = Some sm → moves (OfLock l) (value sm) v' e →
  maker g' = maker g → idler g' = idler g → waits g' = waits g →
  (∀ l', l' ≠ l → owner g' !! l' = owner g !! l') → owner g' !! l = own' →
  (∀ lk, locks k !! l = Some lk → lock_ok lk (Some v') own') →
  (∀ u, own' = Some u → alive k u ∧ started g u) →
  (idler g = None → ∀ u, own' = Some u → u = current k) →
  core None None (valued (OfLock l) sm v' e k) g'.
Proof.
  intros Hcore Hs Hm Hmk Hid Hwa Hoth Hown Hok Hal Hb. pose proof (c_locks _ _ _ _ _ Hcore) as Hlk.
  apply value_core with g; try done; [by rewrite Hwa|..].
  - intros Hn l' u Hu. destruct (decide (l' = l)) as [->|Hne]; [apply (Hb Hn); congruence|].
    rewrite Hoth in Hu by done. by apply (i_boot _ _ (c_idle _ _ _ _ _ Hcore) Hn) in Hu.
  - split.
    + intros l' lk Hll. destruct (k_lock _ _ _ Hlk l' lk Hll) as [H1 H2]. rewrite val_valued. split.
      * destruct (decide (l' = l)) as [->|Hne]; [rewrite fupd_eq, Hown; by apply Hok|].
        rewrite fupd_ne by congruence. by rewrite Hoth.
      * cbn. by erewrite replay_moves.
    + intros l' u Hu. unfold started. rewrite Hmk. destruct (decide (l' = l)) as [->|Hne].
      * left. apply Hal. congruence.
      * rewrite Hoth in Hu by done. by apply (k_dead _ _ _ Hlk) in Hu.
    + apply (k_locks _ _ _ Hlk).
    + by apply (counts_moves k g).
  - rewrite Hwa. by apply conds_moves; [apply (c_conds _ _ _ _ _ Hcore)|].
Qed.

Lemma guar_owner t k g g' k' l :
  maker g' = maker g → idler g' = idler g → waits g' = waits g → (∀ l', l' ≠ l → owner g' !! l' = owner g !! l') →
  (∀ u, u ≠ t → owner g !! l ≠ Some u ∧ owner g' !! l ≠ Some u) →
  (∀ u, rely u k g k' g) → (∀ u, alive k' u → alive k u) → guar t k g k' g'.
Proof.
  intros Hmk Hid Hwa Hoth Hl Hr Ha u Hu. unfold started. rewrite Hmk. split; [auto|]. intros _ _.
  destruct (Hr u) as [R1 R2 R3 R4 R5 R6 R7 R8 R9 R10 R11 R12 R13 R14]. split; try done; rewrite ?Hwa; try done.
  - intros l'. destruct (decide (l' = l)) as [->|Hne]; [|by rewrite Hoth].
    destruct (Hl u Hu). split; congruence.
  - rewrite Hmk. done.
  - unfold settled. by rewrite Hmk, Hid.
Qed.

Lemma changes_release t lv X l :
  frame t X → l ∈ o_locks o →
  changes o t (mine t lv (Some l) X) (mine t lv None X) (OfLock l) (λ _, True) (λ v, wrap_u32 (v + 1)) (Upped (OfLock l)).
Proof.
  intros HX Hl k g sm Hh Hs _. pose proof Hh as [Hi Hc Hlv He _ HF]. pose proof Hi as [Hcore Hrun].
  destruct (lock_exists k g l Hi Hl) as (lk & Hlk & Hok).
  pose proof (m_pend _ _ _ _ _ _ HF l eq_refl) as Hown.
  destruct (m_own _ _ _ _ _ _ HF l Hown) as (lk' & Hlk' & Hh'). rewrite Hlk in Hlk'. injection Hlk' as <-.
  rewrite decide_True in Hh' by done.
  unfold lock_ok in Hok. rewrite Hown, (val_sema _ _ _ Hs) in Hok. destruct Hok as [[= Hv] _]. rewrite Hv.
  assert (∀ l', l' ≠ l → owner (unown l g) !! l' = owner g !! l') as Hoth by (intros; by apply lookup_delete_ne).
  assert (∀ u, rely u k g (valued (OfLock l) sm 1 (Upped (OfLock l)) k) g) as Hrel by (intros u; apply value_rely).
  exists (unown l g). split_and!; [|apply (guar_owner t k g _ _ l); try done|..].
  - split; [|exact Hrun]. eapply lock_moves with (own' := None); try done.
    + left. by rewrite Hv.
    + apply lookup_delete_eq.
    + intros lk2 Hlk2. cbn. split; [done|]. congruence.
  - intros u Hu. rewrite Hown. cbn. rewrite lookup_delete_eq. split; congruence.
  - destruct HF as [H1 H2 H3 H4 H5 H6]. split; try done.
    + intros l'. cbn. rewrite lookup_delete_Some. intros [Hne Hl']. destruct (H1 l' Hl') as (lk2 & ? & Hlk2).
      exists lk2. split; [done|]. rewrite decide_False in Hlk2 by congruence. by rewrite decide_False.
    + eapply HX; [|exact H6]. destruct (Hrel t). by split.
  - done.
Qed.

Lemma changes_acquire t lv X l :
  frame t X → l ∈ o_locks o → ∀ ok, (∀ v, ok v → v ≠ 0) →
  changes o t (lacks t lv X l) (mine t lv (Some l) X) (OfLock l) ok (λ v, wrap_u32 (v - 1)) (Downed (OfLock l)).
Proof.
  intros HX Hl ok Hok0 k g sm Hh Hs Hnz. pose proof Hh as [Hi Hc Hlv He _ [HF Hlack]]. pose proof Hi as [Hcore Hrun].
  apply Hok0 in Hnz. destruct (lock_exists k g l Hi Hl) as (lk & Hlk & Hok).
  unfold lock_ok in Hok. rewrite (val_sema _ _ _ Hs) in Hok.
  destruct (owner g !! l) as [u|] eqn:Hown; [destruct Hok as [[= Hv] _]; congruence|].
  destruct Hok as [[= Hv] Hfree]. rewrite Hv.
  assert (∀ l', l' ≠ l → owner (own l t g) !! l' = owner g !! l') as Hoth by (intros; by apply lookup_insert_ne).
  assert (∀ u, rely u k g (valued (OfLock l) sm 0 (Downed (OfLock l)) k) g) as Hrel by (intros u; apply value_rely).
  assert (alive k t) as Hal by (rewrite <- Hc; by exists THREAD_RUNNING).
  assert (started g t) as Hsd.
  { unfold started. rewrite Hc in Hrun. assert (maker g !! t = None) as -> by by apply (core_unmade _ _ _ _ _ _ _ Hcore Hrun).
    done. }
  exists (own l t g). split_and!; [|apply (guar_owner t k g _ _ l); try done|..].
  - split; [|exact Hrun]. eapply lock_moves with (own' := Some t); try done.
    + right. by rewrite Hv.
    + apply lookup_insert_eq.
    + intros lk2 Hlk2. cbn. split; [done|]. left. congruence.
    + intros u [= <-]. done.
    + intros _ u [= <-]. done.
  - intros u Hu. rewrite Hown. cbn. rewrite lookup_insert_eq. split; congruence.
  - destruct HF as [H1 H2 H3 H4 H5 H6]. split; try done.
    + intros l'. cbn. destruct (decide (l' = l)) as [->|Hne].
      * intros _. exists lk. by rewrite decide_True.
      * rewrite lookup_insert_ne by done. intros Hl'. destruct (H1 l' Hl') as (lk2 & ? & Hlk2).
        exists lk2. split; [done|]. rewrite decide_False in Hlk2 by done. by rewrite decide_False by congruence.
    + intros l' [= <-]. apply lookup_insert_eq.
    + eapply HX; [|exact H6]. destruct (Hrel t). by split.
  - done.
Qed.

(** ** The holder *)

Definition held l h e k : kernel := upd_trace (λ tr, tr ++ [e]) (upd_locks (<[l := Lock h]>) k).

Lemma set_holder_run l h e k :
  is_Some (locks k !! l) →
  (k ← get; check (bool_decide (is_Some (locks k !! l)));;
   modify (upd_locks (<[l := Lock h]>));; modify (upd_trace (λ tr, tr ++ [e]))) k = Done (tt, held l h e k).
Proof. intros H. unfold mbind, M_bind. cbn [get]. by rewrite bool_decide_true. Qed.

(** The owner sets or clears the holder. *)
Lemma holder_inv t k g l lk h e :
  inv k g → locks k !! l = Some lk → owner g !! l = Some t → current k = t →
  h = Some t ∧ e = Acquired t l ∧ holder lk = None ∨ h = None ∧ e = Released t l ∧ holder lk = Some t →
  inv (held l h e k) g ∧ guar t k g (held l h e k) g ∧ xrely t k g (held l h e k) g.
Proof.
  intros [Hcore Hrun] Hlk Hown Hc Hh. pose proof Hcore as [Hq Hl Hp Hks Hcd Hi].
  assert (alive k t) as Hal by (rewrite <- Hc; by exists THREAD_RUNNING).
  assert (started g t) as Hsd.
  { unfold started. rewrite Hc in Hrun. assert (maker g !! t = None) as -> by by apply (core_unmade _ _ _ _ _ _ _ Hcore Hrun).
    done. }
  assert (∀ l', l' ≠ l → replay l' None (trace k ++ [e]) = replay l' None (trace k)) as Hrep.
  { intros l' Hne. rewrite replay_app. destruct (replay l' None (trace k)) as [h'|]; [|done]. cbn.
    destruct Hh as [(_ & -> & _)|(_ & -> & _)]; cbn; by rewrite bool_decide_false. }
  assert (∀ p, balance (Sema p) (trace k ++ [e]) = balance (Sema p) (trace k)) as Hbal.
  { intros p. rewrite balance_app. destruct Hh as [(_ & -> & _)|(_ & -> & _)]; cbn; lia. }
  split_and!; [|intros u Hu; split; [done|]; intros _ _; split; try done; try constructor|calm].
  - split; [|done]. split; [done|by apply (life_frame _ _ k)|done| |done|by apply (idle_frame _ k)].
    destruct Hks as [H1 H2 H3 H4]. split.
    + intros l' lk'. cbn. rewrite lookup_insert_Some. intros [[<- <-]|[Hne Hl']].
      * destruct (H1 l lk Hlk) as [Hok Hr]. unfold lock_ok in *. rewrite Hown in *. destruct Hok as [Hv _].
        change (val (held l h e k)) with (val k). cbn. rewrite replay_app, Hr. cbn.
        destruct Hh as [(-> & -> & Hfree)|(-> & -> & Hheld)]; cbn; rewrite bool_decide_true by done.
        -- rewrite bool_decide_true by done. auto.
        -- rewrite bool_decide_true by done. auto.
      * rewrite Hrep by done. by apply H1.
    + intros l' u Hu. cbn. destruct (decide (l' = l)) as [->|Hne].
      * assert (u = t) as -> by congruence. by left.
      * rewrite lookup_insert_ne by done. by apply H2.
    + intros l' Hl'. cbn. destruct (decide (l' = l)) as [->|Hne]; [rewrite lookup_insert_eq; by eexists|].
      rewrite lookup_insert_ne by done. by apply H3.
    + intros p v0 Hp'. cbn. rewrite Hbal. by apply H4.
  - intros l' Hl'. cbn. rewrite lookup_insert_ne; [done|]. congruence.
Qed.

(** ** Functions *)

Lemma safe_lock_held n t lv ext X l k g (Q : bool → kernel → ghost → Prop) :
  here t lv ext (mine t lv None X) k g → frame t X → l ∈ o_locks o →
  (∀ k' g', here t lv ext (owns t lv X l) k' g' → Q true k' g') →
  (∀ k' g', here t lv ext (lacks t lv X l) k' g' → Q false k' g') →
  safe n t (lock_held_by_current_thread l) k g Q.
Proof.
  intros Hh HX Hl HQ1 HQ2. unfold lock_held_by_current_thread. pose proof Hh as [Hi Hc Hlv He Hm HF].
  destruct (lock_exists k g l Hi Hl) as (lk & Hlk & Hok).
  assert ((k ← get; assume_some (locks k !! l)) k = Done (lk, k)) as Hread
    by (unfold mbind, M_bind; cbn; by rewrite Hlk).
  destruct (decide (holder lk = Some t)) as [Hheld|Hnot].
  - assert (owner g !! l = Some t) as Hown.
    { unfold lock_ok in Hok. destruct (owner g !! l); [destruct Hok as [_ [?|?]]|destruct Hok]; congruence. }
    assert (here t lv ext (owns t lv X l) k g) as Hh' by by split.
    apply safe_bind. eapply safe_read; [exact Hh'|by apply stable_owns|exact Hread|]. intros k1 g1 H1.
    apply safe_bind. eapply safe_thread_current; [exact H1|by apply stable_owns|]. intros k2 g2 H2.
    apply safe_ret. rewrite bool_decide_true by done. by apply HQ1.
  - assert (owner g !! l ≠ Some t) as Hown.
    { intros Ho. destruct (m_own _ _ _ _ _ _ HF l Ho) as (lk' & Hlk' & Hh'). rewrite decide_False in Hh' by done.
      congruence. }
    assert (here t lv ext (lacks t lv X l) k g) as Hh' by by split.
    apply safe_bind. eapply safe_read; [exact Hh'|by apply stable_lacks|exact Hread|]. intros k1 g1 H1.
    apply safe_bind. eapply safe_thread_current; [exact H1|by apply stable_lacks|]. intros k2 g2 H2.
    apply safe_ret. rewrite bool_decide_false by done. by apply HQ2.
Qed.

Lemma may_wait_lock t lv X l : l ∈ o_locks o → may_wait o t (OfLock l) (lacks t lv X l).
Proof.
  intros Hl k g Hi Hc [HF Hlack]. split_and!.
  - by eapply lock_sema.
  - apply (m_idler _ _ _ _ _ _ HF).
  - apply (m_settled _ _ _ _ _ _ HF).
  - intros Hv Hn. destruct (lock_exists k g l Hi Hl) as (lk & Hlk & Hok).
    unfold lock_ok in Hok. rewrite Hv in Hok. destruct (owner g !! l) as [u|] eqn:Ho; [|by destruct Hok].
    destruct (i_boot _ _ (c_idle _ _ _ _ _ (inv_core _ _ _ Hi)) Hn) as (_ & _ & _ & Hu).
    apply Hu in Ho as ->. congruence.
Qed.

(** The end of an acquisition. *)
Lemma safe_set_holder n t lv ext X l k g Q :
  here t lv ext (mine t lv (Some l) X) k g → frame t X →
  (∀ k' g', here t lv ext (owns t lv X l) k' g' → Q tt k' g') →
  safe n t (t ← thread_current; set_holder l (Some t) (Acquired t l)) k g Q.
Proof.
  intros Hh HX HQ. apply safe_bind. eapply safe_thread_current; [done|by apply stable_mine|].
  intros k1 g1 [Hi Hc Hlv He Hm HF].
  pose proof (m_pend _ _ _ _ _ _ HF l eq_refl) as Hown.
  destruct (m_own _ _ _ _ _ _ HF l Hown) as (lk & Hlk & Hnone). rewrite decide_True in Hnone by done.
  destruct (holder_inv t k1 g1 l lk (Some t) (Acquired t l)) as (Hi' & Hg & Hx); [done|done|done|done|by left|].
  eapply safe_do; [by apply set_holder_run; rewrite Hlk|exact Hg|done|].
  eapply here_after; [|apply (stable_owns t lv X l HX)|exact HQ]. split; try done. split; [|done].
  destruct HF as [H1 H2 H3 H4 H5 H6]. split; try done.
  - intros l' Hl'. cbn. rewrite (decide_False (P := None = Some l')) by done. destruct (decide (l' = l)) as [->|Hne].
    + rewrite lookup_insert_eq. by eexists.
    + rewrite lookup_insert_ne by done. destruct (H1 l' Hl') as (lk' & ? & Hlk').
      exists lk'. split; [done|]. by rewrite decide_False in Hlk' by congruence.
  - by eapply HX.
Qed.

Lemma safe_lock_acquire n t lv X l k g Q :
  here t lv false (mine t lv None X) k g → frame t X → l ∈ o_locks o →
  (∀ k' g', here t lv false (owns t lv X l) k' g' → Q tt k' g') →
  safe n t (lock_acquire l) k g Q.
Proof.
  intros Hh HX Hl HQ. unfold lock_acquire.
  apply safe_bind. eapply safe_intr_context; [done|by apply stable_mine|]. intros k1 g1 H1.
  apply safe_bind, safe_assert; [done|].
  apply safe_bind. eapply safe_lock_held; [done|done|done|..]; intros k2 g2 H2.
  { apply safe_bind, safe_assert_blame; [by left|done]. }
  apply safe_bind, safe_assert; [done|]. apply safe_bind.
  eapply (safe_sema_down o _ _ _ (lacks t lv X l) (mine t lv (Some l) X)).
  - done.
  - by apply stable_lacks.
  - by apply stable_mine.
  - by apply may_wait_lock.
  - intros -> k3 g3 [HF _]. by apply (m_boot _ _ _ _ _ _ HF).
  - by apply changes_acquire.
  - intros k3 g3 H3. by eapply safe_set_holder.
Qed.

Lemma safe_lock_try_acquire n t lv ext X l k g (Q : bool → kernel → ghost → Prop) :
  here t lv ext (mine t lv None X) k g → frame t X → l ∈ o_locks o →
  (∀ b k' g', here t lv ext (mine t lv None X) k' g' → Q b k' g') →
  safe n t (lock_try_acquire l) k g Q.
Proof.
  intros Hh HX Hl HQ. unfold lock_try_acquire.
  apply safe_bind. eapply safe_lock_held; [done|done|done|..]; intros k2 g2 H2.
  { apply safe_bind, safe_assert_blame; [by left|done]. }
  apply safe_bind, safe_assert; [done|]. apply safe_bind.
  eapply (safe_sema_try_down o _ _ _ _ (lacks t lv X l) (mine t lv (Some l) X)).
  - done.
  - by apply stable_lacks.
  - by apply stable_mine.
  - intros k3 g3 Hi3 _. by eapply lock_sema.
  - intros -> k3 g3 [HF _]. by apply (m_boot _ _ _ _ _ _ HF).
  - apply changes_acquire; [done|done|]. intros v Hv. lia.
  - intros k3 g3 H3. apply safe_bind. cbn [pwhen]. eapply safe_set_holder; [done|done|].
    intros k4 g4 [? ? ? ? ? [HF _]]. by apply safe_ret, HQ.
  - intros k3 g3 [? ? ? ? ? [HF _]]. apply safe_bind, safe_ret, safe_ret. by apply HQ.
Qed.

Lemma safe_lock_release n t lv ext X l k g Q :
  here t lv ext (mine t lv None X) k g → frame t X → l ∈ o_locks o →
  (∀ k' g', here t lv ext (mine t lv None X) k' g' → Q tt k' g') →
  safe n t (lock_release l) k g Q.
Proof.
  intros Hh HX Hl HQ. unfold lock_release.
  apply safe_bind. eapply safe_lock_held; [done|done|done|..]; intros k2 g2 H2.
  2: { apply safe_bind, safe_assert_blame; [by right; left|done]. }
  apply safe_bind, safe_assert; [done|].
  apply safe_bind. eapply safe_read; [exact H2|by apply stable_owns|done|].
  intros k1 g1 [Hi Hc Hlv He Hm [HF Hown]]. rewrite (h_current _ _ _ _ _ _ _ H2).
  destruct (m_own _ _ _ _ _ _ HF l Hown) as (lk & Hlk & Hheld). rewrite decide_False in Hheld by done.
  destruct (holder_inv t k1 g1 l lk None (Released t l)) as (Hi' & Hg & Hx); [done|done|done|done|by right|].
  apply safe_bind. eapply safe_do; [by apply set_holder_run; rewrite Hlk|exact Hg|done|].
  eapply here_after; [|apply (stable_mine t lv (Some l) X HX)|].
  - split; try done. destruct HF as [H1' H2' H3' H4' H5' H6']. split; try done.
    + intros l' Hl'. cbn. destruct (decide (l' = l)) as [->|Hne].
      * rewrite lookup_insert_eq, decide_True by done. by eexists.
      * rewrite lookup_insert_ne, decide_False by congruence. destruct (H1' l' Hl') as (lk' & ? & Hlk').
        exists lk'. split; [done|]. by rewrite decide_False in Hlk'.
    + by intros l' [= <-].
    + by eapply HX.
  - intros k3 g3 H3.
    eapply (safe_sema_up o _ _ _ _ (mine t lv (Some l) X) (mine t lv None X)).
    + done.
    + by apply stable_mine.
    + by apply stable_mine.
    + intros k4 g4 Hi4 _. by eapply lock_sema.
    + intros -> k4 g4 HF4. by apply (m_boot _ _ _ _ _ _ HF4).
    + by apply changes_release.
    + done.
Qed.

End locks.
