(* ===== verification/KernelConds.v ===== *)
(** * Pintos: condition variables and the client's semaphores

    The life of a [struct semaphore_elem]: initialized, queued, taken off the list by
    a thread that signals, raised, lowered, gone.  The list of a condition variable
    is left alone by all threads but the owner of its lock, which is why
    [cond_signal] may test and pop it in two steps. *)

From stdpp Require Import base tactics list gmap.
From Stdlib Require Import ZArith Lia.
From S2P Require Import Prelude Bitmap BitmapProps Kernel Sched Synch Threads KernelInv KernelLogic KernelTrans KernelSched KernelSynch KernelLocks.

Local Open Scope Z_scope.

Section conds.
Context (o : objects).
Local Abbreviation rely := (rely o).
Local Abbreviation guar := (guar o).
Local Abbreviation core := (core o).
Local Abbreviation inv := (inv o).
Local Abbreviation safe := (safe o).
Local Abbreviation stable := (stable o).
Local Abbreviation here := (here o).
Local Abbreviation owns := (owns).
Implicit Types (k : kernel) (g : ghost) (t u : tptr).

Definition with_wait t w g : ghost := Ghost (owner g) (maker g) (idler g) (<[t := w]> (waits g)).
Definition no_wait t g : ghost := Ghost (owner g) (maker g) (idler g) (delete t (waits g)).

(** Ghost states that differ in [waits] only. *)
Lemma life_waits dy k g g' :
  maker g' = maker g → (∀ u, is_Some (waits g' !! u) → alive k u ∧ started g u) →
  life_ok dy k g → life_ok dy k g'.
Proof.
  intros Hm Hw [H1 H2 H3 H4 H5 H6 H7]. split; try done.
  - intros u. unfold unlisted. rewrite Hm. apply H5.
  - intros e u s. rewrite Hm. apply H6.
  - intros u Hu. unfold started. rewrite Hm. by apply Hw.
Qed.

Lemma idle_waits k g g' :
  maker g' = maker g → idler g' = idler g → owner g' = owner g → idle_ok k g → idle_ok k g'.
Proof.
  intros Hm Hid Ho [H1 H2 H3]. split.
  - rewrite Hid. apply H1.
  - rewrite Hid, Hm. apply H2.
  - rewrite Hid, Ho. unfold started. rewrite Hm. apply H3.
Qed.

Lemma locks_waits k g g' :
  maker g' = maker g → owner g' = owner g → locks_ok o k g → locks_ok o k g'.
Proof.
  intros Hm Ho [H1 H2 H3 H4]. split; try done; rewrite Ho; [done|].
  unfold started. rewrite Hm. apply H2.
Qed.

Lemma waits_core k g g' k' :
  core None None k g → maker g' = maker g → idler g' = idler g → owner g' = owner g →
  (∀ u, is_Some (waits g' !! u) → is_Some (waits g !! u) ∨ u = current k ∧ stat k u = Some THREAD_RUNNING) →
  threads k' = threads k → current k' = current k → initial_thread k' = initial_thread k →
  all_list k' = all_list k → ready_list k' = ready_list k → idle_thread k' = idle_thread k →
  intr_level k' = intr_level k → kernel_pool k' = kernel_pool k →
  (∀ s, wts k' s = wts k s ∨ wts k' s = []) → locks_ok o k' g →
  conds_ok o (cws k') (val k') (dom (conds k')) (waits g') →
  core None None k' g'.
Proof.
  intros Hcore Hm Hid Ho Hw E1 E2 E3 E4 E5 E6 E7 E8 Hwt Hlk Hcd. pose proof Hcore as [Hq Hl Hp _ _ Hi].
  assert (∀ u, stat k' u = stat k u) as Hst by (intros u; unfold stat; by rewrite E1).
  assert (∀ s u, u ∈ wts k' s → u ∈ wts k s) as Hsub.
  { intros s u. destruct (Hwt s) as [->| ->]; [done|]. by intros ?%not_elem_of_nil. }
  split.
  - destruct Hq as [Q1 Q2 Q3 Q4 Q5 Q6]. rewrite Hm, Hid, E5, E6. split; try done.
    + intros u. rewrite Hst. apply Q2.
    + intros u. rewrite Hst. apply Q3.
    + intros s. destruct (Hwt s) as [->| ->]; [done|constructor].
    + intros s u Hu%Hsub. rewrite Hst. eauto.
    + intros s s' u Hu%Hsub Hu'%Hsub. eauto.
  - apply (life_frame _ _ k); [done..|]. apply (life_waits _ _ g); [done| |done].
    intros u Hu. destruct (Hw u Hu) as [?|[-> Hrun]]; [by apply (f_waiter _ _ _ Hl)|].
    split; [by exists THREAD_RUNNING|]. unfold started.
    assert (maker g !! current k = None) as -> by by apply (core_unmade _ _ _ _ _ _ _ Hcore Hrun).
    done.
  - rewrite E1, E3, E8, Hm. done.
  - by apply (locks_waits _ g).
  - done.
  - apply (idle_waits _ g); [done..|]. apply (idle_frame _ k); try done.
    + intros u. unfold alive. by rewrite Hst. + by rewrite E5.
Qed.

(** ** The facts of a waiting thread *)

Definition wfact t (W : option wait_state → Prop) k g : Prop := W (waits g !! t) ∧ idler g ≠ None.

Lemma frame_wfact t W : (∀ w w', wait_moves w w' → W w → W w') → frame t (wfact t W).
Proof.
  intros HW k g k' g' Hx [Hw Hi]. split; [|by rewrite (x_idler _ _ _ _ _ Hx)].
  eapply HW; [apply (x_wait _ _ _ _ _ Hx)|done].
Qed.

Definition w_none (w : option wait_state) : Prop := w = None.
Definition w_fresh (w : option wait_state) : Prop := w = Some WFresh.
Definition w_sent (w : option wait_state) : Prop :=
  (∃ c, w = Some (WQueued c)) ∨ (∃ t, w = Some (WPopped t)) ∨ w = Some WUpped.
Definition w_done (w : option wait_state) : Prop := w = Some WDone.

Lemma frame_none t : frame t (wfact t w_none).
Proof. apply frame_wfact. intros w w' Hm ->. by inversion Hm. Qed.
Lemma frame_fresh t : frame t (wfact t w_fresh).
Proof. apply frame_wfact. intros w w' Hm ->. by inversion Hm. Qed.
Lemma frame_done t : frame t (wfact t w_done).
Proof. apply frame_wfact. intros w w' Hm ->. by inversion Hm. Qed.
Lemma frame_sent t : frame t (wfact t w_sent).
Proof.
  apply frame_wfact. intros w w' Hm [[c ->]|[[x ->]| ->]]; inversion Hm; subst; unfold w_sent; eauto.
Qed.

(** A thread of a client. *)
Definition client t lv : kernel → ghost → Prop := mine t lv None (wfact t w_none).

Lemma client_local t lv k g : client t lv k g → local t k g ∧ idler g ≠ None.
Proof.
  intros [H1 H2 H3 H4 H5 [H6 H7]]. split; [|done]. split; done.
Qed.

Lemma stable_client t lv : stable t (client t lv).
Proof. apply stable_mine, frame_none. Qed.

(** A thread moves on to another fact about itself. *)
Lemma mine_wait t lv P W W' k g k' g' :
  mine t lv P (wfact t W) k g → owner g' = owner g → locks k' = locks k → idler g' = idler g →
  maker g' = maker g → W' (waits g' !! t) → mine t lv P (wfact t W') k' g'.
Proof.
  intros [H1 H2 H3 H4 H5 [H6 H7]] Ho Hl Hi Hm HW. split; rewrite ?Ho, ?Hl, ?Hi; try done.
  - unfold settled. by rewrite Hm, Hi.
  - split; [done|]. by rewrite Hi.
Qed.

(** ** Semaphores of the client *)

Lemma client_sema k g p v0 : inv k g → o_semas o !! p = Some v0 → is_Some (semas k !! Sema p).
Proof.
  intros [Hcore _] Hp. destruct (k_sema _ _ _ (c_locks _ _ _ _ _ Hcore) p v0 Hp) as [_ Hv].
  unfold val in Hv. apply fmap_Some in Hv as (sm & -> & _). by eexists.
Qed.

Lemma safe_client_up n t lv ext F p k g Q :
  here t lv ext F k g → stable t F → is_Some (o_semas o !! p) → (lv = true → ∀ k g, F k g → idler g ≠ None) →
  (∀ k' g', here t lv ext F k' g' → Q tt k' g') →
  safe n t (sema_up (Sema p)) k g Q.
Proof.
  intros Hh Hst [v0 Hp] Hb HQ. eapply (safe_sema_up o _ _ _ _ F F); try done.
  - intros k1 g1 Hi _. by eapply client_sema.
  - apply changes_plain; try done. intros v _. by left.
Qed.

Lemma safe_client_down n t lv p k g Q :
  here t lv false (client t lv) k g → is_Some (o_semas o !! p) →
  (∀ k' g', here t lv false (client t lv) k' g' → Q tt k' g') →
  safe n t (sema_down (Sema p)) k g Q.
Proof.
  intros Hh [v0 Hp] HQ. eapply (safe_sema_down o _ _ _ (client t lv) (client t lv)); try done.
  - apply stable_client. - apply stable_client.
  - intros k1 g1 Hi Hc HF. split_and!.
    + by eapply client_sema.
    + apply (m_idler _ _ _ _ _ _ HF).
    + apply (m_settled _ _ _ _ _ _ HF).
    + intros _. apply (m_facts _ _ _ _ _ _ HF).
  - intros _ k1 g1 HF. apply (m_facts _ _ _ _ _ _ HF).
  - apply changes_plain; try done; [apply stable_client|]. intros v Hv. by right.
Qed.

Lemma safe_client_try n t lv ext p k g (Q : bool → kernel → ghost → Prop) :
  here t lv ext (client t lv) k g → is_Some (o_semas o !! p) →
  (∀ b k' g', here t lv ext (client t lv) k' g' → Q b k' g') →
  safe n t (sema_try_down (Sema p)) k g Q.
Proof.
  intros Hh [v0 Hp] HQ. eapply (safe_sema_try_down o _ _ _ _ (client t lv) (client t lv)); try done.
  - apply stable_client. - apply stable_client.
  - intros k1 g1 Hi _. by eapply client_sema.
  - intros _ k1 g1 HF. apply (m_facts _ _ _ _ _ _ HF).
  - apply changes_plain; try done; [apply stable_client|]. intros v Hv. right. split_and!; [done|lia|done].
  - intros. by apply HQ. - intros. by apply HQ.
Qed.

(** ** Waiting *)

Lemma rely_waits u k g k' g' :
  owner g' = owner g → maker g' = maker g → idler g' = idler g → locks k' = locks k → threads k' = threads k →
  next_tid k' = next_tid k → initial_thread k' = initial_thread k → kernel_pool k' = kernel_pool k →
  idle_thread k' = idle_thread k →
  (∀ c l, o_conds o !! c = Some l → owner g !! l = Some u → conds k' !! c = conds k !! c) →
  wait_moves (waits g !! u) (waits g' !! u) →
  (∀ x, waits g !! x = Some (WPopped u) → waits g' !! x = Some (WPopped u)) → rely u k g k' g'.
Proof.
  intros Ho Hm Hi Hl Ht Hn Hini Hpl Hid Hc Hw Hp. split; rewrite ?Ho, ?Hm, ?Hi, ?Hl, ?Ht, ?Hn, ?Hini, ?Hpl, ?Hid; try done.
  - unfold alive, stat. by rewrite Ht.
  - unfold settled. by rewrite Hm, Hi.
Qed.

Lemma guar_waits t k g k' g' :
  threads k' = threads k → maker g' = maker g → (∀ u, u ≠ t → rely u k g k' g') → guar t k g k' g'.
Proof.
  intros Ht Hm Hr u Hu. split; [|intros _ _; by apply Hr]. unfold alive, stat, started. by rewrite Ht, Hm.
Qed.

Lemma queued_elem k g c u cd :
  inv k g → conds k !! c = Some cd → u ∈ cond_waiters cd ↔ waits g !! u = Some (WQueued c).
Proof.
  intros [Hcore _] Hc. rewrite <- (d_queued _ _ _ _ _ (c_conds _ _ _ _ _ Hcore)). unfold cws. by rewrite Hc.
Qed.

(** [sema_init(&waiter.semaphore, 0)] *)
Lemma safe_waiter_init n t lv l k g Q :
  here t lv false (owns t lv (wfact t w_none) l) k g →
  (∀ k' g', here t lv false (owns t lv (wfact t w_fresh) l) k' g' → Q tt k' g') →
  safe n t (sema_init (OfWaiter t) 0) k g Q.
Proof.
  intros Hh HQ. pose proof Hh as [Hi Hc Hl He Hm [HF Hown]]. pose proof Hi as [Hcore Hrun].
  pose proof (m_facts _ _ _ _ _ _ HF) as [Hw Hidr]. unfold w_none in Hw.
  set (k1 := upd_semas (<[OfWaiter t := Semaphore 0 []]>) k).
  pose proof (c_conds _ _ _ _ _ Hcore) as [D1 D2 D3 D4].
  assert (∀ s, val k1 s = fupd (val k) (OfWaiter t) (Some 0) s) as Hv by (intros s; apply val_insert).
  eapply (safe_do _ _ _ _ _ _ _ k1 (with_wait t WFresh g)); [done| |done|].
  - apply guar_waits; [done|done|]. intros u Hu. apply rely_waits; try done; cbn.
    + rewrite lookup_insert_ne by done. constructor.
    + intros x Hx. rewrite lookup_insert_ne; [done|]. congruence.
  - eapply here_after; [|exact (stable_owns o t lv _ l (frame_fresh t))|exact HQ]. split; try done.
    + split; [|done]. eapply waits_core; [exact Hcore|..]; try done.
      * intros u. cbn. destruct (decide (u = t)) as [->|Hne]; [intros _; right; by rewrite <- Hc|].
        rewrite lookup_insert_ne by done. auto.
      * intros s. unfold k1. rewrite wts_insert. unfold fupd. case_decide; [by right|by left].
      * destruct (c_locks _ _ _ _ _ Hcore) as [L1 L2 L3 L4]. split; try done.
        -- intros l' lk'. rewrite Hv, fupd_ne by done. apply L1.
        -- intros p v0. rewrite Hv, fupd_ne by done. apply L4.
      * split; try done.
        -- intros c u. change (cws k1 c) with (cws k c). cbn. rewrite D2. destruct (decide (u = t)) as [->|Hne].
           ++ rewrite lookup_insert_eq, Hw. done.
           ++ by rewrite lookup_insert_ne.
        -- intros u. rewrite Hv. cbn. destruct (decide (u = t)) as [->|Hne].
           ++ by rewrite fupd_eq, lookup_insert_eq.
           ++ rewrite fupd_ne, lookup_insert_ne by congruence. apply D3.
    + split; [|done]. eapply mine_wait; [exact HF|done..|]. cbn. by rewrite lookup_insert_eq.
Qed.

(** [list_push_back(&cond->waiters, &waiter.elem)] *)
Lemma safe_push_cond n t lv c l k g Q :
  here t lv false (owns t lv (wfact t w_fresh) l) k g → o_conds o !! c = Some l →
  (∀ k' g', here t lv false (mine t lv None (wfact t w_sent)) k' g' → Q tt k' g') →
  safe n t (push_cond c t) k g Q.
Proof.
  intros Hh Hcl HQ. pose proof Hh as [Hi Hc Hl He Hm [HF Hown]]. pose proof Hi as [Hcore Hrun].
  pose proof (m_facts _ _ _ _ _ _ HF) as [Hw Hidr]. unfold w_fresh in Hw.
  pose proof (c_conds _ _ _ _ _ Hcore) as [D1 D2 D3 D4].
  assert (is_Some (conds k !! c)) as [cd Hcd].
  { apply elem_of_dom, D4, elem_of_dom. by eexists. }
  assert (t ∉ cond_waiters cd) as Hnot by (rewrite (queued_elem k g c t cd Hi Hcd), Hw; done).
  set (k1 := upd_conds (<[c := Condition (cond_waiters cd ++ [t])]>) k).
  assert (∀ x, cws k1 x = fupd (cws k) c (cond_waiters cd ++ [t]) x) as Hcw by (intros x; apply cws_insert).
  assert (cws k c = cond_waiters cd) as Hcwc by (unfold cws; by rewrite Hcd).
  eapply (safe_do _ _ _ _ _ _ _ k1 (with_wait t (WQueued c) g)); [| |done|].
  - unfold mbind, M_bind. cbn [get]. rewrite Hcd. cbn. by rewrite bool_decide_true.
  - apply guar_waits; [done|done|]. intros u Hu. apply rely_waits; try done; cbn.
    + intros c' l' Hc' Ho. rewrite lookup_insert_ne; [done|]. intros <-. congruence.
    + rewrite lookup_insert_ne by done. constructor.
    + intros x Hx. rewrite lookup_insert_ne; [done|]. congruence.
  - eapply here_after; [|apply stable_mine, frame_sent|exact HQ]. split; try done.
    + split; [|done]. eapply waits_core; [exact Hcore|..]; try done.
      * intros u. cbn. destruct (decide (u = t)) as [->|Hne]; [intros _; left; by rewrite Hw|].
        rewrite lookup_insert_ne by done. auto.
      * by left.
      * destruct (c_locks _ _ _ _ _ Hcore) as [L1 L2 L3 L4]. by split.
      * split.
        -- intros x. rewrite Hcw. unfold fupd. case_decide; [|done]. apply NoDup_app.
           split_and!; [rewrite <- Hcwc; done| |apply NoDup_singleton]. by intros y Hy ->%list_elem_of_singleton.
        -- intros x u. rewrite Hcw. cbn. destruct (decide (u = t)) as [->|Hne].
           ++ rewrite lookup_insert_eq. unfold fupd. case_decide as Hd; [subst x|].
              ** rewrite elem_of_app, list_elem_of_singleton. naive_solver.
              ** rewrite D2, Hw. naive_solver.
           ++ rewrite lookup_insert_ne by done. rewrite <- D2. unfold fupd. case_decide as Hd; [subst x|done].
              rewrite elem_of_app, list_elem_of_singleton, Hcwc. naive_solver.
        -- intros u. cbn. change (val k1) with (val k). rewrite D3. destruct (decide (u = t)) as [->|Hne].
           ++ by rewrite lookup_insert_eq, Hw.
           ++ by rewrite lookup_insert_ne.
        -- cbn. rewrite dom_insert_L. set_solver.
    + eapply mine_wait; [exact HF|done..|]. cbn. rewrite lookup_insert_eq. left. by eexists.
Qed.

(** The semaphore of a waiter goes up, or down. *)
Lemma waiter_moves t k g u sm v' e w w' :
  inv k g → semas k !! OfWaiter u = Some sm → moves (OfWaiter u) (value sm) v' e →
  waits g !! u = Some w → wait_value w' = v' → (∀ c, w ≠ WQueued c) → (∀ c, w' ≠ WQueued c) →
  u = t ∨ w = WPopped t ∧ w' = WUpped →
  (w = WPopped t ∨ ∀ x, w ≠ WPopped x) →
  let k' := valued (OfWaiter u) sm v' e k in
  inv k' (with_wait u w' g) ∧ guar t k g k' (with_wait u w' g).
Proof.
  intros [Hcore Hrun] Hs Hmv Hw Hv Hnq Hnq' Hu Hpop k'. pose proof (c_conds _ _ _ _ _ Hcore) as [D1 D2 D3 D4].
  pose proof (c_locks _ _ _ _ _ Hcore) as Hlk. split.
  - split; [|exact Hrun]. apply value_core with g; try done.
    + intros x. cbn. destruct (decide (x = u)) as [->|Hne]; [by rewrite Hw|by rewrite lookup_insert_ne].
    + intros Hn. by apply (i_boot _ _ (c_idle _ _ _ _ _ Hcore)).
    + destruct Hlk as [L1 L2 L3 L4] eqn:E. split; try done.
      * intros l lk Hll. destruct (L1 l lk Hll) as [H1 H2]. unfold k'.
        rewrite val_valued, fupd_ne by done. split; [done|]. cbn. by erewrite replay_moves.
      * by apply (counts_moves o k g).
    + split; try done.
      * intros c x. cbn. rewrite D2. destruct (decide (x = u)) as [->|Hne].
        -- rewrite lookup_insert_eq, Hw. naive_solver.
        -- by rewrite lookup_insert_ne.
      * intros x. rewrite val_valued. cbn. destruct (decide (x = u)) as [->|Hne].
        -- by rewrite fupd_eq, lookup_insert_eq; cbn; rewrite Hv.
        -- rewrite fupd_ne, lookup_insert_ne by congruence. apply D3.
  - apply guar_waits; [done|done|]. intros x Hx. apply rely_waits; try done; cbn.
    + destruct (decide (x = u)) as [->|Hne]; [|rewrite lookup_insert_ne by done; constructor].
      rewrite lookup_insert_eq, Hw. destruct Hu as [?|[-> ->]]; [done|constructor].
    + intros y Hy. rewrite lookup_insert_ne; [done|]. intros ->. rewrite Hw in Hy. injection Hy as ->.
      destruct Hpop as [[= ->]|Hp]; [done|]. by apply (Hp x).
Qed.

(** The waiter finds its semaphore raised. *)
Lemma changes_waiter_down t lv :
  changes o t (mine t lv None (wfact t w_sent)) (mine t lv None (wfact t w_done)) (OfWaiter t)
    (λ v, v ≠ 0) (λ v, wrap_u32 (v - 1)) (Downed (OfWaiter t)).
Proof.
  intros k g sm Hh Hs Hnz. pose proof Hh as [Hi Hc Hl He Hm HF]. pose proof Hi as [Hcore Hrun].
  pose proof (m_facts _ _ _ _ _ _ HF) as [Hw Hidr]. cbv beta in Hnz.
  pose proof (d_value _ _ _ _ _ (c_conds _ _ _ _ _ Hcore) t) as Hv. rewrite (val_sema _ _ _ Hs) in Hv.
  assert (waits g !! t = Some WUpped ∧ value sm = 1) as [Hwt Hv1].
  { destruct Hw as [[c Hw]|[[x Hw]|Hw]]; rewrite Hw in Hv; injection Hv as Hv; cbn in Hv; done || congruence. }
  exists (with_wait t WDone g). rewrite Hv1.
  destruct (waiter_moves t k g t sm 0 (Downed (OfWaiter t)) WUpped WDone) as [Hi' Hg]; try done.
  - right. by rewrite Hv1. - by left. - by right.
  - split_and!; [done|done| |done]. eapply mine_wait; [exact HF|done..|]. cbn. by rewrite lookup_insert_eq.
Qed.

(** [t] has taken [u] off the list. *)
Definition popped t u k g : Prop := wfact t w_none k g ∧ waits g !! u = Some (WPopped t).

Lemma frame_popped t u : frame t (popped t u).
Proof.
  intros k g k' g' Hx [H1 H2]. split; [by eapply frame_none|]. by apply (x_popped _ _ _ _ _ Hx).
Qed.

Lemma changes_signal t lv u :
  changes o t (mine t lv None (popped t u)) (client t lv) (OfWaiter u)
    (λ _, True) (λ v, wrap_u32 (v + 1)) (Upped (OfWaiter u)).
Proof.
  intros k g sm Hh Hs _. pose proof Hh as [Hi Hc Hl He Hm HF]. pose proof Hi as [Hcore Hrun].
  pose proof (m_facts _ _ _ _ _ _ HF) as [[Hw Hidr] Hp]. unfold w_none in Hw.
  pose proof (d_value _ _ _ _ _ (c_conds _ _ _ _ _ Hcore) u) as Hv.
  rewrite (val_sema _ _ _ Hs), Hp in Hv. injection Hv as Hv. cbn in Hv. rewrite Hv.
  assert (u ≠ t) as Hut by congruence. exists (with_wait u WUpped g).
  destruct (waiter_moves t k g u sm 1 (Upped (OfWaiter u)) (WPopped t) WUpped) as [Hi' Hg]; try done.
  - left. by rewrite Hv. - by right. - by left.
  - split_and!; [done|done| |done]. destruct HF as [H1 H2 H3 H4 H5 H6]. split; try done.
    split; [|done]. cbn. by rewrite lookup_insert_ne.
Qed.

Lemma waiter_sema k g t : inv k g → is_Some (waits g !! t) → is_Some (semas k !! OfWaiter t).
Proof.
  intros [Hcore _] [w Hw]. pose proof (d_value _ _ _ _ _ (c_conds _ _ _ _ _ Hcore) t) as Hv. rewrite Hw in Hv.
  unfold val in Hv. cbn in Hv. apply fmap_Some in Hv as (sm & -> & _). by eexists.
Qed.

(** The end of [cond_wait]: [waiter] goes out of scope. *)
Lemma safe_waiter_gone n t lv k g Q :
  here t lv false (mine t lv None (wfact t w_done)) k g →
  (∀ k' g', here t lv false (client t lv) k' g' → Q tt k' g') →
  safe n t (kmod (upd_semas (delete (OfWaiter t)))) k g Q.
Proof.
  intros Hh HQ. pose proof Hh as [Hi Hc Hl He Hm HF]. pose proof Hi as [Hcore Hrun].
  pose proof (m_facts _ _ _ _ _ _ HF) as [Hw Hidr]. unfold w_done in Hw.
  pose proof (c_conds _ _ _ _ _ Hcore) as [D1 D2 D3 D4].
  set (k1 := upd_semas (delete (OfWaiter t)) k).
  assert (∀ s, val k1 s = fupd (val k) (OfWaiter t) None s) as Hv.
  { intros s. unfold val, fupd. cbn. case_decide; [subst; by rewrite lookup_delete_eq|by rewrite lookup_delete_ne]. }
  eapply (safe_do _ _ _ _ _ _ _ k1 (no_wait t g)); [done| |done|].
  - apply guar_waits; [done|done|]. intros u Hu. apply rely_waits; try done; cbn.
    + rewrite lookup_delete_ne by done. constructor.
    + intros x Hx. rewrite lookup_delete_ne; [done|]. congruence.
  - eapply here_after; [|apply stable_client|exact HQ]. split; try done.
    + split; [|done]. eapply waits_core; [exact Hcore|..]; try done.
      * intros u. cbn. intros [w [Hne Hwu]%lookup_delete_Some]. left. by eexists.
      * intros s. unfold wts. cbn. destruct (decide (s = OfWaiter t)) as [->|Hne].
        -- right. by rewrite lookup_delete_eq. -- left. by rewrite lookup_delete_ne.
      * destruct (c_locks _ _ _ _ _ Hcore) as [L1 L2 L3 L4]. split; try done.
        -- intros l' lk'. rewrite Hv, fupd_ne by done. apply L1.
        -- intros p v0. rewrite Hv, fupd_ne by done. apply L4.
      * split; try done.
        -- intros c u. change (cws k1 c) with (cws k c). cbn. rewrite D2. destruct (decide (u = t)) as [->|Hne].
           ++ by rewrite lookup_delete_eq, Hw.
           ++ by rewrite lookup_delete_ne.
        -- intros u. rewrite Hv. cbn. destruct (decide (u = t)) as [->|Hne].
           ++ by rewrite fupd_eq, lookup_delete_eq.
           ++ rewrite fupd_ne, lookup_delete_ne by congruence. apply D3.
    + eapply mine_wait; [exact HF|done..|]. cbn. by rewrite lookup_delete_eq.
Qed.

Lemma safe_cond_wait n t lv c l k g Q :
  here t lv false (client t lv) k g → o_conds o !! c = Some l → l ∈ o_locks o →
  (∀ k' g', here t lv false (client t lv) k' g' → Q tt k' g') →
  safe n t (cond_wait c l) k g Q.
Proof.
  intros Hh Hcl Hl HQ. unfold cond_wait.
  apply safe_bind. eapply safe_intr_context; [done|apply stable_client|]. intros k1 g1 H1.
  apply safe_bind, safe_assert; [done|].
  apply safe_bind. eapply (safe_lock_held o _ _ _ _ (wfact t w_none)); [done|apply frame_none|done|..]; intros k2 g2 H2.
  2: { apply safe_bind, safe_assert_blame; [by right; left|done]. }
  apply safe_bind, safe_assert; [done|].
  apply safe_bind. eapply safe_read; [exact H2|apply stable_owns, frame_none|done|].
  intros k3 g3 H3. rewrite (h_current _ _ _ _ _ _ _ H2).
  apply safe_bind. eapply safe_waiter_init; [done|]. intros k4 g4 H4.
  apply safe_bind. eapply safe_push_cond; [done|done|]. intros k5 g5 H5.
  apply safe_bind. eapply safe_lock_release; [done|apply frame_sent|done|]. intros k6 g6 H6.
  apply safe_bind.
  eapply (safe_sema_down o _ _ _ (mine t lv None (wfact t w_sent)) (mine t lv None (wfact t w_done))).
  - done.
  - apply stable_mine, frame_sent.
  - apply stable_mine, frame_done.
  - intros k7 g7 Hi7 Hc7 HF7. pose proof (m_facts _ _ _ _ _ _ HF7) as [Hw Hidr]. split_and!.
    + eapply waiter_sema; [done|]. destruct Hw as [[? ->]|[[? ->]| ->]]; by eexists.
    + apply (m_idler _ _ _ _ _ _ HF7).
    + apply (m_settled _ _ _ _ _ _ HF7).
    + done.
  - intros _ k7 g7 HF7. apply (m_facts _ _ _ _ _ _ HF7).
  - apply changes_waiter_down.
  - intros k7 g7 H7. apply safe_bind. eapply safe_lock_acquire; [done|apply frame_done|done|].
    intros k8 g8 [? ? ? ? ? [HF8 _]]. by eapply safe_waiter_gone.
Qed.

(** [list_pop_front(&cond->waiters)] by the owner of the lock. *)
Lemma safe_pop_cond n t lv c l cd k g (Q : tptr → kernel → ghost → Prop) :
  here t lv false (λ k g, owns t lv (wfact t w_none) l k g ∧ conds k !! c = Some cd) k g →
  o_conds o !! c = Some l → cond_waiters cd ≠ [] →
  (∀ u k' g', here t lv false (mine t lv None (popped t u)) k' g' → Q u k' g') →
  safe n t (pop_cond c) k g Q.
Proof.
  intros Hh Hcl Hne HQ. pose proof Hh as [Hi Hc Hl He Hm [[HF Hown] Hcd]]. pose proof Hi as [Hcore Hrun].
  pose proof (m_facts _ _ _ _ _ _ HF) as [Hw Hidr]. unfold w_none in Hw.
  pose proof (c_conds _ _ _ _ _ Hcore) as [D1 D2 D3 D4].
  destruct (cond_waiters cd) as [|u ws] eqn:Hcw; [done|].
  assert (cws k c = u :: ws) as Hcwc by (unfold cws; by rewrite Hcd).
  assert (waits g !! u = Some (WQueued c)) as Hu by (apply D2; rewrite Hcwc; left).
  assert (u ≠ t) as Hut by congruence.
  set (k1 := upd_conds (<[c := Condition ws]>) k).
  assert (∀ x, cws k1 x = fupd (cws k) c ws x) as Hcw1 by (intros x; apply cws_insert).
  pose proof (D1 c) as Hnd. rewrite Hcwc in Hnd. apply NoDup_cons in Hnd as [Hnu Hnd].
  eapply (safe_do _ _ _ _ _ _ _ k1 (with_wait u (WPopped t) g)); [| |done|].
  - unfold mbind, M_bind. cbn [get]. rewrite Hcd. cbn. by rewrite Hcw.
  - apply guar_waits; [done|done|]. intros x Hx. apply rely_waits; try done; cbn.
    + intros c' l' Hc' Ho. rewrite lookup_insert_ne; [done|]. intros <-. congruence.
    + destruct (decide (x = u)) as [->|Hxu]; [rewrite lookup_insert_eq, Hu; constructor|].
      rewrite lookup_insert_ne by done. constructor.
    + intros y Hy. rewrite lookup_insert_ne; [done|]. congruence.
  - eapply here_after; [|apply stable_mine, (frame_popped t u)|apply HQ]. split; try done.
    + split; [|done]. eapply waits_core; [exact Hcore|..]; try done.
      * intros x. cbn. destruct (decide (x = u)) as [->|Hxu]; [intros _; left; by rewrite Hu|].
        rewrite lookup_insert_ne by done. auto.
      * by left.
      * destruct (c_locks _ _ _ _ _ Hcore) as [L1 L2 L3 L4]. by split.
      * split.
        -- intros x. rewrite Hcw1. unfold fupd. by case_decide.
        -- intros x y. rewrite Hcw1. cbn. destruct (decide (y = u)) as [->|Hyu].
           ++ rewrite lookup_insert_eq. unfold fupd. case_decide as Hd; [subst x; naive_solver|].
              rewrite D2, Hu. naive_solver.
           ++ rewrite lookup_insert_ne by done. rewrite <- D2. unfold fupd. case_decide as Hd; [subst x|done].
              rewrite Hcwc, elem_of_cons. naive_solver.
        -- intros y. cbn. change (val k1) with (val k). rewrite D3. destruct (decide (y = u)) as [->|Hyu].
           ++ by rewrite lookup_insert_eq, Hu.
           ++ by rewrite lookup_insert_ne.
        -- cbn. rewrite dom_insert_L. set_solver.
    + destruct HF as [H1 H2 H3 H4 H5 H6]. split; try done. split; [split; [|done]|]; cbn.
      * by rewrite lookup_insert_ne. * by rewrite lookup_insert_eq.
Qed.

Lemma safe_cond_signal n t lv c l k g Q :
  here t lv false (client t lv) k g → o_conds o !! c = Some l → l ∈ o_locks o →
  (∀ k' g', here t lv false (client t lv) k' g' → Q tt k' g') →
  safe n t (cond_signal c l) k g Q.
Proof.
  intros Hh Hcl Hl HQ. unfold cond_signal.
  apply safe_bind. eapply safe_intr_context; [done|apply stable_client|]. intros k1 g1 H1.
  apply safe_bind, safe_assert; [done|].
  apply safe_bind. eapply (safe_lock_held o _ _ _ _ (wfact t w_none)); [done|apply frame_none|done|..]; intros k2 g2 H2.
  2: { apply safe_bind, safe_assert_blame; [by right; left|done]. }
  apply safe_bind, safe_assert; [done|].
  pose proof H2 as [Hi Hc Hlv He Hm [HF Hown]].
  assert (is_Some (conds k2 !! c)) as [cd Hcd].
  { apply elem_of_dom, (d_conds _ _ _ _ _ (c_conds _ _ _ _ _ (inv_core _ _ _ Hi))), elem_of_dom. by eexists. }
  set (F := λ k g, owns t lv (wfact t w_none) l k g ∧ conds k !! c = Some cd).
  assert (stable t F) as HstF.
  { intros k' g' k'' g'' Hr [Ho Hcd']. split; [eapply stable_owns; [apply frame_none|done|done]|].
    rewrite (r_cond _ _ _ _ _ _ Hr c l Hcl); [done|]. by destruct Ho. }
  apply safe_bind. eapply (safe_read _ _ _ _ _ F _ _ _ cd); [by split|done| |].
  { unfold mbind, M_bind. cbn [get]. by rewrite Hcd. }
  intros k3 g3 H3. case_bool_decide as Hne; cbn [pwhen].
  - apply safe_bind. eapply safe_pop_cond; [exact H3|done|done|]. intros u k4 g4 H4.
    eapply (safe_sema_up o _ _ _ _ (mine t lv None (popped t u)) (client t lv)).
    + done.
    + apply stable_mine, frame_popped.
    + apply stable_client.
    + intros k5 g5 Hi5 HF5. pose proof (m_facts _ _ _ _ _ _ HF5) as [_ Hp]. eapply waiter_sema; [done|].
      rewrite Hp. by eexists.
    + intros _ k5 g5 HF5. apply (m_facts _ _ _ _ _ _ HF5).
    + apply changes_signal.
    + done.
  - apply safe_ret, HQ. destruct H3 as [? ? ? ? ? [[? ?] ?]]. by split.
Qed.

Lemma safe_cond_broadcast n t lv c l k g Q :
  here t lv false (client t lv) k g → o_conds o !! c = Some l → l ∈ o_locks o →
  (∀ k' g', here t lv false (client t lv) k' g' → Q tt k' g') →
  safe n t (cond_broadcast c l) k g Q.
Proof.
  intros Hh Hcl Hl HQ. unfold cond_broadcast.
  apply (safe_loop o _ _ _ (λ _ k g, here t lv false (client t lv) k g)); [|done].
  intros n' [] k1 g1 _ H1.
  assert (is_Some (conds k1 !! c)) as [cd Hcd].
  { apply elem_of_dom, (d_conds _ _ _ _ _ (c_conds _ _ _ _ _ (inv_core _ _ _ (h_inv _ _ _ _ _ _ _ H1)))), elem_of_dom.
    by eexists. }
  apply safe_bind. eapply (safe_read _ _ _ _ _ _ _ _ _ cd); [exact H1|apply stable_client| |].
  { unfold mbind, M_bind. cbn [get]. by rewrite Hcd. }
  intros k2 g2 H2. case_bool_decide as Hne.
  - apply safe_bind. eapply safe_cond_signal; [done|done|done|]. intros k3 g3 H3. by apply safe_ret.
  - by apply safe_ret, HQ.
Qed.

End conds.
