(* ===== verification/KernelMake.v ===== *)
(** * Pintos: a thread in the making

    The steps of [thread_create] between taking a page and putting the new thread on
    the run queue.  Until then the page belongs to the thread that makes it. *)

From stdpp Require Import base tactics list gmap.
From Stdlib Require Import ZArith Lia.
From S2P Require Import Prelude Bitmap BitmapProps Kernel Sched Synch Threads KernelInv KernelLogic KernelTrans KernelSched KernelSynch KernelLocks.

Local Open Scope Z_scope.

Section make.
Context (o : objects).
Local Abbreviation rely := (rely o).
Local Abbreviation guar := (guar o).
Local Abbreviation core := (core o).
Local Abbreviation inv := (inv o).
Implicit Types (k : kernel) (g : ghost) (t u e : tptr).

Definition with_maker e x g : ghost := Ghost (owner g) (<[e := x]> (maker g)) (idler g) (waits g).

(** The page [e] belongs to [t]. *)
Definition emb t e s th k g : Prop := maker g !! e = Some (t, s) ∧ threads k !! e = th.

Lemma frame_emb t e s th : frame t (emb t e s th).
Proof. intros k g k' g' Hx [H1 H2]. destruct (x_make _ _ _ _ _ Hx e s H1) as [H1' H2']. split; congruence. Qed.

Lemma started_other e x g u : u ≠ e → started (with_maker e x g) u ↔ started g u.
Proof. intros H. unfold started. cbn. by rewrite lookup_insert_ne. Qed.

Lemma unlisted_other e x g u : u ≠ e → unlisted (with_maker e x g) u ↔ unlisted g u.
Proof. intros H. unfold unlisted. cbn. by rewrite lookup_insert_ne. Qed.

Lemma started_new e t s g : started (with_maker e (t, s) g) e ↔ s = Stacked.
Proof. unfold started. cbn. by rewrite lookup_insert_eq. Qed.

Lemma unlisted_new e t s g : unlisted (with_maker e (t, s) g) e ↔ s = Taken ∨ s = Written.
Proof. unfold unlisted. cbn. by rewrite lookup_insert_eq. Qed.

Lemma alive_thread k u : alive k u → is_Some (threads k !! u).
Proof. intros (x & Hx & _). destruct (stat_threads _ _ _ Hx) as (th & -> & _). by eexists. Qed.

(** An embryo is on no queue and is not the idle thread. *)
Lemma made_apart ex dy k g e t s :
  core ex dy k g → maker g !! e = Some (t, s) →
  e ∉ ready_list k ∧ (∀ x, e ∉ wts k x) ∧ idle_thread k ≠ Some e.
Proof.
  intros [Hq Hl _ _ _ Hi] He. destruct (f_maker _ _ _ Hl e t s He) as (_ & _ & Hst).
  assert (stat k e ≠ Some THREAD_READY) as Hnr.
  { case_decide; [unfold stat; rewrite Hst; done|rewrite Hst; done]. }
  split_and!.
  - intros [? _]%(q_ready _ _ _ _ _ _ _ Hq). done.
  - intros x (_ & Hm & _)%(q_wait _ _ _ _ _ _ _ Hq). congruence.
  - intros Hid. pose proof (i_idle _ _ Hi e Hid) as Hidr. destruct (i_idler _ _ Hi e Hidr) as (_ & _ & _ & Hn).
    rewrite He in Hn. specialize (Hn ltac:(by eexists)). congruence.
Qed.

(** ** Taking a page *)

Definition taken m k : kernel := upd_kernel_pool (λ p, Pool m (base p)) k.

(** Nobody but the boot thread runs before there is an idle thread. *)
Lemma boot_alone t k g u :
  idle_ok k g → current k = t → u ≠ t → alive k u → started g u → idler g ≠ None.
Proof. intros Hi Hc Hu Ha Hs Hn. apply Hu. rewrite <- Hc. by apply (i_boot _ _ Hi). Qed.

Lemma take_core k g t e m :
  core None None k g → current k = t → threads k !! e = None → initial_thread k ≠ Some e → e ≠ current k →
  maker g !! e = None → bwf m → bit_cnt m = bit_cnt (used_map (kernel_pool k)) →
  (∀ u, page_used (kernel_pool k) u → page_used (Pool m (base (kernel_pool k))) u) →
  page_used (Pool m (base (kernel_pool k))) e →
  core None None (taken m k) (with_maker e (t, Taken) g) ∧
  guar t k g (taken m k) (with_maker e (t, Taken) g).
Proof.
  intros [Hq Hl Hp Hlk Hcd Hi] Hct Hth Hini Hcur Hmk Hwf Hcnt Hus Hue.
  assert (stat k e = None) as Hst by (unfold stat; by rewrite Hth).
  assert (∀ u, alive k u → u ≠ e) as Hne.
  { intros u (x & Hx & _) ->. congruence. }
  split.
  - split.
    + eapply (queues_ext _ (fupd (stat k) e None)); [| |apply (q_forget _ _ _ _ _ _ (maker g)); [exact Hq|..]]; try done.
      * intros u. unfold fupd. by case_decide; [subst|].
      * intros [? _]%(q_ready _ _ _ _ _ _ _ Hq). congruence.
      * intros s [? _]%(q_wait _ _ _ _ _ _ _ Hq). congruence.
      * intros u Hu. cbn. by rewrite lookup_insert_ne.
    + destruct Hl as [H1 H2 H3 H4 H5 H6 H7]. split; try done.
      * intros u. change (alive (taken m k) u) with (alive k u). change (all_list (taken m k)) with (all_list k).
        rewrite H5. split; intros [Ha Hn]; (split; [done|]); by rewrite unlisted_other in * by by apply Hne.
      * intros e' u s. cbn. rewrite lookup_insert_Some. intros [[<- [= <- <-]]|[_ He']]; [|by apply (H6 e' u)].
        by rewrite decide_True.
      * intros u Hu. destruct (H7 u Hu) as [Ha Hs]. split; [done|]. by rewrite started_other by by apply Hne.
    + destruct Hp as [P1 P2 P3 P4 P5]. split; cbn; try done.
      * by rewrite Hcnt.
      * intros u [?|?]%P4; [by left|right]. by apply Hus.
      * intros u. destruct (decide (u = e)) as [->|Hu]; [done|]. rewrite lookup_insert_ne by done.
        intros ?%P5. by apply Hus.
    + destruct Hlk as [L1 L2 L3 L4]. split; try done. intros l u [[Ha Hs]|?]%L2; [left|by right].
      split; [done|]. by rewrite started_other by by apply Hne.
    + done.
    + destruct Hi as [I1 I2 I3]. split; [done| |].
      * intros i Hidr. destruct (I2 i Hidr) as (Ha & ? & ?). cbn. rewrite lookup_insert_ne; [done|].
        apply not_eq_sym. by apply Hne.
      * intros Hn. destruct (I3 Hn) as (? & ? & Hu & ?). split_and!; try done. intros u Ha Hs.
        apply Hu; [done|]. by rewrite <- (started_other e (t, Taken)) by by apply Hne.
  - intros u Hu. split.
    + intros Ha Hs. split; [done|]. by rewrite <- (started_other e (t, Taken)) by by apply Hne.
    + intros Ha Hs. pose proof (boot_alone _ _ _ _ Hi Hct Hu Ha Hs). split; try done.
      * intros e' s He'. cbn. rewrite lookup_insert_ne; [done|]. congruence.
      * constructor.
      * intros Hset i Hidr. cbn. rewrite lookup_insert_ne; [by apply Hset|].
        apply not_eq_sym, Hne. by apply (i_idler _ _ Hi i).
Qed.

(** No page is free. *)
Lemma untaken_core k g t m :
  core None None k g → current k = t → bwf m → bit_cnt m = bit_cnt (used_map (kernel_pool k)) →
  (∀ u, page_used (kernel_pool k) u → page_used (Pool m (base (kernel_pool k))) u) →
  core None None (taken m k) g ∧ guar t k g (taken m k) g.
Proof.
  intros [Hq Hl Hp Hlk Hcd Hi] Hct Hwf Hcnt Hus. split.
  2: { intros u Hu. split; [done|]. intros Ha Hs. pose proof (boot_alone _ _ _ _ Hi Hct Hu Ha Hs).
       split; try done; constructor. }
  split; [done|by apply (life_frame _ _ k)| |by destruct Hlk|done|by apply (idle_frame _ k)].
  destruct Hp as [P1 P2 P3 P4 P5]. split; cbn; try done.
  - by rewrite Hcnt.
  - intros u [?|?]%P4; [by left|right]. by apply Hus.
  - intros u ?%P5. by apply Hus.
Qed.

(** ** Writing the structure *)

Lemma write_core k g t e th :
  core None None k g → maker g !! e = Some (t, Taken) →
  status th = THREAD_BLOCKED → magic th = THREAD_MAGIC →
  let k' := upd_threads (<[e := th]>) k in
  let g' := with_maker e (t, Written) g in
  core None None k' g' ∧ guar t k g k' g'.
Proof.
  intros Hcore Hmk Hbl Hmg k' g'. pose proof Hcore as [Hq Hl Hp Hlk Hcd Hi].
  destruct (made_apart _ _ _ _ _ _ _ Hcore Hmk) as (Hnr & Hnw & Hnidle).
  destruct (f_maker _ _ _ Hl e t Taken Hmk) as (Hini & Hcur & Hth). rewrite decide_True in Hth by done.
  assert (∀ u, stat k' u = fupd (stat k) e (Some THREAD_BLOCKED) u) as Hst.
  { intros u. unfold k'. rewrite stat_insert. by rewrite Hbl. }
  assert (stat k e = None) as Hste by (unfold stat; by rewrite Hth).
  assert (∀ u, alive k' u ↔ alive k u ∨ u = e) as Hal.
  { intros u. unfold alive. rewrite Hst. unfold fupd, live. case_decide; [subst|naive_solver].
    split; [by right|]. intros _. by exists THREAD_BLOCKED. }
  assert (∀ u, alive k u → u ≠ e) as Hne by (intros u (x & Hx & _) ->; congruence).
  assert (∀ u, started g' u ↔ started g u) as Hsd.
  { intros u. destruct (decide (u = e)) as [->|Hu]; [|by apply started_other].
    unfold g'. rewrite started_new. unfold started. by rewrite Hmk. }
  assert (∀ u, unlisted g' u ↔ unlisted g u) as Hun.
  { intros u. destruct (decide (u = e)) as [->|Hu]; [|by apply unlisted_other].
    unfold g'. rewrite unlisted_new. unfold unlisted. rewrite Hmk. naive_solver. }
  assert (unlisted g e) as Hue by (unfold unlisted; rewrite Hmk; by left).
  assert (¬ started g e) as Hse by (unfold started; by rewrite Hmk).
  split.
  - split.
    + eapply queues_ext; [exact Hst|done|]. apply (q_forget _ _ _ _ _ _ (maker g)); [exact Hq|done|done|done|].
      intros u Hu. cbn. by rewrite lookup_insert_ne.
    + destruct Hl as [H1 H2 H3 H4 H5 H6 H7]. split; try done.
      * intros u tu. cbn. rewrite lookup_insert_Some. intros [[_ <-]|[_ Hu]]; [done|by apply (H1 u)].
      * intros u. rewrite Hst. unfold fupd. case_decide; [done|apply H2].
      * intros u. rewrite Hst. unfold fupd. case_decide; [done|apply H3].
      * intros u. cbn. rewrite Hal, Hun, H5. naive_solver.
      * intros e' u s. cbn. rewrite lookup_insert_Some. intros [[<- [= <- <-]]|[Hne' He']].
        -- rewrite decide_False by done. split_and!; [done|done|]. by rewrite Hst, fupd_eq.
        -- destruct (H6 e' u s He') as (? & ? & Hs). split_and!; [done|done|].
           rewrite Hst, fupd_ne, lookup_insert_ne by done. done.
      * intros u Hu. rewrite Hal, Hsd. destruct (H7 u Hu). auto.
    + destruct Hp as [P1 P2 P3 P4 P5]. split; try done.
      * intros u. cbn. destruct (decide (u = e)) as [->|Hu]; [intros _; right; apply P5; by rewrite Hmk|].
        rewrite lookup_insert_ne by done. apply P4.
      * intros u. cbn. destruct (decide (u = e)) as [->|Hu]; [intros _; apply P5; by rewrite Hmk|].
        rewrite lookup_insert_ne by done. apply P5.
    + destruct Hlk as [L1 L2 L3 L4]. split; try done. intros l u Hu. rewrite Hal, Hsd.
      destruct (L2 l u Hu) as [[? ?]|?]; auto.
    + done.
    + destruct Hi as [I1 I2 I3]. split; [done| |].
      * intros i Hidr. destruct (I2 i Hidr) as (Ha & ? & Hn & Hn'). rewrite Hal. cbn.
        rewrite lookup_insert_ne by (apply not_eq_sym; by apply Hne). auto.
      * intros Hn. destruct (I3 Hn) as (? & ? & Hu & ?). split_and!; try done. intros u.
        rewrite Hal, Hsd. intros [Ha| ->] Hs; [by apply Hu|done].
  - intros u Hu. rewrite Hal, Hsd. split; [naive_solver|]. intros Ha _. split; try done.
    + intros e' s He'. cbn. rewrite !lookup_insert_ne by congruence. done.
    + constructor.
    + intros _. rewrite Hal. by left.
    + intros Hset i Hidr. cbn. rewrite lookup_insert_ne; [by apply Hset|].
      apply not_eq_sym, Hne. by apply (i_idler _ _ Hi i).
Qed.

(** ** On the list of all threads *)

Lemma list_core k g t e :
  core None None k g → maker g !! e = Some (t, Written) →
  let k' := upd_all_list (λ l, l ++ [e]) k in
  let g' := with_maker e (t, Listed) g in
  e ∉ all_list k ∧ core None None k' g' ∧ guar t k g k' g'.
Proof.
  intros Hcore Hmk k' g'. pose proof Hcore as [Hq Hl Hp Hlk Hcd Hi].
  destruct (f_maker _ _ _ Hl e t Written Hmk) as (Hini & Hcur & Hste). rewrite decide_False in Hste by done.
  assert (∀ u, started g' u ↔ started g u) as Hsd.
  { intros u. destruct (decide (u = e)) as [->|Hu]; [|by apply started_other].
    unfold g'. rewrite started_new. unfold started. by rewrite Hmk. }
  assert (unlisted g e) as Hue by (unfold unlisted; rewrite Hmk; by right).
  assert (e ∉ all_list k) as Hnot by (intros [_ ?]%(f_all _ _ _ Hl); done).
  assert (∀ u, is_Some (maker g' !! u) ↔ is_Some (maker g !! u)) as Hsm.
  { intros u. cbn. destruct (decide (u = e)) as [->|Hu]; [rewrite lookup_insert_eq, Hmk|by rewrite lookup_insert_ne].
    split; intros _; by eexists. }
  split_and!; [done| |].
  - split.
    + destruct Hq as [Q1 Q2 Q3 Q4 Q5 Q6]. split; try done. intros s u Hu. destruct (Q5 s u Hu) as (? & Hm & ?).
      split_and!; [done| |done]. cbn. rewrite lookup_insert_ne; [done|]. congruence.
    + destruct Hl as [H1 H2 H3 H4 H5 H6 H7]. split; try done.
      * cbn. apply NoDup_app. split_and!; [done| |apply NoDup_singleton]. by intros x Hx ->%list_elem_of_singleton.
      * intros u. cbn. rewrite elem_of_app, list_elem_of_singleton, H5. change (alive k' u) with (alive k u).
        destruct (decide (u = e)) as [->|Hu].
        -- split; [intros _|by right]. split; [by exists THREAD_BLOCKED|]. unfold g'. rewrite unlisted_new. naive_solver.
        -- unfold g'. rewrite unlisted_other by done. naive_solver.
      * intros e' u s. cbn. rewrite lookup_insert_Some. intros [[<- [= <- <-]]|[_ He']]; [|by apply (H6 e' u)].
        by rewrite decide_False.
      * intros u Hu. rewrite Hsd. by apply H7.
    + destruct Hp as [P1 P2 P3 P4 P5]. split; try done. intros u. rewrite Hsm. apply P5.
    + destruct Hlk as [L1 L2 L3 L4]. split; try done. intros l u Hu. rewrite Hsd. by apply L2.
    + done.
    + destruct Hi as [I1 I2 I3]. split; [done| |].
      * intros i Hidr. rewrite Hsm. by apply I2.
      * intros Hn. destruct (I3 Hn) as (? & ? & Hu & ?). split_and!; try done. intros u. rewrite Hsd. apply Hu.
  - intros u Hu. rewrite Hsd. split; [done|]. intros _ _. split; try done.
    + intros e' s He'. cbn. rewrite lookup_insert_ne by congruence. done.
    + constructor.
    + intros Hset i Hidr. cbn. rewrite lookup_insert_ne; [by apply Hset|].
      intros <-. pose proof (Hset e Hidr). congruence.
Qed.

(** ** Filling in *)

(** The page of a thread in the making, or the running thread's own. *)
Lemma fill_core k g t e th th' :
  core None None k g → (∀ u s, maker g !! e = Some (u, s) → u = t) → threads k !! e = Some th →
  status th' = status th → magic th' = magic th →
  let k' := upd_threads (<[e := th']>) k in core None None k' g ∧ guar t k g k' g.
Proof.
  intros Hcore Hmk Hth Hs Hmg k'. pose proof Hcore as [Hq Hl Hp Hlk Hcd Hi].
  assert (∀ u, stat k' u = stat k u) as Hst.
  { intros u. unfold k'. rewrite stat_insert. unfold fupd. case_decide; [subst|done]. unfold stat. by rewrite Hth, Hs. }
  assert (∀ u, alive k' u ↔ alive k u) as Hal by (intros u; unfold alive; by rewrite Hst).
  assert (∀ u, is_Some (threads k' !! u) ↔ is_Some (threads k !! u)) as Hdom.
  { intros u. cbn. destruct (decide (u = e)) as [->|Hu]; [rewrite lookup_insert_eq, Hth|by rewrite lookup_insert_ne].
    split; intros _; by eexists. }
  split.
  - split.
    + by eapply queues_ext.
    + destruct Hl as [H1 H2 H3 H4 H5 H6 H7]. split; try done; intros *; rewrite ?Hst, ?Hal; eauto.
      * cbn. rewrite lookup_insert_Some. intros [[_ <-]|[_ Hu]]; [|by eapply H1]. rewrite Hmg. by eapply H1.
      * intros He'. destruct (H6 _ _ _ He') as (? & ? & Hs'). split_and!; [done|done|]. case_decide; [|done].
        cbn. destruct (decide (e0 = e)) as [->|Hne]; [congruence|by rewrite lookup_insert_ne].
    + destruct Hp as [P1 P2 P3 P4 P5]. split; try done. intros u. rewrite Hdom. apply P4.
    + destruct Hlk as [L1 L2 L3 L4]. split; try done. intros l u. rewrite Hal. apply L2.
    + done.
    + by apply (idle_frame _ k).
  - intros u Hu. split; [by rewrite Hal|]. intros _ _. split; try done.
    + intros e' s' He'. split; [done|]. cbn. rewrite lookup_insert_ne; [done|]. intros ->. by apply Hu, (Hmk u s').
    + constructor.
    + by rewrite Hal.
Qed.

(** ** Ready to run *)

Definition readied e th k : kernel :=
  upd_threads (<[e := set_status THREAD_READY th]>) (upd_ready_list (λ l, l ++ [e]) k).
Definition no_maker e g : ghost := Ghost (owner g) (delete e (maker g)) (idler g) (waits g).

Lemma start_core k g t e th :
  core None None k g → maker g !! e = Some (t, Stacked) → threads k !! e = Some th → e ≠ t →
  core None None (readied e th k) (no_maker e g) ∧
  guar t (upd_ready_list (λ l, l ++ [e]) k) g (readied e th k) (no_maker e g) ∧
  ¬ linked k e ∧ status th = THREAD_BLOCKED ∧ magic th = THREAD_MAGIC ∧
  (∀ u, u ≠ e → stat (readied e th k) u = stat k u).
Proof.
  intros Hcore Hmk Hth Het. pose proof Hcore as [Hq Hl Hp Hlk Hcd Hi].
  destruct (made_apart _ _ _ _ _ _ _ Hcore Hmk) as (Hnr & Hnw & Hnidle).
  destruct (f_maker _ _ _ Hl e t Stacked Hmk) as (Hini & Hcur & Hste). rewrite decide_False in Hste by done.
  assert (status th = THREAD_BLOCKED) as Hbl by (unfold stat in Hste; rewrite Hth in Hste; by injection Hste).
  set (k' := readied e th k). set (g' := no_maker e g).
  assert (∀ u, stat k' u = fupd (stat k) e (Some THREAD_READY) u) as Hst
    by (intros u; exact (stat_insert (upd_ready_list _ k) e _ u)).
  assert (∀ u, alive k' u ↔ alive k u) as Hal.
  { intros u. apply (alive_status (upd_ready_list (λ l, l ++ [e]) k)); [done|by rewrite Hbl|done]. }
  assert (∀ u, started g' u ↔ started g u) as Hsd.
  { intros u. unfold started. cbn. destruct (decide (u = e)) as [->|Hu]; [rewrite lookup_delete_eq, Hmk; naive_solver|].
    by rewrite lookup_delete_ne. }
  assert (∀ u, unlisted g' u ↔ unlisted g u) as Hun.
  { intros u. unfold unlisted. cbn. destruct (decide (u = e)) as [->|Hu]; [rewrite lookup_delete_eq, Hmk; naive_solver|].
    by rewrite lookup_delete_ne. }
  assert (∀ u, is_Some (threads k' !! u) ↔ is_Some (threads k !! u)) as Hdom.
  { intros u. cbn. destruct (decide (u = e)) as [->|Hu]; [rewrite lookup_insert_eq, Hth|by rewrite lookup_insert_ne].
    split; intros _; by eexists. }
  split_and!.
  - split.
    + eapply queues_ext; [exact Hst|done|]. cbn. destruct Hq as [Q1 Q2 Q3 Q4 Q5 Q6]. split; try done.
      * apply NoDup_app. split_and!; [done| |apply NoDup_singleton]. by intros x Hx ->%list_elem_of_singleton.
      * intros u [Hu| ->%list_elem_of_singleton]%elem_of_app; [rewrite fupd_ne by congruence; auto|].
        by rewrite fupd_eq.
      * intros u. rewrite elem_of_app, list_elem_of_singleton. destruct (decide (u = e)) as [->|Hu]; [auto|].
        rewrite fupd_ne by done. intros Hr. destruct (Q3 u Hr); auto.
      * intros s u Hu. assert (u ≠ e) by (intros ->; by apply (Hnw s)).
        rewrite fupd_ne, lookup_delete_ne by done. eauto.
    + destruct Hl as [H1 H2 H3 H4 H5 H6 H7]. split; try done.
      * intros u tu. cbn. rewrite lookup_insert_Some. intros [[_ <-]|[_ Hu]]; [cbn; by eapply H1|by apply (H1 u)].
      * intros u. rewrite Hst. unfold fupd. case_decide; [done|apply H2].
      * intros u. rewrite Hst. unfold fupd. case_decide; [done|apply H3].
      * intros u. rewrite Hal, Hun. apply H5.
      * intros e' u s. cbn. rewrite lookup_delete_Some. intros [Hne He'].
        destruct (H6 e' u s He') as (? & ? & Hs). split_and!; [done|done|].
        rewrite Hst, fupd_ne, lookup_insert_ne by done. done.
      * intros u Hu. rewrite Hal, Hsd. by apply H7.
    + destruct Hp as [P1 P2 P3 P4 P5]. split; try done.
      * intros u. rewrite Hdom. apply P4.
      * intros u. cbn. intros [x [_ Hx]%lookup_delete_Some]. apply P5. by rewrite Hx.
    + destruct Hlk as [L1 L2 L3 L4]. split; try done. intros l u Hu. rewrite Hal, Hsd. by apply L2.
    + done.
    + destruct Hi as [I1 I2 I3]. split; [done| |].
      * intros i Hidr. destruct (I2 i Hidr) as (Ha & ? & Hn & Hn'). rewrite Hal. cbn. split_and!; [done|done| |].
        -- intros Hnone. rewrite elem_of_app, list_elem_of_singleton.
           destruct (decide (i = e)) as [->|Hie]; [auto|]. rewrite lookup_delete_ne by done.
           destruct (Hn Hnone) as [?|[?|?]]; auto.
        -- intros [x [_ Hx]%lookup_delete_Some]. apply Hn'. by rewrite Hx.
      * intros Hn. destruct (I3 Hn) as (? & ? & Hu & ?). split_and!; try done. intros u. rewrite Hal, Hsd. apply Hu.
  - intros u Hu. rewrite Hsd. split; [rewrite Hal; done|]. intros _ _. split; try done.
    + intros e' s He'. cbn. assert (e' ≠ e) by congruence. rewrite lookup_delete_ne, lookup_insert_ne by done. done.
    + constructor.
    + by rewrite Hal.
    + intros Hset i Hidr. cbn. pose proof (Hset i Hidr). destruct (decide (i = e)) as [->|Hie].
      * apply lookup_delete_eq. * by rewrite lookup_delete_ne.
  - rewrite linked_wts. intros [?|[s ?]]; [done|]. by apply (Hnw s).
  - done.
  - by apply (f_magic _ _ _ Hl e).
  - intros u Hu. by rewrite Hst, fupd_ne.
Qed.

End make.
