(* ===== verification/KernelThreads.v ===== *)
(** * Pintos: creating threads

    [thread_create] and what it calls, for a thread of a client and for the boot
    thread, which makes the idle thread while interrupts are disabled. *)

From stdpp Require Import base tactics list gmap.
From Stdlib Require Import ZArith Lia.
From S2P Require Import Prelude Bitmap BitmapProps Kernel Sched Synch Threads KernelInv KernelLogic KernelTrans KernelSched KernelSynch KernelLocks KernelConds KernelMake.

Local Open Scope Z_scope.

Section create.
Context (o : objects).
Hypothesis Hpool : kernel_pool_lock ∈ o_locks o.
Hypothesis Htid : tid_lock ∈ o_locks o.
Local Abbreviation rely := (rely o).
Local Abbreviation guar := (guar o).
Local Abbreviation core := (core o).
Local Abbreviation inv := (inv o).
Local Abbreviation safe := (safe o).
Local Abbreviation stable := (stable o).
Local Abbreviation here := (here o).
Implicit Types (k : kernel) (g : ghost) (t u e : tptr) (X Y W : kernel → ghost → Prop).

(** An action of a thread that keeps the invariant and takes it from [F] to [F']. *)
Lemma safe_here_do {A} n t lv ext F F' (m : M kernel A) k g a k' g' (Q : A → kernel → ghost → Prop) :
  here t lv ext F k g → m k = Done (a, k') → guar t k g k' g' → core None None k' g' →
  stat k' t = stat k t → current k' = current k → intr_level k' = intr_level k →
  in_external_intr k' = in_external_intr k → F' k' g' → stable t F' →
  (∀ k2 g2, here t lv ext F' k2 g2 → Q a k2 g2) → safe n t (act m) k g Q.
Proof.
  intros Hh Hm Hg Hcore Hs Hc Hl He HF Hst HQ. pose proof Hh as [Hi Hc0 Hl0 He0 Hm0 _].
  eapply safe_do; [done|done|congruence|]. eapply here_after; [|done|done]. split; try congruence; try done.
  split; [done|]. rewrite Hc, Hc0, Hs. by eapply here_stat.
Qed.

(** Facts that concern the waiter of a thread and the idle thread only. *)
Definition plain X : Prop :=
  ∀ k g k' g', waits g' = waits g → idler g' = idler g → X k g → X k' g'.

Lemma plain_wfact t (W : option wait_state → Prop) : plain (wfact t W).
Proof. intros k g k' g' Hw Hi [? ?]. split; [by rewrite Hw|by rewrite Hi]. Qed.

Lemma frame_and t X Y : frame t X → frame t Y → frame t (λ k g, X k g ∧ Y k g).
Proof. intros H1 H2 k g k' g' Hx [? ?]. split; eauto. Qed.

(** What [t] knows is kept by a step that changes neither locks nor waiters. *)
Lemma mine_plain t lv X Y k g k' g' :
  mine t lv None X k g → owner g' = owner g → locks k' = locks k → idler g' = idler g →
  settled g' → Y k' g' → mine t lv None Y k' g'.
Proof. intros [H1 H2 H3 H4 H5 H6] Ho Hl Hi Hs HY. split; rewrite ?Ho, ?Hl, ?Hi; done. Qed.

Lemma settled_maker e x k g :
  core None None k g → settled g → ¬ alive k e ∨ is_Some (maker g !! e) → settled (with_maker e x g).
Proof.
  intros Hcore Hs He i Hi. cbn. rewrite lookup_insert_ne; [by apply Hs|]. intros <-.
  destruct He as [Hna|[y Hy]].
  - apply Hna. by apply (i_idler _ _ (c_idle _ _ _ _ _ Hcore) e).
  - rewrite (Hs e Hi) in Hy. done.
Qed.

(** ** Pages *)

Definition page X t e s th b k g : Prop := (X k g ∧ emb t e s th k g) ∧ base (kernel_pool k) = b.

Lemma frame_page X t e s th b : frame t X → frame t (page X t e s th b).
Proof.
  intros HX. apply frame_and; [apply frame_and; [done|apply frame_emb]|].
  intros k g k' g' Hx Hb. by rewrite (x_base _ _ _ _ _ Hx).
Qed.

(** What is known before, after taking a page, and when there is none. *)
Record page_facts t X Y W : Prop := {
  pf_before : frame t X;
  pf_after : frame t Y;
  pf_plain : plain Y;
  pf_none : frame t W;
  pf_weaken k g : X k g → Y k g;
  pf_full k g m : X k g → (∀ u, ¬ free_page (kernel_pool k) u) → W (taken m k) g
}.

Lemma page_facts_plain t X : frame t X → plain X → page_facts t X X X.
Proof. intros HX HXp. split; try done. intros k g m Hk _. by eapply HXp. Qed.

(** [bitmap_scan_and_flip(pool->used_map, 0, 1, false)] *)
Lemma safe_take n t lv X Y W k g (Q : Z → kernel → ghost → Prop) :
  here t lv false (mine t lv None X) k g → page_facts t X Y W →
  (∀ idx k' g', idx ≠ BITMAP_ERROR →
     here t lv false (mine t lv None (page Y t (base (kernel_pool k) + idx) Taken None (base (kernel_pool k)))) k' g' →
     Q idx k' g') →
  (∀ k' g', here t lv false (mine t lv None W) k' g' → Q BITMAP_ERROR k' g') →
  safe n t (act (k ← get;
    '(idx, m) ← assume_some (bitmap_scan_and_flip (used_map (get_pool false k)) 0 1 false);
    modify (upd_pool false (λ p, Pool m (base p)));; mret idx)) k g Q.
Proof.
  intros Hh [HX HY HYp HZ HXY HXZ] HQ HQ0. pose proof Hh as [[Hcore Hrun] Hc Hl He Hm HF].
  pose proof (c_pages _ _ _ _ _ Hcore) as Hp. set (pl := kernel_pool k) in *.
  pose proof (p_wf _ _ _ _ Hp) as Hwf.
  assert (0 ≤ bit_cnt (used_map pl)) as Hcnt0 by apply Hwf.
  destruct (scan_and_flip_spec (used_map pl) 0 1 false) as (r & m & Hscan & Hfirst & Hwf' & Hcnt & Hbit); [done|lia|lia|].
  assert ((k ← get; '(idx, m) ← assume_some (bitmap_scan_and_flip (used_map (get_pool false k)) 0 1 false);
    modify (upd_pool false (λ p, Pool m (base p)));; mret idx) k = Done (r, taken m k)) as Hact.
  { unfold mbind, M_bind. cbn [get get_pool]. fold pl. by rewrite Hscan. }
  assert (∀ u, page_used pl u → page_used (Pool m (base pl)) u) as Hus.
  { intros u [Hr Hb]. split; cbn; [by rewrite Hcnt|]. rewrite Hbit by lia. by destruct (decide _). }
  destruct (decide (r = BITMAP_ERROR)) as [->|Hr].
  - destruct (untaken_core o k g t m Hcore Hc Hwf' Hcnt Hus) as [Hcore' Hg].
    eapply safe_here_do; [done|exact Hact|exact Hg|done|done|done|done|done| |by apply stable_mine|exact HQ0].
    eapply mine_plain; [done..|apply (m_settled _ _ _ _ _ _ HF)|]. apply HXZ; [apply HF|].
    intros u [Hr Hb]. fold pl in Hr, Hb. destruct Hfirst as [[_ Hno]|(Hb1 & Hb2 & _)]; [|unfold BITMAP_ERROR, SIZE_MAX in *; pose proof (bw_cnt _ Hwf); lia].
    apply (Hno (u - base pl)); [lia|lia|]. intros x Hx. assert (x = u - base pl) as -> by lia. done.
  - destruct (first_run_valid _ _ _ _ _ Hwf (Z.le_refl 0) Z.le_0_1 Hfirst Hr) as (H0 & Hle & Hfree).
    set (e := base pl + r : tptr). assert (¬ page_used pl e) as Hunused.
    { intros [_ Hb]. unfold e in Hb. replace (base pl + r - base pl) with r in Hb by lia.
      rewrite (Hfree r) in Hb by lia. done. }
    assert (initial_thread k ≠ Some e) as Hini by (intros E; apply (p_init _ _ _ _ Hp e E); unfold e; lia).
    assert (threads k !! e = None) as Hth.
    { apply eq_None_not_Some. intros Hs. by destruct (p_threads _ _ _ _ Hp e Hs). }
    assert (maker g !! e = None) as Hmk.
    { apply eq_None_not_Some. intros Hs. by apply Hunused, (p_taken _ _ _ _ Hp). }
    assert (¬ alive k e) as Hna by (intros (x & Hx & _); unfold stat in Hx; by rewrite Hth in Hx).
    assert (e ≠ current k) as Hec by (intros E; apply Hna; rewrite E; by exists THREAD_RUNNING).
    assert (page_used (Pool m (base pl)) e) as Hue.
    { unfold e. split; cbn [base used_map]; [rewrite Hcnt; lia|]. replace (base pl + r - base pl) with r by lia.
      rewrite Hbit by lia. by rewrite decide_True by (split; [done|lia]). }
    destruct (take_core o k g t e m Hcore Hc Hth Hini Hec Hmk Hwf' Hcnt Hus Hue) as [Hcore' Hg].
    eapply safe_here_do; [done|exact Hact|exact Hg|done|done|done|done|done| |
      by apply stable_mine, (frame_page Y t e Taken None (base pl))|intros; by apply HQ].
    eapply mine_plain; [done..| |].
    + eapply settled_maker; [done|apply (m_settled _ _ _ _ _ _ HF)|by left].
    + split; [|done]. split; [eapply HYp; [..|apply HXY, HF]; done|]. split; [|done]. cbn. apply lookup_insert_eq.
Qed.

Lemma upd_threads_id k f : f (threads k) = threads k → upd_threads f k = k.
Proof. intros H. unfold upd_threads. rewrite H. by destruct k. Qed.

Lemma safe_get_page n t lv X Y W k g (Q : option Z → kernel → ghost → Prop) :
  here t lv false (mine t lv None X) k g → page_facts t X Y W →
  (∀ e k' g', here t lv false (mine t lv None (λ k g, Y k g ∧ emb t e Taken None k g)) k' g' → Q (Some e) k' g') →
  (∀ k' g', here t lv false (mine t lv None W) k' g' → Q None k' g') →
  safe n t (palloc_get_page (Flags false true false)) k g Q.
Proof.
  intros Hh HP HQ1 HQ2. pose proof HP as [HX HY HYp HZ HXY HXZ]. unfold palloc_get_page, palloc_get_multiple. cbn [PAL_USER PAL_ZERO PAL_ASSERT].
  rewrite bool_decide_false by done. apply safe_bind.
  eapply safe_lock_acquire; [done|done|done|]. intros k1 g1 [Hi1 Hc1 Hl1 He1 Hm1 [HF1 _]].
  apply safe_bind. eapply (safe_take _ _ _ X Y W); [by split|done|..].
  - intros idx k2 g2 Hidx H2. set (b := base (kernel_pool k1)) in *. set (e := b + idx : tptr) in *.
    assert (frame t (page Y t e Taken None b)) as Hfr by by apply frame_page.
    apply safe_bind. eapply safe_lock_release; [done|done|done|]. intros k3 g3 H3.
    assert (base (kernel_pool k3) = b) as Hb by apply H3.
    apply safe_bind. eapply safe_read; [exact H3|by apply stable_mine|done|]. intros k4 g4 H4. cbn [get_pool].
    rewrite bool_decide_true by done. rewrite Hb. fold e. cbn [pwhen].
    assert (threads k4 !! e = None) as Hth by apply H4.
    apply safe_bind. eapply safe_read; [exact H4|by apply stable_mine| |].
    { unfold modify. rewrite upd_threads_id; [done|]. rewrite scrub_one. by apply delete_id. }
    intros k5 g5 [? ? ? ? ? HF5]. apply safe_ret, HQ1. split; try done.
    eapply mine_plain; [done..|apply (m_settled _ _ _ _ _ _ HF5)|]. apply (m_facts _ _ _ _ _ _ HF5).
  - intros k2 g2 H2. apply safe_bind. eapply safe_lock_release; [done|done|done|]. intros k3 g3 H3.
    apply safe_bind. eapply safe_read; [exact H3|by apply stable_mine|done|]. intros k4 g4 H4.
    rewrite bool_decide_false by (intros E; by apply E). apply safe_bind, safe_assert; [done|].
    by apply safe_ret, HQ2.
Qed.

(** ** The new thread *)

(** [t] makes the thread in the page [e]. *)
Definition making X t e s th : kernel → ghost → Prop := λ k g, X k g ∧ emb t e s th k g.

Lemma frame_making X t e s th : frame t X → frame t (making X t e s th).
Proof. intros HX. apply frame_and; [done|apply frame_emb]. Qed.

(** The page of the new thread goes from one stage to the next. *)
Lemma mine_making t lv X e s s' th th' k g k' :
  core None None k g → mine t lv None (making X t e s th) k g → plain X → locks k' = locks k →
  threads k' !! e = th' →
  mine t lv None (making X t e s' th') k' (with_maker e (t, s') g).
Proof.
  intros Hcore HF HXp Hl Hth. destruct (m_facts _ _ _ _ _ _ HF) as [HX [Hmk _]].
  eapply mine_plain; [done..| |].
  - eapply settled_maker; [done|apply (m_settled _ _ _ _ _ _ HF)|]. right. by rewrite Hmk.
  - split; [by eapply (HXp k g)|]. split; [|done]. cbn. apply lookup_insert_eq.
Qed.

Lemma making_current t lv X e s th k g :
  here t lv false (mine t lv None (making X t e s th)) k g → e ≠ t.
Proof.
  intros [[Hcore _] Hc _ _ _ HF] ->. destruct (m_facts _ _ _ _ _ _ HF) as [_ [Hmk _]].
  by destruct (f_maker _ _ _ (c_life _ _ _ _ _ Hcore) t t s Hmk) as (_ & ? & _).
Qed.

Lemma safe_init_thread n t lv X e nm pri k g Q :
  here t lv false (mine t lv None (making X t e Taken None)) k g → frame t X → plain X →
  (lv = true → ∀ k g, X k g → idler g ≠ None) →
  (∀ th k' g', here t lv false (mine t lv None (making X t e Listed (Some th))) k' g' → Q tt k' g') →
  safe n t (init_thread e nm pri) k g Q.
Proof.
  intros Hh HX HXp Hb HQ. unfold init_thread. pose proof (making_current _ _ _ _ _ _ _ _ Hh) as Het.
  apply safe_bind, safe_assert_blame; [unfold blame; tauto|]. intros _.
  set (th := Thread 0 THREAD_BLOCKED (take 15 nm) (e * PGSIZE + PGSIZE) pri THREAD_MAGIC).
  pose proof (λ s th, stable_mine o t lv None _ (frame_making X t e s th HX)) as Hst.
  pose proof Hh as [[Hcore _] _ _ _ _ HF]. destruct (m_facts _ _ _ _ _ _ HF) as [_ [Hmk _]].
  destruct (write_core o k g t e th Hcore Hmk) as [Hcore1 Hg1]; [done|done|].
  apply safe_bind. eapply safe_here_do; [exact Hh|done|exact Hg1|exact Hcore1| |done|done|done| |apply (Hst Written (Some th))|].
  { rewrite stat_insert. by apply fupd_ne. }
  { eapply mine_making; [done|done|done|done|]. apply lookup_insert_eq. }
  intros k1 g1 H1. apply safe_bind. eapply safe_intr_disable; [done|apply Hst|].
  intros k2 g2 H2. pose proof H2 as [[Hcore2 _] _ _ _ _ HF2]. destruct (m_facts _ _ _ _ _ _ HF2) as [_ [Hmk2 _]].
  destruct (list_core o k2 g2 t e Hcore2 Hmk2) as (Hnot & Hcore3 & Hg3).
  apply safe_bind. eapply safe_here_do; [exact H2| |exact Hg3|exact Hcore3|done|done|done|done| |apply (Hst Listed (Some th))|].
  { unfold mbind, M_bind. cbn [get]. by rewrite bool_decide_true. }
  { eapply mine_making; [done|done|done|done|]. apply HF2. }
  intros k4 g4 H4. apply safe_bind. eapply safe_set_level; [done|apply Hst|done| |].
  { intros Hlv. apply (Hb Hlv k4). apply H4. }
  intros b k5 g5 H5. apply safe_ret. by eapply HQ.
Qed.

(** ** Thread identifiers *)

Lemma tid_core t k g v :
  core None None k g → owner g !! tid_lock = Some t →
  core None None (upd_next_tid (λ _, v) k) g ∧ guar t k g (upd_next_tid (λ _, v) k) g.
Proof.
  intros [Hq Hl Hp Hlk Hcd Hi] Hown. split.
  - split; [done|by apply (life_frame _ _ k)|done|by destruct Hlk|done|by apply (idle_frame _ k)].
  - intros u Hu. split; [done|]. intros _ _. split; try done; try constructor. congruence.
Qed.

Lemma safe_allocate_tid n t lv X k g (Q : Z → kernel → ghost → Prop) :
  here t lv false (mine t lv None X) k g → frame t X →
  (∀ v k' g', here t lv false (mine t lv None X) k' g' → Q v k' g') →
  safe n t allocate_tid k g Q.
Proof.
  intros Hh HX HQ. unfold allocate_tid. pose proof (stable_owns o t lv X tid_lock HX) as Hst.
  apply safe_bind. eapply safe_lock_acquire; [done|done|done|]. intros k1 g1 H1.
  apply safe_bind. eapply safe_read; [exact H1|done|done|]. intros k2 g2 H2.
  apply safe_bind, safe_assert_blame; [unfold blame; tauto|]. intros _.
  pose proof H2 as [[Hcore2 _] _ _ _ _ [HF2 Hown2]].
  destruct (tid_core t k2 g2 (next_tid k1 + 1) Hcore2 Hown2) as [Hcore3 Hg3].
  apply safe_bind. eapply safe_here_do; [exact H2|done|exact Hg3|exact Hcore3|done|done|done|done| |exact Hst|].
  { split; [|done]. destruct HF2 as [M1 M2 M3 M4 M5 M6]. split; try done. eapply HX; [|done]. calm. }
  intros k3 g3 [? ? ? ? ? [HF3 _]]. apply safe_bind. eapply safe_lock_release; [by split|done|done|].
  intros k4 g4 H4. by apply safe_ret, HQ.
Qed.

(** ** The structure and its stack *)

Lemma safe_fill n t lv X e s th f k g Q :
  here t lv false (mine t lv None (making X t e s (Some th))) k g → frame t X → plain X →
  status (f th) = status th → magic (f th) = magic th →
  (∀ k' g', here t lv false (mine t lv None (making X t e s (Some (f th)))) k' g' → Q tt k' g') →
  safe n t (upd_thread e f) k g Q.
Proof.
  intros Hh HX HXp Hs Hm HQ. pose proof (making_current _ _ _ _ _ _ _ _ Hh) as Het.
  pose proof Hh as [[Hcore _] _ _ _ _ HF]. destruct (m_facts _ _ _ _ _ _ HF) as [HXk [Hmk Hth]].
  destruct (fill_core o k g t e th (f th)) as [Hcore' Hg]; [done|congruence|done..|].
  eapply safe_here_do; [exact Hh|by apply upd_thread_run|exact Hg|exact Hcore'| |done|done|done| |
    by apply (stable_mine o t lv None), (frame_making X t e s (Some (f th)))|exact HQ].
  - rewrite stat_insert. by apply fupd_ne.
  - eapply mine_plain; [done..|apply (m_settled _ _ _ _ _ _ HF)|]. split; [by eapply (HXp k g)|]. split; [done|].
    apply lookup_insert_eq.
Qed.

Lemma safe_alloc_frame n t lv X e s th size k g (Q : Z → kernel → ghost → Prop) :
  here t lv false (mine t lv None (making X t e s (Some th))) k g → frame t X → plain X → size mod 4 = 0 →
  (∀ v th' k' g', here t lv false (mine t lv None (making X t e s (Some th'))) k' g' → Q v k' g') →
  safe n t (alloc_frame e size) k g Q.
Proof.
  intros Hh HX HXp Hsz HQ. unfold alloc_frame, is_thread.
  pose proof (stable_mine o t lv None _ (frame_making X t e s (Some th) HX)) as Hst.
  pose proof Hh as [[Hcore _] _ _ _ _ HF]. destruct (m_facts _ _ _ _ _ _ HF) as [_ [_ Hth]].
  do 2 apply safe_bind. eapply safe_read; [exact Hh|exact Hst|by apply kthread_run|]. intros k1 g1 H1.
  apply safe_ret. apply safe_bind, safe_assert.
  { apply bool_decide_true. by apply (f_magic _ _ _ (c_life _ _ _ _ _ Hcore) e). }
  apply safe_bind, safe_assert; [by apply bool_decide_true|].
  pose proof H1 as [_ _ _ _ _ HF1]. destruct (m_facts _ _ _ _ _ _ HF1) as [_ [_ Hth1]].
  apply safe_bind. eapply safe_read; [exact H1|exact Hst|by apply kthread_run|]. intros k2 g2 H2.
  apply safe_bind. eapply safe_fill; [exact H2|done|done|done|done|]. intros k3 g3 H3. apply safe_ret.
  by eapply HQ.
Qed.

(** ** Starting it *)

Lemma safe_pstack {A} n t e entry (cont : prog A) k g g' Q :
  (∀ u, u ≠ t → u ≠ e →
     (started g' u → started g u) ∧ (alive k u → started g u → rely u k g k g')) →
  e ≠ t →
  (∀ n', resumable o (λ k' g' prev, safe n' e (entry prev) k' g' (λ _ _ _, True)) e k g') →
  (∀ n', (n' ≤ n)%nat → after o t k g' (λ k'' g'', safe n' t cont k'' g'' Q)) →
  safe n t (PStack e entry cont) k g Q.
Proof. intros H1 H2 H3 H4. destruct n as [|n]; [done|]. cbn. exists g'. split_and!; try done. apply H4. lia. Qed.

(** The stages before the stack is complete. *)
Lemma safe_create n t lv X Y W nm pri f k g Q :
  here t lv false (mine t lv None X) k g → page_facts t X Y W →
  (lv = true → ∀ k g, Y k g → idler g ≠ None) →
  (∀ e th v k' g', here t lv false (mine t lv None (making Y t e Listed (Some th))) k' g' →
     safe n t (PStack e (λ prev, thread_schedule_tail prev;; kernel_thread f) (thread_unblock e;; mret v)) k' g' Q) →
  (∀ k' g', here t lv false (mine t lv None W) k' g' → Q TID_ERROR k' g') →
  safe n t (thread_create nm pri f) k g Q.
Proof.
  intros Hh HP Hb HQ HQ0. pose proof HP as [HX HY HYp HZ HXY HXZ]. unfold thread_create.
  apply safe_bind. eapply (safe_get_page _ _ _ X Y W); [done|done| |by intros; apply safe_ret, HQ0]. intros e k1 g1 H1.
  apply safe_bind. eapply (safe_init_thread _ _ _ Y); [done|done|done|done|]. intros th2 k2 g2 H2.
  apply safe_bind. eapply safe_allocate_tid; [done|by apply frame_making|]. intros v k3 g3 H3.
  apply safe_bind. eapply safe_fill; [done|done|done|done|done|]. intros k4 g4 H4.
  apply safe_bind. eapply safe_alloc_frame; [done|done|done|done|]. intros _ th5 k5 g5 H5.
  apply safe_bind. eapply safe_alloc_frame; [done|done|done|done|]. intros _ th6 k6 g6 H6.
  apply safe_bind. eapply safe_alloc_frame; [done|done|done|done|]. intros _ th7 k7 g7 H7.
  by eapply HQ.
Qed.

(** What a client leaves behind: it runs, with interrupts enabled or disabled. *)
Definition outside t k g : Prop := ∃ lv, here t lv false (client t lv) k g.

(** The first thing a new thread executes. *)
Lemma safe_entry n e f k g prev :
  resumed o e prev k g → client e true k g →
  (∀ k g, here e true false (client e true) k g → safe n e f k g (λ _, outside e)) →
  safe n e (thread_schedule_tail (Some prev);; kernel_thread f) k g (λ _ _ _, True).
Proof.
  intros Hres Hcl Hf. apply safe_bind. eapply safe_tail; [done|]. intros k1 g1 Hi1 Hc1 Hl1 He1 Hr1.
  assert (client e true k1 g1) as Hcl1 by (by eapply stable_client).
  unfold kernel_thread. apply safe_bind.
  eapply (safe_set_level o _ _ true _ (client e true)); [by split|apply stable_client|done| |].
  { intros _. apply (m_facts _ _ _ _ _ _ Hcl1). }
  intros _ k2 g2 H2. apply safe_bind. eapply safe_mono; [done| |by apply Hf].
  intros _ k3 g3 [lv H3]. apply (safe_thread_exit o n e lv). destruct H3 as [? ? ? ? ? HF3]. split; try done.
  by apply (client_local e lv).
Qed.

(** A page in the making knows what a client needs to know. *)
Lemma embryo_client t e k g g' :
  core None None k g → maker g !! e = Some (t, Listed) → settled g' →
  owner g' = owner g → waits g' = waits g → idler g' ≠ Some e → idler g' ≠ None → client e true k g'.
Proof.
  intros Hcore Hmk Hset Ho Hw Hne Hno. assert (¬ started g e) as Hns by (unfold started; by rewrite Hmk).
  split; try done.
  - rewrite Ho. intros l Hl. destruct (k_dead _ _ _ (c_locks _ _ _ _ _ Hcore) l e Hl) as [[_ ?]|?]; done.
  - split; [|done]. unfold w_none. rewrite Hw. apply eq_None_not_Some.
    intros Hs. by destruct (f_waiter _ _ _ (c_life _ _ _ _ _ Hcore) e Hs).
Qed.

(** The stack of the new thread is complete; in [idl] the new idle thread, if it is
    one. *)
Lemma stacked_core t e idl k g :
  core None None k g → maker g !! e = Some (t, Listed) → current k = t →
  idl = idler g ∧ idl ≠ None ∨ idl = Some e ∧ idler g = None →
  let g' := Ghost (owner g) (<[e := (t, Stacked)]> (maker g)) idl (waits g) in
  core None None k g' ∧
  ∀ u, u ≠ t → u ≠ e → (started g' u → started g u) ∧ (alive k u → started g u → rely u k g k g').
Proof.
  intros Hcore Hmk Hec Hidl g'. pose proof Hcore as [Hq Hl Hp Hlk Hcd Hi].
  destruct (f_maker _ _ _ Hl e t Listed Hmk) as (Hini & Hcur & Hste). rewrite decide_False in Hste by done.
  assert (∀ u, u ≠ e → started g' u ↔ started g u) as Hsd.
  { intros u Hu. unfold started. cbn. by rewrite lookup_insert_ne. }
  assert (∀ u, unlisted g' u ↔ unlisted g u) as Hun.
  { intros u. unfold unlisted. cbn. destruct (decide (u = e)) as [->|Hu]; [|by rewrite lookup_insert_ne].
    rewrite lookup_insert_eq, Hmk. naive_solver. }
  assert (∀ u, is_Some (maker g' !! u) ↔ is_Some (maker g !! u)) as Hsm.
  { intros u. cbn. destruct (decide (u = e)) as [->|Hu]; [rewrite lookup_insert_eq, Hmk|by rewrite lookup_insert_ne].
    split; intros _; by eexists. }
  assert (∀ u, started g u → started g' u) as Hse.
  { intros u Hs. destruct (decide (u = e)) as [->|Hu]; [|by apply Hsd]. unfold started. cbn. by rewrite lookup_insert_eq. }
  assert (started g' e) as Hst by (unfold started; cbn; by rewrite lookup_insert_eq).
  split.
  - split.
    + destruct Hq as [Q1 Q2 Q3 Q4 Q5 Q6]. split; try done. intros s u Hu. destruct (Q5 s u Hu) as (? & Hm & ?).
      assert (u ≠ e) by congruence. split_and!; [done|cbn; by rewrite lookup_insert_ne|].
      cbn. destruct Hidl as [[-> _]|[-> _]]; [done|congruence].
    + destruct Hl as [H1 H2 H3 H4 H5 H6 H7]. split; try done.
      * intros u. rewrite Hun. apply H5.
      * intros e' u s. cbn. rewrite lookup_insert_Some. intros [[<- [= <- <-]]|[_ He']]; [|by apply (H6 e' u)].
        by rewrite decide_False.
      * intros u Hu. destruct (H7 u Hu). auto.
    + destruct Hp as [P1 P2 P3 P4 P5]. split; try done. intros u. rewrite Hsm. apply P5.
    + destruct Hlk as [L1 L2 L3 L4]. split; try done. intros l u Hu. destruct (L2 l u Hu) as [[? ?]|?]; auto.
    + done.
    + destruct Hi as [I1 I2 I3]. destruct Hidl as [[Hid Hno]|[Hid Hn]].
      * split; cbn [idler g']; rewrite Hid in *; [done| |done].
        intros i Hidr. rewrite Hsm. by apply I2.
      * destruct (I3 Hn) as (_ & Hnone & _). split; cbn [idler g']; rewrite Hid; [congruence| |done].
        intros i [= <-]. split_and!; [by exists THREAD_BLOCKED|done| |done]. intros _. left. by rewrite Hsm, Hmk.
  - intros u Hu Hue. split; [by apply Hsd|]. intros Ha Hs. destruct Hidl as [[Hid Hno]|[Hid Hn]].
    + split; try done; [|constructor|].
      * intros e' s He'. cbn. rewrite lookup_insert_ne; [done|]. intros <-. congruence.
      * intros Hset i Hidr. cbn in Hidr |- *. rewrite Hid in Hidr. rewrite lookup_insert_ne; [by apply Hset|].
        intros <-. pose proof (Hset e Hidr). congruence.
    + destruct (i_boot _ _ Hi Hn) as (_ & _ & Hb & _). by rewrite (Hb u Ha Hs), Hec in Hu.
Qed.

(** [thread_unblock(t)] for the thread that was made. *)
Lemma safe_start n t lv X e th k g Q :
  here t lv false (mine t lv None (making X t e Stacked (Some th))) k g → frame t X → plain X →
  (lv = true → ∀ k g, X k g → idler g ≠ None) →
  (∀ k' g', here t lv false (mine t lv None X) k' g' → Q tt k' g') →
  safe n t (thread_unblock e) k g Q.
Proof.
  intros Hh HX HXp Hb HQ. unfold thread_unblock, is_thread. pose proof (making_current _ _ _ _ _ _ _ _ Hh) as Het.
  pose proof (stable_mine o t lv None _ (frame_making X t e Stacked (Some th) HX)) as Hst.
  pose proof Hh as [[Hcore _] _ _ _ _ HF]. destruct (m_facts _ _ _ _ _ _ HF) as [_ [_ Hth]].
  do 2 apply safe_bind. eapply safe_read; [exact Hh|exact Hst|by apply kthread_run|]. intros k1 g1 H1.
  apply safe_ret. apply safe_bind, safe_assert.
  { apply bool_decide_true. by apply (f_magic _ _ _ (c_life _ _ _ _ _ Hcore) e). }
  apply safe_bind. eapply safe_intr_disable; [done|done|]. intros k2 g2 H2.
  pose proof H2 as [[Hcore2 Hrun2] Hc2 Hl2 He2 _ HF2]. destruct (m_facts _ _ _ _ _ _ HF2) as [HX2 [Hmk2 Hth2]].
  destruct (start_core o k2 g2 t e th Hcore2 Hmk2 Hth2 Het) as (Hcore3 & Hg3 & Hln & Hbl & Hmg & Hst3).
  set (k3 := upd_ready_list (λ l, l ++ [e]) k2) in *.
  apply safe_bind. eapply safe_read_off; [by apply kthread_run|done|done|].
  apply safe_bind, safe_assert; [by apply bool_decide_true|].
  apply safe_bind. eapply (safe_step o _ _ _ _ _ _ k3 g2); [|apply same_guar, same_ready|done|done|].
  { unfold mbind, M_bind. cbn [get]. rewrite bool_decide_true by by rewrite Hth2. cbn [check mret M_ret].
    by rewrite bool_decide_true. }
  apply safe_bind. eapply (safe_step o _ _ _ _ _ _ (readied e th k2) (no_maker e g2)); [by apply (upd_thread_run k3)|done|done|done|].
  apply safe_bind. eapply (safe_set_level o _ _ _ _ (mine t lv None X)).
  - split; try done.
    + split; [done|]. change (current (readied e th k2)) with (current k2).
      rewrite Hst3; [done|]. by rewrite Hc2.
    + eapply mine_plain; [done..| |by eapply (HXp k2 g2)].
      intros i Hi. cbn. pose proof (m_settled _ _ _ _ _ _ HF2 i Hi).
      destruct (decide (i = e)) as [->|Hie]; [apply lookup_delete_eq|by rewrite lookup_delete_ne].
  - by apply stable_mine.
  - done.
  - intros Hlv. by apply (Hb Hlv k2 g2).
  - intros b k4 g4 H4. by apply safe_ret, HQ.
Qed.

(** Creating a thread that runs [f]. *)
Lemma safe_thread_create n t lv nm pri f k g (Q : Z → kernel → ghost → Prop) :
  here t lv false (client t lv) k g →
  (∀ n' e k g, here e true false (client e true) k g → safe n' e f k g (λ _, outside e)) →
  (∀ v k' g', here t lv false (client t lv) k' g' → Q v k' g') →
  safe n t (thread_create nm pri f) k g Q.
Proof.
  intros Hh Hf HQ. pose proof (frame_none t) as HX. pose proof (plain_wfact t w_none) as HXp.
  assert (lv = true → ∀ k g, wfact t w_none k g → idler g ≠ None) as Hb by by intros _ k' g' [_ ?].
  eapply safe_create; [done|by apply page_facts_plain|done| |by intros; apply HQ]. intros e th v k1 g1 H1.
  pose proof (making_current _ _ _ _ _ _ _ _ H1) as Het.
  pose proof H1 as [[Hcore Hrun] Hc Hl He Hm HF]. destruct (m_facts _ _ _ _ _ _ HF) as [[Hw Hno] [Hmk Hth]].
  pose proof (m_settled _ _ _ _ _ _ HF) as Hset.
  destruct (stacked_core t e (idler g1) k1 g1 Hcore Hmk Hc) as [Hcore' Hg']; [by left|].
  assert (idler g1 ≠ Some e) as Hne by (intros Hi; rewrite (Hset e Hi) in Hmk; done).
  eapply (safe_pstack _ _ _ _ _ _ _ (with_maker e (t, Stacked) g1)); [exact Hg'|done| |].
  - intros n' k2 g2 prev Hres Hr. apply safe_entry; [done| |by apply Hf].
    eapply stable_client; [exact Hr|]. eapply (embryo_client t e k1 g1); try done.
    eapply settled_maker; [done|done|]. right. by rewrite Hmk.
  - intros n' Hn'. eapply here_after; [|by apply (stable_mine o t lv None _ (frame_making (wfact t w_none) t e Stacked (Some th) HX))|].
    + split; try done. by eapply mine_making.
    + intros k2 g2 H2. apply safe_bind. eapply safe_start; [done|done|done|done|]. intros k3 g3 H3.
      by apply safe_ret, HQ.
Qed.

End create.
