(* ===== verification/KernelClient.v ===== *)
(** * Pintos: starting the scheduler, clients, drivers and runs of the machine

    First [idle], [thread_start] and the handlers of external interrupts, which run on
    the stack of whatever thread they interrupt.
    A client is any program made of the functions the kernel offers to threads; a
    driver is what a device may register as the handler of an external interrupt.
    Whatever a client does, and whenever interrupts arrive, the machine's invariant
    is kept.  It holds from the moment when [main] calls [thread_start], in a state that
    [fresh] describes. *)

From stdpp Require Import base tactics list gmap.
From Stdlib Require Import ZArith Lia.
From S2P Require Import Prelude Bitmap BitmapProps Kernel Sched Synch Threads KernelInv KernelLogic KernelTrans KernelSched KernelSynch KernelLocks KernelConds KernelMake KernelThreads.

Local Open Scope Z_scope.

(** ** The idle thread, interrupts and starting the scheduler *)

Section boot.
Context (o : objects).
Hypothesis Hpool : kernel_pool_lock ∈ o_locks o.
Hypothesis Htid : tid_lock ∈ o_locks o.
Local Abbreviation rely := (rely o).
Local Abbreviation guar := (guar o).
Local Abbreviation core := (core o).
Local Abbreviation inv := (inv o).
Local Abbreviation safe := (safe o).
Local Abbreviation stable := (stable o).
Local Abbreviation here := (here o).
Implicit Types (k : kernel) (g : ghost) (t u e : tptr) (X : kernel → ghost → Prop).

(** ** The idle thread *)

Definition is_idler t k g : Prop := idler g = Some t.
Definition is_idle t k g : Prop := idler g = Some t ∧ idle_thread k = Some t.

Lemma stable_idler t : stable t (is_idler t).
Proof. intros k g k' g' Hr H. unfold is_idler. by rewrite (r_idler _ _ _ _ _ _ Hr). Qed.

Lemma stable_idle t : stable t (is_idle t).
Proof.
  intros k g k' g' Hr [H1 H2]. split; [by rewrite (r_idler _ _ _ _ _ _ Hr)|]. by apply (r_idle _ _ _ _ _ _ Hr).
Qed.

Lemma set_idle_core t k g :
  core None None k g → stat k t = Some THREAD_RUNNING → idler g = Some t →
  core None None (upd_idle_thread (λ _, Some t) k) g ∧ guar t k g (upd_idle_thread (λ _, Some t) k) g.
Proof.
  intros Hcore Hrun Hid. assert (maker g !! t = None) as Hm by by apply (core_unmade _ _ _ _ _ _ _ Hcore Hrun).
  destruct Hcore as [[Q1 Q2 Q3 Q4 Q5 Q6] Hl Hp Hlk Hcd [I1 I2 I3]]. split.
  - split; [|by apply (life_frame _ _ k)|done|by destruct Hlk|done|].
    + split; try done.
      * intros u Hu. destruct (Q2 u Hu) as [Hs _]. split; [done|]. cbn. congruence.
      * intros u Hu. destruct (Q3 u Hu) as [?|[Hi|?]]; [by left| |by right; right].
        right. left. cbn. apply I1 in Hi. congruence.
    + split; cbn.
      * by intros i [= <-].
      * intros i Hi. assert (i = t) as -> by congruence. destruct (I2 t Hid) as (? & ? & _).
        split_and!; try done. rewrite Hm. by intros [].
      * congruence.
  - intros u Hu. split; [done|]. intros _ _. split; try done; try constructor.
    intros Hi. apply I1 in Hi. congruence.
Qed.

Lemma safe_idle n t p k g Q :
  here t true false (is_idler t) k g → is_Some (o_semas o !! p) → safe n t (idle (Sema p)) k g Q.
Proof.
  intros Hh Hp. unfold idle. apply safe_bind.
  eapply safe_thread_current; [done|apply stable_idler|]. intros k1 g1 H1.
  pose proof H1 as [[Hcore _] _ _ _ _ HF].
  destruct (set_idle_core t k1 g1 Hcore (here_stat _ _ _ _ _ _ _ H1) HF) as [Hcore2 Hg2].
  apply safe_bind. eapply (safe_here_do o _ _ _ _ _ (is_idle t));
    [exact H1|done|exact Hg2|exact Hcore2|done|done|done|done| |apply stable_idle|].
  { by split. }
  intros k2 g2 H2. apply safe_bind.
  eapply (safe_client_up o _ _ _ _ (is_idle t)); [done|apply stable_idle|done| |].
  { intros _ k' g' [Hi _]. congruence. }
  intros k3 g3 H3. apply (safe_loop o _ _ _ (λ _ k g, here t true false (is_idle t) k g)); [|done].
  intros n' [] k4 g4 _ H4. apply safe_bind. eapply safe_intr_disable; [done|apply stable_idle|].
  intros k5 g5 H5. pose proof H5 as [[Hcore5 _] Hc5 Hl5 He5 _ [Hid5 Hit5]].
  pose proof (here_stat _ _ _ _ _ _ _ H5) as Hrun5.
  destruct (here_thread _ _ _ _ _ _ _ H5) as (th & Hth & Hths & Hmg).
  destruct (restatus_core o k5 g5 t th THREAD_BLOCKED (ready_list k5) Hcore5 Hth Hths) as [Hcore6 Hsame6]; [by left|].
  assert (upd_ready_list (λ _, ready_list k5) k5 = k5) as E by by destruct k5. rewrite E in *.
  apply safe_bind. eapply safe_thread_block; [done|done|done|done|done|done| |].
  - split; try done.
    + by apply core_dying.
    + cbn. rewrite lookup_insert_eq. by eexists.
    + rewrite stat_insert, fupd_eq. done.
    + by apply (core_unmade _ _ _ _ _ _ _ Hcore5 Hrun5).
    + cbn. congruence.
    + cbn. congruence.
  - intros k7 g7 Hi7 Hc7 Hl7 He7 Hr7.
    assert (is_idle t k7 g7) as HF7.
    { eapply stable_idle; [|by split]. eapply rely_trans; [apply same_rely, Hsame6|exact Hr7]. }
    apply safe_bind. eapply (safe_do o _ _ _ _ _ _ _ g7); [done|apply guar_level|done|].
    eapply (here_after o t true false); [|apply stable_idle|].
    + split; try done. apply inv_level; [done|]. intros _. destruct HF7. congruence.
    + intros k8 g8 H8. by apply safe_ret.
Qed.

(** ** Starting the scheduler *)

(** The boot thread, before there is an idle thread. *)
Definition boots t k g : Prop := waits g !! t = None ∧ idler g = None.
Definition boots_free t k g : Prop := boots t k g ∧ ∃ u, free_page (kernel_pool k) u.

Lemma frame_boots t : frame t (boots t).
Proof.
  intros k g k' g' Hx [Hw Hi]. split; [|by rewrite (x_idler _ _ _ _ _ Hx)].
  pose proof (x_wait _ _ _ _ _ Hx) as Hm. rewrite Hw in Hm. by inversion Hm.
Qed.

Lemma boots_facts t : page_facts t (boots_free t) (boots t) (λ _ _, False).
Proof.
  split.
  - intros k g k' g' Hx [Hb [u Hu]]. split; [by eapply frame_boots|]. exists u.
    apply (x_free _ _ _ _ _ Hx); [apply Hb|done].
  - apply frame_boots.
  - intros k g k' g' Hw Hi [? ?]. split; [by rewrite Hw|by rewrite Hi].
  - by intros k g k' g' _.
  - by intros k g [? _].
  - intros k g m [_ [u Hu]] Hno. by apply (Hno u).
Qed.

Lemma client_level t lv lv' k g : client t lv k g → client t lv' k g.
Proof. intros [H1 H2 H3 H4 H5 [H6 H7]]. by split. Qed.

(** The idle thread is made while interrupts are disabled. *)
Lemma safe_create_idle n t p nm pri k g (Q : Z → kernel → ghost → Prop) :
  here t false false (mine t false None (boots_free t)) k g → is_Some (o_semas o !! p) →
  (∀ v k' g', here t false false (client t false) k' g' → Q v k' g') →
  safe n t (thread_create nm pri (idle (Sema p))) k g Q.
Proof.
  intros Hh Hp HQ. eapply (safe_create o Hpool Htid _ _ _ _ _ _ _ _ _ _ _ _ Hh (boots_facts t)); [done| |].
  2: { intros k' g' [? ? ? ? ? HF]. destruct (m_facts _ _ _ _ _ _ HF). }
  intros e th v k1 g1 H1. pose proof (making_current _ _ _ _ _ _ _ _ _ H1) as Het.
  pose proof H1 as [[Hcore Hrun] Hc Hl He Hm HF]. destruct (m_facts _ _ _ _ _ _ HF) as [[Hw Hno] [Hmk Hth]].
  destruct (stacked_core o t e (Some e) k1 g1 Hcore Hmk Hc) as [Hcore' Hg']; [by right|].
  set (g2 := Ghost _ _ _ _) in *.
  assert (maker g2 !! e = Some (t, Stacked)) as Hmk2 by apply lookup_insert_eq.
  destruct (start_core o k1 g2 t e th Hcore' Hmk2 Hth Het) as (Hcore3 & Hg3 & Hln & Hbl & Hmg & Hst3).
  eapply (safe_pstack _ _ _ _ _ _ _ _ g2); [exact Hg'|done| |].
  - intros n' k2 g3 prev Hres Hr. apply safe_bind. eapply safe_tail; [done|].
    intros k4 g4 Hi4 Hc4 Hl4 He4 Hr4.
    assert (is_idler e k4 g4) as Hid4 by (eapply stable_idler; [exact Hr4|by eapply stable_idler]).
    unfold kernel_thread. apply safe_bind.
    eapply (safe_set_level o _ _ true _ (is_idler e)); [by split|apply stable_idler|done| |].
    { intros _. unfold is_idler in Hid4. congruence. }
    intros _ k5 g5 H5. apply safe_bind. by apply safe_idle.
  - intros n' Hn'. unfold after. rewrite Hl. apply safe_bind.
    eapply safe_unblock_off; [done|done|done|done|done|done|exact Hg3|]. apply safe_ret, HQ. split; try done.
    + split; [exact Hcore3|]. change (stat (readied e th k1) (current k1) = Some THREAD_RUNNING).
      rewrite Hst3; [done|]. by rewrite Hc.
    + destruct HF as [F1 F2 F3 F4 F5 F6]. split; try done.
      * cbn. congruence.
      * intros i Hi. cbn in Hi |- *. injection Hi as <-. apply lookup_delete_eq.
Qed.

Lemma safe_thread_start n t p k g Q :
  current k = t → intr_level k = false →
  here t false false (mine t false None (boots_free t)) (upd_semas (<[Sema p := Semaphore 0 []]>) k) g →
  is_Some (o_semas o !! p) →
  (∀ k' g', here t true false (client t true) k' g' → Q tt k' g') →
  safe n t (thread_start (Sema p)) k g Q.
Proof.
  intros Hc Hl Hh Hp HQ. unfold thread_start. apply safe_bind.
  eapply (safe_step o _ _ _ _ _ _ _ g); [done| |done|done|].
  { intros u _. split; [done|]. intros _ _. calm. }
  apply safe_bind. eapply safe_create_idle; [done|done|]. intros v k1 g1 [Hi1 Hc1 Hl1 He1 Hm1 HF1].
  apply safe_bind. eapply (safe_set_level o _ _ true _ (client t true)); [|apply stable_client|done| |].
  - split; try done. by eapply client_level.
  - intros _. apply (m_facts _ _ _ _ _ _ HF1).
  - intros _ k2 g2 H2. by eapply safe_client_down.
Qed.

End boot.

(** ** Clients *)

Section client.
Context (o : objects).
Local Abbreviation rely := (rely o).
Local Abbreviation guar := (guar o).
Local Abbreviation core := (core o).
Local Abbreviation inv := (inv o).
Local Abbreviation safe := (safe o).
Local Abbreviation stable := (stable o).
Local Abbreviation here := (here o).
Implicit Types (k : kernel) (g : ghost) (t u e : tptr).

(** ** Counters and flags *)

(** Nothing changes but counters and the flags of the interrupt handler. *)
Definition quiet k k' : Prop :=
  ∃ tt it kt tk ext y un up,
    k' = Kernel (threads k) (current k) (ready_list k) (all_list k) (idle_thread k) (initial_thread k)
           (next_tid k) tt it kt tk (intr_level k) ext y un (semas k) (locks k) (conds k) (kernel_pool k)
           up (trace k).

Lemma quiet_core k k' g : quiet k k' → core None None k g → core None None k' g.
Proof.
  intros (? & ? & ? & ? & ? & ? & ? & ? & ->) [Hq Hl Hp Hlk Hcd Hi].
  split; [done|by apply (life_frame _ _ k)|done|by destruct Hlk|done|by apply (idle_frame _ k)].
Qed.

Lemma quiet_rely u k k' g : quiet k k' → rely u k g k' g.
Proof. intros (? & ? & ? & ? & ? & ? & ? & ? & ->). calm. Qed.

Lemma quiet_guar t k k' g : quiet k k' → guar t k g k' g.
Proof.
  intros Hq u _. split; [|intros _ _; by apply quiet_rely]. destruct Hq as (? & ? & ? & ? & ? & ? & ? & ? & ->). done.
Qed.

Ltac quietly := unfold quiet; repeat eexists.

Lemma safe_quiet n t ext ext' F f k g (Q : unit → kernel → ghost → Prop) :
  here t false ext F k g → stable t F → quiet k (f k) → in_external_intr (f k) = ext' →
  (∀ k' g', here t false ext' F k' g' → Q tt k' g') → safe n t (kmod f) k g Q.
Proof.
  intros Hh Hst Hq He HQ. pose proof Hh as [[Hcore Hrun] Hc Hl _ _ HF].
  pose proof (quiet_core _ _ g Hq Hcore) as Hcore'. pose proof (quiet_rely t _ _ g Hq) as Hr.
  pose proof (quiet_guar t _ _ g Hq) as Hg. destruct Hq as (? & ? & ? & ? & ? & ? & ? & ? & E). rewrite E in *.
  eapply (safe_step o _ _ _ _ _ _ _ g); [unfold modify; by rewrite E|exact Hg|done|done|].
  apply HQ. split; try done. by eapply Hst.
Qed.

(** ** Drivers *)

Inductive driver : prog unit → Prop :=
  | d_ret : driver (mret tt)
  | d_seq p q : driver p → driver q → driver (p;; q)
  | d_timer : driver timer_interrupt
  | d_yield : driver intr_yield_on_return
  | d_up p : is_Some (o_semas o !! p) → driver (sema_up (Sema p)).

Lemma safe_yield_on_return n t F k g Q :
  here t false true F k g → stable t F → (∀ k' g', here t false true F k' g' → Q tt k' g') →
  safe n t intr_yield_on_return k g Q.
Proof.
  intros Hh Hst HQ. unfold intr_yield_on_return. apply safe_bind. eapply safe_intr_context; [done|done|].
  intros k1 g1 H1. apply safe_bind, safe_assert; [done|].
  eapply safe_quiet; [done|done|quietly|apply (h_ext _ _ _ _ _ _ _ H1)|done].
Qed.

Lemma safe_timer_interrupt n t F k g Q :
  here t false true F k g → stable t F → (∀ k' g', here t false true F k' g' → Q tt k' g') →
  safe n t timer_interrupt k g Q.
Proof.
  intros Hh Hst HQ. unfold timer_interrupt, thread_tick. apply safe_bind.
  eapply safe_quiet; [done|done|quietly|apply (h_ext _ _ _ _ _ _ _ Hh)|]. intros k1 g1 H1.
  apply safe_bind. eapply safe_thread_current; [done|done|]. intros k2 g2 H2.
  apply safe_bind. eapply safe_read; [exact H2|done|done|]. intros k3 g3 H3. apply safe_bind.
  assert (∀ f, quiet k3 (f k3) → in_external_intr (f k3) = in_external_intr k3 →
    safe n t (kmod f) k3 g3 (λ _ k' g', here t false true F k' g')) as Hcount.
  { intros f Hq He. eapply safe_quiet; [done|done|done|rewrite He; apply (h_ext _ _ _ _ _ _ _ H3)|done]. }
  eapply (safe_mono _ n n _ _ _ _ (λ _ k' g', here t false true F k' g'));
    [done| |case_bool_decide; apply Hcount; [quietly|done|quietly|done]].
  intros _ k4 g4 H4. apply safe_bind.
  eapply safe_quiet; [exact H4|done|quietly|apply (h_ext _ _ _ _ _ _ _ H4)|]. intros k5 g5 H5.
  apply safe_bind. eapply safe_read; [exact H5|done|done|]. intros k6 g6 H6.
  case_bool_decide; cbn [pwhen]; [by eapply safe_yield_on_return|by apply safe_ret, HQ].
Qed.

Lemma safe_driver h : driver h → ∀ n t F k g Q,
  here t false true F k g → stable t F → (∀ k' g', here t false true F k' g' → Q tt k' g') →
  safe n t h k g Q.
Proof.
  induction 1 as [|p q _ IHp _ IHq| | |p Hp]; intros n t F k g Q Hh Hst HQ.
  - by apply safe_ret, HQ.
  - apply safe_bind. eapply IHp; [done|done|]. intros k1 g1 H1. by eapply IHq.
  - by eapply safe_timer_interrupt.
  - by eapply safe_yield_on_return.
  - by eapply safe_client_up.
Qed.

(** ** Interrupts *)

Definition drivers (handlers : Z → option (prog unit)) : Prop :=
  ∀ v h, handlers v = Some h → 0x20 ≤ v < 0x30 ∧ driver h.

Lemma safe_intr_handler n t v handlers F k g Q :
  drivers handlers → here t false false F k g → stable t F →
  (∀ k' g', here t false false F k' g' → Q tt k' g') →
  safe n t (intr_handler thread_yield v (handlers v)) k g Q.
Proof.
  intros Hd Hh Hst HQ. unfold intr_handler. set (ext := bool_decide (0x20 ≤ v < 0x30)).
  apply safe_bind. eapply (safe_mono _ n n _ _ _ _ (λ _ k' g', here t false ext F k' g')); [done| |].
  - intros _ k1 g1 H1. apply safe_bind.
    eapply (safe_mono _ n n _ _ _ _ (λ _ k' g', here t false ext F k' g')); [done| |].
    + intros _ k2 g2 H2. destruct ext; cbn [pwhen]; [|by apply safe_ret, HQ].
      apply safe_bind. eapply safe_get_level; [done|done|]. intros k3 g3 H3. apply safe_bind, safe_assert; [done|].
      apply safe_bind. eapply safe_intr_context; [done|done|]. intros k4 g4 H4. apply safe_bind, safe_assert; [done|].
      apply safe_bind. eapply safe_quiet; [done|done|quietly|done|]. intros k5 g5 H5.
      apply safe_bind. eapply safe_read; [exact H5|done|done|]. intros k6 g6 H6.
      destruct (yield_on_return k5); cbn [pwhen]; [|by apply safe_ret, HQ]. by eapply safe_thread_yield.
    + destruct (handlers v) as [h|] eqn:Hv.
      * destruct (Hd v h Hv) as [Hr Hdr]. unfold ext in *. rewrite bool_decide_true in * by done.
        by eapply safe_driver.
      * case_bool_decide; [by apply safe_ret|].
        eapply safe_quiet; [done|done|quietly|apply (h_ext _ _ _ _ _ _ _ H1)|done].
  - destruct ext; cbn [pwhen]; [|by apply safe_ret].
    apply safe_bind. eapply safe_get_level; [done|done|]. intros k3 g3 H3. apply safe_bind, safe_assert; [done|].
    apply safe_bind. eapply safe_intr_context; [done|done|]. intros k4 g4 H4. apply safe_bind, safe_assert; [done|].
    apply safe_bind. eapply (safe_quiet _ _ _ true); [done|done|quietly|done|]. intros k5 g5 H5.
    eapply safe_quiet; [done|done|quietly|apply (h_ext _ _ _ _ _ _ _ H5)|done].
Qed.

Lemma machine_interrupt n handlers v m :
  drivers handlers → machine_ok o n m →
  match step thread_yield handlers (Interrupt v) m with Running m' => machine_ok o n m' | _ => False end.
Proof.
  intros Hd (g & Haf & Hst). destruct m as [k p sv]. cbn [step kst cpu saved] in *.
  destruct (intr_level k) eqn:Hl; [|by exists g].
  unfold after in Haf. rewrite Hl in Haf. destruct Haf as (Hi & He & HQ).
  assert (idler g ≠ None) as Hno.
  { intros Hn. destruct (i_boot _ _ (c_idle _ _ _ _ _ (inv_core _ _ _ Hi)) Hn) as [? _]. congruence. }
  set (t := current k) in *. set (k1 := upd_intr_level (λ _, false) k).
  assert (∀ u, rely u k g k1 g) as Hk1 by (intros u; calm).
  exists g. cbn [kst cpu saved]. split.
  - change (safe n t (intr_handler thread_yield v (handlers v);; kmod (upd_intr_level (λ _, true));; p)
      k1 g (λ _ _ _, True)).
    apply safe_bind. eapply (safe_intr_handler _ _ _ _ (rely t k g)); [done| |apply stable_rely|].
    { split; try done. by apply inv_level. }
    intros k2 g2 [Hi2 Hc2 Hl2 He2 _ Hr2]. apply safe_bind.
    eapply (safe_do o _ _ _ _ _ _ _ g2); [done|apply guar_level|done|]. unfold after. cbn. split_and!; [|done|].
    + apply inv_level; [done|]. intros _. by rewrite (r_idler _ _ _ _ _ _ Hr2).
    + intros k3 g3 Hi3 Hc3 Hl3 He3 Hr3. apply HQ; try done. eapply rely_trans; [exact Hr2|].
      eapply rely_trans; [|exact Hr3]. calm.
  - intros u Hu Ha Hs. destruct (Hst u Hu Ha Hs) as (c & Hc & HR). exists c. split; [done|].
    eapply resumable_mono; [|apply Hk1|exact HR]. done.
Qed.

(** ** Clients *)

Inductive api : ∀ {A : Type}, prog A → Prop :=
  | a_ret {A} (a : A) : api (mret a)
  | a_bind {A B} (p : prog A) (f : A → prog B) : api p → (∀ a, api (f a)) → api (p ≫= f)
  | a_loop {L A} (body : L → prog (L + A)) l : (∀ l, api (body l)) → api (ploop body l)
  | a_sema_down p : is_Some (o_semas o !! p) → api (sema_down (Sema p))
  | a_sema_try_down p : is_Some (o_semas o !! p) → api (sema_try_down (Sema p))
  | a_sema_up p : is_Some (o_semas o !! p) → api (sema_up (Sema p))
  | a_lock_acquire l : l ∈ o_locks o → api (lock_acquire l)
  | a_lock_try_acquire l : l ∈ o_locks o → api (lock_try_acquire l)
  | a_lock_release l : l ∈ o_locks o → api (lock_release l)
  | a_lock_held l : l ∈ o_locks o → api (lock_held_by_current_thread l)
  | a_cond_wait c l : o_conds o !! c = Some l → l ∈ o_locks o → api (cond_wait c l)
  | a_cond_signal c l : o_conds o !! c = Some l → l ∈ o_locks o → api (cond_signal c l)
  | a_cond_broadcast c l : o_conds o !! c = Some l → l ∈ o_locks o → api (cond_broadcast c l)
  | a_thread_create nm pri f : api f → api (thread_create nm pri f)
  | a_thread_yield : api thread_yield
  | a_thread_exit : api thread_exit
  | a_thread_name : api thread_name
  | a_thread_tid : api thread_tid
  | a_thread_get_priority : api thread_get_priority
  | a_thread_set_priority v : api (thread_set_priority v)
  | a_intr_get_level : api intr_get_level
  | a_intr_set_level level : api (intr_set_level level)
  | a_timer_ticks : api timer_ticks
  | a_timer_elapsed v : api (timer_elapsed v)
  | a_timer_sleep v : api (timer_sleep v).

Lemma client_boot t lv k g : client t lv k g → idler g ≠ None.
Proof. intros H. apply (m_facts _ _ _ _ _ _ H). Qed.

(** Reading a field of the running thread. *)
Lemma safe_own_field {A} n t lv (f : thread → A) k g (Q : A → kernel → ghost → Prop) :
  here t lv false (client t lv) k g → (∀ a k' g', here t lv false (client t lv) k' g' → Q a k' g') →
  safe n t (t ← thread_current; th ← kthread t; mret (f th)) k g Q.
Proof.
  intros Hh HQ. apply safe_bind. eapply safe_thread_current; [done|apply stable_client|]. intros k1 g1 H1.
  destruct (here_thread _ _ _ _ _ _ _ H1) as (th & Hth & _). apply safe_bind.
  eapply safe_read; [exact H1|apply stable_client|by apply kthread_run|]. intros k2 g2 H2. by apply safe_ret, HQ.
Qed.

Lemma safe_set_priority n t lv v k g Q :
  here t lv false (client t lv) k g → (∀ k' g', here t lv false (client t lv) k' g' → Q tt k' g') →
  safe n t (thread_set_priority v) k g Q.
Proof.
  intros Hh HQ. apply safe_bind. eapply safe_thread_current; [done|apply stable_client|]. intros k1 g1 H1.
  destruct (here_thread _ _ _ _ _ _ _ H1) as (th & Hth & _). pose proof H1 as [[Hcore _] Hc _ _ _ HF].
  destruct (fill_core o k1 g1 t t th (set_priority v th)) as [Hcore' Hg]; [done| |done..|].
  { intros u s Hs. by destruct (f_maker _ _ _ (c_life _ _ _ _ _ Hcore) t u s Hs) as (_ & ? & _). }
  eapply (safe_here_do o _ _ _ _ _ (client t lv)); [exact H1|by apply upd_thread_run|exact Hg|exact Hcore'| |done|done|done| |
    apply stable_client|exact HQ].
  - rewrite stat_insert, fupd_eq. unfold stat. by rewrite Hth.
  - eapply mine_plain; [exact HF|done..|apply (m_settled _ _ _ _ _ _ HF)|]. apply (m_facts _ _ _ _ _ _ HF).
Qed.

Lemma safe_change_level n t lv lv' k g (Q : bool → kernel → ghost → Prop) :
  here t lv false (client t lv) k g → (∀ b k' g', here t lv' false (client t lv') k' g' → Q b k' g') →
  safe n t (intr_set_level lv') k g Q.
Proof.
  intros Hh HQ. destruct lv'.
  - change (intr_set_level true) with intr_enable. unfold intr_enable. apply safe_bind. eapply safe_get_level; [done|apply stable_client|]. intros k1 g1 H1.
    apply safe_bind. eapply safe_intr_context; [done|apply stable_client|]. intros k2 g2 H2.
    apply safe_bind, safe_assert; [done|]. pose proof H2 as [Hi Hc Hl He _ HF].
    apply safe_bind. eapply (safe_do o _ _ _ _ _ _ _ g2); [done|apply guar_level|done|].
    eapply (here_after o t true false (client t true)); [|apply stable_client|by intros; apply safe_ret, HQ].
    split; try done; [apply inv_level; [done|by intros _; eapply client_boot]|].
    eapply (client_level t lv). destruct HF. by split.
  - change (intr_set_level false) with intr_disable. eapply safe_intr_disable; [done|apply stable_client|]. intros k1 g1 [? ? ? ? ? HF]. apply HQ. split; try done.
    by eapply client_level.
Qed.

Lemma safe_ticks n t lv k g (Q : Z → kernel → ghost → Prop) :
  here t lv false (client t lv) k g → (∀ v k' g', here t lv false (client t lv) k' g' → Q v k' g') →
  safe n t timer_ticks k g Q.
Proof.
  intros Hh HQ. unfold timer_ticks. apply safe_bind. eapply safe_intr_disable; [done|apply stable_client|].
  intros k1 g1 H1. apply safe_bind. eapply safe_read; [exact H1|apply stable_client|done|]. intros k2 g2 H2.
  apply safe_bind. eapply safe_set_level; [done|apply stable_client|done| |by intros; apply safe_ret, HQ].
  intros _. eapply client_boot, H2.
Qed.

Lemma safe_elapsed n t lv v k g (Q : Z → kernel → ghost → Prop) :
  here t lv false (client t lv) k g → (∀ v k' g', here t lv false (client t lv) k' g' → Q v k' g') →
  safe n t (timer_elapsed v) k g Q.
Proof. intros Hh HQ. apply safe_bind. eapply safe_ticks; [done|]. intros. by apply safe_ret, HQ. Qed.

Lemma safe_client_yield n t lv k g Q :
  here t lv false (client t lv) k g → (∀ k' g', here t lv false (client t lv) k' g' → Q tt k' g') →
  safe n t thread_yield k g Q.
Proof.
  intros Hh HQ. eapply safe_thread_yield; [done|apply stable_client| |done]. intros _ k' g'. apply client_boot.
Qed.

Lemma safe_timer_sleep n t lv v k g Q :
  here t lv false (client t lv) k g → (∀ k' g', here t lv false (client t lv) k' g' → Q tt k' g') →
  safe n t (timer_sleep v) k g Q.
Proof.
  intros Hh HQ. unfold timer_sleep. apply safe_bind. eapply safe_ticks; [done|]. intros start k1 g1 H1.
  apply safe_bind. eapply safe_get_level; [done|apply stable_client|]. intros k2 g2 H2.
  apply safe_bind, safe_assert_blame; [unfold blame; tauto|]. intros _.
  apply (safe_loop o _ _ _ (λ _ k g, here t lv false (client t lv) k g)); [|done].
  intros n' [] k3 g3 _ H3. apply safe_bind. eapply safe_elapsed; [done|]. intros e k4 g4 H4.
  case_bool_decide; [|by apply safe_ret, HQ]. apply safe_bind. eapply safe_client_yield; [done|].
  intros k5 g5 H5. by apply safe_ret.
Qed.

Section api_safe.
Hypothesis Hpool : kernel_pool_lock ∈ o_locks o.
Hypothesis Htid : tid_lock ∈ o_locks o.

Lemma safe_api {A} (p : prog A) : api p → ∀ n t k g, outside o t k g → safe n t p k g (λ _, outside o t).
Proof.
  induction 1 as [A a|A B p f _ IHp _ IHf|L A body l _ IHb| | | | | | | | | | |nm pri f _ IHf| | | | | | | | | | |];
    intros n t k g [lv Hh]; pose proof (frame_none t) as HX.
  - apply safe_ret. by exists lv.
  - apply safe_bind. eapply safe_mono; [done| |apply IHp; by exists lv]. intros a k' g'. apply IHf.
  - apply (safe_loop o _ _ _ (λ _, outside o t)); [|by exists lv]. intros n' l' k' g' _ Ho.
    eapply safe_mono; [done| |by apply IHb]. by intros [].
  - eapply safe_client_down; [done|done|]. by exists lv.
  - eapply safe_client_try; [done|done|]. by exists lv.
  - eapply safe_client_up; [done|apply stable_client|done| |by exists lv]. intros _ k' g'. apply client_boot.
  - eapply (safe_lock_acquire o _ _ _ (wfact t w_none)); [done|done|done|]. intros k' g' [? ? ? ? ? [? _]].
    exists lv. by split.
  - eapply (safe_lock_try_acquire o _ _ _ _ (wfact t w_none)); [done|done|done|]. by exists lv.
  - eapply (safe_lock_release o _ _ _ _ (wfact t w_none)); [done|done|done|]. by exists lv.
  - eapply (safe_lock_held o _ _ _ _ (wfact t w_none)); [done|done|done|..]; intros k' g' [? ? ? ? ? [? _]];
      exists lv; by split.
  - eapply safe_cond_wait; [done|done|done|]. by exists lv.
  - eapply safe_cond_signal; [done|done|done|]. by exists lv.
  - eapply safe_cond_broadcast; [done|done|done|]. by exists lv.
  - eapply safe_thread_create; [done|done|done| |by exists lv]. intros n' e k' g' H'. apply IHf. by exists true.
  - eapply safe_client_yield; [done|]. by exists lv.
  - eapply safe_thread_exit. destruct Hh as [? ? ? ? ? HF]. split; try done. by apply (client_local t lv).
  - eapply safe_own_field; [done|]. by exists lv.
  - eapply safe_own_field; [done|]. by exists lv.
  - eapply safe_own_field; [done|]. by exists lv.
  - eapply safe_set_priority; [done|]. by exists lv.
  - eapply safe_get_level; [done|apply stable_client|]. by exists lv.
  - eapply safe_change_level; [done|]. intros b k' g' H'. by eexists.
  - eapply safe_ticks; [done|]. by exists lv.
  - eapply safe_elapsed; [done|]. by exists lv.
  - eapply safe_timer_sleep; [done|]. by exists lv.
Qed.

End api_safe.

(** ** Runs *)

Lemma machine_ok_mono n n' m : (n' ≤ n)%nat → machine_ok o n m → machine_ok o n' m.
Proof.
  intros Hn (g & Haf & Hst). exists g. split.
  - eapply after_mono; [|exact Haf]. intros k' g'. by apply safe_mono.
  - intros u Hu Ha Hs. destruct (Hst u Hu Ha Hs) as (c & Hc & HR). exists c. split; [done|].
    eapply resumable_mono; [|apply rely_refl|exact HR]. intros k' g' prev. by apply safe_mono.
Qed.

Lemma run_ok es : ∀ n handlers m,
  drivers handlers → machine_ok o (length es + n) m →
  match run thread_yield handlers es m with
  | Running m' => machine_ok o n m'
  | Finished => True
  | Panicked w => blame w
  | Crashed => False
  end.
Proof.
  induction es as [|e es IH]; intros n handlers m Hd Hm; [done|]. cbn [run]. destruct e as [|v].
  - pose proof (machine_step o _ thread_yield handlers m Hm) as Hs. destruct (step _ _ _ m); try done. by apply IH.
  - pose proof (machine_interrupt _ handlers v m Hd Hm) as Hs. destruct (step _ _ _ m); try done. apply IH; [done|].
    eapply machine_ok_mono; [|exact Hs]. cbn. lia.
Qed.

End client.

(** ** The state before the scheduler starts *)

Definition is_waiter (s : sptr) : bool := match s with OfWaiter _ => true | _ => false end.

(** Interrupts are disabled, the initial thread runs alone, the client's objects are
    initialized, and there is a page for the idle thread.  The semaphore [p] is the
    one [thread_start] will initialize. *)
Record fresh (o : objects) (p : positive) (k : kernel) : Prop := {
  fr_level : intr_level k = false;
  fr_ext : in_external_intr k = false;
  fr_thread : ∃ th, threads k = {[ current k := th ]} ∧ status th = THREAD_RUNNING ∧ magic th = THREAD_MAGIC;
  fr_ready : ready_list k = [];
  fr_all : all_list k = [current k];
  fr_idle : idle_thread k = None;
  fr_initial : initial_thread k = Some (current k);
  fr_locks : map_Forall (λ l lk, holder lk = None ∧ semas k !! OfLock l = Some (Semaphore 1 [])) (locks k);
  fr_replay l : replay l None (trace k) = Some None;
  fr_has_locks : o_locks o ⊆ dom (locks k);
  fr_semas : map_Forall (λ q v0, 0 ≤ v0 < 2 ^ 32 ∧
                           (q = p ∨ semas k !! Sema q = Some (Semaphore v0 []))) (o_semas o);
  fr_balance q : balance (Sema q) (trace k) = 0;
  fr_started : o_semas o !! p = Some 0;
  fr_waiters : map_Forall (λ s sm, waiters sm = [] ∧ is_waiter s = false) (semas k);
  fr_conds : map_Forall (λ _ cd, cond_waiters cd = []) (conds k);
  fr_has_conds : dom (o_conds o) ⊆ dom (conds k);
  fr_pool : bwf (used_map (kernel_pool k)) ∧ 0 < base (kernel_pool k);
  fr_outside : ¬ (base (kernel_pool k) ≤ current k < base (kernel_pool k) + bit_cnt (used_map (kernel_pool k)));
  fr_free : ∃ u, free_page (kernel_pool k) u
}.

Definition no_ghost : ghost := Ghost ∅ ∅ None ∅.

Section fresh.
Context (o : objects) (p : positive) (k : kernel) (Hf : fresh o p k).
Let k1 := upd_semas (<[Sema p := Semaphore 0 []]>) k.

Lemma fresh_stat u x : stat k u = Some x → u = current k ∧ x = THREAD_RUNNING.
Proof.
  destruct (fr_thread _ _ _ Hf) as (th & Hth & Hs & _). unfold stat. rewrite Hth.
  intros (th' & [<- <-]%lookup_singleton_Some & ->)%fmap_Some. done.
Qed.

Lemma fresh_wts s : wts k1 s = [].
Proof.
  unfold k1. rewrite wts_insert. unfold fupd. case_decide; [done|]. unfold wts.
  destruct (semas k !! s) as [sm|] eqn:Hs; [|done]. cbn. by apply (fr_waiters _ _ _ Hf s).
Qed.

Lemma fresh_val s : s ≠ Sema p → val k1 s = val k s.
Proof. intros Hs. unfold k1. rewrite val_insert. by apply fupd_ne. Qed.

Lemma fresh_queues :
  queues_ok None (stat k1) (ready_list k1) (wts k1) (idle_thread k1) (idler no_ghost) (maker no_ghost).
Proof.
  split; cbn [k1 upd_semas ready_list idle_thread idler maker no_ghost]; rewrite ?(fr_ready _ _ _ Hf).
  - constructor.
  - by intros u ?%not_elem_of_nil.
  - intros u [_ ?]%fresh_stat. done.
  - intros s. rewrite fresh_wts. constructor.
  - intros s u. rewrite fresh_wts. by intros ?%not_elem_of_nil.
  - intros s s' u. rewrite fresh_wts. by intros ?%not_elem_of_nil.
Qed.

Lemma fresh_life : life_ok None k1 no_ghost.
Proof.
  destruct (fr_thread _ _ _ Hf) as (th & Hth & Hs & Hmg). split; cbn [k1 upd_semas threads current all_list maker waits no_ghost].
  - intros u th'. rewrite Hth. by intros [_ <-]%lookup_singleton_Some.
  - intros u [? _]%fresh_stat. done.
  - intros u [_ ?]%fresh_stat. done.
  - rewrite (fr_all _ _ _ Hf). apply NoDup_singleton.
  - intros u. rewrite (fr_all _ _ _ Hf), list_elem_of_singleton. split.
    + intros ->. split; [|by intros []]. exists THREAD_RUNNING. split; [|done].
      unfold stat. cbn. rewrite Hth, lookup_singleton_eq. cbn. by rewrite Hs.
    + intros [(x & [-> _]%fresh_stat & _) _]. done.
  - intros e u s. by rewrite lookup_empty.
  - intros u. rewrite lookup_empty. by intros [].
Qed.

Lemma fresh_core : core o None None k1 no_ghost.
Proof.
  destruct (fr_thread _ _ _ Hf) as (th & Hth & Hs & Hmg). split.
  - exact fresh_queues.
  - exact fresh_life.
  - destruct (fr_pool _ _ _ Hf). split; try done.
    + cbn. rewrite (fr_initial _ _ _ Hf). intros u [= <-]. apply (fr_outside _ _ _ Hf).
    + intros u. cbn. rewrite Hth. intros [th' [<- _]%lookup_singleton_Some]. left. apply (fr_initial _ _ _ Hf).
    + intros e. cbn. rewrite lookup_empty. by intros [].
  - split.
    + intros l lk Hl. destruct (fr_locks _ _ _ Hf l lk Hl) as [Hh Hsm]. pose proof (fr_replay _ _ _ Hf l) as Hr. rewrite fresh_val by done.
      unfold lock_ok. cbn. rewrite lookup_empty, (val_sema _ _ _ Hsm), Hr, Hh. done.
    + intros l u. cbn. by rewrite lookup_empty.
    + intros l Hl. apply elem_of_dom. by apply (fr_has_locks _ _ _ Hf).
    + intros q v0 Hq. destruct (fr_semas _ _ _ Hf q v0 Hq) as [Hv Hsm]. pose proof (fr_balance _ _ _ Hf q) as Hb.
      change (trace k1) with (trace k). rewrite Hb, Z.add_0_r. split; [lia|].
      unfold wrap_u32. rewrite Z.mod_small by lia. destruct (decide (q = p)) as [->|Hne].
      * unfold k1. rewrite val_insert, fupd_eq. rewrite (fr_started _ _ _ Hf) in Hq. by injection Hq as <-.
      * destruct Hsm as [?|Hsm]; [done|]. rewrite fresh_val by congruence. by rewrite (val_sema _ _ _ Hsm).
  - split.
    + intros c. unfold cws. cbn. destruct (conds k !! c) as [cd|] eqn:Hc; cbn; [|constructor].
      rewrite (fr_conds _ _ _ Hf c cd Hc). constructor.
    + intros c u. unfold cws. cbn. rewrite lookup_empty. destruct (conds k !! c) as [cd|] eqn:Hc; cbn.
      * rewrite (fr_conds _ _ _ Hf c cd Hc), elem_of_nil. done.
      * rewrite elem_of_nil. done.
    + intros u. rewrite fresh_val by done. cbn. rewrite lookup_empty. unfold val.
      destruct (semas k !! OfWaiter u) as [sm|] eqn:Hu; [|done]. by destruct (fr_waiters _ _ _ Hf _ _ Hu).
    + apply (fr_has_conds _ _ _ Hf).
  - split; cbn [k1 upd_semas idle_thread idler no_ghost].
    + rewrite (fr_idle _ _ _ Hf). done.
    + done.
    + intros _. split_and!; [apply (fr_level _ _ _ Hf)|apply (fr_idle _ _ _ Hf)| |].
      * intros u (x & [-> _]%fresh_stat & _) _. done.
      * intros l u. cbn. by rewrite lookup_empty.
Qed.

Lemma fresh_here : here o (current k) false false (mine (current k) false None (boots_free (current k))) k1 no_ghost.
Proof.
  split; [|done|apply (fr_level _ _ _ Hf)|apply (fr_ext _ _ _ Hf)|done|].
  - split; [exact fresh_core|]. destruct (fr_thread _ _ _ Hf) as (th & Hth & Hs & _).
    unfold stat. cbn. rewrite Hth, lookup_singleton_eq. cbn. by rewrite Hs.
  - split; cbn; try done.
    split; [by split|]. apply (fr_free _ _ _ Hf).
Qed.

Lemma start_ok n main sv :
  kernel_pool_lock ∈ o_locks o → tid_lock ∈ o_locks o → api o main →
  machine_ok o n (Machine k (thread_start (Sema p);; main) sv).
Proof.
  intros Hpl Htl Hm. exists no_ghost. cbn [kst cpu saved]. split.
  - unfold after. rewrite (fr_level _ _ _ Hf). apply safe_bind.
    eapply safe_thread_start; [done|done|done|apply (fr_level _ _ _ Hf)|exact fresh_here|by rewrite (fr_started _ _ _ Hf)|].
    intros k' g' H. eapply safe_mono; [done| |apply (safe_api o Hpl Htl main Hm); by exists true]. done.
  - intros u Hu (x & [-> _]%fresh_stat & _). done.
Qed.

End fresh.
