(* ===== verification/KernelInit.v ===== *)
(** * Pintos: booting

    The part of [main] that runs alone with interrupts disabled: [thread_init],
    [palloc_init] and the initialization of the client's objects lead to a state in
    which the scheduler can start. *)

From stdpp Require Import base tactics list gmap.
From Stdlib Require Import ZArith Lia.
From S2P Require Import Prelude Bitmap BitmapProps Kernel Sched Synch Threads KernelInv KernelLogic KernelTrans KernelSched KernelSynch KernelLocks KernelConds KernelMake KernelThreads KernelClient.

Local Open Scope Z_scope.

(** ** Running alone *)

(** A program that neither switches nor makes threads and keeps interrupts disabled,
    with [n] to bound the number of steps. *)
Fixpoint exec (n : nat) {A} (p : prog A) (k : kernel) : option (A * kernel) :=
  match n with
  | O => None
  | S n =>
      match p with
      | PRet a => Some (a, k)
      | PAct m c =>
          match m k with Done (a, k') => if intr_level k' then None else exec n (c a) k' | _ => None end
      | PLoop body l c =>
          match exec n (body l) k with
          | Some (inl l', k') => exec n (PLoop body l' c) k'
          | Some (inr b, k') => exec n (c b) k'
          | None => None
          end
      | _ => None
      end
  end.

Lemma exec_mono n n' {A} (p : prog A) k r : (n ≤ n')%nat → exec n p k = Some r → exec n' p k = Some r.
Proof.
  revert n' A p k r. induction n as [|n IH]; intros n' A p k r Hn; [done|].
  destruct n' as [|n']; [lia|]. assert (n ≤ n')%nat as Hle by lia. destruct p as [a|B m c| | |L B body l c|]; cbn; try done.
  - destruct (m k) as [[a k']| |]; try done. destruct (intr_level k'); [done|]. by apply IH.
  - destruct (exec n (body l) k) as [[[l'|b] k']|] eqn:Hb; [..|done]; rewrite (IH n' _ _ _ _ Hle Hb); by apply IH.
Qed.

(** [p] runs alone from [k] to [k'] and returns [a]. *)
Definition alone {A} (p : prog A) (k : kernel) (a : A) (k' : kernel) : Prop := ∃ n, exec n p k = Some (a, k').

Lemma alone_ret {A} (a : A) k : alone (mret a) k a k.
Proof. by exists 1%nat. Qed.

Lemma alone_act {A} (m : M kernel A) k a k' :
  m k = Done (a, k') → intr_level k' = false → alone (act m) k a k'.
Proof. intros H Hl. exists 2%nat. cbn. by rewrite H, Hl. Qed.

Lemma exec_bind n {A B} (p : prog A) (f : A → prog B) k a k' m r :
  exec n p k = Some (a, k') → exec m (f a) k' = Some r → exec (n + m) (p ≫= f) k = Some r.
Proof.
  revert k p. induction n as [|n IH]; intros k p; [done|]. change (p ≫= f) with (pbind p f).
  destruct p as [a0|C g c| | |L C body l c|]; cbn; try done.
  - intros [= -> ->] H. exact (exec_mono m (S n + m) (f a) k' r ltac:(lia) H).
  - destruct (g k) as [[x k1]| |]; try done. destruct (intr_level k1); [done|]. apply IH.
  - destruct (exec n (body l) k) as [[[l'|b] k1]|] eqn:Hb; [..|done]; rewrite (exec_mono n (n + m) _ _ _ ltac:(lia) Hb);
      intros H1 H2; [exact (IH _ (PLoop body l' c) H1 H2)|exact (IH _ (c b) H1 H2)].
Qed.

Lemma alone_bind {A B} (p : prog A) (f : A → prog B) k a k' b k'' :
  alone p k a k' → alone (f a) k' b k'' → alone (p ≫= f) k b k''.
Proof. intros [n Hn] [m Hm]. exists (n + m)%nat. by eapply exec_bind. Qed.

Lemma alone_assert w (c : bool) k : c = true → alone (assert w c) k tt k.
Proof. intros ->. apply alone_ret. Qed.

Lemma alone_loop {L A} (body : L → prog (L + A)) l k a k' :
  alone (body l) k (inr a) k' → alone (ploop body l) k a k'.
Proof.
  intros [n Hn]. exists (S (S n)). unfold ploop. remember (S n) as n1. cbn. rewrite (exec_mono n n1 _ _ _ ltac:(lia) Hn).
  subst. done.
Qed.

Lemma exec_level n : ∀ {A} (p : prog A) k a k',
  intr_level k = false → exec n p k = Some (a, k') → intr_level k' = false.
Proof.
  induction n as [|n IH]; intros A p k a k' Hl; [done|]. destruct p as [a0|C g c0| | |L C body l c0|]; cbn; try done.
  - by intros [= _ <-].
  - destruct (g k) as [[x k1]| |]; try done. destruct (intr_level k1) eqn:Hl1; [done|]. by apply IH.
  - destruct (exec n (body l) k) as [[[l'|b] k1]|] eqn:Hb; [..|done]; apply IH; by eapply IH.
Qed.

(** Interrupts that arrive meanwhile have no effect. *)
Lemma run_off yield handlers k p sv es :
  intr_level k = false →
  run yield handlers es (Machine k p sv) = Running (Machine k p sv) ∨
  ∃ es', run yield handlers es (Machine k p sv) = run yield handlers (Step :: es') (Machine k p sv).
Proof.
  intros Hl. induction es as [|[|v] es IH]; [by left|right; by exists es|]. cbn [run step kst]. by rewrite Hl.
Qed.

(** The machine does the same as [exec], whatever happens around it. *)
Lemma exec_run yield handlers sv n : ∀ {A} (p : prog A) (c : A → prog unit) k a k' es,
  intr_level k = false → exec n p k = Some (a, k') →
  (∃ m, run yield handlers es (Machine k (p ≫= c) sv) = Running m ∧ intr_level (kst m) = false) ∨
  (∃ es', run yield handlers es (Machine k (p ≫= c) sv) = run yield handlers es' (Machine k' (c a) sv)).
Proof.
  induction n as [|n IH]; intros A p c k a k' es Hl; [done|]. change (p ≫= c) with (pbind p c).
  destruct (run_off yield handlers k (pbind p c) sv es Hl) as [->|[es1 ->]]; [intros _; left; by eexists|].
  destruct p as [a0|C g c0| | |L C body l c0|]; cbn; try done.
  - intros [= -> ->]. right. by exists (Step :: es1).
  - destruct (g k) as [[x k1]| |] eqn:Hg; try done. destruct (intr_level k1) eqn:Hl1; [done|]. by apply IH.
  - destruct (exec n (body l) k) as [[r k1]|] eqn:Hb; [|done]. intros H.
    assert (exec n (match r with inl l' => PLoop body l' c0 | inr b => c0 b end) k1 = Some (a, k')) as H' by by destruct r.
    destruct (IH _ (body l) (λ r, match r with inl l' => PLoop body l' (λ b, pbind (c0 b) c) | inr b => pbind (c0 b) c end)
      _ _ _ es1 Hl Hb) as [?|[es2 ->]]; [by left|].
    assert (intr_level k1 = false) as Hl1 by by eapply exec_level.
    destruct (IH _ _ c _ _ _ es2 Hl1 H') as [?|?]; [left|right]; by destruct r.
Qed.

(** ** One thread, interrupts disabled *)

Record solo (k : kernel) : Prop := {
  so_level : intr_level k = false;
  so_ext : in_external_intr k = false;
  so_thread : ∃ th, threads k !! current k = Some th ∧ status th = THREAD_RUNNING ∧ magic th = THREAD_MAGIC
}.

Lemma alone_level k : intr_level k = false → alone intr_get_level k false k.
Proof. intros H. rewrite <- H at 1. by apply alone_act. Qed.

Lemma alone_disable k : intr_level k = false → alone intr_disable k false k.
Proof.
  intros H. eapply alone_bind; [by apply alone_level|]. eapply alone_bind; [|apply alone_ret].
  apply alone_act; [|done]. unfold modify. by rewrite level_id.
Qed.

Lemma alone_context k : intr_level k = false → in_external_intr k = false → alone intr_context k false k.
Proof. intros Hl H. rewrite <- H at 1. by apply alone_act. Qed.

Lemma alone_current k : solo k → alone thread_current k (current k) k.
Proof.
  intros [Hl _ (th & Hth & Hs & Hm)]. eapply alone_bind; [by apply alone_act|].
  eapply alone_bind; [eapply alone_bind; [by apply alone_act; [apply kthread_run|]|apply alone_ret]|].
  eapply alone_bind; [by apply alone_assert, bool_decide_true|].
  eapply alone_bind; [by apply alone_act; [apply kthread_run|]|].
  eapply alone_bind; [by apply alone_assert, bool_decide_true|apply alone_ret].
Qed.

Lemma alone_held_by k l lk :
  solo k → locks k !! l = Some lk →
  alone (lock_held_by_current_thread l) k (bool_decide (holder lk = Some (current k))) k.
Proof.
  intros Hs Hl. eapply alone_bind.
  { apply alone_act; [unfold mbind, M_bind; cbn; by rewrite Hl|apply (so_level _ Hs)]. }
  eapply alone_bind; [by apply alone_current|apply alone_ret].
Qed.

Lemma ksema_run k s sm : semas k !! s = Some sm → (k' ← get; assume_some (semas k' !! s)) k = Done (sm, k).
Proof. intros H. unfold mbind, M_bind. cbn. by rewrite H. Qed.

Lemma alone_acquire k l lk sm :
  solo k → locks k !! l = Some lk → holder lk = None → semas k !! OfLock l = Some sm → value sm ≠ 0 →
  alone (lock_acquire l) k tt
    (held l (Some (current k)) (Acquired (current k) l)
       (valued (OfLock l) sm (wrap_u32 (value sm - 1)) (Downed (OfLock l)) k)).
Proof.
  intros Hs Hl Hh Hsm Hv. pose proof Hs as [Hlv He Hth].
  eapply alone_bind; [by apply alone_context|]. eapply alone_bind; [by apply alone_assert|].
  eapply alone_bind; [by eapply alone_held_by|]. rewrite Hh.
  eapply alone_bind; [by apply alone_assert|].
  set (k1 := valued _ _ _ _ _). assert (solo k1) as Hs1 by by split. eapply (alone_bind _ _ _ tt k1).
  - eapply alone_bind; [by apply alone_context|]. eapply alone_bind; [by apply alone_assert|].
    eapply alone_bind; [by apply alone_disable|]. eapply alone_bind.
    + apply alone_loop. eapply alone_bind; [by apply alone_act; [apply ksema_run|]|]. rewrite bool_decide_false by done.
      apply alone_ret.
    + eapply alone_bind; [by apply alone_act; [apply (set_value_run (OfLock l) (λ v, wrap_u32 (v - 1)))|]|].
      eapply alone_bind; [by apply alone_disable|apply alone_ret].
  - eapply alone_bind; [by apply alone_current|]. apply alone_act; [|done]. apply set_holder_run. by exists lk.
Qed.

Lemma alone_release k l sm :
  solo k → locks k !! l = Some (Lock (Some (current k))) → semas k !! OfLock l = Some sm → waiters sm = [] →
  alone (lock_release l) k tt
    (valued (OfLock l) sm (wrap_u32 (value sm + 1)) (Upped (OfLock l)) (held l None (Released (current k) l) k)).
Proof.
  intros Hs Hl Hsm Hw. pose proof Hs as [Hlv He Hth].
  eapply alone_bind; [by eapply alone_held_by|]. eapply alone_bind; [by apply alone_assert, bool_decide_true|].
  eapply alone_bind; [by apply alone_act|].
  eapply alone_bind; [apply alone_act; [apply set_holder_run; by eexists|done]|].
  eapply alone_bind; [by apply alone_disable|]. eapply alone_bind; [by apply alone_act; [apply ksema_run|]|].
  rewrite Hw. eapply alone_bind; [apply alone_ret|].
  eapply alone_bind; [by apply alone_act; [apply (set_value_run (OfLock l) (λ v, wrap_u32 (v + 1)))|]|].
  eapply alone_bind; [by apply alone_disable|apply alone_ret].
Qed.

(** ** [thread_init] *)

(** What the loader leaves: nothing is initialized. *)
Record power_on (k : kernel) : Prop := {
  po_level : intr_level k = false;
  po_ext : in_external_intr k = false;
  po_threads : threads k = ∅;
  po_idle : idle_thread k = None;
  po_tid : next_tid k = 1;
  po_semas : semas k = ∅;
  po_locks : locks k = ∅;
  po_conds : conds k = ∅;
  po_trace : trace k = []
}.

Definition main_name : list Z := [109; 97; 105; 110].

(** The state after [thread_init]. *)
Definition inited (k : kernel) : kernel :=
  let t := current k in
  Kernel {[ t := Thread 1 THREAD_RUNNING main_name (t * PGSIZE + PGSIZE) PRI_DEFAULT THREAD_MAGIC ]}
    t [] [t] None (Some t) 2 (thread_ticks k) (idle_ticks k) (kernel_ticks k) (ticks k) false false
    (yield_on_return k) (unexpected_cnt k) {[ OfLock tid_lock := Semaphore 1 [] ]} {[ tid_lock := Lock None ]} ∅
    (kernel_pool k) (user_pool k)
    [Downed (OfLock tid_lock); Acquired t tid_lock; Released t tid_lock; Upped (OfLock tid_lock)].

Lemma alone_eq {A} (p : prog A) k a k1 k2 : alone p k a k1 → k1 = k2 → alone p k a k2.
Proof. by intros ? <-. Qed.

Lemma kernel_ext k1 k2 :
  threads k1 = threads k2 → current k1 = current k2 → ready_list k1 = ready_list k2 →
  all_list k1 = all_list k2 → idle_thread k1 = idle_thread k2 →
  initial_thread k1 = initial_thread k2 → next_tid k1 = next_tid k2 →
  thread_ticks k1 = thread_ticks k2 → idle_ticks k1 = idle_ticks k2 →
  kernel_ticks k1 = kernel_ticks k2 → ticks k1 = ticks k2 → intr_level k1 = intr_level k2 →
  in_external_intr k1 = in_external_intr k2 → yield_on_return k1 = yield_on_return k2 →
  unexpected_cnt k1 = unexpected_cnt k2 → semas k1 = semas k2 → locks k1 = locks k2 →
  conds k1 = conds k2 → kernel_pool k1 = kernel_pool k2 → user_pool k1 = user_pool k2 →
  trace k1 = trace k2 → k1 = k2.
Proof. destruct k1, k2. cbn. intros. by subst. Qed.

Lemma alone_init_thread k t nm pri :
  intr_level k = false → PRI_MIN ≤ pri ≤ PRI_MAX → t ∉ all_list k →
  alone (init_thread t nm pri) k tt
    (upd_all_list (λ l, l ++ [t])
      (upd_threads (<[t := Thread 0 THREAD_BLOCKED (take 15 nm) (t * PGSIZE + PGSIZE) pri THREAD_MAGIC]>) k)).
Proof.
  intros Hl Hp Ha. eapply alone_bind; [by apply alone_assert, bool_decide_true|].
  eapply alone_bind; [by apply alone_act|]. eapply alone_bind; [by apply alone_disable|].
  eapply alone_bind; [apply alone_act; [unfold mbind, M_bind; cbn [get]; by rewrite bool_decide_true|done]|].
  eapply alone_bind; [by apply alone_disable|apply alone_ret].
Qed.

Lemma alone_allocate_tid k :
  solo k → locks k !! tid_lock = Some (Lock None) → semas k !! OfLock tid_lock = Some (Semaphore 1 []) →
  next_tid k < INT_MAX → ∃ k', alone allocate_tid k (next_tid k) k' ∧
    k' = upd_trace (λ tr, tr ++ [Downed (OfLock tid_lock); Acquired (current k) tid_lock;
                                 Released (current k) tid_lock; Upped (OfLock tid_lock)])
           (upd_next_tid (λ n, n + 1) k).
Proof.
  intros Hs Hl Hsm Ht. pose proof Hs as [Hlv He (th & Hth & Hst & Hmg)]. eexists. split.
  - eapply alone_bind; [by eapply (alone_acquire k tid_lock)|]. eapply alone_bind; [by apply alone_act|].
    eapply alone_bind; [by apply alone_assert, bool_decide_true|]. eapply alone_bind; [by apply alone_act|].
    eapply alone_bind; [|apply alone_ret]. eapply alone_release; [| | |].
    + split; [done|done|by exists th].
    + cbn. apply lookup_insert_eq.
    + cbn. apply lookup_insert_eq.
    + done.
  - apply kernel_ext; try done; cbn.
    + rewrite insert_insert_eq. by apply insert_id.
    + rewrite insert_insert_eq. by apply insert_id.
    + by rewrite <- !app_assoc.
Qed.

Lemma alone_thread_init k : power_on k → alone thread_init k tt (inited k).
Proof.
  intros [P1 P2 P3 P4 P5 P6 P7 P8 P9]. set (t := current k).
  eapply alone_eq.
  - eapply alone_bind; [by apply alone_level|]. eapply alone_bind; [by apply alone_assert|].
    eapply alone_bind; [eapply alone_bind; by apply alone_act|].
    eapply alone_bind; [by apply alone_act|]. eapply alone_bind; [by apply alone_act|].
    eapply alone_bind; [by apply alone_act|]. eapply alone_bind; [by apply alone_act|].
    eapply alone_bind; [apply alone_init_thread; [done|done|apply not_elem_of_nil]|].
    eapply alone_bind; [apply alone_act; [apply upd_thread_run; cbn; apply lookup_insert_eq|done]|].
    match goal with |- alone _ ?k1 _ _ => destruct (alone_allocate_tid k1) as (k2 & H2 & E2) end.
    + split; [done|done|]. cbn. rewrite lookup_insert_eq. by eexists.
    + cbn. apply lookup_insert_eq.
    + cbn. apply lookup_insert_eq.
    + cbn. by rewrite P5.
    + eapply alone_bind; [exact H2|]. rewrite E2.
      apply alone_act; [apply upd_thread_run; cbn; apply lookup_insert_eq|done].
  - apply kernel_ext; try done; cbn.
    + by rewrite P3, P5, !insert_insert_eq.
    + by rewrite P5.
    + by rewrite P6.
    + by rewrite P7.
    + by rewrite P9.
Qed.

(** ** Pages *)

(** The pages the bitmap of a pool of [n] pages takes. *)
Definition bitmap_pages (n : Z) : Z := wrap_u32 (bitmap_buf_size n + PGSIZE - 1) / PGSIZE.

(** Nothing wraps around as long as memory is below [PHYS_BASE]. *)
Lemma bitmap_buf_small n : 0 ≤ n ≤ 786432 → bitmap_buf_size n = 8 + 4 * ((n + 31) / 32) ∧ elem_cnt n = (n + 31) / 32.
Proof.
  intros Hn. unfold bitmap_buf_size, byte_cnt, elem_cnt, wrap_u32, ELEM_BITS.
  assert (0 ≤ (n + 31) / 32 ≤ 24577) by (split; [apply Z.div_pos; lia|apply Z.div_le_upper_bound; lia]).
  rewrite (Z.mod_small (n + 32 - 1)) by lia. replace (n + 32 - 1) with (n + 31) by lia.
  rewrite (Z.mod_small (4 * _)) by lia. by rewrite Z.mod_small by lia.
Qed.

Lemma bitmap_pages_small n :
  1 ≤ n ≤ 786432 → 1 ≤ bitmap_pages n ≤ n ∧ (2 ≤ n → bitmap_pages n < n) ∧
    bitmap_buf_size (n - bitmap_pages n) ≤ bitmap_pages n * PGSIZE.
Proof.
  intros Hn. destruct (bitmap_buf_small n) as [Hb _]; [lia|]. unfold bitmap_pages, wrap_u32, PGSIZE in *. rewrite Hb.
  set (e := (n + 31) / 32). assert (1 ≤ e ≤ 24577 ∧ 32 * e ≤ n + 31) as [He He'].
  { unfold e. split; [split; [apply Z.div_le_lower_bound; lia|apply Z.div_le_upper_bound; lia]|apply Z.mul_div_le; lia]. }
  rewrite Z.mod_small by lia. set (b := (8 + 4 * e + 4096 - 1) / 4096).
  assert (4096 * b ≤ 8 + 4 * e + 4095 < 4096 * b + 4096) as Hbb.
  { unfold b. pose proof (Z.div_mod (8 + 4 * e + 4096 - 1) 4096). pose proof (Z.mod_pos_bound (8 + 4 * e + 4096 - 1) 4096). lia. }
  split_and!; [lia|lia|lia|].
  destruct (bitmap_buf_small (n - b)) as [-> _]; [lia|].
  assert ((n - b + 31) / 32 ≤ e) by (apply Z.div_le_mono; lia). lia.
Qed.

Definition pool_lock (user : bool) : lptr := if user then user_pool_lock else kernel_pool_lock.

Lemma alone_init_pool k user mem start n :
  intr_level k = false → 1 ≤ n ≤ 786432 → elem_cnt n ≤ Z.of_nat (length mem) → Forall (λ v, 0 ≤ v < 2 ^ 32) mem →
  ∃ m, alone (init_pool user mem start n) k tt
         (upd_pool user (λ _, Pool m (start + bitmap_pages n))
           (upd_semas (<[OfLock (pool_lock user) := Semaphore 1 []]>) (upd_locks (<[pool_lock user := Lock None]>) k))) ∧
    bwf m ∧ bit_cnt m = n - bitmap_pages n ∧ ∀ x, 0 ≤ x < bit_cnt m → bit m x = false.
Proof.
  intros Hlv Hn Hlen Hmem. destruct (bitmap_pages_small n Hn) as (Hb & _ & Hbuf).
  set (c := n - bitmap_pages n) in *. destruct (bitmap_buf_small n) as [_ He]; [lia|].
  destruct (bitmap_buf_small c) as [_ Hec]; [lia|].
  assert (elem_cnt c ≤ elem_cnt n) as Hle by (rewrite He, Hec; apply Z.div_le_mono; lia).
  destruct (set_multiple_spec (Bitmap c (take (Z.to_nat (elem_cnt c)) mem)) 0 c false)
    as (m & Hm & Hwf & Hcnt & Hbit); [apply create_wf; [lia|lia|done]|lia|lia|cbn; lia|]. cbn [bit_cnt] in Hcnt.
  exists m. split_and!; [|done|done|intros x Hx; rewrite Hbit by lia; by rewrite decide_True by lia].
  unfold init_pool. fold (bitmap_pages n). fold c. eapply alone_bind; [apply alone_assert, bool_decide_true; lia|].
  eapply alone_bind; [eapply alone_bind; by apply alone_act|].
  eapply alone_bind.
  { eapply alone_act.
    - unfold mbind, M_bind, bitmap_create_in_buf. rewrite bool_decide_true by done. cbn [ASSERT].
      unfold bitmap_set_all, bitmap_size. cbn [bit_cnt]. by rewrite Hm.
    - by destruct user. }
  eapply alone_eq; [apply alone_act; [done|by destruct user]|]. by destruct user.
Qed.

(** Page number of the first free page, and of the end of memory. *)
Definition first_page : Z := (PHYS_BASE + 1024 * 1024) / PGSIZE.
Definition end_page (ram : Z) : Z := PHYS_BASE / PGSIZE + ram.

(** All pages of a pool are free. *)
Definition all_free (p : pool) : Prop :=
  bwf (used_map p) ∧ ∀ u, base p ≤ u < base p + bit_cnt (used_map p) → free_page p u.

Definition with_pool (user : bool) (p : pool) (k : kernel) : kernel :=
  upd_pool user (λ _, p)
    (upd_semas (<[OfLock (pool_lock user) := Semaphore 1 []]>) (upd_locks (<[pool_lock user := Lock None]>) k)).

Lemma alone_palloc_init k ram limit mem mem' :
  intr_level k = false → 259 ≤ ram < 262144 → 1 ≤ limit →
  elem_cnt ram ≤ Z.of_nat (length mem) → elem_cnt ram ≤ Z.of_nat (length mem') →
  Forall (λ v, 0 ≤ v < 2 ^ 32) mem → Forall (λ v, 0 ≤ v < 2 ^ 32) mem' →
  ∃ pk pu, alone (palloc_init ram limit mem mem') k tt (with_pool true pu (with_pool false pk k)) ∧
    all_free pk ∧ all_free pu ∧ 1 ≤ bit_cnt (used_map pk) ∧
    first_page < base pk ∧ base pk + bit_cnt (used_map pk) < base pu ∧
    base pu + bit_cnt (used_map pu) = end_page ram.
Proof.
  intros Hlv Hr Hl Hm Hm' Hf Hf'. unfold palloc_init.
  assert (wrap_u32 (ram * PGSIZE) = ram * PGSIZE) as -> by (unfold wrap_u32, PGSIZE; apply Z.mod_small; lia).
  assert (Z.quot (ram * PGSIZE - 1024 * 1024) PGSIZE = ram - 256) as ->.
  { replace (ram * PGSIZE - 1024 * 1024) with ((ram - 256) * PGSIZE) by (unfold PGSIZE; lia). by apply Z.quot_mul. }
  assert (wrap_u32 (ram - 256) = ram - 256) as -> by (unfold wrap_u32; apply Z.mod_small; lia).
  set (u := if bool_decide (limit < (ram - 256) / 2) then limit else (ram - 256) / 2).
  assert (1 ≤ u ∧ 2 * u ≤ ram - 256) as [Hu1 Hu2].
  { pose proof (Z.mul_div_le (ram - 256) 2). assert (1 ≤ (ram - 256) / 2) by (apply Z.div_le_lower_bound; lia).
    unfold u. case_bool_decide; lia. }
  set (n := ram - 256 - u). fold first_page.
  assert (2 ≤ n) as Hn2. { unfold n. lia. }
  assert (∀ x, 0 ≤ x ≤ ram → elem_cnt x ≤ elem_cnt ram) as He.
  { intros x Hx. destruct (bitmap_buf_small x) as [_ ->]; [lia|]. destruct (bitmap_buf_small ram) as [_ ->]; [lia|].
    apply Z.div_le_mono; lia. }
  destruct (alone_init_pool k false mem first_page n) as (mk & Hk & Wk & Ck & Bk); [done|lia|specialize (He n); lia|done|].
  set (pk := Pool mk (first_page + bitmap_pages n)) in *.
  destruct (alone_init_pool (with_pool false pk k) true mem' (first_page + n) u) as (mu & Hu & Wu & Cu & Bu);
    [done|lia|specialize (He u); lia|done|].
  set (pu := Pool mu (first_page + n + bitmap_pages u)) in *. exists pk, pu.
  destruct (bitmap_pages_small n) as (Hbn & Hbn' & _); [lia|]. destruct (bitmap_pages_small u) as (Hbu & _ & _); [lia|].
  specialize (Hbn' Hn2). split_and!.
  - eapply alone_bind; [apply alone_assert, bool_decide_true; unfold PGSIZE, PHYS_BASE; lia|].
    eapply alone_bind; [exact Hk|exact Hu].
  - split; [done|]. intros x Hx. split; [done|]. apply Bk. cbn in *. lia.
  - split; [done|]. intros x Hx. split; [done|]. apply Bu. cbn in *. lia.
  - cbn. lia.
  - cbn. lia.
  - cbn. lia.
  - cbn. unfold end_page, first_page, n, PHYS_BASE, PGSIZE in *. change ((3221225472 + 1024 * 1024) / 4096) with 786688.
    change (3221225472 / 4096) with 786432. lia.
Qed.

(** ** The objects of a client *)

Inductive init := ISema (q : positive) (v : Z) | ILock (l : lptr) | ICond (c : cptr) (l : lptr).

Definition init_one (i : init) : prog unit :=
  match i with
  | ISema q v => sema_init (Sema q) v
  | ILock l => lock_init l
  | ICond c _ => cond_init c
  end.

Definition add_object (o : objects) (i : init) : objects :=
  match i with
  | ISema q v => Objects (<[q := v]> (o_semas o)) (o_locks o) (o_conds o)
  | ILock l => Objects (o_semas o) ({[ l ]} ∪ o_locks o) (o_conds o)
  | ICond c l => Objects (o_semas o) (o_locks o) (<[c := l]> (o_conds o))
  end.

Definition valid_init (p : positive) (i : init) : Prop :=
  match i with ISema q v => q ≠ p ∧ 0 ≤ v < 2 ^ 32 | _ => True end.

Fixpoint init_objects (ins : list init) : prog unit :=
  match ins with [] => mret tt | i :: ins' => init_one i;; init_objects ins' end.

(** Those of the kernel itself; [p] is for [thread_start]. *)
Definition kernel_objects (p : positive) : objects :=
  Objects {[ p := 0 ]} {[ tid_lock; kernel_pool_lock; user_pool_lock ]} ∅.

Definition client_objects (p : positive) (ins : list init) : objects := foldl add_object (kernel_objects p) ins.

Lemma fresh_init o p k i :
  fresh o p k → valid_init p i → ∃ k', alone (init_one i) k tt k' ∧ fresh (add_object o i) p k'.
Proof.
  intros Hf Hv. pose proof Hf as [F1 F2 F3 F4 F5 F6 F7 F8 F9 F10 F11 F12 F13 F14 F15 F16 F17 F18 F19].
  destruct i as [q v|l|c l]; cbn [init_one add_object valid_init] in *.
  - eexists. split; [by apply alone_act|]. destruct Hv as [Hqp Hv]. split; try done; cbn.
    + intros l lk Hl. rewrite lookup_insert_ne by done. by apply F8.
    + intros q' v'. rewrite lookup_insert_Some. intros [[<- <-]|[Hne Hq']].
      * split; [done|]. right. apply lookup_insert_eq.
      * destruct (F11 q' v' Hq') as [? [?|?]]; (split; [done|]); [by left|right].
        by rewrite lookup_insert_ne by congruence.
    + by rewrite lookup_insert_ne.
    + by apply map_Forall_insert_2.
  - eexists. split; [eapply alone_bind; by apply alone_act|]. split; try done; cbn.
    + apply map_Forall_insert_2.
      * split; [done|apply lookup_insert_eq].
      * intros l' lk' Hl'. destruct (F8 l' lk' Hl'). split; [done|].
        destruct (decide (l' = l)) as [->|Hne]; [apply lookup_insert_eq|by rewrite lookup_insert_ne by congruence].
    + rewrite dom_insert. set_solver.
    + intros q' v' Hq'. destruct (F11 q' v' Hq') as [? [?|?]]; (split; [done|]); [by left|right].
      by rewrite lookup_insert_ne.
    + by apply map_Forall_insert_2.
  - eexists. split; [by apply alone_act|]. split; try done; cbn.
    + by apply map_Forall_insert_2.
    + rewrite !dom_insert. set_solver.
Qed.

Lemma fresh_inits ins : ∀ o p k,
  fresh o p k → Forall (valid_init p) ins → ∃ k', alone (init_objects ins) k tt k' ∧ fresh (foldl add_object o ins) p k'.
Proof.
  induction ins as [|i ins IH]; intros o p k Hf Hv.
  - exists k. split; [apply alone_ret|done].
  - apply Forall_cons in Hv as [Hi His]. destruct (fresh_init o p k i Hf Hi) as (k1 & H1 & Hf1).
    destruct (IH _ _ _ Hf1 His) as (k2 & H2 & Hf2). exists k2. split; [by eapply alone_bind|done].
Qed.

(** ** Booting *)

Lemma inited_fresh p k pk pu :
  power_on k → all_free pk → 1 ≤ bit_cnt (used_map pk) → 0 < base pk → current k < base pk →
  fresh (kernel_objects p) p (with_pool true pu (with_pool false pk (inited k))).
Proof.
  intros Hp [Hwf Hfree] Hc Hb Hcur. split; try done; cbn.
  - eexists. split_and!; done.
  - apply map_Forall_insert_2; [split; [done|apply lookup_insert_eq]|].
    apply map_Forall_insert_2; [split; [done|by rewrite lookup_insert_ne; [apply lookup_insert_eq|]]|].
    apply map_Forall_insert_2; [|apply map_Forall_empty]. split; [done|]. by rewrite !lookup_insert_ne by done.
  - intros l. destruct (decide (l = tid_lock)) as [->|Hne]; [by rewrite !bool_decide_true|by rewrite !bool_decide_false].
  - intros q v. rewrite lookup_singleton_Some. intros [<- <-]. split; [lia|by left].
  - apply lookup_singleton_eq.
  - by repeat apply map_Forall_insert_2; try apply map_Forall_empty.
  - lia.
  - exists (base pk). apply Hfree. lia.
Qed.

(** What [main] does before it starts the scheduler, but for the devices and the
    memory of [malloc]. *)
Definition boot (ram limit : Z) (mem mem' : list Z) (ins : list init) : prog unit :=
  thread_init;; palloc_init ram limit mem mem';; init_objects ins.

(** A machine on which this works: the stack of [main] lies below the first megabyte,
    there is memory for both pools and their bitmaps, whatever it holds, and below
    [PHYS_BASE]. *)
Record bootable (p : positive) (k : kernel) (ram limit : Z) (mem mem' : list Z) (ins : list init) : Prop := {
  b_power : power_on k;
  b_stack : current k < first_page;
  b_ram : 259 ≤ ram < 262144;
  b_limit : 1 ≤ limit;
  b_room : elem_cnt ram ≤ Z.of_nat (length mem) ∧ elem_cnt ram ≤ Z.of_nat (length mem');
  b_words : Forall (λ v, 0 ≤ v < 2 ^ 32) (mem ++ mem');
  b_inits : Forall (valid_init p) ins
}.

Lemma alone_boot p k ram limit mem mem' ins :
  bootable p k ram limit mem mem' ins →
  ∃ k', alone (boot ram limit mem mem' ins) k tt k' ∧ fresh (client_objects p ins) p k'.
Proof.
  intros [Hp Hc Hr Hl [Hm Hm'] [Hf Hf']%Forall_app Hi].
  destruct (alone_palloc_init (inited k) ram limit mem mem') as (pk & pu & Hpal & Hk & _ & Hcnt & Hbase & _); [done..|].
  assert (0 < first_page) by done.
  destruct (fresh_inits ins (kernel_objects p) p (with_pool true pu (with_pool false pk (inited k)))) as (k' & Hk' & Hfr).
  - apply inited_fresh; [done|done|done|lia|lia].
  - done.
  - exists k'. split; [|done]. eapply alone_bind; [by apply alone_thread_init|]. by eapply alone_bind.
Qed.

(** The locks of the kernel are among the objects. *)
Lemma client_locks p ins l : l ∈ o_locks (kernel_objects p) → l ∈ o_locks (client_objects p ins).
Proof.
  unfold client_objects. generalize (kernel_objects p). induction ins as [|i ins IH]; intros o Hl; [done|].
  cbn. apply IH. destruct i; cbn; set_solver.
Qed.

Lemma client_pool_lock p ins : kernel_pool_lock ∈ o_locks (client_objects p ins).
Proof. apply client_locks. cbn. set_solver. Qed.

Lemma client_tid_lock p ins : tid_lock ∈ o_locks (client_objects p ins).
Proof. apply client_locks. cbn. set_solver. Qed.
