(* ===== verification/KernelMain.v ===== *)
(** * Pintos: the kernel keeps its promises

    The theorems about the whole kernel: from the state in which [main] calls
    [thread_start], with any client, any drivers and any sequence of steps and
    interrupts. *)

From stdpp Require Import base tactics list gmap.
From Stdlib Require Import ZArith Lia.
From S2P Require Import Prelude Bitmap BitmapProps Kernel Sched Synch Threads KernelInv KernelLogic KernelTrans KernelSched KernelSynch KernelLocks KernelConds KernelMake KernelThreads KernelClient KernelInit.

Local Open Scope Z_scope.

(** ** The trace *)

(** Between two acquisitions of a lock its first owner releases it. *)
Lemma replay_between l u v tr1 tr2 tr3 h :
  replay l None (tr1 ++ Acquired u l :: tr2 ++ Acquired v l :: tr3) = Some h → Released u l ∈ tr2.
Proof.
  rewrite replay_app. destruct (replay l None tr1) as [h1|]; [|done]. cbn.
  rewrite bool_decide_true by done. case_bool_decide; [|done]. clear H.
  induction tr2 as [|e tr2 IH]; cbn.
  - rewrite bool_decide_true by done. done.
  - rewrite elem_of_cons. destruct e as [t l'|t l'| |]; repeat case_bool_decide; try done; subst; auto.
    + intros _. left. congruence.
Qed.

#[global] Instance kevent_eq_dec : EqDecision kevent.
Proof. solve_decision. Defined.

(** How often an event occurs. *)
Definition occurs (e : kevent) (tr : list kevent) : Z := Z.of_nat (length (filter (λ e', e' = e) tr)).

Lemma occurs_cons e e' tr : occurs e (e' :: tr) = (if decide (e' = e) then 1 else 0) + occurs e tr.
Proof. unfold occurs. rewrite filter_cons. case_decide; cbn [length]; lia. Qed.

Lemma balance_occurs s tr : balance s tr = occurs (Upped s) tr - occurs (Downed s) tr.
Proof.
  induction tr as [|e tr IH]; [done|]. rewrite !occurs_cons. destruct e; cbn [balance]; rewrite IH;
    repeat case_bool_decide; repeat case_decide; simplify_eq; lia.
Qed.

(** ** The theorems *)

(** The machine runs or has finished, or stopped at an assertion against misuse. *)
Definition blameless (r : result) : Prop :=
  match r with
  | Panicked w => w = LockNotHeld ∨ w = LockHeld ∨ w = PriorityRange ∨ w = IntrOn ∨ w = TidOverflow
  | Crashed => False
  | _ => True
  end.

Section kernel.
Context (p : positive) (k0 : kernel) (ram limit : Z) (mem mem' : list Z) (ins : list init).
Context (main : prog unit) (handlers : Z → option (prog unit)) (sv : gmap tptr (option tptr → prog unit)).
Local Abbreviation o := (client_objects p ins).
Hypothesis Hboot : bootable p k0 ram limit mem mem' ins.
Hypothesis Hmain : api o main.
Hypothesis Hdrivers : drivers o handlers.

(** The machine after the events [es]: [main] initializes the kernel and the objects,
    starts the scheduler and goes on as a client. *)
Definition pintos (es : list event) : result :=
  run thread_yield handlers es (Machine k0 (boot ram limit mem mem' ins;; thread_start (Sema p);; main) sv).

Lemma pintos_ok es n :
  (∃ m, pintos es = Running m ∧ intr_level (kst m) = false) ∨
  match pintos es with
  | Running m => machine_ok o n m
  | Finished => True
  | Panicked w => blame w
  | Crashed => False
  end.
Proof.
  destruct (alone_boot p k0 ram limit mem mem' ins Hboot) as (k1 & [N HN] & Hf).
  destruct (exec_run thread_yield handlers sv N _ (λ _, thread_start (Sema p);; main) k0 tt k1 es
    (po_level _ (b_power _ _ _ _ _ _ _ Hboot)) HN) as [?|[es' He]]; [by left|right].
  unfold pintos. rewrite He. apply (run_ok o); [done|].
  apply start_ok; [done|apply client_pool_lock|apply client_tid_lock|done].
Qed.

(** Whenever interrupts are enabled the invariant holds. *)
Lemma pintos_inv es m : pintos es = Running m → intr_level (kst m) = true → ∃ g, inv o (kst m) g.
Proof.
  intros He Hl. destruct (pintos_ok es 0) as [(m' & Hm' & Hl')|Hok]; [congruence|].
  rewrite He in Hok. destruct Hok as (g & Haf & _).
  unfold after in Haf. rewrite Hl in Haf. exists g. apply Haf.
Qed.

(** C3 (safety): whatever a client does with the functions of the kernel, and whenever
    interrupts arrive, no access to memory is undefined (no null or freed thread, no
    thread put on a list while on one, no page freed twice) and no assertion of the
    kernel fails but those that guard against a client's misuse: acquiring a lock
    twice, using a lock without holding it, a priority out of range, sleeping with
    interrupts disabled, and 2^31 threads. *)
Theorem kernel_safe es : blameless (pintos es).
Proof. destruct (pintos_ok es 0) as [(m & -> & _)|H]; [done|]. by destruct (pintos es). Qed.

(** C5 (invariant): whenever interrupts are enabled, the running thread is the one that
    is [THREAD_RUNNING]; the run queue holds the ready threads (but for the idle
    thread), each once; threads on the list of a semaphore are blocked and on no other
    list.  In particular, no ready thread is forgotten. *)
Theorem queues_hold_threads es m :
  pintos es = Running m → intr_level (kst m) = true →
  let k := kst m in
  (∀ u, stat k u = Some THREAD_RUNNING ↔ u = current k) ∧
  NoDup (ready_list k) ∧
  (∀ u, stat k u = Some THREAD_READY ∧ idle_thread k ≠ Some u ↔ u ∈ ready_list k) ∧
  (∀ s sm, semas k !! s = Some sm → NoDup (waiters sm) ∧
     ∀ u, u ∈ waiters sm → stat k u = Some THREAD_BLOCKED ∧
       ∀ s' sm', semas k !! s' = Some sm' → u ∈ waiters sm' → s' = s).
Proof.
  intros He Hl k. destruct (pintos_inv es m He Hl) as [g [Hcore Hrun]]. pose proof (c_queues _ _ _ _ _ Hcore) as Hq.
  split_and!.
  - intros u. split; [apply (f_running _ _ _ (c_life _ _ _ _ _ Hcore))|by intros ->].
  - apply (q_nodup _ _ _ _ _ _ _ Hq).
  - intros u. split; [|apply (q_ready _ _ _ _ _ _ _ Hq)].
    intros [Hr Hi]. destruct (q_queued _ _ _ _ _ _ _ Hq u Hr) as [?|[?|?]]; done.
  - intros s sm Hs. rewrite <- (wts_sema _ _ _ Hs). split; [apply (q_wnodup _ _ _ _ _ _ _ Hq)|].
    intros u Hu. split; [by apply (q_wait _ _ _ _ _ _ _ Hq s)|]. intros s' sm' Hs'. rewrite <- (wts_sema _ _ _ Hs').
    intros Hu'. by eapply (q_disj _ _ _ _ _ _ _ Hq).
Qed.

(** C4 (safety): mutual exclusion: between two acquisitions of a lock the thread that
    acquired it first has released it, whatever the interleaving. *)
Theorem locks_exclude es m l u v tr1 tr2 tr3 :
  pintos es = Running m → intr_level (kst m) = true → l ∈ o_locks o →
  trace (kst m) = tr1 ++ Acquired u l :: tr2 ++ Acquired v l :: tr3 →
  Released u l ∈ tr2.
Proof.
  intros He Hl Ho Htr. destruct (pintos_inv es m He Hl) as [g [Hcore _]].
  pose proof (c_locks _ _ _ _ _ Hcore) as Hk. destruct (k_locks _ _ _ Hk l Ho) as [lk Hlk].
  destruct (k_lock _ _ _ Hk l lk Hlk) as [_ Hr]. rewrite Htr in Hr. by eapply replay_between.
Qed.

(** C27 (invariant): a semaphore has never gone down more often than its initial value
    plus the number of times it has gone up, and its value is the difference (as
    a 32-bit number). *)
Theorem semaphores_count es m q v0 :
  pintos es = Running m → intr_level (kst m) = true → o_semas o !! q = Some v0 →
  let tr := trace (kst m) in
  occurs (Downed (Sema q)) tr ≤ v0 + occurs (Upped (Sema q)) tr ∧
  val (kst m) (Sema q) = Some (wrap_u32 (v0 + occurs (Upped (Sema q)) tr - occurs (Downed (Sema q)) tr)).
Proof.
  intros He Hl Hq tr. destruct (pintos_inv es m He Hl) as [g [Hcore _]].
  destruct (k_sema _ _ _ (c_locks _ _ _ _ _ Hcore) q v0 Hq) as [Hpos Hv]. rewrite balance_occurs in Hpos, Hv.
  fold tr in Hpos, Hv. split; [lia|]. rewrite Hv. do 2 f_equal. lia.
Qed.

(** C28 (invariant): every thread but the initial one lies in a page of the kernel pool
    that the bitmap marks as used, with its magic number intact, and the list of all
    threads holds each of them at most once: no live thread's page is ever free. *)
Theorem threads_own_pages es m :
  pintos es = Running m → intr_level (kst m) = true →
  let k := kst m in
  (∀ u th, threads k !! u = Some th →
     magic th = THREAD_MAGIC ∧ (initial_thread k = Some u ∨ page_used (kernel_pool k) u)) ∧
  NoDup (all_list k) ∧ (∀ u, u ∈ all_list k → alive k u).
Proof.
  intros He Hl k. destruct (pintos_inv es m He Hl) as [g [Hcore _]]. pose proof (c_life _ _ _ _ _ Hcore) as Hlf.
  split_and!.
  - intros u th Hu. split; [by apply (f_magic _ _ _ Hlf u)|].
    apply (p_threads _ _ _ _ (c_pages _ _ _ _ _ Hcore)). by exists th.
  - apply (f_nodup _ _ _ Hlf).
  - intros u Hu. by apply (f_all _ _ _ Hlf).
Qed.

End kernel.

(** [palloc_init] divides the memory above the first megabyte into two
    disjoint pools, each behind its own bitmap, that end where memory ends, with every
    page of both free. *)
Theorem palloc_init_divides k ram limit mem mem' :
  intr_level k = false → 259 ≤ ram < 262144 → 1 ≤ limit →
  elem_cnt ram ≤ Z.of_nat (length mem) → elem_cnt ram ≤ Z.of_nat (length mem') →
  Forall (λ v, 0 ≤ v < 2 ^ 32) mem → Forall (λ v, 0 ≤ v < 2 ^ 32) mem' →
  ∃ k', alone (palloc_init ram limit mem mem') k tt k' ∧
    all_free (kernel_pool k') ∧ all_free (user_pool k') ∧
    first_page < base (kernel_pool k') ∧
    base (kernel_pool k') + bit_cnt (used_map (kernel_pool k')) < base (user_pool k') ∧
    base (user_pool k') + bit_cnt (used_map (user_pool k')) = end_page ram.
Proof.
  intros Hl Hr Hli H1 H2 H3 H4.
  destruct (alone_palloc_init k ram limit mem mem' Hl Hr Hli H1 H2 H3 H4) as (pk & pu & Ha & Hk & Hu & _ & Hb).
  eexists. split; [exact Ha|]. split; [exact Hk|]. split; [exact Hu|]. exact Hb.
Qed.

(** Booting terminates: on a machine with enough memory the code of
    [main] up to [thread_start] runs to its end without a panic, whatever memory holds,
    and leaves the initial thread alone with initialized locks and a free page for the
    idle thread. *)
Theorem boot_prepares p k ram limit mem mem' ins :
  bootable p k ram limit mem mem' ins →
  ∃ k', alone (boot ram limit mem mem' ins) k tt k' ∧ fresh (client_objects p ins) p k'.
Proof. apply alone_boot. Qed.

(** ** A machine *)

(** A kernel with four megabytes of memory boots, initializes three semaphores,
    a lock and a condition variable, and runs the self-test of the semaphores against
    a second thread, then a critical section with a signal. *)
Definition sample_inits : list init := [ISema 2 0; ISema 3 0; ILock 4%positive; ICond 5%positive 4%positive].

Local Abbreviation sample_objects := (client_objects 1 sample_inits).

(** Four megabytes of memory, with [main] on the stack the loader sets up. *)
Definition hardware : kernel :=
  Kernel ∅ 786590 [] [] None None 1 0 0 0 0 false false false ∅ ∅ ∅ ∅
    (Pool (Bitmap 0 []) 0) (Pool (Bitmap 0 []) 0) [].

Definition garbage : list Z := replicate 32 0xcccccccc.

Definition timer_only (v : Z) : option (prog unit) := if bool_decide (v = 0x20) then Some timer_interrupt else None.

Definition sample_main : prog unit :=
  thread_create [115] PRI_DEFAULT
    (sema_test_helper (Sema 2) (Sema 3);; lock_acquire 4%positive;; lock_release 4%positive);;
  ploop (λ i : nat,
    if bool_decide (i < 10)%nat then sema_up (Sema 2);; sema_down (Sema 3);; mret (inl (S i))
    else mret (inr tt)) 0%nat;;
  lock_acquire 4%positive;; cond_signal 5%positive 4%positive;; lock_release 4%positive;;
  ploop (λ _ : unit, mret (inl tt)) tt.

(** An interrupt of the timer every [n] events. *)
Fixpoint ticking (n i : nat) (len : nat) : list event :=
  match len with
  | O => []
  | S len' => match i with
              | O => Interrupt 0x20 :: ticking n n len'
              | S i' => Step :: ticking n i' len'
              end
  end.

Local Notation sample_run len :=
  (pintos 1%positive hardware 1024 1000 garbage garbage sample_inits sample_main timer_only ∅ (ticking 49 49 len)).

Ltac computed := apply (bool_decide_unpack _); vm_compute; done.

Lemma sample_boots : bootable 1 hardware 1024 1000 garbage garbage sample_inits.
Proof.
  split; [by split|done|lia|lia|by split| |].
  - apply Forall_app. split; by apply Forall_replicate.
  - repeat constructor; done.
Qed.

Lemma sample_api : api sample_objects sample_main.
Proof.
  assert (∀ s, s ∈ [2; 3]%positive → is_Some (o_semas sample_objects !! s)) as Hs.
  { intros s. rewrite !elem_of_cons. intros [->|[->|?%not_elem_of_nil]]; [by eexists..|done]. }
  unfold sample_main, sema_test_helper.
  repeat first [apply a_thread_create | apply a_loop; intros ? | case_bool_decide |
    apply a_ret | apply a_sema_up, Hs; set_solver | apply a_sema_down, Hs; set_solver |
    apply a_lock_acquire; computed | apply a_lock_release; computed | apply a_cond_signal; [done|computed] |
    apply a_bind; [|intros ?]].
Qed.

Lemma sample_drivers : drivers sample_objects timer_only.
Proof.
  intros v h. unfold timer_only. case_bool_decide as Hv; [|done]. intros [= <-]. split; [lia|apply d_timer].
Qed.

(** What holds of the machine at the end of a run, by computation. *)
Definition at_end (r : result) (f : kernel → bool) : bool :=
  match r with Running m => intr_level (kst m) && f (kst m) | _ => false end.

Lemma at_end_kernel r f : at_end r f = true → ∃ m, r = Running m ∧ intr_level (kst m) = true ∧ f (kst m) = true.
Proof. destruct r as [m| | |]; [|done..]. cbn. intros [? ?]%andb_true_iff. eauto. Qed.


Lemma kernel_safe_witness :
  at_end (sample_run 3149) (λ k, bool_decide (ready_list k = [])) = true ∧
  blameless (sample_run 3149).
Proof.
  split; [vm_compute; reflexivity|].
  exact (kernel_safe 1%positive hardware 1024 1000 garbage garbage sample_inits sample_main timer_only ∅
    sample_boots sample_api sample_drivers (ticking 49 49 3149)).
Defined.

Lemma queues_hold_threads_witness :
  ∃ m, sample_run 1144 = Running m ∧ current (kst m) = 786590 ∧ ready_list (kst m) = [786690] ∧
    stat (kst m) 786690 = Some THREAD_READY ∧ stat (kst m) 786590 = Some THREAD_RUNNING.
Proof.
  destruct (at_end_kernel (sample_run 1144) (λ k, bool_decide (current k = 786590 ∧ ready_list k = [786690])))
    as (m & Hm & Hl & [Hc Hr]%bool_decide_eq_true_1); [vm_compute; reflexivity|].
  destruct (queues_hold_threads 1%positive hardware 1024 1000 garbage garbage sample_inits sample_main timer_only ∅
    sample_boots sample_api sample_drivers (ticking 49 49 1144) m Hm Hl) as (Hrun & _ & Hready & _).
  exists m. split_and!; [done|done|done| |by apply Hrun]. apply (Hready 786690). rewrite Hr. left.
Defined.

Lemma locks_exclude_witness :
  ∃ m, sample_run 3149 = Running m ∧
    Released 786690 4%positive ∈ take 4 (drop 63 (trace (kst m))).
Proof.
  destruct (at_end_kernel (sample_run 3149) (λ k, bool_decide (trace k =
    take 62 (trace k) ++ Acquired 786690 4%positive :: take 4 (drop 63 (trace k)) ++
      Acquired 786590 4%positive :: drop 68 (trace k)))) as (m & Hm & Hl & Htr%bool_decide_eq_true_1);
    [vm_compute; reflexivity|].
  exists m. split; [done|].
  exact (locks_exclude 1%positive hardware 1024 1000 garbage garbage sample_inits sample_main timer_only ∅
    sample_boots sample_api sample_drivers (ticking 49 49 3149) m 4%positive 786690 786590 _ _ _ Hm Hl
    ltac:(computed) Htr).
Defined.

Lemma semaphores_count_witness :
  ∃ m, sample_run 3149 = Running m ∧ occurs (Downed (Sema 2)) (trace (kst m)) = 10 ∧ val (kst m) (Sema 2) = Some 0.
Proof.
  destruct (at_end_kernel (sample_run 3149) (λ k, bool_decide (occurs (Downed (Sema 2)) (trace k) = 10 ∧
    occurs (Upped (Sema 2)) (trace k) = 10))) as (m & Hm & Hl & [Hd Hu]%bool_decide_eq_true_1);
    [vm_compute; reflexivity|].
  destruct (semaphores_count 1%positive hardware 1024 1000 garbage garbage sample_inits sample_main timer_only ∅
    sample_boots sample_api sample_drivers (ticking 49 49 3149) m 2%positive 0 Hm Hl eq_refl) as [_ Hv].
  exists m. split_and!; [done|done|]. by rewrite Hv, Hd, Hu.
Defined.

Lemma threads_own_pages_witness :
  ∃ m, sample_run 1144 = Running m ∧ is_Some (threads (kst m) !! 786690) ∧ page_used (kernel_pool (kst m)) 786690.
Proof.
  destruct (at_end_kernel (sample_run 1144) (λ k, bool_decide (is_Some (threads k !! 786690) ∧ initial_thread k = Some 786590)))
    as (m & Hm & Hl & [[th Hth] Hini]%bool_decide_eq_true_1); [vm_compute; reflexivity|].
  destruct (threads_own_pages 1%positive hardware 1024 1000 garbage garbage sample_inits sample_main timer_only ∅
    sample_boots sample_api sample_drivers (ticking 49 49 1144) m Hm Hl) as (Hall & _).
  exists m. split_and!; [done|by exists th|]. destruct (Hall 786690 th Hth) as [_ [?|?]]; [congruence|done].
Defined.

Lemma palloc_init_divides_witness :
  ∃ k', alone (palloc_init 1024 1000 garbage garbage) hardware tt k' ∧
    base (user_pool k') + bit_cnt (used_map (user_pool k')) = 787456.
Proof.
  destruct (palloc_init_divides hardware 1024 1000 garbage garbage) as (k' & Hk & _ & _ & _ & _ & He);
    [done|lia|lia|done|done|by apply Forall_replicate|by apply Forall_replicate|]. by exists k'.
Defined.

Lemma boot_prepares_witness :
  ∃ k', alone (boot 1024 1000 garbage garbage sample_inits) hardware tt k' ∧ fresh sample_objects 1 k'.
Proof. exact (boot_prepares 1 hardware 1024 1000 garbage garbage sample_inits sample_boots). Defined.
