(* ===== verification/Arith.v ===== *)
(** * Pintos: 64-bit division

    [Project_3/lib/arithmetic.c], the whole file: the routines that GCC calls to
    divide 64-bit integers on the 32-bit x86.  An unsigned integer of [w] bits is a
    [Z] from 0 to [2^w - 1], a signed one is a [Z] of the two's complement range;
    every conversion and every unsigned operation wraps, a signed operation whose
    result does not fit is an [Overflow] (undefined behaviour), and a [divl] whose
    divisor is zero or whose quotient does not fit in 32 bits is a [DivideError]
    (the processor's #DE). *)

From stdpp Require Import base tactics list numbers.
From Stdlib Require Import ZArith Lia.
From S2P Require Import Prelude.

Local Open Scope Z_scope.

Inductive fault := DivideError | Overflow.

Inductive res (A : Type) := Ok (a : A) | Fault (f : fault).
Arguments Ok {_} _.
Arguments Fault {_} _.

#[global] Instance res_ret : MRet res := @Ok.
#[global] Instance res_bind : MBind res := λ A B k m,
  match m with Ok a => k a | Fault f => Fault f end.

(** ** Conversions *)

Definition wrap_u64 (z : Z) : Z := z mod 2 ^ 64.

(** The conversion of an integer to a signed type of [w] bits keeps its low bits. *)
Definition to_signed (w z : Z) : Z := (z + 2 ^ (w - 1)) mod 2 ^ w - 2 ^ (w - 1).

Definition i64 (z : Z) : Prop := - 2 ^ 63 ≤ z < 2 ^ 63.
Definition u64 (z : Z) : Prop := 0 ≤ z < 2 ^ 64.

(** A signed 64-bit operation with the exact result [z] *)
Definition signed64 (z : Z) : res Z :=
  if (- 2 ^ 63 <=? z) && (z <? 2 ^ 63) then Ok z else Fault Overflow.

(** Division and remainder of [uint32_t]s; a zero divisor traps. *)
Definition div_u32 (n d : Z) : res Z := if d =? 0 then Fault DivideError else Ok (n / d).
Definition mod_u32 (n d : Z) : res Z := if d =? 0 then Fault DivideError else Ok (n mod d).

(** ** The routines *)

(** The instruction divides [n1 * 2^32 + n0], which is [n]. *)
Definition divl (n d : Z) : res Z :=
  let n1 := wrap_u32 (Z.shiftr n 32) in
  let n0 := wrap_u32 n in
  if d =? 0 then Fault DivideError
  else
    let q := (n1 * 2 ^ 32 + n0) / d in
    if q <? 2 ^ 32 then Ok q else Fault DivideError.

(** [if (x <= max) { n += k; x <<= k; }] *)
Definition nlz_step (max k : Z) '((n, x) : Z * Z) : Z * Z :=
  if x <=? max then (n + k, wrap_u32 (Z.shiftl x k)) else (n, x).

Definition nlz (x : Z) : Z :=
  let '(n, x) := nlz_step 0x3FFFFFFF 2 (nlz_step 0x0FFFFFFF 4
                   (nlz_step 0x00FFFFFF 8 (nlz_step 0x0000FFFF 16 (0, x)))) in
  if x <=? 0x7FFFFFFF then n + 1 else n.

Definition udiv64 (n d : Z) : res Z :=
  if Z.shiftr d 32 =? 0 then
    let b := Z.shiftl 1 32 in
    let n1 := wrap_u32 (Z.shiftr n 32) in
    let n0 := wrap_u32 n in
    let d0 := wrap_u32 d in
    r ← mod_u32 n1 d0;
    q0 ← divl (wrap_u64 (b * r + n0)) d0;
    q1 ← div_u32 n1 d0;
    Ok (wrap_u64 (q0 + b * q1))
  else if n <? d then Ok 0
  else
    let d1 := wrap_u32 (Z.shiftr d 32) in
    let s := nlz d1 in
    q ← divl (Z.shiftr n 1) (wrap_u32 (Z.shiftr (wrap_u64 (Z.shiftl d s)) 32));
    let q := Z.shiftr q (31 - s) in
    Ok (if wrap_u64 (n - wrap_u64 (wrap_u64 (q - 1) * d)) <? d then wrap_u64 (q - 1) else q).

(** The result type is [uint32_t]. *)
Definition umod64 (n d : Z) : res Z :=
  q ← udiv64 n d; Ok (wrap_u32 (wrap_u64 (n - wrap_u64 (d * q)))).

(** [n >= 0 ? (uint64_t) n : -(uint64_t) n] *)
Definition abs64 (n : Z) : Z := if 0 <=? n then wrap_u64 n else wrap_u64 (- wrap_u64 n).

Definition sdiv64 (n d : Z) : res Z :=
  let n_abs := abs64 n in
  let d_abs := abs64 d in
  q_abs ← udiv64 n_abs d_abs;
  if Bool.eqb (n <? 0) (d <? 0) then Ok (to_signed 64 q_abs) else signed64 (- to_signed 64 q_abs).

(** The result type is [int32_t]. *)
Definition smod64 (n d : Z) : res Z :=
  q ← sdiv64 n d;
  p ← signed64 (d * q);
  r ← signed64 (n - p);
  Ok (to_signed 32 r).

(** The entry points; the results of the remainders are converted to 64 bits, which
    keeps their values. *)
Definition __divdi3 (n d : Z) : res Z := sdiv64 n d.
Definition __moddi3 (n d : Z) : res Z := smod64 n d.
Definition __udivdi3 (n d : Z) : res Z := udiv64 n d.
Definition __umoddi3 (n d : Z) : res Z := umod64 n d.

(** ** Lemmas *)

Lemma wrap_u32_small z : 0 ≤ z < 2 ^ 32 → wrap_u32 z = z.
Proof. apply Z.mod_small. Qed.

Lemma wrap_u64_small z : u64 z → wrap_u64 z = z.
Proof. apply Z.mod_small. Qed.

Lemma to_signed_small w z : 0 < w → - 2 ^ (w - 1) ≤ z < 2 ^ (w - 1) → to_signed w z = z.
Proof.
  intros Hw Hz. unfold to_signed.
  assert (2 ^ w = 2 * 2 ^ (w - 1)) as -> by (rewrite <- Z.pow_succ_r by lia; f_equal; lia).
  rewrite Z.mod_small; lia.
Qed.

Lemma signed64_small z : i64 z → signed64 z = Ok z.
Proof.
  intros [??]. unfold signed64.
  rewrite (proj2 (Z.leb_le _ _)), (proj2 (Z.ltb_lt _ _)) by lia. done.
Qed.

Lemma high_word n : u64 n → 0 ≤ n / 2 ^ 32 < 2 ^ 32.
Proof. intros [??]. split; [apply Z.div_pos; lia|apply Z.div_lt_upper_bound; lia]. Qed.

(** [divl] divides whenever the quotient fits. *)
Lemma divl_ok n d : u64 n → 0 < d → n < d * 2 ^ 32 → divl n d = Ok (n / d).
Proof.
  intros Hn Hd Hlt. unfold divl, u64 in *.
  assert (wrap_u32 (Z.shiftr n 32) * 2 ^ 32 + wrap_u32 n = n) as ->.
  { rewrite Z.shiftr_div_pow2 by lia. rewrite wrap_u32_small.
    - unfold wrap_u32. change 4294967296 with (2 ^ 32). rewrite (Z.div_mod n (2 ^ 32)) at 3; lia.
    - by apply high_word. }
  rewrite (proj2 (Z.eqb_neq _ _)) by lia.
  rewrite (proj2 (Z.ltb_lt _ _)); [done|]. by apply Z.div_lt_upper_bound.
Qed.

(** [nlz] counts the leading zeros: shifted by it, the top bit is set. *)
Definition nlz_inv (x0 k : Z) '((n, x) : Z * Z) : Prop :=
  0 ≤ n ≤ 32 - k ∧ x = x0 * 2 ^ n ∧ 2 ^ (32 - k) ≤ x < 2 ^ 32.

Lemma nlz_step_inv x0 max k p :
  0 ≤ k → max + 1 = 2 ^ (32 - k) → k ≤ 16 → nlz_inv x0 (2 * k) p → nlz_inv x0 k (nlz_step max k p).
Proof.
  destruct p as [n x]. intros Hk Hmax H16 (Hn & Hx & Hr). unfold nlz_step.
  assert (2 ^ (32 - k) = 2 ^ (32 - 2 * k) * 2 ^ k) as E1 by (rewrite <- Z.pow_add_r by lia; f_equal; lia).
  assert (2 ^ 32 = 2 ^ (32 - k) * 2 ^ k) as E2 by (rewrite <- Z.pow_add_r by lia; f_equal; lia).
  destruct (Z.leb_spec x max) as [Hle|Hlt].
  - rewrite Z.shiftl_mul_pow2 by lia. rewrite wrap_u32_small by nia.
    split_and!; [lia|lia| |nia|nia].
    rewrite Hx, Z.pow_add_r by lia. ring.
  - split_and!; [lia|lia|done|lia|lia].
Qed.

Lemma nlz_spec x : 0 < x < 2 ^ 32 → 0 ≤ nlz x ≤ 31 ∧ 2 ^ 31 ≤ x * 2 ^ nlz x < 2 ^ 32.
Proof.
  intros Hx. unfold nlz.
  assert (nlz_inv x 2 (nlz_step 0x3FFFFFFF 2 (nlz_step 0x0FFFFFFF 4
            (nlz_step 0x00FFFFFF 8 (nlz_step 0x0000FFFF 16 (0, x)))))) as Hi.
  { do 4 (apply nlz_step_inv; [lia|reflexivity|lia|]; cbn [Z.mul Pos.mul]).
    unfold nlz_inv. rewrite Z.mul_1_r. split_and!; lia. }
  destruct (nlz_step _ _ _) as [n y]. destruct Hi as (Hn & Hy & Hr).
  change (2 ^ (32 - 2)) with (2 ^ 30) in Hr.
  destruct (Z.leb_spec y 0x7FFFFFFF).
  - rewrite Z.pow_add_r, Z.mul_assoc, <- Hy by lia. lia.
  - rewrite <- Hy. split; [|lia].
    split; [lia|]. assert (n ≠ 32); [|lia]. lia.
Qed.

(** The estimate of the quotient in the long case: with [e] the divisor cut to its
    top 32 bits, the quotient by [e] is right or one too large. *)
Lemma quotient_estimate n d e k :
  u64 n → 0 < k → 2 ^ 32 ≤ d → 0 < e ≤ d → d < e + k → 2 ^ 64 * (k - 1) ≤ e * d →
  n / d ≤ n / e ≤ n / d + 1.
Proof.
  intros Hn Hk Hd He Hek Hsmall. unfold u64 in Hn.
  split; [apply Z.div_le_compat_l; lia|].
  apply Z.lt_succ_r. unfold Z.succ. apply Z.div_lt_upper_bound; [lia|].
  pose proof (Z.div_mod n d). pose proof (Z.mod_pos_bound n d).
  assert (n * d < e * (n / d + 1 + 1) * d); [|nia].
  assert (n * (d - e) ≤ e * d); [nia|].
  assert (n < d * (n / d + 1)) by nia. nia.
Qed.

(** The divisor cut to 32 bits, as [udiv64] computes it *)
Lemma divisor_top d s :
  2 ^ 32 ≤ d < 2 ^ 64 → s = nlz (wrap_u32 (Z.shiftr d 32)) →
  let v := wrap_u32 (Z.shiftr (wrap_u64 (Z.shiftl d s)) 32) in
  let k := 2 ^ (32 - s) in
  0 ≤ s ≤ 31 ∧ 2 ^ 31 ≤ v < 2 ^ 32 ∧ v * k ≤ d < v * k + k ∧ 2 ^ 64 * (k - 1) ≤ v * k * d.
Proof.
  intros Hd Hs v k. rewrite Z.shiftr_div_pow2 in Hs by lia.
  pose proof (Z.div_mod d (2 ^ 32) ltac:(lia)) as Hdm.
  pose proof (Z.mod_pos_bound d (2 ^ 32) ltac:(lia)) as Hm.
  assert (0 < d / 2 ^ 32 < 2 ^ 32) as Hd1 by (split; [apply Z.div_str_pos|apply Z.div_lt_upper_bound]; lia).
  rewrite wrap_u32_small in Hs by lia.
  destruct (nlz_spec (d / 2 ^ 32) Hd1) as [Hs31 Htop]. rewrite <- Hs in Hs31, Htop.
  assert (2 ^ 32 = k * 2 ^ s) as Hks by (subst k; rewrite <- Z.pow_add_r by lia; f_equal; lia).
  assert (0 < 2 ^ s) as H2s by lia. assert (0 < k) as Hk by (subst k; lia).
  assert (2 ^ 63 ≤ d * 2 ^ s < 2 ^ 64) as HD.
  { assert (d * 2 ^ s = 2 ^ 32 * (d / 2 ^ 32 * 2 ^ s) + d mod 2 ^ 32 * 2 ^ s) by (rewrite Hdm at 1; ring).
    assert (0 ≤ d mod 2 ^ 32 * 2 ^ s) by (apply Z.mul_nonneg_nonneg; lia).
    assert (d mod 2 ^ 32 * 2 ^ s < 2 ^ 32 * 2 ^ s) by (apply Z.mul_lt_mono_pos_r; lia).
    assert (d / 2 ^ 32 * 2 ^ s ≤ (k - 1) * 2 ^ s); [|lia].
    apply Z.mul_le_mono_nonneg_r; [lia|]. apply Z.lt_le_pred, (Z.mul_lt_mono_pos_r (2 ^ s)); lia. }
  assert (v = d * 2 ^ s / 2 ^ 32) as Hv.
  { subst v. rewrite Z.shiftl_mul_pow2 by lia. rewrite wrap_u64_small by (unfold u64; lia).
    rewrite Z.shiftr_div_pow2 by lia. apply wrap_u32_small, high_word. unfold u64. lia. }
  assert (2 ^ 31 ≤ v < 2 ^ 32) as Hvr.
  { rewrite Hv. split; [apply Z.div_le_lower_bound; lia|apply Z.div_lt_upper_bound; lia]. }
  assert (v = d / k) as Hv2.
  { rewrite Hv, Hks. rewrite Z.div_mul_cancel_r; lia. }
  pose proof (Z.div_mod d k ltac:(lia)) as Hdk. pose proof (Z.mod_pos_bound d k ltac:(lia)) as Hmk.
  rewrite <- Hv2 in Hdk.
  split_and!; [lia..|nia|nia|].
  destruct (decide (s = 31)) as [->|Hne].
  - subst k. change (2 ^ (32 - 31)) with 2 in *. nia.
  - assert (2 ≤ k / 2) by (apply Z.div_le_lower_bound; [lia|]; subst k;
      transitivity (2 ^ 2); [lia|apply Z.pow_le_mono_r; lia]).
    assert (2 ^ 31 * k ≤ d) by nia.
    assert (2 ^ 62 * k * k ≤ v * k * d) by nia.
    assert (4 ≤ k) by (subst k; change 4 with (2 ^ 2); apply Z.pow_le_mono_r; lia).
    nia.
Qed.

(** The short case: a divisor of 32 bits. *)
Lemma udiv64_short n d : u64 n → 0 < d < 2 ^ 32 → udiv64 n d = Ok (n / d).
Proof.
  intros Hn Hd. unfold u64 in Hn. unfold udiv64, mod_u32, div_u32.
  rewrite Z.shiftr_div_pow2, Z.div_small by lia. cbn -[Z.pow wrap_u64 divl Z.shiftl].
  rewrite Z.shiftr_div_pow2 by lia. change (Z.shiftl 1 32) with (2 ^ 32).
  rewrite (wrap_u32_small d), (wrap_u32_small (n / 2 ^ 32)) by (lia || by apply high_word).
  rewrite (proj2 (Z.eqb_neq d 0)) by lia. cbn -[Z.pow wrap_u64 divl].
  change (wrap_u32 n) with (n mod 2 ^ 32).
  pose proof (Z.div_mod n (2 ^ 32) ltac:(lia)) as Hnm.
  pose proof (Z.mod_pos_bound n (2 ^ 32) ltac:(lia)) as Hn0.
  set (n1 := n / 2 ^ 32) in *. set (n0 := n mod 2 ^ 32) in *.
  pose proof (Z.div_mod n1 d ltac:(lia)) as H1. pose proof (Z.mod_pos_bound n1 d ltac:(lia)) as Hr.
  assert (0 ≤ n1 / d) by (apply Z.div_pos; subst n1; [apply Z.div_pos|]; lia).
  assert (n / d = (2 ^ 32 * (n1 mod d) + n0) / d + 2 ^ 32 * (n1 / d)) as Hq.
  { rewrite <- Z.div_add by lia. f_equal. nia. }
  rewrite wrap_u64_small by (unfold u64; nia).
  rewrite divl_ok by (unfold u64; nia). cbn -[Z.pow wrap_u64].
  rewrite <- Hq, wrap_u64_small; [done|].
  split; [apply Z.div_pos; lia|]. apply Z.div_lt_upper_bound; nia.
Qed.

(** The long case *)
Lemma udiv64_long n d : u64 n → 2 ^ 32 ≤ d < 2 ^ 64 → udiv64 n d = Ok (n / d).
Proof.
  intros Hn Hd. unfold udiv64.
  rewrite (proj2 (Z.eqb_neq (Z.shiftr d 32) 0)).
  2:{ rewrite Z.shiftr_div_pow2 by lia. apply Z.neq_sym, Z.lt_neq, Z.div_str_pos. lia. }
  destruct (Z.ltb_spec n d) as [Hlt|Hge]; [unfold u64 in Hn; by rewrite Z.div_small by lia|].
  set (s := nlz _). destruct (divisor_top d s Hd eq_refl) as (Hs & Hv & Hve & Hsm).
  set (v := wrap_u32 (Z.shiftr (wrap_u64 _) 32)) in *. set (k := 2 ^ (32 - s)) in *.
  assert (0 < k) as Hk by (subst k; lia). assert (k = 2 * 2 ^ (31 - s)) as Hk2.
  { subst k. rewrite <- Z.pow_succ_r by lia. f_equal. lia. }
  unfold u64 in Hn. rewrite (Z.shiftr_div_pow2 n 1) by lia. change (2 ^ 1) with 2.
  rewrite divl_ok; [|split; [apply Z.div_pos; lia|apply Z.div_lt_upper_bound; lia]|lia
                    |apply Z.div_lt_upper_bound; nia].
  cbn -[Z.pow wrap_u64 Z.shiftr Z.mul Z.sub Z.ltb Z.add].
  rewrite Z.shiftr_div_pow2, !Z.div_div by lia.
  replace (2 * (v * 2 ^ (31 - s))) with (v * k) by (rewrite Hk2; ring).
  pose proof (quotient_estimate n d (v * k) k Hn Hk ltac:(lia) ltac:(nia) ltac:(lia) Hsm) as Hq.
  set (q := n / (v * k)) in *.
  pose proof (Z.div_mod n d ltac:(lia)) as Hdm. pose proof (Z.mod_pos_bound n d ltac:(lia)) as Hr.
  assert (1 ≤ n / d < 2 ^ 32) as HQ by (split; [apply Z.div_le_lower_bound|apply Z.div_lt_upper_bound]; nia).
  f_equal. rewrite (wrap_u64_small (q - 1)) by (unfold u64; lia).
  assert (q = n / d ∨ q = n / d + 1) as [Hqe|Hqe] by lia; rewrite Hqe; clearbody q v k s.
  - assert ((n / d - 1) * d = n - n mod d - d) as -> by lia.
    assert (d ≤ d * (n / d)) by (apply Z.le_mul_diag_r; lia).
    rewrite (wrap_u64_small (_ - d)), wrap_u64_small by (unfold u64; lia).
    destruct (Z.ltb_spec (n - (n - n mod d - d)) d); lia.
  - assert ((n / d + 1 - 1) * d = n - n mod d) as -> by lia.
    rewrite (wrap_u64_small (_ - n mod d)), wrap_u64_small by (unfold u64; lia).
    destruct (Z.ltb_spec (n - (n - n mod d)) d); lia.
Qed.

Lemma udiv64_ok n d : u64 n → 0 < d < 2 ^ 64 → udiv64 n d = Ok (n / d).
Proof.
  intros Hn Hd. destruct (Z.lt_ge_cases d (2 ^ 32)).
  - apply udiv64_short; [done|lia].
  - apply udiv64_long; [done|lia].
Qed.

Lemma udiv64_zero n : udiv64 n 0 = Fault DivideError.
Proof. done. Qed.

Lemma quot_bounds n d : u64 n → 0 < d < 2 ^ 64 → 0 ≤ d * (n / d) ≤ n ∧ n - d * (n / d) = n mod d.
Proof.
  unfold u64. intros Hn Hd. pose proof (Z.div_mod n d ltac:(lia)).
  pose proof (Z.mod_pos_bound n d ltac:(lia)). assert (0 ≤ n / d) by (apply Z.div_pos; lia). nia.
Qed.

Lemma umod64_ok n d : u64 n → 0 < d < 2 ^ 64 → umod64 n d = Ok (wrap_u32 (n mod d)).
Proof.
  intros Hn Hd. unfold umod64. rewrite udiv64_ok by done. cbn -[Z.pow wrap_u64 Z.mul wrap_u32 Z.sub].
  destruct (quot_bounds n d Hn Hd) as [Hb He]. unfold u64 in Hn.
  rewrite (wrap_u64_small (d * _)) by (unfold u64; lia). rewrite He, wrap_u64_small; [done|].
  pose proof (Z.mod_pos_bound n d ltac:(lia)). unfold u64. lia.
Qed.

Lemma abs64_ok n : i64 n → abs64 n = Z.abs n.
Proof.
  unfold i64, abs64. intros Hn. destruct (Z.leb_spec 0 n).
  - rewrite wrap_u64_small by (unfold u64; lia). lia.
  - unfold wrap_u64. rewrite <- (Z.mod_add n 1) at 1 by lia.
    rewrite (Z.mod_small (n + _)) by lia.
    rewrite <- (Z.mod_add _ 1) by lia. rewrite Z.mod_small; lia.
Qed.

(** The quotient of the magnitudes with the sign of the exact one *)
Lemma quot_sign n d : d ≠ 0 →
  Z.quot n d = if Bool.eqb (n <? 0) (d <? 0) then Z.abs n / Z.abs d else - (Z.abs n / Z.abs d).
Proof.
  intros Hd. rewrite Z.quot_div by done. destruct (Z.ltb_spec n 0), (Z.ltb_spec d 0); cbn [Bool.eqb].
  - rewrite !Z.sgn_neg by lia. lia.
  - rewrite Z.sgn_neg, Z.sgn_pos by lia. lia.
  - destruct (decide (n = 0)) as [->|]; [by rewrite Z.div_0_l by lia|].
    rewrite Z.sgn_pos, Z.sgn_neg by lia. lia.
  - destruct (decide (n = 0)) as [->|]; [by rewrite Z.div_0_l by lia|].
    rewrite !Z.sgn_pos by lia. lia.
Qed.

Lemma sdiv64_ok n d :
  i64 n → i64 d → d ≠ 0 → i64 (Z.quot n d) → ¬ (n = - 2 ^ 63 ∧ d = 1) → sdiv64 n d = Ok (Z.quot n d).
Proof.
  intros Hn Hd Hd0 Hq Hx. unfold sdiv64. rewrite !abs64_ok by done. unfold i64 in *.
  rewrite udiv64_ok by (unfold u64; lia). cbn -[Z.pow to_signed signed64 Z.ltb Z.abs].
  rewrite quot_sign in Hq |- * by done.
  assert (0 ≤ Z.abs n / Z.abs d) by (apply Z.div_pos; lia).
  destruct (Bool.eqb _ _) eqn:Hs.
  - rewrite to_signed_small by (change (64 - 1) with 63; lia). done.
  - assert (Z.abs n / Z.abs d < 2 ^ 63).
    { destruct (decide (Z.abs n / Z.abs d = 2 ^ 63)) as [E|]; [|lia]. exfalso. apply Hx.
      pose proof (Z.div_mod (Z.abs n) (Z.abs d) ltac:(lia)).
      pose proof (Z.mod_pos_bound (Z.abs n) (Z.abs d) ltac:(lia)).
      rewrite E in *. assert (Z.abs d = 1) by nia.
      destruct (Z.ltb_spec n 0), (Z.ltb_spec d 0); cbn in Hs; try done; lia. }
    rewrite to_signed_small by (change (64 - 1) with 63; lia). apply signed64_small. unfold i64. lia.
Qed.

Lemma smod64_ok n d :
  i64 n → i64 d → d ≠ 0 → i64 (Z.quot n d) → ¬ (n = - 2 ^ 63 ∧ d = 1) →
  smod64 n d = Ok (to_signed 32 (Z.rem n d)).
Proof.
  intros Hn Hd Hd0 Hq Hx. unfold smod64. rewrite sdiv64_ok by done.
  cbn -[Z.pow to_signed signed64 Z.mul Z.sub].
  pose proof (Z.quot_rem n d Hd0) as Hqr. pose proof (Z.rem_bound_abs n d Hd0).
  assert (Z.abs (Z.rem n d) ≤ Z.abs n).
  { rewrite <- Z.rem_abs by done. apply Z.rem_le; lia. }
  assert (Z.abs (d * Z.quot n d) ≤ Z.abs n).
  { rewrite Z.abs_mul, <- Z.quot_abs by done. apply Z.mul_quot_le; lia. }
  unfold i64 in *. rewrite signed64_small.
  - cbn -[Z.pow to_signed signed64 Z.mul Z.sub]. replace (n - d * (n ÷ d)) with (Z.rem n d) by lia.
    rewrite signed64_small by (unfold i64; lia). done.
  - unfold i64. lia.
Qed.

(** ** The properties of the routines that GCC calls *)

(** C21 (equivalence): the 64-bit quotients are exact: for every divisor but 0 the unsigned routine,
    through [divl] and the estimate of the long case, returns the floor of the exact
    quotient without a trap, and the signed routine returns the quotient rounded
    towards 0 whenever it fits, except for the smallest integer divided by 1. *)
Theorem quotients_exact :
  (∀ n d, u64 n → u64 d → d ≠ 0 → __udivdi3 n d = Ok (n / d)) ∧
  (∀ n d, i64 n → i64 d → d ≠ 0 → i64 (Z.quot n d) → ¬ (n = - 2 ^ 63 ∧ d = 1) →
     __divdi3 n d = Ok (Z.quot n d)).
Proof.
  split.
  - intros n d Hn Hd Hd0. apply udiv64_ok; [done|]. unfold u64 in Hd. lia.
  - apply sdiv64_ok.
Qed.

Lemma quotients_exact_witness :
  __udivdi3 (2 ^ 64 - 1) (2 ^ 33 + 7) = Ok ((2 ^ 64 - 1) / (2 ^ 33 + 7)) ∧
  __divdi3 (-7) 2 = Ok (Z.quot (-7) 2).
Proof.
  split.
  - by apply (proj1 quotients_exact).
  - apply (proj2 quotients_exact); [by unfold i64|by unfold i64|done|by unfold i64|by intros [??]].
Defined.

(** C39 (bounds): the remainders keep only 32 bits, because [umod64] and [smod64] return 32-bit
    integers: the result is the exact remainder just when that fits in 32 bits, as
    it does for every divisor of 32 bits. *)
Theorem remainders_cut :
  (∀ n d, u64 n → u64 d → d ≠ 0 →
     __umoddi3 n d = Ok (wrap_u32 (n mod d)) ∧
     (__umoddi3 n d = Ok (n mod d) ↔ n mod d < 2 ^ 32)) ∧
  (∀ n d, i64 n → i64 d → d ≠ 0 → i64 (Z.quot n d) → ¬ (n = - 2 ^ 63 ∧ d = 1) →
     __moddi3 n d = Ok (to_signed 32 (Z.rem n d)) ∧
     (__moddi3 n d = Ok (Z.rem n d) ↔ - 2 ^ 31 ≤ Z.rem n d < 2 ^ 31)).
Proof.
  split.
  - intros n d Hn [Hd1 Hd2] Hd0. assert (0 < d < 2 ^ 64) as Hd by lia.
    unfold __umoddi3. rewrite umod64_ok by done. pose proof (Z.mod_pos_bound n d ltac:(lia)) as Hr.
    split; [done|]. split; [intros [= E]|intros; by rewrite wrap_u32_small by lia].
    rewrite <- E. unfold wrap_u32. apply (Z.mod_pos_bound (n mod d) (2 ^ 32)). lia.
  - intros n d Hn Hd Hd0 Hq Hx. unfold __moddi3. rewrite smod64_ok by done.
    split; [done|]. split; [intros [= E]|intros; by rewrite to_signed_small].
    rewrite <- E. unfold to_signed. change (32 - 1) with 31.
    pose proof (Z.mod_pos_bound (Z.rem n d + 2 ^ 31) (2 ^ 32) ltac:(lia)). lia.
Qed.

Lemma remainders_cut_witness :
  (__umoddi3 (2 ^ 33 - 1) (2 ^ 34) = Ok (2 ^ 32 - 1) ∧
   ¬ (__umoddi3 (2 ^ 33 - 1) (2 ^ 34) = Ok ((2 ^ 33 - 1) mod 2 ^ 34))) ∧
  __moddi3 (-7) 2 = Ok (-1).
Proof.
  destruct remainders_cut as [U S]. split_and!.
  - by rewrite (proj1 (U (2 ^ 33 - 1) (2 ^ 34) ltac:(done) ltac:(done) ltac:(done))).
  - rewrite (proj2 (U (2 ^ 33 - 1) (2 ^ 34) ltac:(done) ltac:(done) ltac:(done))). by vm_compute.
  - apply (proj2 (S (-7) 2 ltac:(by unfold i64) ltac:(by unfold i64) ltac:(done) ltac:(by unfold i64)
                    ltac:(by intros [??]))). done.
Defined.

Lemma sdiv64_min : sdiv64 (- 2 ^ 63) (-1) = Ok (- 2 ^ 63).
Proof. done. Qed.

(** The routines fail for a zero divisor, with the processor's divide error, and
    the signed quotient fails for the smallest integer divided by 1, where it
    negates the smallest integer; nothing else fails. *)
Theorem division_faults n d :
  (u64 n → u64 d → ∀ f, __udivdi3 n d = Fault f ↔ d = 0 ∧ f = DivideError) ∧
  (i64 n → i64 d → ∀ f, __divdi3 n d = Fault f ↔
     (d = 0 ∧ f = DivideError) ∨ (n = - 2 ^ 63 ∧ d = 1 ∧ f = Overflow)).
Proof.
  split.
  - intros Hn Hd f. destruct (decide (d = 0)) as [->|Hd0].
    + unfold __udivdi3. rewrite udiv64_zero. naive_solver.
    + unfold __udivdi3, u64 in *. rewrite udiv64_ok by (done || lia). naive_solver.
  - intros Hn Hd f. unfold __divdi3. destruct (decide (d = 0)) as [->|Hd0].
    { unfold sdiv64. change (abs64 0) with 0. rewrite udiv64_zero. cbn. naive_solver. }
    destruct (decide (n = - 2 ^ 63 ∧ d = 1)) as [[-> ->]|Hx].
    { change (sdiv64 (- 2 ^ 63) 1) with (@Fault Z Overflow). naive_solver. }
    destruct (decide (n = - 2 ^ 63 ∧ d = -1)) as [[-> ->]|Hx'].
    { rewrite sdiv64_min. naive_solver. }
    rewrite sdiv64_ok; [naive_solver|done..| |done].
    unfold i64 in *. assert (Z.abs (Z.quot n d) ≤ Z.abs n) as Ha.
    { rewrite <- Z.quot_abs by done. apply Z.quot_le_upper_bound; nia. }
    destruct (decide (n = - 2 ^ 63)) as [->|]; [|lia].
    assert (Z.abs (Z.quot (- 2 ^ 63) d) < 2 ^ 63); [|lia].
    rewrite <- Z.quot_abs by done. apply Z.quot_lt_upper_bound; nia.
Qed.

Lemma division_faults_witness :
  (∀ f, __udivdi3 5 0 = Fault f ↔ 0 = 0 ∧ f = DivideError) ∧
  __divdi3 (- 2 ^ 63) 1 = Fault Overflow.
Proof.
  split; [by apply (proj1 (division_faults 5 0))|].
  apply (proj2 (division_faults (- 2 ^ 63) 1)); [by unfold i64|by unfold i64|by right].
Defined.
