(* ===== verification/KStdlib.v ===== *)
(** * Pintos: numbers, sorting and searching

    [Project_3/lib/stdlib.c], the whole file, with [isspace] and [isdigit] of
    [lib/ctype.h].  The state is the memory of [KString]: bytes addressed from 0.
    A [size_t] is a [Z] that wraps at 32 bits; a signed operation whose result does
    not fit in an [int] is undefined behaviour, as is a failed [ASSERT].

    A comparison function looks at the bytes of two elements and at its auxiliary
    data, and writes nothing: it is a parameter of type
    [list Z → list Z → Aux → Z], applied to the bytes that its two pointers
    address. *)

From stdpp Require Import base tactics list.
From Stdlib Require Import ZArith Lia.
From S2P Require Import Prelude KString.

(** ** [ctype.h] *)

(** Space, form feed, line feed, carriage return, tab, vertical tab *)
Definition isspace (c : Z) : bool :=
  bool_decide (c = 32 ∨ c = 12 ∨ c = 10 ∨ c = 13 ∨ c = 9 ∨ c = 11)%Z.
Definition isdigit (c : Z) : bool := bool_decide (48 ≤ c ∧ c ≤ 57)%Z.

(** ** [atoi] *)

(** A signed operation on [int]s with the exact result [z] *)
Definition int_result (z : Z) : M memory Z :=
  check (bool_decide (INT_MIN ≤ z ∧ z ≤ INT_MAX)%Z);; mret z.

Definition skip_space (s : addr) : M memory addr :=
  fuel ← scan_fuel;
  loop fuel (λ s, c ← ld s; mret (if isspace c then inl (S s) else inr s)) s.

(** [for (value = 0; isdigit( *s); s++) value = value * 10 - ( *s - '0');] *)
Definition parse_digits (s : addr) : M memory Z :=
  fuel ← scan_fuel;
  loop fuel
    (λ '(s, value),
       c ← ld s;
       if isdigit c then
         v10 ← int_result (value * 10);
         value ← int_result (v10 - (c - 48));
         mret (inl (S s, value))
       else mret (inr value)) (s, 0%Z).

Definition atoi (s : addr) : M memory Z :=
  s ← skip_space s;
  c ← ld s;
  let '(negative, s) :=
    if bool_decide (c = 43)%Z then (false, S s)
    else if bool_decide (c = 45)%Z then (true, S s) else (false, s) in
  value ← parse_digits s;
  if (negative : bool) then mret value else int_result (- value).

(** ** Sorting *)

(** [array + (idx - 1) * size] *)
Definition elem_ptr (array : addr) (idx size : Z) : addr :=
  array + Z.to_nat (wrap_u32 (wrap_u32 (idx - 1) * size)).

(** The [n] bytes at [p], as a comparison function reads them *)
Fixpoint fetch (p : addr) (n : nat) : M memory (list Z) :=
  match n with
  | O => mret []
  | S n => v ← ld p; vs ← fetch (S p) n; mret (v :: vs)
  end.

(** [for (i = 0; i < size; i++)] with [n] iterations left *)
Fixpoint swap_bytes (a b : addr) (n : nat) : M memory unit :=
  match n with
  | O => mret tt
  | S n =>
      t ← ld a; v ← ld b; st a v;; st b t;;
      swap_bytes (S a) (S b) n
  end.

Definition do_swap (array : addr) (a_idx b_idx size : Z) : M memory unit :=
  swap_bytes (elem_ptr array a_idx size) (elem_ptr array b_idx size) (Z.to_nat size).

Section compare.
Context {Aux : Type} (compare : list Z → list Z → Aux → Z).

Definition do_compare (array : addr) (a_idx b_idx size : Z) (aux : Aux) : M memory Z :=
  x ← fetch (elem_ptr array a_idx size) (Z.to_nat size);
  y ← fetch (elem_ptr array b_idx size) (Z.to_nat size);
  mret (compare x y aux).

(** [if (child <= cnt && do_compare(array, child, max, ...) > 0) max = child;] *)
Definition larger (array : addr) (child max cnt size : Z) (aux : Aux) : M memory Z :=
  if bool_decide (child ≤ cnt)%Z then
    r ← do_compare array child max size aux;
    mret (if bool_decide (r > 0)%Z then child else max)
  else mret max.

Definition heapify (array : addr) (i cnt size : Z) (aux : Aux) : M memory unit :=
  loop (S (Z.to_nat cnt))
    (λ i,
       let left := wrap_u32 (2 * i) in
       let right := wrap_u32 (2 * i + 1) in
       max ← larger array left i cnt size aux;
       max ← larger array right max cnt size aux;
       if bool_decide (max = i) then mret (inr tt)
       else do_swap array i max size;; mret (inl max)) i.

Definition sort (array : addr) (cnt size : Z) (aux : Aux) : M memory unit :=
  check (bool_decide (size > 0)%Z);;
  loop (S (Z.to_nat cnt))
    (λ i,
       if bool_decide (i > 0)%Z then
         heapify array i cnt size aux;; mret (inl (i - 1)%Z)
       else mret (inr tt)) (cnt / 2)%Z;;
  loop (S (Z.to_nat cnt))
    (λ i,
       if bool_decide (i > 1)%Z then
         do_swap array 1 i size;;
         heapify array 1 (i - 1) size aux;; mret (inl (i - 1)%Z)
       else mret (inr tt)) cnt.

(** ** Searching *)

(** [key] points to bytes that [compare] reads; they are its [size] bytes here. *)
Definition binary_search (key : list Z) (array : addr) (cnt size : Z) (aux : Aux) : M memory (option addr) :=
  let first := array in
  let last := array + Z.to_nat (wrap_u32 (size * cnt)) in
  loop (S (Z.to_nat cnt))
    (λ '(first, last),
       if bool_decide (first < last) then
         let range := (Z.of_nat (last - first) / size)%Z in
         let middle := first + Z.to_nat (range / 2 * size) in
         x ← fetch middle (Z.to_nat size);
         let cmp := compare key x aux in
         if bool_decide (cmp < 0)%Z then mret (inl (first, middle))
         else if bool_decide (cmp > 0)%Z then mret (inl (middle + Z.to_nat size, last))
         else mret (inr (Some middle))
       else mret (inr None)) (first, last).

End compare.

(** [aux] points to the comparison function. *)
Definition compare_thunk (a b : list Z) (aux : list Z → list Z → Z) : Z := aux a b.

Definition qsort (array : addr) (cnt size : Z) (compare : list Z → list Z → Z) : M memory unit :=
  sort compare_thunk array cnt size compare.

Definition bsearch (key : list Z) (array : addr) (cnt size : Z) (compare : list Z → list Z → Z) : M memory (option addr) :=
  binary_search compare_thunk key array cnt size compare.
