(* ===== verification/KStdlibProps.v ===== *)
(** * Pintos: what the heap sort and the binary search do

    The array of [lib/stdlib.c] is seen as its elements [elt m 1] to [elt m N], each
    the bytes of one element.  [heapify] restores the heap order of a subtree whose
    children are heaps; [sort] builds the heap and takes its maximum [N - 1] times;
    [binary_search] halves the range that can hold the key. *)

From stdpp Require Import base tactics list sorting.
From Stdlib Require Import ZArith Lia.
From S2P Require Import Prelude KString KStringProps KStdlib.

Implicit Types (m : memory) (k c : Z).

(** [lia] knows division by a constant here. *)
#[local] Ltac Zify.zify_post_hook ::= Z.to_euclidean_division_equations.

(** ** Blocks *)

Lemma block_ext m m' p q n :
  (∀ i, i < n → m' !! (q + i) = m !! (p + i)) → block m' q n = block m p n.
Proof.
  intros H. apply list_eq. intros i. unfold block. rewrite !lookup_take.
  case_decide as Hi; [|done]. rewrite !lookup_drop. auto.
Qed.

Lemma wp_fetch t p n Q m : p + n ≤ length m → Q (block m p n) m → wp t (fetch p n) Q m.
Proof.
  revert p Q. induction n as [|n IH]; intros p Q Hp HQ; cbn [fetch]; [by apply wp_ret|].
  destruct (lookup_lt_is_Some_2 m p ltac:(lia)) as [v Hv].
  apply wp_bind. eapply wp_ld; [done|]. apply wp_bind, IH; [lia|]. apply wp_ret.
  by rewrite <- (block_S _ _ _ _ Hv).
Qed.

(** [m'] is [m] with the [n] bytes at [p] and at [q] exchanged. *)
Definition exchanged m (p q n : nat) m' : Prop :=
  length m' = length m ∧
  ∀ x, m' !! x = if decide (p ≤ x < p + n) then m !! (x - p + q)
                 else if decide (q ≤ x < q + n) then m !! (x - q + p) else m !! x.

Lemma wp_swap_bytes t p q n Q m :
  p + n ≤ q ∨ q + n ≤ p → p + n ≤ length m → q + n ≤ length m →
  (∀ m', exchanged m p q n m' → Q tt m') → wp t (swap_bytes p q n) Q m.
Proof.
  revert p q Q m. induction n as [|n IH]; intros p q Q m Hd Hp Hq HQ; cbn [swap_bytes].
  { apply wp_ret, HQ. split; [done|]. intros x. repeat case_decide; (lia || done). }
  destruct (lookup_lt_is_Some_2 m p ltac:(lia)) as [v Hv].
  destruct (lookup_lt_is_Some_2 m q ltac:(lia)) as [w Hw].
  apply wp_bind. eapply wp_ld; [done|]. apply wp_bind. eapply wp_ld; [done|].
  apply wp_bind, wp_st; [lia|]. apply wp_bind, wp_st; [rewrite length_insert; lia|].
  apply IH; [lia|rewrite !length_insert; lia..|]. intros m' [Hl Hx]. apply HQ.
  split; [by rewrite Hl, !length_insert|]. intros x. rewrite Hx.
  assert (∀ y, <[q := v]> (<[p := w]> m) !! y =
     if decide (y = q) then m !! p else if decide (y = p) then m !! q else m !! y) as Hy.
  { intros y. destruct (decide (y = q)) as [->|].
    - by rewrite list_lookup_insert_eq by (rewrite length_insert; lia).
    - rewrite list_lookup_insert_ne by done. destruct (decide (y = p)) as [->|].
      + by rewrite list_lookup_insert_eq by lia.
      + by rewrite list_lookup_insert_ne. }
  rewrite !Hy. repeat case_decide; first [lia | f_equal; lia].
Qed.

(** ** The elements of an array *)

Section array.
Context (array : addr) (N : Z) (sz : nat).

Abbreviation size := (Z.of_nat sz).

(** The array lies in the memory, which an address of 32 bits reaches; the indices
    of children do not wrap. *)
Definition fits m : Prop :=
  (0 < size ∧ 0 ≤ N < 2 ^ 31 ∧
   Z.of_nat array + N * size ≤ Z.of_nat (length m) ∧ Z.of_nat (length m) < 2 ^ 32)%Z.

Definition pos (k : Z) : addr := array + Z.to_nat (k - 1) * sz.
Definition elt m (k : Z) : list Z := block m (pos k) sz.
Definition elts m : list (list Z) := elt m <$> seqZ 1 N.

Lemma pos_bound m k : fits m → (1 ≤ k ≤ N)%Z → pos k + sz ≤ length m ∧ pos k + sz ≤ array + Z.to_nat N * sz.
Proof. intros (? & ? & ? & ?) ?. unfold pos. nia. Qed.

Lemma elem_ptr_pos m k : fits m → (1 ≤ k ≤ N)%Z → elem_ptr array k size = pos k.
Proof.
  intros (? & ? & ? & ?) ?. unfold elem_ptr, pos, wrap_u32. f_equal.
  rewrite (Z.mod_small (k - 1)) by lia. rewrite Z.mod_small by nia.
  rewrite Z2Nat.inj_mul, Nat2Z.id by lia. done.
Qed.

(** [m'] is [m] with elements [a] and [b'] exchanged, and nothing else changed. *)
Definition swapped m (a b' : Z) m' : Prop :=
  length m' = length m ∧
  (∀ k, (1 ≤ k ≤ N)%Z → elt m' k = if decide (k = a) then elt m b' else if decide (k = b') then elt m a else elt m k) ∧
  (∀ x, x < array ∨ array + Z.to_nat N * sz ≤ x → m' !! x = m !! x).

Lemma pos_apart k1 k2 : (1 ≤ k1)%Z → (k1 < k2)%Z → pos k1 + sz ≤ pos k2.
Proof. intros ??. unfold pos. nia. Qed.

Lemma exchanged_swapped m a c m' :
  fits m → (1 ≤ a ≤ N)%Z → (1 ≤ c ≤ N)%Z → a ≠ c → exchanged m (pos a) (pos c) sz m' → swapped m a c m'.
Proof.
  intros Hf Ha Hc Hne [Hl Hx]. split_and!; [done| |].
  - intros k Hk. unfold elt.
    assert (∀ k1 k2, (1 ≤ k1 ≤ N)%Z → (1 ≤ k2 ≤ N)%Z → k1 ≠ k2 → pos k1 + sz ≤ pos k2 ∨ pos k2 + sz ≤ pos k1) as Hap.
    { intros k1 k2 ???. destruct (decide (k1 < k2)%Z); [left|right]; apply pos_apart; lia. }
    pose proof (Hap a c Ha Hc Hne).
    destruct (decide (k = a)) as [->|Hka]; [|destruct (decide (k = c)) as [->|Hkc]]; apply block_ext; intros i Hi; rewrite Hx.
    + rewrite decide_True by lia. f_equal. lia.
    + rewrite decide_False, decide_True by lia. f_equal. lia.
    + pose proof (Hap k a Hk Ha Hka). pose proof (Hap k c Hk Hc Hkc).
      rewrite !decide_False by lia. done.
  - intros x Hxo. rewrite Hx. destruct (pos_bound m a Hf Ha), (pos_bound m c Hf Hc).
    assert (array ≤ pos a ∧ array ≤ pos c) by (split; apply Nat.le_add_r). rewrite !decide_False by lia. done.
Qed.

Lemma wp_do_swap t a c Q m :
  fits m → (1 ≤ a ≤ N)%Z → (1 ≤ c ≤ N)%Z → a ≠ c →
  (∀ m', swapped m a c m' → Q tt m') → wp t (do_swap array a c size) Q m.
Proof.
  intros Hf Ha Hc Hne HQ. unfold do_swap. rewrite Nat2Z.id, !(elem_ptr_pos m) by done.
  destruct (pos_bound m a Hf Ha), (pos_bound m c Hf Hc).
  apply wp_swap_bytes; [|lia|lia|].
  - destruct (decide (a < c)%Z); [left|right]; apply pos_apart; lia.
  - intros m' Hm'. apply HQ. by apply exchanged_swapped.
Qed.

(** What [sort] may do to the memory: the elements are rearranged, the first [n]
    among themselves, and the rest of the memory is kept. *)
Definition rearranged (n : Z) m m' : Prop :=
  length m' = length m ∧
  elts m' ≡ₚ elts m ∧
  (∀ k, (1 ≤ k ≤ n)%Z → ∃ k', (1 ≤ k' ≤ n)%Z ∧ elt m' k = elt m k') ∧
  (∀ k, (n < k ≤ N)%Z → elt m' k = elt m k) ∧
  (∀ x, x < array ∨ array + Z.to_nat N * sz ≤ x → m' !! x = m !! x).

Lemma fits_length m m' : length m' = length m → fits m → fits m'.
Proof. unfold fits. by intros ->. Qed.

Lemma rearranged_refl n m : rearranged n m m.
Proof. split_and!; eauto. Qed.

Lemma rearranged_trans n m1 m2 m3 :
  rearranged n m1 m2 → rearranged n m2 m3 → rearranged n m1 m3.
Proof.
  intros (L1 & P1 & F1 & K1 & O1) (L2 & P2 & F2 & K2 & O2). split_and!.
  - congruence.
  - by rewrite P2.
  - intros k Hk. destruct (F2 k Hk) as (k' & Hk' & ->). auto.
  - intros k Hk. rewrite K2 by done. auto.
  - intros x Hx. rewrite O2 by done. auto.
Qed.

Lemma elts_lookup m i : elts m !! i = if decide (i < Z.to_nat N) then Some (elt m (Z.of_nat i + 1)) else None.
Proof.
  unfold elts. rewrite list_lookup_fmap. case_decide as Hi.
  - rewrite lookup_seqZ_lt by lia. cbn. do 2 f_equal. lia.
  - rewrite lookup_seqZ_ge by lia. done.
Qed.

Lemma elts_length m : length (elts m) = Z.to_nat N.
Proof. unfold elts. by rewrite length_fmap, length_seqZ. Qed.

Lemma swapped_rearranged n m a c m' :
  (1 ≤ a ≤ n)%Z → (1 ≤ c ≤ n)%Z → (n ≤ N)%Z → swapped m a c m' → rearranged n m m'.
Proof.
  intros Ha Hc Hn (Hl & He & Ho). split_and!; [done| | | |done].
  - apply Permutation_inj. split; [by rewrite !elts_length|].
    exists (λ i, if decide (i = Z.to_nat (a - 1)) then Z.to_nat (c - 1)
              else if decide (i = Z.to_nat (c - 1)) then Z.to_nat (a - 1) else i).
    split; [intros i j; repeat case_decide; lia|]. intros i. rewrite !elts_lookup.
    repeat case_decide; try lia; try done; rewrite He by lia; repeat case_decide; try lia; do 2 f_equal; lia.
  - intros k Hk. rewrite He by lia. repeat case_decide; eauto.
  - intros k Hk. rewrite He by lia. by rewrite !decide_False by lia.
Qed.

(** ** Heaps *)

Section order.
Context {Aux : Type} (compare : list Z → list Z → Aux → Z) (aux : Aux).

(** [x] is at most [y] for a comparison that returns [strcmp] results. *)
Definition cle (x y : list Z) : Prop := (compare x y aux ≤ 0)%Z.

(** What [sort] asks of [compare] *)
Class StrcmpLike : Prop := {
  cmp_opp x y : (compare x y aux < 0 ↔ 0 < compare y x aux)%Z;
  cmp_trans x y z : cle x y → cle y z → cle x z
}.
Context `{Hcmp : !StrcmpLike}.

Lemma cle_flip x y : (compare x y aux > 0)%Z → cle y x.
Proof. intros H. unfold cle. pose proof (cmp_opp y x). lia. Qed.

Lemma cle_refl x : cle x x.
Proof. unfold cle. pose proof (cmp_opp x x). lia. Qed.

(** Among the first [n] elements, every one whose parent is at least [i0] is at most
    its parent; [heap_but j] makes an exception for the children of [j], which are
    at most the parent of [j]. *)
Definition heap m (i0 n : Z) : Prop :=
  ∀ c, (2 ≤ c ≤ n)%Z → (i0 ≤ c / 2)%Z → cle (elt m c) (elt m (c / 2)).

Definition heap_but m (i0 n j : Z) : Prop :=
  (∀ c, (2 ≤ c ≤ n)%Z → (i0 ≤ c / 2)%Z → (c / 2)%Z ≠ j → cle (elt m c) (elt m (c / 2))) ∧
  (∀ c, (c ≤ n)%Z → (c / 2 = j)%Z → (i0 ≤ j / 2)%Z → cle (elt m c) (elt m (j / 2))).

Lemma wp_do_compare t a c Q m :
  fits m → (1 ≤ a ≤ N)%Z → (1 ≤ c ≤ N)%Z → Q (compare (elt m a) (elt m c) aux) m →
  wp t (do_compare compare array a c size aux) Q m.
Proof.
  intros Hf Ha Hc HQ. unfold do_compare. rewrite Nat2Z.id, !(elem_ptr_pos m) by done.
  destruct (pos_bound m a Hf Ha), (pos_bound m c Hf Hc).
  apply wp_bind, wp_fetch; [lia|]. apply wp_bind, wp_fetch; [lia|]. by apply wp_ret.
Qed.

(** The larger of a child and the largest so far *)
Definition bigger m (child max n : Z) : Z :=
  if decide (child ≤ n ∧ compare (elt m child) (elt m max) aux > 0)%Z then child else max.

Lemma wp_larger t child max n Q m :
  fits m → (1 ≤ child)%Z → (1 ≤ max ≤ N)%Z → (n ≤ N)%Z → Q (bigger m child max n) m →
  wp t (larger compare array child max n size aux) Q m.
Proof.
  intros Hf Hc Hm Hn HQ. unfold larger, bigger in *. case_bool_decide as Hle.
  - apply wp_bind, wp_do_compare; [done|lia|lia|]. apply wp_ret.
    case_bool_decide; [by rewrite decide_True in HQ by lia|by rewrite decide_False in HQ by lia].
  - apply wp_ret. by rewrite decide_False in HQ by lia.
Qed.

(** The index that [heapify] computes is that of the largest of [i] and its
    children. *)
Definition largest m (i n : Z) : Z := bigger m (2 * i + 1) (bigger m (2 * i) i n) n.

Lemma bigger_spec m child max n :
  let l := bigger m child max n in
  (l = max ∨ l = child ∧ (child ≤ n)%Z) ∧ cle (elt m max) (elt m l) ∧
  ((child ≤ n)%Z → cle (elt m child) (elt m l)).
Proof.
  unfold bigger. case_decide as Hb; cbn zeta.
  - split_and!; [right; split; [done|lia]|apply cle_flip; lia|intros; apply cle_refl].
  - split_and!; [by left|apply cle_refl|]. unfold cle. lia.
Qed.

Lemma largest_spec m i n :
  (1 ≤ i ≤ n)%Z →
  let j := largest m i n in
  (1 ≤ j ≤ n)%Z ∧ (j ≠ i → j / 2 = i)%Z ∧ cle (elt m i) (elt m j) ∧
  (∀ c, (c ≤ n)%Z → (c / 2 = i)%Z → cle (elt m c) (elt m j)).
Proof.
  intros Hi j. subst j. unfold largest. set (l := bigger m (2 * i) i n).
  destruct (bigger_spec m (2 * i) i n) as (Hl & Hil & H2l). fold l in Hl, Hil, H2l.
  set (j := bigger m (2 * i + 1) l n).
  destruct (bigger_spec m (2 * i + 1) l n) as (Hj & Hlj & Hrj). fold j in Hj, Hlj, Hrj.
  split_and!; [lia|lia|lia|by eapply cmp_trans|].
  intros c Hc Hc2. assert (c = 2 * i ∨ c = 2 * i + 1)%Z as [->| ->] by lia; [|by apply Hrj].
  eapply cmp_trans; [by apply H2l|done].
Qed.

(** One turn of [heapify]: the exception moves down to the larger child. *)
Lemma heap_but_down m i0 n i m' :
  (1 ≤ i0 ≤ i)%Z → (i ≤ n ≤ N)%Z → heap_but m i0 n i →
  largest m i n ≠ i → swapped m i (largest m i n) m' → heap_but m' i0 n (largest m i n).
Proof.
  intros Hi0 Hi [Hh Hx] Hne (_ & He & _).
  destruct (largest_spec m i n ltac:(lia)) as (Hj & Hp & Hij & Hc). specialize (Hp Hne).
  set (j := largest m i n) in *. split.
  - intros c Hcn Hc0 Hcj. rewrite !He by lia. rewrite (decide_False (P := (c / 2)%Z = j)) by done.
    destruct (decide (c / 2 = i)%Z) as [Hci|Hci].
    + rewrite (decide_False (P := c = i)) by lia.
      case_decide; [done|apply Hc; lia].
    + destruct (decide (c = i)) as [->|]; [apply Hx; lia|].
      rewrite decide_False by congruence. by apply Hh.
  - intros c Hcn Hcj Hj0. rewrite Hp, !He by lia. rewrite (decide_True (P := i = i)) by done.
    rewrite !decide_False by lia. rewrite <- Hcj. apply Hh; lia.
Qed.

Lemma heap_but_done m i0 n i :
  (1 ≤ i0 ≤ i)%Z → (i ≤ n)%Z → heap_but m i0 n i → largest m i n = i → heap m i0 n.
Proof.
  intros Hi0 Hi [Hh _] Hl c Hc Hc0. destruct (decide (c / 2 = i)%Z) as [E|]; [|by apply Hh].
  destruct (largest_spec m i n ltac:(lia)) as (_ & _ & _ & Hm). rewrite Hl in Hm. rewrite E. apply Hm; lia.
Qed.

Lemma wp_heapify t i n Q m :
  fits m → (1 ≤ i ≤ n)%Z → (n ≤ N)%Z → heap m (i + 1) n →
  (∀ m', rearranged n m m' → heap m' i n → Q tt m') →
  wp t (heapify compare array i n size aux) Q m.
Proof.
  intros Hf Hi Hn Hh HQ. apply wp_full. unfold heapify.
  eapply (wp_loop_total
    (λ j m', (i ≤ j ≤ n)%Z ∧ rearranged n m m' ∧ heap_but m' i n j) _ (λ j _, Z.to_nat (n - j))).
  2:{ split; [lia|]. split; [apply rearranged_refl|]. split.
      - intros c Hc Hci Hne. apply Hh; lia.
      - intros c Hc Hci Hii. lia. }
  2: lia.
  intros j m1 (Hj & Hr & Hb). assert (fits m1) as Hf1 by (by eapply fits_length; [apply Hr|]).
  assert (wrap_u32 (2 * j) = 2 * j ∧ wrap_u32 (2 * j + 1) = 2 * j + 1)%Z as [-> ->].
  { destruct Hf as (? & ? & _). unfold wrap_u32. rewrite !Z.mod_small by lia. done. }
  cbn zeta. apply wp_bind, wp_larger; [done|lia|lia|lia|].
  apply wp_bind, wp_larger; [done|lia| |lia|].
  { destruct (bigger_spec m1 (2 * j) j n) as (? & _). lia. }
  fold (largest m1 j n). destruct (largest_spec m1 j n ltac:(lia)) as (Hl & Hp & _).
  case_bool_decide as He.
  - apply wp_ret, HQ; [done|]. by eapply heap_but_done; [| |done|]; [lia|lia|].
  - apply wp_bind, wp_do_swap; [done|lia|lia|congruence|]. intros m2 Hs. apply wp_ret.
    specialize (Hp He). split_and!; [lia|lia| | |lia].
    + eapply rearranged_trans; [done|]. eapply swapped_rearranged; [| | |done]; lia.
    + apply (heap_but_down m1 i n j); [lia|lia|done..].
Qed.

Lemma heap_root m n k : heap m 1 n → (1 ≤ k ≤ n)%Z → cle (elt m k) (elt m 1).
Proof.
  intros Hh. remember (Z.to_nat k) as x eqn:Hx. revert k Hx.
  induction (lt_wf x) as [x _ IH]. intros k -> Hk.
  destruct (decide (k = 1)%Z) as [->|]; [apply cle_refl|].
  eapply cmp_trans; [apply Hh; lia|]. eapply IH; [|done|]; lia.
Qed.

Lemma rearranged_weaken n n' m m' : (n ≤ n' ≤ N)%Z → rearranged n m m' → rearranged n' m m'.
Proof.
  intros Hn (L & P & F & K & O). split_and!; [done|done| | |done].
  - intros k Hk. destruct (decide (k ≤ n)%Z).
    + destruct (F k) as (k' & ? & ?); [lia|]. exists k'. split; [lia|done].
    + exists k. split; [lia|]. apply K. lia.
  - intros k Hk. apply K. lia.
Qed.

(** The elements from [i + 1] on are sorted, and at least all before them. *)
Definition sorted_from m (i : Z) : Prop :=
  ∀ k1 k2, (1 ≤ k1 < k2)%Z → (i < k2 ≤ N)%Z → cle (elt m k1) (elt m k2).

Lemma sorted_from_step m m1 m2 i :
  (1 < i ≤ N)%Z → heap m 1 i → sorted_from m i → swapped m 1 i m1 → rearranged (i - 1) m1 m2 →
  sorted_from m2 (i - 1).
Proof.
  intros Hi Hh Hs (_ & He & _) (_ & _ & F & K & _) k1 k2 H12 Hk2. rewrite (K k2) by lia.
  assert (∃ k, (1 ≤ k ≤ N)%Z ∧ elt m2 k1 = elt m k ∧ (k1 < i → k ≤ i)%Z ∧ (i = k1 → k = 1)%Z ∧ (i < k1 → k = k1)%Z) as (k & Hk & -> & Hk1 & Hk1' & Hk1'').
  { destruct (decide (k1 < i)%Z).
    - destruct (F k1) as (k' & Hk' & ->); [lia|]. rewrite He by lia. repeat case_decide.
      + exists i. split_and!; lia || done.
      + lia.
      + exists k'. split_and!; lia || done.
    - rewrite K, He by lia. repeat case_decide; [lia|exists 1%Z|exists k1]; split_and!; lia || done. }
  rewrite He by lia. rewrite (decide_False (P := k2 = 1%Z)) by lia. case_decide as E.
  - apply heap_root with i; [done|lia].
  - destruct (decide (k < k2)%Z); [apply Hs; lia|]. lia.
Qed.

Lemma heap_swap_root m m1 i : (1 < i ≤ N)%Z → heap m 1 i → swapped m 1 i m1 → heap m1 (1 + 1) (i - 1).
Proof.
  intros Hi Hh (_ & He & _) c Hc Hc2. rewrite !He by lia. rewrite !decide_False by lia. apply Hh; lia.
Qed.

Lemma wp_build t Q m :
  fits m → (∀ m', rearranged N m m' → heap m' 1 N → Q tt m') →
  wp t (loop (S (Z.to_nat N))
    (λ i, if bool_decide (i > 0)%Z then heapify compare array i N size aux;; mret (inl (i - 1)%Z)
          else mret (inr tt)) (N / 2)%Z) Q m.
Proof.
  intros Hf HQ. apply wp_full. assert (0 ≤ N)%Z by (destruct Hf as (_ & ? & _); lia).
  eapply (wp_loop_total
    (λ i m', (0 ≤ i ≤ N / 2)%Z ∧ rearranged N m m' ∧ heap m' (i + 1) N) _ (λ i _, Z.to_nat i)).
  2:{ split; [lia|]. split; [apply rearranged_refl|]. intros c Hc Hc2. lia. }
  2: lia.
  intros i m1 (Hi & Hr & Hh). assert (fits m1) as Hf1 by (by eapply fits_length; [apply Hr|]).
  case_bool_decide as H0.
  - apply wp_bind, wp_heapify; [done|lia|lia|done|]. intros m2 Hr2 Hh2. apply wp_ret.
    split; [|lia]. split; [lia|]. split; [by eapply rearranged_trans|]. by rewrite Z.sub_add.
  - apply wp_ret, HQ; [done|]. by replace 1%Z with (i + 1)%Z by lia.
Qed.

Lemma wp_extract t Q m0 m :
  fits m → rearranged N m0 m → heap m 1 N → (∀ m', rearranged N m0 m' → sorted_from m' 1 → Q tt m') →
  wp t (loop (S (Z.to_nat N))
    (λ i, if bool_decide (i > 1)%Z then
            do_swap array 1 i size;; heapify compare array 1 (i - 1) size aux;; mret (inl (i - 1)%Z)
          else mret (inr tt)) N) Q m.
Proof.
  intros Hf Hr0 Hh0 HQ. apply wp_full. assert (0 ≤ N)%Z by (destruct Hf as (_ & ? & _); lia).
  eapply (wp_loop_total
    (λ i m', (0 ≤ i ≤ N)%Z ∧ length m' = length m ∧ rearranged N m0 m' ∧ heap m' 1 i ∧ sorted_from m' i) _
    (λ i _, Z.to_nat i)).
  2:{ split_and!; [lia|lia|done|done|done|]. intros k1 k2 ? ?. lia. }
  2: lia.
  intros i m1 (Hi & Hl1 & Hr & Hh & Hs). assert (fits m1) as Hf1 by (by eapply fits_length).
  case_bool_decide as H0.
  - apply wp_bind, wp_do_swap; [done|lia|lia|lia|]. intros m2 Hs2.
    assert (fits m2) as Hf2 by (by eapply fits_length; [apply Hs2|]).
    apply wp_bind, wp_heapify; [done|lia|lia|apply (heap_swap_root m1); [lia|done..]|].
    intros m3 Hr3 Hh3. apply wp_ret. split; [|lia]. split_and!; [lia|lia| | |done|].
    + destruct Hr3 as [-> _]. by destruct Hs2 as [-> _].
    + eapply rearranged_trans; [done|]. eapply rearranged_trans.
      * eapply swapped_rearranged; [| | |done]; lia.
      * eapply rearranged_weaken; [|done]. lia.
    + by eapply sorted_from_step; [| | | |done]; [lia|..].
  - apply wp_ret, HQ; [done|]. intros k1 k2 ? ?. apply Hs; lia.
Qed.

Lemma sorted_from_Sorted m : sorted_from m 1 → StronglySorted cle (elts m).
Proof.
  intros Hs. unfold elts.
  assert (∀ n lo, (1 ≤ lo)%Z → (lo + Z.of_nat n ≤ N + 1)%Z → StronglySorted cle (elt m <$> seqZ lo (Z.of_nat n))) as Hg.
  { induction n as [|n IH]; intros lo Hlo Hn; [constructor|].
    rewrite seqZ_cons by lia. cbn. replace (Z.pred (Z.of_nat (S n))) with (Z.of_nat n) by lia.
    constructor; [apply IH; lia|]. apply Forall_fmap, Forall_forall. intros k Hk%elem_of_seqZ.
    apply Hs; lia. }
  destruct (decide (0 ≤ N)%Z).
  - specialize (Hg (Z.to_nat N) 1%Z). rewrite Z2Nat.id in Hg by done. apply Hg; lia.
  - rewrite seqZ_nil by lia. constructor.
Qed.

Lemma wp_sort t Q m :
  fits m →
  (∀ m', rearranged N m m' → StronglySorted cle (elts m') → Q tt m') →
  wp t (sort compare array N size aux) Q m.
Proof.
  intros Hf HQ. unfold sort.
  apply wp_bind, wp_check; [apply bool_decide_eq_true; destruct Hf; lia|].
  apply wp_bind, wp_build; [done|]. intros m1 Hr Hh.
  apply (wp_extract t Q m); [by eapply fits_length; [apply Hr|]|done|done|].
  intros m2 Hr2 Hs. apply HQ; [done|]. by apply sorted_from_Sorted.
Qed.

(** ** Binary search *)

Lemma below_mono key x y : (compare key x aux < 0)%Z → cle x y → (compare key y aux < 0)%Z.
Proof.
  intros Hx Hxy. destruct (decide (compare key y aux < 0)%Z) as [|Hy]; [done|].
  assert (cle x key) as Hxk.
  { apply (cmp_trans x y key); [done|]. unfold cle. pose proof (cmp_opp key y). lia. }
  unfold cle in Hxk. pose proof (cmp_opp key x). lia.
Qed.

Lemma above_mono key x y : (compare key y aux > 0)%Z → cle x y → (compare key x aux > 0)%Z.
Proof.
  intros Hy Hxy. destruct (decide (compare key x aux > 0)%Z) as [|Hx]; [done|].
  assert (cle key y) as Hky by (apply (cmp_trans key x y); [unfold cle; lia|done]).
  unfold cle in Hky. lia.
Qed.

Lemma elts_sorted m k1 k2 :
  StronglySorted cle (elts m) → (1 ≤ k1 ≤ k2)%Z → (k2 ≤ N)%Z → cle (elt m k1) (elt m k2).
Proof.
  intros Hs H12 H2. destruct (decide (k1 = k2)) as [->|]; [apply cle_refl|].
  assert (∀ k, (1 ≤ k ≤ N)%Z → elts m !! Z.to_nat (k - 1) = Some (elt m k)) as He.
  { intros k Hk. rewrite elts_lookup, decide_True by lia. do 2 f_equal. lia. }
  eapply (StronglySorted_app_1_elem_of cle (take (Z.to_nat (k1 - 1)) (elts m) ++ [elt m k1])
            (drop (Z.to_nat k1) (elts m))).
  - replace (Z.to_nat k1) with (S (Z.to_nat (k1 - 1))) by lia.
    rewrite <- take_S_r by (apply He; lia). by rewrite take_drop.
  - apply elem_of_app. right. by left.
  - apply list_elem_of_lookup. exists (Z.to_nat (k2 - 1 - k1)). rewrite lookup_drop.
    rewrite <- He by lia. f_equal. lia.
Qed.

Lemma pos_diff k1 k2 : (1 ≤ k1 ≤ k2)%Z → Z.of_nat (pos k2 - pos k1) = ((k2 - k1) * size)%Z.
Proof. intros H. unfold pos. nia. Qed.

Lemma pos_add k n : (1 ≤ k)%Z → (0 ≤ n)%Z → pos k + Z.to_nat (n * size) = pos (k + n).
Proof. intros ??. unfold pos. rewrite Z2Nat.inj_mul, Nat2Z.id by lia. nia. Qed.

Lemma pos_lt k1 k2 : 0 < sz → (1 ≤ k1)%Z → (1 ≤ k2)%Z → pos k1 < pos k2 ↔ (k1 < k2)%Z.
Proof. intros ???. unfold pos. split; intros; nia. Qed.

(** What the search may return *)
Definition found key m (r : option addr) : Prop :=
  match r with
  | Some p => ∃ k, (1 ≤ k ≤ N)%Z ∧ p = pos k ∧ compare key (elt m k) aux = 0%Z
  | None => ∀ k, (1 ≤ k ≤ N)%Z → compare key (elt m k) aux ≠ 0%Z
  end.

Lemma wp_binary_search t key Q m :
  fits m → StronglySorted cle (elts m) → (∀ r, found key m r → Q r m) →
  wp t (binary_search compare key array N size aux) Q m.
Proof.
  intros Hf Hs HQ. apply wp_full. unfold binary_search. destruct Hf as (Hsz & HN & Hm & H32).
  eapply (wp_loop_total
    (λ '(f, l) m', m' = m ∧ ∃ lo hi, f = pos lo ∧ l = pos hi ∧ (1 ≤ lo ≤ hi)%Z ∧ (hi ≤ N + 1)%Z ∧
       (∀ k, (1 ≤ k < lo)%Z → compare key (elt m k) aux > 0)%Z ∧
       (∀ k, (hi ≤ k ≤ N)%Z → compare key (elt m k) aux < 0)%Z)
    _ (λ '(f, l) _, Z.to_nat (Z.of_nat (l - f) / size))).
  2:{ split; [done|]. exists 1%Z, (N + 1)%Z. split_and!; try lia.
      - unfold pos. lia.
      - unfold pos, wrap_u32. rewrite Z.mod_small by nia. rewrite Z2Nat.inj_mul, Nat2Z.id by lia. nia. }
  2:{ unfold wrap_u32. rewrite Z.mod_small by nia.
      replace (Z.of_nat (array + Z.to_nat (size * N) - array)) with (N * size)%Z by nia.
      rewrite Z.div_mul by lia. lia. }
  intros [f l] m' (-> & lo & hi & -> & -> & Hlo & Hhi & Hlt & Hgt).
  case_bool_decide as Hfl.
  2:{ apply wp_ret, HQ. rewrite pos_lt in Hfl by lia. intros k Hk.
      destruct (decide (k < lo)%Z); [specialize (Hlt k)|specialize (Hgt k)]; lia. }
  apply pos_lt in Hfl; [|lia..].
  rewrite pos_diff, Z.div_mul, pos_add by lia. set (md := (lo + (hi - lo) / 2)%Z).
  assert (lo ≤ md < hi)%Z as Hmd by (subst md; lia).
  apply wp_bind. rewrite Nat2Z.id. apply wp_fetch.
  { destruct (pos_bound m md); [by unfold fits|lia|lia]. }
  fold (elt m md). case_bool_decide as Hc1; [|case_bool_decide as Hc2].
  - apply wp_ret. rewrite pos_diff, Z.div_mul by lia. split; [|lia]. split; [done|].
    exists lo, md. split_and!; try lia; [done|]. intros k Hk.
    eapply below_mono; [done|]. apply elts_sorted; [done|lia|lia].
  - apply wp_ret. replace (pos md + sz) with (pos (md + 1)) by (unfold pos; nia).
    rewrite pos_diff, Z.div_mul by lia. split; [|lia]. split; [done|].
    exists (md + 1)%Z, hi. split_and!; try lia; [|done]. intros k Hk.
    eapply above_mono; [done|]. apply elts_sorted; [done|lia|lia].
  - apply wp_ret, HQ. exists md. split_and!; [lia|lia|done|lia].
Qed.

End order.
End array.
