(* ===== verification/KStdlibMain.v ===== *)
(** * Pintos: the correctness theorems of [lib/stdlib.c]

    The value that [atoi] reads, with its overflows; [qsort] and [bsearch]. *)

From stdpp Require Import base tactics list sorting.
From Stdlib Require Import ZArith Lia.
From S2P Require Import Prelude KString KStringProps KStdlib KStdlibProps.

Implicit Types (m : memory) (p : addr) (s ds rest : list Z).

(** ** [atoi] *)

(** The magnitude of a string of digits, and the accumulator of the loop *)
Definition dec_value ds : Z := foldl (λ v c, v * 10 + (c - 48))%Z 0%Z ds.
Definition accumulate (v : Z) ds : Z := foldl (λ v c, v * 10 - (c - 48))%Z v ds.

Lemma accumulate_opp v ds : accumulate (- v) ds = (- foldl (λ v c, v * 10 + (c - 48)) v ds)%Z.
Proof.
  revert v. induction ds as [|c ds IH]; intros v; [done|]. cbn.
  rewrite <- IH. f_equal. lia.
Qed.

Lemma accumulate_le v ds :
  (v ≤ 0)%Z → Forall (λ c, isdigit c = true) ds → (accumulate v ds ≤ v)%Z.
Proof.
  intros Hv Hd. revert v Hv. induction Hd as [|c ds Hc _ IH]; intros v Hv; [done|].
  apply bool_decide_eq_true in Hc. cbn. etrans; [apply IH|]; lia.
Qed.

Lemma ld_run p c m : m !! p = Some c → ld p m = Done (c, m).
Proof. intros Hp. unfold ld, mbind, M_bind, get. by rewrite Hp. Qed.

Lemma bind_run {A B} (x : M memory A) (f : A → M memory B) m a m' :
  x m = Done (a, m') → (x ≫= f) m = f a m'.
Proof. intros E. unfold mbind, M_bind. by rewrite E. Qed.

Lemma int_result_run z m :
  int_result z m = if bool_decide (INT_MIN ≤ z ∧ z ≤ INT_MAX)%Z then Done (z, m) else Undef.
Proof. unfold int_result, check. by case_bool_decide. Qed.

(** One step of the accumulation fails just when its result is out of range. *)
Lemma digit_step {B} v c (f : Z → M memory B) m :
  isdigit c = true → (v ≤ 0)%Z →
  (v10 ← int_result (v * 10); w ← int_result (v10 - (c - 48)); f w) m =
    if bool_decide (INT_MIN ≤ v * 10 - (c - 48))%Z then f (v * 10 - (c - 48))%Z m else Undef.
Proof.
  intros Hc Hv. apply bool_decide_eq_true in Hc. unfold mbind, M_bind. rewrite int_result_run.
  case_bool_decide as H1.
  - rewrite int_result_run. unfold INT_MIN, INT_MAX in *. repeat case_bool_decide; try done; lia.
  - unfold INT_MIN, INT_MAX in *. case_bool_decide; [lia|done].
Qed.

(** The character that stops the digits *)
Definition stops (P : Z → bool) rest : Prop := P (default 0%Z (head rest)) = false.

Lemma parse_loop_run fuel p v ds rest m :
  str_at m p (ds ++ rest) → Forall (λ c, isdigit c = true) ds → stops isdigit rest →
  (INT_MIN ≤ v ≤ 0)%Z → length ds < fuel →
  loop fuel
    (λ '(s, value),
       c ← ld s;
       if isdigit c then
         v10 ← int_result (value * 10);
         value ← int_result (v10 - (c - 48));
         mret (inl (S s, value))
       else mret (inr value)) (p, v) m
  = if bool_decide (INT_MIN ≤ accumulate v ds)%Z then Done (accumulate v ds, m) else Undef.
Proof.
  revert p v fuel. induction ds as [|c ds IH]; intros p v fuel Hs Hd Hst Hv Hf;
    (destruct fuel as [|fuel]; [cbn in Hf; lia|]); rewrite loop_S; cbn zeta beta iota.
  - destruct (str_here m p [] rest Hs) as [Hp _]. cbn [length] in Hp. rewrite Nat.add_0_r in Hp.
    unfold mbind at 1, M_bind at 1. rewrite (bind_run _ _ _ _ _ (ld_run _ _ _ Hp)), Hst.
    cbn. rewrite bool_decide_true by lia. done.
  - apply str_cons in Hs as (Hp & _ & Hs). apply Forall_cons in Hd as [Hc Hd].
    unfold mbind at 1, M_bind at 1. rewrite (bind_run _ _ _ _ _ (ld_run _ _ _ Hp)), Hc.
    rewrite (digit_step v c (λ w, mret (inl (S p, w)))) by (done || lia).
    case_bool_decide as Hr.
    + cbv beta iota delta [mret M_ret]. rewrite IH; [done|done|done|done| |cbn in Hf; lia].
      apply bool_decide_eq_true in Hc. lia.
    + rewrite bool_decide_false; [done|]. change (accumulate v (c :: ds)) with (accumulate (v * 10 - (c - 48)) ds).
      pose proof (accumulate_le (v * 10 - (c - 48)) ds) as Ha. apply bool_decide_eq_true in Hc.
      specialize (Ha ltac:(lia) Hd). lia.
Qed.

Lemma str_fuel m p s : str_at m p s → length s < S (length m).
Proof. intros Hs%str_length. lia. Qed.

Lemma parse_digits_run p ds rest m :
  str_at m p (ds ++ rest) → Forall (λ c, isdigit c = true) ds → stops isdigit rest →
  parse_digits p m = if bool_decide (dec_value ds ≤ - INT_MIN)%Z then Done ((- dec_value ds)%Z, m) else Undef.
Proof.
  intros Hs Hd Hst. unfold parse_digits, scan_fuel, gets.
  unfold mbind at 1, M_bind at 1. rewrite (parse_loop_run _ _ _ ds rest) by
    (first [done | unfold INT_MIN; lia | apply str_fuel in Hs; rewrite length_app in Hs; lia]).
  change (accumulate 0 ds) with (accumulate (- 0) ds). rewrite accumulate_opp. fold (dec_value ds).
  apply (f_equal2 (λ (c : bool) x, if c then x else _)); [|done]. apply bool_decide_ext. lia.
Qed.

Lemma skip_space_run p sp rest m :
  str_at m p (sp ++ rest) → Forall (λ c, isspace c = true) sp → stops isspace rest →
  skip_space p m = Done (p + length sp, m).
Proof.
  intros Hs Hsp Hst. unfold skip_space, scan_fuel, gets. unfold mbind at 1, M_bind at 1.
  pose proof (str_fuel _ _ _ Hs) as Hf. rewrite length_app in Hf.
  assert (length sp < S (length m)) as Hf' by lia. clear Hf. revert Hf'. generalize (S (length m)) as fuel.
  revert p Hs. induction Hsp as [|c sp Hc _ IH]; intros p Hs fuel Hf; (destruct fuel as [|fuel]; [cbn in Hf; lia|]); rewrite loop_S.
  - destruct (str_here m p [] rest Hs) as [Hp _]. cbn [length] in Hp. rewrite Nat.add_0_r in Hp.
    unfold mbind at 1, M_bind at 1. rewrite (bind_run _ _ _ _ _ (ld_run _ _ _ Hp)), Hst. cbn.
    by rewrite Nat.add_0_r.
  - apply str_cons in Hs as (Hp & _ & Hs).
    unfold mbind at 1, M_bind at 1. rewrite (bind_run _ _ _ _ _ (ld_run _ _ _ Hp)), Hc. cbn -[loop].
    rewrite IH by (done || cbn in Hf; lia). do 2 f_equal. cbn. lia.
Qed.

(** A sign, if any *)
Inductive sign := NoSign | Plus | Minus.
Definition sign_chars (g : sign) : list Z :=
  match g with NoSign => [] | Plus => [43%Z] | Minus => [45%Z] end.
Definition signed_value (g : sign) (v : Z) : Z := match g with Minus => (- v)%Z | _ => v end.

(** What may follow where the number has neither a sign nor digits *)
Definition starts_number (c : Z) : bool := isspace c || bool_decide (c = 43 ∨ c = 45)%Z.

Lemma number_head g ds rest :
  Forall (λ c, isdigit c = true) ds → (g = NoSign → ds = [] → stops starts_number rest) →
  stops isspace (sign_chars g ++ ds ++ rest) ∧
  (g = NoSign → stops (λ c, bool_decide (c = 43 ∨ c = 45)%Z) (ds ++ rest)).
Proof.
  intros Hd Hr. destruct g; try done. specialize (Hr eq_refl). cbn [sign_chars app].
  destruct Hd as [|c ds Hc Hd].
  - specialize (Hr eq_refl). unfold stops, starts_number in *. apply orb_false_elim in Hr as [? ?]. by split.
  - apply bool_decide_eq_true in Hc. unfold stops, isspace. cbn.
    split; [|intros _]; apply bool_decide_eq_false; lia.
Qed.

Lemma dec_value_nonneg ds : Forall (λ c, isdigit c = true) ds → (0 ≤ dec_value ds)%Z.
Proof.
  intros Hd. pose proof (accumulate_le 0 ds ltac:(done) Hd) as Ha.
  change (accumulate 0 ds) with (accumulate (- 0) ds) in Ha. rewrite accumulate_opp in Ha.
  unfold dec_value. lia.
Qed.

Lemma positive_run p ds rest m :
  str_at m p (ds ++ rest) → Forall (λ c, isdigit c = true) ds → stops isdigit rest →
  (value ← parse_digits p; int_result (- value)) m =
    if bool_decide (INT_MIN ≤ dec_value ds ∧ dec_value ds ≤ INT_MAX)%Z then Done (dec_value ds, m) else Undef.
Proof.
  intros Hs Hd Hst. pose proof (dec_value_nonneg ds Hd). unfold mbind, M_bind.
  rewrite (parse_digits_run _ ds rest) by done. case_bool_decide.
  - by rewrite int_result_run, Z.opp_involutive.
  - unfold INT_MIN, INT_MAX in *. rewrite bool_decide_false; [done|]. lia.
Qed.

Lemma atoi_run p sp g ds rest m :
  str_at m p (sp ++ sign_chars g ++ ds ++ rest) →
  Forall (λ c, isspace c = true) sp → Forall (λ c, isdigit c = true) ds → stops isdigit rest →
  (g = NoSign → ds = [] → stops starts_number rest) →
  atoi p m = let v := signed_value g (dec_value ds) in
             if bool_decide (INT_MIN ≤ v ∧ v ≤ INT_MAX)%Z then Done (v, m) else Undef.
Proof.
  intros Hs Hsp Hd Hst Hr. destruct (number_head g ds rest Hd Hr) as [H1 H2].
  unfold atoi. rewrite (bind_run _ _ _ _ _ (skip_space_run _ _ _ _ Hs Hsp H1)).
  destruct (str_here _ _ _ _ Hs) as [Hp _]. apply str_app in Hs.
  rewrite (bind_run _ _ _ _ _ (ld_run _ _ _ Hp)).
  destruct g; cbn [sign_chars app head default] in *.
  - specialize (H2 eq_refl). apply bool_decide_eq_false in H2.
    rewrite !bool_decide_false by tauto. by apply (positive_run _ ds rest).
  - apply str_cons in Hs as (_ & _ & Hs). by apply (positive_run _ ds rest).
  - apply str_cons in Hs as (_ & _ & Hs). pose proof (dec_value_nonneg ds Hd).
    change (bool_decide (id 45 = 43)%Z) with false. change (bool_decide (id 45 = 45)%Z) with true. cbn iota.
    unfold mbind, M_bind. rewrite (parse_digits_run _ ds rest) by done. cbn [signed_value].
    unfold INT_MIN, INT_MAX. repeat case_bool_decide; done || lia.
Qed.

(** [atoi] skips white space and reads an optional sign and the digits that follow,
    whatever comes after them: the result is the number when it fits in an [int],
    also the smallest one, and the behaviour is undefined just when it does not
    fit. *)
Theorem atoi_reads p sp g ds rest m :
  str_at m p (sp ++ sign_chars g ++ ds ++ rest) →
  Forall (λ c, isspace c = true) sp → Forall (λ c, isdigit c = true) ds → stops isdigit rest →
  (g = NoSign → ds = [] → stops starts_number rest) →
  atoi p m = let v := signed_value g (dec_value ds) in
             if bool_decide (INT_MIN ≤ v ∧ v ≤ INT_MAX)%Z then Done (v, m) else Undef.
Proof. apply atoi_run. Qed.

Lemma atoi_reads_witness :
  atoi 0 [32; 45; 49; 50; 120; 0]%Z = Done ((-12)%Z, [32; 45; 49; 50; 120; 0]%Z).
Proof.
  rewrite (atoi_reads 0 [32%Z] Minus [49; 50]%Z [120%Z]); [done| | | | |done].
  - split; [done|]. by apply (bool_decide_unpack _).
  - by repeat constructor.
  - by repeat constructor.
  - done.
Defined.

(** ** Sorting and searching *)

(** C22 (termination): [qsort] terminates and sorts: for a comparison with [strcmp] results it
    rearranges the elements of the array, whatever their size, into ascending
    order, and changes no byte outside the array. *)
Theorem qsort_sorts array N sz compare m :
  StrcmpLike compare_thunk compare → fits array N sz m →
  ∃ m', qsort array N (Z.of_nat sz) compare m = Done (tt, m') ∧
    StronglySorted (cle compare_thunk compare) (elts array N sz m') ∧
    elts array N sz m' ≡ₚ elts array N sz m ∧
    (∀ x, x < array ∨ array + Z.to_nat N * sz ≤ x → m' !! x = m !! x).
Proof.
  intros Hc Hf.
  destruct (wp_total_run (qsort array N (Z.of_nat sz) compare)
    (λ _ m', StronglySorted (cle compare_thunk compare) (elts array N sz m') ∧
       elts array N sz m' ≡ₚ elts array N sz m ∧
       (∀ x, x < array ∨ array + Z.to_nat N * sz ≤ x → m' !! x = m !! x)) m) as ([] & m' & He & HQ).
  - apply wp_sort; [done..|]. intros m' (_ & Hp & _ & _ & Ho) Hs. done.
  - by exists m'.
Qed.

(** Elements of two bytes, compared by the first *)
Definition cmp_first (x y : list Z) : Z :=
  (default 0 (head x) - default 0 (head y))%Z.

#[local] Instance cmp_first_like : StrcmpLike compare_thunk cmp_first.
Proof. split; unfold cle, compare_thunk, cmp_first; lia. Qed.

Definition pairs : memory := [99; 5; 1; 3; 2; 9; 3; 1; 4; 3; 5; 77]%Z.

Lemma qsort_sorts_witness :
  ∃ m', qsort 1 5 2 cmp_first pairs = Done (tt, m') ∧
    StronglySorted (cle compare_thunk cmp_first) (elts 1 5 2 m') ∧
    elts 1 5 2 m' ≡ₚ elts 1 5 2 pairs ∧
    (∀ x, x < 1 ∨ 1 + Z.to_nat 5 * 2 ≤ x → m' !! x = pairs !! x).
Proof. apply (qsort_sorts 1 5 2 cmp_first pairs); [apply cmp_first_like|]. unfold fits. cbn. lia. Defined.

(** [bsearch] terminates and is complete: in an array sorted by the comparison it
    returns the address of an element equal to the key, or a null pointer when no
    element is. *)
Theorem bsearch_finds key array N sz compare m :
  StrcmpLike compare_thunk compare → fits array N sz m →
  StronglySorted (cle compare_thunk compare) (elts array N sz m) →
  ∃ r, bsearch key array N (Z.of_nat sz) compare m = Done (r, m) ∧
    match r with
    | Some p => ∃ k, (1 ≤ k ≤ N)%Z ∧ p = array + Z.to_nat (k - 1) * sz ∧
                     compare key (block m p sz) = 0%Z
    | None => ∀ x, x ∈ elts array N sz m → compare key x ≠ 0%Z
    end.
Proof.
  intros Hc Hf Hs.
  destruct (wp_total_run (bsearch key array N (Z.of_nat sz) compare)
    (λ r m', m' = m ∧ found array N sz compare_thunk compare key m r) m) as (r & m' & He & -> & Hr).
  - by apply wp_binary_search.
  - exists r. split; [done|]. destruct r as [p|]; cbn in Hr.
    + destruct Hr as (k & Hk & -> & Hk0). by exists k.
    + intros x (k & -> & Hk%elem_of_seqZ)%list_elem_of_fmap. apply Hr. lia.
Qed.

Definition sorted_pairs : memory := [99; 1; 4; 3; 2; 3; 5; 5; 1; 9; 3; 77]%Z.

Lemma bsearch_finds_witness :
  ∃ r, bsearch [5%Z] 1 5 2 cmp_first sorted_pairs = Done (r, sorted_pairs) ∧
    match r with
    | Some p => ∃ k, (1 ≤ k ≤ 5)%Z ∧ p = 1 + Z.to_nat (k - 1) * 2 ∧
                     cmp_first [5%Z] (block sorted_pairs p 2) = 0%Z
    | None => ∀ x, x ∈ elts 1 5 2 sorted_pairs → cmp_first [5%Z] x ≠ 0%Z
    end.
Proof.
  apply (bsearch_finds [5%Z] 1 5 2 cmp_first sorted_pairs); [apply cmp_first_like|unfold fits; cbn; lia|].
  repeat constructor; by vm_compute.
Defined.
