(* ===== verification/KHash.v ===== *)
(** * Pintos: hash tables

    [Project_3/lib/kernel/hash.c], the whole file: a table of buckets, each a list
    of [KList], whose number follows the number of elements.  A [struct hash_elem]
    holds a [struct list_elem] only, so that both have the same address.

    The state [hstate] holds the links of all list elements in memory, the state of
    the allocator, the [struct hash] and the data of the client.  The functions
    [hash] and [less], with the auxiliary data, look at the structures around the
    elements, which the table does not change; they are parameters, as in [KList].
    A destructor or an action is any operation on the state.

    The allocator is used through the class [Malloc]: an array of [struct list]s is
    the list of their addresses.  [size_t] and [unsigned] wrap at 32 bits. *)

From stdpp Require Import base tactics list gmap.
From Stdlib Require Import ZArith Lia.
From S2P Require Import Prelude KString KList.

(** ** The allocator as the table uses it *)

Class Malloc (S : Type) := {
  malloc : Z → S → option (list klist) * S;
  free : list klist → S → S
}.

(** [sizeof (struct list)]: two elements of two pointers each *)
Definition LIST_SIZE : Z := 16.

(** ** Data *)

Record hash_table := Hash { elem_cnt : Z; bucket_cnt : Z; buckets : list klist }.

Record hstate (S X : Type) := HState {
  hs_heap : lheap;
  hs_alloc : S;
  hs_hash : hash_table;
  hs_client : X
}.
Arguments HState {_ _} _ _ _ _.
Arguments hs_heap {_ _} _.
Arguments hs_alloc {_ _} _.
Arguments hs_hash {_ _} _.
Arguments hs_client {_ _} _.

(** An iterator: the bucket is its index in [h->buckets]; [elem] starts at the head
    of the first bucket, which is no element. *)
Record hash_iterator := HashIterator { it_bucket : nat; it_elem : option eptr }.

Section table.
Context {S X : Type} `{Malloc S}.
Context (hash : eptr → Z) (less : eptr → eptr → bool).

Local Abbreviation HM := (M (hstate S X)).

(** An operation on lists *)
Definition on_heap {A} (m : M lheap A) : HM A := λ s,
  match m (hs_heap s) with
  | Done (a, h) => Done (a, HState h (hs_alloc s) (hs_hash s) (hs_client s))
  | Undef => Undef
  | NoFuel => NoFuel
  end.

Definition put_hash (h : hash_table) : HM unit :=
  modify (λ s, HState (hs_heap s) (hs_alloc s) h (hs_client s)).

(** [h->elem_cnt = n] *)
Definition set_elem_cnt (n : Z) : HM unit :=
  h ← gets hs_hash; put_hash (Hash n (bucket_cnt h) (buckets h)).

Definition do_malloc (bytes : Z) : HM (option (list klist)) := λ s,
  let '(r, a) := malloc bytes (hs_alloc s) in
  Done (r, HState (hs_heap s) a (hs_hash s) (hs_client s)).

(** The storage of the lists is gone. *)
Definition do_free (ls : list klist) : HM unit :=
  modify (λ s, HState (foldr (λ l h, delete (head l) (delete (tail l) h)) (hs_heap s) ls)
                      (free ls (hs_alloc s)) (hs_hash s) (hs_client s)).

(** ** Searching and changing a bucket *)

Definition find_bucket (e : eptr) : HM klist :=
  h ← gets hs_hash;
  let bucket_idx := Z.land (hash e) (wrap_u32 (bucket_cnt h - 1)) in
  assume_some (buckets h !! Z.to_nat bucket_idx).

Definition find_elem (bucket : klist) (e : eptr) : HM (option eptr) :=
  on_heap
    (fuel ← heap_fuel;
     i ← list_begin bucket;
     loop fuel
       (λ i,
          if bool_decide (i = list_end bucket) then mret (inr None)
          else if negb (less i e) && negb (less e i) then mret (inr (Some i))
          else i ← list_next i; mret (inl i)) i).

Definition turn_off_least_1bit (x : Z) : Z := Z.land x (wrap_u32 (x - 1)).
Definition is_power_of_2 (x : Z) : bool :=
  bool_decide (x ≠ 0%Z) && bool_decide (turn_off_least_1bit x = 0%Z).

(** [while (!is_power_of_2(n)) n = turn_off_least_1bit(n);] *)
Definition round_to_power_of_2 (n : Z) : HM Z :=
  loop 33 (λ n, mret (if is_power_of_2 n then inr n else inl (turn_off_least_1bit n))) n.

(** [for (i = 0; i < cnt; i++) list_init(&ls[i]);] with [n] lists left *)
Fixpoint init_lists (ls : list klist) (i n : nat) : HM unit :=
  match n with
  | O => mret tt
  | Datatypes.S n =>
      l ← assume_some (ls !! i); on_heap (list_init l);; init_lists ls (Datatypes.S i) n
  end.

(** The elements of an old bucket go to their new buckets. *)
Definition move_bucket (old_bucket : klist) : HM unit :=
  fuel ← on_heap heap_fuel;
  elem ← on_heap (list_begin old_bucket);
  loop fuel
    (λ elem,
       if bool_decide (elem = list_end old_bucket) then mret (inr tt)
       else
         new_bucket ← find_bucket elem;
         nxt ← on_heap (list_next elem);
         on_heap (list_remove elem);;
         on_heap (list_push_front new_bucket elem);;
         mret (inl nxt)) elem.

Fixpoint move_buckets (old_buckets : list klist) (i n : nat) : HM unit :=
  match n with
  | O => mret tt
  | Datatypes.S n =>
      l ← assume_some (old_buckets !! i); move_bucket l;;
      move_buckets old_buckets (Datatypes.S i) n
  end.

(** One bucket for every [BEST_ELEMS_PER_BUCKET] = 2 elements, but at least four *)
Definition rehash : HM unit :=
  h ← gets hs_hash;
  let old_buckets := buckets h in
  let old_bucket_cnt := bucket_cnt h in
  let new_bucket_cnt := (elem_cnt h / 2)%Z in
  let new_bucket_cnt := if bool_decide (new_bucket_cnt < 4)%Z then 4%Z else new_bucket_cnt in
  new_bucket_cnt ← round_to_power_of_2 new_bucket_cnt;
  if bool_decide (new_bucket_cnt = old_bucket_cnt) then mret tt
  else
    r ← do_malloc (wrap_u32 (LIST_SIZE * new_bucket_cnt));
    match r with
    | None => mret tt
    | Some new_buckets =>
        init_lists new_buckets 0 (Z.to_nat new_bucket_cnt);;
        put_hash (Hash (elem_cnt h) new_bucket_cnt new_buckets);;
        move_buckets old_buckets 0 (Z.to_nat old_bucket_cnt);;
        do_free old_buckets
    end.

Definition insert_elem (bucket : klist) (e : eptr) : HM unit :=
  h ← gets hs_hash; set_elem_cnt (wrap_u32 (elem_cnt h + 1));;
  on_heap (list_push_front bucket e).

Definition remove_elem (e : eptr) : HM unit :=
  h ← gets hs_hash; set_elem_cnt (wrap_u32 (elem_cnt h - 1));;
  on_heap (list_remove e);; mret tt.

(** ** Life cycle *)

(** [while (!list_empty(bucket)) destructor(list_pop_front(bucket), h->aux);] *)
Definition destroy_elems (destructor : eptr → HM unit) (bucket : klist) : HM unit :=
  fuel ← on_heap heap_fuel;
  loop fuel
    (λ _ : unit,
       empty ← on_heap (list_empty bucket);
       if (empty : bool) then mret (inr tt)
       else
         e ← on_heap (list_pop_front bucket);
         destructor e;; mret (inl tt)) tt.

Fixpoint clear_buckets (destructor : option (eptr → HM unit)) (i n : nat) : HM unit :=
  match n with
  | O => mret tt
  | Datatypes.S n =>
      h ← gets hs_hash;
      bucket ← assume_some (buckets h !! i);
      match destructor with Some d => destroy_elems d bucket | None => mret tt end;;
      on_heap (list_init bucket);;
      clear_buckets destructor (Datatypes.S i) n
  end.

Definition hash_clear (destructor : option (eptr → HM unit)) : HM unit :=
  h ← gets hs_hash;
  clear_buckets destructor 0 (Z.to_nat (bucket_cnt h));;
  set_elem_cnt 0.

(** A null [h->buckets] is an array without elements. *)
Definition hash_init : HM bool :=
  r ← do_malloc (wrap_u32 (LIST_SIZE * 4));
  put_hash (Hash 0 4 (default [] r));;
  match r with
  | Some _ => hash_clear None;; mret true
  | None => mret false
  end.

Definition hash_destroy (destructor : option (eptr → HM unit)) : HM unit :=
  match destructor with Some _ => hash_clear destructor | None => mret tt end;;
  h ← gets hs_hash; do_free (buckets h).

(** ** Search, insertion, deletion *)

Definition hash_insert (new : eptr) : HM (option eptr) :=
  bucket ← find_bucket new;
  old ← find_elem bucket new;
  match old with None => insert_elem bucket new | Some _ => mret tt end;;
  rehash;;
  mret old.

Definition hash_replace (new : eptr) : HM (option eptr) :=
  bucket ← find_bucket new;
  old ← find_elem bucket new;
  match old with Some o => remove_elem o | None => mret tt end;;
  insert_elem bucket new;;
  rehash;;
  mret old.

Definition hash_find (e : eptr) : HM (option eptr) :=
  bucket ← find_bucket e; find_elem bucket e.

Definition hash_delete (e : eptr) : HM (option eptr) :=
  bucket ← find_bucket e;
  found ← find_elem bucket e;
  match found with Some f => remove_elem f;; rehash | None => mret tt end;;
  mret found.

Definition hash_size : HM Z := gets (λ s, elem_cnt (hs_hash s)).
Definition hash_empty : HM bool := gets (λ s, bool_decide (elem_cnt (hs_hash s) = 0%Z)).

(** ** Iteration *)

Definition apply_bucket (action : eptr → HM unit) (bucket : klist) : HM unit :=
  fuel ← on_heap heap_fuel;
  elem ← on_heap (list_begin bucket);
  loop fuel
    (λ elem,
       if bool_decide (elem = list_end bucket) then mret (inr tt)
       else
         nxt ← on_heap (list_next elem);
         action elem;; mret (inl nxt)) elem.

Fixpoint apply_buckets (action : eptr → HM unit) (i n : nat) : HM unit :=
  match n with
  | O => mret tt
  | Datatypes.S n =>
      h ← gets hs_hash;
      bucket ← assume_some (buckets h !! i);
      apply_bucket action bucket;;
      apply_buckets action (Datatypes.S i) n
  end.

Definition hash_apply (action : eptr → HM unit) : HM unit :=
  h ← gets hs_hash; apply_buckets action 0 (Z.to_nat (bucket_cnt h)).

Definition hash_first : HM hash_iterator :=
  h ← gets hs_hash;
  l ← assume_some (buckets h !! 0%nat);
  mret (HashIterator 0 (Some (list_head l))).

(** The body of the loop advances to the next bucket, if there is one. *)
Definition hash_next (i : hash_iterator) : HM hash_iterator :=
  h ← gets hs_hash;
  e ← assume_some (it_elem i);
  e ← on_heap (list_next e);
  loop (Datatypes.S (length (buckets h)))
    (λ '(b, e),
       bucket ← assume_some (buckets h !! b);
       if bool_decide (e = list_end bucket) then
         let b := Datatypes.S b in
         if bool_decide (bucket_cnt h ≤ Z.of_nat b)%Z then mret (inr (HashIterator b None))
         else
           bucket ← assume_some (buckets h !! b);
           e ← on_heap (list_begin bucket);
           mret (inl (b, e))
       else mret (inr (HashIterator b (Some e)))) (it_bucket i, e).

Definition hash_cur (i : hash_iterator) : option eptr := it_elem i.

End table.

(** ** Hash functions *)

Definition FNV_32_PRIME : Z := 16777619.
Definition FNV_32_BASIS : Z := 2166136261.

Definition fnv_step (hash byte : Z) : Z := Z.lxor (wrap_u32 (hash * FNV_32_PRIME)) byte.

Fixpoint hash_bytes_loop (hash : Z) (buf : addr) (size : nat) : M memory Z :=
  match size with
  | O => mret hash
  | Datatypes.S n => c ← ld buf; hash_bytes_loop (fnv_step hash c) (Datatypes.S buf) n
  end.

Definition hash_bytes (buf : addr) (size : nat) : M memory Z := hash_bytes_loop FNV_32_BASIS buf size.

Definition hash_string (s : addr) : M memory Z :=
  fuel ← scan_fuel;
  loop fuel
    (λ '(s, hash),
       c ← ld s;
       if bool_decide (c ≠ 0%Z) then mret (inl (Datatypes.S s, fnv_step hash c))
       else mret (inr hash)) (s, FNV_32_BASIS).

(** The bytes of an [int] in memory, the low one first *)
Definition int_bytes (i : Z) : memory :=
  [i mod 256; i / 2 ^ 8 mod 256; i / 2 ^ 16 mod 256; i / 2 ^ 24 mod 256]%Z.

(** [hash_bytes(&i, sizeof i)] *)
Definition hash_int (i : Z) : outcome Z :=
  match hash_bytes 0 4 (int_bytes i) with
  | Done (v, _) => Done v
  | Undef => Undef
  | NoFuel => NoFuel
  end.
