(* ===== verification/KHashProps.v ===== *)
(** * Pintos: the invariant of hash tables

    A family of disjoint lists in one heap, and the table as the family of its
    buckets: every element is in the bucket that its hash value selects, no two
    elements have equal keys, and the counts are right.  The operations keep it,
    [rehash] included, whether or not the allocation of new buckets succeeds. *)

From stdpp Require Import base tactics list gmap sorting.
From Stdlib Require Import ZArith Lia.
From S2P Require Import Prelude KString KStringProps KList KListProps KListSort KListMain KHash.

Implicit Types (h : lheap) (l : klist) (es : list eptr).

(** ** Families of lists *)

Abbreviation family := (list (klist * list eptr)).
Implicit Types (F G : family).

Definition nodes_of (p : klist * list eptr) : list eptr := nodes p.1 p.2.
Definition elems F : list eptr := F ≫= snd.
Definition headers (ls : list klist) : list eptr := ls ≫= λ l, [head l; tail l].

Record fam h F : Prop := {
  fam_dlist i l es : F !! i = Some (l, es) → dlist h l es;
  fam_disjoint i j p q a : F !! i = Some p → F !! j = Some q →
    a ∈ nodes_of p → a ∈ nodes_of q → i = j
}.

Lemma elem_of_elems F e : e ∈ elems F ↔ ∃ i l es, F !! i = Some (l, es) ∧ e ∈ es.
Proof.
  unfold elems. rewrite list_elem_of_bind. split.
  - intros ([l es] & He & [i Hi]%list_elem_of_lookup). eauto.
  - intros (i & l & es & Hi & He). exists (l, es). split; [done|]. by eapply list_elem_of_lookup_2.
Qed.

Lemma elem_of_headers ls a : a ∈ headers ls ↔ ∃ l, l ∈ ls ∧ (a = head l ∨ a = tail l).
Proof.
  unfold headers. rewrite list_elem_of_bind. split.
  - intros (l & Ha & Hl). exists l. split; [done|]. set_solver.
  - intros (l & Hl & Ha). exists l. split; [|done]. set_solver.
Qed.

Lemma elem_of_nodes l es a : a ∈ nodes l es ↔ a = head l ∨ a = tail l ∨ a ∈ es.
Proof. unfold nodes. rewrite elem_of_cons, elem_of_app, list_elem_of_singleton. tauto. Qed.

Lemma elems_insert F i l es es' :
  F !! i = Some (l, es) → elems F ≡ₚ es ++ elems (<[i := (l, [])]> F) ∧
    elems (<[i := (l, es')]> F) ≡ₚ es' ++ elems (<[i := (l, [])]> F).
Proof.
  intros Hi. assert (i < length F) as Hlt by (by eapply lookup_lt_Some).
  rewrite !insert_take_drop by done. rewrite <- (take_drop_middle F i (l, es) Hi) at 1.
  unfold elems. rewrite !bind_app, !bind_cons. cbn [snd]. cbn [app].
  split; [|]; apply Permutation_app_swap_app.
Qed.

Lemma elems_set F i l es es' :
  F !! i = Some (l, es) → es ++ elems (<[i := (l, es')]> F) ≡ₚ es' ++ elems F.
Proof.
  intros Hi. destruct (elems_insert F i l es es' Hi) as [H1 H2]. rewrite H1, H2.
  apply Permutation_app_swap_app.
Qed.

Lemma elems_app F G : elems (F ++ G) = elems F ++ elems G.
Proof. apply bind_app. Qed.

Lemma elems_nodup h F : fam h F → NoDup (elems F).
Proof.
  unfold elems. induction F as [|[l es] F IH]; intros Hf; [constructor|].
  rewrite bind_cons. apply NoDup_app. split_and!.
  - by eapply es_nodup, (fam_dlist _ _ Hf 0).
  - intros e He (i & l' & es' & Hi & He')%elem_of_elems.
    assert (0 = S i); [|done].
    eapply (fam_disjoint _ _ Hf 0 (S i) (l, es) (l', es') e); [done|done| |]; apply elem_of_nodes; tauto.
  - apply IH. split.
    + intros i l' es' Hi. by apply (fam_dlist _ _ Hf (S i)).
    + intros i j p q a Hi Hj Hp Hq.
      assert (S i = S j) by (by eapply (fam_disjoint _ _ Hf (S i) (S j) p q a)). lia.
Qed.

(** One list of the family changes, and takes no node of another. *)
Lemma fam_set h h' F i l es es' (L : list eptr) :
  fam h F → F !! i = Some (l, es) → dlist h' l es' → same_but L h h' →
  (∀ a j p, a ∈ L ∨ a ∈ es' → F !! j = Some p → a ∈ nodes_of p → j = i) →
  fam h' (<[i := (l, es')]> F).
Proof.
  intros Hf Hi Hd Hs Hx. assert (i < length F) as Hlt by (by eapply lookup_lt_Some).
  assert (∀ a j q, a ∈ nodes l es' → F !! j = Some q → a ∈ nodes_of q → j = i) as Hne.
  { intros a j q Ha Hj Hq. apply elem_of_nodes in Ha as [->|[->|Ha]]; [| |by eapply Hx; [right|..]];
      (eapply (fam_disjoint _ _ Hf j i); [done|done|done|]); apply elem_of_nodes; tauto. }
  split.
  - intros j l' esj [(-> & [= <- <-] & _)|(Hne' & Hj)]%list_lookup_insert_Some; [done|].
    eapply dlist_frame; [done| |by apply (fam_dlist _ _ Hf j)].
    intros a Ha HL. apply Hne'. symmetry. by eapply (Hx a j); [left| |].
  - intros j1 j2 p q a Hp Hq Ha1 Ha2.
    apply list_lookup_insert_Some in Hp as [(<- & <- & _)|(Hn1 & Hp)];
      apply list_lookup_insert_Some in Hq as [(<- & <- & _)|(Hn2 & Hq)].
    + done.
    + symmetry. by eapply Hne.
    + by eapply Hne.
    + by eapply (fam_disjoint _ _ Hf).
Qed.

(** ** Operations on one list of a family *)

Lemma fam_push t F i l es e Q h :
  fam h F → F !! i = Some (l, es) → is_Some (h !! e) → (∀ j p, F !! j = Some p → e ∉ nodes_of p) →
  (∀ h', fam h' (<[i := (l, e :: es)]> F) → dom h' = dom h → Q tt h') →
  wp t (list_push_front l e) Q h.
Proof.
  intros Hf Hi He Hn HQ. pose proof (fam_dlist _ _ Hf _ _ _ Hi) as Hd.
  apply (wp_push_front _ l es); [done|by apply (Hn i (l, es))|done|]. intros h' Hd' Hs. apply HQ.
  - eapply fam_set; [done|done|done|done|]. intros a j p Ha Hj Hp.
    assert (a = e ∨ a ∈ nodes l es) as [->|Ha'].
    { rewrite elem_of_nodes. rewrite !elem_of_cons, elem_of_nodes in Ha. tauto. }
    + by destruct (Hn j p Hj).
    + by eapply (fam_disjoint _ _ Hf j i p (l, es) a).
  - by eapply (dom_pushed h h' l es).
Qed.

Lemma fam_remove t F i l es1 e es2 Q h :
  fam h F → F !! i = Some (l, es1 ++ e :: es2) →
  (∀ h', fam h' (<[i := (l, es1 ++ es2)]> F) → dom h' = dom h → Q (cur l es2) h') →
  wp t (list_remove e) Q h.
Proof.
  intros Hf Hi HQ. pose proof (fam_dlist _ _ Hf _ _ _ Hi) as Hd.
  apply (wp_remove_dlist _ l es1 e es2); [done|]. intros h' Hd' Hs. apply HQ.
  - eapply fam_set; [done|done|done|done|]. intros a j p Ha Hj Hp.
    eapply (fam_disjoint _ _ Hf j i p (l, es1 ++ e :: es2) a); [done|done|done|].
    cbn. apply elem_of_nodes. rewrite !elem_of_nodes in Ha. set_solver.
  - eapply dom_popped; [exact Hd| |done|done]. set_solver.
Qed.

(** A list header outside the family becomes an empty list of it. *)
Lemma fam_init F l h :
  fam h F → head l ≠ tail l → (∀ j p, F !! j = Some p → head l ∉ nodes_of p ∧ tail l ∉ nodes_of p) →
  fam (<[tail l := ListElem (Some (head l)) None]> (<[head l := ListElem None (Some (tail l))]> h)) (F ++ [(l, [])]).
Proof.
  intros Hf Hht Hn. set (h' := <[tail l := _]> _).
  assert (same_but [head l; tail l] h h') as Hs.
  { intros a Ha. subst h'. rewrite !lookup_insert_ne; [done|set_solver..]. }
  split.
  - intros i l' es [Hi|[_ Hi]]%lookup_app_Some.
    + eapply dlist_frame; [exact Hs| |by apply (fam_dlist _ _ Hf i)]. intros a Ha Hx.
      destruct (Hn i (l', es) Hi) as [Hh Ht]. set_solver.
    + apply list_lookup_singleton_Some in Hi as [_ [= <- <-]]. split.
      * unfold nodes. cbn. subst h'. rewrite lookup_insert_eq, lookup_insert_ne, lookup_insert_eq by done. done.
      * unfold nodes. cbn. apply NoDup_cons. split; [set_solver|]. apply NoDup_singleton.
  - assert (∀ i j p a, F !! i = Some p → [(l, @nil eptr)] !! j = Some (l, []) → a ∈ nodes_of p → a ∈ nodes l [] → False) as Hx.
    { intros i j p a Hi _ Ha Hl. destruct (Hn i p Hi). apply elem_of_nodes in Hl. set_solver. }
    intros i j p q a [Hi|[Hli Hi]]%lookup_app_Some [Hj|[Hlj Hj]]%lookup_app_Some Ha1 Ha2.
    + by eapply (fam_disjoint _ _ Hf).
    + pose proof Hj as [Hj0 [= <-]]%list_lookup_singleton_Some. by destruct (Hx i (j - length F) p a).
    + pose proof Hi as [Hi0 [= <-]]%list_lookup_singleton_Some. by destruct (Hx j (i - length F) q a).
    + apply list_lookup_singleton_Some in Hi as [? _], Hj as [? _]. lia.
Qed.

(** ** Powers of two *)

Section power.
Local Open Scope Z_scope.

Lemma land_even_odd p q : Z.land (2 * p) (2 * q + 1) = 2 * Z.land p q.
Proof.
  apply Z.bits_inj'. intros n Hn. rewrite Z.land_spec. destruct (Z.eq_dec n 0) as [->|Hn0].
  - by rewrite !Z.testbit_even_0.
  - replace n with (Z.succ (Z.pred n)) by lia.
    rewrite !Z.testbit_even_succ, Z.testbit_odd_succ, Z.land_spec by lia. done.
Qed.

Lemma land_odd_even m : Z.land (2 * m + 1) (2 * m) = 2 * m.
Proof.
  apply Z.bits_inj'. intros n Hn. rewrite Z.land_spec. destruct (Z.eq_dec n 0) as [->|Hn0].
  - by rewrite Z.testbit_even_0, andb_false_r.
  - replace n with (Z.succ (Z.pred n)) by lia.
    rewrite Z.testbit_even_succ, Z.testbit_odd_succ by lia. apply andb_diag.
Qed.

Lemma land_pred a m : 0 ≤ a → Z.land (2 ^ a * (2 * m + 1)) (2 ^ a * (2 * m + 1) - 1) = 2 ^ a * (2 * m).
Proof.
  intros Ha. revert m. pattern a. apply natlike_ind; [| |done]; clear a Ha.
  - intros m. rewrite Z.pow_0_r, !Z.mul_1_l, Z.add_simpl_r. apply land_odd_even.
  - intros a Ha IH m. rewrite Z.pow_succ_r, <- !Z.mul_assoc by done. set (x := 2 ^ a * (2 * m + 1)) in *.
    replace (2 * x - 1) with (2 * (x - 1) + 1) by lia. rewrite land_even_odd. subst x. by rewrite IH.
Qed.

Lemma odd_part x : 0 < x → ∃ a m, 0 ≤ a ∧ 0 ≤ m ∧ x = 2 ^ a * (2 * m + 1).
Proof.
  intros Hx. destruct x as [|p|p]; [lia| |lia]. clear Hx. induction p as [p IH|p IH|].
  - exists 0, (Z.pos p). lia.
  - destruct IH as (a & m & Ha & Hm & E). exists (a + 1), m.
    rewrite Z.pow_add_r by lia. split_and!; lia.
  - exists 0, 0. lia.
Qed.

(** A number that is no power of two keeps what is at least [2^k] when its lowest bit
    is turned off, and gains a trailing zero. *)
Lemma turn_off_spec x k j :
  0 < x < 2 ^ 32 → 0 ≤ k → 2 ^ k ≤ x → (2 ^ j | x) → 0 ≤ j →
  (is_power_of_2 x = true ∧ ∃ a, 0 ≤ a ∧ x = 2 ^ a) ∨
  (is_power_of_2 x = false ∧ 2 ^ k ≤ turn_off_least_1bit x < x ∧ (2 ^ (j + 1) | turn_off_least_1bit x)).
Proof.
  intros Hx Hk Hkx Hj Hj0. destruct (odd_part x) as (a & m & Ha & Hm & E); [lia|].
  assert (turn_off_least_1bit x = 2 ^ a * (2 * m)) as Eo.
  { unfold turn_off_least_1bit, wrap_u32. rewrite Z.mod_small by lia. rewrite E. by apply land_pred. }
  assert (0 < 2 ^ a) as H2a by lia. unfold is_power_of_2. rewrite Eo, (bool_decide_true (x ≠ 0)) by lia.
  cbn [andb]. destruct (decide (m = 0)) as [->|Hm0].
  - left. split; [apply bool_decide_eq_true; lia|]. exists a. lia.
  - right. split; [apply bool_decide_eq_false; nia|].
    assert (j ≤ a) as Hja.
    { destruct (decide (j ≤ a)) as [|Hja]; [done|]. destruct Hj as [c Hc]. exfalso.
      assert (2 ^ j = 2 ^ a * (2 * 2 ^ (j - a - 1))) as Ej
        by (rewrite <- Z.pow_succ_r, <- Z.pow_add_r by lia; f_equal; lia).
      assert (2 * m + 1 = 2 * (c * 2 ^ (j - a - 1))); [|lia]. rewrite E, Ej in Hc.
      apply (Z.mul_reg_l _ _ (2 ^ a)); [lia|]. rewrite Hc. ring. }
    split_and!.
    + destruct (decide (k ≤ a)) as [Hka|Hka].
      * assert (2 ^ k ≤ 2 ^ a) by (apply Z.pow_le_mono_r; lia). nia.
      * assert (2 ^ k = 2 ^ a * (2 * 2 ^ (k - a - 1))) as Ek
          by (rewrite <- Z.pow_succ_r, <- Z.pow_add_r by lia; f_equal; lia).
        rewrite Ek, E in Hkx. rewrite Ek. apply Z.mul_le_mono_nonneg_l; [lia|].
        apply Z.mul_le_mono_pos_l in Hkx; [|done]. lia.
    + rewrite E. apply Z.mul_lt_mono_pos_l; lia.
    + exists (2 ^ (a - j) * m). replace (2 ^ a) with (2 ^ (a - j) * 2 ^ j)
        by (rewrite <- Z.pow_add_r by lia; f_equal; lia).
      rewrite Z.pow_add_r by lia. ring.
Qed.

Lemma wp_round {S X} t n k Q (s : hstate S X) :
  0 < n < 2 ^ 32 → 0 ≤ k → 2 ^ k ≤ n →
  (∀ a, k ≤ a → 2 ^ a ≤ n → Q (2 ^ a) s) → wp t (round_to_power_of_2 n) Q s.
Proof.
  intros Hn Hk Hkn HQ. apply wp_full. unfold round_to_power_of_2.
  assert (∀ fuel j x, 0 ≤ j → 32 - j < Z.of_nat fuel → (2 ^ j | x) → 0 < x ≤ n → 2 ^ k ≤ x →
    wp Full (loop fuel (λ n, mret (if is_power_of_2 n then inr n else inl (turn_off_least_1bit n))) x) Q s) as Hgo.
  { induction fuel as [|fuel IH]; intros j x Hj Hf Hd Hx Hkx.
    - assert (2 ^ 32 ≤ 2 ^ j) by (apply Z.pow_le_mono_r; lia). apply Z.divide_pos_le in Hd; lia.
    - rewrite loop_S. apply wp_bind, wp_ret.
      destruct (turn_off_spec x k j) as [[-> (a & Ha & ->)]|(-> & Ho & Hd')]; [lia|done|done|done|done| |].
      + apply wp_ret, HQ; [|lia]. apply (Z.pow_le_mono_r_iff 2); lia.
      + apply (IH (j + 1)); [lia|lia|done| |lia]. assert (0 < 2 ^ k) by lia. lia. }
  apply (Hgo 33%nat 0); [lia|lia|apply Z.divide_1_l|lia|done].
Qed.
End power.

(** ** More on families *)

Lemma fam_frame h h' F :
  fam h F → (∀ i p a, F !! i = Some p → a ∈ nodes_of p → h' !! a = h !! a) → fam h' F.
Proof.
  intros Hf Hs. split; [|by apply (fam_disjoint _ _ Hf)]. intros i l es Hi.
  destruct (fam_dlist _ _ Hf i l es Hi) as [Hseg Hnd]. split; [|done].
  eapply dseg_frame; [|done]. intros a Ha. by apply (Hs i (l, es)).
Qed.

Lemma fam_app_r h F G : fam h (F ++ G) → fam h G.
Proof.
  intros Hf. assert (∀ i, (F ++ G) !! (length F + i) = G !! i) as Hl.
  { intros i. rewrite lookup_app_r by lia. f_equal. lia. }
  split.
  - intros i l es Hi. apply (fam_dlist _ _ Hf (length F + i)). by rewrite Hl.
  - intros i j p q a Hi Hj Ha1 Ha2. assert (length F + i = length F + j); [|lia].
    eapply (fam_disjoint _ _ Hf); [by rewrite Hl|by rewrite Hl|done|done].
Qed.

Lemma fam_in_dom h F i p a : fam h F → F !! i = Some p → a ∈ nodes_of p → is_Some (h !! a).
Proof. destruct p as [l es]. intros Hf Hi. by eapply nodes_dom, (fam_dlist _ _ Hf i). Qed.

Lemma header_in_nodes F a : a ∈ headers F.*1 → ∃ i p, F !! i = Some p ∧ a ∈ nodes_of p.
Proof.
  intros (l & ([l' es] & -> & [i Hi]%list_elem_of_lookup)%list_elem_of_fmap & Ha)%elem_of_headers.
  exists i, (l', es). split; [done|]. apply elem_of_nodes. cbn in Ha. tauto.
Qed.

Lemma header_of_lookup F i l es a : F !! i = Some (l, es) → a = head l ∨ a = tail l → a ∈ headers F.*1.
Proof.
  intros Hi Ha. apply elem_of_headers. exists l. split; [|done].
  apply list_elem_of_fmap. exists (l, es). split; [done|]. by eapply list_elem_of_lookup_2.
Qed.

Lemma lists_insert F i l es es' : F !! i = Some (l, es) → (<[i := (l, es')]> F).*1 = F.*1.
Proof. intros Hi. rewrite list_fmap_insert. cbn. rewrite list_insert_id; [done|]. by rewrite list_lookup_fmap, Hi. Qed.

Lemma freed_lookup (ls : list klist) h a :
  foldr (λ l h, delete (head l) (delete (tail l) h)) h ls !! a =
    if decide (a ∈ headers ls) then None else h !! a.
Proof.
  induction ls as [|l ls IH]; cbn [foldr].
  { rewrite decide_False; [done|]. unfold headers. cbn. apply not_elem_of_nil. }
  change (headers (l :: ls)) with (head l :: tail l :: headers ls).
  destruct (decide (a = head l)) as [->|Hh]; [rewrite lookup_delete_eq, decide_True by set_solver; done|].
  rewrite lookup_delete_ne by done.
  destruct (decide (a = tail l)) as [->|Ht]; [rewrite lookup_delete_eq, decide_True by set_solver; done|].
  rewrite lookup_delete_ne, IH by done. apply decide_ext. set_solver.
Qed.

(** ** The allocator's promises *)

(** [spare s a]: no live object is at [a]. *)
Class MallocLaws (S : Type) `{Malloc S} := {
  spare : S → eptr → Prop;
  malloc_some n s ls s' : malloc n s = (Some ls, s') → (0 ≤ n)%Z →
    Z.of_nat (length ls) = (n / LIST_SIZE)%Z ∧ NoDup (headers ls) ∧
    (∀ a, a ∈ headers ls → spare s a) ∧ (∀ a, spare s' a → spare s a ∧ a ∉ headers ls);
  malloc_none n s s' a : malloc n s = (None, s') → spare s' a → spare s a;
  free_spare ls s a : spare (free ls s) a → spare s a ∨ a ∈ headers ls
}.

Section table_inv.
Context {S X K : Type} `{Countable K} `{MallocLaws S}.
Context (hash : eptr → Z) (key : eptr → K).

Implicit Types (s : hstate S X).

Lemma wp_on_heap {A} t (m : M lheap A) Q s :
  wp t m (λ a h, Q a (HState h (hs_alloc s) (hs_hash s) (hs_client s))) (hs_heap s) →
  wp t (on_heap m) Q s.
Proof. unfold wp, on_heap. destruct (m (hs_heap s)) as [[a h]| |]; done. Qed.

(** The bucket of an element among [n] buckets *)
Definition home (n : nat) (e : eptr) : nat := Z.to_nat (Z.land (hash e) (wrap_u32 (Z.of_nat n - 1))).

Definition power (n : nat) : Prop := ∃ k, (2 ≤ k ≤ 31)%Z ∧ Z.of_nat n = (2 ^ k)%Z.

Lemma home_lt n e : power n → home n e < n.
Proof.
  intros (k & Hk & En). unfold home, wrap_u32.
  assert (2 ^ k < 4294967296)%Z as H32.
  { change 4294967296%Z with (2 ^ 32)%Z. apply Z.pow_lt_mono_r; lia. }
  assert (0 < 2 ^ k)%Z as Hpos by lia. rewrite Z.mod_small by lia.
  rewrite En, Z.sub_1_r, <- Z.ones_equiv, Z.land_ones by lia.
  pose proof (Z.mod_pos_bound (hash e) (2 ^ k)). lia.
Qed.

Definition at_home F : Prop := ∀ i l es e, F !! i = Some (l, es) → e ∈ es → home (length F) e = i.

Record table (pool : gset eptr) s F : Prop := {
  tb_buckets : buckets (hs_hash s) = F.*1;
  tb_bucket_cnt : bucket_cnt (hs_hash s) = Z.of_nat (length F);
  tb_elem_cnt : elem_cnt (hs_hash s) = Z.of_nat (length (elems F));
  tb_power : power (length F);
  tb_fam : fam (hs_heap s) F;
  tb_home : at_home F;
  tb_keys x y : x ∈ elems F → y ∈ elems F → key x = key y → x = y;
  tb_spare a : spare (hs_alloc s) a → hs_heap s !! a = None;
  tb_pool e : e ∈ pool → is_Some (hs_heap s !! e) ∧ e ∉ headers F.*1;
  tb_sub e : e ∈ elems F → e ∈ pool;
  tb_small : (Z.of_nat (size pool) < 2 ^ 29)%Z
}.

Lemma elems_bound pool s F : table pool s F → (Z.of_nat (length (elems F)) < 2 ^ 29)%Z.
Proof.
  intros Ht. pose proof (tb_small _ _ _ Ht).
  assert (length (elems F) ≤ size pool); [|lia].
  rewrite <- (size_list_to_set (C := gset eptr)) by (eapply elems_nodup, tb_fam, Ht).
  apply subseteq_size. intros e He%elem_of_list_to_set. by eapply tb_sub.
Qed.

Lemma bucket_at pool s F e : table pool s F → ∃ l es, F !! home (length F) e = Some (l, es).
Proof.
  intros Ht. pose proof (home_lt _ e (tb_power _ _ _ Ht)) as [[l es] Hl]%lookup_lt_is_Some_2. eauto.
Qed.

Lemma wp_find_bucket t e n ls l Q s :
  bucket_cnt (hs_hash s) = Z.of_nat n → buckets (hs_hash s) = ls → ls !! home n e = Some l →
  Q l s → wp t (find_bucket hash e) Q s.
Proof.
  intros Hn Hb Hl HQ. unfold find_bucket. apply wp_bind, wp_gets. rewrite Hn, Hb.
  by eapply wp_assume_some.
Qed.

Lemma elems_push F i l es e :
  F !! i = Some (l, es) → elems (<[i := (l, e :: es)]> F) ≡ₚ e :: elems F.
Proof.
  intros Hi. apply (Permutation_app_inv_l es). rewrite elems_set by done. cbn.
  by rewrite Permutation_middle.
Qed.

Lemma elems_remove F i l es1 e es2 :
  F !! i = Some (l, es1 ++ e :: es2) → elems F ≡ₚ e :: elems (<[i := (l, es1 ++ es2)]> F).
Proof.
  intros Hi. apply (Permutation_app_inv_l (es1 ++ es2)). rewrite <- (elems_set F i l _ (es1 ++ es2) Hi).
  rewrite <- !app_assoc. cbn. apply Permutation_app_head. by rewrite Permutation_middle.
Qed.

Lemma not_in_family pool s F e :
  table pool s F → e ∈ pool → e ∉ elems F → ∀ j p, F !! j = Some p → e ∉ nodes_of p.
Proof.
  intros Ht Hp He j [l es] Hj [->|[->|Hes]]%elem_of_nodes; cbn in *.
  - destruct (tb_pool _ _ _ Ht _ Hp) as [_ Hh]. apply Hh. eapply header_of_lookup; [done|by left].
  - destruct (tb_pool _ _ _ Ht _ Hp) as [_ Hh]. apply Hh. eapply header_of_lookup; [done|by right].
  - apply He, elem_of_elems. eauto.
Qed.

Lemma at_home_set F i l es es' :
  at_home F → F !! i = Some (l, es) → (∀ e, e ∈ es' → home (length F) e = i) →
  at_home (<[i := (l, es')]> F).
Proof.
  intros Hh Hi He j l' es'' e Hj Hx. rewrite length_insert.
  apply list_lookup_insert_Some in Hj as [(-> & [= <- <-] & _)|(_ & Hj)]; [by apply He|].
  by eapply Hh.
Qed.

(** The links of one bucket and the number of elements change. *)
Lemma table_set pool s F i l es es' h' :
  table pool s F → F !! i = Some (l, es) →
  fam h' (<[i := (l, es')]> F) → dom h' = dom (hs_heap s) →
  (∀ e, e ∈ es' → home (length F) e = i ∧ e ∈ pool) →
  (∀ x y, x ∈ elems (<[i := (l, es')]> F) → y ∈ elems (<[i := (l, es')]> F) → key x = key y → x = y) →
  let F' := <[i := (l, es')]> F in
  table pool (HState h' (hs_alloc s)
    (Hash (Z.of_nat (length (elems F'))) (bucket_cnt (hs_hash s)) (buckets (hs_hash s))) (hs_client s)) F'.
Proof.
  intros Ht Hi Hf Hd He Hk F'. destruct Ht as [Tb Tc Te Tp Tf Th Tk Ts To Tu Tm].
  assert (F'.*1 = F.*1) as E1 by (by eapply lists_insert).
  assert (∀ a, hs_heap s !! a = None ↔ h' !! a = None) as Hnone
    by (intros a; by rewrite <- !not_elem_of_dom, Hd).
  split; cbn; rewrite ?E1; [done|by subst F'; rewrite length_insert|done|by subst F'; rewrite length_insert|done| |done| | | |done].
  - eapply at_home_set; [done|done|]. intros e Hx. by apply He.
  - intros a Ha. by apply Hnone, Ts.
  - intros e Hx. destruct (To e Hx) as [Hs Hh]. split; [|done].
    apply elem_of_dom. rewrite Hd. by apply elem_of_dom.
  - intros e (j & l' & es'' & Hj & Hx)%elem_of_elems.
    apply list_lookup_insert_Some in Hj as [(-> & [= <- <-] & _)|(_ & Hj)]; [by apply He|].
    apply Tu, elem_of_elems. eauto.
Qed.

Lemma wrap_count z : (0 ≤ z < 2 ^ 32)%Z → wrap_u32 z = z.
Proof. apply Z.mod_small. Qed.

(** [es'] is what the bucket holds then; the client's data stay. *)
Lemma wp_insert_elem t pool F l es e Q s :
  table pool s F → F !! home (length F) e = Some (l, es) → e ∈ pool →
  (∀ x, x ∈ elems F → key x ≠ key e) →
  (∀ s' F', table pool s' F' → elems F' ≡ₚ e :: elems F → hs_client s' = hs_client s → Q tt s') →
  wp t (insert_elem l e) Q s.
Proof.
  intros Ht Hi Hp Hn HQ. unfold insert_elem, set_elem_cnt, put_hash.
  apply wp_bind, wp_gets. apply wp_bind. apply wp_bind, wp_gets. apply wp_modify, wp_on_heap. cbn [hs_heap].
  assert (e ∉ elems F) as He by (intros He; by apply (Hn e He)).
  eapply (fam_push _ F); [apply Ht|done|by apply Ht|by eapply not_in_family|].
  intros h' Hf Hd. cbn [hs_alloc hs_hash hs_client elem_cnt bucket_cnt buckets].
  pose proof (elems_push F _ l es e Hi) as Hperm.
  replace (wrap_u32 (elem_cnt (hs_hash s) + 1)) with (Z.of_nat (length (elems (<[home (length F) e := (l, e :: es)]> F)))).
  - eapply HQ; [|exact Hperm|done]. eapply table_set; [done|done|done|done| |].
    + intros x [->|Hx]%elem_of_cons; [done|]. split; [by eapply (tb_home _ _ _ Ht)|].
      eapply (tb_sub _ _ _ Ht), elem_of_elems. eauto.
    + intros x y. rewrite !Hperm, !elem_of_cons. intros [->|Hx] [->|Hy] E; [done| | |].
      * by destruct (Hn y Hy).
      * by destruct (Hn x Hx).
      * by eapply (tb_keys _ _ _ Ht).
  - rewrite Hperm, (tb_elem_cnt _ _ _ Ht). cbn [length]. pose proof (elems_bound _ _ _ Ht).
    rewrite wrap_count; lia.
Qed.

Lemma wp_remove_elem t pool F i l es e Q s :
  table pool s F → F !! i = Some (l, es) → e ∈ es →
  (∀ s' F' es', table pool s' F' → length F' = length F → F' !! i = Some (l, es') →
     elems F ≡ₚ e :: elems F' → hs_client s' = hs_client s → Q tt s') →
  wp t (remove_elem e) Q s.
Proof.
  intros Ht Hi He HQ. unfold remove_elem, set_elem_cnt, put_hash.
  apply wp_bind, wp_gets. apply wp_bind. apply wp_bind, wp_gets. apply wp_modify, wp_bind, wp_on_heap. cbn [hs_heap].
  apply list_elem_of_split in He as (es1 & es2 & ->).
  eapply (fam_remove _ F); [apply Ht|done|]. intros h' Hf Hd. apply wp_ret.
  cbn [hs_alloc hs_hash hs_client elem_cnt bucket_cnt buckets].
  pose proof (elems_remove F i l es1 e es2 Hi) as Hperm.
  set (F' := <[i := (l, es1 ++ es2)]> F) in *.
  replace (wrap_u32 (elem_cnt (hs_hash s) - 1)) with (Z.of_nat (length (elems F'))).
  - eapply (HQ _ F' (es1 ++ es2)); [|by subst F'; rewrite length_insert| |exact Hperm|done].
    + eapply table_set; [done|done|done|done| |].
      * intros x Hx. assert (x ∈ es1 ++ e :: es2) as Hx' by set_solver.
        split; [by eapply (tb_home _ _ _ Ht)|]. eapply (tb_sub _ _ _ Ht), elem_of_elems. eauto.
      * intros x y Hx Hy. apply (tb_keys _ _ _ Ht); rewrite Hperm; by right.
    + subst F'. apply list_lookup_insert_eq. by eapply lookup_lt_Some.
  - rewrite (tb_elem_cnt _ _ _ Ht), Hperm. cbn [length]. pose proof (elems_bound _ _ _ Ht) as Hb.
    rewrite Hperm in Hb. cbn [length] in Hb. rewrite wrap_count; lia.
Qed.

(** ** Rehashing *)

Definition with_heap s h : hstate S X := HState h (hs_alloc s) (hs_hash s) (hs_client s).

Definition empties (ls : list klist) : family := (λ l, (l, [])) <$> ls.

Lemma empties_elems ls : elems (empties ls) = [].
Proof. induction ls as [|l ls IH]; [done|]. unfold elems, empties in *. by rewrite fmap_cons, bind_cons, IH. Qed.

Lemma empties_lists ls : (empties ls).*1 = ls.
Proof. unfold empties. rewrite <- list_fmap_compose. apply list_fmap_id. Qed.

Lemma empties_home ls : at_home (empties ls).
Proof.
  intros i l es e Hi. unfold empties in Hi. rewrite list_lookup_fmap in Hi.
  destruct (ls !! i); [|done]. injection Hi as <- <-. intros []%elem_of_nil.
Qed.

(** The headers of new lists: distinct, and in no list of the family. *)
Lemma wp_init_lists t G (ls : list klist) Q s :
  NoDup (headers ls) → fam (hs_heap s) G → (∀ a, a ∈ headers ls → hs_heap s !! a = None) →
  (∀ h', fam h' (G ++ empties ls) → same_but (headers ls) (hs_heap s) h' →
     (∀ a, a ∈ headers ls → is_Some (h' !! a)) → Q tt (with_heap s h')) →
  wp t (init_lists ls 0 (length ls)) Q s.
Proof.
  intros Hnd Hf Hfree HQ.
  assert (∀ ls2 ls1 s1, ls = ls1 ++ ls2 → s1 = with_heap s (hs_heap s1) →
    fam (hs_heap s1) (G ++ empties ls1) → same_but (headers ls1) (hs_heap s) (hs_heap s1) →
    (∀ a, a ∈ headers ls1 → is_Some (hs_heap s1 !! a)) →
    wp t (init_lists ls (length ls1) (length ls2)) Q s1) as Hgo.
  { induction ls2 as [|l ls2 IH]; intros ls1 s1 Els Es1 Hf1 Hs1 Hd1; cbn [length init_lists].
    { apply wp_ret. rewrite Es1. rewrite app_nil_r in Els. subst ls1. by apply HQ. }
    assert (ls !! length ls1 = Some l) as Hl by (rewrite Els; by apply list_lookup_middle).
    apply wp_bind. eapply wp_assume_some; [done|]. apply wp_bind, wp_on_heap.
    unfold list_init. apply wp_bind, wp_modify, wp_modify.
    replace (Datatypes.S (length ls1)) with (length (ls1 ++ [l])) by (rewrite length_app; cbn; lia).
    assert (headers ls = headers ls1 ++ [head l; tail l] ++ headers ls2) as Eh.
    { rewrite Els. unfold headers. by rewrite bind_app, bind_cons. }
    assert (head l ∉ headers ls1 ∧ tail l ∉ headers ls1 ∧ head l ≠ tail l) as (Hh1 & Ht1 & Hht).
    { rewrite Eh in Hnd. apply NoDup_app in Hnd as (_ & Hx & Hy). cbn in Hy.
      apply NoDup_cons in Hy as [Hy _]. split_and!.
      - intros Ha. apply (Hx _ Ha). cbn. by left.
      - intros Ha. apply (Hx _ Ha). cbn. right. by left.
      - intros E. apply Hy. rewrite E. by left. }
    assert (headers (ls1 ++ [l]) = headers ls1 ++ [head l; tail l]) as Eh1.
    { unfold headers. by rewrite bind_app. }
    apply IH; cbn [hs_heap].
    - by rewrite <- app_assoc.
    - unfold with_heap. rewrite Es1. done.
    - unfold empties. rewrite fmap_app, app_assoc. apply fam_init; [done|done|].
      assert (∀ a, a ∈ headers ls → a ∉ headers ls1 → ∀ j p, (G ++ empties ls1) !! j = Some p → a ∉ nodes_of p) as Hout.
      { intros a Ha Ha1 j p Hj Hx. destruct (fam_in_dom _ _ _ _ _ Hf1 Hj Hx) as [x Ex].
        rewrite (Hs1 a Ha1) in Ex. by rewrite (Hfree a Ha) in Ex. }
      intros j p Hj. split; (eapply Hout; [rewrite Eh|done|done]); set_solver.
    - rewrite Eh1. intros a Ha. rewrite !lookup_insert_ne by set_solver. apply Hs1. set_solver.
    - rewrite Eh1. intros a Ha. destruct (decide (a = tail l)) as [->|Hat]; [by rewrite lookup_insert_eq|].
      rewrite lookup_insert_ne by done. destruct (decide (a = head l)) as [->|Hah]; [by rewrite lookup_insert_eq|].
      rewrite lookup_insert_ne by done. apply Hd1. set_solver. }
  apply (Hgo ls [] s); [done|by destruct s|by rewrite app_nil_r|done|]. intros a []%elem_of_nil.
Qed.

(** A move: from the old family [O], [N] to [O'], [N'] *)
Definition moved (O N O' N' : family) : Prop :=
  O'.*1 = O.*1 ∧ N'.*1 = N.*1 ∧ elems O' ++ elems N' ≡ₚ elems O ++ elems N ∧ at_home N'.

Lemma moved_length O N O' N' : moved O N O' N' → length O' = length O ∧ length N' = length N.
Proof.
  intros (E1 & E2 & _). apply (f_equal length) in E1, E2. by rewrite !length_fmap in E1, E2.
Qed.

Lemma moved_trans O1 N1 O2 N2 O3 N3 : moved O1 N1 O2 N2 → moved O2 N2 O3 N3 → moved O1 N1 O3 N3.
Proof.
  intros (A1 & A2 & A3 & A4) (B1 & B2 & B3 & B4). split_and!; [congruence|congruence| |done].
  by rewrite B3.
Qed.

(** What stays the same while elements move *)
Definition carried s s' : Prop :=
  s' = with_heap s (hs_heap s') ∧ dom (hs_heap s') = dom (hs_heap s).

Lemma carried_refl s : carried s s.
Proof. by destruct s. Qed.

Lemma carried_trans s1 s2 s3 : carried s1 s2 → carried s2 s3 → carried s1 s3.
Proof. intros [-> E1] [-> E2]. split; [done|]. cbn in *. congruence. Qed.

(** One element moves to its new bucket. *)
Lemma wp_move_elem t O N j l e es2 (Q : eptr + unit → hstate S X → Prop) s :
  fam (hs_heap s) (O ++ N) → O !! j = Some (l, e :: es2) → at_home N → power (length N) →
  bucket_cnt (hs_hash s) = Z.of_nat (length N) → buckets (hs_hash s) = N.*1 →
  (∀ s' N', carried s s' → moved O N (<[j := (l, es2)]> O) N' →
     fam (hs_heap s') (<[j := (l, es2)]> O ++ N') → Q (inl (cur l es2)) s') →
  wp t (new_bucket ← find_bucket hash e;
        nxt ← on_heap (list_next e);
        on_heap (list_remove e);;
        on_heap (list_push_front new_bucket e);; mret (inl nxt)) Q s.
Proof.
  intros Hf Hj Hh Hp Hc Hb HQ. set (i := home (length N) e).
  assert (i < length N) as Hi by (by apply home_lt).
  apply lookup_lt_is_Some_2 in Hi as [[l' es'] Hi].
  apply wp_bind. eapply wp_find_bucket; [done|done|by rewrite list_lookup_fmap; fold i; rewrite Hi|].
  assert ((O ++ N) !! j = Some (l, [] ++ e :: es2)) as Hj' by (apply lookup_app_l_Some; exact Hj).
  assert (j < length O) as Hjl by (by eapply lookup_lt_Some).
  pose proof (fam_dlist _ _ Hf _ _ _ Hj') as Hd.
  apply wp_bind, wp_on_heap. eapply (wp_next_dlist _ l [] e es2); [exact Hd|].
  apply wp_bind, wp_on_heap. eapply (fam_remove _ (O ++ N)); [exact Hf|exact Hj'|].
  intros h1 Hf1 Hd1. cbn [app] in Hf1. rewrite insert_app_l in Hf1 by done.
  assert ((<[j := (l, es2)]> O ++ N) !! (length O + i) = Some (l', es')) as Hi'.
  { rewrite lookup_app_r, length_insert by (rewrite length_insert; lia). rewrite <- Hi. f_equal. lia. }
  apply wp_bind, wp_on_heap. cbn [hs_heap].
  assert (is_Some (hs_heap s !! e)) as He.
  { eapply (fam_in_dom _ _ _ _ e Hf Hj'). apply elem_of_nodes. cbn. set_solver. }
  eapply (fam_push _ (<[j := (l, es2)]> O ++ N) (length O + i) l' es' e); [exact Hf1|exact Hi'| | |].
  - apply elem_of_dom. rewrite Hd1. by apply elem_of_dom.
  - intros k p Hk Ha. destruct Hd as [_ Hnd].
    assert (e ∉ nodes l es2) as He2.
    { unfold nodes in *. cbn in Hnd. apply NoDup_cons in Hnd as [Hx [Hy _]%NoDup_cons]. set_solver. }
    destruct (decide (k = j)) as [->|Hkj].
    + rewrite lookup_app_l, list_lookup_insert_eq in Hk by (rewrite ?length_insert; done).
      by injection Hk as <-.
    + apply Hkj. eapply (fam_disjoint _ _ Hf k j p (l, [] ++ e :: es2) e); [|done|done|].
      * rewrite <- Hk, <- insert_app_l by done. by rewrite list_lookup_insert_ne by done.
      * apply elem_of_nodes. cbn. set_solver.
  - intros h2 Hf2 Hd2. apply wp_ret.
    rewrite insert_app_r_alt in Hf2 by (rewrite length_insert; lia).
    rewrite length_insert in Hf2. replace (length O + i - length O) with i in Hf2 by lia.
    eapply (HQ _ (<[i := (l', e :: es')]> N)); [split; [done|cbn; by rewrite Hd2]| |exact Hf2].
    split_and!; [by eapply lists_insert|by eapply lists_insert| |].
    + rewrite (elems_push N i l' es' e Hi). rewrite (elems_remove O j l [] e es2 Hj). cbn.
      by rewrite Permutation_middle.
    + eapply at_home_set; [done|done|]. intros x [->|Hx]%elem_of_cons; [done|]. by eapply Hh.
Qed.

(** The state of a table whose elements are moving from [O] to [N] *)
Record moving s (O N : family) : Prop := {
  mv_fam : fam (hs_heap s) (O ++ N);
  mv_home : at_home N;
  mv_power : power (length N);
  mv_cnt : bucket_cnt (hs_hash s) = Z.of_nat (length N);
  mv_buckets : buckets (hs_hash s) = N.*1
}.

Lemma moving_after s s' O N O' N' :
  moving s O N → carried s s' → moved O N O' N' → fam (hs_heap s') (O' ++ N') → moving s' O' N'.
Proof.
  intros [A1 A2 A3 A4 A5] [-> _] Hm Hf. destruct (moved_length _ _ _ _ Hm) as [_ E].
  destruct Hm as (_ & E2 & _ & Hh). split; cbn [with_heap hs_hash hs_heap] in *; rewrite ?E, ?E2; done.
Qed.

Lemma wp_move_bucket t O N j l es Q s :
  moving s O N → O !! j = Some (l, es) →
  (∀ s' N', carried s s' → moved O N (<[j := (l, [])]> O) N' →
     moving s' (<[j := (l, [])]> O) N' → Q tt s') →
  wp t (move_bucket hash l) Q s.
Proof.
  intros Hm Hj HQ. apply wp_full. unfold move_bucket. apply wp_bind, wp_on_heap, wp_heap_fuel.
  assert ((O ++ N) !! j = Some (l, es)) as Hj' by (by apply lookup_app_l_Some).
  pose proof (fam_dlist _ _ (mv_fam _ _ _ Hm) _ _ _ Hj') as Hd.
  apply wp_bind, wp_on_heap. eapply wp_list_begin; [exact Hd|].
  pose proof (dlist_length _ _ _ Hd) as Hlen.
  assert (∀ fuel es2 s1 N1, length es2 < fuel → carried s s1 → moved O N (<[j := (l, es2)]> O) N1 →
    moving s1 (<[j := (l, es2)]> O) N1 →
    wp Full (loop fuel (λ elem,
       if bool_decide (elem = list_end l) then mret (inr tt)
       else
         new_bucket ← find_bucket hash elem;
         nxt ← on_heap (list_next elem);
         on_heap (list_remove elem);;
         on_heap (list_push_front new_bucket elem);;
         mret (inl nxt)) (cur l es2)) Q s1) as Hgo.
  { induction fuel as [|fuel IH]; intros es2 s1 N1 Hf Hc Hmv Hm1; [lia|].
    set (O1 := <[j := (l, es2)]> O) in *.
    assert (O1 !! j = Some (l, es2)) as Hj1.
    { apply list_lookup_insert_eq. by eapply lookup_lt_Some. }
    assert (dlist (hs_heap s1) l ([] ++ es2)) as Hd1.
    { eapply (fam_dlist _ _ (mv_fam _ _ _ Hm1)). by apply lookup_app_l_Some. }
    rewrite loop_S. apply wp_bind. unfold list_end. rewrite (end_decide _ _ _ _ Hd1).
    destruct es2 as [|e es2]; [rewrite bool_decide_true by done|rewrite bool_decide_false by done].
    - apply wp_ret, wp_ret. by eapply HQ.
    - destruct Hm1 as [A1 A2 A3 A4 A5]. cbn [cur].
      apply (wp_move_elem _ O1 N1 j l e es2); [done|done|done|done|done|done|].
      intros s2 N2 Hc2 Hmv2 Hf2. assert (<[j := (l, es2)]> O1 = <[j := (l, es2)]> O) as E
        by (subst O1; apply list_insert_insert_eq).
      rewrite E in Hmv2, Hf2. apply (IH _ _ N2); [cbn in Hf; lia|by eapply carried_trans|by eapply moved_trans|].
      eapply moving_after; [|exact Hc2|exact Hmv2|done]. by split. }
  assert (<[j := (l, es)]> O = O) as E by (by apply list_insert_id).
  apply (Hgo _ es _ N); [lia|by destruct s|rewrite E|rewrite E; by destruct s].
  split_and!; [done..|apply Hm].
Qed.

Lemma wp_move_buckets t O N Q s :
  moving s O N →
  (∀ s' N', carried s s' → moved O N (empties O.*1) N' → moving s' (empties O.*1) N' → Q tt s') →
  wp t (move_buckets hash O.*1 0 (length O)) Q s.
Proof.
  intros Hm HQ.
  assert (∀ n i s1 O1 N1, i + n = length O → carried s s1 → moved O N O1 N1 → moving s1 O1 N1 →
    (∀ k, k < i → O1 !! k = empties O.*1 !! k) →
    wp t (move_buckets hash O.*1 i n) Q s1) as Hgo.
  { induction n as [|n IH]; intros i s1 O1 N1 Hi Hc Hmv Hm1 He; cbn [move_buckets].
    - apply wp_ret. assert (O1 = empties O.*1) as ->; [|by eapply HQ].
      destruct (moved_length _ _ _ _ Hmv) as [EO _]. apply list_eq. intros k.
      destruct (decide (k < i)) as [Hk|Hk]; [by apply He|].
      rewrite !lookup_ge_None_2; [done|..]; unfold empties; rewrite ?length_fmap; lia.
    - destruct (moved_length _ _ _ _ Hmv) as [EO _]. pose proof Hmv as (E1 & _).
      destruct (lookup_lt_is_Some_2 O1 i) as [[l es] Hl]; [lia|].
      assert (O.*1 !! i = Some l) as HlO by (by rewrite <- E1, list_lookup_fmap, Hl).
      apply wp_bind. eapply wp_assume_some; [exact HlO|]. apply wp_bind.
      apply (wp_move_bucket _ O1 N1 i l es); [done|done|]. intros s2 N2 Hc2 Hmv2 Hm2.
      apply (IH _ _ (<[i := (l, [])]> O1) N2); [lia|by eapply carried_trans|by eapply moved_trans|done|].
      intros k Hk. destruct (decide (k = i)) as [->|Hki].
      + rewrite list_lookup_insert_eq by (by eapply lookup_lt_Some). unfold empties.
        by rewrite list_lookup_fmap, HlO.
      + rewrite list_lookup_insert_ne by done. apply He. lia. }
  apply (Hgo _ 0 _ O N); [done|apply carried_refl| |done|intros; lia].
  split_and!; [done..|apply Hm].
Qed.

(** The number of buckets that [rehash] chooses *)
Lemma wp_new_bucket_cnt t (cnt : Z) Q s :
  (0 ≤ cnt < 2 ^ 29)%Z → (∀ k, (2 ≤ k ≤ 27)%Z → Q (2 ^ k)%Z s) →
  wp t (round_to_power_of_2 (if bool_decide (cnt / 2 < 4)%Z then 4%Z else (cnt / 2)%Z)) Q s.
Proof.
  intros Hc HQ. set (n := if bool_decide _ then _ else _).
  assert (4 ≤ n < 2 ^ 28)%Z as Hn.
  { subst n. assert (cnt / 2 < 2 ^ 28)%Z by (apply Z.div_lt_upper_bound; lia). case_bool_decide; lia. }
  apply (wp_round _ n 2); [lia|lia|lia|]. intros a Ha Han. apply HQ. split; [done|].
  assert (2 ^ a < 2 ^ 28)%Z as Hlt by lia. apply Z.pow_lt_mono_r_iff in Hlt; lia.
Qed.

(** The table may give up memory and get none. *)
Lemma table_alloc pool s F a :
  table pool s F → (∀ x, spare a x → spare (hs_alloc s) x) →
  table pool (HState (hs_heap s) a (hs_hash s) (hs_client s)) F.
Proof. intros [] Hsp. split; cbn; auto. Qed.

(** The old buckets, emptied, are freed. *)
Lemma table_moved pool s F N s1 s2 a1 :
  table pool s F → power (length N) → (∀ e, e ∈ pool → e ∉ headers N.*1) →
  (∀ e, e ∈ pool → is_Some (hs_heap s1 !! e)) →
  (∀ x, spare a1 x → hs_heap s1 !! x = None) → carried s1 s2 →
  s1 = HState (hs_heap s1) a1 (Hash (elem_cnt (hs_hash s)) (Z.of_nat (length N)) N.*1) (hs_client s) →
  fam (hs_heap s2) (empties F.*1 ++ N) → at_home N → elems N ≡ₚ elems F →
  table pool (HState (foldr (λ l h, delete (head l) (delete (tail l) h)) (hs_heap s2) F.*1)
                (free F.*1 a1) (hs_hash s1) (hs_client s)) N.
Proof.
  intros Ht Hpw HpN Hpool Hspare [Es2 Hdom] Es1 Hf Hh Hperm.
  destruct Ht as [Tb Tc Te Tp Tf Th Tk Ts To Tu Tm].
  assert (∀ a, hs_heap s1 !! a = None ↔ hs_heap s2 !! a = None) as Hnone
    by (intros a; by rewrite <- !not_elem_of_dom, Hdom).
  rewrite Es1. split; cbn; [done|done|by rewrite Hperm, Te|done| |done| | | | |done].
  - eapply fam_frame; [by eapply fam_app_r|]. intros i p a Hi Ha. rewrite freed_lookup, decide_False; [done|].
    rewrite <- (empties_lists F.*1). intros (j & q & Hj & Hq)%header_in_nodes.
    assert (j = length (empties F.*1) + i) as ->.
    { eapply (fam_disjoint _ _ Hf j _ q p a); [by apply lookup_app_l_Some| |done|done].
      rewrite lookup_app_r by lia. rewrite <- Hi. f_equal. lia. }
    apply lookup_lt_Some in Hj. lia.
  - intros x y. rewrite !Hperm. apply Tk.
  - intros a Ha. rewrite freed_lookup. case_decide as Hx; [done|].
    apply Hnone, Hspare. by destruct (free_spare _ _ _ Ha).
  - intros e He. split; [|by apply HpN]. rewrite freed_lookup, decide_False by (by apply To).
    apply elem_of_dom. rewrite Hdom. apply elem_of_dom. by apply Hpool.
  - intros e. rewrite Hperm. apply Tu.
Qed.

Lemma wp_rehash t pool F Q s :
  table pool s F →
  (∀ s' F', table pool s' F' → elems F' ≡ₚ elems F → hs_client s' = hs_client s → Q tt s') →
  wp t (rehash hash) Q s.
Proof.
  intros Ht HQ. unfold rehash. apply wp_bind, wp_gets. apply wp_bind.
  pose proof (elems_bound _ _ _ Ht) as Hb. rewrite <- (tb_elem_cnt _ _ _ Ht) in Hb.
  apply wp_new_bucket_cnt; [rewrite (tb_elem_cnt _ _ _ Ht) in *; lia|]. intros k Hk.
  case_bool_decide as Hsame; [apply wp_ret; by eapply HQ|].
  assert (0 < 2 ^ k ≤ 2 ^ 27)%Z as H2k by (split; [lia|apply Z.pow_le_mono_r; lia]).
  rewrite wrap_count by (unfold LIST_SIZE; lia).
  apply wp_bind. unfold do_malloc, wp at 1.
  destruct (malloc (LIST_SIZE * 2 ^ k) (hs_alloc s)) as [[ls|] a] eqn:Em.
  2:{ apply wp_ret. eapply HQ; [|done|done]. eapply table_alloc; [done|]. intros x. by eapply malloc_none. }
  destruct (malloc_some _ _ _ _ Em) as (Hlen & Hnd & Hfresh & Hsp); [unfold LIST_SIZE; lia|].
  rewrite Z.mul_comm, Z.div_mul in Hlen by done.
  assert (∀ x, x ∈ headers ls → hs_heap s !! x = None) as Hnone by (intros x Hx; by apply Ht, Hfresh).
  replace (Z.to_nat (2 ^ k)) with (length ls) by lia. apply wp_bind.
  eapply wp_init_lists; [done|apply Ht|done|]. cbn [hs_heap]. intros h1 Hf1 Hs1 Hd1.
  apply wp_bind, wp_modify. cbn [hs_heap hs_alloc hs_hash hs_client with_heap]. apply wp_bind.
  rewrite (tb_buckets _ _ _ Ht), (tb_bucket_cnt _ _ _ Ht), Nat2Z.id.
  set (s1 := HState h1 a _ _).
  apply (wp_move_buckets _ F (empties ls)).
  { split; cbn; unfold empties; rewrite ?length_fmap; [done|apply empties_home|by exists k; split; [lia|done]|done|].
    symmetry. apply empties_lists. }
  intros s2 N Hc (E1 & E2 & E3 & E4) [Hf2 _ _ _ _]. apply wp_modify.
  rewrite empties_lists in E2. rewrite !empties_elems, app_nil_r in E3. cbn in E3.
  assert (length N = length ls) as EN by (apply (f_equal length) in E2; by rewrite length_fmap in E2).
  assert (∀ e, e ∈ pool → e ∉ headers ls) as Hpl.
  { intros e [[x Hx] _]%(tb_pool _ _ _ Ht) He%Hnone. by rewrite Hx in He. }
  destruct Hc as [Es2 Hdom]. rewrite Es2. cbn [with_heap hs_heap hs_alloc hs_hash hs_client].
  eapply HQ; [|exact E3|done].
  apply (table_moved pool s F N s1 s2 a); [done| | | | | | |done|done|done].
  - exists k. split; [lia|]. by rewrite EN.
  - intros e He. rewrite E2. by apply Hpl.
  - intros e He. subst s1. cbn. rewrite Hs1 by (by apply Hpl). by apply Ht.
  - intros x Hx. destruct (Hsp x Hx) as [Hx1 Hx2]. subst s1. cbn. rewrite Hs1 by done. by apply Ht.
  - by split.
  - subst s1. cbn. by rewrite E2, EN, Hlen.
Qed.

(** ** What the keys are needed for *)

(** Elements that [less] does not order are those with equal keys, and have the
    same hash value. *)
Class Keyed (less : eptr → eptr → bool) : Prop := {
  key_eq x y : negb (less x y) && negb (less y x) = bool_decide (key x = key y);
  key_hash x y : key x = key y → hash x = hash y
}.

Context (less : eptr → eptr → bool) `{Hkey : !Keyed less}.

Lemma home_key n x y : key x = key y → home n x = home n y.
Proof. intros E%key_hash. unfold home. by rewrite E. Qed.

Lemma wp_find_elem t l es e Q s :
  dlist (hs_heap s) l es →
  (∀ r, match r with Some x => x ∈ es ∧ key x = key e | None => ∀ x, x ∈ es → key x ≠ key e end → Q r s) →
  wp t (find_elem less l e) Q s.
Proof.
  intros Hd HQ. unfold find_elem. apply wp_on_heap. apply wp_bind, wp_heap_fuel.
  apply wp_bind. eapply wp_list_begin; [done|].
  apply (wp_list_walk _ l es (λ es1 es2 i h', h' = hs_heap s ∧ i = cur l es2 ∧ ∀ x, x ∈ es1 → key x ≠ key e));
    [done|split; [done|split; [done|intros ? []%elem_of_nil]]|].
  intros es1 es2 i h' -> (-> & -> & Hn). unfold list_end. rewrite (end_decide _ _ _ _ Hd).
  destruct s as [hp al ht cl]. cbn [hs_heap hs_alloc hs_hash hs_client] in *.
  destruct es2 as [|x es2]; [rewrite bool_decide_true by done|rewrite bool_decide_false by done].
  - apply wp_ret, HQ. intros x. rewrite app_nil_r. apply Hn.
  - cbn [cur]. rewrite key_eq. case_bool_decide as Hx.
    + apply wp_ret, HQ. split; [apply elem_of_middle|done].
    + apply wp_bind. eapply wp_next_dlist; [done|]. apply wp_ret.
      exists (es1 ++ [x]), es2. split_and!; [by rewrite <- app_assoc|done|done| |cbn; lia].
      intros y [Hy|Hy]%elem_of_app; [auto|]. apply list_elem_of_singleton in Hy as ->. done.
Qed.

End table_inv.
