(* ===== verification/KHashMain.v ===== *)
(** * Pintos: the correctness theorems of hash tables

    A finite map from keys to elements is the specification of the table; iteration,
    [hash_apply] and [hash_clear] visit every element exactly once; the hash
    functions agree with one function on sequences of bytes. *)

From stdpp Require Import base tactics list gmap sorting fin_maps.
From Stdlib Require Import ZArith Lia.
From S2P Require Import Prelude KString KStringProps KList KListProps KListSort KListMain KHash KHashProps.

Implicit Types (h : lheap) (l : klist) (es : list eptr) (F : family).

(** ** The specification: a map *)

Inductive hop :=
  | HInsert (e : eptr)
  | HReplace (e : eptr)
  | HFind (e : eptr)
  | HDelete (e : eptr)
  | HSize.

Inductive hout := Found (r : option eptr) | Num (n : Z).

Section spec.
Context {K : Type} `{Countable K} (key : eptr → K).
Implicit Types (T : gmap K eptr).

(** [None] is a misuse: the element to insert is no storage of the client. *)
Definition hspec (pool : gset eptr) (o : hop) T : option (hout * gmap K eptr) :=
  match o with
  | HInsert e =>
      if decide (e ∈ pool) then
        Some (Found (T !! key e), match T !! key e with Some _ => T | None => <[key e := e]> T end)
      else None
  | HReplace e => if decide (e ∈ pool) then Some (Found (T !! key e), <[key e := e]> T) else None
  | HFind e => Some (Found (T !! key e), T)
  | HDelete e => Some (Found (T !! key e), delete (key e) T)
  | HSize => Some (Num (Z.of_nat (size T)), T)
  end.

Fixpoint hspecs (pool : gset eptr) (os : list hop) T : option (list hout * gmap K eptr) :=
  match os with
  | [] => Some ([], T)
  | o :: os' => '(x, T1) ← hspec pool o T; '(xs, T2) ← hspecs pool os' T1; Some (x :: xs, T2)
  end.

(** The family holds the elements of the map. *)
Definition holds T F : Prop := ∀ k e, T !! k = Some e ↔ e ∈ elems F ∧ key e = k.

Lemma holds_perm T F F' : elems F' ≡ₚ elems F → holds T F → holds T F'.
Proof. intros Hp Hh k e. by rewrite Hp. Qed.

Lemma holds_insert T F F' e :
  holds T F → elems F' ≡ₚ e :: elems F → T !! key e = None → holds (<[key e := e]> T) F'.
Proof.
  intros Hh Hp He k x. rewrite Hp, elem_of_cons. destruct (decide (k = key e)) as [->|Hk].
  - rewrite lookup_insert_eq. split; [intros [= ->]; auto|]. intros [[->|Hx] Ek]; [done|].
    assert (T !! key e = Some x) as Hx' by (by apply Hh). congruence.
  - rewrite lookup_insert_ne by done. rewrite (Hh k x). split; [tauto|]. intros [[->|?] ?]; [done|tauto].
Qed.

Lemma holds_delete T F F' e :
  holds T F → elems F ≡ₚ e :: elems F' → NoDup (elems F) → holds (delete (key e) T) F'.
Proof.
  intros Hh Hp Hnd k x. rewrite Hp in Hnd. apply NoDup_cons in Hnd as [He _].
  destruct (decide (k = key e)) as [->|Hk].
  - rewrite lookup_delete_eq. split; [done|]. intros [Hx Ek].
    assert (T !! key e = Some x) as Hx1 by (apply Hh; rewrite Hp; set_solver).
    assert (T !! key e = Some e) as Hx2 by (apply Hh; rewrite Hp; set_solver). congruence.
  - rewrite lookup_delete_ne by done. rewrite (Hh k x), Hp, elem_of_cons. split; [|tauto].
    intros [[->|?] ?]; [done|tauto].
Qed.

Lemma holds_size T F : holds T F → NoDup (elems F) → size T = length (elems F).
Proof.
  intros Hh Hnd. rewrite <- length_map_to_list.
  assert (map_to_list T ≡ₚ (λ e, (key e, e)) <$> elems F) as ->; [|by rewrite length_fmap].
  apply NoDup_Permutation; [apply NoDup_map_to_list| |].
  - apply NoDup_fmap_2; [|done]. by intros x y [= _ ->].
  - intros [k e]. rewrite elem_of_map_to_list, (Hh k e), list_elem_of_fmap. naive_solver.
Qed.
End spec.

Section walk.
Context {S X K : Type} `{Countable K} `{MallocLaws S}.
Context (hash : eptr → Z) (key : eptr → K).
Implicit Types (s : hstate S X) (T : gmap K eptr).

Local Abbreviation table := (table hash key).

(** ** Iteration *)

(** The client's loop [hash_first(&i, h); while (hash_next(&i)) ... hash_cur(&i) ...];
    the elements it sees. *)
Definition hash_visit (fuel : nat) : M (hstate S X) (list eptr) :=
  it ← hash_first;
  loop fuel
    (λ '(it, seen),
       it ← hash_next it;
       mret (match hash_cur it with
             | Some e => inl (it, seen ++ [e])
             | None => inr seen
             end)) (it, []).

Lemma drop_elems F i l es : F !! i = Some (l, es) → elems (drop i F) = es ++ elems (drop (Datatypes.S i) F).
Proof. intros Hi. rewrite (drop_S _ _ _ Hi). done. Qed.

(** The iterator is at an element, or at the head of a bucket, and [rest] is to come. *)
Definition cursor F (it : hash_iterator) (rest : list eptr) : Prop :=
  ∃ l es1 es2 e, F !! it_bucket it = Some (l, es1 ++ es2) ∧ it_elem it = Some e ∧
    last (head l :: es1) = Some e ∧ rest = es2 ++ elems (drop (Datatypes.S (it_bucket it)) F).

Lemma wp_list_next_at t l es1 es2 e Q h :
  dlist h l (es1 ++ es2) → last (head l :: es1) = Some e → Q (cur l es2) h → wp t (list_next e) Q h.
Proof.
  intros Hd Hl HQ. destruct es1 as [|x es1 _] using rev_ind.
  - injection Hl as <-. pose proof (dlist_head _ _ _ Hd) as Hh. cbn [app] in Hh.
    by eapply wp_list_next.
  - rewrite app_comm_cons, last_snoc in Hl. injection Hl as ->.
    rewrite <- app_assoc in Hd. by eapply wp_next_dlist.
Qed.

Lemma wp_hash_next t pool F it rest Q s :
  table pool s F → cursor F it rest →
  (∀ it', match rest with
          | [] => hash_cur it' = None
          | e :: rest' => hash_cur it' = Some e ∧ cursor F it' rest'
          end → Q it' s) →
  wp t (hash_next it) Q s.
Proof.
  intros Ht (l & es1 & es2 & e & Hl & He & Hlast & ->) HQ. apply wp_full. unfold hash_next.
  apply wp_bind, wp_gets. apply wp_bind. eapply wp_assume_some; [exact He|].
  pose proof (tb_fam _ _ _ _ _ Ht) as Hf. apply wp_bind, wp_on_heap.
  eapply wp_list_next_at; [by eapply fam_dlist|done|].
  replace (HState _ _ _ _) with s by (by destruct s).
  rewrite (tb_buckets _ _ _ _ _ Ht), (tb_bucket_cnt _ _ _ _ _ Ht), length_fmap.
  eapply (wp_loop_total (λ '(b, x) s', s' = s ∧ ∃ l es1 es2', F !! b = Some (l, es1 ++ es2') ∧ x = cur l es2' ∧
     es2' ++ elems (drop (Datatypes.S b) F) = es2 ++ elems (drop (Datatypes.S (it_bucket it)) F))
     _ (λ '(b, _) _, length F - b)).
  2:{ split; [done|]. by exists l, es1, es2. }
  2: lia.
  clear dependent l es1 e. intros [b x] s' (-> & l & es1 & es2' & Hl & -> & Hr).
  apply wp_bind. eapply wp_assume_some; [by rewrite list_lookup_fmap, Hl|]. cbn [fst].
  pose proof (fam_dlist _ _ Hf _ _ _ Hl) as Hd. unfold list_end. rewrite (end_decide _ _ _ _ Hd).
  rewrite <- Hr in HQ. pose proof (lookup_lt_Some _ _ _ Hl) as Hlt.
  destruct es2' as [|x es2']; [rewrite bool_decide_true by done|rewrite bool_decide_false by done].
  - case_bool_decide as Hb.
    + apply wp_ret, HQ. rewrite drop_ge by lia. done.
    + destruct (lookup_lt_is_Some_2 F (Datatypes.S b)) as [[l2 es3] Hl2]; [lia|].
      apply wp_bind. eapply wp_assume_some; [by rewrite list_lookup_fmap, Hl2|]. cbn [fst].
      apply wp_bind, wp_on_heap. eapply wp_list_begin; [by eapply fam_dlist|]. apply wp_ret.
      split; [|lia]. split; [by destruct s|]. exists l2, [], es3. split_and!; [done|done|].
      rewrite <- Hr. by rewrite (drop_elems F (Datatypes.S b) l2 es3).
  - apply wp_ret, HQ. split; [done|]. exists l, (es1 ++ [x]), es2', x. cbn.
    split_and!; [by rewrite <- app_assoc|done|by rewrite app_comm_cons, last_snoc|done].
Qed.

Lemma wp_hash_visit t pool F fuel Q s :
  table pool s F → length (elems F) < fuel → Q (elems F) s → wp t (hash_visit fuel) Q s.
Proof.
  intros Ht Hfuel HQ. apply wp_full. unfold hash_visit.
  destruct (lookup_lt_is_Some_2 F 0) as [[l es] Hl].
  { destruct (tb_power _ _ _ _ _ Ht) as (k & Hk & E). assert (0 < 2 ^ k)%Z by lia. lia. }
  apply wp_bind. unfold hash_first. apply wp_bind, wp_gets. apply wp_bind.
  eapply wp_assume_some; [by rewrite (tb_buckets _ _ _ _ _ Ht), list_lookup_fmap, Hl|]. apply wp_ret.
  eapply (wp_loop_total (λ '(it, seen) s', s' = s ∧ ∃ rest, cursor F it rest ∧ elems F = seen ++ rest)
    _ (λ '(it, seen) _, length (elems F) - length seen)).
  2:{ split; [done|]. exists (elems F). split; [|done]. exists l, [], es, (head l). cbn.
      split_and!; [done|done|done|]. by rewrite <- (drop_elems F 0 l es). }
  2: cbn; lia.
  intros [it seen] s' (-> & rest & Hc & Hr). apply wp_bind. eapply wp_hash_next; [done|done|].
  intros it' Hit. apply wp_ret. destruct rest as [|e rest].
  - rewrite Hit. rewrite app_nil_r in Hr. by rewrite <- Hr.
  - destruct Hit as [-> Hc']. rewrite Hr, !length_app. cbn [length]. split; [|lia]. split; [done|].
    exists rest. by rewrite <- app_assoc.
Qed.

(** ** [hash_apply] *)

(** The action changes the client's data only, by [f]. *)
Definition performs (action : eptr → M (hstate S X) unit) (f : eptr → X → X) : Prop :=
  ∀ e s, action e s = Done (tt, HState (hs_heap s) (hs_alloc s) (hs_hash s) (f e (hs_client s))).

(** The client's data after an action on each of [es] *)
Definition over (f : eptr → X → X) es (c : X) : X := foldl (λ c e, f e c) c es.

Lemma over_app f es1 es2 c : over f (es1 ++ es2) c = over f es2 (over f es1 c).
Proof. apply foldl_app. Qed.

Definition with_client s (c : X) : hstate S X := HState (hs_heap s) (hs_alloc s) (hs_hash s) c.

Lemma wp_apply_bucket t action f l es Q s :
  performs action f → dlist (hs_heap s) l es → Q tt (with_client s (over f es (hs_client s))) →
  wp t (apply_bucket action l) Q s.
Proof.
  intros Hact Hd HQ. apply wp_full. unfold apply_bucket. apply wp_bind, wp_on_heap, wp_heap_fuel.
  apply wp_bind, wp_on_heap. eapply wp_list_begin; [exact Hd|]. cbn [hs_heap hs_alloc hs_hash hs_client].
  pose proof (dlist_length _ _ _ Hd) as Hlen.
  assert (∀ es2 es1 fuel, es = es1 ++ es2 → length es2 < fuel →
    wp Full (loop fuel (λ elem,
       if bool_decide (elem = list_end l) then mret (inr tt)
       else nxt ← on_heap (list_next elem); action elem;; mret (inl nxt)) (cur l es2)) Q
      (with_client s (over f es1 (hs_client s)))) as Hgo.
  { induction es2 as [|e es2 IH]; intros es1 fuel Hes Hf; (destruct fuel as [|fuel]; [cbn in Hf; lia|]);
      rewrite loop_S; apply wp_bind; pose proof Hd as Hd'; rewrite Hes in Hd'; unfold list_end;
      rewrite (end_decide _ _ _ _ Hd').
    - rewrite bool_decide_true by done. apply wp_ret, wp_ret. rewrite app_nil_r in Hes. by subst es1.
    - rewrite bool_decide_false by done. apply wp_bind, wp_on_heap. eapply wp_next_dlist; [exact Hd'|].
      apply wp_bind. unfold wp at 1. rewrite Hact. apply wp_ret. cbn [hs_heap hs_alloc hs_hash hs_client with_client].
      specialize (IH (es1 ++ [e]) fuel). rewrite over_app in IH. apply IH; [by rewrite <- app_assoc|cbn in Hf; lia]. }
  assert (wp Full (loop (Datatypes.S (size (hs_heap s))) _ (cur l es)) Q (with_client s (over f [] (hs_client s)))) as Hw
    by (apply (Hgo es []); [done|lia]).
  by destruct s.
Qed.

Lemma wp_hash_apply t action f pool F Q s :
  performs action f → table pool s F →
  Q tt (with_client s (over f (elems F) (hs_client s))) →
  wp t (hash_apply action) Q s.
Proof.
  intros Hact Ht HQ. unfold hash_apply. apply wp_bind, wp_gets. rewrite (tb_bucket_cnt _ _ _ _ _ Ht), Nat2Z.id.
  assert (∀ n i c, i + n = length F → (over f (elems (drop i F)) c = over f (elems F) (hs_client s)) →
    wp t (apply_buckets action i n) Q (with_client s c)) as Hgo.
  { induction n as [|n IH]; intros i c Hi Hc; cbn [apply_buckets].
    - apply wp_ret. rewrite drop_ge in Hc by lia. cbn in Hc. by rewrite Hc.
    - destruct (lookup_lt_is_Some_2 F i) as [[l es] Hl]; [lia|].
      apply wp_bind, wp_gets. apply wp_bind.
      eapply wp_assume_some; [cbn; by rewrite (tb_buckets _ _ _ _ _ Ht), list_lookup_fmap, Hl|].
      apply wp_bind. eapply wp_apply_bucket; [done|eapply fam_dlist; [apply Ht|exact Hl]|].
      apply (IH (Datatypes.S i) (over f es c)); [lia|]. by rewrite <- Hc, (drop_elems F i l es Hl), over_app. }
  specialize (Hgo (length F) 0 (hs_client s)). replace (with_client s (hs_client s)) with s in Hgo by (by destruct s).
  by apply Hgo.
Qed.

(** ** [hash_clear] *)

(** The destructor changes the client's data by [f] and may give up the storage of
    its element. *)
Definition destroys (d : eptr → M (hstate S X) unit) (f : eptr → X → X) : Prop :=
  ∀ e s, ∃ h' a', d e s = Done (tt, HState h' a' (hs_hash s) (f e (hs_client s))) ∧
    (∀ x, x ≠ e → h' !! x = hs_heap s !! x) ∧
    (∀ x, spare a' x → spare (hs_alloc s) x ∨ x = e ∧ h' !! e = None).

Definition spare_free s : Prop := ∀ x, spare (hs_alloc s) x → hs_heap s !! x = None.

(** From [s] to [s'] the storage of at most [es] is given up. *)
Definition gave_up es s s' : Prop :=
  hs_hash s' = hs_hash s ∧ spare_free s' ∧
  ∀ x, x ∉ es → is_Some (hs_heap s !! x) → is_Some (hs_heap s' !! x).

Lemma gave_up_app es1 es2 s1 s2 s3 : gave_up es1 s1 s2 → gave_up es2 s2 s3 → gave_up (es1 ++ es2) s1 s3.
Proof.
  intros (A1 & A2 & A3) (B1 & B2 & B3). split_and!; [congruence|done|].
  intros x [Hx1 Hx2]%not_elem_of_app Hs. auto.
Qed.

(** One turn of the destruction of a bucket *)
Lemma wp_destroy_one d f F i l e es (Q : unit + unit → hstate S X → Prop) s :
  destroys d f → fam (hs_heap s) F → F !! i = Some (l, e :: es) → spare_free s →
  (∀ s', fam (hs_heap s') (<[i := (l, es)]> F) → gave_up [e] s s' →
     hs_client s' = f e (hs_client s) → Q (inl tt) s') →
  wp Full (e ← on_heap (list_pop_front l); d e;; mret (inl tt)) Q s.
Proof.
  intros Hdes Hf Hi Hsp HQ. pose proof (fam_dlist _ _ Hf _ _ _ Hi) as Hd.
  assert (e ∈ nodes_of (l, e :: es)) as Hin by (apply elem_of_nodes; cbn; set_solver).
  apply wp_bind, wp_on_heap. unfold list_pop_front. apply wp_bind.
  eapply wp_list_front; [exact Hd|]. apply wp_bind.
  eapply (fam_remove _ _ i l [] e es); [exact Hf|exact Hi|]. intros h2 Hf2 Hdom2. apply wp_ret.
  cbn [app] in Hf2. apply wp_bind. unfold wp at 1.
  destruct (Hdes e (HState h2 (hs_alloc s) (hs_hash s) (hs_client s))) as (h3 & a3 & -> & Hx3 & Hs3).
  cbn [hs_heap hs_alloc hs_hash hs_client] in *. apply wp_ret.
  assert (∀ x, is_Some (h2 !! x) ↔ is_Some (hs_heap s !! x)) as Hd2
    by (intros x; by rewrite <- !elem_of_dom, Hdom2).
  apply HQ; [|split_and!; [done| |]|done]; cbn.
  - eapply fam_frame; [exact Hf2|]. intros j p a Hj Ha. apply Hx3. intros ->.
    apply list_lookup_insert_Some in Hj as [(-> & <- & _)|(Hji & Hj)].
    + destruct Hd as [_ Hnd]. unfold nodes_of, nodes in *. cbn in Hnd, Ha.
      apply NoDup_cons in Hnd as [Hn1 [Hn2 _]%NoDup_cons]. set_solver.
    + apply Hji. symmetry. by eapply (fam_disjoint _ _ Hf j i p _ e).
  - intros x Hx. cbn in *. destruct (Hs3 x Hx) as [Hx'|[-> ?]]; [|done].
    pose proof (Hsp x Hx') as Hnone. destruct (decide (x = e)) as [->|Hxe].
    + exfalso. destruct (fam_in_dom _ _ _ _ e Hf Hi Hin) as [y Hy]. congruence.
    + rewrite Hx3 by done. apply eq_None_not_Some. rewrite Hd2, Hnone. apply is_Some_None.
  - intros x Hx Hs. rewrite Hx3 by set_solver. by apply Hd2.
Qed.

Lemma wp_destroy_elems t d f F i l es Q s :
  destroys d f → fam (hs_heap s) F → F !! i = Some (l, es) → spare_free s →
  (∀ s', fam (hs_heap s') (<[i := (l, [])]> F) → gave_up es s s' →
     hs_client s' = over f es (hs_client s) → Q tt s') →
  wp t (destroy_elems d l) Q s.
Proof.
  intros Hdes Hf Hi Hsp HQ. apply wp_full. unfold destroy_elems. apply wp_bind, wp_on_heap, wp_heap_fuel.
  pose proof (dlist_length _ _ _ (fam_dlist _ _ Hf _ _ _ Hi)) as Hlen.
  assert (∀ es', <[i := (l, es')]> F !! i = Some (l, es')) as Hat
    by (intros; apply list_lookup_insert_eq; by eapply lookup_lt_Some).
  assert (∀ es2 es1 fuel s1, es = es1 ++ es2 → length es2 < fuel → fam (hs_heap s1) (<[i := (l, es2)]> F) →
    gave_up es1 s s1 → hs_client s1 = over f es1 (hs_client s) →
    wp Full (loop fuel (λ _ : unit,
       empty ← on_heap (list_empty l);
       if (empty : bool) then mret (inr tt)
       else e ← on_heap (list_pop_front l); d e;; mret (inl tt)) tt) Q s1) as Hgo.
  { induction es2 as [|e es2 IH]; intros es1 fuel s1 Hes Hfu Hf1 Hg Hc;
      (destruct fuel as [|fuel]; [cbn in Hfu; lia|]); rewrite loop_S; apply wp_bind;
      pose proof (fam_dlist _ _ Hf1 _ _ _ (Hat _)) as Hd1;
      apply wp_bind, wp_on_heap; (eapply wp_list_empty; [exact Hd1|]);
      replace (HState _ _ _ _) with s1 by (by destruct s1).
    - apply wp_ret, wp_ret. rewrite app_nil_r in Hes. subst es1. by apply HQ.
    - rewrite bool_decide_false by done. eapply wp_destroy_one; [done|exact Hf1|apply Hat|apply Hg|].
      intros s2 Hf2 Hg2 Hc2. rewrite list_insert_insert_eq in Hf2.
      apply (IH (es1 ++ [e])); [by rewrite <- app_assoc|cbn in Hfu; lia|done|by eapply gave_up_app|].
      by rewrite over_app, <- Hc. }
  apply (Hgo es [] (Datatypes.S (size (hs_heap s)))); [done|lia|cbn; by rewrite list_insert_id| |done].
  split_and!; [done|done|by intros].
Qed.

(** [list_init] on a bucket forgets its elements. *)
Lemma wp_reinit t F i l es Q h :
  fam h F → F !! i = Some (l, es) →
  (∀ h', fam h' (<[i := (l, [])]> F) → dom h' = dom h → Q tt h') → wp t (list_init l) Q h.
Proof.
  intros Hf Hi HQ. unfold list_init. apply wp_bind, wp_modify, wp_modify.
  pose proof (fam_dlist _ _ Hf _ _ _ Hi) as Hd.
  assert (head l ≠ tail l) as Hht.
  { destruct Hd as [_ [Hn _]%NoDup_cons]. intros E. apply Hn. rewrite E. set_solver. }
  assert (is_Some (h !! head l) ∧ is_Some (h !! tail l)) as [[x Hx] [y Hy]].
  { split; (eapply nodes_dom; [exact Hd|]); apply elem_of_nodes; tauto. }
  apply HQ.
  - apply (fam_set h _ F i l es [] [head l; tail l]); [done|done| | |].
    + split.
      * unfold nodes. cbn. rewrite lookup_insert_eq, lookup_insert_ne, lookup_insert_eq by done. done.
      * unfold nodes. cbn. apply NoDup_cons. split; [set_solver|]. apply NoDup_singleton.
    + intros a Ha. rewrite !lookup_insert_ne; [done|set_solver..].
    + intros a j p [Ha|Ha] Hj Hp; [|by apply elem_of_nil in Ha].
      eapply (fam_disjoint _ _ Hf j i p (l, es) a); [done|done|done|]. apply elem_of_nodes. cbn. set_solver.
  - apply set_eq. intros a. rewrite !dom_insert, !elem_of_union, !elem_of_singleton.
    split; [intros [->|[->|?]]; [by apply elem_of_dom|by apply elem_of_dom|done]|tauto].
Qed.

(** With a destructor every element is destroyed; without one, none. *)
Definition visited (d : option (eptr → M (hstate S X) unit)) es : list eptr :=
  match d with Some _ => es | None => [] end.
Definition destroys_opt (d : option (eptr → M (hstate S X) unit)) (f : eptr → X → X) : Prop :=
  match d with Some d => destroys d f | None => True end.

Lemma visited_app d es1 es2 : visited d (es1 ++ es2) = visited d es1 ++ visited d es2.
Proof. by destruct d. Qed.

Lemma gave_up_dom es s s' h : gave_up es s s' → dom h = dom (hs_heap s') →
  gave_up es s (HState h (hs_alloc s') (hs_hash s') (hs_client s')).
Proof.
  intros (A & B & C) Hd. split_and!; [done| |].
  - intros x Hx%B. cbn. apply not_elem_of_dom. rewrite Hd. by apply not_elem_of_dom.
  - intros x Hx Hs. cbn. apply elem_of_dom. rewrite Hd. apply elem_of_dom. by apply C.
Qed.

Lemma wp_clear_buckets t d f F Q s :
  destroys_opt d f → fam (hs_heap s) F → buckets (hs_hash s) = F.*1 → spare_free s →
  (∀ s', fam (hs_heap s') (empties F.*1) → gave_up (visited d (elems F)) s s' →
     hs_client s' = over f (visited d (elems F)) (hs_client s) → Q tt s') →
  wp t (clear_buckets d 0 (length F)) Q s.
Proof.
  intros Hdes Hf Hb Hsp HQ.
  assert (∀ n i F1 s1, i + n = length F → fam (hs_heap s1) F1 →
    (∀ k, F1 !! k = if decide (k < i) then empties F.*1 !! k else F !! k) →
    gave_up (visited d (elems (take i F))) s s1 → hs_client s1 = over f (visited d (elems (take i F))) (hs_client s) →
    wp t (clear_buckets d i n) Q s1) as Hgo.
  { induction n as [|n IH]; intros i F1 s1 Hi Hf1 HF1 Hg Hc; cbn [clear_buckets].
    - apply wp_ret. rewrite take_ge in Hg, Hc by lia. apply HQ; [|done|done].
      replace (empties F.*1) with F1; [done|]. apply list_eq. intros k. rewrite HF1. case_decide as Hk; [done|].
      rewrite !lookup_ge_None_2; [done|..]; unfold empties; rewrite ?length_fmap; lia.
    - destruct (lookup_lt_is_Some_2 F i) as [[l es] Hl]; [lia|].
      assert (F1 !! i = Some (l, es)) as Hl1 by (rewrite HF1, decide_False by lia; done).
      apply wp_bind, wp_gets. apply wp_bind. destruct Hg as (G1 & G2 & G3).
      eapply wp_assume_some; [by rewrite G1, Hb, list_lookup_fmap, Hl|]. cbn [fst].
      assert (∀ s2 es2, fam (hs_heap s2) (<[i := (l, es2)]> F1) → gave_up (visited d es) s1 s2 →
        hs_client s2 = over f (visited d es) (hs_client s1) →
        wp t (on_heap (list_init l);; clear_buckets d (Datatypes.S i) n) Q s2) as Hrest.
      { intros s2 es2 Hf2 Hg2 Hc2. apply wp_bind, wp_on_heap.
        eapply (wp_reinit _ _ i l es2); [exact Hf2|apply list_lookup_insert_eq; by eapply lookup_lt_Some|].
        intros h3 Hf3 Hd3. rewrite list_insert_insert_eq in Hf3.
        assert (elems (take (Datatypes.S i) F) = elems (take i F) ++ es) as Et.
        { rewrite (take_S_r _ _ _ Hl), elems_app. unfold elems at 2. cbn. by rewrite app_nil_r. }
        apply (IH _ (<[i := (l, [])]> F1)); [lia|exact Hf3| | |by rewrite Et, visited_app, over_app, <- Hc].
        - intros k. destruct (decide (k = i)) as [->|Hk].
          + rewrite list_lookup_insert_eq, decide_True by (done || lia || by eapply lookup_lt_Some).
            unfold empties. by rewrite !list_lookup_fmap, Hl.
          + rewrite list_lookup_insert_ne, HF1 by done. repeat case_decide; (lia || done).
        - rewrite Et, visited_app. eapply gave_up_app; [by split_and!|]. by apply gave_up_dom. }
      apply wp_bind. destruct d as [d|]; cbn [visited destroys_opt] in *.
      + eapply wp_destroy_elems; [exact Hdes|exact Hf1|exact Hl1|done|]. intros s2 Hf2 Hg2 Hc2.
        by eapply (Hrest s2 []).
      + apply wp_ret. eapply (Hrest s1 es); [by rewrite list_insert_id| |done]. by split_and!. }
  eapply (Hgo (length F) 0 F s); [done|done|done| |by destruct d].
  destruct d; split_and!; (done || by intros).
Qed.

Lemma wp_hash_clear t d f pool F Q s :
  destroys_opt d f → table pool s F →
  (∀ s', table (pool ∖ list_to_set (visited d (elems F))) s' (empties F.*1) →
     hs_client s' = over f (visited d (elems F)) (hs_client s) → Q tt s') →
  wp t (hash_clear d) Q s.
Proof.
  intros Hdes Ht HQ. unfold hash_clear. apply wp_bind, wp_gets. rewrite (tb_bucket_cnt _ _ _ _ _ Ht), Nat2Z.id.
  destruct Ht as [Tb Tc Te Tp Tf Th Tk Ts To Tu Tm].
  apply wp_bind. eapply (wp_clear_buckets _ d f); [done|done|done|done|]. intros s1 Hf1 (Hh1 & Hs1 & Hp1) Hc1.
  apply wp_bind, wp_gets. apply wp_modify. apply HQ; [|done]. cbn.
  assert (length (empties F.*1) = length F) as El by (unfold empties; by rewrite !length_fmap).
  split; cbn; rewrite ?El, ?Hh1, ?empties_lists, ?empties_elems; try done.
  - apply empties_home.
  - intros x y []%elem_of_nil.
  - intros e [He Hv]%elem_of_difference. destruct (To e He) as [Hs Hn]. split; [|done].
    apply Hp1; [|done]. intros Hx. apply Hv. by apply elem_of_list_to_set.
  - intros e []%elem_of_nil.
  - assert (size (pool ∖ list_to_set (visited d (elems F)) : gset eptr) ≤ size pool); [|lia].
    apply subseteq_size. set_solver.
Qed.

(** ** [hash_init] *)

Lemma clear_none i n s :
  clear_buckets None i n s = init_lists (buckets (hs_hash s)) i n s.
Proof.
  revert i s. induction n as [|n IH]; intros i s; [done|]. cbn [clear_buckets init_lists].
  unfold mbind, M_bind, gets. destruct (buckets (hs_hash s) !! i) as [l|]; [|done].
  cbn -[clear_buckets init_lists]. change (on_heap (list_init l) s) with (Done (tt, with_heap s (<[tail l := ListElem (Some (head l)) None]>
    (<[head l := ListElem None (Some (tail l))]> (hs_heap s))))).
  cbn -[clear_buckets init_lists]. by rewrite IH.
Qed.

(** The memory before there is a table: [pool] is the client's elements. *)
Definition ready (pool : gset eptr) s : Prop :=
  spare_free s ∧ (∀ e, e ∈ pool → is_Some (hs_heap s !! e)) ∧ (Z.of_nat (size pool) < 2 ^ 29)%Z.

Lemma wp_hash_init t pool Q s :
  ready pool s →
  (∀ s' F, (malloc (LIST_SIZE * 4) (hs_alloc s)).1 ≠ None →
     table pool s' F → elems F = [] → hs_client s' = hs_client s → Q true s') →
  (∀ s', (malloc (LIST_SIZE * 4) (hs_alloc s)).1 = None →
     ready pool s' → hs_client s' = hs_client s → Q false s') →
  wp t hash_init Q s.
Proof.
  intros (Hsp & Hpool & Hsm) HQt HQf. unfold hash_init. apply wp_bind. unfold do_malloc, wp at 1.
  change (wrap_u32 (LIST_SIZE * 4)) with (LIST_SIZE * 4)%Z.
  destruct (malloc _ _) as [[ls|] a] eqn:Em; cbn [default].
  2:{ apply wp_bind, wp_modify, wp_ret, HQf; [done| |done]. split_and!; [|done|done].
      intros x Hx. cbn in *. apply Hsp. by eapply malloc_none. }
  destruct (malloc_some _ _ _ _ Em) as (Hlen & Hnd & Hfresh & Hsp'); [done|].
  change (LIST_SIZE * 4 / LIST_SIZE)%Z with 4%Z in Hlen.
  apply wp_bind, wp_modify, wp_bind. unfold hash_clear. apply wp_bind, wp_gets. apply wp_bind.
  cbn [hs_hash bucket_cnt]. replace (Z.to_nat 4) with (length ls) by lia.
  unfold wp at 1. rewrite clear_none. apply (wp_init_lists hash key t []); [done|by split|by intros; apply Hsp, Hfresh|].
  cbn [hs_heap app]. intros h1 Hf1 Hs1 Hd1. apply wp_bind, wp_gets, wp_modify, wp_ret. cbn.
  assert (length (empties ls) = length ls) as El by (unfold empties; by rewrite length_fmap).
  assert (∀ e, e ∈ pool → e ∉ headers ls) as Hpl.
  { intros e [x Hx]%Hpool He%Hfresh%Hsp. congruence. }
  eapply (HQt _ (empties ls)); [done| |apply empties_elems|done].
  split; cbn; rewrite ?El, ?empties_lists, ?empties_elems; try done.
  - exists 2%Z. split; [lia|]. by rewrite Hlen.
  - apply empties_home.
  - intros x y []%elem_of_nil.
  - intros x Hx. destruct (Hsp' x Hx) as [Hx1 Hx2]. rewrite Hs1 by done. by apply Hsp.
  - intros e He. split; [|by apply Hpl]. rewrite Hs1 by (by apply Hpl). by apply Hpool.
  - intros e []%elem_of_nil.
Qed.

(** The three ways through a table agree and are exhaustive.  The client's loop over
    an iterator sees some order of all the map's elements, each once; [hash_apply]
    acts on them in that order and changes nothing else; [hash_clear] destroys them
    in that order and leaves an empty, well-formed table. *)
Theorem hash_iteration_exhaustive pool T F fuel action d f s :
  table pool s F → holds key T F → size T < fuel → performs action f → destroys d f →
  ∃ es, map_to_list T ≡ₚ (λ e, (key e, e)) <$> es ∧
    hash_visit fuel s = Done (es, s) ∧
    hash_apply action s = Done (tt, with_client s (over f es (hs_client s))) ∧
    ∃ s' F', hash_clear (Some d) s = Done (tt, s') ∧
      hs_client s' = over f es (hs_client s) ∧
      table (pool ∖ list_to_set es) s' F' ∧ holds key ∅ F'.
Proof.
  intros Ht Hh Hfu Hact Hdes. exists (elems F).
  assert (NoDup (elems F)) as Hnd by (eapply elems_nodup, Ht). split_and!.
  - apply NoDup_Permutation; [apply NoDup_map_to_list| |].
    + apply NoDup_fmap_2; [|done]. by intros x y [= _ ->].
    + intros [k e]. rewrite elem_of_map_to_list, (Hh k e), list_elem_of_fmap. naive_solver.
  - rewrite (holds_size _ _ _ Hh Hnd) in Hfu.
    destruct (wp_total_run (hash_visit fuel) (λ es s', es = elems F ∧ s' = s) s) as (? & ? & E & -> & ->); [|done].
    by eapply wp_hash_visit.
  - destruct (wp_total_run (hash_apply action) (λ _ s', s' = with_client s (over f (elems F) (hs_client s))) s)
      as ([] & ? & E & ->); [|done]. by eapply wp_hash_apply.
  - destruct (wp_total_run (hash_clear (Some d)) (λ _ s',
      table (pool ∖ list_to_set (elems F)) s' (empties F.*1) ∧ hs_client s' = over f (elems F) (hs_client s)) s)
      as ([] & s' & E & Ht' & Hc').
    { eapply (wp_hash_clear _ (Some d) f); [exact Hdes|exact Ht|]. by intros. }
    exists s', (empties F.*1). split_and!; [done|done|done|]. intros k e.
    rewrite empties_elems, lookup_empty. split; [done|]. by intros [[]%elem_of_nil _].
Qed.

End walk.

Section refine.
Context {S X K : Type} `{Countable K} `{MallocLaws S}.
Context (hash : eptr → Z) (less : eptr → eptr → bool) (key : eptr → K).
Context `{Hkey : !Keyed hash key less}.
Implicit Types (s : hstate S X) (T : gmap K eptr).

Local Abbreviation table := (table hash key).

Definition hcall (o : hop) : M (hstate S X) hout :=
  match o with
  | HInsert e => r ← hash_insert hash less e; mret (Found r)
  | HReplace e => r ← hash_replace hash less e; mret (Found r)
  | HFind e => r ← hash_find hash less e; mret (Found r)
  | HDelete e => r ← hash_delete hash less e; mret (Found r)
  | HSize => n ← hash_size; mret (Num n)
  end.

Fixpoint hcalls (os : list hop) : M (hstate S X) (list hout) :=
  match os with
  | [] => mret []
  | o :: os' => x ← hcall o; xs ← hcalls os'; mret (x :: xs)
  end.

(** The search of the operations finds what the map has. *)
Lemma wp_key_lookup {A} t pool T F e (k : klist → option eptr → M (hstate S X) A) Q s :
  table pool s F → holds key T F →
  (∀ l es, F !! home hash (length F) e = Some (l, es) →
     (∀ x, T !! key e = Some x → x ∈ es) → wp t (k l (T !! key e)) Q s) →
  wp t (bucket ← find_bucket hash e; r ← find_elem less bucket e; k bucket r) Q s.
Proof.
  intros Ht Hh Hk. destruct (bucket_at _ _ _ _ _ e Ht) as (l & es & Hl).
  apply wp_bind. eapply (wp_find_bucket _ _ _ _ F.*1);
    [apply Ht|apply Ht|by rewrite list_lookup_fmap, Hl|].
  apply wp_bind. eapply (wp_find_elem hash key less); [eapply fam_dlist; [apply Ht|exact Hl]|].
  assert (∀ x, T !! key e = Some x → x ∈ es) as Hin.
  { intros x [Hx Ex]%Hh. apply elem_of_elems in Hx as (i & l' & es' & Hi & Hx).
    pose proof (tb_home _ _ _ _ _ Ht _ _ _ _ Hi Hx) as Hhome.
    rewrite (home_key hash key less _ x e Ex), <- Hhome in *. rewrite Hl in Hi. by injection Hi as <- <-. }
  intros [x|] Hr; (replace _ with (T !! key e); [by eapply Hk|]).
  - destruct Hr as [Hx <-]. apply Hh. split; [|done]. apply elem_of_elems. eauto.
  - destruct (T !! key e) as [x|] eqn:Ex; [|done]. destruct (Hr x); [by apply Hin|].
    by apply Hh in Ex as [_ ?].
Qed.

Lemma wp_find t pool T F e Q s :
  table pool s F → holds key T F → Q (T !! key e) s → wp t (hash_find hash less e) Q s.
Proof.
  intros Ht Hh HQ. unfold hash_find.
  pose proof (wp_key_lookup t pool T F e (λ _ r, mret r) Q s Ht Hh) as Hw.
  eapply wp_mono; [|by intros a s' Ha; exact Ha].
  assert (wp t (bucket ← find_bucket hash e; r ← find_elem less bucket e; mret r) Q s) as Hx
    by (apply Hw; intros; by apply wp_ret).
  revert Hx. unfold wp, mbind, M_bind, mret, M_ret.
  destruct (find_bucket hash e s) as [[l s1]| |]; [|done|done].
  by destruct (find_elem less l e s1) as [[r s2]| |].
Qed.

(** What one operation leaves *)
Definition leaves pool T (c : X) s : Prop := ∃ F, table pool s F ∧ holds key T F ∧ hs_client s = c.

Lemma wp_rehash_leaves t pool T F Q s :
  table pool s F → holds key T F → (∀ s', leaves pool T (hs_client s) s' → Q tt s') →
  wp t (rehash hash) Q s.
Proof.
  intros Ht Hh HQ. eapply (wp_rehash hash key); [exact Ht|]. intros s' F' Ht' Hp Hc. apply HQ.
  exists F'. split_and!; [done|by eapply holds_perm|done].
Qed.

Lemma wp_insert_rehash {A} t pool T F l es e Q s (r : A) :
  table pool s F → holds key T F → F !! home hash (length F) e = Some (l, es) → e ∈ pool →
  T !! key e = None → (∀ s', leaves pool (<[key e := e]> T) (hs_client s) s' → Q r s') →
  wp t (insert_elem l e;; rehash hash;; mret r) Q s.
Proof.
  intros Ht Hh Hl Hp He HQ. apply wp_bind. eapply (wp_insert_elem hash key); [exact Ht|exact Hl|done| |].
  - intros x Hx E. assert (T !! key e = Some x) as Hs by (by apply Hh). congruence.
  - intros s1 F1 Ht1 Hp1 Hc1. apply wp_bind. eapply wp_rehash_leaves; [exact Ht1|by eapply holds_insert|].
    intros s2 Hl2. apply wp_ret, HQ. by rewrite Hc1 in Hl2.
Qed.

(** Removing what the map has under a key *)
Lemma wp_remove_found t pool T F l es e o Q s :
  table pool s F → holds key T F → F !! home hash (length F) e = Some (l, es) → o ∈ es →
  T !! key e = Some o →
  (∀ s' F' es', table pool s' F' → holds key (delete (key e) T) F' → length F' = length F →
     F' !! home hash (length F) e = Some (l, es') → hs_client s' = hs_client s → Q tt s') →
  wp t (remove_elem o) Q s.
Proof.
  intros Ht Hh Hl Ho He HQ. eapply (wp_remove_elem hash key); [exact Ht|exact Hl|done|].
  intros s1 F1 es1 Ht1 Hlen Hl1 Hp Hc. eapply HQ; [done| |done|done|done].
  apply Hh in He as [_ <-]. eapply holds_delete; [done|done|]. eapply elems_nodup, Ht.
Qed.

Lemma wp_hcall t pool o T x T' s :
  leaves pool T (hs_client s) s → hspec key pool o T = Some (x, T') →
  wp t (hcall o) (λ y s', y = x ∧ leaves pool T' (hs_client s) s') s.
Proof.
  intros (F & Ht & Hh & _) Ho. destruct o as [e|e|e|e|]; cbn [hspec hcall] in *.
  - case_decide as Hp; [|done]. injection Ho as <- <-. apply wp_bind. unfold hash_insert.
    eapply (wp_key_lookup t pool T F e); [exact Ht|exact Hh|]. intros l es Hl Hin.
    destruct (T !! key e) as [o|] eqn:He.
    + apply wp_bind, wp_ret. apply wp_bind. eapply wp_rehash_leaves; [done|done|].
      intros s' Hs'. by apply wp_ret, wp_ret.
    + eapply wp_insert_rehash; [done|done|done|done|done|]. intros s' Hs'. by apply wp_ret.
  - case_decide as Hp; [|done]. injection Ho as <- <-. apply wp_bind. unfold hash_replace.
    eapply (wp_key_lookup t pool T F e); [exact Ht|exact Hh|]. intros l es Hl Hin.
    destruct (T !! key e) as [o|] eqn:He.
    + apply wp_bind. eapply wp_remove_found; [done|done|done|by apply Hin|done|].
      intros s1 F1 es1 Ht1 Hh1 Hlen Hl1 Hc1. rewrite <- Hlen in Hl1.
      eapply wp_insert_rehash; [done|done|exact Hl1|done|apply lookup_delete_eq|].
      intros s2 Hs2. apply wp_ret. split; [done|]. by rewrite insert_delete_eq, Hc1 in Hs2.
    + apply wp_bind, wp_ret. eapply wp_insert_rehash; [done|done|done|done|done|].
      intros s' Hs'. by apply wp_ret.
  - injection Ho as <- <-. apply wp_bind. eapply wp_find; [done|done|]. apply wp_ret.
    split; [done|]. by exists F.
  - injection Ho as <- <-. apply wp_bind. unfold hash_delete.
    eapply (wp_key_lookup t pool T F e); [exact Ht|exact Hh|]. intros l es Hl Hin.
    destruct (T !! key e) as [o|] eqn:He.
    + apply wp_bind, wp_bind. eapply wp_remove_found; [done|done|done|by apply Hin|done|].
      intros s1 F1 es1 Ht1 Hh1 Hlen Hl1 Hc1. eapply wp_rehash_leaves; [done|done|].
      intros s2 Hs2. apply wp_ret, wp_ret. by rewrite Hc1 in Hs2.
    + apply wp_bind, wp_ret, wp_ret, wp_ret. split; [done|].
      exists F. split_and!; [done| |done]. by rewrite delete_id.
  - injection Ho as <- <-. apply wp_bind, wp_gets, wp_ret. split; [|by exists F].
    rewrite (tb_elem_cnt _ _ _ _ _ Ht). do 2 f_equal. symmetry. eapply holds_size; [done|]. eapply elems_nodup, Ht.
Qed.

Lemma wp_hcalls t pool os T xs T' s :
  leaves pool T (hs_client s) s → hspecs key pool os T = Some (xs, T') →
  wp t (hcalls os) (λ ys s', ys = xs ∧ leaves pool T' (hs_client s) s') s.
Proof.
  revert T xs s. induction os as [|o os IH]; intros T xs s Hl Hs; cbn [hspecs hcalls] in *.
  { injection Hs as <- <-. by apply wp_ret. }
  destruct (hspec key pool o T) as [[x T1]|] eqn:Ho; [|done]. cbn in Hs.
  destruct (hspecs key pool os T1) as [[xs1 T2]|] eqn:Hos; [|done]. cbn in Hs. injection Hs as <- <-.
  apply wp_bind. eapply wp_mono; [by eapply wp_hcall|]. intros y s1 [-> Hl1].
  assert (hs_client s1 = hs_client s) as Hc by (by destruct Hl1 as (_ & _ & _ & ?)).
  apply wp_bind. rewrite <- Hc in Hl1. eapply wp_mono; [by eapply IH|].
  intros ys s2 [-> Hl2]. apply wp_ret. by rewrite Hc in Hl2.
Qed.

Definition hash_session (os : list hop) : M (hstate S X) (option (list hout)) :=
  ok ← hash_init;
  if (ok : bool) then xs ← hcalls os; mret (Some xs) else mret None.

(** C20 (refinement): a hash table is a finite map.  A client that initialises a table and then
    inserts, replaces, looks up, deletes and counts elements gets the results of the
    same operations on a map from keys to elements, whatever the hash function and
    however the allocations of the rehashes turn out, and the table ends well formed
    with the map's elements; only the failure of the first allocation ends the
    session at once. *)
Theorem hash_refines_map pool os xs T' s :
  ready pool s → hspecs key pool os ∅ = Some (xs, T') →
  ∃ r s', hash_session os s = Done (r, s') ∧ hs_client s' = hs_client s ∧
    match r with
    | Some ys => ys = xs ∧ ∃ F, table pool s' F ∧ holds key T' F
    | None => (malloc (LIST_SIZE * 4) (hs_alloc s)).1 = None
    end.
Proof.
  intros Hr Hs. destruct (wp_total_run (hash_session os)
    (λ r s', hs_client s' = hs_client s ∧
      match r with
      | Some ys => ys = xs ∧ ∃ F, table pool s' F ∧ holds key T' F
      | None => (malloc (LIST_SIZE * 4) (hs_alloc s)).1 = None
      end) s) as (r & s' & E & Hq & Hq'); [|by exists r, s'].
  unfold hash_session. apply wp_bind. apply (wp_hash_init hash key _ pool); [done|..].
  - intros s1 F _ Ht He Hc. apply wp_bind.
    assert (leaves pool ∅ (hs_client s1) s1) as Hl.
    { exists F. split_and!; [done| |done]. intros k e. rewrite He, lookup_empty.
      split; [done|]. by intros [[]%elem_of_nil _]. }
    eapply wp_mono; [by eapply wp_hcalls|]. intros ys s2 [-> (F2 & Ht2 & Hh2 & Hc2)]. apply wp_ret.
    split; [congruence|]. split; [done|]. by exists F2.
  - intros s1 Hn _ Hc. by apply wp_ret.
Qed.

End refine.

(** ** An allocator and a client

    The allocator hands out consecutive addresses until its quota of lists is used
    up; the client's elements are numbers, and [e] and [e + 1] with [e] even have the
    same key. *)

Record bump := Bump { next_free : positive; quota : nat }.

Fixpoint lists_from (p : positive) (n : nat) : list klist :=
  match n with
  | O => []
  | Datatypes.S n => KList p (p + 1) :: lists_from (p + 2) n
  end.

#[local] Instance bump_malloc : Malloc bump := {
  malloc n a :=
    let k := Z.to_nat (n / LIST_SIZE) in
    if decide (k ≤ quota a)
    then (Some (lists_from (next_free a) k), Bump (next_free a + Pos.of_succ_nat (2 * k)) (quota a - k))
    else (None, a);
  free ls a := a
}.

Lemma lists_from_range p n a :
  a ∈ headers (lists_from p n) → (Z.pos p ≤ Z.pos a < Z.pos p + 2 * Z.of_nat n)%Z.
Proof.
  revert p. induction n as [|n IH]; intros p; cbn [lists_from]; [by intros []%elem_of_nil|].
  change (headers (KList p (p + 1) :: lists_from (p + 2) n)) with (p :: (p + 1)%positive :: headers (lists_from (p + 2) n)).
  rewrite !elem_of_cons. intros [->|[->|Ha%IH]]; lia.
Qed.

Lemma lists_from_nodup p n : NoDup (headers (lists_from p n)).
Proof.
  revert p. induction n as [|n IH]; intros p; cbn [lists_from]; [constructor|].
  change (headers (KList p (p + 1) :: lists_from (p + 2) n)) with (p :: (p + 1)%positive :: headers (lists_from (p + 2) n)).
  apply NoDup_cons. split; [rewrite elem_of_cons; intros [?|Ha%lists_from_range]; lia|].
  apply NoDup_cons. split; [intros Ha%lists_from_range; lia|apply IH].
Qed.

Lemma lists_from_length p n : length (lists_from p n) = n.
Proof. revert p. induction n as [|n IH]; intros p; cbn; [done|]. by rewrite IH. Qed.

#[local] Instance bump_laws : MallocLaws bump.
Proof.
  refine {| spare a x := (next_free a ≤ x)%positive |}.
  - intros n a ls a' Hm Hn. cbn in Hm. case_decide as Hq; [|done]. injection Hm as <- <-.
    assert (0 ≤ n / LIST_SIZE)%Z by (apply Z.div_pos; [done|unfold LIST_SIZE; lia]).
    rewrite lists_from_length. split_and!; [lia|apply lists_from_nodup| |].
    + intros x Hx%lists_from_range. lia.
    + cbn. intros x Hx. split; [lia|]. intros Hl%lists_from_range. lia.
  - intros n a a' x Hm. cbn in Hm. case_decide; [done|]. by injection Hm as <-.
  - cbn. auto.
Defined.

Definition half_key (e : eptr) : Z := (Z.pos e / 2)%Z.
Definition half_hash (e : eptr) : Z := (half_key e * 7 mod 2 ^ 32)%Z.
Definition half_less (x y : eptr) : bool := bool_decide (half_key x < half_key y)%Z.

#[local] Instance half_keyed : Keyed half_hash half_key half_less.
Proof.
  split; [|unfold half_hash; by intros x y ->].
  intros x y. unfold half_less. repeat case_bool_decide; (done || lia).
Qed.

Definition client_pool : gset eptr := list_to_set (Pos.of_nat <$> seq 2 40).
Definition client_memory (q : nat) : hstate bump (list eptr) :=
  HState (list_to_map ((λ e, (e, ListElem None None)) <$> elements client_pool)) (Bump 100 q) (Hash 0 0 []) [].

Lemma client_ready q : ready client_pool (client_memory q).
Proof.
  split_and!.
  - intros x Hx. cbn in Hx. apply not_elem_of_list_to_map. intros Hin.
    rewrite <- list_fmap_compose in Hin. apply list_elem_of_fmap in Hin as (e & -> & He).
    apply elem_of_elements, elem_of_list_to_set, list_elem_of_fmap in He as (n & -> & Hn%elem_of_seq).
    cbn in Hx. lia.
  - intros e He. cbn. destruct (list_to_map _ !! e) eqn:E; [by eexists|].
    apply not_elem_of_list_to_map in E. destruct E. rewrite <- list_fmap_compose.
    apply list_elem_of_fmap. exists e. split; [done|]. by apply elem_of_elements.
  - by vm_compute.
Qed.

(** Enough insertions for a rehash, a duplicate, a replacement and a deletion *)
Definition client_ops : list hop :=
  (HInsert ∘ Pos.of_nat ∘ (λ i, 2 * i) <$> seq 1 18) ++ [HInsert 5; HReplace 7; HFind 6; HDelete 9; HSize].

Definition client_results : option (list hout * gmap Z eptr) := hspecs half_key client_pool client_ops ∅.
Definition client_outs : list hout := Eval vm_compute in default [] (fst <$> client_results).
Definition client_map : gmap Z eptr := default ∅ (snd <$> client_results).

Lemma client_spec : hspecs half_key client_pool client_ops ∅ = Some (client_outs, client_map).
Proof.
  unfold client_map, client_results.
  assert (fst <$> hspecs half_key client_pool client_ops ∅ = Some client_outs) as E by (by vm_compute).
  destruct (hspecs _ _ _ _) as [[xs T]|]; [|done]. cbn in E. by injection E as ->.
Qed.

Lemma hash_refines_map_witness :
  ∃ r s', hash_session half_hash half_less client_ops (client_memory 50) = Done (r, s') ∧
    hs_client s' = [] ∧
    match r with
    | Some ys => ys = client_outs ∧ ∃ F, table half_hash half_key client_pool s' F ∧ holds half_key client_map F
    | None => (malloc (LIST_SIZE * 4) (Bump 100 50)).1 = None
    end.
Proof.
  apply (hash_refines_map half_hash half_less half_key client_pool client_ops client_outs client_map (client_memory 50)).
  - apply client_ready.
  - apply client_spec.
Defined.

(** A table of the client, and a destructor and an action that note the elements *)
Definition note (e : eptr) (seen : list eptr) : list eptr := seen ++ [e].
Definition note_action (e : eptr) : M (hstate bump (list eptr)) unit :=
  modify (λ s, HState (hs_heap s) (hs_alloc s) (hs_hash s) (note e (hs_client s))).
Definition note_destructor (e : eptr) : M (hstate bump (list eptr)) unit :=
  modify (λ s, HState (delete e (hs_heap s)) (hs_alloc s) (hs_hash s) (note e (hs_client s))).

Lemma note_performs : performs note_action note.
Proof. done. Qed.

Lemma note_destroys : destroys note_destructor note.
Proof.
  intros e s. exists (delete e (hs_heap s)), (hs_alloc s). split_and!; [done| |by left].
  intros x Hx. by rewrite lookup_delete_ne.
Qed.

Lemma client_table : ∃ (s : hstate bump (list eptr)) F, table half_hash half_key client_pool s F ∧ holds half_key client_map F.
Proof.
  destruct (wp_total_run (hash_session half_hash half_less client_ops)
    (λ r s', ∃ F, table half_hash half_key client_pool s' F ∧ holds half_key client_map F)
    (client_memory 50)) as (r & s & _ & F & HF); [|by exists s, F].
  unfold hash_session. apply wp_bind.
  apply (wp_hash_init half_hash half_key _ client_pool); [apply client_ready|..].
  - intros s1 F _ Ht He Hc. apply wp_bind. eapply wp_mono; [eapply (wp_hcalls half_hash half_less half_key)|].
    + exists F. split_and!; [exact Ht| |done]. intros k e. rewrite He, lookup_empty.
      split; [done|]. by intros [[]%elem_of_nil _].
    + apply client_spec.
    + intros ys s2 [_ (F2 & Ht2 & Hh2 & _)]. apply wp_ret. by exists F2.
  - intros s1 Hn. by vm_compute in Hn.
Qed.

Lemma hash_iteration_exhaustive_witness :
  ∃ (s : hstate bump (list eptr)) F es, table half_hash half_key client_pool s F ∧
    map_to_list client_map ≡ₚ (λ e, (half_key e, e)) <$> es ∧
    hash_visit 41 s = Done (es, s) ∧
    hash_apply note_action s = Done (tt, with_client s (over note es (hs_client s))) ∧
    ∃ s' F', hash_clear (Some note_destructor) s = Done (tt, s') ∧
      hs_client s' = over note es (hs_client s) ∧
      table half_hash half_key (client_pool ∖ list_to_set es) s' F' ∧ holds half_key ∅ F'.
Proof.
  destruct client_table as (s & F & Ht & Hh). exists s, F.
  destruct (hash_iteration_exhaustive half_hash half_key client_pool client_map F 41 note_action note_destructor note s)
    as (es & H1 & H2 & H3 & H4); [exact Ht|exact Hh| |apply note_performs|apply note_destroys|].
  - apply (bool_decide_unpack (size client_map < 41)). by vm_compute.
  - by exists es.
Defined.

(** ** The hash functions *)

Definition fnv (bs : list Z) : Z := foldl fnv_step FNV_32_BASIS bs.

Definition byte (c : Z) : Prop := (0 ≤ c < 256)%Z.

Lemma fnv_step_range x c : (0 ≤ x < 2 ^ 32)%Z → byte c → (0 ≤ fnv_step x c < 2 ^ 32)%Z.
Proof.
  intros Hx Hc. unfold fnv_step, wrap_u32. set (y := (x * FNV_32_PRIME mod 4294967296)%Z).
  assert (0 ≤ y < 2 ^ 32)%Z as Hy by (apply Z.mod_pos_bound; lia). unfold byte in Hc.
  assert (0 ≤ Z.lxor y c)%Z as H0 by (apply Z.lxor_nonneg; lia). split; [done|].
  destruct (decide (Z.lxor y c = 0)%Z) as [->|Hne]; [lia|].
  apply Z.log2_lt_pow2; [lia|]. eapply Z.le_lt_trans; [apply Z.log2_lxor; lia|].
  apply Z.max_lub_lt.
  - destruct (decide (y = 0)%Z) as [->|]; [done|]. apply Z.log2_lt_pow2; lia.
  - destruct (decide (c = 0)%Z) as [->|]; [done|]. apply Z.log2_lt_pow2; lia.
Qed.

Lemma fnv_range bs : Forall byte bs → (0 ≤ fnv bs < 2 ^ 32)%Z.
Proof.
  intros Hb. unfold fnv. assert (0 ≤ FNV_32_BASIS < 2 ^ 32)%Z as H0 by done. revert H0.
  generalize FNV_32_BASIS. induction Hb as [|c bs Hc _ IH]; intros x Hx; [done|]. cbn.
  by apply IH, fnv_step_range.
Qed.

Lemma wp_hash_bytes_loop t x p n Q (m : memory) :
  p + n ≤ length m → Q (foldl fnv_step x (block m p n)) m → wp t (hash_bytes_loop x p n) Q m.
Proof.
  revert x p. induction n as [|n IH]; intros x p Hp HQ; cbn [hash_bytes_loop]; [by apply wp_ret|].
  destruct (lookup_lt_is_Some_2 m p ltac:(lia)) as [v Hv]. apply wp_bind. eapply wp_ld; [done|].
  apply IH; [lia|]. by rewrite (block_S _ _ _ _ Hv) in HQ.
Qed.

Lemma wp_hash_string t p s Q (m : memory) : str_at m p s → Q (fnv s) m → wp t (hash_string p) Q m.
Proof.
  intros Hs HQ. unfold hash_string. apply wp_bind, wp_scan_fuel.
  apply (wp_scan t _ _ (λ k '(q, x), q = p + k ∧ x = foldl fnv_step FNV_32_BASIS (take k s)) Q m p s) with (s1 := []) (s2 := s).
  - intros s1 s2 [q x] Es (-> & ->). destruct (str_here m p s1 s2) as [Hc Hz]; [by rewrite <- Es|].
    apply wp_bind. eapply wp_ld; [exact Hc|]. case_bool_decide as Hd.
    + destruct s2 as [|c s2]; [by destruct Hd|]. apply wp_ret. split_and!; [done|done|lia|]. cbn.
      rewrite Es. rewrite take_app_length. change (Datatypes.S (length s1)) with (1 + length s1).
      rewrite Nat.add_comm, take_app_add. cbn. by rewrite foldl_app.
    + apply wp_ret. assert (s2 = []) as -> by (apply Hz; lia).
      rewrite app_nil_r in Es. subst s1. by rewrite take_ge by lia.
  - done.
  - split; [cbn; lia|done].
  - apply str_length in Hs. lia.
Qed.

(** The hash functions compute the 32-bit FNV hash of their bytes: [hash_bytes] of a
    block, [hash_string] of the characters before the terminator, so that it agrees
    with [hash_bytes] over the length of the string, and [hash_int] of the four bytes
    of an integer; the result is an [unsigned]. *)
Theorem hash_functions_agree (m : memory) p s i :
  str_at m p s → Forall byte s →
  hash_string p m = Done (fnv s, m) ∧
  hash_bytes p (length s) m = Done (fnv s, m) ∧
  hash_int i = Done (fnv (int_bytes i)) ∧
  (0 ≤ fnv s < 2 ^ 32)%Z ∧ (0 ≤ fnv (int_bytes i) < 2 ^ 32)%Z.
Proof.
  intros Hs Hb. assert (block m p (length s) = s) as Ebl.
  { rewrite <- (Nat.add_0_r p), (str_block_at m p s 0 (length s)) by (done || lia).
    rewrite drop_0. apply take_ge. lia. }
  split; [|split; [|split; [done|split; apply fnv_range; [done|]]]].
  - destruct (wp_total_run (hash_string p) (λ r m', r = fnv s ∧ m' = m) m) as (? & ? & E & -> & ->); [|done].
    by eapply wp_hash_string.
  - destruct (wp_total_run (hash_bytes p (length s)) (λ r m', r = fnv s ∧ m' = m) m) as (? & ? & E & -> & ->); [|done].
    apply wp_hash_bytes_loop; [apply str_length in Hs; lia|]. by rewrite Ebl.
  - unfold int_bytes, byte. repeat constructor; apply Z.mod_pos_bound; lia.
Qed.

Lemma hash_functions_agree_witness :
  hash_string 1 [7; 102; 111; 111; 0]%Z = Done (1083137555%Z, [7; 102; 111; 111; 0]%Z) ∧
  hash_bytes 1 3 [7; 102; 111; 111; 0]%Z = Done (1083137555%Z, [7; 102; 111; 111; 0]%Z).
Proof.
  destruct (hash_functions_agree [7; 102; 111; 111; 0]%Z 1 [102; 111; 111]%Z (-1)) as (H1 & H2 & _).
  - split; [done|]. by apply (bool_decide_unpack _).
  - repeat constructor; by vm_compute.
  - split; [exact H1|exact H2].
Defined.
