(* ===== verification/KMalloc.v ===== *)
(** * Pintos: the block allocator

    [Project_3/threads/malloc.c], the whole file.  Memory is seen as the allocator
    sees it: the arenas at the start of their pages, the free blocks as list
    elements of [KList] in the free list of their descriptor, and the bytes of the
    blocks, of which those that hold links or that nobody has written are unknown.
    Addresses are 32-bit integers; the address of a free block as a list element is
    the same number.

    The page allocator is used through the class [PageSource]; [None] there is a
    failed assertion.  The lock of a descriptor is a flag: the functions are seen
    as one thread runs them, so that acquiring a lock twice or releasing one that is
    not held is an error.  A failed [ASSERT] is undefined behaviour. *)

From stdpp Require Import base tactics list gmap.
From Stdlib Require Import ZArith Lia.
From S2P Require Import Prelude KList.

Local Open Scope Z_scope.

(** ** Pages *)

Definition PAGE : Z := 4096.
Definition pg_ofs (va : Z) : Z := Z.land va (PAGE - 1).
Definition pg_round_down (va : Z) : Z := Z.land va (Z.lnot (PAGE - 1)).

(** [palloc_get_multiple(0, n)] and [palloc_free_multiple(a, n)] *)
Class PageSource (P : Type) := {
  page_get : Z → P → option (option Z * P);
  page_put : Z → Z → P → option P
}.

(** ** Data *)

Record desc := Desc {
  block_size : Z;
  blocks_per_arena : Z;
  free_list : klist;
  locked : bool
}.

Definition ARENA_MAGIC : Z := 0x9a548eed.
Definition ARENA_SIZE : Z := 12.

(** [a_desc] is the index of the owning descriptor. *)
Record arena := Arena { magic : Z; a_desc : option nat; free_cnt : Z }.

Record mstate (P : Type) := MState {
  arenas : gmap Z arena;
  links : lheap;
  descs : list desc;
  pages : P;
  contents : gmap Z Z
}.
Arguments MState {_} _ _ _ _ _.
Arguments arenas {_} _.
Arguments links {_} _.
Arguments descs {_} _.
Arguments pages {_} _.
Arguments contents {_} _.

Section malloc.
Context {P : Type} `{PageSource P}.

(** The address of the list header in [descs[i]] *)
Context (desc_list : nat → klist).

Local Abbreviation MM := (M (mstate P)).

Definition on_links {A} (m : M lheap A) : MM A := λ s,
  match m (links s) with
  | Done (a, h) => Done (a, MState (arenas s) h (descs s) (pages s) (contents s))
  | Undef => Undef
  | NoFuel => NoFuel
  end.

Definition set_arena (a : Z) (x : arena) : MM unit :=
  modify (λ s, MState (<[a := x]> (arenas s)) (links s) (descs s) (pages s) (contents s)).
Definition set_desc (i : nat) (d : desc) : MM unit :=
  modify (λ s, MState (arenas s) (links s) (<[i := d]> (descs s)) (pages s) (contents s)).
Definition set_contents (f : gmap Z Z → gmap Z Z) : MM unit :=
  modify (λ s, MState (arenas s) (links s) (descs s) (pages s) (f (contents s))).

Definition get_desc (i : nat) : MM desc := s ← get; assume_some (descs s !! i).

Definition desc_lock (i : nat) : MM unit :=
  d ← get_desc i; check (negb (locked d));;
  set_desc i (Desc (block_size d) (blocks_per_arena d) (free_list d) true).
Definition desc_unlock (i : nat) : MM unit :=
  d ← get_desc i; check (locked d);;
  set_desc i (Desc (block_size d) (blocks_per_arena d) (free_list d) false).

(** The [n] bytes at [p] become [v], or unknown. *)
Fixpoint fill (p : Z) (n : nat) (v : option Z) (m : gmap Z Z) : gmap Z Z :=
  match n with
  | O => m
  | S n => partial_alter (λ _, v) p (fill (p + 1) n v m)
  end.

(** [memcpy(dst, src, n)]; unknown bytes stay unknown. *)
Fixpoint copy (dst src : Z) (n : nat) (m : gmap Z Z) : gmap Z Z :=
  match n with
  | O => m
  | S n => copy (dst + 1) (src + 1) n (partial_alter (λ _, m !! src) dst m)
  end.

(** The storage of a free block holds links. *)
Definition as_block (b : Z) : MM eptr :=
  on_links (modify (<[Z.to_pos b := ListElem None None]>));;
  set_contents (fill b 8 None);;
  mret (Z.to_pos b).

(** [palloc_get_multiple] gives pages of unknown contents. *)
Definition palloc_get (n : Z) : MM (option Z) :=
  s ← get;
  '(r, p) ← assume_some (page_get n (pages s));
  modify (λ s, MState (arenas s) (links s) (descs s) p (contents s));;
  match r with
  | Some a => set_contents (fill a (Z.to_nat (PAGE * n)) None);; mret (Some a)
  | None => mret None
  end.

(** The pages given back hold no arena any more; [palloc_free_multiple] fills them. *)
Definition palloc_free (a n : Z) : MM unit :=
  s ← get;
  p ← assume_some (page_put a n (pages s));
  modify (λ s, MState (delete a (arenas s)) (links s) (descs s) p (contents s));;
  set_contents (fill a (Z.to_nat (PAGE * n)) (Some 0xcc)).

(** ** Initialization *)

(** [for (block_size = 16; block_size < PGSIZE / 2; block_size *= 2)] *)
Definition malloc_init : MM unit :=
  loop 10
    (λ block_size,
       if bool_decide (block_size < PAGE / 2) then
         s ← get;
         let i := length (descs s) in
         check (bool_decide (S i ≤ 10)%nat);;
         modify (λ s, MState (arenas s) (links s)
                   (descs s ++ [Desc block_size ((PAGE - ARENA_SIZE) / block_size) (desc_list i) false])
                   (pages s) (contents s));;
         on_links (list_init (desc_list i));;
         mret (inl (block_size * 2))
       else mret (inr tt)) 16.

(** ** Blocks and arenas *)

Definition get_arena (a : Z) : MM arena := s ← get; assume_some (arenas s !! a).

(** The result is the address of the arena and what it holds. *)
Definition block_to_arena (b : Z) : MM (Z * arena) :=
  let a := pg_round_down b in
  check (bool_decide (a ≠ 0));;
  x ← get_arena a;
  check (bool_decide (magic x = ARENA_MAGIC));;
  match a_desc x with
  | Some i =>
      d ← get_desc i;
      check (bool_decide (wrap_u32 (pg_ofs b - ARENA_SIZE) mod block_size d = 0))
  | None => check (bool_decide (pg_ofs b = ARENA_SIZE))
  end;;
  mret (a, x).

Definition arena_to_block (a : Z) (idx : nat) : MM Z :=
  x ← get_arena a;
  check (bool_decide (magic x = ARENA_MAGIC));;
  i ← assume_some (a_desc x);
  d ← get_desc i;
  check (bool_decide (Z.of_nat idx < blocks_per_arena d));;
  mret (a + ARENA_SIZE + Z.of_nat idx * block_size d).

(** ** [malloc] *)

(** The first descriptor with large enough blocks, or the number of descriptors *)
Fixpoint find_desc (size : Z) (ds : list desc) : nat :=
  match ds with
  | [] => O
  | d :: ds => if bool_decide (size ≤ block_size d) then O else S (find_desc size ds)
  end.

Definition DIV_ROUND_UP (x step : Z) : Z := wrap_u32 (x + step - 1) / step.

(** [for (i = 0; i < d->blocks_per_arena; i++)] with [n] blocks left *)
Fixpoint add_blocks (a : Z) (l : klist) (i n : nat) : MM unit :=
  match n with
  | O => mret tt
  | S n =>
      b ← arena_to_block a i;
      e ← as_block b;
      on_links (list_push_back l e);;
      add_blocks a l (S i) n
  end.

Definition malloc (size : Z) : MM (option Z) :=
  if bool_decide (size = 0) then mret None
  else
    s ← get;
    let i := find_desc size (descs s) in
    if bool_decide (i = length (descs s)) then
      let page_cnt := DIV_ROUND_UP (wrap_u32 (size + ARENA_SIZE)) PAGE in
      r ← palloc_get page_cnt;
      match r with
      | None => mret None
      | Some a => set_arena a (Arena ARENA_MAGIC None page_cnt);; mret (Some (a + ARENA_SIZE))
      end
    else
      desc_lock i;;
      d ← get_desc i;
      empty ← on_links (list_empty (free_list d));
      ok ← (if (empty : bool) then
              r ← palloc_get 1;
              match r with
              | None => mret false
              | Some a =>
                  set_arena a (Arena ARENA_MAGIC (Some i) (blocks_per_arena d));;
                  add_blocks a (free_list d) 0 (Z.to_nat (blocks_per_arena d));;
                  mret true
              end
            else mret true);
      if (ok : bool) then
        e ← on_links (list_pop_front (free_list d));
        let b := Z.pos e in
        '(a, x) ← block_to_arena b;
        set_arena a (Arena (magic x) (a_desc x) (wrap_u32 (free_cnt x - 1)));;
        desc_unlock i;;
        mret (Some b)
      else desc_unlock i;; mret None.

Definition calloc (a b : Z) : MM (option Z) :=
  let size := wrap_u32 (a * b) in
  if bool_decide (size < a) || bool_decide (size < b) then mret None
  else
    p ← malloc size;
    match p with
    | Some q => set_contents (fill q (Z.to_nat size) (Some 0))
    | None => mret tt
    end;;
    mret p.

Definition size_of_block (block : Z) : MM Z :=
  '(_, x) ← block_to_arena block;
  match a_desc x with
  | Some i => d ← get_desc i; mret (block_size d)
  | None => mret (wrap_u32 (wrap_u32 (PAGE * free_cnt x) - pg_ofs block))
  end.

(** ** [free] *)

Fixpoint remove_blocks (a : Z) (i n : nat) : MM unit :=
  match n with
  | O => mret tt
  | S n =>
      b ← arena_to_block a i;
      on_links (list_remove (Z.to_pos b));;
      remove_blocks a (S i) n
  end.

Definition free (p : option Z) : MM unit :=
  match p with
  | None => mret tt
  | Some b =>
      '(a, x) ← block_to_arena b;
      match a_desc x with
      | Some i =>
          d ← get_desc i;
          set_contents (fill b (Z.to_nat (block_size d)) (Some 0xcc));;
          desc_lock i;;
          e ← as_block b;
          on_links (list_push_front (free_list d) e);;
          let cnt := wrap_u32 (free_cnt x + 1) in
          set_arena a (Arena (magic x) (a_desc x) cnt);;
          (if bool_decide (blocks_per_arena d ≤ cnt) then
             check (bool_decide (cnt = blocks_per_arena d));;
             remove_blocks a 0 (Z.to_nat (blocks_per_arena d));;
             palloc_free a 1
           else mret tt);;
          desc_unlock i
      | None => palloc_free a (free_cnt x)
      end
  end.

Definition realloc (old_block : option Z) (new_size : Z) : MM (option Z) :=
  if bool_decide (new_size = 0) then free old_block;; mret None
  else
    new_block ← malloc new_size;
    match old_block, new_block with
    | Some o, Some n =>
        old_size ← size_of_block o;
        let min_size := if bool_decide (new_size < old_size) then new_size else old_size in
        set_contents (copy n o (Z.to_nat min_size));;
        free old_block
    | _, _ => mret tt
    end;;
    mret new_block.

End malloc.
