(* ===== verification/KMallocProps.v ===== *)
(** * Pintos: the invariant of the block allocator

    Arenas lie in disjoint pages, every block of a small arena is either free, and
    then in the free list of its size, or in use, and the counts are right.  The
    operations keep this, and a block in use is touched by nobody but its owner. *)

From stdpp Require Import base tactics list gmap sorting.
From Stdlib Require Import ZArith Lia.
From S2P Require Import Prelude KList KListProps KListSort KListMain KHash KHashProps KMalloc.

Local Open Scope Z_scope.

(** ** Pages and blocks as numbers *)

Lemma pg_ofs_mod va : pg_ofs va = va mod 4096.
Proof. unfold pg_ofs, PAGE. change (4096 - 1) with (Z.ones 12). by rewrite Z.land_ones. Qed.

Lemma pg_round_down_div va : pg_round_down va = va / 4096 * 4096.
Proof.
  unfold pg_round_down, PAGE. change (4096 - 1) with (Z.ones 12).
  change (Z.land va (Z.lnot (Z.ones 12))) with (Z.land va (Z.lnot (Z.ones 12))).
  rewrite <- Z.ldiff_land, Z.ldiff_ones_r by lia. rewrite Z.shiftl_mul_pow2, Z.shiftr_div_pow2 by lia. done.
Qed.

(** The size and the number of the blocks of the [i]th descriptor *)
Definition bs (i : nat) : Z := 16 * 2 ^ Z.of_nat i.
Definition bpa (i : nat) : Z := (PAGE - ARENA_SIZE) / bs i.

Lemma desc_cases (Q : nat → Prop) i :
  (i < 7)%nat → Q 0%nat → Q 1%nat → Q 2%nat → Q 3%nat → Q 4%nat → Q 5%nat → Q 6%nat → Q i.
Proof. intros Hi ???????. do 7 (destruct i as [|i]; [done|]). lia. Qed.

Lemma bs_bpa i : (i < 7)%nat → 16 ≤ bs i ≤ 1024 ∧ 3 ≤ bpa i ≤ 255 ∧ 12 + bpa i * bs i ≤ 4096.
Proof. intros Hi. pattern i. apply desc_cases; [done|by vm_compute..]. Qed.

(** The [j]th block of the arena at [a] *)
Definition blk (a : Z) (i : nat) (j : Z) : Z := a + 12 + j * bs i.

Lemma blk_page a i j k :
  (i < 7)%nat → a = k * 4096 → 0 ≤ j < bpa i →
  pg_round_down (blk a i j) = a ∧ pg_ofs (blk a i j) = 12 + j * bs i ∧
  a + 12 ≤ blk a i j ∧ blk a i j + bs i ≤ a + 4096.
Proof.
  intros Hi -> Hj. destruct (bs_bpa i Hi) as (Hb & Hn & Hs). rewrite pg_round_down_div, pg_ofs_mod. unfold blk.
  assert (0 ≤ j * bs i) by nia. assert (j * bs i + bs i ≤ bpa i * bs i) by nia.
  replace (k * 4096 + 12 + j * bs i) with (12 + j * bs i + k * 4096) by lia.
  rewrite Z.div_add, Z.mod_add by lia. rewrite Z.div_small, Z.mod_small by lia. lia.
Qed.

Lemma blk_inj a i j j' : (i < 7)%nat → blk a i j = blk a i j' → j = j'.
Proof. intros Hi. destruct (bs_bpa i Hi). unfold blk. nia. Qed.

Lemma blk_apart a i j j' : (i < 7)%nat → j < j' → blk a i j + bs i ≤ blk a i j'.
Proof. intros Hi. destruct (bs_bpa i Hi). unfold blk. nia. Qed.

(** ** What the page allocator promises *)

Class PageLaws (P : Type) `{PageSource P} := {
  pg_wf : P → Prop;
  pg_free : P → Z → Prop;
  pg_used : P → Z → Prop;
  pg_excl p k : pg_free p k → pg_used p k → False;
  page_get_ok n p : pg_wf p → 0 ≤ n < 2 ^ 20 →
    ∃ r p', page_get n p = Some (r, p') ∧ pg_wf p' ∧
      match r with
      | None => ∀ k, (pg_free p' k ↔ pg_free p k) ∧ (pg_used p' k ↔ pg_used p k)
      | Some a => 0 < n ∧ ∃ k, a = k * 4096 ∧ 0 < k ∧ k + n ≤ 2 ^ 20 ∧
          (∀ j, k ≤ j < k + n → pg_free p j) ∧
          (∀ j, (pg_free p' j ↔ pg_free p j ∧ ¬ k ≤ j < k + n) ∧
                (pg_used p' j ↔ pg_used p j ∨ k ≤ j < k + n))
      end;
  page_put_ok k n p : pg_wf p → 0 < k → 0 < n → k + n ≤ 2 ^ 20 → (∀ j, k ≤ j < k + n → pg_used p j) →
    ∃ p', page_put (k * 4096) n p = Some p' ∧ pg_wf p' ∧
      ∀ j, (pg_free p' j ↔ pg_free p j ∨ k ≤ j < k + n) ∧ (pg_used p' j ↔ pg_used p j ∧ ¬ k ≤ j < k + n)
}.

Section malloc_inv.
Context {P : Type} `{PageLaws P}.
Context (desc_list : nat → klist).

Implicit Types (s : mstate P) (ess : list (list eptr)) (es : list eptr) (a p c k : Z) (x : arena) (lk : option nat).

Lemma wp_on_links {A} t (m : M lheap A) Q s :
  wp t m (λ r h, Q r (MState (arenas s) h (descs s) (pages s) (contents s))) (links s) →
  wp t (on_links m) Q s.
Proof. unfold wp, on_links. destruct (m (links s)) as [[r h]| |]; done. Qed.

(** The descriptors, of which [lk] is locked *)
Definition std_desc lk (i : nat) : desc := Desc (bs i) (bpa i) (desc_list i) (bool_decide (lk = Some i)).
Definition std_descs lk : list desc := std_desc lk <$> seq 0 7.

Lemma std_lookup lk i : (i < 7)%nat → std_descs lk !! i = Some (std_desc lk i).
Proof. intros Hi. unfold std_descs. rewrite list_lookup_fmap, lookup_seq_lt by done. done. Qed.

Lemma std_set lk lk' i : (i < 7)%nat → (∀ j, j ≠ i → lk = Some j ↔ lk' = Some j) →
  <[i := std_desc lk' i]> (std_descs lk) = std_descs lk'.
Proof.
  intros Hi Hlk. apply list_eq. intros j. destruct (decide (j = i)) as [->|Hj].
  - rewrite list_lookup_insert_eq by (unfold std_descs; rewrite length_fmap, length_seq; done).
    by rewrite std_lookup.
  - rewrite list_lookup_insert_ne by done. unfold std_descs. rewrite !list_lookup_fmap.
    destruct (seq 0 7 !! j) as [k|] eqn:E; [|done]. apply lookup_seq in E as [-> _]. cbn.
    unfold std_desc. do 2 f_equal. apply bool_decide_ext, Hlk. done.
Qed.

(** The free lists *)
Definition lists ess : family := zip (desc_list <$> seq 0 7) ess.

Lemma lists_lookup ess i es :
  length ess = 7%nat → lists ess !! i = Some (desc_list i, es) ↔ ess !! i = Some es.
Proof.
  intros Hl. unfold lists. rewrite lookup_zip_with, list_lookup_fmap.
  destruct (decide (i < 7)%nat) as [Hi|Hi].
  - rewrite lookup_seq_lt by done. cbn. destruct (ess !! i); cbn; naive_solver.
  - rewrite lookup_seq_ge by lia. cbn. split; [done|]. intros E%lookup_lt_Some. lia.
Qed.

Lemma lists_lookup_inv ess i q : lists ess !! i = Some q → q.1 = desc_list i ∧ ess !! i = Some q.2 ∧ (i < 7)%nat.
Proof.
  unfold lists. intros (l & es & -> & Hl & He)%lookup_zip_with_Some.
  rewrite list_lookup_fmap in Hl. destruct (seq 0 7 !! i) as [j|] eqn:E; [|done].
  apply lookup_seq in E as [-> Hi]. injection Hl as <-. done.
Qed.

Lemma lists_insert_list ess i es' :
  length ess = 7%nat → (i < 7)%nat → <[i := (desc_list i, es')]> (lists ess) = lists (<[i := es']> ess).
Proof.
  intros Hl Hi. unfold lists. apply list_eq. intros j. destruct (decide (j = i)) as [->|Hj].
  - rewrite list_lookup_insert_eq by (rewrite length_zip_with, length_fmap, length_seq; lia).
    rewrite lookup_zip_with, list_lookup_fmap, lookup_seq_lt by done. cbn.
    rewrite list_lookup_insert_eq by lia. done.
  - rewrite list_lookup_insert_ne by done. rewrite !lookup_zip_with. by rewrite list_lookup_insert_ne.
Qed.

(** ** The invariant *)

Definition npages x : Z := match a_desc x with Some _ => 1 | None => free_cnt x end.

(** The number of free blocks of the arena at [a] *)
Definition count a es : Z := Z.of_nat (length (filter (λ e, pg_round_down (Z.pos e) = a) es)).

Record arena_ok (p : P) ess a x : Prop := {
  ao_magic : magic x = ARENA_MAGIC;
  ao_pages : ∃ k, a = k * 4096 ∧ 0 < k ∧ 0 < npages x ∧ k + npages x ≤ 2 ^ 20 ∧
    ∀ j, k ≤ j < k + npages x → pg_used p j;
  ao_small i : a_desc x = Some i → (i < 7)%nat ∧
    ∀ es, ess !! i = Some es → free_cnt x = count a es
}.

Record wf lk s ess : Prop := {
  wf_descs : descs s = std_descs lk;
  wf_length : length ess = 7%nat;
  wf_fam : fam (links s) (lists ess);
  wf_pages : pg_wf (pages s);
  wf_static i e : (i < 7)%nat → e = head (desc_list i) ∨ e = tail (desc_list i) →
    ¬ pg_free (pages s) (Z.pos e / 4096) ∧ ¬ pg_used (pages s) (Z.pos e / 4096);
  wf_arena a x : arenas s !! a = Some x → arena_ok (pages s) ess a x;
  wf_disjoint a x a' x' z : arenas s !! a = Some x → arenas s !! a' = Some x' →
    a ≤ z < a + npages x * 4096 → a' ≤ z < a' + npages x' * 4096 → a = a';
  wf_free i es e : ess !! i = Some es → e ∈ es →
    ∃ a x j, arenas s !! a = Some x ∧ a_desc x = Some i ∧ 0 ≤ j < bpa i ∧ Z.pos e = blk a i j
}.

(** A small arena that is entirely free has been given back. *)
Definition trim s : Prop := ∀ a x i, arenas s !! a = Some x → a_desc x = Some i → free_cnt x < bpa i.

(** The block at [p] with room for [c] bytes is one of the arena. *)
Definition is_block a x p c : Prop :=
  match a_desc x with
  | Some i => ∃ j, 0 ≤ j < bpa i ∧ p = blk a i j ∧ c = bs i
  | None => p = a + 12 ∧ c = npages x * 4096 - 12
  end.

Definition listed ess i p : Prop := ∃ es, ess !! i = Some es ∧ Z.to_pos p ∈ es.

Definition live s ess p c : Prop :=
  ∃ a x, arenas s !! a = Some x ∧ is_block a x p c ∧ ∀ i, a_desc x = Some i → ¬ listed ess i p.

(** ** Consequences *)

Lemma arena_at lk s ess a x :
  wf lk s ess → arenas s !! a = Some x →
  ∃ k, a = k * 4096 ∧ 0 < k ∧ 0 < npages x ∧ k + npages x ≤ 2 ^ 20 ∧ (∀ j, k ≤ j < k + npages x → pg_used (pages s) j).
Proof. intros Hw Ha. by apply (ao_pages _ _ _ _ (wf_arena _ _ _ Hw _ _ Ha)). Qed.

Lemma block_range lk s ess a x p c :
  wf lk s ess → arenas s !! a = Some x → is_block a x p c →
  0 < p ∧ 0 < c ∧ a + 12 ≤ p ∧ p + c ≤ a + npages x * 4096 ∧ pg_round_down p = a.
Proof.
  intros Hw Ha Hb. destruct (arena_at _ _ _ _ _ Hw Ha) as (k & -> & Hk & Hn & Hu & _).
  unfold is_block in Hb. destruct (a_desc x) as [i|] eqn:Ed.
  - destruct Hb as (j & Hj & -> & ->).
    destruct (ao_small _ _ _ _ (wf_arena _ _ _ Hw _ _ Ha) i Ed) as [Hi _].
    destruct (blk_page (k * 4096) i j k Hi eq_refl Hj) as (E1 & E2 & E3 & E4).
    destruct (bs_bpa i Hi). unfold npages. rewrite Ed. lia.
  - destruct Hb as [-> ->]. rewrite pg_round_down_div.
    replace ((k * 4096 + 12) / 4096) with k; [lia|]. rewrite Z.add_comm, Z.div_add by lia. done.
Qed.

(** Blocks in use do not overlap. *)
Lemma live_apart lk s ess p c p' c' :
  wf lk s ess → live s ess p c → live s ess p' c' → p = p' ∧ c = c' ∨ p + c ≤ p' ∨ p' + c' ≤ p.
Proof.
  intros Hw (a & x & Ha & Hb & _) (a' & x' & Ha' & Hb' & _).
  destruct (block_range _ _ _ _ _ _ _ Hw Ha Hb) as (Hp & Hc & H1 & H2 & _).
  destruct (block_range _ _ _ _ _ _ _ Hw Ha' Hb') as (Hp' & Hc' & H1' & H2' & _).
  destruct (decide (a = a')) as [<-|Hne].
  - rewrite Ha in Ha'. injection Ha' as <-. unfold is_block in *. destruct (a_desc x) as [i|] eqn:Ed.
    + destruct (ao_small _ _ _ _ (wf_arena _ _ _ Hw _ _ Ha) i Ed) as [Hi _].
      destruct Hb as (j & Hj & -> & ->), Hb' as (j' & Hj' & -> & ->).
      destruct (Z.lt_trichotomy j j') as [Hlt|[->|Hgt]]; [right; left|by left|right; right]; by apply blk_apart.
    + left. lia.
  - right. destruct (decide (p + c ≤ p')) as [|H3]; [by left|]. destruct (decide (p' + c' ≤ p)) as [|H4]; [by right|].
    exfalso. apply Hne. eapply (wf_disjoint _ _ _ Hw a x a' x' (Z.max p p')); [done|done|lia|lia].
Qed.

(** A free block is a block of its arena, and so no static list header. *)
Lemma free_block lk s ess i es e :
  wf lk s ess → ess !! i = Some es → e ∈ es →
  ∃ a x j, arenas s !! a = Some x ∧ a_desc x = Some i ∧ (i < 7)%nat ∧ 0 ≤ j < bpa i ∧ Z.pos e = blk a i j ∧
    pg_round_down (Z.pos e) = a.
Proof.
  intros Hw He Hin. destruct (wf_free _ _ _ Hw _ _ _ He Hin) as (a & x & j & Ha & Hd & Hj & E).
  destruct (ao_small _ _ _ _ (wf_arena _ _ _ Hw _ _ Ha) i Hd) as [Hi _].
  destruct (block_range lk s ess a x (Z.pos e) (bs i) Hw Ha) as (_ & _ & _ & _ & Hr).
  { unfold is_block. rewrite Hd. by exists j. }
  by exists a, x, j.
Qed.

(** Nothing that the page allocator holds free or that is in an arena is a node of
    the free lists, except the free blocks themselves. *)
Lemma not_a_node lk s ess b k :
  wf lk s ess → 0 < b → b / 4096 = k →
  pg_free (pages s) k ∨ pg_used (pages s) k → (∀ i, ¬ listed ess i b) →
  ∀ j q, lists ess !! j = Some q → Z.to_pos b ∉ nodes_of q.
Proof.
  intros Hw Hb Hk Hp Hl j [l es] Hj Hn. destruct (lists_lookup_inv _ _ _ Hj) as (E1 & E2 & Hj7). cbn in E1, E2. subst l.
  assert (Z.pos (Z.to_pos b) = b) as Eb by lia.
  apply elem_of_nodes in Hn as [En|[En|Hin]]; cbn in *.
  - destruct (wf_static _ _ _ Hw j _ Hj7 (or_introl eq_refl)) as [N1 N2]. rewrite <- En, Eb, Hk in N1, N2. tauto.
  - destruct (wf_static _ _ _ Hw j _ Hj7 (or_intror eq_refl)) as [N1 N2]. rewrite <- En, Eb, Hk in N1, N2. tauto.
  - apply (Hl j). by exists es.
Qed.

Lemma arena_page lk s ess a x p c :
  wf lk s ess → arenas s !! a = Some x → is_block a x p c → pg_used (pages s) (p / 4096) ∧ (p / 4096) * 4096 = a.
Proof.
  intros Hw Ha Hb. destruct (block_range _ _ _ _ _ _ _ Hw Ha Hb) as (_ & _ & _ & _ & Hr).
  rewrite pg_round_down_div in Hr. split; [|done].
  destruct (arena_at _ _ _ _ _ Hw Ha) as (k & E & Hk & Hn & _ & Hu). apply Hu. lia.
Qed.

(** ** Steps that leave the free lists alone *)

Lemma fill_lookup p n v (m : gmap Z Z) z :
  fill p n v m !! z = if decide (p ≤ z < p + Z.of_nat n) then v else m !! z.
Proof.
  revert p. induction n as [|n IH]; intros p; cbn [fill].
  - by rewrite decide_False by lia.
  - destruct (decide (z = p)) as [->|Hz].
    + rewrite lookup_partial_alter_eq, decide_True by lia. done.
    + rewrite lookup_partial_alter_ne, IH by done. apply decide_ext. lia.
Qed.

Lemma wp_get_desc t lk i Q s :
  descs s = std_descs lk → (i < 7)%nat → Q (std_desc lk i) s → wp t (get_desc i) Q s.
Proof.
  intros Hd Hi HQ. unfold get_desc. apply wp_bind, wp_get.
  eapply wp_assume_some; [by rewrite Hd, std_lookup|done].
Qed.

Definition with_descs s (ds : list desc) : mstate P := MState (arenas s) (links s) ds (pages s) (contents s).

Lemma wp_desc_lock t i Q s :
  descs s = std_descs None → (i < 7)%nat → Q tt (with_descs s (std_descs (Some i))) → wp t (desc_lock i) Q s.
Proof.
  intros Hd Hi HQ. unfold desc_lock. apply wp_bind. eapply wp_get_desc; [done|done|].
  apply wp_bind, wp_check; [done|]. apply wp_modify. rewrite Hd.
  replace (Desc _ _ _ true) with (std_desc (Some i) i) by (unfold std_desc; by rewrite bool_decide_true).
  rewrite std_set; [done|done|]. intros j Hj. split; [done|]. by intros [= ->].
Qed.

Lemma wp_desc_unlock t i Q s :
  descs s = std_descs (Some i) → (i < 7)%nat → Q tt (with_descs s (std_descs None)) → wp t (desc_unlock i) Q s.
Proof.
  intros Hd Hi HQ. unfold desc_unlock. apply wp_bind. eapply wp_get_desc; [done|done|].
  apply wp_bind, wp_check; [cbn; by rewrite bool_decide_true|]. apply wp_modify. rewrite Hd.
  replace (Desc _ _ _ false) with (std_desc None i) by (unfold std_desc; by rewrite bool_decide_false).
  rewrite std_set; [done|done|]. intros j Hj. split; [by intros [= ->]|done].
Qed.

Lemma wf_with_descs lk lk' s ess : wf lk s ess → wf lk' (with_descs s (std_descs lk')) ess.
Proof. intros [A B C D E F G I]. split; cbn; done. Qed.

(** What the assertions on blocks check *)
Lemma wp_block_to_arena t lk a x k p c Q s :
  descs s = std_descs lk → arenas s !! a = Some x → magic x = ARENA_MAGIC → a = k * 4096 → 0 < k →
  (∀ i, a_desc x = Some i → (i < 7)%nat) → is_block a x p c → Q (a, x) s → wp t (block_to_arena p) Q s.
Proof.
  intros Hd Ha Hm Ek Hk Hi Hb HQ. unfold block_to_arena.
  assert (pg_round_down p = a ∧ match a_desc x with
            | Some i => ∃ j, 0 ≤ j < bpa i ∧ pg_ofs p = 12 + j * bs i | None => pg_ofs p = 12 end) as [-> Ho].
  { unfold is_block in Hb. destruct (a_desc x) as [i|] eqn:Ed.
    - destruct Hb as (j & Hj & -> & _). destruct (blk_page a i j k (Hi i eq_refl) Ek Hj) as (E1 & E2 & _). eauto.
    - destruct Hb as [-> _]. rewrite pg_round_down_div, pg_ofs_mod, Ek, Z.add_comm, Z.div_add, Z.mod_add by lia. done. }
  apply wp_bind, wp_check; [apply bool_decide_eq_true; lia|]. apply wp_bind. unfold get_arena.
  apply wp_bind, wp_get. eapply wp_assume_some; [done|].
  apply wp_bind, wp_check; [by apply bool_decide_eq_true|]. apply wp_bind.
  destruct (a_desc x) as [i|] eqn:Ed.
  - destruct Ho as (j & Hj & Ho). apply wp_bind. specialize (Hi i eq_refl). eapply wp_get_desc; [done|done|].
    apply wp_check; [|by apply wp_ret]. apply bool_decide_eq_true. rewrite Ho. cbn [block_size std_desc].
    destruct (bs_bpa i Hi) as (H1 & H2 & H3). unfold ARENA_SIZE, wrap_u32.
    replace (12 + j * bs i - 12) with (j * bs i) by lia. rewrite (Z.mod_small (j * bs i)) by nia.
    apply Z.mod_mul. lia.
  - apply wp_check; [by apply bool_decide_eq_true|]. by apply wp_ret.
Qed.

Lemma wp_arena_to_block t lk a x i (j : nat) Q s :
  descs s = std_descs lk → arenas s !! a = Some x → magic x = ARENA_MAGIC → a_desc x = Some i → (i < 7)%nat →
  Z.of_nat j < bpa i → Q (blk a i (Z.of_nat j)) s → wp t (arena_to_block a j) Q s.
Proof.
  intros Hd Ha Hm Ed Hi Hj HQ. unfold arena_to_block, get_arena. apply wp_bind. apply wp_bind, wp_get.
  eapply wp_assume_some; [done|]. apply wp_bind, wp_check; [by apply bool_decide_eq_true|].
  apply wp_bind. eapply wp_assume_some; [done|]. apply wp_bind. eapply wp_get_desc; [done|done|].
  apply wp_bind, wp_check; [by apply bool_decide_eq_true|]. apply wp_ret. exact HQ.
Qed.

(** The page allocator *)

(** No arena reaches into the [n] pages from [k] on. *)
Definition clear_of s (k n : Z) : Prop :=
  ∀ a x z, arenas s !! a = Some x → a ≤ z < a + npages x * 4096 → ¬ k * 4096 ≤ z < (k + n) * 4096.

(** The contents of the blocks in use are kept. *)
Definition kept s ess s' : Prop :=
  ∀ p c z, live s ess p c → p ≤ z < p + c → contents s' !! z = contents s !! z.

Lemma free_clear lk s ess k n :
  wf lk s ess → (∀ j, k ≤ j < k + n → pg_free (pages s) j) → clear_of s k n.
Proof.
  intros Hw Hf a x z Ha Hz Hk. destruct (arena_at _ _ _ _ _ Hw Ha) as (k' & -> & _ & _ & _ & Hu).
  apply (pg_excl (pages s) (z / 4096)).
  - apply Hf. split; [apply Z.div_le_lower_bound|apply Z.div_lt_upper_bound]; lia.
  - apply Hu. split; [apply Z.div_le_lower_bound|apply Z.div_lt_upper_bound]; lia.
Qed.

Lemma wf_change_pages lk s ess q (cs : gmap Z Z) :
  wf lk s ess → pg_wf q → (∀ k, pg_used (pages s) k → pg_used q k) →
  (∀ k, pg_free q k ∨ pg_used q k → pg_free (pages s) k ∨ pg_used (pages s) k) →
  wf lk (MState (arenas s) (links s) (descs s) q cs) ess.
Proof.
  intros [A B C D E F G I] Hq Hu Hs. split; cbn; [done|done|done|done| | |done|done].
  - intros i e Hi He. destruct (E i e Hi He) as [N1 N2].
    split; intros Hx; destruct (Hs (Z.pos e / 4096)); tauto.
  - intros a x Ha. destruct (F a x Ha) as [M1 (k & M2 & M3 & M4 & M5 & M6) M7]. split; [done| |done].
    exists k. split_and!; auto.
Qed.

Lemma wp_palloc_get t lk n Q s ess :
  wf lk s ess → 0 ≤ n < 2 ^ 20 →
  (∀ s', wf lk s' ess → arenas s' = arenas s → kept s ess s' → Q None s') →
  (∀ s' k, wf lk s' ess → arenas s' = arenas s → links s' = links s → kept s ess s' →
     0 < n → 0 < k → k + n ≤ 2 ^ 20 →
     clear_of s k n → (∀ j, k ≤ j < k + n → pg_used (pages s') j ∧ ¬ pg_used (pages s) j) → Q (Some (k * 4096)) s') →
  wp t (palloc_get n) Q s.
Proof.
  intros Hw Hn HQn HQs. unfold palloc_get. apply wp_bind, wp_get. apply wp_bind.
  destruct (page_get_ok n (pages s) (wf_pages _ _ _ Hw) Hn) as (r & q & Hg & Hq & Hr).
  eapply wp_assume_some; [exact Hg|]. apply wp_bind, wp_modify. destruct r as [a|].
  - destruct Hr as (Hn0 & k & -> & Hk & Hkn & Hf & Hrel). apply wp_bind, wp_modify, wp_ret. cbn.
    pose proof (free_clear _ _ _ _ _ Hw Hf) as Hcl.
    apply HQs; [|done|done| |done|done|done|done|].
    + apply (wf_change_pages lk s ess); [done|done| |].
      * intros j Hj. apply Hrel. by left.
      * intros j. destruct (Hrel j) as [-> ->]. intros [[? _]|[?|Hj]]; [by left|by right|]. left. by apply Hf.
    + intros p c z (a & x & Ha & Hb & _) Hz. cbn. rewrite fill_lookup, decide_False; [done|].
      destruct (block_range _ _ _ _ _ _ _ Hw Ha Hb) as (_ & _ & H1' & H2' & _).
      intros Hx. apply (Hcl a x z Ha); unfold PAGE in *; lia.
    + intros j Hj. split; [apply Hrel; by right|]. intros Hu. by eapply (pg_excl (pages s) j); [apply Hf|].
  - apply wp_ret. apply HQn; [|done|by intros ?].
    apply (wf_change_pages lk s ess); [done|done| |]; intros j; destruct (Hr j); tauto.
Qed.

(** ** Making an arena *)

Definition with_arena s a x : mstate P := MState (<[a := x]> (arenas s)) (links s) (descs s) (pages s) (contents s).

Lemma clear_lookup s k n : 0 < n → 0 < k → clear_of s k n →
  (∀ a x, arenas s !! a = Some x → 0 < npages x) → arenas s !! (k * 4096) = None.
Proof.
  intros Hn Hk Hc Hp. destruct (arenas s !! (k * 4096)) as [x|] eqn:E; [|done].
  specialize (Hp _ _ E). destruct (Hc _ _ (k * 4096) E); lia.
Qed.

Lemma wf_add_big s ess k n :
  wf None s ess → 0 < n → 0 < k → k + n ≤ 2 ^ 20 → clear_of s k n →
  (∀ j, k ≤ j < k + n → pg_used (pages s) j) →
  wf None (with_arena s (k * 4096) (Arena ARENA_MAGIC None n)) ess.
Proof.
  intros Hw Hn Hk Hkn Hc Hu. pose proof Hw as [A B C D E F G I].
  assert (arenas s !! (k * 4096) = None) as Hnew.
  { apply (clear_lookup s k n); [done|done|done|]. intros a x Ha. destruct (arena_at _ _ _ _ _ Hw Ha) as (? & _ & _ & ? & _). done. }
  split; cbn; [done|done|done|done|done| | |].
  - intros a x [[<- <-]|[_ Ha]]%lookup_insert_Some; [|by apply F]. split; [done| |done].
    exists k. by change (npages (Arena ARENA_MAGIC None n)) with n.
  - intros a x a' x' z [[<- <-]|[Hne Ha]]%lookup_insert_Some [[<- <-]|[Hne' Ha']]%lookup_insert_Some Hz Hz'; [done|..].
    + destruct (Hc a' x' z Ha' Hz'). unfold npages in Hz. cbn in Hz. lia.
    + destruct (Hc a x z Ha Hz). unfold npages in Hz'. cbn in Hz'. lia.
    + by eapply G.
  - intros i es e He Hin. destruct (I i es e He Hin) as (a & x & j & Ha & Hx). exists a, x, j.
    split; [|done]. rewrite lookup_insert_ne by congruence. done.
Qed.

Lemma fam_push_back t F i l es e Q h :
  fam h F → F !! i = Some (l, es) → is_Some (h !! e) → (∀ j q, F !! j = Some q → e ∉ nodes_of q) →
  (∀ h', fam h' (<[i := (l, es ++ [e])]> F) → Q tt h') →
  wp t (list_push_back l e) Q h.
Proof.
  intros Hf Hi He Hn HQ. pose proof (fam_dlist _ _ Hf _ _ _ Hi) as Hd.
  apply (wp_push_back _ l es); [done|by apply (Hn i (l, es))|done|]. intros h' Hd' Hs. apply HQ.
  eapply fam_set; [done|done|done|done|]. intros z j q Hz Hj Hq.
  assert (z = e ∨ z ∈ nodes l es) as [->|Hz'].
  { rewrite elem_of_nodes. rewrite elem_of_cons, elem_of_nodes, elem_of_app, list_elem_of_singleton in Hz. tauto. }
  - by destruct (Hn j q Hj).
  - by eapply (fam_disjoint _ _ Hf j i q (l, es) z).
Qed.

Definition blocks a (i : nat) (n : nat) : list eptr := (λ j, Z.to_pos (blk a i (Z.of_nat j))) <$> seq 0 n.

Lemma blocks_S a i n : blocks a i (S n) = blocks a i n ++ [Z.to_pos (blk a i (Z.of_nat n))].
Proof. unfold blocks. by rewrite seq_S, fmap_app. Qed.

Lemma elem_of_blocks a i n e :
  e ∈ blocks a i n ↔ ∃ j : nat, (j < n)%nat ∧ e = Z.to_pos (blk a i (Z.of_nat j)).
Proof.
  unfold blocks. rewrite list_elem_of_fmap. split.
  - intros (j & -> & Hj%elem_of_seq). exists j. split; [lia|done].
  - intros (j & Hj & ->). exists j. split; [done|]. apply elem_of_seq. lia.
Qed.

Lemma wp_add_blocks t lk a k x i ess Q s :
  descs s = std_descs lk → arenas s !! a = Some x → magic x = ARENA_MAGIC → a_desc x = Some i → (i < 7)%nat →
  a = k * 4096 → 0 < k → length ess = 7%nat → ess !! i = Some [] → fam (links s) (lists ess) →
  (∀ j m q, 0 ≤ j < bpa i → lists ess !! m = Some q → Z.to_pos (blk a i j) ∉ nodes_of q) →
  (∀ h' cs, fam h' (lists (<[i := blocks a i (Z.to_nat (bpa i))]> ess)) →
     (∀ z, ¬ a ≤ z < a + 4096 → cs !! z = contents s !! z) →
     Q tt (MState (arenas s) h' (descs s) (pages s) cs)) →
  wp t (add_blocks a (desc_list i) 0 (Z.to_nat (bpa i))) Q s.
Proof.
  intros Hd Ha Hm Ed Hi Ek Hk Hl He Hf Hn HQ.
  assert (∀ n j h cs, (j + n = Z.to_nat (bpa i))%nat → fam h (lists (<[i := blocks a i j]> ess)) →
    (∀ z, ¬ a ≤ z < a + 4096 → cs !! z = contents s !! z) →
    wp t (add_blocks a (desc_list i) j n) Q (MState (arenas s) h (descs s) (pages s) cs)) as Hgo.
  { induction n as [|n IH]; intros j h cs Hj Hfh Hcs; cbn [add_blocks].
    { apply wp_ret. replace j with (Z.to_nat (bpa i)) in Hfh by lia. by apply HQ. }
    assert (0 ≤ Z.of_nat j < bpa i) as Hjb by lia.
    apply wp_bind. eapply wp_arena_to_block; [done|done|done|done|done|lia|].
    set (b := blk a i (Z.of_nat j)). destruct (blk_page a i (Z.of_nat j) k Hi Ek Hjb) as (_ & _ & Hb1 & Hb2).
    destruct (bs_bpa i Hi) as (Hbs & _). assert (0 < b) by (subst b; lia).
    assert (∀ m q, lists (<[i := blocks a i j]> ess) !! m = Some q → Z.to_pos b ∉ nodes_of q) as Hnb.
    { intros m q Hq Hin. rewrite <- lists_insert_list in Hq by done.
      apply list_lookup_insert_Some in Hq as [(<- & <- & _)|(_ & Hq)]; [|by eapply (Hn (Z.of_nat j) m q)].
      apply elem_of_nodes in Hin. cbn in Hin.
      assert (lists ess !! i = Some (desc_list i, [])) as Hi0 by (by apply lists_lookup).
      assert (Z.to_pos b ∉ nodes_of (desc_list i, [])) as Hnn by (by apply (Hn (Z.of_nat j) i)).
      unfold nodes_of in Hnn. rewrite elem_of_nodes in Hnn. cbn in Hnn. destruct Hin as [?|[?|Hin]]; [tauto|tauto|].
      apply elem_of_blocks in Hin as (j' & Hj' & E).
      destruct (blk_page a i (Z.of_nat j') k Hi Ek ltac:(lia)) as (_ & _ & Hb1' & _).
      assert (b = blk a i (Z.of_nat j')) as E' by lia. apply blk_inj in E'; [lia|done]. }
    apply wp_bind. unfold as_block. apply wp_bind, wp_on_links, wp_modify. apply wp_bind, wp_modify, wp_ret.
    apply wp_bind, wp_on_links. cbn [arenas links descs pages contents].
    assert (lists (<[i := blocks a i j]> ess) !! i = Some (desc_list i, blocks a i j)) as Hii.
    { apply lists_lookup; [by rewrite length_insert|]. apply list_lookup_insert_eq. lia. }
    eapply (fam_push_back _ (lists (<[i := blocks a i j]> ess)) i); [|exact Hii| |exact Hnb|].
    - eapply fam_frame; [exact Hfh|]. intros m q z Hq Hz. rewrite lookup_insert_ne; [done|].
      intros <-. by eapply Hnb.
    - rewrite lookup_insert_eq. done.
    - intros h' Hf'. rewrite <- blocks_S in Hf'. rewrite lists_insert_list in Hf' by (rewrite ?length_insert; done).
      rewrite list_insert_insert_eq in Hf'. apply IH; [lia|done|].
      intros z Hz. rewrite (fill_lookup b 8), decide_False by lia. by apply Hcs. }
  specialize (Hgo (Z.to_nat (bpa i)) 0%nat (links s) (contents s)).
  destruct s; cbn in *. apply Hgo; [done| |done]. by rewrite list_insert_id.
Qed.

(** ** Changing a free list *)

(** The arena at [a], new or one of the descriptor's, gets the value [x'], and the
    free list of the descriptor becomes [es']. *)
Lemma wf_relist lk s ess i es es' a k x' h' (cs : gmap Z Z) :
  wf lk s ess → ess !! i = Some es → (i < 7)%nat → fam h' (lists (<[i := es']> ess)) →
  magic x' = ARENA_MAGIC → a_desc x' = Some i → a = k * 4096 → 0 < k → k + 1 ≤ 2 ^ 20 → pg_used (pages s) k →
  (clear_of s k 1 ∨ ∃ x, arenas s !! a = Some x ∧ a_desc x = Some i) →
  free_cnt x' = count a es' → (∀ a', a' ≠ a → count a' es' = count a' es) →
  (∀ e, e ∈ es' → e ∈ es ∨ ∃ j, 0 ≤ j < bpa i ∧ Z.pos e = blk a i j) →
  wf lk (MState (<[a := x']> (arenas s)) h' (descs s) (pages s) cs) (<[i := es']> ess).
Proof.
  intros Hw He Hi Hf Hm Hd Ek Hk Hk1 Hu Hold Hcnt Hother Hes. pose proof Hw as [A B C D E F G I].
  assert (npages x' = 1) as Hn by (unfold npages; by rewrite Hd).
  assert (∀ a' x z, a' ≠ a → arenas s !! a' = Some x → a' ≤ z < a' + npages x * 4096 → ¬ a ≤ z < a + 4096) as Hsep.
  { intros a' x z Hne Ha' Hz Hz'. destruct Hold as [Hc|(x0 & Hx0 & Hd0)].
    - apply (Hc a' x z Ha' Hz). lia.
    - apply Hne. apply (G a' x a x0 z); [done|done|done|]. unfold npages. rewrite Hd0. lia. }
  split; cbn.
  - done.
  - by rewrite length_insert.
  - done.
  - done.
  - done.
  - intros a' x [[<- <-]|[Hne Ha]]%lookup_insert_Some.
    + split; [done| |].
      * exists k. rewrite Hn. split_and!; [done|done|lia|done|]. intros j Hj. by replace j with k by lia.
      * intros i' E'. rewrite Hd in E'. injection E' as <-. split; [done|].
        intros es0 He0. rewrite list_lookup_insert_eq in He0 by lia. by injection He0 as <-.
    + destruct (F a' x Ha) as [M1 M2 M3]. split; [done|done|]. intros i' E'. destruct (M3 i' E') as [Hi' Hc'].
      split; [done|]. intros es0 [(<- & <- & _)|(_ & He0)]%list_lookup_insert_Some; [|by apply Hc'].
      rewrite Hother by congruence. by apply Hc'.
  - intros a1 x1 a2 x2 z [[<- <-]|[Hne1 Ha1]]%lookup_insert_Some [[<- <-]|[Hne2 Ha2]]%lookup_insert_Some Hz1 Hz2.
    + done.
    + destruct (Hsep a2 x2 z); [congruence|done|done|lia].
    + destruct (Hsep a1 x1 z); [congruence|done|done|lia].
    + by eapply G.
  - assert (∀ i0 es0 e, ess !! i0 = Some es0 → e ∈ es0 → ∃ a1 x1 j, <[a := x']> (arenas s) !! a1 = Some x1 ∧
      a_desc x1 = Some i0 ∧ 0 ≤ j < bpa i0 ∧ Z.pos e = blk a1 i0 j) as Hold'.
    { intros i0 es0 e He0 Hin. destruct (I i0 es0 e He0 Hin) as (a1 & x1 & j & Ha1 & Hd1 & Hj & E1).
      destruct (decide (a1 = a)) as [->|Hne]; [|exists a1, x1, j; by rewrite lookup_insert_ne].
      destruct Hold as [Hc|(x0 & Hx0 & Hd0)].
      - exfalso. apply (Hc a x1 a Ha1); [unfold npages; rewrite Hd1|]; lia.
      - exists a, x', j. rewrite lookup_insert_eq. rewrite Hx0 in Ha1. injection Ha1 as <-. rewrite Hd0 in Hd1.
        injection Hd1 as <-. done. }
    intros i' es0 e [(<- & <- & _)|(_ & He0)]%list_lookup_insert_Some Hin; [|by eapply Hold'].
    destruct (Hes e Hin) as [Hin'|(j & Hj & Ej)]; [by eapply Hold'|].
    exists a, x', j. by rewrite lookup_insert_eq.
Qed.

(** What is listed after a change *)
Lemma listed_insert ess i es' m p :
  (i < length ess)%nat → listed (<[i := es']> ess) m p ↔ if decide (m = i) then Z.to_pos p ∈ es' else listed ess m p.
Proof.
  intros Hi. unfold listed. case_decide as Hm.
  - subst m. rewrite list_lookup_insert_eq by done. split; [intros (? & [= <-] & ?); done|eauto].
  - by rewrite list_lookup_insert_ne.
Qed.

(** An arena of the same descriptor has the same blocks. *)
Lemma is_block_desc a x x' p c i : a_desc x = Some i → a_desc x' = Some i → is_block a x p c ↔ is_block a x' p c.
Proof. intros E1 E2. unfold is_block. by rewrite E1, E2. Qed.

(** The blocks in use when one arena of descriptor [i] and its free list change *)
Lemma live_relist lk s ess i es es' a x x' h' (cs : gmap Z Z) p c :
  wf lk s ess → ess !! i = Some es → arenas s !! a = Some x → a_desc x = Some i → a_desc x' = Some i →
  live (MState (<[a := x']> (arenas s)) h' (descs s) (pages s) cs) (<[i := es']> ess) p c ↔
  ∃ a1 x1, arenas s !! a1 = Some x1 ∧ is_block a1 x1 p c ∧
    ∀ m, a_desc x1 = Some m → if decide (m = i) then Z.to_pos p ∉ es' else ¬ listed ess m p.
Proof.
  intros Hw He Ha Hd Hd'. assert (i < length ess)%nat as Hi by (by eapply lookup_lt_Some). unfold live. cbn. split.
  - intros (a1 & x1 & [[<- <-]|[Hne Ha1]]%lookup_insert_Some & Hb & Hl).
    + exists a, x. split_and!; [done|by rewrite (is_block_desc a x x' p c i)|]. intros m Em. rewrite Hd in Em. injection Em as <-.
      specialize (Hl i Hd'). rewrite listed_insert in Hl by done. by case_decide.
    + exists a1, x1. split_and!; [done|done|]. intros m Em. specialize (Hl m Em).
      rewrite listed_insert in Hl by done. by case_decide.
  - intros (a1 & x1 & Ha1 & Hb & Hl). destruct (decide (a1 = a)) as [->|Hne].
    + rewrite Ha in Ha1. injection Ha1 as <-. exists a, x'. rewrite lookup_insert_eq.
      split_and!; [done|by rewrite <- (is_block_desc a x x' p c i)|]. intros m Em. rewrite Hd' in Em. injection Em as <-.
      rewrite listed_insert by done. specialize (Hl i Hd). by case_decide.
    + exists a1, x1. rewrite lookup_insert_ne by done. split_and!; [done|done|]. intros m Em.
      rewrite listed_insert by done. specialize (Hl m Em). by case_decide.
Qed.

(** ** Counting free blocks *)

Lemma count_cons a e es : count a (e :: es) = count a es + if decide (pg_round_down (Z.pos e) = a) then 1 else 0.
Proof. unfold count. rewrite filter_cons. case_decide; cbn [length]; lia. Qed.

Lemma count_nonneg a es : 0 ≤ count a es.
Proof. unfold count. lia. Qed.

Lemma free_in_blocks lk s ess i es e a :
  wf lk s ess → ess !! i = Some es → e ∈ es → pg_round_down (Z.pos e) = a → e ∈ blocks a i (Z.to_nat (bpa i)).
Proof.
  intros Hw He Hin Hp. destruct (free_block _ _ _ _ _ _ Hw He Hin) as (a' & x & j & Ha & Hd & Hi & Hj & Ee & Ep).
  rewrite Ep in Hp. subst a'. apply elem_of_blocks. exists (Z.to_nat j). split; [lia|].
  rewrite Z2Nat.id by lia. rewrite <- Ee. done.
Qed.

Lemma free_nodup lk s ess i es : wf lk s ess → ess !! i = Some es → NoDup es.
Proof.
  intros Hw He. eapply es_nodup, (fam_dlist _ _ (wf_fam _ _ _ Hw) i (desc_list i)).
  apply lists_lookup; [apply Hw|done].
Qed.

Lemma count_le lk s ess i es a :
  wf lk s ess → (i < 7)%nat → ess !! i = Some es → count a es ≤ bpa i.
Proof.
  intros Hw Hi He. unfold count. destruct (bs_bpa i Hi) as (_ & Hb & _).
  assert (length (filter (λ e, pg_round_down (Z.pos e) = a) es) ≤ length (blocks a i (Z.to_nat (bpa i))))%nat as Hl.
  { apply submseteq_length, NoDup_submseteq; [apply NoDup_filter; by eapply free_nodup|].
    intros e [Hp Hin]%list_elem_of_filter. by eapply free_in_blocks. }
  unfold blocks in Hl. rewrite length_fmap, length_seq in Hl. lia.
Qed.

(** ** Taking a free block *)

(** All arenas but the one at [a] have a block in use. *)
Definition trim_but s a : Prop :=
  ∀ a' x i, a' ≠ a → arenas s !! a' = Some x → a_desc x = Some i → free_cnt x < bpa i.

Lemma live_arenas s s' ess p c : arenas s = arenas s' → live s ess p c ↔ live s' ess p c.
Proof. intros E. unfold live. by rewrite E. Qed.

Lemma not_live_listed lk s ess i es e :
  wf lk s ess → ess !! i = Some es → e ∈ es → ∀ c, ¬ live s ess (Z.pos e) c.
Proof.
  intros Hw He Hin c (a' & x' & Ha' & Hb' & Hl').
  destruct (free_block _ _ _ _ _ e Hw He Hin) as (a & x & j & Ha & Hd & _ & _ & _ & Ep).
  destruct (block_range _ _ _ _ _ _ _ Hw Ha' Hb') as (_ & _ & _ & _ & E').
  assert (a' = a) as -> by congruence. rewrite Ha in Ha'. injection Ha' as <-. apply (Hl' i Hd). by exists es.
Qed.

(** The blocks of an arena at the address of [e] *)
Lemma same_block lk s ess a x i j e a1 x1 c :
  wf lk s ess → arenas s !! a = Some x → a_desc x = Some i → 0 ≤ j < bpa i → Z.pos e = blk a i j →
  arenas s !! a1 = Some x1 → is_block a1 x1 (Z.pos e) c → a1 = a ∧ x1 = x ∧ c = bs i.
Proof.
  intros Hw Ha Hd Hj Ee Ha1 Hb1. destruct (block_range _ _ _ _ _ _ _ Hw Ha1 Hb1) as (_ & _ & _ & _ & E1).
  destruct (block_range lk s ess a x (Z.pos e) (bs i) Hw Ha) as (_ & _ & _ & _ & E2).
  { unfold is_block. rewrite Hd. by exists j. }
  assert (a1 = a) as -> by congruence. rewrite Ha in Ha1. injection Ha1 as <-.
  unfold is_block in Hb1. rewrite Hd in Hb1. by destruct Hb1 as (_ & _ & _ & ->).
Qed.

Lemma live_take lk s ess i e es a x x' j h' (cs : gmap Z Z) p c :
  wf lk s ess → ess !! i = Some (e :: es) → arenas s !! a = Some x → a_desc x = Some i → a_desc x' = Some i →
  0 ≤ j < bpa i → Z.pos e = blk a i j →
  live (MState (<[a := x']> (arenas s)) h' (descs s) (pages s) cs) (<[i := es]> ess) p c ↔
  live s ess p c ∨ p = Z.pos e ∧ c = bs i.
Proof.
  intros Hw He Ha Hd Hd' Hj Ee. pose proof (free_nodup _ _ _ _ _ Hw He) as [Hne _]%NoDup_cons.
  rewrite (live_relist lk s ess i (e :: es) es a x x') by done. split.
  - intros (a1 & x1 & Ha1 & Hb1 & Hl1). destruct (decide (p = Z.pos e)) as [->|Hpe].
    + right. split; [done|]. by destruct (same_block _ _ _ _ _ _ _ _ _ _ _ Hw Ha Hd Hj Ee Ha1 Hb1) as (_ & _ & ->).
    + left. exists a1, x1. split_and!; [done|done|]. intros m Em (es0 & He0 & Hin).
      specialize (Hl1 m Em). case_decide as Hmi; [|apply Hl1; by exists es0].
      subst m. rewrite He in He0. injection He0 as <-. apply elem_of_cons in Hin as [E0|Hin]; [|done].
      destruct (block_range _ _ _ _ _ _ _ Hw Ha1 Hb1) as (? & _). lia.
  - intros [(a1 & x1 & Ha1 & Hb1 & Hl1)|[-> ->]].
    + exists a1, x1. split_and!; [done|done|]. intros m Em. case_decide as Hmi; [|by apply Hl1].
      subst m. intros Hin. apply (Hl1 i Em). exists (e :: es). split; [done|]. by right.
    + exists a, x. split_and!; [done|unfold is_block; rewrite Hd; by exists j|]. intros m Em.
      rewrite Hd in Em. injection Em as <-. by rewrite decide_True.
Qed.

Lemma wp_take t i e es ess Q s :
  wf (Some i) s ess → (i < 7)%nat → ess !! i = Some (e :: es) → trim_but s (pg_round_down (Z.pos e)) →
  (∀ s', wf None s' (<[i := es]> ess) → trim s' → contents s' = contents s →
     (∀ c, ¬ live s ess (Z.pos e) c) →
     (∀ p c, live s' (<[i := es]> ess) p c ↔ live s ess p c ∨ p = Z.pos e ∧ c = bs i) →
     Q (Some (Z.pos e)) s') →
  wp t (e ← on_links (list_pop_front (desc_list i));
        '(a, x) ← block_to_arena (Z.pos e);
        set_arena a (Arena (magic x) (a_desc x) (wrap_u32 (free_cnt x - 1)));;
        desc_unlock i;;
        mret (Some (Z.pos e))) Q s.
Proof.
  intros Hw Hi He Htr HQ. destruct (free_block _ _ _ _ _ e Hw He) as (a & x & j & Ha & Hd & _ & Hj & Ee & Ep); [by left|].
  rewrite Ep in Htr. pose proof (wf_arena _ _ _ Hw _ _ Ha) as [Hm (k & Ek & Hk & _ & Hk1 & Hu) Hsm].
  unfold npages in Hk1, Hu. rewrite Hd in Hk1, Hu. destruct (Hsm i Hd) as [_ Hcnt]. specialize (Hcnt _ He).
  assert (lists ess !! i = Some (desc_list i, [] ++ e :: es)) as Hl by (apply lists_lookup; [apply Hw|done]).
  apply wp_bind, wp_on_links. unfold list_pop_front. apply wp_bind.
  eapply wp_list_front; [apply (fam_dlist _ _ (wf_fam _ _ _ Hw) _ _ _ Hl)|]. apply wp_bind.
  eapply fam_remove; [apply Hw|exact Hl|]. intros h' Hf' _. apply wp_ret.
  cbn [app] in Hf'. rewrite lists_insert_list in Hf' by (apply Hw || done).
  apply wp_bind. eapply (wp_block_to_arena _ (Some i) a x k (Z.pos e) (bs i)); cbn [descs arenas];
    [apply Hw|done|done|done|done|intros i' E'; rewrite Hd in E'; by injection E' as <-| |].
  { unfold is_block. rewrite Hd. by exists j. }
  apply wp_bind, wp_modify. cbn [arenas links descs pages contents].
  set (x' := Arena _ _ _). set (s1 := MState _ _ _ _ _).
  assert (free_cnt x' = count a es) as Hcnt'.
  { subst x'. cbn. rewrite Hcnt, count_cons, decide_True by done. pose proof (count_nonneg a es).
    pose proof (count_le _ _ _ _ _ a Hw Hi He) as Hle. rewrite count_cons, decide_True in Hle by done.
    destruct (bs_bpa i Hi) as (_ & ? & _). unfold wrap_u32. rewrite Z.mod_small; lia. }
  assert (wf (Some i) s1 (<[i := es]> ess)) as Hw1.
  { apply (wf_relist _ s ess i (e :: es) es a k x'); [done|done|done|done|done|done|done|done|done| | |done| |].
    - apply Hu. lia.
    - right. by exists x.
    - intros a' Hne. rewrite count_cons, decide_False by congruence. lia.
    - intros e' Hin. left. by right. }
  apply wp_bind. apply wp_desc_unlock; [apply Hw|done|]. apply wp_ret. apply HQ.
  - by apply (wf_with_descs (Some i)).
  - intros a' x0 i0 Hx0 E0. cbn in Hx0. apply lookup_insert_Some in Hx0 as [[<- <-]|[Hne Ha']]; [|by eapply Htr].
    cbn in E0. rewrite Hd in E0. injection E0 as <-. rewrite Hcnt'.
    pose proof (count_le _ _ _ _ _ a Hw Hi He) as Hle. rewrite count_cons, decide_True in Hle by done. lia.
  - done.
  - eapply not_live_listed; [done|done|by left].
  - intros p c. rewrite (live_arenas _ s1) by done. by apply (live_take (Some i) s ess i e es a x x' j).
Qed.

(** ** [malloc] *)

Lemma find_desc_spec lk size :
  let i := find_desc size (std_descs lk) in
  if decide (size ≤ 1024) then (i < 7)%nat ∧ size ≤ bs i else i = 7%nat.
Proof.
  unfold std_descs. cbn [seq fmap list_fmap find_desc std_desc block_size].
  change (bs 0) with 16; change (bs 1) with 32; change (bs 2) with 64; change (bs 3) with 128;
    change (bs 4) with 256; change (bs 5) with 512; change (bs 6) with 1024; cbn zeta.
  repeat (case_bool_decide; [rewrite decide_True by lia; split; [lia|assumption]|]).
  by rewrite decide_False by lia.
Qed.

Lemma filter_keep (R : eptr → Prop) `{∀ e, Decision (R e)} es : Forall R es → filter R es = es.
Proof. induction 1 as [|e es He _ IH]; [done|]. by rewrite filter_cons_True, IH. Qed.

(** A new arena, all of whose blocks are free *)
Lemma count_blocks a i k :
  (i < 7)%nat → a = k * 4096 → 0 < k → count a (blocks a i (Z.to_nat (bpa i))) = bpa i ∧
    ∀ a', a' ≠ a → count a' (blocks a i (Z.to_nat (bpa i))) = 0.
Proof.
  intros Hi Ek Hk. destruct (bs_bpa i Hi) as (_ & Hb & _).
  assert (∀ e, e ∈ blocks a i (Z.to_nat (bpa i)) → pg_round_down (Z.pos e) = a) as Hp.
  { intros e (j & Hj & ->)%elem_of_blocks. destruct (blk_page a i (Z.of_nat j) k Hi Ek ltac:(lia)) as (E & _ & H1' & _).
    rewrite Z2Pos.id by lia. done. }
  split.
  - unfold count. rewrite filter_keep by (by apply Forall_forall). unfold blocks. rewrite length_fmap, length_seq. lia.
  - intros a' Ha'. unfold count. rewrite filter_none; [done|]. apply Forall_forall.
    intros e He E. apply Ha'. rewrite <- E. by apply Hp.
Qed.

Lemma live_new lk s ess i es' a k h' (cs : gmap Z Z) p c :
  wf lk s ess → ess !! i = Some [] → arenas s !! a = None → (i < 7)%nat → a = k * 4096 → 0 < k →
  (∀ e, e ∈ es' → ∃ j, 0 ≤ j < bpa i ∧ Z.pos e = blk a i j) →
  (∀ j, 0 ≤ j < bpa i → Z.to_pos (blk a i j) ∈ es') →
  live (MState (<[a := Arena ARENA_MAGIC (Some i) (bpa i)]> (arenas s)) h' (descs s) (pages s) cs)
    (<[i := es']> ess) p c ↔ live s ess p c.
Proof.
  intros Hw He Hnew Hi Ek Hk Hin Hall. assert (i < length ess)%nat as Hlt by (by eapply lookup_lt_Some).
  assert (∀ a1 x1 m, arenas s !! a1 = Some x1 → is_block a1 x1 p c →
            listed (<[i := es']> ess) m p ↔ listed ess m p) as Hsame.
  { intros a1 x1 m Ha1 Hb1. rewrite listed_insert by done. case_decide as Hm; [|done]. subst m.
    destruct (block_range _ _ _ _ _ _ _ Hw Ha1 Hb1) as (Hp & _ & _ & _ & E1). split.
    - intros (j & Hj & Ej)%Hin. destruct (blk_page a i j k Hi Ek Hj) as (E2 & _). exfalso.
      rewrite Z2Pos.id in Ej by done. congruence.
    - intros (es0 & He0 & Hx). rewrite He in He0. injection He0 as <-. by apply elem_of_nil in Hx. }
  unfold live. cbn. split.
  - intros (a1 & x1 & [[<- <-]|[Hne Ha1]]%lookup_insert_Some & Hb & Hl).
    + exfalso. apply (Hl i eq_refl). rewrite listed_insert, decide_True by done.
      destruct Hb as (j & Hj & -> & _). by apply Hall.
    + exists a1, x1. split_and!; [done|done|]. intros m Em. by rewrite <- (Hsame a1 x1 m) by done; apply Hl.
  - intros (a1 & x1 & Ha1 & Hb & Hl). exists a1, x1. rewrite lookup_insert_ne by congruence.
    split_and!; [done|done|]. intros m Em. rewrite (Hsame a1 x1 m) by done. by apply Hl.
Qed.

Lemma wp_new_arena t i ess Q s :
  wf (Some i) s ess → trim s → (i < 7)%nat → ess !! i = Some [] →
  (∀ s', wf (Some i) s' ess → arenas s' = arenas s → kept s ess s' → Q false s') →
  (∀ s' e es, wf (Some i) s' (<[i := e :: es]> ess) → trim_but s' (pg_round_down (Z.pos e)) → kept s ess s' →
     (∀ p c, live s' (<[i := e :: es]> ess) p c ↔ live s ess p c) → Q true s') →
  wp t (r ← palloc_get 1;
        match r with
        | None => mret false
        | Some a =>
            set_arena a (Arena ARENA_MAGIC (Some i) (bpa i));;
            add_blocks a (desc_list i) 0 (Z.to_nat (bpa i));;
            mret true
        end) Q s.
Proof.
  intros Hw Htr Hi He HQf HQt. apply wp_bind. eapply (wp_palloc_get _ (Some i) 1); [exact Hw|lia| |].
  { intros s' Hw' Ha Hk. apply wp_ret. by apply HQf. }
  intros s1 k Hw1 Ea El Hkept _ Hk Hk1 Hcl Hu. set (a := k * 4096). destruct (Hu k ltac:(lia)) as [Hu1 Hu0].
  assert (clear_of s1 k 1) as Hcl1 by (unfold clear_of; by rewrite Ea).
  assert (arenas s1 !! a = None) as Hnew.
  { apply (clear_lookup s1 k 1); [lia|done|done|].
    intros a' x Hx. by destruct (arena_at _ _ _ _ _ Hw1 Hx) as (? & _ & _ & ? & _). }
  apply wp_bind, wp_modify. apply wp_bind.
  apply (wp_add_blocks _ (Some i) a k (Arena ARENA_MAGIC (Some i) (bpa i)) i ess); cbn [descs arenas links contents];
    [apply Hw1|by rewrite lookup_insert_eq|done|done|done|done|done|apply Hw1|done|apply Hw1| |].
  - intros j m q Hj Hq. destruct (blk_page a i j k Hi eq_refl Hj) as (E1 & _ & E3 & E4).
    eapply (not_a_node _ s1 ess _ k); [done|lia| |by right| |done].
    + rewrite pg_round_down_div in E1. subst a. lia.
    + intros m' (es' & He' & Hin). destruct (free_block _ _ _ _ _ _ Hw1 He' Hin) as (a' & x' & j' & Ha' & _ & _ & _ & _ & Ep).
      rewrite Z2Pos.id in Ep by lia. rewrite Ep in E1. rewrite E1 in Ha'. by rewrite Hnew in Ha'.
  - intros h' cs Hf' Hcs. apply wp_ret. destruct (count_blocks a i k Hi eq_refl Hk) as [Hc1 Hc2].
    destruct (blocks a i (Z.to_nat (bpa i))) as [|e es] eqn:Eb.
    { unfold count in Hc1. cbn in Hc1. destruct (bs_bpa i Hi). lia. }
    assert (∀ e', e' ∈ e :: es → ∃ j, 0 ≤ j < bpa i ∧ Z.pos e' = blk a i j) as Hin.
    { intros e' Hin. rewrite <- Eb in Hin. apply elem_of_blocks in Hin as (j & Hj & ->). exists (Z.of_nat j).
      destruct (blk_page a i (Z.of_nat j) k Hi eq_refl ltac:(lia)) as (_ & _ & E3 & _). split; [lia|]. lia. }
    destruct (Hin e) as (j & Hj & Ee); [by left|]. destruct (blk_page a i j k Hi eq_refl Hj) as (E1 & _ & E3 & E4).
    assert (wf (Some i) (MState (<[a := Arena ARENA_MAGIC (Some i) (bpa i)]> (arenas s1)) h' (descs s1) (pages s1) cs) (<[i := e :: es]> ess)) as Hw2.
    { apply (wf_relist _ s1 ess i [] (e :: es) a k); [done|done|done|done|done|done|done|done|done|done|by left|done| |].
      - intros a' Ha'. by rewrite Hc2.
      - intros e' He'. right. by apply Hin. }
    apply (HQt _ e es Hw2).
    + intros a' x i' Hne Hx Ei. cbn in Hx. rewrite Ee, E1 in Hne. rewrite lookup_insert_ne in Hx by done.
      rewrite Ea in Hx. by eapply Htr.
    + intros p c z Hp Hz. cbn. rewrite Hcs; [by eapply Hkept|]. destruct Hp as (a' & x & Ha' & Hb & _).
      destruct (block_range _ _ _ _ _ _ _ Hw Ha' Hb) as (_ & _ & R1 & R2 & _). intros Hx. eapply (Hcl a' x z); [done|lia|lia].
    + intros p c. rewrite <- (live_arenas s1 s) by done.
      apply (live_new (Some i) s1 ess i (e :: es) a k); [done|done|done|done|done|done|done|].
      intros j0 Hj0. rewrite <- Eb. apply elem_of_blocks. exists (Z.to_nat j0). split; [lia|].
      by rewrite Z2Nat.id by lia.
Qed.

(** The state of the allocator, seen from outside: the blocks in use and the room in
    each *)
Definition ok s (L : gmap Z Z) : Prop :=
  ∃ ess, wf None s ess ∧ trim s ∧ ∀ p c, live s ess p c ↔ L !! p = Some c.

Definition same_bytes (L : gmap Z Z) s s' : Prop :=
  ∀ p c z, L !! p = Some c → p ≤ z < p + c → contents s' !! z = contents s !! z.

Lemma same_bytes_refl L s : same_bytes L s s.
Proof. by intros. Qed.

Lemma same_bytes_trans L s1 s2 s3 : same_bytes L s1 s2 → same_bytes L s2 s3 → same_bytes L s1 s3.
Proof. intros H1' H2' p c z Hp Hz. rewrite (H2' p c z), (H1' p c z); done. Qed.

Lemma ok_new s s' ess ess' L p c :
  (∀ q c', live s ess q c' ↔ L !! q = Some c') → wf None s' ess' → trim s' →
  (∀ c', ¬ live s ess p c') → (∀ q c', live s' ess' q c' ↔ live s ess q c' ∨ q = p ∧ c' = c) →
  ok s' (<[p := c]> L) ∧ L !! p = None.
Proof.
  intros HL Hw Ht Hn Hl. assert (L !! p = None) as Hp.
  { destruct (L !! p) as [c'|] eqn:E; [|done]. by destruct (Hn c'); apply HL. }
  split; [|done]. exists ess'. split_and!; [done|done|]. intros q c'. rewrite Hl, HL, lookup_insert_Some.
  split; [|naive_solver]. intros [E|[-> ->]]; [|by left]. right. split; [congruence|done].
Qed.

Lemma live_bound lk s ess p c : wf lk s ess → live s ess p c → 0 < p ∧ 0 < c ∧ p + c ≤ 2 ^ 32.
Proof.
  intros Hw (a & x & Ha & Hb & _). destruct (block_range _ _ _ _ _ _ _ Hw Ha Hb) as (? & ? & ? & ? & _).
  destruct (arena_at _ _ _ _ _ Hw Ha) as (k & -> & ? & ? & ? & _). lia.
Qed.

Lemma live_big s ess k n p c :
  arenas s !! (k * 4096) = None →
  live (with_arena s (k * 4096) (Arena ARENA_MAGIC None n)) ess p c ↔
  live s ess p c ∨ p = k * 4096 + 12 ∧ c = n * 4096 - 12.
Proof.
  intros Hnew. unfold live. cbn. split.
  - intros (a & x & [[<- <-]|[Hne Ha]]%lookup_insert_Some & Hb & Hl); [right; exact Hb|left; by exists a, x].
  - intros [(a & x & Ha & Hb & Hl)|Hb].
    + exists a, x. by rewrite lookup_insert_ne by congruence.
    + exists (k * 4096), (Arena ARENA_MAGIC None n). by rewrite lookup_insert_eq.
Qed.

Lemma kept_same_bytes s ess s' L :
  (∀ p c, live s ess p c ↔ L !! p = Some c) → kept s ess s' → same_bytes L s s'.
Proof. intros HL Hk p c z Hp. apply Hk. by apply HL. Qed.

Lemma ok_same s s' ess L :
  (∀ p c, live s ess p c ↔ L !! p = Some c) → trim s → wf None s' ess → arenas s' = arenas s → ok s' L.
Proof.
  intros HL Ht Hw Ha. exists ess. split_and!; [done|unfold trim; by rewrite Ha|].
  intros p c. rewrite <- HL. by apply live_arenas.
Qed.

(** What [malloc] may do, for a request of [size] bytes *)
Definition allocates (size : Z) s L (Q : option Z → mstate P → Prop) : Prop :=
  (∀ s', ok s' L → same_bytes L s s' → Q None s') ∧
  (∀ s' p c, ok s' (<[p := c]> L) → same_bytes L s s' → L !! p = None → 0 < size ≤ c → 0 < p → p + c ≤ 2 ^ 32 →
     Q (Some p) s').

Lemma wp_malloc_big t size n Q s ess L :
  wf None s ess → trim s → (∀ p c, live s ess p c ↔ L !! p = Some c) →
  0 < size → n = (size + 4107) / 4096 → size + 4107 < 2 ^ 32 → allocates size s L Q →
  wp t (r ← palloc_get n;
        match r with
        | None => mret None
        | Some a => set_arena a (Arena ARENA_MAGIC None n);; mret (Some (a + ARENA_SIZE))
        end) Q s.
Proof.
  intros Hw Htr HL Hs0 En Hs [HQn HQs].
  pose proof (Z.div_mod (size + 4107) 4096 ltac:(lia)). pose proof (Z.mod_pos_bound (size + 4107) 4096 ltac:(lia)).
  apply wp_bind. eapply (wp_palloc_get _ None n); [exact Hw|lia| |].
  - intros s1 Hw1 Ha1 Hk1. apply wp_ret, HQn; [by eapply ok_same|by eapply kept_same_bytes].
  - intros s1 k Hw1 Ea _ Hk1 Hn Hk Hkn Hcl Hu. apply wp_bind, wp_modify, wp_ret.
    change (Q (Some (k * 4096 + 12)) (with_arena s1 (k * 4096) (Arena ARENA_MAGIC None n))).
    assert (arenas s1 !! (k * 4096) = None) as Hnew.
    { apply (clear_lookup s1 k n); [lia|done|unfold clear_of; by rewrite Ea|].
      intros a' x Hx. by destruct (arena_at _ _ _ _ _ Hw1 Hx) as (? & _ & _ & ? & _). }
    assert (wf None (with_arena s1 (k * 4096) (Arena ARENA_MAGIC None n)) ess) as Hw2.
    { apply wf_add_big; [done|done|done|done|unfold clear_of; by rewrite Ea|]. intros j Hj. by apply Hu. }
    destruct (ok_new s (with_arena s1 (k * 4096) (Arena ARENA_MAGIC None n)) ess ess L (k * 4096 + 12) (n * 4096 - 12)) as [Hok Hp].
    + done.
    + done.
    + intros a x i Hx. cbn in Hx. apply lookup_insert_Some in Hx as [[<- <-]|[_ Hx]]; [done|]. rewrite Ea in Hx. by apply (Htr a x i).
    + intros c' (a & x & Ha & Hb & _). destruct (block_range _ _ _ _ _ _ _ Hw Ha Hb) as (_ & _ & _ & _ & E).
      rewrite pg_round_down_div in E. replace ((k * 4096 + 12) / 4096) with k in E
        by (rewrite Z.add_comm, Z.div_add by lia; done). rewrite <- E, <- Ea in Ha. congruence.
    + intros q c'. rewrite live_big by done. by rewrite (live_arenas s1 s).
    + apply (HQs _ _ (n * 4096 - 12)); [done|by eapply kept_same_bytes|done|lia|lia|lia].
Qed.

(** A block is taken from a list that is not empty any more. *)
Lemma wp_take_ok t size i e es ess s2 ess2 Q s L :
  (i < 7)%nat → 0 < size ≤ bs i → (∀ p c, live s ess p c ↔ L !! p = Some c) →
  wf (Some i) s2 ess2 → ess2 !! i = Some (e :: es) → trim_but s2 (pg_round_down (Z.pos e)) →
  kept s ess s2 → (∀ p c, live s2 ess2 p c ↔ live s ess p c) → allocates size s L Q →
  wp t (e ← on_links (list_pop_front (desc_list i));
        '(a, x) ← block_to_arena (Z.pos e);
        set_arena a (Arena (magic x) (a_desc x) (wrap_u32 (free_cnt x - 1)));;
        desc_unlock i;; mret (Some (Z.pos e))) Q s2.
Proof.
  intros Hi Hbs HL Hw2 He2 Htb2 Hk2 Hl2 [_ HQs]. eapply wp_take; [done|done|done|done|].
  intros s3 Hw3 Ht3 Hc3 Hn3 Hl3.
  destruct (ok_new s s3 ess (<[i := es]> ess2) L (Z.pos e) (bs i)) as [Hok Hp]; [done|done|done| | |].
  - intros c'. rewrite <- Hl2. apply Hn3.
  - intros q c'. by rewrite Hl3, Hl2.
  - destruct (live_bound None s3 (<[i := es]> ess2) (Z.pos e) (bs i)) as (_ & _ & Hb3); [done|apply Hl3; by right|].
    apply (HQs s3 _ (bs i)); [done| |done|lia|lia|done].
    eapply kept_same_bytes; [done|]. intros p c z Hp' Hz'. rewrite Hc3. by eapply Hk2.
Qed.

Lemma wp_kmalloc t size Q s L :
  ok s L → 0 ≤ size → size + 4107 < 2 ^ 32 → allocates size s L Q → wp t (malloc size) Q s.
Proof.
  intros (ess & Hw & Htr & HL) Hs0 Hs HQ. unfold malloc.
  case_bool_decide as Hz; [apply wp_ret, HQ; [by exists ess|apply same_bytes_refl]|].
  apply wp_bind, wp_get. cbn zeta. rewrite (wf_descs _ _ _ Hw).
  replace (length (std_descs None)) with 7%nat by (unfold std_descs; by rewrite length_fmap, length_seq).
  pose proof (find_desc_spec None size) as Hfd. cbn zeta in Hfd.
  set (i := find_desc size (std_descs None)) in *. case_decide as H1024.
  2:{ rewrite Hfd, bool_decide_true by done. apply (wp_malloc_big _ size _ Q s ess L); [done|done|done|lia| |done|done].
      unfold DIV_ROUND_UP, wrap_u32, ARENA_SIZE, PAGE. rewrite (Z.mod_small (size + 12)) by lia.
      rewrite Z.mod_small by lia. f_equal. lia. }
  destruct Hfd as [Hi Hbs]. rewrite bool_decide_false by lia.
  apply wp_bind. apply wp_desc_lock; [apply Hw|done|]. set (s1 := with_descs s (std_descs (Some i))).
  assert (wf (Some i) s1 ess) as Hw1 by (by eapply wf_with_descs).
  apply wp_bind. eapply wp_get_desc; [done|done|]. cbn [std_desc free_list blocks_per_arena].
  destruct (lookup_lt_is_Some_2 ess i) as [es He]; [rewrite (wf_length _ _ _ Hw); done|].
  assert (lists ess !! i = Some (desc_list i, es)) as Hl by (apply lists_lookup; [apply Hw|done]).
  apply wp_bind, wp_on_links. eapply wp_list_empty; [apply (fam_dlist _ _ (wf_fam _ _ _ Hw1) _ _ _ Hl)|].
  replace (MState _ _ _ _ _) with s1 by done. apply wp_bind. destruct es as [|e es].
  - rewrite bool_decide_true by done. eapply wp_new_arena; [exact Hw1|done|done|done| |].
    + intros s2 Hw2 Ha2 Hk2. apply wp_bind. apply wp_desc_unlock; [apply Hw2|done|]. apply wp_ret. apply HQ.
      * eapply ok_same; [done|done|by eapply wf_with_descs|done].
      * eapply kept_same_bytes; [done|]. intros p c z Hp Hz'. by eapply (Hk2 p c).
    + intros s2 e es Hw2 Htb2 Hk2 Hl2. apply (wp_take_ok _ size i e es ess s2 (<[i := e :: es]> ess) Q s L);
        [done|lia|done|done| |done| | |done].
      * apply list_lookup_insert_eq. by eapply lookup_lt_Some.
      * intros p c z Hp Hz'. by eapply (Hk2 p c).
      * intros p c. rewrite Hl2. by apply live_arenas.
  - rewrite bool_decide_false by done. apply wp_ret. apply (wp_take_ok _ size i e es ess s1 ess Q s L);
      [done|lia|done|done|done| |by intros p c z| |done].
    + intros a x m _ Ha Hm. by eapply Htr.
    + intros p c. by apply live_arenas.
Qed.

(** ** Giving an arena back *)

Lemma filter_ext_in (R R' : eptr → Prop) `{∀ e, Decision (R e), ∀ e, Decision (R' e)} es :
  (∀ e, e ∈ es → R e ↔ R' e) → filter R es = filter R' es.
Proof.
  induction es as [|e es IH]; intros Hr; [done|]. rewrite !filter_cons, IH by (intros; apply Hr; by right).
  apply decide_ext. apply Hr. by left.
Qed.

(** The free lists without the blocks of the arena at [a] *)
Definition off_page a (e : eptr) : Prop := pg_round_down (Z.pos e) ≠ a.
#[local] Instance off_page_dec a e : Decision (off_page a e) := _.

Definition without a ess : list (list eptr) := filter (off_page a) <$> ess.

Lemma without_lookup a ess i es : without a ess !! i = Some es ↔ ∃ es0, ess !! i = Some es0 ∧ es = filter (off_page a) es0.
Proof. unfold without. rewrite list_lookup_fmap. destruct (ess !! i); cbn; naive_solver. Qed.

Lemma count_without a a' es : a' ≠ a → count a' (filter (off_page a) es) = count a' es.
Proof.
  intros Hne. unfold count. do 2 f_equal. rewrite list_filter_filter. apply filter_ext_in.
  intros e _. unfold off_page. split; [tauto|]. intros ->. done.
Qed.

Lemma wf_drop lk s ess a k x q h' (cs : gmap Z Z) :
  wf lk s ess → arenas s !! a = Some x → a = k * 4096 → pg_wf q →
  (∀ j, (pg_free q j ↔ pg_free (pages s) j ∨ k ≤ j < k + npages x) ∧
        (pg_used q j ↔ pg_used (pages s) j ∧ ¬ k ≤ j < k + npages x)) →
  fam h' (lists (without a ess)) →
  wf lk (MState (delete a (arenas s)) h' (descs s) q cs) (without a ess).
Proof.
  intros Hw Ha Ek Hq Hrel Hf. pose proof Hw as [A B C D E F G I].
  assert (∀ j, k ≤ j < k + npages x → pg_used (pages s) j) as Hmine.
  { destruct (arena_at _ _ _ _ _ Hw Ha) as (k' & E' & _ & _ & _ & Hu). assert (k' = k) as -> by lia. done. }
  split; cbn.
  - done.
  - unfold without. by rewrite length_fmap.
  - done.
  - done.
  - intros i e Hi He. destruct (E i e Hi He) as [N1 N2]. destruct (Hrel (Z.pos e / 4096)) as [-> ->].
    split; [|tauto]. intros [?|Hr]; [done|]. by apply N2, Hmine.
  - intros a' x' [Hne Ha']%lookup_delete_Some. destruct (F a' x' Ha') as [M1 (k' & M2 & M3 & M4 & M5 & M6) M7].
    split; [done| |].
    + exists k'. split_and!; [done|done|done|done|]. intros j Hj. apply Hrel. split; [by apply M6|]. intros Hj'.
      apply Hne. apply (G a x a' x' (j * 4096)); [done|done|lia|lia].
    + intros i Ei. destruct (M7 i Ei) as [Hi Hc]. split; [done|]. intros es (es0 & He0 & ->)%without_lookup.
      rewrite count_without by congruence. by apply Hc.
  - intros a1 x1 a2 x2 z [_ H1']%lookup_delete_Some [_ H2']%lookup_delete_Some. by apply G.
  - intros i es e (es0 & He0 & ->)%without_lookup [Hp Hin]%list_elem_of_filter.
    destruct (free_block _ _ _ _ _ _ Hw He0 Hin) as (a1 & x1 & j & Ha1 & Hd1 & _ & Hj & Ee & Ep).
    exists a1, x1, j. rewrite lookup_delete_ne; [done|]. intros <-. by apply Hp.
Qed.

Lemma live_drop lk s ess a x q h' (cs : gmap Z Z) p c :
  wf lk s ess → arenas s !! a = Some x →
  live (MState (delete a (arenas s)) h' (descs s) q cs) (without a ess) p c ↔
  live s ess p c ∧ ∀ c', ¬ is_block a x p c'.
Proof.
  intros Hw Ha.
  assert (∀ a1 x1 m, a1 ≠ a → arenas s !! a1 = Some x1 → is_block a1 x1 p c →
            listed (without a ess) m p ↔ listed ess m p) as Hsame.
  { intros a1 x1 m Hne Ha1 Hb1. destruct (block_range _ _ _ _ _ _ _ Hw Ha1 Hb1) as (Hp & _ & _ & _ & E1). split.
    - intros (es & (es0 & He0 & ->)%without_lookup & [_ Hin]%list_elem_of_filter). by exists es0.
    - intros (es0 & He0 & Hin). exists (filter (off_page a) es0). split; [apply without_lookup; eauto|].
      apply list_elem_of_filter. split; [|done]. unfold off_page. rewrite Z2Pos.id by done. congruence. }
  unfold live. cbn. split.
  - intros (a1 & x1 & [Hne Ha1]%lookup_delete_Some & Hb & Hl). split.
    + exists a1, x1. split_and!; [done|done|]. intros m Em. rewrite <- (Hsame a1 x1 m) by done. by apply Hl.
    + intros c' Hb'. destruct (block_range _ _ _ _ _ _ _ Hw Ha1 Hb) as (_ & _ & _ & _ & E1).
      destruct (block_range _ _ _ _ _ _ _ Hw Ha Hb') as (_ & _ & _ & _ & E2). congruence.
  - intros [(a1 & x1 & Ha1 & Hb & Hl) Hn].
    assert (a1 ≠ a) as Hne. { intros ->. rewrite Ha in Ha1. injection Ha1 as <-. by apply (Hn c). }
    exists a1, x1. rewrite lookup_delete_ne by done. split_and!; [done|done|]. intros m Em.
    rewrite (Hsame a1 x1 m) by done. by apply Hl.
Qed.

(** [palloc_free] of an arena whose blocks are in no free list any more *)
Lemma wp_palloc_free t lk a x Q s ess h ess' :
  wf lk s ess → arenas s !! a = Some x → fam h (lists ess') → ess' = without a ess →
  (∀ s', wf lk s' ess' → arenas s' = delete a (arenas s) →
     (∀ z, ¬ a ≤ z < a + npages x * 4096 → contents s' !! z = contents s !! z) →
     (∀ p c, live s' ess' p c ↔ live s ess p c ∧ ∀ c', ¬ is_block a x p c') → Q tt s') →
  wp t (palloc_free a (npages x)) Q (MState (arenas s) h (descs s) (pages s) (contents s)).
Proof.
  intros Hw Ha Hf -> HQ. destruct (arena_at _ _ _ _ _ Hw Ha) as (k & Ek & Hk & Hn & Hkn & Hu).
  unfold palloc_free. apply wp_bind, wp_get. apply wp_bind. cbn [pages].
  destruct (page_put_ok k (npages x) (pages s) (wf_pages _ _ _ Hw) Hk Hn Hkn Hu) as (q & Hq & Hqw & Hrel).
  rewrite <- Ek in Hq. eapply wp_assume_some; [exact Hq|]. apply wp_bind, wp_modify, wp_modify.
  cbn [arenas links descs pages contents]. apply HQ.
  - by apply (wf_drop lk s ess a k x).
  - done.
  - intros z Hz. cbn [contents]. rewrite fill_lookup, decide_False; [done|]. unfold PAGE. lia.
  - intros p c. by apply (live_drop lk).
Qed.

(** ** [free] *)

Definition not_first a i (n : nat) (e : eptr) : Prop := e ∉ blocks a i n.
#[local] Instance not_first_dec a i n e : Decision (not_first a i n e) := _.

(** All the blocks of the arena at [a] are in the free list and leave it. *)
Lemma wp_remove_blocks t lk a k x i es ess Q s :
  wf lk s ess → arenas s !! a = Some x → a_desc x = Some i → (i < 7)%nat → a = k * 4096 → 0 < k →
  ess !! i = Some es → (∀ e, e ∈ blocks a i (Z.to_nat (bpa i)) → e ∈ es) →
  (∀ h', fam h' (lists (<[i := filter (not_first a i (Z.to_nat (bpa i))) es]> ess)) →
     Q tt (MState (arenas s) h' (descs s) (pages s) (contents s))) →
  wp t (remove_blocks a 0 (Z.to_nat (bpa i))) Q s.
Proof.
  intros Hw Ha Hd Hi Ek Hk He Hall HQ.
  pose proof (wf_arena _ _ _ Hw _ _ Ha) as [Hm _ _]. pose proof (free_nodup _ _ _ _ _ Hw He) as Hnd.
  assert (length ess = 7)%nat as Hlen by apply Hw.
  assert (∀ n j h, (j + n = Z.to_nat (bpa i))%nat → fam h (lists (<[i := filter (not_first a i j) es]> ess)) →
    wp t (remove_blocks a j n) Q (MState (arenas s) h (descs s) (pages s) (contents s))) as Hgo.
  { induction n as [|n IH]; intros j h Hj Hfh; cbn [remove_blocks].
    { apply wp_ret. replace j with (Z.to_nat (bpa i)) in Hfh by lia. by apply HQ. }
    apply wp_bind. eapply wp_arena_to_block; [apply Hw|exact Ha|done|done|done|lia|].
    set (e := Z.to_pos (blk a i (Z.of_nat j))).
    assert (e ∈ filter (not_first a i j) es) as Hin.
    { apply list_elem_of_filter. split.
      - intros (j' & Hj' & E)%elem_of_blocks.
        destruct (blk_page a i (Z.of_nat j') k Hi Ek ltac:(lia)) as (_ & _ & P1 & _).
        destruct (blk_page a i (Z.of_nat j) k Hi Ek ltac:(lia)) as (_ & _ & P2 & _).
        assert (blk a i (Z.of_nat j) = blk a i (Z.of_nat j')) as E' by (subst e; lia). apply blk_inj in E'; [lia|done].
      - apply Hall, elem_of_blocks. exists j. split; [lia|done]. }
    pose proof (NoDup_filter (not_first a i j) es Hnd) as Hnd1.
    apply list_elem_of_split in Hin as (l1 & l2 & El).
    assert (lists (<[i := filter (not_first a i j) es]> ess) !! i = Some (desc_list i, l1 ++ e :: l2)) as Hl.
    { apply lists_lookup; [by rewrite length_insert|]. rewrite list_lookup_insert_eq by lia. by rewrite El. }
    apply wp_bind, wp_on_links. cbn [links]. eapply fam_remove; [exact Hfh|exact Hl|]. intros h' Hf' _.
    rewrite lists_insert_list in Hf' by (rewrite ?length_insert; done). rewrite list_insert_insert_eq in Hf'.
    apply IH; [lia|]. replace (filter (not_first a i (S j)) es) with (l1 ++ l2); [done|].
    rewrite El in Hnd1. rewrite <- (filter_middle l1 e l2 Hnd1), <- El, list_filter_filter. apply filter_ext_in.
    intros e' _. unfold not_first. rewrite blocks_S, not_elem_of_app, list_elem_of_singleton. fold e. tauto. }
  specialize (Hgo (Z.to_nat (bpa i)) 0%nat (links s)). destruct s as [ar li de pa co]; cbn [arenas links descs pages contents] in *.
  apply Hgo; [done|]. rewrite list_insert_id; [apply Hw|].
  rewrite He. f_equal. symmetry. apply filter_keep, Forall_forall. intros e _ []%elem_of_nil.
Qed.

(** With all its blocks in the free list, the arena counts them all. *)
Lemma full_arena lk s ess i es a :
  wf lk s ess → (i < 7)%nat → ess !! i = Some es → count a es = bpa i →
  ∀ e, e ∈ blocks a i (Z.to_nat (bpa i)) → e ∈ es.
Proof.
  intros Hw Hi He Hc e Hin. destruct (bs_bpa i Hi) as (_ & Hb & _).
  assert (blocks a i (Z.to_nat (bpa i)) ≡ₚ filter (λ e, pg_round_down (Z.pos e) = a) es) as Hp.
  { symmetry. apply submseteq_length_Permutation.
    - apply NoDup_submseteq; [apply NoDup_filter; by eapply free_nodup|].
      intros e' [Hp' Hin']%list_elem_of_filter. by eapply free_in_blocks.
    - unfold blocks, count in *. rewrite length_fmap, length_seq. lia. }
  rewrite Hp in Hin. by apply list_elem_of_filter in Hin as [_ ?].
Qed.

Lemma without_full lk s ess i es a x k :
  wf lk s ess → arenas s !! a = Some x → a_desc x = Some i → (i < 7)%nat → a = k * 4096 → 0 < k → ess !! i = Some es →
  <[i := filter (not_first a i (Z.to_nat (bpa i))) es]> ess = without a ess.
Proof.
  intros Hw Ha Hd Hi Ek Hk He. apply list_eq. intros m. destruct (decide (m = i)) as [->|Hm].
  - rewrite list_lookup_insert_eq by (by eapply lookup_lt_Some). unfold without.
    rewrite list_lookup_fmap, He. cbn. f_equal. apply filter_ext_in. intros e Hin. unfold not_first, off_page. split.
    + intros Hn Hp. apply Hn. by eapply free_in_blocks.
    + intros Hp (j & Hj & ->)%elem_of_blocks. destruct (blk_page a i (Z.of_nat j) k Hi Ek ltac:(lia)) as (E & _ & E3 & _).
      apply Hp. by rewrite Z2Pos.id by lia.
  - rewrite list_lookup_insert_ne by done. unfold without. rewrite list_lookup_fmap.
    destruct (ess !! m) as [es0|] eqn:E; [|done]. cbn. f_equal. symmetry. apply filter_keep, Forall_forall.
    intros e Hin Hp. destruct (free_block _ _ _ _ _ _ Hw E Hin) as (a1 & x1 & j & Ha1 & Hd1 & _ & _ & _ & Ep).
    rewrite Ep in Hp. subst a1. rewrite Ha in Ha1. injection Ha1 as <-. congruence.
Qed.

Lemma without_big lk s ess a x :
  wf lk s ess → arenas s !! a = Some x → a_desc x = None → without a ess = ess.
Proof.
  intros Hw Ha Hd. unfold without. apply list_eq. intros m. rewrite list_lookup_fmap.
  destruct (ess !! m) as [es0|] eqn:E; [|done]. cbn. f_equal. apply filter_keep, Forall_forall.
  intros e Hin Hp. destruct (free_block _ _ _ _ _ _ Hw E Hin) as (a1 & x1 & j & Ha1 & Hd1 & _ & _ & _ & Ep).
  rewrite Ep in Hp. subst a1. rewrite Ha in Ha1. injection Ha1 as <-. congruence.
Qed.

(** The blocks in use when the block at [Z.pos e] joins the free list *)
Lemma live_put lk s ess i e es a x x' j h' (cs : gmap Z Z) p c :
  wf lk s ess → ess !! i = Some es → arenas s !! a = Some x → a_desc x = Some i → a_desc x' = Some i →
  0 ≤ j < bpa i → Z.pos e = blk a i j →
  live (MState (<[a := x']> (arenas s)) h' (descs s) (pages s) cs) (<[i := e :: es]> ess) p c ↔
  live s ess p c ∧ p ≠ Z.pos e.
Proof.
  intros Hw He Ha Hd Hd' Hj Ee. rewrite (live_relist lk s ess i es (e :: es) a x x') by done. split.
  - intros (a1 & x1 & Ha1 & Hb1 & Hl1). split.
    + exists a1, x1. split_and!; [done|done|]. intros m Em (es0 & He0 & Hin). specialize (Hl1 m Em).
      case_decide as Hmi; [|apply Hl1; by exists es0]. subst m. rewrite He in He0. injection He0 as <-.
      apply Hl1. by right.
    + intros ->. destruct (same_block _ _ _ _ _ _ _ _ _ _ _ Hw Ha Hd Hj Ee Ha1 Hb1) as (-> & -> & _).
      specialize (Hl1 i Hd). rewrite decide_True in Hl1 by done. apply Hl1. cbn. by left.
  - intros [(a1 & x1 & Ha1 & Hb1 & Hl1) Hne]. exists a1, x1. split_and!; [done|done|]. intros m Em.
    case_decide as Hmi; [|by apply Hl1]. subst m. intros [E|Hin]%elem_of_cons.
    + destruct (block_range _ _ _ _ _ _ _ Hw Ha1 Hb1) as (? & _). lia.
    + apply (Hl1 i Em). by exists es.
Qed.

(** A block of a small arena goes back to the front of its free list. *)
Lemma wp_put t i p j a k x es ess (K : M (mstate P) unit) Q s :
  wf (Some i) s ess → (i < 7)%nat → ess !! i = Some es → arenas s !! a = Some x → a_desc x = Some i →
  a = k * 4096 → 0 < k → 0 ≤ j < bpa i → p = blk a i j → ¬ listed ess i p →
  (∀ s' x', wf (Some i) s' (<[i := Z.to_pos p :: es]> ess) → arenas s' = <[a := x']> (arenas s) →
     x' = Arena ARENA_MAGIC (Some i) (free_cnt x + 1) → free_cnt x + 1 = count a (Z.to_pos p :: es) →
     (∀ z, ¬ p ≤ z < p + bs i → contents s' !! z = contents s !! z) →
     (∀ q c, live s' (<[i := Z.to_pos p :: es]> ess) q c ↔ live s ess q c ∧ q ≠ p) → wp t K Q s') →
  wp t (e ← as_block p;
        on_links (list_push_front (desc_list i) e);;
        set_arena a (Arena (magic x) (Some i) (wrap_u32 (free_cnt x + 1)));; K) Q s.
Proof.
  intros Hw Hi He Ha Hd Ek Hk Hj Ep Hnl HQ. set (e := Z.to_pos p) in *.
  destruct (blk_page a i j k Hi Ek Hj) as (Er & _ & E3 & E4). rewrite <- Ep in Er, E3, E4.
  destruct (bs_bpa i Hi) as (Hb1 & Hb2 & _). assert (0 < p) as Hp by lia. assert (Z.pos e = p) as Epos by (subst e; lia).
  pose proof (wf_arena _ _ _ Hw _ _ Ha) as [Hm (k' & Ek' & _ & _ & Hk1 & Hu) Hsm]. assert (k' = k) as -> by lia.
  unfold npages in Hk1, Hu. rewrite Hd in Hk1, Hu. destruct (Hsm i Hd) as [_ Hcnt]. specialize (Hcnt _ He).
  assert (is_block a x p (bs i)) as Hblk by (unfold is_block; rewrite Hd; by exists j).
  destruct (arena_page _ _ _ _ _ _ _ Hw Ha Hblk) as [Hup _].
  assert (∀ m q, lists ess !! m = Some q → e ∉ nodes_of q) as Hnode.
  { eapply not_a_node; [exact Hw|done|reflexivity|by right|]. intros m (es0 & He0 & Hin).
    destruct (free_block _ _ _ _ _ _ Hw He0 Hin) as (a1 & x1 & j1 & Ha1 & Hd1 & _ & _ & _ & Ep1).
    fold e in Ep1. rewrite Epos, Er in Ep1. subst a1. rewrite Ha in Ha1. injection Ha1 as <-. rewrite Hd in Hd1. injection Hd1 as <-.
    apply Hnl. by exists es0. }
  apply wp_bind. unfold as_block. apply wp_bind, wp_on_links, wp_modify. apply wp_bind, wp_modify, wp_ret.
  apply wp_bind, wp_on_links. cbn [arenas links descs pages contents]. fold e.
  assert (lists ess !! i = Some (desc_list i, es)) as Hl by (apply lists_lookup; [apply Hw|done]).
  eapply (fam_push _ (lists ess)); [|exact Hl|by rewrite lookup_insert_eq|exact Hnode|].
  { eapply fam_frame; [apply Hw|]. intros m q z Hq Hz. rewrite lookup_insert_ne; [done|]. intros <-. by eapply Hnode. }
  intros h' Hf' _. rewrite lists_insert_list in Hf' by (apply Hw || done). apply wp_bind, wp_modify.
  cbn [arenas links descs pages contents].
  assert (count a (e :: es) = free_cnt x + 1) as Hc by (rewrite count_cons, decide_True, Hcnt by congruence; lia).
  assert (e ∉ es) as Hnew by (intros Hin; apply Hnl; by exists es).
  assert (wrap_u32 (free_cnt x + 1) = free_cnt x + 1) as ->.
  { pose proof (count_le _ _ _ _ _ a Hw Hi He). pose proof (count_nonneg a es). apply Z.mod_small. lia. }
  rewrite Hm. eapply HQ; [|reflexivity|done|done| |].
  - apply (wf_relist _ s ess i es (e :: es) a k); [done|done|done|done|done|done|done|done|done| | |done| |].
    + apply Hu. lia.
    + right. by exists x.
    + intros a' Hne. rewrite count_cons, decide_False by congruence. lia.
    + intros e' [->|Hin]%elem_of_cons; [|by left]. right. exists j. split; [done|]. congruence.
  - intros z Hz. cbn [contents]. rewrite (fill_lookup p 8), decide_False by lia. done.
  - intros q c. rewrite (live_put (Some i) s ess i e es a x _ j); [|done|done|done|done|done|done|congruence].
    by rewrite Epos.
Qed.

(** The end of [free]: an arena without blocks in use is given back. *)
Lemma wp_release_arena t i a k x es ess Q s :
  wf (Some i) s ess → (i < 7)%nat → ess !! i = Some es → arenas s !! a = Some x → a_desc x = Some i →
  a = k * 4096 → 0 < k → trim_but s a →
  (∀ s' ess', wf None s' ess' → trim s' → (∀ q c, live s' ess' q c ↔ live s ess q c) →
     (∀ z, (∀ q c, live s ess q c → ¬ q ≤ z < q + c) ∨ contents s' !! z = contents s !! z) → Q tt s') →
  wp t ((if bool_decide (bpa i ≤ free_cnt x) then
           check (bool_decide (free_cnt x = bpa i));;
           remove_blocks a 0 (Z.to_nat (bpa i));;
           palloc_free a 1
         else mret tt);;
        desc_unlock i) Q s.
Proof.
  intros Hw Hi He Ha Hd Ek Hk Htb HQ. pose proof (wf_arena _ _ _ Hw _ _ Ha) as [_ _ Hsm].
  destruct (Hsm i Hd) as [_ Hcnt]. specialize (Hcnt _ He). pose proof (count_le _ _ _ _ _ a Hw Hi He) as Hle.
  apply wp_bind. case_bool_decide as Hfull.
  - assert (count a es = bpa i) as Hc by lia. pose proof (full_arena _ _ _ _ _ _ Hw Hi He Hc) as Hall.
    apply wp_bind, wp_check; [apply bool_decide_eq_true; lia|]. apply wp_bind.
    apply (wp_remove_blocks _ (Some i) a k x i es ess); [done..|]. intros h' Hf'.
    replace 1 with (npages x) by (unfold npages; by rewrite Hd).
    rewrite (without_full _ _ _ _ _ _ _ _ Hw Ha Hd Hi Ek Hk He) in Hf'.
    eapply (wp_palloc_free _ (Some i) a x); [exact Hw|done|exact Hf'|done|]. intros s' Hw' Ha' Hc' Hl'.
    assert (∀ q c, live s ess q c → ∀ c', ¬ is_block a x q c') as Hnone.
    { intros q c (a1 & x1 & Ha1 & Hb1 & Hnl1) c' Hb. unfold is_block in Hb. rewrite Hd in Hb.
      destruct Hb as (j & Hj & -> & _). assert (Z.to_pos (blk a i j) ∈ es) as Hin.
      { apply Hall, elem_of_blocks. exists (Z.to_nat j). split; [lia|]. by rewrite Z2Nat.id by lia. }
      destruct (blk_page a i j k Hi Ek Hj) as (_ & _ & E3 & _).
      apply (not_live_listed _ s ess i es (Z.to_pos (blk a i j)) Hw He Hin c).
      rewrite Z2Pos.id by lia. by exists a1, x1. }
    apply wp_desc_unlock; [apply Hw'|done|]. apply (HQ _ (without a ess)).
    + by eapply wf_with_descs.
    + intros a' x' i' Hx Hi'. cbn in Hx. rewrite Ha' in Hx. apply lookup_delete_Some in Hx as [Hne Hx]. by eapply Htb.
    + intros q c. rewrite (live_arenas _ s') by done. rewrite Hl'. split; [tauto|]. eauto.
    + intros z. destruct (decide (a ≤ z < a + npages x * 4096)) as [Hz|Hz]; [left|right; by apply Hc'].
      intros q c Hq Hr. pose proof Hq as (a1 & x1 & Ha1 & Hb1 & _).
      destruct (block_range _ _ _ _ _ _ _ Hw Ha1 Hb1) as (_ & _ & S1 & S2 & _).
      assert (a1 = a) as -> by (eapply (wf_disjoint _ _ _ Hw a1 x1 a x z); [done|done|lia|done]).
      rewrite Ha in Ha1. injection Ha1 as <-. by eapply Hnone.
  - apply wp_ret. apply wp_desc_unlock; [apply Hw|done|]. apply (HQ _ ess).
    + by eapply wf_with_descs.
    + intros a' x' i' Hx Hi'. cbn in Hx. destruct (decide (a' = a)) as [->|Hne]; [|by eapply Htb].
      rewrite Ha in Hx. injection Hx as <-. rewrite Hd in Hi'. injection Hi' as <-. lia.
    + intros q c. by apply live_arenas.
    + by right.
Qed.

Lemma wp_kfree t p c Q s L :
  ok s L → L !! p = Some c →
  (∀ s', ok s' (delete p L) → same_bytes (delete p L) s s' → Q tt s') → wp t (free (Some p)) Q s.
Proof.
  intros (ess & Hw & Htr & HL) Hp HQ. pose proof (proj2 (HL p c) Hp) as Hlive.
  pose proof Hlive as (a & x & Ha & Hb & Hnl). pose proof (wf_arena _ _ _ Hw _ _ Ha) as [Hm (k & Ek & Hk & Hn & Hkn & Hu) Hsm].
  destruct (block_range _ _ _ _ _ _ _ Hw Ha Hb) as (Hp0 & Hc0 & R1 & R2 & R3).
  (* what is left after the block *)
  assert (∀ s' ess', wf None s' ess' → trim s' →
     (∀ q c', live s' ess' q c' ↔ live s ess q c' ∧ q ≠ p) → ok s' (delete p L)) as Hok.
  { intros s' ess' Hw' Ht' Hl'. exists ess'. split_and!; [done|done|]. intros q c'.
    rewrite Hl', HL, lookup_delete_Some. naive_solver. }
  assert (∀ s', (∀ z, (∀ q c', live s ess q c' → q ≠ p → ¬ q ≤ z < q + c') ∨ contents s' !! z = contents s !! z) →
     same_bytes (delete p L) s s') as Hsame.
  { intros s' Hz q c' z [Hne Hq]%lookup_delete_Some Hr. destruct (Hz z) as [Hx|]; [|done].
    destruct (Hx q c'); [by apply HL|done|done]. }
  unfold free. apply wp_bind. eapply (wp_block_to_arena _ None a x k p c); [apply Hw|done|done|done|done| |done|].
  { intros i E. by apply Hsm. }
  destruct (a_desc x) as [i|] eqn:Hd.
  - pose proof Hb as Hb0. unfold is_block in Hb0. rewrite Hd in Hb0. destruct Hb0 as (j & Hj & Ej & ->).
    destruct (Hsm i eq_refl) as [Hi _]. destruct (lookup_lt_is_Some_2 ess i) as [es He]; [rewrite (wf_length _ _ _ Hw); done|].
    apply wp_bind. eapply wp_get_desc; [apply Hw|done|]. cbn [std_desc block_size blocks_per_arena free_list].
    apply wp_bind, wp_modify. apply wp_bind. apply wp_desc_lock; [apply Hw|done|].
    set (s1 := with_descs _ _). assert (wf (Some i) s1 ess) as Hw1.
    { apply (wf_with_descs None). destruct Hw. by split. }
    apply (wp_put _ i p j a k x es ess); [done|done|done|done|done|done|done|done|done|by apply Hnl|].
    intros s2 x' Hw2 Ha2 -> Hc2 Hct2 Hl2.
    assert (wrap_u32 (free_cnt x + 1) = free_cnt x + 1) as ->.
    { pose proof (count_le _ _ _ _ (Z.to_pos p :: es) a Hw2 Hi) as Hle. rewrite list_lookup_insert_eq in Hle by (by eapply lookup_lt_Some).
      specialize (Hle eq_refl). destruct (bs_bpa i Hi) as (_ & ? & _). pose proof (count_nonneg a (Z.to_pos p :: es)).
      apply Z.mod_small. lia. }
    eapply (wp_release_arena _ i a k (Arena ARENA_MAGIC (Some i) (free_cnt x + 1))); [exact Hw2|done| |by rewrite Ha2, lookup_insert_eq|done|done|done| |].
    + apply list_lookup_insert_eq. by eapply lookup_lt_Some.
    + intros a' x' i' Hne Hx. rewrite Ha2, lookup_insert_ne in Hx by done. by apply (Htr a' x' i').
    + intros s3 ess3 Hw3 Ht3 Hl3 Hc3. apply HQ.
      * eapply Hok; [done|done|]. intros q c'. rewrite Hl3, Hl2. by rewrite (live_arenas s1 s).
      * apply Hsame. intros z. destruct (decide (p ≤ z < p + bs i)) as [Hz|Hz].
        -- left. intros q c' Hq Hne Hr. destruct (live_apart _ _ _ _ _ _ _ Hw Hlive Hq) as [[E _]|[?|?]]; [congruence|lia|lia].
        -- destruct (Hc3 z) as [Hx|Hx]; [left|right].
           ++ intros q c' Hq Hne. apply Hx, Hl2. split; [|done]. by rewrite (live_arenas s1 s).
           ++ rewrite Hx, Hct2 by done. cbn [s1 with_descs contents]. rewrite fill_lookup, decide_False; [done|].
              destruct (bs_bpa i Hi). lia.
  - replace (free_cnt x) with (npages x) by (unfold npages; by rewrite Hd).
    destruct s as [ar li de pa co]. eapply (wp_palloc_free _ None a x _ (MState ar li de pa co) ess li ess); [done|done|apply Hw| |].
    { symmetry. by eapply without_big. }
    intros s' Hw' Ha' Hc' Hl'. apply HQ.
    + eapply Hok; [done| |].
      * intros a' x' i' Hx Hi'. rewrite Ha' in Hx. apply lookup_delete_Some in Hx as [_ Hx]. by eapply Htr.
      * intros q c'. rewrite Hl'. unfold is_block. rewrite Hd. unfold is_block in Hb. rewrite Hd in Hb. naive_solver.
    + apply Hsame. intros z. destruct (decide (a ≤ z < a + npages x * 4096)) as [Hz|Hz]; [left|right; by apply Hc'].
      intros q c' (a1 & x1 & Ha1 & Hb1 & _) Hne Hr.
      destruct (block_range _ _ _ _ _ _ _ Hw Ha1 Hb1) as (_ & _ & S1 & S2 & _).
      assert (a1 = a) as -> by (eapply (wf_disjoint _ _ _ Hw a1 x1 a x z); [done|done|lia|done]).
      rewrite Ha in Ha1. injection Ha1 as <-. unfold is_block in Hb, Hb1. rewrite Hd in Hb, Hb1. lia.
Qed.

End malloc_inv.
