(* ===== verification/KMallocMain.v ===== *)
(** * Pintos: what the clients of the block allocator can rely on

    [calloc] and [realloc], the initialization, and the theorem about any sequence of
    calls: every block is private to its owner until it is freed, and when all are
    freed all arenas have been given back. *)

From stdpp Require Import base tactics list gmap sorting.
From Stdlib Require Import ZArith Lia.
From S2P Require Import Prelude KList KListProps KListSort KListMain KHash KHashProps KMalloc KMallocProps.

Local Open Scope Z_scope.

Section clients.
Context {P : Type} `{PageLaws P}.
Context (desc_list : nat → klist).
Implicit Types (s : mstate P) (L : gmap Z Z) (p c : Z).

Local Abbreviation ok := (ok desc_list).

Definition with_contents s (cs : gmap Z Z) : mstate P := MState (arenas s) (links s) (descs s) (pages s) cs.

Lemma ok_contents s L cs : ok s L → ok (with_contents s cs) L.
Proof.
  intros (ess & [] & Htr & HL). exists ess. split_and!; [by split|done|].
  intros p c. rewrite <- HL. by apply live_arenas.
Qed.

Lemma ok_bound s L p c : ok s L → L !! p = Some c → 0 < p ∧ 0 < c ∧ p + c ≤ 2 ^ 32.
Proof. intros (ess & Hw & _ & HL) Hp. eapply live_bound; [exact Hw|]. by apply HL. Qed.

Lemma ok_apart s L p c p' c' :
  ok s L → L !! p = Some c → L !! p' = Some c' → p ≠ p' → p + c ≤ p' ∨ p' + c' ≤ p.
Proof.
  intros (ess & Hw & _ & HL) Hp%HL Hp'%HL Hne. by destruct (live_apart _ _ _ _ _ _ _ _ Hw Hp Hp') as [[? _]|?].
Qed.

(** Writing inside a block leaves the others alone. *)
Lemma same_bytes_inside s L p c q (n : nat) cs :
  ok s L → L !! p = Some c → p ≤ q → q + Z.of_nat n ≤ p + c →
  (∀ z, ¬ q ≤ z < q + Z.of_nat n → cs !! z = contents s !! z) →
  same_bytes (delete p L) s (with_contents s cs).
Proof.
  intros Hok Hp Hq Hn Hcs p' c' z [Hne Hp']%lookup_delete_Some Hz. cbn. apply Hcs.
  destruct (ok_apart s L p c p' c' Hok Hp Hp' Hne); lia.
Qed.

(** ** [calloc] *)

Lemma wp_calloc t a b Q s L :
  ok s L → 0 ≤ a → 0 ≤ b → a * b + 4107 < 2 ^ 32 →
  (∀ s', ok s' L → same_bytes L s s' → Q None s') →
  (∀ s' p c, ok s' (<[p := c]> L) → same_bytes L s s' → L !! p = None → 0 < a * b ≤ c →
     (∀ z, p ≤ z < p + a * b → contents s' !! z = Some 0) → Q (Some p) s') →
  wp t (calloc a b) Q s.
Proof.
  intros Hok Ha Hb Hs HQn HQs. unfold calloc. assert (0 ≤ a * b) as H0' by nia.
  assert (wrap_u32 (a * b) = a * b) as -> by (apply Z.mod_small; lia).
  destruct (_ || _); [by apply wp_ret, HQn|]. apply wp_bind. eapply (wp_kmalloc desc_list); [exact Hok|done|done|]. split.
  - intros s1 Hok1 Hb1. apply wp_bind, wp_ret, wp_ret. by apply HQn.
  - intros s1 p c Hok1 Hb1 Hp Hc Hp0 Hpc. apply wp_bind, wp_modify, wp_ret.
    change (MState _ _ _ _ _) with (with_contents s1 (fill p (Z.to_nat (a * b)) (Some 0) (contents s1))).
    apply (HQs _ p c); [by apply ok_contents| |done|done|].
    + assert (same_bytes (delete p (<[p := c]> L)) s1 (with_contents s1 (fill p (Z.to_nat (a * b)) (Some 0) (contents s1)))) as Hin.
      { apply (same_bytes_inside s1 (<[p := c]> L) p c p (Z.to_nat (a * b))); [done|by rewrite lookup_insert_eq|lia|lia|].
        intros z Hz. by rewrite fill_lookup, decide_False. }
      rewrite delete_insert_id in Hin by done. by eapply same_bytes_trans.
    + intros z Hz. cbn. rewrite fill_lookup, decide_True by lia. done.
Qed.

(** ** [realloc] *)

Lemma wp_size_of_block t p c Q s L : ok s L → L !! p = Some c → Q c s → wp t (size_of_block p) Q s.
Proof.
  intros (ess & Hw & _ & HL) Hp%HL HQ. pose proof Hp as (a & x & Ha & Hb & _).
  pose proof (wf_arena _ _ _ _ Hw _ _ Ha) as [Hm (k & Ek & Hk & Hn & Hkn & _) Hsm].
  unfold size_of_block. apply wp_bind.
  eapply (wp_block_to_arena desc_list _ None a x k p c); [apply Hw|done|done|done|done|intros i E; by apply Hsm|done|].
  unfold is_block in Hb. destruct (a_desc x) as [i|] eqn:Hd.
  - destruct Hb as (j & Hj & -> & ->). apply wp_bind.
    eapply (wp_get_desc desc_list _ None); [apply Hw|by apply Hsm|]. by apply wp_ret.
  - destruct Hb as [-> ->]. apply wp_ret. unfold npages in *. rewrite Hd in *.
    rewrite pg_ofs_mod, Ek, Z.add_comm, Z.mod_add by lia. unfold PAGE, wrap_u32. change (12 mod 4096) with 12.
    rewrite (Z.mod_small (4096 * free_cnt x)) by lia. rewrite Z.mod_small by lia.
    by replace (4096 * free_cnt x - 12) with (free_cnt x * 4096 - 12) by lia.
Qed.

Lemma copy_lookup dst src n (m : gmap Z Z) z :
  dst + Z.of_nat n ≤ src ∨ src + Z.of_nat n ≤ dst →
  copy dst src n m !! z = if decide (dst ≤ z < dst + Z.of_nat n) then m !! (z - dst + src) else m !! z.
Proof.
  revert dst src m. induction n as [|n IH]; intros dst src m Hd; cbn [copy].
  { by rewrite decide_False by lia. }
  rewrite IH by lia. destruct (decide (z = dst)) as [->|Hz].
  - rewrite decide_False, lookup_partial_alter_eq, decide_True by lia. f_equal. lia.
  - destruct (decide (dst ≤ z < dst + Z.of_nat (S n))) as [Hin|Hin].
    + rewrite decide_True by lia. rewrite lookup_partial_alter_ne by lia. f_equal. lia.
    + rewrite decide_False by lia. by rewrite lookup_partial_alter_ne by lia.
Qed.

Lemma wp_realloc_null t size Q s L :
  ok s L → 0 ≤ size → size + 4107 < 2 ^ 32 →
  allocates desc_list size s L Q → wp t (realloc None size) Q s.
Proof.
  intros Hok H0' Hs HQ. unfold realloc. case_bool_decide.
  - apply wp_bind, wp_ret, wp_ret. destruct HQ as [HQ _]. apply HQ; [done|apply same_bytes_refl].
  - apply wp_bind. eapply (wp_kmalloc desc_list); [exact Hok|done|done|]. destruct HQ as [HQn HQs]. split.
    + intros s1 Hok1 Hb1. apply wp_bind, wp_ret, wp_ret. by apply HQn.
    + intros s1 p c Hok1 Hb1 Hp Hc Hp0 Hpc. apply wp_bind, wp_ret, wp_ret. by eapply HQs.
Qed.

Lemma wp_realloc t o c size Q s L :
  ok s L → L !! o = Some c → 0 ≤ size → size + 4107 < 2 ^ 32 →
  (∀ s', size = 0 → ok s' (delete o L) → same_bytes (delete o L) s s' → Q None s') →
  (∀ s', 0 < size → ok s' L → same_bytes L s s' → Q None s') →
  (∀ s' p c', ok s' (<[p := c']> (delete o L)) → same_bytes (delete o L) s s' → delete o L !! p = None →
     0 < size ≤ c' → (∀ z, 0 ≤ z < Z.min size c → contents s' !! (p + z) = contents s !! (o + z)) → Q (Some p) s') →
  wp t (realloc (Some o) size) Q s.
Proof.
  intros Hok Ho H0' Hs HQz HQn HQs. unfold realloc. case_bool_decide as Hz.
  { apply wp_bind. eapply (wp_kfree desc_list); [exact Hok|exact Ho|]. intros s1 Hok1 Hb1. apply wp_ret. by apply HQz. }
  apply wp_bind. eapply (wp_kmalloc desc_list); [exact Hok|done|done|]. split.
  { intros s1 Hok1 Hb1. apply wp_bind, wp_ret, wp_ret. apply HQn; [lia|done|done]. }
  intros s1 p c' Hok1 Hb1 Hp Hc Hp0 Hpc. assert (o ≠ p) as Hne by congruence.
  assert (<[p := c']> L !! o = Some c) as Ho1 by (by rewrite lookup_insert_ne).
  assert (<[p := c']> L !! p = Some c') as Hp1 by (by rewrite lookup_insert_eq).
  destruct (ok_bound _ _ _ _ Hok Ho) as (? & ? & ?).
  apply wp_bind. apply wp_bind. eapply wp_size_of_block; [exact Hok1|exact Ho1|].
  set (n := if bool_decide (size < c) then size else c). assert (n = Z.min size c) as En by (subst n; case_bool_decide; lia).
  assert (0 ≤ n ≤ c') as Hn by lia. apply wp_bind, wp_modify.
  set (cs := copy p o (Z.to_nat n) (contents s1)). change (MState _ _ _ _ _) with (with_contents s1 cs).
  assert (p + Z.of_nat (Z.to_nat n) ≤ o ∨ o + Z.of_nat (Z.to_nat n) ≤ p) as Hd
    by (destruct (ok_apart _ _ p c' o c Hok1 Hp1 Ho1); [congruence|lia|lia]).
  assert (∀ z, cs !! z = if decide (p ≤ z < p + n) then contents s1 !! (z - p + o) else contents s1 !! z) as Hcs.
  { intros z. subst cs. rewrite copy_lookup by done. apply decide_ext. lia. }
  eapply (wp_kfree desc_list); [by apply ok_contents|exact Ho1|]. intros s2 Hok2 Hb2. apply wp_ret.
  rewrite delete_insert_ne in Hok2, Hb2 by congruence.
  assert (∀ z, p ≤ z < p + c' → contents s2 !! z = cs !! z) as Hb2p.
  { intros z Hz'. apply (Hb2 p c'); [by rewrite lookup_insert_eq|done]. }
  apply (HQs s2 p c'); [done| |by rewrite lookup_delete_ne by congruence|lia|].
  - intros q c2 z Hq Hz'. assert (q ≠ p) as Hqp by (intros ->; rewrite lookup_delete_ne in Hq by congruence; congruence).
    rewrite (Hb2 q c2) by (done || by rewrite lookup_insert_ne). cbn. apply lookup_delete_Some in Hq as [_ Hq].
    rewrite Hcs, decide_False; [by apply (Hb1 q c2)|].
    destruct (ok_apart _ (<[p := c']> L) p c' q c2 Hok1 Hp1); [by rewrite lookup_insert_ne|congruence|lia|lia].
  - intros z Hz'. rewrite Hb2p, Hcs, decide_True by lia. replace (p + z - p + o) with (o + z) by lia.
    apply (Hb1 o c); [done|lia].
Qed.

(** ** [malloc_init] *)

(** The list headers of the descriptors are distinct and lie outside the pages that
    the page allocator manages. *)
Definition static_headers (p : P) : Prop :=
  NoDup (headers (desc_list <$> seq 0 7)) ∧
  ∀ e, e ∈ headers (desc_list <$> seq 0 7) → ¬ pg_free p (Z.pos e / 4096) ∧ ¬ pg_used p (Z.pos e / 4096).

Definition before_init s : Prop := arenas s = ∅ ∧ descs s = [] ∧ pg_wf (pages s) ∧ static_headers (pages s).

Local Abbreviation hdr := (λ i : nat, desc_list <$> seq 0 i).

Lemma hdr_S i : hdr (S i) = hdr i ++ [desc_list i].
Proof. cbn beta. by rewrite seq_S, fmap_app. Qed.

Lemma hdr_next i :
  (i < 7)%nat → NoDup (headers (hdr 7%nat)) →
  head (desc_list i) ≠ tail (desc_list i) ∧ head (desc_list i) ∉ headers (hdr i) ∧ tail (desc_list i) ∉ headers (hdr i).
Proof.
  intros Hi Hnd. cbn beta in *. replace 7%nat with (i + S (6 - i))%nat in Hnd by lia.
  rewrite seq_app, fmap_app in Hnd. cbn [seq fmap list_fmap] in Hnd. unfold headers in *. rewrite bind_app, bind_cons in Hnd.
  apply NoDup_app in Hnd as (_ & Hx & [Hy _]%NoDup_cons). cbn [Nat.add] in *. split_and!.
  - intros E. apply Hy. rewrite E. by left.
  - intros Ha. apply (Hx _ Ha). by left.
  - intros Ha. apply (Hx _ Ha). right. by left.
Qed.

Lemma empties_nodes ls j q : empties ls !! j = Some q → q.2 = [] ∧ q.1 ∈ ls.
Proof.
  unfold empties. rewrite list_lookup_fmap. intros (l & Hl & ->)%fmap_Some. split; [done|]. by eapply list_elem_of_lookup_2.
Qed.

Lemma fam_hdr_next i h :
  (i < 7)%nat → NoDup (headers (hdr 7%nat)) → fam h (empties (hdr i)) →
  fam (<[tail (desc_list i) := ListElem (Some (head (desc_list i))) None]>
         (<[head (desc_list i) := ListElem None (Some (tail (desc_list i)))]> h)) (empties (hdr (S i))).
Proof.
  intros Hi Hnd Hf. destruct (hdr_next i Hi Hnd) as (Hne & Hh & Ht). rewrite hdr_S. unfold empties. rewrite fmap_app.
  apply fam_init; [exact Hf|done|]. intros j [l es] Hj. apply empties_nodes in Hj as [E Hl]. cbn in E, Hl. subst es.
  assert (∀ e, e ∉ headers (hdr i) → e ∉ nodes_of (l, [])) as Hout; [|by split; apply Hout].
  intros e He [E|[E|[]%elem_of_nil]]%elem_of_nodes; cbn in E; apply He, elem_of_headers; eauto.
Qed.

(** [malloc_init] as it stands after [i] descriptors *)
Definition init_at s0 (i : nat) s : Prop :=
  descs s = std_desc desc_list None <$> seq 0 i ∧ arenas s = ∅ ∧ pages s = pages s0 ∧ contents s = contents s0 ∧
  fam (links s) (empties (hdr i)).

Lemma wp_malloc_init t Q s :
  before_init s → (∀ s', ok s' ∅ → contents s' = contents s → Q tt s') → wp t (malloc_init desc_list) Q s.
Proof.
  intros (Ha & Hd & Hp & Hnd & Hst) HQ. unfold malloc_init.
  assert (∀ n i s1, (i + n = 7)%nat → init_at s i s1 →
    wp t (loop (3 + n) (λ block_size,
       if bool_decide (block_size < PAGE / 2) then
         s ← get;
         let i := length (descs s) in
         check (bool_decide (S i ≤ 10)%nat);;
         modify (λ s, MState (arenas s) (links s)
                   (descs s ++ [Desc block_size ((PAGE - ARENA_SIZE) / block_size) (desc_list i) false])
                   (pages s) (contents s));;
         on_links (list_init (desc_list i));;
         mret (inl (block_size * 2))
       else mret (inr tt)) (bs i)) Q s1) as Hgo.
  { induction n as [|n IH]; intros i s1 Hi (Hd1 & Ha1 & Hp1 & Hc1 & Hf1);
      [change (3 + 0)%nat with (S 2)|change (3 + S n)%nat with (S (3 + n))]; rewrite loop_S; apply wp_bind.
    - assert (i = 7%nat) as -> by lia. rewrite bool_decide_false by done. apply wp_ret, wp_ret, HQ; [|done].
      exists (replicate 7 []). split_and!.
      + split; [done|done|exact Hf1|by rewrite Hp1| | | |].
        * intros i e Hi7 He. rewrite Hp1. apply Hst, elem_of_headers. exists (desc_list i). split; [|done].
          apply list_elem_of_fmap_2, elem_of_seq. lia.
        * intros a x. by rewrite Ha1.
        * intros a x a' x' z. by rewrite Ha1.
        * intros i es e [-> _]%lookup_replicate []%elem_of_nil.
      + intros a x i. by rewrite Ha1.
      + intros p c. split; [|done]. intros (a & x & Hx & _). by rewrite Ha1 in Hx.
    - rewrite bool_decide_true by (pattern i; apply desc_cases; [lia|by vm_compute..]).
      apply wp_bind, wp_get. cbn zeta. rewrite Hd1, length_fmap, length_seq.
      apply wp_bind, wp_check; [apply bool_decide_eq_true; lia|]. apply wp_bind, wp_modify. apply wp_bind, wp_on_links.
      unfold list_init. apply wp_bind, wp_modify, wp_modify. cbn [arenas links descs pages contents].
      apply wp_ret. replace (bs i * 2) with (bs (S i)) by (unfold bs; rewrite Nat2Z.inj_succ, Z.pow_succ_r by lia; lia).
      apply IH; [lia|]. split_and!; cbn [arenas links descs pages contents]; [|done|done|done|by apply fam_hdr_next; [lia|..]].
      rewrite seq_S, fmap_app, Hd1. done. }
  apply (Hgo 7%nat 0%nat); [done|]. split_and!; [done|done|done|done|]. split; by intros [].
Qed.

(** ** Sequences of calls *)

(** What a client holds: a pointer, the size it asked for and the bytes it knows, by
    their offset.  A slot without one is a null pointer. *)
Record hnd := Hnd { h_ptr : Z; h_size : Z; h_known : gmap Z Z }.

Inductive mop :=
  | Malloc (size : Z)
  | Calloc (a b : Z)
  | Realloc (n : nat) (size : Z)
  | Free (n : nat)
  | Write (n : nat) (ofs v : Z).

Definition fits (size : Z) : bool := bool_decide (0 ≤ size) && bool_decide (size + 4107 < 2 ^ 32).

(** The sizes for which [size + sizeof *a], rounded up to pages, does not wrap *)
Definition legal (o : mop) : bool :=
  match o with
  | Malloc size | Realloc _ size => fits size
  | Calloc a b => bool_decide (0 ≤ a) && bool_decide (0 ≤ b) && fits (a * b)
  | Free _ | Write _ _ _ => true
  end.

Definition slot (hs : list (option hnd)) (n : nat) : option hnd := hs !! n ≫= id.

Definition mcall (o : mop) (hs : list (option hnd)) : M (mstate P) (list (option hnd)) :=
  match o with
  | Malloc size => r ← malloc size; mret (hs ++ [(λ p, Hnd p size ∅) <$> r])
  | Calloc a b => r ← calloc a b; mret (hs ++ [(λ p, Hnd p (a * b) (fill 0 (Z.to_nat (a * b)) (Some 0) ∅)) <$> r])
  | Realloc n size =>
      match slot hs n with
      | Some h =>
          r ← realloc (Some (h_ptr h)) size;
          mret match r with
               | Some p => <[n := Some (Hnd p size (filter (λ kv, kv.1 < size) (h_known h)))]> hs
               | None => if bool_decide (size = 0) then <[n := None]> hs else hs
               end
      | None => r ← realloc None size; mret (hs ++ [(λ p, Hnd p size ∅) <$> r])
      end
  | Free n => free (h_ptr <$> slot hs n);; mret (<[n := None]> hs)
  | Write n ofs v =>
      match slot hs n with
      | Some h =>
          if bool_decide (0 ≤ ofs < h_size h) then
            set_contents <[h_ptr h + ofs := v]>;;
            mret (<[n := Some (Hnd (h_ptr h) (h_size h) (<[ofs := v]> (h_known h)))]> hs)
          else mret hs
      | None => mret hs
      end
  end.

Fixpoint mcalls (os : list mop) (hs : list (option hnd)) : M (mstate P) (list (option hnd)) :=
  match os with
  | [] => mret hs
  | o :: os => hs ← mcall o hs; mcalls os hs
  end.

(** The slot's block is in use, large enough, and holds what the client knows. *)
Definition backed s L (h : hnd) : Prop :=
  (∃ c, L !! h_ptr h = Some c ∧ h_size h ≤ c) ∧
  ∀ ofs v, h_known h !! ofs = Some v → 0 ≤ ofs < h_size h ∧ contents s !! (h_ptr h + ofs) = Some v.

Record served s L (hs : list (option hnd)) : Prop := {
  sv_ok : ok s L;
  sv_slot n h : slot hs n = Some h → backed s L h;
  sv_own n m h h' : slot hs n = Some h → slot hs m = Some h' → h_ptr h = h_ptr h' → n = m;
  sv_all p c : L !! p = Some c → ∃ n h, slot hs n = Some h ∧ h_ptr h = p
}.

Lemma slot_app hs x n :
  slot (hs ++ [x]) n = if decide (n = length hs) then x else slot hs n.
Proof.
  unfold slot. case_decide as Hn.
  - subst. by rewrite list_lookup_middle.
  - destruct (decide (n < length hs)%nat); [by rewrite lookup_app_l|].
    rewrite (lookup_ge_None_2 (hs ++ [x])), (lookup_ge_None_2 hs); [done|lia|rewrite length_app; cbn; lia].
Qed.

Lemma slot_insert hs n h x m :
  slot hs n = Some h → slot (<[n := x]> hs) m = if decide (m = n) then x else slot hs m.
Proof.
  unfold slot. intros Hn. assert (n < length hs)%nat as Hl.
  { destruct (hs !! n) eqn:E; [by eapply lookup_lt_Some|done]. }
  case_decide as Hm; [subst; by rewrite list_lookup_insert_eq|by rewrite list_lookup_insert_ne].
Qed.

Lemma slot_insert_none hs n m : slot hs n = None → slot (<[n := None]> hs) m = slot hs m.
Proof.
  unfold slot. intros Hn. destruct (decide (m = n)) as [->|Hm]; [|by rewrite list_lookup_insert_ne].
  destruct (decide (n < length hs)%nat); [rewrite list_lookup_insert_eq by done|by rewrite list_insert_ge by lia].
  by rewrite Hn.
Qed.

(** A slot keeps its block when the blocks of [L'] have kept their bytes. *)
Lemma backed_keep s s' L L' h :
  backed s L h → same_bytes L' s s' → L' !! h_ptr h = L !! h_ptr h →
  ∀ L'', L'' !! h_ptr h = L !! h_ptr h → backed s' L'' h.
Proof.
  intros [(c & Hc & Hs) Hk] Hb HL L'' HL''. split; [exists c; by rewrite HL''|]. intros ofs v Hv.
  destruct (Hk ofs v Hv) as [Ho Hx]. split; [done|]. rewrite (Hb (h_ptr h) c); [done|by rewrite HL|lia].
Qed.

(** A call that leaves the slots and the blocks as they are *)
Lemma served_same s s' L hs hs' :
  served s L hs → ok s' L → same_bytes L s s' → (∀ n, slot hs' n = slot hs n) → served s' L hs'.
Proof.
  intros [_ Hs Ho Ha] Hok Hb Hsl. split; [done| | |].
  - intros n h. rewrite Hsl. intros Hn. by eapply backed_keep; [apply (Hs n)|done..].
  - intros n m h h'. rewrite !Hsl. apply Ho.
  - intros p c Hp. destruct (Ha p c Hp) as (n & h & Hn & E). exists n, h. by rewrite Hsl.
Qed.

(** The slot [n] changes from the blocks [L] to a new block at [p]. *)
Lemma served_set s s' L hs hs' n p c size known :
  (∀ m, m ≠ n → slot hs' m = slot hs m) → slot hs' n = Some (Hnd p size known) →
  (∀ m h, slot hs m = Some h → m ≠ n → backed s L h) →
  (∀ m m' h h', slot hs m = Some h → slot hs m' = Some h' → h_ptr h = h_ptr h' → m = m') →
  (∀ q c', L !! q = Some c' → ∃ m h, slot hs m = Some h ∧ m ≠ n ∧ h_ptr h = q) →
  ok s' (<[p := c]> L) → same_bytes L s s' → L !! p = None → size ≤ c →
  (∀ ofs v, known !! ofs = Some v → 0 ≤ ofs < size ∧ contents s' !! (p + ofs) = Some v) →
  served s' (<[p := c]> L) hs'.
Proof.
  intros Hoth Hn Hs Ho Ha Hok Hb Hp Hc Hk.
  assert (∀ m h, slot hs m = Some h → m ≠ n → h_ptr h ≠ p) as Hne.
  { intros m h Hm Hmn E. destruct (Hs m h Hm Hmn) as [(c' & Hc' & _) _]. congruence. }
  split; [done| | |].
  - intros m h Hm. destruct (decide (m = n)) as [->|Hmn].
    + rewrite Hn in Hm. injection Hm as <-. split; [|done]. exists c. split; [apply lookup_insert_eq|done].
    + rewrite Hoth in Hm by done. pose proof (Hne m h Hm Hmn). eapply backed_keep; [by eapply Hs|done|done|].
      by rewrite lookup_insert_ne.
  - intros m m' h h' Hm Hm' E. destruct (decide (m = n)) as [->|Hmn], (decide (m' = n)) as [->|Hmn']; [done| | |].
    + rewrite Hn in Hm. injection Hm as <-. rewrite Hoth in Hm' by done. cbn in E. by destruct (Hne m' h').
    + rewrite Hn in Hm'. injection Hm' as <-. rewrite Hoth in Hm by done. cbn in E. by destruct (Hne m h).
    + rewrite Hoth in Hm, Hm' by done. by eapply Ho.
  - intros q c' [[<- _]|[_ Hq]]%lookup_insert_Some; [by exists n, (Hnd p size known)|].
    destruct (Ha q c' Hq) as (m & h & Hm & Hmn & E). exists m, h. by rewrite Hoth.
Qed.

(** The slot [n] loses its block. *)
Lemma served_drop s s' L hs hs' n h :
  served s L hs → slot hs n = Some h → (∀ m, slot hs' m = if decide (m = n) then None else slot hs m) →
  ok s' (delete (h_ptr h) L) → same_bytes (delete (h_ptr h) L) s s' → served s' (delete (h_ptr h) L) hs'.
Proof.
  intros [_ Hs Ho Ha] Hn Hsl Hok Hb. split; [done| | |].
  - intros m h' Hm. rewrite Hsl in Hm. case_decide as Hmn; [done|].
    assert (h_ptr h ≠ h_ptr h') as Hne by (intros E; by destruct (Ho n m h h' Hn Hm E)).
    eapply backed_keep; [by eapply Hs|done|by rewrite lookup_delete_ne..].
  - intros m m' h1 h2. rewrite !Hsl. repeat case_decide; [done..|]. apply Ho.
  - intros q c' [Hne Hq]%lookup_delete_Some. destruct (Ha q c' Hq) as (m & h' & Hm & E). exists m, h'.
    rewrite Hsl, decide_False; [done|]. intros ->. rewrite Hn in Hm. by injection Hm as ->.
Qed.

(** A new slot at the end *)
Lemma served_app s s' L hs p c size known :
  served s L hs → ok s' (<[p := c]> L) → same_bytes L s s' → L !! p = None → size ≤ c →
  (∀ ofs v, known !! ofs = Some v → 0 ≤ ofs < size ∧ contents s' !! (p + ofs) = Some v) →
  served s' (<[p := c]> L) (hs ++ [Some (Hnd p size known)]).
Proof.
  intros [_ Hs Ho Ha] Hok Hb Hp Hc Hk.
  eapply (served_set s s' L hs _ (length hs) p c size known); [| | | | |done|done|done|done|done].
  - intros m Hm. by rewrite slot_app, decide_False.
  - by rewrite slot_app, decide_True.
  - intros m h Hm _. by eapply Hs.
  - done.
  - intros q c' Hq. destruct (Ha q c' Hq) as (m & h & Hm & E). exists m, h. split_and!; [done| |done].
    intros ->. unfold slot in Hm. by rewrite lookup_ge_None_2 in Hm.
Qed.

Lemma served_app_none s s' L hs : served s L hs → ok s' L → same_bytes L s s' → served s' L (hs ++ [None]).
Proof.
  intros Hsv Hok Hb. eapply served_same; [done|done|done|]. intros n. rewrite slot_app. case_decide as Hn; [|done].
  subst. unfold slot. by rewrite lookup_ge_None_2.
Qed.

Lemma served_allocates size s L hs :
  served s L hs →
  allocates desc_list size s L (λ r s', ∃ L', served s' L' (hs ++ [(λ p, Hnd p size ∅) <$> r])).
Proof.
  intros Hsv. split.
  - intros s' Hok Hb. exists L. by eapply served_app_none.
  - intros s' p c Hok Hb Hp Hc Hp0 Hpc. exists (<[p := c]> L). eapply served_app; [done|done|done|done|lia|done].
Qed.

Lemma fits_spec size : fits size = true → 0 ≤ size ∧ size + 4107 < 2 ^ 32.
Proof. unfold fits. intros [H1%bool_decide_eq_true H2%bool_decide_eq_true]%andb_prop. done. Qed.

Lemma served_block s L hs n h : served s L hs → slot hs n = Some h → ∃ c, L !! h_ptr h = Some c ∧ h_size h ≤ c.
Proof. intros Hsv Hn. by destruct (sv_slot _ _ _ Hsv n h Hn). Qed.

(** The new block of [realloc] takes the place of the old one. *)
Lemma served_realloc s s' L hs n h p c c' size :
  served s L hs → slot hs n = Some h → L !! h_ptr h = Some c → 0 < size ≤ c' →
  ok s' (<[p := c']> (delete (h_ptr h) L)) → same_bytes (delete (h_ptr h) L) s s' → delete (h_ptr h) L !! p = None →
  (∀ z, 0 ≤ z < Z.min size c → contents s' !! (p + z) = contents s !! (h_ptr h + z)) →
  served s' (<[p := c']> (delete (h_ptr h) L))
    (<[n := Some (Hnd p size (filter (λ kv, kv.1 < size) (h_known h)))]> hs).
Proof.
  intros [_ Hs Ho Ha] Hn Hc Hc' Hok Hb Hp Hcp. destruct (Hs n h Hn) as [(c0 & Hc0 & Hsz) Hk].
  rewrite Hc in Hc0. injection Hc0 as <-.
  eapply (served_set s s' (delete (h_ptr h) L) hs _ n p c' size); [| | | | |done|done|done|lia|].
  - intros m Hm. by rewrite (slot_insert _ _ h), decide_False.
  - by rewrite (slot_insert _ _ h), decide_True.
  - intros m h' Hm Hmn. assert (h_ptr h ≠ h_ptr h') as Hne by (intros E; by destruct (Ho n m h h' Hn Hm E)).
    eapply (backed_keep s s L L); [by eapply Hs|apply same_bytes_refl|done|by rewrite lookup_delete_ne].
  - done.
  - intros q c2 [Hne Hq]%lookup_delete_Some. destruct (Ha q c2 Hq) as (m & h' & Hm & E). exists m, h'.
    split_and!; [done| |done]. intros ->. congruence.
  - intros ofs v [Hv Hlt]%map_lookup_filter_Some. cbn in Hlt. destruct (Hk ofs v Hv) as [H1 H2].
    split; [lia|]. rewrite Hcp by lia. done.
Qed.

(** A write inside the block *)
Lemma served_write s L hs n h ofs v :
  served s L hs → slot hs n = Some h → 0 ≤ ofs < h_size h →
  served (with_contents s (<[h_ptr h + ofs := v]> (contents s))) L
    (<[n := Some (Hnd (h_ptr h) (h_size h) (<[ofs := v]> (h_known h)))]> hs).
Proof.
  intros Hsv Hn Ho. pose proof Hsv as [Hok Hs Hi Ha]. destruct (Hs n h Hn) as [(c & Hc & Hsz) Hk].
  rewrite <- (insert_delete_id L (h_ptr h) c Hc).
  assert (same_bytes (delete (h_ptr h) L) s (with_contents s (<[h_ptr h + ofs := v]> (contents s)))) as Hb.
  { apply (same_bytes_inside s L (h_ptr h) c (h_ptr h + ofs) 1); [done|done|lia|lia|]. intros z Hz. by rewrite lookup_insert_ne by lia. }
  eapply (served_set s _ (delete (h_ptr h) L) hs _ n (h_ptr h) c (h_size h)); [| | | | | |done|by rewrite lookup_delete_eq|done|].
  - intros m Hm. by rewrite (slot_insert _ _ h), decide_False.
  - by rewrite (slot_insert _ _ h), decide_True.
  - intros m h' Hm Hmn. assert (h_ptr h ≠ h_ptr h') as Hne by (intros E; by destruct (Hi n m h h' Hn Hm E)).
    eapply (backed_keep s s L L); [by eapply Hs|apply same_bytes_refl|done|by rewrite lookup_delete_ne].
  - done.
  - intros q c2 [Hne Hq]%lookup_delete_Some. destruct (Ha q c2 Hq) as (m & h' & Hm & E). exists m, h'.
    split_and!; [done| |done]. intros ->. congruence.
  - rewrite insert_delete_id by done. by apply ok_contents.
  - intros o v' [[<- <-]|[Hne Hv]]%lookup_insert_Some; cbn [with_contents contents].
    + split; [lia|]. by rewrite lookup_insert_eq.
    + destruct (Hk o v' Hv). split; [lia|]. by rewrite lookup_insert_ne by lia.
Qed.

Lemma wp_mcall t o hs s L :
  legal o = true → served s L hs → wp t (mcall o hs) (λ hs' s', ∃ L', served s' L' hs') s.
Proof.
  intros Hl Hsv. pose proof (sv_ok _ _ _ Hsv) as Hok. destruct o as [size|a b|n size|n|n ofs v]; cbn [legal mcall] in *.
  - apply fits_spec in Hl as [H1 H2]. apply wp_bind.
    eapply (wp_kmalloc desc_list); [exact Hok|done|done|].
    destruct (served_allocates size s L hs Hsv) as [Hn Hs]. split; intros; apply wp_ret; eauto.
  - apply andb_prop in Hl as [[H1%bool_decide_eq_true H2%bool_decide_eq_true]%andb_prop [H3 H4]%fits_spec].
    apply wp_bind. eapply wp_calloc; [exact Hok|done|done|done| |].
    + intros s' Hok' Hb. apply wp_ret. exists L. by eapply served_app_none.
    + intros s' p c Hok' Hb Hp Hc Hz. apply wp_ret. exists (<[p := c]> L). eapply served_app; [done|done|done|done|lia|].
      intros o v. rewrite fill_lookup. case_decide as Ho; [|by rewrite lookup_empty]. intros [= <-].
      split; [lia|]. apply Hz. lia.
  - apply fits_spec in Hl as [H1 H2]. destruct (slot hs n) as [h|] eqn:Hn; apply wp_bind.
    + destruct (served_block _ _ _ _ _ Hsv Hn) as (c & Hc & Hsz).
      eapply wp_realloc; [exact Hok|exact Hc|done|done| | |].
      * intros s' -> Hok' Hb. apply wp_ret. rewrite bool_decide_true by done. eexists.
        eapply (served_drop s s' L hs _ n h); [done|done| |done|done]. intros m. by apply (slot_insert _ _ h).
      * intros s' Hpos Hok' Hb. apply wp_ret. rewrite bool_decide_false by lia. exists L. by eapply served_same.
      * intros s' p c' Hok' Hb Hp Hc' Hcp. apply wp_ret. eexists. by eapply served_realloc.
    + eapply wp_realloc_null; [exact Hok|done|done|].
      destruct (served_allocates size s L hs Hsv) as [Hx Hs]. split; intros; apply wp_ret; eauto.
  - apply wp_bind. destruct (slot hs n) as [h|] eqn:Hn; cbn [fmap option_fmap option_map].
    + destruct (served_block _ _ _ _ _ Hsv Hn) as (c & Hc & Hsz).
      eapply (wp_kfree desc_list); [exact Hok|exact Hc|]. intros s' Hok' Hb. apply wp_ret. eexists.
      eapply (served_drop s s' L hs _ n h); [done|done| |done|done]. intros m. by apply (slot_insert _ _ h).
    + apply wp_ret, wp_ret. exists L. eapply served_same; [done|done|apply same_bytes_refl|]. intros m. by apply slot_insert_none.
  - destruct (slot hs n) as [h|] eqn:Hn; [|apply wp_ret; by exists L].
    case_bool_decide as Ho; [|apply wp_ret; by exists L].
    apply wp_bind, wp_modify, wp_ret. exists L. by apply served_write.
Qed.

Lemma wp_mcalls t os hs s L :
  Forall (λ o, legal o = true) os → served s L hs → wp t (mcalls os hs) (λ hs' s', ∃ L', served s' L' hs') s.
Proof.
  revert hs s L. induction os as [|o os IH]; intros hs s L Hl Hsv; cbn [mcalls].
  - apply wp_ret. by exists L.
  - apply Forall_cons in Hl as [Ho Hos]. apply wp_bind. eapply wp_mono; [by eapply wp_mcall|].
    intros hs' s' [L' Hsv']. by eapply IH.
Qed.

Lemma blocks_nodup a i n : (i < 7)%nat → 0 < a → NoDup (blocks a i n).
Proof.
  intros Hi Ha. unfold blocks. apply NoDup_fmap_2_strong; [|apply NoDup_seq]. intros j j' _ _ E.
  destruct (bs_bpa i Hi) as [Hb _]. assert (0 < blk a i (Z.of_nat j) ∧ 0 < blk a i (Z.of_nat j')) as [] by (unfold blk; nia).
  apply Z2Pos.inj in E; [|done..]. apply blk_inj in E; [|done]. lia.
Qed.

(** Without blocks in use there is no arena: a big one is a block, and a small one
    that is all free has been given back. *)
Lemma no_block_no_arena s : ok s ∅ → arenas s = ∅.
Proof.
  intros (ess & Hw & Htr & HL). apply map_eq. intros a. rewrite lookup_empty.
  destruct (arenas s !! a) as [x|] eqn:Ha; [exfalso|done].
  destruct (arena_at _ _ _ _ _ _ Hw Ha) as (k & Ek & Hk & _).
  destruct (a_desc x) as [i|] eqn:Hd.
  - pose proof (wf_arena _ _ _ _ Hw _ _ Ha) as [_ _ Hsm]. destruct (Hsm i Hd) as [Hi Hc].
    destruct (lookup_lt_is_Some_2 ess i) as [es He]; [rewrite (wf_length _ _ _ _ Hw); done|].
    pose proof (Htr a x i Ha Hd) as Hlt. rewrite (Hc es He) in Hlt. destruct (bs_bpa i Hi) as (_ & Hb & _).
    assert (∀ e, e ∈ blocks a i (Z.to_nat (bpa i)) → e ∈ filter (λ e, pg_round_down (Z.pos e) = a) es) as Hall.
    { intros e (j & Hj & ->)%elem_of_blocks. destruct (blk_page a i (Z.of_nat j) k Hi Ek ltac:(lia)) as (E1 & _ & E3 & _).
      apply list_elem_of_filter. split; [by rewrite Z2Pos.id by lia|].
      destruct (decide (Z.to_pos (blk a i (Z.of_nat j)) ∈ es)) as [|Hn]; [done|]. exfalso.
      assert (live s ess (blk a i (Z.of_nat j)) (bs i)) as Hlv; [|by apply HL in Hlv].
      exists a, x. split_and!; [done|unfold is_block; rewrite Hd; exists (Z.of_nat j); split_and!; (done || lia)|].
      intros i' Hi' (es' & He' & Hin). rewrite Hd in Hi'. injection Hi' as <-. rewrite He in He'. by injection He' as <-. }
    apply NoDup_submseteq, submseteq_length in Hall; [|apply blocks_nodup; [done|lia]].
    unfold count in Hlt. unfold blocks in Hall. rewrite length_fmap, length_seq in Hall. lia.
  - assert (live s ess (a + 12) (npages x * 4096 - 12)) as Hlv; [|by apply HL in Hlv].
    exists a, x. split_and!; [done|unfold is_block; by rewrite Hd|]. intros i E. congruence.
Qed.

Lemma served_empty s L hs : served s L hs → (∀ n, slot hs n = None) → L = ∅.
Proof.
  intros Hsv Hn. apply map_eq. intros p. rewrite lookup_empty. destruct (L !! p) as [c|] eqn:Hp; [|done].
  destruct (sv_all _ _ _ Hsv p c Hp) as (n & h & E & _). by rewrite Hn in E.
Qed.

(** ** The theorems *)

Definition blocks_sound (hs : list (option hnd)) s' : Prop :=
  (∀ n h, slot hs n = Some h → 0 < h_ptr h ∧ h_ptr h + h_size h ≤ 2 ^ 32 ∧
     ∀ ofs v, h_known h !! ofs = Some v → contents s' !! (h_ptr h + ofs) = Some v) ∧
  (∀ n m h h', slot hs n = Some h → slot hs m = Some h' → n ≠ m →
     h_ptr h + h_size h ≤ h_ptr h' ∨ h_ptr h' + h_size h' ≤ h_ptr h) ∧
  ((∀ n, slot hs n = None) → arenas s' = ∅).

(** C19 (safety): after [malloc_init], any sequence of [malloc], [calloc], [realloc]
    and [free] on the caller's own blocks, and of writes inside them, runs without a
    failed assertion or a stray access; then the blocks that are held do not overlap,
    are as large as was asked for and hold the bytes that were written, zeroed or
    copied into them; and when none is held every arena has been given back to the
    page allocator. *)
Theorem allocator_serves s os :
  before_init s → Forall (λ o, legal o = true) os →
  wp Full (malloc_init desc_list;; mcalls os []) blocks_sound s.
Proof.
  intros Hs Hl. apply wp_bind, wp_malloc_init; [done|]. intros s0 Hok0 _.
  eapply wp_mono; [eapply (wp_mcalls _ _ [] s0 ∅); [done|]|].
  { split; [done|by intros []..|done]. }
  intros hs s' [L Hsv]. pose proof (sv_ok _ _ _ Hsv) as Hok. split_and!.
  - intros n h Hn. destruct (sv_slot _ _ _ Hsv n h Hn) as [(c & Hc & Hsz) Hk].
    destruct (ok_bound _ _ _ _ Hok Hc) as (? & ? & ?). split_and!; [done|lia|]. intros ofs v Hv. by apply Hk.
  - intros n m h h' Hn Hm Hnm. destruct (served_block _ _ _ _ _ Hsv Hn) as (c & Hc & Hsz).
    destruct (served_block _ _ _ _ _ Hsv Hm) as (c' & Hc' & Hsz').
    destruct (ok_apart _ _ _ _ _ _ Hok Hc Hc'); [|lia|lia]. intros E. by apply Hnm, (sv_own _ _ _ Hsv n m h h').
  - intros Hn. apply no_block_no_arena. by rewrite <- (served_empty _ _ _ Hsv Hn).
Qed.

(** No block extends over the first page or the header of its arena. *)
Lemma ok_capacity s L p c : ok s L → L !! p = Some c → c ≤ 2 ^ 32 - 4108.
Proof.
  intros (ess & Hw & _ & HL) Hp%HL. destruct Hp as (a & x & Ha & Hb & _).
  destruct (block_range _ _ _ _ _ _ _ _ Hw Ha Hb) as (_ & _ & H1 & H2 & _).
  destruct (arena_at _ _ _ _ _ _ Hw Ha) as (k & -> & Hk & _ & Hkn & _). lia.
Qed.

(** A size within eleven bytes of 2^32 wraps in [size + sizeof *a]: one page is asked for. *)
Lemma wrapped_pages size : 2 ^ 32 - 12 < size < 2 ^ 32 → DIV_ROUND_UP (wrap_u32 (size + ARENA_SIZE)) PAGE = 1.
Proof.
  intros Hsz. unfold DIV_ROUND_UP, wrap_u32, ARENA_SIZE, PAGE.
  replace ((size + 12) mod 4294967296) with (size + 12 - 4294967296)
    by (apply (Z.mod_unique_pos _ _ 1); lia).
  rewrite Z.mod_small by lia. symmetry. apply (Z.div_unique_pos _ _ _ (size + 12 - 4294967296 - 1)); lia.
Qed.

(** What [malloc] does with a size that no descriptor serves *)
Lemma malloc_pages s L size n :
  ok s L → 1024 < size → DIV_ROUND_UP (wrap_u32 (size + ARENA_SIZE)) PAGE = n →
  malloc size s = (r ← palloc_get n;
                   match r with
                   | None => mret None
                   | Some a => set_arena a (Arena ARENA_MAGIC None n);; mret (Some (a + ARENA_SIZE))
                   end) s.
Proof.
  intros (ess & Hwf & _) Hsz Hn. unfold malloc. rewrite bool_decide_false by lia.
  unfold mbind at 1, M_bind at 1, get. cbn zeta. rewrite (wf_descs _ _ _ _ Hwf).
  pose proof (find_desc_spec desc_list None size) as Hfd. cbn zeta in Hfd. rewrite decide_False in Hfd by lia.
  by rewrite Hfd, bool_decide_true, Hn by done.
Qed.

(** C38 (error): a size within eleven bytes of 2^32 wraps in [size + sizeof *a] and a
    product of 2^32 or more can pass the check of [calloc].  The first is served as a
    request for 4084 bytes would be, the second as one for the product modulo 2^32:
    whenever the page allocator grants a page, [malloc] of almost 2^32 bytes returns
    that page's block; and every block the two calls return is smaller than what was
    asked for. *)
Theorem sizes_wrap s L size a b :
  ok s L → 2 ^ 32 - 12 < size < 2 ^ 32 →
  0 < a → 2 ^ 32 ≤ a * b → a ≤ wrap_u32 (a * b) → b ≤ wrap_u32 (a * b) → wrap_u32 (a * b) + 4107 < 2 ^ 32 →
  malloc size s = malloc 4084 s ∧ calloc a b s = calloc 1 (wrap_u32 (a * b)) s ∧
  (∀ pg s1, palloc_get 1 s = Done (Some pg, s1) → ∃ s', malloc size s = Done (Some (pg + ARENA_SIZE), s')) ∧
  wp Full (malloc size) (λ r s', ∀ p, r = Some p → ∃ c, ok s' (<[p := c]> L) ∧ c < size) s ∧
  wp Full (calloc a b) (λ r s', ∀ p, r = Some p → ∃ c, ok s' (<[p := c]> L) ∧ c < a * b) s.
Proof.
  intros Hok Hsz Ha0 Hab Ha Hb Hw. assert (∀ s' p c, ok s' (<[p := c]> L) → c ≤ 2 ^ 32 - 4108) as Hcap.
  { intros s' p c Hok'. eapply ok_capacity; [done|apply lookup_insert_eq]. }
  pose proof (wrapped_pages size Hsz) as Hp1.
  pose proof (malloc_pages s L size 1 Hok ltac:(lia) Hp1) as Hm.
  split_and!.
  - by rewrite Hm, (malloc_pages s L 4084 1 Hok).
  - unfold calloc. rewrite Z.mul_1_l.
    replace (wrap_u32 (wrap_u32 (a * b))) with (wrap_u32 (a * b)) by (unfold wrap_u32; by rewrite Z.mod_mod).
    by rewrite !bool_decide_false by lia.
  - intros pg s1 Hg. rewrite Hm. unfold mbind at 1, M_bind at 1. rewrite Hg. by eexists.
  - unfold wp. rewrite Hm. destruct Hok as (ess & Hwf & Htr & HL).
    apply (wp_malloc_big desc_list _ 1 1 _ s ess L); [done|done|done|lia|done|lia|]. split; [done|].
    intros s' p c Hok' _ _ _ _ _ q [= <-]. exists c. split; [done|]. pose proof (Hcap _ _ _ Hok'). lia.
  - unfold calloc. rewrite !bool_decide_false by lia. cbn [orb]. apply wp_bind.
    eapply (wp_kmalloc desc_list); [exact Hok|apply Z.mod_pos_bound; lia|done|]. split.
    + intros s' _ _. apply wp_bind, wp_ret, wp_ret. done.
    + intros s' p c Hok' _ _ _ _ _. apply wp_bind, wp_modify, wp_ret. intros q [= <-]. exists c.
      split; [by apply ok_contents|]. pose proof (Hcap _ _ _ Hok'). lia.
Qed.

End clients.
