(* ===== verification/KPalloc.v ===== *)
(** * Pintos: the page allocator

    [Project_3/threads/palloc.c], the whole file, on the bitmaps of [Bitmap]: two
    pools of pages, each with a bitmap of its used pages at the start of its memory.
    [memory] is what is known of the bytes of the pages.  A failed [ASSERT] and a
    [PANIC] stop the kernel: the result is then [None].  The lock of a pool is a
    flag, as for one thread; the line that [init_pool] prints is left out. *)

From stdpp Require Import base tactics list gmap.
From Stdlib Require Import ZArith Lia.
From S2P Require Import Prelude Bitmap KMalloc.

Local Open Scope Z_scope.

(** ** Addresses *)

Definition PHYS_BASE : Z := 0xc0000000.
Definition pg_no (va : Z) : Z := Z.shiftr va 12.

Definition ptov (paddr : Z) : option Z := ASSERT (bool_decide (paddr < PHYS_BASE)) (Some (wrap_u32 (paddr + PHYS_BASE))).

(** ** Data *)

Definition PAL_ASSERT : Z := 1.
Definition PAL_ZERO : Z := 2.
Definition PAL_USER : Z := 4.

(** [flags & f] *)
Definition flagged (flags f : Z) : bool := bool_decide (Z.land flags f ≠ 0).

Record pool := Pool { p_lock : bool; used_map : bitmap; base : Z }.

Record pmem := PMem { kernel_pool : pool; user_pool : pool; memory : gmap Z Z }.

(** Which of the two pools [struct pool *] points to *)
Definition get_pool (user : bool) (m : pmem) : pool := if user then user_pool m else kernel_pool m.
Definition set_pool (user : bool) (p : pool) (m : pmem) : pmem :=
  if user then PMem (kernel_pool m) p (memory m) else PMem p (user_pool m) (memory m).

Definition set_lock (user held : bool) (m : pmem) : option pmem :=
  let p := get_pool user m in
  ASSERT (negb (eqb (p_lock p) held)) (Some (set_pool user (Pool held (used_map p) (base p)) m)).

Definition set_memory (f : gmap Z Z → gmap Z Z) (m : pmem) : pmem :=
  PMem (kernel_pool m) (user_pool m) (f (memory m)).

(** ** Initialization *)

(** [buf] are the elements that follow the structure in the memory of the bitmap. *)
Definition init_pool (pbase page_cnt : Z) (buf : list Z) : option pool :=
  let bm_pages := DIV_ROUND_UP (bitmap_buf_size page_cnt) PAGE in
  if bool_decide (page_cnt < bm_pages) then None
  else
    let page_cnt := page_cnt - bm_pages in
    b ← bitmap_create_in_buf page_cnt buf (wrap_u32 (bm_pages * PAGE));
    Some (Pool false b (wrap_u32 (pbase + wrap_u32 (bm_pages * PAGE)))).

Definition palloc_init (init_ram_pages user_page_limit : Z) (kbuf ubuf : list Z) (memory : gmap Z Z) : option pmem :=
  free_start ← ptov (1024 * 1024);
  free_end ← ptov (wrap_u32 (init_ram_pages * PAGE));
  let free_pages := wrap_u32 (Z.quot (free_end - free_start) PAGE) in
  let user_pages := free_pages / 2 in
  let user_pages := if bool_decide (user_page_limit < user_pages) then user_page_limit else user_pages in
  let kernel_pages := wrap_u32 (free_pages - user_pages) in
  k ← init_pool free_start kernel_pages kbuf;
  u ← init_pool (wrap_u32 (free_start + kernel_pages * PAGE)) user_pages ubuf;
  Some (PMem k u memory).

(** ** Getting pages *)

Definition palloc_get_multiple (flags page_cnt : Z) (m : pmem) : option (option Z * pmem) :=
  let user := flagged flags PAL_USER in
  if bool_decide (page_cnt = 0) then Some (None, m)
  else
    m ← set_lock user true m;
    let p := get_pool user m in
    '(page_idx, b) ← bitmap_scan_and_flip (used_map p) 0 page_cnt false;
    let m := set_pool user (Pool (p_lock p) b (base p)) m in
    m ← set_lock user false m;
    let pages := if bool_decide (page_idx ≠ BITMAP_ERROR) then wrap_u32 (base p + wrap_u32 (PAGE * page_idx)) else 0 in
    if bool_decide (pages ≠ 0) then
      Some (Some pages,
            if flagged flags PAL_ZERO then set_memory (fill pages (Z.to_nat (wrap_u32 (PAGE * page_cnt))) (Some 0)) m
            else m)
    else if flagged flags PAL_ASSERT then None else Some (None, m).

Definition palloc_get_page (flags : Z) (m : pmem) : option (option Z * pmem) := palloc_get_multiple flags 1 m.

(** ** Giving pages back *)

Definition page_from_pool (p : pool) (page : Z) : bool :=
  let page_no := pg_no page in
  let start_page := pg_no (base p) in
  let end_page := wrap_u32 (start_page + bitmap_size (used_map p)) in
  bool_decide (start_page ≤ page_no) && bool_decide (page_no < end_page).

Definition palloc_free_multiple (pages page_cnt : Z) (m : pmem) : option pmem :=
  ASSERT (bool_decide (pg_ofs pages = 0))
    (if bool_decide (pages = 0) || bool_decide (page_cnt = 0) then Some m
     else
       user ← (if page_from_pool (kernel_pool m) pages then Some false
               else if page_from_pool (user_pool m) pages then Some true
               else None);
       let p := get_pool user m in
       let page_idx := wrap_u32 (pg_no pages - pg_no (base p)) in
       let m := set_memory (fill pages (Z.to_nat (wrap_u32 (PAGE * page_cnt))) (Some 0xcc)) m in
       all ← bitmap_all (used_map p) page_idx page_cnt;
       ASSERT all
         (b ← bitmap_set_multiple (used_map p) page_idx page_cnt false;
          Some (set_pool user (Pool (p_lock p) b (base p)) m))).

Definition palloc_free_page (page : Z) (m : pmem) : option pmem := palloc_free_multiple page 1 m.

(** ** The kernel pool as the source of pages of [KMalloc] *)

#[global] Instance kernel_pages : PageSource (pool * pool) := {
  page_get n ku :=
    '(r, m) ← palloc_get_multiple 0 n (PMem ku.1 ku.2 ∅); Some (r, (kernel_pool m, user_pool m));
  page_put a n ku :=
    m ← palloc_free_multiple a n (PMem ku.1 ku.2 ∅); Some (kernel_pool m, user_pool m)
}.
