(* ===== verification/KPallocMain.v ===== *)
(** * Pintos: what the page allocator promises

    Pages are handed out first fit from the pool that the flags name and nowhere
    else, freeing them restores the pool, and [palloc_init] divides the free memory
    into two disjoint pools.  The kernel pool satisfies the laws on which the block
    allocator of [KMallocProps] relies. *)

From stdpp Require Import base tactics list gmap sorting.
From Stdlib Require Import ZArith Lia.
From S2P Require Import Prelude KList KHash KHashProps KMalloc KMallocProps KMallocMain Bitmap BitmapProps KPalloc.

Local Open Scope Z_scope.

(** ** Pools *)

Definition first_page (p : pool) : Z := base p / 4096.

(** The page number [j] belongs to the pool. *)
Definition in_pool (p : pool) (j : Z) : Prop := first_page p ≤ j < first_page p + bit_cnt (used_map p).

Definition is_used (p : pool) (j : Z) : bool := bit (used_map p) (j - first_page p).

Record pool_wf (p : pool) : Prop := {
  pw_map : bwf (used_map p);
  pw_base : base p = first_page p * 4096;
  pw_low : 0 < first_page p;
  pw_high : first_page p + bit_cnt (used_map p) ≤ 2 ^ 20;
  pw_lock : p_lock p = false
}.

Record pmem_wf (m : pmem) : Prop := {
  pm_kernel : pool_wf (kernel_pool m);
  pm_user : pool_wf (user_pool m);
  pm_apart j : in_pool (kernel_pool m) j → in_pool (user_pool m) j → False
}.

Lemma pm_pool user m : pmem_wf m → pool_wf (get_pool user m).
Proof. intros [Hk Hu _]. by destruct user. Qed.

(** Bitmaps with the same bits are equal. *)
Lemma bitmap_ext b b' :
  bwf b → bwf b' → bit_cnt b = bit_cnt b' → (∀ k, 0 ≤ k → bit b k = bit b' k) → b = b'.
Proof.
  destruct b as [n l], b' as [n' l']. intros [Hn Hl Hr] [Hn' Hl' Hr'] E Hb. cbn in *. subst n'. f_equal.
  apply list_eq_same_length with (length l); [lia|lia|]. intros i x y Hi Hx Hy.
  apply Z.bits_inj'. intros k Hk. destruct (decide (k < 32)) as [Hlt|Hge].
  - specialize (Hb (32 * Z.of_nat i + k) ltac:(lia)). unfold bit in Hb. cbn in Hb.
    replace ((32 * Z.of_nat i + k) / 32) with (Z.of_nat i) in Hb
      by (rewrite Z.mul_comm, Z.add_comm, Z.div_add, Z.div_small by lia; lia).
    replace ((32 * Z.of_nat i + k) mod 32) with k in Hb
      by (rewrite Z.mul_comm, Z.add_comm, Z.mod_add, Z.mod_small by lia; lia).
    by rewrite Nat2Z.id, Hx, Hy in Hb.
  - assert (∀ v, 0 ≤ v < 2 ^ 32 → Z.testbit v k = false) as Hz.
    { intros v Hv. destruct (decide (v = 0)) as [->|]; [apply Z.bits_0|]. apply Z.bits_above_log2; [lia|].
      apply Z.log2_lt_pow2; [lia|]. assert (2 ^ 32 ≤ 2 ^ k) by (apply Z.pow_le_mono_r; lia). lia. }
    rewrite !Hz; [done|by eapply (Forall_lookup_1 _ _ _ _ Hr')|by eapply (Forall_lookup_1 _ _ _ _ Hr)].
Qed.

Lemma get_set_pool user p m : get_pool user (set_pool user p m) = p.
Proof. by destruct user. Qed.

Lemma set_set_pool user p p' m : set_pool user p (set_pool user p' m) = set_pool user p m.
Proof. by destruct user. Qed.

Lemma set_kernel user p m : kernel_pool (set_pool user p m) = if user then kernel_pool m else p.
Proof. by destruct user. Qed.

Lemma set_user user p m : user_pool (set_pool user p m) = if user then p else user_pool m.
Proof. by destruct user. Qed.

Lemma set_pool_id user m : set_pool user (get_pool user m) m = m.
Proof. by destruct user, m. Qed.

Lemma pool_eta p : p_lock p = false → Pool false (used_map p) (base p) = p.
Proof. destruct p. cbn. by intros ->. Qed.

Lemma pmem_wf_set user b m :
  pmem_wf m → bwf b → bit_cnt b = bit_cnt (used_map (get_pool user m)) →
  pmem_wf (set_pool user (Pool false b (base (get_pool user m))) m).
Proof.
  intros [[H1 H2 H3 H4 H5] [K1 K2 K3 K4 K5] Ha] Hb E.
  destruct user; cbn in *; split; (split || idtac); cbn [p_lock used_map base kernel_pool user_pool];
    unfold first_page, in_pool in *; cbn [used_map base] in *; rewrite ?E; done.
Qed.

Lemma pmem_wf_memory f m : pmem_wf m → pmem_wf (set_memory f m).
Proof. by intros []. Qed.

(** ** Getting pages *)

(** The first run of free pages in the pool *)
Definition first_free (p : pool) (n j : Z) : Prop :=
  in_pool p j ∧ in_pool p (j + n - 1) ∧ (∀ i, j ≤ i < j + n → is_used p i = false) ∧
  ∀ k, in_pool p k → k < j → ∃ i, k ≤ i < k + n ∧ is_used p i = true.

Definition no_room (p : pool) (n : Z) : Prop :=
  ∀ k, in_pool p k → in_pool p (k + n - 1) → ∃ i, k ≤ i < k + n ∧ is_used p i = true.

(** The pool with the [n] pages from [j] on marked as used or free *)
Definition marks (p p' : pool) (j n : Z) (v : bool) : Prop :=
  base p' = base p ∧ p_lock p' = p_lock p ∧ bit_cnt (used_map p') = bit_cnt (used_map p) ∧
  ∀ i, first_page p ≤ i → is_used p' i = if decide (j ≤ i < j + n) then v else is_used p i.

Lemma not_run b k n v : ¬ run b k n v → ∃ i, k ≤ i < k + n ∧ bit b i = negb v.
Proof.
  intros Hn. destruct (decide (Exists (λ i, bit b i = negb v) (seqZ k n))) as [He|He].
  - apply Exists_exists in He as (i & Hi & E). apply elem_of_seqZ in Hi. eauto.
  - exfalso. apply Hn. intros i Hi. apply not_Exists_Forall in He; [|solve_decision]. rewrite Forall_forall in He.
    specialize (He i ltac:(apply elem_of_seqZ; lia)). cbn in He. revert He. by destruct (bit b i), v.
Qed.

Lemma first_run_first_free p n r :
  pool_wf p → 0 < n → first_run (used_map p) 0 n false r → r ≠ BITMAP_ERROR → first_free p n (first_page p + r).
Proof.
  intros Hp Hn Hr Hne. destruct Hr as [[-> _]|(H0 & Hle & Hrun & Hfst)]; [done|]. unfold first_free, in_pool, is_used. split_and!; [lia|lia|lia|lia| |].
  - intros i Hi. apply Hrun. lia.
  - intros k Hk Hlt. destruct (not_run _ _ _ _ (Hfst (k - first_page p) ltac:(lia))) as (i & Hi & E).
    exists (i + first_page p). split; [lia|]. by replace (i + first_page p - first_page p) with i by lia.
Qed.

Lemma first_run_no_room p n : 0 < n → first_run (used_map p) 0 n false BITMAP_ERROR → bit_cnt (used_map p) ≤ 2 ^ 20 → no_room p n.
Proof.
  intros Hn Hr Hc k Hk Hk'. unfold in_pool, is_used in *. destruct Hr as [[_ Hno]|(_ & Hle & _)].
  - destruct (not_run _ _ _ _ (Hno (k - first_page p) ltac:(lia) ltac:(lia))) as (i & Hi & E).
    exists (i + first_page p). split; [lia|]. by replace (i + first_page p - first_page p) with i by lia.
  - unfold BITMAP_ERROR, SIZE_MAX in Hle. lia.
Qed.

Definition zeroed (flags a n : Z) (m : pmem) : pmem :=
  if flagged flags PAL_ZERO then set_memory (fill a (Z.to_nat (4096 * n)) (Some 0)) m else m.

Lemma get_multiple_spec flags n m :
  pmem_wf m → 0 < n < 2 ^ 20 →
  let user := flagged flags PAL_USER in
  let p := get_pool user m in
  (∃ j p', first_free p n j ∧ marks p p' j n true ∧ bwf (used_map p') ∧
     palloc_get_multiple flags n m = Some (Some (j * 4096), zeroed flags (j * 4096) n (set_pool user p' m))) ∨
  (no_room p n ∧ palloc_get_multiple flags n m = if flagged flags PAL_ASSERT then None else Some (None, m)).
Proof.
  intros Hm Hn user p. pose proof (pm_pool user m Hm) as Hp. fold p in Hp. pose proof Hp as [Hb Hbase Hlow Hhigh Hlk].
  pose proof (bw_cnt _ Hb) as Hcnt. unfold palloc_get_multiple. fold user. rewrite bool_decide_false by lia.
  unfold set_lock. fold p. rewrite Hlk. cbn [eqb negb ASSERT mbind option_bind]. rewrite get_set_pool. cbn [used_map p_lock base].
  destruct (scan_and_flip_spec (used_map p) 0 n false Hb) as (r & b' & -> & Hr & Hb' & Hc' & Hbit); [lia|lia|].
  cbn [mbind option_bind]. rewrite get_set_pool, !set_set_pool. cbn [eqb negb ASSERT mbind option_bind used_map base p_lock].
  destruct (decide (r ≠ BITMAP_ERROR)) as [Hne|Hne].
  - left. rewrite (bool_decide_true _ Hne). pose proof (first_run_first_free p n r Hp ltac:(lia) Hr Hne) as Hff.
    destruct (first_run_valid (used_map p) 0 n false r Hb ltac:(lia) ltac:(lia) Hr Hne) as (Hr0 & Hrn & _).
    assert (wrap_u32 (base p + wrap_u32 (PAGE * r)) = (first_page p + r) * 4096) as ->.
    { unfold PAGE. rewrite (wrap_small (4096 * r)) by lia. rewrite wrap_small by lia. lia. }
    rewrite bool_decide_true by lia. exists (first_page p + r), (Pool false b' (base p)). split_and!; [done| |done|].
    + unfold marks, is_used, first_page. cbn. rewrite Hlk. split_and!; [done|done|done|]. fold (first_page p).
      intros i Hi. rewrite Hbit by lia. apply decide_ext. lia.
    + unfold zeroed, PAGE. rewrite wrap_small by lia. done.
  - right. assert (r = BITMAP_ERROR) as -> by (by apply dec_stable). rewrite (bool_decide_false (BITMAP_ERROR ≠ BITMAP_ERROR)) by tauto.
    split; [apply first_run_no_room; [lia|done|lia]|]. rewrite bool_decide_false by lia.
    assert (b' = used_map p) as ->.
    { apply bitmap_ext; [done|done|done|]. intros k Hk. rewrite Hbit by done. rewrite decide_False by tauto. done. }
    rewrite (pool_eta p Hlk). unfold p. by rewrite set_pool_id.
Qed.

(** ** Giving pages back *)

Lemma pg_no_div va : pg_no va = va / 4096.
Proof. unfold pg_no. by rewrite Z.shiftr_div_pow2. Qed.

Lemma page_from_pool_spec p j : pool_wf p → page_from_pool p (j * 4096) = bool_decide (in_pool p j).
Proof.
  intros [Hb Hbase Hlow Hhigh _]. pose proof (bw_cnt _ Hb). unfold page_from_pool, in_pool, bitmap_size.
  rewrite !pg_no_div, Z.div_mul by lia. fold (first_page p). rewrite wrap_small by lia.
  repeat case_bool_decide; (done || lia).
Qed.

Lemma free_multiple_spec user j n m :
  pmem_wf m → 0 < n → let p := get_pool user m in
  in_pool p j → in_pool p (j + n - 1) → (∀ i, j ≤ i < j + n → is_used p i = true) →
  ∃ p', marks p p' j n false ∧ bwf (used_map p') ∧
    palloc_free_multiple (j * 4096) n m =
      Some (set_pool user p' (set_memory (fill (j * 4096) (Z.to_nat (4096 * n)) (Some 0xcc)) m)).
Proof.
  intros Hm Hn p Hj Hjn Hu. pose proof (pm_pool user m Hm) as Hp. fold p in Hp. pose proof Hp as [Hb Hbase Hlow Hhigh Hlk].
  pose proof (bw_cnt _ Hb) as Hcnt. pose proof Hj as Hj'. pose proof Hjn as Hjn'. unfold in_pool in Hj', Hjn'.
  unfold palloc_free_multiple. rewrite pg_ofs_mod, Z.mod_mul, (bool_decide_true (0 = 0)) by lia. cbn [ASSERT].
  rewrite !bool_decide_false by lia. cbn [orb].
  assert ((if page_from_pool (kernel_pool m) (j * 4096) then Some false
           else if page_from_pool (user_pool m) (j * 4096) then Some true else None) = Some user) as ->.
  { rewrite !page_from_pool_spec by apply Hm. destruct user; cbn in p; subst p.
    - rewrite bool_decide_false by (intros Hk; by eapply (pm_apart _ Hm)). by rewrite bool_decide_true.
    - by rewrite bool_decide_true. }
  cbn [mbind option_bind]. fold p. rewrite !pg_no_div, Z.div_mul by lia. fold (first_page p).
  rewrite (wrap_small (j - first_page p)) by lia.
  rewrite bitmap_all_spec; [|done|lia|lia|lia|].
  2:{ intros k Hk. specialize (Hu (k + first_page p) ltac:(lia)). unfold is_used in Hu.
      by replace (k + first_page p - first_page p) with k in Hu by lia. }
  cbn [mbind option_bind ASSERT].
  destruct (set_multiple_spec (used_map p) (j - first_page p) n false) as (b' & -> & Hb' & Hc' & Hbit); [done|lia|lia|lia|].
  cbn [mbind option_bind]. exists (Pool (p_lock p) b' (base p)). split_and!; [|done|].
  - unfold marks, is_used, first_page. cbn. split_and!; [done|done|done|]. fold (first_page p).
    intros i Hi. rewrite Hbit by lia. apply decide_ext. lia.
  - unfold PAGE. rewrite wrap_small by lia. done.
Qed.

Lemma marks_wf p p' j n v : pool_wf p → marks p p' j n v → bwf (used_map p') → pool_wf p'.
Proof.
  intros [Hb Hbase Hlow Hhigh Hlk] (E1 & E2 & E3 & _) Hb'. assert (first_page p' = first_page p) as E by (unfold first_page; by rewrite E1).
  split; rewrite ?E, ?E1, ?E2, ?E3; done.
Qed.

Lemma marks_in_pool p p' j n v i : marks p p' j n v → in_pool p' i ↔ in_pool p i.
Proof. intros (E1 & _ & E3 & _). unfold in_pool, first_page. by rewrite E1, E3. Qed.

Lemma marks_pmem user p' j n v m :
  pmem_wf m → marks (get_pool user m) p' j n v → bwf (used_map p') → pmem_wf (set_pool user p' m).
Proof.
  intros Hm Hk Hb. pose proof (marks_wf _ _ _ _ _ (pm_pool user m Hm) Hk Hb) as Hp'. destruct Hm as [H1 H2 H3].
  destruct user; cbn in *; split; cbn; try done; intros i; rewrite (marks_in_pool _ _ _ _ _ i Hk); apply H3.
Qed.

(** ** The kernel pool satisfies the laws of a source of pages *)

#[global] Program Instance kernel_page_laws : PageLaws (pool * pool) := {|
  pg_wf ku := pmem_wf (PMem ku.1 ku.2 ∅);
  pg_free ku j := in_pool ku.1 j ∧ is_used ku.1 j = false;
  pg_used ku j := in_pool ku.1 j ∧ is_used ku.1 j = true
|}.
Next Obligation. intros [k u] j [_ E1] [_ E2]. congruence. Qed.
Next Obligation.
  intros n [k u] Hm Hn. cbn in Hm. unfold page_get, kernel_pages. cbn [fst snd].
  destruct (decide (n = 0)) as [->|Hne]; [by exists None, (k, u)|].
  destruct (get_multiple_spec 0 n _ Hm ltac:(lia)) as [(j & k' & Hff & Hmk & Hb & ->)|[_ ->]]; [|by exists None, (k, u)].
  change (flagged 0 PAL_USER) with false in *. cbn [get_pool kernel_pool user_pool set_pool memory] in *.
  change (zeroed 0 (j * 4096) n (PMem k' u ∅)) with (PMem k' u ∅). cbn [mbind option_bind kernel_pool user_pool].
  exists (Some (j * 4096)), (k', u). split_and!; [done|by apply (marks_pmem false k' j n true _ Hm)|lia|].
  pose proof (pm_kernel _ Hm) as [_ _ Hlow Hhigh _]. cbn [kernel_pool] in *. destruct Hff as (Hj & Hjn & Hun & _).
  exists j. unfold in_pool in Hj, Hjn. split_and!; [done|lia|lia| |].
  - intros i Hi. split; [unfold in_pool; lia|by apply Hun].
  - intros i. cbn [fst]. rewrite (marks_in_pool _ _ _ _ _ i Hmk). destruct Hmk as (_ & _ & _ & Hmk).
    destruct (decide (in_pool k i)) as [Hi|Hi].
    + rewrite Hmk by apply Hi. case_decide as Hd; [specialize (Hun i Hd)|]; destruct (is_used k i); split; naive_solver.
    + split; [naive_solver|]. split; [naive_solver|]. intros [?|Hx]; [naive_solver|]. unfold in_pool in Hi. lia.
Qed.
Next Obligation.
  intros j n [k u] Hm Hj Hn Hjn Hu. cbn in Hm, Hu. unfold page_put, kernel_pages. cbn [fst snd].
  destruct (free_multiple_spec false j n _ Hm Hn) as (k' & Hmk & Hb & ->); cbn [get_pool kernel_pool] in *.
  { by apply Hu; lia. }
  { by apply Hu; lia. }
  { intros i Hi. by apply Hu. }
  cbn [mbind option_bind set_pool set_memory kernel_pool user_pool]. exists (k', u).
  split_and!; [done|by apply (marks_pmem false k' j n false _ Hm)|]. intros i. cbn [fst].
  rewrite (marks_in_pool _ _ _ _ _ i Hmk). destruct Hmk as (_ & _ & _ & Hmk).
  destruct (decide (in_pool k i)) as [Hi|Hi].
  - rewrite Hmk by apply Hi. case_decide as Hd; [specialize (Hu i Hd) as [_ Hu]|]; destruct (is_used k i); split; naive_solver.
  - split; [|naive_solver]. split; [naive_solver|]. intros [?|Hx]; [naive_solver|]. by destruct (Hu i Hx).
Qed.

(** ** [init_pool] and [palloc_init] *)

(** The elements that the pages of the bitmap have room for, and what they hold *)
Definition bm_pages (page_cnt : Z) : Z := DIV_ROUND_UP (bitmap_buf_size page_cnt) PAGE.

Definition buffer (page_cnt : Z) (buf : list Z) : Prop :=
  Z.of_nat (length buf) = bm_pages page_cnt * 1024 - 2 ∧ Forall (λ v, 0 ≤ v < 2 ^ 32) buf.

Lemma bm_pages_spec c :
  1 ≤ c < 2 ^ 18 →
  1 ≤ bm_pages c ≤ c ∧ elem_cnt (c - bm_pages c) ≤ bm_pages c * 1024 - 2 ∧
  bitmap_buf_size (c - bm_pages c) ≤ bm_pages c * 4096 ∧ bm_pages c < 2 ^ 18.
Proof.
  intros Hc. unfold bm_pages, DIV_ROUND_UP, bitmap_buf_size, byte_cnt, PAGE. set (e := elem_cnt c).
  assert (e = (c + 31) / 32) as Ee by (apply elem_cnt_small; lia).
  pose proof (Z.div_mod (c + 31) 32 ltac:(lia)). pose proof (Z.mod_pos_bound (c + 31) 32 ltac:(lia)). rewrite <- Ee in *.
  rewrite (wrap_small (4 * e)), (wrap_small (8 + 4 * e)), wrap_small by lia.
  set (b := (8 + 4 * e + 4096 - 1) / 4096).
  pose proof (Z.div_mod (8 + 4 * e + 4096 - 1) 4096 ltac:(lia)). pose proof (Z.mod_pos_bound (8 + 4 * e + 4096 - 1) 4096 ltac:(lia)).
  fold b in H1. assert (1 ≤ b ≤ c) as Hb by lia.
  set (e' := elem_cnt (c - b)). assert (e' = (c - b + 31) / 32) as Ee' by (apply elem_cnt_small; lia).
  pose proof (Z.div_mod (c - b + 31) 32 ltac:(lia)). pose proof (Z.mod_pos_bound (c - b + 31) 32 ltac:(lia)). rewrite <- Ee' in *.
  rewrite (wrap_small (4 * e')), wrap_small by lia. lia.
Qed.

Lemma init_pool_spec k c buf :
  1 ≤ c < 2 ^ 18 → 0 < k → k + c < 2 ^ 20 → buffer c buf →
  ∃ p, init_pool (k * 4096) c buf = Some p ∧ pool_wf p ∧ first_page p = k + bm_pages c ∧
    bit_cnt (used_map p) = c - bm_pages c ∧ ∀ j, in_pool p j → is_used p j = false.
Proof.
  intros Hc Hk Hkc [Hlen Hr]. destruct (bm_pages_spec c Hc) as (Hbm & He & Hsz & Hb18).
  unfold init_pool. fold (bm_pages c). rewrite bool_decide_false by lia. unfold bitmap_create_in_buf, PAGE.
  rewrite (wrap_small (bm_pages c * 4096)) by lia. rewrite bool_decide_true by lia. cbn [ASSERT].
  set (n := c - bm_pages c) in *. assert (0 ≤ n) as Hn by lia.
  assert (bwf (Bitmap n (take (Z.to_nat (elem_cnt n)) buf))) as Hbw by (apply create_wf; [lia|lia|done]).
  unfold bitmap_set_all, bitmap_size. cbn [bit_cnt].
  destruct (set_multiple_spec _ 0 n false Hbw) as (b & -> & Hb & Hcn & Hbit); [lia|lia|done|]. cbn [mbind option_bind] in *.
  cbn [bit_cnt] in Hcn. rewrite wrap_small by lia.
  replace (k * 4096 + bm_pages c * 4096) with ((k + bm_pages c) * 4096) by lia.
  assert (first_page (Pool false b ((k + bm_pages c) * 4096)) = k + bm_pages c) as Ef
    by (unfold first_page; cbn; by rewrite Z.div_mul by lia).
  eexists. split; [done|]. split; [split; rewrite ?Ef; cbn [used_map base p_lock]; (done || lia)|].
  split; [done|]. split; [done|]. intros j Hj. unfold in_pool, is_used in *. rewrite Ef in *. cbn [used_map] in *.
  rewrite Hbit by lia. rewrite decide_True by lia. done.
Qed.

(** How [palloc_init] divides the pages above the first megabyte *)
Definition user_share (ram limit : Z) : Z := Z.min limit ((ram - 256) / 2).
Definition kernel_share (ram limit : Z) : Z := ram - 256 - user_share ram limit.

Lemma palloc_init_run ram limit kbuf ubuf mem :
  258 ≤ ram < 2 ^ 18 → 1 ≤ limit → buffer (kernel_share ram limit) kbuf → buffer (user_share ram limit) ubuf →
  ∃ m, palloc_init ram limit kbuf ubuf mem = Some m ∧ pmem_wf m ∧ memory m = mem ∧
    (∀ j, in_pool (kernel_pool m) j → is_used (kernel_pool m) j = false) ∧
    (∀ j, in_pool (user_pool m) j → is_used (user_pool m) j = false) ∧
    first_page (kernel_pool m) = 0xc0100 + bm_pages (kernel_share ram limit) ∧
    bit_cnt (used_map (kernel_pool m)) = kernel_share ram limit - bm_pages (kernel_share ram limit) ∧
    first_page (user_pool m) = 0xc0100 + kernel_share ram limit + bm_pages (user_share ram limit) ∧
    bit_cnt (used_map (user_pool m)) = user_share ram limit - bm_pages (user_share ram limit) ∧
    1 ≤ bm_pages (kernel_share ram limit) ≤ kernel_share ram limit ∧ 1 ≤ bm_pages (user_share ram limit) ≤ user_share ram limit ∧
    kernel_share ram limit + user_share ram limit = ram - 256 ∧ user_share ram limit ≤ limit.
Proof.
  intros Hram Hlim Hkb Hub. unfold palloc_init, ptov, PHYS_BASE, PAGE.
  rewrite (wrap_small (ram * 4096)) by lia. rewrite !bool_decide_true by lia. cbn [ASSERT mbind option_bind].
  rewrite (wrap_small (1024 * 1024 + _)), (wrap_small (ram * 4096 + _)) by lia.
  set (U := user_share ram limit) in *. set (K := kernel_share ram limit) in *.
  assert (U = Z.min limit ((ram - 256) / 2)) as EU by done. assert (K = ram - 256 - U) as EK by done.
  pose proof (Z.div_mod (ram - 256) 2 ltac:(lia)). pose proof (Z.mod_pos_bound (ram - 256) 2 ltac:(lia)).
  replace (ram * 4096 + 3221225472 - (1024 * 1024 + 3221225472)) with ((ram - 256) * 4096) by lia.
  rewrite Z.quot_mul by lia.
  rewrite (wrap_small (ram - 256)) by lia.
  replace (if bool_decide (limit < (ram - 256) / 2) then limit else (ram - 256) / 2) with U by (case_bool_decide; lia).
  rewrite (wrap_small (ram - 256 - U)) by lia. rewrite <- EK.
  replace (1024 * 1024 + 3221225472) with (0xc0100 * 4096) by lia.
  destruct (init_pool_spec 0xc0100 K kbuf) as (k & -> & Hk & Fk & Ck & Zk); [lia|lia|lia|done|].
  cbn [mbind option_bind]. rewrite wrap_small by lia.
  replace (0xc0100 * 4096 + K * 4096) with ((0xc0100 + K) * 4096) by lia.
  destruct (init_pool_spec (0xc0100 + K) U ubuf) as (u & -> & Hu & Fu & Cu & Zu); [lia|lia|lia|done|].
  destruct (bm_pages_spec K ltac:(lia)) as (? & _). destruct (bm_pages_spec U ltac:(lia)) as (? & _).
  eexists. split; [done|]. cbn [kernel_pool user_pool memory]. split_and!; try done; try lia.
  split; [done|done|]. cbn. unfold in_pool. intros j. lia.
Qed.

(** With at least two pages above the first megabyte, less than 1 GB of
    memory and a limit of at least one page, [palloc_init] gives two disjoint pools of
    free pages inside the memory above the first megabyte, the user pool with fewer
    pages than the limit, and neither contains the pages of its bitmap. *)
Theorem palloc_init_pools ram limit kbuf ubuf mem :
  258 ≤ ram < 2 ^ 18 → 1 ≤ limit → buffer (kernel_share ram limit) kbuf → buffer (user_share ram limit) ubuf →
  ∃ m, palloc_init ram limit kbuf ubuf mem = Some m ∧ pmem_wf m ∧ memory m = mem ∧
    (∀ j, in_pool (kernel_pool m) j → is_used (kernel_pool m) j = false ∧
       0xc0100 + bm_pages (kernel_share ram limit) ≤ j < 0xc0100 + kernel_share ram limit) ∧
    (∀ j, in_pool (user_pool m) j → is_used (user_pool m) j = false ∧
       0xc0100 + kernel_share ram limit + bm_pages (user_share ram limit) ≤ j < 0xc0000 + ram) ∧
    bit_cnt (used_map (user_pool m)) < limit.
Proof.
  intros Hram Hlim Hkb Hub.
  destruct (palloc_init_run ram limit kbuf ubuf mem Hram Hlim Hkb Hub) as (m & E & Hwf & Hm & Zk & Zu & Fk & Ck & Fu & Cu & H1 & H2 & H3 & H4).
  exists m. split_and!; [done|done|done| | |lia].
  - intros j Hj. split; [by apply Zk|]. unfold in_pool in Hj. lia.
  - intros j Hj. split; [by apply Zu|]. unfold in_pool in Hj. lia.
Qed.

(** ** The theorems *)

(** A call for at least one page takes the first run of free pages of
    the pool that the flags name, marks just these as used, zeroes them if asked to,
    and leaves the other pool alone; without such a run it returns a null pointer and
    changes nothing, or panics if told to. *)
Theorem palloc_first_fit flags n m :
  pmem_wf m → 0 < n < 2 ^ 20 →
  let user := flagged flags PAL_USER in
  let p := get_pool user m in
  (∃ j p', first_free p n j ∧ marks p p' j n true ∧ pmem_wf (set_pool user p' m) ∧
     palloc_get_multiple flags n m = Some (Some (j * 4096), zeroed flags (j * 4096) n (set_pool user p' m))) ∨
  (no_room p n ∧ palloc_get_multiple flags n m = if flagged flags PAL_ASSERT then None else Some (None, m)).
Proof.
  intros Hm Hn user p. destruct (get_multiple_spec flags n m Hm Hn) as [(j & p' & Hf & Hk & Hb & E)|?]; [left|by right].
  exists j, p'. split_and!; [done|done|by eapply marks_pmem|done].
Qed.

Lemma zeroed_pools flags a n m : kernel_pool (zeroed flags a n m) = kernel_pool m ∧ user_pool (zeroed flags a n m) = user_pool m.
Proof. unfold zeroed. by destruct (flagged _ _). Qed.

Lemma zeroed_wf flags a n m : pmem_wf m → pmem_wf (zeroed flags a n m).
Proof. intros Hm. unfold zeroed. destruct (flagged _ _); [by apply pmem_wf_memory|done]. Qed.

Lemma marks_back p p' p'' j n :
  pool_wf p → bwf (used_map p'') → (∀ i, j ≤ i < j + n → is_used p i = false) → marks p p' j n true → marks p' p'' j n false → p'' = p.
Proof.
  intros Hp Hb Hun (A1 & A2 & A3 & A4) (B1 & B2 & B3 & B4). destruct p as [l b a], p'' as [l2 b2 a2]. cbn in *. f_equal; [congruence| |congruence].
  apply bitmap_ext; [done|apply Hp|congruence|]. intros k Hk.
  assert (first_page p' = first_page (Pool l b a)) as Ef by (unfold first_page; by rewrite A1).
  assert (first_page (Pool l2 b2 a2) = first_page p') as Ef2 by (unfold first_page; cbn; by rewrite B1).
  specialize (A4 (k + first_page (Pool l b a)) ltac:(lia)). specialize (B4 (k + first_page (Pool l b a)) ltac:(lia)).
  specialize (Hun (k + first_page (Pool l b a))). unfold is_used in *. cbn [used_map] in *. rewrite Ef2, Ef in B4. rewrite Ef in A4.
  replace (k + first_page (Pool l b a) - first_page (Pool l b a)) with k in * by lia.
  rewrite B4. case_decide as Hd; [by rewrite Hun|]. by rewrite A4.
Qed.

(** Giving back the pages that a call returned succeeds and leaves
    both pools as they were before the call. *)
Theorem palloc_roundtrip flags n a m m' :
  pmem_wf m → 0 < n < 2 ^ 20 → palloc_get_multiple flags n m = Some (Some a, m') →
  ∃ m'', palloc_free_multiple a n m' = Some m'' ∧ kernel_pool m'' = kernel_pool m ∧ user_pool m'' = user_pool m ∧
    ∀ z, a ≤ z < a + 4096 * n → memory m'' !! z = Some 0xcc.
Proof.
  intros Hm Hn Hget. set (user := flagged flags PAL_USER).
  destruct (get_multiple_spec flags n m Hm Hn) as [(j & p' & Hff & Hmk & Hb & E)|[_ E]];
    rewrite Hget in E; [|revert E; by destruct (flagged flags PAL_ASSERT)]. injection E as -> ->. fold user in Hff, Hmk |- *.
  set (m1 := zeroed _ _ _ _). destruct (zeroed_pools flags (j * 4096) n (set_pool user p' m)) as [Ek Eu]. fold m1 in Ek, Eu.
  assert (get_pool user m1 = p') as Ep by (unfold get_pool; rewrite Ek, Eu; by destruct user).
  assert (pmem_wf m1) as Hm1 by (apply zeroed_wf; by eapply marks_pmem).
  destruct Hff as (Hj & Hjn & Hun & _).
  destruct (free_multiple_spec user j n m1 Hm1 ltac:(lia)) as (p2 & Hmk2 & Hb2 & ->); rewrite ?Ep.
  - by apply (marks_in_pool _ _ _ _ _ j Hmk).
  - by apply (marks_in_pool _ _ _ _ _ _ Hmk).
  - intros i Hi. destruct Hmk as (_ & _ & _ & Hmk). rewrite Hmk by (unfold in_pool in Hj; lia). by rewrite decide_True.
  - rewrite Ep in Hmk2. pose proof (marks_back _ _ _ _ _ (pm_pool user m Hm) Hb2 Hun Hmk Hmk2) as ->.
    eexists. split; [done|]. split_and!.
    + rewrite set_kernel. cbn [set_memory kernel_pool]. rewrite Ek, set_kernel. unfold get_pool. by destruct user.
    + rewrite set_user. cbn [set_memory user_pool]. rewrite Eu, set_user. unfold get_pool. by destruct user.
    + intros z Hz. replace (memory (set_pool user (get_pool user m) (set_memory (fill (j * 4096) (Z.to_nat (4096 * n)) (Some 204)) m1)))
        with (fill (j * 4096) (Z.to_nat (4096 * n)) (Some 204) (memory m1)) by (by destruct user).
      rewrite fill_lookup, decide_True by lia. done.
Qed.

(** ** Witnesses *)

Definition a_pool (k : Z) : pool := Pool false (Bitmap 40 [0; 0]) (k * 4096).
Definition two_pools : pmem := PMem (a_pool 0xc0101) (a_pool 0xc0201) ∅.

Lemma a_pool_first k : first_page (a_pool k) = k.
Proof. unfold first_page. cbn [a_pool base]. by rewrite Z.div_mul by lia. Qed.

Lemma a_pool_wf k : 0 < k → k + 40 ≤ 2 ^ 20 → pool_wf (a_pool k).
Proof.
  intros H1 H2. pose proof (a_pool_first k) as E.
  split; rewrite ?E; cbn [a_pool base used_map bit_cnt p_lock]; try done.
  split; cbn; [lia|by vm_compute|by repeat apply Forall_cons_2].
Qed.

Lemma two_pools_wf : pmem_wf two_pools.
Proof. split; [by apply a_pool_wf|by apply a_pool_wf|]. intros j. cbn [two_pools kernel_pool user_pool].
  unfold in_pool. rewrite !a_pool_first. cbn. lia. Qed.

Lemma palloc_init_pools_witness :
  ∃ m, palloc_init 300 20 (replicate 1022 7) (replicate 1022 7) ∅ = Some m ∧ pmem_wf m.
Proof.
  destruct (palloc_init_pools 300 20 (replicate 1022 7) (replicate 1022 7) ∅) as (m & E & Hw & _).
  - lia.
  - lia.
  - split; [by vm_compute|by apply Forall_replicate].
  - split; [by vm_compute|by apply Forall_replicate].
  - exists m. split; [exact E|exact Hw].
Defined.

Lemma palloc_first_fit_witness :
  (∃ j p', first_free (user_pool two_pools) 3 j ∧ marks (user_pool two_pools) p' j 3 true ∧ pmem_wf (PMem (a_pool 0xc0101) p' ∅) ∧
    palloc_get_multiple 6 3 two_pools = Some (Some (j * 4096), zeroed 6 (j * 4096) 3 (PMem (a_pool 0xc0101) p' ∅))) ∨
  (no_room (user_pool two_pools) 3 ∧ palloc_get_multiple 6 3 two_pools = Some (None, two_pools)).
Proof. apply (palloc_first_fit 6 3 two_pools); [apply two_pools_wf|lia]. Defined.

Lemma palloc_roundtrip_witness :
  ∃ a m' m'', palloc_get_multiple 0 2 two_pools = Some (Some a, m') ∧ palloc_free_multiple a 2 m' = Some m'' ∧
    kernel_pool m'' = a_pool 0xc0101.
Proof.
  destruct (palloc_roundtrip 0 2 0xc0101000 two_pools (PMem (Pool false (Bitmap 40 [3; 0]) 0xc0101000) (a_pool 0xc0201) ∅))
    as (m'' & E & Ek & _); [apply two_pools_wf|lia|vm_compute; reflexivity|].
  exists 0xc0101000, (PMem (Pool false (Bitmap 40 [3; 0]) 0xc0101000) (a_pool 0xc0201) ∅), m''.
  split; [vm_compute; reflexivity|]. by split.
Defined.

(** The list headers of the descriptors lie in the first page of the address space. *)
Definition low_headers (i : nat) : klist := KList (Pos.of_succ_nat (2 * i)) (Pos.of_succ_nat (2 * i + 1)).

Definition boot : mstate (pool * pool) := MState ∅ ∅ [] (a_pool 0xc0101, a_pool 0xc0201) ∅.

Lemma boot_before_init : before_init low_headers boot.
Proof.
  split_and!; [done|done|apply two_pools_wf|]. split.
  - apply (bool_decide_unpack _). vm_compute. exact I.
  - assert (Forall (λ e, Z.pos e / 4096 = 0) (headers (low_headers <$> seq 0 7))) as Hall by (repeat constructor).
    intros e He. rewrite Forall_forall in Hall. rewrite (Hall e He). cbn [pg_free pg_used kernel_page_laws boot pages fst].
    unfold in_pool. rewrite !a_pool_first. lia.
Qed.

Definition some_calls : list mop :=
  [Malloc 20; Calloc 3 100; Malloc 5000; Write 0 7 65; Realloc 0 200; Free 1; Malloc 0; Malloc 9000; Free 2; Free 0].

Lemma allocator_serves_witness :
  wp Full (malloc_init low_headers;; mcalls some_calls []) (λ hs s', blocks_sound hs s') boot ∧
  match (malloc_init low_headers;; mcalls (take 3 some_calls) []) boot with
  | Done (hs, _) => map (option_map h_ptr) hs = [Some 0xc010100c; Some 0xc010200c; Some 0xc010300c]
  | _ => False
  end.
Proof.
  split; [|vm_compute; reflexivity].
  apply (allocator_serves low_headers boot some_calls); [apply boot_before_init|by repeat constructor].
Defined.

Definition ready : mstate (pool * pool) :=
  Eval vm_compute in match malloc_init low_headers boot with Done (_, s) => s | _ => boot end.

Lemma ready_eq : malloc_init low_headers boot = Done (tt, ready).
Proof. vm_compute. reflexivity. Qed.

Lemma ready_ok : ok low_headers ready ∅.
Proof.
  apply (wp_run Full (malloc_init low_headers) (λ _ s', ok low_headers s' ∅) boot tt ready); [|apply ready_eq].
  apply (wp_malloc_init low_headers); [apply boot_before_init|auto].
Qed.

(** The result of a call, if it returned *)
Definition returned {A S} (r : outcome (A * S)) : option A := match r with Done (a, _) => Some a | _ => None end.

Lemma sizes_wrap_witness :
  malloc (2 ^ 32 - 1) ready = malloc 4084 ready ∧
  calloc 65537 65537 ready = calloc 1 131073 ready ∧
  wp Full (malloc (2 ^ 32 - 1)) (λ r s', ∀ p, r = Some p → ∃ c, ok low_headers s' (<[p := c]> ∅) ∧ c < 2 ^ 32 - 1) ready ∧
  returned (malloc (2 ^ 32 - 1) ready) = Some (Some 0xc010100c) ∧
  returned (calloc 65537 65537 ready) = Some (Some 0xc010100c).
Proof.
  destruct (sizes_wrap low_headers ready ∅ (2 ^ 32 - 1) 65537 65537) as (H1 & H2 & _ & H4 & _);
    [apply ready_ok|lia|lia|lia|by vm_compute|by vm_compute|by vm_compute|].
  split_and!; [exact H1|exact H2|exact H4|vm_compute; reflexivity|vm_compute; reflexivity].
Defined.
