(* ===== verification/KRandom.v ===== *)
(** * Pintos: the random number generator

    [Project_3/lib/random.c], the whole file: RC4.  The state is the static data of
    the file; [uint8_t] arithmetic wraps at 256 and an access outside the array [s] is
    undefined behaviour.  A buffer is the list of the bytes written to it. *)

From stdpp Require Import base tactics list.
From Stdlib Require Import ZArith Lia.
From S2P Require Import Prelude.

Local Open Scope Z_scope.

(** ** The state and the operations *)

Record rng := Rng { s : list Z; s_i : Z; s_j : Z; inited : bool }.

Definition u8 (z : Z) : Z := z mod 256.

Definition set_s (l : list Z) : M rng unit := modify (λ r, Rng l (s_i r) (s_j r) (inited r)).
Definition set_i (i : Z) : M rng unit := modify (λ r, Rng (s r) i (s_j r) (inited r)).
Definition set_j (j : Z) : M rng unit := modify (λ r, Rng (s r) (s_i r) j (inited r)).

(** [s[i]] and [s[i] = v] *)
Definition at_s (i : Z) : M rng Z := r ← get; assume_some (s r !! Z.to_nat i).
Definition put_s (i v : Z) : M rng unit :=
  r ← get; check (bool_decide (Z.to_nat i < length (s r))%nat);; set_s (<[Z.to_nat i := v]> (s r)).

(** [swap_byte(s + a, s + b)] *)
Definition swap_byte (a b : Z) : M rng unit :=
  t ← at_s a;
  v ← at_s b; put_s a v;;
  put_s b t.

(** The bytes of an [unsigned] in memory, and back *)
Definition word_bytes (w : Z) : list Z := [w mod 256; (w / 256) mod 256; (w / 65536) mod 256; (w / 16777216) mod 256].
Definition bytes_word (l : list Z) : Z := foldr (λ b w, b + 256 * w) 0 l.

(** [for (i = 0; i < 256; i++) s[i] = i;] with [n] turns left *)
Fixpoint fill_s (i : Z) (n : nat) : M rng unit :=
  match n with
  | O => mret tt
  | S n => put_s i (u8 i);; fill_s (i + 1) n
  end.

(** [for (i = j = 0; i < 256; i++)] *)
Fixpoint mix (seedp : list Z) (i j : Z) (n : nat) : M rng unit :=
  match n with
  | O => mret tt
  | S n =>
      v ← at_s i;
      k ← assume_some (seedp !! Z.to_nat (i mod 4));
      let j := u8 (j + v + k) in
      swap_byte i j;;
      mix seedp (i + 1) j n
  end.

Definition random_init (seed : Z) : M rng unit :=
  let seedp := word_bytes seed in
  fill_s 0 256;;
  mix seedp 0 0 256;;
  modify (λ r, Rng (s r) 0 0 true).

(** The body of the loop: the byte that is written *)
Definition next_byte : M rng Z :=
  r ← get; set_i (u8 (s_i r + 1));;
  r ← get; v ← at_s (s_i r); set_j (u8 (s_j r + v));;
  r ← get; swap_byte (s_i r) (s_j r);;
  a ← at_s (s_i r); b ← at_s (s_j r);
  let s_k := u8 (a + b) in
  at_s s_k.

Fixpoint bytes_loop (n : nat) : M rng (list Z) :=
  match n with
  | O => mret []
  | S n => b ← next_byte; l ← bytes_loop n; mret (b :: l)
  end.

Definition random_bytes (size : Z) : M rng (list Z) :=
  r ← get;
  when (negb (inited r)) (random_init 0);;
  bytes_loop (Z.to_nat size).

Definition random_ulong : M rng Z := l ← random_bytes 4; mret (bytes_word l).

(** ** The invariant: [s] is a permutation of the bytes *)

Definition all_bytes : list Z := seqZ 0 256.

Record rng_wf (r : rng) : Prop := {
  rw_len : length (s r) = 256%nat;
  rw_i : 0 ≤ s_i r < 256;
  rw_j : 0 ≤ s_j r < 256;
  rw_perm : inited r = true → s r ≡ₚ all_bytes
}.

Lemma u8_range z : 0 ≤ u8 z < 256.
Proof. by apply Z.mod_pos_bound. Qed.

Lemma wp_at_s t i Q r : (Z.to_nat i < length (s r))%nat → (∀ v, s r !! Z.to_nat i = Some v → Q v r) → wp t (at_s i) Q r.
Proof.
  intros Hi HQ. destruct (lookup_lt_is_Some_2 (s r) _ Hi) as [v Hv]. unfold at_s. apply wp_bind, wp_get.
  eapply wp_assume_some; [exact Hv|by apply HQ].
Qed.

Lemma wp_put_s t i v Q r :
  (Z.to_nat i < length (s r))%nat → Q tt (Rng (<[Z.to_nat i := v]> (s r)) (s_i r) (s_j r) (inited r)) → wp t (put_s i v) Q r.
Proof.
  intros Hi HQ. unfold put_s. apply wp_bind, wp_get. apply wp_bind, wp_check; [by apply bool_decide_eq_true|].
  by apply wp_modify.
Qed.

(** Two elements change places. *)
Definition swapped (l l' : list Z) (a b : nat) : Prop :=
  length l' = length l ∧ l' !! a = l !! b ∧ l' !! b = l !! a ∧ ∀ k, k ≠ a → k ≠ b → l' !! k = l !! k.

Lemma swapped_perm l l' a b : swapped l l' a b → (a < length l)%nat → (b < length l)%nat → l' ≡ₚ l.
Proof.
  intros (Hlen & Ha & Hb & Hk) Ha' Hb'. apply Permutation_inj. split; [done|].
  exists (λ k, if decide (k = a) then b else if decide (k = b) then a else k). split.
  - intros x y. repeat case_decide; congruence.
  - intros k. repeat case_decide; subst; auto.
Qed.

Lemma wp_swap t a b Q r :
  (Z.to_nat a < length (s r))%nat → (Z.to_nat b < length (s r))%nat →
  (∀ l, swapped (s r) l (Z.to_nat a) (Z.to_nat b) → Q tt (Rng l (s_i r) (s_j r) (inited r))) → wp t (swap_byte a b) Q r.
Proof.
  intros Ha Hb HQ. unfold swap_byte. apply wp_bind, wp_at_s; [done|]. intros x Hx. apply wp_bind, wp_at_s; [done|]. intros y Hy.
  apply wp_bind, wp_put_s; [done|]. apply wp_put_s; [cbn; by rewrite length_insert|]. cbn [s s_i s_j inited]. apply HQ.
  split; [by rewrite !length_insert|]. split_and!.
  - destruct (decide (Z.to_nat a = Z.to_nat b)) as [E|E].
    + rewrite E in *. rewrite list_lookup_insert_eq by (by rewrite length_insert). congruence.
    + rewrite list_lookup_insert_ne by done. rewrite list_lookup_insert_eq by done. by rewrite Hy.
  - rewrite list_lookup_insert_eq by (by rewrite length_insert). by rewrite Hx.
  - intros k Hka Hkb. by rewrite !list_lookup_insert_ne.
Qed.

Lemma wp_fill_s t n i Q r :
  length (s r) = 256%nat → 0 ≤ i → i + Z.of_nat n = 256 → (∀ k, (k < Z.to_nat i)%nat → s r !! k = Some (Z.of_nat k)) →
  Q tt (Rng all_bytes (s_i r) (s_j r) (inited r)) → wp t (fill_s i n) Q r.
Proof.
  revert i r. induction n as [|n IH]; intros i r Hlen Hi Hn Hk HQ; cbn [fill_s].
  - apply wp_ret. replace r with (Rng all_bytes (s_i r) (s_j r) (inited r)); [done|].
    destruct r as [l ri rj rin]. cbn in *. f_equal. apply list_eq_same_length with 256%nat; [done|done|].
    intros k x y Hlt Hx Hy. apply lookup_seqZ in Hx as [-> _]. rewrite Hk in Hy by lia. injection Hy as <-. lia.
  - apply wp_bind, wp_put_s; [lia|]. apply IH; cbn [s s_i s_j inited]; [by rewrite length_insert|lia|lia| |done].
    intros k Hlt. destruct (decide (k = Z.to_nat i)) as [->|Hne].
    + rewrite list_lookup_insert_eq by lia. f_equal. unfold u8. rewrite Z.mod_small by lia. lia.
    + rewrite list_lookup_insert_ne by done. apply Hk. lia.
Qed.

Lemma wp_mix t seedp n i j Q r :
  length seedp = 4%nat → 0 ≤ i → i + Z.of_nat n = 256 → 0 ≤ j < 256 → s r ≡ₚ all_bytes →
  (∀ l, l ≡ₚ all_bytes → Q tt (Rng l (s_i r) (s_j r) (inited r))) → wp t (mix seedp i j n) Q r.
Proof.
  intros Hseed. revert i j r. induction n as [|n IH]; intros i j r Hi Hn Hj Hp HQ; cbn [mix].
  - apply wp_ret. specialize (HQ (s r) Hp). by destruct r.
  - assert (length (s r) = 256%nat) as Hlen by (rewrite Hp; done).
    apply wp_bind, wp_at_s; [lia|]. intros v Hv. apply wp_bind.
    pose proof (Z.mod_pos_bound i 4 ltac:(lia)).
    destruct (lookup_lt_is_Some_2 seedp (Z.to_nat (i mod 4))) as [k Hk]; [lia|].
    eapply wp_assume_some; [exact Hk|]. cbn zeta. pose proof (u8_range (j + v + k)) as Hu.
    apply wp_bind, wp_swap; [lia|lia|]. intros l Hl. apply IH; cbn [s s_i s_j inited]; [lia|lia|done| |done].
    rewrite (swapped_perm _ _ _ _ Hl); [done|lia|lia].
Qed.

Lemma wp_random_init t seed Q r :
  length (s r) = 256%nat → (∀ r', rng_wf r' → inited r' = true → s_i r' = 0 → s_j r' = 0 → Q tt r') → wp t (random_init seed) Q r.
Proof.
  intros Hlen HQ. unfold random_init. apply wp_bind, wp_fill_s; [done|lia|lia|intros k; lia|].
  apply wp_bind, wp_mix; [done|lia|lia|lia|done|]. cbn [s s_i s_j inited]. intros l Hl. apply wp_modify. cbn.
  apply HQ; [|done|done|done]. split; cbn; [by rewrite Hl|lia|lia|done].
Qed.

Lemma perm_range l v : l ≡ₚ all_bytes → v ∈ l → 0 ≤ v < 256.
Proof. intros Hp Hv. rewrite Hp in Hv. by apply elem_of_seqZ in Hv. Qed.

Lemma wp_next_byte t Q r :
  rng_wf r → inited r = true → (∀ b r', rng_wf r' → inited r' = true → 0 ≤ b < 256 → Q b r') → wp t next_byte Q r.
Proof.
  intros [Hlen Hi Hj Hp] Hin HQ. specialize (Hp Hin). unfold next_byte.
  apply wp_bind, wp_get. apply wp_bind, wp_modify. apply wp_bind, wp_get. cbn [s s_i s_j inited].
  pose proof (u8_range (s_i r + 1)) as Hi'. apply wp_bind, wp_at_s; [cbn; lia|]. intros v _.
  apply wp_bind, wp_modify. apply wp_bind, wp_get. cbn [s s_i s_j inited]. pose proof (u8_range (s_j r + v)) as Hj'.
  apply wp_bind, wp_swap; [cbn; lia|cbn; lia|]. cbn [s s_i s_j inited]. intros l Hl.
  assert (l ≡ₚ all_bytes) as Hpl by (rewrite (swapped_perm _ _ _ _ Hl); [done|lia|lia]).
  assert (length l = 256%nat) as Hll by (by rewrite Hpl).
  apply wp_bind, wp_at_s; [cbn; lia|]. intros a _. apply wp_bind, wp_at_s; [cbn; lia|]. intros b _. cbn zeta.
  pose proof (u8_range (a + b)). apply wp_at_s; [cbn; lia|]. cbn [s s_i s_j inited]. intros c Hc. apply HQ; [|done|].
  - split; cbn; [done|lia|lia|done].
  - eapply perm_range; [done|]. by eapply list_elem_of_lookup_2.
Qed.

Lemma wp_bytes_loop t n Q r :
  rng_wf r → inited r = true →
  (∀ l r', rng_wf r' → inited r' = true → length l = n → Forall (λ b, 0 ≤ b < 256) l → Q l r') → wp t (bytes_loop n) Q r.
Proof.
  revert Q r. induction n as [|n IH]; intros Q r Hw Hin HQ; cbn [bytes_loop].
  - apply wp_ret. by apply HQ.
  - apply wp_bind, wp_next_byte; [done|done|]. intros b r1 Hw1 Hin1 Hb. apply wp_bind, IH; [done|done|].
    intros l r2 Hw2 Hin2 Hl Hf. apply wp_ret, HQ; [done|done|cbn; lia|by constructor].
Qed.

Lemma wp_random_bytes t size Q r :
  rng_wf r → (∀ l r', rng_wf r' → inited r' = true → length l = Z.to_nat size → Forall (λ b, 0 ≤ b < 256) l → Q l r') →
  wp t (random_bytes size) Q r.
Proof.
  intros Hw HQ. unfold random_bytes. apply wp_bind, wp_get. apply wp_bind. destruct (inited r) eqn:Hin; cbn [negb when].
  - apply wp_ret. by apply wp_bytes_loop.
  - apply wp_random_init; [apply Hw|]. intros r' Hw' Hin' _ _. by apply wp_bytes_loop.
Qed.

Lemma bytes_word_range l : Forall (λ b, 0 ≤ b < 256) l → 0 ≤ bytes_word l < 256 ^ Z.of_nat (length l).
Proof.
  unfold bytes_word. induction 1 as [|b l Hb _ IH]; cbn [foldr length]; [lia|].
  rewrite Nat2Z.inj_succ, Z.pow_succ_r by lia. lia.
Qed.

(** In every state that the operations reach, [s] is an array of 256 bytes
    and, once seeded, a permutation of them: seeding any state gives such a state, and
    from such a state [random_bytes] yields as many bytes as asked for and
    [random_ulong] a 32-bit number, without an access outside the array. *)
Theorem random_state_typed r seed size :
  rng_wf r →
  wp Full (random_init seed) (λ _ r', rng_wf r' ∧ inited r' = true) r ∧
  wp Full (random_bytes size) (λ l r', rng_wf r' ∧ inited r' = true ∧ length l = Z.to_nat size ∧ Forall (λ b, 0 ≤ b < 256) l) r ∧
  wp Full random_ulong (λ v r', rng_wf r' ∧ inited r' = true ∧ 0 ≤ v < 2 ^ 32) r.
Proof.
  intros Hw. split_and!.
  - apply wp_random_init; [apply Hw|]. auto.
  - apply wp_random_bytes; [done|]. auto.
  - unfold random_ulong. apply wp_bind, wp_random_bytes; [done|]. intros l r' Hw' Hin' Hl Hf. apply wp_ret.
    split_and!; [done|done|..]; pose proof (bytes_word_range l Hf) as Hr; rewrite Hl in Hr; change (256 ^ _) with (2 ^ 32) in Hr; lia.
Qed.

(** ** The generator loses no state *)

Lemma next_byte_moves r b r' :
  rng_wf r → inited r = true → next_byte r = Done (b, r') →
  s_i r' = u8 (s_i r + 1) ∧ inited r' = true ∧ swapped (s r) (s r') (Z.to_nat (s_i r')) (Z.to_nat (s_j r')) ∧
  ∃ v, s r !! Z.to_nat (s_i r') = Some v ∧ s_j r' = u8 (s_j r + v).
Proof.
  intros Hw Hin Hn. revert Hn. apply (wp_run Full next_byte (λ _ r', s_i r' = u8 (s_i r + 1) ∧ inited r' = true ∧
    swapped (s r) (s r') (Z.to_nat (s_i r')) (Z.to_nat (s_j r')) ∧ ∃ v, s r !! Z.to_nat (s_i r') = Some v ∧ s_j r' = u8 (s_j r + v))).
  destruct Hw as [Hlen Hi Hj Hp]. unfold next_byte.
  apply wp_bind, wp_get. apply wp_bind, wp_modify. apply wp_bind, wp_get. cbn [s s_i s_j inited].
  pose proof (u8_range (s_i r + 1)). apply wp_bind, wp_at_s; [cbn; lia|]. cbn [s]. intros v Hv.
  apply wp_bind, wp_modify. apply wp_bind, wp_get. cbn [s s_i s_j inited]. pose proof (u8_range (s_j r + v)).
  apply wp_bind, wp_swap; [cbn; lia|cbn; lia|]. cbn [s s_i s_j inited]. intros l Hl. pose proof Hl as [Hll _].
  apply wp_bind, wp_at_s; [cbn; lia|]. intros a _. apply wp_bind, wp_at_s; [cbn; lia|]. intros c _. cbn zeta.
  pose proof (u8_range (a + c)). apply wp_at_s; [cbn; lia|]. cbn [s s_i s_j inited]. intros d _. split_and!; [done|done|done|by exists v].
Qed.

Lemma swapped_inj l1 l2 l a b : swapped l1 l a b → swapped l2 l a b → l1 = l2.
Proof.
  intros (_ & A1 & B1 & C1) (_ & A2 & B2 & C2). apply list_eq. intros k.
  destruct (decide (k = a)) as [->|Ha]; [congruence|]. destruct (decide (k = b)) as [->|Hb]; [congruence|].
  by rewrite <- C1, <- C2.
Qed.

Lemma u8_cancel a b v : 0 ≤ a < 256 → 0 ≤ b < 256 → u8 (a + v) = u8 (b + v) → a = b.
Proof.
  unfold u8. intros Ha Hb E. assert ((a + v - v) mod 256 = (b + v - v) mod 256) as E'
    by (rewrite <- (Zminus_mod_idemp_l (a + v)), <- (Zminus_mod_idemp_l (b + v)), E; done).
  rewrite !Z.add_simpl_r, !Z.mod_small in E' by done. done.
Qed.

Lemma random_bytes_seeded n r : inited r = true → random_bytes n r = bytes_loop (Z.to_nat n) r.
Proof. intros Hin. unfold random_bytes. unfold mbind, M_bind, get, when. rewrite Hin. done. Qed.

Lemma bind_same {A B} (f g : M rng A) (k : A → M rng B) r : f r = g r → (f ≫= k) r = (g ≫= k) r.
Proof. intros E. unfold mbind, M_bind. by rewrite E. Qed.

(** Producing a byte is a one-to-one step on the states, so that the
    sequence of states is a cycle and never runs into a shorter one; and bytes asked for
    in two calls are those of one. *)
Theorem random_step_injective r1 r2 b1 b2 r' m n :
  rng_wf r1 → rng_wf r2 → inited r1 = true → inited r2 = true →
  next_byte r1 = Done (b1, r') → next_byte r2 = Done (b2, r') → 0 ≤ m → 0 ≤ n →
  r1 = r2 ∧ (l1 ← random_bytes m; l2 ← random_bytes n; mret (l1 ++ l2)) r1 = random_bytes (m + n) r1.
Proof.
  intros Hw1 Hw2 Hi1 Hi2 Hn1 Hn2 Hm Hn. split.
  - destruct (next_byte_moves _ _ _ Hw1 Hi1 Hn1) as (E1 & _ & S1 & v1 & V1 & J1).
    destruct (next_byte_moves _ _ _ Hw2 Hi2 Hn2) as (E2 & _ & S2 & v2 & V2 & J2).
    pose proof (swapped_inj _ _ _ _ _ S1 S2) as Es. rewrite Es, V2 in V1. injection V1 as ->.
    destruct Hw1 as [_ I1 K1 _], Hw2 as [_ I2 K2 _]. rewrite E1 in E2. apply u8_cancel in E2; [|done..].
    rewrite J1 in J2. apply u8_cancel in J2; [|done..]. destruct r1, r2. cbn in *. congruence.
  - assert (∀ r, rng_wf r → inited r = true → (l1 ← bytes_loop (Z.to_nat m); l2 ← random_bytes n; mret (l1 ++ l2)) r = bytes_loop (Z.to_nat (m + n)) r) as Hgo.
    { rewrite Z2Nat.inj_add by done. induction (Z.to_nat m) as [|k IH]; intros r Hw Hin.
      - cbn [bytes_loop Nat.add]. unfold random_bytes. unfold mbind, M_bind, mret, M_ret, get, when. rewrite Hin. cbn.
        by destruct (bytes_loop _ r) as [[]| |].
      - cbn [bytes_loop Nat.add]. assert (wp Full next_byte (λ _ r', rng_wf r' ∧ inited r' = true) r) as Hwp
          by (apply wp_next_byte; [done|done|]; auto).
        unfold wp in Hwp. unfold mbind, M_bind, mret, M_ret in *. destruct (next_byte r) as [[b r1']| |]; [|done..].
        destruct Hwp as [Hw' Hin']. specialize (IH r1' Hw' Hin'). rewrite <- IH.
        destruct (bytes_loop k r1') as [[l r2']| |]; [|done..]. by destruct (random_bytes n r2') as [[]| |]. }
    rewrite (random_bytes_seeded (m + n)), <- (Hgo r1) by done. apply bind_same. by apply random_bytes_seeded.
Qed.

(** ** Witnesses *)

Definition unseeded : rng := Rng (replicate 256 0) 0 0 false.

Lemma unseeded_wf : rng_wf unseeded.
Proof. by split. Qed.

(** The published key stream of RC4 for the key of the four characters Wiki *)
Lemma random_state_typed_witness :
  (wp Full random_ulong (λ v r', rng_wf r' ∧ inited r' = true ∧ 0 ≤ v < 2 ^ 32) unseeded) ∧
  match (random_init 0x696b6957;; random_bytes 10) unseeded with
  | Done (l, _) => l = [0x60; 0x44; 0xdb; 0x6d; 0x41; 0xb7; 0xe8; 0xe7; 0xa4; 0xd6]
  | _ => False
  end.
Proof.
  split; [|vm_compute; reflexivity].
  destruct (random_state_typed unseeded 1 1 unseeded_wf) as (_ & _ & H). exact H.
Defined.

Definition seeded : rng := Eval vm_compute in match random_init 1 unseeded with Done (_, r) => r | _ => unseeded end.
Definition stepped : Z * rng := Eval vm_compute in match next_byte seeded with Done x => x | _ => (0, unseeded) end.

Lemma seeded_wf : rng_wf seeded.
Proof.
  apply (wp_run Full (random_init 1) (λ _ r', rng_wf r') unseeded tt seeded); [|vm_compute; reflexivity].
  apply wp_random_init; [apply unseeded_wf|]. auto.
Qed.

Lemma random_step_injective_witness :
  seeded = seeded ∧ (l1 ← random_bytes 2; l2 ← random_bytes 3; mret (l1 ++ l2)) seeded = random_bytes 5 seeded.
Proof.
  apply (random_step_injective seeded seeded stepped.1 stepped.1 stepped.2 2 3);
    [apply seeded_wf|apply seeded_wf|reflexivity|reflexivity|vm_compute; reflexivity|vm_compute; reflexivity|lia|lia].
Defined.
