(* ===== verification/KStdio.v ===== *)
(** * Pintos: formatted output

    [Project_3/lib/stdio.c], the whole file, and the console of
    [Project_3/lib/kernel/console.c] on which [printf] writes.  Bytes are numbers from 0
    to 255; memory is a finite map from addresses to bytes, and reading an unmapped
    address is undefined behaviour.  A character pointer points into memory or into a
    string literal of the program.  Signed arithmetic whose result does not fit in an
    [int] (or in an [intmax_t], where it has that type) is undefined behaviour.

    The arguments of a variadic function are a list of 32-bit and 64-bit words as they
    lie on the stack; taking an argument of the wrong width, or one too many, is
    undefined behaviour.  [fuel] bounds the scans of strings in memory. *)

From stdpp Require Import base tactics list gmap strings.
From Stdlib Require Import ZArith Lia Ascii.
From S2P Require Import Prelude KStdlib.

Local Open Scope Z_scope.

(** The characters of a literal *)
Definition chars (l : string) : list Z := Z.of_nat ∘ nat_of_ascii <$> String.list_ascii_of_string l.

Definition isprint (c : Z) : bool := bool_decide (32 ≤ c) && bool_decide (c < 127).

(** ** Machine integers *)

(** The low [n] bits as a signed integer *)
Definition sext (n v : Z) : Z := (v + 2 ^ (n - 1)) mod 2 ^ n - 2 ^ (n - 1).

Definition as_int {S} (z : Z) : M S Z := check (bool_decide (- 2 ^ 31 ≤ z < 2 ^ 31));; mret z.
Definition as_intmax {S} (z : Z) : M S Z := check (bool_decide (- 2 ^ 63 ≤ z < 2 ^ 63));; mret z.

(** ** Memory, pointers and arguments *)

Record io (X : Type) := IO { bytes : gmap Z Z; aux : X }.
Arguments IO {_} _ _.
Arguments bytes {_} _.
Arguments aux {_} _.

Inductive cptr := Mem (p : Z) | Lit (l : list Z) (i : nat).

Definition advance (p : cptr) (n : nat) : cptr :=
  match p with
  | Mem p => Mem (wrap_u32 (p + Z.of_nat n))
  | Lit l i => Lit l (i + n)
  end.

(** [*p]; a literal ends with a null character. *)
Definition deref {X} (p : cptr) : M (io X) Z :=
  match p with
  | Mem p => s ← get; assume_some (bytes s !! p)
  | Lit l i => assume_some ((l ++ [0]) !! i)
  end.

Inductive arg := A32 (v : Z) | A64 (v : Z).

Definition va_arg32 {X} (args : list arg) : M (io X) (Z * list arg) :=
  match args with A32 v :: args => mret (v, args) | _ => undef end.
Definition va_arg64 {X} (args : list arg) : M (io X) (Z * list arg) :=
  match args with A64 v :: args => mret (v, args) | _ => undef end.

(** ** Conversions *)

Definition MINUS : Z := 1.
Definition PLUS : Z := 2.
Definition SPACE : Z := 4.
Definition POUND : Z := 8.
Definition ZERO : Z := 16.
Definition GROUP : Z := 32.

Inductive ctype := CHAR | SHORT | INT | INTMAX | LONG | LONGLONG | PTRDIFFT | SIZET.

Record printf_conversion := Conv { flags : Z; width : Z; precision : Z; type : ctype }.

(** [flags & f] as a condition, [flags &= ~f] *)
Definition has (flags f : Z) : bool := bool_decide (Z.land flags f ≠ 0).
Definition without (flags f : Z) : Z := Z.land flags (Z.lnot f).

Record integer_base := Base { base : Z; digits : list Z; x_char : Z; group : Z }.

Definition base_d : integer_base := Base 10 (chars "0123456789") 0 3.
Definition base_o : integer_base := Base 8 (chars "01234567") 0 3.
Definition base_x : integer_base := Base 16 (chars "0123456789abcdef") 120 4.
Definition base_X : integer_base := Base 16 (chars "0123456789ABCDEF") 88 4.

(** The flag that a character stands for *)
Definition flag_of (c : Z) : option Z :=
  if bool_decide (c = 45) then Some MINUS
  else if bool_decide (c = 43) then Some PLUS
  else if bool_decide (c = 32) then Some SPACE
  else if bool_decide (c = 35) then Some POUND
  else if bool_decide (c = 48) then Some ZERO
  else if bool_decide (c = 39) then Some GROUP
  else None.

Section stdio.
Context {X : Type}.
Context (fuel : nat).
Context (output : Z → M (io X) unit).

Local Abbreviation IM := (M (io X)).

Definition parse_flags (format : cptr) : IM (Z * cptr) :=
  loop fuel
    (λ '(flags, format),
       c ← deref format;
       mret match flag_of c with
            | Some f => inl (Z.lor flags f, advance format 1)
            | None => inr (flags, format)
            end) (0, format).

(** [for (; isdigit( *format); format++) n = n * 10 + *format - '0';] *)
Definition parse_number (format : cptr) : IM (Z * cptr) :=
  loop fuel
    (λ '(n, format),
       c ← deref format;
       if isdigit c then
         n ← as_int (n * 10); n ← as_int (n + c); n ← as_int (n - 48);
         mret (inl (n, advance format 1))
       else mret (inr (n, format))) (0, format).

Definition parse_width (format : cptr) (args : list arg) : IM (Z * cptr * list arg) :=
  c ← deref format;
  if bool_decide (c = 42) then
    '(v, args) ← va_arg32 args; mret (sext 32 v, advance format 1, args)
  else '(n, format) ← parse_number format; mret (n, format, args).

Definition parse_precision (format : cptr) (args : list arg) : IM (Z * cptr * list arg) :=
  c ← deref format;
  if bool_decide (c = 46) then
    let format := advance format 1 in
    c ← deref format;
    '(n, format, args) ←
      (if bool_decide (c = 42) then
         '(v, args) ← va_arg32 args; mret (sext 32 v, advance format 1, args)
       else '(n, format) ← parse_number format; mret (n, format, args));
    mret (if bool_decide (n < 0) then -1 else n, format, args)
  else mret (-1, format, args).

Definition parse_type (format : cptr) : IM (ctype * cptr) :=
  c ← deref format;
  if bool_decide (c = 104) then
    c ← deref (advance format 1);
    mret (if bool_decide (c = 104) then (CHAR, advance format 2) else (SHORT, advance format 1))
  else if bool_decide (c = 106) then mret (INTMAX, advance format 1)
  else if bool_decide (c = 108) then
    c ← deref (advance format 1);
    mret (if bool_decide (c = 108) then (LONGLONG, advance format 2) else (LONG, advance format 1))
  else if bool_decide (c = 116) then mret (PTRDIFFT, advance format 1)
  else if bool_decide (c = 122) then mret (SIZET, advance format 1)
  else mret (INT, format).

Definition parse_conversion (format : cptr) (args : list arg) : IM (printf_conversion * cptr * list arg) :=
  '(flags, format) ← parse_flags format;
  let flags := if has flags MINUS then without flags ZERO else flags in
  let flags := if has flags PLUS then without flags SPACE else flags in
  '(width, format, args) ← parse_width format args;
  '(width, flags) ←
    (if bool_decide (width < 0) then width ← as_int (- width); mret (width, Z.lor flags MINUS)
     else mret (width, flags));
  '(precision, format, args) ← parse_precision format args;
  let flags := if bool_decide (0 ≤ precision) then without flags ZERO else flags in
  '(type, format) ← parse_type format;
  mret (Conv flags width precision type, format, args).

(** ** Integers and strings *)

Fixpoint dup (ch : Z) (n : nat) : IM unit :=
  match n with
  | O => mret tt
  | S n => output ch;; dup ch n
  end.

Definition output_dup (ch cnt : Z) : IM unit := dup ch (Z.to_nat (wrap_u32 cnt)).

(** [*cp++ = ch], where [buf] holds the characters before [cp] *)
Definition push (buf : list Z) (ch : Z) : IM (list Z) := check (bool_decide (length buf < 64)%nat);; mret (buf ++ [ch]).

Definition accumulate (c : printf_conversion) (b : integer_base) (value : Z) : IM (list Z) :=
  loop 65
    (λ '(value, buf, digit_cnt),
       if bool_decide (0 < value) then
         buf ← (if has (flags c) GROUP && bool_decide (0 < digit_cnt) && bool_decide (digit_cnt mod group b = 0)
                then push buf 44 else mret buf);
         d ← assume_some (digits b !! Z.to_nat (value mod base b));
         buf ← push buf d;
         mret (inl (value / base b, buf, digit_cnt + 1))
       else mret (inr buf)) (value, [], 0).

(** [while (cp - buf < precision && cp < buf + sizeof buf - 1)] *)
Definition pad_zeros (precision : Z) (buf : list Z) : IM (list Z) :=
  loop 65
    (λ buf,
       if bool_decide (Z.of_nat (length buf) < precision) && bool_decide (length buf < 63)%nat
       then buf ← push buf 48; mret (inl buf)
       else mret (inr buf)) buf.

(** [while (cp > buf) output( *--cp, aux);] *)
Fixpoint output_all (l : list Z) : IM unit :=
  match l with
  | [] => mret tt
  | ch :: l => output ch;; output_all l
  end.

Definition sign_char (is_signed negative : bool) (c : printf_conversion) : Z :=
  if is_signed then
    if has (flags c) PLUS then (if negative then 45 else 43)
    else if has (flags c) SPACE then (if negative then 45 else 32)
    else if negative then 45 else 0
  else 0.

Definition format_integer (value : Z) (is_signed negative : bool) (b : integer_base) (c : printf_conversion) : IM unit :=
  let sign := sign_char is_signed negative c in
  let x := if has (flags c) POUND && bool_decide (value ≠ 0) then x_char b else 0 in
  buf ← accumulate c b value;
  buf ← pad_zeros (if bool_decide (precision c < 0) then 1 else precision c) buf;
  buf ← (if has (flags c) POUND && bool_decide (base b = 8) && bool_decide (last buf ≠ Some 48)
         then push buf 48 else mret buf);
  let pad_cnt := width c - Z.of_nat (length buf) - (if bool_decide (x ≠ 0) then 2 else 0) - (if bool_decide (sign ≠ 0) then 1 else 0) in
  let pad_cnt := if bool_decide (pad_cnt < 0) then 0 else pad_cnt in
  when (bool_decide (Z.land (flags c) (Z.lor MINUS ZERO) = 0)) (output_dup 32 pad_cnt);;
  when (bool_decide (sign ≠ 0)) (output sign);;
  when (bool_decide (x ≠ 0)) (output 48;; output x);;
  when (has (flags c) ZERO) (output_dup 48 pad_cnt);;
  output_all (rev buf);;
  when (has (flags c) MINUS) (output_dup 32 pad_cnt).

(** [for (i = 0; i < length; i++) output(string[i], aux);] with [n] characters left *)
Fixpoint output_string (string : cptr) (i n : nat) : IM unit :=
  match n with
  | O => mret tt
  | S n => ch ← deref (advance string i); output ch;; output_string string (S i) n
  end.

Definition format_string (string : cptr) (length : Z) (c : printf_conversion) : IM unit :=
  (if bool_decide (length < width c) && negb (has (flags c) MINUS) then output_dup 32 (width c - length) else mret tt);;
  output_string string 0 (Z.to_nat length);;
  (if bool_decide (length < width c) && has (flags c) MINUS then output_dup 32 (width c - length) else mret tt).

(** [strnlen] of [string.c] *)
Definition strnlen (string : cptr) (maxlen : Z) : IM Z :=
  loop fuel
    (λ len : nat,
       c ← deref (advance string len);
       if bool_decide (c ≠ 0) && bool_decide (Z.of_nat len < maxlen) then mret (inl (S len))
       else mret (inr (Z.of_nat len))) O.

(** ** [__vprintf] *)

(** The argument of a signed conversion *)
Definition signed_arg (t : ctype) (args : list arg) : IM (Z * list arg) :=
  match t with
  | CHAR => '(v, args) ← va_arg32 args; mret (sext 8 v, args)
  | SHORT => '(v, args) ← va_arg32 args; mret (sext 16 v, args)
  | INT | LONG | PTRDIFFT => '(v, args) ← va_arg32 args; mret (sext 32 v, args)
  | INTMAX | LONGLONG => '(v, args) ← va_arg64 args; mret (sext 64 v, args)
  | SIZET =>
      '(v, args) ← va_arg32 args;
      mret (if bool_decide (4294967295 / 2 < v) then v - 4294967295 - 1 else v, args)
  end.

Definition unsigned_arg (t : ctype) (args : list arg) : IM (Z * list arg) :=
  match t with
  | CHAR => '(v, args) ← va_arg32 args; mret (v mod 2 ^ 8, args)
  | SHORT => '(v, args) ← va_arg32 args; mret (v mod 2 ^ 16, args)
  | INT | LONG | SIZET => va_arg32 args
  | INTMAX | LONGLONG => va_arg64 args
  | PTRDIFFT =>
      '(v, args) ← va_arg32 args;
      mret (Z.land (sext 32 v mod 2 ^ 64) (Z.lor (Z.shiftl 2147483647 1) 1), args)
  end.

Definition unsigned_base (c : Z) : integer_base :=
  if bool_decide (c = 111) then base_o
  else if bool_decide (c = 117) then base_d
  else if bool_decide (c = 120) then base_x
  else base_X.

(** The [switch] on the conversion; [complain] is the recursive call of [__printf] with
    the format and the character. *)
Definition convert (complain : list Z → Z → IM unit) (ch : Z) (c : printf_conversion) (args : list arg) : IM (list arg) :=
  if bool_decide (ch = 100 ∨ ch = 105) then
    '(value, args) ← signed_arg (type c) args;
    a ← (if bool_decide (value < 0) then as_intmax (- value) else mret value);
    format_integer a true (bool_decide (value < 0)) base_d c;;
    mret args
  else if bool_decide (ch = 111 ∨ ch = 117 ∨ ch = 120 ∨ ch = 88) then
    '(value, args) ← unsigned_arg (type c) args;
    format_integer value false false (unsigned_base ch) c;;
    mret args
  else if bool_decide (ch = 99) then
    '(v, args) ← va_arg32 args;
    format_string (Lit [v mod 256] 0) 1 c;;
    mret args
  else if bool_decide (ch = 115) then
    '(v, args) ← va_arg32 args;
    let s := if bool_decide (v = 0) then Lit (chars "(null)") 0 else Mem v in
    n ← strnlen s (wrap_u32 (precision c));
    format_string s (sext 32 n) c;;
    mret args
  else if bool_decide (ch = 112) then
    '(v, args) ← va_arg32 args;
    format_integer v false false base_x (Conv POUND (width c) (precision c) (type c));;
    mret args
  else
    complain (if bool_decide (ch = 102 ∨ ch = 101 ∨ ch = 69 ∨ ch = 103 ∨ ch = 71 ∨ ch = 110)
              then chars "<<no %%%c in kernel>>" else chars "<<no %%%c conversion>>") ch;;
    mret args.

Definition vprintf_step (complain : list Z → Z → IM unit) (fa : cptr * list arg) : IM (cptr * list arg + unit) :=
  let '(format, args) := fa in
  ch ← deref format;
  if bool_decide (ch = 0) then mret (inr tt)
  else if bool_decide (ch ≠ 37) then output ch;; mret (inl (advance format 1, args))
  else
    let format := advance format 1 in
    ch ← deref format;
    if bool_decide (ch = 37) then output 37;; mret (inl (advance format 1, args))
    else
      '(c, format, args) ← parse_conversion format args;
      ch ← deref format;
      args ← convert complain ch c args;
      mret (inl (advance format 1, args)).

(** [for (; *format != '\0'; format++)] *)
Definition vprintf_loop (complain : list Z → Z → IM unit) (format : cptr) (args : list arg) : IM unit :=
  loop fuel (vprintf_step complain) (format, args).

(** [depth] bounds the nesting of the calls of [__printf]. *)
Fixpoint __vprintf (depth : nat) (format : cptr) (args : list arg) : IM unit :=
  match depth with
  | O => λ _, NoFuel
  | S depth => vprintf_loop (λ format ch, __vprintf depth (Lit format 0) [A32 ch]) format args
  end.

End stdio.

(** ** [vsnprintf] *)

Record vsnprintf_aux := VAux { va_p : Z; va_length : Z; va_max : Z }.

Definition vsnprintf_helper (ch : Z) : M (io vsnprintf_aux) unit :=
  s ← get;
  let a := aux s in
  n ← as_int (va_length a + 1);
  if bool_decide (va_length a < va_max a) then
    check (bool_decide (is_Some (bytes s !! va_p a)));;
    modify (λ s, IO (<[va_p a := ch]> (bytes s)) (VAux (va_p a + 1) n (va_max a)))
  else modify (λ s, IO (bytes s) (VAux (va_p a) n (va_max a))).

(** The result, and the memory afterwards *)
Definition vsnprintf (fuel : nat) (buffer buf_size : Z) (format : cptr) (args : list arg) : M (gmap Z Z) Z := λ m,
  let max := sext 32 (if bool_decide (0 < buf_size) then buf_size - 1 else 0) in
  match __vprintf fuel vsnprintf_helper 2 format args (IO m (VAux buffer 0 max)) with
  | Done (_, s) =>
      if bool_decide (0 < buf_size) then
        if bool_decide (is_Some (bytes s !! va_p (aux s))) then Done (va_length (aux s), <[va_p (aux s) := 0]> (bytes s))
        else Undef
      else Done (va_length (aux s), bytes s)
  | Undef => Undef
  | NoFuel => NoFuel
  end.

Definition snprintf (fuel : nat) (buffer buf_size : Z) (format : cptr) (args : list arg) : M (gmap Z Z) Z :=
  vsnprintf fuel buffer buf_size format args.
