(* ===== verification/KStdioProps.v ===== *)
(** * Pintos: what formatted output emits

    [__vprintf] is the same for every [output] function: a run is a sequence of calls of
    it.  The functions here are therefore studied with one that collects the characters,
    and the results are carried over to others by simulation.  On top of this: the
    layout of integers and strings, and the parser of the conversions. *)

From stdpp Require Import base tactics list gmap strings.
From Stdlib Require Import ZArith Lia Ascii.
From S2P Require Import Prelude KStdlib KStdio.

Local Open Scope Z_scope.

(** ** Simulation *)

(** Whenever [m1] ends, [m2] ends with the same value, in related states. *)
Definition sim {S1 S2 A} (R : S1 → S2 → Prop) (m1 : M S1 A) (m2 : M S2 A) : Prop :=
  ∀ s1 s2, R s1 s2 → ∀ a s1', m1 s1 = Done (a, s1') → ∃ s2', m2 s2 = Done (a, s2') ∧ R s1' s2'.

Section sim.
Context {S1 S2 : Type} (R : S1 → S2 → Prop).

Lemma sim_ret {A} (a : A) : sim R (mret a) (mret a).
Proof. intros s1 s2 HR b s1' [= <- <-]. by exists s2. Qed.

Lemma sim_bind {A B} (m1 : M S1 A) m2 (k1 : A → M S1 B) k2 :
  sim R m1 m2 → (∀ a, sim R (k1 a) (k2 a)) → sim R (m1 ≫= k1) (m2 ≫= k2).
Proof.
  intros Hm Hk s1 s2 HR b s1'. unfold mbind, M_bind. destruct (m1 s1) as [[a t1]| |] eqn:E; [|done..].
  destruct (Hm s1 s2 HR a t1 E) as (t2 & -> & HR'). by apply Hk.
Qed.

Lemma sim_undef {A} (m2 : M S2 A) : sim R undef m2.
Proof. by intros s1 s2 _ a s1'. Qed.

Lemma sim_check b : sim R (check b) (check b).
Proof. destruct b; [apply sim_ret|apply sim_undef]. Qed.

Lemma sim_assume_some {A} (o : option A) : sim R (assume_some o) (assume_some o).
Proof. destruct o; [apply sim_ret|apply sim_undef]. Qed.

Lemma sim_loop {L A} fuel (b1 : L → M S1 (L + A)) b2 l :
  (∀ l, sim R (b1 l) (b2 l)) → sim R (loop fuel b1 l) (loop fuel b2 l).
Proof.
  intros Hb. revert l. induction fuel as [|fuel IH]; intros l; [by intros s1 s2 _ a s1'|].
  rewrite !loop_S. apply sim_bind; [apply Hb|]. intros [l'|a]; [apply IH|apply sim_ret].
Qed.

Lemma sim_as_int z : sim R (as_int z) (as_int z).
Proof. apply sim_bind; [apply sim_check|]. intros _. apply sim_ret. Qed.

Lemma sim_as_intmax z : sim R (as_intmax z) (as_intmax z).
Proof. apply sim_bind; [apply sim_check|]. intros _. apply sim_ret. Qed.

End sim.

Create HintDb sim discriminated.
#[export] Hint Resolve sim_ret sim_undef sim_check sim_assume_some sim_as_int sim_as_intmax : sim.

(** Steps through two runs of the same code. *)
Ltac sim_step :=
  lazymatch goal with
  | |- sim _ (_ ≫= _) (_ ≫= _) => apply sim_bind; [|intros ?]
  | |- sim _ (loop _ _ _) (loop _ _ _) => apply sim_loop; intros ?
  | |- sim _ (if ?c then _ else _) _ => destruct c
  | |- sim _ (match ?x with _ => _ end) _ => destruct x
  | |- ∀ _, _ => intros ?
  | |- _ => eauto with sim
  end.

Section same_code.
Context {X1 X2 : Type} (R : io X1 → io X2 → Prop).
Context (out1 : Z → M (io X1) unit) (out2 : Z → M (io X2) unit).

(** The second run can read at least what the first can. *)
Hypothesis Hbytes : ∀ s1 s2, R s1 s2 → bytes s1 ⊆ bytes s2.
Hypothesis Hout : ∀ ch, sim R (out1 ch) (out2 ch).

Lemma sim_deref p : sim R (deref p) (deref p).
Proof using Hbytes.
  destruct p as [p|l i]; cbn [deref]; [|apply sim_assume_some].
  intros s1 s2 HR a s1'. unfold mbind, M_bind, get. destruct (bytes s1 !! p) as [v|] eqn:E; cbn; [|done].
  intros [= <- <-]. pose proof (lookup_weaken _ _ _ _ E (Hbytes _ _ HR)) as ->. by exists s2.
Qed.

Lemma sim_va_arg32 args : sim R (va_arg32 args) (va_arg32 args).
Proof. destruct args as [|[] args]; cbn; eauto with sim. Qed.

Lemma sim_va_arg64 args : sim R (va_arg64 args) (va_arg64 args).
Proof. destruct args as [|[] args]; cbn; eauto with sim. Qed.

Hint Resolve sim_deref sim_va_arg32 sim_va_arg64 Hout : sim.

Lemma sim_parse_flags fuel p : sim R (parse_flags fuel p) (parse_flags fuel p).
Proof using Hbytes. unfold parse_flags. repeat sim_step. Qed.

Lemma sim_parse_number fuel p : sim R (parse_number fuel p) (parse_number fuel p).
Proof using Hbytes. unfold parse_number. repeat sim_step. Qed.

Hint Resolve sim_parse_flags sim_parse_number : sim.

Lemma sim_parse_width fuel p args : sim R (parse_width fuel p args) (parse_width fuel p args).
Proof using Hbytes. unfold parse_width. repeat sim_step. Qed.

Lemma sim_parse_precision fuel p args : sim R (parse_precision fuel p args) (parse_precision fuel p args).
Proof using Hbytes. unfold parse_precision. cbn zeta. repeat sim_step. Qed.

Lemma sim_parse_type p : sim R (parse_type p) (parse_type p).
Proof using Hbytes. unfold parse_type. repeat sim_step. Qed.

Hint Resolve sim_parse_width sim_parse_precision sim_parse_type : sim.

Lemma sim_parse_conversion fuel p args : sim R (parse_conversion fuel p args) (parse_conversion fuel p args).
Proof using Hbytes. unfold parse_conversion. cbn zeta. repeat sim_step. Qed.

Lemma sim_dup ch n : sim R (dup out1 ch n) (dup out2 ch n).
Proof using Hout. induction n as [|n IH]; cbn [dup]; repeat sim_step. Qed.

Lemma sim_push buf ch : sim R (push buf ch) (push buf ch).
Proof. unfold push. repeat sim_step. Qed.

Lemma sim_when b m1 m2 : sim R m1 m2 → sim R (when b m1) (when b m2).
Proof. destruct b; cbn; eauto with sim. Qed.

Hint Resolve sim_parse_conversion sim_dup sim_push sim_when : sim.

Lemma sim_accumulate c b v : sim R (accumulate c b v) (accumulate c b v).
Proof. unfold accumulate. repeat sim_step. Qed.

Lemma sim_pad_zeros n buf : sim R (pad_zeros n buf) (pad_zeros n buf).
Proof. unfold pad_zeros. repeat sim_step. Qed.

Lemma sim_output_all l : sim R (output_all out1 l) (output_all out2 l).
Proof using Hout. induction l as [|ch l IH]; cbn [output_all]; repeat sim_step. Qed.

Lemma sim_output_dup ch n : sim R (output_dup out1 ch n) (output_dup out2 ch n).
Proof using Hout. apply sim_dup. Qed.

Hint Resolve sim_accumulate sim_pad_zeros sim_output_all sim_output_dup : sim.

Lemma sim_format_integer v sg neg b c : sim R (format_integer out1 v sg neg b c) (format_integer out2 v sg neg b c).
Proof using Hout.
  unfold format_integer. cbn zeta. repeat sim_step; apply sim_when; repeat sim_step.
Qed.

Lemma sim_output_string p i n : sim R (output_string out1 p i n) (output_string out2 p i n).
Proof using Hbytes Hout. revert i. induction n as [|n IH]; intros i; cbn [output_string]; repeat sim_step. Qed.

Hint Resolve sim_format_integer sim_output_string : sim.

Lemma sim_format_string p n c : sim R (format_string out1 p n c) (format_string out2 p n c).
Proof using Hbytes Hout. unfold format_string. repeat sim_step. Qed.

Lemma sim_strnlen fuel p n : sim R (strnlen fuel p n) (strnlen fuel p n).
Proof using Hbytes. unfold strnlen. repeat sim_step. Qed.

Hint Resolve sim_format_string sim_strnlen : sim.

Lemma sim_signed_arg t args : sim R (signed_arg t args) (signed_arg t args).
Proof. destruct t; cbn; repeat sim_step. Qed.

Lemma sim_unsigned_arg t args : sim R (unsigned_arg t args) (unsigned_arg t args).
Proof. destruct t; cbn; repeat sim_step. Qed.

Hint Resolve sim_signed_arg sim_unsigned_arg : sim.

Lemma sim_convert fuel k1 k2 ch c args :
  (∀ l ch, sim R (k1 l ch) (k2 l ch)) → sim R (convert fuel out1 k1 ch c args) (convert fuel out2 k2 ch c args).
Proof using Hbytes Hout. intros Hk. unfold convert. cbn zeta. repeat sim_step. Qed.

Lemma sim_vprintf fuel depth p args : sim R (__vprintf fuel out1 depth p args) (__vprintf fuel out2 depth p args).
Proof using Hbytes Hout.
  revert p args. induction depth as [|depth IH]; intros p args; cbn [__vprintf]; [by intros s1 s2 _ a s1'|].
  unfold vprintf_loop, vprintf_step. cbn zeta. repeat sim_step. apply sim_convert. intros ? ?. apply IH.
Qed.

End same_code.

(** ** Collecting the characters *)

(** The number of characters is an [int] in every use of [__vprintf]. *)
Definition room (n : nat) : Prop := Z.of_nat n < 2 ^ 31.

Definition logger (ch : Z) : M (io (list Z)) unit :=
  s ← get; check (bool_decide (room (S (length (aux s)))));; modify (λ s, IO (bytes s) (aux s ++ [ch])).

Local Abbreviation LM := (M (io (list Z))).

(** With the memory [B], [m] returns [a] and emits [cs], if there is room for them. *)
Definition emits {A} (B : gmap Z Z) (m : LM A) (a : A) (cs : list Z) : Prop :=
  ∀ l, room (length (l ++ cs)) → m (IO B l) = Done (a, IO B (l ++ cs)).

Section emits.
Context (B : gmap Z Z).

Lemma emits_ret {A} (a : A) : emits B (mret a) a [].
Proof. intros l _. by rewrite app_nil_r. Qed.

Lemma emits_bind {A C} (m : LM A) (k : A → LM C) a c cs cs' :
  emits B m a cs → emits B (k a) c cs' → emits B (m ≫= k) c (cs ++ cs').
Proof.
  intros Hm Hk l Hl. rewrite app_assoc in Hl |- *. unfold mbind, M_bind.
  rewrite Hm by (unfold room in *; rewrite length_app in Hl; lia). by apply Hk.
Qed.

Lemma emits_bind_nil {A C} (m : LM A) (k : A → LM C) a c cs : emits B m a [] → emits B (k a) c cs → emits B (m ≫= k) c cs.
Proof. intros Hm Hk. by apply (emits_bind m k a c []). Qed.

Lemma emits_out ch : emits B (logger ch) tt [ch].
Proof.
  intros l Hl. unfold logger, mbind, M_bind, get, check. cbn [aux]. rewrite length_app in Hl. cbn [length] in Hl.
  rewrite bool_decide_true by (unfold room in *; lia). done.
Qed.

Lemma emits_check b : b = true → emits B (check b) tt [].
Proof. intros ->. apply emits_ret. Qed.

Lemma emits_assume {A} (o : option A) a : o = Some a → emits B (assume_some o) a [].
Proof. intros ->. apply emits_ret. Qed.

Lemma emits_when b m cs : (b = true → emits B m tt cs) → emits B (when b m) tt (if b then cs else []).
Proof. intros Hm. destruct b; [by apply Hm|apply emits_ret]. Qed.

Lemma emits_if b (m1 m2 : LM unit) cs1 cs2 :
  (b = true → emits B m1 tt cs1) → (b = false → emits B m2 tt cs2) → emits B (if b then m1 else m2) tt (if b then cs1 else cs2).
Proof. destruct b; auto. Qed.

Lemma emits_as_int z : - 2 ^ 31 ≤ z < 2 ^ 31 → emits B (as_int z) z [].
Proof. intros Hz. eapply emits_bind_nil; [apply emits_check, bool_decide_eq_true, Hz|apply emits_ret]. Qed.

(** The text at a pointer, up to where it can be read *)
Definition text (p : cptr) (cs : list Z) : Prop := ∀ i c, cs !! i = Some c → emits B (deref (advance p i)) c [].

Lemma text_lit l i : text (Lit l i) (drop i (l ++ [0])).
Proof.
  intros j c Hj. rewrite lookup_drop in Hj. cbn [advance deref]. apply emits_assume. done.
Qed.

Lemma advance_0 p : match p with Mem a => 0 ≤ a < 2 ^ 32 | Lit _ _ => True end → advance p 0 = p.
Proof.
  destruct p as [p|l i]; cbn [advance].
  - intros Hp. rewrite Z.add_0_r. unfold wrap_u32. by rewrite Z.mod_small.
  - intros _. by rewrite Nat.add_0_r.
Qed.

Lemma advance_advance p i j : advance (advance p i) j = advance p (i + j).
Proof.
  destruct p as [p|l k]; cbn [advance].
  - unfold wrap_u32. rewrite Zplus_mod_idemp_l. do 2 f_equal. lia.
  - by rewrite Nat.add_assoc.
Qed.

Lemma text_advance p cs i : text p cs → text (advance p i) (drop i cs).
Proof. intros Ht j c Hj. rewrite lookup_drop in Hj. rewrite advance_advance. by apply Ht. Qed.

Lemma text_app p cs1 cs2 : text p (cs1 ++ cs2) → text (advance p (length cs1)) cs2.
Proof. intros Ht%(text_advance _ _ (length cs1)). by rewrite drop_app_length in Ht. Qed.

Lemma text_prefix p cs1 cs2 : text p (cs1 ++ cs2) → text p cs1.
Proof. intros Ht i c Hi. apply Ht. by apply lookup_app_l_Some. Qed.

(** Pointers as the code holds them *)
Definition in_range (p : cptr) : Prop := match p with Mem a => 0 ≤ a < 2 ^ 32 | Lit _ _ => True end.

Lemma in_range_advance p i : in_range (advance p i).
Proof. destruct p; cbn; [by apply Z.mod_pos_bound|done]. Qed.

Lemma text_here p c cs : in_range p → text p (c :: cs) → emits B (deref p) c [].
Proof. intros Hp Ht. rewrite <- (advance_0 p Hp). by apply Ht. Qed.

Lemma text_next p c cs : text p (c :: cs) → text (advance p 1) cs.
Proof. apply (text_app p [c] cs). Qed.

(** ** Repetition *)

Lemma emits_dup ch n : emits B (dup logger ch n) tt (replicate n ch).
Proof.
  induction n as [|n IH]; cbn [dup replicate]; [apply emits_ret|].
  apply (emits_bind _ _ tt tt [ch]); [apply emits_out|apply IH].
Qed.

Lemma emits_output_dup ch n : 0 ≤ n < 2 ^ 32 → emits B (output_dup logger ch n) tt (replicate (Z.to_nat n) ch).
Proof. intros Hn. unfold output_dup, wrap_u32. rewrite Z.mod_small by done. apply emits_dup. Qed.

Lemma emits_output_all l : emits B (output_all logger l) tt l.
Proof.
  induction l as [|ch l IH]; cbn [output_all]; [apply emits_ret|].
  apply (emits_bind _ _ tt tt [ch] l); [apply emits_out|apply IH].
Qed.

Lemma emits_output_string p i cs : text (advance p i) cs → emits B (output_string logger p i (length cs)) tt cs.
Proof.
  revert i. induction cs as [|c cs IH]; intros i Ht; cbn [output_string length]; [apply emits_ret|].
  eapply emits_bind_nil; [apply (text_here _ c cs); [apply in_range_advance|exact Ht]|].
  apply (emits_bind _ _ tt tt [c] cs); [apply emits_out|]. apply IH.
  apply text_next in Ht. rewrite advance_advance in Ht. by rewrite Nat.add_1_r in Ht.
Qed.

End emits.

(** ** Integers *)

Record good_base (b : integer_base) : Prop := {
  gb_base : 8 ≤ base b;
  gb_digits : Z.of_nat (length (digits b)) = base b;
  gb_group : 0 < group b
}.

Lemma bases_good : good_base base_d ∧ good_base base_o ∧ good_base base_x ∧ good_base base_X.
Proof. by repeat split. Qed.

(** The digits of [v], least significant first; [n] bounds their number. *)
Fixpoint lsd (n : nat) (b : integer_base) (v : Z) : list Z :=
  match n with
  | O => []
  | S n => if decide (0 < v) then default 0 (digits b !! Z.to_nat (v mod base b)) :: lsd n b (v / base b) else []
  end.

(** A comma before the digits with the numbers [g], [2 * g], ...; the first has number [k]. *)
Fixpoint grouped (g k : Z) (l : list Z) : list Z :=
  match l with
  | [] => []
  | c :: l => (if bool_decide (0 < k) && bool_decide (k mod g = 0) then [44] else []) ++ c :: grouped g (k + 1) l
  end.

Lemma grouped_length g k l : (length (grouped g k l) ≤ 2 * length l)%nat.
Proof. revert k. induction l as [|c l IH]; intros k; cbn [grouped length]; [lia|]. specialize (IH (k + 1)). destruct (_ && _); cbn; lia. Qed.

Lemma lsd_length n b v : (length (lsd n b v) ≤ n)%nat.
Proof. revert v. induction n as [|n IH]; intros v; cbn [lsd]; [done|]. case_decide; cbn; [|lia]. specialize (IH (v / base b)). lia. Qed.

Definition digit_chars (fl : Z) (b : integer_base) (k : Z) (n : nat) (v : Z) : list Z :=
  if has fl GROUP then grouped (group b) k (lsd n b v) else lsd n b v.

Lemma emits_push B buf ch : (length buf < 64)%nat → emits B (push buf ch) (buf ++ [ch]) [].
Proof. intros Hb. unfold push. eapply emits_bind_nil; [apply emits_check; by apply bool_decide_eq_true|apply emits_ret]. Qed.

Lemma div_base_lt v b n : 8 ≤ b → 0 ≤ v < 8 ^ (Z.of_nat (S n)) → 0 ≤ v / b < 8 ^ Z.of_nat n.
Proof.
  intros Hb Hv. rewrite Nat2Z.inj_succ, Z.pow_succ_r in Hv by lia. split; [apply Z.div_pos; lia|].
  apply Z.div_lt_upper_bound; [lia|]. assert (0 < 8 ^ Z.of_nat n) by (apply Z.pow_pos_nonneg; lia). nia.
Qed.

Lemma digit_lookup b v : good_base b → 0 ≤ v → digits b !! Z.to_nat (v mod base b) = Some (default 0 (digits b !! Z.to_nat (v mod base b))).
Proof.
  intros [H8 Hd _] Hv. pose proof (Z.mod_pos_bound v (base b) ltac:(lia)).
  destruct (lookup_lt_is_Some_2 (digits b) (Z.to_nat (v mod base b))) as [d ->]; [lia|done].
Qed.

Lemma emits_accumulate_loop B c b n fuel v buf k :
  good_base b → 0 ≤ v < 8 ^ Z.of_nat n → (n < fuel)%nat → (length buf + 2 * n ≤ 64)%nat →
  emits B (loop fuel
    (λ '(value, buf, digit_cnt),
       if bool_decide (0 < value) then
         buf ← (if has (flags c) GROUP && bool_decide (0 < digit_cnt) && bool_decide (digit_cnt mod group b = 0)
                then push buf 44 else mret buf);
         d ← assume_some (digits b !! Z.to_nat (value mod base b));
         buf ← push buf d;
         mret (inl (value / base b, buf, digit_cnt + 1))
       else mret (inr buf)) (v, buf, k)) (buf ++ digit_chars (flags c) b k n v) [].
Proof.
  intros Hb. revert fuel v buf k. induction n as [|n IH]; intros fuel v buf k Hv Hf Hl;
    (destruct fuel as [|fuel]; [lia|]); rewrite loop_S.
  - unfold digit_chars; cbn [lsd]. change (8 ^ Z.of_nat 0) with 1 in Hv. rewrite bool_decide_false by lia. destruct (has _ _); cbn [grouped]; rewrite app_nil_r;
      (eapply emits_bind_nil; [apply emits_ret|apply emits_ret]).
  - case_bool_decide as Hpos.
    2:{ unfold digit_chars; cbn [lsd]. rewrite decide_False by done. destruct (has _ _); cbn [grouped]; rewrite app_nil_r;
          (eapply emits_bind_nil; [apply emits_ret|apply emits_ret]). }
    set (d := default 0 (digits b !! Z.to_nat (v mod base b))).
    set (sep := if has (flags c) GROUP && bool_decide (0 < k) && bool_decide (k mod group b = 0) then [44] else []).
    assert ((length sep ≤ 1)%nat) as Hsep by (subst sep; destruct (_ && _); cbn; lia).
    replace (buf ++ digit_chars (flags c) b k (S n) v) with (((buf ++ sep) ++ [d]) ++ digit_chars (flags c) b (k + 1) n (v / base b)).
    2:{ unfold digit_chars. cbn [lsd]. rewrite decide_True by done. fold d. subst sep. rewrite <- !app_assoc. f_equal.
        destruct (has _ _); cbn [andb grouped]; [|done]. by destruct (_ && _). }
    eapply emits_bind_nil.
    { eapply (emits_bind_nil _ _ _ (buf ++ sep)).
      { subst sep. destruct (_ && _); [apply emits_push; lia|rewrite app_nil_r; apply emits_ret]. }
      eapply emits_bind_nil; [apply emits_assume, digit_lookup; [exact Hb|lia]|]. fold d.
      eapply emits_bind_nil; [apply emits_push; rewrite length_app; lia|apply emits_ret]. }
    apply IH; [apply div_base_lt; [apply Hb|done]|lia|]. rewrite !length_app. cbn. lia.
Qed.

Lemma emits_accumulate B c b v :
  good_base b → 0 ≤ v < 2 ^ 64 → emits B (accumulate c b v) (digit_chars (flags c) b 0 22 v) [].
Proof.
  intros Hb Hv. unfold accumulate. change (digit_chars (flags c) b 0 22 v) with ([] ++ digit_chars (flags c) b 0 22 v).
  apply emits_accumulate_loop; [done| |lia|cbn; lia]. change (8 ^ Z.of_nat 22) with 73786976294838206464. lia.
Qed.

Lemma digit_chars_length fl b k n v : (length (digit_chars fl b k n v) ≤ 2 * n)%nat.
Proof.
  unfold digit_chars. pose proof (lsd_length n b v). pose proof (grouped_length (group b) k (lsd n b v)).
  destruct (has _ _); lia.
Qed.

(** Zeros up to the precision, but no more than 63 characters *)
Definition zeros (prec : Z) (n : nat) : list Z := replicate (Z.to_nat (Z.min prec 63) - n) 48.

Lemma emits_pad_zeros B prec buf : (length buf ≤ 63)%nat → emits B (pad_zeros prec buf) (buf ++ zeros prec (length buf)) [].
Proof.
  intros Hb. unfold pad_zeros.
  assert (∀ k fuel buf, (length buf + k = 63)%nat → (k < fuel)%nat → emits B (loop fuel
    (λ buf, if bool_decide (Z.of_nat (length buf) < prec) && bool_decide (length buf < 63)%nat
       then buf ← push buf 48; mret (inl buf) else mret (inr buf)) buf) (buf ++ zeros prec (length buf)) []) as Hgo.
  { clear buf Hb. induction k as [|k IH]; intros fuel buf Hk Hf; (destruct fuel as [|fuel]; [lia|]); rewrite loop_S.
    - rewrite (bool_decide_false (_ < 63)%nat) by lia. rewrite andb_false_r.
      unfold zeros. replace (Z.to_nat (Z.min prec 63) - length buf)%nat with 0%nat by lia. cbn [replicate]. rewrite app_nil_r.
      eapply emits_bind_nil; apply emits_ret.
    - rewrite (bool_decide_true (_ < 63)%nat) by lia. rewrite andb_true_r. case_bool_decide as Hp.
      + eapply emits_bind_nil; [eapply emits_bind_nil; [apply emits_push; lia|apply emits_ret]|].
        replace (buf ++ zeros prec (length buf)) with ((buf ++ [48]) ++ zeros prec (length (buf ++ [48]))).
        2:{ rewrite length_app, <- app_assoc. f_equal. unfold zeros. cbn [length].
            replace (Z.to_nat (Z.min prec 63) - length buf)%nat with (S (Z.to_nat (Z.min prec 63) - (length buf + 1)))%nat by lia. done. }
        apply IH; [rewrite length_app; cbn; lia|lia].
      + unfold zeros. replace (Z.to_nat (Z.min prec 63) - length buf)%nat with 0%nat by lia. cbn [replicate]. rewrite app_nil_r.
        eapply emits_bind_nil; apply emits_ret. }
  apply (Hgo (63 - length buf)%nat); lia.
Qed.

(** The digits as they are printed, with the zeros that precision and [#] ask for *)
Definition int_body (b : integer_base) (c : printf_conversion) (v : Z) : list Z :=
  let l := digit_chars (flags c) b 0 22 v in
  let l := l ++ zeros (if bool_decide (precision c < 0) then 1 else precision c) (length l) in
  rev (l ++ (if has (flags c) POUND && bool_decide (base b = 8) && bool_decide (last l ≠ Some 48) then [48] else [])).

Definition int_sign (is_signed negative : bool) (c : printf_conversion) : list Z :=
  let s := sign_char is_signed negative c in if bool_decide (s ≠ 0) then [s] else [].

Definition int_prefix (b : integer_base) (c : printf_conversion) (v : Z) : list Z :=
  if has (flags c) POUND && bool_decide (v ≠ 0) && bool_decide (x_char b ≠ 0) then [48; x_char b] else [].

(** What fills the field of the given width: blanks on the left, zeros behind the sign
    and the prefix, or blanks on the right *)
Definition layout (c : printf_conversion) (head body : list Z) : list Z :=
  let pad := Z.to_nat (width c - Z.of_nat (length (head ++ body))) in
  (if negb (has (flags c) MINUS) && negb (has (flags c) ZERO) then replicate pad 32 else []) ++
  head ++ (if has (flags c) ZERO then replicate pad 48 else []) ++ body ++
  (if has (flags c) MINUS then replicate pad 32 else []).

Lemma no_minus_zero f : bool_decide (Z.land f (Z.lor MINUS ZERO) = 0) = negb (has f MINUS) && negb (has f ZERO).
Proof.
  rewrite Z.land_lor_distr_r. unfold has.
  destruct (decide (Z.land f MINUS = 0)) as [E1|E1], (decide (Z.land f ZERO = 0)) as [E2|E2].
  - by rewrite E1, E2.
  - rewrite E1, (bool_decide_true (Z.land f ZERO ≠ 0)), Z.lor_0_l, bool_decide_false by done. by rewrite andb_false_r.
  - rewrite E2, (bool_decide_true (Z.land f MINUS ≠ 0)), Z.lor_0_r, bool_decide_false by done. done.
  - rewrite (bool_decide_true (Z.land f MINUS ≠ 0)) by done. apply bool_decide_eq_false. intros [? ?]%Z.lor_eq_0_iff. done.
Qed.

Lemma int_body_length b c v : (length (int_body b c v) ≤ 64)%nat.
Proof.
  unfold int_body. cbn zeta. rewrite length_rev, length_app, length_app.
  pose proof (digit_chars_length (flags c) b 0 22 v). unfold zeros. rewrite length_replicate.
  destruct (_ && _ && _); cbn [length]; lia.
Qed.

Lemma emits_unit_eq B (m : LM unit) cs cs' : emits B m tt cs → cs = cs' → emits B m tt cs'.
Proof. by intros ? <-. Qed.

Lemma emits_format_integer B v sg neg b c :
  good_base b → 0 ≤ v < 2 ^ 64 → width c < 2 ^ 31 →
  emits B (format_integer logger v sg neg b c) tt (layout c (int_sign sg neg c ++ int_prefix b c v) (int_body b c v)).
Proof.
  intros Hb Hv Hw. unfold format_integer. cbn zeta. pose proof (digit_chars_length (flags c) b 0 22 v) as Hd.
  eapply emits_bind_nil; [by apply emits_accumulate|]. set (l0 := digit_chars (flags c) b 0 22 v) in *.
  eapply emits_bind_nil; [apply emits_pad_zeros; lia|]. set (prec := if bool_decide (precision c < 0) then 1 else precision c).
  assert ((length (l0 ++ zeros prec (length l0)) ≤ 63)%nat) as Hl1.
  { rewrite length_app. unfold zeros. rewrite length_replicate. lia. }
  set (l1 := l0 ++ zeros prec (length l0)) in *.
  set (oct := if has (flags c) POUND && bool_decide (base b = 8) && bool_decide (last l1 ≠ Some 48) then [48] else []).
  eapply (emits_bind_nil _ _ _ (l1 ++ oct)).
  { subst oct. destruct (_ && _ && _); [apply emits_push; lia|rewrite app_nil_r; apply emits_ret]. }
  assert (rev (l1 ++ oct) = int_body b c v) as Ebody by done.
  set (x := if has (flags c) POUND && bool_decide (v ≠ 0) then x_char b else 0).
  assert (int_prefix b c v = if bool_decide (x ≠ 0) then [48; x] else []) as Epre.
  { unfold int_prefix. subst x. destruct (has (flags c) POUND && bool_decide (v ≠ 0)); cbn [andb]; [done|]. by rewrite bool_decide_false by tauto. }
  set (s := sign_char sg neg c). assert (int_sign sg neg c = if bool_decide (s ≠ 0) then [s] else []) as Esg by done.
  set (pad := if bool_decide (_ < 0) then 0 else _).
  assert (pad = Z.max 0 (width c - Z.of_nat (length ((int_sign sg neg c ++ int_prefix b c v) ++ int_body b c v)))) as Epad.
  { rewrite <- Ebody, Epre, Esg, !length_app, length_rev, length_app. subst pad. rewrite length_app.
    repeat case_bool_decide; cbn [length] in *; lia. }
  assert (0 ≤ pad < 2 ^ 32) as Hpad by lia.
  eapply emits_unit_eq.
  { eapply emits_bind; [apply emits_when; intros _; by apply emits_output_dup|].
    eapply emits_bind; [apply emits_when; intros _; apply emits_out|].
    eapply emits_bind; [apply emits_when; intros _; eapply emits_bind; apply emits_out|].
    eapply emits_bind; [apply emits_when; intros _; by apply emits_output_dup|].
    eapply emits_bind; [apply emits_output_all|]. apply emits_when; intros _; by apply emits_output_dup. }
  cbv beta. rewrite no_minus_zero, Ebody. unfold layout. cbn zeta. rewrite Esg at 2. rewrite Epre at 2.
  replace (Z.to_nat (width c - _)) with (Z.to_nat pad) by lia. rewrite <- !app_assoc. done.
Qed.

(** ** Strings *)

Definition str_layout (c : printf_conversion) (cs : list Z) : list Z :=
  let pad := replicate (Z.to_nat (width c - Z.of_nat (length cs))) 32 in
  if has (flags c) MINUS then cs ++ pad else pad ++ cs.

Lemma emits_format_string B p cs c :
  in_range p → text B p cs → Z.of_nat (length cs) < 2 ^ 31 → width c < 2 ^ 31 →
  emits B (format_string logger p (Z.of_nat (length cs)) c) tt (str_layout c cs).
Proof.
  intros Hp Ht Hl Hw. unfold format_string. rewrite Nat2Z.id. eapply emits_unit_eq.
  { eapply emits_bind; [eapply emits_if; [intros [H1%bool_decide_eq_true _]%andb_prop; apply emits_output_dup; lia|intros _; apply emits_ret]|].
    eapply emits_bind; [apply emits_output_string; by rewrite advance_0|].
    eapply emits_if; [intros [H1%bool_decide_eq_true _]%andb_prop; apply emits_output_dup; lia|intros _; apply emits_ret]. }
  unfold str_layout. cbn zeta. case_bool_decide as Hlt; cbn [andb].
  - destruct (has _ _); cbn [negb]; [done|by rewrite app_nil_r].
  - replace (Z.to_nat (width c - _)) with 0%nat by lia. cbn [replicate app]. rewrite app_nil_r. by destruct (has _ _).
Qed.

Lemma emits_strnlen B fuel p cs c rest maxlen :
  text B p (cs ++ c :: rest) → (length cs < fuel)%nat → Forall (λ c, c ≠ 0) cs →
  Z.of_nat (length cs) ≤ maxlen → (c = 0 ∨ Z.of_nat (length cs) = maxlen) →
  emits B (strnlen fuel p maxlen) (Z.of_nat (length cs)) [].
Proof.
  intros Ht Hf Hnz Hm Hc. unfold strnlen. rewrite Forall_forall in Hnz.
  assert (∀ k fuel i, (i + k = length cs)%nat → (k < fuel)%nat → emits B (loop fuel
    (λ len : nat, c ← deref (advance p len);
       if bool_decide (c ≠ 0) && bool_decide (Z.of_nat len < maxlen) then mret (inl (S len))
       else mret (inr (Z.of_nat len))) i) (Z.of_nat (length cs)) []) as Hgo; [|by apply (Hgo (length cs)); [lia|]].
  induction k as [|k IH]; intros [|fl] i Hi Hfl; try lia; rewrite loop_S.
  - assert (i = length cs) as -> by lia. eapply emits_bind_nil.
    { eapply emits_bind_nil; [apply Ht; by apply list_lookup_middle|]. replace (_ && _) with false; [apply emits_ret|].
      symmetry. apply andb_false_iff. rewrite !bool_decide_eq_false. destruct Hc; [left; tauto|right; lia]. }
    apply emits_ret.
  - destruct (lookup_lt_is_Some_2 cs i) as [ch Hch]; [lia|]. eapply emits_bind_nil.
    { eapply emits_bind_nil; [apply Ht; by apply lookup_app_l_Some|].
      rewrite !bool_decide_true; [apply emits_ret|lia|by apply Hnz; eapply list_elem_of_lookup_2]. }
    apply IH; lia.
Qed.

(** ** The parser of the conversions *)

Definition is_flag (c : Z) : Prop := is_Some (flag_of c).
Definition flag_bit (c : Z) : Z := default 0 (flag_of c).
Definition flags_of (fs : list Z) : Z := foldl (λ f c, Z.lor f (flag_bit c)) 0 fs.

Lemma emits_parse_flags B fuel p fs c rest :
  in_range p → text B p (fs ++ c :: rest) → Forall is_flag fs → flag_of c = None → (length fs < fuel)%nat →
  emits B (parse_flags fuel p) (flags_of fs, advance p (length fs)) [].
Proof.
  intros Hp Ht Hfs Hc Hf. unfold parse_flags, flags_of. generalize 0 as f. revert fuel p Hp Ht Hf.
  induction Hfs as [|x fs [y Hx] _ IH]; intros fuel p Hp Ht Hf f; (destruct fuel as [|fuel]; [cbn in Hf; lia|]); rewrite loop_S.
  - cbn [foldl length]. rewrite advance_0 by done.
    eapply emits_bind_nil; [eapply emits_bind_nil; [by apply (text_here _ _ c rest)|rewrite Hc; apply emits_ret]|apply emits_ret].
  - cbn [foldl length app] in *. eapply emits_bind_nil.
    { eapply emits_bind_nil; [by apply (text_here _ _ x (fs ++ c :: rest))|]. rewrite Hx. apply emits_ret. }
    replace (advance p (S (length fs))) with (advance (advance p 1) (length fs)) by (by rewrite advance_advance).
    unfold flag_bit at 2. rewrite Hx. apply IH; [apply in_range_advance|by eapply text_next|lia].
Qed.

Definition number (ds : list Z) : Z := foldl (λ v c, v * 10 + (c - 48)) 0 ds.

Lemma number_from_le v ds : Forall (λ c, isdigit c = true) ds → 0 ≤ v → v ≤ foldl (λ v c, v * 10 + (c - 48)) v ds.
Proof.
  intros Hd. revert v. induction Hd as [|c ds Hc _ IH]; intros v Hv; cbn; [lia|].
  apply bool_decide_eq_true in Hc. specialize (IH (v * 10 + (c - 48)) ltac:(lia)). lia.
Qed.

Lemma number_nonneg ds : Forall (λ c, isdigit c = true) ds → 0 ≤ number ds.
Proof. intros Hd. by apply number_from_le. Qed.

Lemma emits_parse_number B fuel p ds c rest :
  in_range p → text B p (ds ++ c :: rest) → Forall (λ c, isdigit c = true) ds → isdigit c = false → (length ds < fuel)%nat →
  number ds + 48 < 2 ^ 31 → emits B (parse_number fuel p) (number ds, advance p (length ds)) [].
Proof.
  intros Hp Ht Hds Hc Hf Hn. unfold parse_number, number in *. revert Hn. pose (zero := 0). change (foldl (λ v c, v * 10 + (c - 48)) 0 ds) with (foldl (λ v c, v * 10 + (c - 48)) zero ds).
  change (0, p) with (zero, p). assert (0 ≤ zero) as H0 by done. revert H0. generalize zero as v.
  revert fuel p Hp Ht Hf. induction Hds as [|x ds Hx Hds IH]; intros fuel p Hp Ht Hf v Hv Hn;
    (destruct fuel as [|fuel]; [cbn in Hf; lia|]); rewrite loop_S.
  - cbn [foldl length]. rewrite advance_0 by done.
    eapply emits_bind_nil; [eapply emits_bind_nil; [by apply (text_here _ _ c rest)|rewrite Hc; apply emits_ret]|apply emits_ret].
  - cbn [foldl length app] in *. pose proof (number_from_le (v * 10 + (x - 48)) ds Hds) as Hle.
    pose proof Hx as Hx'. apply bool_decide_eq_true in Hx'.
    eapply emits_bind_nil.
    { eapply emits_bind_nil; [by apply (text_here _ _ x (ds ++ c :: rest))|]. rewrite Hx.
      eapply emits_bind_nil; [apply emits_as_int; lia|]. eapply emits_bind_nil; [apply emits_as_int; lia|].
      eapply emits_bind_nil; [apply emits_as_int; lia|apply emits_ret]. }
    replace (advance p (S (length ds))) with (advance (advance p 1) (length ds)) by (by rewrite advance_advance).
    replace (v * 10 + x - 48) with (v * 10 + (x - 48)) by lia.
    apply IH; [apply in_range_advance|by eapply text_next|lia|lia|lia].
Qed.

(** A conversion as it is written: a dimension is left out, a number, or an asterisk,
    which takes the argument [v]. *)
Inductive dim := Absent | Digits (ds : list Z) | Star (v : Z).

Record directive := Dir { d_flags : list Z; d_width : dim; d_prec : dim; d_type : ctype }.

Definition show_dim (d : dim) : list Z := match d with Absent => [] | Digits ds => ds | Star _ => [42] end.
Definition show_prec (d : dim) : list Z := match d with Absent => [] | _ => 46 :: show_dim d end.
Definition show_type (t : ctype) : list Z :=
  match t with
  | CHAR => [104; 104] | SHORT => [104] | INT => [] | INTMAX => [106]
  | LONG => [108] | LONGLONG => [108; 108] | PTRDIFFT => [116] | SIZET => [122]
  end.
Definition show (d : directive) : list Z := d_flags d ++ show_dim (d_width d) ++ show_prec (d_prec d) ++ show_type (d_type d).

Definition dim_args (d : dim) : list arg := match d with Star v => [A32 v] | _ => [] end.

Definition dim_value (absent : Z) (d : dim) : Z :=
  match d with Absent => absent | Digits ds => number ds | Star v => sext 32 v end.

(** What it stands for *)
Definition meaning (d : directive) : printf_conversion :=
  let f := flags_of (d_flags d) in
  let f := if has f MINUS then without f ZERO else f in
  let f := if has f PLUS then without f SPACE else f in
  let w := dim_value 0 (d_width d) in
  let f := if bool_decide (w < 0) then Z.lor f MINUS else f in
  let p := dim_value (-1) (d_prec d) in
  let p := if bool_decide (p < 0) then -1 else p in
  Conv (if bool_decide (0 ≤ p) then without f ZERO else f) (Z.abs w) p (d_type d).

Definition digits_ok (ds : list Z) : Prop := Forall (λ c, isdigit c = true) ds ∧ number ds + 48 < 2 ^ 31.

Definition dim_ok (d : dim) : Prop :=
  match d with Absent => True | Digits ds => digits_ok ds | Star v => sext 32 v ≠ - 2 ^ 31 end.

Record dir_ok (d : directive) : Prop := {
  do_flags : Forall is_flag (d_flags d);
  do_width : dim_ok (d_width d);
  do_lead ds : d_width d = Digits ds → head ds ≠ Some 48;
  do_prec : dim_ok (d_prec d)
}.

(** A character that cannot go on with a directive *)
Definition plain (c : Z) : Prop := flag_of c = None ∧ isdigit c = false ∧ c ≠ 42 ∧ c ≠ 46.
Definition ends (c : Z) : Prop := plain c ∧ c ≠ 104 ∧ c ≠ 106 ∧ c ≠ 108 ∧ c ≠ 116 ∧ c ≠ 122.

Lemma sext_range v : - 2 ^ 31 ≤ sext 32 v < 2 ^ 31.
Proof. unfold sext. change (32 - 1) with 31. pose proof (Z.mod_pos_bound (v + 2 ^ 31) (2 ^ 32) ltac:(lia)). lia. Qed.

Lemma type_head t c rest : ends c → ∃ h r, show_type t ++ c :: rest = h :: r ∧ plain h.
Proof. intros [Hc _]. destruct t; cbn; eexists _, _; (split; [reflexivity|]); (done || by repeat split). Qed.

Lemma prec_head d h r : plain h → ∃ h' r', show_prec d ++ h :: r = h' :: r' ∧ flag_of h' = None ∧ isdigit h' = false ∧ h' ≠ 42.
Proof. intros (H1 & H2 & H3 & H4). destruct d; cbn; eexists _, _; (split; [reflexivity|]); done. Qed.

Lemma digit_not_flag c : isdigit c = true → c ≠ 48 → flag_of c = None ∧ c ≠ 42 ∧ c ≠ 46.
Proof. intros Hc%bool_decide_eq_true Hne. unfold flag_of. rewrite !bool_decide_false by lia. split; [done|lia]. Qed.

Lemma width_head d h r :
  dim_ok d → (∀ ds, d = Digits ds → head ds ≠ Some 48) → flag_of h = None →
  ∃ h' r', show_dim d ++ h :: r = h' :: r' ∧ flag_of h' = None.
Proof.
  intros Hd Hl Hh. destruct d as [|[|x ds]|v]; cbn; eexists _, _; (split; [reflexivity|]); [done|done| |done].
  destruct Hd as [Hd _]. apply Forall_cons in Hd as [Hx _]. apply digit_not_flag; [done|]. intros ->. by apply (Hl (48 :: ds)).
Qed.

Lemma emits_parse_dim B fuel p d c rest args :
  in_range p → text B p (show_dim d ++ c :: rest) → dim_ok d → isdigit c = false → c ≠ 42 → (length (show_dim d) < fuel)%nat →
  emits B (parse_width fuel p (dim_args d ++ args)) (dim_value 0 d, advance p (length (show_dim d)), args) [].
Proof.
  intros Hp Ht Hd Hc Hs Hf. unfold parse_width. destruct d as [|ds|v]; cbn [show_dim dim_args dim_value app length] in *.
  - eapply emits_bind_nil; [by apply (text_here _ _ c rest)|]. rewrite bool_decide_false by done.
    eapply emits_bind_nil; [apply (emits_parse_number _ _ _ [] c rest); [done|done|by constructor|done|cbn; lia|cbn; lia]|apply emits_ret].
  - destruct Hd as [Hd Hn]. eapply (emits_bind_nil _ _ _ (default c (head ds))).
    { destruct ds as [|x ds]; [by apply (text_here _ _ c rest)|by apply (text_here _ _ x (ds ++ c :: rest))]. }
    rewrite bool_decide_false.
    2:{ destruct Hd as [|x ds Hx _]; cbn; [done|]. apply bool_decide_eq_true in Hx. lia. }
    eapply emits_bind_nil; [by apply (emits_parse_number _ _ _ ds c rest)|apply emits_ret].
  - eapply emits_bind_nil; [by apply (text_here _ _ 42 (c :: rest))|]. rewrite bool_decide_true by done.
    eapply emits_bind_nil; [apply emits_ret|apply emits_ret].
Qed.

Lemma emits_parse_prec B fuel p d c rest args :
  in_range p → text B p (show_prec d ++ c :: rest) → dim_ok d → isdigit c = false → c ≠ 42 → c ≠ 46 → (length (show_prec d) < fuel)%nat →
  emits B (parse_precision fuel p (dim_args d ++ args))
    (let v := dim_value (-1) d in if bool_decide (v < 0) then -1 else v, advance p (length (show_prec d)), args) [].
Proof.
  intros Hp Ht Hd Hc Hs Hdot Hf. unfold parse_precision. cbn zeta. destruct d as [|ds|v]; cbn [show_prec show_dim dim_args dim_value app length] in *.
  - eapply emits_bind_nil; [by apply (text_here _ _ c rest)|]. rewrite bool_decide_false by done. rewrite advance_0 by done. apply emits_ret.
  - destruct Hd as [Hd Hn]. pose proof (text_next _ _ _ _ Ht) as Ht1.
    eapply emits_bind_nil; [by apply (text_here _ _ 46 (ds ++ c :: rest))|]. rewrite bool_decide_true by done.
    eapply (emits_bind_nil _ _ _ (default c (head ds))).
    { destruct ds as [|x ds]; [apply (text_here _ _ c rest)|apply (text_here _ _ x (ds ++ c :: rest))]; (apply in_range_advance || done). }
    eapply emits_bind_nil.
    { rewrite bool_decide_false.
      2:{ destruct Hd as [|x ds Hx _]; cbn; [done|]. apply bool_decide_eq_true in Hx. lia. }
      eapply emits_bind_nil; [apply (emits_parse_number _ _ _ ds c rest); [apply in_range_advance|done|done|done|lia|done]|apply emits_ret]. }
    rewrite advance_advance. apply emits_ret.
  - pose proof (text_next _ _ _ _ Ht) as Ht1.
    eapply emits_bind_nil; [by apply (text_here _ _ 46 (42 :: c :: rest))|]. rewrite bool_decide_true by done.
    eapply emits_bind_nil; [apply (text_here _ _ 42 (c :: rest)); [apply in_range_advance|done]|].
    eapply emits_bind_nil.
    { rewrite bool_decide_true by done. eapply emits_bind_nil; [apply emits_ret|apply emits_ret]. }
    rewrite advance_advance. apply emits_ret.
Qed.

Lemma emits_parse_type B p t c rest :
  in_range p → text B p (show_type t ++ c :: rest) → ends c →
  emits B (parse_type p) (t, advance p (length (show_type t))) [].
Proof.
  intros Hp Ht ((Hf & Hd & H42 & H46) & H104 & H106 & H108 & H116 & H122). unfold parse_type.
  destruct t; cbn [show_type app length] in *;
    (eapply emits_bind_nil; [by eapply (text_here _ _ _ _ Hp Ht)|]);
    try (pose proof (text_next _ _ _ _ Ht) as Ht1;
         pose proof (text_here _ _ _ _ (in_range_advance p 1) Ht1) as H1);
    repeat first [rewrite bool_decide_true by done | rewrite bool_decide_false by done];
    rewrite ?advance_0 by done; try apply emits_ret;
    (eapply emits_bind_nil; [exact H1|]); rewrite ?bool_decide_false by done; apply emits_ret.
Qed.

Lemma emits_parse_conversion B fuel p d c rest args :
  in_range p → text B p (show d ++ c :: rest) → dir_ok d → ends c → (length (show d) < fuel)%nat →
  emits B (parse_conversion fuel p (dim_args (d_width d) ++ dim_args (d_prec d) ++ args))
    (meaning d, advance p (length (show d)), args) [].
Proof.
  intros Hp Ht [Hfl Hw Hlead Hpr] Hc Hf. unfold show in *. rewrite !length_app in *. rewrite <- !app_assoc in Ht.
  destruct (type_head (d_type d) c rest Hc) as (h3 & r3 & E3 & Hh3). pose proof Hh3 as (P1 & P2 & P3 & P4).
  destruct (prec_head (d_prec d) h3 r3 Hh3) as (h2 & r2 & E2 & Q1 & Q2 & Q3).
  destruct (width_head (d_width d) h2 r2 Hw Hlead Q1) as (h1 & r1 & E1 & R1).
  assert (text B (advance p (length (d_flags d))) (show_dim (d_width d) ++ h2 :: r2)) as T1.
  { rewrite <- E2, <- E3. by apply text_app in Ht. }
  assert (text B (advance p (length (d_flags d) + length (show_dim (d_width d)))) (show_prec (d_prec d) ++ h3 :: r3)) as T2.
  { rewrite <- advance_advance, E2. by apply text_app in T1. }
  assert (text B (advance p (length (d_flags d) + length (show_dim (d_width d)) + length (show_prec (d_prec d)))) (show_type (d_type d) ++ c :: rest)) as T3.
  { rewrite <- advance_advance, E3. by apply text_app in T2. }
  unfold parse_conversion. cbn zeta.
  eapply emits_bind_nil; [apply (emits_parse_flags _ _ _ (d_flags d) h1 r1); [done|by rewrite <- E1, <- E2, <- E3|done|done|lia]|].
  eapply emits_bind_nil; [apply (emits_parse_dim _ _ _ (d_width d) h2 r2); [apply in_range_advance|done|done|done|done|lia]|].
  rewrite advance_advance. set (w := dim_value 0 (d_width d)). set (f := if has _ PLUS then _ else _).
  assert (- 2 ^ 31 < w < 2 ^ 31) as Hwr.
  { subst w. destruct (d_width d) as [|ds|v]; cbn in *; [lia| |].
    - destruct Hw as [Hd Hn]. pose proof (number_nonneg ds Hd). lia.
    - pose proof (sext_range v). lia. }
  eapply (emits_bind_nil _ _ _ (Z.abs w, if bool_decide (w < 0) then Z.lor f MINUS else f)).
  { case_bool_decide.
    - eapply emits_bind_nil; [apply emits_as_int; lia|]. replace (Z.abs w) with (- w) by lia. apply emits_ret.
    - replace (Z.abs w) with w by lia. apply emits_ret. }
  eapply emits_bind_nil; [apply (emits_parse_prec _ _ _ (d_prec d) h3 r3); [apply in_range_advance|done|done|done|done|done|lia]|].
  rewrite advance_advance.
  eapply emits_bind_nil; [apply (emits_parse_type _ _ (d_type d) c rest); [apply in_range_advance|done|done]|].
  rewrite advance_advance, <- !Nat.add_assoc. apply emits_ret.
Qed.
