(* ===== verification/KStdioMain.v ===== *)
(** * Pintos: what [printf] prints

    A format is a list of pieces: characters, [%%], and conversions as they are written.
    [__vprintf] emits what the pieces stand for, one after the other; [vsnprintf] stores
    as much of this as fits.  The layout of integers can be read back. *)

From stdpp Require Import base tactics list gmap strings.
From Stdlib Require Import ZArith Lia Ascii.
From S2P Require Import Prelude KString KStringProps KStdlib KStdlibMain KStdio KStdioProps.

Local Open Scope Z_scope.

(** ** Arguments *)

Definition is32 (v : Z) : Prop := 0 ≤ v < 2 ^ 32.
Definition is64 (v : Z) : Prop := 0 ≤ v < 2 ^ 64.

(** The value of an argument, taken as signed or unsigned integer of the type *)
Definition signed_value (t : ctype) (a : arg) : option Z :=
  match t, a with
  | CHAR, A32 v => Some (sext 8 v)
  | SHORT, A32 v => Some (sext 16 v)
  | (INT | LONG | PTRDIFFT | SIZET), A32 v => Some (sext 32 v)
  | (INTMAX | LONGLONG), A64 v => Some (sext 64 v)
  | _, _ => None
  end.

Definition unsigned_value (t : ctype) (a : arg) : option Z :=
  match t, a with
  | CHAR, A32 v => Some (v mod 256)
  | SHORT, A32 v => Some (v mod 65536)
  | (INT | LONG | PTRDIFFT | SIZET), A32 v => Some v
  | (INTMAX | LONGLONG), A64 v => Some v
  | _, _ => None
  end.

Definition arg_ok (a : arg) : Prop := match a with A32 v => is32 v | A64 v => is64 v end.

Lemma sext_bounds n v : 0 < n → - 2 ^ (n - 1) ≤ sext n v < 2 ^ (n - 1).
Proof.
  intros Hn. unfold sext. assert (2 ^ n = 2 * 2 ^ (n - 1)) as E by (rewrite <- Z.pow_succ_r by lia; f_equal; lia).
  assert (0 < 2 ^ (n - 1)) by (apply Z.pow_pos_nonneg; lia).
  pose proof (Z.mod_pos_bound (v + 2 ^ (n - 1)) (2 ^ n) ltac:(lia)). lia.
Qed.

Lemma sext32_size v : is32 v → (if bool_decide (4294967295 / 2 < v) then v - 4294967295 - 1 else v) = sext 32 v.
Proof.
  intros Hv. unfold is32 in Hv. unfold sext. change (4294967295 / 2) with 2147483647. change (32 - 1) with 31.
  case_bool_decide.
  - replace (v + 2 ^ 31) with ((v - 2 ^ 31) + 1 * 2 ^ 32) by lia. rewrite Z.mod_add, Z.mod_small by lia. lia.
  - rewrite Z.mod_small by lia. lia.
Qed.

Lemma ptrdiff_unsigned v : is32 v → Z.land (sext 32 v mod 2 ^ 64) (Z.lor (Z.shiftl 2147483647 1) 1) = v.
Proof.
  intros Hv. unfold is32 in Hv. change (Z.lor (Z.shiftl 2147483647 1) 1) with (Z.ones 32). rewrite Z.land_ones by lia.
  rewrite <- Znumtheory.Zmod_div_mod; [|lia|lia|by exists (2 ^ 32)].
  unfold sext. change (32 - 1) with 31. rewrite Zminus_mod_idemp_l. replace (v + 2 ^ 31 - 2 ^ 31) with v by lia. by apply Z.mod_small.
Qed.

Lemma emits_signed_arg B t a args v : arg_ok a → signed_value t a = Some v → emits B (signed_arg t (a :: args)) (v, args) [].
Proof.
  intros Ha Hv. destruct t, a as [w|w]; cbn [signed_arg signed_value arg_ok] in *; try done; injection Hv as <-;
    (eapply emits_bind_nil; [apply emits_ret|]); try apply emits_ret. cbv beta iota. rewrite sext32_size by done. apply emits_ret.
Qed.

Lemma emits_unsigned_arg B t a args v : arg_ok a → unsigned_value t a = Some v → emits B (unsigned_arg t (a :: args)) (v, args) [].
Proof.
  intros Ha Hv. destruct t, a as [w|w]; cbn [unsigned_arg unsigned_value arg_ok] in *; try done; injection Hv as <-;
    try (eapply emits_bind_nil; [apply emits_ret|]); try apply emits_ret. cbv beta iota. rewrite ptrdiff_unsigned by done. apply emits_ret.
Qed.

Lemma unsigned_value_range t a v : arg_ok a → unsigned_value t a = Some v → 0 ≤ v < 2 ^ 64.
Proof.
  intros Ha Hv. destruct t, a as [w|w]; cbn in *; try done; injection Hv as <-; unfold is32, is64 in *; try lia;
    [pose proof (Z.mod_pos_bound w 256 ltac:(lia))|pose proof (Z.mod_pos_bound w 65536 ltac:(lia))]; lia.
Qed.

Lemma signed_value_range t a v : signed_value t a = Some v → - 2 ^ 63 ≤ v < 2 ^ 63.
Proof.
  intros Hv. destruct t, a as [w|w]; cbn in *; try done; injection Hv as <-;
    [pose proof (sext_bounds 8 w ltac:(lia))|pose proof (sext_bounds 16 w ltac:(lia))|pose proof (sext_bounds 32 w ltac:(lia))
    |pose proof (sext_bounds 64 w ltac:(lia))|pose proof (sext_bounds 32 w ltac:(lia))|pose proof (sext_bounds 64 w ltac:(lia))
    |pose proof (sext_bounds 32 w ltac:(lia))|pose proof (sext_bounds 32 w ltac:(lia))]; cbn in *; lia.
Qed.

(** ** Pieces of a format *)

Inductive piece :=
  | Char (c : Z)
  | Percent
  | Signed (d : directive) (conv : Z) (a : arg)
  | Unsigned (d : directive) (conv : Z) (a : arg)
  | Single (d : directive) (v : Z)
  | Str (d : directive) (v : Z) (cs : list Z)
  | Ptr (d : directive) (v : Z)
  | Bad (d : directive) (conv : Z).

Definition piece_text (x : piece) : list Z :=
  match x with
  | Char c => [c]
  | Percent => [37; 37]
  | Signed d conv _ | Unsigned d conv _ | Bad d conv => 37 :: show d ++ [conv]
  | Single d _ => 37 :: show d ++ [99]
  | Str d _ _ => 37 :: show d ++ [115]
  | Ptr d _ => 37 :: show d ++ [112]
  end.

Definition dir_args (d : directive) : list arg := dim_args (d_width d) ++ dim_args (d_prec d).

Definition piece_args (x : piece) : list arg :=
  match x with
  | Char _ | Percent => []
  | Signed d _ a | Unsigned d _ a => dir_args d ++ [a]
  | Single d v | Str d v _ | Ptr d v => dir_args d ++ [A32 v]
  | Bad d _ => dir_args d
  end.

Definition int_out (b : integer_base) (sg neg : bool) (c : printf_conversion) (v : Z) : list Z :=
  layout c (int_sign sg neg c ++ int_prefix b c v) (int_body b c v).

Definition unsupported (conv : Z) : bool :=
  bool_decide (conv = 102 ∨ conv = 101 ∨ conv = 69 ∨ conv = 103 ∨ conv = 71 ∨ conv = 110).

Definition piece_out (x : piece) : list Z :=
  match x with
  | Char c => [c]
  | Percent => [37]
  | Signed d _ a =>
      let v := default 0 (signed_value (d_type d) a) in int_out base_d true (bool_decide (v < 0)) (meaning d) (Z.abs v)
  | Unsigned d conv a => int_out (unsigned_base conv) false false (meaning d) (default 0 (unsigned_value (d_type d) a))
  | Single d v => str_layout (meaning d) [v mod 256]
  | Str d _ cs => str_layout (meaning d) cs
  | Ptr d v => let c := meaning d in int_out base_x false false (Conv POUND (width c) (precision c) (type c)) v
  | Bad _ conv => chars "<<no %" ++ [conv mod 256] ++ (if unsupported conv then chars " in kernel>>" else chars " conversion>>")
  end.

(** The string that [%s] prints: the null pointer has one of its own, and the precision
    limits its length. *)
Definition str_ok (B : gmap Z Z) (c : printf_conversion) (v : Z) (cs : list Z) : Prop :=
  let p := if bool_decide (v = 0) then Lit (chars "(null)") 0 else Mem v in
  ∃ ch rest, text B p (cs ++ ch :: rest) ∧ Forall (λ c, c ≠ 0) cs ∧ Z.of_nat (length cs) < 2 ^ 31 ∧
    if bool_decide (precision c < 0) then ch = 0
    else Z.of_nat (length cs) ≤ precision c ∧ (ch = 0 ∨ Z.of_nat (length cs) = precision c).

Definition piece_ok (B : gmap Z Z) (x : piece) : Prop :=
  match x with
  | Char c => c ≠ 0 ∧ c ≠ 37
  | Percent => True
  | Signed d conv a => dir_ok d ∧ (conv = 100 ∨ conv = 105) ∧ arg_ok a ∧ ∃ v, signed_value (d_type d) a = Some v ∧ v ≠ - 2 ^ 63
  | Unsigned d conv a => dir_ok d ∧ (conv = 111 ∨ conv = 117 ∨ conv = 120 ∨ conv = 88) ∧ arg_ok a ∧ is_Some (unsigned_value (d_type d) a)
  | Single d v => dir_ok d
  | Str d v cs => dir_ok d ∧ is32 v ∧ str_ok B (meaning d) v cs
  | Ptr d v => dir_ok d ∧ is32 v
  | Bad d conv => dir_ok d ∧ ends conv ∧ conv ≠ 37 ∧ conv ∉ [100; 105; 111; 117; 120; 88; 99; 115; 112]
  end.

Lemma meaning_width d : dir_ok d → 0 ≤ width (meaning d) < 2 ^ 31.
Proof.
  intros [_ Hw _ _]. unfold meaning. cbn [width]. destruct (d_width d) as [|ds|v]; cbn in *; [lia| |].
  - destruct Hw as [Hd Hn]. pose proof (number_nonneg ds Hd). lia.
  - pose proof (sext_range v). lia.
Qed.

Lemma meaning_precision d : dir_ok d → -1 ≤ precision (meaning d) < 2 ^ 31.
Proof.
  intros [_ _ _ Hp]. unfold meaning. cbn [precision]. case_bool_decide as Hneg; [lia|].
  destruct (d_prec d) as [|ds|v]; cbn in *; [lia| |pose proof (sext_range v); lia].
  destruct Hp as [Hd Hn]. pose proof (number_nonneg ds Hd). lia.
Qed.

(** ** Conversions *)

Section render.
Context (B : gmap Z Z) (fuel : nat).

Local Abbreviation LM := (M (io (list Z))).

Lemma sext_small n : 0 ≤ n < 2 ^ 31 → sext 32 n = n.
Proof. intros Hn. unfold sext. change (32 - 1) with 31. rewrite Z.mod_small by lia. lia. Qed.

Lemma emits_int b sg neg c v (args : list arg) :
  good_base b → 0 ≤ v < 2 ^ 64 → width c < 2 ^ 31 →
  emits B (format_integer logger v sg neg b c;; mret args) args (int_out b sg neg c v).
Proof.
  intros Hb Hv Hw. rewrite <- (app_nil_r (int_out _ _ _ _ _)).
  eapply emits_bind; [by apply emits_format_integer|apply emits_ret].
Qed.

Lemma unsigned_base_good conv : good_base (unsigned_base conv).
Proof. destruct bases_good as (? & ? & ? & ?). unfold unsigned_base. by repeat case_bool_decide. Qed.

Lemma emits_str p cs c (args : list arg) :
  in_range p → text B p cs → Z.of_nat (length cs) < 2 ^ 31 → width c < 2 ^ 31 →
  emits B (format_string logger p (Z.of_nat (length cs)) c;; mret args) args (str_layout c cs).
Proof.
  intros Hp Ht Hl Hw. rewrite <- (app_nil_r (str_layout _ _)).
  eapply emits_bind; [by apply emits_format_string|apply emits_ret].
Qed.

(** The conversion character of a piece and its last argument *)
Definition conv_of (x : piece) : Z :=
  match x with
  | Signed _ conv _ | Unsigned _ conv _ | Bad _ conv => conv
  | Single _ _ => 99 | Str _ _ _ => 115 | Ptr _ _ => 112
  | _ => 0
  end.
Definition value_args (x : piece) : list arg :=
  match x with
  | Signed _ _ a | Unsigned _ _ a => [a]
  | Single _ v | Str _ v _ | Ptr _ v => [A32 v]
  | _ => []
  end.
Definition dir_of (x : piece) : option directive :=
  match x with
  | Signed d _ _ | Unsigned d _ _ | Bad d _ | Single d _ | Str d _ _ | Ptr d _ => Some d
  | _ => None
  end.

Definition complains (k : list Z → Z → LM unit) (x : piece) : Prop :=
  match x with
  | Bad _ conv =>
      emits B (k (if unsupported conv then chars "<<no %%%c in kernel>>" else chars "<<no %%%c conversion>>") conv) tt (piece_out x)
  | _ => True
  end.

Lemma emits_convert k x d args :
  piece_ok B x → dir_of x = Some d → complains k x →
  (match x with Str _ _ cs => length cs < fuel | _ => True end)%nat →
  emits B (convert fuel logger k (conv_of x) (meaning d) (value_args x ++ args)) args (piece_out x).
Proof.
  intros Hx Hd Hk Hf. assert (dir_ok d) as Hdok by (destruct x; cbn in Hd; try done; injection Hd as ->; by destruct Hx || done).
  pose proof (meaning_width d Hdok) as [_ Hw]. pose proof (meaning_precision d Hdok) as Hp.
  unfold convert. destruct x as [c| |d' conv a|d' conv a|d' v|d' v cs|d' v|d' conv]; cbn [dir_of] in Hd; try done;
    injection Hd as ->; cbn [conv_of value_args app piece_ok piece_out] in *.
  - destruct Hx as (_ & Hc & Ha & z & Hz & Hmin). rewrite bool_decide_true by done. pose proof (signed_value_range _ _ _ Hz).
    eapply emits_bind_nil; [by apply emits_signed_arg|]. rewrite Hz. change (default 0 (Some z)) with z.
    eapply (emits_bind_nil _ _ _ (Z.abs z)).
    { case_bool_decide; [|replace (Z.abs z) with z by lia; apply emits_ret].
      replace (Z.abs z) with (- z) by lia. eapply emits_bind_nil; [apply emits_check, bool_decide_eq_true; lia|apply emits_ret]. }
    apply emits_int; [apply bases_good|lia|done].
  - destruct Hx as (_ & Hc & Ha & z & Hz). rewrite bool_decide_false by lia. rewrite bool_decide_true by done.
    pose proof (unsigned_value_range _ _ _ Ha Hz). eapply emits_bind_nil; [by apply emits_unsigned_arg|].
    rewrite Hz. change (default 0 (Some z)) with z. apply emits_int; [apply unsigned_base_good|done|done].
  - rewrite !(bool_decide_false (99 = _ ∨ _)), bool_decide_true by lia. eapply emits_bind_nil; [apply emits_ret|].
    apply (emits_str (Lit [v mod 256] 0) [v mod 256]); [done| |cbn; lia|done].
    apply (text_prefix B _ [v mod 256] [0]). apply (text_lit B [v mod 256] 0).
  - destruct Hx as (_ & Hv & ch & rest & Ht & Hnz & Hl & Hpr).
    rewrite !(bool_decide_false (115 = _ ∨ _)), (bool_decide_false (115 = 99)), (bool_decide_true (115 = 115)) by lia.
    eapply emits_bind_nil; [apply emits_ret|]. cbv beta iota zeta. set (p := if bool_decide (v = 0) then _ else _) in *.
    assert (in_range p) as Hpr' by (subst p; destruct (bool_decide (v = 0)); [done|exact Hv]).
    eapply emits_bind_nil.
    { apply (emits_strnlen _ _ _ cs ch rest); [done|done|done|..]; unfold wrap_u32; case_bool_decide as Hneg.
      - replace (precision (meaning d)) with (-1) by lia. change (-1 mod 4294967296) with 4294967295. lia.
      - rewrite Z.mod_small by lia. lia.
      - by left.
      - rewrite Z.mod_small by lia. tauto. }
    rewrite sext_small by lia. apply emits_str; [done|by eapply text_prefix|done|done].
  - destruct Hx as [_ Hv]. rewrite !(bool_decide_false (112 = _ ∨ _)), (bool_decide_false (112 = 99)), (bool_decide_false (112 = 115)), (bool_decide_true (112 = 112)) by lia.
    eapply emits_bind_nil; [apply emits_ret|]. apply emits_int; [apply bases_good|unfold is32 in Hv; lia|done].
  - destruct Hx as (_ & _ & _ & Hno). rewrite !not_elem_of_cons in Hno. destruct Hno as (? & ? & ? & ? & ? & ? & ? & ? & ? & _).
    rewrite (bool_decide_false (conv = 100 ∨ conv = 105)), (bool_decide_false (conv = 111 ∨ conv = 117 ∨ conv = 120 ∨ conv = 88)), (bool_decide_false (conv = 99)), (bool_decide_false (conv = 115)), (bool_decide_false (conv = 112)) by lia.
    fold (unsupported conv). rewrite <- (app_nil_r (chars "<<no %" ++ _)). eapply emits_bind; [exact Hk|apply emits_ret].
Qed.

(** ** Formats *)

Definition format_text (xs : list piece) : list Z := xs ≫= piece_text.
Definition format_args (xs : list piece) : list arg := xs ≫= piece_args.
Definition format_out (xs : list piece) : list Z := xs ≫= piece_out.

Definition piece_size (x : piece) : nat :=
  length (piece_text x) + match x with Str _ _ cs => length cs | Bad _ _ => 32 | _ => 0 end.

Lemma conv_ends x d : piece_ok B x → dir_of x = Some d → ends (conv_of x) ∧ conv_of x ≠ 37 ∧ dir_ok d.
Proof.
  intros Hx Hd. assert (∀ c, c ∈ [100; 105; 111; 117; 120; 88; 99; 115; 112] → ends c ∧ c ≠ 37) as Hall.
  { intros c. rewrite !elem_of_cons, elem_of_nil. intros Hc. decompose [or] Hc; subst; (done || by repeat split). }
  destruct x; cbn in Hd; try done; injection Hd as ->; cbn in *.
  - destruct Hx as (? & [-> | ->] & _); (split_and!; [apply Hall; set_solver|done|done]).
  - destruct Hx as (? & [-> | [-> | [-> | ->]]] & _); (split_and!; [apply Hall; set_solver|done|done]).
  - split_and!; [apply Hall; set_solver|done|done].
  - destruct Hx as (? & _). split_and!; [apply Hall; set_solver|done|done].
  - destruct Hx as (? & _). split_and!; [apply Hall; set_solver|done|done].
  - destruct Hx as (? & ? & ? & _). done.
Qed.

(** No directive starts with a percent sign. *)
Lemma show_head d c rest : dir_ok d → c ≠ 37 → head (show d ++ c :: rest) ≠ Some 37.
Proof.
  intros [Hf Hw _ _] Hc. unfold show. destruct (d_flags d) as [|x fs].
  - destruct (d_width d) as [|[|x ds]|v]; cbn in *.
    + destruct (d_prec d); [|done..]. destruct (d_type d); cbn; congruence.
    + destruct (d_prec d); [|done..]. destruct (d_type d); cbn; congruence.
    + destruct Hw as [[Hx _]%Forall_cons _]. apply bool_decide_eq_true in Hx. intros [= ->]. lia.
    + done.
  - apply Forall_cons in Hf as [[f Hx] _]. cbn. intros [= ->]. done.
Qed.

Lemma emits_step_directive k x d p rest args :
  in_range p → text B p (37 :: show d ++ conv_of x :: rest) → piece_ok B x → dir_of x = Some d → complains k x →
  (length (show d) < fuel)%nat → (match x with Str _ _ cs => length cs < fuel | _ => True end)%nat →
  emits B (vprintf_step fuel logger k (p, dir_args d ++ value_args x ++ args))
    (inl (advance p (S (S (length (show d)))), args)) (piece_out x).
Proof.
  intros Hp Ht Hx Hd Hk Hf Hfs. destruct (conv_ends x d Hx Hd) as (He & H37 & Hdok). pose proof (text_next _ _ _ _ Ht) as Ht1.
  unfold vprintf_step. eapply emits_bind_nil; [by apply (text_here _ _ 37 (show d ++ conv_of x :: rest))|].
  rewrite (bool_decide_false (37 = 0)), (bool_decide_false (37 ≠ 37)) by lia. cbn zeta.
  destruct (show d ++ conv_of x :: rest) as [|h r] eqn:Eh; [by destruct (show d)|].
  eapply emits_bind_nil; [apply (text_here _ _ h r); [apply in_range_advance|done]|].
  rewrite (bool_decide_false (h = 37)).
  2:{ intros ->. by apply (show_head d (conv_of x) rest Hdok H37); rewrite Eh. }
  unfold dir_args. rewrite <- app_assoc.
  eapply emits_bind_nil; [apply (emits_parse_conversion _ _ _ d (conv_of x) rest); [apply in_range_advance|by rewrite Eh|done|done|done]|].
  rewrite <- Eh in Ht1. apply text_app in Ht1. cbv beta iota.
  eapply emits_bind_nil; [apply (text_here _ _ (conv_of x) rest); [apply in_range_advance|done]|].
  rewrite <- (app_nil_r (piece_out x)). eapply emits_bind; [by apply emits_convert|].
  rewrite !advance_advance. replace (1 + (length (show d) + 1))%nat with (S (S (length (show d)))) by lia. apply emits_ret.
Qed.

Lemma emits_step k x p rest args :
  in_range p → text B p (piece_text x ++ rest) → piece_ok B x → complains k x → (piece_size x < fuel)%nat →
  emits B (vprintf_step fuel logger k (p, piece_args x ++ args)) (inl (advance p (length (piece_text x)), args)) (piece_out x).
Proof.
  intros Hp Ht Hx Hk Hs. destruct (dir_of x) as [d|] eqn:Hd.
  - assert (piece_text x = 37 :: show d ++ [conv_of x]) as Et by (destruct x; cbn in Hd; try done; by injection Hd as ->).
    assert (piece_args x = dir_args d ++ value_args x) as Ea.
    { destruct x; cbn in Hd; try done; injection Hd as ->; cbn; by rewrite ?app_nil_r. }
    rewrite Ea, <- app_assoc. unfold piece_size in Hs. rewrite Et in Hs |- *. cbn [length] in *. rewrite length_app in *. cbn [length] in *.
    replace (S (length (show d) + 1)) with (S (S (length (show d)))) by lia.
    apply (emits_step_directive k x d p rest); [done| |done|done|done|lia|].
    + rewrite Et in Ht. cbn in Ht. by rewrite <- app_assoc in Ht.
    + destruct x; lia || done.
  - destruct x as [c| |d' ? ?|d' ? ?|d' ?|d' ? ?|d' ?|d' ?]; try done; cbn [piece_text piece_args piece_out app length] in *.
    + destruct Hx as [H0 H37]. unfold vprintf_step. eapply emits_bind_nil; [by apply (text_here _ _ c rest)|].
      rewrite bool_decide_false, bool_decide_true by done. change [c] with ([c] ++ []).
      eapply emits_bind; [apply emits_out|apply emits_ret].
    + unfold vprintf_step. eapply emits_bind_nil; [by apply (text_here _ _ 37 (37 :: rest))|].
      rewrite (bool_decide_false (37 = 0)), (bool_decide_false (37 ≠ 37)) by lia. cbn zeta.
      eapply emits_bind_nil; [apply (text_here _ _ 37 rest); [apply in_range_advance|by eapply text_next]|].
      rewrite bool_decide_true by done. rewrite advance_advance. change [37] with ([37] ++ []).
      eapply emits_bind; [apply emits_out|apply emits_ret].
Qed.

(** The loop over some pieces, which goes on behind them *)
Lemma loop_pieces k xs n p rest args l :
  in_range p → text B p (format_text xs ++ rest) → Forall (piece_ok B) xs → Forall (complains k) xs →
  Forall (λ x, piece_size x < fuel)%nat xs → room (length (l ++ format_out xs)) →
  loop (length xs + n) (vprintf_step fuel logger k) (p, format_args xs ++ args) (IO B l) =
  loop n (vprintf_step fuel logger k) (advance p (length (format_text xs)), args) (IO B (l ++ format_out xs)).
Proof.
  revert p l. induction xs as [|x xs IH]; intros p l Hp Ht Hx Hk Hs Hr.
  - cbn. by rewrite advance_0, app_nil_r.
  - apply Forall_cons in Hx as [Hx Hxs]. apply Forall_cons in Hk as [Hk Hks]. apply Forall_cons in Hs as [Hs Hss].
    change (format_text (x :: xs)) with (piece_text x ++ format_text xs) in *. rewrite <- app_assoc in Ht.
    change (format_args (x :: xs)) with (piece_args x ++ format_args xs). rewrite <- app_assoc.
    change (format_out (x :: xs)) with (piece_out x ++ format_out xs) in *. rewrite app_assoc in Hr.
    cbn [length Nat.add]. rewrite loop_S. unfold mbind at 1, M_bind at 1.
    rewrite (emits_step k x p _ _ Hp Ht Hx Hk Hs) by (rewrite length_app in Hr; unfold room in *; lia).
    rewrite IH; [|apply in_range_advance|by apply text_app in Ht|done|done|done|done].
    by rewrite advance_advance, length_app, app_assoc.
Qed.

Lemma emits_pieces k xs n p rest args :
  in_range p → text B p (format_text xs ++ 0 :: rest) → Forall (piece_ok B) xs → Forall (complains k) xs →
  Forall (λ x, piece_size x < fuel)%nat xs → (length xs < n)%nat →
  emits B (loop n (vprintf_step fuel logger k) (p, format_args xs ++ args)) tt (format_out xs).
Proof.
  intros Hp Ht Hx Hk Hs Hn l Hl. replace n with (length xs + S (n - length xs - 1))%nat by lia.
  rewrite (loop_pieces k xs _ p (0 :: rest)) by done. rewrite <- (app_nil_r (l ++ _)) at 2.
  apply (text_app _ _ _ _) in Ht. rewrite loop_S.
  apply (emits_bind_nil _ _ _ (inr tt)); [|apply emits_ret|by rewrite app_nil_r]. unfold vprintf_step.
  eapply emits_bind_nil; [apply (text_here _ _ 0 rest); [apply in_range_advance|done]|].
  rewrite bool_decide_true by done. apply emits_ret.
Qed.

End render.

(** ** The complaint about a conversion *)

Definition plain_dir : directive := Dir [] Absent Absent INT.

Lemma plain_dir_ok : dir_ok plain_dir.
Proof. by split. Qed.

Definition complaint (conv : Z) : list piece :=
  (Char <$> chars "<<no ") ++ [Percent; Single plain_dir conv] ++
  (Char <$> (if unsupported conv then chars " in kernel>>" else chars " conversion>>")).

Lemma emits_complaint B fuel d conv :
  (32 ≤ fuel)%nat →
  emits B (__vprintf fuel logger 1
    (Lit (if unsupported conv then chars "<<no %%%c in kernel>>" else chars "<<no %%%c conversion>>") 0) [A32 conv]) tt
    (piece_out (Bad d conv)).
Proof.
  intros Hf. set (t := if unsupported conv then _ else _).
  assert (format_text (complaint conv) ++ [0] = t ++ [0]) as Et by (subst t; unfold complaint; by destruct (unsupported conv)).
  assert (format_args (complaint conv) ++ [] = [A32 conv]) as Ea by (unfold complaint; by destruct (unsupported conv)).
  assert (format_out (complaint conv) = piece_out (Bad d conv)) as Eo by (unfold complaint; cbn [piece_out]; by destruct (unsupported conv)).
  rewrite <- Eo, <- Ea. cbn [__vprintf]. unfold vprintf_loop.
  apply (emits_pieces B fuel _ (complaint conv) fuel (Lit t 0) []); [done|rewrite Et; apply (text_lit B t 0)| | | |].
  - assert (∀ l, forallb (λ c, negb (bool_decide (c = 0)) && negb (bool_decide (c = 37))) l = true → Forall (piece_ok B) (Char <$> l)) as Hch.
    { intros l. rewrite Forall_fmap, forallb_forall, Forall_forall. intros Hl c Hc. specialize (Hl c ltac:(by apply list_elem_of_In)).
      apply andb_prop in Hl as [H1%negb_true_iff H2%negb_true_iff]. cbn. by rewrite bool_decide_eq_false in H1, H2. }
    unfold complaint. apply Forall_app. split; [by apply Hch|]. apply Forall_app. split; [repeat constructor; apply plain_dir_ok|].
    destruct (unsupported conv); by apply Hch.
  - unfold complaint. apply Forall_app. split; [by apply Forall_fmap, Forall_forall|].
    apply Forall_app. split; [by repeat constructor|by apply Forall_fmap, Forall_forall].
  - unfold complaint. apply Forall_app. split; [apply Forall_fmap, Forall_forall; cbn; lia|].
    apply Forall_app. split; [repeat constructor; cbn; lia|apply Forall_fmap, Forall_forall; cbn; lia].
  - unfold complaint. destruct (unsupported conv); cbn; lia.
Qed.

Lemma pieces_complain B fuel xs :
  Forall (λ x, piece_size x < fuel)%nat xs →
  Forall (complains B (λ format ch, __vprintf fuel logger 1 (Lit format 0) [A32 ch])) xs.
Proof.
  intros Hs. rewrite Forall_forall in Hs |- *. intros x Hin. destruct x as [| | | | | | |d conv]; try done.
  apply emits_complaint. specialize (Hs _ Hin). unfold piece_size in Hs. lia.
Qed.

Lemma emits_vprintf B fuel xs p rest :
  in_range p → text B p (format_text xs ++ 0 :: rest) → Forall (piece_ok B) xs →
  Forall (λ x, piece_size x < fuel)%nat xs → (length xs < fuel)%nat →
  emits B (__vprintf fuel logger 2 p (format_args xs)) tt (format_out xs).
Proof.
  intros Hp Ht Hx Hs Hn. rewrite <- (app_nil_r (format_args xs)). change 2%nat with (S 1).
  apply (emits_pieces B fuel _ xs fuel p rest []); [done|done|done|by apply pieces_complain|done|done].
Qed.

(** ** Storing what is printed *)

(** [cs] at the address [a] and up *)
Fixpoint store (a : Z) (cs : list Z) (m : gmap Z Z) : gmap Z Z :=
  match cs with
  | [] => m
  | c :: cs => store (a + 1) cs (<[a := c]> m)
  end.

Lemma store_app a cs1 cs2 m : store a (cs1 ++ cs2) m = store (a + Z.of_nat (length cs1)) cs2 (store a cs1 m).
Proof.
  revert a m. induction cs1 as [|c cs1 IH]; intros a m; cbn [store app length]; [by rewrite Z.add_0_r|].
  rewrite IH. f_equal. lia.
Qed.

Lemma store_outside a cs m z : ¬ a ≤ z < a + Z.of_nat (length cs) → store a cs m !! z = m !! z.
Proof.
  revert a m. induction cs as [|c cs IH]; intros a m Hz; cbn [store length] in *; [done|].
  rewrite IH by lia. rewrite lookup_insert_ne by lia. done.
Qed.

Lemma store_inside a cs m i c : cs !! i = Some c → store a cs m !! (a + Z.of_nat i) = Some c.
Proof.
  revert a m i. induction cs as [|x cs IH]; intros a m i Hi; [done|]. cbn [store]. destruct i as [|i].
  - injection Hi as ->. rewrite Z.add_0_r, store_outside by lia. by rewrite lookup_insert_eq.
  - replace (a + Z.of_nat (S i)) with (a + 1 + Z.of_nat i) by lia. by apply IH.
Qed.

Lemma store_domain a cs m z : is_Some (m !! z) → is_Some (store a cs m !! z).
Proof.
  intros Hm. destruct (decide (a ≤ z < a + Z.of_nat (length cs))) as [Hz|Hz]; [|by rewrite store_outside].
  destruct (lookup_lt_is_Some_2 cs (Z.to_nat (z - a))) as [c Hc]; [lia|].
  exists c. rewrite <- (store_inside a cs m (Z.to_nat (z - a)) c Hc). f_equal. lia.
Qed.

Section vsnprintf.
Context (B m : gmap Z Z) (buffer max : Z).
Hypothesis Hmax : 0 ≤ max < 2 ^ 31.
Hypothesis Hsub : B ⊆ m.

(** The buffer is memory, and no string that is read lies in it. *)
Hypothesis Hbuf : ∀ z, buffer ≤ z < buffer + max → is_Some (m !! z) ∧ B !! z = None.

Definition stored (s1 : io (list Z)) (s2 : io vsnprintf_aux) : Prop :=
  let l := aux s1 in let n := Z.of_nat (length l) in
  bytes s1 = B ∧ bytes s2 = store buffer (take (Z.to_nat max) l) m ∧
  aux s2 = VAux (buffer + Z.min n max) n max.

Lemma stored_bytes s1 s2 : stored s1 s2 → bytes s1 ⊆ bytes s2.
Proof using Hsub Hbuf.
  intros (-> & -> & _). apply map_subseteq_spec. intros z c Hz. rewrite store_outside; [by eapply lookup_weaken|].
  rewrite length_take. intros Hr. destruct (Hbuf z) as [_ E]; [lia|]. congruence.
Qed.

Lemma stored_out ch : sim stored (logger ch) (vsnprintf_helper ch).
Proof using Hmax Hbuf.
  intros [b1 l] [b2 a2] (Hb1 & Hb2 & Ha2) a s1'. cbn in Hb1, Hb2, Ha2. subst b1 b2 a2. unfold logger, vsnprintf_helper.
  unfold mbind, M_bind, get. cbn [aux bytes va_length va_max va_p]. case_bool_decide as Hroom; [|done].
  unfold room in Hroom. cbn. intros [= <- <-]. unfold as_int, check, mbind, M_bind, mret, M_ret.
  rewrite bool_decide_true by lia. cbn [bytes aux]. set (n := Z.of_nat (length l)). case_bool_decide as Hlt.
  - rewrite bool_decide_true.
    2:{ apply store_domain, Hbuf. lia. }
    eexists. split; [reflexivity|]. unfold stored. cbn [bytes aux]. split; [done|].
    rewrite length_app. cbn [length]. split.
    + rewrite !take_ge by (rewrite ?length_app; cbn; lia). rewrite store_app. cbn [store]. do 2 f_equal. lia.
    + f_equal; lia.
  - eexists. split; [reflexivity|]. unfold stored. cbn [bytes aux]. split; [done|].
    rewrite length_app. cbn [length]. split.
    + rewrite take_app_le by lia. done.
    + f_equal; lia.
Qed.
End vsnprintf.

Lemma vsnprintf_stores fuel B m buffer size p args cs :
  B ⊆ m → 0 < size ≤ 2 ^ 31 → (∀ z, buffer ≤ z < buffer + size → is_Some (m !! z) ∧ B !! z = None) →
  emits B (__vprintf fuel logger 2 p args) tt cs → room (length cs) →
  vsnprintf fuel buffer size p args m =
    Done (Z.of_nat (length cs), store buffer (take (Z.to_nat (size - 1)) cs ++ [0]) m).
Proof.
  intros Hsub Hsz Hbuf He Hroom. unfold vsnprintf. rewrite bool_decide_true by lia. rewrite sext_small by lia.
  destruct (sim_vprintf (stored B m buffer (size - 1)) logger vsnprintf_helper) with (fuel := fuel) (depth := 2%nat) (p := p) (args := args)
    (s1 := IO B (@nil Z)) (s2 := IO m (VAux buffer 0 (size - 1))) (a := tt) (s1' := IO B cs) as (s2' & -> & Hb1 & Hb2 & Ha2).
  - intros s1 s2. apply stored_bytes; [done|]. intros z Hz. apply Hbuf. lia.
  - intros ch. apply stored_out; [lia|]. intros z Hz. apply Hbuf. lia.
  - split; [done|]. cbn. rewrite take_nil. split; [done|]. f_equal; lia.
  - by apply (He []).
  - cbn [aux] in *. rewrite Hb2, Ha2. cbn [va_p va_length]. rewrite bool_decide_true.
    2:{ apply store_domain, Hbuf. lia. }
    f_equal. f_equal. rewrite store_app. cbn [store]. do 2 f_equal. rewrite length_take. lia.
Qed.

Lemma vsnprintf_nothing fuel B m buffer p args cs :
  B ⊆ m → emits B (__vprintf fuel logger 2 p args) tt cs → room (length cs) →
  vsnprintf fuel buffer 0 p args m = Done (Z.of_nat (length cs), m).
Proof.
  intros Hsub He Hroom. unfold vsnprintf. rewrite bool_decide_false by lia. rewrite sext_small by lia.
  destruct (sim_vprintf (stored B m buffer 0) logger vsnprintf_helper) with (fuel := fuel) (depth := 2%nat) (p := p) (args := args)
    (s1 := IO B (@nil Z)) (s2 := IO m (VAux buffer 0 0)) (a := tt) (s1' := IO B cs) as (s2' & -> & Hb1 & Hb2 & Ha2).
  - intros s1 s2. apply stored_bytes; [done|]. intros z Hz. lia.
  - intros ch. apply stored_out; [lia|]. intros z Hz. lia.
  - split; [done|]. cbn. split; [done|]. f_equal; lia.
  - by apply (He []).
  - cbn [aux] in *. by rewrite Hb2, Ha2.
Qed.

(** ** Reading integers back *)

Definition index (c : Z) (ds : list Z) : Z := default 0 (Z.of_nat ∘ fst <$> list_find (c =.) ds).

(** The value of a numeral, most significant digit first *)
Definition read (b : integer_base) (l : list Z) : Z := foldl (λ v c, v * base b + index c (digits b)) 0 l.

Definition no_comma (l : list Z) : list Z := filter (λ c, c ≠ 44) l.

Record numeral_base (b : integer_base) : Prop := {
  nb_good : good_base b;
  nb_index i c : digits b !! i = Some c → index c (digits b) = Z.of_nat i;
  nb_zero : digits b !! 0%nat = Some 48;
  nb_comma : 44 ∉ digits b
}.

Lemma numeral_from_check b :
  good_base b → forallb (λ i, bool_decide (index (default 0 (digits b !! i)) (digits b) = Z.of_nat i)) (seq 0 (length (digits b))) = true →
  digits b !! 0%nat = Some 48 → bool_decide (44 ∉ digits b) = true → numeral_base b.
Proof.
  intros Hg Hi Hz Hc%bool_decide_eq_true. split; [done| |done|done]. intros i c Hic. rewrite forallb_forall in Hi.
  specialize (Hi i). rewrite Hic, bool_decide_eq_true in Hi. apply Hi, in_seq. apply lookup_lt_Some in Hic. lia.
Qed.

Lemma numeral_bases b : b = base_d ∨ b = base_o ∨ b = base_x ∨ b = base_X → numeral_base b.
Proof.
  destruct bases_good as (H1 & H2 & H3 & H4).
  intros [-> |[-> |[-> | ->]]]; (apply numeral_from_check; [done|vm_compute; reflexivity|done|vm_compute; reflexivity]).
Qed.

Lemma read_rev b l : read b (rev l) = foldr (λ c v, index c (digits b) + base b * v) 0 l.
Proof.
  unfold read. induction l as [|c l IH]; [done|]. cbn [rev foldr]. rewrite foldl_app, IH. cbn. lia.
Qed.

Lemma lsd_reads b n v :
  numeral_base b → 0 ≤ v < 8 ^ Z.of_nat n → foldr (λ c v, index c (digits b) + base b * v) 0 (lsd n b v) = v.
Proof.
  intros [Hg Hi _ _]. revert v. induction n as [|n IH]; intros v Hv; cbn [lsd].
  - change (8 ^ Z.of_nat 0) with 1 in Hv. cbn. lia.
  - case_decide as Hpos; [|cbn; lia]. cbn [foldr]. rewrite IH by (apply div_base_lt; [apply Hg|done]).
    rewrite (Hi (Z.to_nat (v mod base b))) by (by apply digit_lookup; [|lia]).
    pose proof (gb_base _ Hg). pose proof (Z.mod_pos_bound v (base b) ltac:(lia)). pose proof (Z.div_mod v (base b) ltac:(lia)). lia.
Qed.

Lemma lsd_digits b n v : good_base b → 0 ≤ v → Forall (λ c, c ∈ digits b) (lsd n b v).
Proof.
  intros Hg. revert v. induction n as [|n IH]; intros v Hv; cbn [lsd]; [constructor|]. case_decide; [|constructor].
  constructor; [|apply IH, Z.div_pos; [lia|pose proof (gb_base _ Hg); lia]].
  eapply list_elem_of_lookup_2. by apply digit_lookup.
Qed.

Lemma no_comma_id l : 44 ∉ l → no_comma l = l.
Proof.
  intros Hl. unfold no_comma. induction l as [|c l IH]; [done|]. apply not_elem_of_cons in Hl as [Hc Hl].
  rewrite filter_cons_True by congruence. by rewrite IH.
Qed.

Lemma no_comma_grouped g k l : 44 ∉ l → no_comma (grouped g k l) = l.
Proof.
  revert k. induction l as [|c l IH]; intros k Hl; [done|]. apply not_elem_of_cons in Hl as [Hc Hl]. cbn [grouped].
  unfold no_comma in *. rewrite filter_app, filter_cons_True by congruence. rewrite IH by done. by destruct (_ && _).
Qed.

Lemma no_comma_digits fl b v : numeral_base b → 0 ≤ v → no_comma (digit_chars fl b 0 22 v) = lsd 22 b v.
Proof.
  intros [Hg _ _ Hc] Hv. assert (44 ∉ lsd 22 b v) as Hn.
  { intros Hin. pose proof (lsd_digits b 22 v Hg Hv) as Hall. rewrite Forall_forall in Hall. by apply Hc, Hall. }
  unfold digit_chars. destruct (has _ _); [by apply no_comma_grouped|by apply no_comma_id].
Qed.

Lemma zeros_read b n l :
  numeral_base b → foldr (λ c v, index c (digits b) + base b * v) 0 (l ++ replicate n 48) = foldr (λ c v, index c (digits b) + base b * v) 0 l.
Proof.
  intros [Hg Hi Hz _]. rewrite foldr_app. f_equal. induction n as [|n IH]; [done|]. cbn [replicate foldr]. rewrite IH, (Hi 0%nat) by done. lia.
Qed.

Lemma no_comma_rev l : no_comma (rev l) = rev (no_comma l).
Proof.
  unfold no_comma. induction l as [|c l IH]; [done|]. cbn [rev]. rewrite filter_app, IH. rewrite !filter_cons, filter_nil.
  case_decide; cbn [rev]; [done|by rewrite app_nil_r].
Qed.

Lemma body_reads b c v : numeral_base b → is64 v → read b (no_comma (int_body b c v)) = v.
Proof.
  intros Hb Hv. unfold is64 in Hv. unfold int_body. cbn zeta. rewrite no_comma_rev, read_rev. unfold no_comma. rewrite !filter_app. fold (no_comma (digit_chars (flags c) b 0 22 v)).
  rewrite no_comma_digits by (done || lia). set (pr := if bool_decide _ then 1 else _). unfold zeros. rewrite <- app_assoc.
  assert (∀ n, filter (λ c, c ≠ 44) (replicate n 48) = replicate n 48) as Hrep.
  { induction n as [|n IH]; [done|]. cbn [replicate]. by rewrite filter_cons_True, IH. }
  assert (∀ q : bool, ∃ k, filter (λ c, c ≠ 44) (if q then [48] else []) = replicate k 48) as Hoct
    by (intros []; [by exists 1%nat|by exists 0%nat]).
  rewrite Hrep. edestruct Hoct as [k ->].
  rewrite <- replicate_add, zeros_read by done. apply lsd_reads; [done|].
  change (8 ^ Z.of_nat 22) with 73786976294838206464. lia.
Qed.

Lemma layout_length c h body :
  has (flags c) MINUS && has (flags c) ZERO = false →
  Z.of_nat (length (layout c h body)) = Z.max (width c) (Z.of_nat (length (h ++ body))).
Proof.
  intros Hf. unfold layout. cbn zeta. rewrite !length_app.
  destruct (has (flags c) MINUS), (has (flags c) ZERO); cbn in Hf |- *; try done; rewrite ?length_replicate, ?length_app; lia.
Qed.

(** ** The theorems *)

(** A format in memory or in a literal, with the pieces it consists of *)
Record format_ok (B : gmap Z Z) (fuel : nat) (p : cptr) (xs : list piece) : Prop := {
  fo_range : in_range p;
  fo_text : ∃ rest, text B p (format_text xs ++ 0 :: rest);
  fo_pieces : Forall (piece_ok B) xs;
  fo_sizes : Forall (λ x, piece_size x < fuel)%nat xs;
  fo_count : (length xs < fuel)%nat;
  fo_room : room (length (format_out xs))
}.

(** C23 (functional): [snprintf] returns the number of characters that the pieces of the
    format stand for with their arguments, every conversion with its flags, width,
    precision and type; it stores as many of them as fit with a null character behind
    them, stores nothing into a buffer without room, and changes no other byte. *)
Theorem snprintf_prints B fuel m buffer size p xs :
  format_ok B fuel p xs → B ⊆ m → 0 ≤ size ≤ 2 ^ 31 →
  (∀ z, buffer ≤ z < buffer + size → is_Some (m !! z) ∧ B !! z = None) →
  snprintf fuel buffer size p (format_args xs) m =
    Done (Z.of_nat (length (format_out xs)),
          if bool_decide (size = 0) then m else store buffer (take (Z.to_nat (size - 1)) (format_out xs) ++ [0]) m).
Proof.
  intros [Hp [rest Ht] Hx Hs Hn Hr] Hsub Hsz Hbuf. pose proof (emits_vprintf B fuel xs p rest Hp Ht Hx Hs Hn) as He.
  unfold snprintf. case_bool_decide as H0.
  - subst size. by apply (vsnprintf_nothing _ B).
  - apply (vsnprintf_stores _ B); [done|lia|done|done|done].
Qed.

(** Whatever the flags, width and precision, an integer is printed as
    blanks, sign, prefix, zeros, digits and blanks, the zeros and digits without the
    grouping commas denote its value in the base, and unless both [-] and [0] are set
    the field has its width or just the length of the number; the buffer of 64
    characters is never overrun. *)
Theorem integer_field_reads B v sg neg b c :
  b = base_d ∨ b = base_o ∨ b = base_x ∨ b = base_X → is64 v → width c < 2 ^ 31 →
  ∃ l z body r,
    emits B (format_integer logger v sg neg b c) tt (l ++ int_sign sg neg c ++ int_prefix b c v ++ z ++ body ++ r) ∧
    Forall (λ ch, ch = 32) (l ++ r) ∧ Forall (λ ch, ch = 48) z ∧ read b (z ++ no_comma body) = v ∧
    (has (flags c) MINUS && has (flags c) ZERO = false →
     Z.of_nat (length (l ++ int_sign sg neg c ++ int_prefix b c v ++ z ++ body ++ r)) =
     Z.max (width c) (Z.of_nat (length (int_sign sg neg c ++ int_prefix b c v ++ body)))).
Proof.
  intros Hb Hv Hw. apply numeral_bases in Hb.
  pose proof (emits_format_integer B v sg neg b c (nb_good _ Hb) Hv Hw) as He.
  pose proof (layout_length c (int_sign sg neg c ++ int_prefix b c v) (int_body b c v)) as Hlen.
  unfold layout in He, Hlen. cbn zeta in He, Hlen. rewrite <- !app_assoc in He. rewrite <- !app_assoc in Hlen.
  set (pad := Z.to_nat _) in *. eexists _, _, _, _. split; [exact He|]. split_and!.
  - apply Forall_app. split; [destruct (_ && _)|destruct (has (flags c) MINUS)]; [by apply Forall_replicate|done|by apply Forall_replicate|done].
  - destruct (has (flags c) ZERO); [by apply Forall_replicate|done].
  - assert (∀ n l, read b (replicate n 48 ++ l) = read b l) as Hz.
    { intros n l. unfold read. rewrite foldl_app. f_equal. induction n as [|n IH]; [done|].
      rewrite replicate_S_end, foldl_app, IH. cbn. rewrite (nb_index _ Hb 0) by apply Hb. lia. }
    destruct (has (flags c) ZERO); [rewrite Hz|cbn [app]]; by apply body_reads.
  - exact Hlen.
Qed.

(** Parsing a conversion as it is written, with any flags, a width and a
    precision that are left out, numbers or asterisks, and any type, gives what it
    stands for, stops at the conversion character and takes just the arguments of the
    asterisks. *)
Theorem directive_roundtrip B fuel p d c rest args :
  in_range p → text B p (show d ++ c :: rest) → dir_ok d → ends c → (length (show d) < fuel)%nat →
  emits B (parse_conversion fuel p (dim_args (d_width d) ++ dim_args (d_prec d) ++ args))
    (meaning d, advance p (length (show d)), args) [].
Proof. apply emits_parse_conversion. Qed.

(** *** [%d] and [atoi] *)

Definition dec_chars (v : Z) : list Z :=
  (if bool_decide (v < 0) then [45] else []) ++ int_body base_d (meaning plain_dir) (Z.abs v).

Lemma dec_body v : is64 v → Forall (λ c, isdigit c = true) (int_body base_d (meaning plain_dir) v) ∧ number (int_body base_d (meaning plain_dir) v) = v ∧
  int_body base_d (meaning plain_dir) v ≠ [].
Proof.
  intros Hv. pose proof (body_reads base_d (meaning plain_dir) v (numeral_bases base_d ltac:(tauto)) Hv) as Hr.
  assert (Forall (λ c, isdigit c = true ∧ index c (digits base_d) = c - 48 ∧ c ≠ 44) (digits base_d)) as Hd by (by repeat constructor).
  assert (Forall (λ c, c ∈ digits base_d) (int_body base_d (meaning plain_dir) v)) as Hin.
  { unfold int_body. cbn zeta. apply Forall_rev, Forall_app. split; [|done]. apply Forall_app. split.
    - unfold digit_chars. change (has (flags (meaning plain_dir)) GROUP) with false. cbn iota. apply lsd_digits; [apply bases_good|apply Hv].
    - unfold zeros. apply Forall_replicate. vm_compute. by left. }
  set (l := int_body base_d (meaning plain_dir) v) in *. rewrite Forall_forall in Hd.
  assert (no_comma l = l) as El.
  { apply no_comma_id. intros Hc. rewrite Forall_forall in Hin. by apply (Hd 44 (Hin 44 Hc)). }
  rewrite El in Hr. split_and!.
  - eapply Forall_impl; [exact Hin|]. intros c Hc. by apply Hd.
  - rewrite <- Hr. unfold number, read. generalize 0 as acc. clear Hr El. induction Hin as [|c l' Hc _ IH]; intros acc; [done|].
    cbn [foldl]. rewrite IH. f_equal. destruct (Hd c Hc) as (_ & -> & _). change (base base_d) with 10. done.
  - intros E. assert (0 < length l)%nat as Hlen; [|by rewrite E in Hlen; cbn in Hlen; lia].
    subst l. unfold int_body. cbn zeta. rewrite length_rev, !length_app. unfold zeros. rewrite length_replicate.
    change (if bool_decide (precision (meaning plain_dir) < 0) then 1 else precision (meaning plain_dir)) with 1.
    change (Z.to_nat (1 `min` 63)) with 1%nat. lia.
Qed.

Lemma sext_back v : - 2 ^ 31 ≤ v < 2 ^ 31 → sext 32 (v mod 2 ^ 32) = v.
Proof.
  intros Hv. unfold sext. change (32 - 1) with 31. rewrite Zplus_mod_idemp_l, Z.mod_small by lia. lia.
Qed.

Definition percent_d (v : Z) : list piece := [Signed plain_dir 100 (A32 (v mod 2 ^ 32))].

Lemma percent_d_out v : - 2 ^ 31 ≤ v < 2 ^ 31 → format_out (percent_d v) = dec_chars v.
Proof.
  intros Hv. unfold format_out, percent_d. cbn [mbind list_bind piece_out d_type plain_dir signed_value]. rewrite sext_back by done.
  change (default 0 (Some v)) with v. rewrite app_nil_r. unfold int_out, layout, dec_chars. cbn zeta.
  change (width (meaning plain_dir)) with 0. rewrite Z2Nat.nonpos by lia.
  change (has (flags (meaning plain_dir)) MINUS) with false. change (has (flags (meaning plain_dir)) ZERO) with false. cbn [negb andb replicate app].
  rewrite !app_nil_r. f_equal. case_bool_decide; done.
Qed.

Lemma percent_d_ok B fuel v : (8 ≤ fuel)%nat → - 2 ^ 31 ≤ v < 2 ^ 31 → format_ok B fuel (Lit (chars "%d") 0) (percent_d v).
Proof.
  intros Hf Hv. split; [done| | | |cbn; lia|].
  - exists []. apply (text_lit B (chars "%d") 0).
  - apply Forall_singleton. split; [apply plain_dir_ok|]. split; [by left|]. split; [by apply Z.mod_pos_bound|].
    exists v. cbn [plain_dir d_type signed_value]. rewrite sext_back by done. split; [done|lia].
  - repeat constructor. cbn. lia.
  - rewrite percent_d_out by done. unfold dec_chars, room. rewrite length_app. pose proof (int_body_length base_d (meaning plain_dir) (Z.abs v)).
    case_bool_decide; cbn [length]; lia.
Qed.

(** The characters that [snprintf] stores for an [int] with [%d] are read
    back by [atoi] as the same number, also the smallest one. *)
Theorem decimal_roundtrip v m buffer size fuel :
  - 2 ^ 31 ≤ v < 2 ^ 31 → (8 ≤ fuel)%nat → Z.of_nat (length (dec_chars v)) < size ≤ 2 ^ 31 →
  (∀ z, buffer ≤ z < buffer + size → is_Some (m !! z)) →
  snprintf fuel buffer size (Lit (chars "%d") 0) [A32 (v mod 2 ^ 32)] m =
    Done (Z.of_nat (length (dec_chars v)), store buffer (dec_chars v ++ [0]) m) ∧
  atoi 0 (dec_chars v ++ [0]) = Done (v, dec_chars v ++ [0]).
Proof.
  intros Hv Hf Hsz Hbuf. split.
  - pose proof (percent_d_ok ∅ fuel v Hf Hv) as [Hp [rest Ht] Hx Hs Hn Hr].
    pose proof (emits_vprintf ∅ fuel _ _ rest Hp Ht Hx Hs Hn) as He. rewrite percent_d_out in He, Hr by done.
    unfold snprintf. rewrite (vsnprintf_stores fuel ∅ m buffer size _ _ (dec_chars v)).
    + by rewrite take_ge by lia.
    + apply map_empty_subseteq.
    + lia.
    + intros z Hz. split; [by apply Hbuf|apply lookup_empty].
    + exact He.
    + exact Hr.
  - destruct (dec_body (Z.abs v)) as (Hd & Hn & Hne); [unfold is64; lia|]. set (ds := int_body base_d (meaning plain_dir) (Z.abs v)) in *.
    assert (0 ∉ ds) as Hz by (intros Hin; rewrite Forall_forall in Hd; by specialize (Hd 0 Hin)).
    rewrite (atoi_run 0 [] (if bool_decide (v < 0) then Minus else NoSign) ds []); [|..|done|done|done|done].
    + assert (KStdlibMain.signed_value (if bool_decide (v < 0) then Minus else NoSign) (dec_value ds) = v) as ->.
      { change (dec_value ds) with (number ds). rewrite Hn. case_bool_decide; cbn; lia. }
      cbn zeta. rewrite bool_decide_true; [done|]. unfold INT_MIN, INT_MAX. lia.
    + rewrite app_nil_r. cbn [app]. assert (sign_chars (if bool_decide (v < 0) then Minus else NoSign) ++ ds = dec_chars v) as ->.
      { unfold dec_chars. fold ds. by case_bool_decide. }
      split; [|unfold dec_chars; fold ds; case_bool_decide; set_solver].
      unfold block. cbn [drop]. apply take_ge. rewrite length_app. cbn. lia.
Qed.

(** *** Formats that go wrong *)

Lemma char_text l : format_text (Char <$> l) = l.
Proof. unfold format_text. induction l as [|c l IH]; [done|]. cbn. by rewrite IH. Qed.

Lemma char_args l : format_args (Char <$> l) = [].
Proof. unfold format_args. by induction l. Qed.

Lemma char_out l : format_out (Char <$> l) = l.
Proof. unfold format_out. induction l as [|c l IH]; [done|]. cbn. by rewrite IH. Qed.

(** A format that ends within a conversion is read beyond its terminator,
    whatever the text before it; with the flag [0] a negative width given by an
    asterisk pads on both sides; and the smallest 64-bit integer cannot be printed. *)
Theorem formats_go_wrong B fuel l args :
  Forall (λ c, c ≠ 0 ∧ c ≠ 37) l → (length l + 40 < fuel)%nat → room (length l + 30) →
  __vprintf fuel logger 2 (Lit (l ++ [37]) 0) args (IO B []) = Undef ∧
  emits B (__vprintf 64 logger 2 (Lit (chars "%0*d") 0) [A32 (2 ^ 32 - 5); A32 42]) tt (chars "00042   ") ∧
  __vprintf 64 logger 2 (Lit (chars "%lld") 0) [A64 (2 ^ 63)] (IO B []) = Undef.
Proof.
  intros Hl Hf Hr. split_and!.
  - set (xs := (Char <$> l) ++ [Bad plain_dir 0]).
    assert (format_text xs = (l ++ [37]) ++ [0]) as Et.
    { unfold format_text, xs. rewrite bind_app. fold (format_text (Char <$> l)). rewrite char_text. cbn. by rewrite <- app_assoc. }
    assert (format_args xs = []) as Ea by (unfold format_args, xs; rewrite bind_app; fold (format_args (Char <$> l)); by rewrite char_args).
    assert (length (format_out xs) = length l + 20)%nat as Eo.
    { unfold format_out, xs. rewrite bind_app. fold (format_out (Char <$> l)). rewrite char_out, length_app. done. }
    assert (length xs = S (length l)) as Ex by (unfold xs; rewrite length_app, length_fmap; cbn; lia).
    assert (Forall (λ x, piece_size x < fuel)%nat xs) as Hs.
    { unfold xs. apply Forall_app. split; [apply Forall_fmap, Forall_forall; cbn; lia|]. apply Forall_singleton. cbn. lia. }
    cbn [__vprintf]. unfold vprintf_loop. replace args with (format_args xs ++ args) by (by rewrite Ea).
    replace fuel with (length xs + S (fuel - length xs - 1))%nat at 1 by lia.
    rewrite (loop_pieces B fuel _ xs _ (Lit (l ++ [37]) 0) [] args []).
    + rewrite loop_S, Et. unfold mbind, M_bind, vprintf_step. cbn [advance deref Nat.add].
      unfold mbind, M_bind. rewrite lookup_ge_None_2 by lia. done.
    + done.
    + rewrite app_nil_r, Et. apply (text_lit B (l ++ [37]) 0).
    + unfold xs. apply Forall_app. split; [apply Forall_fmap; eapply Forall_impl; [exact Hl|done]|].
      apply Forall_singleton. split; [apply plain_dir_ok|]. split; [by repeat split|]. split; [done|].
      apply (bool_decide_unpack _). vm_compute. exact I.
    + by apply pieces_complain.
    + done.
    + cbn [app]. unfold room in *. rewrite Eo. lia.
  - apply (emits_vprintf B 64 [Signed (Dir [48] (Star (2 ^ 32 - 5)) Absent INT) 100 (A32 42)] _ []); [done|apply (text_lit B (chars "%0*d") 0)| | |cbn; lia].
    + apply Forall_singleton. split; [split; cbn; [repeat constructor; by eexists|by vm_compute|done|done]|]. split; [by left|]. split; [done|].
      by exists 42.
    + apply Forall_singleton. cbn. lia.
  - reflexivity.
Qed.

(** ** Witnesses *)

Definition hi : gmap Z Z := <[1000 := 104]> (<[1001 := 105]> {[1002 := 0]}).
Definition with_buffer : gmap Z Z := store 2000 (replicate 12 7) hi.

Definition hex_and_string : list piece :=
  [Unsigned (Dir [45; 35] (Digits [56]) Absent INT) 120 (A32 255); Char 124; Str plain_dir 1000 [104; 105]].

Lemma hi_text : text hi (Mem 1000) ([104; 105] ++ 0 :: []).
Proof.
  intros [|[|[|i]]] c Hi; [..|done]; injection Hi as <-; intros l _; rewrite app_nil_r; reflexivity.
Qed.

Lemma hex_and_string_ok : format_ok hi 50 (Lit (chars "%-#8x|%s") 0) hex_and_string.
Proof.
  split; [done|exists []; apply (text_lit hi (chars "%-#8x|%s") 0)| | |cbn; lia|by vm_compute].
  - repeat apply Forall_cons_2; [..|by apply Forall_nil].
    + split; [split; cbn; [repeat constructor; by eexists|by split; [repeat constructor|vm_compute]|by intros ? [= <-]|done]|].
      split; [by right; right; left|]. split; [by vm_compute|by eexists].
    + done.
    + split; [apply plain_dir_ok|]. split; [done|]. exists 0, []. split; [apply hi_text|]. split; [by repeat constructor|]. by split.
  - repeat apply Forall_cons_2; [cbn; lia..|by apply Forall_nil].
Qed.

(** The field of eight characters and the string, cut off behind nine *)
Lemma snprintf_prints_witness :
  snprintf 50 2000 10 (Lit (chars "%-#8x|%s") 0) [A32 255; A32 1000] with_buffer =
  Done (11, store 2000 (chars "0xff    |" ++ [0]) with_buffer).
Proof.
  change [A32 255; A32 1000] with (format_args hex_and_string).
  rewrite (snprintf_prints hi 50 with_buffer 2000 10 (Lit (chars "%-#8x|%s") 0) hex_and_string); [reflexivity|apply hex_and_string_ok| |lia|].
  - apply (bool_decide_unpack _). vm_compute. exact I.
  - intros z Hz. assert (forallb (λ z, bool_decide (is_Some (with_buffer !! z)) && bool_decide (hi !! z = None)) (seqZ 2000 10) = true) as Hall
      by (vm_compute; reflexivity).
    rewrite forallb_forall in Hall. specialize (Hall z). apply andb_prop in Hall as [H1%bool_decide_eq_true H2%bool_decide_eq_true]; [done|].
    apply list_elem_of_In, elem_of_seqZ. lia.
Defined.

Lemma integer_field_reads_witness :
  ∃ l z body r,
    emits ∅ (format_integer logger 1234567 true true base_d (Conv (Z.lor ZERO GROUP) 14 (-1) INT)) tt
      (l ++ [45] ++ [] ++ z ++ body ++ r) ∧ read base_d (z ++ no_comma body) = 1234567.
Proof.
  destruct (integer_field_reads ∅ 1234567 true true base_d (Conv (Z.lor ZERO GROUP) 14 (-1) INT)) as (l & z & body & r & He & _ & _ & Hr & _);
    [by left|by vm_compute|cbn; lia|]. exists l, z, body, r. split; [exact He|exact Hr].
Defined.

Lemma directive_roundtrip_witness :
  emits ∅ (parse_conversion 20 (Lit (chars "%-08.*ld") 1) [A32 5])
    (Conv MINUS 8 5 LONG, Lit (chars "%-08.*ld") 7, []) [].
Proof.
  apply (directive_roundtrip ∅ 20 (Lit (chars "%-08.*ld") 1) (Dir [45; 48] (Digits [56]) (Star 5) LONG) 100 [0] []).
  - done.
  - apply (text_lit ∅ (chars "%-08.*ld") 1).
  - split; cbn; [repeat constructor; by eexists|by split; [repeat constructor|vm_compute]|by intros ? [= <-]|by vm_compute].
  - by repeat split.
  - cbn. lia.
Defined.

Lemma decimal_roundtrip_witness :
  snprintf 8 2000 12 (Lit (chars "%d") 0) [A32 2147483648] with_buffer =
    Done (11, store 2000 (chars "-2147483648" ++ [0]) with_buffer) ∧
  atoi 0 (chars "-2147483648" ++ [0]) = Done (-2147483648, chars "-2147483648" ++ [0]).
Proof.
  apply (decimal_roundtrip (-2147483648) with_buffer 2000 12 8); [lia|lia|by vm_compute|].
  intros z Hz. unfold with_buffer.
  destruct (lookup_lt_is_Some_2 (replicate 12 7) (Z.to_nat (z - 2000))) as [c Hc]; [rewrite length_replicate; lia|].
  exists c. rewrite <- (store_inside 2000 (replicate 12 7) hi (Z.to_nat (z - 2000)) c Hc). f_equal. lia.
Defined.

Lemma formats_go_wrong_witness :
  __vprintf 100 logger 2 (Lit (chars "50%") 0) [] (IO ∅ []) = Undef.
Proof.
  destruct (formats_go_wrong ∅ 100 (chars "50") []) as [H _]; [by repeat constructor|cbn; lia|by vm_compute|]. exact H.
Defined.
