(* ===== verification/KConsole.v ===== *)
(** * Pintos: the console

    [Project_3/lib/kernel/console.c], and the functions of [Project_3/lib/stdio.c] that
    print on it.  [serial] and [vga] are the characters that were
    handed to the serial port and to the screen.  The console lock is seen by one thread, which holds it or not; [in_intr] is the result
    of [intr_context]. *)

From stdpp Require Import base tactics list gmap strings.
From Stdlib Require Import ZArith Lia Ascii.
From S2P Require Import Prelude KStdlib KStdio.

Local Open Scope Z_scope.

Record console := Con {
  in_intr : bool;
  use_console_lock : bool;
  lock_held : bool;
  console_lock_depth : Z;
  write_cnt : Z;
  serial : list Z;
  vga : list Z
}.

Definition set_held (h : bool) (c : console) : console :=
  Con (in_intr c) (use_console_lock c) h (console_lock_depth c) (write_cnt c) (serial c) (vga c).
Definition set_depth (d : Z) (c : console) : console :=
  Con (in_intr c) (use_console_lock c) (lock_held c) d (write_cnt c) (serial c) (vga c).

Local Abbreviation CM := (M (io console)).

Definition con : CM console := s ← get; mret (aux s).
Definition upd (f : console → console) : CM unit := modify (λ s, IO (bytes s) (f (aux s))).

(** ** The lock *)

Definition console_init : CM unit :=
  upd (λ c, Con (in_intr c) true false (console_lock_depth c) (write_cnt c) (serial c) (vga c)).

Definition console_panic : CM unit :=
  upd (λ c, Con (in_intr c) false (lock_held c) (console_lock_depth c) (write_cnt c) (serial c) (vga c)).

Definition acquire_console : CM unit :=
  c ← con;
  if negb (in_intr c) && use_console_lock c then
    if lock_held c then d ← as_int (console_lock_depth c + 1); upd (set_depth d)
    else upd (set_held true)
  else mret tt.

Definition release_console : CM unit :=
  c ← con;
  if negb (in_intr c) && use_console_lock c then
    if bool_decide (0 < console_lock_depth c) then upd (set_depth (console_lock_depth c - 1))
    else check (lock_held c);; upd (set_held false)
  else mret tt.

Definition console_locked_by_current_thread (c : console) : bool :=
  in_intr c || negb (use_console_lock c) || lock_held c.

(** ** Characters *)

Definition set_count (n : Z) (c : console) : console :=
  Con (in_intr c) (use_console_lock c) (lock_held c) (console_lock_depth c) n (serial c) (vga c).

(** The two devices are outside the model but for what they are given. *)
Definition serial_putc (ch : Z) : CM unit :=
  upd (λ c, Con (in_intr c) (use_console_lock c) (lock_held c) (console_lock_depth c) (write_cnt c)
              (serial c ++ [ch]) (vga c)).
Definition vga_putc (ch : Z) : CM unit :=
  upd (λ c, Con (in_intr c) (use_console_lock c) (lock_held c) (console_lock_depth c) (write_cnt c)
              (serial c) (vga c ++ [ch])).

(** The parameter is a [uint8_t]; [write_cnt++] is a 64-bit counter. *)
Definition putchar_have_lock (ch : Z) : CM unit :=
  c ← con;
  check (console_locked_by_current_thread c);;
  n ← as_intmax (write_cnt c + 1);
  upd (set_count n);;
  serial_putc (ch mod 256);;
  vga_putc (ch mod 256).

Definition putchar (ch : Z) : CM Z :=
  acquire_console;; putchar_have_lock ch;; release_console;; mret ch.

Fixpoint putbuf_loop (p : cptr) (n : nat) : CM unit :=
  match n with
  | O => mret tt
  | S n => ch ← deref p; putchar_have_lock ch;; putbuf_loop (advance p 1) n
  end.

Definition putbuf (buffer : cptr) (n : Z) : CM unit :=
  acquire_console;; putbuf_loop buffer (Z.to_nat n);; release_console.

Section printing.
Context (fuel : nat).

Definition puts (p : cptr) : CM Z :=
  acquire_console;;
  loop fuel
    (λ p, ch ← deref p;
          if bool_decide (ch ≠ 0) then putchar_have_lock ch;; mret (inl (advance p 1))
          else mret (inr tt)) p;;
  putchar_have_lock 10;;
  release_console;; mret 0.

(** ** [vprintf] *)

(** The console and the counter [char_cnt] of the call *)
Definition on_console {A} (m : CM A) : M (io (console * Z)) A := λ s,
  match m (IO (bytes s) (aux s).1) with
  | Done (a, s') => Done (a, IO (bytes s') (aux s', (aux s).2))
  | Undef => Undef
  | NoFuel => NoFuel
  end.

Definition vprintf_helper (ch : Z) : M (io (console * Z)) unit :=
  s ← get;
  n ← as_int ((aux s).2 + 1);
  modify (λ s, IO (bytes s) ((aux s).1, n));;
  on_console (putchar_have_lock ch).

Definition run_vprintf (format : cptr) (args : list arg) : CM Z := λ s,
  match __vprintf fuel vprintf_helper 2 format args (IO (bytes s) (aux s, 0)) with
  | Done (_, s') => Done ((aux s').2, IO (bytes s') (aux s').1)
  | Undef => Undef
  | NoFuel => NoFuel
  end.

Definition vprintf (format : cptr) (args : list arg) : CM Z :=
  acquire_console;;
  char_cnt ← run_vprintf format args;
  release_console;;
  mret char_cnt.

Definition printf (format : string) (args : list arg) : CM Z := vprintf (Lit (chars format) 0) args.

Definition console_print_stats : CM unit :=
  c ← con;
  printf ("Console: %lld characters output" +:+ String (ascii_of_nat 10) EmptyString)%string [A64 (write_cnt c mod 2 ^ 64)];;
  mret tt.

(** ** [hex_dump] *)

(** [for (; i < bound; i++) printf(format);] *)
Fixpoint repeat_print (format : string) (n : nat) : CM unit :=
  match n with
  | O => mret tt
  | S n => printf format [];; repeat_print format n
  end.

(** [for (; i < end; i++)] with [n] bytes left: the byte at [buf + (i - start)] *)
Fixpoint print_bytes (buf : cptr) (start i n : nat) : CM unit :=
  match n with
  | O => mret tt
  | S n =>
      v ← deref (advance buf (i - start));
      printf "%02hhx%c" [A32 v; A32 (if bool_decide (i = 16 / 2 - 1)%nat then 45 else 32)];;
      print_bytes buf start (S i) n
  end.

Fixpoint print_ascii (buf : cptr) (start i n : nat) : CM unit :=
  match n with
  | O => mret tt
  | S n =>
      v ← deref (advance buf (i - start));
      printf "%c" [A32 (if isprint v then v else 46)];;
      print_ascii buf start (S i) n
  end.

Definition hex_dump (ofs : Z) (buf : cptr) (size : Z) (ascii : bool) : CM unit :=
  loop fuel
    (λ '(ofs, buf, size),
       if bool_decide (0 < size) then
         let start := ofs mod 16 in
         let end_ := if bool_decide (size < 16 - start) then start + size else 16 in
         let n := end_ - start in
         let '(start', end', n') := (Z.to_nat start, Z.to_nat end_, Z.to_nat n) in
         printf "%08jx  " [A64 (ofs / 16 * 16)];;
         repeat_print "   " start';;
         print_bytes buf start' start' n';;
         when ascii (repeat_print "   " (16 - end');;
                     printf "|" [];;
                     repeat_print " " start';;
                     print_ascii buf start' start' n';;
                     repeat_print " " (16 - end');;
                     printf "|" [];; mret tt);;
         printf (String (ascii_of_nat 10) EmptyString) [];;
         mret (inl (wrap_u32 (ofs + n), advance buf n', size - n))
       else mret (inr tt)) (ofs, buf, size).

(** ** [print_human_readable_size] *)

(** The loop: [fp[0]] is the unit and the list holds those after it. *)
Fixpoint scale (size : Z) (unit : string) (units : list string) : Z * string :=
  match units with
  | [] => (size, unit)
  | u :: units => if bool_decide (1024 ≤ size) then scale (size / 1024) u units else (size, unit)
  end.

(** A pointer to a unit is passed as [%s]: the address [lit] of its characters is a
    parameter, for the literals of the program lie in memory as well. *)
Definition print_human_readable_size (lit : string → Z) (size : Z) : CM unit :=
  if bool_decide (size = 1) then printf "1 byte" [];; mret tt
  else
    let '(size, unit) := scale size "bytes" ["kB"; "MB"; "GB"; "TB"]%string in
    printf "%llu %s" [A64 size; A32 (lit unit)];; mret tt.

End printing.
