(* ===== verification/KConsoleMain.v ===== *)
(** * Pintos: what appears on the console

    Every call puts its characters on the screen, counts them, and leaves the console
    lock as it found it, held or not.  From this, what [hex_dump] prints. *)

From stdpp Require Import base tactics list gmap strings.
From Stdlib Require Import ZArith Lia Ascii.
From S2P Require Import Prelude KStdlib KStdio KStdioProps KStdioMain KConsole.

Local Open Scope Z_scope.

(** The depth counts the calls of the owner inside each other. *)
Definition con_ok (c : console) : Prop :=
  if lock_held c then 0 ≤ console_lock_depth c < 2 ^ 31 - 1 else console_lock_depth c = 0.

(** The characters [cs] on the serial port and on the screen *)
Definition written (cs : list Z) (c : console) : console :=
  Con (in_intr c) (use_console_lock c) (lock_held c) (console_lock_depth c) (write_cnt c + Z.of_nat (length cs))
    (serial c ++ ((λ ch, ch mod 256) <$> cs)) (vga c ++ ((λ ch, ch mod 256) <$> cs)).

Lemma written_nil c : written [] c = c.
Proof. destruct c. unfold written. cbn. by rewrite Z.add_0_r, !app_nil_r. Qed.

Lemma written_app cs1 cs2 c : written cs2 (written cs1 c) = written (cs1 ++ cs2) c.
Proof. unfold written. cbn. rewrite length_app, fmap_app, !app_assoc. f_equal. lia. Qed.

Lemma written_ok cs c : con_ok c → con_ok (written cs c).
Proof. done. Qed.

(** The 64-bit counter is so far from its end that no single call reaches it. *)
Definition countable (c : console) (n : nat) : Prop := - 2 ^ 63 ≤ write_cnt c ∧ write_cnt c + Z.of_nat n < 2 ^ 63 - 2 ^ 31.

(** With the memory [m], [k] returns [a] and puts [cs] on the console. *)
Definition shows {A} (m : gmap Z Z) (k : M (io console) A) (a : A) (cs : list Z) : Prop :=
  ∀ c, con_ok c → countable c (length cs) → k (IO m c) = Done (a, IO m (written cs c)).

Section shows.
Context (m : gmap Z Z).

Lemma shows_ret {A} (a : A) : shows m (mret a) a [].
Proof. intros c _ _. by rewrite written_nil. Qed.

Lemma shows_bind {A C} (k : M (io console) A) (f : A → M (io console) C) a b cs cs' :
  shows m k a cs → shows m (f a) b cs' → shows m (k ≫= f) b (cs ++ cs').
Proof.
  intros Hk Hf c Hc [H1 H2]. rewrite length_app in H2. unfold mbind, M_bind. rewrite Hk by (done || (split; lia)).
  rewrite Hf; [by rewrite written_app|done|]. unfold countable, written. cbn. lia.
Qed.

Lemma shows_bind_nil {A C} (k : M (io console) A) (f : A → M (io console) C) a b cs :
  shows m k a [] → shows m (f a) b cs → shows m (k ≫= f) b cs.
Proof. intros Hk Hf. by apply (shows_bind k f a b []). Qed.

Lemma shows_eq {A} (k : M (io console) A) a cs cs' : shows m k a cs → cs = cs' → shows m k a cs'.
Proof. by intros ? <-. Qed.

(** ** The lock *)

(** What is done with the console in between, where the lock is not touched *)
Definition under_lock {A} (k : M (io console) A) (a : A) (cs : list Z) : Prop :=
  ∀ c, console_locked_by_current_thread c = true → countable c (length cs) → k (IO m c) = Done (a, IO m (written cs c)).

Lemma with_lock {A} (k : M (io console) A) a cs :
  under_lock k a cs → shows m (acquire_console;; r ← k; release_console;; mret r) a cs.
Proof.
  intros Hk [ir ul lh d w sc] Hok Hc. unfold con_ok in Hok. cbn in Hok.
  unfold acquire_console, release_console, con, upd, mbind, M_bind, get, modify, mret, M_ret. cbn.
  destruct (negb ir && ul) eqn:Hl.
  - apply andb_prop in Hl as [Hir%negb_true_iff ->]. subst ir. destruct lh.
    + unfold as_int, check, mbind, M_bind, mret, M_ret. rewrite bool_decide_true by lia. cbn.
      rewrite Hk by (cbn; done || exact Hc). cbn. rewrite bool_decide_true by lia. cbn. replace (d + 1 - 1) with d by lia. reflexivity.
    + subst d. rewrite Hk by (cbn; done || exact Hc). cbn. reflexivity.
  - rewrite Hk; [cbn|unfold console_locked_by_current_thread; cbn; by destruct ir, ul|exact Hc]. by rewrite Hl.
Qed.

Lemma putchar_at c ch :
  console_locked_by_current_thread c = true → - 2 ^ 63 ≤ write_cnt c < 2 ^ 63 - 1 →
  putchar_have_lock ch (IO m c) = Done (tt, IO m (written [ch] c)).
Proof.
  intros Hl Hw. unfold putchar_have_lock, con, upd, mbind, M_bind, get, modify, mret, M_ret, check. cbn. rewrite Hl.
  unfold as_intmax, check, mbind, M_bind, mret, M_ret. rewrite bool_decide_true by lia. done.
Qed.

Lemma under_putchar ch : under_lock (putchar_have_lock ch) tt [ch].
Proof. intros c Hl [H1 H2]. cbn in H2. apply putchar_at; [done|lia]. Qed.

Lemma under_ret {A} (a : A) : under_lock (mret a) a [].
Proof. intros c _ _. by rewrite written_nil. Qed.

Lemma under_bind {A C} (k : M (io console) A) (f : A → M (io console) C) a b cs cs' :
  under_lock k a cs → under_lock (f a) b cs' → under_lock (k ≫= f) b (cs ++ cs').
Proof.
  intros Hk Hf c Hc [H1 H2]. rewrite length_app in H2. unfold mbind, M_bind. rewrite Hk by (done || (split; lia)).
  rewrite Hf; [by rewrite written_app|done|]. unfold countable, written. cbn. lia.
Qed.

(** ** [vprintf] *)

(** The console of the run so far, next to the characters collected *)
Definition on_screen (B : gmap Z Z) (c0 : console) (s1 : io (list Z)) (s2 : io (console * Z)) : Prop :=
  bytes s1 = B ∧ s2 = IO m (written (aux s1) c0, Z.of_nat (length (aux s1))).

Lemma on_screen_out B c0 ch :
  console_locked_by_current_thread c0 = true → - 2 ^ 63 ≤ write_cnt c0 < 2 ^ 63 - 2 ^ 31 →
  sim (on_screen B c0) (logger ch) (vprintf_helper ch).
Proof.
  intros Hl Hw [b1 l] s2 (Hb1 & ->) a s1'. cbn in Hb1. subst b1. unfold logger, vprintf_helper.
  unfold mbind, M_bind, get. cbn [aux bytes fst snd]. case_bool_decide as Hroom; [|done]. unfold room in Hroom.
  cbn. intros [= <- <-]. unfold as_int, check, mbind, M_bind, mret, M_ret. rewrite bool_decide_true by lia. cbn.
  unfold on_console. cbn. rewrite putchar_at; [|exact Hl|cbn; lia].
  eexists. split; [reflexivity|]. split; [done|]. cbn [aux]. rewrite written_app. cbn. rewrite length_app. cbn. do 2 f_equal. lia.
Qed.

Lemma under_vprintf B fuel p args cs :
  B ⊆ m → emits B (__vprintf fuel logger 2 p args) tt cs → room (length cs) →
  under_lock (run_vprintf fuel p args) (Z.of_nat (length cs)) cs.
Proof.
  intros Hsub He Hr c Hl [Hw1 Hw2]. unfold run_vprintf. cbn [bytes aux].
  destruct (sim_vprintf (on_screen B c) logger vprintf_helper) with (fuel := fuel) (depth := 2%nat) (p := p) (args := args)
    (s1 := IO B (@nil Z)) (s2 := IO m (c, 0)) (a := tt) (s1' := IO B cs) as (s2' & -> & Hb1 & ->).
  - by intros s1 s2 (-> & ->).
  - intros ch. apply on_screen_out; [done|lia].
  - split; [done|]. cbn. by rewrite written_nil.
  - by apply (He []).
  - done.
Qed.

Lemma shows_vprintf B fuel p xs :
  B ⊆ m → format_ok B fuel p xs → shows m (vprintf fuel p (format_args xs)) (Z.of_nat (length (format_out xs))) (format_out xs).
Proof.
  intros Hsub [Hp [rest Ht] Hx Hs Hn Hr]. apply with_lock. eapply under_vprintf; [done| |done]. by eapply emits_vprintf.
Qed.

(** ** Strings *)

Lemma deref_shows B p ch : B ⊆ m → emits B (deref p) ch [] → ∀ c : console, deref p (IO m c) = Done (ch, IO m c).
Proof.
  intros Hsub He c. specialize (He [] ltac:(done)). destruct p as [p|l i]; cbn [deref] in *.
  - unfold mbind, M_bind, get, assume_some in *. cbn in *. destruct (B !! p) as [v|] eqn:E; [|done]. injection He as <-.
    by rewrite (lookup_weaken _ _ _ _ E Hsub).
  - unfold assume_some in *. destruct (_ !! i); [by injection He as <-|done].
Qed.

Lemma under_deref B p ch : B ⊆ m → emits B (deref p) ch [] → under_lock (deref p) ch [].
Proof. intros Hsub He c _ _. by rewrite (deref_shows B p ch), written_nil. Qed.

Lemma under_putbuf B p cs : B ⊆ m → in_range p → text B p cs → under_lock (putbuf_loop p (length cs)) tt cs.
Proof.
  intros Hsub. revert p. induction cs as [|ch cs IH]; intros p Hp Ht; cbn [putbuf_loop length]; [apply under_ret|].
  apply (under_bind _ _ ch tt [] (ch :: cs)); [apply (under_deref B); [done|by apply (text_here _ _ ch cs)]|].
  apply (under_bind _ _ tt tt [ch] cs); [apply under_putchar|]. apply IH; [apply in_range_advance|by eapply text_next].
Qed.

Lemma under_puts B fuel p cs rest :
  B ⊆ m → in_range p → text B p (cs ++ 0 :: rest) → Forall (λ ch, ch ≠ 0) cs → (length cs < fuel)%nat →
  under_lock (loop fuel (λ p, ch ← deref p;
    if bool_decide (ch ≠ 0) then putchar_have_lock ch;; mret (inl (advance p 1)) else mret (inr tt)) p) tt cs.
Proof.
  intros Hsub Hp Ht Hnz. revert fuel p Hp Ht. induction Hnz as [|ch cs Hch _ IH]; intros [|fuel] p Hp Ht Hf; try (cbn in Hf; lia); rewrite loop_S.
  - apply (under_bind _ _ (inr tt) tt [] []); [|apply under_ret].
    apply (under_bind _ _ 0 _ [] []); [apply (under_deref B); [done|by apply (text_here _ _ 0 rest)]|apply under_ret].
  - apply (under_bind _ _ (inl (advance p 1)) tt [ch] cs).
    + apply (under_bind _ _ ch _ [] [ch]); [apply (under_deref B); [done|by apply (text_here _ _ ch (cs ++ 0 :: rest))]|].
      rewrite bool_decide_true by done. apply (under_bind _ _ tt _ [ch] []); [apply under_putchar|apply under_ret].
    + apply IH; [apply in_range_advance|by eapply text_next|cbn in Hf; lia].
Qed.

(** The shape in which the calls use the lock *)
Lemma with_lock_ret {A} (k : M (io console) unit) (a : A) cs :
  under_lock k tt cs → shows m (acquire_console;; k;; release_console;; mret a) a cs.
Proof.
  intros Hk c Hc Hw. pose proof (with_lock (k;; mret a) a cs) as Hl.
  rewrite <- (Hl ltac:(rewrite <- (app_nil_r cs); apply (under_bind _ _ tt a cs []); [done|apply under_ret]) c Hc Hw).
  unfold mbind, M_bind. destruct (acquire_console (IO m c)) as [[[] s]| |]; [|done..]. by destruct (k s) as [[[] s']| |].
Qed.
End shows.

(** C24 (invariant): [vprintf], [puts], [putbuf] and [putchar] put exactly their characters
    on the console, that is on the serial port and on the screen, whether its lock is free, held by the caller already, not in use yet
    or not to be used in an interrupt handler, count them, and leave the lock and its
    depth as they were. *)
Theorem console_calls m B c fuel p xs q cs ch :
  con_ok c → countable c (S (length cs) + length (format_out xs)) → B ⊆ m → format_ok B fuel p xs →
  (∃ rest, text B q (cs ++ 0 :: rest)) → in_range q → Forall (λ ch, ch ≠ 0) cs → (length cs < fuel)%nat →
  vprintf fuel p (format_args xs) (IO m c) = Done (Z.of_nat (length (format_out xs)), IO m (written (format_out xs) c)) ∧
  puts fuel q (IO m c) = Done (0, IO m (written (cs ++ [10]) c)) ∧
  putbuf q (Z.of_nat (length cs)) (IO m c) = Done (tt, IO m (written cs c)) ∧
  putchar ch (IO m c) = Done (ch, IO m (written [ch] c)).
Proof.
  intros Hok [Hw1 Hw2] Hsub Hf [rest Ht] Hq Hnz Hl. split_and!.
  - apply (shows_vprintf m B); [done|done|done|split; lia].
  - pose proof (under_puts m B fuel q cs rest Hsub Hq Ht Hnz Hl) as Hu. unfold puts. set (scan := loop fuel _ q) in *.
    assert (shows m (acquire_console;; (scan;; putchar_have_lock 10);; release_console;; mret 0) 0 (cs ++ [10])) as Hs
      by (apply with_lock_ret, (under_bind m _ _ tt tt); [done|apply under_putchar]).
    rewrite <- Hs by (done || (rewrite length_app; split; cbn; lia)).
    unfold mbind, M_bind. destruct (acquire_console _) as [[? s]| |]; [|done..]. by destruct (scan s) as [[? s']| |].
  - assert (shows m (acquire_console;; putbuf_loop q (length cs);; release_console;; mret tt) tt cs) as Hs.
    { apply with_lock_ret, (under_putbuf m B); [done|done|by eapply text_prefix]. }
    unfold putbuf. rewrite Nat2Z.id. rewrite <- Hs by (done || (split; lia)).
    unfold mbind, M_bind. destruct (acquire_console _) as [[? s]| |]; [|done..]. destruct (putbuf_loop _ _ s) as [[? s']| |]; [|done..].
    by destruct (release_console s') as [[[] ?]| |].
  - apply (with_lock_ret m (putchar_have_lock ch) ch [ch]); [apply under_putchar|done|split; cbn; lia].
Qed.

(** ** Hexadecimal numbers of a fixed width *)

Definition hex_digit (k : Z) : Z := default 0 (digits base_x !! Z.to_nat k).

(** The [w] digits of [v], least significant first *)
Fixpoint low_digits (w : nat) (v : Z) : list Z :=
  match w with
  | O => []
  | S w => hex_digit (v mod 16) :: low_digits w (v / 16)
  end.

Definition hex (w : nat) (v : Z) : list Z := rev (low_digits w v).

Lemma low_digits_zero w : low_digits w 0 = replicate w 48.
Proof. induction w as [|w IH]; [done|]. cbn [low_digits replicate]. change (0 / 16) with 0. by rewrite IH. Qed.

Lemma low_digits_lsd w n v :
  (w ≤ n)%nat → 0 ≤ v < 16 ^ Z.of_nat w →
  lsd n base_x v ++ replicate (w - length (lsd n base_x v)) 48 = low_digits w v ∧ (length (lsd n base_x v) ≤ w)%nat.
Proof.
  revert n v. induction w as [|w IH]; intros n v Hn Hv.
  - change (16 ^ Z.of_nat 0) with 1 in Hv. assert (v = 0) as -> by lia. by destruct n.
  - destruct n as [|n]; [lia|]. rewrite Nat2Z.inj_succ, Z.pow_succ_r in Hv by lia. cbn [lsd]. case_decide as Hpos.
    + change (base base_x) with 16. assert (0 < 16 ^ Z.of_nat w) by (apply Z.pow_pos_nonneg; lia).
      destruct (IH n (v / 16)) as [E Hl]; [lia|split; [apply Z.div_pos; lia|apply Z.div_lt_upper_bound; lia]|].
      cbn [length app Nat.sub low_digits]. rewrite E. split; [done|lia].
    + assert (v = 0) as -> by lia. cbn [length app]. rewrite Nat.sub_0_r, low_digits_zero. split; [done|lia].
Qed.

Lemma hex_padded w v t :
  (1 ≤ w ≤ 22)%nat → 0 ≤ v < 16 ^ Z.of_nat w →
  int_out base_x false false (Conv ZERO (Z.of_nat w) (-1) t) v = hex w v.
Proof.
  intros Hw Hv. destruct (low_digits_lsd w 22 v) as [E Hl]; [lia|done|].
  unfold int_out, layout, int_sign, int_prefix, int_body, digit_chars. cbn [flags width precision].
  change (has ZERO GROUP) with false. change (has ZERO POUND) with false. change (has ZERO MINUS) with false. change (has ZERO ZERO) with true.
  cbn [sign_char negb andb app]. cbv beta iota zeta. change (bool_decide (0 ≠ 0)) with false. change (bool_decide (-1 < 0)) with true. cbv beta iota.
  cbn [app]. rewrite !app_nil_r. set (l := lsd 22 base_x v) in *. unfold zeros, hex. change (Z.to_nat (1 `min` 63)) with 1%nat.
  rewrite <- E, !rev_app_distr, length_app, !length_rev, length_replicate.
  assert (∀ n : nat, rev (replicate n 48) = replicate n 48) as Hrev.
  { induction n as [|n IH]; [done|]. cbn [replicate rev]. rewrite IH. by rewrite <- replicate_S_end. }
  rewrite !Hrev, app_assoc, <- replicate_add. do 2 f_equal. lia.
Qed.

(** ** The dump *)

Fixpoint dump_bytes (i : nat) (bs : list Z) : list Z :=
  match bs with
  | [] => []
  | v :: bs => hex 2 v ++ [if bool_decide (i = 7)%nat then 45 else 32] ++ dump_bytes (S i) bs
  end.

Definition printable (v : Z) : Z := if isprint v then v else 46.

(** One line: the offset, the bytes in their columns, and the characters *)
Definition dump_line (ofs : Z) (bs : list Z) (ascii : bool) : list Z :=
  let start := Z.to_nat (ofs mod 16) in
  let rest := (16 - (start + length bs))%nat in
  hex 8 (ofs / 16 * 16) ++ [32; 32] ++ replicate (3 * start) 32 ++ dump_bytes start bs ++
  (if ascii then replicate (3 * rest) 32 ++ [124] ++ replicate start 32 ++ (printable <$> bs) ++ replicate rest 32 ++ [124] else []) ++
  [10].

Fixpoint dump (lines : nat) (ofs : Z) (bs : list Z) (ascii : bool) : list Z :=
  match lines, bs with
  | S lines, _ :: _ =>
      let now := take (Z.to_nat (16 - ofs mod 16)) bs in
      dump_line ofs now ascii ++ dump lines (wrap_u32 (ofs + Z.of_nat (length now))) (drop (length now) bs) ascii
  | _, _ => []
  end.

Section dump.
Context (m : gmap Z Z) (fuel : nat).
Hypothesis Hfuel : (16 ≤ fuel)%nat.

Lemma shows_printf fmt xs :
  format_text xs = chars fmt → Forall (piece_ok ∅) xs → Forall (λ x, piece_size x < fuel)%nat xs → (length xs < fuel)%nat → room (length (format_out xs)) →
  shows m (printf fuel fmt (format_args xs)) (Z.of_nat (length (format_out xs))) (format_out xs).
Proof.
  intros Ht Hx Hs Hn Hr. apply (shows_vprintf m ∅); [apply map_empty_subseteq|]. split; [done| |done|done|done|done].
  exists []. rewrite Ht. apply (text_lit ∅ (chars fmt) 0).
Qed.

Lemma shows_text l fmt :
  l = chars fmt → forallb (λ c, negb (bool_decide (c = 0)) && negb (bool_decide (c = 37))) l = true → (length l < 4)%nat →
  shows m (printf fuel fmt []) (Z.of_nat (length l)) l.
Proof using Hfuel.
  intros El Hl Hn. rewrite <- (char_out l) at 1 2. rewrite <- (char_args l). apply shows_printf.
  - by rewrite char_text.
  - rewrite forallb_forall in Hl. apply Forall_fmap, Forall_forall. intros c Hc. specialize (Hl c ltac:(by apply list_elem_of_In)).
    apply andb_prop in Hl as [H1%negb_true_iff H2%negb_true_iff]. cbn. by rewrite bool_decide_eq_false in H1, H2.
  - apply Forall_fmap, Forall_forall. cbn. lia.
  - rewrite length_fmap. lia.
  - rewrite char_out. unfold room. lia.
Qed.

Lemma shows_repeat fmt l n :
  l = chars fmt → forallb (λ c, negb (bool_decide (c = 0)) && negb (bool_decide (c = 37))) l = true → (length l < 4)%nat →
  shows m (repeat_print fuel fmt n) tt (concat (replicate n l)).
Proof using Hfuel.
  intros El Hl Hn. induction n as [|n IH]; cbn [repeat_print replicate concat]; [apply shows_ret|].
  eapply shows_bind; [by apply shows_text|exact IH].
Qed.

Lemma shows_offset ofs :
  0 ≤ ofs < 2 ^ 32 →
  shows m (printf fuel "%08jx  " [A64 (ofs / 16 * 16)]) 10 (hex 8 (ofs / 16 * 16) ++ [32; 32]).
Proof using Hfuel.
  intros Ho. set (v := ofs / 16 * 16). assert (0 ≤ v < 2 ^ 32) as Hv.
  { subst v. pose proof (Z.div_mod ofs 16 ltac:(lia)). pose proof (Z.mod_pos_bound ofs 16 ltac:(lia)). lia. }
  set (xs := [Unsigned (Dir [48] (Digits [56]) Absent INTMAX) 120 (A64 v); Char 32; Char 32]).
  assert (format_out xs = hex 8 v ++ [32; 32]) as Eo.
  { unfold format_out, xs. cbn [mbind list_bind piece_out]. rewrite !app_nil_r. f_equal.
    change (meaning (Dir [48] (Digits [56]) Absent INTMAX)) with (Conv ZERO (Z.of_nat 8) (-1) INTMAX).
    change (default 0 (unsigned_value (d_type (Dir [48] (Digits [56]) Absent INTMAX)) (A64 v))) with v.
    change (unsigned_base 120) with base_x. apply hex_padded; [lia|]. change (16 ^ Z.of_nat 8) with 4294967296. lia. }
  rewrite <- Eo. change [A64 v] with (format_args xs). replace 10 with (Z.of_nat (length (format_out xs))) by (by rewrite Eo).
  apply shows_printf; [done| | |cbn; lia|by rewrite Eo].
  - apply Forall_cons_2; [|by repeat apply Forall_cons_2].
    split; [split; cbn; [repeat constructor; by eexists|by split; [repeat constructor|vm_compute]|by intros ? [= <-]|done]|].
    split; [by right; right; left|]. split; [cbn; unfold is64; lia|by eexists].
  - repeat apply Forall_cons_2; [cbn; lia..|by apply Forall_nil].
Qed.

Lemma shows_byte v sep :
  0 ≤ v < 256 → 0 ≤ sep < 256 →
  shows m (printf fuel "%02hhx%c" [A32 v; A32 sep]) 3 (hex 2 v ++ [sep]).
Proof using Hfuel.
  intros Hv Hs. set (xs := [Unsigned (Dir [48] (Digits [50]) Absent CHAR) 120 (A32 v); Single plain_dir sep]).
  assert (format_out xs = hex 2 v ++ [sep]) as Eo.
  { unfold format_out, xs. cbn [mbind list_bind piece_out]. rewrite !app_nil_r. f_equal.
    - change (meaning (Dir [48] (Digits [50]) Absent CHAR)) with (Conv ZERO (Z.of_nat 2) (-1) CHAR).
      change (default 0 (unsigned_value (d_type (Dir [48] (Digits [50]) Absent CHAR)) (A32 v))) with (v mod 256).
      rewrite Z.mod_small by done. change (unsigned_base 120) with base_x. apply hex_padded; [lia|]. change (16 ^ Z.of_nat 2) with 256. lia.
    - rewrite Z.mod_small by done. done. }
  rewrite <- Eo. change [A32 v; A32 sep] with (format_args xs). replace 3 with (Z.of_nat (length (format_out xs))) by (by rewrite Eo).
  apply shows_printf; [done| | |cbn; lia|by rewrite Eo].
  - apply Forall_cons_2; [|apply Forall_singleton, plain_dir_ok].
    split; [split; cbn; [repeat constructor; by eexists|by split; [repeat constructor|vm_compute]|by intros ? [= <-]|done]|].
    split; [by right; right; left|]. split; [cbn; unfold is32; lia|by eexists].
  - repeat apply Forall_cons_2; [cbn; lia..|by apply Forall_nil].
Qed.

Lemma shows_char v : 0 ≤ v < 256 → shows m (printf fuel "%c" [A32 v]) 1 [v].
Proof using Hfuel.
  intros Hv. assert (format_out [Single plain_dir v] = [v]) as Eo.
  { unfold format_out. cbn [mbind list_bind piece_out]. rewrite app_nil_r, Z.mod_small by done. done. }
  rewrite <- Eo. change [A32 v] with (format_args [Single plain_dir v]). replace 1 with (Z.of_nat (length (format_out [Single plain_dir v]))) by (by rewrite Eo).
  apply shows_printf; [done|apply Forall_singleton, plain_dir_ok|apply Forall_singleton; cbn; lia|cbn; lia|by rewrite Eo].
Qed.

Definition bytes_at (p : cptr) (bs : list Z) : Prop := text m p bs ∧ Forall (λ v, 0 ≤ v < 256) bs.

Lemma shows_deref p v : emits m (deref p) v [] → shows m (deref p) v [].
Proof. intros He c _ _. rewrite written_nil. by apply (deref_shows m m). Qed.

(** The bytes from the column [i] on; the first of the line is in the column [start]. *)
Lemma shows_print_bytes p start i bs :
  bytes_at (advance p (i - start)) bs → (start ≤ i)%nat → shows m (print_bytes fuel p start i (length bs)) tt (dump_bytes i bs).
Proof using Hfuel.
  revert i. induction bs as [|v bs IH]; intros i [Ht Hb] Hi; cbn [print_bytes length dump_bytes]; [apply shows_ret|].
  apply Forall_cons in Hb as [Hv Hb]. eapply shows_bind_nil; [apply shows_deref, (text_here _ _ v bs); [apply in_range_advance|exact Ht]|].
  rewrite app_assoc. change (16 / 2 - 1)%nat with 7%nat. eapply shows_bind; [apply shows_byte; [done|case_bool_decide; lia]|].
  apply IH; [|lia]. split; [|done]. apply text_next in Ht. rewrite advance_advance in Ht.
  by replace (i - start + 1)%nat with (S i - start)%nat in Ht by lia.
Qed.

Lemma shows_print_ascii p start i bs :
  bytes_at (advance p (i - start)) bs → (start ≤ i)%nat → shows m (print_ascii fuel p start i (length bs)) tt (printable <$> bs).
Proof using Hfuel.
  revert i. induction bs as [|v bs IH]; intros i [Ht Hb] Hi; cbn [print_ascii length fmap list_fmap]; [apply shows_ret|].
  apply Forall_cons in Hb as [Hv Hb]. eapply shows_bind_nil; [apply shows_deref, (text_here _ _ v bs); [apply in_range_advance|exact Ht]|].
  apply (shows_bind _ _ _ 1 tt [printable v]); [apply shows_char; unfold printable; by destruct (isprint v)|].
  apply IH; [|lia]. split; [|done]. apply text_next in Ht. rewrite advance_advance in Ht.
  by replace (i - start + 1)%nat with (S i - start)%nat in Ht by lia.
Qed.

Lemma concat_blanks n k : concat (replicate n (replicate k 32)) = replicate (k * n) (32 : Z).
Proof. induction n as [|n IH]; cbn [replicate concat]; [by rewrite Nat.mul_0_r|]. rewrite IH, <- replicate_add. f_equal. lia. Qed.

Lemma shows_blanks3 n : shows m (repeat_print fuel "   " n) tt (replicate (3 * n) 32).
Proof using Hfuel. rewrite <- concat_blanks. apply shows_repeat; [done|done|cbn; lia]. Qed.

Lemma shows_blanks n : shows m (repeat_print fuel " " n) tt (replicate n 32).
Proof using Hfuel.
  replace n with (1 * n)%nat at 2 by lia. rewrite <- concat_blanks. apply shows_repeat; [done|done|cbn; lia].
Qed.

Lemma shows_when b k cs : (b = true → shows m k tt cs) → shows m (when b k) tt (if b then cs else []).
Proof. intros Hk. destruct b; [by apply Hk|apply shows_ret]. Qed.

(** The text of a line as the body of the loop prints it *)
Lemma shows_line ofs p bs ascii (next : Z * cptr * Z) :
  0 ≤ ofs < 2 ^ 32 → in_range p → bytes_at p bs → (Z.to_nat (ofs mod 16) + length bs ≤ 16)%nat →
  let start := Z.to_nat (ofs mod 16) in
  let end' := (start + length bs)%nat in
  shows m (printf fuel "%08jx  " [A64 (ofs / 16 * 16)];;
           repeat_print fuel "   " start;;
           print_bytes fuel p start start (length bs);;
           when ascii (repeat_print fuel "   " (16 - end');;
                       printf fuel "|" [];;
                       repeat_print fuel " " start;;
                       print_ascii fuel p start start (length bs);;
                       repeat_print fuel " " (16 - end');;
                       printf fuel "|" [];; mret tt);;
           printf fuel (String (ascii_of_nat 10) EmptyString) [];;
           mret (inl next : _ + unit)) (inl next) (dump_line ofs bs ascii).
Proof using Hfuel.
  intros Ho Hp Hb Hle start end'. unfold dump_line. cbn zeta. fold start. fold end'.
  assert (bytes_at (advance p (start - start)) bs) as Hb' by (by rewrite Nat.sub_diag, advance_0).
  rewrite app_assoc. eapply shows_bind; [by apply shows_offset|]. eapply shows_bind; [apply shows_blanks3|].
  eapply shows_bind; [by apply shows_print_bytes|]. eapply shows_bind.
  - apply shows_when. intros _. eapply shows_bind; [apply shows_blanks3|].
    eapply shows_bind; [apply (shows_text [124]); [done|done|cbn; lia]|]. eapply shows_bind; [apply shows_blanks|].
    eapply shows_bind; [by apply shows_print_ascii|]. eapply shows_bind; [apply shows_blanks|].
    rewrite <- (app_nil_r [124]). eapply shows_bind; [apply (shows_text [124]); [done|done|cbn; lia]|apply shows_ret].
  - rewrite <- (app_nil_r [10]). eapply shows_bind; [apply (shows_text [10]); [done|done|cbn; lia]|apply shows_ret].
Qed.

Lemma shows_dump n p ofs bs ascii :
  0 ≤ ofs < 2 ^ 32 → in_range p → bytes_at p bs → Z.of_nat (length bs) < 2 ^ 32 → (length bs < n)%nat →
  shows m (loop n
    (λ '(ofs, buf, size),
       if bool_decide (0 < size) then
         let start := ofs mod 16 in
         let end_ := if bool_decide (size < 16 - start) then start + size else 16 in
         let n := end_ - start in
         let '(start', end', n') := (Z.to_nat start, Z.to_nat end_, Z.to_nat n) in
         printf fuel "%08jx  " [A64 (ofs / 16 * 16)];;
         repeat_print fuel "   " start';;
         print_bytes fuel buf start' start' n';;
         when ascii (repeat_print fuel "   " (16 - end');;
                     printf fuel "|" [];;
                     repeat_print fuel " " start';;
                     print_ascii fuel buf start' start' n';;
                     repeat_print fuel " " (16 - end');;
                     printf fuel "|" [];; mret tt);;
         printf fuel (String (ascii_of_nat 10) EmptyString) [];;
         mret (inl (wrap_u32 (ofs + n), advance buf n', size - n))
       else mret (inr tt)) (ofs, p, Z.of_nat (length bs))) tt (dump n ofs bs ascii).
Proof using Hfuel.
  revert ofs p bs. induction n as [|n IH]; intros ofs p bs Ho Hp Hb Hl Hn; [lia|]. rewrite loop_S. destruct bs as [|v bs].
  { cbn [dump length]. apply (shows_bind_nil _ _ _ (inr tt)); [|apply shows_ret]. rewrite bool_decide_false by lia. apply shows_ret. }
  set (all := v :: bs) in *. pose proof (Z.mod_pos_bound ofs 16 ltac:(lia)) as Hm.
  set (k := Z.to_nat (16 - ofs mod 16)). set (now := take k all). assert (0 < length all)%nat as Hall by (subst all; cbn; lia).
  assert (length now = Nat.min k (length all)) as Hnow by (subst now; apply length_take).
  change (dump (S n) ofs all ascii) with (dump_line ofs now ascii ++ dump n (wrap_u32 (ofs + Z.of_nat (length now))) (drop (length now) all) ascii).
  assert (now ++ drop (length now) all = all) as Esplit.
  { rewrite Hnow. destruct (decide (k ≤ length all)%nat); [rewrite Nat.min_l by lia; apply take_drop|].
    rewrite Nat.min_r, drop_ge by lia. subst now. by rewrite take_ge, app_nil_r by lia. }
  destruct Hb as [Ht Hv]. eapply shows_bind.
  - rewrite bool_decide_true by lia. cbn zeta.
    replace (if bool_decide (Z.of_nat (length all) < 16 - ofs mod 16) then ofs mod 16 + Z.of_nat (length all) else 16)
      with (ofs mod 16 + Z.of_nat (length now)) by (case_bool_decide; lia).
    replace (ofs mod 16 + Z.of_nat (length now) - ofs mod 16) with (Z.of_nat (length now)) by lia.
    rewrite Nat2Z.id. replace (Z.to_nat (ofs mod 16 + Z.of_nat (length now))) with (Z.to_nat (ofs mod 16) + length now)%nat by lia.
    apply shows_line; [done|done| |lia]. split; [|by apply Forall_take]. rewrite <- Esplit in Ht. by eapply text_prefix.
  - cbv beta iota. replace (Z.of_nat (length all) - Z.of_nat (length now)) with (Z.of_nat (length (drop (length now) all)))
      by (rewrite length_drop; lia).
    apply IH; [by apply Z.mod_pos_bound|apply in_range_advance| |rewrite length_drop; lia|rewrite length_drop; lia].
    split; [|by apply Forall_drop]. rewrite <- Esplit in Ht. by apply text_app in Ht.
Qed.
End dump.

(** [hex_dump] prints the bytes in lines of sixteen columns, each with
    its offset rounded down, the first line starting in the column of its offset, and
    with the printable characters beside them if asked to. *)
Theorem hex_dump_prints m c fuel ofs p bs ascii :
  con_ok c → countable c (length (dump fuel ofs bs ascii)) → (16 ≤ fuel)%nat → (length bs < fuel)%nat →
  0 ≤ ofs < 2 ^ 32 → Z.of_nat (length bs) < 2 ^ 32 → in_range p → text m p bs → Forall (λ v, 0 ≤ v < 256) bs →
  hex_dump fuel ofs p (Z.of_nat (length bs)) ascii (IO m c) = Done (tt, IO m (written (dump fuel ofs bs ascii) c)).
Proof.
  intros Hok Hc Hf Hl Ho Hb Hp Ht Hv. apply (shows_dump m fuel Hf fuel p ofs bs ascii); [done|done|by split|done|done|done|done].
Qed.

(** ** Witnesses *)

Definition blank : console := Con false true false 0 0 [] [].

Lemma console_calls_witness :
  vprintf 50 (Lit (chars "%-#8x|%s") 0) [A32 255; A32 1000] (IO hi blank) = Done (11, IO hi (written (chars "0xff    |hi") blank)) ∧
  puts 50 (Mem 1000) (IO hi blank) = Done (0, IO hi (written [104; 105; 10] blank)).
Proof.
  destruct (console_calls hi hi blank 50 (Lit (chars "%-#8x|%s") 0) hex_and_string (Mem 1000) [104; 105] 65) as (H1 & H2 & _);
    [done|by vm_compute|done|apply hex_and_string_ok|exists []; apply hi_text|by vm_compute|by repeat constructor|cbn; lia|].
  split; [exact H1|exact H2].
Defined.

Lemma hex_dump_prints_witness :
  hex_dump 50 0x1f7 (Mem 1000) 2 true (IO hi blank) =
  Done (tt, IO hi (written (chars "000001f0                       68-69                      |       hi       |" ++ [10]) blank)).
Proof.
  apply (hex_dump_prints hi blank 50 0x1f7 (Mem 1000) [104; 105] true); [done|by vm_compute|lia|cbn; lia|lia|cbn; lia|by vm_compute| |by repeat constructor].
  apply (text_prefix hi (Mem 1000) [104; 105] [0]), hi_text.
Defined.
