(* ===== verification/KPageDir.v ===== *)
(** * Pintos: page tables

    [Project_3/threads/pte.h], [Project_3/userprog/pagedir.c] and [paging_init] of
    [Project_3/threads/init.c], on the pages of [KPalloc].  Page directories and page
    tables are 32-bit words in the memory of the machine, least significant byte
    first; reading a byte of unknown value is undefined, and so is a failed [ASSERT].

    [tlb] are the translations that the processor has cached: the page of the
    kernel's window on physical memory that a page number leads to, whether it may be
    written, and whether the processor has marked it as written.  Loading [cr3]
    empties it.  [mmu] is how the processor translates an address of a user program
    ([IA32-v3a] 3.7 and 3.12, which the sources cite): a cached translation is used
    without a look at the tables, and the flags of an entry are set when it is
    cached. *)

From stdpp Require Import base tactics list gmap.
From Stdlib Require Import ZArith Lia.
From S2P Require Import Prelude Bitmap KMalloc KPalloc.

Local Open Scope Z_scope.

(** ** Addresses *)

Definition is_user_vaddr (va : Z) : bool := bool_decide (va < PHYS_BASE).
Definition is_kernel_vaddr (va : Z) : bool := bool_decide (PHYS_BASE ≤ va).

Definition vtop (va : Z) : option Z := ASSERT (is_kernel_vaddr va) (Some (wrap_u32 (va - PHYS_BASE))).

Definition PTMASK : Z := Z.shiftl (Z.shiftl 1 10 - 1) 12.

Definition pt_no (va : Z) : Z := Z.shiftr (Z.land va PTMASK) 12.
Definition pd_no (va : Z) : Z := Z.shiftr va 22.

(** ** Entries *)

Definition PTE_ADDR : Z := 0xfffff000.
Definition PTE_P : Z := 0x1.
Definition PTE_W : Z := 0x2.
Definition PTE_U : Z := 0x4.
Definition PTE_A : Z := 0x20.
Definition PTE_D : Z := 0x40.

Definition pde_create (pt : Z) : option Z :=
  ASSERT (bool_decide (pg_ofs pt = 0)) (p ← vtop pt; Some (Z.lor (Z.lor (Z.lor p PTE_U) PTE_P) PTE_W)).

Definition pde_get_pt (pde : Z) : option Z := ASSERT (flagged pde PTE_P) (ptov (Z.land pde PTE_ADDR)).

Definition pte_create_kernel (page : Z) (writable : bool) : option Z :=
  ASSERT (bool_decide (pg_ofs page = 0))
    (p ← vtop page; Some (Z.lor (Z.lor p PTE_P) (if writable then PTE_W else 0))).

Definition pte_create_user (page : Z) (writable : bool) : option Z :=
  e ← pte_create_kernel page writable; Some (Z.lor e PTE_U).

Definition pte_get_page (pte : Z) : option Z := ptov (Z.land pte PTE_ADDR).

(** ** The machine *)

Record cached := Cached { t_page : Z; t_write : bool; t_dirty : bool }.

Record mach := Mach { pm : pmem; cr3 : Z; tlb : gmap Z cached }.

Local Abbreviation MM := (M mach).

Definition mem (s : mach) : gmap Z Z := memory (pm s).

(** A word and the four bytes of its address *)
Definition word (m : gmap Z Z) (a : Z) : option Z :=
  b0 ← m !! a; b1 ← m !! (a + 1); b2 ← m !! (a + 2); b3 ← m !! (a + 3);
  Some (b0 + 256 * b1 + 65536 * b2 + 16777216 * b3).

Definition set_word (a v : Z) (m : gmap Z Z) : gmap Z Z :=
  <[a := v mod 256]> (<[a + 1 := v / 256 mod 256]>
    (<[a + 2 := v / 65536 mod 256]> (<[a + 3 := v / 16777216 mod 256]> m))).

Definition load (a : Z) : MM Z := s ← get; assume_some (word (mem s) a).
Definition store (a v : Z) : MM unit :=
  modify (λ s, Mach (set_memory (set_word a v) (pm s)) (cr3 s) (tlb s)).

(** A call of the page allocator *)
Definition pal {A} (f : pmem → option (A * pmem)) : MM A :=
  s ← get;
  '(r, m) ← assume_some (f (pm s));
  modify (λ s, Mach m (cr3 s) (tlb s));;
  mret r.

Definition get_page (flags : Z) : MM (option Z) := pal (palloc_get_page flags).
Definition free_page (page : Z) : MM unit := pal (λ m, m' ← palloc_free_page page m; Some (tt, m')).

(** [movl %0, %%cr3] *)
Definition load_cr3 (p : Z) : MM unit := modify (λ s, Mach (pm s) p ∅).

(** [memcpy] of a page *)
Definition copy_page (dst src : Z) : MM unit :=
  modify (λ s, Mach (set_memory (copy dst src (Z.to_nat PAGE)) (pm s)) (cr3 s) (tlb s)).

(** ** [paging_init] *)

Section paging_init.
Context (init_ram_pages start end_kernel_text : Z).

(** [for (page = 0; page < init_ram_pages; page++)]; the locals are [page] and [pt]. *)
Definition map_ram (pd : Z) : MM unit :=
  loop (S (Z.to_nat init_ram_pages))
    (λ '(page, pt),
       if bool_decide (page < init_ram_pages) then
         let paddr := wrap_u32 (page * PAGE) in
         vaddr ← assume_some (ptov paddr);
         let pde_idx := pd_no vaddr in
         let pte_idx := pt_no vaddr in
         let in_kernel_text := bool_decide (start ≤ vaddr) && bool_decide (vaddr < end_kernel_text) in
         e ← load (pd + 4 * pde_idx);
         pt ← (if bool_decide (e = 0) then
                 pt ← get_page (Z.lor PAL_ASSERT PAL_ZERO);
                 e ← assume_some (pde_create (default 0 pt));
                 store (pd + 4 * pde_idx) e;;
                 mret (default 0 pt)
               else mret pt);
         e ← assume_some (pte_create_kernel vaddr (negb in_kernel_text));
         check (bool_decide (pt ≠ 0));;
         store (pt + 4 * pte_idx) e;;
         mret (inl (page + 1, pt))
       else mret (inr tt)) (0, 0).

(** The result is [init_page_dir]. *)
Definition paging_init : MM Z :=
  pd ← get_page (Z.lor PAL_ASSERT PAL_ZERO);
  let pd := default 0 pd in
  map_ram pd;;
  p ← assume_some (vtop pd);
  load_cr3 p;;
  mret pd.

End paging_init.

(** ** [pagedir.c] *)

Section pagedir.
Context (init_page_dir init_ram_pages : Z).

Definition pagedir_create : MM (option Z) :=
  pd ← get_page 0;
  match pd with
  | Some pd => copy_page pd init_page_dir;; mret (Some pd)
  | None => mret None
  end.

(** The inner loop of [pagedir_destroy] *)
Definition free_frames (pt : Z) : MM unit :=
  loop 1025
    (λ pte,
       if bool_decide (pte < wrap_u32 (pt + PAGE)) then
         e ← load pte;
         when (flagged e PTE_P) (page ← assume_some (pte_get_page e); free_page page);;
         mret (inl (wrap_u32 (pte + 4)))
       else mret (inr tt)) pt.

Definition pagedir_destroy (pd : Z) : MM unit :=
  if bool_decide (pd = 0) then mret tt
  else
    check (bool_decide (pd ≠ init_page_dir));;
    loop 769
      (λ pde,
         if bool_decide (pde < wrap_u32 (pd + 4 * pd_no PHYS_BASE)) then
           e ← load pde;
           when (flagged e PTE_P) (pt ← assume_some (pde_get_pt e); free_frames pt;; free_page pt);;
           mret (inl (wrap_u32 (pde + 4)))
         else mret (inr tt)) pd;;
    free_page pd.

Definition lookup_page (pd vaddr : Z) (create : bool) : MM (option Z) :=
  check (bool_decide (pd ≠ 0));;
  check (negb create || is_user_vaddr vaddr);;
  let pde := wrap_u32 (pd + 4 * pd_no vaddr) in
  e ← load pde;
  found ← (if bool_decide (e = 0) then
             if create then
               pt ← get_page PAL_ZERO;
               match pt with
               | Some pt => e ← assume_some (pde_create pt); store pde e;; mret true
               | None => mret false
               end
             else mret false
           else mret true);
  if found : bool then
    e ← load pde;
    pt ← assume_some (pde_get_pt e);
    mret (Some (wrap_u32 (pt + 4 * pt_no vaddr)))
  else mret None.

Definition pagedir_set_page (pd upage kpage : Z) (writable : bool) : MM bool :=
  check (bool_decide (pg_ofs upage = 0));;
  check (bool_decide (pg_ofs kpage = 0));;
  check (is_user_vaddr upage);;
  p ← assume_some (vtop kpage);
  check (bool_decide (Z.shiftr p 12 < init_ram_pages));;
  check (bool_decide (pd ≠ init_page_dir));;
  pte ← lookup_page pd upage true;
  match pte with
  | Some pte =>
      e ← load pte;
      check (bool_decide (Z.land e PTE_P = 0));;
      e ← assume_some (pte_create_user kpage writable);
      store pte e;;
      mret true
  | None => mret false
  end.

Definition pagedir_get_page (pd uaddr : Z) : MM (option Z) :=
  check (is_user_vaddr uaddr);;
  pte ← lookup_page pd uaddr false;
  match pte with
  | Some pte =>
      e ← load pte;
      if flagged e PTE_P then
        page ← assume_some (pte_get_page e);
        mret (Some (wrap_u32 (page + pg_ofs uaddr)))
      else mret None
  | None => mret None
  end.

Definition pagedir_activate (pd : Z) : MM unit :=
  let pd := if bool_decide (pd = 0) then init_page_dir else pd in
  p ← assume_some (vtop pd);
  load_cr3 p.

Definition active_pd : MM Z := s ← get; assume_some (ptov (cr3 s)).

Definition invalidate_pagedir (pd : Z) : MM unit :=
  a ← active_pd;
  when (bool_decide (a = pd)) (pagedir_activate pd).

Definition pagedir_clear_page (pd upage : Z) : MM unit :=
  check (bool_decide (pg_ofs upage = 0));;
  check (is_user_vaddr upage);;
  pte ← lookup_page pd upage false;
  match pte with
  | Some pte =>
      e ← load pte;
      when (flagged e PTE_P) (store pte (Z.land e (Z.lnot PTE_P));; invalidate_pagedir pd)
  | None => mret tt
  end.

(** The two flags that the processor sets, [PTE_D] and [PTE_A], are read and written by
    four functions that differ in the flag only. *)
Definition is_flag (f pd vpage : Z) : MM bool :=
  pte ← lookup_page pd vpage false;
  match pte with
  | Some pte => e ← load pte; mret (flagged e f)
  | None => mret false
  end.

Definition set_flag (f pd vpage : Z) (v : bool) : MM unit :=
  pte ← lookup_page pd vpage false;
  match pte with
  | Some pte =>
      e ← load pte;
      if v then store pte (Z.lor e f)
      else store pte (Z.land e (wrap_u32 (Z.lnot f)));; invalidate_pagedir pd
  | None => mret tt
  end.

Definition pagedir_is_dirty : Z → Z → MM bool := is_flag PTE_D.
Definition pagedir_set_dirty : Z → Z → bool → MM unit := set_flag PTE_D.
Definition pagedir_is_accessed : Z → Z → MM bool := is_flag PTE_A.
Definition pagedir_set_accessed : Z → Z → bool → MM unit := set_flag PTE_A.

End pagedir.

(** ** The processor *)

(** Where the kernel sees a physical address *)
Definition window (p : Z) : Z := wrap_u32 (p + PHYS_BASE).

(** A walk through the tables; [None] is a page fault. *)
Definition walk (va : Z) (write : bool) : MM (option Z) :=
  s ← get;
  let pde := window (cr3 s) + 4 * pd_no va in
  e ← load pde;
  if flagged e PTE_P && flagged e PTE_U then
    let pte := window (Z.land e PTE_ADDR) + 4 * pt_no va in
    x ← load pte;
    let writable := flagged e PTE_W && flagged x PTE_W in
    if flagged x PTE_P && flagged x PTE_U && (negb write || writable) then
      let x' := Z.lor (Z.lor x PTE_A) (if write then PTE_D else 0) in
      store pde (Z.lor e PTE_A);;
      store pte x';;
      let page := window (Z.land x PTE_ADDR) in
      modify (λ s, Mach (pm s) (cr3 s) (<[pg_no va := Cached (pg_no page) writable (flagged x' PTE_D)]> (tlb s)));;
      mret (Some (page + pg_ofs va))
    else mret None
  else mret None.

Definition mmu (va : Z) (write : bool) : MM (option Z) :=
  s ← get;
  match tlb s !! pg_no va with
  | Some t =>
      if negb write || (t_write t && t_dirty t) then mret (Some (t_page t * PAGE + pg_ofs va))
      else if t_write t then walk va write
      else mret None
  | None => walk va write
  end.

(** A user program reads or writes a byte; the processor forgets a translation. *)
Definition user_read (va : Z) : MM (option (option Z)) :=
  a ← mmu va false;
  s ← get;
  mret ((λ a, mem s !! a) <$> a).

Definition user_write (va byte : Z) : MM bool :=
  a ← mmu va true;
  match a with
  | Some a => modify (λ s, Mach (set_memory (<[a := byte]>) (pm s)) (cr3 s) (tlb s));; mret true
  | None => mret false
  end.

Definition evict (v : Z) : MM unit := modify (λ s, Mach (pm s) (cr3 s) (delete v (tlb s))).
