(* ===== verification/KPageDirProps.v ===== *)
(** * Pintos: page tables as maps

    The words of a page directory and of its tables stand for a finite map from page
    numbers to entries ([decode]).  [struct] says so of all directories at once, with
    every table in a page of its own, and survives every store that the functions of
    [KPageDir] make. *)

From stdpp Require Import base tactics list gmap.
From Stdlib Require Import ZArith Lia.
From S2P Require Import Prelude Bitmap BitmapProps KMalloc KMallocProps KPalloc KPallocMain KPageDir.

Local Open Scope Z_scope.
#[local] Ltac Zify.zify_post_hook ::= Z.to_euclidean_division_equations.

(** ** Bits *)

Definition u32 (e : Z) : Prop := 0 ≤ e < 2 ^ 32.

Lemma flagged_bit e k : 0 ≤ k → flagged e (2 ^ k) = Z.testbit e k.
Proof.
  intros Hk. unfold flagged. pose proof (land_pow2 e k Hk) as H. case_bool_decide; destruct (Z.testbit e k); naive_solver.
Qed.

Lemma flagged_P e : flagged e PTE_P = Z.testbit e 0.
Proof. apply (flagged_bit e 0). lia. Qed.
Lemma flagged_W e : flagged e PTE_W = Z.testbit e 1.
Proof. apply (flagged_bit e 1). lia. Qed.
Lemma flagged_U e : flagged e PTE_U = Z.testbit e 2.
Proof. apply (flagged_bit e 2). lia. Qed.
Lemma flagged_A e : flagged e PTE_A = Z.testbit e 5.
Proof. apply (flagged_bit e 5). lia. Qed.
Lemma flagged_D e : flagged e PTE_D = Z.testbit e 6.
Proof. apply (flagged_bit e 6). lia. Qed.

Lemma u32_high e k : u32 e → 32 ≤ k → Z.testbit e k = false.
Proof.
  intros [H0 H1] Hk. destruct (decide (e = 0)) as [->|]; [apply Z.bits_0|]. apply Z.bits_above_log2; [lia|].
  apply Z.log2_lt_pow2; [lia|]. pose proof (Z.pow_le_mono_r 2 32 k ltac:(lia) Hk). lia.
Qed.

Lemma land_addr e : u32 e → Z.land e PTE_ADDR = e / 4096 * 4096.
Proof.
  intros He. assert (PTE_ADDR = Z.shiftl (Z.ones 20) 12) as -> by reflexivity.
  change 4096 with (2 ^ 12). rewrite <- Z.shiftr_div_pow2, <- Z.shiftl_mul_pow2 by lia. apply Z.bits_inj'. intros k Hk.
  rewrite Z.land_spec, !Z.shiftl_spec by lia. destruct (decide (k < 12)) as [Hlt|Hge].
  - rewrite (Z.testbit_neg_r _ (k - 12)), (Z.testbit_neg_r _ (k - 12)) by lia. by rewrite andb_false_r.
  - rewrite Z.testbit_ones_nonneg, Z.shiftr_spec by lia. replace (k - 12 + 12) with k by lia.
    destruct (decide (k < 32)) as [Hl|Hg]; [rewrite (proj2 (Z.ltb_lt _ _)) by lia; apply andb_true_r|].
    by rewrite u32_high by (done || lia).
Qed.

(** Words with the same bits from the twelfth on have the same address. *)
Lemma same_addr e e' : (∀ k, 12 ≤ k → Z.testbit e k = Z.testbit e' k) → e / 4096 = e' / 4096.
Proof.
  intros H. change 4096 with (2 ^ 12). rewrite <- !Z.shiftr_div_pow2 by lia. apply Z.bits_inj'. intros k Hk.
  rewrite !Z.shiftr_spec by lia. apply H. lia.
Qed.

Lemma low_flag f k : 0 ≤ f < 4096 → 12 ≤ k → Z.testbit f k = false.
Proof.
  intros Hf Hk. destruct (decide (f = 0)) as [->|]; [apply Z.bits_0|]. apply Z.bits_above_log2; [lia|].
  apply Z.log2_lt_pow2; [lia|]. pose proof (Z.pow_le_mono_r 2 12 k ltac:(lia) Hk). lia.
Qed.

Lemma u32_lor e f : u32 e → 0 ≤ f < 4096 → u32 (Z.lor e f).
Proof. intros. apply lor_range; [done|lia]. Qed.

Lemma addr_lor e f : 0 ≤ f < 4096 → Z.lor e f / 4096 = e / 4096.
Proof. intros Hf. apply same_addr. intros k Hk. rewrite Z.lor_spec, (low_flag f k) by done. apply orb_false_r. Qed.

Lemma addr_ldiff e f : 0 ≤ f < 4096 → Z.ldiff e f / 4096 = e / 4096.
Proof. intros Hf. apply same_addr. intros k Hk. rewrite Z.ldiff_spec, (low_flag f k) by done. apply andb_true_r. Qed.

Lemma u32_ldiff e f : u32 e → u32 (Z.ldiff e f).
Proof.
  intros He. destruct (decide (Z.ldiff e f < 2 ^ 32)); [split; [|lia]; apply Z.ldiff_nonneg; unfold u32 in He; lia|].
  exfalso. pose proof (Z.ldiff_nonneg e f) as [_ Hn]. specialize (Hn ltac:(unfold u32 in He; lia)).
  pose proof (Z.bit_log2 (Z.ldiff e f) ltac:(lia)) as Hb. rewrite Z.ldiff_spec, (u32_high e) in Hb; [done|done|].
  apply (Z.log2_le_pow2); lia.
Qed.

(** [e & ~f], computed with 32 bits *)
Lemma land_wrap_lnot e f : u32 e → Z.land e (wrap_u32 (Z.lnot f)) = Z.ldiff e f.
Proof.
  intros He. apply Z.bits_inj'. intros k Hk. rewrite Z.land_spec, Z.ldiff_spec. destruct (decide (k < 32)) as [Hl|Hg].
  - rewrite wrap_testbit, Z.lnot_spec by lia. done.
  - by rewrite (u32_high e) by (done || lia).
Qed.

(** ** Entries *)

(** What an entry says of a page: the page of the kernel's window that it leads to,
    whether it may be written, and what the processor has noted *)
Record entry := Entry { frame : Z; writable : bool; accessed : bool; dirty : bool }.

Definition WINDOW : Z := 0xc0000.

Definition decode (e : Z) : option entry :=
  if Z.testbit e 0
  then Some (Entry (e / 4096 + WINDOW) (Z.testbit e 1) (Z.testbit e 5) (Z.testbit e 6))
  else None.

(** A present entry is for user programs. *)
Definition pte_ok (e : Z) : Prop := u32 e ∧ (Z.testbit e 0 = true → Z.testbit e 2 = true).

Definition set_acc (b : bool) (x : entry) : entry := Entry (frame x) (writable x) b (dirty x).
Definition set_drt (b : bool) (x : entry) : entry := Entry (frame x) (writable x) (accessed x) b.

Lemma decode_lor_A e : decode (Z.lor e PTE_A) = set_acc true <$> decode e.
Proof.
  unfold decode. rewrite !Z.lor_spec, addr_lor by (unfold PTE_A; lia).
  change (Z.testbit PTE_A 0) with false. change (Z.testbit PTE_A 1) with false. change (Z.testbit PTE_A 5) with true.
  change (Z.testbit PTE_A 6) with false. rewrite !orb_false_r, orb_true_r. by destruct (Z.testbit e 0).
Qed.

Lemma decode_lor_D e : decode (Z.lor e PTE_D) = set_drt true <$> decode e.
Proof.
  unfold decode. rewrite !Z.lor_spec, addr_lor by (unfold PTE_D; lia).
  change (Z.testbit PTE_D 0) with false. change (Z.testbit PTE_D 1) with false. change (Z.testbit PTE_D 5) with false.
  change (Z.testbit PTE_D 6) with true. rewrite !orb_false_r, orb_true_r. by destruct (Z.testbit e 0).
Qed.

Lemma decode_ldiff_A e : decode (Z.ldiff e PTE_A) = set_acc false <$> decode e.
Proof.
  unfold decode. rewrite !Z.ldiff_spec, addr_ldiff by (unfold PTE_A; lia).
  change (Z.testbit PTE_A 0) with false. change (Z.testbit PTE_A 1) with false. change (Z.testbit PTE_A 5) with true.
  change (Z.testbit PTE_A 6) with false. cbn [negb]. rewrite !andb_true_r, andb_false_r. by destruct (Z.testbit e 0).
Qed.

Lemma decode_ldiff_D e : decode (Z.ldiff e PTE_D) = set_drt false <$> decode e.
Proof.
  unfold decode. rewrite !Z.ldiff_spec, addr_ldiff by (unfold PTE_D; lia).
  change (Z.testbit PTE_D 0) with false. change (Z.testbit PTE_D 1) with false. change (Z.testbit PTE_D 5) with false.
  change (Z.testbit PTE_D 6) with true. cbn [negb]. rewrite !andb_true_r, andb_false_r. by destruct (Z.testbit e 0).
Qed.

Lemma decode_clear e : decode (Z.land e (Z.lnot PTE_P)) = None.
Proof. unfold decode. rewrite Z.land_spec. change (Z.testbit (Z.lnot PTE_P) 0) with false. by rewrite andb_false_r. Qed.

Lemma land_lnot e f : Z.land e (Z.lnot f) = Z.ldiff e f.
Proof. apply Z.bits_inj'. intros k Hk. by rewrite Z.land_spec, Z.ldiff_spec, Z.lnot_spec. Qed.

Lemma pte_ok_lor e f : pte_ok e → 0 ≤ f < 4096 → Z.testbit f 0 = false → pte_ok (Z.lor e f).
Proof.
  intros [H1 H2] Hf H0. split; [by apply u32_lor|]. rewrite !Z.lor_spec, H0, orb_false_r. intros H. by rewrite H2.
Qed.

Lemma pte_ok_ldiff e f : pte_ok e → Z.testbit f 2 = false → pte_ok (Z.ldiff e f).
Proof.
  intros [H1 H2] H0. split; [by apply u32_ldiff|]. rewrite !Z.ldiff_spec, H0, andb_true_r.
  intros [H _]%andb_true_iff. by apply H2.
Qed.

(** The address of the page of the window with number [j] *)
Lemma vtop_page j : WINDOW ≤ j < 2 ^ 20 → vtop (j * 4096) = Some ((j - WINDOW) * 4096).
Proof.
  intros Hj. unfold vtop, is_kernel_vaddr, PHYS_BASE, WINDOW in *. rewrite bool_decide_true by lia. cbn [ASSERT].
  rewrite wrap_small by lia. f_equal. lia.
Qed.

Lemma ptov_page j : WINDOW ≤ j < 2 ^ 20 → ptov ((j - WINDOW) * 4096) = Some (j * 4096).
Proof.
  intros Hj. unfold ptov, PHYS_BASE, WINDOW in *. rewrite bool_decide_true by lia. cbn [ASSERT].
  rewrite wrap_small by lia. f_equal. lia.
Qed.

Lemma window_page j : WINDOW ≤ j < 2 ^ 20 → window ((j - WINDOW) * 4096) = j * 4096.
Proof. intros Hj. unfold window, PHYS_BASE, WINDOW in *. rewrite wrap_small by lia. lia. Qed.

Lemma pg_ofs_page j : pg_ofs (j * 4096) = 0.
Proof. rewrite pg_ofs_mod. lia. Qed.

(** A directory entry for the table in page [j] *)
Definition pde_for (e j : Z) : Prop :=
  u32 e ∧ Z.testbit e 0 = true ∧ Z.testbit e 1 = true ∧ Z.testbit e 2 = true ∧ e / 4096 = j - WINDOW.

Lemma addr_testbit a k : 0 ≤ k < 12 → Z.testbit (a * 4096) k = false.
Proof. intros Hk. change 4096 with (2 ^ 12). rewrite Z.mul_pow2_bits_low by lia. done. Qed.

Lemma pde_create_page j : WINDOW ≤ j < 2 ^ 20 → ∃ e, pde_create (j * 4096) = Some e ∧ pde_for e j.
Proof.
  intros Hj. unfold pde_create. rewrite pg_ofs_page, (bool_decide_true (0 = 0)) by done. cbn [ASSERT].
  rewrite vtop_page by done. cbn [mbind option_bind]. eexists. split; [done|]. unfold pde_for.
  rewrite !Z.lor_spec, !addr_testbit by lia. split_and!; [|done|done|done|].
  - repeat apply u32_lor; [unfold u32, WINDOW in *; lia|unfold PTE_U; lia|unfold PTE_P; lia|unfold PTE_W; lia].
  - rewrite !addr_lor by (unfold PTE_U, PTE_P, PTE_W; lia). by rewrite Z.div_mul.
Qed.

Lemma pde_get_pt_page e j : pde_for e j → WINDOW ≤ j < 2 ^ 20 → pde_get_pt e = Some (j * 4096).
Proof.
  intros (Hu & HP & _ & _ & Ha) Hj. unfold pde_get_pt. rewrite flagged_P, HP. cbn [ASSERT].
  rewrite land_addr, Ha by done. by apply ptov_page.
Qed.

Lemma pde_for_lor_A e j : pde_for e j → pde_for (Z.lor e PTE_A) j.
Proof.
  intros (Hu & H0 & H1 & H2 & Ha). unfold pde_for. rewrite !Z.lor_spec, H0, H1, H2, addr_lor by (unfold PTE_A; lia).
  split_and!; try done. by apply u32_lor.
Qed.

Lemma pde_for_nonzero e j : pde_for e j → e ≠ 0.
Proof. intros (_ & H & _) ->. done. Qed.

Lemma pte_create_page f w : WINDOW ≤ f < 2 ^ 20 →
  ∃ e, pte_create_user (f * 4096) w = Some e ∧ pte_ok e ∧ decode e = Some (Entry f w false false).
Proof.
  intros Hf. unfold pte_create_user, pte_create_kernel. rewrite pg_ofs_page, (bool_decide_true (0 = 0)) by done. cbn [ASSERT].
  rewrite vtop_page by done. cbn [mbind option_bind]. eexists. split; [done|].
  split; [split; [|intros _; rewrite !Z.lor_spec; apply orb_true_r]|].
  - repeat apply u32_lor; [unfold u32, WINDOW in *; lia|unfold PTE_P; lia|destruct w; unfold PTE_W; lia|unfold PTE_U; lia].
  - unfold decode. rewrite !Z.lor_spec, !addr_testbit, !addr_lor, Z.div_mul by (destruct w; unfold PTE_U, PTE_P, PTE_W; lia).
    replace (f - WINDOW + WINDOW) with f by lia. by destruct w.
Qed.

Lemma pte_get_page_frame e x : pte_ok e → decode e = Some x → frame x < 2 ^ 20 → pte_get_page e = Some (frame x * 4096).
Proof.
  intros [Hu _] Hd Hf. unfold decode in Hd. destruct (Z.testbit e 0); [|done]. injection Hd as <-. cbn [frame] in *.
  unfold pte_get_page. rewrite land_addr by done. replace (e / 4096) with (e / 4096 + WINDOW - WINDOW) at 1 by lia.
  apply ptov_page. unfold u32 in Hu. lia.
Qed.

Lemma flagged_decode e : flagged e PTE_P = bool_decide (is_Some (decode e)).
Proof.
  rewrite flagged_P. unfold decode. destruct (Z.testbit e 0); [by rewrite bool_decide_true by eauto|].
  rewrite bool_decide_false; [done|]. by intros [? ?].
Qed.

(** ** Words in memory *)

(** Entry [i] of the directory or table in page [j] *)
Definition ent (m : gmap Z Z) (j i : Z) : option Z := word m (j * 4096 + 4 * i).

(** The two memories hold the same in page [j]. *)
Definition agree (m m' : gmap Z Z) (j : Z) : Prop := ∀ z, z / 4096 = j → m' !! z = m !! z.

Lemma agree_refl m j : agree m m j.
Proof. done. Qed.

Lemma agree_trans m1 m2 m3 j : agree m1 m2 j → agree m2 m3 j → agree m1 m3 j.
Proof. intros H1 H2 z Hz. by rewrite H2, H1. Qed.

Lemma set_word_other a v m z : ¬ (a ≤ z < a + 4) → set_word a v m !! z = m !! z.
Proof. intros H. unfold set_word. rewrite !lookup_insert_ne by lia. done. Qed.

Lemma word_set a v m : u32 v → word (set_word a v m) a = Some v.
Proof.
  intros Hv. unfold word, set_word.
  rewrite !lookup_insert_eq. cbn [mbind option_bind].
  rewrite (lookup_insert_ne _ a (a + 1)), lookup_insert_eq by lia. cbn [mbind option_bind].
  rewrite (lookup_insert_ne _ a (a + 2)), (lookup_insert_ne _ (a + 1) (a + 2)), lookup_insert_eq by lia. cbn [mbind option_bind].
  rewrite (lookup_insert_ne _ a (a + 3)), (lookup_insert_ne _ (a + 1) (a + 3)), (lookup_insert_ne _ (a + 2) (a + 3)), lookup_insert_eq by lia.
  cbn [mbind option_bind]. f_equal. unfold u32 in Hv. lia.
Qed.

Lemma word_ext m m' a : (∀ z, a ≤ z < a + 4 → m' !! z = m !! z) → word m' a = word m a.
Proof. intros H. unfold word. by rewrite !H by lia. Qed.

Lemma ent_agree m m' j i : agree m m' j → 0 ≤ i < 1024 → ent m' j i = ent m j i.
Proof. intros H Hi. apply word_ext. intros z Hz. apply H. lia. Qed.

Lemma ent_set m j i v j' i' : 0 ≤ i < 1024 → 0 ≤ i' < 1024 → u32 v →
  ent (set_word (j * 4096 + 4 * i) v m) j' i' = if decide (j' = j ∧ i' = i) then Some v else ent m j' i'.
Proof.
  intros Hi Hi' Hv. unfold ent. case_decide as Hd; [destruct Hd as [-> ->]; by apply word_set|].
  apply word_ext. intros z Hz. apply set_word_other. lia.
Qed.

Lemma agree_set m j i v j' : 0 ≤ i < 1024 → j' ≠ j → agree m (set_word (j * 4096 + 4 * i) v m) j'.
Proof. intros Hi Hj z Hz. apply set_word_other. lia. Qed.

Lemma agree_fill m j v j' : j' ≠ j → agree m (fill (j * 4096) 4096 v m) j'.
Proof. intros Hj z Hz. rewrite fill_lookup, decide_False by lia. done. Qed.

Lemma ent_zero m j i : 0 ≤ i < 1024 → ent (fill (j * 4096) 4096 (Some 0) m) j i = Some 0.
Proof. intros Hi. unfold ent, word. rewrite !fill_lookup, !decide_True by lia. done. Qed.

Lemma agree_insert m a v j : a / 4096 ≠ j → agree m (<[a := v]> m) j.
Proof. intros H z Hz. rewrite lookup_insert_ne; [done|]. congruence. Qed.

Lemma copied_lookup n : ∀ dst src (m : gmap Z Z) z, (dst + Z.of_nat n ≤ src ∨ src + Z.of_nat n ≤ dst) →
  copy dst src n m !! z = if decide (dst ≤ z < dst + Z.of_nat n) then m !! (src + (z - dst)) else m !! z.
Proof.
  induction n as [|n IH]; intros dst src m z H; cbn [copy]; [by rewrite decide_False by lia|].
  rewrite IH by lia. case_decide as Hd.
  - rewrite decide_True by lia. rewrite lookup_partial_alter_ne by lia. f_equal. lia.
  - destruct (decide (z = dst)) as [->|Hne].
    + rewrite lookup_partial_alter_eq, decide_True by lia. f_equal. lia.
    + rewrite lookup_partial_alter_ne, decide_False by lia. done.
Qed.

Lemma ent_copy m j k i : j ≠ k → 0 ≤ i < 1024 → ent (copy (j * 4096) (k * 4096) 4096 m) j i = ent m k i.
Proof.
  intros Hjk Hi. unfold ent, word. rewrite !copied_lookup, !decide_True by lia.
  by replace (k * 4096 + (j * 4096 + 4 * i - j * 4096)) with (k * 4096 + 4 * i) by lia;
     replace (k * 4096 + (j * 4096 + 4 * i + 1 - j * 4096)) with (k * 4096 + 4 * i + 1) by lia;
     replace (k * 4096 + (j * 4096 + 4 * i + 2 - j * 4096)) with (k * 4096 + 4 * i + 2) by lia;
     replace (k * 4096 + (j * 4096 + 4 * i + 3 - j * 4096)) with (k * 4096 + 4 * i + 3) by lia.
Qed.

Lemma agree_copy m j k j' : j ≠ k → j' ≠ j → agree m (copy (j * 4096) (k * 4096) 4096 m) j'.
Proof. intros Hjk Hj z Hz. rewrite copied_lookup, decide_False by lia. done. Qed.

(** ** Directories and tables *)

Local Abbreviation tables := (gmap Z Z).
Local Abbreviation mapping := (gmap Z entry).

(** The page that holds a directory, or one of its tables *)
Definition page_of (TT : gmap Z tables) (r : Z * option Z) : option Z :=
  T ← TT !! r.1; match r.2 with None => Some r.1 | Some d => T !! d end.

Lemma page_of_dir TT P T : TT !! P = Some T → page_of TT (P, None) = Some P.
Proof. intros H. unfold page_of. cbn. by rewrite H. Qed.

Lemma page_of_table TT P T d j : TT !! P = Some T → T !! d = Some j → page_of TT (P, Some d) = Some j.
Proof. intros H Hd. unfold page_of. cbn. by rewrite H. Qed.

(** The pages of the tables after one has been added *)
Lemma page_of_new_table TT P T d j r k : TT !! P = Some T → T !! d = None →
  page_of (<[P := <[d := j]> T]> TT) r = Some k ↔ r = (P, Some d) ∧ k = j ∨ r ≠ (P, Some d) ∧ page_of TT r = Some k.
Proof.
  intros HT Hd. destruct r as [Q o]. unfold page_of. cbn [fst snd]. destruct (decide (Q = P)) as [->|].
  - rewrite lookup_insert_eq, HT. cbn [mbind option_bind]. destruct o as [c|]; [|naive_solver].
    destruct (decide (c = d)) as [->|]; [rewrite lookup_insert_eq; naive_solver|rewrite lookup_insert_ne by done; naive_solver].
  - rewrite lookup_insert_ne by done. naive_solver.
Qed.

Lemma page_of_new_dir TT P r k : TT !! P = None → page_of (<[P := ∅]> TT) r = Some k ↔ r = (P, None) ∧ k = P ∨ page_of TT r = Some k.
Proof.
  intros HP. destruct r as [Q o]. unfold page_of. cbn [fst snd]. destruct (decide (Q = P)) as [->|].
  - rewrite lookup_insert_eq, HP. cbn. destruct o as [c|]; [rewrite lookup_empty|]; naive_solver.
  - rewrite lookup_insert_ne by done. naive_solver.
Qed.

Lemma page_of_delete TT P r j : page_of (delete P TT) r = Some j → r.1 ≠ P ∧ page_of TT r = Some j.
Proof.
  unfold page_of. destruct (decide (r.1 = P)) as [->|]; [by rewrite lookup_delete_eq|by rewrite lookup_delete_ne].
Qed.

Section struct.
Context (kern : Z → Z).

Definition dir_word (T : tables) (d e : Z) : Prop :=
  if decide (d < 768) then match T !! d with Some j => pde_for e j | None => e = 0 end else e = kern d.

Definition dir_words (m : gmap Z Z) (P : Z) (T : tables) : Prop :=
  ∀ d, 0 ≤ d < 1024 → ∃ e, ent m P d = Some e ∧ dir_word T d e.

Definition table_words (m : gmap Z Z) (j d : Z) (A : mapping) : Prop :=
  ∀ t, 0 ≤ t < 1024 → ∃ e, ent m j t = Some e ∧ pte_ok e ∧ decode e = A !! (1024 * d + t).

Record struct (m : gmap Z Z) (TT : gmap Z tables) (D : gmap Z mapping) : Prop := {
  st_dom P : is_Some (TT !! P) ↔ is_Some (D !! P);
  st_idx P T d j : TT !! P = Some T → T !! d = Some j → 0 ≤ d < 768;
  st_dir P T : TT !! P = Some T → dir_words m P T;
  st_tab P T A d j : TT !! P = Some T → D !! P = Some A → T !! d = Some j → table_words m j d A;
  st_map P T A v x : TT !! P = Some T → D !! P = Some A → A !! v = Some x → is_Some (T !! (v / 1024));
  st_inj r r' j : page_of TT r = Some j → page_of TT r' = Some j → r = r'
}.

Lemma dir_words_agree m m' P T : agree m m' P → dir_words m P T → dir_words m' P T.
Proof. intros Ha H d Hd. destruct (H d Hd) as (e & He & Hw). exists e. by rewrite (ent_agree m m'). Qed.

Lemma table_words_agree m m' j d A : agree m m' j → table_words m j d A → table_words m' j d A.
Proof. intros Ha H t Ht. destruct (H t Ht) as (e & He & Hw). exists e. by rewrite (ent_agree m m'). Qed.

(** Stores outside the pages of the tables *)
Lemma struct_agree m m' TT D : (∀ r j, page_of TT r = Some j → agree m m' j) → struct m TT D → struct m' TT D.
Proof.
  intros Ha [H1 H2 H3 H4 H5 H6]. split; try done.
  - intros P T HP. apply (dir_words_agree m m'); [by eapply Ha, page_of_dir|by apply H3].
  - intros P T A d j HT HA Hj. apply (table_words_agree m m'); [by eapply Ha, page_of_table|by eapply H4].
Qed.

(** A store into a table *)
Lemma struct_set_pte m TT D P T A v j e :
  struct m TT D → TT !! P = Some T → D !! P = Some A → T !! (v / 1024) = Some j → pte_ok e →
  struct (set_word (j * 4096 + 4 * (v mod 1024)) e m) TT (<[P := partial_alter (λ _, decode e) v A]> D).
Proof.
  intros [H1 H2 H3 H4 H5 H6] HT HA Hj He. assert (0 ≤ v mod 1024 < 1024) as Hv by lia. split; [|done| | | |done].
  - intros Q. rewrite H1. destruct (decide (Q = P)) as [->|]; [rewrite lookup_insert_eq, HA; naive_solver|by rewrite lookup_insert_ne].
  - intros Q T' HQ. apply (dir_words_agree m); [|by apply H3]. apply agree_set; [done|]. intros ->.
    pose proof (H6 _ _ _ (page_of_dir _ _ _ HQ) (page_of_table _ _ _ _ _ HT Hj)) as E. discriminate E.
  - intros Q T' A' d k HQ HA' Hk. destruct (decide ((Q, Some d) = (P, Some (v / 1024)))) as [E|Hne].
    + injection E as -> ->. rewrite lookup_insert_eq in HA'. injection HA' as <-. assert (T' = T) as -> by congruence.
      assert (k = j) as -> by congruence. intros t Ht. rewrite ent_set by (done || lia || apply He).
      destruct (H4 P T A _ j HT HA Hj t Ht) as (x & Hx & Hok & Hdec). case_decide as Hd.
      * exists e. destruct Hd as [_ ->]. replace (1024 * (v / 1024) + v mod 1024) with v by lia. by rewrite lookup_partial_alter_eq.
      * exists x. rewrite lookup_partial_alter_ne by lia. done.
    + assert (k ≠ j) as Hkj by (intros ->; apply Hne; by eapply H6; [eapply page_of_table|eapply page_of_table]).
      apply (table_words_agree m); [by apply agree_set|]. destruct (decide (Q = P)) as [->|HQP].
      * rewrite lookup_insert_eq in HA'. injection HA' as <-. intros t Ht. destruct (H4 P T' A d k HQ HA Hk t Ht) as (x & ?).
        exists x. rewrite lookup_partial_alter_ne; [done|]. intros ->. apply Hne. do 2 f_equal. lia.
      * rewrite lookup_insert_ne in HA' by done. by eapply H4.
  - intros Q T' A' u x HQ HA' Hx. destruct (decide (Q = P)) as [->|HQP].
    + rewrite lookup_insert_eq in HA'. injection HA' as <-. assert (T' = T) as -> by congruence.
      destruct (decide (u = v)) as [->|]; [by exists j|]. rewrite lookup_partial_alter_ne in Hx by done. by eapply H5.
    + rewrite lookup_insert_ne in HA' by done. by eapply H5.
Qed.

(** A store into a directory: the flags of an entry *)
Lemma struct_set_pde m TT D P T d e :
  struct m TT D → TT !! P = Some T → 0 ≤ d < 768 → u32 e → dir_word T d e →
  struct (set_word (P * 4096 + 4 * d) e m) TT D.
Proof.
  intros [H1 H2 H3 H4 H5 H6] HT Hd He Hw. split; [done|done| | |done|done].
  - intros Q T' HQ. destruct (decide (Q = P)) as [->|]; [|by apply (dir_words_agree m); [apply agree_set; [lia|done]|apply H3]].
    assert (T' = T) as -> by congruence. intros c Hc. rewrite ent_set by (done || lia).
    case_decide as Hcd; [destruct Hcd as [_ ->]; by exists e|by apply H3].
  - intros Q T' A c k HQ HA Hk. apply (table_words_agree m); [|by eapply H4]. apply agree_set; [lia|]. intros ->.
    pose proof (H6 _ _ _ (page_of_dir _ _ _ HT) (page_of_table _ _ _ _ _ HQ Hk)) as E. discriminate E.
Qed.

(** A new, empty table *)
Lemma struct_new_table m TT D P T d j e :
  struct m TT D → TT !! P = Some T → 0 ≤ d < 768 → T !! d = None → (∀ r, page_of TT r ≠ Some j) →
  (∀ t, 0 ≤ t < 1024 → ent m j t = Some 0) → pde_for e j →
  struct (set_word (P * 4096 + 4 * d) e m) (<[P := <[d := j]> T]> TT) D.
Proof.
  intros [H1 H2 H3 H4 H5 H6] HT Hd Hnone Hfresh Hz He.
  assert (u32 e) as Hu by apply He. assert (P ≠ j) as HPj by (intros ->; by eapply Hfresh, page_of_dir).
  pose proof (λ r k, page_of_new_table TT P T d j r k HT Hnone) as Hpage.
  split.
  - intros Q. rewrite <- H1. destruct (decide (Q = P)) as [->|]; [rewrite lookup_insert_eq, HT; naive_solver|by rewrite lookup_insert_ne].
  - intros Q T' c k HQ Hk. destruct (decide (Q = P)) as [->|]; [|rewrite lookup_insert_ne in HQ by done; by eapply H2].
    rewrite lookup_insert_eq in HQ. injection HQ as <-. destruct (decide (c = d)) as [->|]; [done|].
    rewrite lookup_insert_ne in Hk by done. by eapply H2.
  - intros Q T' HQ. destruct (decide (Q = P)) as [->|].
    + rewrite lookup_insert_eq in HQ. injection HQ as <-. intros c Hc. rewrite ent_set by (done || lia). unfold dir_word.
      case_decide as Hcd; [destruct Hcd as [_ ->]; exists e; rewrite decide_True by lia; by rewrite lookup_insert_eq|].
      destruct (H3 P T HT c Hc) as (x & Hx & Hw). exists x. split; [done|]. unfold dir_word in Hw. case_decide; [|done].
      rewrite lookup_insert_ne by (intros ->; by apply Hcd). done.
    + rewrite lookup_insert_ne in HQ by done. apply (dir_words_agree m); [apply agree_set; [lia|done]|by apply H3].
  - intros Q T' A c k HQ HA Hk. destruct (proj1 (Hpage (Q, Some c) k)) as [[E ->]|[Hne E]]; [by eapply page_of_table| |].
    + injection E as -> ->. rewrite lookup_insert_eq in HQ. injection HQ as <-. intros t Ht. exists 0.
      rewrite (ent_agree m); [|apply agree_set; [lia|congruence]|done]. split_and!; [by apply Hz|done|].
      destruct (A !! (1024 * d + t)) as [x|] eqn:Hx; [|done]. exfalso. apply (H5 P T A _ x HT HA) in Hx as [k Hk'].
      replace ((1024 * d + t) / 1024) with d in Hk' by lia. congruence.
    + unfold page_of in E. cbn in E. destruct (TT !! Q) as [T0|] eqn:HQ0; [|done]. cbn in E.
      apply (table_words_agree m); [|by eapply H4]. apply agree_set; [lia|]. intros ->.
      pose proof (H6 _ _ _ (page_of_dir _ _ _ HT) (page_of_table _ _ _ _ _ HQ0 E)) as E'. discriminate E'.
  - intros Q T' A v x HQ HA Hx. destruct (decide (Q = P)) as [->|]; [|rewrite lookup_insert_ne in HQ by done; by eapply H5].
    rewrite lookup_insert_eq in HQ. injection HQ as <-. apply lookup_insert_is_Some. destruct (decide (d = v / 1024)); [by left|right].
    split; [done|by eapply H5].
  - intros r r' k Hr Hr'. apply Hpage in Hr as [[-> ->]|[? Hr]], Hr' as [[-> E]|[? Hr']]; [done|by apply Hfresh in Hr'|subst; by apply Hfresh in Hr|by eapply H6].
Qed.

(** A new directory *)
Lemma struct_new_dir m TT D P :
  struct m TT D → (∀ r, page_of TT r ≠ Some P) → dir_words m P ∅ → struct m (<[P := ∅]> TT) (<[P := ∅]> D).
Proof.
  intros [H1 H2 H3 H4 H5 H6] Hfresh Hw.
  assert (TT !! P = None) as HP by (destruct (TT !! P) eqn:E; [|done]; exfalso; by eapply Hfresh, page_of_dir).
  pose proof (λ r k, page_of_new_dir TT P r k HP) as Hpage.
  split.
  - intros Q. destruct (decide (Q = P)) as [->|]; [rewrite !lookup_insert_eq; naive_solver|by rewrite !lookup_insert_ne].
  - intros Q T d j HQ Hj. destruct (decide (Q = P)) as [->|]; [|rewrite lookup_insert_ne in HQ by done; by eapply H2].
    rewrite lookup_insert_eq in HQ. injection HQ as <-. by rewrite lookup_empty in Hj.
  - intros Q T HQ. destruct (decide (Q = P)) as [->|]; [|rewrite lookup_insert_ne in HQ by done; by eapply H3].
    rewrite lookup_insert_eq in HQ. by injection HQ as <-.
  - intros Q T A d j HQ HA Hj. destruct (decide (Q = P)) as [->|]; [|rewrite lookup_insert_ne in HQ by done; rewrite lookup_insert_ne in HA by done; by eapply H4].
    rewrite lookup_insert_eq in HQ. injection HQ as <-. by rewrite lookup_empty in Hj.
  - intros Q T A v x HQ HA Hx. destruct (decide (Q = P)) as [->|]; [|rewrite lookup_insert_ne in HQ by done; rewrite lookup_insert_ne in HA by done; by eapply H5].
    rewrite lookup_insert_eq in HA. injection HA as <-. by rewrite lookup_empty in Hx.
  - intros r r' k Hr Hr'. apply Hpage in Hr as [[-> ->]|Hr], Hr' as [[-> E]|Hr']; [done|by apply Hfresh in Hr'|subst; by apply Hfresh in Hr|by eapply H6].
Qed.

(** A directory is given up. *)
Lemma struct_delete m TT D P : struct m TT D → struct m (delete P TT) (delete P D).
Proof.
  intros [H1 H2 H3 H4 H5 H6].
  assert (∀ {X} (M : gmap Z X) Q x, delete P M !! Q = Some x → M !! Q = Some x) as Hd by (intros X M Q x [_ ?]%lookup_delete_Some; done).
  split; eauto.
  - intros Q. destruct (decide (Q = P)) as [->|]; [rewrite !lookup_delete_eq; naive_solver|by rewrite !lookup_delete_ne].
  - intros r r' j [_ ?]%page_of_delete [_ ?]%page_of_delete. by eapply H6.
Qed.

End struct.
