(* ===== verification/KPageDirInv.v ===== *)
(** * Pintos: address spaces

    The abstract view of the page directories: a [world] has one map from page numbers
    to entries for each directory, the frames of the user pool that no directory maps,
    the active directory and the bytes of the frames; it knows neither tables nor
    cached translations.  [rep] relates the machine to it, and accounts for every page
    of both pools. *)

From stdpp Require Import base tactics list gmap.
From Stdlib Require Import ZArith Lia.
From S2P Require Import Prelude Bitmap BitmapProps KMalloc KMallocProps KPalloc KPallocMain KPageDir KPageDirProps.

Local Open Scope Z_scope.
#[local] Ltac Zify.zify_post_hook ::= Z.to_euclidean_division_equations.

Local Abbreviation tables := (gmap Z Z).
Local Abbreviation mapping := (gmap Z entry).

(** ** Worlds *)

Record world := World {
  dirs : gmap Z mapping;
  owned : gset Z;
  active : option Z;
  bytes : gmap Z Z
}.

Definition entry_at (D : gmap Z mapping) (P v : Z) : option entry := A ← D !! P; A !! v.

Definition mapped (D : gmap Z mapping) (f : Z) : Prop := ∃ P v x, entry_at D P v = Some x ∧ frame x = f.

(** The frame is in use. *)
Definition held (w : world) (f : Z) : Prop := f ∈ owned w ∨ mapped (dirs w) f.

(** No frame is mapped twice, or both mapped and owned by the kernel. *)
Definition excl (D : gmap Z mapping) (O : gset Z) : Prop :=
  (∀ P v x P' v' x', entry_at D P v = Some x → entry_at D P' v' = Some x' → frame x = frame x' → P = P' ∧ v = v') ∧
  (∀ P v x, entry_at D P v = Some x → frame x ∉ O).

Lemma entry_at_insert D P A v o P' v' : D !! P = Some A →
  entry_at (<[P := partial_alter (λ _, o) v A]> D) P' v' = if decide (P' = P ∧ v' = v) then o else entry_at D P' v'.
Proof.
  intros HA. unfold entry_at. destruct (decide (P' = P)) as [->|].
  - rewrite lookup_insert_eq, HA. cbn [mbind option_bind]. destruct (decide (v' = v)) as [->|].
    + rewrite lookup_partial_alter_eq, decide_True by done. done.
    + rewrite lookup_partial_alter_ne, decide_False by naive_solver. done.
  - rewrite lookup_insert_ne, decide_False by naive_solver. done.
Qed.

Lemma entry_at_empty D P P' v : D !! P = None → entry_at (<[P := ∅]> D) P' v = entry_at D P' v.
Proof.
  intros HP. unfold entry_at. destruct (decide (P' = P)) as [->|]; [rewrite lookup_insert_eq, HP; cbn; apply lookup_empty|].
  by rewrite lookup_insert_ne.
Qed.

Lemma entry_at_delete D P P' v x : entry_at (delete P D) P' v = Some x ↔ P' ≠ P ∧ entry_at D P' v = Some x.
Proof.
  unfold entry_at. destruct (decide (P' = P)) as [->|]; [rewrite lookup_delete_eq; naive_solver|rewrite lookup_delete_ne by done; naive_solver].
Qed.

(** Every cached translation is one that the active directory gives, with its flags noted. *)
Definition tlb_ok (a : option Z) (D : gmap Z mapping) (tl : gmap Z cached) : Prop :=
  ∀ v t, 0 ≤ v < 786432 → tl !! v = Some t → ∃ P x, a = Some P ∧ entry_at D P v = Some x ∧
    t_page t = frame x ∧ t_write t = writable x ∧ accessed x = true ∧ (t_dirty t = true → dirty x = true).

Section inv.
Context (kern : gmap Z Z) (ram I : Z) (others : Z → Prop).

(** ** The pools *)

(** [K] and [F] are the pages of the two pools in use. *)
Record pools (m : pmem) (K F : Z → Prop) : Prop := {
  po_wf : pmem_wf m;
  po_range user j : in_pool (get_pool user m) j → WINDOW ≤ j < WINDOW + ram;
  po_k j : K j ↔ in_pool (kernel_pool m) j ∧ is_used (kernel_pool m) j = true;
  po_f j : F j ↔ in_pool (user_pool m) j ∧ is_used (user_pool m) j = true
}.

Context (Hram : ram < 262144).

Lemma pools_ext m K K' F F' : pools m K F → (∀ j, K j ↔ K' j) → (∀ j, F j ↔ F' j) → pools m K' F'.
Proof. intros [H1 H2 H3 H4] HK HF. split; [done|done| |]; intros j; [rewrite <- HK|rewrite <- HF]; done. Qed.

Lemma pools_memory f m K F : pools m K F → pools (set_memory f m) K F.
Proof. intros [H1 H2 H3 H4]. split; [by apply pmem_wf_memory|intros []; [apply (H2 true)|apply (H2 false)]|done|done]. Qed.

Lemma pools_k_range m K F j : pools m K F → K j → WINDOW ≤ j < 2 ^ 20 - 1.
Proof. clear I others. intros H Hj. apply (po_k _ _ _ H) in Hj as [Hj _]. apply (po_range _ _ _ H false) in Hj. unfold WINDOW in *. lia. Qed.

Lemma pools_f_range m K F j : pools m K F → F j → WINDOW ≤ j < 2 ^ 20 - 1.
Proof. clear I others. intros H Hj. apply (po_f _ _ _ H) in Hj as [Hj _]. apply (po_range _ _ _ H true) in Hj. unfold WINDOW in *. lia. Qed.

Lemma pools_apart m K F j : pools m K F → K j → F j → False.
Proof. intros H [Hk _]%(po_k _ _ _ H) [Hf _]%(po_f _ _ _ H). by eapply (pm_apart _ (po_wf _ _ _ H)). Qed.

(** The pages in use of the pool that [user] names, after a change *)
Definition add (X : Z → Prop) (j : Z) (i : Z) : Prop := X i ∨ i = j.
Definition sub (X : Z → Prop) (j : Z) (i : Z) : Prop := X i ∧ i ≠ j.

Lemma pools_marks user m p' K F j (v : bool) (X : Z → Prop) :
  pools m K F → marks (get_pool user m) p' j 1 v → bwf (used_map p') → in_pool (get_pool user m) j →
  (∀ i, X i ↔ if v then add (if user then F else K) j i else sub (if user then F else K) j i) →
  pools (set_pool user p' m) (if user then K else X) (if user then X else F).
Proof.
  clear kern I others Hram. intros [H1 H2 H3 H4] Hm Hb Hj HX. pose proof (marks_pmem user p' j 1 v m H1 Hm Hb) as Hwf.
  assert (∀ i, in_pool p' i ↔ in_pool (get_pool user m) i) as Hin by (intros i; apply (marks_in_pool _ _ _ _ _ i Hm)).
  assert (∀ i, X i ↔ in_pool p' i ∧ is_used p' i = true) as HX'.
  { intros i. rewrite HX, Hin. destruct Hm as (_ & _ & _ & Hm). unfold add, sub.
    assert ((if user then F else K) i ↔ in_pool (get_pool user m) i ∧ is_used (get_pool user m) i = true) as HU by (destruct user; cbn; auto).
    destruct (decide (in_pool (get_pool user m) i)) as [Hi|Hi].
    - rewrite Hm by apply Hi. assert (j ≤ i < j + 1 ↔ i = j) as Hij by lia. destruct v; case_decide as Hd; rewrite Hij in Hd; rewrite HU; clear - Hd Hi Hj; intuition congruence.
    - destruct v; rewrite HU; [|tauto]. split; [intros [?| ->]; tauto|tauto]. }
  destruct user; cbn in *; split; cbn; try done; intros []; cbn; intros i Hi; try (by apply (H2 true)); try (by apply (H2 false));
    apply Hin in Hi; [by apply (H2 true)|by apply (H2 false)].
Qed.

Definition zero_page (flags a : Z) (m : gmap Z Z) : gmap Z Z :=
  if flagged flags PAL_ZERO then fill a 4096 (Some 0) m else m.

Lemma wp_get_page t flags K F (Q : option Z → mach → Prop) s :
  let user := flagged flags PAL_USER in
  pools (pm s) K F → flagged flags PAL_ASSERT = false →
  (no_room (get_pool user (pm s)) 1 → Q None s) →
  (∀ j m', ¬ (if user then F else K) j → in_pool (get_pool user (pm s)) j →
     pools m' (if user then K else add K j) (if user then add F j else F) →
     memory m' = zero_page flags (j * 4096) (mem s) → Q (Some (j * 4096)) (Mach m' (cr3 s) (tlb s))) →
  wp t (get_page flags) Q s.
Proof.
  clear kern I others Hram. intros user Hp Ha HN HS. unfold get_page, pal. apply wp_bind, wp_get, wp_bind. unfold palloc_get_page.
  destruct (get_multiple_spec flags 1 (pm s) (po_wf _ _ _ Hp) ltac:(lia)) as [(j & p' & Hff & Hmk & Hb & E)|[Hno E]]; fold user in E.
  - eapply wp_assume_some; [exact E|]. apply wp_bind, wp_modify, wp_ret. destruct Hff as (Hj & _ & Hun & _).
    assert (¬ (if user then F else K) j) as Hnot.
    { specialize (Hun j ltac:(lia)). fold user in Hun. destruct user; [rewrite (po_f _ _ _ Hp)|rewrite (po_k _ _ _ Hp)]; cbn in Hun; intros [_ ?]; congruence. }
    apply HS; [done|done| |].
    + pose proof (pools_marks user (pm s) p' K F j true (add (if user then F else K) j) Hp Hmk Hb Hj ltac:(done)) as Hp'.
      unfold zeroed. destruct (flagged flags PAL_ZERO); [apply pools_memory|]; by destruct user.
    + unfold zeroed, zero_page, mem. destruct (flagged flags PAL_ZERO); by destruct user.
  - rewrite Ha in E. eapply wp_assume_some; [exact E|]. apply wp_bind, wp_modify, wp_ret. fold user in Hno. destruct s. by apply HN.
Qed.

Lemma wp_free_page t (user : bool) j K F (Q : unit → mach → Prop) s :
  pools (pm s) K F → (if user then F else K) j →
  (∀ m', pools m' (if user then K else sub K j) (if user then sub F j else F) →
     memory m' = fill (j * 4096) 4096 (Some 0xcc) (mem s) → Q tt (Mach m' (cr3 s) (tlb s))) →
  wp t (free_page (j * 4096)) Q s.
Proof.
  clear kern I others Hram. intros Hp Hj HQ. unfold free_page, pal. apply wp_bind, wp_get, wp_bind. unfold palloc_free_page.
  assert (in_pool (get_pool user (pm s)) j ∧ is_used (get_pool user (pm s)) j = true) as [Hin Hu].
  { destruct user; [by apply (po_f _ _ _ Hp)|by apply (po_k _ _ _ Hp)]. }
  destruct (free_multiple_spec user j 1 (pm s) (po_wf _ _ _ Hp) ltac:(lia) Hin) as (p' & Hmk & Hb & E).
  { by replace (j + 1 - 1) with j by lia. }
  { intros i Hi. by replace i with j by lia. }
  rewrite E. cbn [mbind option_bind]. eapply wp_assume_some; [done|]. apply wp_bind, wp_modify, wp_ret. apply HQ.
  - pose proof (pools_marks user (pm s) p' K F j false (sub (if user then F else K) j) Hp Hmk Hb Hin ltac:(done)) as Hp'.
    apply (pools_memory (fill (j * 4096) 4096 (Some 204))) in Hp'. by destruct user.
  - unfold mem. by destruct user.
Qed.

(** ** The machine and the world *)

(** The entries of the kernel's directory, in the page [I] of the memory [kern] *)
Definition kwords (d : Z) : Z := default 0 (ent kern I d).

(** The pages of the rest of the kernel hold what they hold in [kern], and the directory
    of the kernel maps no user page. *)
Definition init_words (m : gmap Z Z) : Prop :=
  (∀ z, others (z / 4096) → m !! z = kern !! z) ∧
  ∀ d, 0 ≤ d < 1024 → ent m I d = Some (if decide (d < 768) then 0 else kwords d).

(** The pages of directories and tables, and those that the rest of the kernel uses *)
Definition kernel_use (TT : gmap Z tables) (j : Z) : Prop := others j ∨ ∃ r, page_of TT r = Some j.

Record rep (s : mach) (w : world) (TT : gmap Z tables) : Prop := {
  rp_struct : struct kwords (mem s) TT (dirs w);
  rp_pools : pools (pm s) (kernel_use TT) (held w);
  rp_own r j : page_of TT r = Some j → ¬ others j;
  rp_init : others I ∧ init_words (mem s);
  rp_excl : excl (dirs w) (owned w);
  rp_cr3 : cr3 s = (default I (active w) - WINDOW) * 4096;
  rp_act P : active w = Some P → is_Some (dirs w !! P);
  rp_tlb : tlb_ok (active w) (dirs w) (tlb s);
  rp_bytes z : held w (z / 4096) → mem s !! z = bytes w !! z
}.

Definition inv (s : mach) (w : world) : Prop := ∃ TT, rep s w TT.

Section rep.
Context {s : mach} {w : world} {TT : gmap Z tables} (R : rep s w TT).

Lemma rep_page r j : page_of TT r = Some j → WINDOW ≤ j < 2 ^ 20 - 1.
Proof using R Hram. intros Hr. apply (pools_k_range _ _ _ _ (rp_pools _ _ _ R)). right. eauto. Qed.

Lemma rep_frame f : held w f → WINDOW ≤ f < 2 ^ 20 - 1.
Proof using R Hram. apply (pools_f_range _ _ _ _ (rp_pools _ _ _ R)). Qed.

Lemma rep_I : WINDOW ≤ I < 2 ^ 20 - 1.
Proof using R Hram. apply (pools_k_range _ _ _ _ (rp_pools _ _ _ R)). left. apply (rp_init _ _ _ R). Qed.

(** Pages of tables, the directory of the kernel, and frames are different pages. *)
Lemma rep_page_frame r j f : page_of TT r = Some j → held w f → j ≠ f.
Proof using R. intros Hr Hf ->. eapply (pools_apart _ _ _ _ (rp_pools _ _ _ R)); [right|]; eauto. Qed.

Lemma rep_I_frame f : held w f → I ≠ f.
Proof using R. intros Hf <-. eapply (pools_apart _ _ _ _ (rp_pools _ _ _ R)); [left; apply (rp_init _ _ _ R)|done]. Qed.

Lemma rep_others_frame f : held w f → ¬ others f.
Proof using R. intros Hf Ho. eapply (pools_apart _ _ _ _ (rp_pools _ _ _ R)); [by left|done]. Qed.

Lemma rep_I_page r : page_of TT r ≠ Some I.
Proof using R. intros Hr. eapply (rp_own _ _ _ R); [done|apply (rp_init _ _ _ R)]. Qed.

Lemma rep_dir P A : dirs w !! P = Some A → ∃ T, TT !! P = Some T.
Proof using R. intros HA. apply (st_dom _ _ _ _ (rp_struct _ _ _ R)). eauto. Qed.

Lemma rep_range P v x : entry_at (dirs w) P v = Some x → 0 ≤ v < 786432.
Proof using R.
  unfold entry_at. destruct (dirs w !! P) as [A|] eqn:HA; [|done]. cbn. intros Hx.
  destruct (rep_dir P A HA) as [T HT]. destruct (st_map _ _ _ _ (rp_struct _ _ _ R) P T A v x HT HA Hx) as [j Hj].
  pose proof (st_idx _ _ _ _ (rp_struct _ _ _ R) P T _ j HT Hj). lia.
Qed.

End rep.

(** ** Addresses *)

Lemma pd_no_page va : 0 ≤ va < 2 ^ 32 → pd_no va = va / 4096 / 1024.
Proof. clear. intros H. unfold pd_no. rewrite Z.shiftr_div_pow2 by lia. change (2 ^ 22) with 4194304. lia. Qed.

Lemma pt_no_page va : 0 ≤ va < 2 ^ 32 → pt_no va = (va / 4096) mod 1024.
Proof.
  clear. intros H. unfold pt_no. change PTMASK with (Z.shiftl (Z.ones 10) 12). rewrite Z.shiftr_land.
  rewrite Z.shiftr_shiftl_l by lia. change (Z.shiftl (Z.ones 10) (12 - 12)) with (Z.ones 10).
  rewrite Z.land_ones, Z.shiftr_div_pow2 by lia. done.
Qed.

(** ** Looking up entries *)

Section lookup.
Context {s : mach} {w : world} {TT : gmap Z tables} (R : rep s w TT).

Lemma wp_load t a e (Q : Z → mach → Prop) s' : word (mem s') a = Some e → Q e s' → wp t (load a) Q s'.
Proof. clear. intros He HQ. unfold load. apply wp_bind, wp_get. by eapply wp_assume_some. Qed.

(** The directory entry of a user page *)
Lemma rep_pde P T v : TT !! P = Some T → 0 ≤ v < 786432 →
  ∃ e, ent (mem s) P (v / 1024) = Some e ∧ match T !! (v / 1024) with Some j => pde_for e j | None => e = 0 end.
Proof using R.
  intros HT Hv. destruct (st_dir _ _ _ _ (rp_struct _ _ _ R) P T HT (v / 1024) ltac:(lia)) as (e & He & Hw).
  exists e. split; [done|]. unfold dir_word in Hw. by rewrite decide_True in Hw by lia.
Qed.

Lemma rep_pte P T A v j : TT !! P = Some T → dirs w !! P = Some A → T !! (v / 1024) = Some j →
  ∃ e, ent (mem s) j (v mod 1024) = Some e ∧ pte_ok e ∧ decode e = A !! v.
Proof using R.
  intros HT HA Hj. destruct (st_tab _ _ _ _ (rp_struct _ _ _ R) P T A _ j HT HA Hj (v mod 1024) ltac:(lia)) as (e & He & Hok & Hd).
  exists e. replace (1024 * (v / 1024) + v mod 1024) with v in Hd by lia. done.
Qed.

Lemma pde_addr P T va : TT !! P = Some T → 0 ≤ va < PHYS_BASE → wrap_u32 (P * 4096 + 4 * pd_no va) = P * 4096 + 4 * (va / 4096 / 1024).
Proof using R Hram.
  intros HT Hva. pose proof (rep_page R _ _ (page_of_dir _ _ _ HT)) as HP. unfold PHYS_BASE, WINDOW in *.
  rewrite pd_no_page by lia. apply wrap_small. lia.
Qed.

Lemma pte_addr j va : WINDOW ≤ j < 2 ^ 20 - 1 → 0 ≤ va < PHYS_BASE → wrap_u32 (j * 4096 + 4 * pt_no va) = j * 4096 + 4 * (va / 4096 mod 1024).
Proof. clear. intros Hj Hva. unfold PHYS_BASE, WINDOW in *. rewrite pt_no_page by lia. apply wrap_small. lia. Qed.

(** Without creating tables *)
Lemma wp_lookup_page t P T va (Q : option Z → mach → Prop) :
  TT !! P = Some T → 0 ≤ va < PHYS_BASE →
  (T !! (va / 4096 / 1024) = None → Q None s) →
  (∀ j, T !! (va / 4096 / 1024) = Some j → Q (Some (j * 4096 + 4 * (va / 4096 mod 1024))) s) →
  wp t (lookup_page (P * 4096) va false) Q s.
Proof using R Hram.
  intros HT Hva HN HS. pose proof (rep_page R _ _ (page_of_dir _ _ _ HT)) as HP. unfold lookup_page.
  apply wp_bind, wp_check; [rewrite bool_decide_true; [done|unfold WINDOW in *; lia]|]. apply wp_bind, wp_check; [done|].
  rewrite (pde_addr P T va HT Hva). destruct (rep_pde P T (va / 4096) HT) as (e & He & Hw); [unfold PHYS_BASE in *; lia|].
  apply wp_bind. apply (wp_load t _ e); [done|]. apply wp_bind. destruct (T !! (va / 4096 / 1024)) as [j|] eqn:Hj.
  - rewrite bool_decide_false by (by eapply pde_for_nonzero). apply wp_ret, wp_bind. apply (wp_load t _ e); [done|].
    pose proof (rep_page R _ _ (page_of_table _ _ _ _ _ HT Hj)) as Hjr.
    apply wp_bind. eapply wp_assume_some; [apply pde_get_pt_page; [done|unfold WINDOW in *; lia]|].
    apply wp_ret. rewrite pte_addr by done. by apply HS.
  - rewrite bool_decide_true by done. apply wp_ret, wp_ret. by apply HN.
Qed.

End lookup.

(** ** Changes of memory *)

Lemma init_words_touch m m' j : (∀ k, k ≠ j → agree m m' k) → others I → ¬ others j → init_words m → init_words m'.
Proof.
  clear. intros Ha HI Hj [H1 H2]. assert (∀ k, others k → agree m m' k) as Ho by (intros k Hk; apply Ha; by intros ->).
  split; [intros z Hz; rewrite (Ho (z / 4096)) by done; auto|]. intros d Hd. rewrite (ent_agree m m') by auto. auto.
Qed.

Lemma bytes_touch w m m' j : (∀ k, k ≠ j → agree m m' k) → ¬ held w j →
  (∀ z, held w (z / 4096) → m !! z = bytes w !! z) → ∀ z, held w (z / 4096) → m' !! z = bytes w !! z.
Proof. clear. intros Ha Hj H z Hz. rewrite (Ha (z / 4096)); [auto| |done]. by intros <-. Qed.

(** A new table for directory [P] *)
Lemma rep_new_table s w TT P T d j m' e :
  rep s w TT → TT !! P = Some T → 0 ≤ d < 768 → T !! d = None → ¬ kernel_use TT j →
  pools m' (add (kernel_use TT) j) (held w) → memory m' = fill (j * 4096) 4096 (Some 0) (mem s) → pde_for e j →
  rep (Mach (set_memory (set_word (P * 4096 + 4 * d) e) m') (cr3 s) (tlb s)) w (<[P := <[d := j]> T]> TT).
Proof using Type.
  intros R HT Hd Hnone Hj Hp Hm He. pose proof R as [H1 H2 H3 [H4 H5] H6 H7 H8 H9 H10].
  assert (∀ r, page_of TT r ≠ Some j) as Hfresh by (intros r Hr; apply Hj; right; eauto).
  assert (¬ others j) as Hno by (intros Ho; apply Hj; by left).
  assert (¬ held w j) as Hnf by (intros Hf; eapply (pools_apart _ _ _ _ Hp); [by right|done]).
  pose proof (page_of_dir _ _ _ HT) as HP.
  assert (¬ held w P) as HPf by (intros Hf; by eapply (rep_page_frame R)).
  assert (∀ k, k ≠ j → agree (mem s) (memory m') k) as Ha1 by (intros k Hk; rewrite Hm; by apply agree_fill).
  assert (∀ k, k ≠ P → agree (memory m') (set_word (P * 4096 + 4 * d) e (memory m')) k) as Ha2 by (intros k Hk; apply agree_set; [lia|done]).
  split; cbn [pm cr3 tlb]; unfold mem; cbn [pm set_memory memory]; try done.
  - apply (struct_new_table kwords); try done.
    + apply (struct_agree kwords (mem s)); [|done]. intros r k Hr. apply Ha1. intros ->. by eapply Hfresh.
    + intros t Ht. rewrite Hm. by apply ent_zero.
  - apply pools_memory. eapply pools_ext; [exact Hp| |done]. intros k. unfold add, kernel_use. split.
    + intros [[?|[r Hr]]| ->]; [by left|right; exists r|right; exists (P, Some d); apply (page_of_new_table TT P T d j _ _ HT Hnone); auto].
      apply (page_of_new_table TT P T d j _ _ HT Hnone). right. split; [|done]. intros ->. unfold page_of in Hr. cbn in Hr.
      rewrite HT in Hr. cbn in Hr. congruence.
    + intros [?|[r Hr]]; [by left; left|]. apply (page_of_new_table TT P T d j _ _ HT Hnone) in Hr as [[_ ->]|[_ Hr]]; [by right|left; right; eauto].
  - intros r k [[_ ->]|[_ Hr]]%(page_of_new_table TT P T d j _ _ HT Hnone); [done|by eapply H3].
  - split; [done|]. apply (init_words_touch (memory m') _ P Ha2 H4); [exact (H3 _ _ HP)|].
    by apply (init_words_touch (mem s) _ j Ha1).
  - apply (bytes_touch w (memory m') _ P Ha2 HPf), (bytes_touch w (mem s) _ j Ha1 Hnf), H10.
Qed.

(** Looking up an entry, creating its table if there is none *)
Lemma wp_lookup_create t s w TT P T va (Q : option Z → mach → Prop) :
  rep s w TT → TT !! P = Some T → 0 ≤ va < PHYS_BASE →
  (no_room (kernel_pool (pm s)) 1 → Q None s) →
  (∀ s' TT' T' j, rep s' w TT' → TT' !! P = Some T' → T' !! (va / 4096 / 1024) = Some j →
     Q (Some (j * 4096 + 4 * (va / 4096 mod 1024))) s') →
  wp t (lookup_page (P * 4096) va true) Q s.
Proof using Hram.
  intros R HT Hva HN HS. pose proof (rep_page R _ _ (page_of_dir _ _ _ HT)) as HP. unfold lookup_page.
  apply wp_bind, wp_check; [rewrite bool_decide_true; [done|unfold WINDOW in *; lia]|].
  apply wp_bind, wp_check; [unfold is_user_vaddr; by rewrite bool_decide_true by lia|].
  rewrite (pde_addr R P T va HT Hva). set (d := va / 4096 / 1024) in *. assert (0 ≤ d < 768) as Hd by (unfold d, PHYS_BASE in *; lia).
  destruct (rep_pde R P T (va / 4096) HT) as (e & He & Hw); [unfold PHYS_BASE in *; lia|]. fold d in He, Hw.
  apply wp_bind. apply (wp_load t _ e); [done|]. apply wp_bind.
  assert (∀ s' TT' T' j e', rep s' w TT' → TT' !! P = Some T' → T' !! d = Some j → ent (mem s') P d = Some e' → pde_for e' j →
    wp t (e ← load (P * 4096 + 4 * d); pt ← assume_some (pde_get_pt e); mret (Some (wrap_u32 (pt + 4 * pt_no va)))) Q s') as Hend.
  { intros s' TT' T' j e' R' HT' Hj' He' Hpde. pose proof (rep_page R' _ _ (page_of_table _ _ _ _ _ HT' Hj')) as Hjr.
    apply wp_bind. apply (wp_load t _ e'); [done|].
    apply wp_bind. eapply wp_assume_some; [apply pde_get_pt_page; [done|unfold WINDOW in *; lia]|].
    apply wp_ret. rewrite pte_addr by done. by eapply HS. }
  destruct (T !! d) as [j|] eqn:Hj.
  - rewrite bool_decide_false by (by eapply pde_for_nonzero). apply wp_ret. by eapply Hend.
  - rewrite bool_decide_true by done. apply wp_bind. apply (wp_get_page t PAL_ZERO _ _ _ s (rp_pools _ _ _ R)); [done|intros Hno; by apply wp_ret, wp_ret, HN|].
    intros j m' Hfree _ Hp Hm. change (flagged PAL_ZERO PAL_USER) with false in Hfree, Hp. cbn match in Hfree, Hp.
    change (zero_page PAL_ZERO (j * 4096) (mem s)) with (fill (j * 4096) 4096 (Some 0) (mem s)) in Hm.
    assert (WINDOW ≤ j < 2 ^ 20 - 1) as Hjr by (apply (pools_k_range _ _ _ _ Hp); by right).
    destruct (pde_create_page j) as (e' & E' & Hpde); [unfold WINDOW in *; lia|].
    apply wp_bind. eapply wp_assume_some; [exact E'|]. apply wp_bind, wp_modify, wp_ret.
    pose proof (rep_new_table s w TT P T d j m' e' R HT Hd Hj Hfree Hp Hm Hpde) as R'.
    eapply Hend; [exact R'|by rewrite lookup_insert_eq|by rewrite lookup_insert_eq| |done].
    unfold mem, ent. cbn [pm set_memory memory]. apply word_set. apply Hpde.
Qed.

(** ** Storing an entry of a table *)

Lemma rep_set_pte s w TT P T A v j e O' tl :
  rep s w TT → TT !! P = Some T → dirs w !! P = Some A → T !! (v / 1024) = Some j → pte_ok e →
  let w' := World (<[P := partial_alter (λ _, decode e) v A]> (dirs w)) O' (active w) (bytes w) in
  (∀ f, held w' f ↔ held w f) → excl (dirs w') O' → tlb_ok (active w) (dirs w') tl →
  rep (Mach (set_memory (set_word (j * 4096 + 4 * (v mod 1024)) e) (pm s)) (cr3 s) tl) w' TT.
Proof using Type.
  intros R HT HA Hj He w' Hheld Hexcl Htlb. pose proof R as [H1 H2 H3 [H4 H5] H6 H7 H8 H9 H10].
  pose proof (page_of_table _ _ _ _ _ HT Hj) as Hpj.
  assert (∀ k, k ≠ j → agree (mem s) (set_word (j * 4096 + 4 * (v mod 1024)) e (mem s)) k) as Ha by (intros k Hk; apply agree_set; [lia|done]).
  split; cbn [pm cr3 tlb]; unfold mem; cbn [pm set_memory memory]; try done.
  - by apply (struct_set_pte kwords _ _ _ P T A v j e).
  - apply pools_memory. by eapply pools_ext; [exact H2|done|].
  - split; [done|]. apply (init_words_touch (mem s) _ j Ha H4); [exact (H3 _ _ Hpj)|done].
  - intros Q HQ. apply lookup_insert_is_Some'. right. by apply H8.
  - intros z Hz. apply (bytes_touch w (mem s) _ j Ha); [|done|by apply Hheld]. intros Hf. by eapply (rep_page_frame R).
Qed.

(** An unmapped page gets an owned frame. *)
Lemma world_map w P A v x :
  dirs w !! P = Some A → A !! v = None → frame x ∈ owned w → excl (dirs w) (owned w) →
  let D' := <[P := partial_alter (λ _, Some x) v A]> (dirs w) in
  (∀ f, held (World D' (owned w ∖ {[frame x]}) (active w) (bytes w)) f ↔ held w f) ∧ excl D' (owned w ∖ {[frame x]}).
Proof.
  clear. intros HA Hv Hx [He1 He2] D'. pose proof (λ P' v', entry_at_insert (dirs w) P A v (Some x) P' v' HA) as HD. fold D' in HD.
  assert (entry_at (dirs w) P v = None) as Hn by (unfold entry_at; by rewrite HA).
  split.
  - intros f. unfold held, mapped. cbn [owned dirs]. rewrite elem_of_difference, elem_of_singleton. split.
    + intros [[? _]|(P' & v' & y & Hy & <-)]; [by left|]. rewrite HD in Hy. case_decide; [by simplify_eq; left|]. right. by exists P', v', y.
    + intros [?|(P' & v' & y & Hy & <-)].
      * destruct (decide (f = frame x)) as [->|]; [right|by left]. exists P, v, x. by rewrite HD, decide_True.
      * right. exists P', v', y. rewrite HD. case_decide as Hd; [|done]. destruct Hd as [-> ->]. congruence.
  - split.
    + intros P1 v1 x1 P2 v2 x2. rewrite !HD. case_decide as H1; case_decide as H2; intros E1 E2 Ef; simplify_eq; [naive_solver| | |by eapply He1].
      * exfalso. by apply (He2 P2 v2 x2 E2); rewrite <- Ef.
      * exfalso. by apply (He2 P1 v1 x1 E1); rewrite Ef.
    + intros P1 v1 x1. rewrite HD. case_decide; intros E; simplify_eq; [set_solver|]. apply He2 in E. set_solver.
Qed.

(** A mapped page is unmapped. *)
Lemma world_unmap w P A v x :
  dirs w !! P = Some A → A !! v = Some x → excl (dirs w) (owned w) →
  let D' := <[P := partial_alter (λ _, None) v A]> (dirs w) in
  (∀ f, held (World D' (owned w ∪ {[frame x]}) (active w) (bytes w)) f ↔ held w f) ∧ excl D' (owned w ∪ {[frame x]}).
Proof.
  clear. intros HA Hv [He1 He2] D'. pose proof (λ P' v', entry_at_insert (dirs w) P A v None P' v' HA) as HD. fold D' in HD.
  assert (entry_at (dirs w) P v = Some x) as Hn by (unfold entry_at; by rewrite HA).
  split.
  - intros f. unfold held, mapped. cbn [owned dirs]. rewrite elem_of_union, elem_of_singleton. split.
    + intros [[?| ->]|(P' & v' & y & Hy & <-)]; [by left|right; by exists P, v, x|]. rewrite HD in Hy. case_decide; [done|].
      right. by exists P', v', y.
    + intros [?|(P' & v' & y & Hy & <-)]; [by left; left|]. destruct (decide (P' = P ∧ v' = v)) as [[-> ->]|Hne].
      * left. right. congruence.
      * right. exists P', v', y. by rewrite HD, decide_False.
  - split.
    + intros P1 v1 x1 P2 v2 x2. rewrite !HD. do 2 case_decide; try done. by apply He1.
    + intros P1 v1 x1. rewrite HD. case_decide as Hd; [done|]. intros E. rewrite not_elem_of_union, not_elem_of_singleton.
      split; [by eapply He2|]. intros Ef. apply Hd. by eapply He1.
Qed.

(** An entry keeps its frame, or stays absent. *)
Lemma world_same w P A v o :
  dirs w !! P = Some A → frame <$> o = frame <$> A !! v → excl (dirs w) (owned w) →
  let D' := <[P := partial_alter (λ _, o) v A]> (dirs w) in
  (∀ f, held (World D' (owned w) (active w) (bytes w)) f ↔ held w f) ∧ excl D' (owned w).
Proof.
  clear. intros HA Hv [He1 He2] D'. pose proof (λ P' v', entry_at_insert (dirs w) P A v o P' v' HA) as HD. fold D' in HD.
  assert (∀ P' v', frame <$> entry_at D' P' v' = frame <$> entry_at (dirs w) P' v') as Hf.
  { intros P' v'. rewrite HD. case_decide as Hd; [|done]. destruct Hd as [-> ->]. unfold entry_at. by rewrite HA. }
  assert (∀ P' v' x, entry_at D' P' v' = Some x → ∃ y, entry_at (dirs w) P' v' = Some y ∧ frame y = frame x) as H1.
  { intros P' v' x Hx. specialize (Hf P' v'). rewrite Hx in Hf. destruct (entry_at (dirs w) P' v') as [y|]; [|done]. exists y. by injection Hf. }
  assert (∀ P' v' x, entry_at (dirs w) P' v' = Some x → ∃ y, entry_at D' P' v' = Some y ∧ frame y = frame x) as H2.
  { intros P' v' x Hx. specialize (Hf P' v'). rewrite Hx in Hf. destruct (entry_at D' P' v') as [y|]; [|done]. exists y. by injection Hf. }
  split.
  - intros f. unfold held, mapped. cbn [owned dirs]. split; (intros [?|(P' & v' & y & Hy & <-)]; [by left|right]).
    + destruct (H1 _ _ _ Hy) as (x & ? & ?). by exists P', v', x.
    + destruct (H2 _ _ _ Hy) as (x & ? & ?). by exists P', v', x.
  - split.
    + intros P1 v1 x1 P2 v2 x2 E1 E2 Ef. destruct (H1 _ _ _ E1) as (y1 & ? & ?), (H1 _ _ _ E2) as (y2 & ? & ?). eapply He1; [done|done|congruence].
    + intros P1 v1 x1 E1. destruct (H1 _ _ _ E1) as (y1 & ? & <-). by eapply He2.
Qed.

End inv.
