(* ===== verification/KPageDirOps.v ===== *)
(** * Pintos: the operations on page directories

    Each function of [pagedir.c], and each access of a user program, takes the machine
    from one that represents a world to one that represents the world that the
    specification [post] gives. *)

From stdpp Require Import base tactics list gmap.
From Stdlib Require Import ZArith Lia.
From S2P Require Import Prelude Bitmap BitmapProps KMalloc KMallocProps KPalloc KPallocMain KPageDir KPageDirProps KPageDirInv.

Local Open Scope Z_scope.
#[local] Ltac Zify.zify_post_hook ::= Z.to_euclidean_division_equations.

(** ** Worlds after a change *)

Local Abbreviation tables := (gmap Z Z).
Local Abbreviation mapping := (gmap Z entry).

Definition with_dirs (D : gmap Z mapping) (w : world) : world := World D (owned w) (active w) (bytes w).

(** The entry of page [v] of directory [P], if there is one, changes by [g]. *)
Definition change (g : entry → entry) (P v : Z) (w : world) : world := with_dirs (alter (alter g v) P (dirs w)) w.

Lemma alter_as_insert {X} (f : X → X) (M : gmap Z X) k x : M !! k = Some x → alter f k M = <[k := f x]> M.
Proof. intros Hk. unfold alter, map_alter, insert, map_insert. apply partial_alter_ext. intros y <-. by rewrite Hk. Qed.

Lemma change_eq g P v w A : dirs w !! P = Some A →
  change g P v w = World (<[P := partial_alter (λ _, g <$> A !! v) v A]> (dirs w)) (owned w) (active w) (bytes w).
Proof.
  intros HA. unfold change, with_dirs. f_equal. rewrite (alter_as_insert _ _ _ A HA). f_equal.
  unfold alter, map_alter. apply partial_alter_ext. by intros y <-.
Qed.

Lemma change_none g P v w : entry_at (dirs w) P v = None → change g P v w = w.
Proof.
  intros Hn. destruct w as [D O a bs]. unfold change, with_dirs. cbn in *. f_equal. unfold entry_at in Hn.
  destruct (D !! P) as [A|] eqn:HA; [|by apply alter_id; intros A' HA'; congruence].
  apply alter_id. intros A' HA'. assert (A' = A) as -> by congruence. apply alter_id. intros x Hx. cbn in Hn. congruence.
Qed.

Lemma change_id g P v w x : entry_at (dirs w) P v = Some x → g x = x → change g P v w = w.
Proof.
  intros Hx Hg. destruct w as [D O a bs]. unfold change, with_dirs. cbn in *. f_equal. unfold entry_at in Hx.
  destruct (D !! P) as [A|] eqn:HA; [|done]. cbn in Hx.
  apply alter_id. intros A' HA'. assert (A' = A) as -> by congruence. apply alter_id. intros y Hy. congruence.
Qed.

(** The cached translations survive a change of an entry that they do not mention, or
    whose frame, protection and noted flags stay. *)
Lemma tlb_ok_change a D tl P A v o :
  D !! P = Some A → tlb_ok a D tl →
  (∀ x, a = Some P → A !! v = Some x → is_Some (tl !! v) → ∃ y, o = Some y ∧ frame y = frame x ∧ writable y = writable x ∧
     (accessed x = true → accessed y = true) ∧ (dirty x = true → dirty y = true)) →
  tlb_ok a (<[P := partial_alter (λ _, o) v A]> D) tl.
Proof.
  intros HA Ht Ho u t Hu Hut. destruct (Ht u t Hu Hut) as (Q & x & Ha & Hx & Hp & Hw & Hac & Hd).
  destruct (decide (Q = P ∧ u = v)) as [[-> ->]|Hne].
  - unfold entry_at in Hx. rewrite HA in Hx. cbn in Hx. destruct (Ho x Ha Hx) as (y & -> & Hf & Hy & H1 & H2); [eauto|].
    exists P, y. rewrite entry_at_insert, decide_True by done. split_and!; [done|done|congruence|congruence|by apply H1|].
    intros. by apply H2, Hd.
  - exists Q, x. rewrite entry_at_insert, decide_False by done. done.
Qed.

Section ops.
Context (kern : gmap Z Z) (ram I : Z) (others : Z → Prop) (Hram : ram < 262144).

Local Abbreviation rep := (rep kern ram I others).

(** ** Activating and invalidating *)

Lemma wp_activate t (o : option Z) (Q : unit → mach → Prop) s :
  let j := default I o in
  WINDOW ≤ j < 2 ^ 20 → Q tt (Mach (pm s) ((j - WINDOW) * 4096) ∅) →
  wp t (pagedir_activate (I * 4096) (match o with Some P => P * 4096 | None => 0 end)) Q s.
Proof.
  intros j Hj HQ. unfold pagedir_activate.
  assert ((if bool_decide (match o with Some P => P * 4096 | None => 0 end = 0) then I * 4096
    else match o with Some P => P * 4096 | None => 0 end) = j * 4096) as ->.
  { destruct o as [P|]; cbn in j; [rewrite bool_decide_false; [done|subst j; unfold WINDOW in Hj; lia]|by rewrite bool_decide_true]. }
  apply wp_bind. eapply wp_assume_some; [by apply vtop_page|]. by apply wp_modify.
Qed.

(** What is cached after [invalidate_pagedir] *)
Definition flushed (w : world) (P : Z) (tl : gmap Z cached) : gmap Z cached := if decide (active w = Some P) then ∅ else tl.

Lemma wp_invalidate t w P (Q : unit → mach → Prop) s :
  cr3 s = (default I (active w) - WINDOW) * 4096 → WINDOW ≤ default I (active w) < 2 ^ 20 → WINDOW ≤ P < 2 ^ 20 → P ≠ I →
  Q tt (Mach (pm s) (cr3 s) (flushed w P (tlb s))) →
  wp t (invalidate_pagedir (I * 4096) (P * 4096)) Q s.
Proof.
  intros Hc Ha HP HPI HQ. unfold invalidate_pagedir, active_pd. do 2 apply wp_bind. apply wp_get.
  eapply wp_assume_some; [rewrite Hc; by apply ptov_page|]. unfold flushed in HQ. apply wp_when; intros E.
  - apply bool_decide_eq_true in E. assert (active w = Some P) as E'.
    { destruct (active w) as [P'|]; cbn in E; [f_equal; lia|exfalso; apply HPI; cbn in *; lia]. }
    apply (wp_activate t (Some P)); [done|]. rewrite decide_True, Hc, E' in HQ by done. done.
  - apply bool_decide_eq_false in E. rewrite decide_False in HQ by (intros E'; rewrite E' in E; cbn in E; lia). by destruct s.
Qed.

(** After [invalidate_pagedir] no translation of the directory is cached, so that its
    entry may change at will. *)
Lemma tlb_ok_flushed w P A v o tl :
  dirs w !! P = Some A → tlb_ok (active w) (dirs w) tl → tlb_ok (active w) (<[P := partial_alter (λ _, o) v A]> (dirs w)) (flushed w P tl).
Proof.
  intros HA Ht. unfold flushed. case_decide as Hd; [by intros ? ? ? ?%lookup_empty_Some|]. by apply tlb_ok_change.
Qed.

Section rep.
Context {s : mach} {w : world} {TT : gmap Z tables} (R : rep s w TT).

Lemma rep_default : WINDOW ≤ default I (active w) < 2 ^ 20 - 1.
Proof using R Hram.
  destruct (active w) as [P|] eqn:Ha; cbn; [|by apply (rep_I _ _ _ _ Hram R)]. destruct (rp_act _ _ _ _ _ _ _ R P Ha) as [A HA].
  destruct (rep_dir _ _ _ _ R P A HA) as [T HT]. apply (rep_page _ _ _ _ Hram R (P, None)). by eapply page_of_dir.
Qed.

Lemma rep_dir_page P A : dirs w !! P = Some A → ∃ T, TT !! P = Some T ∧ WINDOW ≤ P < 2 ^ 20 - 1 ∧ P ≠ I.
Proof using R Hram.
  intros HA. destruct (rep_dir _ _ _ _ R P A HA) as [T HT]. exists T. pose proof (page_of_dir _ _ _ HT) as HP.
  split_and!; [done|by apply (rep_page _ _ _ _ Hram R (P, None))|by apply (rep_page _ _ _ _ Hram R (P, None))|].
  intros ->. by apply (rep_I_page _ _ _ _ R (I, None)).
Qed.

(** ** Reading entries *)

Lemma wp_pagedir_get_page t P A va (Q : option Z → mach → Prop) :
  dirs w !! P = Some A → 0 ≤ va < PHYS_BASE →
  Q ((λ x, frame x * 4096 + va mod 4096) <$> A !! (va / 4096)) s →
  wp t (pagedir_get_page (P * 4096) va) Q s.
Proof using R Hram.
  intros HA Hva HQ. destruct (rep_dir_page P A HA) as (T & HT & HP & _). unfold pagedir_get_page.
  apply wp_bind, wp_check; [unfold is_user_vaddr; by rewrite bool_decide_true by lia|]. apply wp_bind.
  apply (wp_lookup_page _ _ _ _ Hram R t P T va); [done|done| |].
  - intros Hn. apply wp_ret. destruct (A !! (va / 4096)) as [x|] eqn:Hx; [|done].
    destruct (st_map _ _ _ _ (rp_struct _ _ _ _ _ _ _ R) P T A _ x HT HA Hx) as [j Hj]. congruence.
  - intros j Hj. destruct (rep_pte _ _ _ _ R P T A (va / 4096) j HT HA Hj) as (e & He & Hok & Hd).
    apply wp_bind. apply (wp_load t _ e); [done|]. rewrite flagged_decode, Hd.
    destruct (A !! (va / 4096)) as [x|] eqn:Hx.
    + rewrite bool_decide_true by eauto. assert (WINDOW ≤ frame x < 2 ^ 20 - 1) as Hf.
      { apply (rep_frame _ _ _ _ Hram R). right. exists P, (va / 4096), x. unfold entry_at. by rewrite HA. }
      apply wp_bind. eapply wp_assume_some; [apply (pte_get_page_frame e x); [done|done|lia]|]. apply wp_ret. cbn in HQ.
      rewrite pg_ofs_mod, wrap_small by (unfold WINDOW in *; lia). done.
    + rewrite bool_decide_false by (by intros [? ?]). by apply wp_ret.
Qed.

Lemma wp_is_flag t f k P A v (Q : bool → mach → Prop) :
  f = 2 ^ k → 0 ≤ k → dirs w !! P = Some A → 0 ≤ v < 786432 →
  (∀ b, (∀ x, A !! v = Some x → ∃ e, decode e = Some x ∧ b = Z.testbit e k) → Q b s) →
  wp t (is_flag f (P * 4096) (v * 4096)) Q s.
Proof using R Hram.
  intros -> Hk HA Hv HQ. destruct (rep_dir_page P A HA) as (T & HT & HP & _). unfold is_flag. apply wp_bind.
  apply (wp_lookup_page _ _ _ _ Hram R t P T (v * 4096)); [done|unfold PHYS_BASE; lia| |]; rewrite Z.div_mul by lia.
  - intros Hn. apply wp_ret, HQ. intros x Hx. destruct (st_map _ _ _ _ (rp_struct _ _ _ _ _ _ _ R) P T A _ x HT HA Hx) as [j Hj]. congruence.
  - intros j Hj. destruct (rep_pte _ _ _ _ R P T A v j HT HA Hj) as (e & He & Hok & Hd).
    apply wp_bind. apply (wp_load t _ e); [done|]. apply wp_ret, HQ. intros x Hx. exists e. split; [congruence|by apply flagged_bit].
Qed.

End rep.

(** ** Writing entries *)

Lemma wp_pagedir_set_page t s w TT P A v f wr (Q : bool → mach → Prop) :
  rep s w TT → dirs w !! P = Some A → 0 ≤ v < 786432 → A !! v = None → f ∈ owned w →
  (no_room (kernel_pool (pm s)) 1 → Q false s) →
  (∀ s', inv kern ram I others s' (World (<[P := <[v := Entry f wr false false]> A]> (dirs w)) (owned w ∖ {[f]}) (active w) (bytes w)) →
     Q true s') →
  wp t (pagedir_set_page (I * 4096) ram (P * 4096) (v * 4096) (f * 4096) wr) Q s.
Proof using Hram.
  intros R HA Hv Hn Hf HN HS. destruct (rep_dir_page R P A HA) as (T & HT & HP & HPI).
  assert (WINDOW ≤ f < WINDOW + ram) as Hfr.
  { assert (held w f) as Hh by (by left). apply (po_f _ _ _ _ (rp_pools _ _ _ _ _ _ _ R)) in Hh as [Hh _].
    by apply (po_range _ _ _ _ (rp_pools _ _ _ _ _ _ _ R) true). }
  unfold WINDOW in Hfr, HP. unfold pagedir_set_page. rewrite !pg_ofs_page, !(bool_decide_true (0 = 0)) by done.
  do 2 (apply wp_bind, wp_check; [done|]).
  apply wp_bind, wp_check; [unfold is_user_vaddr, PHYS_BASE; by rewrite bool_decide_true by lia|]. apply wp_bind.
  eapply wp_assume_some; [apply vtop_page; unfold WINDOW; lia|].
  apply wp_bind, wp_check; [rewrite Z.shiftr_div_pow2 by lia; change (2 ^ 12) with 4096; unfold WINDOW; by rewrite bool_decide_true by lia|].
  apply wp_bind, wp_check; [by rewrite bool_decide_true by lia|]. apply wp_bind.
  apply (wp_lookup_create kern ram I others Hram t s w TT P T (v * 4096)); [done|done|unfold PHYS_BASE; lia|intros Hno; by apply wp_ret, HN|].
  rewrite Z.div_mul by lia. intros s' TT' T' j R' HT' Hj.
  destruct (rep_pte _ _ _ _ R' P T' A v j HT' HA Hj) as (e & He & Hok & Hd). apply wp_bind. apply (wp_load t _ e); [done|].
  apply wp_bind, wp_check.
  { pose proof (flagged_decode e) as E. unfold flagged in E. rewrite Hd, Hn, (bool_decide_false (is_Some None)) in E by (by intros [? ?]).
    apply bool_decide_eq_false in E. apply bool_decide_eq_true. by apply dec_stable. }
  destruct (pte_create_page f wr) as (e' & E' & Hok' & Hd'); [unfold WINDOW; lia|].
  apply wp_bind. eapply wp_assume_some; [exact E'|]. apply wp_bind, wp_modify, wp_ret, HS. exists TT'.
  destruct (world_map w P A v (Entry f wr false false) HA Hn Hf (rp_excl _ _ _ _ _ _ _ R')) as [Hh Hx].
  rewrite <- Hd' in Hh, Hx. unfold insert at 2, map_insert at 2. rewrite <- Hd'.
  apply (rep_set_pte kern ram I others s' w TT' P T' A v j e'); try done.
  apply tlb_ok_change; [done|apply R'|]. intros x _ Hx'. congruence.
Qed.

Lemma wp_pagedir_clear_page t s w TT P A v (Q : unit → mach → Prop) :
  rep s w TT → dirs w !! P = Some A → 0 ≤ v < 786432 →
  (A !! v = None → Q tt s) →
  (∀ x s', A !! v = Some x → inv kern ram I others s' (World (<[P := delete v A]> (dirs w)) (owned w ∪ {[frame x]}) (active w) (bytes w)) →
     Q tt s') →
  wp t (pagedir_clear_page (I * 4096) (P * 4096) (v * 4096)) Q s.
Proof using Hram.
  intros R HA Hv HN HS. destruct (rep_dir_page R P A HA) as (T & HT & HP & HPI). pose proof (rep_default R) as Hact.
  unfold pagedir_clear_page. apply wp_bind, wp_check; [by rewrite pg_ofs_page|].
  apply wp_bind, wp_check; [unfold is_user_vaddr, PHYS_BASE; by rewrite bool_decide_true by lia|]. apply wp_bind.
  apply (wp_lookup_page _ _ _ _ Hram R t P T (v * 4096)); [done|unfold PHYS_BASE; lia| |]; rewrite Z.div_mul by lia.
  - intros Hn. apply wp_ret. destruct (A !! v) as [x|] eqn:Hx; [|by apply HN].
    destruct (st_map _ _ _ _ (rp_struct _ _ _ _ _ _ _ R) P T A _ x HT HA Hx) as [j Hj]. congruence.
  - intros j Hj. destruct (rep_pte _ _ _ _ R P T A v j HT HA Hj) as (e & He & Hok & Hd).
    apply wp_bind. apply (wp_load t _ e); [done|]. rewrite flagged_decode, Hd. apply wp_when; intros Hb.
    + apply bool_decide_eq_true in Hb as [x Hx]. apply wp_bind, wp_modify.
      apply (wp_invalidate t w P); [apply R|lia|lia|done|]. apply (HS x); [done|]. exists TT. cbn [pm cr3 tlb].
      destruct (world_unmap w P A v x HA Hx (rp_excl _ _ _ _ _ _ _ R)) as [Hh Hxc]. pose proof (decode_clear e) as Hc.
      rewrite <- Hc in Hh, Hxc. unfold delete, map_delete. rewrite <- Hc.
      apply (rep_set_pte kern ram I others s w TT P T A v j); try done.
      * rewrite land_lnot. by apply pte_ok_ldiff.
      * apply tlb_ok_flushed; [done|apply R].
    + apply bool_decide_eq_false in Hb. apply HN. destruct (A !! v); [|done]. exfalso. apply Hb. eauto.
Qed.

(** Setting and clearing one of the two flags: [g b] is what it means for an entry. *)
Lemma wp_set_flag t f (g : bool → entry → entry) s w TT P A v b (Q : unit → mach → Prop) :
  0 ≤ f < 4096 → Z.testbit f 0 = false → Z.testbit f 2 = false →
  (∀ e, decode (Z.lor e f) = g true <$> decode e) → (∀ e, decode (Z.ldiff e f) = g false <$> decode e) →
  (∀ b x, frame (g b x) = frame x ∧ writable (g b x) = writable x) →
  (∀ x, (accessed x = true → accessed (g true x) = true) ∧ (dirty x = true → dirty (g true x) = true)) →
  rep s w TT → dirs w !! P = Some A → 0 ≤ v < 786432 →
  (∀ s', inv kern ram I others s' (change (g b) P v w) → Q tt s') →
  wp t (set_flag (I * 4096) f (P * 4096) (v * 4096) b) Q s.
Proof using Hram.
  intros Hf Hf0 Hf2 Hlor Hldiff Hg Hup R HA Hv HS. destruct (rep_dir_page R P A HA) as (T & HT & HP & HPI). pose proof (rep_default R) as Hact.
  unfold set_flag. apply wp_bind.
  apply (wp_lookup_page _ _ _ _ Hram R t P T (v * 4096)); [done|unfold PHYS_BASE; lia| |]; rewrite Z.div_mul by lia.
  - intros Hn. apply wp_ret, HS. exists TT. rewrite change_none; [done|]. unfold entry_at. rewrite HA. cbn.
    destruct (A !! v) as [x|] eqn:Hx; [|done]. destruct (st_map _ _ _ _ (rp_struct _ _ _ _ _ _ _ R) P T A _ x HT HA Hx) as [j Hj]. congruence.
  - intros j Hj. destruct (rep_pte _ _ _ _ R P T A v j HT HA Hj) as (e & He & Hok & Hd).
    apply wp_bind. apply (wp_load t _ e); [done|].
    assert (∀ c e' tl, decode e' = g c <$> A !! v → pte_ok e' → tlb_ok (active w) (<[P := partial_alter (λ _, g c <$> A !! v) v A]> (dirs w)) tl →
      inv kern ram I others (Mach (set_memory (set_word (j * 4096 + 4 * (v mod 1024)) e') (pm s)) (cr3 s) tl) (change (g c) P v w)) as Hinv.
    { intros c e' tl Hde Hok' Htl. exists TT. rewrite (change_eq _ _ _ _ A HA).
      destruct (world_same w P A v (g c <$> A !! v) HA) as [Hh Hxc]; [destruct (A !! v); cbn; [by rewrite (proj1 (Hg _ _))|done]|apply R|].
      rewrite <- Hde in Hh, Hxc, Htl |- *. by apply (rep_set_pte kern ram I others s w TT P T A v j). }
    destruct b.
    + apply wp_modify, HS, Hinv; [by rewrite Hlor, Hd|by apply pte_ok_lor|]. apply tlb_ok_change; [done|apply R|].
      intros x _ Hx _. exists (g true x). rewrite Hx. split; [done|]. destruct (Hg true x), (Hup x). done.
    + apply wp_bind, wp_modify. apply (wp_invalidate t w P); [apply R|lia|lia|done|]. cbn [pm cr3 tlb]. rewrite land_wrap_lnot by apply Hok.
      apply HS, Hinv; [by rewrite Hldiff, Hd|by apply pte_ok_ldiff|]. apply tlb_ok_flushed; [done|apply R].
Qed.

(** ** Directories and frames *)

Lemma wp_pagedir_create t s w TT (Q : option Z → mach → Prop) :
  rep s w TT → (no_room (kernel_pool (pm s)) 1 → Q None s) →
  (∀ P s', dirs w !! P = None → inv kern ram I others s' (with_dirs (<[P := ∅]> (dirs w)) w) → Q (Some (P * 4096)) s') →
  wp t (pagedir_create (I * 4096)) Q s.
Proof.
  intros R HN HS. pose proof R as [H1 H2 H3 [H4 H5] H6 H7 H8 H9 H10]. unfold pagedir_create. apply wp_bind.
  apply (wp_get_page ram t 0 _ _ _ s H2); [done|intros Hroom; by apply wp_ret, HN|]. change (flagged 0 PAL_USER) with false. cbn match.
  change (zero_page 0) with (λ _ : Z, λ m : gmap Z Z, m). cbn beta. intros P m' Hfree Hin Hp Hm.
  assert (∀ r, page_of TT r ≠ Some P) as Hfresh by (intros r Hr; apply Hfree; right; eauto).
  assert (¬ others P) as Hno by (intros Ho; apply Hfree; by left).
  assert (¬ held w P) as Hnf by (intros Hf; eapply (pools_apart _ _ _ _ _ Hp); [by right|done]).
  assert (TT !! P = None) as HTP by (destruct (TT !! P) eqn:E; [|done]; exfalso; by eapply Hfresh, page_of_dir).
  assert (dirs w !! P = None) as HP.
  { destruct (dirs w !! P) eqn:E; [|done]. destruct (proj2 (st_dom _ _ _ _ H1 P)) as [? ?]; [by eexists|congruence]. }
  assert (P ≠ I) as HPI by congruence. apply wp_bind, wp_modify, wp_ret, HS; [done|]. exists (<[P := ∅]> TT).
  change (Z.to_nat PAGE) with 4096%nat. unfold mem in Hm.
  assert (∀ k, k ≠ P → agree (mem s) (copy (P * 4096) (I * 4096) 4096 (mem s)) k) as Ha by (intros k Hk; by apply agree_copy).
  pose proof (λ r k, page_of_new_dir TT P r k HTP) as Hpage.
  split; cbn [pm cr3 tlb]; unfold mem; cbn [pm set_memory memory with_dirs dirs owned active bytes]; rewrite ?Hm.
  - apply (struct_new_dir (kwords kern I)); [|done|].
    + apply (struct_agree (kwords kern I) (mem s)); [|done]. intros r k Hr. apply Ha. intros ->. by eapply Hfresh.
    + intros d Hd. rewrite ent_copy by done. unfold mem in H5. rewrite (proj2 H5 d Hd). unfold dir_word. rewrite lookup_empty. by case_decide; eexists.
  - apply pools_memory. eapply pools_ext; [exact Hp| |].
    + intros k. unfold add, kernel_use. split.
      * intros [[?|[r Hr]]| ->]; [by left|right; exists r; apply Hpage; by right|right; exists (P, None); apply Hpage; by left].
      * intros [?|[r [[_ ->]|Hr]%Hpage]]; [by left; left|by right|left; right; eauto].
    + intros f. unfold held, mapped. cbn [owned dirs]. by setoid_rewrite (entry_at_empty _ _ _ _ HP).
  - intros r k [[_ ->]|Hr]%Hpage; [done|by eapply H3].
  - split; [done|]. apply (init_words_touch kern I others (mem s) _ P Ha); done.
  - unfold excl. by setoid_rewrite (entry_at_empty _ _ _ _ HP).
  - done.
  - intros P' HP'. apply lookup_insert_is_Some'. right. by apply H8.
  - unfold tlb_ok. by setoid_rewrite (entry_at_empty _ _ _ _ HP).
  - intros z Hz. apply (bytes_touch w (mem s) _ P Ha); [done|done|]. revert Hz. unfold held, mapped. cbn [owned dirs].
    by setoid_rewrite (entry_at_empty _ _ _ _ HP).
Qed.

Lemma rep_activate s w TT o :
  rep s w TT → (∀ P, o = Some P → is_Some (dirs w !! P)) →
  rep (Mach (pm s) ((default I o - WINDOW) * 4096) ∅) (World (dirs w) (owned w) o (bytes w)) TT.
Proof. intros [H1 H2 H3 H4 H6 H7 H8 H9 H10] Ho. by split. Qed.

Definition frame_flags (zero : bool) : Z := Z.lor PAL_USER (if zero then PAL_ZERO else 0).

Lemma held_own w O f : held (World (dirs w) O (active w) (bytes w)) f ↔ f ∈ O ∨ mapped (dirs w) f.
Proof. done. Qed.

Lemma wp_get_frame t zero s w TT (Q : option Z → mach → Prop) :
  rep s w TT → (no_room (user_pool (pm s)) 1 → Q None s) →
  (∀ f s' bs, ¬ held w f → (∀ z, z / 4096 ≠ f → bs !! z = bytes w !! z) → (zero = true → ∀ z, z / 4096 = f → bs !! z = Some 0) →
     inv kern ram I others s' (World (dirs w) (owned w ∪ {[f]}) (active w) bs) → Q (Some (f * 4096)) s') →
  wp t (get_page (frame_flags zero)) Q s.
Proof using Type.
  intros R HN HS. pose proof R as [H1 H2 H3 [H4 H5] H6 H7 H8 H9 H10].
  apply (wp_get_page ram t _ _ _ _ s H2); [by destruct zero|intros Hno; apply HN; by destruct zero|].
  assert (flagged (frame_flags zero) PAL_USER = true) as -> by (by destruct zero). intros f m' Hfree _ Hp Hm.
  assert (memory m' = if zero then fill (f * 4096) 4096 (Some 0) (mem s) else mem s) as Hm' by (rewrite Hm; by destruct zero).
  assert (∀ k, k ≠ f → agree (mem s) (memory m') k) as Ha.
  { intros k Hk. rewrite Hm'. destruct zero; [by apply agree_fill|apply agree_refl]. }
  assert (∀ r k, page_of TT r = Some k → k ≠ f) as Hpf.
  { intros r k Hr ->. eapply (pools_apart _ _ _ _ _ Hp); [right; eauto|by right]. }
  set (bs := map_imap (λ z c, if decide (z / 4096 = f) then None else Some c) (bytes w) ∪ map_imap (λ z c, if decide (z / 4096 = f) then Some c else None) (memory m')).
  assert (∀ z, bs !! z = if decide (z / 4096 = f) then memory m' !! z else bytes w !! z) as Hbs.
  { intros z. unfold bs. rewrite lookup_union, !map_lookup_imap. case_decide as Hz.
    - destruct (bytes w !! z), (memory m' !! z); cbn; rewrite ?decide_True by done; done.
    - destruct (bytes w !! z), (memory m' !! z); cbn; rewrite ?decide_False by done; done. }
  apply (HS f _ bs); [done| | |].
  - intros z Hz. by rewrite Hbs, decide_False.
  - intros -> z Hz. rewrite Hbs, decide_True, Hm', fill_lookup, decide_True by (done || lia). done.
  - exists TT. split; cbn [pm cr3 tlb]; unfold mem; cbn [pm]; cbn [dirs owned active bytes]; try done.
    + apply (struct_agree (kwords kern I) (mem s)); [|done]. intros r k Hr. apply Ha. by eapply Hpf.
    + eapply pools_ext; [exact Hp|done|]. intros i. unfold add, held. cbn [owned dirs]. rewrite elem_of_union, elem_of_singleton. tauto.
    + split; [done|]. apply (init_words_touch kern I others (mem s) _ f Ha); [done| |done]. intros Ho.
      apply (pools_apart ram m' _ _ f Hp); [by left|by right].
    + destruct H6 as [Hi Ho]. split; [done|]. intros P v x Hx. rewrite not_elem_of_union, not_elem_of_singleton. split; [by eapply Ho|].
      intros Ef. apply Hfree. right. by exists P, v, x.
    + intros z Hz. rewrite Hbs. case_decide as Hd; [done|]. rewrite (Ha (z / 4096)) by done. apply H10.
      destruct Hz as [[?|Hz%elem_of_singleton]%elem_of_union|Hz]; [by left|done|by right].
Qed.

Lemma wp_free_frame t s w TT f (Q : unit → mach → Prop) :
  rep s w TT → f ∈ owned w →
  (∀ s', inv kern ram I others s' (World (dirs w) (owned w ∖ {[f]}) (active w) (bytes w)) → Q tt s') →
  wp t (free_page (f * 4096)) Q s.
Proof using Type.
  intros R Hf HS. pose proof R as [H1 H2 H3 [H4 H5] H6 H7 H8 H9 H10]. assert (held w f) as Hh by (by left).
  apply (wp_free_page ram t true f _ _ Q s H2 Hh). cbn match. intros m' Hp Hm. apply HS. exists TT.
  assert (∀ k, k ≠ f → agree (mem s) (memory m') k) as Ha by (intros k Hk; rewrite Hm; by apply agree_fill).
  split; cbn [pm cr3 tlb]; unfold mem; cbn [pm]; cbn [dirs owned active bytes]; try done.
  - apply (struct_agree (kwords kern I) (mem s)); [|done]. intros r k Hr. apply Ha. by eapply (rep_page_frame _ _ _ _ R).
  - eapply pools_ext; [exact Hp|done|]. intros i. unfold sub, held. cbn [owned dirs]. rewrite elem_of_difference, elem_of_singleton.
    split; [intros [[?|?] ?]; tauto|]. intros [[? ?]|(P & v & x & Hx & <-)]; [tauto|]. split; [right; by exists P, v, x|].
    intros <-. by eapply H6.
  - split; [done|]. apply (init_words_touch kern I others (mem s) _ f Ha); [done| |done]. by apply (rep_others_frame _ _ _ _ R).
  - destruct H6 as [Hi Ho]. split; [done|]. intros P v x Hx [Hf' _]%elem_of_difference. by eapply Ho.
  - intros z Hz. assert (z / 4096 ≠ f) as Hne.
    { intros <-. destruct Hz as [[_ Hz]%elem_of_difference|(P & v & x & Hx & Ex)]; [by apply Hz, elem_of_singleton|]. eapply H6; [exact Hx|by rewrite Ex]. }
    rewrite (Ha (z / 4096)) by done. apply H10. destruct Hz as [[Hz _]%elem_of_difference|Hz]; [by left|by right].
Qed.

(** ** The accesses of a user program *)

Definition touch (write : bool) (x : entry) : entry := Entry (frame x) (writable x) true (dirty x || write).

Lemma decode_touch e (write : bool) :
  decode (Z.lor (Z.lor e PTE_A) (if write then PTE_D else 0)) = touch write <$> decode e.
Proof.
  destruct write; [rewrite decode_lor_D, decode_lor_A|rewrite Z.lor_0_r, decode_lor_A]; destruct (decode e) as [x|]; cbn; [| done | |done];
    unfold touch, set_acc, set_drt; cbn; by rewrite ?orb_true_r, ?orb_false_r.
Qed.

Lemma rep_set_pde s w TT P T d e :
  rep s w TT → TT !! P = Some T → 0 ≤ d < 768 → u32 e → dir_word (kwords kern I) T d e →
  rep (Mach (set_memory (set_word (P * 4096 + 4 * d) e) (pm s)) (cr3 s) (tlb s)) w TT.
Proof using Type.
  intros R HT Hd He Hw. pose proof R as [H1 H2 H3 [H4 H5] H6 H7 H8 H9 H10]. pose proof (page_of_dir _ _ _ HT) as HP.
  assert (∀ k, k ≠ P → agree (mem s) (set_word (P * 4096 + 4 * d) e (mem s)) k) as Ha by (intros k Hk; apply agree_set; [lia|done]).
  split; cbn [pm cr3 tlb]; unfold mem; cbn [pm set_memory memory]; try done.
  - by apply (struct_set_pde (kwords kern I) _ _ _ P T).
  - by apply pools_memory.
  - split; [done|]. apply (init_words_touch kern I others (mem s) _ P Ha); [done|exact (H3 _ _ HP)|done].
  - intros z Hz. apply (bytes_touch w (mem s) _ P Ha); [|done|done]. intros Hf. by eapply (rep_page_frame _ _ _ _ R).
Qed.

(** The entry that the active directory has for a page *)
Definition active_entry (w : world) (v : Z) : option entry := P ← active w; entry_at (dirs w) P v.

(** The access is refused. *)
Definition faults (w : world) (v : Z) (write : bool) : Prop :=
  match active_entry w v with Some x => write = true ∧ writable x = false | None => True end.

Lemma tlb_ok_add a D tl v P x t :
  tlb_ok a D tl → a = Some P → entry_at D P v = Some x → t_page t = frame x → t_write t = writable x → accessed x = true →
  (t_dirty t = true → dirty x = true) → tlb_ok a D (<[v := t]> tl).
Proof using Type.
  intros Ht Ha Hx H1 H2 H3 H4 u t' Hu Hut. destruct (decide (u = v)) as [->|].
  - rewrite lookup_insert_eq in Hut. injection Hut as <-. by exists P, x.
  - rewrite lookup_insert_ne in Hut by done. by apply Ht.
Qed.

Lemma wp_table_walk t va write s w TT (Q : option Z → mach → Prop) :
  rep s w TT → 0 ≤ va < PHYS_BASE →
  (faults w (va / 4096) write → Q None s) →
  (∀ P x s', active w = Some P → entry_at (dirs w) P (va / 4096) = Some x → (write = true → writable x = true) →
     inv kern ram I others s' (change (touch write) P (va / 4096) w) → Q (Some (frame x * 4096 + va mod 4096)) s') →
  wp t (walk va write) Q s.
Proof using Hram.
  intros R Hva HN HS. set (v := va / 4096) in *. assert (0 ≤ v < 786432) as Hv by (unfold v, PHYS_BASE in *; lia).
  pose proof (rep_default R) as Hact. unfold WINDOW in Hact. unfold walk. apply wp_bind, wp_get. rewrite (rp_cr3 _ _ _ _ _ _ _ R), window_page by (unfold WINDOW; lia).
  rewrite pd_no_page, pt_no_page by (unfold PHYS_BASE in *; lia). fold v. apply wp_bind.
  destruct (active w) as [P|] eqn:HP; cbn [default] in *.
  2:{ pose proof (proj2 (proj2 (rp_init _ _ _ _ _ _ _ R)) (v / 1024) ltac:(lia)) as He. rewrite decide_True in He by lia.
      apply (wp_load t _ 0); [done|]. apply wp_ret, HN. unfold faults, active_entry. by rewrite HP. }
  destruct (rp_act _ _ _ _ _ _ _ R P HP) as [A HA]. destruct (rep_dir_page R P A HA) as (T & HT & HPr & HPI).
  assert (active_entry w v = A !! v) as Hae by (unfold active_entry, entry_at; rewrite HP; cbn; by rewrite HA).
  destruct (rep_pde _ _ _ _ R P T v HT Hv) as (e & He & Hw). apply (wp_load t _ e); [done|].
  destruct (T !! (v / 1024)) as [j|] eqn:Hj.
  2:{ subst e. apply wp_ret, HN. unfold faults. rewrite Hae. destruct (A !! v) as [x|] eqn:Hx; [|done].
      destruct (st_map _ _ _ _ (rp_struct _ _ _ _ _ _ _ R) P T A _ x HT HA Hx) as [j Hj']. congruence. }
  pose proof (rep_page _ _ _ _ Hram R _ _ (page_of_table _ _ _ _ _ HT Hj)) as Hjr. unfold WINDOW in Hjr.
  pose proof Hw as (Hu & Hb0 & Hb1 & Hb2 & Hea). rewrite flagged_P, flagged_U, flagged_W, Hb0, Hb1, Hb2. cbn [andb].
  rewrite land_addr, Hea, window_page by (done || unfold WINDOW; lia).
  destruct (rep_pte _ _ _ _ R P T A v j HT HA Hj) as (x & Hx & Hok & Hd). apply wp_bind. apply (wp_load t _ x); [done|].
  rewrite flagged_decode, Hd, flagged_U, flagged_W.
  destruct (A !! v) as [y|] eqn:Hy; [rewrite bool_decide_true by eauto|].
  2:{ rewrite bool_decide_false by (by intros [? ?]). apply wp_ret, HN. unfold faults. by rewrite Hae. }
  assert (Z.testbit x 0 = true) as Hx0 by (unfold decode in Hd; by destruct (Z.testbit x 0)).
  assert (Z.testbit x 1 = writable y ∧ x / 4096 = frame y - WINDOW) as [Hx1 Hxf].
  { unfold decode in Hd. rewrite Hx0 in Hd. injection Hd as <-. cbn. split; [done|lia]. }
  rewrite (proj2 Hok Hx0), Hx1. cbn [andb].
  assert (entry_at (dirs w) P v = Some y) as Hey by (unfold entry_at; rewrite HA; done).
  assert (WINDOW ≤ frame y < 2 ^ 20 - 1) as Hfr by (apply (rep_frame _ _ _ _ Hram R); right; by exists P, v, y).
  destruct (negb write || writable y) eqn:Hwr.
  2:{ apply wp_ret, HN. unfold faults. rewrite Hae. by destruct write, (writable y). }
  set (x' := Z.lor (Z.lor x PTE_A) (if write then PTE_D else 0)).
  assert (pte_ok x') as Hok'.
  { unfold x'. repeat apply pte_ok_lor; [done|unfold PTE_A; lia|done|destruct write; unfold PTE_D; lia|by destruct write]. }
  assert (decode x' = touch write <$> A !! v) as Hd' by (unfold x'; by rewrite decode_touch, Hd, Hy).
  apply wp_bind, wp_modify, wp_bind, wp_modify, wp_bind, wp_modify, wp_ret. rewrite land_addr, Hxf, window_page, pg_ofs_mod by (apply Hok || unfold WINDOW in *; lia).
  apply (HS P y); [done|done|intros ->; by destruct (writable y)|]. exists TT. cbn [pm cr3 tlb].
  pose proof (rep_set_pde s w TT P T (v / 1024) (Z.lor e PTE_A) R HT ltac:(lia)) as R1.
  specialize (R1 ltac:(apply u32_lor; [done|unfold PTE_A; lia])).
  specialize (R1 ltac:(unfold dir_word; rewrite decide_True, Hj by lia; by apply pde_for_lor_A)).
  rewrite (change_eq _ _ _ _ A HA). destruct (world_same w P A v (touch write <$> A !! v) HA) as [Hh Hxc]; [by rewrite Hy|apply R|].
  rewrite <- Hd' in Hh, Hxc |- *.
  apply (rep_set_pte kern ram I others _ w TT P T A v j x' (owned w) _ R1); try done.
  apply (tlb_ok_add _ _ _ _ P (touch write y)); [|done| | |done|done|].
  - rewrite Hd', Hy. apply tlb_ok_change; [done|apply R|]. intros z _ Hz _. assert (z = y) as -> by congruence.
    exists (touch write y). cbn. split_and!; try done. intros ->. done.
  - cbn [dirs]. rewrite pg_no_div. fold v. rewrite entry_at_insert, decide_True by done. by rewrite Hd', Hy.
  - cbn. rewrite pg_no_div, Z.div_mul by lia. done.
  - cbn [t_dirty]. rewrite flagged_D. intros Hd6. pose proof Hd' as Hd''. rewrite Hy in Hd''. unfold decode in Hd''.
    destruct (Z.testbit x' 0); [|done]. injection Hd'' as ? ? ? E. exact (eq_trans (eq_sym E) Hd6).
Qed.

Lemma touch_id write x : accessed x = true → (write = true → dirty x = true) → touch write x = x.
Proof using Type. intros Ha Hd. destruct x as [f y a d], write; unfold touch; cbn in *; f_equal; try done; [by rewrite Hd|by rewrite orb_false_r]. Qed.

(** The processor, whether it uses a cached translation or not, does what the active
    directory says. *)
Lemma wp_mmu t va write s w TT (Q : option Z → mach → Prop) :
  rep s w TT → 0 ≤ va < PHYS_BASE →
  (faults w (va / 4096) write → Q None s) →
  (∀ P x s', active w = Some P → entry_at (dirs w) P (va / 4096) = Some x → (write = true → writable x = true) →
     inv kern ram I others s' (change (touch write) P (va / 4096) w) → Q (Some (frame x * 4096 + va mod 4096)) s') →
  wp t (mmu va write) Q s.
Proof using Hram.
  intros R Hva HN HS. unfold mmu. apply wp_bind, wp_get. rewrite pg_no_div.
  destruct (tlb s !! (va / 4096)) as [c|] eqn:Hc; [|by apply (wp_table_walk t va write s w TT)].
  destruct (rp_tlb _ _ _ _ _ _ _ R (va / 4096) c) as (P & x & HP & Hx & Hp & Hw & Ha & Hd); [unfold PHYS_BASE in *; lia|done|].
  destruct (negb write || (t_write c && t_dirty c)) eqn:Hhit.
  - apply wp_ret. rewrite Hp, pg_ofs_mod. change PAGE with 4096.
    assert (write = true → writable x = true ∧ dirty x = true) as Hwd.
    { intros ->. cbn in Hhit. apply andb_true_iff in Hhit as [? ?]. split; [congruence|auto]. }
    apply (HS P x); [done|done|apply Hwd|]. exists TT. rewrite (change_id _ _ _ _ x); [done|done|]. apply touch_id; [done|apply Hwd].
  - destruct (t_write c) eqn:Hcw; [by apply (wp_table_walk t va write s w TT)|]. apply wp_ret, HN. unfold faults, active_entry. rewrite HP. cbn.
    rewrite Hx. split; [by destruct write|congruence].
Qed.

Lemma mapped_change g P v w f : (∀ x, frame (g x) = frame x) → mapped (dirs w) f → mapped (dirs (change g P v w)) f.
Proof using Type.
  intros Hg (P' & v' & x & Hx & <-). unfold change, with_dirs. cbn [dirs]. exists P', v'. unfold entry_at in *.
  destruct (decide (P' = P)) as [->|]; [|rewrite lookup_alter_ne by done; by exists x]. rewrite lookup_alter_eq.
  destruct (dirs w !! P) as [A|]; [|done]. cbn in *. destruct (decide (v' = v)) as [->|]; [|rewrite lookup_alter_ne by done; by exists x].
  rewrite lookup_alter_eq, Hx. exists (g x). by rewrite Hg.
Qed.

Lemma wp_user_read t va s w TT (Q : option (option Z) → mach → Prop) :
  rep s w TT → 0 ≤ va < PHYS_BASE →
  (active_entry w (va / 4096) = None → Q None s) →
  (∀ P x s', active w = Some P → entry_at (dirs w) P (va / 4096) = Some x →
     inv kern ram I others s' (change (touch false) P (va / 4096) w) → Q (Some (bytes w !! (frame x * 4096 + va mod 4096))) s') →
  wp t (user_read va) Q s.
Proof using Hram.
  intros R Hva HN HS. unfold user_read. apply wp_bind. apply (wp_mmu t va false s w TT _ R Hva).
  - intros Hf. apply wp_bind, wp_get, wp_ret. apply HN. unfold faults in Hf. destruct (active_entry w (va / 4096)); [by destruct Hf|done].
  - intros P x s' HP Hx _ Hinv. apply wp_bind, wp_get, wp_ret. cbn. destruct Hinv as [TT' R'].
    rewrite (rp_bytes _ _ _ _ _ _ _ R'); [apply (HS P x); [done|done|by exists TT']|]. right.
    replace ((frame x * 4096 + va mod 4096) / 4096) with (frame x) by lia. apply mapped_change; [done|]. by exists P, (va / 4096), x.
Qed.

(** Storing a byte in a frame *)
Lemma rep_user_store s w TT a byte :
  rep s w TT → held w (a / 4096) →
  rep (Mach (set_memory (<[a := byte]>) (pm s)) (cr3 s) (tlb s)) (World (dirs w) (owned w) (active w) (<[a := byte]> (bytes w))) TT.
Proof using Type.
  intros R Hh. pose proof R as [H1 H2 H3 [H4 H5] H6 H7 H8 H9 H10].
  split; cbn [pm cr3 tlb]; unfold mem; cbn [pm set_memory memory dirs owned active bytes]; try done.
  - apply (struct_agree (kwords kern I) (mem s)); [|done]. intros r j Hr. apply agree_insert. intros <-. by eapply (rep_page_frame _ _ _ _ R).
  - by apply pools_memory.
  - split; [done|]. apply (init_words_touch kern I others (mem s) _ (a / 4096)); [|done|by apply (rep_others_frame _ _ _ _ R)|done].
    intros k Hk. by apply agree_insert.
  - intros z Hz. destruct (decide (z = a)) as [->|]; [by rewrite !lookup_insert_eq|]. rewrite !lookup_insert_ne by done. by apply H10.
Qed.

Lemma wp_user_write t va byte s w TT (Q : bool → mach → Prop) :
  rep s w TT → 0 ≤ va < PHYS_BASE →
  (faults w (va / 4096) true → Q false s) →
  (∀ P x s', active w = Some P → entry_at (dirs w) P (va / 4096) = Some x → writable x = true →
     let w' := change (touch true) P (va / 4096) w in
     inv kern ram I others s' (World (dirs w') (owned w) (active w) (<[frame x * 4096 + va mod 4096 := byte]> (bytes w))) → Q true s') →
  wp t (user_write va byte) Q s.
Proof using Hram.
  intros R Hva HN HS. unfold user_write. apply wp_bind. apply (wp_mmu t va true s w TT _ R Hva).
  - intros Hf. by apply wp_ret, HN.
  - intros P x s' HP Hx Hw [TT' R']. apply wp_bind, wp_modify, wp_ret. apply (HS P x); [done|done|by apply Hw|]. exists TT'.
    apply (rep_user_store s' (change (touch true) P (va / 4096) w)); [done|].
    replace ((frame x * 4096 + va mod 4096) / 4096) with (frame x) by lia. right. apply mapped_change; [done|]. by exists P, (va / 4096), x.
Qed.

Lemma rep_evict s w TT v : rep s w TT → rep (Mach (pm s) (cr3 s) (delete v (tlb s))) w TT.
Proof using Type. intros [H1 H2 H3 H4 H6 H7 H8 H9 H10]. split; try done. cbn. intros u c Hu [_ Hc]%lookup_delete_Some. by apply H9. Qed.

(** ** Destroying a directory

    [pagedir_destroy] gives back the frames of a table, then the table, table after
    table, and leaves the entries of the directory as they are: half way the directory
    is no longer one. *)

Section destroy.
Context {s0 : mach} {w : world} {TT : gmap Z tables} (R : rep s0 w TT).
Context {P : Z} {T : tables} {A : mapping} (HT : TT !! P = Some T) (HA : dirs w !! P = Some A) (Hna : active w ≠ Some P).

Definition rest : world := with_dirs (delete P (dirs w)) w.
Definition rest_tables : gmap Z tables := delete P TT.

(** The pages in use when the tables before index [d], and the frames of the pages
    before [v], have been given back *)
Definition k_use (d j : Z) : Prop := kernel_use others rest_tables j ∨ j = P ∨ ∃ d', d ≤ d' ∧ T !! d' = Some j.
Definition f_use (v f : Z) : Prop := held rest f ∨ ∃ v' x, v ≤ v' ∧ A !! v' = Some x ∧ frame x = f.

Record half (s : mach) (d v : Z) : Prop := {
  hf_struct : struct (kwords kern I) (mem s) rest_tables (dirs rest);
  hf_pools : pools ram (pm s) (k_use d) (f_use v);
  hf_init : init_words kern I others (mem s);
  hf_bytes z : held rest (z / 4096) → mem s !! z = bytes rest !! z;
  hf_regs : cr3 s = cr3 s0 ∧ tlb s = tlb s0;
  hf_dir d' : d ≤ d' < 768 → ∃ e, ent (mem s) P d' = Some e ∧ match T !! d' with Some j => pde_for e j | None => e = 0 end;
  hf_tab v' j : v ≤ v' → d ≤ v' / 1024 → T !! (v' / 1024) = Some j → ∃ e, ent (mem s) j (v' mod 1024) = Some e ∧ pte_ok e ∧ decode e = A !! v'
}.

Lemma half_touch s d v k d1 v1 m' :
  half s d v → (∀ i, i ≠ k → agree (mem s) (memory m') i) → pools ram m' (k_use d1) (f_use v1) → 0 ≤ d ≤ d1 → v ≤ v1 →
  (∀ r, page_of rest_tables r ≠ Some k) → others I → ¬ others k → ¬ held rest k → k ≠ P → (∀ d', d1 ≤ d' → T !! d' ≠ Some k) →
  half (Mach m' (cr3 s) (tlb s)) d1 v1.
Proof using Type.
  intros [H1 H2 H3 H4 H5 H6 H7] Ha Hp Hd Hv Hk HI Hok Hf HP Ht. split; unfold mem; cbn [pm cr3 tlb]; try done.
  - apply (struct_agree (kwords kern I) (mem s)); [|done]. intros r j Hr. apply Ha. intros ->. by eapply Hk.
  - by apply (init_words_touch kern I others (mem s) _ k Ha).
  - by apply (bytes_touch rest (mem s) _ k Ha).
  - intros d' Hd'. rewrite (ent_agree (mem s)); [|by apply Ha|lia]. apply H6. lia.
  - intros v' j Hv' Hdv Hj. rewrite (ent_agree (mem s)); [|apply Ha; intros ->; by eapply Ht|lia]. apply H7; [lia|lia|done].
Qed.

Lemma rest_page r j : page_of rest_tables r = Some j → page_of TT r = Some j ∧ j ≠ P ∧ ∀ d, T !! d ≠ Some j.
Proof using R HT.
  intros [Hr Hp]%page_of_delete. pose proof (rp_struct _ _ _ _ _ _ _ R) as St. split; [done|]. split.
  - intros ->. apply Hr. by rewrite (st_inj _ _ _ _ St _ _ _ Hp (page_of_dir _ _ _ HT)).
  - intros d Hd. apply Hr. by rewrite (st_inj _ _ _ _ St _ _ _ Hp (page_of_table _ _ _ _ _ HT Hd)).
Qed.

Lemma rest_held f : held rest f → held w f.
Proof using Type.
  intros [?|(P' & v & x & [? Hx]%entry_at_delete & <-)]; [by left|right; by exists P', v, x].
Qed.

Lemma rest_frame v x : A !! v = Some x → ¬ held rest (frame x).
Proof using R HA.
  intros Hx. pose proof (rp_excl _ _ _ _ _ _ _ R) as [Hi Ho].
  assert (entry_at (dirs w) P v = Some x) as He by (unfold entry_at; by rewrite HA).
  intros [Hf|(P' & v' & y & [Hne Hy]%entry_at_delete & Ef)]; [exact (Ho P v x He Hf)|]. apply Hne. exact (eq_sym (proj1 (Hi _ _ _ _ _ _ He Hy (eq_sym Ef)))).
Qed.

Lemma table_index d j : T !! d = Some j → 0 ≤ d < 768.
Proof using R HT. apply (st_idx _ _ _ _ (rp_struct _ _ _ _ _ _ _ R) P T d j HT). Qed.

Lemma table_page d j : T !! d = Some j → page_of TT (P, Some d) = Some j ∧ j ≠ P.
Proof using R HT.
  intros Hd. pose proof (page_of_table _ _ _ _ _ HT Hd) as Hp. split; [done|]. intros ->.
  pose proof (st_inj _ _ _ _ (rp_struct _ _ _ _ _ _ _ R) _ _ _ Hp (page_of_dir _ _ _ HT)) as E. discriminate E.
Qed.

Lemma half_start : half s0 0 0.
Proof using R HT HA Hna.
  pose proof R as [H1 H2 H3 [H4 H5] H6 H7 H8 H9 H10]. split; try done.
  - by apply (struct_delete (kwords kern I)).
  - eapply pools_ext; [exact H2| |].
    + intros j. unfold k_use, kernel_use. split.
      * intros [?|[[P' o] Hr]]; [by left; left|]. destruct (decide (P' = P)) as [->|].
        -- right. unfold page_of in Hr. cbn in Hr. rewrite HT in Hr. cbn in Hr. destruct o as [d|]; [right|left; congruence].
           exists d. pose proof (table_index d j Hr). split; [lia|done].
        -- left. right. exists (P', o). unfold page_of, rest_tables. cbn [fst]. by rewrite lookup_delete_ne.
      * intros [[?|[r Hr]]|[->|(d & _ & Hd)]]; [by left|right; exists r; by apply rest_page|right; exists (P, None); by eapply page_of_dir|].
        right. exists (P, Some d). by apply table_page.
    + intros f. unfold f_use. split.
      * intros [?|(P' & v & x & Hx & <-)]; [by left; left|]. destruct (decide (P' = P)) as [->|].
        -- right. pose proof (rep_range _ _ _ _ R P v x Hx). unfold entry_at in Hx. rewrite HA in Hx. exists v, x. split; [lia|done].
        -- left. right. exists P', v, x. split; [by apply entry_at_delete|done].
      * intros [?|(v & x & _ & Hx & <-)]; [by apply rest_held|]. right. exists P, v, x. unfold entry_at. by rewrite HA.
  - intros z Hz. by apply H10, rest_held.
  - intros d Hd. destruct (rep_pde _ _ _ _ R P T (1024 * d) HT ltac:(lia)) as (e & He). replace (1024 * d / 1024) with d in He by lia. by exists e.
  - intros v' j _ _ Hj. by apply (rep_pte _ _ _ _ R P T A v' j).
Qed.

Lemma half_end s v : half s 768 v → 786432 ≤ v → wp Full (free_page (P * 4096)) (λ _ s', rep s' rest rest_tables) s.
Proof using R HT HA Hna.
  intros Hh Hv. pose proof R as [G1 G2 G3 [G4 G5] G6 G7 G8 G9 G10]. pose proof (page_of_dir _ _ _ HT) as HP.
  apply (wp_free_page ram Full false P _ _ _ s (hf_pools _ _ _ Hh)); [by right; left|]. cbn match. intros m' Hp Hm.
  assert (∀ k, k ≠ P → agree (mem s) (memory m') k) as Ha by (intros k Hk; rewrite Hm; by apply agree_fill).
  assert (¬ held rest P) as HPf by (intros Hf%rest_held; by eapply (rep_page_frame _ _ _ _ R)).
  assert (∀ P' v' x, entry_at (dirs rest) P' v' = Some x → P' ≠ P ∧ entry_at (dirs w) P' v' = Some x) as He by (intros ? ? ?; by apply entry_at_delete).
  destruct Hh as [H1 H2 H3 H4 [H5 H5'] H6 H7]. split; unfold mem; cbn [pm cr3 tlb]; try done.
  - apply (struct_agree (kwords kern I) (mem s)); [|done]. intros r k Hr. apply Ha. apply (rest_page r k Hr).
  - eapply pools_ext; [exact Hp| |].
    + intros j. unfold sub, k_use. split.
      * intros [[?|[?|(d & Hd & Hj)]] Hne]; [done|done|]. apply table_index in Hj. lia.
      * intros Hj. split; [by left|]. destruct Hj as [Ho|[r Hr]]; [|apply (rest_page r j Hr)]. intros ->. exact (G3 _ _ HP Ho).
    + intros f. unfold f_use. split; [|by left]. intros [?|(v' & x & Hv' & Hx & <-)]; [done|].
      pose proof (rep_range _ _ _ _ R P v' x ltac:(unfold entry_at; by rewrite HA)). lia.
  - intros r j [Hr _]%rest_page. exact (G3 r j Hr).
  - split; [done|]. apply (init_words_touch kern I others (mem s) _ P Ha); [done|exact (G3 _ _ HP)|done].
  - destruct G6 as [Hi Ho]. split.
    + intros P1 v1 x1 P2 v2 x2 [_ E1]%He [_ E2]%He. exact (Hi _ _ _ _ _ _ E1 E2).
    + intros P1 v1 x1 [_ E1]%He. exact (Ho _ _ _ E1).
  - by rewrite H5.
  - intros P' HP'. cbn. rewrite lookup_delete_ne by (intros <-; done). by apply G8.
  - intros u c Hu Hc. rewrite H5' in Hc. destruct (G9 u c Hu Hc) as (P' & x & Ha' & Hx & Hrest). exists P', x. split; [done|]. split; [|done].
    apply entry_at_delete. split; [|done]. intros ->. done.
  - by apply (bytes_touch rest (mem s) _ P Ha).
Qed.

(** One frame is given back. *)
Lemma wp_half_frame s d v x (Q : unit → mach → Prop) :
  half s d v → 0 ≤ d → A !! v = Some x → (∀ s', half s' d (v + 1) → Q tt s') →
  wp Full (free_page (frame x * 4096)) Q s.
Proof using R HA.
  intros Hh Hd Hx HQ. pose proof (rest_frame v x Hx) as Hnf. pose proof (hf_pools _ _ _ Hh) as Hp0.
  assert (f_use v (frame x)) as Hf by (right; exists v, x; split; [lia|done]).
  apply (wp_free_page ram Full true (frame x) _ _ _ s Hp0); [done|]. cbn match. intros m' Hp Hm. apply HQ.
  assert (∀ j, k_use d j → j ≠ frame x) as Hk by (intros j Hj ->; by eapply (pools_apart _ _ _ _ _ Hp0)).
  apply (half_touch s d v (frame x)); try done; try lia.
  - intros i Hi. rewrite Hm. by apply agree_fill.
  - eapply pools_ext; [exact Hp|done|]. intros f. unfold sub, f_use. split.
    + intros [[?|(v' & y & Hv' & Hy & <-)] Hne]; [by left|]. right. exists v', y. split_and!; [|done|done].
      destruct (decide (v' = v)) as [->|]; [congruence|lia].
    + intros [Hr|(v' & y & Hv' & Hy & <-)]; [split; [by left|congruence]|]. split; [right; exists v', y; split; [lia|done]|].
      intros Ef. destruct (rp_excl _ _ _ _ _ _ _ R) as [Hi _].
      destruct (Hi P v' y P v x) as [_ ->]; [unfold entry_at; by rewrite HA|unfold entry_at; by rewrite HA|done|lia].
  - intros r Hr. apply (Hk (frame x)); [left; right; eauto|done].
  - apply (rp_init _ _ _ _ _ _ _ R).
  - intros Ho. apply (Hk (frame x)); [by left; left|done].
  - intros E. apply (Hk P); [by right; left|done].
  - intros d' Hd' Hj. apply (Hk (frame x)); [right; right; eauto|done].
Qed.

(** Without an entry there is nothing to give back. *)
Lemma half_skip s d v : half s d v → 0 ≤ d → A !! v = None → half s d (v + 1).
Proof using Type.
  intros [H1 H2 H3 H4 H5 H6 H7] Hd Hn. split; try done.
  - eapply pools_ext; [exact H2|done|]. intros f. unfold f_use. split; (intros [?|(v' & x & Hv' & Hx & <-)]; [by left|right; exists v', x]).
    + split; [|done]. destruct (decide (v' = v)) as [->|]; [congruence|lia].
    + split; [lia|done].
  - intros v' j Hv'. apply H7. lia.
Qed.

Lemma wp_free_frames s d j (Q : unit → mach → Prop) :
  half s d (1024 * d) → T !! d = Some j → (∀ s', half s' d (1024 * d + 1024) → Q tt s') → wp Full (free_frames (j * 4096)) Q s.
Proof using R HT HA Hram.
  intros Hh Hj HQ. pose proof (table_index d j Hj) as Hd. destruct (table_page d j Hj) as [Hpj _].
  pose proof (rep_page _ _ _ _ Hram R _ _ Hpj) as Hjr. unfold WINDOW in Hjr. unfold free_frames. change PAGE with 4096.
  apply (wp_loop_total (λ l s, ∃ i, l = j * 4096 + 4 * i ∧ 0 ≤ i ≤ 1024 ∧ half s d (1024 * d + i)) _ (λ l _, Z.to_nat ((j * 4096 + 4096 - l) / 4))); [|exists 0|lia].
  2:{ split_and!; [lia|lia|lia|]. by replace (1024 * d + 0) with (1024 * d) by lia. }
  clear s Hh. intros l s (i & -> & Hi & Hh). rewrite wrap_small by lia. destruct (decide (i < 1024)) as [Hlt|Hge].
  - rewrite bool_decide_true by lia. rewrite wrap_small by lia.
    destruct (hf_tab _ _ _ Hh (1024 * d + i) j) as (e & He & Hok & Hde); [lia|lia|by replace ((1024 * d + i) / 1024) with d by lia|].
    replace ((1024 * d + i) mod 1024) with i in He by lia. apply wp_bind. apply (wp_load Full _ e); [done|]. apply wp_bind.
    assert (∀ s', half s' d (1024 * d + i + 1) → wp Full (mret (inl (j * 4096 + 4 * i + 4)))
      (λ r s'', match r with inl l' => (∃ i', l' = j * 4096 + 4 * i' ∧ 0 ≤ i' ≤ 1024 ∧ half s'' d (1024 * d + i')) ∧
         (Z.to_nat ((j * 4096 + 4096 - l') / 4) < Z.to_nat ((j * 4096 + 4096 - (j * 4096 + 4 * i)) / 4))%nat | inr a => Q a s'' end) s') as Hnext.
    { intros s' Hs'. apply wp_ret. split; [|lia]. exists (i + 1). split_and!; [lia|lia|lia|]. by replace (1024 * d + (i + 1)) with (1024 * d + i + 1) by lia. }
    rewrite flagged_decode, Hde. apply wp_when; intros Hb.
    + apply bool_decide_eq_true in Hb as [x Hx]. rewrite Hx in Hde. apply wp_bind.
      assert (WINDOW ≤ frame x < 2 ^ 20 - 1) as Hf.
      { apply (rep_frame _ _ _ _ Hram R). right. exists P, (1024 * d + i), x. unfold entry_at. by rewrite HA. }
      eapply wp_assume_some; [apply (pte_get_page_frame e x); [done|done|lia]|]. apply (wp_half_frame s d (1024 * d + i) x); [done|lia|done|].
      intros s' Hs'. by apply Hnext.
    + apply bool_decide_eq_false in Hb. apply Hnext. apply half_skip; [done|lia|]. destruct (A !! (1024 * d + i)); [|done].
      exfalso. apply Hb. eauto.
  - rewrite bool_decide_false by lia. apply wp_ret, HQ. by replace 1024 with i at 2 by lia.
Qed.

(** A table is given back. *)
Lemma wp_half_table s d j (Q : unit → mach → Prop) :
  half s d (1024 * d + 1024) → T !! d = Some j → (∀ s', half s' (d + 1) (1024 * (d + 1)) → Q tt s') →
  wp Full (free_page (j * 4096)) Q s.
Proof using R HT HA.
  intros Hh Hj HQ. pose proof (table_index d j Hj) as Hd. destruct (table_page d j Hj) as [Hpj HjP]. pose proof (hf_pools _ _ _ Hh) as Hp0.
  assert (k_use d j) as Hk by (right; right; exists d; split; [lia|done]).
  assert (∀ d', T !! d' = Some j → d' = d) as Hinj.
  { intros d' Hd'. destruct (table_page d' j Hd') as [Hp' _]. pose proof (st_inj _ _ _ _ (rp_struct _ _ _ _ _ _ _ R) _ _ _ Hpj Hp') as E. by injection E. }
  apply (wp_free_page ram Full false j _ _ _ s Hp0); [done|]. cbn match. intros m' Hp Hm. apply HQ.
  apply (half_touch s d (1024 * d + 1024) j); try done; try lia.
  - intros i Hi. rewrite Hm. by apply agree_fill.
  - eapply pools_ext; [exact Hp| |].
    + intros i. unfold sub, k_use. split.
      * intros [[?|[?|(d' & Hd' & Hi)]] Hne]; [by left|by right; left|right; right; exists d'; split; [|done]].
        destruct (decide (d' = d)) as [->|]; [congruence|lia].
      * intros [Hu|[->|(d' & Hd' & Hi)]].
        -- split; [by left|]. destruct Hu as [Ho|[r Hr]]; [|intros ->; by eapply (rest_page r j)]. intros ->. by eapply (rp_own _ _ _ _ _ _ _ R).
        -- split; [by right; left|done].
        -- split; [right; right; exists d'; split; [lia|done]|]. intros ->. apply Hinj in Hi. lia.
    + intros f. by replace (1024 * (d + 1)) with (1024 * d + 1024) by lia.
  - intros r Hr. by eapply (rest_page r j).
  - apply (rp_init _ _ _ _ _ _ _ R).
  - exact (rp_own _ _ _ _ _ _ _ R _ _ Hpj).
  - intros Hf%rest_held. by eapply (rep_page_frame _ _ _ _ R).
  - intros d' Hd' Hi. apply Hinj in Hi. lia.
Qed.

Lemma half_next s d : half s d (1024 * d) → 0 ≤ d → T !! d = None → half s (d + 1) (1024 * (d + 1)).
Proof using R HT HA.
  intros [H1 H2 H3 H4 H5 H6 H7] Hd Hn. split; try done.
  - eapply pools_ext; [exact H2| |].
    + intros i. unfold k_use. split; (intros [?|[?|(d' & Hd' & Hi)]]; [by left|by right; left|right; right; exists d']).
      * split; [|done]. destruct (decide (d' = d)) as [->|]; [congruence|lia].
      * split; [lia|done].
    + intros f. unfold f_use. split; (intros [?|(v' & x & Hv' & Hx & <-)]; [by left|right; exists v', x]; split; [|done]); [|lia].
      destruct (decide (v' / 1024 = d)) as [E|]; [|lia].
      destruct (st_map _ _ _ _ (rp_struct _ _ _ _ _ _ _ R) P T A v' x HT HA Hx) as [j Hj]. congruence.
  - intros d' Hd'. apply H6. lia.
  - intros v' j Hv' Hdv. apply H7; lia.
Qed.

Lemma wp_pagedir_destroy (Q : unit → mach → Prop) :
  (∀ s', inv kern ram I others s' rest → Q tt s') → wp Full (pagedir_destroy (I * 4096) (P * 4096)) Q s0.
Proof using R HT HA Hna Hram.
  intros HQ. destruct (rep_dir_page R P A HA) as (T' & HT' & HPr & HPI). unfold WINDOW in HPr.
  unfold pagedir_destroy. rewrite bool_decide_false by lia. apply wp_bind, wp_check; [by rewrite bool_decide_true by lia|].
  change (pd_no PHYS_BASE) with 768. apply wp_bind.
  assert (∀ s, half s 768 786432 → wp Full (free_page (P * 4096)) Q s) as Hend.
  { intros s Hh. eapply wp_mono; [apply (half_end s 786432); [done|lia]|]. intros [] s' Hs'. apply HQ. by exists rest_tables. }
  apply (wp_loop_total (λ l s, ∃ d, l = P * 4096 + 4 * d ∧ 0 ≤ d ≤ 768 ∧ half s d (1024 * d)) _ (λ l _, Z.to_nat ((P * 4096 + 3072 - l) / 4))); [|exists 0|lia].
  2:{ split_and!; [lia|lia|lia|]. apply half_start. }
  intros l s (d & -> & Hd & Hh). rewrite wrap_small by lia. destruct (decide (d < 768)) as [Hlt|Hge].
  - rewrite bool_decide_true by lia. rewrite wrap_small by lia.
    destruct (hf_dir _ _ _ Hh d ltac:(lia)) as (e & He & Hw). apply wp_bind. apply (wp_load Full _ e); [done|]. apply wp_bind.
    assert (∀ s', half s' (d + 1) (1024 * (d + 1)) → wp Full (mret (inl (P * 4096 + 4 * d + 4)))
      (λ (r : Z + unit) s'', match r with inl l' => (∃ i', l' = P * 4096 + 4 * i' ∧ 0 ≤ i' ≤ 768 ∧ half s'' i' (1024 * i')) ∧
         (Z.to_nat ((P * 4096 + 3072 - l') / 4) < Z.to_nat ((P * 4096 + 3072 - (P * 4096 + 4 * d)) / 4))%nat
         | inr _ => wp Full (free_page (P * 4096)) Q s'' end) s') as Hnext.
    { intros s' Hs'. apply wp_ret. split; [|lia]. exists (d + 1). split_and!; [lia|lia|lia|done]. }
    destruct (T !! d) as [j|] eqn:Hj.
    + pose proof Hw as (_ & Hb0 & _). rewrite flagged_P, Hb0. apply wp_bind.
      destruct (table_page d j Hj) as [Hpj _]. pose proof (rep_page _ _ _ _ Hram R _ _ Hpj) as Hjr. unfold WINDOW in Hjr.
      eapply wp_assume_some; [apply pde_get_pt_page; [done|unfold WINDOW; lia]|]. apply wp_bind. apply (wp_free_frames s d j); [done|done|].
      intros s1 Hs1. apply (wp_half_table s1 d j); [done|done|]. intros s2 Hs2. by apply Hnext.
    + subst e. apply Hnext. apply half_next; [done|lia|done].
  - rewrite bool_decide_false by lia. apply wp_ret, Hend. by replace d with 768 in Hh by lia.
Qed.

End destroy.

End ops.
