(* ===== verification/KPageDirMain.v ===== *)
(** * Pintos: what address spaces promise

    Any client of the page directories, with any accesses of user programs in between,
    sees what the specification on worlds allows, whatever the processor caches; the
    pools account for every page; all directories share the kernel's mappings, which
    [paging_init] makes. *)

From stdpp Require Import base tactics list gmap.
From Stdlib Require Import ZArith Lia.
From S2P Require Import Prelude Bitmap BitmapProps KMalloc KMallocProps KPalloc KPallocMain KPageDir KPageDirProps KPageDirInv KPageDirOps.

Local Open Scope Z_scope.
#[local] Ltac Zify.zify_post_hook ::= Z.to_euclidean_division_equations.

(** ** The calls *)

(** Directories and frames are named by their page numbers, user pages by theirs.
    [Read], [Write] and [Evict] are the user program and the processor. *)
Inductive call :=
  | Create
  | Destroy (P : Z)
  | Activate (o : option Z)
  | SetPage (P v f : Z) (wr : bool)
  | GetPage (P va : Z)
  | ClearPage (P v : Z)
  | IsDirty (P v : Z)
  | SetDirty (P v : Z) (b : bool)
  | IsAccessed (P v : Z)
  | SetAccessed (P v : Z) (b : bool)
  | GetFrame (zero : bool)
  | FreeFrame (f : Z)
  | Read (va : Z)
  | Write (va byte : Z)
  | Evict (v : Z).

Inductive res :=
  | RNone
  | RBool (b : bool)
  | RAddr (o : option Z)
  | RByte (o : option (option Z)).

Definition do_call (init_page_dir ram : Z) (c : call) : M mach res :=
  let a j := j * 4096 in
  match c with
  | Create => r ← pagedir_create init_page_dir; mret (RAddr r)
  | Destroy P => pagedir_destroy init_page_dir (a P);; mret RNone
  | Activate o => pagedir_activate init_page_dir (match o with Some P => a P | None => 0 end);; mret RNone
  | SetPage P v f wr => r ← pagedir_set_page init_page_dir ram (a P) (a v) (a f) wr; mret (RBool r)
  | GetPage P va => r ← pagedir_get_page (a P) va; mret (RAddr r)
  | ClearPage P v => pagedir_clear_page init_page_dir (a P) (a v);; mret RNone
  | IsDirty P v => r ← pagedir_is_dirty (a P) (a v); mret (RBool r)
  | SetDirty P v b => pagedir_set_dirty init_page_dir (a P) (a v) b;; mret RNone
  | IsAccessed P v => r ← pagedir_is_accessed (a P) (a v); mret (RBool r)
  | SetAccessed P v b => pagedir_set_accessed init_page_dir (a P) (a v) b;; mret RNone
  | GetFrame zero => r ← get_page (frame_flags zero); mret (RAddr r)
  | FreeFrame f => free_page (a f);; mret RNone
  | Read va => r ← user_read va; mret (RByte r)
  | Write va byte => r ← user_write va byte; mret (RBool r)
  | Evict v => evict v;; mret RNone
  end.

(** ** The specification *)

Definition user_page (v : Z) : Prop := 0 ≤ v < 786432.

(** When a call is allowed: the directory exists, the page is one of user space; only
    an unmapped page is mapped, and only to a frame that is not mapped elsewhere; the
    active directory is not destroyed. *)
Definition pre (w : world) (c : call) : Prop :=
  match c with
  | Create | GetFrame _ | Evict _ => True
  | Destroy P => is_Some (dirs w !! P) ∧ active w ≠ Some P
  | Activate o => ∀ P, o = Some P → is_Some (dirs w !! P)
  | SetPage P v f _ => is_Some (dirs w !! P) ∧ user_page v ∧ entry_at (dirs w) P v = None ∧ f ∈ owned w
  | GetPage P va => is_Some (dirs w !! P) ∧ 0 ≤ va < PHYS_BASE
  | ClearPage P v | IsDirty P v | SetDirty P v _ | IsAccessed P v | SetAccessed P v _ => is_Some (dirs w !! P) ∧ user_page v
  | FreeFrame f => f ∈ owned w
  | Read va | Write va _ => 0 ≤ va < PHYS_BASE
  end.

Definition set_entries (P : Z) (f : gmap Z entry → gmap Z entry) (O : gset Z) (w : world) : world :=
  World (alter f P (dirs w)) O (active w) (bytes w).

Definition phys (x : entry) (va : Z) : Z := frame x * 4096 + va mod 4096.

(** The user program has touched a page. *)
Definition touched (write : bool) (va : Z) (w : world) : world :=
  match active w with Some P => change (touch write) P (va / 4096) w | None => w end.

(** What a call may return, and the world after it *)
Definition post (w : world) (c : call) (r : res) (w' : world) : Prop :=
  match c with
  | Create =>
      (r = RAddr None ∧ w' = w) ∨
      ∃ P, dirs w !! P = None ∧ r = RAddr (Some (P * 4096)) ∧ w' = with_dirs (<[P := ∅]> (dirs w)) w
  | Destroy P => r = RNone ∧ w' = with_dirs (delete P (dirs w)) w
  | Activate o => r = RNone ∧ w' = World (dirs w) (owned w) o (bytes w)
  | SetPage P v f wr =>
      (r = RBool false ∧ w' = w) ∨
      (r = RBool true ∧ w' = set_entries P (<[v := Entry f wr false false]>) (owned w ∖ {[f]}) w)
  | GetPage P va => r = RAddr ((λ x, phys x va) <$> entry_at (dirs w) P (va / 4096)) ∧ w' = w
  | ClearPage P v =>
      r = RNone ∧
      w' = match entry_at (dirs w) P v with Some x => set_entries P (delete v) (owned w ∪ {[frame x]}) w | None => w end
  | IsDirty P v => (∃ b, r = RBool b) ∧ (∀ x, entry_at (dirs w) P v = Some x → r = RBool (dirty x)) ∧ w' = w
  | SetDirty P v b => r = RNone ∧ w' = change (set_drt b) P v w
  | IsAccessed P v => (∃ b, r = RBool b) ∧ (∀ x, entry_at (dirs w) P v = Some x → r = RBool (accessed x)) ∧ w' = w
  | SetAccessed P v b => r = RNone ∧ w' = change (set_acc b) P v w
  | GetFrame zero =>
      (r = RAddr None ∧ w' = w) ∨
      ∃ f bs, ¬ held w f ∧ r = RAddr (Some (f * 4096)) ∧ w' = World (dirs w) (owned w ∪ {[f]}) (active w) bs ∧
        (∀ z, z / 4096 ≠ f → bs !! z = bytes w !! z) ∧ (zero = true → ∀ z, z / 4096 = f → bs !! z = Some 0)
  | FreeFrame f => r = RNone ∧ w' = World (dirs w) (owned w ∖ {[f]}) (active w) (bytes w)
  | Read va =>
      match active_entry w (va / 4096) with
      | Some x => r = RByte (Some (bytes w !! phys x va)) ∧ w' = touched false va w
      | None => r = RByte None ∧ w' = w
      end
  | Write va byte =>
      match active_entry w (va / 4096) with
      | Some x =>
          if writable x
          then r = RBool true ∧ w' = World (dirs (touched true va w)) (owned w) (active w) (<[phys x va := byte]> (bytes w))
          else r = RBool false ∧ w' = w
      | None => r = RBool false ∧ w' = w
      end
  | Evict _ => r = RNone ∧ w' = w
  end.

(** ** One call *)

Section sim.
Context (kern : gmap Z Z) (ram I : Z) (others : Z → Prop) (Hram : ram < 262144).

Local Abbreviation inv := (inv kern ram I others).

Lemma set_entries_eq P f O w A : dirs w !! P = Some A →
  set_entries P f O w = World (<[P := f A]> (dirs w)) O (active w) (bytes w).
Proof. intros HA. unfold set_entries. by rewrite (alter_as_insert _ _ _ A HA). Qed.

Lemma entry_at_dir (D : gmap Z (gmap Z entry)) P A v : D !! P = Some A → entry_at D P v = A !! v.
Proof. intros HA. unfold entry_at. by rewrite HA. Qed.

(** [PTE_D] and [PTE_A] *)
Lemma sim_is_flag s w P v f k (g : entry → bool) :
  inv s w → is_Some (dirs w !! P) → user_page v → f = 2 ^ k → 0 ≤ k → (∀ e x, decode e = Some x → g x = Z.testbit e k) →
  wp Full (r ← is_flag f (P * 4096) (v * 4096); mret (RBool r))
    (λ r s', ∃ w', ((∃ b, r = RBool b) ∧ (∀ x, entry_at (dirs w) P v = Some x → r = RBool (g x)) ∧ w' = w) ∧ inv s' w') s.
Proof using Hram.
  intros [TT R] [A HA] Hv Hf Hk Hg. apply wp_bind. apply (wp_is_flag kern ram I others Hram R Full f k P A v); [done|done|done|done|].
  intros b Hb. apply wp_ret. exists w. split; [|by exists TT]. split_and!; [by eexists| |done]. intros x.
  rewrite (entry_at_dir _ _ _ _ HA). intros Hx. destruct (Hb x Hx) as (e & He & ->). by rewrite (Hg e x He).
Qed.

Lemma sim_set_flag s w P v b f (g : bool → entry → entry) :
  0 ≤ f < 4096 → Z.testbit f 0 = false → Z.testbit f 2 = false →
  (∀ e, decode (Z.lor e f) = g true <$> decode e) → (∀ e, decode (Z.ldiff e f) = g false <$> decode e) →
  (∀ b x, frame (g b x) = frame x ∧ writable (g b x) = writable x) →
  (∀ x, (accessed x = true → accessed (g true x) = true) ∧ (dirty x = true → dirty (g true x) = true)) →
  inv s w → is_Some (dirs w !! P) → user_page v →
  wp Full (set_flag (I * 4096) f (P * 4096) (v * 4096) b;; mret RNone)
    (λ r s', ∃ w', (r = RNone ∧ w' = change (g b) P v w) ∧ inv s' w') s.
Proof using Hram.
  intros H1 H2 H3 H4 H5 H6 H7 [TT R] [A HA] Hv. apply wp_bind.
  apply (wp_set_flag kern ram I others Hram Full f g s w TT P A v b); try done. intros s' Hs'. apply wp_ret. by eexists.
Qed.

(** The accesses of a user program *)
Lemma sim_read s w va : inv s w → 0 ≤ va < PHYS_BASE →
  wp Full (r ← user_read va; mret (RByte r)) (λ r s', ∃ w', post w (Read va) r w' ∧ inv s' w') s.
Proof using Hram.
  intros [TT R] Hva. apply wp_bind. apply (wp_user_read kern ram I others Hram Full va s w TT); [done|done| |].
  - intros Hn. apply wp_ret. exists w. split; [|by exists TT]. cbn. by rewrite Hn.
  - intros P x s' HP Hx Hs'. apply wp_ret. eexists. split; [|exact Hs']. cbn. unfold active_entry, touched. rewrite HP. cbn. by rewrite Hx.
Qed.

Lemma sim_write s w va byte : inv s w → 0 ≤ va < PHYS_BASE →
  wp Full (r ← user_write va byte; mret (RBool r)) (λ r s', ∃ w', post w (Write va byte) r w' ∧ inv s' w') s.
Proof using Hram.
  intros [TT R] Hva. apply wp_bind. apply (wp_user_write kern ram I others Hram Full va byte s w TT); [done|done| |].
  - intros Hn. apply wp_ret. exists w. split; [|by exists TT]. cbn. unfold faults in Hn. destruct (active_entry w (va / 4096)) as [x|]; [|done].
    destruct Hn as [_ ->]. done.
  - intros P x s' HP Hx Hw w' Hs'. apply wp_ret. eexists. split; [|exact Hs']. cbn. unfold active_entry, touched. rewrite HP. cbn. by rewrite Hx, Hw.
Qed.

Lemma simulation s w c : inv s w → pre w c →
  wp Full (do_call (I * 4096) ram c) (λ r s', ∃ w', post w c r w' ∧ inv s' w') s.
Proof using Hram.
  intros Hinv Hpre. pose proof Hinv as [TT R]. destruct c; cbn [do_call] in *; cbn [pre] in Hpre.
  - apply wp_bind. apply (wp_pagedir_create kern ram I others Full s w TT); [done| |].
    + intros _. apply wp_ret. exists w. split; [by left|done].
    + intros P s' HP Hs'. apply wp_ret. eexists. split; [right; by exists P|done].
  - destruct Hpre as [[A HA] Hna]. destruct (rep_dir _ _ _ _ R P A HA) as [T HT]. apply wp_bind.
    apply (wp_pagedir_destroy kern ram I others Hram R HT HA Hna). intros s' Hs'. apply wp_ret. by eexists.
  - apply wp_bind. apply (wp_activate I others Full o).
    + destruct o as [P|]; cbn; [|pose proof (rep_I _ _ _ _ Hram R); lia]. destruct (Hpre P eq_refl) as [A HA].
      destruct (rep_dir_page kern ram I others Hram R P A HA) as (T & _ & HP & _). lia.
    + apply wp_ret. eexists. split; [done|]. exists TT. by apply rep_activate.
  - destruct Hpre as ([A HA] & Hv & Hn & Hf). rewrite (entry_at_dir _ _ _ _ HA) in Hn. apply wp_bind.
    apply (wp_pagedir_set_page kern ram I others Hram Full s w TT P A v f wr); try done.
    + intros _. apply wp_ret. exists w. split; [by left|done].
    + intros s' Hs'. apply wp_ret. eexists. split; [right; by rewrite (set_entries_eq _ _ _ _ A HA)|done].
  - destruct Hpre as ([A HA] & Hva). apply wp_bind. apply (wp_pagedir_get_page kern ram I others Hram R Full P A va); [done|done|].
    apply wp_ret. exists w. cbn. by rewrite (entry_at_dir _ _ _ _ HA).
  - destruct Hpre as ([A HA] & Hv). apply wp_bind. apply (wp_pagedir_clear_page kern ram I others Hram Full s w TT P A v); try done.
    + intros Hn. apply wp_ret. exists w. cbn. by rewrite (entry_at_dir _ _ _ _ HA), Hn.
    + intros x s' Hx Hs'. apply wp_ret. eexists. split; [|done]. cbn. by rewrite (entry_at_dir _ _ _ _ HA), Hx, (set_entries_eq _ _ _ _ A HA).
  - destruct Hpre as [HA Hv]. apply (sim_is_flag s w P v PTE_D 6 dirty); try done. intros e x. unfold decode.
    destruct (Z.testbit e 0); [|done]. by intros [= <-].
  - destruct Hpre as [HA Hv]. apply (sim_set_flag s w P v b PTE_D set_drt); try done; [apply decode_lor_D|apply decode_ldiff_D].
  - destruct Hpre as [HA Hv]. apply (sim_is_flag s w P v PTE_A 5 accessed); try done. intros e x. unfold decode.
    destruct (Z.testbit e 0); [|done]. by intros [= <-].
  - destruct Hpre as [HA Hv]. apply (sim_set_flag s w P v b PTE_A set_acc); try done; [apply decode_lor_A|apply decode_ldiff_A].
  - apply wp_bind. apply (wp_get_frame kern ram I others Full zero s w TT); [done| |].
    + intros _. apply wp_ret. exists w. split; [by left|done].
    + intros f s' bs H1 H2 H3 Hs'. apply wp_ret. eexists. split; [right; by exists f, bs|done].
  - apply wp_bind. apply (wp_free_frame kern ram I others Full s w TT f); [done|done|]. intros s' Hs'. apply wp_ret. by eexists.
  - by apply sim_read.
  - by apply sim_write.
  - apply wp_bind, wp_modify, wp_ret. exists w. split; [done|]. exists TT. by apply rep_evict.
Qed.

(** ** Clients *)

(** A client goes on in a way that depends on the results so far. *)
Inductive client :=
  | Stop
  | Call (c : call) (k : res → client).

Fixpoint exec (init_page_dir ram : Z) (p : client) : M mach (list res) :=
  match p with
  | Stop => mret []
  | Call c k => r ← do_call init_page_dir ram c; rs ← exec init_page_dir ram (k r); mret (r :: rs)
  end.

(** Every call of the client is allowed, whatever the results. *)
Fixpoint allowed (w : world) (p : client) : Prop :=
  match p with
  | Stop => True
  | Call c k => pre w c ∧ ∀ r w', post w c r w' → allowed w' (k r)
  end.

(** The specification can produce the results, and ends in the world [w']. *)
Fixpoint traced (w : world) (p : client) (rs : list res) (w' : world) : Prop :=
  match p, rs with
  | Stop, [] => w' = w
  | Call c k, r :: rs => ∃ w1, post w c r w1 ∧ traced w1 (k r) rs w'
  | _, _ => False
  end.

Lemma wp_exec p : ∀ s w, inv s w → allowed w p →
  wp Full (exec (I * 4096) ram p) (λ rs s', ∃ w', traced w p rs w' ∧ inv s' w') s.
Proof using Hram.
  induction p as [|c k IH]; intros s w Hs Hp; [apply wp_ret; by exists w|]. destruct Hp as [Hpre Hk]. apply wp_bind.
  eapply wp_mono; [by apply (simulation s w c)|]. intros r s1 (w1 & Hpost & Hs1). apply wp_bind.
  eapply wp_mono; [apply (IH r s1 w1 Hs1); by apply Hk|]. intros rs s2 (w2 & Ht & Hs2). apply wp_ret. exists w2. split; [by exists w1|done].
Qed.

(** ** What every directory says of the kernel's pages *)

(** The entry for page [page] of physical memory in the kernel's window *)
Definition kernel_pte (text : Z → bool) (page x : Z) : Prop :=
  decode x = Some (Entry (WINDOW + page) (negb (text page)) false false) ∧ Z.testbit x 2 = false.

Definition kernel_view (text : Z → bool) (m : gmap Z Z) (P : Z) : Prop :=
  ∀ page, 0 ≤ page < ram → ∃ e j x, ent m P (768 + page / 1024) = Some e ∧ pde_for e j ∧ others j ∧
    ent m j (page mod 1024) = Some x ∧ kernel_pte text page x.

Lemma kernel_view_shared text s w P : inv s w → kernel_view text kern I → P = I ∨ is_Some (dirs w !! P) → kernel_view text (mem s) P.
Proof using Hram.
  intros [TT R] Hk HP page Hpage. destruct (Hk page Hpage) as (e & j & x & He & Hpde & Hj & Hx & Hok).
  destruct (rp_init _ _ _ _ _ _ _ R) as [HI [Hkeep Hw]].
  assert (∀ k, others k → agree kern (mem s) k) as Ha by (intros k Hk' z <-; by apply Hkeep).
  assert (ent (mem s) P (768 + page / 1024) = Some e) as HeP.
  { destruct HP as [->|[A HA]]; [rewrite (ent_agree kern); [done|by apply Ha|lia]|].
    destruct (rep_dir _ _ _ _ R P A HA) as [T HT]. destruct (st_dir _ _ _ _ (rp_struct _ _ _ _ _ _ _ R) P T HT (768 + page / 1024) ltac:(lia)) as (e' & He' & Hw').
    unfold dir_word in Hw'. rewrite decide_False in Hw' by lia. unfold kwords in Hw'. rewrite He in Hw'. by subst e'. }
  exists e, j, x. split_and!; try done. rewrite (ent_agree kern); [done|by apply Ha|lia].
Qed.

(** The pools hold just the pages that are in use: the kernel's own, those of the
    directories and their tables, and the frames. *)
Definition accounts (s : mach) (w : world) : Prop :=
  (∀ f, held w f ↔ in_pool (user_pool (pm s)) f ∧ is_used (user_pool (pm s)) f = true) ∧
  (∀ P, is_Some (dirs w !! P) → in_pool (kernel_pool (pm s)) P ∧ is_used (kernel_pool (pm s)) P = true) ∧
  (dirs w = ∅ → ∀ j, others j ↔ in_pool (kernel_pool (pm s)) j ∧ is_used (kernel_pool (pm s)) j = true).

Lemma inv_accounts s w : inv s w → accounts s w.
Proof using Type.
  intros [TT R]. pose proof (rp_pools _ _ _ _ _ _ _ R) as Hp. split_and!.
  - intros f. apply (po_f _ _ _ _ Hp).
  - intros P [A HA]. destruct (rep_dir _ _ _ _ R P A HA) as [T HT]. apply (po_k _ _ _ _ Hp). right. exists (P, None). by eapply page_of_dir.
  - intros HD j. rewrite <- (po_k _ _ _ _ Hp). split; [by left|]. intros [?|[r Hr]]; [done|]. unfold page_of in Hr.
    destruct (TT !! r.1) as [T|] eqn:HT; [|done]. destruct (proj1 (st_dom _ _ _ _ (rp_struct _ _ _ _ _ _ _ R) r.1)) as [A HA]; [by eexists|].
    by rewrite HD, lookup_empty in HA.
Qed.

End sim.

(** C6 (refinement): a client that creates, fills, activates and destroys page
    directories and takes and gives back frames, with reads and writes of user programs
    and forgotten translations in between, runs without a failed assertion and gets the
    results of the specification on worlds, which knows maps from pages to frames but
    neither tables nor cached translations; in the end the pools account for every
    page, so that nothing has leaked, and every directory shows the kernel's pages as
    the first one did. *)
Theorem address_spaces_refine kern ram I others text s w p :
  ram < 262144 → inv kern ram I others s w → kernel_view ram others text kern I → allowed w p →
  wp Full (exec (I * 4096) ram p)
    (λ rs s', ∃ w', traced w p rs w' ∧ inv kern ram I others s' w' ∧ accounts others s' w' ∧
       ∀ P, P = I ∨ is_Some (dirs w' !! P) → kernel_view ram others text (mem s') P) s.
Proof.
  intros Hram Hs Hk Hp. eapply wp_mono; [by apply (wp_exec kern ram I others Hram p s w)|].
  intros rs s' (w' & Ht & Hs'). exists w'. split_and!; [done|done|by apply (inv_accounts kern ram I)|].
  intros P HP. by apply (kernel_view_shared kern ram I others Hram text s' w').
Qed.
