(* ===== verification/KPageDirBoot.v ===== *)
(** * Pintos: making the kernel's page tables

    [paging_init] of [Project_3/threads/init.c]: run right after [palloc_init], it takes
    one page for the directory and one for each table, in order, and maps every page
    of memory into the kernel's window, the text of the kernel read-only. *)

From stdpp Require Import base tactics list gmap.
From Stdlib Require Import ZArith Lia.
From S2P Require Import Prelude Bitmap BitmapProps KMalloc KMallocProps KPalloc KPallocMain KPageDir KPageDirProps KPageDirInv KPageDirOps KPageDirMain.

Local Open Scope Z_scope.
#[local] Ltac Zify.zify_post_hook ::= Z.to_euclidean_division_equations.

Lemma pte_create_kernel_page f w : WINDOW ≤ f < 2 ^ 20 →
  ∃ e, pte_create_kernel (f * 4096) w = Some e ∧ u32 e ∧ decode e = Some (Entry f w false false) ∧ Z.testbit e 2 = false.
Proof.
  intros Hf. unfold pte_create_kernel. rewrite pg_ofs_page, (bool_decide_true (0 = 0)) by done. cbn [ASSERT].
  rewrite vtop_page by done. cbn [mbind option_bind]. eexists. split; [done|]. split_and!.
  - repeat apply u32_lor; [unfold u32, WINDOW in *; lia|unfold PTE_P; lia|destruct w; unfold PTE_W; lia].
  - unfold decode. rewrite !Z.lor_spec, !addr_testbit, !addr_lor, Z.div_mul by (destruct w; unfold PTE_P, PTE_W; lia).
    replace (f - WINDOW + WINDOW) with f by lia. by destruct w.
  - rewrite !Z.lor_spec, addr_testbit by lia. by destruct w.
Qed.

Section boot.
Context (ram start end_kernel_text : Z) (Hram : 0 ≤ ram < 262144).

(** The pages of the kernel's text *)
Definition in_text (page : Z) : bool :=
  bool_decide (start ≤ PHYS_BASE + page * 4096) && bool_decide (PHYS_BASE + page * 4096 < end_kernel_text).

(** The number of tables that map the pages before [page] *)
Definition tabs (page : Z) : Z := (page + 1023) / 1024.

(** ** Taking pages one after the other *)

Section pages.
Context (B N : Z) (F : Z → Prop).

(** The first [k] pages of the kernel pool are in use. *)
Definition taken (m : pmem) (k : Z) : Prop :=
  pools ram m (λ j, B ≤ j < B + k) F ∧ first_page (kernel_pool m) = B ∧ bit_cnt (used_map (kernel_pool m)) = N.

Lemma wp_get_next t k (Q : option Z → mach → Prop) s :
  taken (pm s) k → 0 ≤ k < N →
  (∀ m', taken m' (k + 1) → memory m' = fill ((B + k) * 4096) 4096 (Some 0) (mem s) → Q (Some ((B + k) * 4096)) (Mach m' (cr3 s) (tlb s))) →
  wp t (get_page (Z.lor PAL_ASSERT PAL_ZERO)) Q s.
Proof using Type.
  clear Hram. intros (Hp & HB & HN) Hk HQ. unfold get_page, pal. apply wp_bind, wp_get, wp_bind. unfold palloc_get_page.
  assert (∀ j, in_pool (kernel_pool (pm s)) j ↔ B ≤ j < B + N) as Hin by (intros j; unfold in_pool; by rewrite HB, HN).
  assert (∀ j, in_pool (kernel_pool (pm s)) j → is_used (kernel_pool (pm s)) j = true ↔ j < B + k) as Hu.
  { intros j Hj. pose proof (po_k _ _ _ _ Hp j) as E. cbn in E. pose proof (proj1 (Hin j) Hj). split; [intros ?; assert (B ≤ j < B + k) by (by apply E); lia|].
    intros ?. by apply E; lia. }
  destruct (get_multiple_spec (Z.lor PAL_ASSERT PAL_ZERO) 1 (pm s) (po_wf _ _ _ _ Hp) ltac:(lia)) as [(j & p' & Hff & Hmk & Hb & E)|[Hno _]].
  - change (flagged (Z.lor PAL_ASSERT PAL_ZERO) PAL_USER) with false in *. cbn [get_pool] in Hff, Hmk.
    destruct Hff as (Hj & _ & Hun & Hfst). pose proof (proj1 (Hin j) Hj) as Hjr.
    assert (j = B + k) as ->.
    { specialize (Hun j ltac:(lia)). assert (¬ j < B + k) by (intros H%(Hu j Hj); congruence).
      destruct (decide (j = B + k)) as [|Hne]; [done|]. exfalso. destruct (Hfst (B + k)) as (i & Hi & Hui); [apply Hin; lia|lia|].
      replace i with (B + k) in Hui by lia. apply Hu in Hui; [lia|]. apply Hin. lia. }
    eapply wp_assume_some; [exact E|]. apply wp_bind, wp_modify, wp_ret. apply HQ; [|done].
    assert (taken (set_pool false p' (pm s)) (k + 1)) as Ht.
    { split; [|split].
      - pose proof (pools_marks ram false (pm s) p' _ F (B + k) true (λ j, B ≤ j < B + (k + 1)) Hp Hmk Hb Hj) as H. apply H. cbn.
        intros i. unfold add. lia.
      - destruct Hmk as (Eb & _ & _). unfold first_page in *. cbn. by rewrite Eb.
      - destruct Hmk as (_ & _ & Ec & _). cbn. by rewrite Ec. }
    destruct Ht as (H1 & H2 & H3). split; [|done]. by apply pools_memory.
  - exfalso. change (flagged (Z.lor PAL_ASSERT PAL_ZERO) PAL_USER) with false in Hno. cbn [get_pool] in Hno.
    destruct (Hno (B + k)) as (i & Hi & Hui); [apply Hin; lia|apply Hin; lia|]. replace i with (B + k) in Hui by lia.
    apply Hu in Hui; [lia|]. apply Hin. lia.
Qed.

(** ** The loop *)

(** The tables that map the pages before [page] *)
Record built (m : gmap Z Z) (page : Z) : Prop := {
  bu_dir d : 0 ≤ d < 1024 → ∃ e, ent m B d = Some e ∧ if decide (768 ≤ d < 768 + tabs page) then pde_for e (B + 1 + (d - 768)) else e = 0;
  bu_tab p : 0 ≤ p < page → ∃ x, ent m (B + 1 + p / 1024) (p mod 1024) = Some x ∧ kernel_pte in_text p x
}.

(** A new table for the pages from [page] on *)
Lemma built_table m m1 page e :
  built m page → 0 ≤ page < ram → page mod 1024 = 0 → (∀ j, j ≠ B + 1 + page / 1024 → agree m m1 j) → pde_for e (B + 1 + page / 1024) →
  let m2 := set_word (B * 4096 + 4 * (768 + page / 1024)) e m1 in
  (∃ e', ent m2 B (768 + page / 1024) = Some e') ∧
  (∀ d, 0 ≤ d < 1024 → ∃ e, ent m2 B d = Some e ∧ if decide (768 ≤ d < 768 + tabs (page + 1)) then pde_for e (B + 1 + (d - 768)) else e = 0) ∧
  (∀ p, 0 ≤ p < page → ∃ x, ent m2 (B + 1 + p / 1024) (p mod 1024) = Some x ∧ kernel_pte in_text p x).
Proof using Hram.
  clear N F. intros [H1 H2] Hp Hmod Ha He m2. assert (u32 e) as Hu by apply He. unfold tabs in *. split_and!.
  - exists e. unfold m2. rewrite ent_set, decide_True by (done || lia). done.
  - intros d Hd. unfold m2. rewrite ent_set by (done || lia). case_decide as Hdd.
    + destruct Hdd as [_ ->]. exists e. split; [done|]. rewrite decide_True by lia. by replace (B + 1 + (768 + page / 1024 - 768)) with (B + 1 + page / 1024) by lia.
    + destruct (H1 d Hd) as (x & Hx & Hc). exists x. rewrite (ent_agree m m1) by (lia || apply Ha; lia). split; [done|].
      destruct (decide (768 ≤ d < 768 + (page + 1023) / 1024)) as [Hl|Hl]; [rewrite decide_True by lia; done|].
      rewrite decide_False; [done|]. intros Hd'. apply Hdd. split; [done|]. lia.
  - intros p Hpp. destruct (H2 p Hpp) as (x & Hx & Hk). exists x. split; [|done]. unfold m2.
    rewrite ent_set, decide_False by (done || lia). rewrite (ent_agree m m1); [done|apply Ha; lia|lia].
Qed.

(** The entry of [page] *)
Lemma built_page m page x :
  (∀ d, 0 ≤ d < 1024 → ∃ e, ent m B d = Some e ∧ if decide (768 ≤ d < 768 + tabs (page + 1)) then pde_for e (B + 1 + (d - 768)) else e = 0) →
  (∀ p, 0 ≤ p < page → ∃ x, ent m (B + 1 + p / 1024) (p mod 1024) = Some x ∧ kernel_pte in_text p x) →
  0 ≤ page → u32 x → kernel_pte in_text page x →
  built (set_word ((B + 1 + page / 1024) * 4096 + 4 * (page mod 1024)) x m) (page + 1).
Proof using Type.
  clear N F Hram. intros H1 H2 Hp Hu Hx. split.
  - intros d Hd. rewrite ent_set, decide_False by (done || lia). by apply H1.
  - intros p Hpp. rewrite ent_set by (done || lia). case_decide as Hd.
    + exists x. split; [done|]. replace p with page by lia. done.
    + apply H2. destruct (decide (p = page)) as [->|]; [tauto|lia].
Qed.

Definition ready (s : mach) (page pt : Z) : Prop :=
  0 ≤ page ≤ ram ∧ taken (pm s) (1 + tabs page) ∧ built (mem s) page ∧
  (page mod 1024 ≠ 0 → pt = (B + 1 + page / 1024) * 4096).

Lemma taken_memory f m k : taken m k → taken (set_memory f m) k.
Proof using Type. intros (H1 & H2 & H3). split; [by apply pools_memory|done]. Qed.

(** The page of a table, or of the directory *)
Lemma taken_page m k j : taken m k → B ≤ j < B + k → WINDOW ≤ j < 2 ^ 20 - 1.
Proof using Hram. intros (Hp & _) Hj. apply (pools_k_range ram ltac:(lia) _ _ _ j Hp Hj). Qed.

Lemma wp_map_ram (Q : unit → mach → Prop) s :
  1 + tabs ram ≤ N → ready s 0 0 → (∀ s', (∃ pt, ready s' ram pt) → Q tt s') → wp Full (map_ram ram start end_kernel_text (B * 4096)) Q s.
Proof using Hram.
  intros HN Hs HQ. unfold map_ram.
  apply (wp_loop_total (λ l s, ready s l.1 l.2) _ (λ l _, Z.to_nat (ram - l.1))); [|done|cbn [fst]; lia].
  clear s Hs. intros [page pt] s (Hpage & Ht & Hb & Hpt). cbn [fst snd] in *. destruct (decide (page < ram)) as [Hlt|Hge].
  2:{ rewrite bool_decide_false by lia. apply wp_ret, HQ. exists pt. assert (page = ram) as -> by lia. done. }
  rewrite bool_decide_true by lia. change PAGE with 4096. rewrite wrap_small by lia.
  apply wp_bind. eapply wp_assume_some; [replace (page * 4096) with ((WINDOW + page - WINDOW) * 4096) by lia; apply ptov_page; unfold WINDOW; lia|].
  rewrite pd_no_page, pt_no_page by (unfold WINDOW; lia). rewrite Z.div_mul by lia.
  replace ((WINDOW + page) / 1024) with (768 + page / 1024) by (unfold WINDOW; lia). replace ((WINDOW + page) mod 1024) with (page mod 1024) by (unfold WINDOW; lia).
  replace (bool_decide (start ≤ (WINDOW + page) * 4096) && bool_decide ((WINDOW + page) * 4096 < end_kernel_text)) with (in_text page)
    by (unfold in_text, PHYS_BASE, WINDOW; by replace (3221225472 + page * 4096) with ((786432 + page) * 4096) by lia).
  destruct (bu_dir _ _ Hb (768 + page / 1024)) as (e & He & Hc); [lia|]. apply wp_bind. apply (wp_load Full _ e); [done|]. apply wp_bind.
  destruct (pte_create_kernel_page (WINDOW + page) (negb (in_text page))) as (x & Ex & Hu & Hd & H2); [unfold WINDOW; lia|].
  assert (∀ s', taken (pm s') (1 + tabs (page + 1)) →
    (∀ d, 0 ≤ d < 1024 → ∃ e, ent (mem s') B d = Some e ∧ if decide (768 ≤ d < 768 + tabs (page + 1)) then pde_for e (B + 1 + (d - 768)) else e = 0) →
    (∀ p, 0 ≤ p < page → ∃ x, ent (mem s') (B + 1 + p / 1024) (p mod 1024) = Some x ∧ kernel_pte in_text p x) →
    wp Full (e ← assume_some (pte_create_kernel ((WINDOW + page) * 4096) (negb (in_text page)));
             check (bool_decide ((B + 1 + page / 1024) * 4096 ≠ 0));;
             store ((B + 1 + page / 1024) * 4096 + 4 * (page mod 1024)) e;; mret (inl (page + 1, (B + 1 + page / 1024) * 4096)))
      (λ r s'', match r with inl l' => ready s'' l'.1 l'.2 ∧ (Z.to_nat (ram - l'.1) < Z.to_nat (ram - page))%nat | inr a => Q a s'' end) s') as Hend.
  { intros s' Ht' Hd' Hp'. apply wp_bind. eapply wp_assume_some; [exact Ex|].
    assert (WINDOW ≤ B + 1 + page / 1024 < 2 ^ 20 - 1) as Hj by (apply (taken_page _ _ _ Ht'); unfold tabs; lia). unfold WINDOW in Hj.
    apply wp_bind, wp_check; [by rewrite bool_decide_true by lia|]. apply wp_bind, wp_modify, wp_ret. cbn [fst snd]. split; [|lia].
    split_and!; [lia|lia|exact (taken_memory _ _ _ Ht')| |intros Hm1; lia]. apply built_page; [exact Hd'|exact Hp'|lia|exact Hu|by split]. }
  case_decide as Hcd.
  - rewrite bool_decide_false by (by eapply pde_for_nonzero). apply wp_ret. unfold tabs in Hcd.
    assert (page mod 1024 ≠ 0) as Hmod by lia. rewrite (Hpt Hmod). assert (tabs (page + 1) = tabs page) as Et by (unfold tabs; lia).
    apply Hend; rewrite ?Et; [done|apply (bu_dir _ _ Hb)|apply (bu_tab _ _ Hb)].
  - rewrite bool_decide_true by done. unfold tabs in Hcd. assert (page mod 1024 = 0) as Hmod by lia.
    assert (tabs page = page / 1024 ∧ tabs (page + 1) = page / 1024 + 1 ∧ page / 1024 + 1 ≤ tabs ram) as (Et & Et1 & Etr) by (unfold tabs; lia).
    apply wp_bind. apply (wp_get_next Full (1 + tabs page)); [done|lia|]. intros m' Ht' Hm. cbn [default].
    change (default 0 (Some ((B + (1 + tabs page)) * 4096))) with ((B + (1 + tabs page)) * 4096).
    replace (B + (1 + tabs page)) with (B + 1 + page / 1024) in * by lia.
    assert (WINDOW ≤ B + 1 + page / 1024 < 2 ^ 20 - 1) as Hj by (apply (taken_page _ _ _ Ht'); lia). unfold WINDOW in Hj.
    destruct (pde_create_page (B + 1 + page / 1024)) as (e' & Ee & Hpde); [unfold WINDOW; lia|].
    apply wp_bind. eapply wp_assume_some; [exact Ee|]. apply wp_bind, wp_modify, wp_ret.
    destruct (built_table (mem s) (memory m') page e' Hb ltac:(lia) Hmod) as (_ & Hd' & Hp'); [intros j Hjj; rewrite Hm; by apply agree_fill|done|].
    apply Hend; [|exact Hd'|exact Hp']. apply taken_memory. cbn [pm]. by replace (1 + tabs (page + 1)) with (1 + tabs page + 1) by lia.
Qed.

End pages.

(** ** [paging_init] *)

(** The pages of the kernel's directory and tables, the directory first *)
Definition boot_pages (B j : Z) : Prop := B ≤ j < B + (1 + tabs ram).

(** No directory, no frame *)
Definition empty_world : world := World ∅ ∅ None ∅.

Lemma wp_paging_init s B N :
  taken B N (λ _, False) (pm s) 0 → 1 + tabs ram ≤ N →
  wp Full (paging_init ram start end_kernel_text)
    (λ pd s', pd = B * 4096 ∧ inv (mem s') ram B (boot_pages B) s' empty_world ∧
       kernel_view ram (boot_pages B) in_text (mem s') B) s.
Proof using Hram.
  intros Ht HN. assert (0 ≤ tabs ram) as Htr by (unfold tabs; lia). unfold paging_init. apply wp_bind.
  apply (wp_get_next B N _ Full 0 _ s Ht); [lia|]. intros m1 Ht1 Hm1.
  change (default 0 (Some ((B + 0) * 4096))) with ((B + 0) * 4096). replace (B + 0) with B in * by lia. apply wp_bind.
  apply (wp_map_ram B N (λ _, False)); [done| |].
  { split_and!; [lia|lia|done| |done]. split; [|lia]. intros d Hd. exists 0. unfold mem. cbn [pm]. rewrite Hm1, ent_zero by done.
    split; [done|]. by rewrite decide_False by (unfold tabs; lia). }
  intros s' (pt & _ & Ht' & Hb & _). assert (WINDOW ≤ B < 2 ^ 20 - 1) as HB by (apply (taken_page B N _ _ _ B Ht'); lia).
  apply wp_bind. eapply wp_assume_some; [apply vtop_page; unfold WINDOW in *; lia|]. apply wp_bind, wp_modify, wp_ret. split; [done|]. split.
  - exists ∅. assert (∀ r, page_of ∅ r = None) as Hno by (intros r; unfold page_of; by rewrite lookup_empty).
    split; unfold mem; cbn [pm cr3 tlb empty_world dirs owned active bytes].
    + split; try (intros * H; by rewrite lookup_empty in H). * intros P. by rewrite !lookup_empty. * intros r r' j H. by rewrite Hno in H.
    + destruct Ht' as (Hp & _ & _). eapply pools_ext; [exact Hp| |].
      * intros j. unfold kernel_use, boot_pages. setoid_rewrite Hno. split; [by left|]. by intros [?|[? ?]].
      * intros f. split; [done|]. intros [Hf|(P & v & x & Hx & _)]; [by apply elem_of_empty in Hf|]. unfold entry_at in Hx. cbn in Hx. by rewrite lookup_empty in Hx.
    + intros r j H. by rewrite Hno in H.
    + split; [unfold boot_pages; lia|]. split; [by intros z _|]. intros d Hd. destruct (bu_dir _ _ _ Hb d Hd) as (e & He & Hc). unfold kwords, mem in *. rewrite He. cbn.
      destruct (decide (d < 768)); [|done]. by rewrite decide_False in Hc by lia; subst e.
    + split; [intros * H|intros * H]; unfold entry_at in H; by rewrite lookup_empty in H.
    + done.
    + done.
    + done.
    + intros z [Hf|(P & v & x & Hx & _)]; [by apply elem_of_empty in Hf|]. unfold entry_at in Hx. cbn in Hx. by rewrite lookup_empty in Hx.
  - intros page Hpage. destruct (bu_dir _ _ _ Hb (768 + page / 1024) ltac:(lia)) as (e & He & Hc).
    rewrite decide_True in Hc by (unfold tabs; lia). destruct (bu_tab _ _ _ Hb page Hpage) as (x & Hx & Hk).
    exists e, (B + 1 + page / 1024), x. replace (B + 1 + (768 + page / 1024 - 768)) with (B + 1 + page / 1024) in Hc by lia.
    split_and!; try done; unfold boot_pages, tabs in *; lia.
Qed.

(** The pools that [palloc_init] makes *)
Lemma palloc_init_taken limit kbuf ubuf mem0 :
  258 ≤ ram → 1 ≤ limit → buffer (kernel_share ram limit) kbuf → buffer (user_share ram limit) ubuf →
  ∃ m, palloc_init ram limit kbuf ubuf mem0 = Some m ∧
    taken (0xc0100 + bm_pages (kernel_share ram limit)) (kernel_share ram limit - bm_pages (kernel_share ram limit)) (λ _, False) m 0.
Proof using Hram.
  intros H1 H2 H3 H4. destruct (palloc_init_run ram limit kbuf ubuf mem0) as (m & E & Hwf & Hm & Zk & Zu & Fk & Ck & Fu & Cu & G1 & G2 & G3 & G4); [lia|done|done|done|].
  exists m. split; [done|]. split; [|done]. split; [done| | |].
  - intros [] j; cbn [get_pool]; unfold in_pool, WINDOW; [rewrite Fu, Cu|rewrite Fk, Ck]; intros Hj; lia.
  - intros j. split; [lia|]. intros [Hj Hu]. by rewrite (Zk j Hj) in Hu.
  - intros j. split; [done|]. intros [Hj Hu]. by rewrite (Zu j Hj) in Hu.
Qed.

End boot.

(** C29 (functional): run after [palloc_init] with room for the tables in the kernel
    pool, [paging_init] makes a directory in which every page of memory is mapped at its
    place in the kernel's window, for the kernel only, and writable unless it is part
    of the kernel's text; no user page is mapped, only the directory and its tables are
    in use, and the directory is active. *)
Theorem paging_init_maps ram limit kbuf ubuf mem0 start end_kernel_text c tl :
  258 ≤ ram < 262144 → 1 ≤ limit → buffer (kernel_share ram limit) kbuf → buffer (user_share ram limit) ubuf →
  1 + tabs ram ≤ kernel_share ram limit - bm_pages (kernel_share ram limit) →
  ∃ m, palloc_init ram limit kbuf ubuf mem0 = Some m ∧
    wp Full (paging_init ram start end_kernel_text)
      (λ pd s', ∃ I, pd = I * 4096 ∧ inv (mem s') ram I (boot_pages ram I) s' empty_world ∧
         kernel_view ram (boot_pages ram I) (in_text start end_kernel_text) (mem s') I ∧ tlb s' = ∅)
      (Mach m c tl).
Proof.
  intros H1 H2 H3 H4 H5. destruct (palloc_init_taken ram ltac:(lia) limit kbuf ubuf mem0) as (m & E & Ht); [lia|done|done|done|].
  exists m. split; [done|]. pose proof (wp_paging_init ram start end_kernel_text ltac:(lia) (Mach m c tl) _ _ Ht H5) as Hw.
  eapply wp_mono; [apply wp_and; [exact Hw|]|].
  2:{ intros pd s' [(Hpd & Hi & Hk) Htl]. eexists. split_and!; [exact Hpd|exact Hi|exact Hk|exact Htl]. }
  apply wp_total_run in Hw as (pd & s' & Er & _). unfold wp. rewrite Er. clear -Er. unfold paging_init in Er.
  unfold mbind, M_bind in Er. destruct (get_page _ _) as [[o s1]| |]; [|done|done].
  destruct (map_ram _ _ _ _ _) as [[u s2]| |]; [|done|done]. destruct (vtop _) as [p|]; [|done]. cbn in Er. by injection Er as _ <-.
Qed.

(** ** Witnesses *)

Definition a_ram : Z := 400.
Definition a_buf : list Z := replicate 1022 0.

Lemma a_kbuf : buffer (kernel_share a_ram 100) a_buf.
Proof. split; [by vm_compute|by apply Forall_replicate]. Qed.

Lemma a_ubuf : buffer (user_share a_ram 100) a_buf.
Proof. split; [by vm_compute|by apply Forall_replicate]. Qed.

Lemma a_room : 1 + tabs a_ram ≤ kernel_share a_ram 100 - bm_pages (kernel_share a_ram 100).
Proof. apply (bool_decide_unpack _). vm_compute. exact Logic.I. Qed.

Lemma paging_init_maps_witness :
  ∃ m, palloc_init a_ram 100 a_buf a_buf ∅ = Some m ∧
    wp Full (paging_init a_ram 0xc0020000 0xc0030000)
      (λ pd s', ∃ I, pd = I * 4096 ∧ inv (mem s') a_ram I (boot_pages a_ram I) s' empty_world ∧
         kernel_view a_ram (boot_pages a_ram I) (in_text 0xc0020000 0xc0030000) (mem s') I ∧ tlb s' = ∅)
      (Mach m 0 ∅).
Proof.
  apply (paging_init_maps a_ram 100 a_buf a_buf ∅ 0xc0020000 0xc0030000 0 ∅);
    [unfold a_ram; lia|lia|apply a_kbuf|apply a_ubuf|apply a_room].
Defined.

(** A process with one writable page, which it writes and reads *)
Definition a_process (P : Z) : client :=
  Call (Write (5 * 4096 + 7) 65) (λ _,
  Call (Read (5 * 4096 + 7)) (λ _,
  Call (IsDirty P 5) (λ _,
  Call (SetDirty P 5 false) (λ _,
  Call (Write (5 * 4096 + 8) 66) (λ _,
  Call (IsDirty P 5) (λ _,
  Call (Activate None) (λ _,
  Call (Read (5 * 4096 + 7)) (λ _,
  Call (Destroy P) (λ _, Stop))))))))).

Definition a_client : client :=
  Call Create (λ r, match r with
  | RAddr (Some a) =>
    Call (GetFrame true) (λ r, match r with
    | RAddr (Some b) =>
      Call (SetPage (a / 4096) 5 (b / 4096) true) (λ r, match r with
      | RBool true => Call (Activate (Some (a / 4096))) (λ _, a_process (a / 4096))
      | _ => Stop
      end)
    | _ => Stop
    end)
  | _ => Stop
  end).

(** The calls of a running process leave its directory in place, and active. *)
Lemma run_keeps w c r w' P :
  post w c r w' → match c with Read _ | Write _ _ | IsDirty _ _ | SetDirty _ _ _ => True | _ => False end → is_Some (dirs w !! P) ∧ active w = Some P → is_Some (dirs w' !! P) ∧ active w' = Some P.
Proof.
  assert (∀ g Q v w, is_Some (dirs w !! P) ∧ active w = Some P → is_Some (dirs (change g Q v w) !! P) ∧ active (change g Q v w) = Some P) as Hch.
  { intros g Q v w0 [H1 H2]. split; [|done]. unfold change, with_dirs. cbn. by apply lookup_alter_is_Some. }
  assert (∀ b va w, is_Some (dirs w !! P) ∧ active w = Some P → is_Some (dirs (touched b va w) !! P) ∧ active (touched b va w) = Some P) as Ht.
  { intros b0 va w0 H. unfold touched. destruct (active w0) eqn:E; [apply Hch; by rewrite E|by destruct H]. }
  intros Hpost Hc. revert Hpost. destruct c; cbn [post]; try done.
  - intros (_ & _ & ->). done.
  - intros [_ ->]. apply Hch.
  - destruct (active_entry w (va / 4096)); intros [_ ->]; [apply Ht|done].
  - destruct (active_entry w (va / 4096)) as [x|]; [destruct (writable x)|]; intros [_ ->]; [|done|done].
    intros H. cbn [dirs active]. split; [exact (proj1 (Ht _ _ _ H))|apply H].
Qed.

Ltac run_call H :=
  split; [cbn [pre]; unfold PHYS_BASE, user_page; solve [lia | split; [apply H|lia]]|];
  let Hp := fresh in intros ? ? Hp; pose proof (run_keeps _ _ _ _ _ Hp Logic.I H) as Hnew; clear H Hp; rename Hnew into H.

Lemma a_process_allowed P w : is_Some (dirs w !! P) → active w = Some P → allowed w (a_process P).
Proof.
  intros H1 H2. pose proof (conj H1 H2) as H. clear H1 H2. unfold a_process. do 6 run_call H.
  split; [done|]. intros ? ? [-> ->]. split; [cbn [pre]; unfold PHYS_BASE; lia|]. intros ? ? Hp. cbn in Hp. destruct Hp as [-> ->].
  split; [split; [apply H|done]|]. done.
Qed.

Lemma a_client_allowed : allowed empty_world a_client.
Proof.
  split; [done|]. intros r w1 [[-> ->]|(P & HP & -> & ->)]; [done|]. cbn zeta match. rewrite Z.div_mul by lia.
  split; [done|]. intros r w2 [[-> ->]|(f & bs & Hf & -> & -> & _ & Hz)]; [done|]. cbn match. rewrite Z.div_mul by lia. split.
  { split; [by eexists; apply lookup_insert_eq|]. split; [unfold user_page; lia|]. split; [|cbn; set_solver].
    unfold entry_at. cbn. by rewrite lookup_insert_eq. }
  intros r w3 [[-> ->]|[-> ->]]; [done|]. cbn match. set (w3 := set_entries _ _ _ _).
  assert (is_Some (dirs w3 !! P)) as H3 by (apply lookup_alter_is_Some; by eexists; apply lookup_insert_eq).
  split; [by intros ? [= <-]|]. intros r w4 [-> ->]. by apply a_process_allowed.
Qed.

Lemma address_spaces_refine_witness :
  (∃ I s, inv (mem s) a_ram I (boot_pages a_ram I) s empty_world ∧
     wp Full (exec (I * 4096) a_ram a_client)
       (λ rs s', ∃ w', traced empty_world a_client rs w' ∧ inv (mem s) a_ram I (boot_pages a_ram I) s' w' ∧
          accounts (boot_pages a_ram I) s' w' ∧
          ∀ P, P = I ∨ is_Some (dirs w' !! P) → kernel_view a_ram (boot_pages a_ram I) (in_text 0xc0020000 0xc0030000) (mem s') P) s) ∧
  match palloc_init a_ram 100 a_buf a_buf ∅ with
  | Some m =>
      match (pd ← paging_init a_ram 0xc0020000 0xc0030000; exec pd a_ram a_client) (Mach m 0 ∅) with
      | Done (rs, _) =>
          rs = [RAddr (Some 0xc0103000); RAddr (Some 0xc0149000); RBool true; RNone; RBool true; RByte (Some (Some 65));
                RBool true; RNone; RBool true; RBool true; RNone; RByte None; RNone]
      | _ => False
      end
  | None => False
  end.
Proof.
  split; [|vm_compute; reflexivity].
  destruct (palloc_init_taken a_ram ltac:(unfold a_ram; lia) 100 a_buf a_buf ∅) as (m & E & Ht);
    [unfold a_ram; lia|lia|apply a_kbuf|apply a_ubuf|].
  pose proof (wp_paging_init a_ram 0xc0020000 0xc0030000 ltac:(unfold a_ram; lia) (Mach m 0 ∅) _ _ Ht a_room) as Hw.
  apply wp_total_run in Hw as (pd & s & _ & _ & Hi & Hk). eexists _, s. split; [exact Hi|].
  apply (address_spaces_refine (mem s) a_ram _ _ (in_text 0xc0020000 0xc0030000) s empty_world a_client);
    [unfold a_ram; lia|exact Hi|exact Hk|apply a_client_allowed].
Defined.
