(* ===== verification/KUstar.v ===== *)
(** * Pintos: archives

    [Project_3/lib/ustar.c], the whole file: composing and parsing the 512-byte headers
    of a tar archive.  The header lies in the memory of [KStdio], a finite map from
    addresses to bytes, and octal fields are written by its [snprintf].  A file name
    is the list of its characters.  A failed [ASSERT] and an access to unmapped memory
    are undefined behaviour. *)

From stdpp Require Import base tactics list gmap strings.
From Stdlib Require Import ZArith Lia.
From S2P Require Import Prelude KStdio.

Local Open Scope Z_scope.

Local Abbreviation MM := (M (gmap Z Z)).

(** ** The header *)

Inductive ustar_type := USTAR_REGULAR | USTAR_DIRECTORY | USTAR_EOF.

#[global] Instance ustar_type_eq_dec : EqDecision ustar_type.
Proof. solve_decision. Defined.

Definition type_value (t : ustar_type) : Z :=
  match t with USTAR_REGULAR => 48 | USTAR_DIRECTORY => 53 | USTAR_EOF => -1 end.

Definition USTAR_HEADER_SIZE : nat := 512.

Inductive field :=
  | f_name | f_mode | f_uid | f_gid | f_size | f_mtime | f_chksum | f_typeflag | f_linkname | f_magic | f_version
  | f_uname | f_gname | f_devmajor | f_devminor | f_prefix | f_padding.

#[global] Instance field_eq_dec : EqDecision field.
Proof. solve_decision. Defined.

(** The members of [struct ustar_header] with their sizes, in order *)
Definition ustar_header : list (field * Z) :=
  [(f_name, 100); (f_mode, 8); (f_uid, 8); (f_gid, 8); (f_size, 12); (f_mtime, 12); (f_chksum, 8); (f_typeflag, 1);
   (f_linkname, 100); (f_magic, 6); (f_version, 2); (f_uname, 32); (f_gname, 32); (f_devmajor, 8); (f_devminor, 8);
   (f_prefix, 155); (f_padding, 12)].

Fixpoint size_in (f : field) (l : list (field * Z)) : Z :=
  match l with
  | [] => 0
  | (g, n) :: l => if decide (f = g) then n else size_in f l
  end.
Definition sizeof (f : field) : Z := size_in f ustar_header.

Fixpoint offset_in (f : field) (l : list (field * Z)) : Z :=
  match l with
  | [] => 0
  | (g, n) :: l => if decide (f = g) then 0 else n + offset_in f l
  end.
Definition offsetof (f : field) : Z := offset_in f ustar_header.

(** [sizeof(struct ustar_header)], which is packed *)
Definition sizeof_header : Z := foldr (λ f n, f.2 + n) 0 ustar_header.

(** ** Memory *)

Definition byte_at (a : Z) : MM Z := m ← get; assume_some (m !! a).

Fixpoint put (a : Z) (cs : list Z) : MM unit :=
  match cs with
  | [] => mret tt
  | c :: cs => m ← get; check (bool_decide (is_Some (m !! a)));; modify (<[a := c]>);; put (a + 1) cs
  end.

(** [strlcpy(dst, src, size)] of a string, for [size > 0] *)
Definition strlcpy (dst : Z) (src : list Z) (size : Z) : MM unit := put dst (take (Z.to_nat (size - 1)) src ++ [0]).

(** [memcmp] with a literal *)
Fixpoint differs (a : Z) (cs : list Z) : MM bool :=
  match cs with
  | [] => mret false
  | c :: cs => x ← byte_at a; if bool_decide (x ≠ c) then mret true else differs (a + 1) cs
  end.

(** The string at [a], at most [n] characters and their terminator *)
Fixpoint string_at (a : Z) (n : nat) : MM (list Z) :=
  match n with
  | O => undef
  | S n => c ← byte_at a; if bool_decide (c = 0) then mret [] else s ← string_at (a + 1) n; mret (c :: s)
  end.

(** ** The checksum *)

(** [for (i = 0; i < USTAR_HEADER_SIZE; i++)] with [n] iterations left *)
Fixpoint chksum_loop (header i : Z) (n : nat) (chksum : Z) : MM Z :=
  match n with
  | O => mret chksum
  | S n =>
      let in_chksum_field := bool_decide (offsetof f_chksum ≤ i) && bool_decide (i < offsetof f_chksum + sizeof f_chksum) in
      b ← byte_at (header + i);
      chksum_loop header (i + 1) n (wrap_u32 (chksum + if in_chksum_field then 32 else b))
  end.

Definition calculate_chksum (header : Z) : MM Z := chksum_loop header 0 USTAR_HEADER_SIZE 0.

(** ** File names *)

Definition SLASH : Z := 47.

Definition antisocial (name : list Z) : bool :=
  bool_decide (head name = Some SLASH) || bool_decide (take 2 name = chars "./") || bool_decide (take 3 name = chars "../").

(** [strchr(file_name, '/') + 1] *)
Fixpoint after_slash (name : list Z) : list Z :=
  match name with
  | [] => []
  | c :: name => if bool_decide (c = SLASH) then name else after_slash name
  end.

Fixpoint strip_loop (fuel : nat) (name : list Z) : list Z :=
  match fuel with
  | O => name
  | S fuel => if antisocial name then strip_loop fuel (after_slash name) else name
  end.

(** Each turn makes the name shorter, so its length bounds their number. *)
Definition strip_antisocial_prefixes (name : list Z) : list Z :=
  let name := strip_loop (S (length name)) name in
  if bool_decide (name = []) || bool_decide (name = chars "..") then chars "." else name.

(** ** Composing a header *)

(** [snprintf] with one of the two formats; its scans are short. *)
Definition print_octal (a size : Z) (format : list Z) (v : Z) : MM unit :=
  snprintf 20 a size (Lit format 0) [A32 (wrap_u32 v)];; mret tt.

(** The result, and what is printed on the console; 0644 is 420 and 0755 is 493. *)
Definition ustar_make_header (file_name : list Z) (type : ustar_type) (size header : Z) : MM (bool * list Z) :=
  let at_ f := header + offsetof f in
  check (bool_decide (sizeof_header = Z.of_nat USTAR_HEADER_SIZE));;
  check (bool_decide (type = USTAR_REGULAR) || bool_decide (type = USTAR_DIRECTORY));;
  let file_name := strip_antisocial_prefixes file_name in
  if bool_decide (99 < Z.of_nat (length file_name)) then
    mret (false, file_name ++ chars ": file name too long" ++ [10])
  else
    put header (replicate USTAR_HEADER_SIZE 0);;
    strlcpy (at_ f_name) file_name (sizeof f_name);;
    print_octal (at_ f_mode) (sizeof f_mode) (chars "%07o") (if bool_decide (type = USTAR_REGULAR) then 420 else 493);;
    strlcpy (at_ f_uid) (chars "0000000") (sizeof f_uid);;
    strlcpy (at_ f_gid) (chars "0000000") (sizeof f_gid);;
    print_octal (at_ f_size) (sizeof f_size) (chars "%011o") size;;
    print_octal (at_ f_mtime) (sizeof f_size) (chars "%011o") 1136102400;;
    put (at_ f_typeflag) [type_value type];;
    strlcpy (at_ f_magic) (chars "ustar") (sizeof f_magic);;
    put (at_ f_version + 1) (chars "0");;
    put (at_ f_version) (chars "0");;
    strlcpy (at_ f_gname) (chars "root") (sizeof f_gname);;
    strlcpy (at_ f_uname) (chars "root") (sizeof f_uname);;
    chksum ← calculate_chksum header;
    print_octal (at_ f_chksum) (sizeof f_chksum) (chars "%07o") chksum;;
    mret (true, []).

(** ** Parsing a header *)

Definition ULONG_MAX : Z := 2 ^ 32 - 1.

(** [for (ofs = 0; ofs < size; ofs++)] with [n] iterations left; [None] is failure. *)
Fixpoint octal_loop (s ofs : Z) (n : nat) (value : Z) : MM (option Z) :=
  match n with
  | O => mret None
  | S n =>
      c ← byte_at (s + ofs);
      if bool_decide (48 ≤ c) && bool_decide (c ≤ 55) then
        if bool_decide (ULONG_MAX / 8 < value) then mret None
        else octal_loop s (ofs + 1) n (wrap_u32 (c - 48 + value * 8))
      else if bool_decide (c = 32) || bool_decide (c = 0) then mret (if bool_decide (0 < ofs) then Some value else None)
      else mret None
  end.

Definition parse_octal_field (s size : Z) : MM (option Z) := octal_loop s 0 (Z.to_nat size) 0.

Fixpoint is_all_zeros (block : Z) (cnt : nat) : MM bool :=
  match cnt with
  | O => mret true
  | S cnt => c ← byte_at block; if bool_decide (c ≠ 0) then mret false else is_all_zeros (block + 1) cnt
  end.

(** An error message, or the name (a null pointer at the end of the archive), type and
    size of the file *)
Inductive parsed :=
  | Failed (message : string)
  | Parsed (file_name : option (list Z)) (type : ustar_type) (size : Z).

(** The checks up to the file type, in the order of the [if]s *)
Definition validate (header : Z) : MM (option string) :=
  let at_ f := header + offsetof f in
  bad ← differs (at_ f_magic) (chars "ustar" ++ [0]);
  if bad : bool then mret (Some "not a ustar archive"%string)
  else
    v0 ← byte_at (at_ f_version);
    bad ← (if bool_decide (v0 ≠ 48) then mret true else v1 ← byte_at (at_ f_version + 1); mret (bool_decide (v1 ≠ 48)));
    if bad : bool then mret (Some "invalid ustar version"%string)
    else
      chksum ← parse_octal_field (at_ f_chksum) (sizeof f_chksum);
      match chksum with
      | None => mret (Some "corrupt chksum field"%string)
      | Some chksum =>
          c ← calculate_chksum header;
          if bool_decide (chksum ≠ c) then mret (Some "checksum mismatch"%string)
          else
            l ← byte_at (at_ f_name + (sizeof f_name - 1));
            bad ← (if bool_decide (l ≠ 0) then mret true else p ← byte_at (at_ f_prefix); mret (bool_decide (p ≠ 0)));
            if bad : bool then mret (Some "file name too long"%string)
            else
              t ← byte_at (at_ f_typeflag);
              if bool_decide (t ≠ type_value USTAR_REGULAR) && bool_decide (t ≠ type_value USTAR_DIRECTORY)
              then mret (Some "unimplemented file type"%string)
              else mret None
      end.

Definition ustar_parse_header (header : Z) : MM parsed :=
  let at_ f := header + offsetof f in
  check (bool_decide (sizeof_header = Z.of_nat USTAR_HEADER_SIZE));;
  zeros ← is_all_zeros header USTAR_HEADER_SIZE;
  if zeros : bool then mret (Parsed None USTAR_EOF 0)
  else
    e ← validate header;
    match e with
    | Some message => mret (Failed message)
    | None =>
        t ← byte_at (at_ f_typeflag);
        let type := if bool_decide (t = type_value USTAR_REGULAR) then USTAR_REGULAR else USTAR_DIRECTORY in
        size ← (if bool_decide (t = type_value USTAR_REGULAR) then
                  v ← parse_octal_field (at_ f_size) (sizeof f_size);
                  mret match v with
                       | None => inl "corrupt file size field"%string
                       | Some size_ul => if bool_decide (INT_MAX < size_ul) then inl "file too large"%string else inr size_ul
                       end
                else mret (inr 0));
        match size with
        | inl message => mret (Failed message)
        | inr size =>
            name ← string_at (at_ f_name) (Z.to_nat (sizeof f_name));
            mret (Parsed (Some (strip_antisocial_prefixes name)) type size)
        end
    end.
