(* ===== verification/KUstarMain.v ===== *)
(** * Pintos: archive headers can be read back

    A header that [ustar_make_header] composes is parsed into the name, type and size it
    was made for; whatever a header holds, a name that the parser returns has no
    dangerous prefix. *)

From stdpp Require Import base tactics list gmap strings.
From Stdlib Require Import ZArith Lia.
From S2P Require Import Prelude KStdio KStdioProps KStdioMain KUstar.

Local Open Scope Z_scope.

(** ** File names *)

Lemma after_slash_shorter name : antisocial name = true → (length (after_slash name) < length name)%nat.
Proof.
  assert (∀ l, (length (after_slash l) ≤ length l)%nat) as Hle.
  { induction l as [|c l IH]; cbn [after_slash]; [done|]. case_bool_decide; cbn [length]; lia. }
  intros Ha. destruct name as [|c name]; [done|]. cbn [after_slash length]. case_bool_decide; [lia|]. specialize (Hle name). lia.
Qed.

Lemma strip_loop_social fuel name : (length name < fuel)%nat → antisocial (strip_loop fuel name) = false.
Proof.
  revert name. induction fuel as [|fuel IH]; intros name Hl; [lia|]. cbn [strip_loop]. destruct (antisocial name) eqn:Ha; [|done].
  apply IH. pose proof (after_slash_shorter name Ha). lia.
Qed.

(** What remains of a name is a suffix. *)
Lemma strip_loop_suffix fuel name : strip_loop fuel name `suffix_of` name.
Proof.
  assert (∀ l, after_slash l `suffix_of` l) as Hs.
  { induction l as [|c l IH]; cbn [after_slash]; [done|]. case_bool_decide; by apply suffix_cons_r. }
  revert name. induction fuel as [|fuel IH]; intros name; cbn [strip_loop]; [done|]. destruct (antisocial name); [|done].
  etrans; [apply IH|apply Hs].
Qed.

(** A name that stays inside the directory where it is extracted, as far as its
    beginning goes *)
Definition harmless (name : list Z) : Prop := name ≠ [] ∧ name ≠ chars ".." ∧ antisocial name = false.

Lemma strip_harmless name : harmless (strip_antisocial_prefixes name).
Proof.
  unfold strip_antisocial_prefixes. pose proof (strip_loop_social (S (length name)) name ltac:(lia)) as Hs.
  set (n := strip_loop _ _) in *. destruct (bool_decide (n = []) || bool_decide (n = chars "..")) eqn:E; [by split_and!|].
  apply orb_false_iff in E as [E1%bool_decide_eq_false E2%bool_decide_eq_false]. done.
Qed.

Lemma strip_id name : harmless name → strip_antisocial_prefixes name = name.
Proof.
  intros (H1 & H2 & H3). unfold strip_antisocial_prefixes. cbn [strip_loop]. rewrite H3.
  by rewrite !bool_decide_false.
Qed.

Lemma strip_chars (Q : Z → Prop) name : Q 46 → Forall Q name → Forall Q (strip_antisocial_prefixes name).
Proof.
  intros H46 Hf. unfold strip_antisocial_prefixes. destruct (_ || _); [by repeat constructor|].
  destruct (strip_loop_suffix (S (length name)) name) as [k Hk]. rewrite Hk in Hf at 1. by apply Forall_app in Hf as [_ ?].
Qed.

(** ** Octal numbers *)

(** [cs] is [v] in octal, with [w] digits. *)
Definition octal (w : nat) (v : Z) (cs : list Z) : Prop :=
  length cs = w ∧ Forall (λ c, 48 ≤ c ≤ 55) cs ∧ foldl (λ a c, a * 8 + (c - 48)) 0 cs = v.

Lemma lsd_octal_length n v w : 0 ≤ v < 8 ^ Z.of_nat w → (length (lsd n base_o v) ≤ w)%nat.
Proof.
  revert v w. induction n as [|n IH]; intros v w Hv; cbn [lsd]; [cbn; lia|]. case_decide as Hp; [|cbn; lia].
  destruct w as [|w]; [change (8 ^ Z.of_nat 0) with 1 in Hv; lia|]. cbn [length]. apply le_n_S, IH.
  rewrite Nat2Z.inj_succ, Z.pow_succ_r in Hv by lia. change (base base_o) with 8. split; [apply Z.div_pos; lia|apply Z.div_lt_upper_bound; lia].
Qed.

(** What [int_body] gives for base 8 without flags or precision *)
Lemma octal_body c v w :
  has (flags c) GROUP = false → has (flags c) POUND = false → precision c = -1 → 0 ≤ v < 8 ^ Z.of_nat w → (1 ≤ w)%nat → v < 2 ^ 64 →
  (length (int_body base_o c v) ≤ w)%nat ∧ Forall (λ c, 48 ≤ c ≤ 55) (int_body base_o c v) ∧ read base_o (int_body base_o c v) = v.
Proof.
  intros Hg Hp Hpr Hv Hw Hv64. assert (Forall (λ c, 48 ≤ c ≤ 55) (int_body base_o c v)) as Hd.
  { unfold int_body. cbn zeta. rewrite Hp. cbn [andb]. rewrite app_nil_r. apply Forall_rev, Forall_app. split.
    - unfold digit_chars. rewrite Hg. eapply Forall_impl; [apply (lsd_digits base_o 22 v); [apply bases_good|lia]|].
      intros x Hx. assert (Forall (λ c, 48 ≤ c ≤ 55) (digits base_o)) as Ho by (change (digits base_o) with [48; 49; 50; 51; 52; 53; 54; 55]; repeat apply Forall_cons_2; (apply Forall_nil_2 || lia)).
      rewrite Forall_forall in Ho. by apply Ho.
    - apply Forall_replicate. lia. }
  split_and!; [|done|].
  - unfold int_body. cbn zeta. rewrite Hp, Hpr. cbn [andb]. rewrite app_nil_r, length_rev, length_app. unfold digit_chars, zeros. rewrite Hg, length_replicate.
    change (if bool_decide (-1 < 0) then 1 else -1) with 1. change (Z.to_nat (Z.min 1 63)) with 1%nat.
    pose proof (lsd_octal_length 22 v w Hv). lia.
  - rewrite <- (body_reads base_o c v) at 2; [|apply numeral_bases; tauto|split; lia]. f_equal. symmetry. apply no_comma_id.
    intros Hin. rewrite Forall_forall in Hd. specialize (Hd 44 Hin). lia.
Qed.

Lemma read_octal cs : Forall (λ c, 48 ≤ c ≤ 55) cs → read base_o cs = foldl (λ a c, a * 8 + (c - 48)) 0 cs.
Proof.
  intros Hf. unfold read. change (base base_o) with 8. generalize 0 as a. induction Hf as [|c cs Hc _ IH]; intros a; [done|]. cbn [foldl].
  assert (index c (digits base_o) = c - 48) as ->; [|apply IH].
  assert (Forall (λ c, index c (digits base_o) = c - 48) (digits base_o)) as Ho by (by repeat constructor).
  rewrite Forall_forall in Ho. apply Ho. destruct (decide (c = 48)) as [->|]; [vm_compute; by left|].
  assert (c ∈ [49; 50; 51; 52; 53; 54; 55]) as Hin by (assert (c = 49 ∨ c = 50 ∨ c = 51 ∨ c = 52 ∨ c = 53 ∨ c = 54 ∨ c = 55) by lia; set_solver).
  change (digits base_o) with (48 :: [49; 50; 51; 52; 53; 54; 55]). by right.
Qed.

(** The conversion [%0wo] *)
Definition zero_dir (ds : list Z) : directive := Dir [48] (Digits ds) Absent INT.

Lemma octal_out ds v w :
  number ds = Z.of_nat w → (1 ≤ w)%nat → 0 ≤ v < 8 ^ Z.of_nat w → v < 2 ^ 32 →
  octal w v (format_out [Unsigned (zero_dir ds) 111 (A32 v)]).
Proof.
  intros Hn Hw Hv Hv32. unfold format_out. cbn [mbind list_bind piece_out]. rewrite app_nil_r.
  change (unsigned_value (d_type (zero_dir ds)) (A32 v)) with (Some v). change (default 0 (Some v)) with v.
  change (unsigned_base 111) with base_o. unfold int_out.
  set (c := meaning (zero_dir ds)). assert (c = Conv ZERO (Z.of_nat w) (-1) INT) as Ec.
  { unfold c, meaning, zero_dir. cbn [d_flags d_width d_prec d_type dim_value]. rewrite Hn.
    rewrite (bool_decide_false (Z.of_nat w < 0)) by lia. rewrite Z.abs_eq by lia. done. }
  rewrite Ec. change (int_sign false false _) with (@nil Z). change (int_prefix base_o _ v) with (@nil Z).
  destruct (octal_body (Conv ZERO (Z.of_nat w) (-1) INT) v w) as (Hl & Hd & Hr); [done|done|done|done|done|lia|].
  set (body := int_body _ _ _) in *. unfold layout. cbn zeta. change (has (flags (Conv ZERO (Z.of_nat w) (-1) INT)) MINUS) with false.
  change (has (flags (Conv ZERO (Z.of_nat w) (-1) INT)) ZERO) with true. cbn [negb andb app width]. rewrite app_nil_r.
  set (pad := Z.to_nat _). assert (Forall (λ c, 48 ≤ c ≤ 55) (replicate pad 48 ++ body)) as Hall by (apply Forall_app; split; [apply Forall_replicate; lia|done]).
  split_and!; [|done|].
  - rewrite length_app, length_replicate. unfold pad. lia.
  - rewrite foldl_app. rewrite <- Hr, read_octal by done. f_equal. generalize pad. clear. induction pad as [|n IH]; [done|].
    rewrite replicate_S_end, foldl_app, IH. done.
Qed.

(** ** The header in memory *)

Section header.
Context (h : Z) (m0 : gmap Z Z).

(** The 512 bytes at [h] are [l], and the rest of memory is as in [m0]. *)
Record image (m : gmap Z Z) (l : list Z) : Prop := {
  im_length : length l = 512%nat;
  im_bytes (i : nat) c : l !! i = Some c → m !! (h + Z.of_nat i) = Some c;
  im_rest z : ¬ h ≤ z < h + 512 → m !! z = m0 !! z
}.

Lemma image_store m l (o : nat) cs :
  image m l → (o + length cs ≤ 512)%nat → image (store (h + Z.of_nat o) cs m) (overwrite o cs l).
Proof.
  intros [Hl Hb Hr] Ho. split.
  - rewrite overwrite_length; lia.
  - intros i c. rewrite overwrite_lookup by lia. case_decide as Hi; intros Hc.
    + rewrite <- (store_inside (h + Z.of_nat o) cs m (i - o) c Hc). f_equal. lia.
    + rewrite store_outside by lia. by apply Hb.
  - intros z Hz. rewrite store_outside by lia. by apply Hr.
Qed.

Lemma image_mapped m l (i : nat) : image m l → (i < 512)%nat → is_Some (m !! (h + Z.of_nat i)).
Proof.
  intros [Hl Hb _] Hi. destruct (lookup_lt_is_Some_2 l i) as [c Hc]; [lia|]. exists c. by apply Hb.
Qed.

Lemma put_store cs : ∀ a m, (∀ z, a ≤ z < a + Z.of_nat (length cs) → is_Some (m !! z)) → put a cs m = Done (tt, store a cs m).
Proof.
  induction cs as [|c cs IH]; intros a m Hm; [done|]. cbn [put store]. unfold mbind, M_bind, get, check. cbn [length] in Hm.
  rewrite bool_decide_true by (apply Hm; lia). cbn. apply IH. intros z Hz.
  destruct (decide (z = a)) as [->|]; [rewrite lookup_insert_eq; eauto|]. rewrite lookup_insert_ne by done. apply Hm. lia.
Qed.

Lemma wp_put_bytes t m l (o : nat) cs (Q : unit → gmap Z Z → Prop) :
  image m l → (o + length cs ≤ 512)%nat → (∀ m', image m' (overwrite o cs l) → Q tt m') → wp t (put (h + Z.of_nat o) cs) Q m.
Proof.
  intros Hi Ho HQ. unfold wp. rewrite put_store; [by apply HQ, image_store|]. intros z Hz.
  replace z with (h + Z.of_nat (Z.to_nat (z - h))) by lia. eapply image_mapped; [done|lia].
Qed.

Lemma wp_print_octal t m l (o w : nat) ds v (Q : unit → gmap Z Z → Prop) :
  image m l → (o + w + 1 ≤ 512)%nat → (1 ≤ w)%nat → number ds = Z.of_nat w → digits_ok ds → head ds ≠ Some 48 → (length ds ≤ 2)%nat →
  0 ≤ v < 8 ^ Z.of_nat w → v < 2 ^ 32 →
  (∀ m' cs, octal w v cs → image m' (overwrite o (cs ++ [0]) l) → Q tt m') →
  wp t (print_octal (h + Z.of_nat o) (Z.of_nat w + 1) (37 :: 48 :: ds ++ [111]) v) Q m.
Proof.
  intros Hi Ho Hw Hn Hds Hh Hl Hv Hv32 HQ. pose proof (octal_out ds v w Hn Hw Hv Hv32) as Hoct.
  set (cs := format_out _) in Hoct. unfold print_octal, wrap_u32. rewrite Z.mod_small by lia.
  assert (vsnprintf 20 (h + Z.of_nat o) (Z.of_nat w + 1) (Lit (37 :: 48 :: ds ++ [111]) 0) [A32 v] m =
    Done (Z.of_nat (length cs), store (h + Z.of_nat o) (take (Z.to_nat (Z.of_nat w + 1 - 1)) cs ++ [0]) m)) as E.
  { apply (vsnprintf_stores 20 ∅).
    - apply map_empty_subseteq.
    - lia.
    - intros z Hz. split; [|apply lookup_empty]. replace z with (h + Z.of_nat (Z.to_nat (z - h))) by lia. eapply image_mapped; [done|lia].
    - change [A32 v] with (format_args [Unsigned (zero_dir ds) 111 (A32 v)]).
      apply (emits_vprintf ∅ 20 [Unsigned (zero_dir ds) 111 (A32 v)] _ []); [done| | | |cbn; lia].
      + assert (format_text [Unsigned (zero_dir ds) 111 (A32 v)] = 37 :: 48 :: ds ++ [111]) as ->.
        { unfold format_text. cbn [mbind list_bind piece_text]. rewrite app_nil_r. unfold show, zero_dir. cbn. by rewrite app_nil_r. }
        apply (text_lit ∅ (37 :: 48 :: ds ++ [111]) 0).
      + apply Forall_singleton. split; [|split; [by left|split; [split; lia|by eexists]]].
        split; cbn; [by repeat constructor; eexists|done|by intros ? [= <-]|done].
      + apply Forall_singleton. unfold piece_size, zero_dir, show. cbn. rewrite ?length_app. cbn. lia.
    - unfold room. destruct Hoct as (Hl' & _). rewrite Hl'. lia. }
  unfold wp, mbind, M_bind, snprintf. rewrite E. cbn [mret M_ret]. apply (HQ _ cs Hoct).
  rewrite take_ge by (destruct Hoct as (Hl' & _); lia). apply image_store; [done|]. rewrite length_app, (proj1 Hoct). cbn [length]. lia.
Qed.

(** *** Reading *)

Lemma wp_byte_at t m l (i : nat) c (Q : Z → gmap Z Z → Prop) :
  image m l → l !! i = Some c → Q c m → wp t (byte_at (h + Z.of_nat i)) Q m.
Proof. intros Hi Hc HQ. unfold byte_at. apply wp_bind, wp_get. eapply wp_assume_some; [by eapply im_bytes|done]. Qed.

(** The bytes of a field *)
Definition slice (o n : nat) (l : list Z) : list Z := take n (drop o l).

Lemma slice_lookup o n l (i : nat) c : slice o n l !! i = Some c → l !! (o + i)%nat = Some c.
Proof. unfold slice. intros [Hc _]%lookup_take_Some. by rewrite lookup_drop in Hc. Qed.

Lemma slice_same o cs l : (o + length cs ≤ length l)%nat → slice o (length cs) (overwrite o cs l) = cs.
Proof. intros Ho. unfold slice. rewrite overwrite_mid by lia. by rewrite take_app_length. Qed.

Lemma slice_other o n p cs l :
  (p + length cs ≤ length l)%nat → (o + n ≤ p ∨ p + length cs ≤ o)%nat → slice o n (overwrite p cs l) = slice o n l.
Proof.
  intros Hp Hd. apply list_eq. intros i. unfold slice. destruct (decide (i < n)%nat) as [Hi|Hi].
  - rewrite !lookup_take_lt, !lookup_drop, overwrite_lookup, decide_False by lia. done.
  - rewrite !lookup_take_ge by lia. done.
Qed.

Lemma slice_head o n l : slice o (S n) l = match l !! o with Some c => c :: slice (S o) n l | None => [] end.
Proof.
  unfold slice. destruct (l !! o) as [c|] eqn:E; [by rewrite (drop_S _ _ _ E)|]. rewrite drop_ge; [by rewrite take_nil|]. by apply lookup_ge_None.
Qed.

Lemma wp_differs t m l cs : ∀ (o : nat) (Q : bool → gmap Z Z → Prop),
  image m l → slice o (length cs) l = cs → Q false m → wp t (differs (h + Z.of_nat o) cs) Q m.
Proof.
  induction cs as [|c cs IH]; intros o Q Hi Hs HQ; cbn [differs]; [by apply wp_ret|]. cbn [length] in Hs. rewrite slice_head in Hs.
  destruct (l !! o) as [c'|] eqn:Hc; [|done]. injection Hs as -> Hs. apply wp_bind. apply (wp_byte_at t m l o c); [done|done|].
  rewrite bool_decide_false by tauto. replace (h + Z.of_nat o + 1) with (h + Z.of_nat (S o)) by lia. by apply IH.
Qed.

Lemma wp_string_at t m l cs : ∀ (o n : nat) (Q : list Z → gmap Z Z → Prop),
  image m l → slice o (S (length cs)) l = cs ++ [0] → Forall (λ c, c ≠ 0) cs → (length cs < n)%nat → Q cs m →
  wp t (string_at (h + Z.of_nat o) n) Q m.
Proof.
  induction cs as [|c cs IH]; intros o n Q Hi Hs Hf Hn HQ; (destruct n as [|n]; [cbn [length] in Hn; lia|]); cbn [string_at]; rewrite slice_head in Hs;
    (destruct (l !! o) as [c'|] eqn:Hc; [|done]); cbn [app] in Hs.
  - injection Hs as ->. apply wp_bind. apply (wp_byte_at t m l o 0); [done|done|]. rewrite bool_decide_true by done. by apply wp_ret.
  - injection Hs as -> Hs. inversion Hf as [|? ? Hc0 Hf']; subst. apply wp_bind. apply (wp_byte_at t m l o c); [done|done|].
    rewrite bool_decide_false by done. apply wp_bind. replace (h + Z.of_nat o + 1) with (h + Z.of_nat (S o)) by lia.
    apply IH; [done|done|done|cbn [length] in Hn; lia|]. by apply wp_ret.
Qed.

Lemma foldl_octal_ge cs a : Forall (λ c, 48 ≤ c ≤ 55) cs → 0 ≤ a → a ≤ foldl (λ a c, a * 8 + (c - 48)) a cs.
Proof.
  intros Hf. revert a. induction Hf as [|c cs Hc _ IH]; intros a Ha; cbn [foldl]; [lia|]. specialize (IH (a * 8 + (c - 48)) ltac:(lia)). lia.
Qed.

Lemma wp_octal_loop t m l cs : ∀ (o k n : nat) v (Q : option Z → gmap Z Z → Prop),
  image m l → slice (o + k) (S (length cs)) l = cs ++ [0] → Forall (λ c, 48 ≤ c ≤ 55) cs → (length cs < n)%nat → (0 < k + length cs)%nat →
  0 ≤ v → foldl (λ a c, a * 8 + (c - 48)) v cs < 2 ^ 32 → Q (Some (foldl (λ a c, a * 8 + (c - 48)) v cs)) m →
  wp t (octal_loop (h + Z.of_nat o) (Z.of_nat k) n v) Q m.
Proof.
  induction cs as [|c cs IH]; intros o k n v Q Hi Hs Hf Hn Hk Hv Hv32 HQ; (destruct n as [|n]; [cbn [length] in Hn; lia|]); cbn [octal_loop];
    rewrite slice_head in Hs; (destruct (l !! (o + k)%nat) as [c'|] eqn:Hc; [|done]); cbn [app] in Hs; apply wp_bind;
    replace (h + Z.of_nat o + Z.of_nat k) with (h + Z.of_nat (o + k)) by lia.
  - injection Hs as ->. apply (wp_byte_at t m l _ 0); [done|done|]. cbn [length] in Hk. rewrite (bool_decide_true (0 < Z.of_nat k)) by lia. by apply wp_ret.
  - injection Hs as -> Hs. inversion Hf as [|? ? Hc0 Hf']; subst. apply (wp_byte_at t m l _ c); [done|done|]. cbn [foldl] in *.
    pose proof (foldl_octal_ge cs (v * 8 + (c - 48)) Hf' ltac:(lia)) as Hge. rewrite !bool_decide_true by lia. cbn [andb].
    rewrite bool_decide_false by (unfold ULONG_MAX; pose proof (Z.div_mod (2 ^ 32 - 1) 8 ltac:(lia)); change ((2 ^ 32 - 1) / 8) with 536870911; lia).
    unfold wrap_u32. rewrite Z.mod_small by lia. replace (Z.of_nat k + 1) with (Z.of_nat (S k)) by lia.
    replace (c - 48 + v * 8) with (v * 8 + (c - 48)) by lia. apply IH; try done; try (cbn [length] in *; lia).
    by replace (o + S k)%nat with (S (o + k)) by lia.
Qed.

Lemma wp_parse_octal t m l (o w : nat) v cs (Q : option Z → gmap Z Z → Prop) :
  image m l → octal w v cs → slice o (S w) l = cs ++ [0] → (1 ≤ w)%nat → v < 2 ^ 32 → Q (Some v) m →
  wp t (parse_octal_field (h + Z.of_nat o) (Z.of_nat w + 1)) Q m.
Proof.
  intros Hi (Hl & Hf & Hv) Hs Hw Hv32 HQ. unfold parse_octal_field. apply (wp_octal_loop t m l cs o 0); try done; try lia.
  - rewrite Hl. by replace (o + 0)%nat with o by lia.
  - by rewrite Hv.
Qed.

(** *** The checksum *)

Definition is_byte (c : Z) : Prop := 0 ≤ c ≤ 255.

Definition total (l : list Z) : Z := foldr Z.add 0 l.

(** The header with blanks for its checksum *)
Definition blanked (l : list Z) : list Z := overwrite 148 (replicate 8 32) l.

Lemma total_bound l : Forall is_byte l → 0 ≤ total l ≤ 255 * Z.of_nat (length l).
Proof. unfold is_byte. induction 1 as [|c l Hc _ IH]; cbn [total foldr length] in *; [lia|]. unfold total in IH. lia. Qed.

Lemma wp_chksum_loop t m l : ∀ n (i : nat) acc (Q : Z → gmap Z Z → Prop),
  image m l → Forall is_byte l → (i + n = 512)%nat → 0 ≤ acc → acc + 255 * Z.of_nat n < 2 ^ 32 →
  Q (acc + total (drop i (blanked l))) m → wp t (chksum_loop h (Z.of_nat i) n acc) Q m.
Proof.
  assert (offsetof f_chksum = 148 ∧ sizeof f_chksum = 8) as [E1 E2] by done.
  induction n as [|n IH]; intros i acc Q Hi Hb Hin Ha Hbound HQ; cbn [chksum_loop].
  - apply wp_ret. rewrite drop_ge in HQ; [by rewrite Z.add_0_r in HQ|]. unfold blanked. rewrite overwrite_length; rewrite (im_length _ _ Hi); cbn; lia.
  - destruct (lookup_lt_is_Some_2 l i) as [c Hc]; [rewrite (im_length _ _ Hi); lia|]. apply wp_bind. apply (wp_byte_at t m l i c); [done|done|].
    rewrite E1, E2. set (b := bool_decide _ && bool_decide _). set (x := if b then 32 else c).
    assert (blanked l !! i = Some x) as Hx.
    { unfold blanked. rewrite overwrite_lookup by (rewrite (im_length _ _ Hi); cbn; lia). rewrite length_replicate. unfold x, b. case_decide as Hd.
      - rewrite !bool_decide_true by lia. cbn [andb]. apply lookup_replicate_2. lia.
      - destruct (bool_decide (148 ≤ Z.of_nat i)) eqn:B1; [|done]. apply bool_decide_eq_true in B1. rewrite bool_decide_false by lia. done. }
    assert (0 ≤ x ≤ 255) as Hxr.
    { unfold x. destruct b; [lia|]. rewrite Forall_lookup in Hb. by apply (Hb i c). }
    rewrite (drop_S _ _ _ Hx) in HQ. cbn [total foldr] in HQ. unfold wrap_u32. rewrite Z.mod_small by lia.
    replace (Z.of_nat i + 1) with (Z.of_nat (S i)) by lia. apply IH; [done|done|lia|lia|lia|]. unfold total. by replace (acc + x + foldr Z.add 0 (drop (S i) (blanked l)))
      with (acc + (x + foldr Z.add 0 (drop (S i) (blanked l)))) by lia.
Qed.

Lemma wp_chksum t m l (Q : Z → gmap Z Z → Prop) :
  image m l → Forall is_byte l → Q (total (blanked l)) m → wp t (calculate_chksum h) Q m.
Proof. intros Hi Hb HQ. unfold calculate_chksum, USTAR_HEADER_SIZE. apply (wp_chksum_loop t m l 512 0 0); [done|done|lia|lia|lia|]. by rewrite drop_0. Qed.

(** Writing the checksum does not change it. *)
Lemma blanked_overwrite cs l : length cs = 8%nat → length l = 512%nat → blanked (overwrite 148 cs l) = blanked l.
Proof.
  intros Hc Hl. apply list_eq. intros i. unfold blanked. rewrite !overwrite_lookup by (rewrite ?overwrite_length, ?length_replicate; rewrite ?overwrite_length; lia).
  rewrite length_replicate, Hc. by case_decide.
Qed.

Lemma overwrite_bytes (Q : Z → Prop) o cs l : Forall Q l → Forall Q cs → Forall Q (overwrite o cs l).
Proof. intros Hl Hc. unfold overwrite. repeat apply Forall_app_2; [by apply Forall_take|done|by apply Forall_drop]. Qed.

Lemma octal_bytes w v cs : octal w v cs → Forall is_byte (cs ++ [0]).
Proof.
  intros (_ & Hf & _). apply Forall_app_2; [|by repeat constructor]. eapply Forall_impl; [exact Hf|]. unfold is_byte. lia.
Qed.

(** ** Composing *)

(** What a header for [name], [type] and [size] holds *)
Record composed (l name : list Z) (type : ustar_type) (size : Z) : Prop := {
  co_bytes : Forall is_byte l;
  co_name : slice 0 (S (length name)) l = name ++ [0];
  co_last : l !! 99%nat = Some 0;
  co_size : ∃ cs, octal 11 size cs ∧ slice 124 12 l = cs ++ [0];
  co_chksum : ∃ cs, octal 7 (total (blanked l)) cs ∧ slice 148 8 l = cs ++ [0];
  co_type : l !! 156%nat = Some (type_value type);
  co_magic : slice 257 6 l = chars "ustar" ++ [0];
  co_version : l !! 263%nat = Some 48 ∧ l !! 264%nat = Some 48;
  co_prefix : l !! 345%nat = Some 0
}.

#[local] Opaque overwrite.

(** The fields of a header, from what was stored last to what was stored first *)
Definition unsummed (n md u g z mt ty mg v1 v0 gn un : list Z) : list Z :=
  overwrite 265 un (overwrite 297 gn (overwrite 263 v0 (overwrite 264 v1 (overwrite 257 mg (overwrite 156 ty (overwrite 136 mt
    (overwrite 124 z (overwrite 116 g (overwrite 108 u (overwrite 100 md (overwrite 0 n (replicate 512 0)))))))))))).

Definition laid (n md u g z mt ty mg v1 v0 gn un k : list Z) : list Z :=
  overwrite 148 k (unsummed n md u g z mt ty mg v1 v0 gn un).

Lemma overwrite_512 o (cs l : list Z) : length l = 512%nat → (o + length cs ≤ 512)%nat → length (overwrite o cs l) = 512%nat.
Proof using. intros Hl Ho. rewrite overwrite_length; lia. Qed.

Lemma slice_skip o n p cs l : length l = 512%nat → (p + length cs ≤ 512)%nat → (o + n ≤ p ∨ p + length cs ≤ o)%nat →
  slice o n (overwrite p cs l) = slice o n l.
Proof using. intros. apply slice_other; lia. Qed.

Lemma slice_here o n cs l : length l = 512%nat → (o + length cs ≤ 512)%nat → length cs = n → slice o n (overwrite o cs l) = cs.
Proof using. intros ? ? <-. apply slice_same. lia. Qed.

Section fields.
Context (n md u g z mt ty mg v1 v0 gn un k : list Z).
Context (Hn : (length n ≤ 100)%nat) (Hmd : length md = 8%nat) (Hu : length u = 8%nat) (Hg : length g = 8%nat) (Hz : length z = 12%nat)
  (Hmt : length mt = 12%nat) (Hty : length ty = 1%nat) (Hmg : length mg = 6%nat) (Hv1 : length v1 = 1%nat) (Hv0 : length v0 = 1%nat)
  (Hgn : length gn = 5%nat) (Hun : length un = 5%nat) (Hk : length k = 8%nat).

Ltac len := repeat (apply overwrite_512; [|lia]); apply length_replicate.
Ltac skip := repeat (rewrite slice_skip; [|len|lia|lia]).
Ltac here := unfold laid, unsummed; skip; apply slice_here; [len|lia|done].

Let l := laid n md u g z mt ty mg v1 v0 gn un k.

Lemma laid_length : length l = 512%nat.
Proof. unfold l, laid, unsummed. len. Qed.

Lemma laid_name : slice 0 (length n) l = n.
Proof. unfold l. here. Qed.
Lemma laid_size : slice 124 12 l = z.
Proof. unfold l. here. Qed.
Lemma laid_chksum : slice 148 8 l = k.
Proof. unfold l. here. Qed.
Lemma laid_type : slice 156 1 l = ty.
Proof. unfold l. here. Qed.
Lemma laid_magic : slice 257 6 l = mg.
Proof. unfold l. here. Qed.
Lemma laid_version0 : slice 263 1 l = v0.
Proof. unfold l. here. Qed.
Lemma laid_version1 : slice 264 1 l = v1.
Proof. unfold l. here. Qed.
Lemma laid_prefix : slice 345 1 l = [0].
Proof. unfold l, laid, unsummed. skip. done. Qed.
Lemma laid_last : slice 99 1 l = slice 99 1 (overwrite 0 n (replicate 512 0)).
Proof. unfold l, laid, unsummed. skip. done. Qed.

Lemma laid_bytes (Q : Z → Prop) : Q 0 → Forall (Forall Q) [n; md; u; g; z; mt; ty; mg; v1; v0; gn; un; k] → Forall Q l.
Proof using.
  intros H0 Hf. repeat (apply Forall_cons in Hf as [? Hf]). unfold l, laid, unsummed. repeat (apply overwrite_bytes; [|done]). by apply Forall_replicate.
Qed.

End fields.

Lemma slice_one o c l : slice o 1 l = [c] → l !! o = Some c.
Proof using. intros Hs. rewrite <- (Nat.add_0_r o). apply (slice_lookup o 1 l 0). by rewrite Hs. Qed.

Lemma wp_clear t (Q : unit → gmap Z Z → Prop) :
  (∀ z, h ≤ z < h + 512 → is_Some (m0 !! z)) → (∀ m', image m' (replicate 512 0) → Q tt m') → wp t (put h (replicate USTAR_HEADER_SIZE 0)) Q m0.
Proof.
  intros Hm HQ. unfold wp, USTAR_HEADER_SIZE. rewrite put_store by (rewrite length_replicate; exact Hm). apply HQ. split.
  - apply length_replicate.
  - intros i c Hc. by apply (store_inside h).
  - intros z Hz. apply store_outside. rewrite length_replicate. exact Hz.
Qed.

(** The string that [strlcpy] leaves when there is room *)
Lemma strlcpy_all (src : list Z) (size : Z) : Z.of_nat (length src) < size → take (Z.to_nat (size - 1)) src ++ [0] = src ++ [0].
Proof using. intros Hl. by rewrite take_ge by lia. Qed.

(** A stripped name that fits *)
Definition fits (name : list Z) : Prop := Forall (λ c, 1 ≤ c ≤ 255) name ∧ (length name ≤ 99)%nat.

Definition header_for (name : list Z) (type : ustar_type) (md z mt : list Z) : list Z :=
  unsummed (name ++ [0]) (md ++ [0]) (chars "0000000" ++ [0]) (chars "0000000" ++ [0]) (z ++ [0]) (mt ++ [0]) [type_value type]
    (chars "ustar" ++ [0]) (chars "0") (chars "0") (chars "root" ++ [0]) (chars "root" ++ [0]).

Lemma type_byte type : type ≠ USTAR_EOF → is_byte (type_value type).
Proof using. unfold is_byte. destruct type; cbn; intros; (done || lia). Qed.

Lemma octal_length w v cs : octal w v cs → length (cs ++ [0]) = S w.
Proof using. intros (Hl & _). rewrite length_app, Hl. cbn. lia. Qed.

Lemma header_for_bytes name type md z mt mdv zv :
  fits name → type ≠ USTAR_EOF → octal 7 mdv md → octal 11 zv z → octal 11 1136102400 mt →
  Forall is_byte (header_for name type md z mt) ∧ length (header_for name type md z mt) = 512%nat.
Proof using.
  intros [Hnb Hnl] Ht Hmd Hz Hmt.
  pose proof (octal_bytes _ _ _ Hmd) as Bmd. pose proof (octal_bytes _ _ _ Hz) as Bz. pose proof (octal_bytes _ _ _ Hmt) as Bmt.
  assert (Forall is_byte (name ++ [0])) as Bn.
  { apply Forall_app_2; [|by repeat constructor]. eapply Forall_impl; [exact Hnb|]. unfold is_byte. lia. }
  split.
  - unfold header_for, unsummed. repeat (apply overwrite_bytes; [|assumption || (apply Forall_singleton, type_byte, Ht) || (vm_compute; repeat constructor; discriminate)]).
    apply Forall_replicate. unfold is_byte. lia.
  - unfold header_for, unsummed. repeat (apply overwrite_512; [|rewrite ?(octal_length _ _ _ Hmd), ?(octal_length _ _ _ Hz), ?(octal_length _ _ _ Hmt); cbn [length]; try (vm_compute; lia)]); [apply length_replicate|].
    rewrite length_app. cbn [length]. lia.
Qed.

Lemma last_zero (name : list Z) : (length name ≤ 99)%nat → slice 99 1 (overwrite 0 (name ++ [0]) (replicate 512 0)) = [0].
Proof using.
  intros Hn. assert (overwrite 0 (name ++ [0]) (replicate 512 0) !! 99%nat = Some 0) as H9; [|by rewrite slice_head, H9].
  assert (length (name ++ [0]) = S (length name)) as Hl by (rewrite length_app; cbn [length]; lia).
  rewrite overwrite_lookup by (rewrite length_replicate; lia). case_decide as Hd; [|apply lookup_replicate_2; lia].
  replace (99 - 0)%nat with (length name) by lia. apply list_lookup_middle. lia.
Qed.

Lemma chksum_small l : Forall is_byte l → length l = 512%nat → 0 ≤ total (blanked l) < 8 ^ Z.of_nat 7 ∧ total (blanked l) < 2 ^ 32.
Proof using.
  intros Hb Hl. assert (length (blanked l) = 512%nat) as Hl' by (apply overwrite_512; [done|rewrite length_replicate; lia]).
  destruct (total_bound (blanked l)) as [? ?]; [|lia]. apply overwrite_bytes; [done|]. apply Forall_replicate. unfold is_byte. lia.
Qed.

Lemma composed_laid name type size md z mt k mdv :
  fits name → type ≠ USTAR_EOF → octal 7 mdv md → octal 11 size z → octal 11 1136102400 mt →
  octal 7 (total (blanked (header_for name type md z mt))) k →
  composed (overwrite 148 (k ++ [0]) (header_for name type md z mt)) name type size.
Proof using.
  intros Hf Ht Hmd Hz Hmt Hk. destruct (header_for_bytes name type md z mt _ _ Hf Ht Hmd Hz Hmt) as [Hb Hl]. destruct Hf as [Hnb Hnl].
  assert (length (name ++ [0%Z]) ≤ 100)%nat as Hn1 by (rewrite length_app; cbn [length]; lia).
  pose proof (octal_length _ _ _ Hmd) as Lmd. pose proof (octal_length _ _ _ Hz) as Lz. pose proof (octal_length _ _ _ Hmt) as Lmt.
  pose proof (octal_length _ _ _ Hk) as Lk.
  set (l := overwrite 148 _ _).
  change l with (laid (name ++ [0]) (md ++ [0]) (chars "0000000" ++ [0]) (chars "0000000" ++ [0]) (z ++ [0]) (mt ++ [0]) [type_value type]
    (chars "ustar" ++ [0]) (chars "0") (chars "0") (chars "root" ++ [0]) (chars "root" ++ [0]) (k ++ [0])).
  split.
  - apply overwrite_bytes; [done|by eapply octal_bytes].
  - replace (S (length name)) with (length (name ++ [0])) by (rewrite length_app; cbn [length]; lia). by apply laid_name.
  - apply slice_one. rewrite laid_last by done. by apply last_zero.
  - exists z. split; [done|]. by apply laid_size.
  - exists k. split; [|by apply laid_chksum]. unfold laid. by rewrite blanked_overwrite.
  - apply slice_one. by apply laid_type.
  - by apply laid_magic.
  - split; apply slice_one; [by apply laid_version0|by apply laid_version1].
  - apply slice_one. by apply laid_prefix.
Qed.

Lemma wp_put_then {A} m l (o n : nat) cs (k : unit → M (gmap Z Z) A) Q :
  image m l → length cs = n → (o + n ≤ 512)%nat → (∀ m', image m' (overwrite o cs l) → wp Full (k tt) Q m') →
  wp Full (put (h + Z.of_nat o) cs ≫= k) Q m.
Proof. intros Hi <- Ho Hk. apply wp_bind. by apply (wp_put_bytes Full m l). Qed.

Lemma wp_octal_then {A} m l (o w : nat) ds v (k : unit → M (gmap Z Z) A) Q :
  image m l → (o + w + 1 ≤ 512)%nat ∧ (1 ≤ w)%nat ∧ number ds = Z.of_nat w ∧ digits_ok ds ∧ head ds ≠ Some 48 ∧ (length ds ≤ 2)%nat →
  0 ≤ v < 8 ^ Z.of_nat w ∧ v < 2 ^ 32 → (∀ m' cs, octal w v cs → image m' (overwrite o (cs ++ [0]) l) → wp Full (k tt) Q m') →
  wp Full (print_octal (h + Z.of_nat o) (Z.of_nat w + 1) (37 :: 48 :: ds ++ [111]) v ≫= k) Q m.
Proof. intros ? (? & ? & ? & ? & ? & ?) [? ?] Hk. apply wp_bind. by apply (wp_print_octal Full m l). Qed.

(** [ustar_make_header] for a stripped name that fits *)
Lemma wp_make file_name type size (Q : bool * list Z → gmap Z Z → Prop) :
  (∀ z, h ≤ z < h + 512 → is_Some (m0 !! z)) → fits (strip_antisocial_prefixes file_name) → type ≠ USTAR_EOF → 0 ≤ size < 2 ^ 31 →
  (∀ m l, image m l → composed l (strip_antisocial_prefixes file_name) type size → Q (true, []) m) →
  wp Full (ustar_make_header file_name type size h) Q m0.
Proof.
  intros Hm Hf Ht Hs HQ. unfold ustar_make_header. cbn zeta. set (name := strip_antisocial_prefixes file_name) in *.
  apply wp_bind, wp_check; [done|]. apply wp_bind, wp_check; [by destruct type|]. rewrite bool_decide_false by (destruct Hf; lia).
  apply wp_bind, wp_clear; [done|]. intros m1 I1. unfold strlcpy. rewrite !strlcpy_all by (done || (destruct Hf; vm_compute (sizeof f_name); lia)).
  eapply (wp_put_then m1 _ 0 (S (length name))); [exact I1|rewrite length_app; cbn [length]; lia|destruct Hf; lia|]. intros m2 I2.
  eapply (wp_octal_then m2 _ 100 7 [55]); [exact I2|by repeat split; try lia; repeat constructor|by destruct type|]. intros m3 md Omd I3.
  eapply (wp_put_then m3 _ 108 8); [exact I3|done|lia|]. intros m4 I4.
  eapply (wp_put_then m4 _ 116 8); [exact I4|done|lia|]. intros m5 I5.
  eapply (wp_octal_then m5 _ 124 11 [49; 49]); [exact I5|by repeat split; try lia; repeat constructor|lia|]. intros m6 z Oz I6.
  eapply (wp_octal_then m6 _ 136 11 [49; 49]); [exact I6|by repeat split; try lia; repeat constructor|lia|]. intros m7 mt Omt I7.
  eapply (wp_put_then m7 _ 156 1); [exact I7|done|lia|]. intros m8 I8.
  eapply (wp_put_then m8 _ 257 6); [exact I8|done|lia|]. intros m9 I9.
  replace (h + offsetof f_version + 1) with (h + Z.of_nat 264) by (change (offsetof f_version) with 263; lia).
  eapply (wp_put_then m9 _ 264 1); [exact I9|done|lia|]. intros m10 I10.
  eapply (wp_put_then m10 _ 263 1); [exact I10|done|lia|]. intros m11 I11.
  eapply (wp_put_then m11 _ 297 5); [exact I11|done|lia|]. intros m12 I12.
  eapply (wp_put_then m12 _ 265 5); [exact I12|done|lia|]. intros m13 I13.
  destruct (header_for_bytes name type md z mt _ _ Hf Ht Omd Oz Omt) as [Hb Hl].
  apply wp_bind. eapply wp_chksum; [exact I13|exact Hb|].
  eapply (wp_octal_then m13 _ 148 7 [55]); [exact I13|by repeat split; try lia; repeat constructor|apply chksum_small; [exact Hb|exact Hl]|].
  intros m14 k Ok I14. apply wp_ret. eapply HQ; [exact I14|]. by eapply (composed_laid name type size md z mt k).
Qed.

(** ** Parsing *)

Lemma wp_not_zeros t m l n : ∀ (o : nat) (Q : bool → gmap Z Z → Prop) (j : nat) c,
  image m l → (o ≤ j < o + n)%nat → (o + n ≤ 512)%nat → l !! j = Some c → c ≠ 0 → Q false m → wp t (is_all_zeros (h + Z.of_nat o) n) Q m.
Proof.
  induction n as [|n IH]; intros o Q j c Hi Hj Ho Hc Hn HQ; [lia|]. cbn [is_all_zeros].
  destruct (lookup_lt_is_Some_2 l o) as [d Hd]; [rewrite (im_length _ _ Hi); lia|]. apply wp_bind. apply (wp_byte_at t m l o d); [done|done|].
  destruct (decide (d = 0)) as [->|Hd0]; [|rewrite bool_decide_true by done; by apply wp_ret].
  rewrite bool_decide_false by tauto. replace (h + Z.of_nat o + 1) with (h + Z.of_nat (S o)) by lia.
  apply (IH (S o) Q j c); try done; try lia. destruct (decide (j = o)) as [->|]; [|lia]. congruence.
Qed.

Lemma wp_validate m l name type size (Q : option string → gmap Z Z → Prop) :
  image m l → composed l name type size → type ≠ USTAR_EOF → Q None m → wp Full (validate h) Q m.
Proof.
  intros Hi [Hb Hn Hlast Hs (k & Ok & Sk) Hty Hmg [Hv0 Hv1] Hp] Ht HQ. unfold validate. cbn zeta.
  apply wp_bind. apply (wp_differs Full m l _ 257); [done|done|]. cbn match.
  apply wp_bind. apply (wp_byte_at Full m l 263 48); [done|done|]. apply wp_bind. rewrite bool_decide_false by tauto.
  apply wp_bind. replace (h + offsetof f_version + 1) with (h + Z.of_nat 264) by (change (offsetof f_version) with 263; lia).
  apply (wp_byte_at Full m l 264 48); [done|done|]. apply wp_ret. rewrite bool_decide_false by tauto.
  apply wp_bind. pose proof (chksum_small l Hb (im_length _ _ Hi)) as [_ Hc]. apply (wp_parse_octal Full m l 148 7 (total (blanked l)) k); [done|exact Ok|done|lia|exact Hc|]. cbn match.
  apply wp_bind. apply (wp_chksum Full m l); [done|done|]. rewrite bool_decide_false by tauto.
  apply wp_bind. replace (h + offsetof f_name + (sizeof f_name - 1)) with (h + Z.of_nat 99) by (change (offsetof f_name) with 0; change (sizeof f_name) with 100; lia).
  apply (wp_byte_at Full m l 99 0); [done|done|]. apply wp_bind. rewrite bool_decide_false by tauto.
  apply wp_bind. apply (wp_byte_at Full m l 345 0); [done|done|]. apply wp_ret. rewrite bool_decide_false by tauto.
  apply wp_bind. apply (wp_byte_at Full m l 156 (type_value type)); [done|done|]. destruct type; [| |done]; by apply wp_ret.
Qed.

Lemma wp_parse m l name type size (Q : parsed → gmap Z Z → Prop) :
  image m l → composed l name type size → type ≠ USTAR_EOF → fits name → harmless name → 0 ≤ size < 2 ^ 31 →
  Q (Parsed (Some name) type (if bool_decide (type = USTAR_REGULAR) then size else 0)) m → wp Full (ustar_parse_header h) Q m.
Proof.
  intros Hi Hc Ht [Hnb Hnl] Hh Hs HQ. pose proof Hc as [_ Hn _ (z & Oz & Sz) _ Hty _ _ _]. unfold ustar_parse_header. cbn zeta.
  apply wp_bind, wp_check; [done|]. apply wp_bind. rewrite <- (Z.add_0_r h) at 1. apply (wp_not_zeros Full m l 512 0 _ 156 (type_value type)); [done|lia|lia|done|by destruct type|].
  apply wp_bind. eapply wp_validate; [done|done|done|]. cbn match.
  apply wp_bind. apply (wp_byte_at Full m l 156 (type_value type)); [done|done|]. apply wp_bind.
  assert (wp Full (string_at (h + offsetof f_name) (Z.to_nat (sizeof f_name))) (λ s m', s = name ∧ m' = m) m) as Hstr.
  { apply (wp_string_at Full m l name 0); [done|done| |change (Z.to_nat (sizeof f_name)) with 100%nat; lia|done].
    eapply Forall_impl; [exact Hnb|]. intros c Hc0. cbn in Hc0 |- *. lia. }
  destruct type; [| |done].
  - rewrite !bool_decide_true in * by done. apply wp_bind. apply (wp_parse_octal Full m l 124 11 size z); [done|done|done|lia|lia|]. apply wp_ret.
    rewrite bool_decide_false by (unfold INT_MAX; lia). apply wp_bind. eapply wp_mono; [exact Hstr|]. intros ? ? [-> ->]. apply wp_ret. by rewrite strip_id.
  - rewrite bool_decide_false in HQ by done. rewrite !bool_decide_false by done. apply wp_ret.
    apply wp_bind. eapply wp_mono; [exact Hstr|]. intros ? ? [-> ->]. apply wp_ret. by rewrite strip_id.
Qed.

(** *** Whatever the header holds *)

(** [f] ends without undefined behaviour, leaves memory alone and returns something that
    satisfies [P]. *)
Definition looks {A} (m : gmap Z Z) (f : M (gmap Z Z) A) (P : A → Prop) : Prop := wp Full f (λ a m', m' = m ∧ P a) m.

Lemma looks_bind {A B} m (f : M (gmap Z Z) A) (k : A → M (gmap Z Z) B) P Q :
  looks m f P → (∀ a, P a → looks m (k a) Q) → looks m (f ≫= k) Q.
Proof using. intros Hf Hk. apply wp_bind. eapply wp_mono; [exact Hf|]. intros a m' [-> Ha]. by apply Hk. Qed.

Lemma looks_ret {A} m (a : A) (P : A → Prop) : P a → looks m (mret a) P.
Proof using. intros Ha. by apply wp_ret. Qed.

Lemma looks_byte m l (i : nat) : image m l → (i < 512)%nat → looks m (byte_at (h + Z.of_nat i)) (λ c, l !! i = Some c).
Proof.
  intros Hi Hlt. destruct (lookup_lt_is_Some_2 l i) as [c Hc]; [rewrite (im_length _ _ Hi); lia|]. by apply (wp_byte_at Full m l i c).
Qed.

Lemma looks_differs m l cs : ∀ o, image m l → (o + length cs ≤ 512)%nat → looks m (differs (h + Z.of_nat o) cs) (λ _, True).
Proof.
  induction cs as [|c cs IH]; intros o Hi Ho; cbn [differs]; [by apply looks_ret|]. cbn [length] in Ho.
  eapply looks_bind; [apply (looks_byte m l o Hi); lia|]. intros d _. case_bool_decide; [by apply looks_ret|].
  replace (h + Z.of_nat o + 1) with (h + Z.of_nat (S o)) by lia. apply IH; [done|lia].
Qed.

Lemma looks_string m l : ∀ n o, image m l → (o + n ≤ 512)%nat → l !! (o + n - 1)%nat = Some 0 → (1 ≤ n)%nat →
  looks m (string_at (h + Z.of_nat o) n) (λ s, (length s < n)%nat).
Proof.
  induction n as [|n IH]; intros o Hi Ho Hz Hn; [lia|]. cbn [string_at].
  eapply looks_bind; [apply (looks_byte m l o Hi); lia|]. intros c Hc. case_bool_decide as Hc0; [apply looks_ret; cbn; lia|].
  replace (h + Z.of_nat o + 1) with (h + Z.of_nat (S o)) by lia.
  assert (n ≠ 0)%nat as Hn0. { intros ->. replace (o + 1 - 1)%nat with o in Hz by lia. congruence. }
  eapply looks_bind; [apply (IH (S o)); [done|lia| |lia]|].
  - replace (S o + n - 1)%nat with (o + S n - 1)%nat by lia. done.
  - intros s Hs. apply looks_ret. cbn in Hs |- *. lia.
Qed.

Lemma looks_octal_loop m l : ∀ n (o k : nat) v, image m l → (o + k + n ≤ 512)%nat → 0 ≤ v < 2 ^ 32 →
  looks m (octal_loop (h + Z.of_nat o) (Z.of_nat k) n v) (λ r, ∀ x, r = Some x → 0 ≤ x < 2 ^ 32).
Proof.
  induction n as [|n IH]; intros o k v Hi Ho Hv; cbn [octal_loop]; [by apply looks_ret|].
  replace (h + Z.of_nat o + Z.of_nat k) with (h + Z.of_nat (o + k)) by lia.
  eapply looks_bind; [apply (looks_byte m l (o + k) Hi); lia|]. intros c Hc.
  destruct (bool_decide (48 ≤ c) && bool_decide (c ≤ 55)).
  - case_bool_decide; [by apply looks_ret|]. replace (Z.of_nat k + 1) with (Z.of_nat (S k)) by lia. apply IH; [done|lia|].
    unfold wrap_u32. apply Z.mod_pos_bound. lia.
  - destruct (_ || _); apply looks_ret; [|done]. intros x. case_bool_decide; [|done]. by intros [= <-].
Qed.

Lemma looks_chksum_loop m l : ∀ n (i : nat) acc, image m l → (i + n ≤ 512)%nat → looks m (chksum_loop h (Z.of_nat i) n acc) (λ _, True).
Proof.
  induction n as [|n IH]; intros i acc Hi Ho; cbn [chksum_loop]; [by apply looks_ret|].
  eapply looks_bind; [apply (looks_byte m l i Hi); lia|]. intros c _. replace (Z.of_nat i + 1) with (Z.of_nat (S i)) by lia. apply IH; [done|lia].
Qed.

Lemma looks_zeros m l : ∀ n (o : nat), image m l → (o + n ≤ 512)%nat →
  looks m (is_all_zeros (h + Z.of_nat o) n) (λ b, if b then slice o n l = replicate n 0 else slice o n l ≠ replicate n 0).
Proof.
  induction n as [|n IH]; intros o Hi Ho; cbn [is_all_zeros]; [by apply looks_ret|].
  eapply looks_bind; [apply (looks_byte m l o Hi); lia|]. intros c Hc. case_bool_decide as Hc0.
  - apply looks_ret. rewrite slice_head, Hc. cbn [replicate]. congruence.
  - replace (h + Z.of_nat o + 1) with (h + Z.of_nat (S o)) by lia. eapply wp_mono; [apply (IH (S o)); [done|lia]|].
    intros b m' [-> Hb]. split; [done|]. rewrite slice_head, Hc. cbn [replicate]. destruct b; [rewrite Hb|]; f_equal; [lia|congruence].
Qed.

Lemma looks_octal m l (o w : nat) : image m l → (o + S w ≤ 512)%nat →
  looks m (parse_octal_field (h + Z.of_nat o) (Z.of_nat w + 1)) (λ r, ∀ x, r = Some x → 0 ≤ x < 2 ^ 32).
Proof. intros Hi Ho. unfold parse_octal_field. apply (looks_octal_loop m l _ o 0); [done|lia|lia]. Qed.

Lemma looks_validate m l : image m l →
  looks m (validate h) (λ e, e = None → l !! 99%nat = Some 0 ∧ ∃ t, l !! 156%nat = Some t ∧ (t = type_value USTAR_REGULAR ∨ t = type_value USTAR_DIRECTORY)).
Proof.
  intros Hi. unfold validate. cbn zeta. eapply looks_bind; [apply (looks_differs m l _ 257 Hi); vm_compute; lia|]. intros [] _; [by apply looks_ret|].
  eapply looks_bind; [apply (looks_byte m l 263 Hi); lia|]. intros v0 _. eapply (looks_bind _ _ _ (λ _, True)).
  { case_bool_decide; [by apply looks_ret|]. replace (h + offsetof f_version + 1) with (h + Z.of_nat 264) by (change (offsetof f_version) with 263; lia).
    eapply looks_bind; [apply (looks_byte m l 264 Hi); lia|]. intros ? _. by apply looks_ret. }
  intros [] _; [by apply looks_ret|]. eapply looks_bind; [apply (looks_octal m l 148 7 Hi); lia|]. intros [k|] _; [|by apply looks_ret].
  eapply looks_bind; [apply (looks_chksum_loop m l 512 0 0 Hi); lia|]. intros c _. case_bool_decide; [by apply looks_ret|].
  replace (h + offsetof f_name + (sizeof f_name - 1)) with (h + Z.of_nat 99) by (change (offsetof f_name) with 0; change (sizeof f_name) with 100; lia).
  eapply looks_bind; [apply (looks_byte m l 99 Hi); lia|]. intros z Hz. eapply (looks_bind _ _ _ (λ b, b = false → z = 0)).
  { case_bool_decide; [by apply looks_ret|]. eapply looks_bind; [apply (looks_byte m l 345 Hi); lia|]. intros ? _. apply looks_ret. intros _. lia. }
  intros [] Hb; [by apply looks_ret|]. eapply looks_bind; [apply (looks_byte m l 156 Hi); lia|]. intros t Ht. cbn in Hz, Ht, Hb.
  destruct (bool_decide (t ≠ _) && _) eqn:E; apply looks_ret; [done|]. intros _. rewrite Hb in Hz by done. split; [done|]. exists t. split; [done|].
  apply andb_false_iff in E as [E%bool_decide_eq_false|E%bool_decide_eq_false]; [left|right]; by apply dec_stable.
Qed.

(** What a successful parse returns *)
Definition plausible (l : list Z) (r : parsed) : Prop :=
  match r with
  | Failed _ => l ≠ replicate 512 0
  | Parsed None type size => l = replicate 512 0 ∧ type = USTAR_EOF ∧ size = 0
  | Parsed (Some name) type size =>
      l ≠ replicate 512 0 ∧ harmless name ∧ (length name ≤ 99)%nat ∧ l !! 156%nat = Some (type_value type) ∧ type ≠ USTAR_EOF ∧ 0 ≤ size ≤ INT_MAX ∧
      (type = USTAR_DIRECTORY → size = 0)
  end.

Lemma strip_length name : (length (strip_antisocial_prefixes name) ≤ length name `max` 1)%nat.
Proof using.
  unfold strip_antisocial_prefixes. destruct (_ || _); [cbn; lia|]. pose proof (suffix_length _ _ (strip_loop_suffix (S (length name)) name)). lia.
Qed.

Lemma looks_parse m l : image m l → looks m (ustar_parse_header h) (plausible l).
Proof.
  intros Hi. unfold ustar_parse_header. cbn zeta. apply wp_bind, wp_check; [done|]. rewrite <- (Z.add_0_r h) at 1.
  eapply looks_bind; [apply (looks_zeros m l 512 0 Hi); lia|]. intros b Hb. cbn beta in Hb.
  assert (slice 0 512 l = l) as Es by (unfold slice; rewrite drop_0, take_ge; [done|by rewrite (im_length _ _ Hi)]). rewrite Es in Hb.
  destruct b; [by apply looks_ret|]. eapply looks_bind; [apply (looks_validate m l Hi)|]. intros [e|] He; [by apply looks_ret|].
  destruct (He eq_refl) as (Hz & t & Ht & Hty). eapply looks_bind; [apply (looks_byte m l 156 Hi); lia|]. intros t' Ht'. cbn beta in Ht'.
  assert (t' = t) as -> by congruence. set (type := if bool_decide _ then _ else _).
  assert (type_value type = t ∧ type ≠ USTAR_EOF) as [Etv Hne] by (unfold type; case_bool_decide; (split; [|done]); destruct Hty; congruence).
  eapply (looks_bind _ _ _ (λ r, ∀ size, r = inr size → 0 ≤ size ≤ INT_MAX ∧ (type = USTAR_DIRECTORY → size = 0))).
  { case_bool_decide as Hr; [|apply looks_ret; intros ? [= <-]; split; [unfold INT_MAX; lia|done]].
    eapply looks_bind; [apply (looks_octal m l 124 11 Hi); lia|]. intros v Hv. apply looks_ret. intros size. destruct v as [v|]; [|done]. case_bool_decide; [done|].
    intros [= <-]. split; [specialize (Hv v eq_refl); lia|]. unfold type. done. }
  intros [e|size] Hsz; [by apply looks_ret|]. destruct (Hsz size eq_refl) as [Hs1 Hs2].
  eapply looks_bind; [apply (looks_string m l 100 0 Hi); [lia|done|lia]|]. intros name Hn. cbn beta in Hn. apply looks_ret.
  split_and!; [done|apply strip_harmless|pose proof (strip_length name); lia|congruence|done|lia|lia|done].
Qed.

Lemma image_exists : (∀ z, h ≤ z < h + 512 → is_Some (m0 !! z)) → image m0 ((λ i : nat, default 0 (m0 !! (h + Z.of_nat i))) <$> seq 0 512).
Proof.
  intros Hm. split; [by rewrite length_fmap, length_seq| |done]. intros i c. rewrite list_lookup_fmap. intros (j & Hj & ->)%fmap_Some.
  apply lookup_seq in Hj as [-> Hj]. destruct (Hm (h + Z.of_nat (0 + i))) as [x Hx]; [lia|]. by rewrite Hx.
Qed.

End header.

(** ** The claims *)

(** The name that an archive records *)
Definition recorded (name : list Z) : list Z := strip_antisocial_prefixes name.

(** C25 (roundtrip): when the 512 bytes at [header] are mapped and what remains of the
    (nonzero) characters of [file_name] without its dangerous prefixes has at most 99
    of them, [ustar_make_header] succeeds for a regular file or a directory and every
    size that an [int] can hold: it prints nothing, changes only those 512 bytes, and
    [ustar_parse_header] of what it leaves returns the stripped name, the type and, for
    a regular file, the size, without writing to memory.  The name has no prefix "/",
    "./" or "../" and is neither empty nor "..".  With a longer name it fails with a
    message and writes nothing. *)
Theorem ustar_roundtrip m header file_name type size :
  (∀ z, header ≤ z < header + Z.of_nat USTAR_HEADER_SIZE → is_Some (m !! z)) →
  Forall (λ c, 1 ≤ c ≤ 255) file_name → type ≠ USTAR_EOF → 0 ≤ size ≤ INT_MAX →
  harmless (recorded file_name) ∧
  if decide (length (recorded file_name) ≤ 99)%nat then
    ∃ m', ustar_make_header file_name type size header m = Done ((true, []), m') ∧
      (∀ z, ¬ header ≤ z < header + Z.of_nat USTAR_HEADER_SIZE → m' !! z = m !! z) ∧
      ustar_parse_header header m' =
        Done (Parsed (Some (recorded file_name)) type (if decide (type = USTAR_REGULAR) then size else 0), m')
  else ustar_make_header file_name type size header m = Done ((false, recorded file_name ++ chars ": file name too long" ++ [10]), m).
Proof.
  intros Hm Hf Ht Hs. unfold INT_MAX in Hs. split; [apply strip_harmless|]. case_decide as Hl; unfold recorded in *.
  - assert (fits (strip_antisocial_prefixes file_name)) as Hfit by (split; [by apply strip_chars|done]).
    pose proof (wp_make header m file_name type size (λ r m', r = (true, []) ∧ ∃ l, image header m m' l ∧ composed l (strip_antisocial_prefixes file_name) type size)
      Hm Hfit Ht ltac:(lia) (λ m' l Hi Hc, conj eq_refl (ex_intro _ l (conj Hi Hc)))) as Hw. unfold wp in Hw.
    destruct (ustar_make_header file_name type size header m) as [[r m']| |]; [|done|done]. destruct Hw as (-> & l & Hi & Hc).
    exists m'. split_and!; [done|apply (im_rest _ _ _ _ Hi)|].
    pose proof (wp_parse header m m' l _ type size (λ r m'', r = Parsed (Some (strip_antisocial_prefixes file_name)) type (if decide (type = USTAR_REGULAR) then size else 0) ∧ m'' = m')
      Hi Hc Ht Hfit (strip_harmless _) ltac:(lia) ltac:(by destruct type)) as Hp. unfold wp in Hp.
    destruct (ustar_parse_header header m') as [[r m'']| |]; [|done|done]. by destruct Hp as [-> ->].
  - unfold ustar_make_header. cbn zeta. unfold mbind, M_bind, check. rewrite (bool_decide_true (99 < _)) by lia. by destruct type.
Qed.

(** C26 (bounds): whatever 512 bytes lie at [header], [ustar_parse_header] reads nothing
    outside them, writes nothing and returns: the end of the archive exactly when all of
    them are 0; otherwise an error, or a name of at most 99 characters that is not
    empty, not ".." and has none of the prefixes "/", "./" and "../", with the type in
    the header and a size between 0 and [INT_MAX], 0 for a directory. *)
Theorem ustar_parse_safe m header :
  (∀ z, header ≤ z < header + Z.of_nat USTAR_HEADER_SIZE → is_Some (m !! z)) →
  ∃ r, ustar_parse_header header m = Done (r, m) ∧
    plausible ((λ i : nat, default 0 (m !! (header + Z.of_nat i))) <$> seq 0 USTAR_HEADER_SIZE) r.
Proof.
  intros Hm. pose proof (looks_parse header m m _ (image_exists header m Hm)) as Hl. unfold looks, wp in Hl.
  destruct (ustar_parse_header header m) as [[r m']| |]; [|done|done]. destruct Hl as [-> Hp]. by exists r.
Qed.

(** *** Witnesses *)

(** Memory with the given bytes at address 16 *)
Definition ustar_memory (l : list Z) : gmap Z Z := list_to_map (zip (Z.of_nat <$> seq 16 (length l)) l).

Lemma ustar_memory_mapped l z : 16 ≤ z < 16 + Z.of_nat (length l) → is_Some (ustar_memory l !! z).
Proof.
  intros Hz. unfold ustar_memory. destruct (_ !! z) eqn:E; [done|]. apply not_elem_of_list_to_map in E. destruct E.
  rewrite fst_zip by (rewrite length_fmap, length_seq; lia). apply list_elem_of_fmap. exists (Z.to_nat z). split; [lia|]. apply elem_of_seq. lia.
Qed.

Lemma ustar_roundtrip_witness :
  let m := ustar_memory (replicate 512 255) in
  match ustar_make_header (chars "/../bin/ls") USTAR_REGULAR 1234567 16 m with
  | Done ((true, []), m') => ustar_parse_header 16 m' = Done (Parsed (Some (chars "bin/ls")) USTAR_REGULAR 1234567, m')
  | _ => False
  end.
Proof.
  pose proof (ustar_roundtrip (ustar_memory (replicate 512 255)) 16 (chars "/../bin/ls") USTAR_REGULAR 1234567
    (λ z Hz, ustar_memory_mapped (replicate 512 255) z Hz) ltac:(vm_compute; repeat constructor; discriminate) ltac:(done) ltac:(unfold INT_MAX; lia)) as [_ Hr].
  cbn zeta. destruct (decide (length (recorded (chars "/../bin/ls")) ≤ 99)%nat) as [_|Hn]; [|destruct Hn; vm_compute; lia].
  destruct Hr as (m' & -> & _ & Hp). exact Hp.
Defined.

Lemma ustar_parse_safe_witness :
  ustar_parse_header 16 (ustar_memory (replicate 512 0)) = Done (Parsed None USTAR_EOF 0, ustar_memory (replicate 512 0)).
Proof.
  destruct (ustar_parse_safe (ustar_memory (replicate 512 0)) 16 (λ z Hz, ustar_memory_mapped (replicate 512 0) z Hz)) as (r & Hr & Hp).
  assert (((λ i : nat, default 0 (ustar_memory (replicate 512 0) !! (16 + Z.of_nat i))) <$> seq 0 USTAR_HEADER_SIZE) = replicate 512 0) as E by (vm_compute; reflexivity).
  rewrite E in Hp. rewrite Hr. destruct r as [e|[name|] type size]; cbn in Hp; [done|by destruct Hp|]. by destruct Hp as (_ & -> & ->).
Defined.
