(* ===== verification/KProcess.v ===== *)
(** * Pintos: loading programs

    [Project_3/userprog/process.c]: building the address space of a process from an
    ELF executable, starting it, and taking the address space down again.  The state
    joins the machine of [KPageDir] with the file system of [FileSys]; [pagedir] is
    the page directory of the running thread (0 is the null pointer), [cur] the address
    of its page and [esp0] the field of the task-state segment that [tss_update]
    sets.  Headers are decoded from the bytes that [file_read] stores; a local header
    is used only after a read of its full size.

    [thread_create], which [process_execute] calls, belongs to the machine of [Kernel];
    the model starts where the new thread does. *)

From stdpp Require Import base tactics list gmap strings.
From Stdlib Require Import ZArith Lia.
From S2P Require Import Prelude CString Bitmap KMalloc KPalloc FileSys KPageDir.

Local Open Scope Z_scope.

(** ** State *)

Record process := Process {
  machine : mach;
  fsys : fs;
  pagedir : Z;
  cur : Z;
  esp0 : Z;
  console : list (list Z)
}.

Local Abbreviation PM := (M process).

Definition set_machine (s : mach) (p : process) : process := Process s (fsys p) (pagedir p) (cur p) (esp0 p) (console p).
Definition set_fsys (s : fs) (p : process) : process := Process (machine p) s (pagedir p) (cur p) (esp0 p) (console p).
Definition set_pagedir (pd : Z) (p : process) : process := Process (machine p) (fsys p) pd (cur p) (esp0 p) (console p).

(** A computation on a part of the state *)
Definition zoom {S A} (get_ : process → S) (set_ : S → process → process) (f : M S A) : PM A :=
  λ p, match f (get_ p) with
       | Done (a, s) => Done (a, set_ s p)
       | Undef => Undef
       | NoFuel => NoFuel
       end.

Definition on_machine {A} : M mach A → PM A := zoom machine set_machine.
Definition on_files {A} : M fs A → PM A := zoom fsys set_fsys.

Definition printf (line : list Z) : PM unit :=
  modify (λ p, Process (machine p) (fsys p) (pagedir p) (cur p) (esp0 p) (console p ++ [line])).

(** The characters of a literal *)
Definition text (s : string) : list Z := (λ a, Z.of_nat (Ascii.nat_of_ascii a)) <$> String.list_ascii_of_string s.

(** Bytes stored in memory, by [file_read] or [memset] *)
Fixpoint put_bytes (a : Z) (bs : list Z) (m : gmap Z Z) : gmap Z Z :=
  match bs with
  | [] => m
  | b :: bs => put_bytes (a + 1) bs (<[a := b]> m)
  end.

Definition store_bytes (a : Z) (bs : list Z) : M mach unit :=
  modify (λ s, Mach (set_memory (put_bytes a bs) (pm s)) (cr3 s) (tlb s)).

(** ** ELF headers *)

Definition byte (l : list Z) (o : nat) : Z := default 0 (l !! o).
Definition Elf32_Half (l : list Z) (o : nat) : Z := byte l o + 256 * byte l (o + 1).
Definition Elf32_Word (l : list Z) (o : nat) : Z :=
  byte l o + 256 * byte l (o + 1) + 65536 * byte l (o + 2) + 16777216 * byte l (o + 3).

Record Elf32_Ehdr := Ehdr {
  e_ident : list Z; e_type : Z; e_machine : Z; e_version : Z; e_entry : Z; e_phoff : Z; e_shoff : Z; e_flags : Z;
  e_ehsize : Z; e_phentsize : Z; e_phnum : Z; e_shentsize : Z; e_shnum : Z; e_shstrndx : Z
}.

Definition EHDR_SIZE : Z := 52.

Definition decode_ehdr (l : list Z) : Elf32_Ehdr :=
  Ehdr (take 16 l) (Elf32_Half l 16) (Elf32_Half l 18) (Elf32_Word l 20) (Elf32_Word l 24) (Elf32_Word l 28) (Elf32_Word l 32)
    (Elf32_Word l 36) (Elf32_Half l 40) (Elf32_Half l 42) (Elf32_Half l 44) (Elf32_Half l 46) (Elf32_Half l 48) (Elf32_Half l 50).

Record Elf32_Phdr := Phdr {
  p_type : Z; p_offset : Z; p_vaddr : Z; p_paddr : Z; p_filesz : Z; p_memsz : Z; p_flags : Z; p_align : Z
}.

Definition PHDR_SIZE : Z := 32.

Definition decode_phdr (l : list Z) : Elf32_Phdr :=
  Phdr (Elf32_Word l 0) (Elf32_Word l 4) (Elf32_Word l 8) (Elf32_Word l 12) (Elf32_Word l 16) (Elf32_Word l 20) (Elf32_Word l 24) (Elf32_Word l 28).

Definition PT_LOAD : Z := 1.
Definition PT_DYNAMIC : Z := 2.
Definition PT_INTERP : Z := 3.
Definition PT_SHLIB : Z := 5.

Definition PF_W : Z := 2.

Definition PGMASK : Z := PAGE - 1.

Definition ROUND_UP (x step : Z) : Z := wrap_u32 (DIV_ROUND_UP x step * step).

(** ["\177ELF\1\1\1"] *)
Definition ELF_MAGIC : list Z := [127; 69; 76; 70; 1; 1; 1].

(** The condition after [file_read], negated *)
Definition good_ehdr (h : Elf32_Ehdr) : bool :=
  bool_decide (take 7 (e_ident h) = ELF_MAGIC) && bool_decide (e_type h = 2) && bool_decide (e_machine h = 3) && bool_decide (e_version h = 1) &&
  bool_decide (e_phentsize h = PHDR_SIZE) && bool_decide (e_phnum h ≤ 1024).

(** ** Address spaces *)

Section process.
Context (init_page_dir init_ram_pages : Z).

Definition process_activate : PM unit :=
  p ← get;
  on_machine (pagedir_activate init_page_dir (pagedir p));;
  modify (λ p, Process (machine p) (fsys p) (pagedir p) (cur p) (cur p + PAGE) (console p)).

Definition process_exit : PM unit :=
  p ← get;
  let pd := pagedir p in
  when (bool_decide (pd ≠ 0))
    (modify (set_pagedir 0);;
     on_machine (pagedir_activate init_page_dir 0);;
     on_machine (pagedir_destroy init_page_dir pd)).

Definition install_page (upage kpage : Z) (writable : bool) : PM bool :=
  p ← get;
  page ← on_machine (pagedir_get_page (pagedir p) upage);
  match page with
  | None => on_machine (pagedir_set_page init_page_dir init_ram_pages (pagedir p) upage kpage writable)
  | Some _ => mret false
  end.

(** ** Segments *)

Definition validate_segment (ph : Elf32_Phdr) (file : floc) : PM bool :=
  if bool_decide (Z.land (p_offset ph) PGMASK ≠ Z.land (p_vaddr ph) PGMASK) then mret false
  else
    len ← on_files (file_length file);
    if bool_decide (wrap_u32 len < p_offset ph) then mret false
    else if bool_decide (p_memsz ph < p_filesz ph) then mret false
    else if bool_decide (p_memsz ph = 0) then mret false
    else if negb (is_user_vaddr (p_vaddr ph)) then mret false
    else if negb (is_user_vaddr (wrap_u32 (p_vaddr ph + p_memsz ph))) then mret false
    else if bool_decide (wrap_u32 (p_vaddr ph + p_memsz ph) < p_vaddr ph) then mret false
    else if bool_decide (p_vaddr ph < PAGE) then mret false
    else mret true.

(** A turn of [while (read_bytes > 0 || zero_bytes > 0)], which fills a page *)
Definition load_page (file : floc) (writable : bool) : Z * Z * Z → PM (Z * Z * Z + bool) :=
  λ '(upage, read_bytes, zero_bytes),
    if bool_decide (0 < read_bytes) || bool_decide (0 < zero_bytes) then
      let page_read_bytes := if bool_decide (read_bytes < PAGE) then read_bytes else PAGE in
      let page_zero_bytes := PAGE - page_read_bytes in
      kpage ← on_machine (get_page PAL_USER);
      match kpage with
      | None => mret (inr false)
      | Some kpage =>
          buf ← on_files (file_read file page_read_bytes);
          on_machine (store_bytes kpage buf);;
          if bool_decide (Z.of_nat (length buf) ≠ page_read_bytes) then
            on_machine (free_page kpage);; mret (inr false)
          else
            on_machine (store_bytes (kpage + page_read_bytes) (replicate (Z.to_nat page_zero_bytes) 0));;
            ok ← install_page upage kpage writable;
            if ok : bool then
              mret (inl (wrap_u32 (upage + PAGE), wrap_u32 (read_bytes - page_read_bytes), wrap_u32 (zero_bytes - page_zero_bytes)))
            else on_machine (free_page kpage);; mret (inr false)
      end
    else mret (inr true).

(** The number of pages bounds the loop. *)
Definition load_pages (file : floc) (writable : bool) (upage read_bytes zero_bytes : Z) : PM bool :=
  loop (S (Z.to_nat ((read_bytes + zero_bytes) / PAGE))) (load_page file writable) (upage, read_bytes, zero_bytes).

Definition load_segment (file : floc) (ofs upage read_bytes zero_bytes : Z) (writable : bool) : PM bool :=
  check (bool_decide (wrap_u32 (read_bytes + zero_bytes) mod PAGE = 0));;
  check (bool_decide (pg_ofs upage = 0));;
  check (bool_decide (Z.rem ofs PAGE = 0));;
  on_files (file_seek file ofs);;
  load_pages file writable upage read_bytes zero_bytes.

(** The result is the new [*esp]. *)
Definition setup_stack : PM (option Z) :=
  kpage ← on_machine (get_page (Z.lor PAL_USER PAL_ZERO));
  match kpage with
  | Some kpage =>
      success ← install_page (PHYS_BASE - PAGE) kpage true;
      if success : bool then mret (Some PHYS_BASE)
      else on_machine (free_page kpage);; mret None
  | None => mret None
  end.

(** ** [load] *)

(** The case [PT_LOAD] of the [switch] *)
Definition load_phdr (file : floc) (ph : Elf32_Phdr) : PM bool :=
  valid ← validate_segment ph file;
  if valid : bool then
    let writable := bool_decide (Z.land (p_flags ph) PF_W ≠ 0) in
    let file_page := Z.land (p_offset ph) (Z.lnot PGMASK) in
    let mem_page := Z.land (p_vaddr ph) (Z.lnot PGMASK) in
    let page_offset := Z.land (p_vaddr ph) PGMASK in
    let read_bytes := if bool_decide (0 < p_filesz ph) then wrap_u32 (page_offset + p_filesz ph) else 0 in
    let zero_bytes :=
      if bool_decide (0 < p_filesz ph) then wrap_u32 (ROUND_UP (wrap_u32 (page_offset + p_memsz ph)) PAGE - read_bytes)
      else ROUND_UP (wrap_u32 (page_offset + p_memsz ph)) PAGE in
    load_segment file (signed file_page) mem_page read_bytes zero_bytes writable
  else mret false.

(** The header at [file_ofs] *)
Definition read_phdr (file : floc) (file_ofs : Z) : PM (option (list Z)) :=
  len ← on_files (file_length file);
  if bool_decide (file_ofs < 0) || bool_decide (len < file_ofs) then mret None
  else
    on_files (file_seek file file_ofs);;
    buf ← on_files (file_read file PHDR_SIZE);
    if bool_decide (Z.of_nat (length buf) ≠ PHDR_SIZE) then mret None else mret (Some buf).

(** [for (i = 0; i < ehdr.e_phnum; i++)] with [n] turns left *)
Fixpoint load_phdrs (file : floc) (file_ofs : Z) (n : nat) : PM bool :=
  match n with
  | O => mret true
  | S n =>
      buf ← read_phdr file file_ofs;
      match buf with
      | None => mret false
      | Some buf =>
          let ph := decode_phdr buf in
          let file_ofs := signed (wrap_u32 (file_ofs + PHDR_SIZE)) in
          if bool_decide (p_type ph = PT_DYNAMIC) || bool_decide (p_type ph = PT_INTERP) || bool_decide (p_type ph = PT_SHLIB) then mret false
          else if bool_decide (p_type ph = PT_LOAD) then
            ok ← load_phdr file ph;
            if ok : bool then load_phdrs file file_ofs n else mret false
          else load_phdrs file file_ofs n
      end
  end.

(** From the executable header to the start address; the result is [*eip] and [*esp]. *)
Definition load_file (file_name : list Z) (file : floc) : PM (option (Z * Z)) :=
  buf ← on_files (file_read file EHDR_SIZE);
  let ehdr := decode_ehdr buf in
  if bool_decide (Z.of_nat (length buf) ≠ EHDR_SIZE) || negb (good_ehdr ehdr) then
    printf (text "load: " ++ file_name ++ text ": error loading executable" ++ [10]);; mret None
  else
    ok ← load_phdrs file (signed (e_phoff ehdr)) (Z.to_nat (e_phnum ehdr));
    if ok : bool then
      esp ← setup_stack;
      mret ((λ esp, (e_entry ehdr, esp)) <$> esp)
    else mret None.

(** Allocating and activating the page directory *)
Definition new_pagedir : PM bool :=
  pd ← on_machine (pagedir_create init_page_dir);
  modify (set_pagedir (default 0 pd));;
  match pd with
  | None => mret false
  | Some _ => process_activate;; mret true
  end.

Definition load (file_name : list Z) : PM (option (Z * Z)) :=
  ok ← new_pagedir;
  if ok : bool then
    file ← on_files (filesys_open file_name);
    match file with
    | None => printf (text "load: " ++ file_name ++ text ": open failed" ++ [10]);; mret None
    | Some file =>
        r ← load_file file_name file;
        on_files (file_close (Some file));;
        mret r
    end
  else mret None.

(** ** Starting a process *)

(** The registers that [intr_exit] restores, those that are not 0 *)
Record intr_frame := IntrFrame { data_segments : Z; if_cs : Z; if_eflags : Z; if_eip : Z; if_esp : Z }.

Definition SEL_UCSEG : Z := 0x1B.
Definition SEL_UDSEG : Z := 0x23.
Definition FLAG_MBS : Z := 0x2.
Definition FLAG_IF : Z := 0x200.

(** The string at [a], at most [n] characters *)
Fixpoint string_at (a : Z) (n : nat) : M mach (list Z) :=
  match n with
  | O => undef
  | S n => s ← get; c ← assume_some (mem s !! a); if bool_decide (c = 0) then mret [] else l ← string_at (a + 1) n; mret (c :: l)
  end.

(** [None] is [thread_exit], which calls [process_exit]. *)
Definition start_process (file_name_ : Z) : PM (option intr_frame) :=
  file_name ← on_machine (string_at file_name_ (Z.to_nat PAGE));
  r ← load file_name;
  on_machine (free_page file_name_);;
  match r with
  | Some (eip, esp) => mret (Some (IntrFrame SEL_UDSEG SEL_UCSEG (Z.lor FLAG_IF FLAG_MBS) eip esp))
  | None => process_exit;; mret None
  end.

Definition process_wait (child_tid : Z) : PM Z := mret (-1).

End process.
