(* ===== verification/KProcessMain.v ===== *)
(** * Pintos: programs are loaded as their headers say

    [load] builds just the address space that the program headers of an executable
    describe, or fails for one of a few reasons; a process that could not be started
    leaves no page behind. *)

From stdpp Require Import base tactics list gmap strings.
From Stdlib Require Import ZArith Lia.
From S2P Require Import Prelude CString Bitmap BitmapProps KMalloc KMallocProps KPalloc KPallocMain FileSys FileSysProps DirProps KPageDir KPageDirProps KPageDirInv KPageDirOps KPageDirMain KPageDirBoot KProcess.

Local Open Scope Z_scope.
#[local] Ltac Zify.zify_post_hook ::= Z.to_euclidean_division_equations.

(** ** Parts of the state *)

Lemma wp_zoom {S A} t (g : process → S) st (f : M S A) (Q : A → process → Prop) p :
  wp t f (λ a s, Q a (st s p)) (g p) → wp t (zoom g st f) Q p.
Proof. unfold wp, zoom. by destruct (f (g p)) as [[a s]| |]. Qed.

Lemma put_bytes_lookup bs : ∀ a (m : gmap Z Z) z,
  put_bytes a bs m !! z = if decide (a ≤ z < a + Z.of_nat (length bs)) then bs !! Z.to_nat (z - a) else m !! z.
Proof.
  induction bs as [|b bs IH]; intros a m z; cbn [put_bytes length]; [by rewrite decide_False by lia|]. rewrite IH.
  destruct (decide (z = a)) as [->|Hne].
  - rewrite decide_False, decide_True by lia. by rewrite lookup_insert_eq, Z.sub_diag.
  - rewrite lookup_insert_ne by done. do 2 case_decide; try lia; [|done].
    by replace (Z.to_nat (z - a)) with (S (Z.to_nat (z - (a + 1)))) by lia.
Qed.

Lemma prefix_full (buf c : list Z) n : buf `prefix_of` take n c → length buf = n → buf = take n c.
Proof.
  intros [k Hk] Hl. assert (k = []) as ->; [|by rewrite app_nil_r in Hk]. apply (f_equal length) in Hk. rewrite length_app, length_take in Hk.
  destruct k; [done|]. cbn [length] in Hk. lia.
Qed.

Lemma byte_range (bs : list Z) o : Forall (λ b, 0 ≤ b ≤ 255) bs → 0 ≤ byte bs o ≤ 255.
Proof. intros Hb. unfold byte. destruct (bs !! o) as [b|] eqn:E; [|cbn; lia]. rewrite Forall_lookup in Hb. apply (Hb o b E). Qed.

Lemma word_range (bs : list Z) o : Forall (λ b, 0 ≤ b ≤ 255) bs → 0 ≤ Elf32_Word bs o < 2 ^ 32.
Proof.
  intros Hb. unfold Elf32_Word. pose proof (byte_range bs o Hb). pose proof (byte_range bs (o + 1) Hb). pose proof (byte_range bs (o + 2) Hb).
  pose proof (byte_range bs (o + 3) Hb). lia.
Qed.

(** ** Reading the executable *)

(** [l] is an open file with the bytes [c], at [pos]; nothing denies writes to it. *)
Definition reading (s : fs) (l : floc) (c : list Z) (pos : Z) : Prop :=
  ∃ li i, files s !! l = Some (File li pos false) ∧ inodes s !! li = Some i ∧ removed i = false ∧ disk_ok (disk s) ∧ inode_ok (disk s) i ∧
    content (disk s) i = c ∧ 0 ≤ pos ≤ INT_MAX.

Lemma reading_length s l c pos : reading s l c pos → Z.of_nat (length c) ≤ INT_MAX.
Proof.
  intros (li & i & _ & _ & _ & Hd & Hi & <- & _). rewrite content_length by done. destruct (io_length _ _ Hi). lia.
Qed.

Lemma wp_file_length t s l c pos (Q : Z → fs → Prop) : reading s l c pos → Q (Z.of_nat (length c)) s → wp t (file_length l) Q s.
Proof.
  intros (li & i & Hf & Hl & _ & Hd & Hi & <- & _) HQ. unfold file_length. apply wp_bind. eapply wp_get_file; [done|]. apply wp_bind. eapply wp_get_inode; [done|].
  apply wp_ret. rewrite content_length in HQ by done. unfold inode_length. destruct (io_length _ _ Hi). by rewrite Z2Nat.id in HQ by lia.
Qed.

Lemma wp_file_seek t s l c pos pos' (Q : unit → fs → Prop) :
  reading s l c pos → 0 ≤ pos' ≤ INT_MAX → (∀ s', reading s' l c pos' → (grants s → grants s') → Q tt s') → wp t (file_seek l pos') Q s.
Proof.
  intros (li & i & Hf & Hl & Hr & Hd & Hi & Hc & _) Hp HQ. unfold file_seek. apply wp_bind, wp_check; [by rewrite bool_decide_true by lia|].
  apply wp_bind. eapply wp_get_file; [done|]. apply wp_modify, HQ; [|done]. exists li, i. cbn. by rewrite lookup_insert_eq.
Qed.

Lemma wp_file_read t s l c pos n (Q : list Z → fs → Prop) :
  reading s l c pos →
  (∀ buf s', buf `prefix_of` take (Z.to_nat n) (drop (Z.to_nat pos) c) → reading s' l c (pos + Z.of_nat (length buf)) → (grants s → grants s') →
     (grants s → buf = take (Z.to_nat n) (drop (Z.to_nat pos) c)) → Q buf s') →
  wp t (file_read l n) Q s.
Proof.
  intros Hrd HQ. pose proof (reading_length _ _ _ _ Hrd) as Hmax. destruct Hrd as (li & i & Hf & Hl & Hr & Hd & Hi & Hc & Hpos). unfold file_read. apply wp_bind. eapply wp_get_file; [done|]. cbn [f_inode f_pos deny_write].
  apply wp_bind. eapply wp_mono; [by apply (wp_read_at t li i n pos s)|]. intros buf s' (m & Hm & -> & Hpre & Hall). unfold range in Hpre, Hall. rewrite Hc in Hpre, Hall.
  apply wp_bind, wp_modify, wp_ret, HQ; [done| | |done].
  - exists li, i. cbn. rewrite lookup_insert_eq. split_and!; try done; [lia|]. apply prefix_length in Hpre. rewrite length_take, length_drop in Hpre. lia.
  - intros Hg. by apply grants_suffix.
Qed.

Lemma wp_file_close t s l c pos (Q : unit → fs → Prop) :
  reading s l c pos → (∀ s', disk s' = disk s → Q tt s') → wp t (file_close (Some l)) Q s.
Proof.
  intros (li & i & Hf & Hl & Hr & _) HQ. unfold file_close. apply wp_bind. unfold file_allow_write. apply wp_bind. eapply wp_get_file; [done|]. cbn [deny_write]. apply wp_ret.
  apply wp_bind. eapply wp_get_file; [done|]. cbn [f_inode]. apply wp_bind. unfold inode_close. apply wp_bind. eapply wp_get_inode; [done|].
  apply wp_bind, wp_modify. case_bool_decide.
  - rewrite Hr. apply wp_bind, wp_modify, wp_bind, wp_ret, wp_modify, wp_modify. by apply HQ.
  - apply wp_ret, wp_modify. by apply HQ.
Qed.

(** ** The address space under construction *)

(** Pages with their bytes, and whether they may be written *)
Abbreviation pages := (gmap Z (bool * list Z)).

(** The entries and bytes show the pages. *)
Definition shows (A : gmap Z entry) (bs : gmap Z Z) (img : pages) : Prop :=
  ∀ v, match A !! v, img !! v with
       | Some x, Some (wr, l) =>
           writable x = wr ∧ length l = 4096%nat ∧ ∀ i, 0 ≤ i < 4096 → bs !! (frame x * 4096 + i) = l !! Z.to_nat i
       | None, None => True
       | _, _ => False
       end.

Section loader.
Context (kern : gmap Z Z) (ram I : Z) (others : Z → Prop) (Hram : ram < 262144).

Local Abbreviation inv := (inv kern ram I others).

(** The world before, without the directory [P] of the process *)
Context (w0 : world) (P : Z) (HP : dirs w0 !! P = None).

Definition world_with (A : gmap Z entry) (O : gset Z) (bs : gmap Z Z) : world := World (<[P := A]> (dirs w0)) O (Some P) bs.

(** The frames of the old world are as they were. *)
Definition kept (bs : gmap Z Z) : Prop := ∀ z, held w0 (z / 4096) → bs !! z = bytes w0 !! z.

Definition space (s : mach) (img : pages) : Prop :=
  ∃ A bs, inv s (world_with A (owned w0) bs) ∧ shows A bs img ∧ kept bs.

(** With a frame [f] in hand, whose bytes are [l] *)
Definition space_frame (s : mach) (img : pages) (f : Z) (l : Z → option Z) : Prop :=
  ∃ A bs, inv s (world_with A (owned w0 ∪ {[f]}) bs) ∧ shows A bs img ∧ kept bs ∧ ¬ held (world_with A (owned w0) bs) f ∧
    ∀ i, 0 ≤ i < 4096 → bs !! (f * 4096 + i) = l i.

Lemma entry_at_with A P' v : entry_at (<[P := A]> (dirs w0)) P' v = if decide (P' = P) then A !! v else entry_at (dirs w0) P' v.
Proof.
  unfold entry_at. case_decide as E; [subst P'; by rewrite lookup_insert_eq|]. by rewrite lookup_insert_ne.
Qed.

Lemma held_with A O bs f : held (world_with A O bs) f ↔ f ∈ O ∨ mapped (dirs w0) f ∨ ∃ v x, A !! v = Some x ∧ frame x = f.
Proof.
  unfold held, mapped, world_with. cbn [owned dirs]. setoid_rewrite entry_at_with. split.
  - intros [?|(P' & v & x & Hx & Hf)]; [by left|]. right. case_decide; [right; eauto|left; eauto].
  - intros [?|[(P' & v & x & Hx & Hf)|(v & x & Hx & Hf)]]; [by left|right|right].
    + exists P', v, x. rewrite decide_False; [done|]. intros ->. unfold entry_at in Hx. by rewrite HP in Hx.
    + exists P, v, x. by rewrite decide_True.
Qed.

Lemma shows_agree A bs bs' img : shows A bs img → (∀ v x z, A !! v = Some x → z / 4096 = frame x → bs' !! z = bs !! z) → shows A bs' img.
Proof.
  intros Hs Ha v. specialize (Hs v). destruct (A !! v) as [x|] eqn:Hx; [|done]. destruct (img !! v) as [[wr l]|]; [|done]. destruct Hs as (H1 & H2 & H3).
  split_and!; [done|done|]. intros i Hi. rewrite <- H3 by done. apply (Ha v x); [done|]. lia.
Qed.

(** *** Frames *)

Lemma wp_take_frame t s img zero (Q : option Z → mach → Prop) :
  space s img → (no_room (user_pool (pm s)) 1 → Q None s) →
  (∀ f s' l, space_frame s' img f l → (zero = true → l = λ _, Some 0) → Q (Some (f * 4096)) s') →
  wp t (get_page (frame_flags zero)) Q s.
Proof.
  intros (A & bs & [TT R] & Hsh & Hk) HN HS. apply (wp_get_frame kern ram I others t zero s (world_with A (owned w0) bs) TT); [exact R|done|].
  intros f s' bs' Hfree Hsame Hz Hinv. cbn [dirs owned active world_with bytes] in *.
  apply (HS f s' (if zero then λ _, Some 0 else λ i, bs' !! (f * 4096 + i))); [|by intros ->]. exists A, bs'. split_and!.
  - exact Hinv.
  - apply (shows_agree A bs); [done|]. intros v x z Hx Hzx. apply Hsame. intros <-. apply Hfree, held_with. right; right. exists v, x. by split.
  - intros z Hzh. rewrite Hsame; [by apply Hk|]. intros <-. apply Hfree, held_with. destruct Hzh; [by left|by right; left].
  - intros Hh. apply Hfree. apply held_with in Hh. by apply held_with.
  - intros i Hi. destruct zero; [|done]. apply Hz; [done|lia].
Qed.

Lemma inv_bytes s w bs a : ∀ TT, rep kern ram I others s w TT → (∀ k, 0 ≤ k < Z.of_nat (length bs) → held w ((a + k) / 4096)) →
  rep kern ram I others (Mach (set_memory (put_bytes a bs) (pm s)) (cr3 s) (tlb s)) (World (dirs w) (owned w) (active w) (put_bytes a bs (bytes w))) TT.
Proof using Type.
  revert s w a. induction bs as [|b bs IH]; intros s w a TT R Hh; cbn [put_bytes].
  - destruct s as [[? ? ?] ? ?], w. exact R.
  - cbn [length] in Hh. pose proof (rep_user_store kern ram I others s w TT a b R) as R'.
    specialize (IH _ _ (a + 1) TT (R' ltac:(specialize (Hh 0 ltac:(lia)); by rewrite Z.add_0_r in Hh))).
    destruct s as [[? ? ?] ? ?], w. apply IH. intros k Hk. cbn in *. specialize (Hh (k + 1) ltac:(lia)). by replace (a + 1 + k) with (a + (k + 1)) by lia.
Qed.

Lemma wp_fill t s img f l o bs (Q : unit → mach → Prop) :
  space_frame s img f l → 0 ≤ o → o + Z.of_nat (length bs) ≤ 4096 →
  (∀ s', pm s' = set_memory (put_bytes (f * 4096 + o) bs) (pm s) →
     space_frame s' img f (λ i, if decide (o ≤ i < o + Z.of_nat (length bs)) then bs !! Z.to_nat (i - o) else l i) → Q tt s') →
  wp t (store_bytes (f * 4096 + o) bs) Q s.
Proof.
  intros (A & m & [TT R] & Hsh & Hk & Hf & Hl) Ho Hlen HQ. unfold store_bytes. apply wp_modify, HQ; [done|].
  assert (∀ z, z / 4096 ≠ f → put_bytes (f * 4096 + o) bs m !! z = m !! z) as Hother.
  { intros z Hz. rewrite put_bytes_lookup. case_decide; [|done]. lia. }
  exists A, (put_bytes (f * 4096 + o) bs m). split_and!.
  - exists TT. apply (inv_bytes s (world_with A (owned w0 ∪ {[f]}) m) bs (f * 4096 + o) TT R). intros k Hk'. left. cbn [world_with owned].
    replace ((f * 4096 + o + k) / 4096) with f by lia. apply elem_of_union_r, elem_of_singleton_2, eq_refl.
  - apply (shows_agree A m); [done|]. intros v x z Hx Hz. apply Hother. intros <-. apply Hf, held_with. right; right. exists v, x. by split.
  - intros z Hz. rewrite Hother; [by apply Hk|]. intros <-. apply Hf, held_with. destruct Hz; [by left|by right; left].
  - intros Hh. apply Hf. apply held_with in Hh. by apply held_with.
  - intros i Hi. rewrite put_bytes_lookup. do 2 case_decide; try lia; [|by apply Hl]. f_equal. lia.
Qed.

Lemma free_keeps_kernel t s w TT f : rep kern ram I others s w TT → f ∈ owned w →
  wp t (free_page (f * 4096)) (λ _ s', kernel_pool (pm s') = kernel_pool (pm s)) s.
Proof using Type.
  intros R Hf. pose proof (rp_pools _ _ _ _ _ _ _ R) as Hp. unfold free_page, pal. apply wp_bind, wp_get, wp_bind. unfold palloc_free_page.
  assert (in_pool (user_pool (pm s)) f ∧ is_used (user_pool (pm s)) f = true) as [Hin Hu] by (apply (po_f _ _ _ _ Hp); by left).
  destruct (free_multiple_spec true f 1 (pm s) (po_wf _ _ _ _ Hp) ltac:(lia) Hin) as (p' & _ & _ & E).
  { by replace (f + 1 - 1) with f by lia. }
  { intros i Hi. by replace i with f by lia. }
  rewrite E. cbn [mbind option_bind]. eapply wp_assume_some; [done|]. by apply wp_bind, wp_modify, wp_ret.
Qed.

Lemma owned_back O (f : Z) : f ∉ O → (O ∪ {[f]}) ∖ {[f]} =@{gset Z} O.
Proof using Type. clear. set_solver. Qed.

Lemma wp_drop_frame t s img f l (Q : unit → mach → Prop) :
  space_frame s img f l → (∀ s', space s' img → kernel_pool (pm s') = kernel_pool (pm s) → Q tt s') → wp t (free_page (f * 4096)) Q s.
Proof.
  intros (A & m & [TT R] & Hsh & Hk & Hf & Hl) HQ. assert (f ∈ owned w0 ∪ {[f]}) as Hin by (by apply elem_of_union_r, elem_of_singleton_2).
  eapply wp_mono; [apply wp_and; [|by apply (free_keeps_kernel t s _ TT f R Hin)]|].
  - apply (wp_free_frame kern ram I others t s _ TT f (λ _ s', space s' img) R Hin). cbn [world_with dirs owned active bytes].
    rewrite owned_back by (intros ?; apply Hf; by left). intros s' Hs'. by exists A, m.
  - intros [] s' [H1 H2]. by apply HQ.
Qed.

(** *** Installing a page *)

Lemma shows_none A m img v : shows A m img → A !! v = None ↔ img !! v = None.
Proof using Type. intros Hs. specialize (Hs v). by destruct (A !! v), (img !! v) as [[? ?]|]. Qed.

Lemma wp_install t p img f l page v wr (Q : bool → process → Prop) :
  pagedir p = P * 4096 → space_frame (machine p) img f l → 0 ≤ v < 786432 → length page = 4096%nat → (∀ i, 0 ≤ i < 4096 → l i = page !! Z.to_nat i) →
  (∀ s', space_frame s' img f l → is_Some (img !! v) ∨ no_room (kernel_pool (pm s')) 1 → Q false (set_machine s' p)) →
  (∀ s', space s' (<[v := (wr, page)]> img) → img !! v = None → Q true (set_machine s' p)) →
  wp t (install_page (I * 4096) ram (v * 4096) (f * 4096) wr) Q p.
Proof.
  intros Hpd (A & m & [TT R] & Hsh & Hk & Hf & Hl) Hv Hlen Hpage HN HS. assert (dirs (world_with A (owned w0 ∪ {[f]}) m) !! P = Some A) as HA by (cbn; by rewrite lookup_insert_eq).
  unfold install_page. apply wp_bind, wp_get, wp_bind. unfold on_machine. apply wp_zoom. rewrite Hpd.
  apply (wp_pagedir_get_page kern ram I others Hram R t P A (v * 4096)); [done|unfold PHYS_BASE; lia|]. rewrite Z.div_mul by lia.
  assert (set_machine (machine p) p = p) as Ep by (by destruct p). rewrite Ep.
  destruct (A !! v) as [x|] eqn:Hx; cbn [fmap option_fmap option_map].
  - apply wp_ret. rewrite <- Ep. apply HN; [exists A, m; split_and!; [by exists TT|done..]|]. left. destruct (img !! v) eqn:E; [by eexists|].
    apply (shows_none A m) in E; [congruence|done].
  - apply wp_zoom. apply (wp_pagedir_set_page kern ram I others Hram t (machine p) (world_with A (owned w0 ∪ {[f]}) m) TT P A v f wr); [exact R|done|done|done| | |].
    + by apply elem_of_union_r, elem_of_singleton_2.
    + intros Hno. apply HN; [exists A, m; split_and!; [by exists TT|done..]|by right].
    + intros s' Hs'. apply HS; [|by apply (shows_none A m)]. cbn [world_with dirs owned active bytes] in Hs'. rewrite owned_back in Hs' by (intros ?; apply Hf; by left).
      rewrite insert_insert_eq in Hs'. exists (<[v := Entry f wr false false]> A), m. split_and!; [done| |done].
      intros v'. destruct (decide (v' = v)) as [->|Hne]; [|rewrite !lookup_insert_ne by done; apply Hsh]. rewrite !lookup_insert_eq. cbn [writable frame].
      split_and!; [done|done|]. intros i Hi. rewrite Hl by done. by apply Hpage.
Qed.

(** ** Segments *)

Section file.
Context (l : floc) (c : list Z).

Record loading (p : process) (img : pages) (pos : Z) : Prop := {
  ld_pd : pagedir p = P * 4096;
  ld_space : space (machine p) img;
  ld_file : reading (fsys p) l c pos
}.

(** Memory is short. *)
Definition starved (p : process) : Prop := no_room (kernel_pool (pm (machine p))) 1 ∨ no_room (user_pool (pm (machine p))) 1.

(** Loading has stopped; what is there so far is [img]. *)
Definition stopped (p : process) : Prop := ∃ img pos, loading p img pos.

Definition page_bytes (pos r : Z) : list Z := take (Z.to_nat r) (drop (Z.to_nat pos) c) ++ replicate (Z.to_nat (4096 - r)) 0.

Lemma page_bytes_fill pos r buf (l0 : Z → option Z) i :
  buf = take (Z.to_nat r) (drop (Z.to_nat pos) c) → Z.of_nat (length buf) = r → 0 ≤ r ≤ 4096 → 0 ≤ i < 4096 →
  (if decide (r ≤ i < r + Z.of_nat (length (replicate (Z.to_nat (4096 - r)) 0))) then replicate (Z.to_nat (4096 - r)) 0 !! Z.to_nat (i - r)
   else if decide (0 ≤ i < 0 + Z.of_nat (length buf)) then buf !! Z.to_nat (i - 0) else l0 i) = page_bytes pos r !! Z.to_nat i.
Proof.
  intros -> Hl Hr Hi. unfold page_bytes. rewrite length_replicate. set (buf := take _ _) in *. case_decide.
  - rewrite lookup_app_r by lia. f_equal. lia.
  - rewrite decide_True by lia. rewrite lookup_app_l by lia. f_equal. lia.
Qed.

Lemma wp_load_page p img pos v r z wr (Q : Z * Z * Z + bool → process → Prop) :
  loading p img pos → 0 ≤ v < 786432 → 0 ≤ r → 0 ≤ z → 4096 ≤ r + z < 2 ^ 32 →
  (∀ p', stopped p' →
     is_Some (img !! v) ∨ (0 < r ∧ Z.of_nat (length c) < pos + Z.min r 4096) ∨ ¬ grants (fsys p) ∨ starved p' → Q (inr false) p') →
  (∀ p', loading p' (<[v := (wr, page_bytes pos (Z.min r 4096))]> img) (pos + Z.min r 4096) → img !! v = None → (grants (fsys p) → grants (fsys p')) →
     (0 < r → pos + Z.min r 4096 ≤ Z.of_nat (length c)) → Q (inl ((v + 1) * 4096, r - Z.min r 4096, z - (4096 - Z.min r 4096))) p') →
  wp Full (load_page (I * 4096) ram l wr (v * 4096, r, z)) Q p.
Proof.
  intros [Hpd Hsp Hrd] Hv Hr Hz Hrz HN HS. unfold load_page.
  assert (bool_decide (0 < r) || bool_decide (0 < z) = true) as -> by (destruct (decide (0 < r)); [by rewrite bool_decide_true|rewrite (bool_decide_true (0 < z)) by lia; apply orb_true_r]).
  change PAGE with 4096. assert ((if bool_decide (r < 4096) then r else 4096) = Z.min r 4096) as -> by (case_bool_decide; lia). set (pr := Z.min r 4096) in *.
  apply wp_bind. unfold on_machine, on_files. apply wp_zoom. change PAL_USER with (frame_flags false). apply (wp_take_frame Full (machine p) img false); [done| |].
  - intros Hno. apply wp_ret, HN; [by exists img, pos|]. right; right; right. by right.
  - intros f s1 l1 Hs1 _. apply wp_bind, wp_zoom. apply (wp_file_read Full _ l c pos); [done|]. intros buf fs1 Hpre Hrd1 Hg1 Hbuf.
    assert (Z.of_nat (length buf) ≤ pr) as Hlen by (apply prefix_length in Hpre; rewrite length_take in Hpre; lia).
    apply wp_bind, wp_zoom. rewrite <- (Z.add_0_r (f * 4096)) at 1. apply (wp_fill Full s1 img f l1 0 buf); [done|lia|lia|]. intros s2 _ Hs2. cbn [set_machine set_fsys machine].
    case_bool_decide as Hshort.
    + apply wp_bind, wp_zoom. apply (wp_drop_frame Full s2 img f _ _ Hs2). intros s3 Hs3 _. apply wp_ret, HN; [by exists img, (pos + Z.of_nat (length buf))|]. right.
      destruct (decide (pos + pr ≤ Z.of_nat (length c))) as [Hfit|]; [|left; lia]. right; left. intros Hg. apply Hshort. rewrite (Hbuf Hg), length_take, length_drop.
      destruct Hrd as (? & ? & _ & _ & _ & _ & _ & _ & ?). lia.
    + assert (buf = take (Z.to_nat pr) (drop (Z.to_nat pos) c)) as Ebuf.
      { apply prefix_full; [done|lia]. }
      assert (Z.of_nat (length buf) = pr) as Hlen' by lia. assert (0 < r → pos + pr ≤ Z.of_nat (length c)) as Hin.
      { intros Hr0. rewrite Ebuf, length_take, length_drop in Hlen'. destruct Hrd as (? & ? & _ & _ & _ & _ & _ & _ & ?). lia. }
      apply wp_bind, wp_zoom. apply (wp_fill Full s2 img f _ pr (replicate (Z.to_nat (4096 - pr)) 0) _ Hs2); [lia|rewrite length_replicate; lia|].
      intros s3 _ Hs3. apply wp_bind. set (p3 := set_machine s3 _). assert (machine p3 = s3) as E3 by done.
      eapply (wp_install Full p3 img f _ (page_bytes pos pr) v wr); [done|rewrite E3; exact Hs3|done| | | |].
      * unfold page_bytes. rewrite length_app, <- Ebuf, length_replicate. lia.
      * intros i Hi. cbn beta. apply (page_bytes_fill pos pr buf l1); [done|done|lia|done].
      * intros s4 Hs4 Hwhy. apply wp_bind, wp_zoom. apply (wp_drop_frame Full s4 img f _ _ Hs4). intros s5 Hs5 Hk5. apply wp_ret, HN; [by exists img, (pos + Z.of_nat (length buf))|].
        destruct Hwhy as [?|Hno]; [by left|]. right; right; right. left. cbn. by rewrite Hk5.
      * intros s4 Hs4 Hnone. apply wp_ret. unfold wrap_u32. rewrite !Z.mod_small by lia. replace (v * 4096 + 4096) with ((v + 1) * 4096) by lia.
        apply HS; [split; [done|done|by rewrite <- Hlen']|done|done|done].
Qed.

(** The first [n] pages of a segment whose first [R] bytes are those of the file from
    [F] on, and whose other bytes are 0 *)
Definition segment_page (F R k : Z) : list Z := page_bytes (F + Z.min R (4096 * k)) (Z.min (Z.max 0 (R - 4096 * k)) 4096).

Fixpoint add_pages (wr : bool) (F R v0 : Z) (n : nat) (img : pages) : pages :=
  match n with
  | O => img
  | S n => <[v0 + Z.of_nat n := (wr, segment_page F R (Z.of_nat n))]> (add_pages wr F R v0 n img)
  end.

Lemma add_pages_lookup wr F R v0 n img v :
  add_pages wr F R v0 n img !! v = if decide (v0 ≤ v < v0 + Z.of_nat n) then Some (wr, segment_page F R (v - v0)) else img !! v.
Proof.
  induction n as [|n IH]; cbn [add_pages]; [by rewrite decide_False by lia|]. destruct (decide (v = v0 + Z.of_nat n)) as [->|Hne].
  - rewrite lookup_insert_eq, decide_True by lia. do 3 f_equal. lia.
  - rewrite lookup_insert_ne, IH by done. repeat case_decide; (done || lia).
Qed.

(** Why a segment is not loaded *)
Definition blocked (img : pages) (F R v0 n : Z) (p p' : process) : Prop :=
  (∃ v, v0 ≤ v < v0 + n ∧ is_Some (img !! v)) ∨ (0 < R ∧ Z.of_nat (length c) < F + R) ∨ ¬ grants (fsys p) ∨ starved p'.

Lemma wp_load_pages p img F R Zb v0 (n : nat) wr (Q : bool → process → Prop) :
  loading p img F → 0 ≤ v0 → v0 + Z.of_nat n ≤ 786432 → 0 ≤ R → 0 ≤ Zb → R + Zb = 4096 * Z.of_nat n →
  (∀ p', stopped p' → blocked img F R v0 (Z.of_nat n) p p' → Q false p') →
  (∀ p', loading p' (add_pages wr F R v0 n img) (F + R) → (∀ v, v0 ≤ v < v0 + Z.of_nat n → img !! v = None) →
     (grants (fsys p) → grants (fsys p')) → (0 < R → F + R ≤ Z.of_nat (length c)) → Q true p') →
  wp Full (load_pages (I * 4096) ram l wr (v0 * 4096) R Zb) Q p.
Proof.
  intros Hp Hv0 Hvn HR HZ HRZ HN HS. unfold load_pages. change PAGE with 4096.
  eapply (wp_loop_total (λ '(u, r, z) p', ∃ k : nat, u = (v0 + Z.of_nat k) * 4096 ∧ r = Z.max 0 (R - 4096 * Z.of_nat k) ∧ 0 ≤ z ∧ r + z = 4096 * (Z.of_nat n - Z.of_nat k) ∧
      loading p' (add_pages wr F R v0 k img) (F + Z.min R (4096 * Z.of_nat k)) ∧ (∀ v, v0 ≤ v < v0 + Z.of_nat k → img !! v = None) ∧
      (grants (fsys p) → grants (fsys p')) ∧ (0 < Z.min R (4096 * Z.of_nat k) → F + Z.min R (4096 * Z.of_nat k) ≤ Z.of_nat (length c)))
    _ (λ '(u, r, z) _, Z.to_nat ((r + z) / 4096))); [| |lia].
  - intros [[u r] z] p' (k & -> & Hr & Hz & Hrz & Hld & Hfree & Hg & Hin). destruct (decide (Z.of_nat k < Z.of_nat n)) as [Hk|Hk].
    + apply (wp_load_page p' _ _ (v0 + Z.of_nat k) r z wr _ Hld); try lia.
      * intros p'' Hst Hwhy. apply HN; [done|]. destruct Hwhy as [Hc|[[Hr0 Hc]|[Hc|Hc]]].
        -- left. exists (v0 + Z.of_nat k). split; [lia|]. by rewrite add_pages_lookup, decide_False in Hc by lia.
        -- right; left. split; lia.
        -- right; right; left. tauto.
        -- by right; right; right.
      * intros p'' Hld' Hnone Hg' Hin'. split; [|lia]. exists (S k). split_and!; try lia.
        -- cbn [add_pages]. unfold segment_page. rewrite <- Hr.
           replace (F + R `min` (4096 * Z.of_nat (S k))) with (F + R `min` (4096 * Z.of_nat k) + r `min` 4096) by lia. done.
        -- intros v Hv. destruct (decide (v = v0 + Z.of_nat k)) as [->|]; [by rewrite add_pages_lookup, decide_False in Hnone by lia|apply Hfree; lia].
        -- tauto.
    + unfold load_page. rewrite !bool_decide_false by lia. cbn [orb]. apply wp_ret. assert (k = n) as -> by lia.
      replace (R `min` (4096 * Z.of_nat n)) with R in * by lia. by apply HS.
  - exists 0%nat. split_and!; try lia; [|done]. cbn [add_pages]. by replace (F + R `min` (4096 * Z.of_nat 0)) with F by lia.
Qed.

(** *** One program header *)

(** Its numbers are 32-bit words. *)
Definition words (ph : Elf32_Phdr) : Prop :=
  0 ≤ p_offset ph < 2 ^ 32 ∧ 0 ≤ p_vaddr ph < 2 ^ 32 ∧ 0 ≤ p_filesz ph < 2 ^ 32 ∧ 0 ≤ p_memsz ph < 2 ^ 32.

(** The segment lies in user space, above page 0, and starts within the file. *)
Definition valid (ph : Elf32_Phdr) : Prop :=
  p_offset ph mod 4096 = p_vaddr ph mod 4096 ∧ p_offset ph ≤ Z.of_nat (length c) ∧ p_filesz ph ≤ p_memsz ph ∧ 0 < p_memsz ph ∧
  4096 ≤ p_vaddr ph ∧ p_vaddr ph + p_memsz ph < PHYS_BASE.

#[global] Instance valid_dec ph : Decision (valid ph).
Proof using Type. unfold valid. apply _. Defined.

(** The pages of the segment *)
Definition first_page (ph : Elf32_Phdr) : Z := p_vaddr ph / 4096.
Definition last_page (ph : Elf32_Phdr) : Z := (p_vaddr ph + p_memsz ph - 1) / 4096.

Definition wants_write (ph : Elf32_Phdr) : bool := bool_decide (Z.land (p_flags ph) PF_W ≠ 0).

Lemma land_mask x : 0 ≤ x → Z.land x PGMASK = x mod 4096.
Proof. intros _. change PGMASK with (Z.ones 12). by rewrite Z.land_ones by lia. Qed.

Lemma land_not_mask x : 0 ≤ x → Z.land x (Z.lnot PGMASK) = x / 4096 * 4096.
Proof.
  intros Hx. rewrite <- Z.ldiff_land. change PGMASK with (Z.ones 12). rewrite Z.ldiff_ones_r by lia. by rewrite Z.shiftr_div_pow2, Z.shiftl_mul_pow2 by lia.
Qed.

Lemma wp_validate_segment t p img pos ph (Q : bool → process → Prop) :
  loading p img pos → words ph → Q (bool_decide (valid ph)) p → wp t (validate_segment ph l) Q p.
Proof.
  intros [_ _ Hrd] (Ho & Hv & Hf & Hm) HQ. unfold validate_segment. rewrite !land_mask by lia. pose proof (reading_length _ _ _ _ Hrd) as Hlen. unfold INT_MAX in Hlen.
  destruct (decide (p_offset ph mod 4096 = p_vaddr ph mod 4096)) as [E1|E1]; [rewrite bool_decide_false by tauto|rewrite bool_decide_true by done; apply wp_ret; rewrite bool_decide_false in HQ; [done|unfold valid; tauto]].
  apply wp_bind, wp_zoom. apply (wp_file_length t _ l c pos); [done|]. assert (set_fsys (fsys p) p = p) as -> by (by destruct p).
  unfold wrap_u32. rewrite (Z.mod_small (Z.of_nat (length c))) by lia. unfold is_user_vaddr, PHYS_BASE. change PAGE with 4096.
  unfold valid, PHYS_BASE in HQ.
  destruct (decide (p_vaddr ph + p_memsz ph < 2 ^ 32)) as [Hs|Hs];
    [rewrite !Z.mod_small by lia|replace ((p_vaddr ph + p_memsz ph) mod 2 ^ 32) with (p_vaddr ph + p_memsz ph - 2 ^ 32) by lia];
  repeat match goal with
  | |- wp _ (if bool_decide ?C then _ else _) _ _ => destruct (decide C); [rewrite (bool_decide_true C) by done|rewrite (bool_decide_false C) by done]
  | |- wp _ (if negb (bool_decide ?C) then _ else _) _ _ => destruct (decide C); [rewrite (bool_decide_true C) by done|rewrite (bool_decide_false C) by done]; cbn [negb]
  end; apply wp_ret; first [rewrite bool_decide_false in HQ by lia; exact HQ|rewrite bool_decide_true in HQ by lia; exact HQ].
Qed.

(** What the executable says of a byte of a page of the segment *)
Definition elf_byte (ph : Elf32_Phdr) (a : Z) : option Z :=
  if decide (0 < p_filesz ph ∧ a < p_vaddr ph + p_filesz ph) then c !! Z.to_nat (p_offset ph + (a - p_vaddr ph)) else Some 0.

Definition placed (img : pages) (ph : Elf32_Phdr) : Prop :=
  ∀ a, first_page ph ≤ a / 4096 ≤ last_page ph →
    ∃ bs, img !! (a / 4096) = Some (wants_write ph, bs) ∧ bs !! Z.to_nat (a mod 4096) = elf_byte ph a.

(** The file has the bytes of the segment. *)
Definition present (ph : Elf32_Phdr) : Prop := p_offset ph + p_filesz ph ≤ Z.of_nat (length c).

Lemma segment_page_byte F R k i :
  0 ≤ F → 0 ≤ R → 0 ≤ k → 0 ≤ i < 4096 → (0 < R → F + R ≤ Z.of_nat (length c)) →
  segment_page F R k !! Z.to_nat i = if decide (4096 * k + i < R) then c !! Z.to_nat (F + (4096 * k + i)) else Some 0.
Proof.
  intros HF HR Hk Hi Hin. unfold segment_page, page_bytes. set (r := Z.min _ 4096).
  assert (length (take (Z.to_nat r) (drop (Z.to_nat (F + R `min` (4096 * k))) c)) = Z.to_nat r) as Hl by (rewrite length_take, length_drop; lia).
  case_decide as Hlt.
  - rewrite lookup_app_l by lia. rewrite lookup_take_lt, lookup_drop by lia. f_equal. lia.
  - rewrite lookup_app_r by lia. apply lookup_replicate_2. lia.
Qed.

Section phdr.
Context (ph : Elf32_Phdr) (Hw : words ph) (Hok : valid ph).

(** What [load_phdr] computes *)
Let F := p_offset ph / 4096 * 4096.
Let R := if bool_decide (0 < p_filesz ph) then p_vaddr ph mod 4096 + p_filesz ph else 0.
Let n := last_page ph - first_page ph + 1.

Lemma pages_of_segment : 0 ≤ first_page ph ∧ 0 < n ∧ first_page ph + n ≤ 786432 ∧ ROUND_UP (wrap_u32 (p_vaddr ph mod 4096 + p_memsz ph)) 4096 = 4096 * n ∧ 0 ≤ R ≤ 4096 * n.
Proof.
  destruct Hw as (Ho & Hv & Hf & Hm), Hok as (H1 & H2 & H3 & H4 & H5 & H6). unfold n, R, last_page, first_page, PHYS_BASE in *.
  unfold ROUND_UP, DIV_ROUND_UP, wrap_u32. rewrite (Z.mod_small (p_vaddr ph mod 4096 + p_memsz ph)) by lia.
  rewrite (Z.mod_small (p_vaddr ph mod 4096 + p_memsz ph + 4096 - 1)) by lia. rewrite Z.mod_small by lia. case_bool_decide; lia.
Qed.

Lemma placed_pages img : present ph → placed (add_pages (wants_write ph) F R (first_page ph) (Z.to_nat n) img) ph.
Proof.
  intros Hin a Ha. destruct pages_of_segment as (H0 & Hn & Hn' & _ & HR). destruct Hw as (Ho & Hv & Hf & Hm), Hok as (H1 & H2 & H3 & H4 & H5 & H6).
  exists (segment_page F R (a / 4096 - first_page ph)). unfold present in Hin. unfold n, first_page, last_page in *. split.
  - rewrite add_pages_lookup, decide_True by lia. done.
  - rewrite segment_page_byte; [| | | | |]; try (unfold F, R in *; try case_bool_decide; lia).
    unfold elf_byte. unfold F, R. case_bool_decide as Hz.
    + do 2 case_decide; try lia; [|done]. f_equal. lia.
    + rewrite !decide_False by lia. done.
Qed.

Lemma blocked_absent img p p' : blocked img F R (first_page ph) n p p' →
  (∃ v, first_page ph ≤ v ≤ last_page ph ∧ is_Some (img !! v)) ∨ ¬ present ph ∨ ¬ grants (fsys p) ∨ starved p'.
Proof.
  intros [(v & Hv & Hs)|[[HR Hc]|?]]; [left; exists v; split; [unfold n in Hv; lia|done]| |by right; right]. right; left.
  destruct Hw as (Ho & Hv & Hf & Hm), Hok as (H1 & H2 & _). unfold present, F, R in *. case_bool_decide; lia.
Qed.

Lemma wp_load_phdr p img pos (Q : bool → process → Prop) :
  loading p img pos →
  (∀ p', stopped p' → (∃ v, first_page ph ≤ v ≤ last_page ph ∧ is_Some (img !! v)) ∨ ¬ present ph ∨ ¬ grants (fsys p) ∨ starved p' → Q false p') →
  (∀ p' img' pos', loading p' img' pos' → present ph → placed img' ph →
     (∀ v, first_page ph ≤ v ≤ last_page ph → img !! v = None) → (∀ v, ¬ first_page ph ≤ v ≤ last_page ph → img' !! v = img !! v) →
     (grants (fsys p) → grants (fsys p')) → Q true p') →
  wp Full (load_phdr (I * 4096) ram l ph) Q p.
Proof.
  intros Hp HN HS. destruct pages_of_segment as (H0 & Hn & Hn' & Hround & HR). pose proof Hw as (Ho & Hv & Hf & Hm). pose proof Hok as (H1 & H2 & H3 & H4 & H5 & H6).
  pose proof (reading_length _ _ _ _ (ld_file _ _ _ Hp)) as Hlen. unfold INT_MAX, PHYS_BASE in *.
  unfold load_phdr. apply wp_bind. apply (wp_validate_segment Full p img pos ph _ Hp Hw). rewrite bool_decide_true by done. rewrite !land_mask, !land_not_mask by lia.
  change PAGE with 4096. fold F. rewrite Hround. unfold wrap_u32 at 1 2 3. rewrite (Z.mod_small (p_vaddr ph mod 4096 + p_filesz ph)) by lia. fold R.
  assert ((if bool_decide (0 < p_filesz ph) then (4096 * n - R) mod 4294967296 else 4096 * n) = 4096 * n - R) as ->.
  { rewrite Z.mod_small by lia. unfold R. case_bool_decide; lia. }
  assert (signed F = F) as -> by (unfold signed; rewrite bool_decide_true; [done|unfold F; lia]).
  unfold load_segment. change PAGE with 4096. apply wp_bind, wp_check; [apply bool_decide_true; unfold wrap_u32; replace (R + (4096 * n - R)) with (4096 * n) by lia; lia|].
  apply wp_bind, wp_check; [by rewrite pg_ofs_page|]. apply wp_bind, wp_check; [apply bool_decide_true; rewrite Z.rem_mod_nonneg by (unfold F; lia); unfold F; lia|].
  apply wp_bind, wp_zoom. apply (wp_file_seek Full _ l c pos F); [apply Hp|unfold F, INT_MAX; lia|]. intros fs1 Hrd1 Hg1.
  apply (wp_load_pages _ img F R (4096 * n - R) (first_page ph) (Z.to_nat n) (wants_write ph)); try lia.
  - split; [apply Hp|apply Hp|exact Hrd1].
  - rewrite Z2Nat.id by lia. intros p' Hst Hb. apply HN; [done|]. apply blocked_absent in Hb. destruct Hb as [?|[?|[Hg|?]]]; [by left|by right; left| |by right; right; right].
    right; right; left. tauto.
  - rewrite Z2Nat.id by lia. intros p' Hld Hnone Hg Hin.
    assert (present ph) as Hpr by (unfold present; unfold R, F in Hin; case_bool_decide; [specialize (Hin ltac:(lia)); lia|lia]).
    eapply HS; [exact Hld|done|by apply placed_pages|intros v Hv'; apply Hnone; unfold n; lia| |tauto].
    intros v Hv'. rewrite add_pages_lookup, decide_False; [done|]. unfold n. lia.
Qed.

End phdr.

(** *** The program headers *)

Section headers.
Context (Hc : Forall (λ b, 0 ≤ b ≤ 255) c) (phoff : Z) (Hoff : 0 ≤ phoff < 2 ^ 32).

Definition header (k : nat) : Elf32_Phdr := decode_phdr (take 32 (drop (Z.to_nat (phoff + 32 * Z.of_nat k)) c)).

Definition loads (k : nat) : Prop := p_type (header k) = PT_LOAD.

Definition apart (i j : nat) : Prop := last_page (header i) < first_page (header j) ∨ last_page (header j) < first_page (header i).

(** The first [n] headers can be loaded together. *)
Definition fine (n : nat) : Prop :=
  (n = 0%nat ∨ phoff + 32 * Z.of_nat n ≤ Z.of_nat (length c)) ∧
  ∀ k, (k < n)%nat → p_type (header k) ≠ PT_DYNAMIC ∧ p_type (header k) ≠ PT_INTERP ∧ p_type (header k) ≠ PT_SHLIB ∧
    (loads k → valid (header k) ∧ present (header k) ∧ ∀ j, (j < k)%nat → loads j → apart j k).

(** The pages are those of the first [n] headers. *)
Definition imaged (n : nat) (img : pages) : Prop :=
  (∀ k, (k < n)%nat → loads k → placed img (header k)) ∧
  ∀ v, is_Some (img !! v) → ∃ k, (k < n)%nat ∧ loads k ∧ first_page (header k) ≤ v ≤ last_page (header k).

Lemma header_words k : words (header k).
Proof. unfold words, header, decode_phdr. cbn. split_and!; apply word_range, Forall_take, Forall_drop, Hc. Qed.

Lemma fine_S n : fine (S n) → fine n.
Proof. intros [H1 H2]. split; [right; destruct H1; lia|]. intros k Hk. apply H2. lia. Qed.

Lemma fine_le n m : (n ≤ m)%nat → fine m → fine n.
Proof. induction 1; [done|]. intros ?%fine_S. auto. Qed.

(** A header that is ignored *)
Lemma imaged_skip n img : ¬ loads n → imaged n img → imaged (S n) img.
Proof.
  intros Hn [H1 H2]. split.
  - intros k Hk Hl. apply H1; [|done]. destruct (decide (k = n)) as [->|]; [done|lia].
  - intros v (k & Hk & ?)%H2. exists k. split; [lia|done].
Qed.

(** A header that is loaded *)
Lemma imaged_load n img img' :
  imaged n img → loads n → placed img' (header n) → (∀ v, first_page (header n) ≤ v ≤ last_page (header n) → img !! v = None) →
  (∀ v, ¬ first_page (header n) ≤ v ≤ last_page (header n) → img' !! v = img !! v) → imaged (S n) img'.
Proof.
  intros [H1 H2] Hn Hp Hfree Hsame. split.
  - intros k Hk Hl. destruct (decide (k = n)) as [->|Hne]; [done|]. intros a Ha. destruct (H1 k ltac:(lia) Hl a Ha) as (bs & Hbs & Hb). exists bs. split; [|done].
    rewrite Hsame; [done|]. intros Hr. by rewrite Hfree in Hbs.
  - intros v Hv. destruct (decide (first_page (header n) ≤ v ≤ last_page (header n))) as [|Ho]; [exists n; split_and!; (done || lia)|].
    rewrite Hsame in Hv by done. destruct (H2 v Hv) as (k & ? & ?). exists k. split; [lia|done].
Qed.

Lemma imaged_apart n img : imaged n img → (∀ v, first_page (header n) ≤ v ≤ last_page (header n) → img !! v = None) →
  (∀ k, (k < n)%nat → loads k → valid (header k)) → valid (header n) → ∀ j, (j < n)%nat → loads j → apart j n.
Proof.
  intros [H1 _] Hfree Hval Hv j Hj Hl. unfold apart. destruct (decide (last_page (header j) < first_page (header n))) as [|Ha]; [by left|]. right.
  destruct (decide (last_page (header n) < first_page (header j))) as [|Hb]; [done|]. exfalso.
  assert (∀ k, valid (header k) → first_page (header k) ≤ last_page (header k)) as Hle.
  { intros k (_ & _ & _ & ? & _). unfold first_page, last_page. lia. }
  pose proof (Hle n Hv). pose proof (Hle j (Hval j Hj Hl)). set (v := Z.max (first_page (header j)) (first_page (header n))).
  destruct (H1 j Hj Hl (v * 4096)) as (bs & Hbs & _); rewrite Z.div_mul in * by lia; [lia|]. rewrite Hfree in Hbs by lia. done.
Qed.

Lemma signed_small x : 0 ≤ x ≤ INT_MAX → signed x = x.
Proof. unfold INT_MAX. intros Hx. unfold signed. by rewrite bool_decide_true by lia. Qed.

(** Reading the next header *)
Lemma wp_next_header p img pos k (Q : option (list Z) → process → Prop) :
  loading p img pos → phoff + 32 * Z.of_nat k < 2 ^ 32 →
  let ofs := signed (phoff + 32 * Z.of_nat k) in
  (∀ p', stopped p' → Z.of_nat (length c) < phoff + 32 * Z.of_nat (S k) ∨ ¬ grants (fsys p) → Q None p') →
  (∀ p', loading p' img (phoff + 32 * Z.of_nat (S k)) → phoff + 32 * Z.of_nat (S k) ≤ Z.of_nat (length c) → (grants (fsys p) → grants (fsys p')) →
     signed (wrap_u32 (ofs + PHDR_SIZE)) = signed (phoff + 32 * Z.of_nat (S k)) →
     Q (Some (take 32 (drop (Z.to_nat (phoff + 32 * Z.of_nat k)) c))) p') →
  wp Full (read_phdr l ofs) Q p.
Proof.
  intros Hld Hlt ofs HN HS. unfold read_phdr. pose proof (reading_length _ _ _ _ (ld_file _ _ _ Hld)) as Hlen. unfold INT_MAX in Hlen.
  apply wp_bind, wp_zoom. apply (wp_file_length Full _ l c pos); [apply Hld|]. assert (set_fsys (fsys p) p = p) as -> by (by destruct p).
  assert (ofs < 0 ∧ 2 ^ 31 ≤ phoff + 32 * Z.of_nat k ∨ ofs = phoff + 32 * Z.of_nat k ∧ phoff + 32 * Z.of_nat k < 2 ^ 31) as Hofs.
  { unfold ofs, signed. case_bool_decide; lia. }
  destruct (decide (ofs < 0 ∨ Z.of_nat (length c) < ofs)) as [Hbad|Hgood].
  - assert (bool_decide (ofs < 0) || bool_decide (Z.of_nat (length c) < ofs) = true) as -> by (apply orb_true_iff; destruct Hbad; [left|right]; by apply bool_decide_true).
    apply wp_ret, HN; [by exists img, pos|]. left. lia.
  - rewrite !bool_decide_false by lia. cbn [orb]. apply wp_bind, wp_zoom. apply (wp_file_seek Full _ l c pos ofs); [apply Hld|unfold INT_MAX; lia|]. intros fs1 Hrd1 Hg1.
    apply wp_bind, wp_zoom. apply (wp_file_read Full _ l c ofs); [done|]. intros buf fs2 Hpre Hrd2 Hg2 Hbuf. unfold PHDR_SIZE in *. destruct Hofs as [|[Eofs _]]; [lia|].
    rewrite Eofs in Hpre, Hbuf. case_bool_decide as Hshort; apply wp_ret.
    + apply HN; [exists img, (ofs + Z.of_nat (length buf)); split; [apply Hld|apply Hld|done]|].
      destruct (decide (Z.of_nat (length c) < phoff + 32 * Z.of_nat (S k))) as [|Hfit]; [by left|]. right. intros Hg. apply Hshort.
      rewrite (Hbuf (Hg1 Hg)), length_take, length_drop. lia.
    + apply prefix_full in Hpre; [|lia]. assert (phoff + 32 * Z.of_nat (S k) ≤ Z.of_nat (length c)) as Hfit.
      { apply (f_equal length) in Hpre. rewrite length_take, length_drop in Hpre. lia. }
      rewrite Hpre. change (Z.to_nat 32) with 32%nat. apply HS; [|done|by intros Hg; apply Hg2, Hg1|].
      * split; [apply Hld|apply Hld|]. cbn [fsys set_fsys]. by replace (phoff + 32 * Z.of_nat (S k)) with (ofs + Z.of_nat (length buf)) by lia.
      * unfold wrap_u32. rewrite Z.mod_small by lia. f_equal. lia.
Qed.

Lemma wp_load_phdrs p0 N (Q : bool → process → Prop) :
  (∀ p', stopped p' → ¬ fine N ∨ ¬ grants (fsys p0) ∨ starved p' → Q false p') →
  (∀ p' img pos, loading p' img pos → fine N → imaged N img → (grants (fsys p0) → grants (fsys p')) → Q true p') →
  ∀ n k p img pos, (k + n)%nat = N → loading p img pos → fine k → imaged k img → (grants (fsys p0) → grants (fsys p)) →
  wp Full (load_phdrs (I * 4096) ram l (signed (phoff + 32 * Z.of_nat k)) n) Q p.
Proof.
  intros HN HS. induction n as [|n IH]; intros k p img pos Hkn Hld Hfine Himg Hg; cbn [load_phdrs].
  { apply wp_ret. replace k with N in * by lia. by eapply HS. }
  pose proof (reading_length _ _ _ _ (ld_file _ _ _ Hld)) as Hlen. unfold INT_MAX in Hlen.
  apply wp_bind. apply (wp_next_header p img pos k); [done|destruct Hfine as [[->|?] _]; lia| |].
  { intros p' Hst Hwhy. apply wp_ret, HN; [done|]. destruct Hwhy as [Hs|Hs]; [left|right; left; tauto]. intros [[?|?] _]; lia. }
  intros p1 Hld1 Hfit Hg1 Hofs. fold (header k). rewrite Hofs. cbn zeta.
  assert (∀ q, stopped q → ¬ fine (S k) → Q false q) as Hnot.
  { intros q Hst Hnf. apply HN; [done|]. left. intros Hf. apply Hnf, (fine_le _ N); [lia|done]. }
  destruct (decide (p_type (header k) = PT_DYNAMIC ∨ p_type (header k) = PT_INTERP ∨ p_type (header k) = PT_SHLIB)) as [Hbad|Hgood].
  { assert (bool_decide (p_type (header k) = PT_DYNAMIC) || bool_decide (p_type (header k) = PT_INTERP) || bool_decide (p_type (header k) = PT_SHLIB) = true) as ->
      by (rewrite !orb_true_iff, !bool_decide_eq_true; tauto).
    apply wp_ret, Hnot; [by exists img, (phoff + 32 * Z.of_nat (S k))|]. intros [_ Hf]. destruct (Hf k ltac:(lia)) as (? & ? & ? & _). tauto. }
  rewrite !(bool_decide_false (p_type (header k) = _)) by tauto. cbn [orb].
  destruct (decide (loads k)) as [Hl|Hl]; unfold loads in Hl; [rewrite bool_decide_true by done|rewrite bool_decide_false by done].
  - apply wp_bind. destruct (decide (valid (header k))) as [Hv|Hv].
    + apply (wp_load_phdr (header k) (header_words k) Hv p1 img _ _ Hld1).
      * intros p2 Hst Hwhy. apply wp_ret. destruct Hwhy as [(v & Hv' & Hs)|[Hpr|[Hng|Hst']]].
        -- apply Hnot; [done|]. intros [_ Hf]. destruct (Hf k ltac:(lia)) as (_ & _ & _ & Hk). destruct (Hk Hl) as (_ & _ & Hap).
           destruct (proj2 Himg v Hs) as (j & Hj & Hlj & Hr). destruct (Hap j Hj Hlj); lia.
        -- apply Hnot; [done|]. intros [_ Hf]. destruct (Hf k ltac:(lia)) as (_ & _ & _ & Hk). destruct (Hk Hl) as (_ & ? & _). done.
        -- apply HN; [done|]. right; left. tauto.
        -- apply HN; [done|]. by right; right.
      * intros p2 img2 pos2 Hld2 Hpr Hpl Hfree Hsame Hg2. apply (IH (S k) p2 img2 pos2); [lia|done| |by eapply imaged_load|tauto].
        split; [by right|]. intros j Hj. destruct (decide (j = k)) as [->|Hne]; [|apply (proj2 Hfine); lia]. split_and!; try tauto. intros _. split_and!; [done|done|].
        apply (imaged_apart k img); try done. intros i Hi Hli. by apply (proj2 Hfine i Hi).
    + unfold load_phdr. apply wp_bind. apply (wp_validate_segment Full p1 img _ (header k) _ Hld1 (header_words k)). rewrite bool_decide_false by done.
      apply wp_ret, wp_ret, Hnot; [by exists img, (phoff + 32 * Z.of_nat (S k))|]. intros [_ Hf]. destruct (Hf k ltac:(lia)) as (_ & _ & _ & Hk). tauto.
  - apply (IH (S k) p1 img (phoff + 32 * Z.of_nat (S k))); [lia|done| |by apply imaged_skip|tauto].
    split; [by right|]. intros j Hj. destruct (decide (j = k)) as [->|Hne]; [|apply (proj2 Hfine); lia]. split_and!; tauto.
Qed.

End headers.

(** ** The whole file *)

Definition ehdr : Elf32_Ehdr := decode_ehdr (take 52 c).
Definition phnum : nat := Z.to_nat (e_phnum ehdr).

(** The last page of user space *)
Definition STACK_PAGE : Z := 786431.

(** The file is an executable that can be loaded. *)
Record loadable : Prop := {
  lo_size : 52 ≤ Z.of_nat (length c);
  lo_ehdr : good_ehdr ehdr = true;
  lo_fine : fine (e_phoff ehdr) phnum;
  lo_stack k : (k < phnum)%nat → loads (e_phoff ehdr) k → last_page (header (e_phoff ehdr) k) < STACK_PAGE
}.

(** The pages of a loaded program: those that its program headers describe, a stack and
    no other *)
Record program (img : pages) : Prop := {
  pg_segments k : (k < phnum)%nat → loads (e_phoff ehdr) k → placed img (header (e_phoff ehdr) k);
  pg_stack : img !! STACK_PAGE = Some (true, replicate 4096 0);
  pg_only v : is_Some (img !! v) → v = STACK_PAGE ∨
    ∃ k, (k < phnum)%nat ∧ loads (e_phoff ehdr) k ∧ first_page (header (e_phoff ehdr) k) ≤ v ≤ last_page (header (e_phoff ehdr) k)
}.

Lemma wp_setup_stack p img pos (Q : option Z → process → Prop) :
  loading p img pos → (∀ p', stopped p' → is_Some (img !! STACK_PAGE) ∨ starved p' → Q None p') →
  (∀ p', loading p' (<[STACK_PAGE := (true, replicate 4096 0)]> img) pos → img !! STACK_PAGE = None → Q (Some PHYS_BASE) p') →
  wp Full (setup_stack (I * 4096) ram) Q p.
Proof.
  intros [Hpd Hsp Hrd] HN HS. unfold setup_stack. apply wp_bind, wp_zoom. change (Z.lor PAL_USER PAL_ZERO) with (frame_flags true).
  apply (wp_take_frame Full (machine p) img true); [done| |].
  - intros Hno. apply wp_ret, HN; [by exists img, pos|]. right. by right.
  - intros f s1 l1 Hs1 Hz. specialize (Hz eq_refl). subst l1. apply wp_bind. change (PHYS_BASE - PAGE) with (STACK_PAGE * 4096).
    set (p1 := set_machine s1 p). assert (machine p1 = s1) as E1 by done.
    eapply (wp_install Full p1 img f _ (replicate 4096 0) STACK_PAGE true); [done|rewrite E1; exact Hs1|unfold STACK_PAGE; lia|apply length_replicate| | |].
    + intros i Hi. symmetry. apply lookup_replicate_2. lia.
    + intros s2 Hs2 Hwhy. apply wp_bind, wp_zoom. apply (wp_drop_frame Full s2 img f _ _ Hs2). intros s3 Hs3 Hk. apply wp_ret, HN; [by exists img, pos|].
      destruct Hwhy as [?|Hno]; [by left|]. right. left. cbn. by rewrite Hk.
    + intros s2 Hs2 Hn. apply wp_ret. by apply HS.
Qed.

Lemma wp_load_file p name (Q : option (Z * Z) → process → Prop) :
  Forall (λ b, 0 ≤ b ≤ 255) c → loading p ∅ 0 →
  (∀ p', stopped p' → ¬ loadable ∨ ¬ grants (fsys p) ∨ starved p' → Q None p') →
  (∀ p' img pos, loading p' img pos → loadable → program img → Q (Some (e_entry ehdr, PHYS_BASE)) p') →
  wp Full (load_file (I * 4096) ram name l) Q p.
Proof.
  intros Hc Hld HN HS. unfold load_file. apply wp_bind, wp_zoom. apply (wp_file_read Full _ l c 0); [apply Hld|]. intros buf fs1 Hpre Hrd1 Hg1 Hbuf.
  rewrite drop_0 in Hpre, Hbuf. change (Z.to_nat EHDR_SIZE) with 52%nat in *. set (p1 := set_fsys fs1 p).
  assert (loading p1 ∅ (0 + Z.of_nat (length buf))) as Hld1 by (split; [apply Hld|apply Hld|done]).
  assert (∀ m, stopped (Process (machine p1) (fsys p1) (pagedir p1) (cur p1) (esp0 p1) m)) as Hst by (intros m; exists ∅, (0 + Z.of_nat (length buf)); split; apply Hld1).
  destruct (decide (Z.of_nat (length buf) = EHDR_SIZE)) as [Hfull|Hshort]; unfold EHDR_SIZE in *.
  2: { rewrite (bool_decide_true (Z.of_nat (length buf) ≠ 52)) by done. cbn [orb]. apply wp_bind, wp_modify, wp_ret, HN; [apply Hst|].
       destruct (decide (52 ≤ Z.of_nat (length c))) as [Hs|Hs]; [right; left|left; by intros [? _ _ _]]. intros Hg. apply Hshort. rewrite (Hbuf Hg), length_take. lia. }
  rewrite (bool_decide_false (Z.of_nat (length buf) ≠ 52)) by tauto. cbn [orb]. apply prefix_full in Hpre; [|lia]. rewrite Hpre. fold ehdr.
  assert (52 ≤ Z.of_nat (length c)) as Hsize by (apply (f_equal length) in Hpre; rewrite length_take in Hpre; lia).
  destruct (good_ehdr ehdr) eqn:Hgood; cbn [negb]; [|apply wp_bind, wp_modify, wp_ret, HN; [apply Hst|left; intros [_ ? _ _]; congruence]].
  assert (0 ≤ e_phoff ehdr < 2 ^ 32) as Hoff by (apply word_range, Forall_take, Hc).
  apply wp_bind. replace (signed (e_phoff ehdr)) with (signed (e_phoff ehdr + 32 * Z.of_nat 0)) by (f_equal; lia). fold phnum.
  apply (wp_load_phdrs Hc (e_phoff ehdr) Hoff p1 phnum _) with (img := ∅) (pos := 0 + Z.of_nat (length buf)); [| |lia|done| | |done].
  - intros p2 Hst2 Hwhy. apply wp_ret, HN; [done|]. destruct Hwhy as [Hf|[Hg|?]]; [left; by intros [_ _ ? _]|right; left; tauto|by right; right].
  - intros p2 img pos Hld2 Hfine Himg Hg2. apply wp_bind. apply (wp_setup_stack p2 img pos _ Hld2).
    + intros p3 Hst3 Hwhy. apply wp_ret, HN; [done|]. destruct Hwhy as [(k & Hk & Hl & Hr)%(proj2 Himg)|?]; [left|by right; right]. intros [_ _ _ Hs].
      specialize (Hs k Hk Hl). lia.
    + intros p3 Hld3 Hnone. apply wp_ret. eapply HS; [exact Hld3| |].
      * split; [done|done|done|]. intros k Hk Hl. destruct (decide (last_page (header (e_phoff ehdr) k) < STACK_PAGE)) as [|Hge]; [done|]. exfalso.
        destruct (proj2 (proj2 Hfine k Hk)) as (_ & _ & Hv). destruct (Hv Hl) as ((_ & _ & _ & Hm & _ & Hp) & _).
        destruct (proj1 Himg k Hk Hl (STACK_PAGE * 4096)) as (bs & Hbs & _); rewrite Z.div_mul in * by lia; [|congruence].
        unfold first_page, last_page, STACK_PAGE, PHYS_BASE in *. lia.
      * split.
        -- intros k Hk Hl a Ha. destruct (proj1 Himg k Hk Hl a Ha) as (bs & Hbs & Hb). exists bs. split; [|done]. rewrite lookup_insert_ne; [done|]. intros E. rewrite <- E in Hbs. congruence.
        -- by rewrite lookup_insert_eq.
        -- intros v Hv. destruct (decide (v = STACK_PAGE)) as [->|Hne]; [by left|]. right. rewrite lookup_insert_ne in Hv by done. by apply (proj2 Himg).
  - split; [by left|]. intros k Hk. lia.
  - split; [intros k Hk; lia|]. intros v [? Hv]. by rewrite lookup_empty in Hv.
Qed.

End file.

End loader.

(** ** [load] *)

Section load.
Context (kern : gmap Z Z) (ram I : Z) (others : Z → Prop) (Hram : ram < 262144).

Local Abbreviation inv := (inv kern ram I others).

(** The process has a directory of its own, [P], with the pages [img], and nothing else
    of the world [w] has changed. *)
Definition built (w : world) (P : Z) (img : pages) (p : process) : Prop :=
  dirs w !! P = None ∧ pagedir p = P * 4096 ∧ space kern ram I others w P (machine p) img.

Lemma wp_new_pagedir p w (Q : bool → process → Prop) :
  inv (machine p) w → (∀ p', inv (machine p') w → pagedir p' = 0 → starved p' → fsys p' = fsys p → Q false p') →
  (∀ P p', built w P ∅ p' → fsys p' = fsys p → Q true p') →
  wp Full (new_pagedir (I * 4096)) Q p.
Proof using Hram.
  intros [TT R] HN HS. apply wp_bind, wp_zoom. apply (wp_pagedir_create kern ram I others Full (machine p) w TT); [done| |].
  - intros Hno. apply wp_bind, wp_modify, wp_ret, HN; [by exists TT|done|by left|done].
  - intros P s1 HP [TT1 R1]. apply wp_bind, wp_modify. cbn [default]. apply wp_bind. unfold process_activate. apply wp_bind, wp_get, wp_bind, wp_zoom.
    assert (dirs (with_dirs (<[P := ∅]> (dirs w)) w) !! P = Some ∅) as HPe by (cbn; by rewrite lookup_insert_eq).
    destruct (rep_dir_page kern ram I others Hram R1 P ∅ HPe) as (T & _ & HPr & _).
    apply (wp_activate I others Full (Some P)); [cbn; lia|]. apply wp_modify, wp_ret, (HS P); [|done]. split_and!; [done|done|].
    exists ∅, (bytes w). split_and!; [|intros v; by rewrite !lookup_empty|done]. exists TT1.
    apply (rep_activate kern ram I others s1 (with_dirs (<[P := ∅]> (dirs w)) w) TT1 (Some P) R1). intros P' [= <-]. by eexists.
Qed.

(** What [load] leaves *)
Definition load_result (w : world) (c : list Z) (o : option floc) (f1 : fs) (r : option (Z * Z)) (p : process) : Prop :=
  match r with
  | Some (eip, esp) => ∃ P img, built w P img p ∧ is_Some o ∧ loadable c ∧ program c img ∧ eip = e_entry (ehdr c) ∧ esp = PHYS_BASE
  | None =>
      (inv (machine p) w ∧ pagedir p = 0 ∨ ∃ P img, built w P img p) ∧
      (o = None ∨ ¬ loadable c ∨ ¬ grants f1 ∨ starved p)
  end.

Lemma wp_load_program p w name o f1 c :
  inv (machine p) w → filesys_open name (fsys p) = Done (o, f1) → (∀ l, o = Some l → reading f1 l c 0) → Forall (λ b, 0 ≤ b ≤ 255) c →
  wp Full (load (I * 4096) ram name) (λ r p', load_result w c o f1 r p') p.
Proof using Hram.
  intros Hinv Hopen Hread Hc. unfold load. apply wp_bind. apply (wp_new_pagedir p w _ Hinv).
  { intros p1 Hinv1 Hpd Hst _. apply wp_ret. split; [by left|by right; right; right]. }
  intros P p1 (HP & Hpd & Hsp) Hfs. apply wp_bind, wp_zoom. unfold wp. rewrite Hfs, Hopen. destruct o as [l|].
  2: { apply wp_bind, wp_modify, wp_ret. split; [right; exists P, ∅; by split_and!|by left]. }
  specialize (Hread l eq_refl). apply wp_bind.
  apply (wp_load_file kern ram I others Hram w P HP l c (set_fsys f1 p1) name); [done|by split| |].
  - intros p2 (img & pos & [Hpd2 Hsp2 Hrd2]) Hwhy. apply wp_bind, wp_zoom. apply (wp_file_close Full _ l c pos); [done|]. intros fs3 _. apply wp_ret.
    split; [right; exists P, img; by split_and!|]. right. destruct Hwhy as [?|[?|?]]; [by left|by right; left|by right; right].
  - intros p2 img pos [Hpd2 Hsp2 Hrd2] Hlo Hpg. apply wp_bind, wp_zoom. apply (wp_file_close Full _ l c pos); [done|]. intros fs3 _. apply wp_ret.
    exists P, img. split_and!; try done.
Qed.

(** ** [start_process] and [process_exit] *)

(** The kernel gives back one of its pages. *)
Definition without (N : Z) (j : Z) : Prop := others j ∧ j ≠ N.

Lemma wp_free_other s w TT N (Q : unit → mach → Prop) :
  rep kern ram I others s w TT → others N → N ≠ I →
  (∀ s', KPageDirInv.inv kern ram I (without N) s' w → Q tt s') → wp Full (free_page (N * 4096)) Q s.
Proof using Type.
  intros R HN HNI HQ. pose proof R as [H1 H2 H3 [H4 [H5 H5']] H6 H7 H8 H9 H10].
  apply (wp_free_page ram Full false N _ _ Q s H2); [by left|]. cbn match. intros m' Hp Hm. apply HQ. exists TT.
  assert (∀ k, k ≠ N → agree (mem s) (memory m') k) as Ha by (intros k Hk; rewrite Hm; by apply agree_fill).
  assert (∀ r k, page_of TT r = Some k → k ≠ N) as Hpn by (intros r k Hr ->; by eapply H3).
  split; cbn [pm cr3 tlb]; unfold mem; cbn [pm]; try done.
  - apply (struct_agree (kwords kern I) (mem s)); [|done]. intros r k Hr. apply Ha. by eapply Hpn.
  - eapply pools_ext; [exact Hp| |done]. intros k. unfold sub, kernel_use, without. split; [tauto|]. intros [?|[r Hr]]; [tauto|]. split; [right; eauto|by eapply Hpn].
  - intros r k Hr [Ho _]. by eapply H3.
  - split; [by split|]. split.
    + intros z [Hz Hne]. rewrite (Ha (z / 4096)) by done. by apply H5.
    + intros d Hd. rewrite (ent_agree (mem s)); [by apply H5'|by apply Ha|done].
  - intros z Hz. rewrite (Ha (z / 4096)); [by apply H10| |done]. intros E. rewrite E in Hz. by eapply (rep_others_frame kern ram I others R).
Qed.

Lemma wp_process_exit p w P img (Q : unit → process → Prop) :
  built w P img p →
  (∀ p' bs, pagedir p' = 0 → kept w bs → inv (machine p') (World (dirs w) (owned w) None bs) → Q tt p') →
  wp Full (process_exit (I * 4096)) Q p.
Proof using Hram.
  intros (HP & Hpd & A & bs & [TT R] & _ & Hk) HQ. unfold process_exit. apply wp_bind, wp_get.
  assert (dirs (world_with w P A (owned w) bs) !! P = Some A) as HA by (cbn; by rewrite lookup_insert_eq).
  destruct (rep_dir_page kern ram I others Hram R P A HA) as (T & HT & HPr & _). unfold WINDOW in HPr.
  rewrite Hpd, bool_decide_true by lia. cbn [when]. apply wp_bind, wp_modify, wp_bind, wp_zoom. cbn [set_pagedir machine].
  apply (wp_activate I others Full None); [pose proof (rep_I kern ram I others Hram R); cbn; lia|]. apply wp_zoom. cbn [set_machine machine].
  pose proof (rep_activate kern ram I others (machine p) (world_with w P A (owned w) bs) TT None R ltac:(done)) as R2.
  apply (wp_pagedir_destroy kern ram I others Hram R2 HT HA ltac:(done)). intros s' Hs'.
  apply (HQ _ bs); [done|done|]. unfold rest, with_dirs, world_with in Hs'. cbn [dirs owned active bytes] in Hs'. by rewrite delete_insert_id in Hs'.
Qed.

End load.

Lemma wp_name_at name : ∀ a n s (Q : list Z → mach → Prop),
  (∀ i, 0 ≤ i ≤ Z.of_nat (length name) → mem s !! (a + i) = (name ++ [0]) !! Z.to_nat i) → Forall (λ x, x ≠ 0) name → (length name < n)%nat → Q name s →
  wp Full (string_at a n) Q s.
Proof.
  induction name as [|x name IH]; intros a n s Q Hm Hz Hn HQ; (destruct n as [|n]; [cbn [length] in Hn; lia|]); cbn [string_at]; apply wp_bind, wp_get, wp_bind.
  - eapply wp_assume_some; [specialize (Hm 0 ltac:(lia)); rewrite Z.add_0_r in Hm; exact Hm|]. by apply wp_ret.
  - inversion Hz as [|? ? Hx Hz']; subst. eapply wp_assume_some; [specialize (Hm 0 ltac:(lia)); rewrite Z.add_0_r in Hm; exact Hm|].
    rewrite bool_decide_false by done. apply wp_bind. apply IH; [|done|cbn [length] in Hn; lia|by apply wp_ret].
    intros i Hi. cbn [length] in Hm. specialize (Hm (i + 1) ltac:(lia)). rewrite <- Z.add_assoc, (Z.add_comm 1). rewrite Hm.
    by replace (Z.to_nat (i + 1)) with (S (Z.to_nat i)) by lia.
Qed.


(** The name lies in the page [N], with its terminator. *)
Definition names (s : mach) (N : Z) (name : list Z) : Prop :=
  (length name < 4096)%nat ∧ Forall (λ x, x ≠ 0) name ∧
  ∀ i, 0 ≤ i ≤ Z.of_nat (length name) → mem s !! (N * 4096 + i) = (name ++ [0]) !! Z.to_nat i.

(** C7 (functional): [load], with a page directory of the process and a file system that
    opens the executable, has no failed assertion and returns.  If it succeeds, the
    file is loadable, and the pages of the new directory, which is active, are just
    those that its program headers describe, with their bytes, the rest of the last page
    0, writable where the header says so, and a stack page of zeros; the entry point is
    that of the header and the stack pointer the end of user space.  It fails only if
    the file is not there or not loadable, or when memory runs out.  In both cases
    the other address spaces and frames are as they were, and every frame that was
    taken is mapped in the new directory. *)
Theorem load_builds kern ram I others p w name o f1 c :
  ram < 262144 → inv kern ram I others (machine p) w → filesys_open name (fsys p) = Done (o, f1) →
  (∀ l, o = Some l → reading f1 l c 0) → Forall (λ b, 0 ≤ b ≤ 255) c →
  wp Full (load (I * 4096) ram name) (load_result kern ram I others w c o f1) p.
Proof. intros Hram Hinv Ho Hr Hc. by apply (wp_load_program kern ram I others Hram). Qed.

(** C8 (safety): a new process reads the name that it was given in the page [N], loads the
    program and gives the page back.  Either it enters user mode at the program's
    entry point, with interrupts on and a frame of user selectors, or it has no
    directory any more and everything it took is given back: the address spaces and
    frames are as before, and the pools hold just what they held, without the page [N]. *)
Theorem start_process_frees kern ram I others p w N name o f1 c :
  ram < 262144 → inv kern ram I others (machine p) w → others N → N ≠ I → names (machine p) N name →
  filesys_open name (fsys p) = Done (o, f1) → (∀ l, o = Some l → reading f1 l c 0) → Forall (λ b, 0 ≤ b ≤ 255) c →
  wp Full (start_process (I * 4096) ram (N * 4096))
    (λ r p', match r with
     | Some fr => ∃ P img, built kern ram I (without others N) w P img p' ∧ loadable c ∧ program c img ∧
         fr = IntrFrame SEL_UDSEG SEL_UCSEG 0x202 (e_entry (ehdr c)) PHYS_BASE
     | None => pagedir p' = 0 ∧ ∃ a bs, kept w bs ∧ let w' := World (dirs w) (owned w) a bs in
         inv kern ram I (without others N) (machine p') w' ∧ accounts (without others N) (machine p') w'
     end) p.
Proof.
  intros Hram Hinv HN HNI (Hlen & Hz & Hname) Ho Hr Hc. unfold start_process. apply wp_bind, wp_zoom.
  apply (wp_name_at name); [done|done|change (Z.to_nat PAGE) with 4096%nat; lia|]. assert (set_machine (machine p) p = p) as -> by (by destruct p).
  apply wp_bind. eapply wp_mono; [by apply (wp_load_program kern ram I others Hram p w name o f1 c)|]. intros r p1 Hres. apply wp_bind, wp_zoom. destruct r as [[eip esp]|].
  - destruct Hres as (P & img & (HP & Hpd & A & bs & [TT R] & Hsh & Hk) & _ & Hlo & Hpg & -> & ->).
    apply (wp_free_other kern ram I others (machine p1) _ TT N _ R HN HNI). intros s2 Hs2. apply wp_ret. exists P, img.
    assert (built kern ram I (without others N) w P img (set_machine s2 p1)) as Hb by (split_and!; [done|done|by exists A, bs]). by split_and!.
  - destruct Hres as [[[[TT R] Hpd]|(P & img & HP & Hpd & A & bs & [TT R] & Hsh & Hk)] _].
    + apply (wp_free_other kern ram I others (machine p1) _ TT N _ R HN HNI). intros s2 Hs2. apply wp_bind. unfold process_exit. apply wp_bind, wp_get.
      cbn [set_machine pagedir]. rewrite Hpd, bool_decide_false by tauto. apply wp_ret, wp_ret. split; [done|]. exists (active w), (bytes w). split; [done|].
      destruct w. split; [done|by apply (inv_accounts kern ram I)].
    + apply (wp_free_other kern ram I others (machine p1) _ TT N _ R HN HNI). intros s2 Hs2. apply wp_bind.
      apply (wp_process_exit kern ram I (without others N) Hram (set_machine s2 p1) w P img); [split_and!; [done|done|by exists A, bs]|].
      intros p3 bs3 Hpd3 Hk3 Hinv3. apply wp_ret. split; [done|]. exists None, bs3. split; [done|]. split; [done|by apply (inv_accounts kern ram I)].
Qed.

(** ** Witnesses *)

Lemma struct_kwords k k' m TT D : (∀ d, 768 ≤ d < 1024 → k d = k' d) → struct k m TT D → struct k' m TT D.
Proof.
  intros Hk [H1 H2 H3 H4 H5 H6]. split; try done. intros P T HT d Hd. destruct (H3 P T HT d Hd) as (e & He & Hw). exists e. split; [done|].
  unfold dir_word in *. case_decide; [done|]. rewrite <- Hk by lia. done.
Qed.

(** The rest of the kernel stores something in a page of its own. *)
Lemma inv_store_other kern ram I others s w N bs :
  inv kern ram I others s w → others N → N ≠ I → Z.of_nat (length bs) ≤ 4096 →
  let s' := Mach (set_memory (put_bytes (N * 4096) bs) (pm s)) (cr3 s) (tlb s) in inv (mem s') ram I others s' w.
Proof.
  intros [TT R] HN HNI Hl s'. pose proof R as [H1 H2 H3 [H4 [H5 H5']] H6 H7 H8 H9 H10].
  assert (∀ k, k ≠ N → agree (mem s) (mem s') k) as Ha.
  { intros k Hk z Hz. unfold s', mem. cbn [pm set_memory memory]. rewrite put_bytes_lookup. case_decide; [lia|done]. }
  assert (∀ d, 0 ≤ d < 1024 → ent (mem s') I d = ent (mem s) I d) as HI by (intros d Hd; apply ent_agree; [by apply Ha|done]).
  exists TT. split; try done.
  - apply (struct_kwords (kwords kern I)); [intros d Hd; unfold kwords; by rewrite HI, H5', decide_False by lia|].
    apply (struct_agree (kwords kern I) (mem s)); [|done]. intros r j Hr. apply Ha. intros ->. by eapply H3.
  - by apply pools_memory.
  - split; [done|]. split; [done|]. intros d Hd. unfold kwords. rewrite HI, H5' by done. by case_decide.
  - intros z Hz. rewrite (Ha (z / 4096)); [by apply H10| |done]. intros E. rewrite E in Hz. by eapply (rep_others_frame kern ram I others R).
Qed.

(** The kernel takes one more page for itself. *)
Lemma wp_take_other kern ram I others s w (Q : option Z → mach → Prop) :
  inv kern ram I others s w → Q None s →
  (∀ N s', N ≠ I → inv (mem s') ram I (add others N) s' w → Q (Some (N * 4096)) s') → wp Full (get_page 0) Q s.
Proof.
  intros [TT R] HN HS. pose proof R as [H1 H2 H3 [H4 [H5 H5']] H6 H7 H8 H9 H10].
  apply (wp_get_page ram Full 0 _ _ _ s H2); [done|by intros _|]. change (flagged 0 PAL_USER) with false. cbn match.
  change (zero_page 0) with (λ _ : Z, λ m : gmap Z Z, m). cbn beta. intros N m' Hfree _ Hp Hm. assert (N ≠ I) as HNI by (intros ->; apply Hfree; by left).
  apply HS; [done|]. exists TT. split; unfold mem; cbn [pm cr3 tlb]; rewrite ?Hm; try done.
  - apply (struct_kwords (kwords kern I)); [|done]. intros d Hd. unfold kwords. fold (mem s). by rewrite H5', decide_False by lia.
  - eapply pools_ext; [exact Hp| |done]. intros j. unfold add, kernel_use. tauto.
  - intros r j Hr [Ho| ->]; [by eapply H3|]. apply Hfree. right. eauto.
  - split; [by left|]. split; [done|]. intros d Hd. unfold kwords. fold (mem s). rewrite !H5' by done. by case_decide.
Qed.

(** An executable of 100 bytes: one segment of 5000 bytes, the first 16 of them at the end
    of the file *)
Definition le2 (x : Z) : list Z := [x mod 256; x / 256 mod 256].
Definition le4 (x : Z) : list Z := le2 x ++ le2 (x / 65536).
Definition an_elf : list Z :=
  ELF_MAGIC ++ replicate 9 0 ++ le2 2 ++ le2 3 ++ le4 1 ++ le4 0x8048054 ++ le4 52 ++ le4 0 ++ le4 0 ++ le2 52 ++ le2 32 ++ le2 1 ++ le2 0 ++ le2 0 ++ le2 0 ++
  le4 1 ++ le4 84 ++ le4 0x8048054 ++ le4 0x8048054 ++ le4 16 ++ le4 5000 ++ le4 6 ++ le4 4096 ++ replicate 16 144.

(** A disk with that file, and the file opened *)
Definition elf_fs : fs :=
  match (filesys_init true (Some [5]) true;; filesys_create (text "prog") 100;; f ← filesys_open (text "prog"); l ← assume_some f; file_write l an_elf 100;;
         file_close (Some l)) blank_fs with
  | Done (_, s) => s
  | _ => blank_fs
  end.
Definition elf_open : option floc * fs := match filesys_open (text "prog") elf_fs with Done r => r | _ => (None, blank_fs) end.

Lemma elf_opens : filesys_open (text "prog") elf_fs = Done (elf_open.1, elf_open.2).
Proof. vm_compute. reflexivity. Qed.

Lemma elf_reading l : elf_open.1 = Some l → reading elf_open.2 l an_elf 0.
Proof.
  set (f := default (File 1 0 true) (x ← elf_open.1; files elf_open.2 !! x)). set (i := default (Inode 0 0 true 0 (InodeDisk 0 0 0)) (inodes elf_open.2 !! f_inode f)).
  intros El. exists (f_inode f), i. assert (l = default 1%positive elf_open.1) as -> by (rewrite El; reflexivity). clear El.
  split_and!; [vm_compute; reflexivity|vm_compute; reflexivity|vm_compute; reflexivity| | |vm_compute; reflexivity|lia|done].
  - split; [apply (bool_decide_unpack _); vm_compute; exact Logic.I|vm_compute; reflexivity].
  - split; [vm_compute; discriminate|split; vm_compute; discriminate|apply (bool_decide_unpack _); vm_compute; exact Logic.I].
Qed.

Lemma elf_bytes : Forall (λ b, 0 ≤ b ≤ 255) an_elf.
Proof. apply (bool_decide_unpack _). vm_compute. exact Logic.I. Qed.

(** The machine after booting, with a page of the kernel that holds the name *)
Definition a_start : M mach (Z * Z) :=
  pd ← paging_init a_ram 0xc0020000 0xc0030000;
  o ← get_page 0;
  match o with
  | Some a => store_bytes a (text "prog" ++ [0]);; mret (pd, a)
  | None => mret (pd, 0)
  end.

Lemma a_start_runs : match palloc_init a_ram 100 a_buf a_buf ∅ with
  | Some m => match a_start (Mach m 0 ∅) with Done ((_, a), _) => a ≠ 0 | _ => False end
  | None => False
  end.
Proof. vm_compute. discriminate. Qed.

Lemma a_started : ∃ I N s, inv (mem s) a_ram I (add (boot_pages a_ram I) N) s empty_world ∧ N ≠ I ∧ names s N (text "prog").
Proof.
  pose proof a_start_runs as Hrun. destruct (palloc_init_taken a_ram ltac:(unfold a_ram; lia) 100 a_buf a_buf ∅) as (m & E & Ht);
    [unfold a_ram; lia|lia|apply a_kbuf|apply a_ubuf|]. rewrite E in Hrun.
  assert (wp Full a_start (λ r s, r.2 = 0 ∨ ∃ I N, inv (mem s) a_ram I (add (boot_pages a_ram I) N) s empty_world ∧ N ≠ I ∧ names s N (text "prog")) (Mach m 0 ∅)) as Hw.
  { unfold a_start. apply wp_bind. eapply wp_mono; [apply (wp_paging_init a_ram 0xc0020000 0xc0030000 ltac:(unfold a_ram; lia) (Mach m 0 ∅) _ _ Ht a_room)|].
    intros pd s (_ & Hi & _). apply wp_bind. apply (wp_take_other _ _ _ _ _ _ _ Hi); [apply wp_ret; by left|]. intros N s1 HN Hs1.
    apply wp_bind, wp_modify, wp_ret. right. eexists _, N. split; [|split; [exact HN|]].
    - apply (inv_store_other _ _ _ _ s1 _ N (text "prog" ++ [0]) Hs1); [by right|done|vm_compute; discriminate].
    - split; [vm_compute; lia|]. split; [apply (bool_decide_unpack _); vm_compute; exact Logic.I|]. intros i Hi'. unfold mem. cbn [pm set_memory memory].
      rewrite put_bytes_lookup, decide_True by (rewrite length_app; cbn [length]; lia). f_equal. lia. }
  apply wp_total_run in Hw as ([pd a] & s & Er & [Ha|(I & N & Hs)]); [|by exists I, N, s]. rewrite Er in Hrun. destruct (Hrun Ha).
Qed.

Lemma load_builds_witness :
  (∃ kern I others s, wp Full (load (I * 4096) a_ram (text "prog")) (load_result kern a_ram I others empty_world an_elf elf_open.1 elf_open.2) (Process s elf_fs 0 0 0 [])) ∧
  match palloc_init a_ram 100 a_buf a_buf ∅ with
  | Some m =>
      match (r ← on_machine a_start; e ← load r.1 a_ram (text "prog"); x ← on_machine (user_read 0x8048063); y ← on_machine (user_read 0x8048064);
             z ← on_machine (user_read 0xbfffffff); u ← on_machine (user_read 0xbfffefff); mret (e, x, y, z, u)) (Process (Mach m 0 ∅) elf_fs 0 0 0 []) with
      | Done (r, _) => r = (Some (0x8048054, PHYS_BASE), Some (Some 144), Some (Some 0), Some (Some 0), None)
      | _ => False
      end
  | None => False
  end.
Proof.
  split; [|vm_compute; reflexivity]. destruct a_started as (I & N & s & Hi & HNI & Hn). exists (mem s), I, (add (boot_pages a_ram I) N), s.
  apply (load_builds (mem s) a_ram I _ (Process s elf_fs 0 0 0 []) empty_world (text "prog") elf_open.1 elf_open.2 an_elf);
    [unfold a_ram; lia|exact Hi|apply elf_opens|apply elf_reading|apply elf_bytes].
Defined.

Lemma start_process_frees_witness :
  ∃ kern I others N s, N ≠ I ∧ names s N (text "prog") ∧
    wp Full (start_process (I * 4096) a_ram (N * 4096))
      (λ r p', match r with
       | Some fr => ∃ P img, built kern a_ram I (without others N) empty_world P img p' ∧ loadable an_elf ∧ program an_elf img ∧
           fr = IntrFrame SEL_UDSEG SEL_UCSEG 0x202 (e_entry (ehdr an_elf)) PHYS_BASE
       | None => pagedir p' = 0 ∧ ∃ a bs, kept empty_world bs ∧ let w' := World (dirs empty_world) (owned empty_world) a bs in
           inv kern a_ram I (without others N) (machine p') w' ∧ accounts (without others N) (machine p') w'
       end) (Process s elf_fs 0 0 0 []).
Proof.
  destruct a_started as (I & N & s & Hi & HNI & Hn). exists (mem s), I, (add (boot_pages a_ram I) N), N, s. split; [exact HNI|]. split; [exact Hn|].
  apply (start_process_frees (mem s) a_ram I _ (Process s elf_fs 0 0 0 []) empty_world N (text "prog") elf_open.1 elf_open.2 an_elf);
    [unfold a_ram; lia|exact Hi|right; reflexivity|exact HNI|exact Hn|apply elf_opens|apply elf_reading|apply elf_bytes].
Defined.
