(* ===== verification/KBlock.v ===== *)
(** * Pintos: block devices and partitions

    [Project_3/devices/block.c] and [Project_3/devices/partition.c]: the list of block
    devices, accesses to their sectors, and the scan of a disk for partitions.  A
    pointer to a block device is its place in the list.  The sectors of the disks
    behind the drivers are part of the state; what a driver reads or writes is a sector
    of its disk.  A [PANIC] is undefined behaviour.  [answers] are those of [malloc],
    which grants what no answer is left for; the text of a message is not modelled, its
    kind and numbers are. *)

From stdpp Require Import base tactics list gmap strings pretty.
From Stdlib Require Import ZArith Lia.
From S2P Require Import Prelude.

Local Open Scope Z_scope.
#[local] Ltac Zify.zify_post_hook ::= Z.to_euclidean_division_equations.

(** ** Block devices *)

Inductive block_type_ := BLOCK_KERNEL | BLOCK_FILESYS | BLOCK_SCRATCH | BLOCK_SWAP | BLOCK_RAW | BLOCK_FOREIGN.

#[global] Instance block_type_eq_dec : EqDecision block_type_.
Proof. solve_decision. Defined.

(** Whether a type is below [BLOCK_ROLE_CNT] *)
Definition is_role (t : block_type_) : bool := match t with BLOCK_RAW | BLOCK_FOREIGN => false | _ => true end.

(** [ops] and [aux]: a driver with its disk, or [partition_operations] with a
    [struct partition] *)
Inductive operations := Driver (disk : nat) | Partition (block : nat) (start : Z).

Record block := Block { name : list Z; type : block_type_; size : Z; ops : operations; read_cnt : Z; write_cnt : Z }.

Inductive message :=
  | NoPartitions (block : nat)
  | TablePastEnd (sector : Z)
  | InvalidSignature
  | InvalidExtended (sector : Z)
  | ExtendedIn (sector : Z)
  | StartsPastEnd (part_nr start : Z)
  | EndsPastEnd (part_nr end_ size : Z)
  | Registered (name : list Z) (size : Z)
  | Stats (name : list Z) (type : block_type_) (reads writes : Z).

Record devices := Devices {
  all_blocks : list block;
  block_by_role : block_type_ → option nat;
  disks : list (list (list Z));
  answers : list bool;
  console : list message
}.

Local Abbreviation MD := (M devices).

Definition set_blocks (f : list block → list block) (s : devices) : devices :=
  Devices (f (all_blocks s)) (block_by_role s) (disks s) (answers s) (console s).
Definition set_disks (f : list (list (list Z)) → list (list (list Z))) (s : devices) : devices :=
  Devices (all_blocks s) (block_by_role s) (f (disks s)) (answers s) (console s).

Definition printf (m : message) : MD unit :=
  modify (λ s, Devices (all_blocks s) (block_by_role s) (disks s) (answers s) (console s ++ [m])).

Definition malloc : MD bool :=
  s ← get;
  match answers s with
  | [] => mret true
  | a :: l => modify (λ s, Devices (all_blocks s) (block_by_role s) (disks s) l (console s));; mret a
  end.

Definition get_block (b : nat) : MD block := s ← get; assume_some (all_blocks s !! b).

Definition counted_read (x : block) : block := Block (name x) (type x) (size x) (ops x) ((read_cnt x + 1) mod 2 ^ 64) (write_cnt x).
Definition counted_write (x : block) : block := Block (name x) (type x) (size x) (ops x) (read_cnt x) ((write_cnt x + 1) mod 2 ^ 64).

Definition block_size (b : nat) : MD Z := x ← get_block b; mret (size x).
Definition block_name (b : nat) : MD (list Z) := x ← get_block b; mret (name x).
Definition block_type (b : nat) : MD block_type_ := x ← get_block b; mret (type x).

Definition block_get_role (role : block_type_) : MD (option nat) := check (is_role role);; s ← get; mret (block_by_role s role).

Definition block_set_role (role : block_type_) (b : option nat) : MD unit :=
  check (is_role role);;
  modify (λ s, Devices (all_blocks s) (λ r, if decide (r = role) then b else block_by_role s r) (disks s) (answers s) (console s)).

(** [list_elem_to_block] of the element at a place of the list *)
Definition list_elem_to_block (i : nat) (l : list block) : option nat := if decide (i < length l)%nat then Some i else None.

Definition block_first : MD (option nat) := s ← get; mret (list_elem_to_block 0 (all_blocks s)).
Definition block_next (b : nat) : MD (option nat) := get_block b;; s ← get; mret (list_elem_to_block (S b) (all_blocks s)).

Definition block_get_by_name (n : list Z) : MD (option nat) := s ← get; mret (fst <$> list_find (λ x, n = name x) (all_blocks s)).

(** What the drivers do *)
Definition driver_read (d : nat) (sector : Z) : MD (list Z) :=
  s ← get; l ← assume_some (disks s !! d); assume_some (l !! Z.to_nat sector).
Definition driver_write (d : nat) (sector : Z) (buf : list Z) : MD unit :=
  s ← get; l ← assume_some (disks s !! d); check (bool_decide (is_Some (l !! Z.to_nat sector)));;
  modify (set_disks (alter (<[Z.to_nat sector := buf]>) d)).

Definition check_sector (x : block) (sector : Z) : MD unit := check (negb (bool_decide (size x ≤ sector))).

(** [block_read] and [partition_read] call each other; a partition lies on a device that
    is before it in the list, which bounds the depth. *)
Fixpoint read_depth (fuel : nat) (b : nat) (sector : Z) : MD (list Z) :=
  match fuel with
  | O => λ _, NoFuel
  | S n =>
      x ← get_block b;
      check_sector x sector;;
      buf ← match ops x with Driver d => driver_read d sector | Partition p start => read_depth n p (wrap_u32 (start + sector)) end;
      modify (set_blocks (alter counted_read b));;
      mret buf
  end.
Definition block_read (b : nat) (sector : Z) : MD (list Z) := read_depth (S b) b sector.

Fixpoint write_depth (fuel : nat) (b : nat) (sector : Z) (buf : list Z) : MD unit :=
  match fuel with
  | O => λ _, NoFuel
  | S n =>
      x ← get_block b;
      check_sector x sector;;
      check (bool_decide (type x ≠ BLOCK_FOREIGN));;
      match ops x with Driver d => driver_write d sector buf | Partition p start => write_depth n p (wrap_u32 (start + sector)) buf end;;
      modify (set_blocks (alter counted_write b))
  end.
Definition block_write (b : nat) (sector : Z) (buf : list Z) : MD unit := write_depth (S b) b sector buf.

Definition block_register (n : list Z) (t : block_type_) (sz : Z) (o : operations) : MD nat :=
  ok ← malloc;
  check ok;;
  s ← get;
  modify (set_blocks (λ l, l ++ [Block (take 15 n) t sz o 0 0]));;
  printf (Registered (take 15 n) sz);;
  mret (length (all_blocks s)).

Definition block_print_stats : MD unit :=
  s ← get;
  let line r := match block_by_role s r with
                | Some b => x ← get_block b; printf (Stats (name x) (type x) (read_cnt x) (write_cnt x))
                | None => mret tt
                end in
  line BLOCK_KERNEL;; line BLOCK_FILESYS;; line BLOCK_SCRATCH;; line BLOCK_SWAP.

(** ** Partitions *)

Record partition_table_entry := Entry { e_type : Z; e_offset : Z; e_size : Z }.

Definition byte_of (l : list Z) (o : nat) : Z := default 0 (l !! o).
Definition word_of (l : list Z) (o : nat) : Z :=
  byte_of l o + 256 * byte_of l (o + 1) + 65536 * byte_of l (o + 2) + 16777216 * byte_of l (o + 3).

(** [pt->partitions] and [pt->signature] of [struct partition_table] *)
Definition entry_of (pt : list Z) (i : nat) : partition_table_entry :=
  let o := (446 + 16 * i)%nat in Entry (byte_of pt (o + 4)) (word_of pt (o + 8)) (word_of pt (o + 12)).
Definition partitions (pt : list Z) : list partition_table_entry := entry_of pt <$> seq 0 4.
Definition signature (pt : list Z) : Z := byte_of pt 510 + 256 * byte_of pt 511.

Definition is_extended (t : Z) : bool := bool_decide (t = 0x05) || bool_decide (t = 0x0f) || bool_decide (t = 0x85) || bool_decide (t = 0xc5).

Definition type_of (part_type : Z) : block_type_ :=
  if bool_decide (part_type = 0x20) then BLOCK_KERNEL
  else if bool_decide (part_type = 0x21) then BLOCK_FILESYS
  else if bool_decide (part_type = 0x22) then BLOCK_SCRATCH
  else if bool_decide (part_type = 0x23) then BLOCK_SWAP
  else BLOCK_FOREIGN.

(** [%d] of a number that is not negative *)
Definition decimal (n : Z) : list Z := (λ a, Z.of_nat (Ascii.nat_of_ascii a)) <$> String.list_ascii_of_string (pretty (Z.to_N n)).

Definition found_partition (b : nat) (part_type start sz part_nr : Z) : MD unit :=
  bsize ← block_size b;
  if bool_decide (bsize ≤ start) then printf (StartsPastEnd part_nr start)
  else if bool_decide (wrap_u32 (start + sz) < start) || bool_decide (bsize < wrap_u32 (start + sz)) then
    printf (EndsPastEnd part_nr (wrap_u32 (start + sz)) bsize)
  else
    ok ← malloc;
    check ok;;
    n ← block_name b;
    block_register (take 15 (n ++ decimal part_nr)) (type_of part_type) sz (Partition b start);;
    mret tt.

(** [for (i = 0; i < 4; i++)] over the entries that are left; [table] is the recursive
    call.  The result is [*part_nr]. *)
Fixpoint scan_entries (table : Z → Z → Z → MD Z) (b : nat) (sector primary_extended_sector : Z) (es : list partition_table_entry) (part_nr : Z) : MD Z :=
  match es with
  | [] => mret part_nr
  | e :: es =>
      part_nr ←
        (if bool_decide (e_size e = 0) || bool_decide (e_type e = 0) then mret part_nr
         else if is_extended (e_type e) then
           printf (ExtendedIn sector);;
           if bool_decide (sector = 0) then table (e_offset e) (e_offset e) part_nr
           else table (wrap_u32 (e_offset e + primary_extended_sector)) primary_extended_sector part_nr
         else
           found_partition b (e_type e) (wrap_u32 (e_offset e + sector)) (e_size e) (part_nr + 1);;
           mret (part_nr + 1));
      scan_entries table b sector primary_extended_sector es part_nr
  end.

(** [fuel] bounds the depth of the recursion. *)
Fixpoint read_partition_table (fuel : nat) (b : nat) (sector primary_extended_sector part_nr : Z) : MD Z :=
  match fuel with
  | O => λ _, NoFuel
  | S n =>
      bsize ← block_size b;
      if bool_decide (bsize ≤ sector) then printf (TablePastEnd sector);; mret part_nr
      else
        ok ← malloc;
        check ok;;
        pt ← block_read b 0;
        if bool_decide (signature pt ≠ 0xaa55) then
          printf (if bool_decide (primary_extended_sector = 0) then InvalidSignature else InvalidExtended sector);; mret part_nr
        else scan_entries (read_partition_table n b) b sector primary_extended_sector (partitions pt) part_nr
  end.

Definition partition_scan (fuel : nat) (b : nat) : MD unit :=
  part_nr ← read_partition_table fuel b 0 0 0;
  when (bool_decide (part_nr = 0)) (printf (NoPartitions b)).

(** ** Where the sectors of a device lie *)

(** Everything of a device but its counters *)
Definition uncounted (x : block) : block := Block (name x) (type x) (size x) (ops x) 0 0.
Definition shape (s : devices) : list block := uncounted <$> all_blocks s.

Lemma shape_alter f b (l : list block) : (∀ x, uncounted (f x) = uncounted x) → uncounted <$> alter f b l = uncounted <$> l.
Proof.
  intros Hf. apply list_eq. intros i. rewrite !list_lookup_fmap. destruct (decide (i = b)) as [->|Hne]; [|by rewrite list_lookup_alter_ne].
  rewrite list_lookup_alter_eq. destruct (l !! b); cbn; [by rewrite Hf|done].
Qed.

Definition good_block (l : list block) (ds : list (list (list Z))) (i : nat) (x : block) : Prop :=
  0 ≤ size x < 2 ^ 32 ∧
  match ops x with
  | Driver d => ∃ secs, ds !! d = Some secs ∧ size x ≤ Z.of_nat (length secs)
  | Partition p start => (p < i)%nat ∧ 0 ≤ start ∧ ∃ y, l !! p = Some y ∧ start + size x ≤ size y
  end.

(** Each device has its sectors: a driver on its disk, a partition on a device before it. *)
Definition wf (s : devices) : Prop := ∀ i x, shape s !! i = Some x → good_block (shape s) (disks s) i x.

(** The disk and the sector on it *)
Fixpoint place (fuel : nat) (l : list block) (b : nat) (sector : Z) : option (nat * Z) :=
  match fuel with
  | O => None
  | S n =>
      match ops <$> l !! b with
      | Some (Driver d) => Some (d, sector)
      | Some (Partition p start) => place n l p (start + sector)
      | None => None
      end
  end.
Definition location (s : devices) (b : nat) (sector : Z) : option (nat * Z) := place (S b) (shape s) b sector.

Definition content (s : devices) (b : nat) (sector : Z) : option (list Z) :=
  '(d, k) ← location s b sector; secs ← disks s !! d; secs !! Z.to_nat k.

Definition in_range (s : devices) (b : nat) (sector : Z) : Prop := ∃ x, shape s !! b = Some x ∧ 0 ≤ sector < size x.

(** No device on the way to the disk is foreign. *)
Fixpoint own (fuel : nat) (l : list block) (b : nat) : Prop :=
  match fuel with
  | O => False
  | S n =>
      match l !! b with
      | Some x => type x ≠ BLOCK_FOREIGN ∧ match ops x with Driver _ => True | Partition p _ => own n l p end
      | None => False
      end
  end.
Definition may_write (s : devices) (b : nat) : Prop := own (S b) (shape s) b.

(** Only counters differ. *)
Definition same (s s' : devices) : Prop := shape s' = shape s ∧ disks s' = disks s ∧ answers s' = answers s ∧ block_by_role s' = block_by_role s ∧ console s' = console s.

Lemma place_ok s fuel : wf s → ∀ b sector, (b < fuel)%nat → in_range s b sector →
  ∃ d k secs, place fuel (shape s) b sector = Some (d, k) ∧ disks s !! d = Some secs ∧ 0 ≤ k < Z.of_nat (length secs).
Proof.
  intros Hwf. induction fuel as [|n IH]; intros b sector Hb (x & Hx & Hs); [lia|]. cbn [place]. rewrite Hx. cbn.
  destruct (Hwf b x Hx) as [_ Hops]. destruct (ops x) as [d|p start].
  - destruct Hops as (secs & Hd & Hl). exists d, sector, secs. split_and!; (done || lia).
  - destruct Hops as (Hp & Hst & y & Hy & Hle). apply IH; [lia|]. exists y. split; [done|lia].
Qed.

Lemma wp_get_block t s b x (Q : block → devices → Prop) :
  shape s !! b = Some x → (∀ x', uncounted x' = x → Q x' s) → wp t (get_block b) Q s.
Proof.
  unfold shape. rewrite list_lookup_fmap. intros (x' & Hx' & ->)%fmap_Some HQ. unfold get_block. apply wp_bind, wp_get. eapply wp_assume_some; [exact Hx'|]. by apply HQ.
Qed.

Lemma uncounted_fields x x' : uncounted x' = x → size x' = size x ∧ ops x' = ops x ∧ type x' = type x ∧ name x' = name x.
Proof. by intros <-. Qed.

(** ** Accesses *)

Lemma wp_read_depth s fuel : wf s → ∀ b sector s1 (Q : list Z → devices → Prop),
  same s s1 → (b < fuel)%nat → in_range s b sector →
  (∀ buf s2 d k secs, place fuel (shape s) b sector = Some (d, k) → disks s !! d = Some secs → secs !! Z.to_nat k = Some buf → same s s2 → Q buf s2) →
  wp Full (read_depth fuel b sector) Q s1.
Proof.
  intros Hwf. induction fuel as [|n IH]; intros b sector s1 Q Hs1 Hb (x & Hx & Hs) HQ; [lia|]. cbn [read_depth].
  destruct (place_ok s (S n) Hwf b sector Hb ltac:(by exists x)) as (d & k & secs & Hpl & Hd & Hk).
  pose proof Hs1 as (Hsh & Hds & _). apply wp_bind. eapply wp_get_block; [by rewrite Hsh|]. intros x' (Hsz & Hops & _)%uncounted_fields.
  apply wp_bind, wp_check; [rewrite Hsz, bool_decide_false by lia; done|]. apply wp_bind. rewrite Hops. cbn [place] in Hpl, HQ. rewrite Hx in Hpl, HQ. cbn in Hpl, HQ.
  assert (∀ s2, same s s2 → same s (set_blocks (alter counted_read b) s2)) as Hcount.
  { intros s2 (E1 & E). split; [|done]. rewrite <- E1. unfold shape. cbn. by apply shape_alter. }
  destruct (Hwf b x Hx) as [Hsize Ho]. destruct (ops x) as [d'|p start].
  - injection Hpl as <- <-. destruct (lookup_lt_is_Some_2 secs (Z.to_nat sector)) as [buf Hbuf]; [lia|].
    unfold driver_read. apply wp_bind, wp_get, wp_bind. rewrite Hds. eapply wp_assume_some; [exact Hd|]. eapply wp_assume_some; [exact Hbuf|].
    apply wp_bind, wp_modify, wp_ret. eapply HQ; [done|done|done|by apply Hcount].
  - destruct Ho as (Hp & Hst & y & Hy & Hle). destruct (Hwf p y Hy) as [Hsy _]. unfold wrap_u32. rewrite Z.mod_small by lia.
    apply (IH p (start + sector) s1); [done|lia|exists y; split; [done|lia]|]. intros buf s2 d2 k2 secs2 E1 E2 E3 Hs2.
    apply wp_bind, wp_modify, wp_ret. eapply HQ; [done|done|done|by apply Hcount].
Qed.

(** [s'] is [s] with the sector [k] of disk [d] replaced, but for the counters. *)
Definition stored (d : nat) (k : Z) (buf : list Z) (s s' : devices) : Prop :=
  shape s' = shape s ∧ disks s' = alter (<[Z.to_nat k := buf]>) d (disks s) ∧ answers s' = answers s ∧ block_by_role s' = block_by_role s ∧ console s' = console s.

Lemma wp_write_depth s fuel buf : wf s → ∀ b sector (Q : unit → devices → Prop),
  (b < fuel)%nat → in_range s b sector → own fuel (shape s) b →
  (∀ s2 d k, place fuel (shape s) b sector = Some (d, k) → stored d k buf s s2 → Q tt s2) → wp Full (write_depth fuel b sector buf) Q s.
Proof.
  intros Hwf. induction fuel as [|n IH]; intros b sector Q Hb (x & Hx & Hs) Hown HQ; [lia|]. cbn [write_depth].
  destruct (place_ok s (S n) Hwf b sector Hb ltac:(by exists x)) as (d & k & secs & Hpl & Hd & Hk). cbn [own] in Hown. rewrite Hx in Hown. destruct Hown as [Hty Hown].
  apply wp_bind. eapply wp_get_block; [done|]. intros x' (Hsz & Hops & Htype & _)%uncounted_fields.
  apply wp_bind, wp_check; [rewrite Hsz, bool_decide_false by lia; done|]. apply wp_bind, wp_check; [by rewrite Htype, bool_decide_true|].
  apply wp_bind. rewrite Hops. cbn [place] in Hpl, HQ. rewrite Hx in Hpl, HQ. cbn in Hpl, HQ.
  assert (∀ d k s2, stored d k buf s s2 → stored d k buf s (set_blocks (alter counted_write b) s2)) as Hcount.
  { intros d2 k2 s2 (E1 & E). split; [|done]. rewrite <- E1. unfold shape. cbn. by apply shape_alter. }
  destruct (Hwf b x Hx) as [Hsize Ho]. destruct (ops x) as [d'|p start].
  - injection Hpl as <- <-. unfold driver_write. apply wp_bind, wp_get, wp_bind. eapply wp_assume_some; [exact Hd|].
    apply wp_bind, wp_check; [apply bool_decide_true, lookup_lt_is_Some_2; lia|]. apply wp_modify, wp_modify. eapply HQ; [done|]. by apply Hcount.
  - destruct Ho as (Hp & Hst & y & Hy & Hle). destruct (Hwf p y Hy) as [Hsy _]. unfold wrap_u32. rewrite Z.mod_small by lia.
    apply (IH p (start + sector)); [lia|exists y; split; [done|lia]|done|]. intros s2 d2 k2 E1 Hs2. apply wp_modify. eapply HQ; [done|by apply Hcount].
Qed.

Lemma wf_stored d k buf s s' : wf s → stored d k buf s s' → wf s'.
Proof.
  intros Hwf (Hsh & Hds & _) i x. rewrite Hsh. intros Hx. destruct (Hwf i x Hx) as [H1 H2]. split; [done|]. destruct (ops x) as [d'|p start]; [|done].
  destruct H2 as (secs & Hd & Hl). rewrite Hds. destruct (decide (d' = d)) as [->|Hne]; [rewrite list_lookup_alter_eq, Hd|rewrite list_lookup_alter_ne by done; by exists secs].
  exists (<[Z.to_nat k := buf]> secs). by rewrite length_insert.
Qed.

Lemma wf_same s s' : wf s → same s s' → wf s'.
Proof. intros Hwf (Hsh & Hds & _) i x. rewrite Hsh, Hds. apply Hwf. Qed.

(** The devices of a session: a partition of the same disk that ends before another
    begins has no sector in common with it. *)
Lemma place_partition s b p start x sector : wf s → shape s !! b = Some x → ops x = Partition p start → 0 ≤ sector < size x →
  location s b sector = location s p (start + sector).
Proof.
  intros Hwf Hx Hops Hs. unfold location. cbn [place]. rewrite Hx. cbn. rewrite Hops. destruct (Hwf b x Hx) as [_ Ho]. rewrite Hops in Ho. destruct Ho as (Hp & _).
  assert (∀ n m c z, (c < n)%nat → (c < m)%nat → place n (shape s) c z = place m (shape s) c z) as Hfuel.
  { clear - Hwf. induction n as [|n IH]; intros m c z Hc Hm; [lia|]. destruct m as [|m]; [lia|]. cbn [place]. destruct (shape s !! c) as [y|] eqn:Hy; [|done]. cbn.
    destruct (Hwf c y Hy) as [_ Ho]. destruct (ops y); [done|]. apply IH; lia. }
  apply (Hfuel b (S p)); lia.
Qed.

Lemma place_shift l n : ∀ b z d k, place n l b z = Some (d, k) → ∀ z', place n l b z' = Some (d, k + (z' - z)).
Proof.
  induction n as [|n IH]; intros b z d k; cbn [place]; [done|]. destruct (l !! b) as [x|]; cbn; [|done]. destruct (ops x) as [d'|p start].
  - intros [= <- <-] z'. do 2 f_equal. lia.
  - intros Hp z'. rewrite (IH p _ d k Hp). do 2 f_equal. lia.
Qed.

Lemma location_inj s b z z' : wf s → in_range s b z → location s b z = location s b z' → z = z'.
Proof.
  intros Hwf Hz E. destruct (place_ok s (S b) Hwf b z ltac:(lia) Hz) as (d & k & secs & Hp & _). unfold location in E.
  rewrite (place_shift _ _ _ _ _ _ Hp z'), Hp in E. injection E as E. lia.
Qed.

Lemma access_past_end s b x z buf : shape s !! b = Some x → size x ≤ z → block_read b z s = Undef ∧ block_write b z buf s = Undef.
Proof.
  unfold shape. rewrite list_lookup_fmap. intros (x' & Hx' & ->)%fmap_Some Hz. cbn in Hz.
  assert (get_block b s = Done (x', s)) as Hg by (unfold get_block, mbind, M_bind, get; by rewrite Hx').
  assert (check_sector x' z s = Undef) as Hk by (unfold check_sector; by rewrite bool_decide_true).
  unfold block_read, block_write. cbn [read_depth write_depth]. unfold mbind, M_bind. by rewrite Hg, Hk.
Qed.

(** Block devices are windows on the sectors of the disks.  Writing a
    sector of a device that is not foreign and reading any sector of any device afterwards
    gives what was written if both lie at the same place of the same disk, and what was
    there before otherwise.  The sectors of a partition lie where those of its device
    from its start on lie, distinct sectors of a device at distinct places; an access
    past the end of a device panics. *)
Theorem blocks_are_windows s b sector buf c sector' :
  wf s → in_range s b sector → may_write s b → in_range s c sector' →
  (∃ old s1 s2, content s c sector' = Some old ∧ block_write b sector buf s = Done (tt, s1) ∧
     block_read c sector' s1 = Done (if decide (location s c sector' = location s b sector) then buf else old, s2) ∧
     wf s2 ∧ shape s2 = shape s ∧ disks s2 = disks s1) ∧
  (∀ x p start, shape s !! b = Some x → ops x = Partition p start → location s b sector = location s p (start + sector)) ∧
  (∀ z, location s b sector = location s b z → sector = z) ∧
  (∀ x z, shape s !! b = Some x → size x ≤ z → block_read b z s = Undef ∧ block_write b z buf s = Undef).
Proof.
  intros Hwf Hb Hw Hc. split_and!.
  - destruct (place_ok s (S c) Hwf c sector' ltac:(lia) Hc) as (dc & kc & secs & Hpc & Hdc & Hkc). destruct (lookup_lt_is_Some_2 secs (Z.to_nat kc)) as [old Hold]; [lia|].
    assert (wp Full (block_write b sector buf) (λ _ s1, ∃ d k, location s b sector = Some (d, k) ∧ stored d k buf s s1) s) as H1.
    { apply (wp_write_depth s (S b) buf Hwf); [lia|done|done|]. intros s2 d k Hp Hs2. by exists d, k. }
    apply wp_total_run in H1 as ([] & s1 & E1 & d & k & Hp & Hst). pose proof (wf_stored _ _ _ _ _ Hwf Hst) as Hwf1. destruct Hst as (Hsh & Hds & _).
    assert (wp Full (block_read c sector') (λ r s2, same s1 s2 ∧ r = if decide (location s c sector' = location s b sector) then buf else old) s1) as H2.
    { apply (wp_read_depth s1 (S c) Hwf1); [done|lia|unfold in_range; by rewrite Hsh|]. intros r s2 d' k' secs' Hp' Hd' Hr Hs2. split; [done|].
      rewrite Hsh, Hpc in Hp'. injection Hp' as <- <-. assert (location s c sector' = Some (dc, kc)) as Lc by done. rewrite Hds in Hd'.
      destruct (place_ok s (S b) Hwf b sector ltac:(lia) Hb) as (d2 & k2 & secs2 & Hp2 & Hd2 & Hk2). assert (d2 = d ∧ k2 = k) as [-> ->] by (unfold location in Hp; rewrite Hp2 in Hp; by injection Hp).
      destruct (decide (dc = d)) as [->|Hne].
      - rewrite list_lookup_alter_eq, Hdc in Hd'. injection Hd' as <-. destruct (decide (kc = k)) as [->|Hnk].
        + rewrite decide_True by congruence. rewrite list_lookup_insert_eq in Hr by lia. by injection Hr.
        + rewrite decide_False by congruence. rewrite list_lookup_insert_ne in Hr by lia. congruence.
      - rewrite list_lookup_alter_ne, Hdc in Hd' by done. injection Hd' as <-. rewrite decide_False by congruence. congruence. }
    apply wp_total_run in H2 as (r & s2 & E2 & Hsame & ->). exists old, s1, s2. split_and!; [|done|done|by eapply wf_same|by rewrite (proj1 Hsame), Hsh|apply Hsame].
    unfold content, location. rewrite Hpc. cbn. by rewrite Hdc.
  - intros x p start Hx Hops. eapply place_partition; [done|done|done|]. destruct Hb as (x' & Hx' & ?). assert (x' = x) as -> by congruence. done.
  - intros z. by apply location_inj.
  - intros x z Hx Hz. by eapply access_past_end.
Qed.

(** ** Scanning a disk *)

Definition grants (s : devices) : Prop := Forall (λ a, a = true) (answers s).

(** [s'] has the devices [new] more, and nothing but messages and counters has changed
    otherwise. *)
Definition adds (new : list block) (s s' : devices) : Prop :=
  shape s' = shape s ++ new ∧ disks s' = disks s ∧ block_by_role s' = block_by_role s ∧ grants s'.

Lemma adds_trans l1 l2 s1 s2 s3 : adds l1 s1 s2 → adds l2 s2 s3 → adds (l1 ++ l2) s1 s3.
Proof. intros (A1 & A2 & A3 & A4) (B1 & B2 & B3 & B4). split_and!; [by rewrite B1, A1, app_assoc|congruence|congruence|done]. Qed.

Lemma wp_grant t s (Q : bool → devices → Prop) : grants s → (∀ s', adds [] s s' → Q true s') → wp t malloc Q s.
Proof.
  intros Hg HQ. unfold malloc. apply wp_bind, wp_get. unfold grants in Hg. destruct (answers s) as [|a l] eqn:E.
  - apply wp_ret, HQ. split_and!; [by rewrite app_nil_r|done|done|]. unfold grants. by rewrite E.
  - inversion Hg as [|? ? -> Hl]; subst. apply wp_bind, wp_modify, wp_ret, HQ. split_and!; [by rewrite app_nil_r|done|done|exact Hl].
Qed.

(** What a table entry adds *)
Definition new_partition (b : nat) (x : block) (part_type start sz part_nr : Z) : list block :=
  if decide (start < size x ∧ start + sz ≤ size x)
  then [Block (take 15 (name x ++ decimal part_nr)) (type_of part_type) sz (Partition b start) 0 0] else [].

Lemma wp_found t s b x ty start sz nr (Q : unit → devices → Prop) :
  grants s → shape s !! b = Some x → 0 ≤ size x < 2 ^ 32 → 0 ≤ start < 2 ^ 32 → 0 ≤ sz < 2 ^ 32 →
  (∀ s', adds (new_partition b x ty start sz nr) s s' → Q tt s') → wp t (found_partition b ty start sz nr) Q s.
Proof.
  intros Hg Hx Hsx Hst Hsz HQ. unfold found_partition, block_size. apply wp_bind, wp_bind. eapply wp_get_block; [done|]. intros x1 (E1 & _)%uncounted_fields.
  apply wp_ret. rewrite E1. assert (∀ m s0, adds [] s s0 → adds [] s (Devices (all_blocks s0) (block_by_role s0) (disks s0) (answers s0) m)) as Hmsg by done.
  assert (adds [] s s) as Hrefl by (split_and!; [by rewrite app_nil_r|done|done|done]). unfold new_partition in HQ.
  destruct (decide (size x ≤ start)) as [Hs|Hs]; [rewrite bool_decide_true by done|rewrite bool_decide_false by done].
  { rewrite decide_False in HQ by lia. apply wp_modify, HQ. by apply Hmsg. }
  destruct (decide (start + sz ≤ size x)) as [Hfit|Hfit].
  - unfold wrap_u32. rewrite Z.mod_small, !bool_decide_false by lia. cbn [orb]. rewrite decide_True in HQ by lia.
    apply wp_bind, wp_grant; [done|]. intros s1 Hs1. apply wp_bind, wp_check; [done|]. pose proof Hs1 as (Hsh & _ & _ & Hg1). rewrite app_nil_r in Hsh.
    apply wp_bind. unfold block_name. apply wp_bind. eapply wp_get_block; [by rewrite Hsh|]. intros x2 (_ & _ & _ & E2)%uncounted_fields. apply wp_ret.
    apply wp_bind. unfold block_register. apply wp_bind, wp_grant; [done|]. intros s2 Hs2. apply wp_bind, wp_check; [done|]. apply wp_bind, wp_get, wp_bind, wp_modify, wp_bind, wp_modify, wp_ret, wp_ret.
    apply HQ. pose proof (adds_trans _ _ _ _ _ Hs1 Hs2) as (F1 & F2 & F3 & F4). rewrite app_nil_r in F1. split_and!; [|done|done|done].
    unfold shape in *. cbn. rewrite fmap_app, F1. cbn. rewrite E2, take_take, Nat.min_id. done.
  - rewrite decide_False in HQ by lia. assert (bool_decide (wrap_u32 (start + sz) < start) || bool_decide (size x < wrap_u32 (start + sz)) = true) as ->.
    { apply orb_true_iff. unfold wrap_u32. destruct (decide (start + sz < 2 ^ 32)); [right|left]; apply bool_decide_true; lia. }
    apply wp_modify, HQ. by apply Hmsg.
Qed.

Lemma wf_adds s s' b x ty start sz nr : wf s → shape s !! b = Some x → 0 ≤ start → 0 ≤ sz < 2 ^ 32 → adds (new_partition b x ty start sz nr) s s' → wf s'.
Proof.
  intros Hwf Hx Hst Hsz (Hsh & Hds & _) i y. rewrite Hsh, Hds. intros [Hy|[Hlen Hy]]%lookup_app_Some.
  - destruct (Hwf i y Hy) as [H1 H2]. split; [done|]. destruct (ops y) as [d|p st]; [done|]. destruct H2 as (? & ? & z & Hz & ?). split_and!; [done|done|].
    exists z. split; [|done]. apply lookup_app_Some. by left.
  - unfold new_partition in Hy. case_decide as Hfit; [|done]. apply list_lookup_singleton_Some in Hy as [Hi <-]. apply lookup_lt_Some in Hx as Hb.
    split; [done|]. cbn. split_and!; [lia|done|]. exists x. split; [|lia]. apply lookup_app_Some. by left.
Qed.

(** Entries with words of 32 bits; those that count; extended ones *)
Definition entry_words (e : partition_table_entry) : Prop := 0 ≤ e_offset e < 2 ^ 32 ∧ 0 ≤ e_size e < 2 ^ 32.
Definition counts (e : partition_table_entry) : Prop := e_size e ≠ 0 ∧ e_type e ≠ 0.
Definition extended (e : partition_table_entry) : Prop := counts e ∧ is_extended (e_type e) = true.

(** The partitions that a table without extended entries describes *)
Fixpoint listed (b : nat) (x : block) (es : list partition_table_entry) (part_nr : Z) : list block :=
  match es with
  | [] => []
  | e :: es =>
      if decide (e_size e ≠ 0 ∧ e_type e ≠ 0)
      then new_partition b x (e_type e) (e_offset e) (e_size e) (part_nr + 1) ++ listed b x es (part_nr + 1)
      else listed b x es part_nr
  end.

(** An entry that is not extended *)
Definition plain_step (b : nat) (sector : Z) (e : partition_table_entry) (nr : Z) : M devices Z :=
  if bool_decide (e_size e = 0) || bool_decide (e_type e = 0) then mret nr
  else found_partition b (e_type e) (wrap_u32 (e_offset e + sector)) (e_size e) (nr + 1);; mret (nr + 1).

Lemma scan_plain table b sector pri e es nr s : ¬ extended e →
  scan_entries table b sector pri (e :: es) nr s = (nr ← plain_step b sector e nr; scan_entries table b sector pri es nr) s.
Proof.
  intros He. cbn [scan_entries]. unfold plain_step. destruct (bool_decide (e_size e = 0) || bool_decide (e_type e = 0)) eqn:E; [done|].
  destruct (is_extended (e_type e)) eqn:Ex; [|done]. destruct He. apply orb_false_iff in E as [E1%bool_decide_eq_false E2%bool_decide_eq_false]. done.
Qed.

Section scan.
Context (b : nat) (x : block).

Record ready (s : devices) : Prop := { rd_wf : wf s; rd_grants : grants s; rd_block : shape s !! b = Some x }.

Lemma ready_size s : ready s → 0 ≤ size x < 2 ^ 32.
Proof. intros [Hwf _ Hx]. by destruct (Hwf b x Hx). Qed.

Lemma wp_plain_step s sector e nr (Q : Z → devices → Prop) :
  ready s → entry_words e → 0 ≤ sector < 2 ^ 32 →
  (∀ s', ready s' → adds (if decide (counts e) then new_partition b x (e_type e) (wrap_u32 (e_offset e + sector)) (e_size e) (nr + 1) else []) s s' →
     Q (if decide (counts e) then nr + 1 else nr) s') →
  wp Full (plain_step b sector e nr) Q s.
Proof using Type.
  intros Hr [Ho Hs] Hsec HQ. pose proof (ready_size s Hr) as Hsx. destruct Hr as [Hwf Hg Hx]. unfold plain_step, counts in *.
  destruct (decide (e_size e ≠ 0 ∧ e_type e ≠ 0)) as [Hc|Hc].
  - rewrite !bool_decide_false by tauto. cbn [orb]. assert (0 ≤ wrap_u32 (e_offset e + sector) < 2 ^ 32) as Hw by (unfold wrap_u32; lia).
    apply wp_bind. apply (wp_found Full s b x); try done. intros s' Hs'. apply wp_ret, HQ; [|done].
    split; [exact (wf_adds s s' b x _ _ _ _ Hwf Hx (proj1 Hw) Hs Hs')|apply Hs'|]. rewrite (proj1 Hs'). apply lookup_app_Some. by left.
  - assert (bool_decide (e_size e = 0) || bool_decide (e_type e = 0) = true) as ->.
    { apply orb_true_iff. destruct (decide (e_size e = 0)); [left|right]; apply bool_decide_true; [done|]. destruct (decide (e_type e = 0)); [done|]. by destruct Hc. }
    apply wp_ret, HQ; [done|]. split_and!; [by rewrite app_nil_r|done|done|done].
Qed.

Lemma wp_scan_primary table pri es : Forall entry_words es → Forall (λ e, ¬ extended e) es → ∀ s nr (Q : Z → devices → Prop),
  ready s → (∀ s' nr', ready s' → adds (listed b x es nr) s s' → Q nr' s') → wp Full (scan_entries table b 0 pri es nr) Q s.
Proof using Type.
  induction es as [|e es IH]; intros Hw He s nr Q Hr HQ.
  { apply wp_ret, HQ; [done|]. split_and!; [by rewrite app_nil_r|done|done|apply Hr]. }
  apply Forall_cons in Hw as [Hw1 Hw], He as [He1 He]. unfold wp. rewrite scan_plain by done. apply wp_bind.
  apply wp_plain_step; [done|done|lia|]. intros s1 Hr1 Ha1. rewrite Z.add_0_r in Ha1. unfold wrap_u32 in Ha1. rewrite Z.mod_small in Ha1 by (destruct Hw1; lia).
  apply (IH Hw He); [done|]. intros s2 nr2 Hr2 Ha2. apply HQ; [done|]. pose proof (adds_trans _ _ _ _ _ Ha1 Ha2) as Ha. cbn [listed]. unfold counts in *.
  by destruct (decide (e_size e ≠ 0 ∧ e_type e ≠ 0)).
Qed.

(** Reading sector 0, whatever the sector of the table *)
Definition from_table (n : nat) (sector pri nr : Z) (pt : list Z) : M devices Z :=
  if bool_decide (signature pt ≠ 0xaa55) then
    printf (if bool_decide (pri = 0) then InvalidSignature else InvalidExtended sector);; mret nr
  else scan_entries (read_partition_table n b) b sector pri (partitions pt) nr.

Lemma table_reads n sector pri nr s pt :
  ready s → content s b 0 = Some pt → 0 ≤ sector < size x →
  ∃ s', ready s' ∧ adds [] s s' ∧ read_partition_table (S n) b sector pri nr s = from_table n sector pri nr pt s'.
Proof using Type.
  intros Hr Hpt Hs. pose proof Hr as [Hwf Hg Hx].
  assert (wp Full (bsize ← block_size b; ok ← malloc; check ok;; block_read b 0) (λ r s', r = pt ∧ ready s' ∧ adds [] s s') s) as Hw.
  { apply wp_bind. unfold block_size. apply wp_bind. eapply wp_get_block; [done|]. intros x1 _. apply wp_ret. apply wp_bind, wp_grant; [done|]. intros s1 Hs1.
    pose proof Hs1 as (Hsh & Hds & Hro & Hg1). rewrite app_nil_r in Hsh. assert (wf s1) as Hwf1 by (intros i y; rewrite Hsh, Hds; apply Hwf).
    apply wp_bind, wp_check; [done|]. apply (wp_read_depth s1 (S b) Hwf1); [done|lia|exists x; rewrite Hsh; split; [done|lia]|].
    intros buf s2 d k secs Hp Hd Hb Hs2. unfold content, location in Hpt. rewrite Hsh in Hp. rewrite Hp in Hpt. cbn in Hpt. rewrite Hds in Hd. rewrite Hd in Hpt. cbn in Hpt. rewrite Hb in Hpt.
    pose proof Hs2 as (Hsh2 & Hds2 & Han2 & Hro2 & _). split_and!; [congruence| |].
    - split; [by eapply wf_same|unfold grants; by rewrite Han2|by rewrite Hsh2, Hsh].
    - split_and!; [by rewrite Hsh2, Hsh, app_nil_r|congruence|congruence|unfold grants; by rewrite Han2]. }
  apply wp_total_run in Hw as (r & s' & E & -> & Hr' & Ha). exists s'. split_and!; [done|done|]. cbn [read_partition_table]. unfold mbind, M_bind in *.
  unfold block_size, mbind, M_bind in *. destruct (get_block b s) as [[x1 s1]| |] eqn:Eg; [|done|done].
  assert (size x1 = size x) as E1.
  { unfold get_block, mbind, M_bind, get in Eg. unfold shape in Hx. rewrite list_lookup_fmap in Hx. destruct (all_blocks s !! b) as [y|]; [|done]. cbn in Eg, Hx. injection Eg as <- _. by injection Hx as <-. }
  cbn in *. rewrite E1, bool_decide_false by lia. destruct (malloc s1) as [[a s2]| |]; [|done|done]. destruct (check a s2) as [[u s3]| |]; [|done|done]. by rewrite E.
Qed.

(** *** A table with an extended partition *)

(** The entries before an extended one are registered, whatever the sector. *)
Lemma scan_to_extended table sector pri pre e post : Forall entry_words pre → Forall (λ e, ¬ extended e) pre → 0 ≤ sector < 2 ^ 32 →
  ∀ s nr, ready s → ∃ s' nr', ready s' ∧ disks s' = disks s ∧ shape s `prefix_of` shape s' ∧
    scan_entries table b sector pri (pre ++ e :: post) nr s = scan_entries table b sector pri (e :: post) nr' s'.
Proof using Type.
  intros Hw He Hsec. induction pre as [|e0 pre IH]; intros s nr Hr; [by exists s, nr|].
  apply Forall_cons in Hw as [Hw1 Hw], He as [He1 He]. cbn [app].
  assert (wp Full (plain_step b sector e0 nr) (λ _ s1, ready s1 ∧ disks s1 = disks s ∧ shape s `prefix_of` shape s1) s) as Hs.
  { apply wp_plain_step; [done|done|done|]. intros s1 Hr1 (Hsh & Hds & _). split_and!; [done|done|]. rewrite Hsh. by eexists. }
  apply wp_total_run in Hs as (nr1 & s1 & E & Hr1 & Hd1 & Hp1). destruct (IH Hw He s1 nr1 Hr1) as (s2 & nr2 & Hr2 & Hd2 & Hp2 & E2).
  exists s2, nr2. split_and!; [done|congruence|by etrans|]. rewrite scan_plain by done. unfold mbind, M_bind. by rewrite E, E2.
Qed.

(** A sector of the device is where it was when devices are added behind it. *)
Lemma content_extends s s' : wf s → shape s `prefix_of` shape s' → disks s' = disks s → shape s !! b = Some x → 0 < size x → content s' b 0 = content s b 0.
Proof using Type.
  intros Hwf [l Hl] Hd Hx Hsz. unfold content, location.
  assert (∀ n c z, (c < n)%nat → is_Some (shape s !! c) → place n (shape s') c z = place n (shape s) c z) as Hpl; [|by rewrite Hpl, Hd by (lia || by eexists)].
  clear - Hwf Hl. induction n as [|n IH]; intros c z Hc [y Hy]; [lia|]. cbn [place]. rewrite Hl, lookup_app_l by (by eapply lookup_lt_Some). rewrite Hy. cbn.
  destruct (Hwf c y Hy) as [_ Ho]. destruct (ops y) as [d|p start]; [done|]. destruct Ho as (Hp & _ & w & Hw & _). rewrite <- Hl. apply IH; [lia|by eexists].
Qed.

Lemma adds_prefix l s s' : adds l s s' → shape s `prefix_of` shape s' ∧ disks s' = disks s.
Proof using Type. intros (Hsh & Hd & _). split; [rewrite Hsh; by eexists|done]. Qed.

Lemma words_of pt : Forall (λ c, 0 ≤ c < 256) pt → Forall entry_words (partitions pt).
Proof using Type.
  intros Hb. assert (∀ o, 0 ≤ byte_of pt o < 256) as Hbyte.
  { intros o. unfold byte_of. destruct (pt !! o) as [c|] eqn:Ec; cbn; [|lia]. rewrite Forall_lookup in Hb. by apply (Hb o). }
  assert (∀ o, 0 ≤ word_of pt o < 2 ^ 32) as Hword.
  { intros o. unfold word_of. pose proof (Hbyte o). pose proof (Hbyte (o + 1)%nat). pose proof (Hbyte (o + 2)%nat). pose proof (Hbyte (o + 3)%nat). lia. }
  unfold partitions. apply Forall_fmap, Forall_forall. intros i _. by split; apply Hword.
Qed.

Section loops.
Context (pt : list Z) (pre post : list partition_table_entry) (e : partition_table_entry).
Context (Hbytes : Forall (λ c, 0 ≤ c < 256) pt) (Hsig : signature pt = 0xaa55) (Hpt : partitions pt = pre ++ e :: post).
Context (Hpre : Forall (λ e, ¬ extended e) pre) (He : extended e) (Hpos : 0 < e_offset e) (Hfit : 2 * e_offset e < size x).

(** Every table at a sector but 0 leads to the one at twice the offset. *)
Lemma table_loops n : ∀ sector nr s, ready s → content s b 0 = Some pt → 0 ≤ sector < size x →
  read_partition_table n b sector (if decide (sector = 0) then 0 else e_offset e) nr s = NoFuel.
Proof using All.
  induction n as [|n IH]; intros sector nr s Hr Hc Hs; [done|]. pose proof (ready_size s Hr) as Hsx.
  destruct (table_reads n sector (if decide (sector = 0) then 0 else e_offset e) nr s pt Hr Hc Hs) as (s1 & Hr1 & Ha1 & ->).
  unfold from_table. rewrite bool_decide_false by (rewrite Hsig; by intros []). rewrite Hpt. apply adds_prefix in Ha1 as [Hp1 Hd1].
  pose proof (words_of pt Hbytes) as Hw. rewrite Hpt in Hw. apply Forall_app in Hw as [Hw _].
  destruct (scan_to_extended (read_partition_table n b) sector (if decide (sector = 0) then 0 else e_offset e) pre e post Hw Hpre ltac:(lia) s1 nr Hr1) as (s2 & nr2 & Hr2 & Hd2 & Hp2 & ->).
  assert (∀ m, ready (Devices (all_blocks s2) (block_by_role s2) (disks s2) (answers s2) m) ∧
    content (Devices (all_blocks s2) (block_by_role s2) (disks s2) (answers s2) m) b 0 = Some pt) as Hms.
  { intros m. split; [by destruct Hr2|]. rewrite <- Hc. destruct Hr as [Hwf _ Hx].
    apply (content_extends s); [done|change (shape s `prefix_of` shape s2); by etrans|cbn; congruence|done|lia]. }
  cbn [scan_entries]. destruct He as [[Hn1 Hn2] Hext]. rewrite !bool_decide_false by done. rewrite Hext. cbn [orb].
  unfold printf, modify, mbind, M_bind. cbn beta iota.
  destruct (Hms (console s2 ++ [ExtendedIn sector])) as [Hrm Hcm]. destruct (decide (sector = 0)) as [->|Hne].
  - rewrite bool_decide_true by done. pose proof (IH (e_offset e) nr2 _ Hrm Hcm ltac:(lia)) as E. rewrite decide_False in E by lia. by rewrite E.
  - rewrite bool_decide_false by done. unfold wrap_u32. rewrite Z.mod_small by lia.
    pose proof (IH (e_offset e + e_offset e) nr2 _ Hrm Hcm ltac:(lia)) as E. rewrite decide_False in E by lia. by rewrite E.
Qed.
End loops.


End scan.

(** ** Two disks *)

Definition table_entry (part_type offset sz : Z) : list Z := [0; 0; 0; 0; part_type; 0; 0; 0; offset; 0; 0; 0; sz; 0; 0; 0].
Definition table_sector (es : list Z) : list Z := replicate 446 0 ++ es ++ replicate (64 - length es) 0 ++ [0x55; 0xaa].

(** A disk of 64 sectors behind one device *)
Definition one_disk (sector0 : list Z) : devices :=
  Devices [Block [104; 100; 97] BLOCK_RAW 64 (Driver 0) 0 0] (λ _, None) [sector0 :: replicate 63 (replicate 512 0)] [] [].

(** A file system in sectors 2 to 31, scratch in 32 to 63, and a partition that does not fit *)
Definition plain_table : list Z := table_sector (table_entry 0x21 2 30 ++ table_entry 0x22 32 32 ++ table_entry 0x20 60 9).
(** The same file system and an extended partition at sector 8 *)
Definition extended_table : list Z := table_sector (table_entry 0x21 2 6 ++ table_entry 0x05 8 40).

Lemma one_disk_wf sector0 : wf (one_disk sector0).
Proof.
  intros i y. change (shape (one_disk sector0)) with [Block [104; 100; 97] BLOCK_RAW 64 (Driver 0) 0 0].
  intros [-> <-]%list_lookup_singleton_Some. split; [cbn; lia|]. eexists. split; [reflexivity|]. cbn [length size]. rewrite length_replicate. lia.
Qed.


(** The two partitions of the disk above do not share a sector. *)
Example partitions_apart :
  match partition_scan 1 0 (one_disk plain_table) with
  | Done (_, s) => match block_write 1 29 [7] s with
                   | Done (_, s1) => match block_read 0 31 s1, block_read 2 0 s1 with Done (u, _), Done (v, _) => u = [7] ∧ v = replicate 512 0 | _, _ => False end
                   | _ => False end
  | _ => False end.
Proof. vm_compute. done. Qed.
